(* ===== verification/_CoqProject ===== *)
-Q . S2P
Prelude.v
Bytes.v
Commands.v
StateMachine.v
Ledger.v
Progress.v
Snapshot.v
SnapshotBytes.v
Replay.v
Roster.v
RaftTypes.v
RaftCore.v
RaftLog.v
Durability.v
Wire.v
RaftTyped.v
Store.v
StoreRefines.v
StoreRecovery.v
LocalSnapshot.v
FailClosed.v
SingleNode.v
Driver.v
DriverSafety.v
Coalesce.v
RaftRules.v
Transfer.v
Election.v
Cluster.v
RaftFindings.v
Cell.v
Detector.v
NameCache.v
Partition.v
RemoteCall.v
Liveness.v
Trail.v
Mux.v
MuxStream.v
Session.v
BulkFlow.v
RpcCall.v
Txn.v
Operation.v
OpStore.v
OpInv.v
OpSteps.v
OpCalls.v
OpOutbox.v
OpRuns.v
FiberMeter.v
Fibers.v
FiberInv.v
FiberRuns.v
FiberWaits.v
Outbox.v
Pipeline.v
Clock.v
Identity.v
IdentityRefines.v
IdentityRuns.v
Capability.v
CapRefines.v
CapRuns.v
