(* ===== verification/Prelude.v ===== *)
(** * llmos control plane: verification library

    llmos is a Rust workspace for a single-node and multi-host control plane of
    LLM agents. This library verifies its consensus crate, nlos-consensus (the
    replicated control-plane state machine and the Raft core that replicates
    it), the Cell crate, nlos-cell (the fenced identity of a node and what it
    believes of others), the session layer of nlos-net (frames, calls and bulk
    transfers between nodes), and the operation pipeline of a node: the durable
    operation authority (nlos-operation, nlos-store), the outbox consumer
    (nlos-outbox) and the fiber runtime (nlos-runtime, nlos-runtime-tokio), and
    the authorities that decide who may do what: the clock (nlos-clock),
    identities and their keys (nlos-identity) and capabilities (nlos-capability).

    ** The program

    Clients propose control-plane commands. A proposal is encoded in a canonical
    frame (state_machine.rs), appended to the log of the leader, replicated to
    the other voters by the Raft core (core.rs), stored by every voter in SQLite
    before it answers (store.rs), and applied by every voter to its copy of the
    state machine once it is committed (state_machine.rs). A driver
    (net_driver.rs, single_node.rs) feeds ticks, proposals and messages to the
    core and performs the effects it returns.

    On each node, agents run as fibers that start external operations and wait
    for them. The authority stores every operation, issues one callback ticket
    for it, and writes an outbox entry in the transaction that ends it. A pump
    drains the outbox: it hands a wake to the fiber runtime, or a late effect to
    a reconciliation sink, and acknowledges the entry afterwards.

    An agent acts under a principal with a signing key and under capabilities.
    The identity authority binds keys to principals and judges signatures; the
    capability authority issues, delegates and revokes capabilities on commands
    that are signed under such a key, and admits and counts their uses; the clock
    authority hands out readings that never fall. Each keeps its own SQLite file.

    ** The files

    Data and the state machine (state_machine.rs):
    - [Prelude]: results, machine integers, record updates, ordered iteration
      over maps, sums over maps.
    - [Bytes]: big-endian integers and byte readers; the class [Sha256], the
      hash function as a parameter, and a concrete [checksum_hasher].
    - [Commands]: the commands, the scope guard, the canonical command encoding
      and the proposal frame.
    - [StateMachine]: the tables and [apply_committed_entry], one definition per
      command. A panic of the source is [None].
    - [Ledger], [Progress]: what committed commands guarantee.
    - [Snapshot], [SnapshotBytes]: the snapshot codec, and that it writes bytes.
    - [Replay]: the states that committed logs lead to.

    The replica (core.rs):
    - [Roster]: voter rosters, quorums and timing (also net_driver.rs).
    - [RaftTypes]: log entries, messages, inputs, effects and the replica state
      [ConsensusCore], its construction and rehydration.
    - [RaftCore]: [ConsensusCore::step] and every handler; a handler returns the
      new state and the effects, in the order of the source.
    - [RaftLog]: the log invariant of a replica, an abstract specification of
      durable storage, and the proof that every step meets both.
    - [Durability]: runs of a replica against that storage, and local snapshots.
    - [RaftTyped]: every field stays within its machine type.
    - [RaftRules]: the decisions of the individual handlers.
    - [Transfer]: leader and follower exchange a snapshot to its end.
    - [RaftFindings]: executions that break an intended guarantee.

    Storage (store.rs):
    - [Store]: the SQLite tables with their constraints and triggers, the
      snapshot files, and every operation of [SqliteConsensusStore], recovery
      included. A store operation returns a value, an error, or [None] for a
      panic, and a failed transaction leaves the tables as they were.
    - [StoreRefines]: the tables implement the abstract storage of [RaftLog].
    - [StoreRecovery]: recovery of what is stored, and crashes at any point.
    - [FailClosed]: recovery of arbitrary tables and files.
    - [LocalSnapshot]: taking a snapshot and compacting the log.

    Nodes (single_node.rs, net_driver.rs):
    - [SingleNode]: the node of a single host.
    - [Wire]: the frames of Raft messages.
    - [Driver]: the state a node of a cluster guards with its mutex, the step
      that persists before it answers, waiting clients, start-up, the RPC
      handler, the coalescing workers, compaction and shutdown.
    - [DriverSafety]: replica, store and answers of a driver agree.
    - [Coalesce]: what the workers drop.
    - [Election]: clusters of replicas over an unreliable network with restarts.
    - [Cluster]: clusters of drivers with their disks, queues and frames, and
      their simulation by those of [Election].

    Cells (nlos-cell):
    - [Cell]: identities, epochs, fences and the persisted boot generation
      (lib.rs).
    - [Detector]: the failure detector (failure_detector.rs).
    - [NameCache]: the capability and name cache (name_cache.rs).
    - [Partition]: the gate on work under partition (partition.rs) and the clock
      guard of a link (clock_liveness.rs).
    - [RemoteCall]: outcomes and retries of remote calls (partition.rs) and the
      classification of transport failures and fan-outs (nlos-net, failure.rs).
    - [Liveness], [Trail]: cross-host heartbeats and the hash-chained trail of
      checkpoints (clock_liveness.rs).

    Sessions (nlos-net):
    - [Mux], [MuxStream]: the frames, and writing and reading them over a byte
      stream (frame.rs).
    - [Session]: the shared state of a multiplexed session, dispatch of inbound
      frames and the bulk reader (mux.rs).
    - [BulkFlow]: a sender and a receiver of a bulk transfer over one link.
    - [RpcCall]: calls and the strict-priority writer.

    The operation pipeline:
    - [Operation]: the state machine of one operation and the in-memory registry
      (nlos-operation).
    - [Txn]: transactions on SQLite tables as a state and error monad, their
      weakest preconditions, and queries and insertions; the authorities share it.
    - [OpStore]: the tables, constraints and triggers of the durable authority
      and every operation of [SqliteOperationStore] (nlos-store).
    - [OpInv], [OpSteps], [OpCalls], [OpOutbox]: the invariant of the tables and
      the specification of every operation.
    - [OpRuns]: sequences of requests to the authority.
    - [FiberMeter]: the types of nlos-runtime, the record of a fiber and the
      accounting of its time (nlos-runtime-tokio, lib.rs).
    - [Fibers]: fiber and scope registries, the life of a task, waits and wakes
      (nlos-runtime-tokio, lib.rs, wake.rs, batch_cancel.rs). Records, scopes
      and channels shared by threads are locations of a store.
    - [FiberInv], [FiberRuns], [FiberWaits]: the invariant of the registries,
      histories of the runtime, and what a wait can rely on. An operation that
      looks a record up and then locks it is one step of a sequential history,
      and two steps of an interleaved one.
    - [Outbox]: the consumer against the interfaces [OutboxSource], [WakeSink]
      and [ReconcileSink] (nlos-outbox), and the pump (pump.rs).
    - [Pipeline]: authority, consumer, pump and runtime together.

    Clock, identities and capabilities:
    - [Clock]: the two clock domains with their triggers and migrations, and the
      abstract clock they implement (nlos-clock).
    - [Identity]: the tables of the identity authority, its migrations and every
      operation of [IdentityAuthority] (nlos-identity); the class [Ed25519] is
      the signature scheme as a parameter.
    - [IdentityRefines], [IdentityRuns]: the abstract authority, the relation of
      the tables to it, and sequences of requests and reopens.
    - [Capability]: rights, targets, tables and every operation of
      [CapabilityAuthority] (nlos-capability). A command reads the identity
      authority up to three times, from tables that may have changed in between.
    - [CapRefines]: the abstract authority and the relation of the tables to it.
    - [CapRuns]: both authorities together, with other threads at work between
      the reads of a command, and the log of what was answered.

    ** Conventions

    Integers of any width are [Z], with range predicates ([u64], [u32], ...) as
    hypotheses and saturation written out. Fixed-size byte arrays (identities,
    digests, keys) are [Z] too, big-endian; other byte strings are lists of [Z].
    A [BTreeMap] is a [gmap] iterated in key order with [btree_iter], a
    [BTreeSet] a [gset]. All definitions are total and executable. Every loop of
    the source walks a list, a map or an index range, but for the pump, which
    drains until nothing is left: [pump_awake] takes fuel, and one unit more than
    the outbox has rows is enough ([announcements_delivered]).

    ** The theorems

    - Commands: proposals survive the wire ([decode_wire_encode_wire]), only
      canonical frames are accepted ([decode_wire_canonical]), and data-plane
      tags are refused ([decode_wire_scope_guard]).
    - State machine: quota is conserved and nothing panics
      ([quota_conservation]), capacity is not oversubscribed
      ([capacity_not_oversubscribed]), retries are idempotent
      ([retry_is_idempotent]), an authority is taken over at most once
      ([takeover_at_most_once]), fencing is permanent
      ([stale_fencing_token_rejected]), devices are exclusive
      ([device_exclusive]), and rejections change nothing but one documented
      table ([rejection_frame]).
    - Snapshots: decoding never panics ([decode_snapshot_total]) and restores
      the state of any committed log ([snapshot_round_trip]).
    - Configuration: validation is exact ([roster_new_exact]), quorums intersect
      ([accepted_quorums_intersect]), and staggered timings are valid and apart
      ([staggered_timing_separates]).
    - A replica: storage follows it through any run ([run_refines_storage]),
      history is immutable ([committed_history_immutable]), committed entries
      are delivered once and in order ([committed_entries_in_order]), a restart
      resumes ([restart_resumes]), and no field leaves its type
      ([run_stays_typed]).
    - The rules: commitment ([leader_commit_rule]), linearizable reads
      ([linearizable_read_rule]), acknowledged appends
      ([acknowledged_append_is_held]), pre-votes ([pre_vote_is_harmless]) and
      fencing of proposals ([proposals_are_fenced]); a snapshot transfer
      completes ([snapshot_transfer_completes]).
    - The store: it refines the abstract storage ([durable_effects_refine]), a
      crash at any point of a batch recovers to before or after it
      ([crash_recovery]), and recovery fails closed whatever the disk holds
      ([recovery_fails_closed]).
    - A single host: every proposal is committed ([single_host_commits]),
      crashes lose nothing that was acknowledged ([single_host_survives_crash]),
      and neither does compaction ([compaction_loses_nothing]).
    - Messages: they survive the wire ([raft_message_round_trip]), only
      canonical frames are accepted ([raft_message_canonical]), and coalescing
      drops only what is redundant ([coalesce_drops_redundant]).
    - A driver: it answers only after it has persisted
      ([driver_persists_first]) and is silent after a failure
      ([driver_fails_closed]).
    - The cluster: at most one leader per term ([election_safety]) and one vote
      per term ([one_vote_per_term]) for replicas over lossy networks and
      restarts; the deployed cluster, with drivers, disks and frames, refines
      it ([deployment_refines]) and so has at most one leader per term
      ([deployed_election_safety]).
    - Cells: a superseded fence is never admitted again
      ([superseded_fences_refused]), revoked names stay revoked
      ([revocation_is_permanent]), judgments are numbered history
      ([judgments_are_history]), autonomy is confined to a partition
      ([partition_autonomy_confined]), replayed heartbeats revive nobody
      ([replays_never_revive]), and a trail of checkpoints is tamper-evident
      ([trail_is_tamper_evident]).
    - Remote calls: nothing that may have run is retried blindly
      ([no_blind_retry]), a fan-out reports no more than its shards
      ([fanout_is_honest]), and a call reported as unsent was not sent
      ([unavailable_means_unsent]), its own timeout excepted
      ([timed_out_call_is_still_sent], a finding).
    - Sessions: frames survive any partial writes ([mux_link_roundtrip]), the
      memory a peer can claim is bounded ([bulk_memory_bounded]), and a bulk
      transfer is exact ([bulk_transfer_exact]) and never stuck
      ([bulk_transfer_completes]).
    - Operations: nothing stored is ever inconsistent and every refusal is the
      caller's ([authority_never_corrupts]), an operation is dispatched once
      ([operations_dispatched_once]), announced once when it ends
      ([ended_operations_announced_once]), and a call is answered once
      ([calls_answered_once]).
    - Fibers: the registries agree ([registries_consistent]), an exit is handed
      to one joiner under any interleaving ([exit_joined_once]), a wait never
      hangs ([waits_never_hang]), an early wake is kept ([buffered_wake_kept]),
      a shutdown strands no wait ([shutdown_strands_nothing]), and time is
      charged once ([time_charged_once]).
    - The outbox: a drain acknowledges only what was applied
      ([drain_acks_applied_only]), the pump ends only for cause and never spins
      ([pump_ends_for_cause]), and every announcement reaches its fiber or its
      sink ([announcements_delivered]).
    - The clock: both domains answer as the abstract clock through crashes and
      reopens ([clock_refines]).
    - Identities: the authority implements the abstract one
      ([identity_refines]), a revoked key stays dead for every reader and every
      request ([revocation_is_final]), and snapshots show for good what they
      have shown ([snapshots_are_immutable]).
    - Capabilities: the authority implements the abstract one
      ([capability_refines]); every authorization goes back over signed,
      attenuating delegations to a root ([authority_traces_to_root]); a
      revocation stops everything that was delegated
      ([revocation_reaches_descendants]); limits are exact ([call_limits_hold]);
      and answered commands replay ([answered_commands_replay]).
    - Findings: a detach that comes late removes the successor of its fiber
      ([stale_detach_reaps_successor]), active time can exceed elapsed time
      ([active_time_exceeds_wall]), and a redelivered wake can wake a second
      wait ([redelivered_wake_wakes_twice]). Two replicas can commit different entries at one index
      ([committed_entries_diverge]), so leader completeness and state machine
      safety, which the Raft paper derives, do not hold of this core and are
      not claimed; compacting below a snapshot shifts the log
      ([partial_compaction_shifts_log]); a refused append can leave entries in
      the log that are never stored ([refused_append_leaves_unstored_entry]);
      and a follower more than 4096 entries behind refuses every append
      ([lagging_follower_refuses]).

    ** Assumptions

    SHA-256 is a function from byte strings to 32-byte digests; nothing about
    collisions is assumed: where an identifier derived from a digest is taken,
    the request is refused, which the refinements show as a cause of its own. An
    Ed25519 verification is a function of key, message and signature; that
    signatures cannot be forged is not assumed, so the theorems speak of
    signatures that verified. Of SQLite: a transaction is atomic, a committed one
    is durable, the pragmas are honoured and quick_check passes on what SQLite
    wrote. Of the file system: a file that was synced and renamed stays. Of a
    byte stream between nodes: what is taken is delivered in order.

    Of the process: clocks are readings passed to the operations, and a mutex
    makes its critical section one step.

    Steps are assumed not to run at the saturation point of a 64-bit counter,
    and appends to carry intact entries in index order ([RaftLog.input_ok]).
    The refinement of the store, and with it [Cluster.fits], assumes in addition
    that terms and indices fit SQLite's signed integers, commit indices fit 32
    bits, proposals are well-formed, and an installed snapshot decodes to the
    state its metadata names ([StoreRefines.effects_storable]); what the driver
    does when the store refuses is [driver_fails_closed].

    ** Not modelled

    The channel waits, the distributed scheduler, replay and snapshots of
    nlos-runtime-tokio, which build on authorities that are not modelled, and
    its health counters. The tokio tasks, TLS and sockets of net_driver.rs and nlos-net: a cluster or
    session takes the operations they call in any order, and a timeout is one of
    them. The endpoint resolver, the handshake and the certificates of nlos-net,
    the directory files of nlos-cell (federation.rs), and the other crates of
    the workspace. Formatting of errors and read-only accessors are left out. *)

From stdpp Require Export gmap list fin_maps sorting strings.
From Stdlib Require Export ZArith Lia.

#[global] Open Scope Z_scope.
#[export] Set Warnings "-clear-no-such-hyp".

(** ** Fallible results

    [Result<A, E>] of the source. *)
Inductive result (E A : Type) : Type :=
  | Ok (a : A)
  | Err (e : E).
Arguments Ok {E A} a.
Arguments Err {E A} e.

Lemma Ok_inj {E A} (a b : A) : @Ok E A a = Ok b -> a = b.
Proof. by intros [=]. Qed.

#[export] Instance result_ret {E} : MRet (result E) := fun A a => Ok a.
#[export] Instance result_bind {E} : MBind (result E) := fun A B k m =>
  match m with Ok a => k a | Err e => Err e end.

Definition map_err {E E' A} (f : E -> E') (r : result E A) : result E' A :=
  match r with Ok a => Ok a | Err e => Err (f e) end.

Definition ok_or {E A} (o : option A) (e : E) : result E A :=
  match o with Some a => Ok a | None => Err e end.

#[export] Instance result_eq_dec {E A} `{!EqDecision E, !EqDecision A} :
  EqDecision (result E A).
Proof. solve_decision. Defined.

(** ** Machine-width integers

    A [uN] of the source is a [Z] in [0, 2^N); the operations below write out
    the overflow behaviour of the Rust operations the code uses. *)
Definition u64_max : Z := 2 ^ 64 - 1.
Definition u32_max : Z := 2 ^ 32 - 1.
Definition i64_max : Z := 2 ^ 63 - 1.

Definition u64 (x : Z) : Prop := 0 <= x <= u64_max.
Definition u32 (x : Z) : Prop := 0 <= x <= u32_max.
Definition u16 (x : Z) : Prop := 0 <= x < 2 ^ 16.
Definition u8 (x : Z) : Prop := 0 <= x < 256.
(** [NonZeroU64] (also [Generation], [CellEpoch], [CellFencingToken]). *)
Definition nz64 (x : Z) : Prop := 1 <= x <= u64_max.
(** A 16-byte identifier, as the 128-bit number its bytes spell big-endian:
    the derived [Ord] of [[u8; 16]] is the order of these numbers. *)
Definition id16 (x : Z) : Prop := 0 <= x < 2 ^ 128.
(** A 32-byte digest, as a 256-bit number. *)
Definition dig32 (x : Z) : Prop := 0 <= x < 2 ^ 256.

Definition saturating_add64 (x y : Z) : Z := Z.min (x + y) u64_max.
Lemma saturating_add64_lt x y : x + y <= u64_max -> saturating_add64 x y = x + y.
Proof. unfold saturating_add64. lia. Qed.
Definition saturating_add32 (x y : Z) : Z := Z.min (x + y) u32_max.
Definition saturating_mul32 (x y : Z) : Z := Z.min (x * y) u32_max.
Definition saturating_sub64 (x y : Z) : Z := Z.max (x - y) 0.
Definition checked_add64 (x y : Z) : option Z :=
  if decide (x + y <= u64_max) then Some (x + y) else None.

(** ** Field updates of records

    [r <| f := v |>] is [r] with field [f] set to [v]: one [Setter] instance
    per field, generated from the record's eta expansion. *)
Class Eta (R : Type) := eta_expand : R -> R.
Class Setter {R T : Type} (proj : R -> T) := set_field : T -> R -> R.
Arguments set_field {R T} proj {_} v r /.

#[warnings="-postfix-notation-not-level-1"]
Notation "r <| f := v |>" := (set_field f v r)
  (at level 12, f at next level, v at level 200, left associativity,
   format "r  <| f  :=  v |>") : stdpp_scope.

(** Builds the setter of [proj] by abstracting the projection in the eta
    expansion of the record. *)
Ltac build_setter :=
  match goal with
  | |- @Setter ?R ?T ?proj =>
      let f := constr:(fun (v : T) (r : R) => ltac:(
        let e := constr:(eta_expand r) in
        let e := eval cbv delta [eta_expand] in e in
        let e := eval hnf in e in
        match (eval pattern (proj r) in e) with
        | ?g _ => let b := eval cbv beta in (g v) in exact b
        end)) in
      exact f
  end.

(** ** Ordered iteration of a [BTreeMap]

    A [BTreeMap<K, V>] is a [gmap K V]; where the source iterates over it, the
    order of the keys matters, and the model iterates over [btree_iter]. *)
Class BTreeKey (K : Type) := key_le : K -> K -> Prop.
Class BTreeKeyLaws (K : Type) `{BTreeKey K} := {
  key_le_dec :: RelDecision (key_le (K := K));
  key_le_total :: Total (key_le (K := K));
  key_le_trans :: Transitive (key_le (K := K));
}.

#[export] Instance Z_btree_key : BTreeKey Z := Z.le.
#[export] Instance Z_btree_laws : BTreeKeyLaws Z.
Proof.
  split.
  - unfold key_le, Z_btree_key. apply _.
  - intros x y. unfold key_le, Z_btree_key. lia.
  - intros x y z. unfold key_le, Z_btree_key. lia.
Defined.

(** Tuples of keys compare lexicographically. *)
Definition pair_le (p q : Z * Z) : Prop := p.1 < q.1 \/ (p.1 = q.1 /\ p.2 <= q.2).
#[export] Instance ZZ_btree_key : BTreeKey (Z * Z) := pair_le.
#[export] Instance ZZ_btree_laws : BTreeKeyLaws (Z * Z).
Proof.
  split.
  - intros p q. unfold key_le, ZZ_btree_key, pair_le. apply _.
  - intros p q. unfold key_le, ZZ_btree_key, pair_le. lia.
  - intros p q r. unfold key_le, ZZ_btree_key, pair_le. lia.
Defined.

Section btree.
Context {K V : Type} `{Countable K} `{!BTreeKey K} `{!BTreeKeyLaws K}.

Definition entry_le (p q : K * V) : Prop := key_le p.1 q.1.
#[global] Instance entry_le_dec : RelDecision entry_le.
Proof. intros p q. unfold entry_le. apply _. Defined.
#[global] Instance entry_le_total : Total entry_le.
Proof. intros p q. unfold entry_le. apply key_le_total. Qed.
#[global] Instance entry_le_trans : Transitive entry_le.
Proof. intros p q r. unfold entry_le. apply key_le_trans. Qed.

(** [map.iter()]: the entries in ascending key order. *)
Definition btree_iter (m : gmap K V) : list (K * V) :=
  merge_sort entry_le (map_to_list m).
(** [map.values()] *)
Definition btree_values (m : gmap K V) : list V := (btree_iter m).*2.

Lemma btree_iter_perm m : btree_iter m ≡ₚ map_to_list m.
Proof. apply merge_sort_Permutation. Qed.

Lemma btree_iter_sorted m : StronglySorted entry_le (btree_iter m).
Proof. apply StronglySorted_merge_sort; apply _. Qed.

Lemma elem_of_btree_iter m k v : (k, v) ∈ btree_iter m <-> m !! k = Some v.
Proof. by rewrite btree_iter_perm, elem_of_map_to_list. Qed.

Lemma length_btree_iter m : length (btree_iter m) = size m.
Proof. by rewrite btree_iter_perm, length_map_to_list. Qed.

Lemma NoDup_fst_btree_iter m : NoDup (btree_iter m).*1.
Proof. rewrite btree_iter_perm. apply NoDup_fst_map_to_list. Qed.

(** Rebuilding a map from its iteration gives the map back. *)
Lemma list_to_map_btree_iter m : list_to_map (btree_iter m) =@{gmap K V} m.
Proof.
  rewrite <- (list_to_map_to_list m) at 2.
  apply list_to_map_proper; [apply NoDup_fst_btree_iter | apply btree_iter_perm].
Qed.
End btree.

(** ** Shared automation *)

Create HintDb llmos.
#[export] Hint Extern 1 (u64 _) => unfold u64, nz64, u64_max in *; lia : llmos.

(** Case analysis on every [decide] and [match] in sight. *)
Ltac split_cases := repeat (case_decide || case_match).

Ltac width := unfold u64, u32, u16, u8, nz64, id16, dig32, u64_max, u32_max in *.

(** ** Sums over the values of a map *)
Section msum.
Context {K V : Type} `{Countable K}.
Implicit Types (f : V -> Z) (m : gmap K V).

Definition msum f m : Z := map_fold (fun _ v acc => f v + acc) 0 m.

Lemma msum_empty f : msum f ∅ = 0.
Proof. apply map_fold_empty. Qed.

Lemma msum_insert_None f m k v : m !! k = None -> msum f (<[k := v]> m) = f v + msum f m.
Proof.
  intros Hk. unfold msum. rewrite map_fold_insert_L; [done| |done].
  intros. lia.
Qed.

Lemma msum_delete f m k v : m !! k = Some v -> msum f m = f v + msum f (delete k m).
Proof.
  intros Hk. rewrite <- (insert_delete_id m k v) at 1 by done.
  apply msum_insert_None, lookup_delete_eq.
Qed.

Lemma msum_insert_Some f m k v v' :
  m !! k = Some v -> msum f (<[k := v']> m) = f v' - f v + msum f m.
Proof.
  intros Hk. rewrite (msum_delete f m k v Hk), <- insert_delete_eq.
  rewrite msum_insert_None by apply lookup_delete_eq. lia.
Qed.

Lemma msum_nonneg f m : map_Forall (fun _ v => 0 <= f v) m -> 0 <= msum f m.
Proof.
  induction m as [|k v m Hk IH] using map_ind; intros Hm; [by rewrite msum_empty|].
  rewrite msum_insert_None by done.
  apply map_Forall_insert in Hm as [Hv Hm]; [|done]. specialize (IH Hm). lia.
Qed.

Lemma msum_le f g m : map_Forall (fun _ v => f v <= g v) m -> msum f m <= msum g m.
Proof.
  induction m as [|k v m Hk IH] using map_ind; intros Hm; [by rewrite !msum_empty|].
  rewrite !msum_insert_None by done.
  apply map_Forall_insert in Hm as [Hv Hm]; [|done]. specialize (IH Hm). lia.
Qed.

Lemma msum_ext f g m : map_Forall (fun _ v => f v = g v) m -> msum f m = msum g m.
Proof.
  induction m as [|k v m Hk IH] using map_ind; intros Hm; [by rewrite !msum_empty|].
  rewrite !msum_insert_None by done.
  apply map_Forall_insert in Hm as [Hv Hm]; [|done]. specialize (IH Hm). lia.
Qed.

Lemma msum_zero f m : map_Forall (fun _ v => f v = 0) m -> msum f m = 0.
Proof.
  intros Hm. rewrite (msum_ext f (fun _ => 0) m Hm). clear Hm.
  induction m as [|k v m Hk IH] using map_ind; [apply msum_empty|].
  by rewrite msum_insert_None.
Qed.

Lemma msum_le_one f m k v :
  map_Forall (fun _ v => 0 <= f v) m -> m !! k = Some v -> f v <= msum f m.
Proof.
  intros Hm Hk. rewrite (msum_delete f m k v Hk).
  assert (0 <= msum f (delete k m)); [|lia]. apply msum_nonneg.
  by apply map_Forall_delete.
Qed.
End msum.

(** ** Lists without duplicate keys *)
Section keyed.
Context {A B : Type} `{EqDecision B} (f : A -> B).

Lemma NoDup_fmap_eq (l : list A) x y :
  NoDup (f <$> l) -> x ∈ l -> y ∈ l -> f x = f y -> x = y.
Proof.
  intros Hl Hx Hy Hf. apply list_elem_of_lookup in Hx as [i Hi], Hy as [j Hj].
  assert (i = j) as ->; [|congruence].
  eapply (NoDup_lookup (f <$> l)); [done|rewrite list_lookup_fmap, Hi; done|].
  by rewrite list_lookup_fmap, Hj, Hf.
Qed.

Lemma find_keyed (l : list A) k x :
  NoDup (f <$> l) ->
  List.find (fun a => bool_decide (f a = k)) l = Some x <-> x ∈ l /\ f x = k.
Proof.
  intros Hl. split.
  - intros [Hx Hk]%List.find_some. apply bool_decide_eq_true in Hk. by rewrite list_elem_of_In.
  - intros [Hx Hk]. destruct (List.find _ l) as [y|] eqn:Hf.
    + apply List.find_some in Hf as [Hy Hyk]. apply bool_decide_eq_true in Hyk.
      f_equal. apply (NoDup_fmap_eq l); [done|by apply list_elem_of_In|done|congruence].
    + apply list_elem_of_In in Hx. apply (List.find_none _ _ Hf) in Hx.
      by apply bool_decide_eq_false in Hx.
Qed.
End keyed.

Lemma list_filter_none {A} (P : A -> Prop) `{!forall x, Decision (P x)} (l : list A) :
  (forall x, x ∈ l -> ~ P x) -> filter P l = [].
Proof.
  intros Hl. destruct (filter P l) as [|x k] eqn:Hf; [done|].
  assert (x ∈ filter P l) as Hx by (rewrite Hf; left).
  apply list_elem_of_filter in Hx as [HP Hx]. by destruct (Hl x Hx).
Qed.

Lemma list_filter_all {A} (P : A -> Prop) `{!forall x, Decision (P x)} (l : list A) :
  (forall x, x ∈ l -> P x) -> filter P l = l.
Proof.
  induction l as [|x l IH]; intros Hl; [done|].
  rewrite filter_cons_True by (apply Hl; left). f_equal. apply IH. intros y Hy. apply Hl. by right.
Qed.

Lemma list_filter_ext {A} (P Q : A -> Prop) `{!forall x, Decision (P x), !forall x, Decision (Q x)}
    (l : list A) :
  (forall x, x ∈ l -> P x <-> Q x) -> filter P l = filter Q l.
Proof.
  induction l as [|x l IH]; intros Hl; [done|]. rewrite !filter_cons, IH by (intros y Hy; apply Hl; by right).
  specialize (Hl x ltac:(left)). do 2 case_decide; naive_solver.
Qed.
