(* ===== verification/Bytes.v ===== *)
(** * Bytes: big-endian integers and byte cursors

    Models [uN::to_be_bytes] / [uN::from_be_bytes] (language primitives) and a
    generic byte reader, of which [ByteCursor] (state_machine.rs) and
    [WireReader] (net_driver.rs) are instances. A byte string is a list of [Z],
    each in [0, 256). *)

From S2P Require Import Prelude.

Abbreviation bytes := (list Z).
Abbreviation byte_string bs := (Forall u8 bs).

(** ** Big-endian integers *)

(** [n] big-endian bytes of [x]. *)
Fixpoint be_bytes (n : nat) (x : Z) : bytes :=
  match n with
  | O => []
  | S n' => (x / 256 ^ Z.of_nat n') mod 256 :: be_bytes n' x
  end.

Definition be_value (bs : bytes) : Z := foldl (fun acc b => acc * 256 + b) 0 bs.

Lemma length_be_bytes n x : length (be_bytes n x) = n.
Proof. induction n; simpl; congruence. Qed.

Lemma be_bytes_byte_string n x : byte_string (be_bytes n x).
Proof.
  induction n as [|n IH]; simpl; constructor; [|done].
  unfold u8. apply Z.mod_pos_bound. lia.
Qed.

Lemma foldl_be_acc bs acc :
  foldl (fun acc b => acc * 256 + b) acc bs = acc * 256 ^ Z.of_nat (length bs) + be_value bs.
Proof.
  revert acc. unfold be_value. induction bs as [|b bs IH]; intros acc; simpl.
  - lia.
  - rewrite IH, (IH (0 * 256 + b)).
    replace (Z.of_nat (S (length bs))) with (Z.of_nat (length bs) + 1) by lia.
    rewrite Z.pow_add_r by lia. lia.
Qed.

Lemma be_value_cons b bs : be_value (b :: bs) = b * 256 ^ Z.of_nat (length bs) + be_value bs.
Proof. unfold be_value at 1. simpl. rewrite foldl_be_acc. lia. Qed.

Lemma be_bytes_mod n x : be_value (be_bytes n x) = x mod 256 ^ Z.of_nat n.
Proof.
  induction n as [|n IH]; simpl.
  - unfold be_value. simpl. by rewrite Z.mod_1_r.
  - rewrite be_value_cons, length_be_bytes, IH.
    replace (Z.of_nat (S n)) with (Z.of_nat n + 1) by lia.
    rewrite Z.pow_add_r by lia.
    rewrite Z.pow_1_r, (Z.rem_mul_r x (256 ^ Z.of_nat n) 256) by lia. lia.
Qed.

Lemma be_value_bytes n x : 0 <= x < 256 ^ Z.of_nat n -> be_value (be_bytes n x) = x.
Proof. intros Hx. rewrite be_bytes_mod. by apply Z.mod_small. Qed.

Lemma be_value_bound bs : byte_string bs -> 0 <= be_value bs < 256 ^ Z.of_nat (length bs).
Proof.
  induction 1 as [|b bs Hb Hbs IH]; [unfold be_value; simpl; lia|].
  rewrite be_value_cons. simpl length.
  replace (Z.of_nat (S (length bs))) with (Z.of_nat (length bs) + 1) by lia.
  rewrite Z.pow_add_r by lia. unfold u8 in Hb. nia.
Qed.

Lemma be_bytes_shift n b y : 0 <= y < 256 ^ Z.of_nat n ->
  forall k, (k <= n)%nat -> be_bytes k (b * 256 ^ Z.of_nat n + y) = be_bytes k y.
Proof.
  intros Hy. induction k as [|k IH]; intros Hk; simpl; [done|].
  f_equal; [|apply IH; lia].
  replace (Z.of_nat n) with ((Z.of_nat n - Z.of_nat k - 1) + 1 + Z.of_nat k) by lia.
  rewrite !Z.pow_add_r by lia.
  replace (b * (256 ^ (Z.of_nat n - Z.of_nat k - 1) * 256 ^ 1 * 256 ^ Z.of_nat k) + y)
    with (y + (b * 256 ^ (Z.of_nat n - Z.of_nat k - 1) * 256) * 256 ^ Z.of_nat k) by lia.
  rewrite Z.div_add by lia. by rewrite Z.mod_add by lia.
Qed.

(** Re-encoding the value of a byte string gives the byte string back. *)
Lemma be_bytes_value bs : byte_string bs -> be_bytes (length bs) (be_value bs) = bs.
Proof.
  induction 1 as [|b bs Hb Hbs IH]; [done|].
  rewrite be_value_cons. simpl.
  pose proof (be_value_bound bs Hbs) as Hv.
  rewrite be_bytes_shift, IH by (done || lia).
  f_equal. rewrite Z.div_add_l by lia. rewrite Z.div_small by done.
  unfold u8 in Hb. rewrite Z.add_0_r. by apply Z.mod_small.
Qed.

Lemma be_value_single x : be_value [x] = x.
Proof. unfold be_value. simpl. lia. Qed.

Lemma be_bytes_single x : u8 x -> be_bytes 1 x = [x].
Proof.
  intros Hx. unfold be_bytes. f_equal. rewrite Z.div_1_r. apply Z.mod_small. width. lia.
Qed.

(** ** Byte readers

    A reader consumes a prefix of the remaining input or fails; the cursor of
    the source is a slice with a position, and the remaining input is the part
    of the slice after the position. *)
Definition parser (E A : Type) : Type := bytes -> result E (A * bytes).

#[export] Instance parser_ret {E} : MRet (parser E) := fun A a b => Ok (a, b).
#[export] Instance parser_bind {E} : MBind (parser E) := fun A B k m b =>
  match m b with Ok (a, b') => k a b' | Err e => Err e end.

(** [return Err(e)] inside a reader. *)
Definition fail_with {E A} (e : E) : parser E A := fun _ => Err e.
(** [reader.map_err(f)] *)
Definition pmap_err {E E' A} (f : E -> E') (p : parser E A) : parser E' A :=
  fun b => map_err f (p b).
(** [option.ok_or(e)?] inside a reader. *)
Definition plift {E A} (r : result E A) : parser E A := fun b =>
  match r with Ok a => Ok (a, b) | Err e => Err e end.

(** The next [len] bytes, or [trunc] when fewer remain. *)
Definition take_slice {E} (trunc : E) (len : nat) : parser E bytes := fun b =>
  if decide (len <= length b)%nat then Ok (take len b, drop len b) else Err trunc.

(** [for _ in 0..n { items.push(p?) }] *)
Fixpoint read_many {E A} (p : parser E A) (n : nat) : parser E (list A) :=
  match n with
  | O => mret []
  | S n' => a ← p; rest ← read_many p n'; mret (a :: rest)
  end.

(** ** Reading back what was written *)

Definition reads {E A} (p : parser E A) (w : bytes) (a : A) : Prop :=
  forall rest, p (w ++ rest) = Ok (a, rest).

Section reads.
Context {E : Type}.
Implicit Types (e : E).

Lemma reads_ret {A} (a : A) : reads (E := E) (mret a) [] a.
Proof. by intros rest. Qed.

Lemma reads_bind {A B} (p : parser E A) (k : A -> parser E B) w1 w2 a b :
  reads p w1 a -> reads (k a) w2 b -> reads (p ≫= k) (w1 ++ w2) b.
Proof.
  intros Hp Hk rest. unfold mbind, parser_bind.
  rewrite <- (assoc_L (++)), Hp. apply Hk.
Qed.

Lemma reads_bind_nil {A B} (p : parser E A) (k : A -> parser E B) w a b :
  reads p [] a -> reads (k a) w b -> reads (p ≫= k) w b.
Proof. apply (reads_bind p k [] w). Qed.

(** The last reader of a sequence returns its value without reading on. *)
Lemma reads_bind_ret {A B} (p : parser E A) (k : A -> parser E B) w a b :
  reads p w a -> k a = mret b -> reads (p ≫= k) w b.
Proof. intros Hp Hk rest. unfold mbind, parser_bind. by rewrite Hp, Hk. Qed.

Lemma reads_map_err {E' A} (f : E -> E') (p : parser E A) w a :
  reads p w a -> reads (pmap_err f p) w a.
Proof. intros Hp rest. unfold pmap_err. by rewrite Hp. Qed.

Lemma reads_plift {A} (r : result E A) a : r = Ok a -> reads (plift r) [] a.
Proof. intros ->. by intros rest. Qed.

Lemma reads_take_slice (trunc : E) len w : length w = len -> reads (take_slice trunc len) w w.
Proof.
  intros <- rest. unfold take_slice. rewrite decide_True by (rewrite length_app; lia).
  by rewrite take_app_length, drop_app_length.
Qed.

Lemma reads_many {A B} (p : parser E A) (enc : B -> bytes) (view : B -> A) (l : list B) :
  Forall (fun x => reads p (enc x) (view x)) l ->
  reads (read_many p (length l)) (concat (enc <$> l)) (view <$> l).
Proof.
  induction 1 as [|x l Hx Hl IH]; simpl; [apply reads_ret|].
  apply reads_bind with (a := view x); [done|].
  rewrite <- (app_nil_r (concat _)).
  apply reads_bind with (a := view <$> l); [done|]. apply reads_ret.
Qed.
End reads.

Create HintDb reads.

(** Solves [reads (x ← p; ...) (w1 ++ ...) v] field by field, with the readers
    of the [reads] database; side conditions come from the context. *)
Ltac solve_reads :=
  repeat first
    [ apply reads_ret
    | eapply reads_bind_ret; [solve [eauto with reads] | reflexivity]
    | eapply reads_bind_nil; [solve [eauto with reads]|]; cbn beta iota
    | eapply reads_bind; [solve [eauto with reads]|]; cbn beta iota ].

(** ** Readers that accept only canonical input

    [canonical p enc ok]: whatever [p] accepts is the encoding [enc] of the
    value it returns, and that value satisfies [ok]. *)
Definition canonical {E A} (p : parser E A) (enc : A -> bytes) (ok : A -> Prop) : Prop :=
  forall b a rest, byte_string b -> p b = Ok (a, rest) ->
    b = enc a ++ rest /\ ok a /\ byte_string rest.

Lemma bind_inv {E A B} (p : parser E A) (k : A -> parser E B) b x rest :
  (p ≫= k) b = Ok (x, rest) -> exists a b', p b = Ok (a, b') /\ k a b' = Ok (x, rest).
Proof.
  unfold mbind, parser_bind. destruct (p b) as [[a b']|] eqn:Hp; [|done]. eauto.
Qed.

Lemma canonical_take_slice {E} (trunc : E) len :
  canonical (take_slice trunc len) id (fun bs => byte_string bs /\ length bs = len).
Proof.
  intros b a rest Hb. unfold take_slice. case_decide as Hlen; [|done]. intros [= <- <-].
  split; [unfold id; by rewrite take_drop|]. split_and!.
  - by apply Forall_take.
  - rewrite length_take. lia.
  - by apply Forall_drop.
Qed.

Lemma canonical_many {E A} (p : parser E A) enc ok n :
  canonical p enc ok ->
  canonical (read_many p n) (fun l => concat (enc <$> l)) (fun l => Forall ok l /\ length l = n).
Proof.
  intros Hp. induction n as [|n IH]; intros b l rest Hb; [by intros [= <- <-]|].
  intros (a & b1 & Ha & (r & b2 & Hr & [= <- <-])%bind_inv)%bind_inv.
  apply Hp in Ha as (-> & Ha & Hb1); [|done]. apply IH in Hr as (-> & [Hr <-] & Hb2); [|done].
  cbn. rewrite <- (assoc_L (++)). auto.
Qed.

(** ** Text and slices *)

(** The bytes of a [b"..."] literal. *)
Definition bytes_of_string (s : string) : bytes :=
  (fun a => Z.of_N (Ascii.N_of_ascii a)) <$> String.list_ascii_of_string s.

Lemma bytes_of_string_bytes s : byte_string (bytes_of_string s).
Proof.
  unfold bytes_of_string. apply Forall_fmap, Forall_forall. intros a _. simpl.
  unfold u8. pose proof (Ascii.N_ascii_bounded a). lia.
Qed.

(** [&b[i..j]] for [i <= j <= b.len()]. *)
Definition slice (i j : nat) (b : bytes) : bytes := take (j - i) (drop i b).

Lemma slice_mid i j (a m c : bytes) :
  length a = i -> (i + length m)%nat = j -> slice i j (a ++ m ++ c) = m.
Proof.
  intros <- <-. unfold slice. rewrite drop_app_length.
  replace (length a + length m - length a)%nat with (length m) by lia.
  by rewrite take_app_length.
Qed.

(** ** The hash function

    [sha2::Sha256] is third-party code: a parameter of the model, of which the
    source uses only that a digest has 32 bytes. *)
Class Sha256 := {
  sha256 : bytes -> Z;
  sha256_range : forall b, dig32 (sha256 b);
}.

(** A concrete instance, for evaluating the model on examples. *)
Definition checksum_hasher : Sha256.
Proof.
  refine {| sha256 := fun b => (be_value b * 31 + Z.of_nat (length b)) mod 2 ^ 256 |}.
  intros b. unfold dig32. apply Z.mod_pos_bound. lia.
Defined.

#[global] Opaque be_bytes be_value.
