(* ===== verification/Commands.v ===== *)
(** * Commands: the control-plane command families and their wire codec

    Models the command half of nlos-consensus/src/state_machine.rs: the four
    command families a consensus log may carry, the scope guard that rejects
    data-plane tags, the canonical command body encoding with its decoder, the
    [NLOSCP01] proposal frame and the [ByteCursor] the decoders read from. *)

From S2P Require Import Prelude Bytes.

(** ** Scope guard *)

Inductive CommandFamilyCode :=
  | CellDirectory
  | RootLeasePool
  | TaskAuthorityShard
  | ControlPlaneAudit.

#[export] Instance family_eq_dec : EqDecision CommandFamilyCode.
Proof. solve_decision. Defined.

Definition family_as_u8 (f : CommandFamilyCode) : Z :=
  match f with
  | CellDirectory => 1
  | RootLeasePool => 2
  | TaskAuthorityShard => 3
  | ControlPlaneAudit => 4
  end.

Inductive ForbiddenDataPlaneKind :=
  | TaskExecutionMutation
  | FiberScheduleEvent
  | TopicMessagePublish
  | SemanticEventAppend
  | ArtifactBulkPayload
  | UnknownNonControlFamily (tag : Z).

Definition forbidden_wire_tag (k : ForbiddenDataPlaneKind) : Z :=
  match k with
  | TaskExecutionMutation => 0x81
  | FiberScheduleEvent => 0x82
  | TopicMessagePublish => 0x83
  | SemanticEventAppend => 0x84
  | ArtifactBulkPayload => 0x85
  | UnknownNonControlFamily tag => tag
  end.

(** The static [reason] text is the same for every value of a kind and is left
    out. *)
Record RejectDataPlanePayload := {
  reject_kind : ForbiddenDataPlaneKind;
  reject_wire_tag : Z;
}.

Definition from_wire_tag (tag : Z) : result RejectDataPlanePayload CommandFamilyCode :=
  match tag with
  | 1 => Ok CellDirectory
  | 2 => Ok RootLeasePool
  | 3 => Ok TaskAuthorityShard
  | 4 => Ok ControlPlaneAudit
  | 0x81 => Err {| reject_kind := TaskExecutionMutation; reject_wire_tag := tag |}
  | 0x82 => Err {| reject_kind := FiberScheduleEvent; reject_wire_tag := tag |}
  | 0x83 => Err {| reject_kind := TopicMessagePublish; reject_wire_tag := tag |}
  | 0x84 => Err {| reject_kind := SemanticEventAppend; reject_wire_tag := tag |}
  | 0x85 => Err {| reject_kind := ArtifactBulkPayload; reject_wire_tag := tag |}
  | other => Err {| reject_kind := UnknownNonControlFamily other; reject_wire_tag := other |}
  end.

Inductive ScopeViolationError :=
  | RejectedDataPlanePayload (r : RejectDataPlanePayload)
  | MalformedWireHeader
  | TruncatedPayload
  | TrailingBytes
  | InvalidNominalField (field : string)
  | PayloadChecksumMismatch.

(** ** Command families *)

(** [std::net::SocketAddr]; a V6 address also carries a flow label and a
    scope id. *)
Inductive SocketAddr :=
  | V4 (ip port : Z)
  | V6 (ip port flowinfo scope_id : Z).

#[export] Instance socket_addr_eq_dec : EqDecision SocketAddr.
Proof. solve_decision. Defined.

Inductive CellDirectoryCommand :=
  | UpsertCellEndpoint (cell control_domain_id principal_id node_boot_generation
      epoch heartbeat_seq : Z) (endpoint_hint : option SocketAddr)
  | AdvanceTrustPolicyEpoch (new_trust_epoch policy_digest : Z)
  | DecommissionCell (cell fenced_epoch : Z).

Inductive ReplicatedQuotaLeaseDisposition := QlActive | QlClosed | QlQuarantined.

#[export] Instance disposition_eq_dec : EqDecision ReplicatedQuotaLeaseDisposition.
Proof. solve_decision. Defined.

Definition disposition_as_u8 (d : ReplicatedQuotaLeaseDisposition) : Z :=
  match d with QlActive => 1 | QlClosed => 2 | QlQuarantined => 3 end.

Definition disposition_from_u8 (v : Z) : option ReplicatedQuotaLeaseDisposition :=
  match v with
  | 1 => Some QlActive
  | 2 => Some QlClosed
  | 3 => Some QlQuarantined
  | _ => None
  end.

Inductive ReplicatedDeviceHeadState := DhFree | DhActive | DhQuarantined.

#[export] Instance device_state_eq_dec : EqDecision ReplicatedDeviceHeadState.
Proof. solve_decision. Defined.

Definition device_state_as_u8 (d : ReplicatedDeviceHeadState) : Z :=
  match d with DhFree => 1 | DhActive => 2 | DhQuarantined => 3 end.

Definition device_state_from_u8 (v : Z) : option ReplicatedDeviceHeadState :=
  match v with
  | 1 => Some DhFree
  | 2 => Some DhActive
  | 3 => Some DhQuarantined
  | _ => None
  end.

Inductive RootLeasePoolCommand :=
  | RegisterQuotaPool (budget_root initial_available : Z)
  | AllocateQuotaLease (lease_id budget_root holder_cell node_boot_generation
      face_value epoch fencing_token fence_scope : Z)
  | SettleOrQuarantineQuotaLease (lease_id : Z)
      (disposition : ReplicatedQuotaLeaseDisposition)
      (returned_amount quarantined_amount new_epoch new_fencing_token : Z)
  | AllocateCapacityLease (capacity_lease_id pool_id pool_total_capacity target_cell
      target_boot_generation amount capacity_epoch fencing_token : Z)
  | TransitionExclusiveDeviceHead (device_id device_lease_id exclusivity_epoch : Z)
      (holder_cell : option Z) (fencing_token : Z)
      (new_state : ReplicatedDeviceHeadState) (has_reset_zeroization_proof : bool).

Inductive TaskAuthorityShardCommand :=
  | AssignInitialAuthority (assignment_id task_id task_generation authority_shard
      home_cell authority_term control_epoch participant_registry_generation
      participant_registry_root : Z)
  | RecordCompletedTakeover (takeover_receipt_id task_id task_generation
      old_assignment_id new_assignment_id frozen_old_authority_term new_authority_term
      new_home_cell new_control_epoch new_participant_registry_generation
      new_participant_registry_root exact_fence_set_root : Z)
      (outstanding_effect_quarantine_root : option Z).

Inductive ControlPlaneAuditCommand :=
  | AnchorMigrationIntent (intent_id source_cell target_cell epoch intent_digest : Z)
  | AnchorReconciliationCheckpoint (cell node_boot_generation epoch checkpoint_seq
      checkpoint_digest : Z).

Inductive ControlPlaneCommand :=
  | CellDirectoryMutation (cmd : CellDirectoryCommand)
  | RootLeasePoolMutation (cmd : RootLeasePoolCommand)
  | TaskAuthorityShardMutation (cmd : TaskAuthorityShardCommand)
  | ControlPlaneAuditAnchor (cmd : ControlPlaneAuditCommand).

Definition family_code (c : ControlPlaneCommand) : CommandFamilyCode :=
  match c with
  | CellDirectoryMutation _ => CellDirectory
  | RootLeasePoolMutation _ => RootLeasePool
  | TaskAuthorityShardMutation _ => TaskAuthorityShard
  | ControlPlaneAuditAnchor _ => ControlPlaneAudit
  end.

Record ControlPlaneProposal := {
  idempotency_key : Z;
  command : ControlPlaneCommand;
}.

#[export] Instance cell_directory_command_eq_dec : EqDecision CellDirectoryCommand.
Proof. solve_decision. Defined.
#[export] Instance root_lease_pool_command_eq_dec : EqDecision RootLeasePoolCommand.
Proof. solve_decision. Defined.
#[export] Instance task_authority_command_eq_dec : EqDecision TaskAuthorityShardCommand.
Proof. solve_decision. Defined.
#[export] Instance audit_command_eq_dec : EqDecision ControlPlaneAuditCommand.
Proof. solve_decision. Defined.
#[export] Instance command_eq_dec : EqDecision ControlPlaneCommand.
Proof. solve_decision. Defined.
#[export] Instance proposal_eq_dec : EqDecision ControlPlaneProposal.
Proof. solve_decision. Defined.

(** ** Encoding *)

Definition bool_as_u8 (b : bool) : Z := if b then 1 else 0.

Definition encode_socket_addr_opt (addr : option SocketAddr) : bytes :=
  match addr with
  | None => [0]
  | Some (V4 ip port) => [4] ++ be_bytes 4 ip ++ be_bytes 2 port
  | Some (V6 ip port _ _) => [6] ++ be_bytes 16 ip ++ be_bytes 2 port
  end.

(** [match opt { Some(x) => { push(1); extend(x) } None => push(0) }] *)
Definition encode_opt (n : nat) (o : option Z) : bytes :=
  match o with
  | Some x => [1] ++ be_bytes n x
  | None => [0]
  end.

Definition encode_cell_directory (cmd : CellDirectoryCommand) : bytes :=
  match cmd with
  | UpsertCellEndpoint cell control_domain_id principal_id node_boot_generation epoch
      heartbeat_seq endpoint_hint =>
      [1] ++ be_bytes 16 cell ++ be_bytes 16 control_domain_id ++ be_bytes 16 principal_id
      ++ be_bytes 8 node_boot_generation ++ be_bytes 8 epoch ++ be_bytes 8 heartbeat_seq
      ++ encode_socket_addr_opt endpoint_hint
  | AdvanceTrustPolicyEpoch new_trust_epoch policy_digest =>
      [2] ++ be_bytes 8 new_trust_epoch ++ be_bytes 32 policy_digest
  | DecommissionCell cell fenced_epoch =>
      [3] ++ be_bytes 16 cell ++ be_bytes 8 fenced_epoch
  end.

Definition encode_root_lease_pool (cmd : RootLeasePoolCommand) : bytes :=
  match cmd with
  | RegisterQuotaPool budget_root initial_available =>
      [1] ++ be_bytes 16 budget_root ++ be_bytes 8 initial_available
  | AllocateQuotaLease lease_id budget_root holder_cell node_boot_generation face_value
      epoch fencing_token fence_scope =>
      [2] ++ be_bytes 16 lease_id ++ be_bytes 16 budget_root ++ be_bytes 16 holder_cell
      ++ be_bytes 8 node_boot_generation ++ be_bytes 8 face_value ++ be_bytes 8 epoch
      ++ be_bytes 8 fencing_token ++ be_bytes 16 fence_scope
  | SettleOrQuarantineQuotaLease lease_id disposition returned_amount quarantined_amount
      new_epoch new_fencing_token =>
      [3] ++ be_bytes 16 lease_id ++ [disposition_as_u8 disposition]
      ++ be_bytes 8 returned_amount ++ be_bytes 8 quarantined_amount
      ++ be_bytes 8 new_epoch ++ be_bytes 8 new_fencing_token
  | AllocateCapacityLease capacity_lease_id pool_id pool_total_capacity target_cell
      target_boot_generation amount capacity_epoch fencing_token =>
      [4] ++ be_bytes 16 capacity_lease_id ++ be_bytes 16 pool_id
      ++ be_bytes 8 pool_total_capacity ++ be_bytes 16 target_cell
      ++ be_bytes 8 target_boot_generation ++ be_bytes 8 amount
      ++ be_bytes 8 capacity_epoch ++ be_bytes 8 fencing_token
  | TransitionExclusiveDeviceHead device_id device_lease_id exclusivity_epoch holder_cell
      fencing_token new_state has_reset_zeroization_proof =>
      [5] ++ be_bytes 16 device_id ++ be_bytes 16 device_lease_id
      ++ be_bytes 8 exclusivity_epoch ++ encode_opt 16 holder_cell
      ++ be_bytes 8 fencing_token ++ [device_state_as_u8 new_state]
      ++ [bool_as_u8 has_reset_zeroization_proof]
  end.

Definition encode_task_authority (cmd : TaskAuthorityShardCommand) : bytes :=
  match cmd with
  | AssignInitialAuthority assignment_id task_id task_generation authority_shard home_cell
      authority_term control_epoch participant_registry_generation
      participant_registry_root =>
      [1] ++ be_bytes 16 assignment_id ++ be_bytes 16 task_id ++ be_bytes 8 task_generation
      ++ be_bytes 16 authority_shard ++ be_bytes 16 home_cell ++ be_bytes 8 authority_term
      ++ be_bytes 8 control_epoch ++ be_bytes 8 participant_registry_generation
      ++ be_bytes 32 participant_registry_root
  | RecordCompletedTakeover takeover_receipt_id task_id task_generation old_assignment_id
      new_assignment_id frozen_old_authority_term new_authority_term new_home_cell
      new_control_epoch new_participant_registry_generation
      new_participant_registry_root exact_fence_set_root
      outstanding_effect_quarantine_root =>
      [2] ++ be_bytes 16 takeover_receipt_id ++ be_bytes 16 task_id
      ++ be_bytes 8 task_generation ++ be_bytes 16 old_assignment_id
      ++ be_bytes 16 new_assignment_id ++ be_bytes 8 frozen_old_authority_term
      ++ be_bytes 8 new_authority_term ++ be_bytes 16 new_home_cell
      ++ be_bytes 8 new_control_epoch ++ be_bytes 8 new_participant_registry_generation
      ++ be_bytes 32 new_participant_registry_root ++ be_bytes 32 exact_fence_set_root
      ++ encode_opt 32 outstanding_effect_quarantine_root
  end.

Definition encode_audit (cmd : ControlPlaneAuditCommand) : bytes :=
  match cmd with
  | AnchorMigrationIntent intent_id source_cell target_cell epoch intent_digest =>
      [1] ++ be_bytes 16 intent_id ++ be_bytes 16 source_cell ++ be_bytes 16 target_cell
      ++ be_bytes 8 epoch ++ be_bytes 32 intent_digest
  | AnchorReconciliationCheckpoint cell node_boot_generation epoch checkpoint_seq
      checkpoint_digest =>
      [2] ++ be_bytes 16 cell ++ be_bytes 8 node_boot_generation ++ be_bytes 8 epoch
      ++ be_bytes 8 checkpoint_seq ++ be_bytes 32 checkpoint_digest
  end.

Definition encode_command (c : ControlPlaneCommand) : bytes :=
  match c with
  | CellDirectoryMutation cmd => encode_cell_directory cmd
  | RootLeasePoolMutation cmd => encode_root_lease_pool cmd
  | TaskAuthorityShardMutation cmd => encode_task_authority cmd
  | ControlPlaneAuditAnchor cmd => encode_audit cmd
  end.

Definition encode_command_body (p : ControlPlaneProposal) : bytes :=
  encode_command (command p).

(** ** The byte cursor *)

Module ByteCursor.
Abbreviation reader := (parser ScopeViolationError).

Definition read_slice (len : nat) : reader bytes := take_slice TruncatedPayload len.
Definition read_u8 : reader Z := s ← read_slice 1; mret (be_value s).
Definition read_u64 : reader Z := s ← read_slice 8; mret (be_value s).
Definition read_nonzero_u64 (field : string) : reader Z :=
  x ← read_u64;
  if decide (x = 0) then fail_with (InvalidNominalField field) else mret x.
Definition read_generation (field : string) : reader Z := read_nonzero_u64 field.
Definition read_cell_epoch (field : string) : reader Z :=
  x ← read_u64;
  if decide (x = 0) then fail_with (InvalidNominalField field) else mret x.
Definition read_fencing_token (field : string) : reader Z :=
  x ← read_u64;
  if decide (x = 0) then fail_with (InvalidNominalField field) else mret x.
Definition read_16 : reader Z := s ← read_slice 16; mret (be_value s).
Definition read_32 : reader Z := s ← read_slice 32; mret (be_value s).
Definition read_cell_id : reader Z := read_16.
Definition read_socket_addr_opt : reader (option SocketAddr) :=
  tag ← read_u8;
  match tag with
  | 0 => mret None
  | 4 =>
      ip ← read_slice 4; port ← read_slice 2;
      mret (Some (V4 (be_value ip) (be_value port)))
  | 6 =>
      ip ← read_16; port ← read_slice 2;
      mret (Some (V6 ip (be_value port) 0 0))
  | _ => fail_with (InvalidNominalField "SocketAddr family tag")
  end.
End ByteCursor.
Import ByteCursor.

(** ** Decoding *)

(** [match cursor.read_u8()? { 0 => None, 1 => Some(p?), _ => Err(..) }] *)
Definition read_opt (field : string) (p : reader Z) : reader (option Z) :=
  tag ← read_u8;
  match tag with
  | 0 => mret None
  | 1 => x ← p; mret (Some x)
  | _ => fail_with (InvalidNominalField field)
  end.

Definition decode_cell_directory (sub_tag : Z) : reader ControlPlaneCommand :=
  match sub_tag with
  | 1 =>
      cell ← read_cell_id;
      control_domain_id ← read_16;
      principal_id ← read_16;
      node_boot_generation ← read_generation "node_boot_generation";
      epoch ← read_cell_epoch "epoch";
      heartbeat_seq ← read_u64;
      endpoint_hint ← read_socket_addr_opt;
      mret (CellDirectoryMutation (UpsertCellEndpoint cell control_domain_id principal_id
        node_boot_generation epoch heartbeat_seq endpoint_hint))
  | 2 =>
      new_trust_epoch ← read_u64;
      policy_digest ← read_32;
      mret (CellDirectoryMutation (AdvanceTrustPolicyEpoch new_trust_epoch policy_digest))
  | 3 =>
      cell ← read_cell_id;
      fenced_epoch ← read_cell_epoch "fenced_epoch";
      mret (CellDirectoryMutation (DecommissionCell cell fenced_epoch))
  | _ => fail_with (InvalidNominalField "CellDirectory sub-tag")
  end.

Definition decode_root_lease_pool (sub_tag : Z) : reader ControlPlaneCommand :=
  match sub_tag with
  | 1 =>
      budget_root ← read_16;
      initial_available ← read_u64;
      mret (RootLeasePoolMutation (RegisterQuotaPool budget_root initial_available))
  | 2 =>
      lease_id ← read_16;
      budget_root ← read_16;
      holder_cell ← read_cell_id;
      node_boot_generation ← read_generation "node_boot_generation";
      face_value ← read_u64;
      epoch ← read_cell_epoch "epoch";
      fencing_token ← read_fencing_token "fencing_token";
      fence_scope ← read_16;
      mret (RootLeasePoolMutation (AllocateQuotaLease lease_id budget_root holder_cell
        node_boot_generation face_value epoch fencing_token fence_scope))
  | 3 =>
      lease_id ← read_16;
      disp_raw ← read_u8;
      disposition ← plift (ok_or (disposition_from_u8 disp_raw)
        (InvalidNominalField "QuotaLeaseDisposition"));
      returned_amount ← read_u64;
      quarantined_amount ← read_u64;
      new_epoch ← read_cell_epoch "new_epoch";
      new_fencing_token ← read_fencing_token "new_fencing_token";
      mret (RootLeasePoolMutation (SettleOrQuarantineQuotaLease lease_id disposition
        returned_amount quarantined_amount new_epoch new_fencing_token))
  | 4 =>
      capacity_lease_id ← read_16;
      pool_id ← read_16;
      pool_total_capacity ← read_u64;
      target_cell ← read_cell_id;
      target_boot_generation ← read_generation "target_boot_generation";
      amount ← read_u64;
      capacity_epoch ← read_nonzero_u64 "capacity_epoch";
      fencing_token ← read_fencing_token "fencing_token";
      mret (RootLeasePoolMutation (AllocateCapacityLease capacity_lease_id pool_id
        pool_total_capacity target_cell target_boot_generation amount capacity_epoch
        fencing_token))
  | 5 =>
      device_id ← read_16;
      device_lease_id ← read_16;
      exclusivity_epoch ← read_nonzero_u64 "exclusivity_epoch";
      holder_cell ← read_opt "holder_cell option tag" read_cell_id;
      fencing_token ← read_fencing_token "fencing_token";
      state_raw ← read_u8;
      new_state ← plift (ok_or (device_state_from_u8 state_raw)
        (InvalidNominalField "ReplicatedDeviceHeadState"));
      proof_raw ← read_u8;
      has_reset_zeroization_proof ←
        match proof_raw with
        | 0 => mret false
        | 1 => mret true
        | _ => fail_with (InvalidNominalField "has_reset_zeroization_proof bool")
        end;
      mret (RootLeasePoolMutation (TransitionExclusiveDeviceHead device_id device_lease_id
        exclusivity_epoch holder_cell fencing_token new_state has_reset_zeroization_proof))
  | _ => fail_with (InvalidNominalField "RootLeasePool sub-tag")
  end.

Definition decode_task_authority (sub_tag : Z) : reader ControlPlaneCommand :=
  match sub_tag with
  | 1 =>
      assignment_id ← read_16;
      task_id ← read_16;
      task_generation ← read_generation "task_generation";
      authority_shard ← read_16;
      home_cell ← read_cell_id;
      authority_term ← read_nonzero_u64 "authority_term";
      control_epoch ← read_u64;
      participant_registry_generation ← read_u64;
      participant_registry_root ← read_32;
      mret (TaskAuthorityShardMutation (AssignInitialAuthority assignment_id task_id
        task_generation authority_shard home_cell authority_term control_epoch
        participant_registry_generation participant_registry_root))
  | 2 =>
      takeover_receipt_id ← read_16;
      task_id ← read_16;
      task_generation ← read_generation "task_generation";
      old_assignment_id ← read_16;
      new_assignment_id ← read_16;
      frozen_old_authority_term ← read_nonzero_u64 "frozen_old_authority_term";
      new_authority_term ← read_nonzero_u64 "new_authority_term";
      new_home_cell ← read_cell_id;
      new_control_epoch ← read_u64;
      new_participant_registry_generation ← read_u64;
      new_participant_registry_root ← read_32;
      exact_fence_set_root ← read_32;
      outstanding_effect_quarantine_root ←
        read_opt "outstanding_effect_quarantine_root option tag" read_32;
      mret (TaskAuthorityShardMutation (RecordCompletedTakeover takeover_receipt_id task_id
        task_generation old_assignment_id new_assignment_id frozen_old_authority_term
        new_authority_term new_home_cell new_control_epoch
        new_participant_registry_generation new_participant_registry_root
        exact_fence_set_root outstanding_effect_quarantine_root))
  | _ => fail_with (InvalidNominalField "TaskAuthorityShard sub-tag")
  end.

Definition decode_audit (sub_tag : Z) : reader ControlPlaneCommand :=
  match sub_tag with
  | 1 =>
      intent_id ← read_16;
      source_cell ← read_cell_id;
      target_cell ← read_cell_id;
      epoch ← read_cell_epoch "epoch";
      intent_digest ← read_32;
      mret (ControlPlaneAuditAnchor (AnchorMigrationIntent intent_id source_cell target_cell
        epoch intent_digest))
  | 2 =>
      cell ← read_cell_id;
      node_boot_generation ← read_generation "node_boot_generation";
      epoch ← read_cell_epoch "epoch";
      checkpoint_seq ← read_nonzero_u64 "checkpoint_seq";
      checkpoint_digest ← read_32;
      mret (ControlPlaneAuditAnchor (AnchorReconciliationCheckpoint cell
        node_boot_generation epoch checkpoint_seq checkpoint_digest))
  | _ => fail_with (InvalidNominalField "ControlPlaneAudit sub-tag")
  end.

Definition decode_command (f : CommandFamilyCode) : reader ControlPlaneCommand :=
  sub_tag ← read_u8;
  match f with
  | CellDirectory => decode_cell_directory sub_tag
  | RootLeasePool => decode_root_lease_pool sub_tag
  | TaskAuthorityShard => decode_task_authority sub_tag
  | ControlPlaneAudit => decode_audit sub_tag
  end.

Definition decode_command_body (f : CommandFamilyCode) (key : Z) (body : bytes) :
    result ScopeViolationError ControlPlaneProposal :=
  match decode_command f body with
  | Err e => Err e
  | Ok (cmd, []) => Ok {| idempotency_key := key; command := cmd |}
  | Ok (_, _ :: _) => Err TrailingBytes
  end.

(** ** Proposal frames *)

Definition WIRE_MAGIC : bytes := Eval vm_compute in bytes_of_string "NLOSCP01".
Definition PROPOSAL_DIGEST_DOMAIN : bytes :=
  Eval vm_compute in bytes_of_string "llmos/consensus/proposal/v1".

Definition proposal_digest `{Sha256} (p : ControlPlaneProposal) : Z :=
  let body := encode_command_body p in
  sha256 (PROPOSAL_DIGEST_DOMAIN ++ [family_as_u8 (family_code (command p))]
    ++ be_bytes 16 (idempotency_key p) ++ be_bytes 8 (Z.of_nat (length body)) ++ body).

Definition encode_wire `{Sha256} (p : ControlPlaneProposal) : bytes :=
  let body := encode_command_body p in
  let frame := WIRE_MAGIC ++ [family_as_u8 (family_code (command p))]
    ++ be_bytes 16 (idempotency_key p) ++ be_bytes 4 (Z.of_nat (length body)) ++ body in
  frame ++ be_bytes 32 (sha256 frame).

Definition decode_wire `{Sha256} (b : bytes) : result ScopeViolationError ControlPlaneProposal :=
  if decide (length b < 8 + 1 + 16 + 4 + 32)%nat then Err TruncatedPayload else
  if negb (bool_decide (slice 0 8 b = WIRE_MAGIC)) then Err MalformedWireHeader else
  let raw_family_tag := be_value (slice 8 9 b) in
  match from_wire_tag raw_family_tag with
  | Err r => Err (RejectedDataPlanePayload r)
  | Ok family =>
      let payload_end := (length b - 32)%nat in
      let expected_checksum := be_bytes 32 (sha256 (take payload_end b)) in
      if negb (bool_decide (drop payload_end b = expected_checksum))
      then Err PayloadChecksumMismatch else
      let key := be_value (slice 9 25 b) in
      let body_len := be_value (slice 25 29 b) in
      if negb (bool_decide (29 + body_len = Z.of_nat payload_end)) then Err TrailingBytes else
      decode_command_body family key (slice 29 payload_end b)
  end.

Definition encode_forbidden_data_plane_wire_probe `{Sha256} (kind : ForbiddenDataPlaneKind)
    (key : Z) (raw_body : bytes) : bytes :=
  let len_u32 := Z.min (Z.of_nat (length raw_body)) u32_max in
  let frame := WIRE_MAGIC ++ [forbidden_wire_tag kind] ++ be_bytes 16 key
    ++ be_bytes 4 len_u32 ++ raw_body in
  frame ++ be_bytes 32 (sha256 frame).

(** ** Ranges of the fields

    What the Rust types of the fields guarantee. *)
Definition socket_addr_ok (a : SocketAddr) : Prop :=
  match a with
  | V4 ip port => u32 ip /\ u16 port
  | V6 ip port flowinfo scope_id => id16 ip /\ u16 port /\ u32 flowinfo /\ u32 scope_id
  end.

Definition opt_ok {A} (P : A -> Prop) (o : option A) : Prop :=
  match o with Some x => P x | None => True end.

Definition command_ok (c : ControlPlaneCommand) : Prop :=
  match c with
  | CellDirectoryMutation (UpsertCellEndpoint cell dom prin gen epoch seq hint) =>
      id16 cell /\ id16 dom /\ id16 prin /\ nz64 gen /\ nz64 epoch /\ u64 seq
      /\ opt_ok socket_addr_ok hint
  | CellDirectoryMutation (AdvanceTrustPolicyEpoch e d) => u64 e /\ dig32 d
  | CellDirectoryMutation (DecommissionCell cell e) => id16 cell /\ nz64 e
  | RootLeasePoolMutation (RegisterQuotaPool root a) => id16 root /\ u64 a
  | RootLeasePoolMutation (AllocateQuotaLease l root h gen fv e tok sc) =>
      id16 l /\ id16 root /\ id16 h /\ nz64 gen /\ u64 fv /\ nz64 e /\ nz64 tok /\ id16 sc
  | RootLeasePoolMutation (SettleOrQuarantineQuotaLease l _ r q e tok) =>
      id16 l /\ u64 r /\ u64 q /\ nz64 e /\ nz64 tok
  | RootLeasePoolMutation (AllocateCapacityLease l pool tot cell gen a e tok) =>
      id16 l /\ id16 pool /\ u64 tot /\ id16 cell /\ nz64 gen /\ u64 a /\ nz64 e /\ nz64 tok
  | RootLeasePoolMutation (TransitionExclusiveDeviceHead d l e h tok _ _) =>
      id16 d /\ id16 l /\ nz64 e /\ opt_ok id16 h /\ nz64 tok
  | TaskAuthorityShardMutation (AssignInitialAuthority a t g s h term ce rg rr) =>
      id16 a /\ id16 t /\ nz64 g /\ id16 s /\ id16 h /\ nz64 term /\ u64 ce /\ u64 rg
      /\ dig32 rr
  | TaskAuthorityShardMutation
      (RecordCompletedTakeover r t g oa na ot nt h ce rg rr fr qr) =>
      id16 r /\ id16 t /\ nz64 g /\ id16 oa /\ id16 na /\ nz64 ot /\ nz64 nt /\ id16 h
      /\ u64 ce /\ u64 rg /\ dig32 rr /\ dig32 fr /\ opt_ok dig32 qr
  | ControlPlaneAuditAnchor (AnchorMigrationIntent i s t e d) =>
      id16 i /\ id16 s /\ id16 t /\ nz64 e /\ dig32 d
  | ControlPlaneAuditAnchor (AnchorReconciliationCheckpoint c g e s d) =>
      id16 c /\ nz64 g /\ nz64 e /\ nz64 s /\ dig32 d
  end.

(** A routing hint survives the codec when it carries no V6 flow label and no
    scope id: the encoding has no room for them. *)
Definition hint_portable (h : option SocketAddr) : Prop :=
  match h with
  | Some (V6 _ _ flowinfo scope_id) => flowinfo = 0 /\ scope_id = 0
  | _ => True
  end.

Definition command_portable (c : ControlPlaneCommand) : Prop :=
  match c with
  | CellDirectoryMutation (UpsertCellEndpoint _ _ _ _ _ _ hint) => hint_portable hint
  | _ => True
  end.

Definition proposal_ok (p : ControlPlaneProposal) : Prop :=
  id16 (idempotency_key p) /\ command_ok (command p).

(** ** Reading back each field *)

Section cursor.
Lemma reads_be (p : reader Z) n x :
  p = (s ← read_slice n; mret (be_value s)) -> 0 <= x < 256 ^ Z.of_nat n ->
  reads p (be_bytes n x) x.
Proof.
  intros -> Hx rest. unfold mbind, parser_bind, read_slice.
  rewrite (reads_take_slice TruncatedPayload n) by apply length_be_bytes.
  unfold mret, parser_ret. by rewrite be_value_bytes.
Qed.

Lemma reads_u64 x : u64 x -> reads read_u64 (be_bytes 8 x) x.
Proof. intros Hx. apply reads_be; [done|]. width. lia. Qed.
Lemma reads_16 x : id16 x -> reads read_16 (be_bytes 16 x) x.
Proof. intros Hx. apply reads_be; [done|]. width. lia. Qed.
Lemma reads_32 x : dig32 x -> reads read_32 (be_bytes 32 x) x.
Proof. intros Hx. apply reads_be; [done|]. width. lia. Qed.
Lemma reads_cell_id x : id16 x -> reads read_cell_id (be_bytes 16 x) x.
Proof. apply reads_16. Qed.

Lemma reads_u8 x : reads read_u8 [x] x.
Proof.
  intros rest. unfold read_u8, read_slice, mbind, parser_bind.
  rewrite (reads_take_slice TruncatedPayload 1) by done. by rewrite be_value_single.
Qed.

Lemma reads_nonzero field x : nz64 x -> reads (read_nonzero_u64 field) (be_bytes 8 x) x.
Proof.
  intros Hx. rewrite <- (app_nil_r (be_bytes 8 x)).
  eapply reads_bind; [apply reads_u64; width; lia|].
  rewrite decide_False by (width; lia). apply reads_ret.
Qed.
Lemma reads_generation field x : nz64 x -> reads (read_generation field) (be_bytes 8 x) x.
Proof. apply reads_nonzero. Qed.
Lemma reads_cell_epoch field x : nz64 x -> reads (read_cell_epoch field) (be_bytes 8 x) x.
Proof. apply reads_nonzero. Qed.
Lemma reads_fencing_token field x :
  nz64 x -> reads (read_fencing_token field) (be_bytes 8 x) x.
Proof. apply reads_nonzero. Qed.

Lemma reads_opt field (p : reader Z) n (P : Z -> Prop) o :
  (forall x, P x -> reads p (be_bytes n x) x) -> opt_ok P o ->
  reads (read_opt field p) (encode_opt n o) o.
Proof.
  intros Hp Ho. destruct o as [x|]; unfold encode_opt, read_opt.
  - eapply reads_bind; [apply reads_u8|]. eapply reads_bind_ret; [by apply Hp|done].
  - eapply (reads_bind _ _ [0] []); [apply reads_u8|]. apply reads_ret.
Qed.
Lemma reads_opt_16 field o :
  opt_ok id16 o -> reads (read_opt field read_cell_id) (encode_opt 16 o) o.
Proof. apply reads_opt, reads_cell_id. Qed.
Lemma reads_opt_32 field o :
  opt_ok dig32 o -> reads (read_opt field read_32) (encode_opt 32 o) o.
Proof. apply reads_opt, reads_32. Qed.

Lemma reads_be_slice n x (f : Z -> option SocketAddr) :
  0 <= x < 256 ^ Z.of_nat n ->
  reads (s ← read_slice n; mret (f (be_value s))) (be_bytes n x) (f x).
Proof.
  intros Hx rest. unfold mbind, parser_bind, read_slice.
  rewrite (reads_take_slice TruncatedPayload n) by apply length_be_bytes.
  unfold mret, parser_ret. by rewrite be_value_bytes.
Qed.

Lemma reads_socket_addr_opt o :
  opt_ok socket_addr_ok o -> hint_portable o ->
  reads read_socket_addr_opt (encode_socket_addr_opt o) o.
Proof.
  intros Hok Hp. destruct o as [[ip port|ip port fl sc]|];
    unfold read_socket_addr_opt, encode_socket_addr_opt.
  - destruct Hok as [Hip Hport].
    eapply reads_bind; [apply reads_u8|]. cbn beta iota.
    eapply reads_bind; [apply reads_take_slice, length_be_bytes|]. cbn beta.
    rewrite be_value_bytes by (width; lia).
    apply (reads_be_slice 2 port (fun p => Some (V4 ip p))). width; lia.
  - destruct Hok as (Hip & Hport & _), Hp as [-> ->].
    eapply reads_bind; [apply reads_u8|]. cbn beta iota.
    eapply reads_bind; [by apply reads_16|]. cbn beta.
    apply (reads_be_slice 2 port (fun p => Some (V6 ip p 0 0))). width; lia.
  - eapply (reads_bind _ _ [0] []); [apply reads_u8|]. apply reads_ret.
Qed.

Lemma reads_disposition d (e : ScopeViolationError) :
  reads (plift (ok_or (disposition_from_u8 (disposition_as_u8 d)) e)) [] d.
Proof. apply reads_plift. by destruct d. Qed.
Lemma reads_device_state d (e : ScopeViolationError) :
  reads (plift (ok_or (device_state_from_u8 (device_state_as_u8 d)) e)) [] d.
Proof. apply reads_plift. by destruct d. Qed.
End cursor.

#[export] Hint Resolve reads_u64 reads_16 reads_32 reads_cell_id reads_u8 reads_nonzero
  reads_generation reads_cell_epoch reads_fencing_token reads_opt_16 reads_opt_32
  reads_socket_addr_opt reads_disposition reads_device_state : reads.

(** ** Round trips *)

Lemma decode_command_reads c :
  command_ok c -> command_portable c ->
  reads (decode_command (family_code c)) (encode_command c) c.
Proof.
  intros Hok Hp. unfold decode_command.
  destruct c as [cmd|cmd|cmd|cmd]; destruct cmd; simpl in Hok, Hp; destruct_and?;
    (eapply reads_bind; [apply reads_u8|]; cbn beta iota zeta; unfold decode_cell_directory,
       decode_root_lease_pool, decode_task_authority, decode_audit; solve_reads).
  destruct has_reset_zeroization_proof; simpl; solve_reads.
Qed.

Lemma family_from_wire_tag f : from_wire_tag (family_as_u8 f) = Ok f.
Proof. by destruct f. Qed.

Lemma length_encode_command c : (length (encode_command c) <= 300)%nat.
Proof.
  destruct c as [cmd|cmd|cmd|cmd]; destruct cmd; unfold encode_command,
    encode_cell_directory, encode_root_lease_pool, encode_task_authority, encode_audit,
    encode_socket_addr_opt, encode_opt; repeat case_match;
    rewrite ?length_app, ?length_be_bytes; simpl; lia.
Qed.

Lemma decode_command_body_encode p key :
  command_ok (command p) -> command_portable (command p) -> idempotency_key p = key ->
  decode_command_body (family_code (command p)) key (encode_command_body p) = Ok p.
Proof.
  intros Hok Hp <-. unfold decode_command_body, encode_command_body.
  pose proof (decode_command_reads _ Hok Hp []) as Hr. rewrite app_nil_r in Hr.
  rewrite Hr. by destruct p.
Qed.

Section frames.
Context `{Sha256}.

(** A frame as the concatenation of its fields. *)
Definition frame_of (tag key : Z) (len : Z) (body sum : bytes) : bytes :=
  WIRE_MAGIC ++ [tag] ++ be_bytes 16 key ++ be_bytes 4 len ++ body ++ sum.

Lemma frame_fields tag key len body sum :
  length sum = 32%nat ->
  let b := frame_of tag key len body sum in
  let e := (29 + length body)%nat in
  length b = (e + 32)%nat /\ slice 0 8 b = WIRE_MAGIC /\ slice 8 9 b = [tag]
  /\ slice 9 25 b = be_bytes 16 key /\ slice 25 29 b = be_bytes 4 len
  /\ slice 29 e b = body /\ drop e b = sum.
Proof.
  intros Hsum b e. subst b e. unfold frame_of.
  set (K := be_bytes 16 key). set (L := be_bytes 4 len).
  assert (length K = 16%nat) as HK by apply length_be_bytes.
  assert (length L = 4%nat) as HL by apply length_be_bytes.
  split_and!.
  - rewrite !length_app, Hsum, HK, HL. simpl. lia.
  - by apply (slice_mid 0 8 []).
  - by apply (slice_mid 8 9).
  - rewrite (assoc_L (++) WIRE_MAGIC). by apply (slice_mid 9 25); rewrite ?HK.
  - rewrite !(assoc_L (++) _ _ (L ++ _)). apply (slice_mid 25 29); [|by rewrite HL].
    rewrite !length_app, HK. done.
  - rewrite !(assoc_L (++) _ _ (body ++ _)). apply slice_mid; [|done].
    rewrite !length_app, HK, HL. done.
  - rewrite !(assoc_L (++) _ _ sum). apply drop_app_length'.
    rewrite !length_app, HK, HL. simpl. lia.
Qed.

Lemma take_frame tag key len body sum :
  length sum = 32%nat ->
  take (29 + length body) (frame_of tag key len body sum)
  = WIRE_MAGIC ++ [tag] ++ be_bytes 16 key ++ be_bytes 4 len ++ body.
Proof.
  intros Hsum. unfold frame_of. rewrite !(assoc_L (++) _ _ sum). apply take_app_length'.
  rewrite !length_app, !length_be_bytes. simpl. lia.
Qed.

Lemma encode_wire_frame p :
  encode_wire p =
    let body := encode_command_body p in
    let frame := WIRE_MAGIC ++ [family_as_u8 (family_code (command p))]
      ++ be_bytes 16 (idempotency_key p) ++ be_bytes 4 (Z.of_nat (length body)) ++ body in
    frame_of (family_as_u8 (family_code (command p))) (idempotency_key p)
      (Z.of_nat (length body)) body (be_bytes 32 (sha256 frame)).
Proof. unfold encode_wire, frame_of. cbv zeta. by rewrite <- !app_assoc. Qed.

(** A control-plane proposal whose fields are in the ranges of their Rust
    types, and whose routing hint has no V6 flow label or scope id, is decoded
    from its own wire frame, for every hash function. *)
Theorem decode_wire_encode_wire (p : ControlPlaneProposal) :
  proposal_ok p -> command_portable (command p) -> decode_wire (encode_wire p) = Ok p.
Proof.
  intros [Hkey Hok] Hp. rewrite encode_wire_frame. cbv zeta.
  set (body := encode_command_body p).
  assert (length body <= 300)%nat as Hlen by apply length_encode_command.
  set (sum := be_bytes 32 _).
  assert (length sum = 32%nat) as Hsum by apply length_be_bytes.
  set (tag := family_as_u8 _).
  destruct (frame_fields tag (idempotency_key p) (Z.of_nat (length body)) body sum Hsum)
    as (Hb & H0 & H8 & H9 & H25 & H29 & Hend).
  pose proof (take_frame tag (idempotency_key p) (Z.of_nat (length body)) body sum Hsum)
    as Htake.
  unfold decode_wire. cbv zeta. set (b := frame_of _ _ _ _ _) in *.
  rewrite decide_False by lia. rewrite H0, bool_decide_eq_true_2 by done. cbn [negb].
  rewrite H8.
  rewrite be_value_single. unfold tag at 1. rewrite family_from_wire_tag.
  replace (length b - 32)%nat with (29 + length body)%nat by lia.
  rewrite Htake, Hend. unfold sum at 1. rewrite bool_decide_eq_true_2 by done. cbn [negb].
  rewrite H25, be_value_bytes by (change (256 ^ Z.of_nat 4) with (2 ^ 32); lia).
  rewrite bool_decide_eq_true_2 by lia. cbn [negb].
  rewrite H29, H9, be_value_bytes by (width; lia).
  by apply decode_command_body_encode.
Qed.
End frames.

(** ** Canonical decoding

    What a reader of the cursor accepts is exactly the encoding of what it
    returns. *)
Section canonical.
Lemma canonical_be (p : reader Z) n :
  p = (s ← read_slice n; mret (be_value s)) ->
  canonical p (be_bytes n) (fun x => 0 <= x < 256 ^ Z.of_nat n).
Proof.
  intros -> b a rest Hb (s & b' & Hs & [= <- <-])%bind_inv.
  apply canonical_take_slice in Hs as (-> & [Hs <-] & Hb'); [|done].
  split_and!; [|by apply be_value_bound..|done].
  unfold id. by rewrite be_bytes_value.
Qed.

Lemma canonical_u64 : canonical read_u64 (be_bytes 8) u64.
Proof.
  intros b a rest Hb Hr. apply (canonical_be read_u64 8) in Hr as (-> & Ha & Hr); [|done..].
  split_and!; [done| |done..]. width. lia.
Qed.
Lemma canonical_u8 : canonical read_u8 (fun x => [x]) u8.
Proof.
  intros b a rest Hb Hr. apply (canonical_be read_u8 1) in Hr as (-> & Ha & Hr); [|done..].
  rewrite be_bytes_single by (width; lia). done.
Qed.
Lemma canonical_16 : canonical read_16 (be_bytes 16) id16.
Proof. by apply canonical_be. Qed.
Lemma canonical_32 : canonical read_32 (be_bytes 32) dig32.
Proof. by apply canonical_be. Qed.

Lemma canonical_nonzero field : canonical (read_nonzero_u64 field) (be_bytes 8) nz64.
Proof.
  intros b a rest Hb (x & b' & Hx & Hk)%bind_inv.
  apply canonical_u64 in Hx as (-> & Hx & Hb'); [|done].
  case_decide; [done|]. injection Hk as <- <-. split_and!; [done| |done..]. width. lia.
Qed.

Lemma canonical_cell_epoch field : canonical (read_cell_epoch field) (be_bytes 8) nz64.
Proof. apply canonical_nonzero. Qed.
Lemma canonical_fencing_token field :
  canonical (read_fencing_token field) (be_bytes 8) nz64.
Proof. apply canonical_nonzero. Qed.
Lemma canonical_generation field : canonical (read_generation field) (be_bytes 8) nz64.
Proof. apply canonical_nonzero. Qed.
Lemma canonical_cell_id : canonical read_cell_id (be_bytes 16) id16.
Proof. apply canonical_16. Qed.

Lemma canonical_opt field (p : reader Z) n P :
  canonical p (be_bytes n) P ->
  canonical (read_opt field p) (encode_opt n) (opt_ok P).
Proof.
  intros Hp b a rest Hb (tag & b' & Ht & Hk)%bind_inv.
  apply canonical_u8 in Ht as (-> & Ht & Hb'); [|done].
  repeat case_match; try done.
  - injection Hk as <- <-. done.
  - apply bind_inv in Hk as (x & b2 & Hx & [= <- <-]).
    apply Hp in Hx as (-> & Hx & Hb2); done.
Qed.

Lemma canonical_socket_addr_opt :
  canonical read_socket_addr_opt encode_socket_addr_opt
    (fun o => opt_ok socket_addr_ok o /\ hint_portable o).
Proof.
  intros b a rest Hb (tag & b' & Ht & Hk)%bind_inv.
  apply canonical_u8 in Ht as (-> & Ht & Hb'); [|done].
  repeat case_match; try done.
  - injection Hk as <- <-. done.
  - apply bind_inv in Hk as (ip & b2 & Hip & Hk).
    apply canonical_16 in Hip as (-> & Hip & Hb2); [|done].
    apply bind_inv in Hk as (port & b3 & Hport & [= <- <-]).
    apply canonical_take_slice in Hport as (-> & [Hp Hl] & Hb3); [|done].
    pose proof (be_value_bound _ Hp) as Hv. pose proof (be_bytes_value _ Hp) as He.
    rewrite Hl in Hv, He. simpl. rewrite He. split_and!; try done; width; lia.
  - apply bind_inv in Hk as (ip & b2 & Hip & Hk).
    apply canonical_take_slice in Hip as (-> & [Hip Hl4] & Hb2); [|done].
    apply bind_inv in Hk as (port & b3 & Hport & [= <- <-]).
    apply canonical_take_slice in Hport as (-> & [Hp Hl] & Hb3); [|done].
    pose proof (be_value_bound _ Hp) as Hv. pose proof (be_bytes_value _ Hp) as He.
    pose proof (be_value_bound _ Hip) as Hv4. pose proof (be_bytes_value _ Hip) as He4.
    rewrite Hl in Hv, He. rewrite Hl4 in Hv4, He4. simpl. rewrite He, He4.
    unfold id. simpl. rewrite <- (assoc_L (++)). split_and!; try done; width; lia.
Qed.
End canonical.


Create HintDb canonical.
#[export] Hint Resolve canonical_u64 canonical_u8 canonical_16 canonical_32
  canonical_nonzero canonical_cell_epoch canonical_fencing_token canonical_generation
  canonical_cell_id canonical_opt canonical_socket_addr_opt : canonical.

(** Inverts a successful run of a decoder field by field. *)
Ltac invert_reads :=
  repeat match goal with
  | Hb : byte_string ?b, H : (?p ≫= _) ?b = Ok _ |- _ =>
      let C := fresh in let H' := fresh in
      eassert (canonical p _ _) as C by (eauto with canonical);
      apply bind_inv in H as (? & ? & H' & H); apply C in H' as (-> & ? & ?); [|done];
      clear Hb C; cbn beta in *; destruct_and?
  end.

Lemma plift_inv {E A B} (r : result E A) (k : A -> parser E B) b x :
  (plift r ≫= k) b = Ok x -> exists a, r = Ok a /\ k a b = Ok x.
Proof. unfold mbind, parser_bind, plift. destruct r; [eauto|done]. Qed.

Lemma disposition_from_u8_inv v d (e : ScopeViolationError) :
  ok_or (disposition_from_u8 v) e = Ok d -> v = disposition_as_u8 d.
Proof. unfold disposition_from_u8. repeat case_match; by intros [= <-]. Qed.
Lemma device_state_from_u8_inv v d (e : ScopeViolationError) :
  ok_or (device_state_from_u8 v) e = Ok d -> v = device_state_as_u8 d.
Proof. unfold device_state_from_u8. repeat case_match; by intros [= <-]. Qed.

(** Closes a canonical-decoding goal once every field has been inverted. *)
Ltac finish_canonical :=
  match goal with H : mret _ _ = Ok _ |- _ => injection H as <- <- end;
  split_and?; simpl; rewrite <- ?app_assoc; split_and?; done.

Lemma decode_command_canonical f b c rest :
  byte_string b -> decode_command f b = Ok (c, rest) ->
  b = encode_command c ++ rest /\ family_code c = f /\ command_ok c /\ command_portable c.
Proof.
  intros Hb (tag & b' & Ht & Hk)%bind_inv.
  apply canonical_u8 in Ht as (-> & Ht & Hb'); [|done]. clear Hb.
  destruct f; unfold decode_cell_directory, decode_root_lease_pool, decode_task_authority,
    decode_audit in Hk; repeat case_match; try done; simplify_eq; invert_reads;
    try finish_canonical.
  - apply plift_inv in Hk as (st & ->%device_state_from_u8_inv & Hk). invert_reads.
    apply bind_inv in Hk as (pf & b2 & Hpf & Hk).
    repeat case_match; try done; simplify_eq; injection Hpf as <- <-; finish_canonical.
  - apply plift_inv in Hk as (d & ->%disposition_from_u8_inv & Hk). invert_reads.
    finish_canonical.
Qed.

Lemma decode_body_inv f key body p :
  byte_string body -> decode_command_body f key body = Ok p ->
  encode_command_body p = body /\ family_code (command p) = f
  /\ idempotency_key p = key /\ command_ok (command p) /\ command_portable (command p).
Proof.
  intros Hb. unfold decode_command_body, encode_command_body.
  destruct (decode_command f body) as [[c [|x rest]]|] eqn:Hd; try done.
  intros [= <-]. apply decode_command_canonical in Hd as (-> & Hf & Hok & Hp); [|done].
  simpl. by rewrite app_nil_r.
Qed.

(** A byte string cut at the offsets of the frame header. *)
Lemma frame_split (b : bytes) e :
  (29 <= e <= length b)%nat ->
  b = slice 0 8 b ++ slice 8 9 b ++ slice 9 25 b ++ slice 25 29 b ++ slice 29 e b ++ drop e b.
Proof.
  intros He. unfold slice. rewrite drop_0.
  assert (forall i j, (i <= j)%nat -> drop i b = take (j - i) (drop i b) ++ drop j b) as Hcut.
  { intros i j Hij. rewrite <- (take_drop (j - i) (drop i b)) at 1. rewrite drop_drop.
    do 2 f_equal. lia. }
  rewrite <- (Hcut 29%nat e) by lia. rewrite <- (Hcut 25%nat 29%nat) by lia.
  rewrite <- (Hcut 9%nat 25%nat) by lia. rewrite <- (Hcut 8%nat 9%nat) by lia.
  by rewrite take_drop.
Qed.

Lemma slice_bytes i j (b : bytes) :
  byte_string b -> (i <= j <= length b)%nat ->
  byte_string (slice i j b) /\ length (slice i j b) = (j - i)%nat.
Proof.
  intros Hb Hij. unfold slice. split; [by apply Forall_take, Forall_drop|].
  rewrite length_take, length_drop. lia.
Qed.

(** The wire decoder accepts only canonical frames: a byte string it decodes
    is, byte for byte, the frame of the proposal it returns, whose fields are all
    in range. Two different frames never decode to the same proposal, and what is
    hashed, logged and replicated again is what was received. *)
Theorem decode_wire_canonical `{Sha256} (b : bytes) (p : ControlPlaneProposal) :
  byte_string b -> decode_wire b = Ok p ->
  b = encode_wire p /\ proposal_ok p /\ command_portable (command p).
Proof.
  intros Hb. unfold decode_wire. cbv zeta. case_decide as Hlen; [done|].
  case_match eqn:Hmagic; [done|]. destruct (from_wire_tag _) as [f|] eqn:Hf; [|done].
  case_match eqn:Hsum; [done|]. case_match eqn:Hbl; [done|].
  apply negb_false_iff, bool_decide_eq_true in Hmagic, Hsum, Hbl.
  set (e := (length b - 32)%nat) in *. assert (29 <= e <= length b)%nat as He by lia.
  intros Hd. apply decode_body_inv in Hd as (Hbody & Hfam & Hkey & Hok & Hp);
    [|by apply slice_bytes].
  destruct (slice_bytes 8 9 b Hb) as [Ht1 Ht2]; [lia|].
  destruct (slice_bytes 9 25 b Hb) as [Hk1 Hk2]; [lia|].
  destruct (slice_bytes 25 29 b Hb) as [Hl1 Hl2]; [lia|].
  destruct (slice_bytes 29 e b Hb) as [Hb1 Hb2]; [lia|].
  assert (be_value (slice 8 9 b) = family_as_u8 (family_code (command p))) as Htag.
  { rewrite Hfam. revert Hf. unfold from_wire_tag. repeat case_match; try done; by intros [= <-]. }
  assert (slice 8 9 b = [family_as_u8 (family_code (command p))]) as H8.
  { rewrite <- Htag. by destruct (slice 8 9 b) as [|x [|]]; rewrite ?be_value_single. }
  assert (slice 9 25 b = be_bytes 16 (idempotency_key p)) as H9.
  { rewrite Hkey. rewrite <- (be_bytes_value (slice 9 25 b)) at 1 by done. by rewrite Hk2. }
  assert (slice 25 29 b = be_bytes 4 (Z.of_nat (length (encode_command_body p)))) as H25.
  { rewrite Hbody, Hb2. replace (Z.of_nat (e - 29)) with (be_value (slice 25 29 b)) by lia.
    rewrite <- (be_bytes_value (slice 25 29 b)) at 1 by done. by rewrite Hl2. }
  split; [|split; [split|]; [|done..]].
  2:{ rewrite Hkey. pose proof (be_value_bound _ Hk1) as Hr. rewrite Hk2 in Hr. exact Hr. }
  rewrite (frame_split b e He) at 1. unfold encode_wire. cbv zeta.
  rewrite Hsum, <- H25, <- H9, <- H8, <- Hmagic, Hbody, <- !app_assoc. do 7 f_equal.
  rewrite (frame_split b e He) at 1. rewrite !app_assoc. rewrite take_app_length'; [done|].
  rewrite !length_app. unfold slice. rewrite !length_take, !length_drop. lia.
Qed.

(** The scope guard: a frame the decoder accepts carries one of the four
    control-plane family tags at byte 8 and yields a command of that family, and
    a frame built around any of the five reserved data-plane tags is refused with
    that data-plane kind, whatever its key, its body and the hash function. *)
Theorem decode_wire_scope_guard `{Sha256} :
  (forall b p, decode_wire b = Ok p ->
     byte_string b -> be_value (slice 8 9 b) = family_as_u8 (family_code (command p)))
  /\ (forall kind key raw_body,
        (forall tag, kind <> UnknownNonControlFamily tag) ->
        decode_wire (encode_forbidden_data_plane_wire_probe kind key raw_body)
        = Err (RejectedDataPlanePayload
                 {| reject_kind := kind; reject_wire_tag := forbidden_wire_tag kind |})).
Proof.
  split.
  - intros b p Hd Hb. unfold decode_wire in Hd. cbv zeta in Hd.
    case_decide; [done|]. case_match; [done|].
    destruct (from_wire_tag _) as [f|] eqn:Hf; [|done]. do 2 (case_match; [done|]).
    apply decode_body_inv in Hd as (_ & -> & _); [|apply Forall_take, Forall_drop; done].
    revert Hf. unfold from_wire_tag. repeat case_match; try done; by intros [= <-].
  - intros kind key raw Hkind. unfold encode_forbidden_data_plane_wire_probe. cbv zeta.
    set (tag := forbidden_wire_tag kind). set (len := Z.min _ _). set (sum := be_bytes 32 _).
    rewrite <- !app_assoc. fold (frame_of tag key len raw sum).
    destruct (frame_fields tag key len raw sum) as (Hlen & H0 & H8 & _);
      [apply length_be_bytes|].
    unfold decode_wire. cbv zeta. rewrite decide_False by lia.
    rewrite H0, bool_decide_eq_true_2 by done. cbn [negb].
    rewrite H8, be_value_single. unfold tag. destruct kind; try done. by destruct (Hkind tag0).
Qed.

(** ** Concrete frames *)

Definition sample_proposal : ControlPlaneProposal := {|
  idempotency_key := 7;
  command := CellDirectoryMutation (UpsertCellEndpoint 1 2 3 4 5 6 (Some (V6 9 443 0 0)));
|}.

Lemma sample_proposal_ok : proposal_ok sample_proposal /\ command_portable (command sample_proposal).
Proof. unfold proposal_ok. simpl. width. split_and!; done || lia. Qed.

Lemma decode_wire_encode_wire_witness :
  proposal_ok sample_proposal /\ command_portable (command sample_proposal)
  /\ decode_wire (H := checksum_hasher) (encode_wire (H := checksum_hasher) sample_proposal)
     = Ok sample_proposal.
Proof.
  destruct sample_proposal_ok as [Hok Hp]. split; [exact Hok|]. split; [exact Hp|].
  apply (decode_wire_encode_wire (H := checksum_hasher) sample_proposal Hok Hp).
Defined.

Definition sample_frame : bytes :=
  Eval vm_compute in encode_wire (H := checksum_hasher) sample_proposal.

Lemma decode_wire_canonical_witness :
  decode_wire (H := checksum_hasher) sample_frame = Ok sample_proposal
  /\ sample_frame = encode_wire (H := checksum_hasher) sample_proposal
  /\ proposal_ok sample_proposal /\ command_portable (command sample_proposal).
Proof.
  assert (decode_wire (H := checksum_hasher) sample_frame = Ok sample_proposal) as Hd
    by (vm_compute; reflexivity).
  split; [exact Hd|].
  apply (decode_wire_canonical (H := checksum_hasher) sample_frame sample_proposal);
    [|exact Hd]. repeat constructor; done.
Defined.

(** The encoding drops the flow label and scope id of a V6 hint: the frame and
    the digest of such a proposal are those of the proposal without them. *)
Example v6_flow_label_dropped `{Sha256} k cell dom prin gen epoch seq ip port flow scope :
  let p f s := {| idempotency_key := k; command := CellDirectoryMutation
    (UpsertCellEndpoint cell dom prin gen epoch seq (Some (V6 ip port f s))) |} in
  encode_wire (p flow scope) = encode_wire (p 0 0)
  /\ proposal_digest (p flow scope) = proposal_digest (p 0 0).
Proof. done. Qed.
