(* ===== verification/StateMachine.v ===== *)
(** * StateMachine: the replicated control-plane state machine

    Models the state half of nlos-consensus/src/state_machine.rs: the
    materialized tables of [ControlPlaneStateMachine] and
    [apply_committed_entry], one definition per command. A command that would
    panic in the source ([assert!], [expect]) returns [None]. *)

From S2P Require Import Prelude Bytes Commands.

(** ** Records *)

Record ReplicatedCellDirectoryEntry := {
  ce_cell : Z;
  ce_control_domain_id : Z;
  ce_principal_id : Z;
  ce_node_boot_generation : Z;
  ce_epoch : Z;
  ce_heartbeat_seq : Z;
  ce_endpoint_hint : option SocketAddr;
  ce_decommissioned : bool;
  ce_updated_at_commit_index : Z;
}.

Record ReplicatedQuotaLeaseEntry := {
  ql_lease_id : Z;
  ql_budget_root : Z;
  ql_holder_cell : Z;
  ql_node_boot_generation : Z;
  ql_face_value : Z;
  ql_returned_amount : Z;
  ql_quarantined_amount : Z;
  ql_epoch : Z;
  ql_fencing_token : Z;
  ql_fence_scope : Z;
  ql_disposition : ReplicatedQuotaLeaseDisposition;
  ql_committed_at_index : Z;
}.

Record ReplicatedCapacityLeaseEntry := {
  cl_capacity_lease_id : Z;
  cl_pool_id : Z;
  cl_target_cell : Z;
  cl_target_boot_generation : Z;
  cl_amount : Z;
  cl_capacity_epoch : Z;
  cl_fencing_token : Z;
  cl_committed_at_index : Z;
}.

Record ReplicatedDeviceHeadEntry := {
  dh_device_id : Z;
  dh_device_lease_id : Z;
  dh_exclusivity_epoch : Z;
  dh_holder_cell : option Z;
  dh_fencing_token : Z;
  dh_state : ReplicatedDeviceHeadState;
  dh_committed_at_index : Z;
}.

Record CommittedTaskAuthorityAssignment := {
  ta_assignment_id : Z;
  ta_task_id : Z;
  ta_task_generation : Z;
  ta_authority_shard : Z;
  ta_home_cell : Z;
  ta_authority_term : Z;
  ta_control_epoch : Z;
  ta_participant_registry_generation : Z;
  ta_participant_registry_root : Z;
  ta_consensus_commit_index : Z;
  ta_consensus_term : Z;
}.

Record CommittedTaskAuthorityTakeover := {
  tr_takeover_receipt_id : Z;
  tr_task_id : Z;
  tr_task_generation : Z;
  tr_old_assignment_id : Z;
  tr_new_assignment_id : Z;
  tr_frozen_old_authority_term : Z;
  tr_new_authority_term : Z;
  tr_new_home_cell : Z;
  tr_new_control_epoch : Z;
  tr_exact_fence_set_root : Z;
  tr_outstanding_effect_quarantine_root : option Z;
  tr_consensus_commit_index : Z;
  tr_consensus_term : Z;
}.

Record ReplicatedMigrationAnchor := {
  ma_intent_id : Z;
  ma_source_cell : Z;
  ma_target_cell : Z;
  ma_epoch : Z;
  ma_intent_digest : Z;
  ma_consensus_commit_index : Z;
}.

Record ReplicatedCheckpointAnchor := {
  ca_cell : Z;
  ca_node_boot_generation : Z;
  ca_epoch : Z;
  ca_checkpoint_seq : Z;
  ca_checkpoint_digest : Z;
  ca_consensus_commit_index : Z;
}.

Inductive ControlPlaneDomainRejection :=
  | IdempotencyKeyPayloadConflict
  | StaleCellRoutingVersion
  | StaleTrustPolicyEpoch
  | InsufficientOrInvalidPoolBalance
  | NonMonotonicFencingToken
  | InvalidLeaseSettlement
  | DeviceExclusivityViolation
  | TaskAuthorityCasConflict
  | AuditAnchorConflict.

#[export] Instance rejection_eq_dec : EqDecision ControlPlaneDomainRejection.
Proof. solve_decision. Defined.

Definition rejection_as_u8 (r : ControlPlaneDomainRejection) : Z :=
  match r with
  | IdempotencyKeyPayloadConflict => 1
  | StaleCellRoutingVersion => 2
  | StaleTrustPolicyEpoch => 3
  | InsufficientOrInvalidPoolBalance => 4
  | NonMonotonicFencingToken => 5
  | InvalidLeaseSettlement => 6
  | DeviceExclusivityViolation => 7
  | TaskAuthorityCasConflict => 8
  | AuditAnchorConflict => 9
  end.

Definition rejection_from_u8 (v : Z) : option ControlPlaneDomainRejection :=
  match v with
  | 1 => Some IdempotencyKeyPayloadConflict
  | 2 => Some StaleCellRoutingVersion
  | 3 => Some StaleTrustPolicyEpoch
  | 4 => Some InsufficientOrInvalidPoolBalance
  | 5 => Some NonMonotonicFencingToken
  | 6 => Some InvalidLeaseSettlement
  | 7 => Some DeviceExclusivityViolation
  | 8 => Some TaskAuthorityCasConflict
  | 9 => Some AuditAnchorConflict
  | _ => None
  end.

Inductive AppliedProposalOutcome :=
  | Applied (consensus_commit_index : Z) (idempotent_replay : bool)
  | DomainRejected (consensus_commit_index : Z) (reason : ControlPlaneDomainRejection).

Record DedupRecord := {
  dd_proposal_digest : Z;
  dd_committed_index : Z;
  dd_rejection : option ControlPlaneDomainRejection;
}.

Record QuotaPoolBalance := {
  qp_available : Z;
  qp_leased_active : Z;
  qp_quarantined : Z;
}.

Record CapacityPoolBalance := {
  cp_total_capacity : Z;
  cp_committed : Z;
}.

Record ControlPlaneStateMachine := {
  last_applied_index : Z;
  last_applied_term : Z;
  authority_receipt_high_water : Z;
  trust_policy_epoch : Z;
  trust_policy_digest : Z;
  cells : gmap Z ReplicatedCellDirectoryEntry;
  quota_pools : gmap Z QuotaPoolBalance;
  quota_leases : gmap Z ReplicatedQuotaLeaseEntry;
  capacity_pools : gmap Z CapacityPoolBalance;
  capacity_leases : gmap Z ReplicatedCapacityLeaseEntry;
  device_heads : gmap Z ReplicatedDeviceHeadEntry;
  fence_scope_high_water : gmap Z Z;
  task_shards : gmap (Z * Z) CommittedTaskAuthorityAssignment;
  takeover_receipts : gmap Z CommittedTaskAuthorityTakeover;
  migration_anchors : gmap Z ReplicatedMigrationAnchor;
  checkpoint_anchors : gmap (Z * Z) ReplicatedCheckpointAnchor;
  dedup_table : gmap Z DedupRecord;
}.

#[export] Instance eta_sm : Eta ControlPlaneStateMachine := fun s => {|
  last_applied_index := last_applied_index s;
  last_applied_term := last_applied_term s;
  authority_receipt_high_water := authority_receipt_high_water s;
  trust_policy_epoch := trust_policy_epoch s;
  trust_policy_digest := trust_policy_digest s;
  cells := cells s;
  quota_pools := quota_pools s;
  quota_leases := quota_leases s;
  capacity_pools := capacity_pools s;
  capacity_leases := capacity_leases s;
  device_heads := device_heads s;
  fence_scope_high_water := fence_scope_high_water s;
  task_shards := task_shards s;
  takeover_receipts := takeover_receipts s;
  migration_anchors := migration_anchors s;
  checkpoint_anchors := checkpoint_anchors s;
  dedup_table := dedup_table s;
|}.

#[export] Instance set_last_applied_index : Setter last_applied_index. Proof. build_setter. Defined.
#[export] Instance set_last_applied_term : Setter last_applied_term. Proof. build_setter. Defined.
#[export] Instance set_authority_receipt_high_water : Setter authority_receipt_high_water. Proof. build_setter. Defined.
#[export] Instance set_trust_policy_epoch : Setter trust_policy_epoch. Proof. build_setter. Defined.
#[export] Instance set_trust_policy_digest : Setter trust_policy_digest. Proof. build_setter. Defined.
#[export] Instance set_cells : Setter cells. Proof. build_setter. Defined.
#[export] Instance set_quota_pools : Setter quota_pools. Proof. build_setter. Defined.
#[export] Instance set_quota_leases : Setter quota_leases. Proof. build_setter. Defined.
#[export] Instance set_capacity_pools : Setter capacity_pools. Proof. build_setter. Defined.
#[export] Instance set_capacity_leases : Setter capacity_leases. Proof. build_setter. Defined.
#[export] Instance set_device_heads : Setter device_heads. Proof. build_setter. Defined.
#[export] Instance set_fence_scope_high_water : Setter fence_scope_high_water. Proof. build_setter. Defined.
#[export] Instance set_task_shards : Setter task_shards. Proof. build_setter. Defined.
#[export] Instance set_takeover_receipts : Setter takeover_receipts. Proof. build_setter. Defined.
#[export] Instance set_migration_anchors : Setter migration_anchors. Proof. build_setter. Defined.
#[export] Instance set_checkpoint_anchors : Setter checkpoint_anchors. Proof. build_setter. Defined.
#[export] Instance set_dedup_table : Setter dedup_table. Proof. build_setter. Defined.

(** [ControlPlaneStateMachine::new()] *)
Definition sm_new : ControlPlaneStateMachine := {|
  last_applied_index := 0;
  last_applied_term := 0;
  authority_receipt_high_water := 0;
  trust_policy_epoch := 0;
  trust_policy_digest := 0;
  cells := ∅;
  quota_pools := ∅;
  quota_leases := ∅;
  capacity_pools := ∅;
  capacity_leases := ∅;
  device_heads := ∅;
  fence_scope_high_water := ∅;
  task_shards := ∅;
  takeover_receipts := ∅;
  migration_anchors := ∅;
  checkpoint_anchors := ∅;
  dedup_table := ∅;
|}.

(** ** Commands

    The result of a command: the state after it and its rejection, or [None]
    when the source panics. *)
Abbreviation outcome := (option (ControlPlaneStateMachine * option ControlPlaneDomainRejection)).

Definition applied (s : ControlPlaneStateMachine) : outcome := Some (s, None).
Definition rejected (s : ControlPlaneStateMachine) (r : ControlPlaneDomainRejection) : outcome :=
  Some (s, Some r).

(** Lexicographic [<=] and [<] on version tuples. *)
Definition version_le (a b : Z * Z * Z) : bool :=
  let '(a1, a2, a3) := a in let '(b1, b2, b3) := b in
  bool_decide (a1 < b1 \/ (a1 = b1 /\ (a2 < b2 \/ (a2 = b2 /\ a3 <= b3)))).
Definition pair_lt (a b : Z * Z) : bool :=
  bool_decide (a.1 < b.1 \/ (a.1 = b.1 /\ a.2 < b.2)).

Definition apply_upsert_cell_endpoint (s : ControlPlaneStateMachine) (log_index : Z)
    (cell control_domain_id principal_id node_boot_generation epoch heartbeat_seq : Z)
    (endpoint_hint : option SocketAddr) : outcome :=
  let stale :=
    match cells s !! cell with
    | Some prev =>
        let prev_ver := (ce_node_boot_generation prev, ce_epoch prev, ce_heartbeat_seq prev) in
        let next_ver := (node_boot_generation, epoch, heartbeat_seq) in
        ce_decommissioned prev || version_le next_ver prev_ver
    | None => false
    end in
  if stale then rejected s StaleCellRoutingVersion else
  applied (s <| cells := <[cell := {|
    ce_cell := cell;
    ce_control_domain_id := control_domain_id;
    ce_principal_id := principal_id;
    ce_node_boot_generation := node_boot_generation;
    ce_epoch := epoch;
    ce_heartbeat_seq := heartbeat_seq;
    ce_endpoint_hint := endpoint_hint;
    ce_decommissioned := false;
    ce_updated_at_commit_index := log_index;
  |}]> (cells s) |>).

Definition apply_advance_trust_policy_epoch (s : ControlPlaneStateMachine)
    (new_trust_epoch policy_digest : Z) : outcome :=
  if bool_decide (new_trust_epoch <= trust_policy_epoch s)
  then rejected s StaleTrustPolicyEpoch
  else applied (s <| trust_policy_epoch := new_trust_epoch |>
                  <| trust_policy_digest := policy_digest |>).

Definition apply_decommission_cell (s : ControlPlaneStateMachine) (log_index : Z)
    (cell fenced_epoch : Z) : outcome :=
  match cells s !! cell with
  | None => rejected s StaleCellRoutingVersion
  | Some entry =>
      if bool_decide (fenced_epoch < ce_epoch entry) then rejected s StaleCellRoutingVersion
      else applied (s <| cells := <[cell := {|
        ce_cell := ce_cell entry;
        ce_control_domain_id := ce_control_domain_id entry;
        ce_principal_id := ce_principal_id entry;
        ce_node_boot_generation := ce_node_boot_generation entry;
        ce_epoch := fenced_epoch;
        ce_heartbeat_seq := ce_heartbeat_seq entry;
        ce_endpoint_hint := None;
        ce_decommissioned := true;
        ce_updated_at_commit_index := log_index;
      |}]> (cells s) |>)
  end.

Definition apply_register_quota_pool (s : ControlPlaneStateMachine)
    (budget_root initial_available : Z) : outcome :=
  match quota_pools s !! budget_root with
  | Some _ => rejected s InsufficientOrInvalidPoolBalance
  | None => applied (s <| quota_pools := <[budget_root := {|
      qp_available := initial_available; qp_leased_active := 0; qp_quarantined := 0
    |}]> (quota_pools s) |>)
  end.

(** [Some(&prev_tok) = fence_scope_high_water.get(&scope) && token <= prev_tok] *)
Definition stale_token (s : ControlPlaneStateMachine) (scope token : Z) : bool :=
  match fence_scope_high_water s !! scope with
  | Some prev_tok => bool_decide (token <= prev_tok)
  | None => false
  end.

Definition apply_allocate_quota_lease (s : ControlPlaneStateMachine) (log_index : Z)
    (lease_id budget_root holder_cell node_boot_generation face_value epoch fencing_token
     fence_scope : Z) : outcome :=
  if bool_decide (is_Some (quota_leases s !! lease_id)) || bool_decide (face_value = 0)
  then rejected s InsufficientOrInvalidPoolBalance else
  if stale_token s fence_scope fencing_token then rejected s NonMonotonicFencingToken else
  match quota_pools s !! budget_root with
  | None => rejected s InsufficientOrInvalidPoolBalance
  | Some pool =>
      if bool_decide (qp_available pool < face_value)
      then rejected s InsufficientOrInvalidPoolBalance else
      let pool' := {|
        qp_available := qp_available pool - face_value;
        qp_leased_active := saturating_add64 (qp_leased_active pool) face_value;
        qp_quarantined := qp_quarantined pool;
      |} in
      applied (s <| quota_pools := <[budget_root := pool']> (quota_pools s) |>
        <| fence_scope_high_water := <[fence_scope := fencing_token]> (fence_scope_high_water s) |>
        <| quota_leases := <[lease_id := {|
          ql_lease_id := lease_id;
          ql_budget_root := budget_root;
          ql_holder_cell := holder_cell;
          ql_node_boot_generation := node_boot_generation;
          ql_face_value := face_value;
          ql_returned_amount := 0;
          ql_quarantined_amount := 0;
          ql_epoch := epoch;
          ql_fencing_token := fencing_token;
          ql_fence_scope := fence_scope;
          ql_disposition := QlActive;
          ql_committed_at_index := log_index;
        |}]> (quota_leases s) |>)
  end.

Definition apply_settle_or_quarantine_quota_lease (s : ControlPlaneStateMachine)
    (log_index lease_id : Z) (disposition : ReplicatedQuotaLeaseDisposition)
    (returned_amount quarantined_amount new_epoch new_fencing_token : Z) : outcome :=
  match quota_leases s !! lease_id with
  | None => rejected s InvalidLeaseSettlement
  | Some existing =>
      if negb (bool_decide (ql_disposition existing = QlActive))
         || bool_decide (disposition = QlActive)
      then rejected s InvalidLeaseSettlement else
      if bool_decide (new_epoch < ql_epoch existing) then rejected s InvalidLeaseSettlement else
      if stale_token s (ql_fence_scope existing) new_fencing_token
      then rejected s NonMonotonicFencingToken else
      match checked_add64 returned_amount quarantined_amount with
      | None => rejected s InvalidLeaseSettlement
      | Some total_accounted =>
          if bool_decide (total_accounted > ql_face_value existing)
          then rejected s InvalidLeaseSettlement else
          if bool_decide (disposition = QlQuarantined) && negb (bool_decide (returned_amount = 0))
          then rejected s InvalidLeaseSettlement else
          match quota_pools s !! ql_budget_root existing with
          | None => None (* [expect("registered budget_root")] *)
          | Some pool =>
              let pool' := {|
                qp_available := saturating_add64 (qp_available pool) returned_amount;
                qp_leased_active :=
                  saturating_sub64 (qp_leased_active pool) (ql_face_value existing);
                qp_quarantined := saturating_add64 (qp_quarantined pool) quarantined_amount;
              |} in
              applied (s
                <| quota_pools := <[ql_budget_root existing := pool']> (quota_pools s) |>
                <| fence_scope_high_water :=
                     <[ql_fence_scope existing := new_fencing_token]> (fence_scope_high_water s) |>
                <| quota_leases := <[lease_id := {|
                  ql_lease_id := ql_lease_id existing;
                  ql_budget_root := ql_budget_root existing;
                  ql_holder_cell := ql_holder_cell existing;
                  ql_node_boot_generation := ql_node_boot_generation existing;
                  ql_face_value := ql_face_value existing;
                  ql_returned_amount := returned_amount;
                  ql_quarantined_amount := quarantined_amount;
                  ql_epoch := new_epoch;
                  ql_fencing_token := new_fencing_token;
                  ql_fence_scope := ql_fence_scope existing;
                  ql_disposition := disposition;
                  ql_committed_at_index := log_index;
                |}]> (quota_leases s) |>)
          end
      end
  end.

(** The pool entry is created by [entry(pool_id).or_insert(..)] before the
    remaining checks run. *)
Definition apply_allocate_capacity_lease (s : ControlPlaneStateMachine) (log_index : Z)
    (capacity_lease_id pool_id pool_total_capacity target_cell target_boot_generation amount
     capacity_epoch fencing_token : Z) : outcome :=
  if bool_decide (is_Some (capacity_leases s !! capacity_lease_id)) || bool_decide (amount = 0)
  then rejected s InsufficientOrInvalidPoolBalance else
  let pool := default {| cp_total_capacity := pool_total_capacity; cp_committed := 0 |}
    (capacity_pools s !! pool_id) in
  let s1 := s <| capacity_pools := <[pool_id := pool]> (capacity_pools s) |> in
  if negb (bool_decide (cp_total_capacity pool = pool_total_capacity))
  then rejected s1 InsufficientOrInvalidPoolBalance else
  match checked_add64 (cp_committed pool) amount with
  | None => rejected s1 InsufficientOrInvalidPoolBalance
  | Some new_committed =>
      if bool_decide (new_committed > cp_total_capacity pool)
      then rejected s1 InsufficientOrInvalidPoolBalance else
      applied (s1
        <| capacity_pools := <[pool_id := {|
             cp_total_capacity := cp_total_capacity pool; cp_committed := new_committed |}]>
             (capacity_pools s1) |>
        <| capacity_leases := <[capacity_lease_id := {|
          cl_capacity_lease_id := capacity_lease_id;
          cl_pool_id := pool_id;
          cl_target_cell := target_cell;
          cl_target_boot_generation := target_boot_generation;
          cl_amount := amount;
          cl_capacity_epoch := capacity_epoch;
          cl_fencing_token := fencing_token;
          cl_committed_at_index := log_index;
        |}]> (capacity_leases s) |>)
  end.

(** The [match (prev.state, new_state)] of [TransitionExclusiveDeviceHead]. *)
Definition device_transition_allowed (prev new : ReplicatedDeviceHeadState)
    (has_reset_zeroization_proof : bool) : bool :=
  match prev, new with
  | DhFree, DhActive => true
  | DhActive, DhQuarantined => true
  | (DhActive | DhQuarantined), DhFree => has_reset_zeroization_proof
  | _, _ => false
  end.

Definition apply_transition_exclusive_device_head (s : ControlPlaneStateMachine)
    (log_index device_id device_lease_id exclusivity_epoch : Z) (holder_cell : option Z)
    (fencing_token : Z) (new_state : ReplicatedDeviceHeadState)
    (has_reset_zeroization_proof : bool) : outcome :=
  if bool_decide (new_state = DhActive) && bool_decide (holder_cell = None)
  then rejected s DeviceExclusivityViolation else
  if negb (bool_decide (new_state = DhActive)) && bool_decide (is_Some holder_cell)
  then rejected s DeviceExclusivityViolation else
  let refused :=
    match device_heads s !! device_id with
    | Some prev =>
        bool_decide (exclusivity_epoch <= dh_exclusivity_epoch prev)
        || bool_decide (fencing_token <= dh_fencing_token prev)
        || negb (device_transition_allowed (dh_state prev) new_state has_reset_zeroization_proof)
    | None => negb (bool_decide (new_state = DhActive))
    end in
  if refused then rejected s DeviceExclusivityViolation else
  applied (s <| device_heads := <[device_id := {|
    dh_device_id := device_id;
    dh_device_lease_id := device_lease_id;
    dh_exclusivity_epoch := exclusivity_epoch;
    dh_holder_cell := holder_cell;
    dh_fencing_token := fencing_token;
    dh_state := new_state;
    dh_committed_at_index := log_index;
  |}]> (device_heads s) |>).

Definition apply_assign_initial_authority (s : ControlPlaneStateMachine) (log_index term : Z)
    (assignment_id task_id task_generation authority_shard home_cell authority_term
     control_epoch participant_registry_generation participant_registry_root : Z) : outcome :=
  match task_shards s !! (task_id, task_generation) with
  | Some _ => rejected s TaskAuthorityCasConflict
  | None => applied (s <| task_shards := <[(task_id, task_generation) := {|
      ta_assignment_id := assignment_id;
      ta_task_id := task_id;
      ta_task_generation := task_generation;
      ta_authority_shard := authority_shard;
      ta_home_cell := home_cell;
      ta_authority_term := authority_term;
      ta_control_epoch := control_epoch;
      ta_participant_registry_generation := participant_registry_generation;
      ta_participant_registry_root := participant_registry_root;
      ta_consensus_commit_index := log_index;
      ta_consensus_term := term;
    |}]> (task_shards s) |>)
  end.

Definition apply_record_completed_takeover (s : ControlPlaneStateMachine) (log_index term : Z)
    (takeover_receipt_id task_id task_generation old_assignment_id new_assignment_id
     frozen_old_authority_term new_authority_term new_home_cell new_control_epoch
     new_participant_registry_generation new_participant_registry_root
     exact_fence_set_root : Z) (outstanding_effect_quarantine_root : option Z) : outcome :=
  if bool_decide (is_Some (takeover_receipts s !! takeover_receipt_id))
     || bool_decide (new_authority_term <= frozen_old_authority_term)
     || bool_decide (old_assignment_id = new_assignment_id)
  then rejected s TaskAuthorityCasConflict else
  match task_shards s !! (task_id, task_generation) with
  | None => rejected s TaskAuthorityCasConflict
  | Some current =>
      if negb (bool_decide (ta_assignment_id current = old_assignment_id))
         || negb (bool_decide (ta_authority_term current = frozen_old_authority_term))
         || bool_decide (new_control_epoch <= ta_control_epoch current)
         || bool_decide (new_participant_registry_generation
                         <= ta_participant_registry_generation current)
      then rejected s TaskAuthorityCasConflict else
      applied (s
        <| task_shards := <[(task_id, task_generation) := {|
          ta_assignment_id := new_assignment_id;
          ta_task_id := task_id;
          ta_task_generation := task_generation;
          ta_authority_shard := ta_authority_shard current;
          ta_home_cell := new_home_cell;
          ta_authority_term := new_authority_term;
          ta_control_epoch := new_control_epoch;
          ta_participant_registry_generation := new_participant_registry_generation;
          ta_participant_registry_root := new_participant_registry_root;
          ta_consensus_commit_index := log_index;
          ta_consensus_term := term;
        |}]> (task_shards s) |>
        <| takeover_receipts := <[takeover_receipt_id := {|
          tr_takeover_receipt_id := takeover_receipt_id;
          tr_task_id := task_id;
          tr_task_generation := task_generation;
          tr_old_assignment_id := old_assignment_id;
          tr_new_assignment_id := new_assignment_id;
          tr_frozen_old_authority_term := frozen_old_authority_term;
          tr_new_authority_term := new_authority_term;
          tr_new_home_cell := new_home_cell;
          tr_new_control_epoch := new_control_epoch;
          tr_exact_fence_set_root := exact_fence_set_root;
          tr_outstanding_effect_quarantine_root := outstanding_effect_quarantine_root;
          tr_consensus_commit_index := log_index;
          tr_consensus_term := term;
        |}]> (takeover_receipts s) |>)
  end.

Definition apply_anchor_migration_intent (s : ControlPlaneStateMachine)
    (log_index intent_id source_cell target_cell epoch intent_digest : Z) : outcome :=
  if bool_decide (is_Some (migration_anchors s !! intent_id))
     || bool_decide (source_cell = target_cell)
  then rejected s AuditAnchorConflict else
  applied (s <| migration_anchors := <[intent_id := {|
    ma_intent_id := intent_id;
    ma_source_cell := source_cell;
    ma_target_cell := target_cell;
    ma_epoch := epoch;
    ma_intent_digest := intent_digest;
    ma_consensus_commit_index := log_index;
  |}]> (migration_anchors s) |>).

Definition apply_anchor_reconciliation_checkpoint (s : ControlPlaneStateMachine)
    (log_index cell node_boot_generation epoch checkpoint_seq checkpoint_digest : Z) : outcome :=
  if bool_decide (is_Some (checkpoint_anchors s !! (cell, checkpoint_seq)))
  then rejected s AuditAnchorConflict else
  let regressed :=
    bool_decide (checkpoint_seq > 1) &&
    match checkpoint_anchors s !! (cell, checkpoint_seq - 1) with
    | Some prev =>
        pair_lt (node_boot_generation, epoch) (ca_node_boot_generation prev, ca_epoch prev)
    | None => false
    end in
  if regressed then rejected s AuditAnchorConflict else
  applied (s <| checkpoint_anchors := <[(cell, checkpoint_seq) := {|
    ca_cell := cell;
    ca_node_boot_generation := node_boot_generation;
    ca_epoch := epoch;
    ca_checkpoint_seq := checkpoint_seq;
    ca_checkpoint_digest := checkpoint_digest;
    ca_consensus_commit_index := log_index;
  |}]> (checkpoint_anchors s) |>).

Definition apply_inner (s : ControlPlaneStateMachine) (log_index term : Z)
    (c : ControlPlaneCommand) : outcome :=
  match c with
  | CellDirectoryMutation (UpsertCellEndpoint cell dom prin gen epoch seq hint) =>
      apply_upsert_cell_endpoint s log_index cell dom prin gen epoch seq hint
  | CellDirectoryMutation (AdvanceTrustPolicyEpoch e d) =>
      apply_advance_trust_policy_epoch s e d
  | CellDirectoryMutation (DecommissionCell cell e) =>
      apply_decommission_cell s log_index cell e
  | RootLeasePoolMutation (RegisterQuotaPool root a) => apply_register_quota_pool s root a
  | RootLeasePoolMutation (AllocateQuotaLease l root h gen fv e tok sc) =>
      apply_allocate_quota_lease s log_index l root h gen fv e tok sc
  | RootLeasePoolMutation (SettleOrQuarantineQuotaLease l d r q e tok) =>
      apply_settle_or_quarantine_quota_lease s log_index l d r q e tok
  | RootLeasePoolMutation (AllocateCapacityLease l pool tot cell gen a e tok) =>
      apply_allocate_capacity_lease s log_index l pool tot cell gen a e tok
  | RootLeasePoolMutation (TransitionExclusiveDeviceHead d l e h tok st pf) =>
      apply_transition_exclusive_device_head s log_index d l e h tok st pf
  | TaskAuthorityShardMutation (AssignInitialAuthority a t g sh h at_ ce rg rr) =>
      apply_assign_initial_authority s log_index term a t g sh h at_ ce rg rr
  | TaskAuthorityShardMutation (RecordCompletedTakeover r t g oa na ot nt h ce rg rr fr qr) =>
      apply_record_completed_takeover s log_index term r t g oa na ot nt h ce rg rr fr qr
  | ControlPlaneAuditAnchor (AnchorMigrationIntent i src dst e d) =>
      apply_anchor_migration_intent s log_index i src dst e d
  | ControlPlaneAuditAnchor (AnchorReconciliationCheckpoint c g e sq d) =>
      apply_anchor_reconciliation_checkpoint s log_index c g e sq d
  end.

Definition apply_committed_entry `{Sha256} (s : ControlPlaneStateMachine) (log_index term : Z)
    (proposal : ControlPlaneProposal) :
    option (ControlPlaneStateMachine * AppliedProposalOutcome) :=
  if negb (bool_decide (log_index > last_applied_index s)) then None (* [assert!] *) else
  let s := s <| last_applied_index := log_index |> <| last_applied_term := term |> in
  let prop_digest := proposal_digest proposal in
  match dedup_table s !! idempotency_key proposal with
  | Some existing =>
      if bool_decide (dd_proposal_digest existing = prop_digest) then
        match dd_rejection existing with
        | None => Some (s, Applied (dd_committed_index existing) true)
        | Some reason => Some (s, DomainRejected (dd_committed_index existing) reason)
        end
      else Some (s, DomainRejected log_index IdempotencyKeyPayloadConflict)
  | None =>
      match apply_inner s log_index term (command proposal) with
      | None => None
      | Some (s1, rejection) =>
          let s2 := s1 <| dedup_table := <[idempotency_key proposal := {|
            dd_proposal_digest := prop_digest;
            dd_committed_index := log_index;
            dd_rejection := rejection;
          |}]> (dedup_table s1) |> in
          match rejection with
          | None =>
              Some (s2 <| authority_receipt_high_water :=
                            saturating_add64 (authority_receipt_high_water s2) 1 |>,
                    Applied log_index false)
          | Some reason => Some (s2, DomainRejected log_index reason)
          end
      end
  end.

(** ** Bookkeeping and domain tables

    [domain s] is the state without the bookkeeping that
    [apply_committed_entry] itself maintains. Two states are [same_tables] when
    they differ at most there. *)
Definition domain (s : ControlPlaneStateMachine) : ControlPlaneStateMachine :=
  s <| last_applied_index := 0 |> <| last_applied_term := 0 |>
    <| authority_receipt_high_water := 0 |> <| dedup_table := ∅ |>.

Definition same_tables (s s' : ControlPlaneStateMachine) : Prop := domain s = domain s'.

#[export] Instance same_tables_equiv : Equivalence same_tables.
Proof.
  split; [by intros s|by intros s s'|]. intros s1 s2 s3. unfold same_tables. congruence.
Qed.

(** A projection that factors through [domain] is invariant. *)
Lemma same_tables_proj {B} (f : ControlPlaneStateMachine -> B) :
  (forall s, f (domain s) = f s) -> Proper (same_tables ==> eq) f.
Proof. intros Hf s s' Hs. by rewrite <- (Hf s), <- (Hf s'), Hs. Qed.

#[export] Instance cells_proper : Proper (same_tables ==> eq) cells.
Proof. by apply same_tables_proj. Qed.
#[export] Instance trust_policy_epoch_proper : Proper (same_tables ==> eq) trust_policy_epoch.
Proof. by apply same_tables_proj. Qed.
#[export] Instance quota_pools_proper : Proper (same_tables ==> eq) quota_pools.
Proof. by apply same_tables_proj. Qed.
#[export] Instance quota_leases_proper : Proper (same_tables ==> eq) quota_leases.
Proof. by apply same_tables_proj. Qed.
#[export] Instance capacity_pools_proper : Proper (same_tables ==> eq) capacity_pools.
Proof. by apply same_tables_proj. Qed.
#[export] Instance capacity_leases_proper : Proper (same_tables ==> eq) capacity_leases.
Proof. by apply same_tables_proj. Qed.
#[export] Instance device_heads_proper : Proper (same_tables ==> eq) device_heads.
Proof. by apply same_tables_proj. Qed.
#[export] Instance fence_scope_proper : Proper (same_tables ==> eq) fence_scope_high_water.
Proof. by apply same_tables_proj. Qed.
#[export] Instance task_shards_proper : Proper (same_tables ==> eq) task_shards.
Proof. by apply same_tables_proj. Qed.
#[export] Instance takeover_receipts_proper : Proper (same_tables ==> eq) takeover_receipts.
Proof. by apply same_tables_proj. Qed.
#[export] Instance checkpoint_anchors_proper : Proper (same_tables ==> eq) checkpoint_anchors.
Proof. by apply same_tables_proj. Qed.

(** The state [apply_inner] runs on. *)
Definition at_index (s : ControlPlaneStateMachine) (i t : Z) : ControlPlaneStateMachine :=
  s <| last_applied_index := i |> <| last_applied_term := t |>.

(** A command with no panic either leaves the bookkeeping alone. *)
Lemma apply_inner_bookkeeping s i t c s1 r :
  apply_inner s i t c = Some (s1, r) ->
  last_applied_index s1 = last_applied_index s /\ last_applied_term s1 = last_applied_term s
  /\ authority_receipt_high_water s1 = authority_receipt_high_water s
  /\ dedup_table s1 = dedup_table s.
Proof.
  intros Hc. destruct c as [[]|[]|[]|[]]; simpl in Hc; revert Hc;
  unfold apply_upsert_cell_endpoint, apply_advance_trust_policy_epoch, apply_decommission_cell,
    apply_register_quota_pool, apply_allocate_quota_lease,
    apply_settle_or_quarantine_quota_lease, apply_allocate_capacity_lease,
    apply_transition_exclusive_device_head, apply_assign_initial_authority,
    apply_record_completed_takeover, apply_anchor_migration_intent,
    apply_anchor_reconciliation_checkpoint, applied, rejected; cbv zeta;
  repeat case_match; intros; simplify_eq/=; done.
Qed.

(** Every committed entry is a replay of a recorded proposal or one command. *)
Lemma apply_committed_entry_inv `{Sha256} s i t p s' out :
  apply_committed_entry s i t p = Some (s', out) ->
  last_applied_index s < i /\
  ((is_Some (dedup_table s !! idempotency_key p) /\ s' = at_index s i t) \/
   exists s1 rej, dedup_table s !! idempotency_key p = None
     /\ apply_inner (at_index s i t) i t (command p) = Some (s1, rej)
     /\ same_tables s1 s'
     /\ dedup_table s' = <[idempotency_key p := {| dd_proposal_digest := proposal_digest p;
          dd_committed_index := i; dd_rejection := rej |}]> (dedup_table s)
     /\ last_applied_index s' = i /\ last_applied_term s' = t
     /\ out = match rej with None => Applied i false | Some r => DomainRejected i r end).
Proof.
  unfold apply_committed_entry. case_match eqn:Hi; [done|].
  apply negb_false_iff, bool_decide_eq_true in Hi. fold (at_index s i t). simpl.
  intros Hrun. split; [lia|]. destruct (dedup_table s !! idempotency_key p) as [d|] eqn:Hd.
  { left. split; [eauto|]. repeat case_match; by simplify_eq. }
  right. destruct (apply_inner (at_index s i t) i t (command p)) as [[s1 rej]|] eqn:Hin; [|done].
  pose proof (apply_inner_bookkeeping _ _ _ _ _ _ Hin) as (H1 & H2 & H3 & H4).
  exists s1, rej. destruct rej; injection Hrun as <- <-; simpl; rewrite H1, H2, H4; done.
Qed.

(** What [same_tables] respects and every command keeps, every committed entry keeps. *)
Lemma apply_committed_entry_keeps `{Sha256} (P : ControlPlaneStateMachine -> Prop)
    `{!Proper (same_tables ==> impl) P} s i t p s' out :
  (forall s0 s1 rej, P s0 -> apply_inner s0 i t (command p) = Some (s1, rej) -> P s1) ->
  P s -> apply_committed_entry s i t p = Some (s', out) -> P s'.
Proof.
  intros Hin HP Hrun. assert (same_tables s (at_index s i t)) as Hat by done.
  apply apply_committed_entry_inv in Hrun as [_ [[_ ->]|(s1 & rej & _ & Hc & Hs & _)]].
  - by rewrite <- Hat.
  - rewrite <- Hs. eapply Hin; [|exact Hc]. by rewrite <- Hat.
Qed.

Section log.
Context `{Sha256}.

(** Running a committed log: the state and the outcomes, [None] on a panic. *)
Fixpoint apply_log (s : ControlPlaneStateMachine) (es : list (Z * Z * ControlPlaneProposal)) :
    option (ControlPlaneStateMachine * list AppliedProposalOutcome) :=
  match es with
  | [] => Some (s, [])
  | (i, t, p) :: es =>
      '(s1, out) ← apply_committed_entry s i t p;
      '(s2, outs) ← apply_log s1 es;
      Some (s2, out :: outs)
  end.

(** Indices grow strictly from [i] on, and every proposal is in range. *)
Fixpoint log_ok (i : Z) (es : list (Z * Z * ControlPlaneProposal)) : Prop :=
  match es with
  | [] => True
  | (j, _, p) :: es => i < j /\ command_ok (command p) /\ log_ok j es
  end.

Lemma apply_log_app es1 : forall es2 s,
  apply_log s (es1 ++ es2) =
    ('(s1, o1) ← apply_log s es1; '(s2, o2) ← apply_log s1 es2; Some (s2, o1 ++ o2)).
Proof.
  induction es1 as [|[[i t] p] es1 IH]; intros es2 s; simpl.
  - by destruct (apply_log s es2) as [[]|].
  - destruct (apply_committed_entry s i t p) as [[s1 o]|]; [|done]. simpl. rewrite IH.
    destruct (apply_log s1 es1) as [[s2 o1]|]; [|done]. simpl.
    by destruct (apply_log s2 es2) as [[]|].
Qed.

(** What [P] relates by one committed entry is related by a log, for a preorder [P]. *)
Lemma apply_log_relates (P : ControlPlaneStateMachine -> ControlPlaneStateMachine -> Prop)
    `{!PreOrder P} es :
  (forall s i t p s' out, command_ok (command p) ->
    apply_committed_entry s i t p = Some (s', out) -> P s s') ->
  forall i s s' outs, log_ok i es -> apply_log s es = Some (s', outs) -> P s s'.
Proof.
  intros Hstep. induction es as [|[[j t] p] es IH]; intros i s s' outs Hes; simpl.
  { intros. by simplify_eq. }
  destruct Hes as (_ & Hp & Hes).
  destruct (apply_committed_entry s j t p) as [[s1 o]|] eqn:Hone; [|done]. simpl.
  destruct (apply_log s1 es) as [[s2 o1]|] eqn:Hlog; [|done]. simpl. intros [= <- <-].
  trans s1; [by eapply Hstep|]. by eapply IH.
Qed.
End log.
