(* ===== verification/Ledger.v ===== *)
(** * Ledger: accounting of the root lease pools

    The quota pools, quota leases, capacity pools and capacity leases of the
    control-plane state machine keep a double-entry ledger. This file states the
    ledger invariant and proves that every committed command keeps it. *)

From S2P Require Import Prelude Bytes Commands StateMachine.

(** ** Sums over the leases of one pool *)

Definition of_root (root : Z) (f : ReplicatedQuotaLeaseEntry -> Z)
    (q : ReplicatedQuotaLeaseEntry) : Z :=
  if decide (ql_budget_root q = root) then f q else 0.

(** Face value of a lease that is still active. *)
Definition active_face (q : ReplicatedQuotaLeaseEntry) : Z :=
  if decide (ql_disposition q = QlActive) then ql_face_value q else 0.
(** What a lease took from its pool and did not give back. *)
Definition outstanding (q : ReplicatedQuotaLeaseEntry) : Z :=
  ql_face_value q - ql_returned_amount q.

Definition leased_of (s : ControlPlaneStateMachine) (root : Z) : Z :=
  msum (of_root root active_face) (quota_leases s).
Definition quarantined_of (s : ControlPlaneStateMachine) (root : Z) : Z :=
  msum (of_root root ql_quarantined_amount) (quota_leases s).
Definition outstanding_of (s : ControlPlaneStateMachine) (root : Z) : Z :=
  msum (of_root root outstanding) (quota_leases s).

Definition of_pool (pool : Z) (c : ReplicatedCapacityLeaseEntry) : Z :=
  if decide (cl_pool_id c = pool) then cl_amount c else 0.
Definition capacity_of (s : ControlPlaneStateMachine) (pool : Z) : Z :=
  msum (of_pool pool) (capacity_leases s).

(** ** The invariant *)

Definition lease_sound (q : ReplicatedQuotaLeaseEntry) : Prop :=
  0 <= ql_returned_amount q /\ 0 <= ql_quarantined_amount q
  /\ ql_returned_amount q + ql_quarantined_amount q <= ql_face_value q
  /\ (ql_disposition q = QlActive -> ql_returned_amount q = 0 /\ ql_quarantined_amount q = 0)
  /\ (ql_disposition q = QlQuarantined -> ql_returned_amount q = 0).

(** [granted] records the amount each pool was registered with: what the pool
    has available and what its leases hold always add up to that amount. *)
Record ledger_inv (granted : gmap Z Z) (s : ControlPlaneStateMachine) : Prop := {
  li_lease : map_Forall (fun _ q => lease_sound q) (quota_leases s);
  li_root : map_Forall (fun _ q => is_Some (quota_pools s !! ql_budget_root q)) (quota_leases s);
  li_pool : map_Forall (fun root p =>
    0 <= qp_available p /\ qp_leased_active p = leased_of s root
    /\ qp_quarantined p = quarantined_of s root
    /\ granted !! root = Some (qp_available p + outstanding_of s root)
    /\ qp_available p + outstanding_of s root <= u64_max) (quota_pools s);
  li_cap_lease : map_Forall (fun _ c => 0 <= cl_amount c
    /\ is_Some (capacity_pools s !! cl_pool_id c)) (capacity_leases s);
  li_cap : map_Forall (fun pool p =>
    cp_committed p = capacity_of s pool /\ cp_committed p <= cp_total_capacity p)
    (capacity_pools s);
}.

Lemma ledger_inv_new : ledger_inv ∅ sm_new.
Proof. split; apply map_Forall_empty. Qed.

Section sums.
Implicit Types (s : ControlPlaneStateMachine).

Lemma of_root_hit root f q : ql_budget_root q = root -> of_root root f q = f q.
Proof. intros. unfold of_root. by rewrite decide_True. Qed.
Lemma of_root_miss root f q : ql_budget_root q <> root -> of_root root f q = 0.
Proof. intros. unfold of_root. by rewrite decide_False. Qed.

Lemma active_face_active q : ql_disposition q = QlActive -> active_face q = ql_face_value q.
Proof. intros. unfold active_face. by rewrite decide_True. Qed.
Lemma active_face_settled q : ql_disposition q <> QlActive -> active_face q = 0.
Proof. intros. unfold active_face. by rewrite decide_False. Qed.

(** A root without a pool has no leases, so all its sums are zero. *)
Lemma msum_no_lease s root f :
  map_Forall (fun _ q => is_Some (quota_pools s !! ql_budget_root q)) (quota_leases s) ->
  quota_pools s !! root = None -> msum (of_root root f) (quota_leases s) = 0.
Proof.
  intros Hroot Hnone. apply msum_zero. intros l q Hq. apply of_root_miss. intros <-.
  specialize (Hroot l q Hq). simpl in Hroot. rewrite Hnone in Hroot. by destruct Hroot.
Qed.

Lemma msum_no_capacity s pool :
  map_Forall (fun _ c => 0 <= cl_amount c /\ is_Some (capacity_pools s !! cl_pool_id c))
    (capacity_leases s) ->
  capacity_pools s !! pool = None -> capacity_of s pool = 0.
Proof.
  intros Hroot Hnone. apply msum_zero. intros l c Hc. unfold of_pool.
  destruct (Hroot l c Hc) as [_ Hs]. rewrite decide_False; [done|].
  intros <-. rewrite Hnone in Hs. by destruct Hs.
Qed.
End sums.

(** ** Every command keeps the ledger *)

Section preservation.
Implicit Types (s : ControlPlaneStateMachine) (G : gmap Z Z).

Lemma leases_bounds (m : gmap Z ReplicatedQuotaLeaseEntry) root :
  map_Forall (fun _ q => lease_sound q) m ->
  0 <= msum (of_root root active_face) m <= msum (of_root root outstanding) m
  /\ 0 <= msum (of_root root ql_quarantined_amount) m <= msum (of_root root outstanding) m.
Proof.
  intros Hm.
  assert (forall q, lease_sound q -> forall root,
    0 <= of_root root active_face q <= of_root root outstanding q
    /\ 0 <= of_root root ql_quarantined_amount q <= of_root root outstanding q) as Hq.
  { intros q (H1 & H2 & H3 & H4 & _) r.
    unfold of_root, active_face, outstanding.
    repeat case_decide; try (destruct H4; [done|]); lia. }
  split_and!; first [apply msum_nonneg | apply msum_le]; intros l q Hl;
    specialize (Hm l q Hl); by apply (Hq q Hm root).
Qed.

(** The invariant depends on the four ledger tables only. *)
Lemma ledger_inv_frame G s s' :
  quota_pools s' = quota_pools s -> quota_leases s' = quota_leases s ->
  capacity_pools s' = capacity_pools s -> capacity_leases s' = capacity_leases s ->
  ledger_inv G s -> ledger_inv G s'.
Proof.
  intros E1 E2 E3 E4 [H1 H2 H3 H4 H5].
  split; unfold leased_of, quarantined_of, outstanding_of, capacity_of in *;
    rewrite ?E1, ?E2, ?E3, ?E4; done.
Qed.

Lemma register_quota_pool_ledger G s root initial s' r :
  u64 initial -> ledger_inv G s -> apply_register_quota_pool s root initial = Some (s', r) ->
  ledger_inv (match r with None => <[root := initial]> G | Some _ => G end) s'.
Proof.
  intros Hi Hs. unfold apply_register_quota_pool, rejected, applied.
  destruct (quota_pools s !! root) eqn:Hroot; intros [= <- <-]; [done|].
  destruct Hs as [H1 H2 H3 H4 H5]. split; simpl; try done.
  - intros l q Hq. destruct (decide (ql_budget_root q = root)) as [->|Hne].
    + rewrite lookup_insert_eq. eauto.
    + rewrite lookup_insert_ne by done. by apply (H2 l).
  - apply map_Forall_insert_2; simpl; unfold leased_of, quarantined_of, outstanding_of; simpl.
    + rewrite !(msum_no_lease s), lookup_insert_eq, Z.add_0_r by done. width. split_and!; lia || done.
    + intros root' p Hp. rewrite lookup_insert_ne by congruence. by apply H3.
Qed.

(** Updating one lease of [root] and its pool keeps the ledger, when the new
    balances are the new sums and the other roots are untouched. *)
Lemma lease_update_ledger G s s' l q p root :
  quota_pools s' = <[root := p]> (quota_pools s) ->
  quota_leases s' = <[l := q]> (quota_leases s) ->
  capacity_pools s' = capacity_pools s -> capacity_leases s' = capacity_leases s ->
  ledger_inv G s -> ql_budget_root q = root -> lease_sound q ->
  (forall old, quota_leases s !! l = Some old -> ql_budget_root old = root) ->
  is_Some (quota_pools s !! root) ->
  (let m := <[l := q]> (quota_leases s) in
   0 <= qp_available p /\ qp_leased_active p = msum (of_root root active_face) m
   /\ qp_quarantined p = msum (of_root root ql_quarantined_amount) m
   /\ G !! root = Some (qp_available p + msum (of_root root outstanding) m)
   /\ qp_available p + msum (of_root root outstanding) m <= u64_max) ->
  ledger_inv G s'.
Proof.
  intros E1 E2 E3 E4 [H1 H2 H3 H4 H5] Hr Hq Hold [p0 Hp0] Hp.
  split; unfold capacity_of; rewrite ?E1, ?E2, ?E3, ?E4; try done.
  - by apply map_Forall_insert_2.
  - assert (forall r', is_Some (quota_pools s !! r') ->
      is_Some (<[root := p]> (quota_pools s) !! r')) as Hmono.
    { intros r' Hs. rewrite lookup_insert. case_decide; [eauto|done]. }
    apply map_Forall_insert_2; [apply Hmono; rewrite Hr; eauto|].
    intros l' q' Hq'. by apply Hmono, (H2 l').
  - intros root' p' Hp'. unfold leased_of, quarantined_of, outstanding_of. rewrite E2.
    destruct (decide (root = root')) as [<-|Hne].
    { rewrite lookup_insert_eq in Hp'. injection Hp' as <-. exact Hp. }
    rewrite lookup_insert_ne in Hp' by done.
    assert (forall f, msum (of_root root' f) (<[l := q]> (quota_leases s))
      = msum (of_root root' f) (quota_leases s)) as Hsame.
    { intros f. destruct (quota_leases s !! l) as [old|] eqn:Hl.
      - rewrite (msum_insert_Some _ _ _ old) by done.
        specialize (Hold old eq_refl).
        rewrite (of_root_miss root' f q), (of_root_miss root' f old) by congruence. lia.
      - rewrite msum_insert_None by done. rewrite of_root_miss by congruence. lia. }
    rewrite !Hsame. by apply H3.
Qed.

Lemma allocate_quota_lease_ledger G s idx l root h g fv e tok sc s' r :
  u64 fv -> ledger_inv G s ->
  apply_allocate_quota_lease s idx l root h g fv e tok sc = Some (s', r) -> ledger_inv G s'.
Proof.
  intros Hfv Hs. unfold apply_allocate_quota_lease, rejected, applied.
  case_match eqn:Hg; [by intros [= <- <-]|]. apply orb_false_iff in Hg as [Hl Hz].
  apply bool_decide_eq_false in Hl, Hz.
  assert (quota_leases s !! l = None) as Hnone.
  { destruct (quota_leases s !! l) eqn:E; [|done]. by destruct Hl; eauto. }
  case_match; [by intros [= <- <-]|].
  destruct (quota_pools s !! root) as [p|] eqn:Hp; [|by intros [= <- <-]].
  case_match eqn:Hav; [by intros [= <- <-]|]. apply bool_decide_eq_false in Hav.
  intros [= <- <-].
  destruct (li_pool G s Hs root p Hp) as (Ha & Hl1 & Hq1 & Hgr & Htot).
  pose proof (leases_bounds (quota_leases s) root (li_lease G s Hs)) as Hb.
  unfold leased_of, quarantined_of, outstanding_of in *.
  eapply (lease_update_ledger G s); [simpl; reflexivity..| | | | | |]; try done.
  - width. unfold lease_sound. simpl. split_and!; done || lia.
  - by rewrite Hnone.
  - cbv zeta. rewrite !msum_insert_None by done. rewrite !of_root_hit by done.
    rewrite active_face_active by done. rewrite Hgr. unfold outstanding, saturating_add64 in *. simpl.
    width. split_and!; try f_equal; lia.
Qed.

Lemma settle_quota_lease_ledger G s idx l d ra qa e tok s' r :
  u64 ra -> u64 qa -> ledger_inv G s ->
  apply_settle_or_quarantine_quota_lease s idx l d ra qa e tok = Some (s', r) ->
  ledger_inv G s'.
Proof.
  intros Hra Hqa Hs. unfold apply_settle_or_quarantine_quota_lease, rejected, applied.
  destruct (quota_leases s !! l) as [q|] eqn:Hl; [|by intros [= <- <-]].
  case_match eqn:Hg; [by intros [= <- <-]|]. apply orb_false_iff in Hg as [Hact Hd].
  apply negb_false_iff, bool_decide_eq_true in Hact. apply bool_decide_eq_false in Hd.
  do 2 (case_match; [by intros [= <- <-]|]).
  unfold checked_add64. destruct (decide (ra + qa <= u64_max)) as [Hsum|]; [|by intros [= <- <-]].
  case_match eqn:Hface; [by intros [= <- <-]|]. apply bool_decide_eq_false in Hface.
  case_match eqn:Hquar; [by intros [= <- <-]|]. apply andb_false_iff in Hquar.
  destruct (quota_pools s !! ql_budget_root q) as [p|] eqn:Hp; [|done]. intros [= <- <-].
  destruct (li_pool G s Hs _ p Hp) as (Ha & Hl1 & Hq1 & Hgr & Htot).
  pose proof (li_lease G s Hs l q Hl) as (_ & _ & _ & Hq0 & _). destruct (Hq0 Hact) as [Hr0 Hqz].
  pose proof (leases_bounds (quota_leases s) (ql_budget_root q) (li_lease G s Hs)) as Hb.
  pose proof (msum_le_one (of_root (ql_budget_root q) active_face) (quota_leases s) l q) as Hone.
  rewrite of_root_hit, active_face_active in Hone by done.
  unfold leased_of, quarantined_of, outstanding_of in *.
  match goal with |- context [<[l := ?x]> (quota_leases s)] => set (q' := x) end.
  assert (lease_sound q') as Hsound.
  { unfold lease_sound, q'. simpl. width. split_and!; try lia; [done|].
    intros ->. destruct Hquar as [Hq|Hq].
    - by apply bool_decide_eq_false in Hq.
    - by apply negb_false_iff, bool_decide_eq_true in Hq. }
  pose proof (leases_bounds (<[l := q']> (quota_leases s)) (ql_budget_root q)
    (map_Forall_insert_2 _ _ _ _ Hsound (li_lease G s Hs))) as Hb'.
  eapply (lease_update_ledger G s _ l q'); [simpl; reflexivity..| | | | | |]; try done;
    [intros old; congruence|]. cbv zeta.
  rewrite !(msum_insert_Some _ _ _ q) in Hb' |- * by done.
  rewrite !of_root_hit in Hb' |- * by done.
  rewrite (active_face_active q), (active_face_settled q') in Hb' |- * by done.
  unfold outstanding, saturating_add64, saturating_sub64 in *.
  subst q'. simpl in *. rewrite Hgr. width. split_and!; try f_equal; lia.
Qed.

Lemma capacity_pool_update_ledger G s s' pool p :
  quota_pools s' = quota_pools s -> quota_leases s' = quota_leases s ->
  capacity_pools s' = <[pool := p]> (capacity_pools s) ->
  map_Forall (fun _ c => 0 <= cl_amount c
    /\ (cl_pool_id c = pool \/ is_Some (capacity_pools s !! cl_pool_id c))) (capacity_leases s') ->
  (forall pool', pool' <> pool -> capacity_of s' pool' = capacity_of s pool') ->
  cp_committed p = capacity_of s' pool -> cp_committed p <= cp_total_capacity p ->
  ledger_inv G s -> ledger_inv G s'.
Proof.
  intros E1 E2 E3 Hcl Hother Hp1 Hp2 [H1 H2 H3 H4 H5].
  split; unfold leased_of, quarantined_of, outstanding_of in *; rewrite ?E1, ?E2, ?E3; try done.
  - intros l c Hc. destruct (Hcl l c Hc) as [Hz Hs]. split; [done|].
    rewrite lookup_insert. case_decide; [eauto|]. destruct Hs; [congruence|done].
  - intros pool' p' Hp'. destruct (decide (pool' = pool)) as [->|Hne].
    { rewrite lookup_insert_eq in Hp'. by simplify_eq. }
    rewrite lookup_insert_ne in Hp' by done. rewrite Hother by done. by apply H5.
Qed.

Lemma allocate_capacity_lease_ledger G s idx l pool tot cell g a e tok s' r :
  u64 tot -> u64 a -> ledger_inv G s ->
  apply_allocate_capacity_lease s idx l pool tot cell g a e tok = Some (s', r) -> ledger_inv G s'.
Proof.
  intros Ht Ha Hs. unfold apply_allocate_capacity_lease, rejected, applied.
  case_match eqn:Hg; [by intros [= <- <-]|]. apply orb_false_iff in Hg as [Hl Hz].
  apply bool_decide_eq_false in Hl, Hz.
  assert (capacity_leases s !! l = None) as Hnone.
  { destruct (capacity_leases s !! l) eqn:E; [|done]. by destruct Hl; eauto. }
  set (p := default _ (capacity_pools s !! pool)). cbv zeta.
  assert (cp_committed p = capacity_of s pool /\ cp_committed p <= cp_total_capacity p) as [Hp1 Hp2].
  { subst p. destruct (capacity_pools s !! pool) as [p|] eqn:Hp; simpl.
    - by apply (li_cap G s Hs).
    - rewrite (msum_no_capacity s); [width; lia|apply Hs|done]. }
  assert (forall l' c, capacity_leases s !! l' = Some c -> 0 <= cl_amount c
    /\ (cl_pool_id c = pool \/ is_Some (capacity_pools s !! cl_pool_id c))) as Hcl.
  { intros l' c Hc. destruct (li_cap_lease G s Hs l' c Hc). auto. }
  assert (ledger_inv G (s <| capacity_pools := <[pool := p]> (capacity_pools s) |>)) as Hs1.
  { by eapply (capacity_pool_update_ledger G s _ pool p). }
  case_match; [by intros [= <- <-]|]. unfold checked_add64.
  destruct (decide (cp_committed p + a <= u64_max)); [|by intros [= <- <-]].
  case_match eqn:Htot; [by intros [= <- <-]|]. apply bool_decide_eq_false in Htot.
  intros [= <- <-].
  assert (forall pool', capacity_of s pool' + (if decide (pool = pool') then a else 0) =
    msum (of_pool pool') (<[l := {| cl_capacity_lease_id := l; cl_pool_id := pool;
      cl_target_cell := cell; cl_target_boot_generation := g; cl_amount := a;
      cl_capacity_epoch := e; cl_fencing_token := tok; cl_committed_at_index := idx |}]>
      (capacity_leases s))) as Hsum.
  { intros pool'. rewrite msum_insert_None by done. apply Z.add_comm. }
  eapply (capacity_pool_update_ledger G s _ pool); simpl;
    [done..|by rewrite insert_insert_eq| | | | |done].
  - apply map_Forall_insert_2; [simpl; width; auto with lia|done].
  - intros pool' Hne. unfold capacity_of at 1. simpl. rewrite <- Hsum.
    rewrite decide_False by done. lia.
  - unfold capacity_of. simpl. rewrite <- Hsum, decide_True by done. lia.
  - simpl. lia.
Qed.
End preservation.

(** ** Whole commands and committed entries *)

#[export] Instance ledger_inv_proper : Proper (eq ==> same_tables ==> impl) ledger_inv.
Proof.
  intros G ? <- s s' Hs. unfold impl. apply (ledger_inv_frame G s s');
    [by rewrite (quota_pools_proper _ _ Hs) | by rewrite (quota_leases_proper _ _ Hs)
    | by rewrite (capacity_pools_proper _ _ Hs) | by rewrite (capacity_leases_proper _ _ Hs)].
Qed.

(** The commands that touch no ledger table. *)
Definition off_ledger (c : ControlPlaneCommand) : bool :=
  match c with
  | RootLeasePoolMutation (TransitionExclusiveDeviceHead _ _ _ _ _ _ _) => true
  | RootLeasePoolMutation _ => false
  | _ => true
  end.

Lemma off_ledger_tables s i t c s' r :
  off_ledger c = true -> apply_inner s i t c = Some (s', r) ->
  quota_pools s' = quota_pools s /\ quota_leases s' = quota_leases s
  /\ capacity_pools s' = capacity_pools s /\ capacity_leases s' = capacity_leases s.
Proof.
  intros Hoff Hc. destruct c as [[]|[]|[]|[]]; simpl in Hoff, Hc; try done; revert Hc;
  unfold apply_upsert_cell_endpoint, apply_advance_trust_policy_epoch, apply_decommission_cell,
    apply_transition_exclusive_device_head, apply_assign_initial_authority,
    apply_record_completed_takeover, apply_anchor_migration_intent,
    apply_anchor_reconciliation_checkpoint, applied, rejected; cbv zeta;
  repeat case_match; intros; simplify_eq/=; done.
Qed.

(** The amounts granted after a command: an applied registration grants its
    initial amount, nothing else does. *)
Definition grant (c : ControlPlaneCommand) (rejection : option ControlPlaneDomainRejection)
    (granted : gmap Z Z) : gmap Z Z :=
  match c, rejection with
  | RootLeasePoolMutation (RegisterQuotaPool root a), None => <[root := a]> granted
  | _, _ => granted
  end.

Lemma apply_inner_ledger G s i t c s' r :
  command_ok c -> ledger_inv G s -> apply_inner s i t c = Some (s', r) ->
  ledger_inv (grant c r G) s'.
Proof.
  intros Hok Hs Hc. destruct (off_ledger c) eqn:Hoff.
  { destruct (off_ledger_tables _ _ _ _ _ _ Hoff Hc) as (?&?&?&?).
    assert (grant c r G = G) as -> by (by destruct c as [|[]| |]).
    by eapply ledger_inv_frame. }
  destruct c as [[]|[]|[]|[]]; try done; simpl in Hok, Hc.
  - destruct Hok as [_ ?]. eapply register_quota_pool_ledger; eassumption.
  - destruct Hok as (_&_&_&_&?&_). eapply allocate_quota_lease_ledger; eassumption.
  - destruct Hok as (_&Hr&Hq&_). exact (settle_quota_lease_ledger _ _ _ _ _ _ _ _ _ _ _ Hr Hq Hs Hc).
  - destruct Hok as (_&_&Ht&_&_&Ha&_).
    exact (allocate_capacity_lease_ledger _ _ _ _ _ _ _ _ _ _ _ _ _ Ht Ha Hs Hc).
Qed.

(** No command panics: the pool a settlement expects is registered. *)
Lemma apply_inner_total G s i t c : ledger_inv G s -> is_Some (apply_inner s i t c).
Proof.
  intros Hs. destruct c as [[]|[]|[]|[]]; simpl;
  unfold apply_upsert_cell_endpoint, apply_advance_trust_policy_epoch, apply_decommission_cell,
    apply_register_quota_pool, apply_allocate_quota_lease, apply_allocate_capacity_lease,
    apply_settle_or_quarantine_quota_lease,
    apply_transition_exclusive_device_head, apply_assign_initial_authority,
    apply_record_completed_takeover, apply_anchor_migration_intent,
    apply_anchor_reconciliation_checkpoint, applied, rejected; cbv zeta;
  repeat case_match; eauto.
  match goal with Hl : quota_leases s !! ?l = Some ?q, Hn : quota_pools s !! _ = None |- _ =>
    destruct (li_root G s Hs l q Hl) as [p Hp]; congruence end.
Qed.

Section entries.
Context `{Sha256}.

Lemma apply_committed_entry_total G s i t p :
  ledger_inv G s -> last_applied_index s < i -> is_Some (apply_committed_entry s i t p).
Proof.
  intros Hs Hi. unfold apply_committed_entry. rewrite bool_decide_true by lia. cbn [negb].
  cbv zeta. fold (at_index s i t).
  assert (ledger_inv G (at_index s i t)) as Hs' by (by eapply (ledger_inv_frame G s)).
  destruct (apply_inner_total G (at_index s i t) i t (command p) Hs') as [[s1 r] ->].
  repeat case_match; eauto.
Qed.

(** The grant an applied proposal makes, read off its outcome. *)
Definition grant_of (p : ControlPlaneProposal) (out : AppliedProposalOutcome) (G : gmap Z Z) :
    gmap Z Z :=
  match out with Applied _ false => grant (command p) None G | _ => G end.

Lemma apply_committed_entry_ledger G s i t p s' out :
  command_ok (command p) -> ledger_inv G s ->
  apply_committed_entry s i t p = Some (s', out) -> ledger_inv (grant_of p out G) s'.
Proof.
  intros Hok Hs Hrun. assert (ledger_inv G (at_index s i t)) as Hat by (by eapply (ledger_inv_frame G s)).
  pose proof Hrun as Hout.
  apply apply_committed_entry_inv in Hrun as [_ [[[d Hd] ->]|(s1 & rej & _ & Hc & Ht & _ & _ & _ & ->)]].
  - assert (grant_of p out G = G) as ->; [|done]. revert Hout. unfold apply_committed_entry.
    cbv zeta. simpl. rewrite Hd. repeat case_match; intros; by simplify_eq.
  - rewrite <- Ht. apply (apply_inner_ledger _ _ _ _ _ _ _ Hok Hat) in Hc.
    unfold grant_of. destruct rej; [|done]. by destruct (command p) as [|[]| |].
Qed.

(** What the applied registrations of a log granted. *)
Fixpoint grants (es : list (Z * Z * ControlPlaneProposal)) (outs : list AppliedProposalOutcome)
    (G : gmap Z Z) : gmap Z Z :=
  match es, outs with
  | (_, _, p) :: es, out :: outs => grants es outs (grant_of p out G)
  | _, _ => G
  end.

Lemma apply_log_ledger es : forall G s,
  log_ok (last_applied_index s) es -> ledger_inv G s ->
  exists s' outs, apply_log s es = Some (s', outs) /\ ledger_inv (grants es outs G) s'.
Proof.
  induction es as [|[[i t] p] es IH]; intros G s Hes Hs; [by exists s, []|].
  destruct Hes as (Hi & Hp & Hes).
  destruct (apply_committed_entry_total G s i t p Hs Hi) as [[s1 out] Hrun].
  pose proof (apply_committed_entry_ledger _ _ _ _ _ _ _ Hp Hs Hrun) as Hs1.
  assert (last_applied_index s1 = i) as Hidx.
  { apply apply_committed_entry_inv in Hrun as [_ [[_ ->]|(?&?&?&?&?&?&?&?)]]; done. }
  rewrite <- Hidx in Hes. destruct (IH _ _ Hes Hs1) as (s2 & outs & Hlog & Hs2).
  exists s2, (out :: outs). simpl. by rewrite Hrun; simpl; rewrite Hlog.
Qed.
End entries.

(** ** Theorems *)

Section claims.
Context `{Sha256}.

(** C11. Conservation of quota. Every committed log with growing indices and
    in-range proposals runs without a panic. Afterwards each quota pool
    balances to the unit against the amount it was registered with: what is
    available plus what its leases still hold is exactly that amount. The
    pool's active and quarantined counters are the sums over its leases, and
    no saturating addition has lost value. *)
Theorem quota_conservation es :
  log_ok 0 es ->
  exists s outs, apply_log sm_new es = Some (s, outs) /\
    forall root p, quota_pools s !! root = Some p -> exists a,
      grants es outs ∅ !! root = Some a
      /\ qp_available p + outstanding_of s root = a
      /\ 0 <= qp_available p <= u64_max
      /\ qp_leased_active p = leased_of s root
      /\ qp_quarantined p = quarantined_of s root
      /\ qp_available p + qp_leased_active p <= a
      /\ qp_available p + qp_quarantined p <= a.
Proof.
  intros Hes. destruct (apply_log_ledger es ∅ sm_new Hes ledger_inv_new) as (s & outs & Hl & Hs).
  exists s, outs. split; [done|]. intros root p Hp.
  destruct (li_pool _ _ Hs root p Hp) as (H1 & H2 & H3 & H4 & H5).
  destruct (leases_bounds _ root (li_lease _ _ Hs)) as [Hb1 Hb2].
  unfold leased_of, quarantined_of, outstanding_of in *.
  exists (qp_available p + msum (of_root root outstanding) (quota_leases s)).
  split_and!; done || lia.
Qed.

(** Capacity is never oversubscribed. After every such log the committed
    amount of a capacity pool is the sum of the capacity leases on it and stays
    within the pool's total, and every capacity lease names an existing pool. *)
Theorem capacity_not_oversubscribed es :
  log_ok 0 es ->
  exists s outs, apply_log sm_new es = Some (s, outs)
    /\ (forall pool p, capacity_pools s !! pool = Some p ->
          cp_committed p = capacity_of s pool /\ cp_committed p <= cp_total_capacity p)
    /\ (forall l c, capacity_leases s !! l = Some c ->
          exists p, capacity_pools s !! cl_pool_id c = Some p
            /\ cl_amount c <= cp_committed p).
Proof.
  intros Hes. destruct (apply_log_ledger es ∅ sm_new Hes ledger_inv_new) as (s & outs & Hl & Hs).
  exists s, outs. split_and!; [done|by apply (li_cap _ _ Hs)|]. intros l c Hc.
  destruct (li_cap_lease _ _ Hs l c Hc) as [Hz [p Hp]]. exists p. split; [done|].
  destruct (li_cap _ _ Hs _ p Hp) as [-> _].
  pose proof (msum_le_one (of_pool (cl_pool_id c)) (capacity_leases s) l c) as Hone.
  unfold of_pool at 2 in Hone. rewrite decide_True in Hone by done. apply Hone; [|done].
  intros l' c' Hc'. unfold of_pool. case_decide; [|done]. by apply (li_cap_lease _ _ Hs l').
Qed.
End claims.

(** A log that registers a pool, leases from it twice, settles and quarantines,
    retries one proposal and allocates capacity. *)
Definition sample_log : list (Z * Z * ControlPlaneProposal) :=
  let prop k c := {| idempotency_key := k; command := c |} in
  let alloc := prop 2 (RootLeasePoolMutation (AllocateQuotaLease 7 5 1 1 60 1 1 9)) in
  [ (1, 1, prop 1 (RootLeasePoolMutation (RegisterQuotaPool 5 100)));
    (2, 1, alloc); (3, 1, alloc);
    (4, 1, prop 3 (RootLeasePoolMutation (AllocateQuotaLease 8 5 1 1 30 1 2 9)));
    (5, 2, prop 4 (RootLeasePoolMutation (SettleOrQuarantineQuotaLease 7 QlClosed 50 5 1 3)));
    (6, 2, prop 5 (RootLeasePoolMutation (SettleOrQuarantineQuotaLease 8 QlQuarantined 0 30 1 4)));
    (7, 2, prop 6 (RootLeasePoolMutation (AllocateCapacityLease 11 12 10 1 1 8 1 1)));
    (8, 2, prop 7 (RootLeasePoolMutation (AllocateCapacityLease 13 12 10 1 1 8 1 1))) ].

Lemma sample_log_ok : log_ok 0 sample_log.
Proof. simpl. width. split_and!; done || lia. Qed.

Lemma quota_conservation_witness :
  log_ok 0 sample_log /\
  exists s outs, apply_log (H := checksum_hasher) sm_new sample_log = Some (s, outs) /\
    forall root p, quota_pools s !! root = Some p -> exists a,
      grants sample_log outs ∅ !! root = Some a
      /\ qp_available p + outstanding_of s root = a
      /\ 0 <= qp_available p <= u64_max
      /\ qp_leased_active p = leased_of s root
      /\ qp_quarantined p = quarantined_of s root
      /\ qp_available p + qp_leased_active p <= a
      /\ qp_available p + qp_quarantined p <= a.
Proof.
  split; [exact sample_log_ok|].
  apply (quota_conservation (H := checksum_hasher) sample_log). exact sample_log_ok.
Defined.

(** The balances of the sample log. *)
Example sample_log_balances :
  match apply_log (H := checksum_hasher) sm_new sample_log with
  | Some (s, outs) =>
      quota_pools s !! 5 = Some {| qp_available := 60; qp_leased_active := 0; qp_quarantined := 35 |}
      /\ capacity_pools s !! 12 = Some {| cp_total_capacity := 10; cp_committed := 8 |}
      /\ outs !! 2%nat = Some (Applied 2 true)
      /\ outs !! 7%nat = Some (DomainRejected 8 InsufficientOrInvalidPoolBalance)
  | None => False
  end.
Proof. vm_compute. auto. Qed.

Lemma capacity_not_oversubscribed_witness :
  log_ok 0 sample_log /\
  exists s outs, apply_log (H := checksum_hasher) sm_new sample_log = Some (s, outs)
    /\ (forall pool p, capacity_pools s !! pool = Some p ->
          cp_committed p = capacity_of s pool /\ cp_committed p <= cp_total_capacity p)
    /\ (forall l c, capacity_leases s !! l = Some c ->
          exists p, capacity_pools s !! cl_pool_id c = Some p
            /\ cl_amount c <= cp_committed p).
Proof.
  split; [exact sample_log_ok|].
  apply (capacity_not_oversubscribed (H := checksum_hasher) sample_log). exact sample_log_ok.
Defined.
