(* ===== verification/Progress.v ===== *)
(** * Progress: committed entries only move the control plane forward

    The control-plane tables of [ControlPlaneStateMachine] are append-only or
    versioned. This file states that as a preorder on states, proves that every
    command respects it, and derives the guarantees clients rely on: idempotent
    retries, at-most-one takeover of an authority, permanent fencing of stale
    tokens, and exclusive devices. *)

From S2P Require Import Prelude Bytes Commands StateMachine.

(** ** Tables that only grow or advance *)

Definition extends {K V} `{Countable K} (R : V -> V -> Prop) (m m' : gmap K V) : Prop :=
  forall k v, m !! k = Some v -> exists v', m' !! k = Some v' /\ R v v'.

Section extends.
Context {K V : Type} `{Countable K} (R : V -> V -> Prop).

#[export] Instance extends_preorder `{!PreOrder R} : PreOrder (extends (K := K) R).
Proof.
  split.
  - intros m k v Hv. exists v. by split.
  - intros m1 m2 m3 H1 H2 k v Hv. destruct (H1 k v Hv) as (v1 & Hv1 & HR1).
    destruct (H2 k v1 Hv1) as (v2 & Hv2 & HR2). exists v2. split; [done|]. by trans v1.
Qed.

Lemma extends_insert `{!Reflexive R} (m : gmap K V) k v :
  (forall old, m !! k = Some old -> R old v) -> extends R m (<[k := v]> m).
Proof.
  intros Hold k' v' Hv'. destruct (decide (k = k')) as [<-|Hne].
  - exists v. rewrite lookup_insert_eq. auto.
  - exists v'. by rewrite lookup_insert_ne.
Qed.
End extends.

(** Lexicographic order of cell routing versions. *)
Definition cell_version (c : ReplicatedCellDirectoryEntry) : Z * Z * Z :=
  (ce_node_boot_generation c, ce_epoch c, ce_heartbeat_seq c).

Definition cell_le (c c' : ReplicatedCellDirectoryEntry) : Prop :=
  version_le (cell_version c) (cell_version c') = true
  /\ (ce_decommissioned c = true -> ce_decommissioned c' = true).

(** A settled or quarantined lease never changes again. *)
Definition quota_lease_le (q q' : ReplicatedQuotaLeaseEntry) : Prop :=
  q' = q \/ (ql_disposition q = QlActive /\ ql_disposition q' <> QlActive
    /\ ql_budget_root q' = ql_budget_root q /\ ql_face_value q' = ql_face_value q
    /\ ql_fence_scope q' = ql_fence_scope q /\ ql_epoch q <= ql_epoch q').

Definition device_le (d d' : ReplicatedDeviceHeadEntry) : Prop :=
  d' = d \/ (dh_exclusivity_epoch d < dh_exclusivity_epoch d'
             /\ dh_fencing_token d < dh_fencing_token d').

(** A task authority is replaced only by one with a higher term, control epoch
    and registry generation, in the same shard. *)
Definition authority_le (a a' : CommittedTaskAuthorityAssignment) : Prop :=
  a' = a \/ (ta_authority_term a < ta_authority_term a'
             /\ ta_control_epoch a < ta_control_epoch a'
             /\ ta_participant_registry_generation a < ta_participant_registry_generation a'
             /\ ta_authority_shard a' = ta_authority_shard a).

(** A quota pool is never removed (its balances are the business of the ledger). *)
Definition quota_pool_le (p p' : QuotaPoolBalance) : Prop := True.

(** Capacity pools keep their size; capacity is only handed out. *)
Definition capacity_pool_le (p p' : CapacityPoolBalance) : Prop :=
  cp_total_capacity p' = cp_total_capacity p /\ cp_committed p <= cp_committed p'.

#[export] Instance quota_pool_le_preorder : PreOrder quota_pool_le.
Proof. done. Qed.
#[export] Instance capacity_pool_le_preorder : PreOrder capacity_pool_le.
Proof. split; [done|]. intros a b c [] []. split; congruence || lia. Qed.
#[export] Instance cell_le_preorder : PreOrder cell_le.
Proof.
  split; [intros c | intros a b c]; unfold cell_le, cell_version, version_le;
    rewrite ?bool_decide_eq_true; intuition lia.
Qed.
#[export] Instance quota_lease_le_preorder : PreOrder quota_lease_le.
Proof.
  split; [by left|]. intros a b c [->|H1] [->|H2]; unfold quota_lease_le in *; try tauto.
Qed.
#[export] Instance device_le_preorder : PreOrder device_le.
Proof.
  split; [by left|]. intros a b c [->|H1] [->|H2]; unfold device_le in *; try tauto.
  right. lia.
Qed.
#[export] Instance authority_le_preorder : PreOrder authority_le.
Proof.
  split; [by left|]. intros a b c [->|H1] [->|H2]; unfold authority_le in *; try tauto.
  right. intuition (lia || congruence).
Qed.

(** ** The progress preorder *)

Record progress (s s' : ControlPlaneStateMachine) : Prop := {
  pg_trust : trust_policy_epoch s <= trust_policy_epoch s';
  pg_cells : extends cell_le (cells s) (cells s');
  pg_quota_pools : extends quota_pool_le (quota_pools s) (quota_pools s');
  pg_quota_leases : extends quota_lease_le (quota_leases s) (quota_leases s');
  pg_capacity_pools : extends capacity_pool_le (capacity_pools s) (capacity_pools s');
  pg_capacity_leases : capacity_leases s ⊆ capacity_leases s';
  pg_device_heads : extends device_le (device_heads s) (device_heads s');
  pg_fences : extends Z.le (fence_scope_high_water s) (fence_scope_high_water s');
  pg_task_shards : extends authority_le (task_shards s) (task_shards s');
  pg_takeovers : takeover_receipts s ⊆ takeover_receipts s';
  pg_migrations : migration_anchors s ⊆ migration_anchors s';
  pg_checkpoints : checkpoint_anchors s ⊆ checkpoint_anchors s';
  pg_dedup : dedup_table s ⊆ dedup_table s';
}.

#[export] Instance progress_preorder : PreOrder progress.
Proof.
  split.
  - intros s. split; reflexivity.
  - intros s1 s2 s3 [] []. split; etrans; eauto.
Qed.

(** ** Commands respect the preorder *)

(** Turns the boolean guards of a branch into propositions. *)
Ltac guards :=
  repeat match goal with
  | H : _ || _ = false |- _ => apply orb_false_iff in H as [? ?]
  | H : _ && _ = true |- _ => apply andb_true_iff in H as [? ?]
  | H : negb _ = false |- _ => apply negb_false_iff in H
  | H : negb _ = true |- _ => apply negb_true_iff in H
  | H : bool_decide _ = true |- _ => apply bool_decide_eq_true in H
  | H : bool_decide _ = false |- _ => apply bool_decide_eq_false in H
  end.

(** A progress goal: the untouched tables are reflexive, the written ones are left. *)
Ltac progress_tables :=
  intros; simplify_eq; try reflexivity; split; simpl; try reflexivity; try lia.

Section commands.
Implicit Types (s : ControlPlaneStateMachine).

Lemma not_some_none {K V} `{Countable K} (m : gmap K V) k : ~ is_Some (m !! k) -> m !! k = None.
Proof. intros Hn. destruct (m !! k) eqn:E; [|done]. exfalso. eauto. Qed.

Lemma fence_progress s scope token :
  stale_token s scope token = false ->
  extends Z.le (fence_scope_high_water s) (<[scope := token]> (fence_scope_high_water s)).
Proof.
  unfold stale_token. intros Hst. apply (extends_insert Z.le). intros old Hold.
  rewrite Hold in Hst. guards. lia.
Qed.

Lemma upsert_cell_progress s i cell dom prin gen e seq hint s' r :
  apply_upsert_cell_endpoint s i cell dom prin gen e seq hint = Some (s', r) -> progress s s'.
Proof.
  unfold apply_upsert_cell_endpoint, applied, rejected. cbv zeta. case_match eqn:Hst;
    progress_tables.
  apply (extends_insert cell_le). intros old Hold. rewrite Hold in Hst. guards.
  split; simpl; [|congruence]. revert select (version_le _ _ = false).
  unfold version_le, cell_version. simpl. intros ?. guards. apply bool_decide_eq_true. lia.
Qed.

Lemma decommission_cell_progress s i cell e s' r :
  apply_decommission_cell s i cell e = Some (s', r) -> progress s s'.
Proof.
  unfold apply_decommission_cell, applied, rejected. repeat case_match; guards; progress_tables.
  apply (extends_insert cell_le). intros old Hold. simplify_eq. split; [|done].
  unfold version_le, cell_version. simpl. apply bool_decide_eq_true. lia.
Qed.

Lemma quota_progress s i t c s' r :
  match c with RegisterQuotaPool _ _ | AllocateQuotaLease _ _ _ _ _ _ _ _
  | SettleOrQuarantineQuotaLease _ _ _ _ _ _ => True | _ => False end ->
  apply_inner s i t (RootLeasePoolMutation c) = Some (s', r) -> progress s s'.
Proof.
  destruct c; intros Hc; try done; simpl;
  unfold apply_register_quota_pool, apply_allocate_quota_lease,
    apply_settle_or_quarantine_quota_lease, applied, rejected; cbv zeta;
  repeat case_match; guards; progress_tables;
    try (by apply (extends_insert quota_pool_le)); try (by apply fence_progress).
  - apply (extends_insert quota_lease_le). intros old Hold.
    by rewrite not_some_none in Hold.
  - apply (extends_insert quota_lease_le). intros old Hold. simplify_eq. right. simpl.
    split_and!; done || lia.
Qed.

Lemma capacity_progress s i l pool tot cell g a e tok s' r :
  0 <= a -> apply_allocate_capacity_lease s i l pool tot cell g a e tok = Some (s', r) ->
  progress s s'.
Proof.
  intros Ha. unfold apply_allocate_capacity_lease, checked_add64, applied, rejected. cbv zeta.
  case_match; guards; [progress_tables|].
  set (p := default _ (capacity_pools s !! pool)).
  assert (forall p', capacity_pool_le p p' ->
    extends capacity_pool_le (capacity_pools s) (<[pool := p']> (capacity_pools s))) as Hp.
  { intros p' Hle. apply (extends_insert capacity_pool_le). intros old Hold.
    subst p. by rewrite Hold in Hle. }
  destruct (decide (cp_committed p + a <= u64_max)); repeat case_match; guards;
    progress_tables; try (by apply Hp).
  - rewrite insert_insert_eq. apply Hp. split; simpl; lia.
  - apply insert_subseteq. by apply not_some_none.
Qed.

Lemma device_progress s i d l e h tok st pf s' r :
  apply_transition_exclusive_device_head s i d l e h tok st pf = Some (s', r) -> progress s s'.
Proof.
  unfold apply_transition_exclusive_device_head, applied, rejected. cbv zeta.
  do 2 (case_match; [progress_tables|]). case_match eqn:Href; progress_tables.
  apply (extends_insert device_le). intros old Hold. rewrite Hold in Href. guards.
  right. simpl. lia.
Qed.

Lemma authority_progress s i t c s' r :
  apply_inner s i t (TaskAuthorityShardMutation c) = Some (s', r) -> progress s s'.
Proof.
  destruct c; simpl; unfold apply_assign_initial_authority, apply_record_completed_takeover,
    applied, rejected; repeat case_match; guards; progress_tables.
  - apply (extends_insert authority_le). intros old Hold. congruence.
  - apply (extends_insert authority_le). intros old Hold. simplify_eq. right. simpl.
    split_and!; done || lia.
  - apply insert_subseteq. by apply not_some_none.
Qed.

Lemma anchor_progress s i t c s' r :
  apply_inner s i t (ControlPlaneAuditAnchor c) = Some (s', r) -> progress s s'.
Proof.
  destruct c; simpl; unfold apply_anchor_migration_intent,
    apply_anchor_reconciliation_checkpoint, applied, rejected; cbv zeta;
    case_match eqn:Hg; guards; [progress_tables| |progress_tables|case_match]; progress_tables;
    apply insert_subseteq; by apply not_some_none.
Qed.

Lemma apply_inner_progress s i t c s' r :
  command_ok c -> apply_inner s i t c = Some (s', r) -> progress s s'.
Proof.
  intros Hok Hc. destruct c as [[]|[]|c|c];
    try (refine (quota_progress s i t _ s' r _ Hc); exact I); simpl in Hok, Hc.
  - by eapply upsert_cell_progress.
  - revert Hc. unfold apply_advance_trust_policy_epoch, applied, rejected.
    case_match; guards; progress_tables.
  - by eapply decommission_cell_progress.
  - destruct Hok as (_&_&_&_&_&Ha&_). eapply capacity_progress; [|exact Hc]. width. lia.
  - by eapply device_progress.
  - exact (authority_progress s i t c s' r Hc).
  - exact (anchor_progress s i t c s' r Hc).
Qed.
End commands.

Section entries.
Context `{Sha256}.

Lemma same_tables_progress s0 s s' :
  same_tables s s' -> dedup_table s0 ⊆ dedup_table s' -> progress s0 s -> progress s0 s'.
Proof.
  intros Hs Hd [].
  assert (migration_anchors s = migration_anchors s') as Hm by exact (f_equal migration_anchors Hs).
  split; rewrite <- ?Hs, <- ?Hm; done.
Qed.

Lemma apply_committed_entry_progress s i t p s' out :
  command_ok (command p) -> apply_committed_entry s i t p = Some (s', out) -> progress s s'.
Proof.
  intros Hok Hrun. assert (progress s (at_index s i t)) as Hat by (by split).
  apply apply_committed_entry_inv in Hrun as [_ [[_ ->]|(s1 & rej & Hn & Hc & Hs & Hd & _)]];
    [done|].
  apply (same_tables_progress s s1 s'); [done| |].
  - rewrite Hd. by apply insert_subseteq.
  - trans (at_index s i t); [done|]. by eapply apply_inner_progress.
Qed.

Lemma apply_log_progress es i s s' outs :
  log_ok i es -> apply_log s es = Some (s', outs) -> progress s s'.
Proof. apply (apply_log_relates progress). intros. by eapply apply_committed_entry_progress. Qed.

(** An entry whose key is recorded answers from the record. *)
Lemma apply_committed_entry_recorded s i t p d :
  last_applied_index s < i -> dedup_table s !! idempotency_key p = Some d ->
  apply_committed_entry s i t p = Some (at_index s i t,
    if bool_decide (dd_proposal_digest d = proposal_digest p) then
      match dd_rejection d with
      | None => Applied (dd_committed_index d) true
      | Some r => DomainRejected (dd_committed_index d) r
      end
    else DomainRejected i IdempotencyKeyPayloadConflict).
Proof.
  intros Hi Hd. unfold apply_committed_entry. rewrite bool_decide_true by lia. cbn [negb].
  cbv zeta. fold (at_index s i t). simpl. rewrite Hd. by repeat case_match.
Qed.

(** A fresh entry answers with its command. *)
Lemma apply_committed_entry_fresh s i t p s' out :
  dedup_table s !! idempotency_key p = None ->
  apply_committed_entry s i t p = Some (s', out) ->
  exists s1 rej, apply_inner (at_index s i t) i t (command p) = Some (s1, rej)
    /\ same_tables s1 s'
    /\ out = match rej with None => Applied i false | Some r => DomainRejected i r end.
Proof.
  intros Hn Hrun. apply apply_committed_entry_inv in Hrun
    as [_ [[[d Hd] _]|(s1 & rej & _ & Hc & Hs & _ & _ & _ & Hout)]]; [congruence|eauto].
Qed.
End entries.

(** ** Theorems *)

Section claims.
Context `{Sha256}.

(** Retries are idempotent. Once a proposal has been committed, committing
    it again after any further log answers with the original commit index and
    verdict and changes no table; a different payload under the same key is
    refused as a conflict, also without changing a table. *)
Theorem retry_is_idempotent s i t p s1 out k es s2 outs j t' p' :
  dedup_table s !! idempotency_key p = None ->
  command_ok (command p) -> apply_committed_entry s i t p = Some (s1, out) ->
  log_ok k es -> apply_log s1 es = Some (s2, outs) ->
  last_applied_index s2 < j -> idempotency_key p' = idempotency_key p ->
  apply_committed_entry s2 j t' p' = Some (at_index s2 j t',
    if decide (proposal_digest p' = proposal_digest p) then
      match out with
      | Applied idx _ => Applied idx true
      | DomainRejected idx r => DomainRejected idx r
      end
    else DomainRejected j IdempotencyKeyPayloadConflict)
  /\ same_tables s2 (at_index s2 j t').
Proof.
  intros Hn Hok Hrun Hes Hlog Hj Hkey. split; [|done].
  apply apply_committed_entry_inv in Hrun
    as [_ [[[d Hd] _]|(s0 & rej & _ & Hc & Hs & Hdd & _ & _ & ->)]]; [congruence|].
  assert (dedup_table s2 !! idempotency_key p' = Some {| dd_proposal_digest := proposal_digest p;
    dd_committed_index := i; dd_rejection := rej |}) as Hrec.
  { eapply lookup_weaken; [|by eapply pg_dedup, apply_log_progress].
    by rewrite Hdd, Hkey, lookup_insert_eq. }
  rewrite (apply_committed_entry_recorded _ _ _ _ _ Hj Hrec). simpl. do 2 f_equal.
  destruct (decide (proposal_digest p' = proposal_digest p)).
  - rewrite bool_decide_true by done. by destruct rej.
  - by rewrite bool_decide_false.
Qed.

(** An applied takeover leaves the authority with the new, higher term. *)
Lemma takeover_applied s i t r tk g oa na ot nt h ce rg rr fr qr s1 :
  apply_record_completed_takeover s i t r tk g oa na ot nt h ce rg rr fr qr = Some (s1, None) ->
  ot < nt /\ (exists a, task_shards s !! (tk, g) = Some a /\ ta_authority_term a = ot)
  /\ exists a', task_shards s1 !! (tk, g) = Some a' /\ ta_authority_term a' = nt.
Proof.
  unfold apply_record_completed_takeover, applied, rejected.
  repeat case_match; guards; intros; simplify_eq/=.
  split; [lia|]. split; [eauto|]. rewrite lookup_insert_eq. eauto.
Qed.

(** At most one takeover of an authority wins. When a takeover of the
    authority of a task that froze its term [ot] has been applied, every later
    fresh takeover that froze the same term is rejected as a CAS conflict and
    changes no table, whatever was committed in between. *)
Theorem takeover_at_most_once s i t p1 s1 k es s2 outs j t' p2 s3 out
    r tk g oa na ot nt h ce rg rr fr qr r' oa' na' nt' h' ce' rg' rr' fr' qr' :
  command p1 = TaskAuthorityShardMutation
    (RecordCompletedTakeover r tk g oa na ot nt h ce rg rr fr qr) ->
  command p2 = TaskAuthorityShardMutation
    (RecordCompletedTakeover r' tk g oa' na' ot nt' h' ce' rg' rr' fr' qr') ->
  apply_committed_entry s i t p1 = Some (s1, Applied i false) ->
  log_ok k es -> apply_log s1 es = Some (s2, outs) ->
  dedup_table s2 !! idempotency_key p2 = None ->
  apply_committed_entry s2 j t' p2 = Some (s3, out) ->
  out = DomainRejected j TaskAuthorityCasConflict /\ same_tables s2 s3.
Proof.
  intros Hp1 Hp2 Hone Hes Hlog Hfresh Hrun.
  assert (exists a, task_shards s1 !! (tk, g) = Some a /\ ot < ta_authority_term a)
    as (a & Ha & Hlt).
  { pose proof Hone as Hinv. apply apply_committed_entry_inv in Hinv
      as [_ [[[d Hd] _]|(s0 & rej & _ & Hc & Hs & _ & _ & _ & Hout)]].
    - unfold apply_committed_entry in Hone. cbv zeta in Hone. simpl in Hone.
      rewrite Hd in Hone. repeat case_match; simplify_eq.
    - destruct rej; [done|]. rewrite Hp1 in Hc. apply takeover_applied in Hc as (? & _ & a & ? & ?).
      exists a. rewrite <- Hs. split; [done|lia]. }
  destruct (pg_task_shards _ _ (apply_log_progress _ _ _ _ _ Hes Hlog) _ _ Ha) as (a' & Ha' & Hle).
  assert (ot < ta_authority_term a') as Hlt'.
  { destruct Hle as [->|[? _]]; lia. }
  destruct (apply_committed_entry_fresh _ _ _ _ _ _ Hfresh Hrun) as (s0 & rej & Hc & Hs & ->).
  rewrite Hp2 in Hc. simpl in Hc. revert Hc.
  unfold apply_record_completed_takeover, applied, rejected. simpl. rewrite Ha'.
  repeat case_match; guards; intros; simplify_eq/=; done || lia.
Qed.

(** Fencing is permanent. Once a quota lease was allocated or settled with
    a token in a fence scope, no later allocation in that scope with the same
    or a smaller token is applied, and a refused one changes no table. *)
Theorem stale_fencing_token_rejected s k es s' outs scope tok j t p s'' out
    l root h gen fv e tok' :
  fence_scope_high_water s !! scope = Some tok ->
  log_ok k es -> apply_log s es = Some (s', outs) ->
  command p = RootLeasePoolMutation (AllocateQuotaLease l root h gen fv e tok' scope) ->
  tok' <= tok -> dedup_table s' !! idempotency_key p = None ->
  apply_committed_entry s' j t p = Some (s'', out) ->
  (exists reason, out = DomainRejected j reason) /\ same_tables s' s''.
Proof.
  intros Htok Hes Hlog Hp Hle Hfresh Hrun.
  destruct (pg_fences _ _ (apply_log_progress _ _ _ _ _ Hes Hlog) _ _ Htok) as (tok2 & Htok2 & Hle2).
  destruct (apply_committed_entry_fresh _ _ _ _ _ _ Hfresh Hrun) as (s0 & rej & Hc & Hs & ->).
  rewrite Hp in Hc. simpl in Hc. revert Hc.
  unfold apply_allocate_quota_lease, applied, rejected.
  assert (stale_token (at_index s' j t) scope tok' = true) as ->.
  { unfold stale_token. simpl. rewrite Htok2. apply bool_decide_eq_true. lia. }
  destruct (_ || _); intros [= <- <-]; (split; [eauto|exact Hs]).
Qed.

(** The command frees device [d] with a reset and zeroization proof. *)
Definition resets (d : Z) (c : ControlPlaneCommand) : bool :=
  match c with
  | RootLeasePoolMutation (TransitionExclusiveDeviceHead d' _ _ _ _ DhFree true) =>
      bool_decide (d' = d)
  | _ => false
  end.

Lemma apply_inner_device s i t c s' r d h :
  apply_inner s i t c = Some (s', r) -> resets d c = false ->
  device_heads s !! d = Some h -> dh_state h <> DhFree ->
  exists h', device_heads s' !! d = Some h' /\ (h' = h \/ dh_state h' = DhQuarantined).
Proof.
  intros Hc Hres Hh Hst.
  assert (exists h', device_heads s !! d = Some h' /\ (h' = h \/ dh_state h' = DhQuarantined))
    as Hsame by eauto.
  destruct c as [[]|[]|[]|[]]; simpl in Hc; revert Hc;
  unfold apply_upsert_cell_endpoint, apply_advance_trust_policy_epoch, apply_decommission_cell,
    apply_register_quota_pool, apply_allocate_quota_lease,
    apply_settle_or_quarantine_quota_lease, apply_allocate_capacity_lease,
    apply_assign_initial_authority,
    apply_record_completed_takeover, apply_anchor_migration_intent,
    apply_anchor_reconciliation_checkpoint, applied, rejected; cbv zeta;
  try (repeat case_match; intros; simplify_eq/=; exact Hsame).
  unfold apply_transition_exclusive_device_head, applied, rejected. cbv zeta.
  do 2 (case_match; [intros [= <- <-]; exact Hsame|]).
  case_match eqn:Href; intros [= <- <-]; [exact Hsame|]. simpl.
  destruct (decide (device_id = d)) as [->|Hne]; [|by rewrite lookup_insert_ne].
  rewrite lookup_insert_eq. rewrite Hh in Href. guards. eexists. split; [done|]. simpl.
  destruct (dh_state h), new_state, has_reset_zeroization_proof; simpl in *; guards; auto; done.
Qed.

(** Exclusive devices. While no command frees a device with a reset and
    zeroization proof, the head of a device that is held or quarantined stays
    what it is or becomes quarantined: it never passes to another holder. *)
Theorem device_exclusive es d h : forall s s' outs,
  device_heads s !! d = Some h -> dh_state h <> DhFree ->
  Forall (fun e => resets d (command (snd e)) = false) es ->
  apply_log s es = Some (s', outs) ->
  exists h', device_heads s' !! d = Some h' /\ (h' = h \/ dh_state h' = DhQuarantined).
Proof.
  revert h. induction es as [|[[i t] p] es IH]; intros h s s' outs Hh Hst Hall; simpl.
  { intros [= <- <-]. eauto. }
  apply Forall_cons in Hall as [Hp Hall]. simpl in Hp.
  destruct (apply_committed_entry s i t p) as [[s1 o]|] eqn:Hone; [|done]. simpl.
  destruct (apply_log s1 es) as [[s2 o1]|] eqn:Hlog; [|done]. simpl. intros [= <- <-].
  assert (exists h1, device_heads s1 !! d = Some h1 /\ (h1 = h \/ dh_state h1 = DhQuarantined))
    as (h1 & Hh1 & Hor).
  { apply apply_committed_entry_inv in Hone as [_ [[_ ->]|(s0 & rej & _ & Hc & Hs & _)]]; [by eauto|].
    rewrite <- (device_heads_proper _ _ Hs). by eapply (apply_inner_device _ _ _ _ _ _ d h). }
  assert (dh_state h1 <> DhFree) as Hst1 by (destruct Hor; congruence).
  destruct (IH h1 s1 s2 o1 Hh1 Hst1 Hall Hlog) as (h2 & Hh2 & Hor2). exists h2.
  split; [done|]. destruct Hor2 as [->|]; auto.
Qed.

Lemma capacity_rejection s i l pool tot cell gen a e tok s1 rej :
  apply_allocate_capacity_lease s i l pool tot cell gen a e tok = Some (s1, Some rej) ->
  s1 = s \/ (capacity_pools s !! pool = None
    /\ s1 = s <| capacity_pools := <[pool :=
         {| cp_total_capacity := tot; cp_committed := 0 |}]> (capacity_pools s) |>).
Proof.
  unfold apply_allocate_capacity_lease, applied, rejected. cbv zeta.
  case_match; [intros [= <- <-]; by left|].
  destruct (capacity_pools s !! pool) as [p|] eqn:Hp; simpl;
    repeat case_match; intros; simplify_eq; auto;
    left; rewrite insert_id by done; by destruct s.
Qed.

Lemma apply_inner_rejection s i t c s1 rej :
  apply_inner s i t c = Some (s1, Some rej) ->
  s1 = s \/ exists l pool tot cell gen a e tok,
    c = RootLeasePoolMutation (AllocateCapacityLease l pool tot cell gen a e tok)
    /\ capacity_pools s !! pool = None
    /\ s1 = s <| capacity_pools := <[pool :=
         {| cp_total_capacity := tot; cp_committed := 0 |}]> (capacity_pools s) |>.
Proof.
  intros Hc. destruct c as [[]|[]|[]|[]]; simpl in Hc; 
    try (apply capacity_rejection in Hc as [->|[Hn ->]]; [by left|right; by repeat eexists]);
    left; revert Hc;
  unfold apply_upsert_cell_endpoint, apply_advance_trust_policy_epoch, apply_decommission_cell,
    apply_register_quota_pool, apply_allocate_quota_lease,
    apply_settle_or_quarantine_quota_lease, apply_assign_initial_authority,
    apply_transition_exclusive_device_head, apply_record_completed_takeover,
    apply_anchor_migration_intent, apply_anchor_reconciliation_checkpoint, applied, rejected;
    cbv zeta; repeat case_match; intros; by simplify_eq/=.
Qed.

(** Domain rejections. A rejected entry changes no domain table, with one
    exception: a rejected [AllocateCapacityLease] naming a pool that did not
    exist leaves an empty pool of the proposed size behind. *)
Theorem rejection_frame s i t p s' j reason :
  apply_committed_entry s i t p = Some (s', DomainRejected j reason) ->
  same_tables s s' \/
  exists l pool tot cell gen a e tok,
    command p = RootLeasePoolMutation (AllocateCapacityLease l pool tot cell gen a e tok)
    /\ capacity_pools s !! pool = None
    /\ same_tables (s <| capacity_pools := <[pool :=
         {| cp_total_capacity := tot; cp_committed := 0 |}]> (capacity_pools s) |>) s'.
Proof.
  intros Hrun. apply apply_committed_entry_inv in Hrun
    as [_ [[_ ->]|(s1 & [rej|] & _ & Hc & Hs & _ & _ & _ & Hout)]]; [by left| |done].
  apply apply_inner_rejection in Hc
    as [->|(l & pool & tot & cell & gen & a & e & tok & Hp & Hn & ->)]; [left; exact Hs|right].
  by exists l, pool, tot, cell, gen, a, e, tok.
Qed.
End claims.

(** ** Concrete runs *)

(** Evaluates a run, or checks that its commands are in range. *)
Ltac run_ok :=
  lazymatch goal with
  | |- _ = _ => vm_compute; reflexivity
  | |- _ < _ => vm_compute; reflexivity
  | |- _ <= _ => vm_compute; discriminate
  | |- _ <> _ => vm_compute; discriminate
  | |- _ => simpl; width; split_and!; lia || done
  end.

Section runs.
#[local] Existing Instance checksum_hasher.

Let prop k c := {| idempotency_key := k; command := c |}.
Let run es := default sm_new (fst <$> apply_log sm_new es).

Definition run_register := prop 1 (RootLeasePoolMutation (RegisterQuotaPool 5 100)).
Definition run_alloc := prop 2 (RootLeasePoolMutation (AllocateQuotaLease 7 5 1 1 60 1 4 9)).
Definition run_alloc_stale := prop 3 (RootLeasePoolMutation (AllocateQuotaLease 8 5 1 1 10 1 4 9)).
Definition run_assign := prop 4
  (TaskAuthorityShardMutation (AssignInitialAuthority 20 21 1 22 23 1 1 1 0)).
Definition run_takeover (key assignment : Z) := prop key (TaskAuthorityShardMutation
  (RecordCompletedTakeover key 21 1 20 assignment 1 2 24 2 2 0 0 None)).
Definition run_hold := prop 7
  (RootLeasePoolMutation (TransitionExclusiveDeviceHead 30 31 1 (Some 32) 1 DhActive false)).
Definition run_steal := prop 8
  (RootLeasePoolMutation (TransitionExclusiveDeviceHead 30 33 2 (Some 34) 2 DhActive true)).
Definition run_capacity := prop 9
  (RootLeasePoolMutation (AllocateCapacityLease 40 41 10 1 1 11 1 1)).

Definition run_base := run [(1, 1, run_register); (2, 1, run_assign); (3, 1, run_hold)].

Let after s e := default sm_new (fst <$> apply_log s [e]).

Definition run_retry1 := after run_base (4, 1, run_alloc).
Definition run_retry2 := after run_retry1 (5, 1, run_alloc_stale).

Lemma retry_is_idempotent_witness :
  apply_committed_entry run_retry2 6 2 run_alloc = Some (at_index run_retry2 6 2,
    if decide (proposal_digest run_alloc = proposal_digest run_alloc) then Applied 4 true
    else DomainRejected 6 IdempotencyKeyPayloadConflict)
  /\ same_tables run_retry2 (at_index run_retry2 6 2).
Proof.
  apply (retry_is_idempotent run_base 4 1 run_alloc run_retry1 (Applied 4 false) 4
    [(5, 1, run_alloc_stale)] run_retry2 [DomainRejected 5 NonMonotonicFencingToken]); run_ok.
Defined.

Definition run_taken1 := after run_base (4, 1, run_takeover 5 50).
Definition run_taken2 := after run_taken1 (5, 1, run_alloc).
Definition run_taken3 := after run_taken2 (6, 2, run_takeover 6 51).

Lemma takeover_at_most_once_witness :
  DomainRejected 6 TaskAuthorityCasConflict = DomainRejected 6 TaskAuthorityCasConflict
  /\ same_tables run_taken2 run_taken3.
Proof.
  eapply (takeover_at_most_once run_base 4 1 (run_takeover 5 50) run_taken1 4
    [(5, 1, run_alloc)] run_taken2 [Applied 5 false] 6 2 (run_takeover 6 51) run_taken3);
    [reflexivity..|run_ok|run_ok|run_ok|run_ok|run_ok].
Defined.

Definition run_fenced1 := after run_base (4, 1, run_alloc).
Definition run_fenced2 := after run_fenced1 (5, 1, run_takeover 5 50).
Definition run_fenced3 := after run_fenced2 (6, 1, run_alloc_stale).

Lemma stale_fencing_token_rejected_witness :
  (exists reason, DomainRejected 6 NonMonotonicFencingToken = DomainRejected 6 reason)
  /\ same_tables run_fenced2 run_fenced3.
Proof.
  eapply (stale_fencing_token_rejected run_fenced1 4 [(5, 1, run_takeover 5 50)] run_fenced2
    [Applied 5 false] 9 4 6 1 run_alloc_stale run_fenced3);
    [run_ok|run_ok|run_ok|reflexivity|run_ok|run_ok|run_ok].
Defined.

Definition run_device := after run_base (4, 1, run_steal).

Lemma device_exclusive_witness :
  exists h', device_heads run_device !! 30 = Some h'
    /\ (h' = {| dh_device_id := 30; dh_device_lease_id := 31; dh_exclusivity_epoch := 1;
                dh_holder_cell := Some 32; dh_fencing_token := 1; dh_state := DhActive;
                dh_committed_at_index := 3 |} \/ dh_state h' = DhQuarantined).
Proof.
  apply (device_exclusive [(4, 1, run_steal)] 30 _ run_base run_device
    [DomainRejected 4 DeviceExclusivityViolation]); [run_ok..| |run_ok].
  repeat constructor.
Defined.

Definition run_pool := after run_base (4, 1, run_capacity).

Lemma rejection_frame_witness :
  same_tables run_base run_pool \/
  exists l pool tot cell gen a e tok,
    command run_capacity
      = RootLeasePoolMutation (AllocateCapacityLease l pool tot cell gen a e tok)
    /\ capacity_pools run_base !! pool = None
    /\ same_tables (run_base <| capacity_pools := <[pool :=
         {| cp_total_capacity := tot; cp_committed := 0 |}]> (capacity_pools run_base) |>) run_pool.
Proof.
  apply (rejection_frame run_base 4 1 run_capacity run_pool 4 InsufficientOrInvalidPoolBalance).
  run_ok.
Defined.

(** A rejected proposal does create a capacity pool. *)
Theorem rejected_allocation_creates_pool :
  apply_committed_entry run_base 4 1 run_capacity
    = Some (run_pool, DomainRejected 4 InsufficientOrInvalidPoolBalance)
  /\ capacity_pools run_base !! 41 = None
  /\ capacity_pools run_pool !! 41 = Some {| cp_total_capacity := 10; cp_committed := 0 |}.
Proof. split_and!; run_ok. Qed.
End runs.
