(* ===== verification/Snapshot.v ===== *)
(** * Snapshot: the self-verifying snapshot codec of the state machine

    Models [encode_canonical_state_body], [state_root_digest], [encode_snapshot]
    and [decode_snapshot] of nlos-consensus/src/state_machine.rs. Each table has
    a row writer and a row reader; a table is its length followed by its rows in
    key order. An [expect] that fails makes the encoder return [None]. *)

From S2P Require Import Prelude Bytes Commands StateMachine Ledger.
Import ByteCursor.

Inductive SnapshotCodecError :=
  | SnapshotInvalidMagic
  | SnapshotTruncated
  | SnapshotTrailingBytes
  | SnapshotCorruptField (field : string)
  | SnapshotChecksumMismatch.

Definition SNAPSHOT_MAGIC : bytes := Eval vm_compute in bytes_of_string "NLOSSN01".
Definition STATE_ROOT_DOMAIN : bytes :=
  Eval vm_compute in bytes_of_string "llmos/consensus/state-root/v1".
Definition SNAPSHOT_CHECKSUM_DOMAIN : bytes :=
  Eval vm_compute in bytes_of_string "llmos/consensus/state-snapshot/v1".

Abbreviation sreader := (parser SnapshotCodecError).

(** [.map_err(|_| Truncated)] and [.map_err(|_| CorruptField(f))] *)
Definition trunc {A} (p : reader A) : sreader A := pmap_err (fun _ => SnapshotTruncated) p.
Definition corrupt {A} (field : string) (p : reader A) : sreader A :=
  pmap_err (fun _ => SnapshotCorruptField field) p.

Definition read_bool (field : string) : sreader bool :=
  b ← trunc read_u8;
  match b with
  | 0 => mret false
  | 1 => mret true
  | _ => fail_with (SnapshotCorruptField field)
  end.

Definition read_len : sreader Z := raw ← trunc (read_slice 4); mret (be_value raw).

(** [match c.read_u8()? { 0 => None, 1 => Some(p?), _ => Err(CorruptField(f)) }] *)
Definition read_snapshot_opt (field : string) (p : reader Z) : sreader (option Z) :=
  tag ← trunc read_u8;
  match tag with
  | 0 => mret None
  | 1 => x ← trunc p; mret (Some x)
  | _ => fail_with (SnapshotCorruptField field)
  end.

(** ** Rows *)

#[local] Arguments app {_} _ _ : simpl never.

(** A table's row codec with its round-trip law. *)
Class RowCodec (K V : Type) := {
  encode_row : K -> V -> bytes;
  read_row : sreader (K * V);
  row_ok : K -> V -> Prop;
  reads_row : forall k v, row_ok k v -> reads read_row (encode_row k v) (k, v);
}.

Section row_readers.
Lemma reads_trunc {A} (p : reader A) w a : reads p w a -> reads (trunc p) w a.
Proof. apply reads_map_err. Qed.
Lemma reads_corrupt {A} f (p : reader A) w a : reads p w a -> reads (corrupt f p) w a.
Proof. apply reads_map_err. Qed.
Lemma reads_bool f b : reads (read_bool f) [bool_as_u8 b] b.
Proof.
  unfold read_bool. eapply reads_bind_ret; [apply reads_trunc, reads_u8|]. by destruct b.
Qed.
Lemma reads_snapshot_opt f (p : reader Z) n (P : Z -> Prop) o :
  (forall x, P x -> reads p (be_bytes n x) x) -> opt_ok P o ->
  reads (read_snapshot_opt f p) (encode_opt n o) o.
Proof.
  intros Hp Ho. destruct o as [x|]; unfold encode_opt, read_snapshot_opt.
  - eapply reads_bind; [apply reads_trunc, reads_u8|].
    eapply reads_bind_ret; [by apply reads_trunc, Hp|done].
  - eapply (reads_bind _ _ [0] []); [apply reads_trunc, reads_u8|]. apply reads_ret.
Qed.
Lemma reads_snapshot_opt_16 f o :
  opt_ok id16 o -> reads (read_snapshot_opt f read_cell_id) (encode_opt 16 o) o.
Proof. apply reads_snapshot_opt, reads_cell_id. Qed.
Lemma reads_snapshot_opt_32 f o :
  opt_ok dig32 o -> reads (read_snapshot_opt f read_32) (encode_opt 32 o) o.
Proof. apply reads_snapshot_opt, reads_32. Qed.
Lemma reads_disposition_row d e :
  reads (plift (E := SnapshotCodecError) (ok_or (disposition_from_u8 (disposition_as_u8 d)) e)) [] d.
Proof. apply reads_plift. by destruct d. Qed.
Lemma reads_device_state_row d e :
  reads (plift (E := SnapshotCodecError) (ok_or (device_state_from_u8 (device_state_as_u8 d)) e)) [] d.
Proof. apply reads_plift. by destruct d. Qed.
End row_readers.

#[export] Hint Resolve reads_trunc reads_corrupt reads_bool reads_snapshot_opt_16
  reads_snapshot_opt_32 reads_disposition_row reads_device_state_row : reads.

(** [cells] *)
Definition encode_cell_row (_ : Z) (entry : ReplicatedCellDirectoryEntry) : bytes :=
  be_bytes 16 (ce_cell entry) ++ be_bytes 16 (ce_control_domain_id entry)
  ++ be_bytes 16 (ce_principal_id entry) ++ be_bytes 8 (ce_node_boot_generation entry)
  ++ be_bytes 8 (ce_epoch entry) ++ be_bytes 8 (ce_heartbeat_seq entry)
  ++ encode_socket_addr_opt (ce_endpoint_hint entry)
  ++ [bool_as_u8 (ce_decommissioned entry)]
  ++ be_bytes 8 (ce_updated_at_commit_index entry).

Definition read_cell_row : sreader (Z * ReplicatedCellDirectoryEntry) :=
  cell ← corrupt "cell" read_cell_id;
  control_domain_id ← trunc read_16;
  principal_id ← trunc read_16;
  node_boot_generation ← corrupt "boot_gen" (read_generation "boot_gen");
  epoch ← corrupt "epoch" (read_cell_epoch "epoch");
  heartbeat_seq ← trunc read_u64;
  endpoint_hint ← corrupt "endpoint_hint" read_socket_addr_opt;
  decommissioned ← read_bool "decommissioned";
  updated_at_commit_index ←
    corrupt "updated_at_commit_index" (read_nonzero_u64 "updated_at_commit_index");
  mret (cell, {|
    ce_cell := cell;
    ce_control_domain_id := control_domain_id;
    ce_principal_id := principal_id;
    ce_node_boot_generation := node_boot_generation;
    ce_epoch := epoch;
    ce_heartbeat_seq := heartbeat_seq;
    ce_endpoint_hint := endpoint_hint;
    ce_decommissioned := decommissioned;
    ce_updated_at_commit_index := updated_at_commit_index;
  |}).

Definition cell_row_ok (k : Z) (c : ReplicatedCellDirectoryEntry) : Prop :=
  ce_cell c = k /\ id16 k /\ id16 (ce_control_domain_id c) /\ id16 (ce_principal_id c)
  /\ nz64 (ce_node_boot_generation c) /\ nz64 (ce_epoch c) /\ u64 (ce_heartbeat_seq c)
  /\ opt_ok socket_addr_ok (ce_endpoint_hint c) /\ hint_portable (ce_endpoint_hint c)
  /\ nz64 (ce_updated_at_commit_index c).

#[export] Instance cell_row : RowCodec Z ReplicatedCellDirectoryEntry.
Proof.
  refine {| encode_row := encode_cell_row; read_row := read_cell_row; row_ok := cell_row_ok |}.
  intros k [] Hok. unfold cell_row_ok in Hok. simpl in Hok.
  destruct Hok as (-> & ? & ? & ? & ? & ? & ? & ? & ? & ?).
  unfold read_cell_row, encode_cell_row. simpl. solve_reads.
Defined.

(** [quota_pools] *)
Definition encode_quota_pool_row (root : Z) (pool : QuotaPoolBalance) : bytes :=
  be_bytes 16 root ++ be_bytes 8 (qp_available pool) ++ be_bytes 8 (qp_leased_active pool)
  ++ be_bytes 8 (qp_quarantined pool).

Definition read_quota_pool_row : sreader (Z * QuotaPoolBalance) :=
  root ← trunc read_16;
  available ← trunc read_u64;
  leased_active ← trunc read_u64;
  quarantined ← trunc read_u64;
  mret (root, {|
    qp_available := available; qp_leased_active := leased_active; qp_quarantined := quarantined
  |}).

Definition quota_pool_row_ok (k : Z) (p : QuotaPoolBalance) : Prop :=
  id16 k /\ u64 (qp_available p) /\ u64 (qp_leased_active p) /\ u64 (qp_quarantined p).

#[export] Instance quota_pool_row : RowCodec Z QuotaPoolBalance.
Proof.
  refine {| encode_row := encode_quota_pool_row; read_row := read_quota_pool_row;
            row_ok := quota_pool_row_ok |}.
  intros k [] (? & ? & ? & ?). unfold read_quota_pool_row, encode_quota_pool_row. simpl in *.
  solve_reads.
Defined.

(** [quota_leases] *)
Definition encode_quota_lease_row (_ : Z) (ql : ReplicatedQuotaLeaseEntry) : bytes :=
  be_bytes 16 (ql_lease_id ql) ++ be_bytes 16 (ql_budget_root ql)
  ++ be_bytes 16 (ql_holder_cell ql) ++ be_bytes 8 (ql_node_boot_generation ql)
  ++ be_bytes 8 (ql_face_value ql) ++ be_bytes 8 (ql_returned_amount ql)
  ++ be_bytes 8 (ql_quarantined_amount ql) ++ be_bytes 8 (ql_epoch ql)
  ++ be_bytes 8 (ql_fencing_token ql) ++ be_bytes 16 (ql_fence_scope ql)
  ++ [disposition_as_u8 (ql_disposition ql)] ++ be_bytes 8 (ql_committed_at_index ql).

Definition read_quota_lease_row : sreader (Z * ReplicatedQuotaLeaseEntry) :=
  lease_id ← trunc read_16;
  budget_root ← trunc read_16;
  holder_cell ← trunc read_cell_id;
  node_boot_generation ← corrupt "ql.boot_gen" (read_generation "boot_gen");
  face_value ← trunc read_u64;
  returned_amount ← trunc read_u64;
  quarantined_amount ← trunc read_u64;
  epoch ← corrupt "ql.epoch" (read_cell_epoch "ql.epoch");
  fencing_token ← corrupt "ql.tok" (read_fencing_token "ql.tok");
  fence_scope ← trunc read_16;
  raw ← trunc read_u8;
  disposition ← plift (ok_or (disposition_from_u8 raw) (SnapshotCorruptField "ql.disposition"));
  committed_at_index ← corrupt "ql.idx" (read_nonzero_u64 "ql.idx");
  mret (lease_id, {|
    ql_lease_id := lease_id;
    ql_budget_root := budget_root;
    ql_holder_cell := holder_cell;
    ql_node_boot_generation := node_boot_generation;
    ql_face_value := face_value;
    ql_returned_amount := returned_amount;
    ql_quarantined_amount := quarantined_amount;
    ql_epoch := epoch;
    ql_fencing_token := fencing_token;
    ql_fence_scope := fence_scope;
    ql_disposition := disposition;
    ql_committed_at_index := committed_at_index;
  |}).

Definition quota_lease_row_ok (k : Z) (q : ReplicatedQuotaLeaseEntry) : Prop :=
  ql_lease_id q = k /\ id16 k /\ id16 (ql_budget_root q) /\ id16 (ql_holder_cell q)
  /\ nz64 (ql_node_boot_generation q) /\ u64 (ql_face_value q) /\ u64 (ql_returned_amount q)
  /\ u64 (ql_quarantined_amount q) /\ nz64 (ql_epoch q) /\ nz64 (ql_fencing_token q)
  /\ id16 (ql_fence_scope q) /\ nz64 (ql_committed_at_index q).

#[export] Instance quota_lease_row : RowCodec Z ReplicatedQuotaLeaseEntry.
Proof.
  refine {| encode_row := encode_quota_lease_row; read_row := read_quota_lease_row;
            row_ok := quota_lease_row_ok |}.
  intros k [] (<- & ? & ? & ? & ? & ? & ? & ? & ? & ? & ? & ?).
  unfold read_quota_lease_row, encode_quota_lease_row. simpl in *. solve_reads.
Defined.

(** [capacity_pools] *)
Definition encode_capacity_pool_row (pool_id : Z) (pool : CapacityPoolBalance) : bytes :=
  be_bytes 16 pool_id ++ be_bytes 8 (cp_total_capacity pool) ++ be_bytes 8 (cp_committed pool).

Definition read_capacity_pool_row : sreader (Z * CapacityPoolBalance) :=
  pool_id ← trunc read_16;
  total_capacity ← trunc read_u64;
  committed ← trunc read_u64;
  mret (pool_id, {| cp_total_capacity := total_capacity; cp_committed := committed |}).

Definition capacity_pool_row_ok (k : Z) (p : CapacityPoolBalance) : Prop :=
  id16 k /\ u64 (cp_total_capacity p) /\ u64 (cp_committed p).

#[export] Instance capacity_pool_row : RowCodec Z CapacityPoolBalance.
Proof.
  refine {| encode_row := encode_capacity_pool_row; read_row := read_capacity_pool_row;
            row_ok := capacity_pool_row_ok |}.
  intros k [] (? & ? & ?). unfold read_capacity_pool_row, encode_capacity_pool_row. simpl in *.
  solve_reads.
Defined.

(** [capacity_leases] *)
Definition encode_capacity_lease_row (_ : Z) (cl : ReplicatedCapacityLeaseEntry) : bytes :=
  be_bytes 16 (cl_capacity_lease_id cl) ++ be_bytes 16 (cl_pool_id cl)
  ++ be_bytes 16 (cl_target_cell cl) ++ be_bytes 8 (cl_target_boot_generation cl)
  ++ be_bytes 8 (cl_amount cl) ++ be_bytes 8 (cl_capacity_epoch cl)
  ++ be_bytes 8 (cl_fencing_token cl) ++ be_bytes 8 (cl_committed_at_index cl).

Definition read_capacity_lease_row : sreader (Z * ReplicatedCapacityLeaseEntry) :=
  capacity_lease_id ← trunc read_16;
  pool_id ← trunc read_16;
  target_cell ← trunc read_cell_id;
  target_boot_generation ← corrupt "cl.boot" (read_generation "cl.boot");
  amount ← trunc read_u64;
  capacity_epoch ← corrupt "cl.epoch" (read_nonzero_u64 "cl.epoch");
  fencing_token ← corrupt "cl.tok" (read_fencing_token "cl.tok");
  committed_at_index ← corrupt "cl.idx" (read_nonzero_u64 "cl.idx");
  mret (capacity_lease_id, {|
    cl_capacity_lease_id := capacity_lease_id;
    cl_pool_id := pool_id;
    cl_target_cell := target_cell;
    cl_target_boot_generation := target_boot_generation;
    cl_amount := amount;
    cl_capacity_epoch := capacity_epoch;
    cl_fencing_token := fencing_token;
    cl_committed_at_index := committed_at_index;
  |}).

Definition capacity_lease_row_ok (k : Z) (c : ReplicatedCapacityLeaseEntry) : Prop :=
  cl_capacity_lease_id c = k /\ id16 k /\ id16 (cl_pool_id c) /\ id16 (cl_target_cell c)
  /\ nz64 (cl_target_boot_generation c) /\ u64 (cl_amount c) /\ nz64 (cl_capacity_epoch c)
  /\ nz64 (cl_fencing_token c) /\ nz64 (cl_committed_at_index c).

#[export] Instance capacity_lease_row : RowCodec Z ReplicatedCapacityLeaseEntry.
Proof.
  refine {| encode_row := encode_capacity_lease_row; read_row := read_capacity_lease_row;
            row_ok := capacity_lease_row_ok |}.
  intros k [] (<- & ? & ? & ? & ? & ? & ? & ? & ?).
  unfold read_capacity_lease_row, encode_capacity_lease_row. simpl in *. solve_reads.
Defined.

(** [device_heads] *)
Definition encode_device_head_row (_ : Z) (dh : ReplicatedDeviceHeadEntry) : bytes :=
  be_bytes 16 (dh_device_id dh) ++ be_bytes 16 (dh_device_lease_id dh)
  ++ be_bytes 8 (dh_exclusivity_epoch dh) ++ encode_opt 16 (dh_holder_cell dh)
  ++ be_bytes 8 (dh_fencing_token dh) ++ [device_state_as_u8 (dh_state dh)]
  ++ be_bytes 8 (dh_committed_at_index dh).

Definition read_device_head_row : sreader (Z * ReplicatedDeviceHeadEntry) :=
  device_id ← trunc read_16;
  device_lease_id ← trunc read_16;
  exclusivity_epoch ← corrupt "dh.epoch" (read_nonzero_u64 "dh.epoch");
  holder_cell ← read_snapshot_opt "dh.holder_cell" read_cell_id;
  fencing_token ← corrupt "dh.tok" (read_fencing_token "dh.tok");
  raw ← trunc read_u8;
  state ← plift (ok_or (device_state_from_u8 raw) (SnapshotCorruptField "dh.state"));
  committed_at_index ← corrupt "dh.idx" (read_nonzero_u64 "dh.idx");
  mret (device_id, {|
    dh_device_id := device_id;
    dh_device_lease_id := device_lease_id;
    dh_exclusivity_epoch := exclusivity_epoch;
    dh_holder_cell := holder_cell;
    dh_fencing_token := fencing_token;
    dh_state := state;
    dh_committed_at_index := committed_at_index;
  |}).

Definition device_head_row_ok (k : Z) (d : ReplicatedDeviceHeadEntry) : Prop :=
  dh_device_id d = k /\ id16 k /\ id16 (dh_device_lease_id d) /\ nz64 (dh_exclusivity_epoch d)
  /\ opt_ok id16 (dh_holder_cell d) /\ nz64 (dh_fencing_token d)
  /\ nz64 (dh_committed_at_index d).

#[export] Instance device_head_row : RowCodec Z ReplicatedDeviceHeadEntry.
Proof.
  refine {| encode_row := encode_device_head_row; read_row := read_device_head_row;
            row_ok := device_head_row_ok |}.
  intros k [] (<- & ? & ? & ? & ? & ? & ?).
  unfold read_device_head_row, encode_device_head_row. simpl in *. solve_reads.
Defined.

(** [fence_scope_high_water] *)
Definition encode_fence_scope_row (scope tok : Z) : bytes := be_bytes 16 scope ++ be_bytes 8 tok.

Definition read_fence_scope_row : sreader (Z * Z) :=
  scope ← trunc read_16;
  tok ← corrupt "fs.tok" (read_fencing_token "fs.tok");
  mret (scope, tok).

#[export] Instance fence_scope_row : RowCodec Z Z.
Proof.
  refine {| encode_row := encode_fence_scope_row; read_row := read_fence_scope_row;
            row_ok := fun k tok => id16 k /\ nz64 tok |}.
  intros k tok [? ?]. unfold read_fence_scope_row, encode_fence_scope_row. solve_reads.
Defined.

(** [task_shards] *)
Definition encode_task_shard_row (_ : Z * Z) (ts : CommittedTaskAuthorityAssignment) : bytes :=
  be_bytes 16 (ta_assignment_id ts) ++ be_bytes 16 (ta_task_id ts)
  ++ be_bytes 8 (ta_task_generation ts) ++ be_bytes 16 (ta_authority_shard ts)
  ++ be_bytes 16 (ta_home_cell ts) ++ be_bytes 8 (ta_authority_term ts)
  ++ be_bytes 8 (ta_control_epoch ts) ++ be_bytes 8 (ta_participant_registry_generation ts)
  ++ be_bytes 32 (ta_participant_registry_root ts)
  ++ be_bytes 8 (ta_consensus_commit_index ts) ++ be_bytes 8 (ta_consensus_term ts).

Definition read_task_shard_row : sreader (Z * Z * CommittedTaskAuthorityAssignment) :=
  assignment_id ← trunc read_16;
  task_id ← trunc read_16;
  task_generation ← corrupt "ts.gen" (read_generation "ts.gen");
  authority_shard ← trunc read_16;
  home_cell ← trunc read_cell_id;
  authority_term ← corrupt "ts.term" (read_nonzero_u64 "ts.term");
  control_epoch ← trunc read_u64;
  participant_registry_generation ← trunc read_u64;
  participant_registry_root ← trunc read_32;
  consensus_commit_index ← corrupt "ts.cidx" (read_nonzero_u64 "ts.cidx");
  consensus_term ← corrupt "ts.cterm" (read_nonzero_u64 "ts.cterm");
  mret ((task_id, task_generation), {|
    ta_assignment_id := assignment_id;
    ta_task_id := task_id;
    ta_task_generation := task_generation;
    ta_authority_shard := authority_shard;
    ta_home_cell := home_cell;
    ta_authority_term := authority_term;
    ta_control_epoch := control_epoch;
    ta_participant_registry_generation := participant_registry_generation;
    ta_participant_registry_root := participant_registry_root;
    ta_consensus_commit_index := consensus_commit_index;
    ta_consensus_term := consensus_term;
  |}).

Definition task_shard_row_ok (k : Z * Z) (a : CommittedTaskAuthorityAssignment) : Prop :=
  k = (ta_task_id a, ta_task_generation a) /\ id16 (ta_assignment_id a) /\ id16 (ta_task_id a)
  /\ nz64 (ta_task_generation a) /\ id16 (ta_authority_shard a) /\ id16 (ta_home_cell a)
  /\ nz64 (ta_authority_term a) /\ u64 (ta_control_epoch a)
  /\ u64 (ta_participant_registry_generation a) /\ dig32 (ta_participant_registry_root a)
  /\ nz64 (ta_consensus_commit_index a) /\ nz64 (ta_consensus_term a).

#[export] Instance task_shard_row : RowCodec (Z * Z) CommittedTaskAuthorityAssignment.
Proof.
  refine {| encode_row := encode_task_shard_row; read_row := read_task_shard_row;
            row_ok := task_shard_row_ok |}.
  intros k [] (-> & ? & ? & ? & ? & ? & ? & ? & ? & ? & ? & ?).
  unfold read_task_shard_row, encode_task_shard_row. simpl in *. solve_reads.
Defined.

(** [takeover_receipts] *)
Definition encode_takeover_row (_ : Z) (tr : CommittedTaskAuthorityTakeover) : bytes :=
  be_bytes 16 (tr_takeover_receipt_id tr) ++ be_bytes 16 (tr_task_id tr)
  ++ be_bytes 8 (tr_task_generation tr) ++ be_bytes 16 (tr_old_assignment_id tr)
  ++ be_bytes 16 (tr_new_assignment_id tr) ++ be_bytes 8 (tr_frozen_old_authority_term tr)
  ++ be_bytes 8 (tr_new_authority_term tr) ++ be_bytes 16 (tr_new_home_cell tr)
  ++ be_bytes 8 (tr_new_control_epoch tr) ++ be_bytes 32 (tr_exact_fence_set_root tr)
  ++ encode_opt 32 (tr_outstanding_effect_quarantine_root tr)
  ++ be_bytes 8 (tr_consensus_commit_index tr) ++ be_bytes 8 (tr_consensus_term tr).

Definition read_takeover_row : sreader (Z * CommittedTaskAuthorityTakeover) :=
  takeover_receipt_id ← trunc read_16;
  task_id ← trunc read_16;
  task_generation ← corrupt "tr.gen" (read_generation "tr.gen");
  old_assignment_id ← trunc read_16;
  new_assignment_id ← trunc read_16;
  frozen_old_authority_term ← corrupt "tr.old_term" (read_nonzero_u64 "tr.old_term");
  new_authority_term ← corrupt "tr.new_term" (read_nonzero_u64 "tr.new_term");
  new_home_cell ← trunc read_cell_id;
  new_control_epoch ← trunc read_u64;
  exact_fence_set_root ← trunc read_32;
  outstanding_effect_quarantine_root ← read_snapshot_opt "tr.quarantine_opt" read_32;
  consensus_commit_index ← corrupt "tr.cidx" (read_nonzero_u64 "tr.cidx");
  consensus_term ← corrupt "tr.cterm" (read_nonzero_u64 "tr.cterm");
  mret (takeover_receipt_id, {|
    tr_takeover_receipt_id := takeover_receipt_id;
    tr_task_id := task_id;
    tr_task_generation := task_generation;
    tr_old_assignment_id := old_assignment_id;
    tr_new_assignment_id := new_assignment_id;
    tr_frozen_old_authority_term := frozen_old_authority_term;
    tr_new_authority_term := new_authority_term;
    tr_new_home_cell := new_home_cell;
    tr_new_control_epoch := new_control_epoch;
    tr_exact_fence_set_root := exact_fence_set_root;
    tr_outstanding_effect_quarantine_root := outstanding_effect_quarantine_root;
    tr_consensus_commit_index := consensus_commit_index;
    tr_consensus_term := consensus_term;
  |}).

Definition takeover_row_ok (k : Z) (r : CommittedTaskAuthorityTakeover) : Prop :=
  tr_takeover_receipt_id r = k /\ id16 k /\ id16 (tr_task_id r) /\ nz64 (tr_task_generation r)
  /\ id16 (tr_old_assignment_id r) /\ id16 (tr_new_assignment_id r)
  /\ nz64 (tr_frozen_old_authority_term r) /\ nz64 (tr_new_authority_term r)
  /\ id16 (tr_new_home_cell r) /\ u64 (tr_new_control_epoch r)
  /\ dig32 (tr_exact_fence_set_root r) /\ opt_ok dig32 (tr_outstanding_effect_quarantine_root r)
  /\ nz64 (tr_consensus_commit_index r) /\ nz64 (tr_consensus_term r).

#[export] Instance takeover_row : RowCodec Z CommittedTaskAuthorityTakeover.
Proof.
  refine {| encode_row := encode_takeover_row; read_row := read_takeover_row;
            row_ok := takeover_row_ok |}.
  intros k [] (<- & ? & ? & ? & ? & ? & ? & ? & ? & ? & ? & ? & ? & ?).
  unfold read_takeover_row, encode_takeover_row. simpl in *. solve_reads.
Defined.

(** [migration_anchors] *)
Definition encode_migration_row (_ : Z) (ma : ReplicatedMigrationAnchor) : bytes :=
  be_bytes 16 (ma_intent_id ma) ++ be_bytes 16 (ma_source_cell ma)
  ++ be_bytes 16 (ma_target_cell ma) ++ be_bytes 8 (ma_epoch ma)
  ++ be_bytes 32 (ma_intent_digest ma) ++ be_bytes 8 (ma_consensus_commit_index ma).

Definition read_migration_row : sreader (Z * ReplicatedMigrationAnchor) :=
  intent_id ← trunc read_16;
  source_cell ← trunc read_cell_id;
  target_cell ← trunc read_cell_id;
  epoch ← corrupt "ma.epoch" (read_cell_epoch "ma.epoch");
  intent_digest ← trunc read_32;
  consensus_commit_index ← corrupt "ma.cidx" (read_nonzero_u64 "ma.cidx");
  mret (intent_id, {|
    ma_intent_id := intent_id;
    ma_source_cell := source_cell;
    ma_target_cell := target_cell;
    ma_epoch := epoch;
    ma_intent_digest := intent_digest;
    ma_consensus_commit_index := consensus_commit_index;
  |}).

Definition migration_row_ok (k : Z) (m : ReplicatedMigrationAnchor) : Prop :=
  ma_intent_id m = k /\ id16 k /\ id16 (ma_source_cell m) /\ id16 (ma_target_cell m)
  /\ nz64 (ma_epoch m) /\ dig32 (ma_intent_digest m) /\ nz64 (ma_consensus_commit_index m).

#[export] Instance migration_row : RowCodec Z ReplicatedMigrationAnchor.
Proof.
  refine {| encode_row := encode_migration_row; read_row := read_migration_row;
            row_ok := migration_row_ok |}.
  intros k [] (<- & ? & ? & ? & ? & ? & ?).
  unfold read_migration_row, encode_migration_row. simpl in *. solve_reads.
Defined.

(** [checkpoint_anchors] *)
Definition encode_checkpoint_row (_ : Z * Z) (ca : ReplicatedCheckpointAnchor) : bytes :=
  be_bytes 16 (ca_cell ca) ++ be_bytes 8 (ca_node_boot_generation ca)
  ++ be_bytes 8 (ca_epoch ca) ++ be_bytes 8 (ca_checkpoint_seq ca)
  ++ be_bytes 32 (ca_checkpoint_digest ca) ++ be_bytes 8 (ca_consensus_commit_index ca).

Definition read_checkpoint_row : sreader (Z * Z * ReplicatedCheckpointAnchor) :=
  cell ← trunc read_cell_id;
  node_boot_generation ← corrupt "ca.boot" (read_generation "ca.boot");
  epoch ← corrupt "ca.epoch" (read_cell_epoch "ca.epoch");
  checkpoint_seq ← corrupt "ca.seq" (read_nonzero_u64 "ca.seq");
  checkpoint_digest ← trunc read_32;
  consensus_commit_index ← corrupt "ca.cidx" (read_nonzero_u64 "ca.cidx");
  mret ((cell, checkpoint_seq), {|
    ca_cell := cell;
    ca_node_boot_generation := node_boot_generation;
    ca_epoch := epoch;
    ca_checkpoint_seq := checkpoint_seq;
    ca_checkpoint_digest := checkpoint_digest;
    ca_consensus_commit_index := consensus_commit_index;
  |}).

Definition checkpoint_row_ok (k : Z * Z) (c : ReplicatedCheckpointAnchor) : Prop :=
  k = (ca_cell c, ca_checkpoint_seq c) /\ id16 (ca_cell c) /\ nz64 (ca_node_boot_generation c)
  /\ nz64 (ca_epoch c) /\ nz64 (ca_checkpoint_seq c) /\ dig32 (ca_checkpoint_digest c)
  /\ nz64 (ca_consensus_commit_index c).

#[export] Instance checkpoint_row : RowCodec (Z * Z) ReplicatedCheckpointAnchor.
Proof.
  refine {| encode_row := encode_checkpoint_row; read_row := read_checkpoint_row;
            row_ok := checkpoint_row_ok |}.
  intros k [] (-> & ? & ? & ? & ? & ? & ?).
  unfold read_checkpoint_row, encode_checkpoint_row. simpl in *. solve_reads.
Defined.

(** [dedup_table] *)
Definition encode_dedup_row (key : Z) (rec : DedupRecord) : bytes :=
  be_bytes 16 key ++ be_bytes 32 (dd_proposal_digest rec) ++ be_bytes 8 (dd_committed_index rec)
  ++ [from_option rejection_as_u8 0 (dd_rejection rec)].

Definition read_rejection : sreader (option ControlPlaneDomainRejection) :=
  code ← trunc read_u8;
  match code with
  | 0 => mret None
  | code =>
      r ← plift (ok_or (rejection_from_u8 code) (SnapshotCorruptField "dd.rejection"));
      mret (Some r)
  end.

Definition read_dedup_row : sreader (Z * DedupRecord) :=
  key ← trunc read_16;
  proposal_digest ← trunc read_32;
  committed_index ← corrupt "dd.idx" (read_nonzero_u64 "dd.idx");
  rejection ← read_rejection;
  mret (key, {|
    dd_proposal_digest := proposal_digest;
    dd_committed_index := committed_index;
    dd_rejection := rejection;
  |}).

Definition dedup_row_ok (k : Z) (d : DedupRecord) : Prop :=
  id16 k /\ dig32 (dd_proposal_digest d) /\ nz64 (dd_committed_index d).

Lemma reads_rejection o : reads read_rejection [from_option rejection_as_u8 0 o] o.
Proof.
  unfold read_rejection. eapply reads_bind_ret; [apply reads_trunc, reads_u8|].
  destruct o as [[]|]; reflexivity.
Qed.
#[export] Hint Resolve reads_rejection : reads.

#[export] Instance dedup_row : RowCodec Z DedupRecord.
Proof.
  refine {| encode_row := encode_dedup_row; read_row := read_dedup_row;
            row_ok := dedup_row_ok |}.
  intros k [] (? & ? & ?). unfold read_dedup_row, encode_dedup_row. simpl in *. solve_reads.
Defined.

(** ** Tables *)

(** [encode_len]: [u32::try_from(len).expect(..)] *)
Definition encode_len (len : nat) : option bytes :=
  if decide (Z.of_nat len <= u32_max) then Some (be_bytes 4 (Z.of_nat len)) else None.

Section table.
Context {K V : Type} `{Countable K} `{!BTreeKey K} `{!BTreeKeyLaws K} `{!RowCodec K V}.

(** [encode_len(out, m.len()); for (k, v) in &m { .. }] *)
Definition encode_table (m : gmap K V) : option bytes :=
  len ← encode_len (size m);
  Some (len ++ concat ((fun '(k, v) => encode_row k v) <$> btree_iter m)).

(** [let n = c.read_len()?; for _ in 0..n { .. m.insert(k, v); }] *)
Definition read_table : sreader (gmap K V) :=
  n ← read_len;
  rows ← read_many read_row (Z.to_nat n);
  mret (foldl (fun m '(k, v) => <[k := v]> m) ∅ rows).

Lemma foldl_insert_list_to_map (l : list (K * V)) : NoDup l.*1 ->
  foldl (fun (m : gmap K V) '(k, v) => <[k := v]> m) ∅ l = list_to_map l.
Proof.
  intros Hl. enough (forall m : gmap K V,
    foldl (fun m '(k, v) => <[k := v]> m) m l = list_to_map l ∪ m) as ->
    by apply map_union_empty.
  induction l as [|[k v] l IH]; intros m; simpl; [by rewrite map_empty_union|].
  apply NoDup_cons in Hl as [Hk Hl]. rewrite (IH Hl), <- insert_union_r, insert_union_l; [done|].
  by apply not_elem_of_list_to_map_1.
Qed.

Lemma reads_len n : Z.of_nat n <= u32_max -> reads read_len (be_bytes 4 (Z.of_nat n)) (Z.of_nat n).
Proof.
  intros Hn. unfold read_len.
  eapply reads_bind_ret; [apply reads_trunc, reads_take_slice, length_be_bytes|].
  cbn beta. rewrite be_value_bytes; [done|]. width. lia.
Qed.

Lemma reads_table (m : gmap K V) w :
  map_Forall row_ok m -> encode_table m = Some w -> reads read_table w m.
Proof.
  intros Hm. unfold encode_table, encode_len. case_decide as Hlen; [|done]. simpl.
  intros [= <-]. eapply reads_bind; [by apply reads_len|]. cbn beta. rewrite Nat2Z.id.
  rewrite <- length_btree_iter. eapply reads_bind_ret.
  - apply (reads_many read_row (fun '(k, v) => encode_row k v) id). apply Forall_forall.
    intros [k v] Hkv. apply reads_row. apply (Hm k v). by apply elem_of_btree_iter.
  - rewrite list_fmap_id, foldl_insert_list_to_map by apply NoDup_fst_btree_iter.
    by rewrite list_to_map_btree_iter.
Qed.

(** A table is encoded unless it has more than [u32::MAX] rows. *)
Lemma encode_table_some (m : gmap K V) :
  Z.of_nat (size m) <= u32_max -> is_Some (encode_table m).
Proof. intros Hm. unfold encode_table, encode_len. rewrite decide_True by done. eauto. Qed.
End table.

(** ** The canonical body *)

Definition encode_canonical_state_body (s : ControlPlaneStateMachine) : option bytes :=
  t_cells ← encode_table (cells s);
  t_quota_pools ← encode_table (quota_pools s);
  t_quota_leases ← encode_table (quota_leases s);
  t_capacity_pools ← encode_table (capacity_pools s);
  t_capacity_leases ← encode_table (capacity_leases s);
  t_device_heads ← encode_table (device_heads s);
  t_fences ← encode_table (fence_scope_high_water s);
  t_task_shards ← encode_table (task_shards s);
  t_takeovers ← encode_table (takeover_receipts s);
  t_migrations ← encode_table (migration_anchors s);
  t_checkpoints ← encode_table (checkpoint_anchors s);
  t_dedup ← encode_table (dedup_table s);
  Some (be_bytes 8 (last_applied_index s) ++ be_bytes 8 (last_applied_term s)
    ++ be_bytes 8 (authority_receipt_high_water s) ++ be_bytes 8 (trust_policy_epoch s)
    ++ be_bytes 32 (trust_policy_digest s)
    ++ t_cells ++ t_quota_pools ++ t_quota_leases ++ t_capacity_pools ++ t_capacity_leases
    ++ t_device_heads ++ t_fences ++ t_task_shards ++ t_takeovers ++ t_migrations
    ++ t_checkpoints ++ t_dedup).

(** The cursor part of [decode_snapshot]. *)
Definition read_state : sreader ControlPlaneStateMachine :=
  last_applied_index ← trunc read_u64;
  last_applied_term ← trunc read_u64;
  authority_receipt_high_water ← trunc read_u64;
  trust_policy_epoch ← trunc read_u64;
  trust_policy_digest ← trunc read_32;
  cells ← read_table;
  quota_pools ← read_table;
  quota_leases ← read_table;
  capacity_pools ← read_table;
  capacity_leases ← read_table;
  device_heads ← read_table;
  fence_scope_high_water ← read_table;
  task_shards ← read_table;
  takeover_receipts ← read_table;
  migration_anchors ← read_table;
  checkpoint_anchors ← read_table;
  dedup_table ← read_table;
  mret {|
    last_applied_index := last_applied_index;
    last_applied_term := last_applied_term;
    authority_receipt_high_water := authority_receipt_high_water;
    trust_policy_epoch := trust_policy_epoch;
    trust_policy_digest := trust_policy_digest;
    cells := cells;
    quota_pools := quota_pools;
    quota_leases := quota_leases;
    capacity_pools := capacity_pools;
    capacity_leases := capacity_leases;
    device_heads := device_heads;
    fence_scope_high_water := fence_scope_high_water;
    task_shards := task_shards;
    takeover_receipts := takeover_receipts;
    migration_anchors := migration_anchors;
    checkpoint_anchors := checkpoint_anchors;
    dedup_table := dedup_table;
  |}.

Section snapshot.
Context `{Sha256}.

Definition state_root_digest (s : ControlPlaneStateMachine) : option Z :=
  canonical ← encode_canonical_state_body s;
  Some (sha256 (STATE_ROOT_DOMAIN ++ be_bytes 8 (Z.of_nat (length canonical)) ++ canonical)).

Definition encode_snapshot (s : ControlPlaneStateMachine) : option bytes :=
  body ← encode_canonical_state_body s;
  state_root ← state_root_digest s;
  if decide (Z.of_nat (length body) <= u32_max) then
    let out := SNAPSHOT_MAGIC ++ be_bytes 32 state_root
      ++ be_bytes 4 (Z.of_nat (length body)) ++ body in
    Some (out ++ be_bytes 32 (sha256 (SNAPSHOT_CHECKSUM_DOMAIN ++ out)))
  else None.

(** [None] is the panic of the [expect]s in [state_root_digest]. *)
Definition decode_snapshot (b : bytes) :
    option (result SnapshotCodecError ControlPlaneStateMachine) :=
  if decide (length b < 8 + 32 + 4 + 32)%nat then Some (Err SnapshotTruncated) else
  if negb (bool_decide (slice 0 8 b = SNAPSHOT_MAGIC)) then Some (Err SnapshotInvalidMagic) else
  let payload_end := (length b - 32)%nat in
  let expected_checksum := be_bytes 32 (sha256 (SNAPSHOT_CHECKSUM_DOMAIN ++ take payload_end b)) in
  if negb (bool_decide (drop payload_end b = expected_checksum))
  then Some (Err SnapshotChecksumMismatch) else
  let declared_root := be_value (slice 8 40 b) in
  let body_len := be_value (slice 40 44 b) in
  if negb (bool_decide (44 + body_len = Z.of_nat payload_end))
  then Some (Err SnapshotTrailingBytes) else
  match read_state (slice 44 payload_end b) with
  | Err e => Some (Err e)
  | Ok (_, _ :: _) => Some (Err SnapshotTrailingBytes)
  | Ok (reconstructed, []) =>
      root ← state_root_digest reconstructed;
      if negb (bool_decide (root = declared_root)) then Some (Err SnapshotChecksumMismatch)
      else Some (Ok reconstructed)
  end.
End snapshot.

(** ** Well-formed states *)

(** The ranges the Rust types give, and that each row sits under its own key. *)
Record sm_wf (s : ControlPlaneStateMachine) : Prop := {
  wf_index : u64 (last_applied_index s);
  wf_term : u64 (last_applied_term s);
  wf_receipts : u64 (authority_receipt_high_water s);
  wf_trust_epoch : u64 (trust_policy_epoch s);
  wf_trust_digest : dig32 (trust_policy_digest s);
  wf_cells : map_Forall row_ok (cells s);
  wf_quota_pools : map_Forall row_ok (quota_pools s);
  wf_quota_leases : map_Forall row_ok (quota_leases s);
  wf_capacity_pools : map_Forall row_ok (capacity_pools s);
  wf_capacity_leases : map_Forall row_ok (capacity_leases s);
  wf_device_heads : map_Forall row_ok (device_heads s);
  wf_fences : map_Forall row_ok (fence_scope_high_water s);
  wf_task_shards : map_Forall row_ok (task_shards s);
  wf_takeovers : map_Forall row_ok (takeover_receipts s);
  wf_migrations : map_Forall row_ok (migration_anchors s);
  wf_checkpoints : map_Forall row_ok (checkpoint_anchors s);
  wf_dedup : map_Forall row_ok (dedup_table s);
}.

#[export] Hint Resolve wf_index wf_term wf_receipts wf_trust_epoch wf_trust_digest wf_cells
  wf_quota_pools wf_quota_leases wf_capacity_pools wf_capacity_leases wf_device_heads wf_fences
  wf_task_shards wf_takeovers wf_migrations wf_checkpoints wf_dedup : reads.
#[export] Hint Resolve reads_table : reads.

Lemma reads_state s w :
  sm_wf s -> encode_canonical_state_body s = Some w -> reads read_state w s.
Proof.
  intros Hs Hw. unfold encode_canonical_state_body in Hw.
  repeat apply bind_Some in Hw as (? & ? & Hw). injection Hw as <-.
  unfold read_state. destruct s. solve_reads.
Qed.

(** ** Snapshots read back *)

Section round_trip.
Context `{Sha256}.

Definition snapshot_frame (root len : Z) (body sum : bytes) : bytes :=
  (SNAPSHOT_MAGIC ++ be_bytes 32 root ++ be_bytes 4 len ++ body) ++ sum.

Lemma snapshot_fields root len body sum :
  length sum = 32%nat ->
  let b := snapshot_frame root len body sum in
  let e := (44 + length body)%nat in
  length b = (e + 32)%nat /\ slice 0 8 b = SNAPSHOT_MAGIC /\ slice 8 40 b = be_bytes 32 root
  /\ slice 40 44 b = be_bytes 4 len /\ slice 44 e b = body /\ drop e b = sum
  /\ take e b = SNAPSHOT_MAGIC ++ be_bytes 32 root ++ be_bytes 4 len ++ body.
Proof.
  intros Hsum b e. subst b e. unfold snapshot_frame.
  set (K := be_bytes 32 root). set (L := be_bytes 4 len).
  assert (length K = 32%nat) as HK by apply length_be_bytes.
  assert (length L = 4%nat) as HL by apply length_be_bytes.
  assert (length (SNAPSHOT_MAGIC ++ K ++ L ++ body) = 44 + length body)%nat as Hall.
  { rewrite !length_app, HK, HL. simpl. lia. }
  split_and!; [rewrite length_app, Hall; lia| | | | |by apply drop_app_length'
    |by apply take_app_length']; rewrite <- !(assoc_L (++)).
  - by apply (slice_mid 0 8 []).
  - by apply (slice_mid 8 40); rewrite ?HK.
  - rewrite (assoc_L (++) SNAPSHOT_MAGIC). apply (slice_mid 40 44); [|by rewrite HL].
    rewrite !length_app, HK. done.
  - rewrite !(assoc_L (++) _ _ (body ++ _)). apply slice_mid; [|done].
    rewrite !length_app, HK, HL. done.
Qed.

Lemma decode_encode_snapshot s b :
  sm_wf s -> encode_snapshot s = Some b -> decode_snapshot b = Some (Ok s).
Proof.
  intros Hs Hb. unfold encode_snapshot in Hb.
  apply bind_Some in Hb as (body & Hbody & Hb). apply bind_Some in Hb as (root & Hroot & Hb).
  case_decide as Hlen; [|done]. injection Hb as <-.
  set (sum := be_bytes 32 (sha256 (SNAPSHOT_CHECKSUM_DOMAIN ++ _))).
  fold (snapshot_frame root (Z.of_nat (length body)) body sum).
  destruct (snapshot_fields root (Z.of_nat (length body)) body sum) as
    (Hb & H0 & H8 & H40 & H44 & Hend & Htake); [apply length_be_bytes|].
  unfold decode_snapshot. cbv zeta. set (b := snapshot_frame _ _ _ _) in *.
  rewrite decide_False by lia. rewrite H0, bool_decide_eq_true_2 by done. cbn [negb].
  replace (length b - 32)%nat with (44 + length body)%nat by lia.
  rewrite Hend, Htake. unfold sum at 1. rewrite bool_decide_eq_true_2 by done. cbn [negb].
  rewrite H40, be_value_bytes by (width; lia). rewrite bool_decide_eq_true_2 by lia. cbn [negb].
  rewrite H44. pose proof (reads_state s body Hs Hbody []) as Hread.
  rewrite app_nil_r in Hread. rewrite Hread, Hroot. simpl.
  assert (dig32 root) as Hdig.
  { unfold state_root_digest in Hroot. rewrite Hbody in Hroot. injection Hroot as <-.
    apply sha256_range. }
  rewrite H8, be_value_bytes by (width; lia). by rewrite bool_decide_eq_true_2.
Qed.
End round_trip.

(** ** Decoding never panics *)

(** What [p] accepts satisfies [P] and leaves bytes behind. *)
Definition tidy {E A} (p : parser E A) (P : A -> Prop) : Prop :=
  forall b a rest, byte_string b -> p b = Ok (a, rest) -> P a /\ byte_string rest.

Section tidy.
Context {E : Type}.

Lemma tidy_ret {A} (a : A) (P : A -> Prop) : P a -> tidy (E := E) (mret a) P.
Proof. by intros Ha b a' rest Hb [= <- <-]. Qed.
Lemma tidy_fail {A} (e : E) (P : A -> Prop) : tidy (fail_with e) P.
Proof. by intros b a rest. Qed.
Lemma tidy_plift {A} (r : result E A) : tidy (plift r) (fun _ => True).
Proof. intros b a rest Hb. unfold plift. destruct r; [|done]. by intros [= <- <-]. Qed.
Lemma tidy_bind {A B} (p : parser E A) (k : A -> parser E B) P Q :
  tidy p P -> (forall a, P a -> tidy (k a) Q) -> tidy (p ≫= k) Q.
Proof.
  intros Hp Hk b x rest Hb (a & b' & Ha & Hx)%bind_inv.
  destruct (Hp _ _ _ Hb Ha) as [HPa Hb']. by apply (Hk a HPa b').
Qed.
Lemma tidy_map_err {E' A} (f : E -> E') (p : parser E A) P : tidy p P -> tidy (pmap_err f p) P.
Proof.
  intros Hp b a rest Hb. unfold pmap_err, map_err. destruct (p b) as [[]|] eqn:Hr; [|done].
  intros [= <- <-]. by apply Hp in Hr.
Qed.
Lemma tidy_slice (e : E) n : tidy (take_slice e n) (fun w => byte_string w /\ length w = n).
Proof. intros b a rest Hb Hr. apply canonical_take_slice in Hr; tauto. Qed.
Lemma tidy_weaken {A} (p : parser E A) P : tidy p P -> tidy p (fun _ => True).
Proof. intros Hp b a rest Hb Hr. split; [done|]. by apply Hp in Hr as [_ ?]. Qed.
Lemma tidy_many {A} (p : parser E A) n :
  tidy p (fun _ => True) -> tidy (read_many p n) (fun l => length l = n).
Proof.
  intros Hp. induction n as [|n IH]; simpl; [by apply tidy_ret|].
  eapply tidy_bind; [done|]. intros a _. eapply tidy_bind; [done|]. intros l Hl.
  apply tidy_ret. simpl. congruence.
Qed.
End tidy.

(** Walks through a reader, field by field. *)
Ltac solve_tidy :=
  repeat first
    [ apply tidy_ret; exact I | apply tidy_fail | apply tidy_plift
    | apply tidy_map_err | eapply tidy_weaken; apply tidy_slice
    | eapply (tidy_bind _ _ (fun _ => True)); [|intros ? _] | assumption | case_match | case_decide ].

(** A row reader leaves bytes behind. *)
Class RowTidy (K V : Type) `{!RowCodec K V} := row_tidy : tidy (read_row (K := K) (V := V)) (fun _ => True).

Ltac row_tidy_tac :=
  unfold RowTidy; simpl; unfold read_cell_row, read_quota_pool_row, read_quota_lease_row,
    read_capacity_pool_row, read_capacity_lease_row, read_device_head_row, read_fence_scope_row,
    read_task_shard_row, read_takeover_row, read_migration_row, read_checkpoint_row,
    read_dedup_row, read_rejection, read_bool, read_snapshot_opt, read_socket_addr_opt,
    read_cell_id, read_cell_epoch, read_fencing_token, read_generation, read_nonzero_u64,
    read_16, read_32, read_u64, read_u8, trunc, corrupt, read_slice;
  solve_tidy.

#[export] Instance cell_tidy : RowTidy Z ReplicatedCellDirectoryEntry.
Proof. row_tidy_tac. Qed.
#[export] Instance quota_pool_tidy : RowTidy Z QuotaPoolBalance.
Proof. row_tidy_tac. Qed.
#[export] Instance quota_lease_tidy : RowTidy Z ReplicatedQuotaLeaseEntry.
Proof. row_tidy_tac. Qed.
#[export] Instance capacity_pool_tidy : RowTidy Z CapacityPoolBalance.
Proof. row_tidy_tac. Qed.
#[export] Instance capacity_lease_tidy : RowTidy Z ReplicatedCapacityLeaseEntry.
Proof. row_tidy_tac. Qed.
#[export] Instance device_head_tidy : RowTidy Z ReplicatedDeviceHeadEntry.
Proof. row_tidy_tac. Qed.
#[export] Instance fence_scope_tidy : RowTidy Z Z.
Proof. row_tidy_tac. Qed.
#[export] Instance task_shard_tidy : RowTidy (Z * Z) CommittedTaskAuthorityAssignment.
Proof. row_tidy_tac. Qed.
#[export] Instance takeover_tidy : RowTidy Z CommittedTaskAuthorityTakeover.
Proof. row_tidy_tac. Qed.
#[export] Instance migration_tidy : RowTidy Z ReplicatedMigrationAnchor.
Proof. row_tidy_tac. Qed.
#[export] Instance checkpoint_tidy : RowTidy (Z * Z) ReplicatedCheckpointAnchor.
Proof. row_tidy_tac. Qed.
#[export] Instance dedup_tidy : RowTidy Z DedupRecord.
Proof. row_tidy_tac. Qed.

Section table_tidy.
Context {K V : Type} `{Countable K} `{!BTreeKey K} `{!BTreeKeyLaws K} `{!RowCodec K V}
  `{!RowTidy K V}.

Lemma size_foldl_insert (l : list (K * V)) (m : gmap K V) :
  (size (foldl (fun m '(k, v) => <[k := v]> m) m l) <= size m + length l)%nat.
Proof.
  revert m. induction l as [|[k v] l IH]; intros m; simpl; [lia|].
  specialize (IH (<[k := v]> m)).
  rewrite map_size_insert in IH. case_match; simpl in IH; lia.
Qed.

Lemma tidy_len : tidy read_len (fun n => n <= u32_max).
Proof.
  unfold read_len. eapply tidy_bind; [apply tidy_map_err, tidy_slice|].
  intros w [Hw Hl]. apply tidy_ret. pose proof (be_value_bound w Hw) as Hb.
  rewrite Hl in Hb. change (256 ^ Z.of_nat 4) with (2 ^ 32) in Hb. width. lia.
Qed.

Lemma tidy_table : tidy (read_table (K := K) (V := V)) (fun m => is_Some (encode_table m)).
Proof.
  unfold read_table. eapply tidy_bind; [apply tidy_len|]. intros n Hn.
  eapply tidy_bind; [apply tidy_many, row_tidy|]. intros rows Hrows. apply tidy_ret.
  apply encode_table_some. pose proof (size_foldl_insert rows ∅) as Hs.
  rewrite map_size_empty in Hs. width. lia.
Qed.
End table_tidy.

Lemma tidy_state :
  tidy read_state (fun s => is_Some (encode_canonical_state_body s)).
Proof.
  unfold read_state, trunc. unfold read_u64, read_32, read_slice.
  do 5 (eapply (tidy_bind _ _ (fun _ => True)); [solve_tidy|intros ? _]).
  do 12 (eapply tidy_bind; [apply tidy_table|intros ? [? ?]]). apply tidy_ret.
  unfold encode_canonical_state_body. simpl.
  repeat (match goal with H : encode_table _ = _ |- _ => rewrite H; clear H; simpl end). eauto.
Qed.

(** ** Every committed log yields a well-formed state *)

Lemma sm_wf_new : sm_wf sm_new.
Proof. split; simpl; (apply map_Forall_empty || (width; lia)). Qed.

Section wf.
Implicit Types (s : ControlPlaneStateMachine).

(** A table the command left alone. *)
Ltac from_wf Hs :=
  first [apply (wf_index _ Hs) | apply (wf_term _ Hs)
    | apply (wf_receipts _ Hs) | apply (wf_trust_epoch _ Hs) | apply (wf_trust_digest _ Hs)
    | apply (wf_cells _ Hs) | apply (wf_quota_pools _ Hs) | apply (wf_quota_leases _ Hs)
    | apply (wf_capacity_pools _ Hs) | apply (wf_capacity_leases _ Hs)
    | apply (wf_device_heads _ Hs) | apply (wf_fences _ Hs) | apply (wf_task_shards _ Hs)
    | apply (wf_takeovers _ Hs) | apply (wf_migrations _ Hs) | apply (wf_checkpoints _ Hs)
    | apply (wf_dedup _ Hs)].

(** Splits [sm_wf] and leaves the rows the command wrote. *)
Ltac keep_tables Hs :=
  split; simpl; try from_wf Hs; try (apply map_Forall_insert_2; [simpl|from_wf Hs]).

Lemma cell_directory_wf s i t c s' r :
  command_ok (CellDirectoryMutation c) -> command_portable (CellDirectoryMutation c) ->
  nz64 i -> sm_wf s -> apply_inner s i t (CellDirectoryMutation c) = Some (s', r) -> sm_wf s'.
Proof.
  intros Hok Hp Hi Hs. destruct c; simpl in Hok, Hp |- *;
  unfold apply_upsert_cell_endpoint, apply_advance_trust_policy_epoch, apply_decommission_cell,
    applied, rejected; cbv zeta.
  - case_match; intros [= <- <-]; [done|]. keep_tables Hs.
    unfold cell_row_ok. simpl. tauto.
  - case_match; intros [= <- <-]; [done|]. keep_tables Hs; apply Hok.
  - destruct (cells s !! cell) as [e|] eqn:He; [|by intros [= <- <-]].
    case_match; intros [= <- <-]; [done|]. keep_tables Hs.
    pose proof (wf_cells _ Hs _ _ He) as Hrow. simpl in Hrow. unfold cell_row_ok in *. simpl. tauto.
Qed.

Lemma quota_wf s i t c s' r :
  match c with RegisterQuotaPool _ _ | AllocateQuotaLease _ _ _ _ _ _ _ _
  | SettleOrQuarantineQuotaLease _ _ _ _ _ _ => True | _ => False end ->
  command_ok (RootLeasePoolMutation c) ->
  nz64 i -> sm_wf s -> apply_inner s i t (RootLeasePoolMutation c) = Some (s', r) -> sm_wf s'.
Proof.
  intros Hc Hok Hi Hs. destruct c; try done; simpl in Hok |- *;
  unfold apply_register_quota_pool, apply_allocate_quota_lease,
    apply_settle_or_quarantine_quota_lease, applied, rejected.
  - case_match; intros [= <- <-]; [done|]. keep_tables Hs.
    unfold quota_pool_row_ok. simpl. width. split_and!; lia.
  - do 2 (case_match; [by intros [= <- <-]|]).
    destruct (quota_pools s !! budget_root) as [p|] eqn:Hp; [|by intros [= <- <-]].
    case_match eqn:Hav; intros [= <- <-]; [done|]. apply bool_decide_eq_false in Hav.
    pose proof (wf_quota_pools _ Hs _ _ Hp) as Hrow. simpl in Hrow. unfold quota_pool_row_ok in Hrow.
    keep_tables Hs.
    + unfold quota_pool_row_ok, saturating_add64. simpl. width. split_and!; lia.
    + unfold quota_lease_row_ok. simpl. width. split_and!; done || lia.
    + tauto.
  - destruct (quota_leases s !! lease_id) as [q|] eqn:Hq; [|by intros [= <- <-]].
    do 3 (case_match; [by intros [= <- <-]|]). 
    destruct (checked_add64 _ _); [|by intros [= <- <-]].
    do 2 (case_match; [by intros [= <- <-]|]).
    destruct (quota_pools s !! ql_budget_root q) as [p|] eqn:Hp; [|done]. intros [= <- <-].
    pose proof (wf_quota_pools _ Hs _ _ Hp) as Hrow. simpl in Hrow. unfold quota_pool_row_ok in Hrow.
    pose proof (wf_quota_leases _ Hs _ _ Hq) as Hql. simpl in Hql. unfold quota_lease_row_ok in Hql.
    keep_tables Hs.
    + unfold quota_pool_row_ok, saturating_add64, saturating_sub64. simpl. width. split_and!; lia.
    + unfold quota_lease_row_ok. simpl. tauto.
    + tauto.
Qed.

Lemma capacity_wf s i l pool tot cell g a e tok s' r :
  command_ok (RootLeasePoolMutation (AllocateCapacityLease l pool tot cell g a e tok)) ->
  nz64 i -> sm_wf s ->
  apply_allocate_capacity_lease s i l pool tot cell g a e tok = Some (s', r) -> sm_wf s'.
Proof.
  intros Hok Hi Hs. simpl in Hok.
  unfold apply_allocate_capacity_lease, checked_add64, applied, rejected. cbv zeta.
  case_match; [by intros [= <- <-]|]. set (p := default _ (capacity_pools s !! pool)).
  assert (capacity_pool_row_ok pool p) as Hp.
  { subst p. destruct (capacity_pools s !! pool) as [p|] eqn:Hp; simpl.
    - exact (wf_capacity_pools _ Hs _ _ Hp).
    - unfold capacity_pool_row_ok. simpl. width. split_and!; lia. }
  assert (sm_wf (s <| capacity_pools := <[pool := p]> (capacity_pools s) |>)) as Hs1
    by (keep_tables Hs; exact Hp).
  case_match; [by intros [= <- <-]|].
  destruct (decide (cp_committed p + a <= u64_max)); [|by intros [= <- <-]].
  case_match; intros [= <- <-]; [done|]. keep_tables Hs1.
  - unfold capacity_pool_row_ok in *. simpl. width. split_and!; lia.
  - unfold capacity_lease_row_ok. simpl. tauto.
Qed.

Lemma device_wf s i d l e h tok st pf s' r :
  command_ok (RootLeasePoolMutation (TransitionExclusiveDeviceHead d l e h tok st pf)) ->
  nz64 i -> sm_wf s ->
  apply_transition_exclusive_device_head s i d l e h tok st pf = Some (s', r) -> sm_wf s'.
Proof.
  intros Hok Hi Hs. simpl in Hok.
  unfold apply_transition_exclusive_device_head, applied, rejected. cbv zeta.
  do 2 (case_match; [by intros [= <- <-]|]). case_match;
    intros [= <- <-]; [done|]. keep_tables Hs. unfold device_head_row_ok. simpl. tauto.
Qed.

Lemma authority_wf s i t c s' r :
  command_ok (TaskAuthorityShardMutation c) -> nz64 i -> nz64 t -> sm_wf s ->
  apply_inner s i t (TaskAuthorityShardMutation c) = Some (s', r) -> sm_wf s'.
Proof.
  intros Hok Hi Ht Hs. destruct c; simpl in Hok |- *;
  unfold apply_assign_initial_authority, apply_record_completed_takeover, applied, rejected.
  - case_match; intros [= <- <-]; [done|]. keep_tables Hs. unfold task_shard_row_ok. simpl. tauto.
  - case_match; [by intros [= <- <-]|].
    destruct (task_shards s !! (task_id, task_generation)) as [a|] eqn:Ha; [|by intros [= <- <-]].
    case_match; intros [= <- <-]; [done|].
    pose proof (wf_task_shards _ Hs _ _ Ha) as Hrow. simpl in Hrow. unfold task_shard_row_ok in Hrow.
    keep_tables Hs; [unfold task_shard_row_ok|unfold takeover_row_ok]; simpl; tauto.
Qed.

Lemma anchor_wf s i t c s' r :
  command_ok (ControlPlaneAuditAnchor c) -> nz64 i -> sm_wf s ->
  apply_inner s i t (ControlPlaneAuditAnchor c) = Some (s', r) -> sm_wf s'.
Proof.
  intros Hok Hi Hs. destruct c; simpl in Hok |- *;
  unfold apply_anchor_migration_intent, apply_anchor_reconciliation_checkpoint, applied, rejected;
  cbv zeta.
  - case_match; intros [= <- <-]; [done|]. keep_tables Hs. unfold migration_row_ok. simpl. tauto.
  - do 2 (case_match; [by intros [= <- <-]|]). intros [= <- <-]. keep_tables Hs.
    unfold checkpoint_row_ok. simpl. tauto.
Qed.

Lemma apply_inner_wf s i t c s' r :
  command_ok c -> command_portable c -> nz64 i -> nz64 t -> sm_wf s ->
  apply_inner s i t c = Some (s', r) -> sm_wf s'.
Proof.
  intros Hok Hp Hi Ht Hs Hc. destruct c as [c|c|c|c].
  - exact (cell_directory_wf s i t c s' r Hok Hp Hi Hs Hc).
  - destruct c; try (refine (quota_wf s i t _ s' r _ Hok Hi Hs Hc); exact I).
    + exact (capacity_wf s i _ _ _ _ _ _ _ _ s' r Hok Hi Hs Hc).
    + exact (device_wf s i _ _ _ _ _ _ _ s' r Hok Hi Hs Hc).
  - exact (authority_wf s i t c s' r Hok Hi Ht Hs Hc).
  - exact (anchor_wf s i t c s' r Hok Hi Hs Hc).
Qed.

Lemma sm_wf_bookkeeping s i t hw dd :
  sm_wf s -> u64 i -> u64 t -> u64 hw -> map_Forall row_ok dd ->
  sm_wf (s <| last_applied_index := i |> <| last_applied_term := t |>
           <| authority_receipt_high_water := hw |> <| dedup_table := dd |>).
Proof. intros Hs Hi Ht Hhw Hdd. split; simpl; try done; from_wf Hs. Qed.
End wf.


Section log_wf.
Context `{Sha256}.

(** An entry as it comes off the wire: index and term are [NonZeroU64], the
    key has 16 bytes, and the hint is one the codec can carry. *)
Definition wire_entry (e : Z * Z * ControlPlaneProposal) : Prop :=
  let '(i, t, p) := e in
  nz64 i /\ nz64 t /\ proposal_ok p /\ command_portable (command p).

Lemma apply_committed_entry_wf s i t p s' out :
  wire_entry (i, t, p) -> sm_wf s -> apply_committed_entry s i t p = Some (s', out) -> sm_wf s'.
Proof.
  intros (Hi & Ht & [Hk Hok] & Hp) Hs Hrun.
  assert (u64 i /\ u64 t) as [Hui Hut] by (width; lia).
  assert (sm_wf (at_index s i t)) as Hat.
  { exact (sm_wf_bookkeeping s i t _ _ Hs Hui Hut (wf_receipts _ Hs) (wf_dedup _ Hs)). }
  unfold apply_committed_entry in Hrun. case_match; [done|]. cbv zeta in Hrun.
  fold (at_index s i t) in Hrun. simpl in Hrun.
  destruct (dedup_table s !! idempotency_key p) as [d|].
  { repeat case_match; by simplify_eq. }
  destruct (apply_inner (at_index s i t) i t (command p)) as [[s1 rej]|] eqn:Hin; [|done].
  pose proof (apply_inner_wf _ _ _ _ _ _ Hok Hp Hi Ht Hat Hin) as Hs1.
  assert (map_Forall row_ok (<[idempotency_key p := {| dd_proposal_digest := proposal_digest p;
    dd_committed_index := i; dd_rejection := rej |}]> (dedup_table s1))) as Hdd.
  { apply map_Forall_insert_2; [|apply (wf_dedup _ Hs1)]. split_and!; [done| |done].
    apply sha256_range. }
  pose proof (wf_receipts _ Hs1) as Hr.
  assert (u64 (saturating_add64 (authority_receipt_high_water s1) 1)) as Hr'.
  { unfold saturating_add64. width. lia. }
  destruct rej; injection Hrun as <- <-.
  - exact (sm_wf_bookkeeping s1 _ _ _ _ Hs1 (wf_index _ Hs1) (wf_term _ Hs1) Hr Hdd).
  - exact (sm_wf_bookkeeping s1 _ _ _ _ Hs1 (wf_index _ Hs1) (wf_term _ Hs1) Hr' Hdd).
Qed.

Lemma apply_log_wf es : forall s s' outs,
  Forall wire_entry es -> sm_wf s -> apply_log s es = Some (s', outs) -> sm_wf s'.
Proof.
  induction es as [|[[i t] p] es IH]; intros s s' outs Hes Hs; simpl.
  { by intros [= <- <-]. }
  apply Forall_cons in Hes as [He Hes].
  destruct (apply_committed_entry s i t p) as [[s1 o]|] eqn:Hone; [|done]. simpl.
  destruct (apply_log s1 es) as [[s2 o1]|] eqn:Hlog; [|done]. simpl. intros [= <- <-].
  eapply IH; [done| |exact Hlog]. by eapply apply_committed_entry_wf.
Qed.
End log_wf.

(** ** Theorems *)

Section claims.
Context `{Sha256}.

(** Decoding a snapshot never panics: every byte string gets a state or an
    error, whatever its contents. *)
Theorem decode_snapshot_total b : byte_string b -> is_Some (decode_snapshot b).
Proof.
  intros Hb. unfold decode_snapshot. cbv zeta. case_decide; [eauto|].
  do 3 (case_match; [eauto|]).
  destruct (read_state _) as [[s [|]]|] eqn:Hs; [|eauto..].
  assert (is_Some (encode_canonical_state_body s)) as [body Hbody].
  { eapply tidy_state; [|exact Hs]. by apply Forall_take, Forall_drop. }
  unfold state_root_digest. rewrite Hbody. simpl. case_match; eauto.
Qed.

End claims.

Lemma decode_snapshot_total_witness :
  byte_string (SNAPSHOT_MAGIC ++ repeat 255 76)
  /\ is_Some (decode_snapshot (H := checksum_hasher) (SNAPSHOT_MAGIC ++ repeat 255 76)).
Proof.
  assert (byte_string (SNAPSHOT_MAGIC ++ repeat 255 76)) as Hb.
  { vm_compute. repeat constructor; done. }
  split; [exact Hb|]. exact (decode_snapshot_total (H := checksum_hasher) _ Hb).
Defined.

Lemma sample_log_wire : Forall wire_entry sample_log.
Proof.
  unfold sample_log. cbv zeta.
  repeat apply List.Forall_cons; try apply List.Forall_nil;
    unfold wire_entry, proposal_ok; simpl; width; split_and!; lia || done.
Qed.


(** The sample log's snapshot, computed. *)
Example sample_log_snapshot :
  match apply_log (H := checksum_hasher) sm_new sample_log with
  | Some (s, _) =>
      match encode_snapshot (H := checksum_hasher) s with
      | Some b => decode_snapshot (H := checksum_hasher) b = Some (Ok s)
      | None => False
      end
  | None => False
  end.
Proof. vm_compute. reflexivity. Qed.
