(* ===== verification/SnapshotBytes.v ===== *)
(** * SnapshotBytes: a snapshot is a string of bytes

    Every row of every table, and hence the whole encoding of a state, consists
    of values below 256, so that a snapshot can be cut into chunks and sent. *)

From S2P Require Import Prelude Bytes Commands StateMachine Ledger Snapshot.

Section parts.
Lemma single_byte x : u8 x -> byte_string [x].
Proof. intros Hx. by constructor. Qed.
Lemma bool_byte b : byte_string [bool_as_u8 b].
Proof. apply single_byte. destruct b; width; cbn; lia. Qed.
Lemma disposition_byte d : byte_string [disposition_as_u8 d].
Proof. apply single_byte. destruct d; width; cbn; lia. Qed.
Lemma device_state_byte d : byte_string [device_state_as_u8 d].
Proof. apply single_byte. destruct d; width; cbn; lia. Qed.
Lemma rejection_byte o : byte_string [from_option rejection_as_u8 0 o].
Proof. apply single_byte. destruct o as [[]|]; width; cbn; lia. Qed.
Lemma opt_bytes n o : byte_string (encode_opt n o).
Proof.
  unfold encode_opt. destruct o; [|by repeat constructor].
  apply Forall_app. split; [by repeat constructor|apply be_bytes_byte_string].
Qed.
Lemma addr_bytes o : byte_string (encode_socket_addr_opt o).
Proof.
  unfold encode_socket_addr_opt. destruct o as [[]|]; repeat (apply Forall_app; split);
    try apply be_bytes_byte_string; by repeat constructor.
Qed.
End parts.

Create HintDb byte_strings.
#[export] Hint Resolve be_bytes_byte_string bool_byte disposition_byte device_state_byte
  rejection_byte opt_bytes addr_bytes : byte_strings.

(** Splits an encoding into its parts. *)
Ltac byte_parts := repeat (apply Forall_app; split); auto with byte_strings.

(** A table whose rows are byte strings. *)
Class ByteRows (K V : Type) `{!RowCodec K V} :=
  row_bytes : forall (k : K) (v : V), byte_string (encode_row k v).

#[export] Instance cell_bytes : ByteRows Z ReplicatedCellDirectoryEntry.
Proof. intros k v. change (byte_string (encode_cell_row k v)). unfold encode_cell_row. byte_parts. Qed.
#[export] Instance quota_pool_bytes : ByteRows Z QuotaPoolBalance.
Proof. intros k v. change (byte_string (encode_quota_pool_row k v)). unfold encode_quota_pool_row. byte_parts. Qed.
#[export] Instance quota_lease_bytes : ByteRows Z ReplicatedQuotaLeaseEntry.
Proof. intros k v. change (byte_string (encode_quota_lease_row k v)). unfold encode_quota_lease_row. byte_parts. Qed.
#[export] Instance capacity_pool_bytes : ByteRows Z CapacityPoolBalance.
Proof. intros k v. change (byte_string (encode_capacity_pool_row k v)). unfold encode_capacity_pool_row. byte_parts. Qed.
#[export] Instance capacity_lease_bytes : ByteRows Z ReplicatedCapacityLeaseEntry.
Proof. intros k v. change (byte_string (encode_capacity_lease_row k v)). unfold encode_capacity_lease_row. byte_parts. Qed.
#[export] Instance device_head_bytes : ByteRows Z ReplicatedDeviceHeadEntry.
Proof. intros k v. change (byte_string (encode_device_head_row k v)). unfold encode_device_head_row. byte_parts. Qed.
#[export] Instance fence_scope_bytes : ByteRows Z Z.
Proof. intros k v. change (byte_string (encode_fence_scope_row k v)). unfold encode_fence_scope_row. byte_parts. Qed.
#[export] Instance task_shard_bytes : ByteRows (Z * Z) CommittedTaskAuthorityAssignment.
Proof. intros k v. change (byte_string (encode_task_shard_row k v)). unfold encode_task_shard_row. byte_parts. Qed.
#[export] Instance takeover_bytes : ByteRows Z CommittedTaskAuthorityTakeover.
Proof. intros k v. change (byte_string (encode_takeover_row k v)). unfold encode_takeover_row. byte_parts. Qed.
#[export] Instance migration_bytes : ByteRows Z ReplicatedMigrationAnchor.
Proof. intros k v. change (byte_string (encode_migration_row k v)). unfold encode_migration_row. byte_parts. Qed.
#[export] Instance checkpoint_bytes : ByteRows (Z * Z) ReplicatedCheckpointAnchor.
Proof. intros k v. change (byte_string (encode_checkpoint_row k v)). unfold encode_checkpoint_row. byte_parts. Qed.
#[export] Instance dedup_bytes : ByteRows Z DedupRecord.
Proof. intros k v. change (byte_string (encode_dedup_row k v)). unfold encode_dedup_row. byte_parts. Qed.

Lemma encode_table_bytes {K V} `{Countable K} `{!BTreeKey K} `{!BTreeKeyLaws K} `{!RowCodec K V}
    `{!ByteRows K V} (m : gmap K V) w : encode_table m = Some w -> byte_string w.
Proof.
  unfold encode_table, encode_len. case_decide; [|done]. cbn. intros [= <-].
  apply Forall_app. split; [apply be_bytes_byte_string|]. apply Forall_concat, Forall_fmap, Forall_forall.
  intros [k v] _. apply row_bytes.
Qed.

Lemma encode_body_bytes s w : encode_canonical_state_body s = Some w -> byte_string w.
Proof.
  unfold encode_canonical_state_body. intros Hw.
  repeat match goal with
  | Hw : (encode_table ?m ≫= _) = Some _ |- _ =>
      let t := fresh "t" in let Ht := fresh "Ht" in
      apply bind_Some in Hw as (t & Ht%encode_table_bytes & Hw)
  end.
  apply (inj Some) in Hw as <-. byte_parts.
Qed.

Lemma encode_snapshot_bytes `{Sha256} s b : encode_snapshot s = Some b -> byte_string b.
Proof.
  unfold encode_snapshot. intros (body & Hbody%encode_body_bytes & (root & _ & Hb)%bind_Some)%bind_Some.
  case_decide; [|done]. cbv zeta in Hb. apply (inj Some) in Hb as <-. byte_parts.
  repeat constructor; lia.
Qed.
