(* ===== verification/Replay.v ===== *)
(** * Replay: states that committed logs lead to

    The state machine is a deterministic function of the committed log, which
    is what lets a restarted replica rebuild it. This file collects what
    recovery needs of that function: running a log in parts, that no log of
    decoded proposals makes it panic, that every state it reaches has a
    snapshot as long as fewer than [2^32] entries were applied, and that the
    snapshot gives the state back. *)

From S2P Require Import Prelude Bytes Commands StateMachine Ledger Snapshot.

(** ** Table sizes *)

Definition domain_sizes (s : ControlPlaneStateMachine) : list nat :=
  [size (cells s); size (quota_pools s); size (quota_leases s); size (capacity_pools s);
   size (capacity_leases s); size (device_heads s); size (fence_scope_high_water s);
   size (task_shards s); size (takeover_receipts s); size (migration_anchors s);
   size (checkpoint_anchors s)].
Definition table_sizes (s : ControlPlaneStateMachine) : list nat :=
  domain_sizes s ++ [size (dedup_table s)].

Lemma size_insert_le {K V} `{Countable K} (m : gmap K V) k v : (size (<[k := v]> m) <= S (size m))%nat.
Proof. rewrite map_size_insert. destruct (m !! k); cbn; lia. Qed.

(** A table grew by at most one row. *)
Definition grows (n n' : nat) : Prop := (n' <= S n)%nat.

Lemma apply_inner_grows s i t c s' r :
  apply_inner s i t c = Some (s', r) -> Forall2 grows (table_sizes s) (table_sizes s').
Proof.
  intros Hc. unfold grows, table_sizes, domain_sizes. destruct c as [[]|[]|[]|[]]; simpl in Hc; revert Hc;
  unfold apply_upsert_cell_endpoint, apply_advance_trust_policy_epoch, apply_decommission_cell,
    apply_register_quota_pool, apply_allocate_quota_lease,
    apply_settle_or_quarantine_quota_lease, apply_allocate_capacity_lease,
    apply_transition_exclusive_device_head, apply_assign_initial_authority,
    apply_record_completed_takeover, apply_anchor_migration_intent,
    apply_anchor_reconciliation_checkpoint, applied, rejected; cbv zeta;
  repeat case_match; intros; simplify_eq/=; repeat apply Forall2_cons_2; try apply Forall2_nil_2;
  rewrite ?insert_insert_eq; apply size_insert_le || lia.
Qed.

Definition small (n : nat) (s : ControlPlaneStateMachine) : Prop :=
  Forall (fun k => k <= n)%nat (table_sizes s).

Lemma grows_small n s s' :
  Forall2 grows (table_sizes s) (table_sizes s') -> small n s -> small (S n) s'.
Proof.
  unfold small, grows. generalize (table_sizes s), (table_sizes s'). intros ks ks' Hg Hs. revert Hs.
  induction Hg as [|k k' ks ks' Hk _ IH]; intros Hs; [done|].
  apply Forall_cons in Hs as [Hk' Hs]. apply Forall_cons. split; [lia|auto].
Qed.

Lemma encode_table_small {K V} `{Countable K} `{!BTreeKey K} `{!BTreeKeyLaws K} `{!RowCodec K V}
    (m : gmap K V) n :
  Z.of_nat n <= u32_max -> (size m <= n)%nat -> exists b, encode_table m = Some b.
Proof.
  intros Hn Hm. unfold encode_table, encode_len. rewrite decide_True by lia. cbn. eauto.
Qed.

Section replay.
Context `{Sha256}.
Implicit Types (s : ControlPlaneStateMachine) (es : list (Z * Z * ControlPlaneProposal)).

(** A state whose tables fit the format has a digest. *)
Lemma small_root n s : Z.of_nat n <= u32_max -> small n s -> is_Some (state_root_digest s).
Proof.
  intros Hn Hs. unfold small, table_sizes, domain_sizes in Hs. cbn in Hs. rewrite !Forall_cons in Hs.
  unfold state_root_digest, encode_canonical_state_body.
  destruct_and? Hs.
  repeat match goal with
  | Hm : (size ?m <= n)%nat |- context [encode_table ?m] =>
      destruct (encode_table_small m n Hn Hm) as [? ->]; cbn
  end. eauto.
Qed.

Lemma apply_committed_entry_small n s i t p s' out :
  apply_committed_entry s i t p = Some (s', out) -> small n s -> small (S n) s'.
Proof.
  intros [_ Hrun]%apply_committed_entry_inv Hs.
  destruct Hrun as [[_ ->]|(s1 & rej & _ & Hc & Hsame & Hd & _)].
  { eapply Forall_impl; [exact Hs|]. cbn. lia. }
  apply (grows_small _ s); [|done]. apply apply_inner_grows in Hc. unfold table_sizes in *.
  assert (domain_sizes s' = domain_sizes s1) as -> by exact (eq_sym (f_equal domain_sizes Hsame)).
  apply Forall2_app_inv in Hc as [Hc _]; [|done].
  apply Forall2_app; [exact Hc|]. apply Forall2_cons_2; [|apply Forall2_nil_2].
  rewrite Hd. apply size_insert_le.
Qed.

Lemma apply_log_small es : forall n s s' outs,
  apply_log s es = Some (s', outs) -> small n s -> small (n + length es) s'.
Proof.
  induction es as [|[[i t] p] es IH]; intros n s s' outs.
  { intros [= <- <-]. by rewrite Nat.add_0_r. }
  cbn [apply_log]. intros ([s1 o] & H1 & ([s2 o2] & H2 & [= <- <-])%bind_Some)%bind_Some Hs.
  replace (n + length ((i, t, p) :: es))%nat with (S n + length es)%nat by (cbn; lia).
  eapply IH; [done|]. by eapply apply_committed_entry_small.
Qed.

(** ** States of committed logs *)

Definition log_state s : Prop :=
  exists es outs, Forall wire_entry es /\ apply_log sm_new es = Some (s, outs).

Lemma apply_log_index es : forall s s' outs,
  apply_log s es = Some (s', outs) ->
  last_applied_index s + Z.of_nat (length es) <= last_applied_index s'.
Proof.
  induction es as [|[[i t] p] es IH]; intros s s' outs; [intros [= <- <-]; cbn; lia|].
  cbn [apply_log]. intros ([s1 o] & H1 & ([s2 o2] & H2 & [= <- <-])%bind_Some)%bind_Some.
  apply IH in H2. cbn [length]. apply apply_committed_entry_inv in H1 as [Hi H1].
  assert (last_applied_index s1 = i); [|lia].
  by destruct H1 as [[_ ->]|(?&?&?&?&?&?&?&?)].
Qed.

(** A log that ran was in order, and so is every extension of it. *)
Lemma apply_log_ok es1 es2 : forall s s' outs,
  apply_log s es1 = Some (s', outs) -> Forall wire_entry es1 ->
  log_ok (last_applied_index s') es2 -> log_ok (last_applied_index s) (es1 ++ es2).
Proof.
  induction es1 as [|[[i t] p] es1 IH]; intros s s' outs; [by intros [= <- <-] _|].
  cbn [apply_log]. intros ([s1 o] & H1 & ([s2 o2] & H2 & [= <- <-])%bind_Some)%bind_Some.
  intros [(_ & _ & [_ Hp] & _) Hes]%Forall_cons Hok.
  apply apply_committed_entry_inv in H1 as [Hi H1].
  assert (last_applied_index s1 = i) as <- by (by destruct H1 as [[_ ->]|(?&?&?&?&?&?&?&?)]).
  cbn. split; [done|]. split; [done|]. by eapply IH.
Qed.

Lemma log_state_new : log_state sm_new.
Proof. by exists [], []. Qed.

(** No in-order log panics from the state of a committed log. *)
Lemma log_state_run s es :
  log_state s -> log_ok (last_applied_index s) es ->
  exists s' outs, apply_log s es = Some (s', outs).
Proof.
  intros (es0 & outs0 & Hw & Hrun) Hok.
  pose proof (apply_log_ok _ _ _ _ _ Hrun Hw Hok) as Hall.
  destruct (apply_log_ledger _ ∅ sm_new Hall ledger_inv_new) as (s' & outs & Hl & _).
  rewrite apply_log_app, Hrun in Hl. cbn in Hl.
  apply bind_Some in Hl as ([s2 o2] & H2 & _). eauto.
Qed.

Lemma log_state_extend s es s' outs :
  log_state s -> Forall wire_entry es -> apply_log s es = Some (s', outs) -> log_state s'.
Proof.
  intros (es0 & outs0 & Hw & Hrun) Hes Hl. exists (es0 ++ es), (outs0 ++ outs).
  split; [by apply Forall_app|]. rewrite apply_log_app, Hrun. cbn. by rewrite Hl.
Qed.

Lemma log_state_wf s : log_state s -> sm_wf s.
Proof. intros (es & outs & Hw & Hrun). eapply apply_log_wf; [done|apply sm_wf_new|done]. Qed.

Lemma log_state_root s :
  log_state s -> last_applied_index s <= u32_max -> is_Some (state_root_digest s).
Proof.
  intros (es & outs & _ & Hrun) Hmax. pose proof (apply_log_index _ _ _ _ Hrun) as Hlen.
  apply (small_root (length es)); [cbn in Hlen; lia|].
  apply (apply_log_small es 0 sm_new s outs Hrun). by vm_compute; repeat constructor.
Qed.
End replay.
