(* ===== verification/Roster.v ===== *)
(** * Roster: voter rosters, quorums and timing

    Models the configuration layer of nlos-consensus/src/core.rs
    ([ValidatedVoterRoster], [ConsensusTimingConfig]) and
    [staggered_timing_for_roster] of nlos-consensus/src/net_driver.rs. The main
    result is that two quorums counted by distinct control domains share a
    voter. *)

From S2P Require Import Prelude Bytes.

Record VoterReplica := {
  cell_identity : Z;
  control_domain_id : Z;
}.

#[export] Instance voter_eq_dec : EqDecision VoterReplica.
Proof. solve_decision. Defined.

Inductive ConsensusConfigError :=
  | EmptyVoterSet
  | DuplicateCellIdentity (cell : Z)
  | NonIndependentControlDomain (control_domain_id first_cell second_cell : Z)
  | UnsupportedTwoNodeQuorum
  | LocalCellNotInRoster (cell : Z)
  | InvalidTimingBounds (heartbeat_ticks leader_lease_ticks election_timeout_ticks : Z).

Record ValidatedVoterRoster := { members : list VoterReplica }.

(** The validation loop of [ValidatedVoterRoster::new]; [n] is [voters.len()]. *)
Fixpoint check_voters (n : nat) (seen_cells : gset Z) (seen_domains : gmap Z Z)
    (voters : list VoterReplica) : result ConsensusConfigError unit :=
  match voters with
  | [] => Ok tt
  | voter :: rest =>
      if decide (cell_identity voter ∈ seen_cells)
      then Err (DuplicateCellIdentity (cell_identity voter)) else
      let shared := if decide (1 < n)%nat then seen_domains !! control_domain_id voter else None in
      match shared with
      | Some first_cell =>
          Err (NonIndependentControlDomain (control_domain_id voter) first_cell
                 (cell_identity voter))
      | None =>
          check_voters n ({[cell_identity voter]} ∪ seen_cells)
            (<[control_domain_id voter := cell_identity voter]> seen_domains) rest
      end
  end.

Definition voter_le (a b : VoterReplica) : Prop := cell_identity a <= cell_identity b.
#[export] Instance voter_le_dec : RelDecision voter_le.
Proof. intros a b. unfold voter_le. apply _. Defined.
#[export] Instance voter_le_total : Total voter_le.
Proof. intros a b. unfold voter_le. lia. Qed.
#[export] Instance voter_le_trans : Transitive voter_le.
Proof. intros a b c. unfold voter_le. lia. Qed.

(** [ValidatedVoterRoster::new]; [sort_by_key] is a stable sort. *)
Definition roster_new (voters : list VoterReplica) :
    result ConsensusConfigError ValidatedVoterRoster :=
  match voters with
  | [] => Err EmptyVoterSet
  | _ =>
      match check_voters (length voters) ∅ ∅ voters with
      | Err e => Err e
      | Ok _ =>
          if decide (length voters = 2)%nat then Err UnsupportedTwoNodeQuorum
          else Ok {| members := merge_sort voter_le voters |}
      end
  end.

Definition roster_len (r : ValidatedVoterRoster) : nat := length (members r).
Definition quorum_size (r : ValidatedVoterRoster) : nat := (length (members r) / 2 + 1)%nat.
Definition contains (r : ValidatedVoterRoster) (cell : Z) : bool :=
  existsb (fun m => bool_decide (cell_identity m = cell)) (members r).
Definition domain_of (r : ValidatedVoterRoster) (cell : Z) : option Z :=
  control_domain_id <$> List.find (fun m => bool_decide (cell_identity m = cell)) (members r).

(** ** What validation guarantees *)

Record roster_wf (r : ValidatedVoterRoster) : Prop := {
  rw_cells : NoDup (cell_identity <$> members r);
  rw_domains : NoDup (control_domain_id <$> members r);
  rw_size : (roster_len r = 1 \/ 3 <= roster_len r)%nat;
  rw_sorted : StronglySorted voter_le (members r);
}.

Lemma check_voters_ok n voters : forall cells domains,
  check_voters n cells domains voters = Ok tt ->
  NoDup (cell_identity <$> voters)
  /\ (forall v, v ∈ voters -> cell_identity v ∉ cells)
  /\ ((1 < n)%nat -> NoDup (control_domain_id <$> voters)
      /\ (forall v, v ∈ voters -> domains !! control_domain_id v = None)).
Proof.
  induction voters as [|v voters IH]; intros cells domains; simpl.
  { intros _. split_and!; [constructor|by intros v ?%elem_of_nil|]. intros _.
    split; [constructor|by intros v ?%elem_of_nil]. }
  case_decide as Hin; [done|]. destruct (if decide (1 < n)%nat then _ else _) eqn:Hsh; [done|].
  intros Hrest. destruct (IH _ _ Hrest) as (Hc & Hnot & Hdom). split_and!.
  - constructor; [|done]. intros (w & Hw & Hwin)%list_elem_of_fmap. specialize (Hnot w Hwin).
    clear - Hnot Hw. set_solver.
  - intros w [->|Hw]%elem_of_cons; [done|]. specialize (Hnot w Hw). clear - Hnot. set_solver.
  - intros Hn. destruct (Hdom Hn) as [Hd1 Hd2]. rewrite decide_True in Hsh by done. split.
    + constructor; [|done]. intros (w & Hw & Hwin)%list_elem_of_fmap. specialize (Hd2 w Hwin).
      rewrite <- Hw, lookup_insert_eq in Hd2. done.
    + intros w [->|Hw]%elem_of_cons; [done|]. specialize (Hd2 w Hw).
      by apply lookup_insert_None in Hd2 as [? _].
Qed.

Lemma roster_new_wf voters r : roster_new voters = Ok r -> roster_wf r /\ members r ≡ₚ voters.
Proof.
  unfold roster_new. destruct voters as [|v0 vs]; [done|]. set (voters := v0 :: vs).
  destruct (check_voters _ _ _ _) as [[]|] eqn:Hc; [|done]. case_decide as Hlen; [done|].
  intros [= <-]. simpl. set (sorted := merge_sort voter_le voters).
  assert (sorted ≡ₚ voters) as Hp by apply merge_sort_Permutation.
  destruct (check_voters_ok _ _ _ _ Hc) as (Hcells & _ & Hdom).
  split; [|done]. split; unfold roster_len; simpl.
  - by rewrite Hp.
  - rewrite Hp. destruct (decide (1 < length voters)%nat) as [Hn|Hn]; [by apply Hdom|].
    destruct vs; [|simpl in Hn; lia]. repeat constructor. set_solver.
  - rewrite Hp. subst voters. simpl in *. lia.
  - apply StronglySorted_merge_sort; apply _.
Qed.

Lemma check_voters_complete n voters : forall cells domains,
  NoDup (cell_identity <$> voters) -> (forall v, v ∈ voters -> cell_identity v ∉ cells) ->
  ((1 < n)%nat -> NoDup (control_domain_id <$> voters)
      /\ (forall v, v ∈ voters -> domains !! control_domain_id v = None)) ->
  check_voters n cells domains voters = Ok tt.
Proof.
  induction voters as [|v voters IH]; intros cells domains Hc Hnot Hdom; simpl; [done|].
  rewrite decide_False by (apply Hnot; left).
  assert ((if decide (1 < n)%nat then domains !! control_domain_id v else None) = None) as ->.
  { case_decide as Hn; [|done]. apply (Hdom Hn). left. }
  apply NoDup_cons in Hc as [Hv Hc]. apply IH; [done| |].
  - intros w Hw. specialize (Hnot w (list_elem_of_further _ _ _ Hw)).
    assert (cell_identity w <> cell_identity v).
    { intros Heq. apply Hv. rewrite <- Heq. by apply list_elem_of_fmap_2. }
    clear - Hnot H. set_solver.
  - intros Hn. destruct (Hdom Hn) as [Hd1 Hd2]. simpl in Hd1. apply NoDup_cons in Hd1 as [Hv1 Hd1].
    split; [done|]. intros w Hw. rewrite lookup_insert_ne.
    + apply Hd2. by right.
    + intros Heq. apply Hv1. rewrite Heq. by apply list_elem_of_fmap_2.
Qed.

(** ** Lookups and quorums *)

Section lookups.
Context (r : ValidatedVoterRoster) (Hr : roster_wf r).

Lemma domain_of_member c d :
  domain_of r c = Some d <->
  exists v, v ∈ members r /\ cell_identity v = c /\ control_domain_id v = d.
Proof.
  unfold domain_of. rewrite fmap_Some. setoid_rewrite (find_keyed cell_identity _ _ _ (rw_cells r Hr)).
  naive_solver.
Qed.

(** Two voters in one domain are the same voter. *)
Lemma domain_of_inj c1 c2 d : domain_of r c1 = Some d -> domain_of r c2 = Some d -> c1 = c2.
Proof.
  intros (v1 & H1 & <- & <-)%domain_of_member (v2 & H2 & <- & Hd)%domain_of_member.
  f_equal. by apply (NoDup_fmap_eq control_domain_id (members r) v1 v2 (rw_domains r Hr)).
Qed.

Lemma contains_member c : contains r c = true <-> exists v, v ∈ members r /\ cell_identity v = c.
Proof.
  unfold contains. rewrite List.existsb_exists. setoid_rewrite bool_decide_eq_true.
  by setoid_rewrite list_elem_of_In.
Qed.

Lemma contains_domain c : contains r c = true <-> is_Some (domain_of r c).
Proof.
  rewrite contains_member. unfold is_Some. setoid_rewrite domain_of_member. naive_solver.
Qed.

(** The control domains of the voters. *)
Definition domains : gset Z := list_to_set (control_domain_id <$> members r).

Lemma elem_of_domains d : d ∈ domains <-> exists c, domain_of r c = Some d.
Proof.
  unfold domains. rewrite elem_of_list_to_set, list_elem_of_fmap.
  setoid_rewrite domain_of_member. naive_solver.
Qed.

Lemma size_domains : size domains = roster_len r.
Proof.
  unfold domains, roster_len. rewrite size_list_to_set by apply (rw_domains r Hr).
  by rewrite length_fmap.
Qed.

Lemma quorum_majority : (roster_len r < 2 * quorum_size r)%nat.
Proof.
  unfold quorum_size, roster_len. pose proof (Nat.div_mod_eq (length (members r)) 2) as Hd.
  pose proof (Nat.mod_upper_bound (length (members r)) 2). lia.
Qed.

(** Two sets of domains that each make a quorum share the domain of a voter. *)
Lemma quorums_intersect (A B : gset Z) :
  A ⊆ domains -> B ⊆ domains -> (quorum_size r <= size A)%nat -> (quorum_size r <= size B)%nat ->
  exists c d, domain_of r c = Some d /\ d ∈ A /\ d ∈ B.
Proof.
  intros HA HB HqA HqB.
  destruct (decide (A ∩ B = ∅)) as [Hempty|Hne].
  - exfalso. assert (size (A ∪ B) <= size domains)%nat as Hle by (apply subseteq_size; set_solver).
    rewrite size_union in Hle by set_solver. rewrite size_domains in Hle.
    pose proof quorum_majority. lia.
  - apply set_choose_L in Hne as [d Hd]. apply elem_of_intersection in Hd as [HdA HdB].
    destruct (proj1 (elem_of_domains d)) as [c Hc]; [set_solver|]. eauto.
Qed.
End lookups.

(** ** Timing *)

Record ConsensusTimingConfig := {
  heartbeat_interval_ticks : Z;
  leader_lease_ticks : Z;
  election_timeout_ticks : Z;
  max_snapshot_chunk_bytes : nat;
}.

Definition DEFAULT_SNAPSHOT_CHUNK_BYTES : nat := (16 * 1024)%nat.

Definition timing_validate (t : ConsensusTimingConfig) :
    result ConsensusConfigError ConsensusTimingConfig :=
  if bool_decide (heartbeat_interval_ticks t = 0)
     || bool_decide (leader_lease_ticks t <= heartbeat_interval_ticks t)
     || bool_decide (election_timeout_ticks t <= leader_lease_ticks t)
  then Err (InvalidTimingBounds (heartbeat_interval_ticks t) (leader_lease_ticks t)
              (election_timeout_ticks t))
  else Ok t.

Definition timing_default : ConsensusTimingConfig := {|
  heartbeat_interval_ticks := 2;
  leader_lease_ticks := 5;
  election_timeout_ticks := 10;
  max_snapshot_chunk_bytes := DEFAULT_SNAPSHOT_CHUNK_BYTES;
|}.

(** [iter().position(..)] *)
Fixpoint position {A} (f : A -> bool) (l : list A) : option nat :=
  match l with
  | [] => None
  | a :: l => if f a then Some 0%nat else S <$> position f l
  end.

Definition staggered_timing_for_roster (local_id : Z) (r : ValidatedVoterRoster) :
    ConsensusTimingConfig :=
  let rank := default 0%nat
    (position (fun m => bool_decide (cell_identity m = local_id)) (members r)) in
  let rank_u32 := if decide (Z.of_nat rank <= u32_max) then Z.of_nat rank else 0 in
  {|
    heartbeat_interval_ticks := 2;
    leader_lease_ticks := 6;
    election_timeout_ticks := saturating_add32 12 (saturating_mul32 rank_u32 6);
    max_snapshot_chunk_bytes := DEFAULT_SNAPSHOT_CHUNK_BYTES;
  |}.

Lemma position_keyed (l : list VoterReplica) c i :
  position (fun m => bool_decide (cell_identity m = c)) l = Some i ->
  exists v, l !! i = Some v /\ cell_identity v = c.
Proof.
  revert i. induction l as [|v l IH]; intros i; simpl; [done|].
  case_bool_decide as Hv; [intros [= <-]; eauto|].
  intros (j & Hj & ->)%fmap_Some. by apply IH.
Qed.

Lemma position_member (l : list VoterReplica) c :
  c ∈ cell_identity <$> l ->
  is_Some (position (fun m => bool_decide (cell_identity m = c)) l).
Proof.
  induction l as [|v l IH]; simpl; [by intros ?%elem_of_nil|].
  case_bool_decide as Hv; [eauto|]. intros [?|Hl]%elem_of_cons; [congruence|].
  destruct (IH Hl) as [i ->]. simpl. eauto.
Qed.

(** ** Theorems *)

(** Roster validation is exact. [ValidatedVoterRoster::new] accepts a voter
    list precisely when it is non-empty, its cells are distinct, no two voters
    share a control domain and there are not two voters; what it returns holds
    the same voters, sorted by cell. *)
Theorem roster_new_exact voters :
  (exists r, roster_new voters = Ok r /\ members r ≡ₚ voters
     /\ StronglySorted voter_le (members r))
  <-> voters <> [] /\ NoDup (cell_identity <$> voters)
      /\ NoDup (control_domain_id <$> voters) /\ length voters <> 2%nat.
Proof.
  split.
  - intros (r & Hnew & Hp & _). destruct (roster_new_wf _ _ Hnew) as [[H1 H2 H3 _] _].
    unfold roster_len in H3. rewrite Hp in H1, H2, H3. split_and!; [by intros ->|done..|lia].
  - intros (Hne & H1 & H2 & H3). unfold roster_new. destruct voters as [|v0 vs]; [done|].
    rewrite check_voters_complete; [|done|set_solver|].
    + rewrite decide_False by done. eexists. split; [done|]. simpl. split.
      * apply merge_sort_Permutation.
      * apply StronglySorted_merge_sort; apply _.
    + intros _. split; [done|]. intros v _. apply lookup_empty.
Qed.

(** Quorums intersect. In a roster that validation accepted, two sets of
    control domains of voters that each reach [quorum_size] have a voter in
    common, and a control domain identifies its voter. *)
Theorem accepted_quorums_intersect voters r (A B : gset Z) :
  roster_new voters = Ok r ->
  (forall d, d ∈ A ∪ B -> exists c, domain_of r c = Some d) ->
  (quorum_size r <= size A)%nat -> (quorum_size r <= size B)%nat ->
  exists c d, domain_of r c = Some d /\ d ∈ A /\ d ∈ B
    /\ forall c', domain_of r c' = Some d -> c' = c.
Proof.
  intros [Hr _]%roster_new_wf Hsub HqA HqB.
  destruct (quorums_intersect r Hr A B) as (c & d & Hc & HA & HB); [..|done|done|].
  - intros d Hd. apply (elem_of_domains r Hr), Hsub. set_solver.
  - intros d Hd. apply (elem_of_domains r Hr), Hsub. set_solver.
  - exists c, d. split_and!; [done..|]. intros c' Hc'. by eapply (domain_of_inj r Hr).
Qed.

(** Staggered timing is valid and separates the voters. For an accepted
    roster every voter's timing passes validation, and two different voters get
    election timeouts at least six ticks apart, as long as the roster is small
    enough for the timeouts to fit in 32 bits. *)
Theorem staggered_timing_separates voters r v w :
  roster_new voters = Ok r -> Z.of_nat (length voters) <= 715827880 ->
  v ∈ voters -> w ∈ voters -> cell_identity v <> cell_identity w ->
  let t v := staggered_timing_for_roster (cell_identity v) r in
  timing_validate (t v) = Ok (t v)
  /\ 6 <= Z.abs (election_timeout_ticks (t v) - election_timeout_ticks (t w)).
Proof.
  intros [Hr Hp]%roster_new_wf Hlen Hv Hw Hne t. subst t. cbv beta.
  assert (forall u, u ∈ voters -> exists i,
    election_timeout_ticks (staggered_timing_for_roster (cell_identity u) r) = 12 + 6 * Z.of_nat i
    /\ exists u', members r !! i = Some u' /\ cell_identity u' = cell_identity u) as Htime.
  { intros u Hu. destruct (position_member (members r) (cell_identity u)) as [i Hi].
    { rewrite Hp. by apply list_elem_of_fmap_2. }
    pose proof (position_keyed _ _ _ Hi) as (u' & Hu' & Hcu).
    exists i. split; [|eauto]. apply lookup_lt_Some in Hu'. rewrite Hp in Hu'.
    unfold staggered_timing_for_roster. rewrite Hi. simpl.
    rewrite decide_True by (width; lia). unfold saturating_add32, saturating_mul32. width. lia. }
  destruct (Htime v Hv) as (i & Hti & u & Hu & Hcu), (Htime w Hw) as (j & Htj & x & Hx & Hcx).
  split.
  - unfold timing_validate. rewrite Hti. simpl. by rewrite bool_decide_eq_false_2 by lia.
  - rewrite Hti, Htj. assert (i <> j) by congruence. lia.
Qed.

(** ** A three-voter roster *)

Definition sample_voters : list VoterReplica :=
  (fun i => {| cell_identity := i; control_domain_id := 100 + i |}) <$> [3; 1; 2].
Definition sample_roster : ValidatedVoterRoster := {| members :=
  (fun i => {| cell_identity := i; control_domain_id := 100 + i |}) <$> [1; 2; 3] |}.

Lemma sample_roster_new : roster_new sample_voters = Ok sample_roster.
Proof. vm_compute. reflexivity. Qed.

Lemma accepted_quorums_intersect_witness :
  exists c d, domain_of sample_roster c = Some d
    /\ d ∈ ({[101; 102]} : gset Z) /\ d ∈ ({[102; 103]} : gset Z)
    /\ forall c', domain_of sample_roster c' = Some d -> c' = c.
Proof.
  apply (accepted_quorums_intersect sample_voters sample_roster {[101; 102]} {[102; 103]});
    [exact sample_roster_new| |vm_compute; lia|vm_compute; lia].
  intros d Hd. exists (d - 100). assert (d = 101 \/ d = 102 \/ d = 103) as Hor by set_solver.
  destruct Hor as [->|[->| ->]]; vm_compute; reflexivity.
Defined.

Lemma staggered_timing_separates_witness :
  let t v := staggered_timing_for_roster (cell_identity v) sample_roster in
  let v := {| cell_identity := 1; control_domain_id := 101 |} in
  let w := {| cell_identity := 3; control_domain_id := 103 |} in
  timing_validate (t v) = Ok (t v)
  /\ 6 <= Z.abs (election_timeout_ticks (t v) - election_timeout_ticks (t w)).
Proof.
  apply (staggered_timing_separates sample_voters sample_roster
    {| cell_identity := 1; control_domain_id := 101 |}
    {| cell_identity := 3; control_domain_id := 103 |});
    [exact sample_roster_new|simpl; lia|by repeat constructor|by repeat constructor|done].
Defined.
