(* ===== verification/RaftTypes.v ===== *)
(** * RaftTypes: the data of the consensus core

    Log entries, snapshot metadata, messages, inputs, effects and the replica
    state [ConsensusCore] of nlos-consensus/src/core.rs, with the constructor of
    a fresh replica and its rehydration from durable state. *)

From S2P Require Import Prelude Bytes Commands Roster.

(** ** Log entries *)

Record RaftLogEntry := {
  e_index : Z;
  e_term : Z;
  e_proposal : ControlPlaneProposal;
  e_sha256 : Z;
}.

#[export] Instance entry_eq_dec : EqDecision RaftLogEntry.
Proof. solve_decision. Defined.

Definition LOG_ENTRY_HASH_DOMAIN : bytes :=
  Eval vm_compute in bytes_of_string "llmos/consensus/log-entry/v1".
Definition SNAPSHOT_WIRE_HASH_DOMAIN : bytes :=
  Eval vm_compute in bytes_of_string "llmos/consensus/install-snapshot/v1".

Section hashes.
Context `{Sha256}.

Definition compute_log_entry_sha256 (log_index term command_kind idempotency_key : Z)
    (payload_bytes : bytes) : Z :=
  sha256 (LOG_ENTRY_HASH_DOMAIN ++ be_bytes 8 log_index ++ be_bytes 8 term ++ [command_kind]
    ++ be_bytes 16 idempotency_key ++ be_bytes 8 (Z.of_nat (length payload_bytes))
    ++ payload_bytes).

Definition compute_snapshot_transfer_sha256 (included_index included_term state_root_digest : Z)
    (snapshot_bytes : bytes) : Z :=
  sha256 (SNAPSHOT_WIRE_HASH_DOMAIN ++ be_bytes 8 included_index ++ be_bytes 8 included_term
    ++ be_bytes 32 state_root_digest ++ be_bytes 8 (Z.of_nat (length snapshot_bytes))
    ++ snapshot_bytes).

(** The digest both [RaftLogEntry::new] and [verify_integrity] compute. *)
Definition entry_digest (index term : Z) (p : ControlPlaneProposal) : Z :=
  compute_log_entry_sha256 index term (family_as_u8 (family_code (command p)))
    (idempotency_key p) (encode_command_body p).

Definition entry_new (index term : Z) (p : ControlPlaneProposal) : RaftLogEntry :=
  {| e_index := index; e_term := term; e_proposal := p; e_sha256 := entry_digest index term p |}.

Definition verify_integrity (e : RaftLogEntry) : bool :=
  bool_decide (e_sha256 e = entry_digest (e_index e) (e_term e) (e_proposal e)).

Lemma entry_new_verifies index term p : verify_integrity (entry_new index term p) = true.
Proof. unfold verify_integrity. by apply bool_decide_eq_true. Qed.
End hashes.

Record SnapshotMetadata := {
  included_index : Z;
  included_term : Z;
  state_root : Z;
}.

#[export] Instance snapshot_meta_eq_dec : EqDecision SnapshotMetadata.
Proof. solve_decision. Defined.

(** ** Roles, leases, messages *)

Inductive ConsensusRole := Follower | PreCandidate | Candidate | Leader.

#[export] Instance role_eq_dec : EqDecision ConsensusRole.
Proof. solve_decision. Defined.

Record TermBoundLeaderLease := {
  ll_term : Z;
  ll_remaining_ticks : Z;
  ll_last_confirmed_round : Z;
}.

Inductive RaftMessage :=
  | RequestPreVote (prospective_term candidate_id last_log_index last_log_term : Z)
  | RequestPreVoteResponse (term prospective_term voter_id : Z) (vote_granted : bool)
  | RequestVote (term candidate_id last_log_index last_log_term : Z)
  | RequestVoteResponse (term voter_id : Z) (vote_granted : bool)
  | AppendEntries (term leader_id prev_log_index prev_log_term : Z)
      (entries : list RaftLogEntry) (leader_commit quorum_round_id : Z)
  | AppendEntriesResponse (term follower_id : Z) (success : bool) (match_index : Z)
      (conflict_term : option Z) (conflict_index quorum_round_id : Z)
  | InstallSnapshotChunk (term leader_id last_included_index last_included_term
      state_root_digest snapshot_sha256 total_bytes offset : Z) (chunk_data : bytes)
      (done : bool)
  | InstallSnapshotResponse (term follower_id last_included_index next_offset : Z)
      (installed : bool).

#[export] Instance message_eq_dec : EqDecision RaftMessage.
Proof. solve_decision. Defined.

Inductive ProposalRejectReason :=
  | StaleLeaderTerm (attempted_term current_term : Z) (known_leader : option Z)
  | NotLeader (known_leader : option Z) (current_term : Z).

Inductive ConsensusInput :=
  | Tick
  | Propose (proposal : ControlPlaneProposal) (expected_leader_term : option Z)
  | RequestLinearizableRead (read_id : Z) (expected_leader_term : option Z)
  | ReceiveMessage (from : Z) (message : RaftMessage).

Inductive ConsensusEffect :=
  | PersistHardState (current_term : Z) (voted_for : option Z)
  | InstallSnapshot (meta : SnapshotMetadata) (snapshot_bytes : bytes)
  | TruncateLogSuffixFrom (from_index : Z)
  | AppendLogEntries (entries : list RaftLogEntry)
  | AdvanceCommitIndex (commit_index term : Z) (newly_committed : list RaftLogEntry)
  | LeaderSteppedDown (aborted_term new_term : Z)
  | LinearizableReadConfirmed (read_id confirmed_term commit_index : Z)
  | ProposalRejected (read_id : option Z) (reason : ProposalRejectReason)
  | SendMessage (target : Z) (message : RaftMessage).

(** ** The replica *)

Record PendingQuorumRound := {
  pr_term : Z;
  pr_commit_index_at_issue : Z;
  pr_acked_domains : gset Z;
  pr_waiting_read_ids : list Z;
}.

Record InboundSnapshotStaging := {
  st_term : Z;
  st_leader_id : Z;
  st_last_included_index : Z;
  st_last_included_term : Z;
  st_state_root_digest : Z;
  st_snapshot_sha256 : Z;
  st_total_bytes : Z;
  st_buffer : bytes;
}.

Record RehydratedCoreState := {
  rh_current_term : Z;
  rh_voted_for : option Z;
  rh_commit_index : Z;
  rh_snapshot : option (SnapshotMetadata * bytes);
  rh_log_tail : list RaftLogEntry;
}.

Record ConsensusCore := {
  local_id : Z;
  local_domain : Z;
  roster : ValidatedVoterRoster;
  timing : ConsensusTimingConfig;
  role : ConsensusRole;
  current_term : Z;
  voted_for : option Z;
  known_leader : option Z;
  former_leader_term : option Z;
  snapshot_meta : option SnapshotMetadata;
  snapshot_bytes : option bytes;
  log_tail : list RaftLogEntry;
  commit_index : Z;
  ticks_since_leader_contact : Z;
  ticks_since_heartbeat_sent : Z;
  pre_vote_prospective_term : Z;
  pre_votes_granted_domains : gset Z;
  votes_granted_domains : gset Z;
  next_index : gmap Z Z;
  match_index : gmap Z Z;
  snapshot_send_offset : gmap Z Z;
  inbound_snapshot : option InboundSnapshotStaging;
  next_quorum_round_id : Z;
  quorum_rounds : gmap Z PendingQuorumRound;
  leader_lease : TermBoundLeaderLease;
}.

#[export] Instance eta_core : Eta ConsensusCore := fun c => {|
  local_id := local_id c;
  local_domain := local_domain c;
  roster := roster c;
  timing := timing c;
  role := role c;
  current_term := current_term c;
  voted_for := voted_for c;
  known_leader := known_leader c;
  former_leader_term := former_leader_term c;
  snapshot_meta := snapshot_meta c;
  snapshot_bytes := snapshot_bytes c;
  log_tail := log_tail c;
  commit_index := commit_index c;
  ticks_since_leader_contact := ticks_since_leader_contact c;
  ticks_since_heartbeat_sent := ticks_since_heartbeat_sent c;
  pre_vote_prospective_term := pre_vote_prospective_term c;
  pre_votes_granted_domains := pre_votes_granted_domains c;
  votes_granted_domains := votes_granted_domains c;
  next_index := next_index c;
  match_index := match_index c;
  snapshot_send_offset := snapshot_send_offset c;
  inbound_snapshot := inbound_snapshot c;
  next_quorum_round_id := next_quorum_round_id c;
  quorum_rounds := quorum_rounds c;
  leader_lease := leader_lease c;
|}.

#[export] Instance set_role : Setter role. Proof. build_setter. Defined.
#[export] Instance set_current_term : Setter current_term. Proof. build_setter. Defined.
#[export] Instance set_voted_for : Setter voted_for. Proof. build_setter. Defined.
#[export] Instance set_known_leader : Setter known_leader. Proof. build_setter. Defined.
#[export] Instance set_former_leader_term : Setter former_leader_term. Proof. build_setter. Defined.
#[export] Instance set_snapshot_meta : Setter snapshot_meta. Proof. build_setter. Defined.
#[export] Instance set_snapshot_bytes : Setter snapshot_bytes. Proof. build_setter. Defined.
#[export] Instance set_log_tail : Setter log_tail. Proof. build_setter. Defined.
#[export] Instance set_commit_index : Setter commit_index. Proof. build_setter. Defined.
#[export] Instance set_ticks_since_leader_contact : Setter ticks_since_leader_contact. Proof. build_setter. Defined.
#[export] Instance set_ticks_since_heartbeat_sent : Setter ticks_since_heartbeat_sent. Proof. build_setter. Defined.
#[export] Instance set_pre_vote_prospective_term : Setter pre_vote_prospective_term. Proof. build_setter. Defined.
#[export] Instance set_pre_votes_granted_domains : Setter pre_votes_granted_domains. Proof. build_setter. Defined.
#[export] Instance set_votes_granted_domains : Setter votes_granted_domains. Proof. build_setter. Defined.
#[export] Instance set_next_index : Setter next_index. Proof. build_setter. Defined.
#[export] Instance set_match_index : Setter match_index. Proof. build_setter. Defined.
#[export] Instance set_snapshot_send_offset : Setter snapshot_send_offset. Proof. build_setter. Defined.
#[export] Instance set_inbound_snapshot : Setter inbound_snapshot. Proof. build_setter. Defined.
#[export] Instance set_next_quorum_round_id : Setter next_quorum_round_id. Proof. build_setter. Defined.
#[export] Instance set_quorum_rounds : Setter quorum_rounds. Proof. build_setter. Defined.
#[export] Instance set_leader_lease : Setter leader_lease. Proof. build_setter. Defined.

(** ** Construction *)

(** The part of the initial state common to both branches of [ConsensusCore::new]. *)
Definition blank_core (local domain : Z) (r : ValidatedVoterRoster) (t : ConsensusTimingConfig) :
    ConsensusCore := {|
  local_id := local;
  local_domain := domain;
  roster := r;
  timing := t;
  role := Follower;
  current_term := 0;
  voted_for := None;
  known_leader := None;
  former_leader_term := None;
  snapshot_meta := None;
  snapshot_bytes := None;
  log_tail := [];
  commit_index := 0;
  ticks_since_leader_contact := 0;
  ticks_since_heartbeat_sent := 0;
  pre_vote_prospective_term := 0;
  pre_votes_granted_domains := ∅;
  votes_granted_domains := ∅;
  next_index := ∅;
  match_index := ∅;
  snapshot_send_offset := ∅;
  inbound_snapshot := None;
  next_quorum_round_id := 1;
  quorum_rounds := ∅;
  leader_lease := {| ll_term := 0; ll_remaining_ticks := 0; ll_last_confirmed_round := 0 |};
|}.

(** [ConsensusCore::new] *)
Definition core_new (local : Z) (r : ValidatedVoterRoster) (t : ConsensusTimingConfig) :
    result ConsensusConfigError ConsensusCore :=
  match timing_validate t with
  | Err e => Err e
  | Ok t =>
      match domain_of r local with
      | None => Err (LocalCellNotInRoster local)
      | Some domain =>
          let c := blank_core local domain r t in
          if decide (roster_len r = 1%nat) then
            Ok (c <| role := Leader |> <| current_term := 1 |> <| voted_for := Some local |>
              <| known_leader := Some local |> <| votes_granted_domains := {[domain]} |>
              <| next_index := {[local := 1]} |> <| match_index := {[local := 0]} |>
              <| leader_lease := {| ll_term := 1; ll_remaining_ticks := leader_lease_ticks t;
                                    ll_last_confirmed_round := 0 |} |>)
          else Ok c
      end
  end.

(** ** Log accessors *)

Definition first_uncompacted_index (c : ConsensusCore) : Z :=
  from_option (fun m => saturating_add64 (included_index m) 1) 1 (snapshot_meta c).

Definition last_log_index (c : ConsensusCore) : Z :=
  match last (log_tail c) with
  | Some e => e_index e
  | None => from_option included_index 0 (snapshot_meta c)
  end.

Definition last_log_term (c : ConsensusCore) : Z :=
  match last (log_tail c) with
  | Some e => e_term e
  | None => from_option included_term 0 (snapshot_meta c)
  end.

(** The entry of [log_tail] at position [index - first_uncompacted_index]. *)
Definition tail_get (c : ConsensusCore) (index : Z) : option RaftLogEntry :=
  let base := first_uncompacted_index c in
  if decide (base <= index) then log_tail c !! Z.to_nat (index - base) else None.

Definition term_at (c : ConsensusCore) (index : Z) : option Z :=
  if decide (index = 0) then Some 0 else
  match snapshot_meta c with
  | Some meta =>
      if decide (index = included_index meta) then Some (included_term meta) else
      if decide (index < included_index meta) then None else e_term <$> tail_get c index
  | None => e_term <$> tail_get c index
  end.

(** [ConsensusCore::rehydrate] *)
Definition rehydrate (local : Z) (r : ValidatedVoterRoster) (t : ConsensusTimingConfig)
    (state : RehydratedCoreState) : result ConsensusConfigError ConsensusCore :=
  match core_new local r t with
  | Err e => Err e
  | Ok core =>
      let snap_meta := fst <$> rh_snapshot state in
      let min_commit := from_option included_index 0 snap_meta in
      let core := core <| snapshot_meta := snap_meta |>
        <| snapshot_bytes := snd <$> rh_snapshot state |>
        <| log_tail := rh_log_tail state |>
        <| commit_index := Z.max (rh_commit_index state) min_commit |> in
      if decide (roster_len r = 1%nat) then
        let last := last_log_index core in
        Ok (core <| current_term := Z.max (rh_current_term state) 1 |>
          <| voted_for := Some local |> <| role := Leader |> <| known_leader := Some local |>
          <| commit_index := last |>
          <| match_index := <[local := last]> (match_index core) |>
          <| next_index := <[local := saturating_add64 last 1]> (next_index core) |>)
      else
        Ok (core <| current_term := rh_current_term state |>
          <| voted_for := rh_voted_for state |> <| role := Follower |>
          <| known_leader := None |>)
  end.

(** [record_local_snapshot]: the new state and the returned flag. *)
Definition record_local_snapshot (c : ConsensusCore) (meta : SnapshotMetadata) (bs : bytes)
    (compact_up_to : Z) : ConsensusCore * bool :=
  if bool_decide (included_index meta = 0) || bool_decide (included_index meta > commit_index c)
  then (c, false) else
  let stale :=
    match snapshot_meta c with
    | Some existing => bool_decide (included_index meta < included_index existing)
    | None => false
    end in
  if stale then (c, false) else
  let target_compact := Z.min compact_up_to (included_index meta) in
  let c := c <| log_tail := filter (fun e => e_index e > target_compact) (log_tail c) |> in
  if decide (target_compact = included_index meta) then
    (c <| snapshot_meta := Some meta |> <| snapshot_bytes := Some bs |>
       <| snapshot_send_offset := ∅ |>, true)
  else (c, true).
