(* ===== verification/RaftCore.v ===== *)
(** * RaftCore: the deterministic transition function of a replica

    Models [ConsensusCore::step] of nlos-consensus/src/core.rs and every handler
    it dispatches to. A handler takes the replica state and returns the new
    state with the effects it emits, in the order of the source. [usize] is 64
    bits wide. *)

From S2P Require Import Prelude Bytes Commands Roster RaftTypes.

Abbreviation stepped := (ConsensusCore * list ConsensusEffect)%type.

Section core.
Context `{Sha256}.
Implicit Types (c : ConsensusCore).

(** ** Shared helpers *)

Definition collect_range c (start_inclusive end_inclusive : Z) : list RaftLogEntry :=
  if decide (start_inclusive > end_inclusive) then []
  else filter (fun e => e_index e >= start_inclusive /\ e_index e <= end_inclusive) (log_tail c).

(** The voters other than this replica, in roster order. *)
Definition peers c : list Z :=
  filter (fun id => id <> local_id c) (cell_identity <$> members (roster c)).

Definition build_replication_for_peer c (peer quorum_round_id : Z) : ConsensusEffect :=
  let next_idx := Z.max
    (default (saturating_add64 (last_log_index c) 1) (next_index c !! peer)) 1 in
  let append :=
    let prev_log_index := next_idx - 1 in
    let prev_log_term := default 0 (term_at c prev_log_index) in
    let entries := collect_range c next_idx (last_log_index c) in
    SendMessage peer (AppendEntries (current_term c) (local_id c) prev_log_index prev_log_term
      entries (commit_index c) quorum_round_id) in
  match snapshot_meta c, snapshot_bytes c with
  | Some meta, Some snap_bytes =>
      if decide (next_idx <= included_index meta) then
        let total_bytes := Z.of_nat (length snap_bytes) in
        let raw_offset := default 0 (snapshot_send_offset c !! peer) in
        let offset_usize := Nat.min (Z.to_nat raw_offset) (length snap_bytes) in
        let chunk_cap := Nat.max (max_snapshot_chunk_bytes (timing c)) 64 in
        let end_usize := Nat.min (offset_usize + chunk_cap) (length snap_bytes) in
        let chunk_data := slice offset_usize end_usize snap_bytes in
        let done := bool_decide (length snap_bytes <= end_usize)%nat in
        let snapshot_sha256 := compute_snapshot_transfer_sha256 (included_index meta)
          (included_term meta) (state_root meta) snap_bytes in
        SendMessage peer (InstallSnapshotChunk (current_term c) (local_id c)
          (included_index meta) (included_term meta) (state_root meta) snapshot_sha256
          total_bytes (Z.of_nat offset_usize) chunk_data done)
      else append
  | _, _ => append
  end.

Definition broadcast_replication_or_heartbeat c (quorum_round_id : Z) : list ConsensusEffect :=
  (fun peer => build_replication_for_peer c peer quorum_round_id) <$> peers c.

(** The new state and the round id. *)
Definition allocate_quorum_round c (read_id : option Z) : ConsensusCore * Z :=
  let round_id := next_quorum_round_id c in
  let rounds := quorum_rounds c in
  let rounds :=
    if decide (256 <= size rounds)%nat then
      match List.find (fun kr => bool_decide (pr_waiting_read_ids kr.2 = [])) (btree_iter rounds) with
      | Some (oldest_key, _) => delete oldest_key rounds
      | None => rounds
      end
    else rounds in
  (c <| next_quorum_round_id := saturating_add64 (next_quorum_round_id c) 1 |>
     <| quorum_rounds := <[round_id := {|
          pr_term := current_term c;
          pr_commit_index_at_issue := commit_index c;
          pr_acked_domains := {[local_domain c]};
          pr_waiting_read_ids := option_list read_id;
        |}]> rounds |>, round_id).

(** ** Elections *)

Definition start_pre_vote c : stepped :=
  let prospective_term := saturating_add64 (current_term c) 1 in
  let c := c <| role := PreCandidate |> <| known_leader := None |>
    <| ticks_since_leader_contact := 0 |>
    <| pre_vote_prospective_term := prospective_term |>
    <| pre_votes_granted_domains := {[local_domain c]} |> in
  (c, (fun peer => SendMessage peer (RequestPreVote prospective_term (local_id c)
         (last_log_index c) (last_log_term c))) <$> peers c).

Definition start_real_election c : stepped :=
  let c := c <| current_term := saturating_add64 (current_term c) 1 |> in
  let c := c <| role := Candidate |> <| voted_for := Some (local_id c) |>
    <| known_leader := None |> <| ticks_since_leader_contact := 0 |>
    <| pre_votes_granted_domains := ∅ |>
    <| votes_granted_domains := {[local_domain c]} |>
    <| quorum_rounds := ∅ |>
    <| leader_lease := {| ll_term := current_term c; ll_remaining_ticks := 0;
                          ll_last_confirmed_round := 0 |} |> in
  (c, PersistHardState (current_term c) (voted_for c) ::
      ((fun peer => SendMessage peer (RequestVote (current_term c) (local_id c)
         (last_log_index c) (last_log_term c))) <$> peers c)).

Definition on_tick c : stepped :=
  if decide (roster_len (roster c) = 1%nat) then (c, []) else
  let lease := leader_lease c in
  let c :=
    if decide (ll_remaining_ticks lease > 0) then
      c <| leader_lease := {| ll_term := ll_term lease;
             ll_remaining_ticks := ll_remaining_ticks lease - 1;
             ll_last_confirmed_round := ll_last_confirmed_round lease |} |>
    else c in
  match role c with
  | Leader =>
      let c := c <| ticks_since_heartbeat_sent :=
        saturating_add32 (ticks_since_heartbeat_sent c) 1 |> in
      if decide (ticks_since_heartbeat_sent c >= heartbeat_interval_ticks (timing c)) then
        let c := c <| ticks_since_heartbeat_sent := 0 |> in
        let '(c, round_id) := allocate_quorum_round c None in
        (c, broadcast_replication_or_heartbeat c round_id)
      else (c, [])
  | Follower | PreCandidate | Candidate =>
      let c := c <| ticks_since_leader_contact :=
        saturating_add32 (ticks_since_leader_contact c) 1 |> in
      if decide (ticks_since_leader_contact c >= election_timeout_ticks (timing c))
      then start_pre_vote c else (c, [])
  end.

Definition step_down_to_higher_term c (higher_term : Z) : stepped :=
  let was_leader := bool_decide (role c = Leader) in
  let old_term := current_term c in
  let c := if was_leader then c <| former_leader_term := Some old_term |> else c in
  let aborted_reads := concat (pr_waiting_read_ids <$> btree_values (quorum_rounds c)) in
  let c := c <| quorum_rounds := ∅ |> <| current_term := higher_term |> <| role := Follower |>
    <| voted_for := None |> <| known_leader := None |> <| pre_votes_granted_domains := ∅ |>
    <| votes_granted_domains := ∅ |> <| snapshot_send_offset := ∅ |>
    <| leader_lease := {| ll_term := higher_term; ll_remaining_ticks := 0;
                          ll_last_confirmed_round := 0 |} |> in
  (c, [PersistHardState higher_term None]
      ++ (if was_leader then [LeaderSteppedDown old_term higher_term] else [])
      ++ ((fun rid => ProposalRejected (Some rid) (StaleLeaderTerm old_term higher_term None))
            <$> aborted_reads)).

(** [(cand_last_term, cand_last_index) >= (self.last_log_term(), self.last_log_index())] *)
Definition log_up_to_date c (cand_last_index cand_last_term : Z) : bool :=
  bool_decide (last_log_term c < cand_last_term
    \/ (last_log_term c = cand_last_term /\ last_log_index c <= cand_last_index)).

Definition on_request_pre_vote c (prospective_term candidate_id cand_last_index
    cand_last_term : Z) : list ConsensusEffect :=
  let heard_live_leader_recently :=
    bool_decide (role c = Leader)
    || (bool_decide (is_Some (known_leader c))
        && bool_decide (ticks_since_leader_contact c < leader_lease_ticks (timing c))) in
  let granted := bool_decide (prospective_term > current_term c)
    && negb heard_live_leader_recently && log_up_to_date c cand_last_index cand_last_term in
  [SendMessage candidate_id (RequestPreVoteResponse (current_term c) prospective_term
     (local_id c) granted)].

Definition on_request_pre_vote_response c (responder_term prospective_term voter_id : Z)
    (vote_granted : bool) : stepped :=
  if decide (responder_term > current_term c) then step_down_to_higher_term c responder_term else
  if bool_decide (role c <> PreCandidate)
     || bool_decide (prospective_term <> pre_vote_prospective_term c)
     || bool_decide (prospective_term <> saturating_add64 (current_term c) 1)
  then (c, []) else
  let c :=
    match domain_of (roster c) voter_id with
    | Some domain =>
        if vote_granted
        then c <| pre_votes_granted_domains := {[domain]} ∪ pre_votes_granted_domains c |> else c
    | None => c
    end in
  if decide (quorum_size (roster c) <= size (pre_votes_granted_domains c))%nat
  then start_real_election c else (c, []).

Definition on_request_vote c (term candidate_id cand_last_index cand_last_term : Z) : stepped :=
  let '(c, effects) :=
    if decide (term > current_term c) then step_down_to_higher_term c term else (c, []) in
  if decide (term < current_term c) then
    (c, effects ++ [SendMessage candidate_id
           (RequestVoteResponse (current_term c) (local_id c) false)])
  else
    let vote_available :=
      bool_decide (voted_for c = None) || bool_decide (voted_for c = Some candidate_id) in
    let granted := vote_available && log_up_to_date c cand_last_index cand_last_term in
    let '(c, effects) :=
      if granted then
        (c <| voted_for := Some candidate_id |> <| ticks_since_leader_contact := 0 |>,
         effects ++ [PersistHardState (current_term c) (Some candidate_id)])
      else (c, effects) in
    (c, effects ++ [SendMessage candidate_id
           (RequestVoteResponse (current_term c) (local_id c) granted)]).

Definition become_leader c : stepped :=
  let last_idx := last_log_index c in
  let next_idx := saturating_add64 last_idx 1 in
  let c := c <| role := Leader |> <| known_leader := Some (local_id c) |>
    <| former_leader_term := None |> <| ticks_since_heartbeat_sent := 0 |>
    <| snapshot_send_offset := ∅ |>
    <| next_index := foldl (fun m voter => <[cell_identity voter := next_idx]> m) ∅
         (members (roster c)) |>
    <| match_index := foldl (fun m voter => <[cell_identity voter :=
           if decide (cell_identity voter = local_id c) then last_idx else 0]> m) ∅
         (members (roster c)) |> in
  let '(c, round_id) := allocate_quorum_round c None in
  (c, broadcast_replication_or_heartbeat c round_id).

Definition on_request_vote_response c (term voter_id : Z) (vote_granted : bool) : stepped :=
  if decide (term > current_term c) then step_down_to_higher_term c term else
  if bool_decide (role c <> Candidate) || bool_decide (term <> current_term c) then (c, []) else
  let c :=
    match domain_of (roster c) voter_id with
    | Some domain =>
        if vote_granted
        then c <| votes_granted_domains := {[domain]} ∪ votes_granted_domains c |> else c
    | None => c
    end in
  if decide (quorum_size (roster c) <= size (votes_granted_domains c))%nat
  then become_leader c else (c, []).

(** ** Proposals and reads *)

Definition check_leader_gate c (expected_leader_term : option Z) :
    result ProposalRejectReason unit :=
  match expected_leader_term with
  | Some expected_term =>
      if decide (expected_term < current_term c)
      then Err (StaleLeaderTerm expected_term (current_term c) (known_leader c)) else
      if bool_decide (role c <> Leader) || bool_decide (expected_term <> current_term c)
      then Err (NotLeader (known_leader c) (current_term c)) else Ok tt
  | None =>
      if decide (role c <> Leader) then
        match former_leader_term c with
        | Some old_term =>
            if bool_decide (old_term < current_term c)
               && bool_decide (known_leader c <> Some (local_id c))
            then Err (StaleLeaderTerm old_term (current_term c) (known_leader c))
            else Err (NotLeader (known_leader c) (current_term c))
        | None => Err (NotLeader (known_leader c) (current_term c))
        end
      else Ok tt
  end.

Definition on_propose c (proposal : ControlPlaneProposal) (expected_leader_term : option Z) :
    stepped :=
  match check_leader_gate c expected_leader_term with
  | Err reason => (c, [ProposalRejected None reason])
  | Ok _ =>
      let new_index := saturating_add64 (last_log_index c) 1 in
      let entry := entry_new new_index (current_term c) proposal in
      let c := c <| log_tail := log_tail c ++ [entry] |>
        <| match_index := <[local_id c := new_index]> (match_index c) |>
        <| next_index := <[local_id c := saturating_add64 new_index 1]> (next_index c) |> in
      let effects := [AppendLogEntries [entry]] in
      if decide (roster_len (roster c) = 1%nat) then
        let c := c <| commit_index := new_index |> in
        (c, effects ++ [AdvanceCommitIndex new_index (current_term c) [entry]])
      else
        let c := c <| ticks_since_heartbeat_sent := 0 |> in
        let '(c, round_id) := allocate_quorum_round c None in
        (c, effects ++ broadcast_replication_or_heartbeat c round_id)
  end.

Definition on_request_linearizable_read c (read_id : Z) (expected_leader_term : option Z) :
    stepped :=
  match check_leader_gate c expected_leader_term with
  | Err reason => (c, [ProposalRejected (Some read_id) reason])
  | Ok _ =>
      if decide (roster_len (roster c) = 1%nat) then
        (c, [LinearizableReadConfirmed read_id (current_term c) (commit_index c)])
      else
        let '(c, round_id) := allocate_quorum_round c (Some read_id) in
        let c := c <| ticks_since_heartbeat_sent := 0 |> in
        (c, broadcast_replication_or_heartbeat c round_id)
  end.

(** ** Replication, follower side *)

Definition append_response c (leader_id : Z) (success : bool) (match_index : Z)
    (conflict_term : option Z) (conflict_index quorum_round_id : Z) : ConsensusEffect :=
  SendMessage leader_id (AppendEntriesResponse (current_term c) (local_id c) success match_index
    conflict_term conflict_index quorum_round_id).

(** The [for entry in entries] loop of [reconcile_and_commit_entries]: the
    state, the effects so far, and the newly appended entries; [None] when a
    corrupt entry made the handler return. *)
Fixpoint reconcile_entries c (leader_id quorum_round_id : Z) (effects : list ConsensusEffect)
    (newly_appended : list RaftLogEntry) (entries : list RaftLogEntry) :
    ConsensusCore * list ConsensusEffect * option (list RaftLogEntry) :=
  match entries with
  | [] => (c, effects, Some newly_appended)
  | entry :: rest =>
      if negb (verify_integrity entry) then
        (c, effects ++ [append_response c leader_id false 0 None
               (saturating_add64 (commit_index c) 1) quorum_round_id], None)
      else
        let base := first_uncompacted_index c in
        if decide (e_index entry < base)
        then reconcile_entries c leader_id quorum_round_id effects newly_appended rest else
        let pos := Z.to_nat (e_index entry - base) in
        match log_tail c !! pos with
        | Some existing =>
            if bool_decide (e_term existing <> e_term entry)
               && bool_decide (e_index entry > commit_index c)
            then
              reconcile_entries (c <| log_tail := take pos (log_tail c) ++ [entry] |>)
                leader_id quorum_round_id (effects ++ [TruncateLogSuffixFrom (e_index entry)])
                (newly_appended ++ [entry]) rest
            else reconcile_entries c leader_id quorum_round_id effects newly_appended rest
        | None =>
            if decide (pos = length (log_tail c)) then
              reconcile_entries (c <| log_tail := log_tail c ++ [entry] |>)
                leader_id quorum_round_id effects (newly_appended ++ [entry]) rest
            else reconcile_entries c leader_id quorum_round_id effects newly_appended rest
        end
  end.

(** The commit part of [reconcile_and_commit_entries]. *)
Definition follower_advance_commit c (leader_commit : Z) : stepped :=
  if decide (leader_commit > commit_index c) then
    let new_commit := Z.min leader_commit (last_log_index c) in
    if decide (new_commit > commit_index c) then
      let old_commit := commit_index c in
      let c := c <| commit_index := new_commit |> in
      (c, [AdvanceCommitIndex new_commit (current_term c)
             (collect_range c (old_commit + 1) new_commit)])
    else (c, [])
  else (c, []).

Definition reconcile_and_commit_entries c (leader_id : Z) (entries : list RaftLogEntry)
    (leader_commit quorum_round_id : Z) (effects : list ConsensusEffect) : stepped :=
  match reconcile_entries c leader_id quorum_round_id effects [] entries with
  | (c, effects, None) => (c, effects)
  | (c, effects, Some newly_appended) =>
      let effects :=
        match newly_appended with
        | [] => effects
        | _ => effects ++ [AppendLogEntries newly_appended]
        end in
      let '(c, advance) := follower_advance_commit c leader_commit in
      (c, effects ++ advance
          ++ [append_response c leader_id true (last_log_index c) None 0 quorum_round_id])
  end.

Definition on_append_entries c (term leader_id prev_log_index prev_log_term : Z)
    (entries : list RaftLogEntry) (leader_commit quorum_round_id : Z) : stepped :=
  let '(c, effects) :=
    if decide (term > current_term c) then step_down_to_higher_term c term else (c, []) in
  if decide (term < current_term c) then
    (c, effects ++ [append_response c leader_id false 0 None
           (saturating_add64 (last_log_index c) 1) quorum_round_id])
  else
  let c := c <| role := Follower |> <| known_leader := Some leader_id |>
    <| ticks_since_leader_contact := 0 |> in
  let snapshot_idx := from_option included_index 0 (snapshot_meta c) in
  if decide (prev_log_index < snapshot_idx) then
    match filter (fun e => e_index e > snapshot_idx) entries with
    | [] =>
        (c, effects ++ [append_response c leader_id true (last_log_index c) None
               (saturating_add64 snapshot_idx 1) quorum_round_id])
    | (first :: _) as usable =>
        if decide (e_index first <> saturating_add64 snapshot_idx 1) then
          (c, effects ++ [append_response c leader_id false 0 None
                 (saturating_add64 snapshot_idx 1) quorum_round_id])
        else reconcile_and_commit_entries c leader_id usable leader_commit quorum_round_id effects
    end
  else
  match term_at c prev_log_index with
  | None =>
      (c, effects ++ [append_response c leader_id false 0 None
             (saturating_add64 (last_log_index c) 1) quorum_round_id])
  | Some local_prev_term =>
      if decide (local_prev_term <> prev_log_term) then
        let floor_idx := Z.max (saturating_add64 (commit_index c) 1) (first_uncompacted_index c) in
        let first_of_conflict_term := from_option e_index (Z.max prev_log_index floor_idx)
          (List.find (fun e => bool_decide (e_index e >= floor_idx)
                               && bool_decide (e_term e = local_prev_term)) (log_tail c)) in
        (c, effects ++ [append_response c leader_id false 0 (Some local_prev_term)
               first_of_conflict_term quorum_round_id])
      else reconcile_and_commit_entries c leader_id entries leader_commit quorum_round_id effects
  end.

(** ** Replication, leader side *)

(** The domains whose voter has replicated up to [idx]. *)
Definition replicated_domains c (idx : Z) : gset Z :=
  foldl (fun (s : gset Z) voter =>
    if decide (default 0 (match_index c !! cell_identity voter) >= idx)
    then {[control_domain_id voter]} ∪ s else s) ∅ (members (roster c)).

(** The loop body of [try_advance_leader_commit]: a candidate is taken when it
    is of the current term and a quorum of domains replicated it. *)
Definition commit_candidate c (idx : Z) : bool :=
  bool_decide (term_at c idx = Some (current_term c))
  && bool_decide (quorum_size (roster c) <= size (replicated_domains c idx))%nat.

Definition try_advance_leader_commit c : ConsensusCore * option ConsensusEffect :=
  let candidates := seqZ (commit_index c + 1) (last_log_index c - commit_index c) in
  let best_commit := foldl (fun best idx => if commit_candidate c idx then idx else best)
    (commit_index c) candidates in
  if decide (best_commit > commit_index c) then
    let old_commit := commit_index c in
    let c := c <| commit_index := best_commit |> in
    (c, Some (AdvanceCommitIndex best_commit (current_term c)
                (collect_range c (old_commit + 1) best_commit)))
  else (c, None).

Definition has_authoritative_commit_view_in_current_term c : bool :=
  (bool_decide (commit_index c = 0) && bool_decide (last_log_index c = 0))
  || bool_decide (term_at c (commit_index c) = Some (current_term c)).

(** The first loop of [sweep_confirmed_quorum_rounds]: the renewed lease and the
    confirmed keys. *)
Definition sweep_scan c : TermBoundLeaderLease * list Z :=
  let quorum := quorum_size (roster c) in
  let authoritative_view := has_authoritative_commit_view_in_current_term c in
  foldl (fun '(lease, keys) '(round_id, round) =>
    if bool_decide (pr_term round = current_term c)
       && bool_decide (quorum <= size (pr_acked_domains round))%nat
    then
      let lease :=
        if decide (round_id >= ll_last_confirmed_round lease) then
          {| ll_term := current_term c; ll_remaining_ticks := leader_lease_ticks (timing c);
             ll_last_confirmed_round := round_id |}
        else lease in
      (lease, if authoritative_view || bool_decide (pr_waiting_read_ids round = [])
              then keys ++ [round_id] else keys)
    else (lease, keys))
    (leader_lease c, []) (btree_iter (quorum_rounds c)).

(** The second loop: removing the confirmed rounds and confirming their reads. *)
Definition sweep_confirm c (key : Z) : stepped :=
  match quorum_rounds c !! key with
  | Some done_round =>
      let confirmed_idx := Z.max (commit_index c) (pr_commit_index_at_issue done_round) in
      (c <| quorum_rounds := delete key (quorum_rounds c) |>,
       (fun read_id => LinearizableReadConfirmed read_id (current_term c) confirmed_idx)
         <$> pr_waiting_read_ids done_round)
  | None => (c, [])
  end.

Definition sweep_confirmed_quorum_rounds c : stepped :=
  let '(lease, confirmed_keys) := sweep_scan c in
  foldl (fun '(c, effects) key =>
    let '(c, confirmed) := sweep_confirm c key in (c, effects ++ confirmed))
    (c <| leader_lease := lease |>, []) confirmed_keys.

Definition on_append_entries_response c (term follower_id : Z) (success : bool)
    (matched : Z) (conflict_term : option Z) (conflict_index quorum_round_id : Z) : stepped :=
  if decide (term > current_term c) then step_down_to_higher_term c term else
  if bool_decide (role c <> Leader) || bool_decide (term <> current_term c) then (c, []) else
  if success then
    let prev_match := default 0 (match_index c !! follower_id) in
    let updated_match := Z.min (Z.max prev_match matched) (last_log_index c) in
    let c := c <| match_index := <[follower_id := updated_match]> (match_index c) |>
      <| next_index := <[follower_id := saturating_add64 updated_match 1]> (next_index c) |>
      <| snapshot_send_offset := delete follower_id (snapshot_send_offset c) |> in
    let '(c, advance) := try_advance_leader_commit c in
    let c :=
      match domain_of (roster c) follower_id, quorum_rounds c !! quorum_round_id with
      | Some domain, Some round =>
          if decide (pr_term round = current_term c) then
            c <| quorum_rounds := <[quorum_round_id := {|
              pr_term := pr_term round;
              pr_commit_index_at_issue := pr_commit_index_at_issue round;
              pr_acked_domains := {[domain]} ∪ pr_acked_domains round;
              pr_waiting_read_ids := pr_waiting_read_ids round;
            |}]> (quorum_rounds c) |>
          else c
      | _, _ => c
      end in
    let '(c, confirmed) := sweep_confirmed_quorum_rounds c in
    let effects := option_list advance ++ confirmed in
    if decide (updated_match < last_log_index c) then
      let '(c, next_round) := allocate_quorum_round c None in
      (c, effects ++ [build_replication_for_peer c follower_id next_round])
    else (c, effects)
  else
    let backed_up_next :=
      match conflict_term with
      | Some ct =>
          match List.find (fun e => bool_decide (e_term e = ct)) (rev (log_tail c)) with
          | Some e => saturating_add64 (e_index e) 1
          | None => Z.max conflict_index 1
          end
      | None => Z.max conflict_index 1
      end in
    let current_next := default 1 (next_index c !! follower_id) in
    let next_try := Z.max
      (Z.min backed_up_next (Z.max (saturating_sub64 current_next 1) 1)) 1 in
    let c := c <| next_index := <[follower_id := next_try]> (next_index c) |>
      <| snapshot_send_offset := delete follower_id (snapshot_send_offset c) |> in
    let '(c, retry_round) := allocate_quorum_round c None in
    (c, [build_replication_for_peer c follower_id retry_round]).

(** ** Snapshot transfer *)

Definition snapshot_response c (leader_id last_included_index next_offset : Z)
    (installed : bool) : ConsensusEffect :=
  SendMessage leader_id (InstallSnapshotResponse (current_term c) (local_id c)
    last_included_index next_offset installed).

(** The closure [reset_and_nack]. *)
Definition reset_and_nack c (leader_id last_included_index : Z) (effects : list ConsensusEffect) :
    stepped :=
  let c := c <| inbound_snapshot := None |> in
  (c, effects ++ [snapshot_response c leader_id last_included_index 0 false]).

Definition staging_matches (s : InboundSnapshotStaging) (term leader_id last_included_index
    last_included_term state_root_digest snapshot_sha256 total_bytes : Z) : bool :=
  bool_decide (st_term s = term) && bool_decide (st_leader_id s = leader_id)
  && bool_decide (st_last_included_index s = last_included_index)
  && bool_decide (st_last_included_term s = last_included_term)
  && bool_decide (st_state_root_digest s = state_root_digest)
  && bool_decide (st_snapshot_sha256 s = snapshot_sha256)
  && bool_decide (st_total_bytes s = total_bytes).

(** The tail of the handler, once every byte of the snapshot has arrived. *)
Definition complete_install c (leader_id last_included_index last_included_term total_bytes : Z)
    (completed : InboundSnapshotStaging) (effects : list ConsensusEffect) : stepped :=
  let c := c <| inbound_snapshot := None |> in
  let computed_sha := compute_snapshot_transfer_sha256 (st_last_included_index completed)
    (st_last_included_term completed) (st_state_root_digest completed) (st_buffer completed) in
  if decide (computed_sha <> st_snapshot_sha256 completed)
  then reset_and_nack c leader_id last_included_index effects else
  let matches_at_boundary := bool_decide (term_at c last_included_index = Some last_included_term) in
  let meta := {| included_index := last_included_index; included_term := last_included_term;
                 state_root := st_state_root_digest completed |} in
  let c := c
    <| log_tail := if matches_at_boundary
         then filter (fun e => e_index e > last_included_index) (log_tail c) else [] |>
    <| snapshot_meta := Some meta |>
    <| snapshot_bytes := Some (st_buffer completed) |>
    <| commit_index := Z.max (commit_index c) last_included_index |> in
  (c, effects ++ [InstallSnapshot meta (st_buffer completed);
                  snapshot_response c leader_id last_included_index total_bytes true]).

(** The staging part of the handler: buffering the chunk. *)
Definition stage_chunk c (leader_id last_included_index last_included_term total_bytes offset : Z)
    (chunk_data : bytes) (done : bool) (staging : InboundSnapshotStaging)
    (effects : list ConsensusEffect) : stepped :=
  let current_offset := Z.of_nat (length (st_buffer staging)) in
  if decide (offset <> current_offset) then
    (c, effects ++ [snapshot_response c leader_id last_included_index current_offset false])
  else
  let staging := {|
    st_term := st_term staging;
    st_leader_id := st_leader_id staging;
    st_last_included_index := st_last_included_index staging;
    st_last_included_term := st_last_included_term staging;
    st_state_root_digest := st_state_root_digest staging;
    st_snapshot_sha256 := st_snapshot_sha256 staging;
    st_total_bytes := st_total_bytes staging;
    st_buffer := st_buffer staging ++ chunk_data;
  |} in
  let c := c <| inbound_snapshot := Some staging |> in
  let new_offset := Z.of_nat (length (st_buffer staging)) in
  if decide (new_offset > total_bytes)
  then reset_and_nack c leader_id last_included_index effects else
  if negb done then
    (c, effects ++ [snapshot_response c leader_id last_included_index new_offset false])
  else
  if decide (new_offset <> total_bytes)
  then reset_and_nack c leader_id last_included_index effects
  else complete_install c leader_id last_included_index last_included_term total_bytes
         staging effects.

Definition on_install_snapshot_chunk c (term leader_id last_included_index last_included_term
    state_root_digest snapshot_sha256 total_bytes offset : Z) (chunk_data : bytes)
    (done : bool) : stepped :=
  let '(c, effects) :=
    if decide (term > current_term c) then step_down_to_higher_term c term else (c, []) in
  if decide (term < current_term c) then
    (c, effects ++ [snapshot_response c leader_id last_included_index 0 false])
  else
  let c := c <| role := Follower |> <| known_leader := Some leader_id |>
    <| ticks_since_leader_contact := 0 |> in
  if decide (last_included_index <= commit_index c) then
    (c, effects ++ [snapshot_response c leader_id last_included_index total_bytes true])
  else
  let matches_existing :=
    match inbound_snapshot c with
    | Some s => staging_matches s term leader_id last_included_index last_included_term
                  state_root_digest snapshot_sha256 total_bytes
    | None => false
    end in
  if negb matches_existing && bool_decide (offset <> 0)
  then reset_and_nack c leader_id last_included_index effects else
  let c :=
    if matches_existing then c else
    c <| inbound_snapshot := Some {|
      st_term := term;
      st_leader_id := leader_id;
      st_last_included_index := last_included_index;
      st_last_included_term := last_included_term;
      st_state_root_digest := state_root_digest;
      st_snapshot_sha256 := snapshot_sha256;
      st_total_bytes := total_bytes;
      st_buffer := [];
    |} |> in
  match inbound_snapshot c with
  | None => reset_and_nack c leader_id last_included_index effects
  | Some staging =>
      stage_chunk c leader_id last_included_index last_included_term total_bytes offset
        chunk_data done staging effects
  end.

Definition on_install_snapshot_response c (term follower_id last_included_index next_offset : Z)
    (installed : bool) : stepped :=
  if decide (term > current_term c) then step_down_to_higher_term c term else
  if bool_decide (role c <> Leader) || bool_decide (term <> current_term c) then (c, []) else
  match snapshot_meta c with
  | None => (c, [])
  | Some meta =>
      if decide (last_included_index <> included_index meta) then (c, []) else
      if installed then
        let prev := default 0 (match_index c !! follower_id) in
        let updated := Z.max prev last_included_index in
        let c := c <| snapshot_send_offset := delete follower_id (snapshot_send_offset c) |>
          <| match_index := <[follower_id := updated]> (match_index c) |>
          <| next_index := <[follower_id := saturating_add64 updated 1]> (next_index c) |> in
        let '(c, advance) := try_advance_leader_commit c in
        if decide (updated < last_log_index c) then
          let '(c, round_id) := allocate_quorum_round c None in
          (c, option_list advance ++ [build_replication_for_peer c follower_id round_id])
        else (c, option_list advance)
      else if decide (next_offset = 0) then
        let c := c <| snapshot_send_offset := <[follower_id := 0]> (snapshot_send_offset c) |> in
        let '(c, round_id) := allocate_quorum_round c None in
        (c, [build_replication_for_peer c follower_id round_id])
      else
        let prev_offset := default 0 (snapshot_send_offset c !! follower_id) in
        if decide (next_offset <= prev_offset) then (c, []) else
        let c := c <| snapshot_send_offset :=
          <[follower_id := next_offset]> (snapshot_send_offset c) |> in
        let '(c, round_id) := allocate_quorum_round c None in
        (c, [build_replication_for_peer c follower_id round_id])
  end.

(** ** Dispatch *)

Definition on_message c (from : Z) (message : RaftMessage) : stepped :=
  if negb (contains (roster c) from) || bool_decide (from = local_id c) then (c, []) else
  match message with
  | RequestPreVote prospective_term candidate_id last_log_index last_log_term =>
      if decide (candidate_id <> from) then (c, []) else
      (c, on_request_pre_vote c prospective_term candidate_id last_log_index last_log_term)
  | RequestPreVoteResponse term prospective_term voter_id vote_granted =>
      if decide (voter_id <> from) then (c, []) else
      on_request_pre_vote_response c term prospective_term voter_id vote_granted
  | RequestVote term candidate_id last_log_index last_log_term =>
      if decide (candidate_id <> from) then (c, []) else
      on_request_vote c term candidate_id last_log_index last_log_term
  | RequestVoteResponse term voter_id vote_granted =>
      if decide (voter_id <> from) then (c, []) else
      on_request_vote_response c term voter_id vote_granted
  | AppendEntries term leader_id prev_log_index prev_log_term entries leader_commit round =>
      if decide (leader_id <> from) then (c, []) else
      on_append_entries c term leader_id prev_log_index prev_log_term entries leader_commit round
  | AppendEntriesResponse term follower_id success match_index conflict_term conflict_index round =>
      if decide (follower_id <> from) then (c, []) else
      on_append_entries_response c term follower_id success match_index conflict_term
        conflict_index round
  | InstallSnapshotChunk term leader_id last_included_index last_included_term
      state_root_digest snapshot_sha256 total_bytes offset chunk_data done =>
      if decide (leader_id <> from) then (c, []) else
      on_install_snapshot_chunk c term leader_id last_included_index last_included_term
        state_root_digest snapshot_sha256 total_bytes offset chunk_data done
  | InstallSnapshotResponse term follower_id last_included_index next_offset installed =>
      if decide (follower_id <> from) then (c, []) else
      on_install_snapshot_response c term follower_id last_included_index next_offset installed
  end.

Definition step c (input : ConsensusInput) : stepped :=
  match input with
  | Tick => on_tick c
  | Propose proposal expected_leader_term => on_propose c proposal expected_leader_term
  | RequestLinearizableRead read_id expected_leader_term =>
      on_request_linearizable_read c read_id expected_leader_term
  | ReceiveMessage from message => on_message c from message
  end.
End core.
