(* ===== verification/RaftLog.v ===== *)
(** * RaftLog: the log invariant of a replica and its durable specification

    States what a replica's log looks like ([core_inv]), gives an abstract
    specification of durable storage ([apply_effect], [run_effects]), and proves that
    every [step] keeps the invariant, never rewrites a committed entry, and
    emits storage effects that bring durable storage exactly to the state of
    the replica. *)

From S2P Require Import Prelude Bytes Commands Roster RaftTypes RaftCore.

(** ** Contiguous logs *)

(** Entry [i] of the list has index [base + i]. *)
Definition contiguous (base : Z) (l : list RaftLogEntry) : Prop :=
  forall i e, l !! i = Some e -> e_index e = base + Z.of_nat i.

Section contiguous.
Implicit Types (l : list RaftLogEntry) (base : Z).

Lemma contiguous_nil base : contiguous base [].
Proof. by intros i e ?. Qed.

Lemma contiguous_app base l1 l2 :
  contiguous base (l1 ++ l2) <-> contiguous base l1 /\ contiguous (base + Z.of_nat (length l1)) l2.
Proof.
  split.
  - intros Hl. split; intros i e Hi.
    + apply Hl. by apply lookup_app_l_Some.
    + rewrite (Hl (length l1 + i)%nat e); [lia|]. rewrite lookup_app_r by lia.
      by replace (length l1 + i - length l1)%nat with i by lia.
  - intros [H1 H2] i e [Hi|[Hle Hi]]%lookup_app_Some; [by apply H1|].
    rewrite (H2 _ _ Hi). lia.
Qed.

Lemma contiguous_cons base e l :
  contiguous base (e :: l) <-> e_index e = base /\ contiguous (base + 1) l.
Proof.
  split.
  - intros Hl. split; [rewrite (Hl 0%nat e) by done; lia|].
    intros i e' Hi. rewrite (Hl (S i) e') by done. lia.
  - intros [He Hl] [|i] e' Hi; simplify_eq/=; [lia|]. rewrite (Hl i e') by done. lia.
Qed.

Lemma contiguous_single base e : e_index e = base -> contiguous base [e].
Proof. intros He [|i] e' Hi; simplify_eq/=; lia. Qed.

Lemma contiguous_snoc base l e :
  contiguous base l -> e_index e = base + Z.of_nat (length l) -> contiguous base (l ++ [e]).
Proof. intros Hl He. apply contiguous_app. split; [done|]. by apply contiguous_single. Qed.

Lemma contiguous_take base l n : contiguous base l -> contiguous base (take n l).
Proof. intros Hl i e [Hi _]%lookup_take_Some. by apply Hl. Qed.

Lemma contiguous_drop base l n : contiguous base l -> contiguous (base + Z.of_nat n) (drop n l).
Proof. intros Hl i e Hi. rewrite lookup_drop in Hi. rewrite (Hl _ _ Hi). lia. Qed.

(** In a contiguous log the entries above an index are a suffix, and those
    below it are a prefix. *)
Lemma contiguous_filter_gt base l j :
  contiguous base l -> filter (fun e => e_index e > j) l = drop (Z.to_nat (j + 1 - base)) l.
Proof.
  revert base. induction l as [|e l IH]; intros base Hl; [by rewrite drop_nil|].
  apply contiguous_cons in Hl as [He Hl'].
  rewrite filter_cons. case_decide as Hgt.
  - replace (Z.to_nat (j + 1 - base)) with 0%nat by lia. rewrite drop_0. f_equal.
    rewrite (IH _ Hl'). by replace (Z.to_nat (j + 1 - (base + 1))) with 0%nat by lia.
  - rewrite (IH _ Hl'). replace (Z.to_nat (j + 1 - base)) with (S (Z.to_nat (j + 1 - (base + 1)))) by lia.
    done.
Qed.

Lemma contiguous_above base l j :
  contiguous base l -> base <= j + 1 -> contiguous (j + 1) (filter (fun e => e_index e > j) l).
Proof.
  intros Hl Hj. rewrite (contiguous_filter_gt _ _ _ Hl).
  pose proof (contiguous_drop _ _ (Z.to_nat (j + 1 - base)) Hl) as Hd.
  by replace (base + _) with (j + 1) in Hd by lia.
Qed.

Lemma contiguous_filter_lt base l j :
  contiguous base l -> filter (fun e => e_index e < j) l = take (Z.to_nat (j - base)) l.
Proof.
  revert base. induction l as [|e l IH]; intros base Hl; [by rewrite take_nil|].
  apply contiguous_cons in Hl as [He Hl'].
  rewrite filter_cons. case_decide as Hlt.
  - replace (Z.to_nat (j - base)) with (S (Z.to_nat (j - (base + 1)))) by lia. simpl.
    f_equal. by apply IH.
  - replace (Z.to_nat (j - base)) with 0%nat by lia. rewrite (IH _ Hl').
    by replace (Z.to_nat (j - (base + 1))) with 0%nat by lia.
Qed.

Lemma contiguous_last base l e :
  contiguous base l -> last l = Some e -> e_index e = base + Z.of_nat (length l) - 1.
Proof.
  intros Hl He. rewrite last_lookup in He.
  assert (length l <> 0)%nat by (by destruct l).
  rewrite (Hl _ _ He). lia.
Qed.
End contiguous.

(** ** The invariant *)

Definition snapshot_index (c : ConsensusCore) : Z := from_option included_index 0 (snapshot_meta c).

Record core_inv (c : ConsensusCore) : Prop := {
  ci_snapshot : match snapshot_meta c with
    | Some m => 1 <= included_index m < u64_max
    | None => True
    end;
  ci_bytes : is_Some (snapshot_bytes c) <-> is_Some (snapshot_meta c);
  ci_contiguous : contiguous (snapshot_index c + 1) (log_tail c);
  ci_commit : snapshot_index c <= commit_index c <= last_log_index c;
  ci_single : roster_len (roster c) = 1%nat -> commit_index c = last_log_index c;
}.

(** The constant part of a replica: a validated roster that lists it. *)
Record core_conf (c : ConsensusCore) : Prop := {
  cc_roster : roster_wf (roster c);
  cc_local : domain_of (roster c) (local_id c) = Some (local_domain c);
}.

Definition conf_view (c : ConsensusCore) :
    Z * Z * ValidatedVoterRoster * ConsensusTimingConfig :=
  (local_id c, local_domain c, roster c, timing c).

(** Everything the invariant and the durable state see of the log. *)
Definition log_view (c : ConsensusCore) :=
  (snapshot_meta c, snapshot_bytes c, log_tail c, commit_index c, conf_view c).

Lemma core_conf_frame c c' : conf_view c' = conf_view c -> core_conf c -> core_conf c'.
Proof.
  unfold conf_view. intros [= E1 E2 E3 E4] [H1 H2]. split; congruence.
Qed.

Lemma log_view_conf c c' : log_view c' = log_view c -> conf_view c' = conf_view c.
Proof. intros Hl. exact (f_equal snd Hl). Qed.

Lemma core_inv_frame c c' : log_view c' = log_view c -> core_inv c -> core_inv c'.
Proof.
  unfold log_view, conf_view. intros [= E1 E2 E3 E4 _ _ E5 _] [H1 H2 H3 H4 H5].
  split; unfold snapshot_index, last_log_index in *; rewrite ?E1, ?E2, ?E3, ?E4, ?E5; done.
Qed.

Section accessors.
Context (c : ConsensusCore) (Hc : core_inv c).

Lemma snapshot_index_range : 0 <= snapshot_index c < u64_max.
Proof.
  pose proof (ci_snapshot c Hc) as Hs. unfold snapshot_index.
  destruct (snapshot_meta c); simpl; width; lia.
Qed.

Lemma first_uncompacted_snapshot : first_uncompacted_index c = snapshot_index c + 1.
Proof.
  pose proof (ci_snapshot c Hc) as Hs. unfold first_uncompacted_index, snapshot_index.
  destruct (snapshot_meta c) as [m|]; simpl; [|done]. unfold saturating_add64. lia.
Qed.

Lemma last_log_index_length :
  last_log_index c = snapshot_index c + Z.of_nat (length (log_tail c)).
Proof.
  unfold last_log_index. fold (snapshot_index c).
  destruct (last (log_tail c)) as [e|] eqn:He.
  - rewrite (contiguous_last _ _ _ (ci_contiguous c Hc) He). lia.
  - apply last_None in He. rewrite He. simpl. unfold snapshot_index. lia.
Qed.

Lemma tail_get_lookup i :
  snapshot_index c < i -> tail_get c i = log_tail c !! Z.to_nat (i - (snapshot_index c + 1)).
Proof.
  intros Hi. unfold tail_get. rewrite first_uncompacted_snapshot. by rewrite decide_True by lia.
Qed.

Lemma tail_get_index i e : tail_get c i = Some e -> e_index e = i.
Proof.
  unfold tail_get. rewrite first_uncompacted_snapshot. case_decide; [|done]. intros Hi.
  rewrite (ci_contiguous c Hc _ _ Hi). lia.
Qed.

Lemma tail_get_some i : snapshot_index c < i <= last_log_index c -> is_Some (tail_get c i).
Proof.
  intros Hi. rewrite last_log_index_length in Hi. rewrite tail_get_lookup by lia.
  apply lookup_lt_is_Some. lia.
Qed.

Lemma tail_get_bound i e : tail_get c i = Some e -> snapshot_index c < i <= last_log_index c.
Proof.
  unfold tail_get. rewrite first_uncompacted_snapshot. case_decide; [|done].
  intros Hi%lookup_lt_Some. rewrite last_log_index_length. lia.
Qed.

Lemma term_at_tail i :
  snapshot_index c < i -> term_at c i = e_term <$> tail_get c i.
Proof.
  intros Hi. pose proof snapshot_index_range. unfold term_at. rewrite decide_False by lia.
  unfold snapshot_index in Hi. destruct (snapshot_meta c) as [m|]; [|done]. simpl in Hi.
  by rewrite !decide_False by lia.
Qed.
End accessors.

(** ** Abstract durable storage *)

#[export] Instance eta_durable : Eta RehydratedCoreState := fun d => {|
  rh_current_term := rh_current_term d;
  rh_voted_for := rh_voted_for d;
  rh_commit_index := rh_commit_index d;
  rh_snapshot := rh_snapshot d;
  rh_log_tail := rh_log_tail d;
|}.
#[export] Instance set_rh_current_term : Setter rh_current_term. Proof. build_setter. Defined.
#[export] Instance set_rh_voted_for : Setter rh_voted_for. Proof. build_setter. Defined.
#[export] Instance set_rh_commit_index : Setter rh_commit_index. Proof. build_setter. Defined.
#[export] Instance set_rh_snapshot : Setter rh_snapshot. Proof. build_setter. Defined.
#[export] Instance set_rh_log_tail : Setter rh_log_tail. Proof. build_setter. Defined.

Definition d_snapshot_index (d : RehydratedCoreState) : Z :=
  from_option (fun s => included_index s.1) 0 (rh_snapshot d).
Definition d_last (d : RehydratedCoreState) : Z :=
  d_snapshot_index d + Z.of_nat (length (rh_log_tail d)).
Definition d_get (d : RehydratedCoreState) (i : Z) : option RaftLogEntry :=
  if decide (d_snapshot_index d < i)
  then rh_log_tail d !! Z.to_nat (i - (d_snapshot_index d + 1)) else None.
(** The entries with index in [(lo, hi]]. *)
Definition d_range (d : RehydratedCoreState) (lo hi : Z) : list RaftLogEntry :=
  filter (fun e => lo < e_index e <= hi) (rh_log_tail d).

(** What storage promises about one effect; [None] is a refusal. A vote is
    never changed within a term and terms never regress. Entries are appended
    without a gap. Only uncommitted entries are removed. A commit index never
    regresses nor passes the log, and comes with exactly the entries it newly
    commits. A snapshot is installed above the commit index, and keeps the log
    above it only when the log agrees with it. *)
Definition apply_effect (d : RehydratedCoreState) (eff : ConsensusEffect) :
    option RehydratedCoreState :=
  match eff with
  | PersistHardState t v =>
      if bool_decide (t < rh_current_term d)
         || (bool_decide (t = rh_current_term d) && bool_decide (is_Some (rh_voted_for d))
             && bool_decide (v <> rh_voted_for d))
      then None else Some (d <| rh_current_term := t |> <| rh_voted_for := v |>)
  | AppendLogEntries es =>
      if bool_decide ((e_index <$> es) = seqZ (d_last d + 1) (Z.of_nat (length es)))
      then Some (d <| rh_log_tail := rh_log_tail d ++ es |>) else None
  | TruncateLogSuffixFrom i =>
      if bool_decide (i <= rh_commit_index d) then None
      else Some (d <| rh_log_tail := filter (fun e => e_index e < i) (rh_log_tail d) |>)
  | AdvanceCommitIndex i _ newly =>
      if bool_decide (rh_commit_index d <= i <= d_last d)
         && bool_decide (newly = d_range d (rh_commit_index d) i)
      then Some (d <| rh_commit_index := i |>) else None
  | InstallSnapshot m bs =>
      if bool_decide (rh_commit_index d < included_index m) then
        Some (d <| rh_snapshot := Some (m, bs) |> <| rh_commit_index := included_index m |>
          <| rh_log_tail :=
               if decide (e_term <$> d_get d (included_index m) = Some (included_term m))
               then filter (fun e => e_index e > included_index m) (rh_log_tail d) else [] |>)
      else None
  | LeaderSteppedDown _ _ | LinearizableReadConfirmed _ _ _ | ProposalRejected _ _
  | SendMessage _ _ => Some d
  end.

Fixpoint run_effects (d : RehydratedCoreState) (effs : list ConsensusEffect) :
    option RehydratedCoreState :=
  match effs with
  | [] => Some d
  | eff :: effs => d' ← apply_effect d eff; run_effects d' effs
  end.

(** Effects that do not touch storage. *)
Definition volatile (eff : ConsensusEffect) : Prop :=
  match eff with
  | LeaderSteppedDown _ _ | LinearizableReadConfirmed _ _ _ | ProposalRejected _ _
  | SendMessage _ _ => True
  | _ => False
  end.

Lemma run_effects_app d effs1 effs2 :
  run_effects d (effs1 ++ effs2) = (d' ← run_effects d effs1; run_effects d' effs2).
Proof.
  revert d. induction effs1 as [|eff effs IH]; intros d; [done|]. simpl.
  destruct (apply_effect d eff); [apply IH|done].
Qed.

Lemma run_effects_volatile d effs : Forall volatile effs -> run_effects d effs = Some d.
Proof.
  induction 1 as [|eff effs He _ IH]; [done|]. simpl. by destruct eff.
Qed.

(** The durable part of a replica. *)
Definition abs (c : ConsensusCore) : RehydratedCoreState := {|
  rh_current_term := current_term c;
  rh_voted_for := voted_for c;
  rh_commit_index := commit_index c;
  rh_snapshot := match snapshot_meta c, snapshot_bytes c with
    | Some m, Some b => Some (m, b)
    | _, _ => None
    end;
  rh_log_tail := log_tail c;
|}.

Definition hard_view (c : ConsensusCore) : Z * option Z := (current_term c, voted_for c).

Lemma abs_frame c c' : log_view c' = log_view c -> hard_view c' = hard_view c -> abs c' = abs c.
Proof.
  unfold log_view, hard_view, abs. intros [= E1 E2 E3 E4 _] [= E5 E6].
  by rewrite E1, E2, E3, E4, E5, E6.
Qed.

Section abs.
Context (c : ConsensusCore) (Hc : core_inv c).

Lemma d_snapshot_index_abs : d_snapshot_index (abs c) = snapshot_index c.
Proof.
  pose proof (ci_bytes c Hc) as Hb. unfold d_snapshot_index, snapshot_index, abs. simpl.
  destruct (snapshot_meta c) as [m|], (snapshot_bytes c) as [b|]; simpl; try done.
  destruct Hb as [_ Hb]. destruct Hb as [? ?]; [eauto|done].
Qed.

Lemma d_last_abs : d_last (abs c) = last_log_index c.
Proof. unfold d_last. by rewrite d_snapshot_index_abs, last_log_index_length. Qed.

Lemma d_get_abs i : d_get (abs c) i = tail_get c i.
Proof.
  unfold d_get, tail_get. rewrite d_snapshot_index_abs, first_uncompacted_snapshot by done.
  repeat case_decide; done || lia.
Qed.

Lemma collect_range_abs lo hi : collect_range c (lo + 1) hi = d_range (abs c) lo hi.
Proof.
  unfold collect_range, d_range, abs. simpl. case_decide as Hle.
  - symmetry. apply list_filter_none. intros e _. lia.
  - apply list_filter_iff. intros e. lia.
Qed.
End abs.

(** ** Steps and durable storage *)

(** Equality of the durable views of a replica and an update of it. *)
Ltac view_eq := unfold abs, log_view, hard_view, conf_view; cbn; reflexivity.

Abbreviation ascending := (StronglySorted (fun e1 e2 => e_index e1 < e_index e2)).

(** Splits on the outermost conditional of the goal only. *)
Ltac gcase :=
  lazymatch goal with
  | |- context [if ?b then _ else _] =>
      lazymatch type of b with bool => destruct b eqn:? | _ => destruct b end
  end.

Section steps.
Context `{Sha256}.
Implicit Types (c : ConsensusCore).

(** The step result [r] keeps the invariant and the configuration, and its
    effects take the durable state of [c] to the durable state of the new
    replica. *)
Definition synced c (r : stepped) : Prop :=
  core_inv r.1 /\ conf_view r.1 = conf_view c /\ run_effects (abs c) r.2 = Some (abs r.1).

Lemma synced_volatile c c' effs :
  core_inv c -> log_view c' = log_view c -> hard_view c' = hard_view c ->
  Forall volatile effs -> synced c (c', effs).
Proof.
  intros Hc Hl Hh Hv. split_and!; [by eapply core_inv_frame|by apply log_view_conf|]. simpl.
  by rewrite run_effects_volatile, (abs_frame c c').
Qed.

Lemma synced_refl c : core_inv c -> synced c (c, []).
Proof. intros Hc. by apply synced_volatile. Qed.

Lemma synced_app c c1 c2 effs1 effs2 :
  synced c (c1, effs1) -> synced c1 (c2, effs2) -> synced c (c2, effs1 ++ effs2).
Proof.
  intros (_ & Hf1 & H1) (Hc2 & Hf2 & H2). split_and!; [done|by etrans|].
  cbn [fst snd] in *. by rewrite run_effects_app, H1.
Qed.

(** A handler that starts by changing volatile state. *)
Lemma synced_from c c1 r :
  log_view c1 = log_view c -> hard_view c1 = hard_view c -> synced c1 r -> synced c r.
Proof.
  intros Hl Hh (H1 & H2 & H3). apply log_view_conf in Hl as Hf.
  split_and!; [done|congruence|]. by rewrite <- (abs_frame c c1).
Qed.

(** A handler that ends by changing volatile state and sending messages. *)
Lemma synced_snoc c c1 c2 effs1 effs2 :
  synced c (c1, effs1) -> log_view c2 = log_view c1 -> hard_view c2 = hard_view c1 ->
  Forall volatile effs2 -> synced c (c2, effs1 ++ effs2).
Proof.
  intros H1 Hl Hh Hv. eapply synced_app; [done|]. apply synced_volatile; try done. apply H1.
Qed.

Lemma build_volatile c peer round : volatile (build_replication_for_peer c peer round).
Proof. unfold build_replication_for_peer. cbv zeta. repeat case_match; exact I. Qed.

Lemma broadcast_volatile c round : Forall volatile (broadcast_replication_or_heartbeat c round).
Proof. apply Forall_fmap, Forall_forall. intros peer _. apply build_volatile. Qed.

Lemma sends_volatile {A} (f : A -> Z) (g : A -> RaftMessage) (l : list A) :
  Forall volatile ((fun a => SendMessage (f a) (g a)) <$> l).
Proof. apply Forall_fmap, Forall_forall. by intros a _. Qed.

Lemma allocate_views c rid :
  log_view (allocate_quorum_round c rid).1 = log_view c
  /\ hard_view (allocate_quorum_round c rid).1 = hard_view c.
Proof. done. Qed.

Lemma allocate_conf c rid : let c' := (allocate_quorum_round c rid).1 in
  roster c' = roster c /\ local_id c' = local_id c /\ role c' = role c.
Proof. done. Qed.

(** *** Elections *)

(** A hard-state change storage accepts. *)
Lemma persist_accepted d t v effs :
  rh_current_term d < t \/ (rh_current_term d = t /\ (rh_voted_for d = None \/ rh_voted_for d = v)) ->
  run_effects d (PersistHardState t v :: effs)
  = run_effects (d <| rh_current_term := t |> <| rh_voted_for := v |>) effs.
Proof.
  intros Hok. cbn [run_effects apply_effect].
  assert ((bool_decide (t < rh_current_term d)
    || (bool_decide (t = rh_current_term d) && bool_decide (is_Some (rh_voted_for d))
        && bool_decide (v <> rh_voted_for d))) = false) as ->; [|done].
  apply orb_false_iff. split; [apply bool_decide_eq_false; lia|].
  destruct Hok as [Hlt|[-> [Hn| ->]]].
  - by rewrite bool_decide_eq_false_2 by lia.
  - rewrite Hn. rewrite (bool_decide_eq_false_2 (is_Some None)) by (by intros [? ?]).
    by rewrite andb_false_r.
  - by rewrite (bool_decide_eq_false_2 (v <> v)), andb_false_r by tauto.
Qed.

Lemma start_pre_vote_synced c : core_inv c -> synced c (start_pre_vote c).
Proof. intros Hc. apply synced_volatile; try done. apply sends_volatile. Qed.

Lemma start_real_election_synced c :
  core_inv c -> current_term c < u64_max -> synced c (start_real_election c).
Proof.
  intros Hc Ht. unfold start_real_election. cbv zeta. split_and!; cbn [fst snd]; [|view_eq|].
  - eapply (core_inv_frame c); [view_eq|done].
  - rewrite persist_accepted by (left; unfold saturating_add64; simpl; lia).
    rewrite run_effects_volatile by apply sends_volatile. view_eq.
Qed.

Lemma on_tick_synced c : core_inv c -> synced c (on_tick c).
Proof.
  intros Hc. unfold on_tick. cbv zeta. case_decide; [by apply synced_refl|].
  set (c1 := if decide _ then _ else _).
  assert (log_view c1 = log_view c /\ hard_view c1 = hard_view c) as [Hl Hh].
  { subst c1. by case_decide. }
  assert (core_inv c1) as Hc1 by (by eapply core_inv_frame).
  clearbody c1. destruct (role c1); case_decide; try (by apply synced_volatile).
  1-3: (apply synced_volatile; [done|rewrite <- Hl; view_eq|rewrite <- Hh; view_eq|
    apply sends_volatile]).
  apply synced_volatile; [done|by rewrite <- Hl|by rewrite <- Hh|apply broadcast_volatile].
Qed.

Lemma step_down_synced c t :
  core_inv c -> t > current_term c -> synced c (step_down_to_higher_term c t).
Proof.
  intros Hc Ht. unfold step_down_to_higher_term. cbv zeta.
  split_and!; cbn [fst snd]; [|case_match; view_eq|].
  - eapply (core_inv_frame c); [|done]. case_match; view_eq.
  - change ([PersistHardState t None] ++ ?e) with (PersistHardState t None :: e).
    rewrite persist_accepted by (left; simpl; lia). rewrite run_effects_volatile.
    + case_match; view_eq.
    + apply Forall_app. split; [by case_match; repeat constructor|].
      apply Forall_fmap, Forall_forall. by intros rid _.
Qed.

Lemma step_down_fields c t : let c' := (step_down_to_higher_term c t).1 in
  current_term c' = t /\ roster c' = roster c /\ local_id c' = local_id c
  /\ log_view c' = log_view c /\ voted_for c' = None /\ inbound_snapshot c' = inbound_snapshot c
  /\ match_index c' = match_index c.
Proof. unfold step_down_to_higher_term. simpl. by case_match. Qed.

(** The common prologue of the handlers that may step down first. *)
Definition prologue c (term : Z) : stepped :=
  if decide (term > current_term c) then step_down_to_higher_term c term else (c, []).

Lemma prologue_synced c term : core_inv c -> synced c (prologue c term).
Proof.
  intros Hc. unfold prologue. case_decide; [by apply step_down_synced|by apply synced_refl].
Qed.

Lemma prologue_fields c term : let c' := (prologue c term).1 in
  current_term c' = Z.max (current_term c) term /\ roster c' = roster c
  /\ local_id c' = local_id c /\ log_view c' = log_view c
  /\ inbound_snapshot c' = inbound_snapshot c.
Proof.
  unfold prologue. case_decide.
  - pose proof (step_down_fields c term) as (H1 & H2 & H3 & H4 & _ & H5 & _). cbv zeta in *.
    split_and!; try done. lia.
  - simpl. split_and!; try done. lia.
Qed.

Lemma on_request_vote_synced c term cand li lt :
  core_inv c -> synced c (on_request_vote c term cand li lt).
Proof.
  intros Hc. unfold on_request_vote. fold (prologue c term).
  pose proof (prologue_synced c term Hc) as Hp.
  destruct (prologue c term) as [c1 effs1]. case_decide.
  { eapply synced_snoc; try done. by repeat constructor. }
  cbv zeta. destruct (_ && log_up_to_date c1 li lt) eqn:Hgrant.
  - apply andb_true_iff in Hgrant as [Hvote _].
    assert (synced c1 (c1 <| voted_for := Some cand |> <| ticks_since_leader_contact := 0 |>,
      [PersistHardState (current_term c1) (Some cand)])) as Hs.
    { split_and!; [eapply (core_inv_frame c1); [done|apply Hp]|view_eq|].
      cbn [fst snd]. rewrite persist_accepted; [done|]. right. split; [done|].
      by apply orb_true_iff in Hvote as [Hv|Hv]; apply bool_decide_eq_true in Hv; [left|right]. }
    eapply synced_snoc; [exact (synced_app _ _ _ _ _ Hp Hs)|done..|]. by repeat constructor.
  - eapply synced_snoc; try done. by repeat constructor.
Qed.

Lemma become_leader_synced c : core_inv c -> synced c (become_leader c).
Proof.
  intros Hc. unfold become_leader, allocate_quorum_round. cbv zeta.
  apply synced_volatile; [done|view_eq|view_eq|apply broadcast_volatile].
Qed.

Lemma on_request_pre_vote_response_synced c rt pt voter granted :
  core_inv c -> current_term c < u64_max ->
  synced c (on_request_pre_vote_response c rt pt voter granted).
Proof.
  intros Hc Ht. unfold on_request_pre_vote_response. cbv zeta.
  gcase; [by apply step_down_synced; [|lia]|]. gcase; [by apply synced_refl|].
  set (c1 := match domain_of (roster c) voter with
    | Some domain => if granted then _ else _ | None => _ end).
  assert (log_view c1 = log_view c /\ hard_view c1 = hard_view c) as [Hl Hh].
  { subst c1. destruct (domain_of _ _), granted; split; view_eq. }
  assert (core_inv c1) as Hc1 by (by eapply core_inv_frame).
  clearbody c1. gcase; [|by apply synced_volatile].
  apply (synced_from c c1); [done..|]. apply start_real_election_synced; [done|].
  unfold hard_view in Hh. congruence.
Qed.

Lemma on_request_vote_response_synced c term voter granted :
  core_inv c -> synced c (on_request_vote_response c term voter granted).
Proof.
  intros Hc. unfold on_request_vote_response. cbv zeta.
  gcase; [by apply step_down_synced; [|lia]|]. gcase; [by apply synced_refl|].
  set (c1 := match domain_of (roster c) voter with
    | Some domain => if granted then _ else _ | None => _ end).
  assert (log_view c1 = log_view c /\ hard_view c1 = hard_view c) as [Hl Hh].
  { subst c1. destruct (domain_of _ _), granted; split; view_eq. }
  assert (core_inv c1) as Hc1 by (by eapply core_inv_frame).
  clearbody c1. gcase; [|by apply synced_volatile].
  apply (synced_from c c1); [done..|]. by apply become_leader_synced.
Qed.

(** *** Appending and committing *)

Lemma append_accepted d es effs :
  contiguous (d_last d + 1) es ->
  run_effects d (AppendLogEntries es :: effs)
  = run_effects (d <| rh_log_tail := rh_log_tail d ++ es |>) effs.
Proof.
  intros Hes. cbn [run_effects apply_effect]. rewrite bool_decide_eq_true_2; [done|].
  apply list_eq. intros i. rewrite list_lookup_fmap.
  destruct (decide (i < length es)%nat) as [Hi|Hi].
  - destruct (lookup_lt_is_Some_2 es i Hi) as [e He]. rewrite He. simpl.
    rewrite (Hes _ _ He). symmetry. apply lookup_seqZ. lia.
  - rewrite (lookup_ge_None_2 es) by lia. symmetry. apply lookup_seqZ_ge. lia.
Qed.

Lemma advance_accepted d n t newly effs :
  rh_commit_index d <= n <= d_last d -> newly = d_range d (rh_commit_index d) n ->
  run_effects d (AdvanceCommitIndex n t newly :: effs)
  = run_effects (d <| rh_commit_index := n |>) effs.
Proof.
  intros Hn ->. cbn [run_effects apply_effect]. by rewrite !bool_decide_eq_true_2.
Qed.

(** Replacing the log above the snapshot. *)
Lemma core_inv_log c l :
  core_inv c -> roster_len (roster c) <> 1%nat -> contiguous (snapshot_index c + 1) l ->
  commit_index c <= snapshot_index c + Z.of_nat (length l) -> core_inv (c <| log_tail := l |>).
Proof.
  intros Hc Hr Hl Hcommit. pose proof (ci_commit c Hc). split.
  - apply (ci_snapshot c Hc).
  - apply (ci_bytes c Hc).
  - done.
  - split; [apply (ci_commit c Hc)|]. unfold last_log_index.
    change (log_tail (c <| log_tail := l |>)) with l.
    destruct (last l) as [e|] eqn:He.
    + rewrite (contiguous_last _ _ _ Hl He). simpl. lia.
    + apply last_None in He. subst l. simpl in *. unfold snapshot_index in *. lia.
  - done.
Qed.

Lemma commit_synced c n t :
  core_inv c -> roster_len (roster c) <> 1%nat -> commit_index c <= n <= last_log_index c ->
  synced c (c <| commit_index := n |>,
    [AdvanceCommitIndex n t (collect_range (c <| commit_index := n |>) (commit_index c + 1) n)]).
Proof.
  intros Hc Hr Hn. split_and!; cbn [fst snd]; [|view_eq|].
  - pose proof (ci_commit c Hc). split; try apply Hc; [|done].
    change (last_log_index (c <| commit_index := n |>)) with (last_log_index c).
    change (snapshot_index (c <| commit_index := n |>)) with (snapshot_index c).
    change (commit_index (c <| commit_index := n |>)) with n. lia.
  - rewrite advance_accepted; [view_eq|by rewrite d_last_abs|].
    by rewrite <- collect_range_abs.
Qed.

Lemma try_advance_bounds c : core_inv c ->
  let best := foldl (fun best idx => if commit_candidate c idx then idx else best)
    (commit_index c) (seqZ (commit_index c + 1) (last_log_index c - commit_index c)) in
  commit_index c <= best <= last_log_index c.
Proof.
  intros Hc. pose proof (ci_commit c Hc).
  assert (forall l b, commit_index c <= b <= last_log_index c ->
    Forall (fun i => commit_index c <= i <= last_log_index c) l ->
    commit_index c <= foldl (fun best idx => if commit_candidate c idx then idx else best) b l
      <= last_log_index c) as Hfold.
  { intros l. induction l as [|i l IH]; intros b Hb Hl; [done|]. simpl.
    inversion Hl; subst. apply IH; [|done]. by case_match. }
  cbv zeta. apply Hfold; [lia|]. apply Forall_forall. intros i Hi%elem_of_seqZ. lia.
Qed.

Lemma try_advance_synced c : core_inv c -> roster_len (roster c) <> 1%nat ->
  synced c ((try_advance_leader_commit c).1, option_list (try_advance_leader_commit c).2).
Proof.
  intros Hc Hr. pose proof (try_advance_bounds c Hc) as Hb. unfold try_advance_leader_commit.
  cbv zeta in *. set (best := foldl _ _ _) in *. clearbody best. case_decide.
  - simpl. by apply commit_synced.
  - by apply synced_refl.
Qed.

(** *** Proposals and reads *)

Lemma last_log_index_snoc c l e : log_tail c = l ++ [e] -> last_log_index c = e_index e.
Proof. intros Hl. unfold last_log_index. by rewrite Hl, last_snoc. Qed.

Lemma d_last_snoc d e :
  d_last (d <| rh_log_tail := rh_log_tail d ++ [e] |>) = d_last d + 1.
Proof. unfold d_last, d_snapshot_index. cbn. rewrite length_app. cbn. lia. Qed.

Lemma d_range_snoc d e :
  contiguous (d_snapshot_index d + 1) (rh_log_tail d) -> e_index e = d_last d + 1 ->
  d_range (d <| rh_log_tail := rh_log_tail d ++ [e] |>) (d_last d) (d_last d + 1) = [e].
Proof.
  intros Hl He. unfold d_range. cbn. rewrite filter_app, list_filter_none.
  - cbn. by rewrite decide_True by lia.
  - intros e' [i Hi]%list_elem_of_lookup. rewrite (Hl _ _ Hi).
    apply lookup_lt_Some in Hi. unfold d_last. lia.
Qed.

Lemma on_propose_synced c p expected :
  core_inv c -> last_log_index c < u64_max -> synced c (on_propose c p expected).
Proof.
  intros Hc Hlast. unfold on_propose. destruct (check_leader_gate _ _);
    [|apply synced_volatile; [done..|by repeat constructor]].
  cbv zeta. rewrite (saturating_add64_lt (last_log_index c) 1) by lia.
  set (e := entry_new _ _ _). pose proof (ci_commit c Hc) as Hcommit.
  pose proof (last_log_index_length c Hc) as Hlen.
  assert (contiguous (snapshot_index c + 1) (log_tail c ++ [e])) as Hl.
  { apply contiguous_snoc; [apply Hc|]. unfold e, entry_new. cbn [e_index]. lia. }
  assert (contiguous (d_last (abs c) + 1) [e]) as He.
  { rewrite d_last_abs by done. by apply contiguous_single. }
  set (c1 := c <| log_tail := log_tail c ++ [e] |>).
  destruct (decide _) as [Hone|Hone] in |- *.
  - split_and!; cbn [fst snd app]; [|view_eq|].
    + eapply (core_inv_frame (c1 <| commit_index := last_log_index c + 1 |>)); [view_eq|].
      split; try apply Hc; [done| |intros _];
        (rewrite (last_log_index_snoc (_ <| commit_index := _ |>) (log_tail c) e); [|reflexivity]); cbn; [|reflexivity].
      unfold snapshot_index in *. cbn. lia.
    + rewrite append_accepted by done. rewrite advance_accepted; [view_eq| |].
      * rewrite d_last_snoc, d_last_abs by done. cbn. lia.
      * change (rh_commit_index _) with (commit_index c).
        rewrite (ci_single c Hc Hone). rewrite <- d_last_abs by done.
        by rewrite d_range_snoc; rewrite ?d_snapshot_index_abs, ?d_last_abs; try apply Hc.
  - eapply (synced_app c c1); [split_and!; cbn [fst snd]; [|view_eq|]|].
    + apply core_inv_log; [done..|]. rewrite length_app. cbn. lia.
    + rewrite append_accepted by done. view_eq.
    + unfold allocate_quorum_round. cbv zeta. apply synced_volatile; [|view_eq..|].
      * apply core_inv_log; [done..|]. rewrite length_app. cbn. lia.
      * apply broadcast_volatile.
Qed.

Lemma on_request_linearizable_read_synced c rid expected :
  core_inv c -> synced c (on_request_linearizable_read c rid expected).
Proof.
  intros Hc. unfold on_request_linearizable_read.
  destruct (check_leader_gate _ _); [|apply synced_volatile; [done..|by repeat constructor]].
  gcase; [apply synced_volatile; [done..|by repeat constructor]|].
  unfold allocate_quorum_round. cbv zeta.
  apply synced_volatile; [done|view_eq..|apply broadcast_volatile].
Qed.

(** *** Reconciling a follower's log *)

(** Once every remaining entry lies past the log, entries are only appended. *)
Lemma reconcile_appends entries : forall c leader round effs newly,
  let base := first_uncompacted_index c in
  ascending entries -> Forall (fun e => verify_integrity e = true) entries ->
  Forall (fun e => base + Z.of_nat (length (log_tail c)) <= e_index e) entries ->
  exists added,
    reconcile_entries c leader round effs newly entries
    = (c <| log_tail := log_tail c ++ added |>, effs, Some (newly ++ added))
    /\ contiguous (base + Z.of_nat (length (log_tail c))) added
    /\ (contiguous (base + Z.of_nat (length (log_tail c))) entries -> added = entries).
Proof.
  induction entries as [|e entries IH]; intros c leader round effs newly base Hasc Hver Hge.
  { exists []. rewrite !app_nil_r. split_and!; [by destruct c|apply contiguous_nil|done]. }
  apply StronglySorted_inv in Hasc as [Hasc Hlt].
  apply Forall_cons in Hver as [Hv Hver]. apply Forall_cons in Hge as [He Hge].
  cbn [reconcile_entries]. rewrite Hv. cbn [negb]. fold base. rewrite decide_False by lia.
  rewrite lookup_ge_None_2 by lia. destruct (decide _) as [Hpos|Hpos] in |- *.
  - assert (base + Z.of_nat (length (log_tail c ++ [e])) = e_index e + 1) as Hn.
    { rewrite length_app. cbn. lia. }
    specialize (IH (c <| log_tail := log_tail c ++ [e] |>) leader round effs (newly ++ [e])).
    cbv zeta in IH. change (first_uncompacted_index (_ <| log_tail := _ |>)) with base in IH.
    change (log_tail (_ <| log_tail := log_tail c ++ [e] |>)) with (log_tail c ++ [e]) in IH.
    rewrite Hn in IH. destruct IH as (added & Heq & Hcont & Hall); [done|done| |].
    { eapply Forall_impl; [exact Hlt|]. cbn. lia. }
    exists (e :: added). rewrite Heq. split_and!.
    + by rewrite <- !app_assoc.
    + apply contiguous_cons. split; [lia|]. by replace (_ + _ + 1) with (e_index e + 1) by lia.
    + intros [_ Hc]%contiguous_cons. f_equal. apply Hall.
      by replace (e_index e + 1) with (base + Z.of_nat (length (log_tail c)) + 1) by lia.
  - destruct (IH c leader round effs newly) as (added & Heq & Hcont & Hall); [done|done|done|].
    exists added. split_and!; [done|done|]. intros [Hc _]%contiguous_cons. lia.
Qed.

(** What the loop does to the log: it keeps a prefix of it, and appends. If the
    prefix is proper then it was cut once, before anything was appended, at an
    uncommitted index of the message. If the message is contiguous and joins the
    log then every entry of it above the commit index is matched afterwards. *)
Record reconciled c (entries : list RaftLogEntry) (keep : nat) (added : list RaftLogEntry)
    (cut : list ConsensusEffect) : Prop := {
  rc_added : contiguous (first_uncompacted_index c + Z.of_nat keep) added;
  rc_cut :
    (keep = length (log_tail c) /\ cut = [])
    \/ ((keep < length (log_tail c))%nat
        /\ commit_index c < first_uncompacted_index c + Z.of_nat keep
        /\ (exists e, e ∈ entries /\ e_index e = first_uncompacted_index c + Z.of_nat keep)
        /\ cut = [TruncateLogSuffixFrom (first_uncompacted_index c + Z.of_nat keep)]);
  rc_matched start :
    contiguous start entries ->
    start <= first_uncompacted_index c + Z.of_nat (length (log_tail c)) ->
    forall e, e ∈ entries -> first_uncompacted_index c <= e_index e ->
    e_index e <= commit_index c
    \/ e_term <$> (take keep (log_tail c) ++ added) !! Z.to_nat (e_index e - first_uncompacted_index c)
       = Some (e_term e);
}.

Lemma reconciled_skip c e entries keep added cut :
  (first_uncompacted_index c <= e_index e -> exists existing,
     log_tail c !! Z.to_nat (e_index e - first_uncompacted_index c) = Some existing
     /\ (e_index e <= commit_index c \/ e_term existing = e_term e)) ->
  Forall (fun e' => e_index e < e_index e') entries ->
  reconciled c entries keep added cut -> reconciled c (e :: entries) keep added cut.
Proof.
  intros He Hlt [Hadd Hcut Hmatch]. split; [done| |].
  - destruct Hcut as [?|(? & ? & (e' & ? & ?) & ?)]; [by left|right]. split_and!; [done..| |done].
    exists e'. split; [by right|done].
  - intros start [Hs Hc]%contiguous_cons Hle e' [->|Hin]%elem_of_cons Hbase.
    + destruct (He Hbase) as (existing & Hl & [?|Ht]); [by left|right].
      assert (Z.to_nat (e_index e - first_uncompacted_index c) < keep)%nat as Hk.
      { apply lookup_lt_Some in Hl as Hlen.
        destruct Hcut as [[-> _]|(_ & _ & (e' & Hin & Heq) & _)]; [lia|].
        rewrite Forall_forall in Hlt. specialize (Hlt e' Hin). lia. }
      rewrite lookup_app_l by (rewrite length_take; apply lookup_lt_Some in Hl; lia).
      rewrite lookup_take_lt by lia. rewrite Hl. exact (f_equal Some Ht).
    + apply (Hmatch (start + 1)); try done.
      destruct (decide (first_uncompacted_index c <= e_index e)) as [Hb|Hb]; [|lia].
      destruct (He Hb) as (existing & Hl%lookup_lt_Some & _). lia.
Qed.

Lemma reconciled_append c entries added :
  contiguous (first_uncompacted_index c + Z.of_nat (length (log_tail c))) added ->
  Forall (fun e => first_uncompacted_index c + Z.of_nat (length (log_tail c)) <= e_index e) entries ->
  (contiguous (first_uncompacted_index c + Z.of_nat (length (log_tail c))) entries ->
     added = entries) ->
  reconciled c entries (length (log_tail c)) added [].
Proof.
  intros Hadd Hge Hall. split; [done|by left|]. intros start Hc Hle e Hin Hbase. right.
  apply list_elem_of_lookup in Hin as [i Hi]. pose proof (Hc _ _ Hi) as Hidx.
  assert (start = first_uncompacted_index c + Z.of_nat (length (log_tail c))) as ->.
  { destruct entries as [|e0 es]; [done|]. apply contiguous_cons in Hc as [H0 _].
    apply Forall_cons in Hge as [Hg _]. lia. }
  rewrite firstn_all, lookup_app_r by lia. rewrite (Hall Hc).
  replace (_ - _)%nat with i by lia. by rewrite Hi.
Qed.

Lemma reconciled_truncate c e entries added existing :
  let base := first_uncompacted_index c in
  let pos := Z.to_nat (e_index e - base) in
  base <= e_index e -> log_tail c !! pos = Some existing -> commit_index c < e_index e ->
  contiguous (e_index e + 1) added ->
  (contiguous (e_index e + 1) entries -> added = entries) ->
  reconciled c (e :: entries) pos (e :: added) [TruncateLogSuffixFrom (e_index e)].
Proof.
  intros base pos Hb Hl Hcommit Hadd Hall. apply lookup_lt_Some in Hl as Hlen.
  assert (base + Z.of_nat pos = e_index e) as Hpos by lia. split; fold base.
  - rewrite Hpos. by apply contiguous_cons.
  - right. rewrite Hpos. split_and!; [done|done| |done]. exists e. split; [by left|done].
  - intros start Hc _ e' Hin Hb'. right.
    apply contiguous_cons in Hc as Hc'. destruct Hc' as [<- Hc']. rewrite (Hall Hc').
    apply list_elem_of_lookup in Hin as [i Hi]. pose proof (Hc _ _ Hi) as Hidx.
    rewrite lookup_app_r by (rewrite length_take; lia). rewrite length_take.
    replace (_ - _)%nat with i by lia. by rewrite Hi.
Qed.

Lemma reconcile_truncates c e entries existing leader round effs newly :
  let pos := Z.to_nat (e_index e - first_uncompacted_index c) in
  ascending (e :: entries) -> first_uncompacted_index c <= e_index e ->
  Forall (fun e => verify_integrity e = true) entries ->
  log_tail c !! pos = Some existing -> commit_index c < e_index e ->
  exists added,
    reconcile_entries (c <| log_tail := take pos (log_tail c) ++ [e] |>) leader round
      (effs ++ [TruncateLogSuffixFrom (e_index e)]) (newly ++ [e]) entries
    = (c <| log_tail := take pos (log_tail c) ++ e :: added |>,
       effs ++ [TruncateLogSuffixFrom (e_index e)], Some (newly ++ e :: added))
    /\ reconciled c (e :: entries) pos (e :: added) [TruncateLogSuffixFrom (e_index e)].
Proof.
  intros pos [Hasc Hlt]%StronglySorted_inv Hb Hver Hl Hcommit.
  apply lookup_lt_Some in Hl as Hlen.
  set (c1 := c <| log_tail := take pos (log_tail c) ++ [e] |>).
  assert (first_uncompacted_index c1 + Z.of_nat (length (log_tail c1)) = e_index e + 1) as Hn.
  { change (first_uncompacted_index c1) with (first_uncompacted_index c).
    change (log_tail c1) with (take pos (log_tail c) ++ [e]).
    rewrite length_app, length_take. cbn. lia. }
  destruct (reconcile_appends entries c1 leader round
    (effs ++ [TruncateLogSuffixFrom (e_index e)]) (newly ++ [e]) Hasc Hver)
    as (added & Heq & Hcont & Hall).
  { rewrite Hn. eapply Forall_impl; [exact Hlt|]. cbn. lia. }
  rewrite Hn in Hcont, Hall. exists added. split; [|by eapply reconciled_truncate].
  rewrite Heq. change (log_tail c1) with (take pos (log_tail c) ++ [e]).
  by rewrite <- !app_assoc.
Qed.

Lemma reconcile_spec entries : forall c leader round effs newly,
  ascending entries -> Forall (fun e => verify_integrity e = true) entries ->
  exists keep added cut,
    reconcile_entries c leader round effs newly entries
    = (c <| log_tail := take keep (log_tail c) ++ added |>, effs ++ cut, Some (newly ++ added))
    /\ reconciled c entries keep added cut.
Proof.
  induction entries as [|e entries IH]; intros c leader round effs newly Hasc Hver.
  { exists (length (log_tail c)), [], []. rewrite firstn_all, !app_nil_r.
    split; [by destruct c|]. apply reconciled_append; [apply contiguous_nil|constructor|done]. }
  pose proof Hasc as Hasc0. pose proof Hver as Hver0.
  apply StronglySorted_inv in Hasc as [Hasc Hlt]. apply Forall_cons in Hver as [Hv Hver].
  set (base := first_uncompacted_index c). set (pos := Z.to_nat (e_index e - base)).
  cbn [reconcile_entries]. rewrite Hv. cbn [negb]. fold base. fold pos.
  destruct (IH c leader round effs newly Hasc Hver) as (keep & added & cut & Heq & Hr).
  destruct (decide (e_index e < base)) as [Hlow|Hlow].
  { exists keep, added, cut. split; [done|]. apply reconciled_skip; [|done..].
    fold base. lia. }
  destruct (log_tail c !! pos) as [existing|] eqn:Hl.
  - destruct (bool_decide _ && _) eqn:Hb.
    + apply andb_true_iff in Hb as [_ Hcommit%bool_decide_eq_true].
      destruct (reconcile_truncates c e entries existing leader round effs newly)
        as (added' & Heq' & Hr'); [done|fold base; lia|done|done|lia|].
      by exists pos, (e :: added'), [TruncateLogSuffixFrom (e_index e)].
    + exists keep, added, cut. split; [done|]. apply reconciled_skip; [|done..].
      intros _. exists existing. split; [done|].
      apply andb_false_iff in Hb as [Hb|Hb]; apply bool_decide_eq_false in Hb;
        [right; by apply dec_stable|left; lia].
  - apply lookup_ge_None in Hl as Hlen.
    assert (Forall (fun e' => base + Z.of_nat (length (log_tail c)) <= e_index e') (e :: entries))
      as Hge.
    { constructor; [lia|]. eapply Forall_impl; [exact Hlt|]. cbn. lia. }
    destruct (reconcile_appends (e :: entries) c leader round effs newly Hasc0 Hver0 Hge)
      as (added' & Heq' & Hcont & Hall).
    exists (length (log_tail c)), added', []. rewrite firstn_all, app_nil_r.
    split; [|by apply reconciled_append].
    rewrite <- Heq'. cbn [reconcile_entries]. rewrite Hv. cbn [negb]. fold base. fold pos.
    rewrite (decide_False (P := e_index e < base)) by done. by rewrite Hl.
Qed.

Lemma truncate_accepted d i effs :
  rh_commit_index d < i ->
  run_effects d (TruncateLogSuffixFrom i :: effs)
  = run_effects (d <| rh_log_tail := filter (fun e => e_index e < i) (rh_log_tail d) |>) effs.
Proof.
  intros Hi. cbn [run_effects apply_effect]. by rewrite bool_decide_eq_false_2 by lia.
Qed.

Definition append_effect (added : list RaftLogEntry) : list ConsensusEffect :=
  match added with [] => [] | _ => [AppendLogEntries added] end.

Lemma append_effect_accepted d added :
  contiguous (d_last d + 1) added ->
  run_effects d (append_effect added) = Some (d <| rh_log_tail := rh_log_tail d ++ added |>).
Proof.
  intros Hc. destruct added as [|e added].
  - rewrite app_nil_r. by destruct d.
  - cbn [append_effect]. by rewrite append_accepted.
Qed.

Lemma reconciled_synced c entries keep added cut :
  core_inv c -> roster_len (roster c) <> 1%nat -> reconciled c entries keep added cut ->
  synced c (c <| log_tail := take keep (log_tail c) ++ added |>, cut ++ append_effect added).
Proof.
  intros Hc Hr [Hadd Hcut _]. rewrite first_uncompacted_snapshot in * by done.
  pose proof (ci_commit c Hc). pose proof (last_log_index_length c Hc) as Hlast.
  assert (keep <= length (log_tail c))%nat as Hkeep by lia.
  split_and!; cbn [fst snd]; [|view_eq|].
  - apply core_inv_log; [done..| |].
    + apply contiguous_app. rewrite length_take_le by done. split; [|done].
      apply contiguous_take, Hc.
    + rewrite length_app, length_take_le by done. lia.
  - destruct Hcut as [[-> ->]|(Hlt & Hcommit & _ & ->)]; cbn [app].
    + rewrite firstn_all, append_effect_accepted; [view_eq|]. rewrite d_last_abs by done.
      by replace (last_log_index c + 1) with (snapshot_index c + 1 + Z.of_nat (length (log_tail c)))
        by lia.
    + rewrite truncate_accepted by done.
      change (rh_log_tail (abs c)) with (log_tail c).
      rewrite (contiguous_filter_lt _ _ _ (ci_contiguous c Hc)).
      replace (Z.to_nat _) with keep by lia. rewrite append_effect_accepted; [view_eq|].
      unfold d_last.
      change (d_snapshot_index (_ <| rh_log_tail := _ |>)) with (d_snapshot_index (abs c)).
      change (rh_log_tail (_ <| rh_log_tail := take keep _ |>)) with (take keep (log_tail c)).
      rewrite d_snapshot_index_abs, length_take_le by done.
      by replace (snapshot_index c + Z.of_nat keep + 1) with (snapshot_index c + 1 + Z.of_nat keep)
        by lia.
Qed.

Lemma follower_advance_synced c leader_commit :
  core_inv c -> roster_len (roster c) <> 1%nat ->
  synced c (follower_advance_commit c leader_commit).
Proof.
  intros Hc Hr. unfold follower_advance_commit. pose proof (ci_commit c Hc).
  gcase; [|by apply synced_refl]. cbv zeta. gcase; [|by apply synced_refl].
  apply commit_synced; [done..|lia].
Qed.

Lemma reconcile_and_commit_synced c0 c leader entries leader_commit round effs :
  synced c0 (c, effs) -> roster_len (roster c) <> 1%nat ->
  ascending entries -> Forall (fun e => verify_integrity e = true) entries ->
  synced c0 (reconcile_and_commit_entries c leader entries leader_commit round effs).
Proof.
  intros H0 Hr Hasc Hver. unfold reconcile_and_commit_entries.
  destruct (reconcile_spec entries c leader round effs [] Hasc Hver)
    as (keep & added & cut & -> & Hrec). cbn [app].
  pose proof (reconciled_synced c entries keep added cut (proj1 H0) Hr Hrec) as H1.
  set (c1 := c <| log_tail := _ |>) in *.
  pose proof (follower_advance_synced c1 leader_commit (proj1 H1) Hr) as H2.
  destruct (follower_advance_commit c1 leader_commit) as [c2 advance].
  assert (match added with [] => effs ++ cut | _ => (effs ++ cut) ++ [AppendLogEntries added] end
    = effs ++ cut ++ append_effect added) as ->.
  { destruct added; cbn [append_effect]; by rewrite ?app_nil_r, <- ?app_assoc. }
  rewrite app_assoc. apply (synced_snoc c0 c2); [|done..|by repeat constructor].
  apply (synced_app c0 c1); [|done]. by apply (synced_app c0 c).
Qed.

Lemma ascending_filter P `{!forall e, Decision (P e)} entries :
  ascending entries -> ascending (filter P entries).
Proof.
  induction 1 as [|e entries _ IH Hlt]; [constructor|]. rewrite filter_cons.
  destruct (decide (P e)); [|done]. constructor; [done|].
  apply Forall_forall. intros e' [_ He']%list_elem_of_filter.
  rewrite Forall_forall in Hlt. by apply Hlt.
Qed.

Lemma Forall_filter_keep {A} (Q P : A -> Prop) `{!forall e, Decision (P e)} entries :
  Forall Q entries -> Forall Q (filter P entries).
Proof.
  rewrite !Forall_forall. intros HQ e [_ He]%list_elem_of_filter. by apply HQ.
Qed.

Lemma on_append_entries_synced c term leader prev prev_term entries leader_commit round :
  core_inv c -> roster_len (roster c) <> 1%nat ->
  ascending entries -> Forall (fun e => verify_integrity e = true) entries ->
  synced c (on_append_entries c term leader prev prev_term entries leader_commit round).
Proof.
  intros Hc Hr Hasc Hver. unfold on_append_entries. fold (prologue c term).
  pose proof (prologue_synced c term Hc) as Hp.
  pose proof (prologue_fields c term) as (_ & Hroster & _). cbv zeta in Hroster.
  destruct (prologue c term) as [c1 effs1]. cbn [fst] in Hroster.
  gcase; [eapply synced_snoc; [done..|by repeat constructor]|]. cbv zeta.
  set (c2 := c1 <| role := Follower |> <| known_leader := _ |> <| ticks_since_leader_contact := 0 |>).
  assert (synced c (c2, effs1)) as H2.
  { rewrite <- (app_nil_r effs1). by apply (synced_snoc c c1). }
  assert (roster_len (roster c2) <> 1%nat) as Hr2 by (by rewrite <- Hroster in Hr).
  clearbody c2. set (snap := from_option _ _ _). gcase.
  - pose proof (ascending_filter (fun e => e_index e > snap) _ Hasc) as Hasc'.
    pose proof (Forall_filter_keep _ (fun e => e_index e > snap) _ Hver) as Hver'.
    set (usable := filter _ entries) in *. clearbody usable. destruct usable as [|first rest].
    { eapply synced_snoc; [done..|by repeat constructor]. }
    gcase; [eapply synced_snoc; [done..|by repeat constructor]|].
    by apply reconcile_and_commit_synced.
  - destruct (term_at c2 prev); [|eapply synced_snoc; [done..|by repeat constructor]].
    gcase; [eapply synced_snoc; [done..|by repeat constructor]|].
    by apply reconcile_and_commit_synced.
Qed.

(** *** Replication, leader side *)

Lemma sweep_confirm_views c key :
  log_view (sweep_confirm c key).1 = log_view c
  /\ hard_view (sweep_confirm c key).1 = hard_view c
  /\ Forall volatile (sweep_confirm c key).2.
Proof.
  unfold sweep_confirm. destruct (quorum_rounds c !! key); [|done].
  split_and!; [view_eq..|]. apply Forall_fmap, Forall_forall. by intros.
Qed.

Lemma sweep_views c : let r := sweep_confirmed_quorum_rounds c in
  log_view r.1 = log_view c /\ hard_view r.1 = hard_view c /\ Forall volatile r.2.
Proof.
  unfold sweep_confirmed_quorum_rounds. destruct (sweep_scan c) as [lease keys]. cbv zeta.
  assert (forall c1 effs, Forall volatile effs ->
    let r := foldl (fun '(c, effects) key =>
      let '(c, confirmed) := sweep_confirm c key in (c, effects ++ confirmed)) (c1, effs) keys in
    log_view r.1 = log_view c1 /\ hard_view r.1 = hard_view c1 /\ Forall volatile r.2) as Hfold.
  { induction keys as [|key keys IH]; intros c1 effs Hv; [done|]. cbn [foldl].
    pose proof (sweep_confirm_views c1 key) as (Hl & Hh & Hv').
    destruct (sweep_confirm c1 key) as [c2 confirmed]. cbn [fst snd] in *.
    destruct (IH c2 (effs ++ confirmed)) as (H1 & H2 & H3); [by apply Forall_app|].
    cbv zeta in *. by rewrite H1, H2. }
  destruct (Hfold (c <| leader_lease := lease |>) []) as (H1 & H2 & H3); [constructor|].
  by rewrite H1, H2.
Qed.

Lemma on_append_entries_response_synced c term follower success matched ct ci round :
  core_inv c -> roster_len (roster c) <> 1%nat ->
  synced c (on_append_entries_response c term follower success matched ct ci round).
Proof.
  intros Hc Hr. unfold on_append_entries_response.
  gcase; [by apply step_down_synced; [|lia]|]. gcase; [by apply synced_refl|].
  destruct success; cbv zeta.
  - set (upd := Z.min _ _). set (c1 := c <| match_index := _ |> <| next_index := _ |>
      <| snapshot_send_offset := _ |>).
    assert (core_inv c1) as Hc1 by (eapply core_inv_frame; [view_eq|done]).
    pose proof (try_advance_synced c1 Hc1 Hr) as H1.
    apply (synced_from c c1) in H1; [|view_eq..]. clearbody c1 upd.
    destruct (try_advance_leader_commit c1) as [c2 advance]. cbn [fst snd] in H1.
    set (c3 := match domain_of (roster c2) follower with Some _ => _ | None => _ end).
    assert (log_view c3 = log_view c2 /\ hard_view c3 = hard_view c2) as [Hl3 Hh3].
    { subst c3. destruct (domain_of _ _), (quorum_rounds c2 !! round); try done.
      destruct (decide _); split; view_eq. }
    clearbody c3. pose proof (sweep_views c3) as (Hl4 & Hh4 & Hv4). cbv zeta in *.
    destruct (sweep_confirmed_quorum_rounds c3) as [c4 confirmed]. cbn [fst snd] in *.
    assert (synced c (c4, option_list advance ++ confirmed)) as H4.
    { eapply synced_snoc; [done|congruence..|done]. }
    gcase; [|done]. unfold allocate_quorum_round. cbv zeta.
    eapply synced_snoc; [done|view_eq..|]. repeat constructor. apply build_volatile.
  - unfold allocate_quorum_round. cbv zeta. apply synced_volatile; [done|view_eq..|].
    repeat constructor. apply build_volatile.
Qed.

(** *** Snapshots *)

Lemma install_accepted d m bs effs :
  rh_commit_index d < included_index m ->
  run_effects d (InstallSnapshot m bs :: effs)
  = run_effects (d <| rh_snapshot := Some (m, bs) |> <| rh_commit_index := included_index m |>
      <| rh_log_tail :=
           if decide (e_term <$> d_get d (included_index m) = Some (included_term m))
           then filter (fun e => e_index e > included_index m) (rh_log_tail d) else [] |>) effs.
Proof. intros Hi. cbn [run_effects apply_effect]. by rewrite bool_decide_eq_true_2. Qed.

Lemma installed_inv c m bs l :
  core_inv c -> roster_len (roster c) <> 1%nat ->
  commit_index c < included_index m < u64_max -> contiguous (included_index m + 1) l ->
  core_inv (c <| log_tail := l |> <| snapshot_meta := Some m |> <| snapshot_bytes := Some bs |>
    <| commit_index := Z.max (commit_index c) (included_index m) |>).
Proof.
  intros Hc Hr Hm Hl. pose proof (ci_commit c Hc). pose proof (snapshot_index_range c Hc).
  split; cbn.
  - lia.
  - split; eauto.
  - done.
  - unfold snapshot_index, last_log_index. cbn. split; [lia|].
    destruct (last l) as [e|] eqn:He; [rewrite (contiguous_last _ _ _ Hl He)|]; lia.
  - done.
Qed.

Lemma complete_install_synced c0 c leader li lt total completed effs :
  synced c0 (c, effs) -> roster_len (roster c) <> 1%nat -> commit_index c < li < u64_max ->
  synced c0 (complete_install c leader li lt total completed effs).
Proof.
  intros H0 Hr Hli. unfold complete_install, reset_and_nack. cbv zeta.
  gcase; [eapply synced_snoc; [done|view_eq..|by repeat constructor]|].
  set (c1 := c <| inbound_snapshot := None |>).
  assert (core_inv c1) as Hc1 by (eapply core_inv_frame; [view_eq|apply H0]).
  pose proof (ci_commit c1 Hc1) as Hcommit. set (m := {| included_index := li |}).
  set (l := if bool_decide _ then _ else _).
  assert (l = if decide (e_term <$> d_get (abs c1) li = Some lt)
    then filter (fun e => e_index e > li) (log_tail c1) else []) as El.
  { subst l. rewrite d_get_abs by done. rewrite (term_at_tail c1) by (cbn in *; lia || done).
    by repeat case_decide. }
  assert (contiguous (li + 1) l) as Hl.
  { rewrite El. destruct (decide _); [|apply contiguous_nil].
    apply (contiguous_above _ _ _ (ci_contiguous c1 Hc1)). cbn in *. lia. }
  apply (synced_app c0 c1); [rewrite <- (app_nil_r effs); by apply (synced_snoc c0 c)|].
  split_and!; cbn [fst snd]; [|view_eq|].
  - exact (installed_inv c1 m (st_buffer completed) l Hc1 Hr Hli Hl).
  - rewrite install_accepted by (change (commit_index c < li); lia). cbn [run_effects apply_effect].
    change (rh_log_tail (abs c1)) with (log_tail c1). cbn [included_index included_term m].
    rewrite <- El, (Z.max_r (commit_index c1) li) by (change (commit_index c <= li); lia).
    view_eq.
Qed.

Lemma stage_chunk_synced c0 c leader li lt total off chunk fin staging effs :
  synced c0 (c, effs) -> roster_len (roster c) <> 1%nat -> commit_index c < li < u64_max ->
  synced c0 (stage_chunk c leader li lt total off chunk fin staging effs).
Proof.
  intros H0 Hr Hli. unfold stage_chunk, reset_and_nack. cbv zeta.
  gcase; [eapply synced_snoc; [done..|by repeat constructor]|].
  gcase; [eapply synced_snoc; [done|view_eq..|by repeat constructor]|].
  gcase; [eapply synced_snoc; [done|view_eq..|by repeat constructor]|].
  gcase; [eapply synced_snoc; [done|view_eq..|by repeat constructor]|].
  apply complete_install_synced; [|done..].
  rewrite <- (app_nil_r effs). by apply (synced_snoc c0 c).
Qed.

Lemma on_install_snapshot_chunk_synced c term leader li lt root sha total off chunk fin :
  core_inv c -> roster_len (roster c) <> 1%nat -> li < u64_max ->
  synced c (on_install_snapshot_chunk c term leader li lt root sha total off chunk fin).
Proof.
  intros Hc Hr Hli. unfold on_install_snapshot_chunk. fold (prologue c term).
  pose proof (prologue_synced c term Hc) as Hp.
  pose proof (prologue_fields c term) as (_ & Hroster & _). cbv zeta in Hroster.
  destruct (prologue c term) as [c1 effs1]. cbn [fst] in Hroster. rewrite <- Hroster in Hr.
  clear Hroster. gcase; [eapply synced_snoc; [done..|by repeat constructor]|]. cbv zeta.
  set (c2 := c1 <| role := Follower |> <| known_leader := _ |> <| ticks_since_leader_contact := 0 |>).
  assert (synced c (c2, effs1)) as H2.
  { rewrite <- (app_nil_r effs1). by apply (synced_snoc c c1). }
  change (roster c1) with (roster c2) in Hr. clearbody c2.
  destruct (decide (li <= commit_index c2)) as [Hle|Hgt].
  { eapply synced_snoc; [done..|by repeat constructor]. }
  set (existing := match inbound_snapshot c2 with Some _ => _ | None => _ end). clearbody existing.
  unfold reset_and_nack.
  gcase; [eapply synced_snoc; [done|view_eq..|by repeat constructor]|].
  set (c3 := if existing then c2 else _).
  assert (synced c (c3, effs1)) as H3.
  { rewrite <- (app_nil_r effs1). destruct existing; by apply (synced_snoc c c2). }
  assert (roster c3 = roster c2 /\ commit_index c3 = commit_index c2) as [E1 E2].
  { by destruct existing. }
  rewrite <- E1 in Hr. rewrite <- E2 in Hgt. clearbody c3.
  destruct (inbound_snapshot c3) as [staging|].
  - apply stage_chunk_synced; [done..|lia].
  - eapply synced_snoc; [done|view_eq..|by repeat constructor].
Qed.

Lemma on_install_snapshot_response_synced c term follower li next installed :
  core_inv c -> roster_len (roster c) <> 1%nat ->
  synced c (on_install_snapshot_response c term follower li next installed).
Proof.
  intros Hc Hr. unfold on_install_snapshot_response.
  gcase; [by apply step_down_synced; [|lia]|]. gcase; [by apply synced_refl|].
  destruct (snapshot_meta c) as [m|]; [|by apply synced_refl].
  gcase; [by apply synced_refl|]. unfold allocate_quorum_round. cbv zeta. destruct installed.
  - set (upd := Z.max _ _). set (c1 := c <| snapshot_send_offset := _ |> <| match_index := _ |>
      <| next_index := _ |>).
    assert (core_inv c1) as Hc1 by (eapply core_inv_frame; [view_eq|done]).
    pose proof (try_advance_synced c1 Hc1 Hr) as H1.
    apply (synced_from c c1) in H1; [|view_eq..]. clearbody c1 upd.
    destruct (try_advance_leader_commit c1) as [c2 advance]. cbn [fst snd] in H1.
    gcase; [|done]. eapply synced_snoc; [done|view_eq..|].
    repeat constructor. apply build_volatile.
  - gcase.
    + apply synced_volatile; [done|view_eq..|]. repeat constructor. apply build_volatile.
    + gcase; [by apply synced_refl|].
      apply synced_volatile; [done|view_eq..|]. repeat constructor. apply build_volatile.
Qed.

(** ** Every step *)

(** What a step relies on: counters do not saturate, the entries of a message
    are in order and intact, and a snapshot index is below the maximum. *)
Definition input_ok c (input : ConsensusInput) : Prop :=
  match input with
  | Propose _ _ => last_log_index c < u64_max
  | ReceiveMessage _ (RequestPreVoteResponse _ _ _ _) => current_term c < u64_max
  | ReceiveMessage _ (AppendEntries _ _ _ _ entries _ _) =>
      ascending entries /\ Forall (fun e => verify_integrity e = true) entries
  | ReceiveMessage _ (InstallSnapshotChunk _ _ last_included_index _ _ _ _ _ _ _) =>
      last_included_index < u64_max
  | _ => True
  end.

#[export] Instance strongly_sorted_dec {A} (R : A -> A -> Prop) `{!RelDecision R} l :
  Decision (StronglySorted R l).
Proof.
  induction l as [|a l IH]; [left; constructor|].
  destruct IH as [Hl|Hl]; [|right; by intros [? _]%StronglySorted_inv].
  destruct (decide (Forall (R a) l)) as [Ha|Ha]; [left; by constructor|].
  right. by intros [_ ?]%StronglySorted_inv.
Defined.

#[export] Instance index_lt_dec : RelDecision (fun e1 e2 => e_index e1 < e_index e2).
Proof. intros e1 e2. apply _. Defined.

#[export] Instance input_ok_dec c input : Decision (input_ok c input).
Proof. destruct input as [| | |from []]; simpl; apply _. Defined.

(** A replica that knows another voter is not alone. *)
Lemma peer_not_alone c from :
  core_conf c -> contains (roster c) from = true -> from <> local_id c ->
  roster_len (roster c) <> 1%nat.
Proof.
  intros [Hw Hd] Hin Hne Hone. unfold contains in Hin.
  apply existsb_exists in Hin as (v & Hv%list_elem_of_In & Hid%bool_decide_eq_true).
  apply (domain_of_member _ Hw) in Hd as (w & Hw' & Hwid & _).
  unfold roster_len in Hone. destruct (members (roster c)) as [|x [|]]; [done| |done].
  apply list_elem_of_singleton in Hv, Hw'. congruence.
Qed.

Lemma on_message_synced c from m :
  core_inv c -> core_conf c -> input_ok c (ReceiveMessage from m) -> synced c (on_message c from m).
Proof.
  intros Hc Hconf Hok. unfold on_message. destruct (negb _ || _) eqn:Hguard; [by apply synced_refl|].
  apply orb_false_iff in Hguard as [Hin%negb_false_iff Hne%bool_decide_eq_false].
  pose proof (peer_not_alone c from Hconf Hin Hne) as Hr.
  destruct m; (gcase; [by apply synced_refl|]).
  - apply synced_volatile; [done..|by repeat constructor].
  - by apply on_request_pre_vote_response_synced.
  - by apply on_request_vote_synced.
  - by apply on_request_vote_response_synced.
  - destruct Hok. by apply on_append_entries_synced.
  - by apply on_append_entries_response_synced.
  - by apply on_install_snapshot_chunk_synced.
  - by apply on_install_snapshot_response_synced.
Qed.

Lemma step_synced c input :
  core_inv c -> core_conf c -> input_ok c input -> synced c (step c input).
Proof.
  intros Hc Hconf Hok. destruct input; cbn [step].
  - by apply on_tick_synced.
  - by apply on_propose_synced.
  - by apply on_request_linearizable_read_synced.
  - by apply on_message_synced.
Qed.
End steps.
