(* ===== verification/Durability.v ===== *)
(** * Durability: what storage keeps across the steps of a replica

    Runs of a replica against the abstract durable storage of [RaftLog]. Storage
    never rewrites a committed entry, never regresses a term or a commit index
    and never changes a vote within a term; hence neither does the replica.
    Committed entries are handed over without gap or repetition, and a replica
    that restarts from storage resumes where it was. *)

From S2P Require Import Prelude Bytes Commands Roster RaftTypes RaftCore RaftLog.

(** ** Safety of storage *)

Record d_inv (d : RehydratedCoreState) : Prop := {
  di_contiguous : contiguous (d_snapshot_index d + 1) (rh_log_tail d);
  di_commit : d_snapshot_index d <= rh_commit_index d <= d_last d;
}.

(** [d'] is a later state of storage than [d]. *)
Record d_later (d d' : RehydratedCoreState) : Prop := {
  dl_term : rh_current_term d <= rh_current_term d';
  dl_vote v : rh_current_term d' = rh_current_term d -> rh_voted_for d = Some v ->
    rh_voted_for d' = Some v;
  dl_snapshot : d_snapshot_index d <= d_snapshot_index d';
  dl_commit : rh_commit_index d <= rh_commit_index d';
  dl_entries i : d_snapshot_index d' < i <= rh_commit_index d -> d_get d' i = d_get d i;
}.

#[export] Instance d_later_refl : Reflexive d_later.
Proof. intros d. split; try done. Qed.

#[export] Instance d_later_trans : Transitive d_later.
Proof.
  intros d1 d2 d3 [T1 V1 S1 C1 E1] [T2 V2 S2 C2 E2]. split; try lia.
  - intros v Ht Hv. apply V2; [lia|]. apply V1; [lia|done].
  - intros i Hi. rewrite E2 by lia. apply E1. lia.
Qed.

(** A change that leaves the snapshot alone, keeps the committed part of the log
    and does not regress the hard state. *)
Lemma d_later_keep d d' k extra :
  rh_current_term d <= rh_current_term d' ->
  (forall v, rh_current_term d' = rh_current_term d -> rh_voted_for d = Some v ->
     rh_voted_for d' = Some v) ->
  rh_snapshot d' = rh_snapshot d -> rh_commit_index d <= rh_commit_index d' ->
  rh_log_tail d' = take k (rh_log_tail d) ++ extra -> (k <= length (rh_log_tail d))%nat ->
  rh_commit_index d <= d_snapshot_index d + Z.of_nat k -> d_later d d'.
Proof.
  intros Ht Hv Hs Hc Hl Hk Hkc.
  assert (d_snapshot_index d' = d_snapshot_index d) as Hsi by (unfold d_snapshot_index; by rewrite Hs).
  split; try done; [lia|]. intros i Hi. unfold d_get. rewrite Hsi, Hl. rewrite Hsi in Hi.
  rewrite !decide_True by lia. rewrite lookup_app_l by (rewrite length_take; lia).
  apply lookup_take_lt. lia.
Qed.

Lemma d_inv_log d l :
  d_inv d -> contiguous (d_snapshot_index d + 1) l ->
  rh_commit_index d <= d_snapshot_index d + Z.of_nat (length l) ->
  d_inv (d <| rh_log_tail := l |>).
Proof.
  intros [_ Hc] Hl Hle. split; [done|].
  change (d_snapshot_index d <= rh_commit_index d <= d_snapshot_index d + Z.of_nat (length l)). lia.
Qed.

Lemma contiguous_of_indices base es :
  e_index <$> es = seqZ base (Z.of_nat (length es)) -> contiguous base es.
Proof.
  intros Hi i e He. pose proof (lookup_lt_Some _ _ _ He) as Hlt.
  assert ((e_index <$> es) !! i = Some (e_index e)) as Hl by (by rewrite list_lookup_fmap, He).
  rewrite Hi in Hl. apply lookup_seqZ in Hl. lia.
Qed.

Section effects.
Context (d d' : RehydratedCoreState) (Hd : d_inv d).

Lemma persist_safe t v :
  apply_effect d (PersistHardState t v) = Some d' -> d_inv d' /\ d_later d d'.
Proof.
  cbn [apply_effect]. destruct (_ || _) eqn:Hg; [done|]. intros [= <-].
  apply orb_false_iff in Hg as [Ht%bool_decide_eq_false Hv].
  split; [destruct Hd; by split|].
  pose proof (di_commit d Hd) as Hc. unfold d_last in Hc.
  apply (d_later_keep _ _ (length (rh_log_tail d)) []); try done; [cbn; lia| | |lia].
  - cbn. intros w -> Hw. rewrite Hw in Hv. rewrite !bool_decide_eq_true_2 in Hv by eauto.
    apply bool_decide_eq_false in Hv. by apply dec_stable in Hv.
  - by rewrite firstn_all, app_nil_r.
Qed.

Lemma truncate_safe i :
  apply_effect d (TruncateLogSuffixFrom i) = Some d' -> d_inv d' /\ d_later d d'.
Proof.
  cbn [apply_effect]. case_bool_decide as Hi; [done|]. intros [= <-].
  destruct Hd as [Hcont Hc]. unfold d_last in Hc. rewrite (contiguous_filter_lt _ _ _ Hcont).
  set (k0 := Z.to_nat _).
  assert (take k0 (rh_log_tail d) = take (Nat.min k0 (length (rh_log_tail d))) (rh_log_tail d)) as ->
    by (by rewrite <- take_take, firstn_all).
  set (k := Nat.min _ _).
  assert (rh_commit_index d <= d_snapshot_index d + Z.of_nat k) as Hk by lia. split.
  - apply d_inv_log; [done|by apply contiguous_take|]. rewrite length_take. lia.
  - apply (d_later_keep _ _ k []); try done; [|lia]. by rewrite app_nil_r.
Qed.

Lemma append_safe es :
  apply_effect d (AppendLogEntries es) = Some d' -> d_inv d' /\ d_later d d'.
Proof.
  cbn [apply_effect]. case_bool_decide as Hes; [|done]. intros [= <-].
  apply contiguous_of_indices in Hes. destruct Hd as [Hcont Hc]. unfold d_last in *. split.
  - apply d_inv_log; [done| |rewrite length_app; lia]. apply contiguous_app. split; [done|].
    by replace (d_snapshot_index d + 1 + Z.of_nat (length (rh_log_tail d)))
      with (d_snapshot_index d + Z.of_nat (length (rh_log_tail d)) + 1) by lia.
  - apply (d_later_keep _ _ (length (rh_log_tail d)) es); try done; [|lia].
    by rewrite firstn_all.
Qed.

Lemma advance_safe i t newly :
  apply_effect d (AdvanceCommitIndex i t newly) = Some d' -> d_inv d' /\ d_later d d'.
Proof.
  cbn [apply_effect]. destruct (_ && _) eqn:Hg; [|done]. intros [= <-].
  apply andb_true_iff in Hg as [Hi%bool_decide_eq_true _]. destruct Hd as [Hcont Hc]. split.
  - split; [done|]. unfold d_last, d_snapshot_index in *. cbn in *. lia.
  - unfold d_last in *. apply (d_later_keep _ _ (length (rh_log_tail d)) []); try done;
      [cbn; lia| |lia]. by rewrite firstn_all, app_nil_r.
Qed.

Lemma install_safe m bs :
  apply_effect d (InstallSnapshot m bs) = Some d' -> d_inv d' /\ d_later d d'.
Proof.
  cbn [apply_effect]. case_bool_decide as Hi; [|done]. intros [= <-].
  destruct Hd as [Hcont Hc]. set (l := if decide _ then _ else _).
  assert (contiguous (included_index m + 1) l) as Hl.
  { subst l. destruct (decide _); [|apply contiguous_nil].
    apply (contiguous_above _ _ _ Hcont). lia. }
  clearbody l. split; split; cbn; try done; unfold d_last, d_snapshot_index in *; cbn; lia.
Qed.

Lemma apply_effect_safe eff : apply_effect d eff = Some d' -> d_inv d' /\ d_later d d'.
Proof.
  destruct eff; eauto using persist_safe, truncate_safe, append_safe, advance_safe, install_safe;
    by intros [= <-].
Qed.
End effects.

Lemma run_effects_safe effs : forall d d',
  d_inv d -> run_effects d effs = Some d' -> d_inv d' /\ d_later d d'.
Proof.
  induction effs as [|eff effs IH]; intros d d' Hd; [by intros [= <-]|].
  cbn [run_effects]. intros (d1 & H1 & H2)%bind_Some.
  destruct (apply_effect_safe d d1 Hd eff H1) as [Hd1 Hl1].
  destruct (IH d1 d' Hd1 H2) as [Hd' Hl']. split; [done|by etrans].
Qed.

(** ** Delivery of committed entries *)

(** The entries the effects hand to the state machine, in order. *)
Definition delivered (effs : list ConsensusEffect) : list RaftLogEntry :=
  concat ((fun eff => match eff with AdvanceCommitIndex _ _ newly => newly | _ => [] end) <$> effs).

Definition is_install (eff : ConsensusEffect) : Prop :=
  match eff with InstallSnapshot _ _ => True | _ => False end.

Lemma d_range_slice d lo hi :
  d_inv d -> d_snapshot_index d <= lo ->
  d_range d lo hi
  = take (Z.to_nat (hi - lo)) (drop (Z.to_nat (lo - d_snapshot_index d)) (rh_log_tail d)).
Proof.
  intros [Hc _] Hlo. unfold d_range.
  rewrite (list_filter_iff _ (fun e => e_index e < hi + 1 /\ e_index e > lo)) by lia.
  rewrite <- list_filter_filter, (contiguous_filter_gt _ _ _ Hc).
  replace (lo + 1 - (d_snapshot_index d + 1)) with (lo - d_snapshot_index d) by lia.
  rewrite (contiguous_filter_lt (lo + 1)); [f_equal; lia|].
  pose proof (contiguous_drop _ _ (Z.to_nat (lo - d_snapshot_index d)) Hc) as Hd.
  by replace (_ + _) with (lo + 1) in Hd by lia.
Qed.

Lemma d_range_contiguous d lo hi :
  d_inv d -> d_snapshot_index d <= lo -> lo <= hi <= d_last d ->
  contiguous (lo + 1) (d_range d lo hi) /\ Z.of_nat (length (d_range d lo hi)) = hi - lo.
Proof.
  intros Hd Hlo Hhi. rewrite d_range_slice by done. unfold d_last in Hhi. split.
  - apply contiguous_take.
    pose proof (contiguous_drop _ _ (Z.to_nat (lo - d_snapshot_index d)) (di_contiguous d Hd)) as Hc.
    by replace (_ + _) with (lo + 1) in Hc by lia.
  - rewrite length_take, length_drop. lia.
Qed.

Lemma delivered_app effs1 effs2 : delivered (effs1 ++ effs2) = delivered effs1 ++ delivered effs2.
Proof. unfold delivered. by rewrite fmap_app, concat_app. Qed.

Lemma apply_effect_delivers d d' eff :
  d_inv d -> ~ is_install eff -> apply_effect d eff = Some d' ->
  contiguous (rh_commit_index d + 1) (delivered [eff])
  /\ rh_commit_index d' = rh_commit_index d + Z.of_nat (length (delivered [eff])).
Proof.
  intros Hd Hn. unfold delivered. cbn [fmap list_fmap concat]. rewrite app_nil_r.
  assert (forall d1, rh_commit_index d1 = rh_commit_index d ->
    contiguous (rh_commit_index d + 1) []
    /\ rh_commit_index d1 = rh_commit_index d + Z.of_nat (length (@nil RaftLogEntry))) as Hnil.
  { intros d1 ->. split; [apply contiguous_nil|cbn; lia]. }
  destruct eff as [t v|m bs|i|es|i t newly| | | |]; cbn [apply_effect]; try done;
    try (intros [= <-]; by apply Hnil); destruct (_ : bool) eqn:Hg; try done; intros [= <-];
    try (by apply Hnil).
  apply andb_true_iff in Hg as [Hi%bool_decide_eq_true ->%bool_decide_eq_true].
  pose proof (di_commit d Hd).
  destruct (d_range_contiguous d (rh_commit_index d) i) as [Hc Hl]; [done|lia|lia|].
  split; [done|]. cbn. lia.
Qed.

(** Without a snapshot, exactly the entries between the old and the new commit
    index are delivered. *)
Lemma run_effects_delivered effs : forall d d',
  d_inv d -> Forall (fun eff => ~ is_install eff) effs -> run_effects d effs = Some d' ->
  contiguous (rh_commit_index d + 1) (delivered effs)
  /\ Z.of_nat (length (delivered effs)) = rh_commit_index d' - rh_commit_index d.
Proof.
  induction effs as [|eff effs IH]; intros d d' Hd Hni.
  { intros [= <-]. cbn. split; [apply contiguous_nil|lia]. }
  apply Forall_cons in Hni as [Hn Hni]. cbn [run_effects]. intros (d1 & H1 & H2)%bind_Some.
  destruct (apply_effect_safe d d1 Hd eff H1) as [Hd1 _].
  destruct (IH d1 d' Hd1 Hni H2) as [Hc Hl].
  change (eff :: effs) with ([eff] ++ effs). rewrite delivered_app, length_app.
  set (new := delivered [eff]).
  assert (contiguous (rh_commit_index d + 1) new
    /\ rh_commit_index d1 = rh_commit_index d + Z.of_nat (length new)) as [Hnew Hcm].
  { by apply apply_effect_delivers. }
  split; [|lia]. apply contiguous_app. split; [done|].
  by replace (rh_commit_index d + 1 + Z.of_nat (length new)) with (rh_commit_index d1 + 1) by lia.
Qed.

Lemma run_effects_snapshot effs : forall d d',
  Forall (fun eff => ~ is_install eff) effs -> run_effects d effs = Some d' ->
  d_snapshot_index d' = d_snapshot_index d.
Proof.
  induction effs as [|eff effs IH]; intros d d' Hni; [by intros [= <-]|].
  apply Forall_cons in Hni as [Hn Hni]. cbn [run_effects]. intros (d1 & H1 & H2)%bind_Some.
  rewrite (IH _ _ Hni H2). destruct eff; cbn [apply_effect] in H1; try done;
    try (by injection H1 as <-); destruct (_ : bool); try done; by injection H1 as <-.
Qed.

Lemma d_get_member d e : d_inv d -> e ∈ rh_log_tail d -> d_get d (e_index e) = Some e.
Proof.
  intros Hd [i Hi]%list_elem_of_lookup. unfold d_get.
  rewrite (di_contiguous d Hd _ _ Hi), decide_True by lia. by replace (Z.to_nat _) with i by lia.
Qed.

(** A delivered entry is the one storage holds. *)
Lemma run_effects_kept effs : forall d d' e,
  d_inv d -> Forall (fun eff => ~ is_install eff) effs -> run_effects d effs = Some d' ->
  e ∈ delivered effs -> d_get d' (e_index e) = Some e.
Proof.
  induction effs as [|eff effs IH]; intros d d' e Hd Hni; [by intros _ ?%elem_of_nil|].
  apply Forall_cons in Hni as [Hn Hni]. cbn [run_effects]. intros (d1 & H1 & H2)%bind_Some.
  destruct (apply_effect_safe d d1 Hd eff H1) as [Hd1 Hl1].
  change (eff :: effs) with ([eff] ++ effs). rewrite delivered_app.
  intros [He|He]%elem_of_app; [|by eapply IH].
  destruct (run_effects_safe effs d1 d' Hd1 H2) as [_ Hl2].
  destruct eff as [| | | |i t newly| | | |]; cbn in He; try by apply elem_of_nil in He.
  rewrite app_nil_r in He. cbn [apply_effect] in H1. destruct (_ && _) eqn:Hg; [|done].
  apply andb_true_iff in Hg as [Hi%bool_decide_eq_true ->%bool_decide_eq_true].
  injection H1 as <-. apply list_elem_of_filter in He as [Hidx Hin].
  pose proof (d_get_member d e Hd Hin) as Hget. pose proof (di_commit d Hd).
  rewrite (dl_entries _ _ Hl2); [done|]. rewrite (run_effects_snapshot _ _ _ Hni H2).
  cbn. unfold d_snapshot_index in *. cbn. lia.
Qed.

(** ** Runs of a replica *)

Section runs.
Context `{Sha256}.
Implicit Types (c : ConsensusCore) (inputs : list ConsensusInput).

Fixpoint run c inputs : stepped :=
  match inputs with
  | [] => (c, [])
  | input :: inputs =>
      let '(c1, effs1) := step c input in
      let '(c2, effs2) := run c1 inputs in
      (c2, effs1 ++ effs2)
  end.

Fixpoint inputs_ok c inputs : Prop :=
  match inputs with
  | [] => True
  | input :: inputs => input_ok c input /\ inputs_ok (step c input).1 inputs
  end.

#[export] Instance inputs_ok_dec c inputs : Decision (inputs_ok c inputs).
Proof. revert c. induction inputs; intros c; simpl; apply _. Defined.

Lemma run_synced inputs : forall c,
  core_inv c -> core_conf c -> inputs_ok c inputs -> synced c (run c inputs).
Proof.
  induction inputs as [|input inputs IH]; intros c Hc Hf; [by intros; apply synced_refl|].
  intros [Hi His]. cbn [run].
  pose proof (step_synced c input Hc Hf Hi) as H1. destruct (step c input) as [c1 effs1].
  cbn [fst] in His. assert (core_conf c1) as Hf1 by (eapply core_conf_frame; [apply H1|done]).
  pose proof (IH c1 (proj1 H1) Hf1 His) as H2. destruct (run c1 inputs) as [c2 effs2].
  by eapply synced_app.
Qed.

Lemma d_inv_abs c : core_inv c -> d_inv (abs c).
Proof.
  intros Hc. split; rewrite d_snapshot_index_abs by done; [apply Hc|].
  rewrite d_last_abs by done. apply Hc.
Qed.

Lemma run_later inputs c c' effs :
  core_inv c -> core_conf c -> inputs_ok c inputs -> run c inputs = (c', effs) ->
  core_inv c' /\ core_conf c' /\ d_later (abs c) (abs c').
Proof.
  intros Hc Hf Hok Hrun. pose proof (run_synced inputs c Hc Hf Hok) as (H1 & H2 & H3).
  rewrite Hrun in H1, H2, H3. cbn [fst snd] in *. split_and!; [done|by eapply core_conf_frame|].
  by apply (run_effects_safe effs); [apply d_inv_abs|].
Qed.

(** *** Construction and restart *)

Lemma core_new_fields local r t c :
  core_new local r t = Ok c ->
  conf_view c = conf_view (blank_core local (local_domain c) r t)
  /\ domain_of r local = Some (local_domain c) /\ log_view c = log_view (blank_core local (local_domain c) r t)
  /\ (roster_len r <> 1%nat -> c = blank_core local (local_domain c) r t).
Proof.
  unfold core_new. destruct (timing_validate t) as [t'|] eqn:Ht; [|done].
  assert (t' = t) as ->.
  { unfold timing_validate in Ht. case_match; by simplify_eq. }
  destruct (domain_of r local) as [dom|] eqn:Hd; [|done].
  cbv zeta. destruct (decide (roster_len r = 1%nat)); intros Hq%Ok_inj; subst c;
    (split_and!; [view_eq|reflexivity|view_eq|intros ?; contradiction || reflexivity]).
Qed.

Lemma core_new_inv local voters r t c :
  roster_new voters = Ok r -> core_new local r t = Ok c -> core_inv c /\ core_conf c.
Proof.
  intros [Hr _]%roster_new_wf (Hf & Hd & Hl & _)%core_new_fields. split.
  - eapply core_inv_frame; [exact Hl|]. split; cbn; done.
  - eapply core_conf_frame; [exact Hf|]. by split.
Qed.

Lemma rehydrate_abs local r t c :
  core_inv c -> core_conf c -> conf_view c = (local, local_domain c, r, t) ->
  (exists c0, core_new local r t = Ok c0) ->
  exists c', rehydrate local r t (abs c) = Ok c' /\ log_view c' = log_view c
    /\ (roster_len r <> 1%nat -> hard_view c' = hard_view c /\ role c' = Follower).
Proof.
  intros Hc [Hr Hd] Hv (c0 & Hnew).
  pose proof (core_new_fields _ _ _ _ Hnew) as (Hf0 & Hd0 & _).
  injection Hv as El Er Et. rewrite El, Er, Hd0 in Hd. injection Hd as Hd.
  assert (fst <$> rh_snapshot (abs c) = snapshot_meta c) as Hm.
  { pose proof (ci_bytes c Hc) as Hb. unfold abs. cbn.
    destruct (snapshot_meta c), (snapshot_bytes c); try done.
    destruct Hb as [_ Hb]. destruct Hb as [? ?]; [eauto|done]. }
  assert (snd <$> rh_snapshot (abs c) = snapshot_bytes c) as Hs.
  { pose proof (ci_bytes c Hc) as Hb. unfold abs. cbn.
    destruct (snapshot_meta c), (snapshot_bytes c); try done.
    destruct Hb as [Hb _]. destruct Hb as [? ?]; [eauto|done]. }
  assert (Z.max (commit_index c) (from_option included_index 0 (snapshot_meta c)) = commit_index c)
    as Hmax. { pose proof (ci_commit c Hc) as Hcm. unfold snapshot_index in Hcm. lia. }
  unfold rehydrate. rewrite Hnew, Hm, Hs. cbv zeta.
  change (rh_commit_index (abs c)) with (commit_index c). rewrite Hmax.
  assert (conf_view c0 = conf_view c) as Hcf.
  { rewrite Hf0. unfold conf_view. cbn. congruence. }
  destruct (decide (roster_len r = 1%nat)) as [Hone|Hone]; eexists; (split; [reflexivity|]).
  - split; [|done]. rewrite <- Er in Hone. pose proof (ci_single c Hc Hone) as Hlast.
    unfold log_view. rewrite Hlast. apply (f_equal2 pair); [cbn; reflexivity|exact Hcf].
  - split; [|by split]. apply (f_equal2 pair); [cbn; reflexivity|exact Hcf].
Qed.

(** ** Theorems *)


(** C21. History is immutable. Whatever a replica receives, its commit index and
    its term never regress, a vote cast in a term stands as long as the term
    does, and every entry up to the commit index stays where it is until a
    snapshot covers it. *)
Theorem committed_history_immutable c inputs c' effs :
  core_inv c -> core_conf c -> inputs_ok c inputs -> run c inputs = (c', effs) ->
  commit_index c <= commit_index c' /\ current_term c <= current_term c'
  /\ (forall v, current_term c' = current_term c -> voted_for c = Some v -> voted_for c' = Some v)
  /\ (forall i, snapshot_index c' < i <= commit_index c -> tail_get c' i = tail_get c i).
Proof.
  intros Hc Hf Hok Hrun. destruct (run_later _ _ _ _ Hc Hf Hok Hrun) as (Hc' & _ & [T V S C E]).
  split_and!; [done..|]. intros i Hi. rewrite <- !d_get_abs by done. apply E.
  by rewrite d_snapshot_index_abs.
Qed.

(** Committed entries are delivered once and in order. As long as no
    snapshot is installed, the entries that the steps hand to the state machine
    have consecutive indices from just above the old commit index up to the new
    one, and each is the entry the replica's log holds there. *)
Theorem committed_entries_in_order c inputs c' effs :
  core_inv c -> core_conf c -> inputs_ok c inputs -> run c inputs = (c', effs) ->
  Forall (fun eff => ~ is_install eff) effs ->
  contiguous (commit_index c + 1) (delivered effs)
  /\ Z.of_nat (length (delivered effs)) = commit_index c' - commit_index c
  /\ forall e, e ∈ delivered effs -> tail_get c' (e_index e) = Some e.
Proof.
  intros Hc Hf Hok Hrun Hni. pose proof (run_synced inputs c Hc Hf Hok) as (H1 & _ & H2).
  rewrite Hrun in H1, H2. cbn [fst snd] in *.
  destruct (run_effects_delivered _ _ _ (d_inv_abs c Hc) Hni H2) as [Hcont Hlen].
  split_and!; [done..|]. intros e He. rewrite <- d_get_abs by done.
  by apply (run_effects_kept effs (abs c)); [apply d_inv_abs|..].
Qed.

(** A restarted replica resumes where it was. Rebuilding a replica from what
    storage holds after a run gives back its log, snapshot and commit index,
    keeps the invariant, and with other voters also its term and vote; it
    restarts as a follower. *)
Theorem restart_resumes local voters r t c0 inputs c effs d :
  roster_new voters = Ok r -> core_new local r t = Ok c0 ->
  inputs_ok c0 inputs -> run c0 inputs = (c, effs) -> run_effects (abs c0) effs = Some d ->
  exists c', rehydrate local r t d = Ok c' /\ core_inv c' /\ core_conf c'
    /\ log_view c' = log_view c
    /\ (roster_len r <> 1%nat -> abs c' = abs c /\ role c' = Follower).
Proof.
  intros Hr Hnew Hok Hrun Hd. destruct (core_new_inv _ _ _ _ _ Hr Hnew) as [Hc Hf].
  pose proof (run_synced inputs c0 Hc Hf Hok) as (H1 & Hv & H2). rewrite Hrun in H1, Hv, H2.
  cbn [fst snd] in *. rewrite Hd in H2. injection H2 as ->.
  pose proof (core_new_fields _ _ _ _ Hnew) as (Hf0 & _).
  assert (core_conf c) as Hfc by (by eapply core_conf_frame).
  destruct (rehydrate_abs local r t c) as (c' & Hre & Hl & Hh); [done|done| |eauto|].
  { rewrite Hf0 in Hv. unfold conf_view in *. cbn in Hv. congruence. }
  exists c'. split_and!; [done|by eapply core_inv_frame| |done|].
  - eapply core_conf_frame; [by apply log_view_conf|done].
  - intros Hone. destruct (Hh Hone). split; [by apply abs_frame|done].
Qed.
End runs.

(** ** Local snapshots *)

Section local_snapshots.
Implicit Types (c : ConsensusCore) (d : RehydratedCoreState) (m : SnapshotMetadata) (b : bytes).

(** Storage after a snapshot: the log above it. *)
Definition snapshot_taken d m b : RehydratedCoreState :=
  d <| rh_snapshot := Some (m, b) |>
    <| rh_log_tail := filter (fun e => e_index e > included_index m) (rh_log_tail d) |>.

(** The fields a local snapshot leaves alone. *)
Definition voting_view c := (role c, current_term c, voted_for c, votes_granted_domains c, conf_view c).

Lemma record_local_view c m b :
  core_inv c -> included_index m = commit_index c -> 1 <= included_index m ->
  let c' := (record_local_snapshot c m b (included_index m)).1 in
  voting_view c' = voting_view c /\ abs c' = snapshot_taken (abs c) m b
  /\ snapshot_meta c' = Some m /\ snapshot_bytes c' = Some b /\ commit_index c' = commit_index c
  /\ log_tail c' = filter (fun e => e_index e > included_index m) (log_tail c).
Proof.
  intros Hc Hm Hi. unfold record_local_snapshot. rewrite !bool_decide_eq_false_2 by lia. cbn [orb].
  assert (match snapshot_meta c with
    | Some existing => bool_decide (included_index m < included_index existing)
    | None => false end = false) as ->.
  { pose proof (ci_commit c Hc) as Hcm. unfold snapshot_index in Hcm.
    destruct (snapshot_meta c); [|done]. apply bool_decide_eq_false_2. cbn in Hcm. lia. }
  rewrite Z.min_id, decide_True by done. cbn [fst]. split_and!; reflexivity.
Qed.

(** A replica that drops what a snapshot at its commit index covers stays
    consistent, and storage that does the same agrees with it. *)
Lemma record_local_inv c m b :
  core_inv c -> included_index m = commit_index c -> 1 <= included_index m < u64_max ->
  let c' := (record_local_snapshot c m b (included_index m)).1 in
  core_inv c' /\ voting_view c' = voting_view c /\ abs c' = snapshot_taken (abs c) m b
  /\ last_log_index c' = last_log_index c /\ d_later (abs c) (abs c').
Proof.
  intros Hc Hm Hi c'. destruct (record_local_view c m b Hc Hm) as (Hv & Habs & Em & Eb & Ek & El); [lia|].
  fold c' in Hv, Habs, Em, Eb, Ek, El. pose proof (ci_commit c Hc) as Hcm. pose proof (ci_contiguous c Hc) as Hl.
  assert (snapshot_index c' = commit_index c) as Es by (unfold snapshot_index; by rewrite Em).
  assert (contiguous (snapshot_index c' + 1) (log_tail c')) as Hl'.
  { rewrite El, Es, <- Hm. apply (contiguous_above _ _ _ Hl). lia. }
  assert (last_log_index c' = last_log_index c) as Hlast.
  { rewrite (last_log_index_length c Hc) in *. unfold last_log_index. fold (snapshot_index c').
    assert (Z.of_nat (length (log_tail c')) = snapshot_index c + Z.of_nat (length (log_tail c)) - commit_index c)
      as Hlen by (rewrite El, (contiguous_filter_gt _ _ _ Hl), length_drop; lia).
    destruct (last (log_tail c')) as [e|] eqn:He.
    - rewrite (contiguous_last _ _ _ Hl' He), Es, Hlen. lia.
    - apply last_None in He. rewrite He in Hlen. cbn in Hlen. fold (snapshot_index c'). lia. }
  assert (roster c' = roster c) as Er by (unfold voting_view, conf_view in Hv; congruence).
  assert (core_inv c') as Hc'.
  { split; [by rewrite Em|rewrite Em, Eb; by split; eauto|done|rewrite Hlast, Es, Ek; lia|].
    rewrite Hlast, Ek, Er. apply Hc. }
  split_and!; [done..|]. injection Hv as _ Et Ev _. split.
  - change (current_term c <= current_term c'). by rewrite Et.
  - intros v _ Hvote. change (voted_for c' = Some v). by rewrite Ev.
  - rewrite (d_snapshot_index_abs c Hc), (d_snapshot_index_abs c' Hc'). lia.
  - change (commit_index c <= commit_index c'). by rewrite Ek.
  - intros i. rewrite (d_snapshot_index_abs c' Hc'). change (rh_commit_index (abs c)) with (commit_index c). lia.
Qed.
End local_snapshots.

(** ** A concrete run: an election, a proposal, and a new leader *)

Definition sample_core : ConsensusCore := blank_core 1 101 sample_roster timing_default.

Lemma sample_core_new : core_new 1 sample_roster timing_default = Ok sample_core.
Proof. vm_compute. reflexivity. Qed.

(** Replica 1 times out, wins the election of term 1 with replica 2, and commits
    a proposal with it. *)
Definition sample_inputs : list ConsensusInput :=
  replicate 10 Tick ++
  [ReceiveMessage 2 (RequestPreVoteResponse 0 1 2 true);
   ReceiveMessage 2 (RequestVoteResponse 1 2 true);
   Propose sample_proposal None;
   ReceiveMessage 2 (AppendEntriesResponse 1 2 true 1 None 0 2)].

(** Replica 3 then takes over in term 2, overwrites an uncommitted proposal and
    commits its own. *)
Definition sample_takeover : list ConsensusInput :=
  let e := entry_new (H := checksum_hasher) 2 2 sample_proposal in
  [Propose sample_proposal (Some 1);
   ReceiveMessage 3 (RequestVote 2 3 2 1);
   ReceiveMessage 3 (AppendEntries 2 3 1 1 [e] 2 7)].

Definition sample_run : stepped := run (H := checksum_hasher) sample_core sample_inputs.
Definition sample_run2 : stepped := run (H := checksum_hasher) sample_run.1 sample_takeover.

Lemma sample_run_eq :
  run (H := checksum_hasher) sample_core sample_inputs = (sample_run.1, sample_run.2).
Proof. unfold sample_run. by destruct (run _ _). Qed.
Lemma sample_run2_eq :
  run (H := checksum_hasher) sample_run.1 sample_takeover = (sample_run2.1, sample_run2.2).
Proof. unfold sample_run2. by destruct (run _ sample_takeover). Qed.

Lemma sample_inputs_ok : inputs_ok (H := checksum_hasher) sample_core sample_inputs.
Proof. apply (bool_decide_unpack _). vm_compute. exact I. Qed.

Lemma sample_takeover_ok : inputs_ok (H := checksum_hasher) sample_run.1 sample_takeover.
Proof. apply (bool_decide_unpack _). vm_compute. exact I. Qed.

Example sample_run_shape :
  commit_index sample_run.1 = 1 /\ role sample_run.1 = Leader
  /\ commit_index sample_run2.1 = 2 /\ current_term sample_run2.1 = 2
  /\ e_term <$> log_tail sample_run2.1 = [1; 2]
  /\ e_index <$> delivered sample_run2.2 = [2].
Proof. vm_compute. split_and!; reflexivity. Qed.


Lemma sample_run_inv : core_inv sample_run.1 /\ core_conf sample_run.1.
Proof.
  destruct (core_new_inv _ _ _ _ _ sample_roster_new sample_core_new) as [Hc Hf].
  destruct (run_later (H := checksum_hasher) sample_inputs sample_core _ _ Hc Hf sample_inputs_ok
    sample_run_eq) as (? & ? & _). by split.
Qed.

Lemma committed_history_immutable_witness :
  commit_index sample_run.1 <= commit_index sample_run2.1
  /\ current_term sample_run.1 <= current_term sample_run2.1
  /\ (forall v, current_term sample_run2.1 = current_term sample_run.1 ->
        voted_for sample_run.1 = Some v -> voted_for sample_run2.1 = Some v)
  /\ (forall i, snapshot_index sample_run2.1 < i <= commit_index sample_run.1 ->
        tail_get sample_run2.1 i = tail_get sample_run.1 i).
Proof.
  apply (committed_history_immutable (H := checksum_hasher) sample_run.1 sample_takeover
    sample_run2.1 sample_run2.2); [apply sample_run_inv..|exact sample_takeover_ok|].
  exact sample_run2_eq.
Defined.

Lemma committed_entries_in_order_witness :
  contiguous (commit_index sample_run.1 + 1) (delivered sample_run2.2)
  /\ Z.of_nat (length (delivered sample_run2.2)) = commit_index sample_run2.1 - commit_index sample_run.1
  /\ forall e, e ∈ delivered sample_run2.2 -> tail_get sample_run2.1 (e_index e) = Some e.
Proof.
  apply (committed_entries_in_order (H := checksum_hasher) sample_run.1 sample_takeover
    sample_run2.1 sample_run2.2); [apply sample_run_inv..|exact sample_takeover_ok| |].
  - exact sample_run2_eq.
  - vm_compute. repeat constructor; intros [].
Defined.

Lemma restart_resumes_witness :
  exists c', rehydrate 1 sample_roster timing_default (abs sample_run.1) = Ok c' /\ core_inv c'
    /\ core_conf c' /\ log_view c' = log_view sample_run.1
    /\ (roster_len sample_roster <> 1%nat -> abs c' = abs sample_run.1 /\ role c' = Follower).
Proof.
  apply (restart_resumes (H := checksum_hasher) 1 sample_voters sample_roster timing_default
    sample_core sample_inputs sample_run.1 sample_run.2);
    [exact sample_roster_new|exact sample_core_new|exact sample_inputs_ok| |].
  - exact sample_run_eq.
  - vm_compute. reflexivity.
Defined.
