(* ===== verification/Wire.v ===== *)
(** * Wire: frames of Raft messages

    [encode_raft_message] and [decode_raft_message] of
    nlos-consensus/src/net_driver.rs with their [WireReader]: a message
    travels in a frame of a magic number, a tag, its fields and a digest of all
    of it. A panic of the encoder, on a list too long for its length field, is
    [None]. *)

From S2P Require Import Prelude Bytes Commands StateMachine Roster RaftTypes RaftCore RaftLog Durability.

Inductive RaftWireCodecError :=
  | InvalidMagic
  | WireTruncated
  | WireTrailingBytes
  | InvalidField (field : string)
  | ChecksumMismatch
  | WireScopeViolation (error : ScopeViolationError).

Definition RAFT_WIRE_MAGIC : bytes := Eval vm_compute in bytes_of_string "NLOSRF01".

(** ** The reader *)

Abbreviation wreader := (parser RaftWireCodecError).

Definition wire_slice (len : nat) : wreader bytes := take_slice WireTruncated len.
Definition wire_be (len : nat) : wreader Z := s ← wire_slice len; mret (be_value s).
Definition wire_u8 : wreader Z := wire_be 1.
Definition wire_bool : wreader bool :=
  b ← wire_u8;
  match b with
  | 0 => mret false
  | 1 => mret true
  | _ => fail_with (InvalidField "bool")
  end.
Definition wire_u32 : wreader Z := wire_be 4.
Definition wire_u64 : wreader Z := wire_be 8.
Definition wire_16 : wreader Z := wire_be 16.
Definition wire_32 : wreader Z := wire_be 32.
Definition wire_cell : wreader Z :=
  b ← wire_16; if decide (b = 0) then fail_with (InvalidField "zero CellIdentity") else mret b.

(** The [conflict_term] of an append response. *)
Definition wire_conflict_term : wreader (option Z) :=
  flag ← wire_u8;
  match flag with
  | 0 => mret None
  | 1 => ct ← wire_u64; mret (Some ct)
  | _ => fail_with (InvalidField "conflict_term flag")
  end.

Section codec.
Context `{Sha256}.
Implicit Types (e : RaftLogEntry) (m : RaftMessage).

(** ** Encoding *)

(** [u32::try_from(len).expect(..)] *)
Definition len_u32 (len : nat) : option Z :=
  if decide (Z.of_nat len <= u32_max) then Some (Z.of_nat len) else None.

Definition encode_entry e : option bytes :=
  let body := encode_command_body (e_proposal e) in
  body_len ← len_u32 (length body);
  Some (be_bytes 8 (e_index e) ++ be_bytes 8 (e_term e)
    ++ [family_as_u8 (family_code (command (e_proposal e)))]
    ++ be_bytes 16 (idempotency_key (e_proposal e))
    ++ be_bytes 4 body_len ++ body ++ be_bytes 32 (e_sha256 e)).

Definition encode_message_fields m : option bytes :=
  match m with
  | RequestPreVote prospective_term candidate_id last_log_index last_log_term =>
      Some ([1] ++ be_bytes 8 prospective_term ++ be_bytes 16 candidate_id
        ++ be_bytes 8 last_log_index ++ be_bytes 8 last_log_term)
  | RequestPreVoteResponse term prospective_term voter_id vote_granted =>
      Some ([2] ++ be_bytes 8 term ++ be_bytes 8 prospective_term ++ be_bytes 16 voter_id
        ++ [bool_as_u8 vote_granted])
  | RequestVote term candidate_id last_log_index last_log_term =>
      Some ([3] ++ be_bytes 8 term ++ be_bytes 16 candidate_id
        ++ be_bytes 8 last_log_index ++ be_bytes 8 last_log_term)
  | RequestVoteResponse term voter_id vote_granted =>
      Some ([4] ++ be_bytes 8 term ++ be_bytes 16 voter_id ++ [bool_as_u8 vote_granted])
  | AppendEntries term leader_id prev_log_index prev_log_term entries leader_commit
      quorum_round_id =>
      count ← len_u32 (length entries);
      rows ← mapM encode_entry entries;
      Some ([5] ++ be_bytes 8 term ++ be_bytes 16 leader_id ++ be_bytes 8 prev_log_index
        ++ be_bytes 8 prev_log_term ++ be_bytes 8 leader_commit
        ++ be_bytes 8 quorum_round_id ++ be_bytes 4 count ++ concat rows)
  | AppendEntriesResponse term follower_id success match_index conflict_term conflict_index
      quorum_round_id =>
      Some ([6] ++ be_bytes 8 term ++ be_bytes 16 follower_id ++ [bool_as_u8 success]
        ++ be_bytes 8 match_index ++ encode_opt 8 conflict_term
        ++ be_bytes 8 conflict_index ++ be_bytes 8 quorum_round_id)
  | InstallSnapshotChunk term leader_id last_included_index last_included_term
      state_root_digest snapshot_sha256 total_bytes offset chunk_data done =>
      chunk_len ← len_u32 (length chunk_data);
      Some ([7] ++ be_bytes 8 term ++ be_bytes 16 leader_id ++ be_bytes 8 last_included_index
        ++ be_bytes 8 last_included_term ++ be_bytes 32 state_root_digest
        ++ be_bytes 32 snapshot_sha256 ++ be_bytes 8 total_bytes ++ be_bytes 8 offset
        ++ [bool_as_u8 done] ++ be_bytes 4 chunk_len ++ chunk_data)
  | InstallSnapshotResponse term follower_id last_included_index next_offset installed =>
      Some ([8] ++ be_bytes 8 term ++ be_bytes 16 follower_id ++ be_bytes 8 last_included_index
        ++ be_bytes 8 next_offset ++ [bool_as_u8 installed])
  end.

Definition encode_raft_message m : option bytes :=
  fields ← encode_message_fields m;
  let out := RAFT_WIRE_MAGIC ++ fields in
  Some (out ++ be_bytes 32 (sha256 out)).

(** ** Decoding *)

Definition decode_entry : wreader RaftLogEntry :=
  index ← wire_u64;
  entry_term ← wire_u64;
  raw_family ← wire_u8;
  family ← plift (map_err (fun r => WireScopeViolation (RejectedDataPlanePayload r))
                    (from_wire_tag raw_family));
  key ← wire_16;
  body_len ← wire_u32;
  body ← wire_slice (Z.to_nat body_len);
  entry_sha256 ← wire_32;
  if decide (entry_sha256 <> compute_log_entry_sha256 index entry_term (family_as_u8 family) key body)
  then fail_with ChecksumMismatch else
  proposal ← plift (map_err WireScopeViolation (decode_command_body family key body));
  mret {| e_index := index; e_term := entry_term; e_proposal := proposal; e_sha256 := entry_sha256 |}.

Definition decode_message_fields (tag : Z) : wreader RaftMessage :=
  match tag with
  | 1 =>
      prospective_term ← wire_u64; candidate_id ← wire_cell;
      last_log_index ← wire_u64; last_log_term ← wire_u64;
      mret (RequestPreVote prospective_term candidate_id last_log_index last_log_term)
  | 2 =>
      term ← wire_u64; prospective_term ← wire_u64; voter_id ← wire_cell;
      vote_granted ← wire_bool;
      mret (RequestPreVoteResponse term prospective_term voter_id vote_granted)
  | 3 =>
      term ← wire_u64; candidate_id ← wire_cell; last_log_index ← wire_u64;
      last_log_term ← wire_u64;
      mret (RequestVote term candidate_id last_log_index last_log_term)
  | 4 =>
      term ← wire_u64; voter_id ← wire_cell; vote_granted ← wire_bool;
      mret (RequestVoteResponse term voter_id vote_granted)
  | 5 =>
      term ← wire_u64; leader_id ← wire_cell; prev_log_index ← wire_u64;
      prev_log_term ← wire_u64; leader_commit ← wire_u64; quorum_round_id ← wire_u64;
      count ← wire_u32;
      if decide (count > 4096) then fail_with (InvalidField "AppendEntries count > 4096") else
      entries ← read_many decode_entry (Z.to_nat count);
      mret (AppendEntries term leader_id prev_log_index prev_log_term entries leader_commit
              quorum_round_id)
  | 6 =>
      term ← wire_u64; follower_id ← wire_cell; success ← wire_bool; match_index ← wire_u64;
      conflict_term ← wire_conflict_term; conflict_index ← wire_u64;
      quorum_round_id ← wire_u64;
      mret (AppendEntriesResponse term follower_id success match_index conflict_term
              conflict_index quorum_round_id)
  | 7 =>
      term ← wire_u64; leader_id ← wire_cell; last_included_index ← wire_u64;
      last_included_term ← wire_u64; state_root_digest ← wire_32; snapshot_sha256 ← wire_32;
      total_bytes ← wire_u64; offset ← wire_u64; done ← wire_bool;
      chunk_len ← wire_u32; chunk_data ← wire_slice (Z.to_nat chunk_len);
      mret (InstallSnapshotChunk term leader_id last_included_index last_included_term
              state_root_digest snapshot_sha256 total_bytes offset chunk_data done)
  | 8 =>
      term ← wire_u64; follower_id ← wire_cell; last_included_index ← wire_u64;
      next_offset ← wire_u64; installed ← wire_bool;
      mret (InstallSnapshotResponse term follower_id last_included_index next_offset installed)
  | _ => fail_with (InvalidField "unknown RaftMessage tag")
  end.

Definition decode_raft_message (b : bytes) : result RaftWireCodecError RaftMessage :=
  if decide (length b < 8 + 1 + 32)%nat then Err WireTruncated else
  if negb (bool_decide (slice 0 8 b = RAFT_WIRE_MAGIC)) then Err InvalidMagic else
  let payload_end := (length b - 32)%nat in
  if negb (bool_decide (drop payload_end b = be_bytes 32 (sha256 (take payload_end b))))
  then Err ChecksumMismatch else
  match (tag ← wire_u8; decode_message_fields tag) (slice 8 payload_end b) with
  | Err e => Err e
  | Ok (m, []) => Ok m
  | Ok (_, _ :: _) => Err WireTrailingBytes
  end.

(** ** The fields in range

    What the Rust types of a message guarantee, and that its entries carry
    their own digest. A [CellIdentity] is never zero. *)
Definition cell_ok (x : Z) : Prop := id16 x /\ x <> 0.

Record entry_ok e : Prop := {
  eo_index : u64 (e_index e);
  eo_term : u64 (e_term e);
  eo_proposal : proposal_ok (e_proposal e);
  eo_portable : command_portable (command (e_proposal e));
  eo_verified : verify_integrity e = true;
}.

Definition message_ok m : Prop :=
  match m with
  | RequestPreVote t c i lt | RequestVote t c i lt => u64 t /\ cell_ok c /\ u64 i /\ u64 lt
  | RequestPreVoteResponse t pt v _ => u64 t /\ u64 pt /\ cell_ok v
  | RequestVoteResponse t v _ => u64 t /\ cell_ok v
  | AppendEntries t l pi pt es lc q =>
      u64 t /\ cell_ok l /\ u64 pi /\ u64 pt /\ Forall entry_ok es /\ u64 lc /\ u64 q
  | AppendEntriesResponse t f _ mi ct ci q =>
      u64 t /\ cell_ok f /\ u64 mi /\ opt_ok u64 ct /\ u64 ci /\ u64 q
  | InstallSnapshotChunk t l li lt sr sh tb o cd _ =>
      u64 t /\ cell_ok l /\ u64 li /\ u64 lt /\ dig32 sr /\ dig32 sh /\ u64 tb /\ u64 o
      /\ byte_string cd /\ Z.of_nat (length cd) <= u32_max
  | InstallSnapshotResponse t f li no _ => u64 t /\ cell_ok f /\ u64 li /\ u64 no
  end.

(** The number of log entries a message carries. *)
Definition entry_count m : nat :=
  match m with AppendEntries _ _ _ _ es _ _ => length es | _ => 0%nat end.
End codec.

(** ** Reading back each field *)

Section fields.
Context `{Sha256}.

Lemma reads_wire_be n x : 0 <= x < 256 ^ Z.of_nat n -> reads (wire_be n) (be_bytes n x) x.
Proof.
  intros Hx rest. unfold wire_be, mbind, parser_bind, wire_slice.
  rewrite (reads_take_slice WireTruncated n) by apply length_be_bytes.
  unfold mret, parser_ret. by rewrite be_value_bytes.
Qed.
Lemma reads_wire_u64 x : u64 x -> reads wire_u64 (be_bytes 8 x) x.
Proof. intros Hx. apply reads_wire_be. width. lia. Qed.
Lemma reads_wire_u32 x : u32 x -> reads wire_u32 (be_bytes 4 x) x.
Proof. intros Hx. apply reads_wire_be. width. lia. Qed.
Lemma reads_wire_16 x : id16 x -> reads wire_16 (be_bytes 16 x) x.
Proof. intros Hx. apply reads_wire_be. width. lia. Qed.
Lemma reads_wire_32 x : dig32 x -> reads wire_32 (be_bytes 32 x) x.
Proof. intros Hx. apply reads_wire_be. width. lia. Qed.
Lemma reads_wire_u8 x : u8 x -> reads wire_u8 [x] x.
Proof.
  intros Hx. rewrite <- be_bytes_single by done. apply reads_wire_be. width. lia.
Qed.
Lemma reads_wire_bool b : reads wire_bool [bool_as_u8 b] b.
Proof.
  eapply reads_bind_ret; [apply reads_wire_u8; destruct b; width; cbn; lia|]. by destruct b.
Qed.
Lemma reads_wire_cell x : cell_ok x -> reads wire_cell (be_bytes 16 x) x.
Proof.
  intros [Hx Hne]. eapply reads_bind_ret; [by apply reads_wire_16|].
  by rewrite decide_False by done.
Qed.
Lemma reads_wire_conflict_term o : opt_ok u64 o -> reads wire_conflict_term (encode_opt 8 o) o.
Proof.
  intros Ho. unfold wire_conflict_term. destruct o as [x|]; unfold encode_opt.
  - eapply reads_bind; [by apply reads_wire_u8|]. cbn beta iota.
    eapply reads_bind_ret; [by apply reads_wire_u64|done].
  - eapply (reads_bind _ _ [0] []); [by apply reads_wire_u8|]. apply reads_ret.
Qed.
Lemma reads_wire_slice w len : len = Z.of_nat (length w) -> reads (wire_slice (Z.to_nat len)) w w.
Proof. intros ->. apply reads_take_slice. lia. Qed.
Lemma reads_family f :
  reads (plift (map_err (fun r => WireScopeViolation (RejectedDataPlanePayload r))
    (from_wire_tag (family_as_u8 f)))) [] f.
Proof. apply reads_plift. by destruct f. Qed.
Lemma reads_wire_tag f : reads wire_u8 [family_as_u8 f] (family_as_u8 f).
Proof. apply reads_wire_u8. by destruct f. Qed.
End fields.

#[export] Hint Resolve reads_wire_u64 reads_wire_u32 reads_wire_16 reads_wire_32 reads_wire_u8
  reads_wire_bool reads_wire_cell reads_wire_conflict_term reads_wire_slice reads_family
  reads_wire_tag : reads.
#[export] Hint Extern 1 (u8 _) => (unfold u8; lia) : reads.

Section round_trip.
Context `{Sha256}.
Implicit Types (e : RaftLogEntry) (m : RaftMessage).

(** A command body is short, so encoding an entry never panics. *)
Lemma body_len_u32 p : u32 (Z.of_nat (length (encode_command_body p))).
Proof. pose proof (length_encode_command (command p)). unfold encode_command_body. width. lia. Qed.

Definition entry_bytes e : bytes :=
  let body := encode_command_body (e_proposal e) in
  be_bytes 8 (e_index e) ++ be_bytes 8 (e_term e)
    ++ [family_as_u8 (family_code (command (e_proposal e)))]
    ++ be_bytes 16 (idempotency_key (e_proposal e))
    ++ be_bytes 4 (Z.of_nat (length body)) ++ body ++ be_bytes 32 (e_sha256 e).

Lemma encode_entry_bytes e : encode_entry e = Some (entry_bytes e).
Proof.
  pose proof (body_len_u32 (e_proposal e)) as [_ Hl].
  unfold encode_entry, len_u32. by rewrite decide_True by done.
Qed.

Lemma encode_entries_bytes es : mapM encode_entry es = Some (entry_bytes <$> es).
Proof. induction es as [|e es IH]; [done|]. cbn. by rewrite encode_entry_bytes, IH. Qed.

Lemma reads_entry e : entry_ok e -> reads decode_entry (entry_bytes e) e.
Proof.
  intros [Hi Ht [Hk Hc] Hp Hv]. unfold verify_integrity in Hv. apply bool_decide_eq_true in Hv.
  unfold entry_bytes, decode_entry. cbv zeta.
  do 3 (eapply reads_bind; [solve [eauto with reads]|]; cbn beta).
  eapply reads_bind_nil; [apply reads_family|]. cbn beta.
  do 3 (eapply reads_bind; [solve [eauto using body_len_u32 with reads]|]; cbn beta).
  eapply reads_bind_ret; [apply reads_wire_32; rewrite Hv; apply sha256_range|].
  rewrite decide_False by (intros Hne; apply Hne; exact Hv).
  rewrite decode_command_body_encode by done. by destruct e as [? ? []].
Qed.

(** The fields of a message are read back. *)
Lemma reads_message m b :
  message_ok m -> (entry_count m <= 4096)%nat -> encode_message_fields m = Some b ->
  reads (tag ← wire_u8; decode_message_fields tag) b m.
Proof.
  intros Hm Hn Henc. destruct m; cbn [message_ok encode_message_fields] in Hm, Henc; destruct_and?;
    try (apply (inj Some) in Henc as <-; eapply reads_bind; [by apply reads_wire_u8|];
      cbn [decode_message_fields]; by solve_reads).
  - unfold len_u32 in Henc. cbn [entry_count] in Hn.
    rewrite decide_True in Henc by (width; lia). cbn [mbind option_bind] in Henc.
    rewrite encode_entries_bytes in Henc. cbn [mbind option_bind] in Henc. apply (inj Some) in Henc as <-.
    eapply reads_bind; [by apply reads_wire_u8|]. cbn [decode_message_fields].
    do 6 (eapply reads_bind; [solve [eauto with reads]|]; cbn beta).
    eapply reads_bind; [apply reads_wire_u32; width; lia|]. cbn beta.
    rewrite decide_False by lia. rewrite Nat2Z.id.
    eapply reads_bind_ret; [|done]. rewrite <- (list_fmap_id entries) at 3.
    apply (reads_many decode_entry entry_bytes id). by eapply Forall_impl; [|apply reads_entry].
  - unfold len_u32 in Henc. rewrite decide_True in Henc by done. cbn [mbind option_bind] in Henc. apply (inj Some) in Henc as <-.
    eapply reads_bind; [by apply reads_wire_u8|]. cbn [decode_message_fields].
    do 9 (eapply reads_bind; [solve [eauto with reads]|]; cbn beta).
    eapply reads_bind; [apply reads_wire_u32; width; lia|]. cbn beta.
    eapply reads_bind_ret; [by apply reads_wire_slice|done].
Qed.
End round_trip.

(** ** Only canonical frames are accepted *)

Section canonical.
Context `{Sha256}.
Implicit Types (e : RaftLogEntry) (m : RaftMessage).

Lemma canonical_wire_be n : canonical (wire_be n) (be_bytes n) (fun x => 0 <= x < 256 ^ Z.of_nat n).
Proof.
  intros b a rest Hb (s & b' & Hs & [= <- <-])%bind_inv.
  apply canonical_take_slice in Hs as (-> & [Hs <-] & Hb'); [|done].
  split_and!; [|by apply be_value_bound..|done]. unfold id. by rewrite be_bytes_value.
Qed.
Lemma canonical_wire n (P : Z -> Prop) :
  (forall x, 0 <= x < 256 ^ Z.of_nat n -> P x) -> canonical (wire_be n) (be_bytes n) P.
Proof. intros HP b a rest Hb (-> & Ha & Hr)%canonical_wire_be; auto. Qed.
Lemma canonical_wire_u64 : canonical wire_u64 (be_bytes 8) u64.
Proof. apply canonical_wire. intros. width. lia. Qed.
Lemma canonical_wire_u32 : canonical wire_u32 (be_bytes 4) u32.
Proof. apply canonical_wire. intros. width. lia. Qed.
Lemma canonical_wire_16 : canonical wire_16 (be_bytes 16) id16.
Proof. apply canonical_wire. intros. width. lia. Qed.
Lemma canonical_wire_32 : canonical wire_32 (be_bytes 32) dig32.
Proof. apply canonical_wire. intros. width. lia. Qed.
Lemma canonical_wire_u8 : canonical wire_u8 (fun x => [x]) u8.
Proof.
  intros b a rest Hb (-> & Ha & Hr)%canonical_wire_be; [|done].
  rewrite be_bytes_single by (width; lia). done.
Qed.
Lemma canonical_wire_bool : canonical wire_bool (fun x => [bool_as_u8 x]) (fun _ => True).
Proof.
  intros b a rest Hb (x & b' & (-> & Hx & Hb')%canonical_wire_u8 & Hk)%bind_inv; [|done].
  repeat case_match; try done; by injection Hk as <- <-.
Qed.
Lemma canonical_wire_cell : canonical wire_cell (be_bytes 16) cell_ok.
Proof.
  intros b a rest Hb (x & b' & (-> & Hx & Hb')%canonical_wire_16 & Hk)%bind_inv; [|done].
  case_decide; [done|]. by injection Hk as <- <-.
Qed.
Lemma canonical_conflict_term : canonical wire_conflict_term (encode_opt 8) (opt_ok u64).
Proof.
  intros b a rest Hb (x & b' & (-> & Hx & Hb')%canonical_wire_u8 & Hk)%bind_inv; [|done].
  repeat case_match; try done.
  - by injection Hk as <- <-.
  - apply bind_inv in Hk as (y & b2 & (-> & Hy & Hb2)%canonical_wire_u64 & [= <- <-]); done.
Qed.
Lemma canonical_wire_slice len :
  canonical (wire_slice len) id (fun bs => byte_string bs /\ length bs = len).
Proof. apply canonical_take_slice. Qed.
End canonical.

#[export] Hint Resolve canonical_wire_u64 canonical_wire_u32 canonical_wire_16 canonical_wire_32
  canonical_wire_u8 canonical_wire_bool canonical_wire_cell canonical_conflict_term
  canonical_wire_slice : canonical.

Section accepted.
Context `{Sha256}.
Implicit Types (e : RaftLogEntry) (m : RaftMessage).

Lemma map_err_ok {E E' A} (f : E -> E') (r : result E A) a : map_err f r = Ok a -> r = Ok a.
Proof. destruct r; [by intros [= ->]|done]. Qed.

Lemma canonical_entry : canonical decode_entry entry_bytes entry_ok.
Proof.
  intros b e rest Hb Hd. unfold decode_entry in Hd. invert_reads.
  apply plift_inv in Hd as (f & Hf%map_err_ok & Hd). invert_reads.
  case_decide as Hsum; [done|].
  apply plift_inv in Hd as (p & Hp%map_err_ok & [= <- <-]).
  apply decode_body_inv in Hp as (Hbody & Hfam & Hkey & Hok & Hport); [|done].
  match goal with _ : from_wire_tag ?tag = _ |- _ => assert (tag = family_as_u8 f) as -> end.
  { revert Hf. unfold from_wire_tag. repeat case_match; try done; by intros [= <-]. }
  split_and!; [| |done].
  - match goal with _ : length _ = Z.to_nat ?len, Hl : u32 ?len |- _ =>
      assert (Z.of_nat (length (encode_command_body p)) = len) as Hlen
        by (destruct Hl; rewrite Hbody; lia) end.
    unfold entry_bytes. cbn [e_index e_term e_proposal e_sha256]. cbv zeta.
    rewrite Hlen, Hbody, Hfam, Hkey, <- !app_assoc. done.
  - split; [done..|split; cbn; [by rewrite Hkey|done]|done|].
    unfold verify_integrity, entry_digest. cbn. rewrite Hbody, Hfam, Hkey.
    by apply bool_decide_eq_true.
Qed.

#[local] Hint Resolve canonical_many canonical_entry : canonical.

(** Whatever fields the decoder accepts are the fields of the message it returns. *)
Lemma decode_fields_inv b m rest :
  byte_string b -> (tag ← wire_u8; decode_message_fields tag) b = Ok (m, rest) ->
  message_ok m /\ (entry_count m <= 4096)%nat
  /\ exists w, encode_message_fields m = Some w /\ b = w ++ rest.
Proof.
  intros Hb (tag & b' & (-> & Ht & Hb')%canonical_wire_u8 & Hd)%bind_inv; [|done]. clear Hb.
  unfold decode_message_fields in Hd. repeat case_match; try done; simplify_eq; invert_reads;
    try (injection Hd as <- <-; split; [by split_and!|]; split; [cbn; lia|];
         eexists; split; [reflexivity|]; by rewrite <- ?app_assoc).
  - injection Hd as <- <-.
    match goal with _ : length ?l = Z.to_nat ?len, Hl : u32 ?len |- _ =>
      assert (len = Z.of_nat (length l)) as -> by (destruct Hl; lia); destruct Hl end.
    split; [by split_and!|]. split; [cbn; lia|]. eexists. cbn [encode_message_fields].
    unfold len_u32. rewrite decide_True by done. split; [reflexivity|]. by rewrite <- ?app_assoc.
  - case_decide as Hn; [done|]. invert_reads. injection Hd as <- <-.
    match goal with _ : length ?l = Z.to_nat ?len, Hl : u32 ?len |- _ =>
      assert (len = Z.of_nat (length l)) as -> by (destruct Hl; lia); destruct Hl end.
    split; [by split_and!|]. split; [cbn; lia|]. eexists. cbn [encode_message_fields].
    unfold len_u32. rewrite decide_True by done. cbn [mbind option_bind].
    rewrite encode_entries_bytes. split; [reflexivity|]. by rewrite <- ?app_assoc.
Qed.

(** A frame cut into its magic number, its fields and its digest. *)
Lemma raft_frame_split (b : bytes) n :
  (8 <= n <= length b)%nat -> b = (slice 0 8 b ++ slice 8 n b) ++ drop n b.
Proof.
  intros Hn. unfold slice. rewrite drop_0. change (8 - 0)%nat with 8%nat.
  rewrite take_take_drop. replace (8 + (n - 8))%nat with n by lia. by rewrite take_drop.
Qed.

(** A frame around fields is decoded as the fields are. *)
Lemma decode_framed w :
  w <> [] ->
  let out := RAFT_WIRE_MAGIC ++ w in
  decode_raft_message (out ++ be_bytes 32 (sha256 out))
  = match (tag ← wire_u8; decode_message_fields tag) w with
    | Err e => Err e
    | Ok (m, []) => Ok m
    | Ok (_, _ :: _) => Err WireTrailingBytes
    end.
Proof.
  intros Hw out. assert (1 <= length w)%nat by (destruct w; cbn; lia || done).
  assert (length RAFT_WIRE_MAGIC = 8%nat) as Hmagic by done.
  unfold decode_raft_message. cbv zeta.
  rewrite decide_False by (rewrite !length_app, length_be_bytes; unfold out; rewrite length_app; lia).
  replace (length (out ++ be_bytes 32 (sha256 out)) - 32)%nat with (length out)
    by (rewrite length_app, length_be_bytes; lia).
  rewrite take_app_length, drop_app_length. rewrite (bool_decide_eq_true_2 (be_bytes _ _ = _)) by done.
  assert (forall d, slice 0 8 (out ++ d) = RAFT_WIRE_MAGIC) as ->.
  { intros d. unfold out. rewrite <- app_assoc. by apply (slice_mid 0 8 []). }
  assert (forall d, slice 8 (length out) (out ++ d) = w) as ->.
  { intros d. unfold out. rewrite <- app_assoc. apply slice_mid; [done|]. rewrite length_app. lia. }
  by rewrite bool_decide_eq_true_2 by done.
Qed.

Lemma encode_fields_nonempty m w : encode_message_fields m = Some w -> w <> [].
Proof.
  unfold encode_message_fields, len_u32. intros Hw ->.
  destruct m; repeat case_decide; cbn in Hw; try rewrite encode_entries_bytes in Hw; by simplify_eq.
Qed.

Lemma encode_message_fields_total m :
  message_ok m -> (entry_count m <= 4096)%nat -> exists w, encode_message_fields m = Some w.
Proof.
  intros Hm Hn. destruct m; cbn [encode_message_fields]; try by eexists.
  - cbn in Hn. unfold len_u32. rewrite decide_True by (width; lia). cbn [mbind option_bind].
    rewrite encode_entries_bytes. by eexists.
  - cbn in Hm. destruct_and!. unfold len_u32. rewrite decide_True by done. by eexists.
Qed.

Lemma decode_of_encode m b :
  message_ok m -> (entry_count m <= 4096)%nat -> encode_raft_message m = Some b ->
  decode_raft_message b = Ok m.
Proof.
  intros Hm Hn (w & Hw & Hb)%bind_Some. cbv zeta in Hb. apply (inj Some) in Hb as <-.
  rewrite decode_framed by by eapply encode_fields_nonempty.
  pose proof (reads_message m w Hm Hn Hw []) as Hr. rewrite app_nil_r in Hr. by rewrite Hr.
Qed.

Lemma bind_reads {A B} (p : wreader A) (k : A -> wreader B) w a rest :
  reads p w a -> (p ≫= k) (w ++ rest) = k a rest.
Proof. intros Hp. unfold mbind, parser_bind. by rewrite Hp. Qed.

Lemma reads_wire_any n x : reads (wire_be n) (be_bytes n x) (x mod 256 ^ Z.of_nat n).
Proof.
  intros rest. unfold wire_be, mbind, parser_bind, wire_slice.
  rewrite (reads_take_slice WireTruncated n) by apply length_be_bytes.
  unfold mret, parser_ret. by rewrite be_bytes_mod.
Qed.

(** A longer append is encoded, but its frame is refused. *)
Lemma oversized_append t l pi pt es lc q :
  cell_ok l -> (4096 < length es)%nat -> Z.of_nat (length es) <= u32_max ->
  exists b, encode_raft_message (AppendEntries t l pi pt es lc q) = Some b
    /\ decode_raft_message b = Err (InvalidField "AppendEntries count > 4096").
Proof.
  intros Hl Hn Hmax. unfold encode_raft_message, encode_message_fields, len_u32.
  rewrite decide_True by done. cbn [mbind option_bind]. rewrite encode_entries_bytes.
  eexists. split; [reflexivity|]. rewrite decode_framed by done.
  rewrite (bind_reads wire_u8 _ [5] 5) by by apply reads_wire_u8. cbn [decode_message_fields].
  erewrite (bind_reads wire_u64) by apply (reads_wire_any 8).
  erewrite (bind_reads wire_cell) by by apply reads_wire_cell.
  do 4 erewrite (bind_reads wire_u64) by apply (reads_wire_any 8).
  erewrite (bind_reads wire_u32) by (apply reads_wire_u32; width; lia).
  by rewrite decide_True by lia.
Qed.

(** Whatever a frame of a well-formed message decodes to is that message. *)
Lemma decode_encoded m b m' :
  message_ok m -> encode_raft_message m = Some b -> decode_raft_message b = Ok m' -> m' = m.
Proof.
  intros Hm He Hd. destruct (decide (entry_count m <= 4096)%nat) as [Hn|Hn].
  { rewrite (decode_of_encode m b Hm Hn He) in Hd. congruence. }
  destruct m; cbn [entry_count] in Hn; try lia. cbn [message_ok] in Hm. destruct_and!.
  destruct (decide (Z.of_nat (length entries) <= u32_max)) as [Hmax|Hmax].
  - destruct (oversized_append term leader_id prev_log_index prev_log_term entries leader_commit
      quorum_round_id) as (b' & He' & Hd'); [done|lia|done|]. rewrite He in He'. injection He' as <-.
    by rewrite Hd in Hd'.
  - unfold encode_raft_message, encode_message_fields, len_u32 in He. by rewrite decide_False in He by done.
Qed.

(** What a leader replicates from an index above its snapshot on. *)
Lemma collect_suffix c i :
  core_inv c -> snapshot_index c < i -> i <= last_log_index c ->
  length (collect_range c i (last_log_index c)) = Z.to_nat (last_log_index c + 1 - i).
Proof.
  intros Hc Hi Hlast. pose proof (ci_contiguous _ Hc) as Hl.
  pose proof (last_log_index_length c Hc) as Hlen. unfold collect_range. rewrite decide_False by lia.
  rewrite (list_filter_ext _ (fun e => e_index e > i - 1)).
  - rewrite (contiguous_filter_gt _ _ _ Hl), length_drop. lia.
  - intros e [k He]%list_elem_of_lookup. pose proof (lookup_lt_Some _ _ _ He).
    rewrite (Hl _ _ He). lia.
Qed.
End accepted.

(** ** Theorems *)

Section claims.
Context `{Sha256}.
Implicit Types (m : RaftMessage).

(** Raft messages survive the wire. A message whose fields are in the
    range of their types, whose entries carry their own digests and which
    holds at most 4096 entries is encoded without a panic, and its frame
    decodes to the same message. *)
Theorem raft_message_round_trip m :
  message_ok m -> (entry_count m <= 4096)%nat ->
  exists b, encode_raft_message m = Some b /\ decode_raft_message b = Ok m.
Proof.
  intros Hm Hn. destruct (encode_message_fields_total m Hm Hn) as [w Hw].
  exists ((RAFT_WIRE_MAGIC ++ w) ++ be_bytes 32 (sha256 (RAFT_WIRE_MAGIC ++ w))).
  assert (encode_raft_message m
    = Some ((RAFT_WIRE_MAGIC ++ w) ++ be_bytes 32 (sha256 (RAFT_WIRE_MAGIC ++ w)))) as He
    by (unfold encode_raft_message; by rewrite Hw).
  split; [done|]. by apply decode_of_encode.
Qed.

(** Only canonical frames are accepted: a byte string that decodes to a
    message is, byte for byte, the frame of that message, whose fields are all
    in range, whose entries are intact and at most 4096. *)
Theorem raft_message_canonical b m :
  byte_string b -> decode_raft_message b = Ok m ->
  encode_raft_message m = Some b /\ message_ok m /\ (entry_count m <= 4096)%nat.
Proof.
  intros Hb. unfold decode_raft_message. cbv zeta. case_decide as Hlen; [done|].
  case_match eqn:Hmagic; [done|]. case_match eqn:Hsum; [done|].
  apply negb_false_iff, bool_decide_eq_true in Hmagic, Hsum.
  set (e := (length b - 32)%nat) in *. assert (8 <= e <= length b)%nat as He by lia.
  destruct ((tag ← wire_u8; decode_message_fields tag) (slice 8 e b)) as [[m' [|]]|] eqn:Hd; try done. intros [= ->].
  apply decode_fields_inv in Hd as (Hm & Hn & w & Hw & Hs); [|by apply slice_bytes].
  rewrite app_nil_r in Hs. split_and!; [|done..]. unfold encode_raft_message. rewrite Hw. cbn.
  f_equal. rewrite (raft_frame_split b e He) at 1. rewrite Hmagic, Hs, Hsum.
  do 3 f_equal. rewrite (raft_frame_split b e He) at 1. rewrite take_app_length'; [by rewrite Hmagic, Hs|].
  rewrite length_app. unfold slice. rewrite !length_take, !length_drop. lia.
Qed.

(** A follower far behind cannot be caught up. When a leader's next index
    for a peer is above its snapshot and more than 4096 entries before the end
    of its log, it replicates all of them in one message; the encoder accepts
    it and every decoder refuses the frame, so the peer never answers and is
    sent the same entries again until a snapshot covers them. *)
Theorem lagging_follower_refuses c peer round i :
  core_inv c -> cell_ok (local_id c) -> Z.of_nat (length (log_tail c)) <= u32_max ->
  next_index c !! peer = Some i -> 1 <= i -> snapshot_index c < i -> i + 4096 <= last_log_index c ->
  exists m b, build_replication_for_peer c peer round = SendMessage peer m
    /\ encode_raft_message m = Some b
    /\ decode_raft_message b = Err (InvalidField "AppendEntries count > 4096").
Proof.
  intros Hc Hid Hmax Hpeer Hi Hsnap Hlast. unfold build_replication_for_peer. cbv zeta.
  rewrite Hpeer. cbn [default from_option id]. rewrite (Z.max_l i) by lia.
  match goal with |- context [AppendEntries ?a ?b ?c ?d ?es ?f ?g] =>
    set (m := AppendEntries a b c d es f g) end.
  assert (exists b, encode_raft_message m = Some b
    /\ decode_raft_message b = Err (InvalidField "AppendEntries count > 4096")) as (b & He & Hd).
  { apply oversized_append; [done|..]; rewrite collect_suffix by (done || lia); [lia|].
    pose proof (last_log_index_length c Hc). unfold snapshot_index in *. lia. }
  exists m, b. split; [|done]. unfold snapshot_index in Hsnap.
  destruct (snapshot_meta c) as [meta|], (snapshot_bytes c); cbn in Hsnap; try done.
  by rewrite decide_False by lia.
Qed.
End claims.

(** ** Concrete messages *)

Definition sample_append : RaftMessage :=
  AppendEntries 1 1 0 0 [entry_new (H := checksum_hasher) 1 1 sample_proposal] 0 1.

Lemma sample_append_ok : message_ok (H := checksum_hasher) sample_append.
Proof.
  unfold sample_append. cbn [message_ok]. unfold cell_ok. split_and!; try (width; lia).
  constructor; [|done]. split; try apply sample_proposal_ok; [width; cbn; lia..|].
  apply entry_new_verifies.
Qed.

Lemma raft_message_round_trip_witness :
  exists b, encode_raft_message (H := checksum_hasher) sample_append = Some b
    /\ decode_raft_message (H := checksum_hasher) b = Ok sample_append.
Proof.
  apply (raft_message_round_trip (H := checksum_hasher)); [exact sample_append_ok|cbn; lia].
Defined.

Definition sample_append_frame : bytes :=
  Eval vm_compute in default [] (encode_raft_message (H := checksum_hasher) sample_append).

Lemma raft_message_canonical_witness :
  encode_raft_message (H := checksum_hasher) sample_append = Some sample_append_frame
  /\ message_ok (H := checksum_hasher) sample_append /\ (entry_count sample_append <= 4096)%nat.
Proof.
  apply (raft_message_canonical (H := checksum_hasher)); [|by vm_compute].
  repeat constructor; done.
Defined.

(** A leader with a long log and a peer that has nothing. *)
Definition long_log_core : ConsensusCore :=
  sample_core <| log_tail := (fun i => entry_new (H := checksum_hasher) i 1 sample_proposal) <$> seqZ 1 4097 |>
              <| next_index := {[2 := 1]} |>.

Lemma long_log_inv : core_inv long_log_core /\ last_log_index long_log_core = 4097.
Proof.
  set (l := (fun i => entry_new (H := checksum_hasher) i 1 sample_proposal) <$> seqZ 1 4097).
  assert (length l = 4097%nat) as Hlen by (unfold l; by rewrite length_fmap, length_seqZ).
  assert (contiguous 1 l) as Hl.
  { intros i e He. unfold l in He. apply list_lookup_fmap_Some in He as (k & -> & Hk).
    apply lookup_seqZ in Hk as [-> Hk]. cbn. lia. }
  assert (last_log_index long_log_core = 4097) as Hlast.
  { unfold last_log_index. change (log_tail long_log_core) with l.
    destruct (last l) as [e|] eqn:He; [rewrite (contiguous_last _ _ _ Hl He), Hlen; lia|].
    apply last_None in He. by rewrite He in Hlen. }
  split; [|done]. split; [done|by split; intros [? ?]|exact Hl| |done].
  rewrite Hlast. change (0 <= 0 <= 4097). lia.
Qed.

Lemma lagging_follower_refuses_witness :
  exists m b, build_replication_for_peer (H := checksum_hasher) long_log_core 2 1 = SendMessage 2 m
    /\ encode_raft_message (H := checksum_hasher) m = Some b
    /\ decode_raft_message (H := checksum_hasher) b = Err (InvalidField "AppendEntries count > 4096").
Proof.
  destruct long_log_inv as [Hc Hl].
  apply (lagging_follower_refuses (H := checksum_hasher) long_log_core 2 1 1 Hc);
    [|cbn; rewrite length_fmap, length_seqZ; width; lia|done|lia|cbn; lia|rewrite Hl; lia].
  split; [width; cbn; lia|done].
Defined.
