(* ===== verification/RaftTyped.v ===== *)
(** * RaftTyped: every field stays within its machine type

    The replica's counters, indices and identities are [u32], [u64], 16-byte and
    32-byte values in the source; the model computes with unbounded integers.
    A step from a state and an input within these types leaves every field
    within its type and emits only effects and messages within theirs, so no
    addition wraps, no subtraction underflows, and every message fits the wire. *)

From S2P Require Import Prelude Bytes Commands StateMachine Roster RaftTypes RaftCore RaftLog.
From S2P Require Import Durability Wire.

(** ** Types of the data *)

Definition timing_ok (t : ConsensusTimingConfig) : Prop :=
  u32 (heartbeat_interval_ticks t) /\ u32 (leader_lease_ticks t) /\ u32 (election_timeout_ticks t)
  /\ Z.of_nat (max_snapshot_chunk_bytes t) <= u32_max.

Definition meta_ok (m : SnapshotMetadata) : Prop :=
  u64 (included_index m) /\ u64 (included_term m) /\ dig32 (state_root m).

Definition blob_ok (b : bytes) : Prop := byte_string b /\ Z.of_nat (length b) <= u64_max.

Record staging_ok (s : InboundSnapshotStaging) : Prop := {
  sk_root : dig32 (st_state_root_digest s);
  sk_sha : dig32 (st_snapshot_sha256 s);
  sk_total : u64 (st_total_bytes s);
  sk_buffer : byte_string (st_buffer s);
  sk_length : Z.of_nat (length (st_buffer s)) <= st_total_bytes s;
}.

Record round_ok (r : PendingQuorumRound) : Prop := {
  ro_term : u64 (pr_term r);
  ro_commit : u64 (pr_commit_index_at_issue r);
  ro_reads : Forall u64 (pr_waiting_read_ids r);
}.

Definition lease_ok (l : TermBoundLeaderLease) : Prop :=
  u64 (ll_term l) /\ u32 (ll_remaining_ticks l) /\ u64 (ll_last_confirmed_round l).

Definition counters_ok (m : gmap Z Z) : Prop := map_Forall (fun _ i => u64 i) m.
Definition rounds_ok (m : gmap Z PendingQuorumRound) : Prop :=
  map_Forall (fun k r => u64 k /\ round_ok r) m.

Definition reason_ok (r : ProposalRejectReason) : Prop :=
  match r with
  | StaleLeaderTerm attempted current leader => u64 attempted /\ u64 current /\ opt_ok cell_ok leader
  | NotLeader leader current => opt_ok cell_ok leader /\ u64 current
  end.

Section typed.
Context `{Sha256}.
Implicit Types (c : ConsensusCore).

Record core_typed c : Prop := {
  ty_local : cell_ok (local_id c);
  ty_timing : timing_ok (timing c);
  ty_term : u64 (current_term c);
  ty_voted : opt_ok cell_ok (voted_for c);
  ty_leader : opt_ok cell_ok (known_leader c);
  ty_former : opt_ok u64 (former_leader_term c);
  ty_snapshot : opt_ok meta_ok (snapshot_meta c);
  ty_bytes : opt_ok blob_ok (snapshot_bytes c);
  ty_log : Forall entry_ok (log_tail c);
  ty_commit : u64 (commit_index c);
  ty_contact : u32 (ticks_since_leader_contact c);
  ty_heartbeat : u32 (ticks_since_heartbeat_sent c);
  ty_prospective : u64 (pre_vote_prospective_term c);
  ty_next : counters_ok (next_index c);
  ty_match : counters_ok (match_index c);
  ty_offset : counters_ok (snapshot_send_offset c);
  ty_inbound : opt_ok staging_ok (inbound_snapshot c);
  ty_round_id : u64 (next_quorum_round_id c);
  ty_rounds : rounds_ok (quorum_rounds c);
  ty_lease : lease_ok (leader_lease c);
}.

Definition effect_typed (eff : ConsensusEffect) : Prop :=
  match eff with
  | PersistHardState t v => u64 t /\ opt_ok cell_ok v
  | InstallSnapshot m b => meta_ok m /\ blob_ok b
  | TruncateLogSuffixFrom i => u64 i
  | AppendLogEntries es => Forall entry_ok es
  | AdvanceCommitIndex i t es => u64 i /\ u64 t /\ Forall entry_ok es
  | LeaderSteppedDown t t' => u64 t /\ u64 t'
  | LinearizableReadConfirmed rid t i => u64 rid /\ u64 t /\ u64 i
  | ProposalRejected rid reason => opt_ok u64 rid /\ reason_ok reason
  | SendMessage _ m => message_ok m
  end.

Definition input_typed (input : ConsensusInput) : Prop :=
  match input with
  | Tick => True
  | Propose p t => proposal_ok p /\ command_portable (command p) /\ opt_ok u64 t
  | RequestLinearizableRead rid t => u64 rid /\ opt_ok u64 t
  | ReceiveMessage _ m => message_ok m
  end.

Definition typed_step (r : stepped) : Prop := core_typed r.1 /\ Forall effect_typed r.2.

(** ** Field updates *)

Ltac update := intros [] **; split; assumption.

Lemma set_role_typed c x : core_typed c -> core_typed (c <| role := x |>).
Proof. update. Qed.
Lemma set_term_typed c x : core_typed c -> u64 x -> core_typed (c <| current_term := x |>).
Proof. update. Qed.
Lemma set_voted_typed c x : core_typed c -> opt_ok cell_ok x -> core_typed (c <| voted_for := x |>).
Proof. update. Qed.
Lemma set_leader_typed c x : core_typed c -> opt_ok cell_ok x -> core_typed (c <| known_leader := x |>).
Proof. update. Qed.
Lemma set_former_typed c x :
  core_typed c -> opt_ok u64 x -> core_typed (c <| former_leader_term := x |>).
Proof. update. Qed.
Lemma set_meta_typed c x : core_typed c -> opt_ok meta_ok x -> core_typed (c <| snapshot_meta := x |>).
Proof. update. Qed.
Lemma set_bytes_typed c x : core_typed c -> opt_ok blob_ok x -> core_typed (c <| snapshot_bytes := x |>).
Proof. update. Qed.
Lemma set_log_typed c x : core_typed c -> Forall entry_ok x -> core_typed (c <| log_tail := x |>).
Proof. update. Qed.
Lemma set_commit_typed c x : core_typed c -> u64 x -> core_typed (c <| commit_index := x |>).
Proof. update. Qed.
Lemma set_contact_typed c x :
  core_typed c -> u32 x -> core_typed (c <| ticks_since_leader_contact := x |>).
Proof. update. Qed.
Lemma set_heartbeat_typed c x :
  core_typed c -> u32 x -> core_typed (c <| ticks_since_heartbeat_sent := x |>).
Proof. update. Qed.
Lemma set_prospective_typed c x :
  core_typed c -> u64 x -> core_typed (c <| pre_vote_prospective_term := x |>).
Proof. update. Qed.
Lemma set_pre_votes_typed c x : core_typed c -> core_typed (c <| pre_votes_granted_domains := x |>).
Proof. update. Qed.
Lemma set_votes_typed c x : core_typed c -> core_typed (c <| votes_granted_domains := x |>).
Proof. update. Qed.
Lemma set_next_typed c x : core_typed c -> counters_ok x -> core_typed (c <| next_index := x |>).
Proof. update. Qed.
Lemma set_match_typed c x : core_typed c -> counters_ok x -> core_typed (c <| match_index := x |>).
Proof. update. Qed.
Lemma set_offset_typed c x :
  core_typed c -> counters_ok x -> core_typed (c <| snapshot_send_offset := x |>).
Proof. update. Qed.
Lemma set_inbound_typed c x :
  core_typed c -> opt_ok staging_ok x -> core_typed (c <| inbound_snapshot := x |>).
Proof. update. Qed.
Lemma set_round_id_typed c x : core_typed c -> u64 x -> core_typed (c <| next_quorum_round_id := x |>).
Proof. update. Qed.
Lemma set_rounds_typed c x : core_typed c -> rounds_ok x -> core_typed (c <| quorum_rounds := x |>).
Proof. update. Qed.
Lemma set_lease_typed c x : core_typed c -> lease_ok x -> core_typed (c <| leader_lease := x |>).
Proof. update. Qed.
End typed.

Create HintDb typed.
#[export] Hint Constants Opaque : typed.
#[export] Hint Resolve ty_local ty_timing ty_term ty_voted ty_leader ty_former ty_snapshot ty_bytes
  ty_log ty_commit ty_contact ty_heartbeat ty_prospective ty_next ty_match ty_offset ty_inbound
  ty_round_id ty_rounds ty_lease : typed.
#[export] Hint Resolve set_role_typed set_term_typed set_voted_typed set_leader_typed
  set_former_typed set_meta_typed set_bytes_typed set_log_typed set_commit_typed
  set_contact_typed set_heartbeat_typed set_prospective_typed set_pre_votes_typed
  set_votes_typed set_next_typed set_match_typed set_offset_typed set_inbound_typed
  set_round_id_typed set_rounds_typed set_lease_typed : typed.

(** ** Values within their types *)

Section values.
Context `{Sha256}.
Implicit Types (c : ConsensusCore).

Lemma u64_0 : u64 0. Proof. width. lia. Qed.
Lemma u64_1 : u64 1. Proof. width. lia. Qed.
Lemma u32_0 : u32 0. Proof. width. lia. Qed.
Lemma add64_ok x : u64 x -> u64 (saturating_add64 x 1).
Proof. unfold saturating_add64. width. lia. Qed.
Lemma add32_ok x : u32 x -> u32 (saturating_add32 x 1).
Proof. unfold saturating_add32. width. lia. Qed.
Lemma sub64_ok x : u64 x -> u64 (saturating_sub64 x 1).
Proof. unfold saturating_sub64. width. lia. Qed.
Lemma max64_ok x y : u64 x -> u64 y -> u64 (Z.max x y).
Proof. width. lia. Qed.
Lemma min64_ok x y : u64 x -> u64 y -> u64 (Z.min x y).
Proof. width. lia. Qed.
Lemma some_ok {A} (P : A -> Prop) x : P x -> opt_ok P (Some x).
Proof. done. Qed.
Lemma none_ok {A} (P : A -> Prop) : opt_ok P None.
Proof. done. Qed.
Lemma default_ok {A} (P : A -> Prop) d o : opt_ok P o -> P d -> P (default d o).
Proof. by destruct o. Qed.

Lemma counters_empty : counters_ok ∅.
Proof. apply map_Forall_empty. Qed.
Lemma counters_insert m k x : counters_ok m -> u64 x -> counters_ok (<[k := x]> m).
Proof. intros Hm Hx. by apply map_Forall_insert_2. Qed.
Lemma counters_delete m k : counters_ok m -> counters_ok (delete k m).
Proof. intros Hm i x [_ Hi]%lookup_delete_Some. by eapply Hm. Qed.
Lemma counters_lookup m k d : counters_ok m -> u64 d -> u64 (default d (m !! k)).
Proof. intros Hm Hd. destruct (m !! k) eqn:Hk; [by eapply (Hm k)|done]. Qed.

Lemma rounds_empty : rounds_ok ∅.
Proof. apply map_Forall_empty. Qed.
Lemma rounds_insert m k r : rounds_ok m -> u64 k -> round_ok r -> rounds_ok (<[k := r]> m).
Proof. intros Hm Hk Hr. by apply map_Forall_insert_2. Qed.
Lemma rounds_delete m k : rounds_ok m -> rounds_ok (delete k m).
Proof. intros Hm i x [_ Hi]%lookup_delete_Some. by eapply Hm. Qed.

Lemma last_entry_ok c e : core_typed c -> last (log_tail c) = Some e -> entry_ok e.
Proof. intros Hc He%last_Some_elem_of. eapply Forall_forall; [apply Hc|done]. Qed.

Lemma last_index_ok c : core_typed c -> u64 (last_log_index c).
Proof.
  intros Hc. unfold last_log_index. destruct (last _) eqn:He; [by eapply last_entry_ok|].
  pose proof (ty_snapshot _ Hc) as Hs. destruct (snapshot_meta c); [apply Hs|apply u64_0].
Qed.
Lemma last_term_ok c : core_typed c -> u64 (last_log_term c).
Proof.
  intros Hc. unfold last_log_term. destruct (last _) eqn:He; [by eapply last_entry_ok|].
  pose proof (ty_snapshot _ Hc) as Hs. destruct (snapshot_meta c); [apply Hs|apply u64_0].
Qed.
Lemma first_index_ok c : core_typed c -> u64 (first_uncompacted_index c).
Proof.
  intros Hc. unfold first_uncompacted_index. pose proof (ty_snapshot _ Hc) as Hs.
  destruct (snapshot_meta c); [apply add64_ok, Hs|apply u64_1].
Qed.
Lemma term_at_ok c i : core_typed c -> opt_ok u64 (term_at c i).
Proof.
  intros Hc. assert (opt_ok u64 (e_term <$> tail_get c i)) as Ht.
  { unfold tail_get. cbv zeta. case_decide; [|done]. destruct (log_tail c !! _) eqn:He; [|done]. cbn.
    eapply Forall_lookup in He; [|apply Hc]. apply He. }
  unfold term_at. case_decide; [apply u64_0|]. pose proof (ty_snapshot _ Hc) as Hs.
  destruct (snapshot_meta c); [|done]. case_decide; [apply Hs|]. by case_decide.
Qed.
Lemma collect_ok c lo hi : core_typed c -> Forall entry_ok (collect_range c lo hi).
Proof.
  intros Hc. unfold collect_range. case_decide; [constructor|].
  apply Forall_filter_keep, Hc.
Qed.
Lemma filter_ok (P : RaftLogEntry -> Prop) `{!forall e, Decision (P e)} l :
  Forall entry_ok l -> Forall entry_ok (filter P l).
Proof. apply Forall_filter_keep. Qed.
Lemma snoc_ok l e : Forall entry_ok l -> entry_ok e -> Forall entry_ok (l ++ [e]).
Proof. intros Hl He. apply Forall_app. split; [done|]. by apply Forall_singleton. Qed.
Lemma slice_blob i j b : blob_ok b -> byte_string (slice i j b).
Proof. intros [Hb _]. by apply Forall_take, Forall_drop. Qed.
Lemma default_lease_ok t : u64 t ->
  lease_ok {| ll_term := t; ll_remaining_ticks := 0; ll_last_confirmed_round := 0 |}.
Proof. intros Ht. split_and!; [done|apply u32_0|apply u64_0]. Qed.
Lemma entry_new_ok i t p :
  u64 i -> u64 t -> proposal_ok p -> command_portable (command p) -> entry_ok (entry_new i t p).
Proof. intros Hi Ht Hp Hq. split; [done..|]. apply entry_new_verifies. Qed.
End values.

#[export] Hint Resolve u64_0 u64_1 u32_0 add64_ok add32_ok sub64_ok max64_ok min64_ok some_ok none_ok
  counters_empty counters_insert counters_delete counters_lookup rounds_empty rounds_insert
  rounds_delete last_index_ok last_term_ok first_index_ok term_at_ok collect_ok filter_ok snoc_ok
  default_lease_ok entry_new_ok : typed.

(** Splits an effect list and a message into fields and looks each up. *)
Ltac typed :=
  repeat lazymatch goal with
  | |- typed_step (_, _) => split; cbn [fst snd]
  | |- Forall effect_typed (option_list (Some ?x)) => change (Forall effect_typed [x])
  | |- Forall effect_typed (option_list None) => apply Forall_nil; exact I
  | |- Forall effect_typed (_ ++ _) => apply Forall_app; split
  | |- Forall effect_typed (_ :: _) => apply Forall_cons; split
  | |- Forall effect_typed [] => apply Forall_nil; exact I
  | |- Forall effect_typed (_ <$> _) => apply Forall_fmap, Forall_forall; intros; unfold compose
  | |- Forall entry_ok [_] => apply Forall_singleton
  | |- Forall entry_ok (_ ++ _) => apply Forall_app; split
  | |- effect_typed _ => first [progress cbn [effect_typed] | solve [eauto 30 with typed]]
  | |- message_ok _ => cbn [message_ok]
  | |- reason_ok (_ _) => cbn [reason_ok]
  | |- _ /\ _ => split
  | |- _ => solve [eauto 30 with typed]
  end.

(** ** Every handler *)

Section handlers.
Context `{Sha256}.
Implicit Types (c : ConsensusCore).

Lemma build_typed c peer round :
  core_typed c -> u64 round -> effect_typed (build_replication_for_peer c peer round).
Proof.
  intros Hc Hround. unfold build_replication_for_peer. cbv zeta.
  set (next := Z.max _ 1). assert (u64 next /\ 1 <= next) as [Hnext Hpos].
  { split; [|lia]. apply max64_ok; [|apply u64_1]. apply counters_lookup; typed. }
  assert (message_ok (AppendEntries (current_term c) (local_id c) (next - 1)
    (default 0 (term_at c (next - 1))) (collect_range c next (last_log_index c)) (commit_index c) round))
    as Happend.
  { typed; [width; lia|]. apply default_ok; typed. }
  pose proof (ty_snapshot _ Hc) as Hmeta. pose proof (ty_bytes _ Hc) as Hbytes.
  pose proof (ty_timing _ Hc) as (_ & _ & _ & Hcap).
  destruct (snapshot_meta c) as [m|]; [|done]. destruct (snapshot_bytes c) as [b|]; [|done].
  case_decide; [|done]. cbn [effect_typed message_ok]. destruct Hmeta as (Hi & Ht & Hr), Hbytes as [Hb Hlen].
  split_and!; typed; [apply sha256_range|width; lia..|by apply Forall_take, Forall_drop|].
  unfold slice. rewrite length_take. width. lia.
Qed.

Lemma broadcast_typed c round :
  core_typed c -> u64 round -> Forall effect_typed (broadcast_replication_or_heartbeat c round).
Proof. intros Hc Hr. apply Forall_fmap, Forall_forall. intros peer _. by apply build_typed. Qed.

Lemma allocate_typed c rid :
  core_typed c -> opt_ok u64 rid ->
  core_typed (allocate_quorum_round c rid).1 /\ u64 (allocate_quorum_round c rid).2.
Proof.
  intros Hc Hrid. unfold allocate_quorum_round. cbv zeta. cbn [fst snd].
  set (rounds := if decide _ then _ else _). assert (rounds_ok rounds) as Hrounds.
  { subst rounds. case_decide; [|apply Hc]. destruct (List.find _ _) as [[k ?]|]; typed. }
  clearbody rounds. split; [|typed]. apply set_rounds_typed; [typed|]. apply rounds_insert; [done|typed|].
  split; cbn; [typed..|]. destruct rid; [by apply Forall_singleton|constructor].
Qed.

(** Allocates a quorum round and keeps what is known of it. *)
Ltac allocate :=
  match goal with |- context [allocate_quorum_round ?x ?r] =>
    let Ha := fresh "Ha" in let Hb := fresh "Hb" in
    destruct (allocate_typed x r) as [Ha Hb]; [typed..|]; destruct (allocate_quorum_round x r);
    cbn [fst snd] in Ha, Hb end.

Lemma step_down_typed c t : core_typed c -> u64 t -> typed_step (step_down_to_higher_term c t).
Proof.
  intros Hc Ht. unfold step_down_to_higher_term. cbv zeta.
  set (c1 := if bool_decide _ then _ else _). assert (core_typed c1) as Hc1 by (subst c1; gcase; typed).
  assert (Forall u64 (concat (pr_waiting_read_ids <$> btree_values (quorum_rounds c1)))) as Hreads.
  { apply Forall_concat, Forall_fmap, Forall_forall. intros r [kr [-> Hkr]]%list_elem_of_fmap.
    destruct kr as [k r]. apply elem_of_btree_iter in Hkr. by apply (ty_rounds _ Hc1 k r Hkr). }
  pose proof (ty_term _ Hc) as Hterm. clearbody c1. typed; [gcase; typed|].
  by eapply Forall_forall in Hreads.
Qed.

Lemma prologue_typed c t : core_typed c -> u64 t -> typed_step (prologue c t).
Proof. intros Hc Ht. unfold prologue. case_decide; [by apply step_down_typed|typed]. Qed.

Lemma on_tick_typed c : core_typed c -> typed_step (on_tick c).
Proof.
  intros Hc. unfold on_tick. cbv zeta. gcase; [typed|].
  set (c1 := if decide _ then _ else _). assert (core_typed c1) as Hc1.
  { subst c1. gcase; [|done]. apply set_lease_typed; [done|].
    destruct (ty_lease _ Hc) as (? & ? & ?). split_and!; cbn; [done|width; lia|done]. }
  clearbody c1. unfold start_pre_vote. cbv zeta. destruct (role c1); (gcase; [|typed]).
  1-3: typed.
  allocate.
  split; [done|]. by apply broadcast_typed.
Qed.

Lemma on_pre_vote_typed c pt cand li lt :
  core_typed c -> u64 pt -> Forall effect_typed (on_request_pre_vote c pt cand li lt).
Proof. intros Hc Hpt. unfold on_request_pre_vote. cbv zeta. typed. Qed.

Lemma on_pre_vote_response_typed c t pt voter granted :
  core_typed c -> u64 t -> typed_step (on_request_pre_vote_response c t pt voter granted).
Proof.
  intros Hc Ht. unfold on_request_pre_vote_response, start_real_election. cbv zeta.
  gcase; [by apply step_down_typed|]. gcase; [typed|].
  set (c1 := match domain_of _ _ with Some _ => _ | None => _ end).
  assert (core_typed c1) as Hc1 by (subst c1; destruct (domain_of _ _), granted; typed).
  clearbody c1. gcase; typed.
Qed.

Lemma on_vote_typed c t cand li lt :
  core_typed c -> u64 t -> cell_ok cand -> typed_step (on_request_vote c t cand li lt).
Proof.
  intros Hc Ht Hcand. unfold on_request_vote. fold (prologue c t).
  destruct (prologue_typed c t Hc Ht) as [Hc1 He1]. destruct (prologue c t) as [c1 effs1].
  cbn [fst snd] in *. gcase; [typed|]. cbv zeta. gcase; typed.
Qed.

Lemma foldl_insert_ok {A} (f g : A -> Z) (l : list A) : forall m,
  counters_ok m -> (forall x, u64 (g x)) -> counters_ok (foldl (fun m x => <[f x := g x]> m) m l).
Proof. induction l as [|x l IH]; intros m Hm Hg; [done|]. cbn. apply IH; typed. Qed.

Lemma on_vote_response_typed c t voter granted :
  core_typed c -> u64 t -> typed_step (on_request_vote_response c t voter granted).
Proof.
  intros Hc Ht. unfold on_request_vote_response, become_leader. cbv zeta.
  gcase; [by apply step_down_typed|]. gcase; [typed|].
  set (c1 := match domain_of _ _ with Some _ => _ | None => _ end).
  assert (core_typed c1) as Hc1 by (subst c1; destruct (domain_of _ _), granted; typed).
  clearbody c1. gcase; [|typed].
  match goal with |- context [allocate_quorum_round ?x ?r] =>
    destruct (allocate_typed x r) as [Ha Hb]; [|typed|]; [|destruct (allocate_quorum_round x r)] end.
  - apply set_match_typed; [apply set_next_typed; [typed|]|];
      (apply foldl_insert_ok; [typed|]); intros x; [typed|]. gcase; typed.
  - split; [done|]. by apply broadcast_typed.
Qed.

Lemma gate_typed c expected reason :
  core_typed c -> opt_ok u64 expected -> check_leader_gate c expected = Err reason -> reason_ok reason.
Proof.
  intros Hc He. unfold check_leader_gate. pose proof (ty_former _ Hc) as Hf.
  destruct expected as [t|]; [|destruct (former_leader_term c)]; repeat case_match; intros [= <-];
    cbn; split_and!; typed.
Qed.

Lemma on_propose_typed c p expected :
  core_typed c -> proposal_ok p -> command_portable (command p) -> opt_ok u64 expected ->
  typed_step (on_propose c p expected).
Proof.
  intros Hc Hp Hq Hx. unfold on_propose. destruct (check_leader_gate c expected) as [?|reason] eqn:Hg.
  2:{ typed. by eapply gate_typed. }
  cbv zeta. assert (entry_ok (entry_new (saturating_add64 (last_log_index c) 1) (current_term c) p)) as He
    by typed.
  gcase; [typed|]. allocate. typed. by apply broadcast_typed.
Qed.

Lemma on_read_typed c rid expected :
  core_typed c -> u64 rid -> opt_ok u64 expected ->
  typed_step (on_request_linearizable_read c rid expected).
Proof.
  intros Hc Hr Hx. unfold on_request_linearizable_read.
  destruct (check_leader_gate c expected) as [?|reason] eqn:Hg; [|typed; by eapply gate_typed].
  gcase; [typed|]. allocate. typed. apply broadcast_typed; typed.
Qed.

Lemma append_response_typed c leader success matched ct ci round :
  core_typed c -> u64 matched -> opt_ok u64 ct -> u64 ci -> u64 round ->
  effect_typed (append_response c leader success matched ct ci round).
Proof. intros. unfold append_response. typed. Qed.
#[local] Hint Resolve append_response_typed : typed.

Lemma reconcile_typed entries : forall c leader round effs newly,
  core_typed c -> u64 round -> Forall effect_typed effs -> Forall entry_ok newly ->
  Forall entry_ok entries ->
  let r := reconcile_entries c leader round effs newly entries in
  core_typed r.1.1 /\ Forall effect_typed r.1.2 /\ opt_ok (Forall entry_ok) r.2.
Proof.
  induction entries as [|e entries IH]; intros c leader round effs newly Hc Hr He Hn Hes;
    cbn [reconcile_entries]; [done|]. apply Forall_cons in Hes as [Hentry Hes].
  gcase; [cbn [fst snd]; typed|]. cbv zeta. gcase; [by apply IH|].
  pose proof (eo_index _ Hentry).
  assert (forall n, Forall entry_ok (take n (log_tail c))) as Htake by (intros ?; apply Forall_take, Hc).
  destruct (log_tail c !! _); [gcase; [|by apply IH]|gcase; [|by apply IH]];
    apply IH; try done; try (apply set_log_typed; [done|]); typed; done.
Qed.

Lemma follower_advance_typed c commit :
  core_typed c -> u64 commit -> typed_step (follower_advance_commit c commit).
Proof.
  intros Hc Hk. unfold follower_advance_commit. cbv zeta. gcase; [|typed]. gcase; typed.
Qed.

Lemma reconcile_and_commit_typed c leader entries commit round effs :
  core_typed c -> u64 round -> u64 commit -> Forall effect_typed effs -> Forall entry_ok entries ->
  typed_step (reconcile_and_commit_entries c leader entries commit round effs).
Proof.
  intros Hc Hr Hk He Hes. unfold reconcile_and_commit_entries.
  pose proof (reconcile_typed entries c leader round effs [] Hc Hr He (Forall_nil_2 _) Hes) as (Hc1 & He1 & Hn).
  destruct (reconcile_entries _ _ _ _ _ _) as [[c1 effs1] [newly|]]; cbn [fst snd opt_ok] in *; [|done].
  destruct (follower_advance_typed c1 commit Hc1 Hk) as [Hc2 He2].
  destruct (follower_advance_commit c1 commit) as [c2 advance]. cbn [fst snd] in *.
  destruct newly; typed; done.
Qed.

Lemma on_append_typed c t leader prev prev_term entries commit round :
  core_typed c -> u64 t -> cell_ok leader -> u64 prev -> Forall entry_ok entries -> u64 commit ->
  u64 round -> typed_step (on_append_entries c t leader prev prev_term entries commit round).
Proof.
  intros Hc Ht Hl Hp Hes Hk Hr. unfold on_append_entries. fold (prologue c t).
  destruct (prologue_typed c t Hc Ht) as [Hc1 He1]. destruct (prologue c t) as [c1 effs1].
  cbn [fst snd] in *. gcase; [typed|]. cbv zeta.
  set (c2 := c1 <| role := Follower |> <| known_leader := _ |> <| ticks_since_leader_contact := 0 |>).
  assert (core_typed c2) as Hc2 by typed. clearbody c2.
  assert (u64 (from_option included_index 0 (snapshot_meta c2))) as Hs.
  { pose proof (ty_snapshot _ Hc2) as Hm. destruct (snapshot_meta c2); [apply Hm|apply u64_0]. }
  gcase.
  - pose proof (filter_ok (fun e => e_index e > from_option included_index 0 (snapshot_meta c2)) _ Hes) as Hu.
    destruct (filter _ entries); [typed|]. gcase; [typed|]. by apply reconcile_and_commit_typed.
  - pose proof (term_at_ok c2 prev Hc2) as Hpt. destruct (term_at c2 prev); [|typed].
    gcase; [|by apply reconcile_and_commit_typed]. cbv zeta.
    match goal with |- context [from_option e_index ?d (List.find ?P ?l)] =>
      assert (u64 (from_option e_index d (List.find P l))) as Hfirst end; [|typed].
    destruct (List.find _ _) as [e|] eqn:Hf; cbn [from_option]; [|typed].
    apply find_some in Hf as [Hin%list_elem_of_In _]. eapply Forall_forall in Hin; [|apply Hc2]. apply Hin.
Qed.
#[local] Hint Resolve build_typed : typed.

Lemma foldl_best_in (P : Z -> bool) l : forall best,
  foldl (fun best idx => if P idx then idx else best) best l = best
  \/ foldl (fun best idx => if P idx then idx else best) best l ∈ l.
Proof.
  induction l as [|x l IH]; intros best; [by left|]. cbn.
  destruct (IH (if P x then x else best)) as [->|Hin]; [|right; by right].
  destruct (P x); [right; left|by left].
Qed.

Lemma try_advance_typed c :
  core_typed c -> core_typed (try_advance_leader_commit c).1
    /\ Forall effect_typed (option_list (try_advance_leader_commit c).2).
Proof.
  intros Hc. unfold try_advance_leader_commit. cbv zeta.
  set (best := foldl _ _ _). assert (u64 best) as Hbest.
  { pose proof (ty_commit _ Hc). pose proof (last_index_ok _ Hc). unfold best.
    destruct (foldl_best_in (commit_candidate c)
      (seqZ (commit_index c + 1) (last_log_index c - commit_index c)) (commit_index c)) as [->|Hin]; [done|].
    apply elem_of_seqZ in Hin. width. lia. }
  clearbody best. gcase; cbn [fst snd]; typed.
Qed.

Lemma sweep_scan_typed c :
  core_typed c -> lease_ok (sweep_scan c).1.
Proof.
  intros Hc. unfold sweep_scan. cbv zeta.
  assert (forall kr, kr ∈ btree_iter (quorum_rounds c) -> u64 kr.1) as Hk.
  { intros [k r] Hkr%elem_of_btree_iter. apply (ty_rounds _ Hc k r Hkr). }
  revert Hk. generalize (btree_iter (quorum_rounds c)). intros l.
  assert (forall lease keys, lease_ok lease -> (forall kr, kr ∈ l -> u64 kr.1) ->
    lease_ok (foldl (fun '(lease, keys) '(round_id, round) =>
      if bool_decide (pr_term round = current_term c)
         && bool_decide (quorum_size (roster c) <= size (pr_acked_domains round))%nat
      then (if decide (round_id >= ll_last_confirmed_round lease)
            then {| ll_term := current_term c; ll_remaining_ticks := leader_lease_ticks (timing c);
                    ll_last_confirmed_round := round_id |} else lease,
            if has_authoritative_commit_view_in_current_term c || bool_decide (pr_waiting_read_ids round = [])
            then keys ++ [round_id] else keys)
      else (lease, keys)) (lease, keys) l).1) as Hgen.
  { induction l as [|[k r] l IH]; intros lease keys Hl Hk; [done|]. cbn [foldl].
    assert (u64 k) as Hkk by (apply (Hk (k, r)); left).
    pose proof (ty_timing _ Hc) as (_ & Hlt & _). pose proof (ty_term _ Hc).
    gcase; apply IH; try done; try (intros kr Hkr; apply Hk; by right). gcase; done. }
  intros Hk. apply Hgen; [apply Hc|done].
Qed.

Lemma sweep_typed c : core_typed c -> typed_step (sweep_confirmed_quorum_rounds c).
Proof.
  intros Hc. unfold sweep_confirmed_quorum_rounds. pose proof (sweep_scan_typed c Hc) as Hl.
  destruct (sweep_scan c) as [lease keys]. cbn [fst] in Hl.
  assert (core_typed (c <| leader_lease := lease |>)) as Hc1 by typed. revert Hc1.
  generalize (c <| leader_lease := lease |>). assert (Forall effect_typed []) as He by constructor.
  revert He. generalize (@nil ConsensusEffect).
  induction keys as [|key keys IH]; intros effs He c1 Hc1; [done|]. cbn [foldl].
  assert (typed_step (sweep_confirm c1 key)) as [Hc2 He2].
  { unfold sweep_confirm. destruct (quorum_rounds c1 !! key) as [r|] eqn:Hr; [|typed].
    destruct (ty_rounds _ Hc1 key r Hr) as [_ [? ? Hreads]]. cbv zeta. typed.
    by eapply Forall_forall in Hreads. }
  destruct (sweep_confirm c1 key) as [c2 confirmed]. cbn [fst snd] in *. apply IH; [typed|done].
Qed.

Lemma ack_round_typed c domain round :
  core_typed c -> u64 round ->
  core_typed
    match domain, quorum_rounds c !! round with
    | Some d, Some r =>
        if decide (pr_term r = current_term c) then
          c <| quorum_rounds := <[round := {| pr_term := pr_term r;
            pr_commit_index_at_issue := pr_commit_index_at_issue r;
            pr_acked_domains := {[d]} ∪ pr_acked_domains r;
            pr_waiting_read_ids := pr_waiting_read_ids r |}]> (quorum_rounds c) |>
        else c
    | _, _ => c
    end.
Proof.
  intros Hc Hr. destruct domain as [d|]; [|done]. destruct (quorum_rounds c !! round) as [r|] eqn:Hq; [|done].
  case_decide; [|done]. destruct (ty_rounds _ Hc round r Hq) as [_ [? ? ?]].
  apply set_rounds_typed; [done|]. apply rounds_insert; [apply Hc|done|by split].
Qed.

Lemma on_append_response_typed c t follower success matched ct ci round :
  core_typed c -> u64 t -> u64 matched -> opt_ok u64 ct -> u64 ci -> u64 round ->
  typed_step (on_append_entries_response c t follower success matched ct ci round).
Proof.
  intros Hc Ht Hm Hct Hci Hr. unfold on_append_entries_response.
  gcase; [by apply step_down_typed|]. gcase; [typed|]. destruct success; cbv zeta.
  - match goal with |- context [try_advance_leader_commit ?x] => assert (core_typed x) as Hx by typed;
      destruct (try_advance_typed x Hx) as [Hc2 He2]; destruct (try_advance_leader_commit x) as [c2 adv] end.
    cbn [fst snd] in *.
    pose proof (ack_round_typed c2 (domain_of (roster c2) follower) round Hc2 Hr) as Hc3.
    match type of Hc3 with core_typed ?x => set (c3 := x) in * end.
    destruct (sweep_typed c3 Hc3) as [Hc4 He4]. clearbody c3.
    destruct (sweep_confirmed_quorum_rounds c3) as [c4 confirmed]. cbn [fst snd] in *.
    gcase; [allocate|]; typed.
  - set (backed := match ct with Some _ => _ | None => _ end). assert (u64 backed) as Hb.
    { subst backed. destruct ct as [x|]; [|typed]. destruct (List.find _ _) as [e|] eqn:Hf; [|typed].
      apply find_some in Hf as [Hin%in_rev%list_elem_of_In _]. eapply Forall_forall in Hin; [|apply Hc].
      apply add64_ok, Hin. }
    clearbody backed. allocate. typed.
Qed.

Lemma snapshot_response_typed c leader li off installed :
  core_typed c -> u64 li -> u64 off ->
  effect_typed (snapshot_response c leader li off installed).
Proof. intros. unfold snapshot_response. typed. Qed.
#[local] Hint Resolve snapshot_response_typed : typed.

Lemma reset_typed c leader li effs :
  core_typed c -> u64 li -> Forall effect_typed effs -> typed_step (reset_and_nack c leader li effs).
Proof. intros. unfold reset_and_nack. cbv zeta. typed. Qed.

(** A chunk past the end drops the staged snapshot. *)
Lemma overrun_typed c x leader li effs :
  core_typed c -> u64 li -> Forall effect_typed effs ->
  typed_step (reset_and_nack (c <| inbound_snapshot := x |>) leader li effs).
Proof.
  intros Hc Hi He. assert (core_typed (c <| inbound_snapshot := x |> <| inbound_snapshot := None |>)) as Hc1.
  { destruct Hc. by split. }
  unfold reset_and_nack. cbv zeta. typed.
Qed.

Lemma complete_install_typed c leader li lt total s effs :
  core_typed c -> u64 li -> u64 lt -> u64 total -> staging_ok s -> Forall effect_typed effs ->
  typed_step (complete_install c leader li lt total s effs).
Proof.
  intros Hc Hi Ht Htot Hs He. unfold complete_install. cbv zeta.
  set (c2 := c <| inbound_snapshot := None |>).
  assert (core_typed c2) as Hc2 by typed. clearbody c2. gcase; [by apply reset_typed|].
  assert (blob_ok (st_buffer s)) as Hblob by (destruct Hs; split; [done|width; lia]).
  assert (meta_ok {| included_index := li; included_term := lt; state_root := st_state_root_digest s |})
    as Hmeta by (split_and!; [done..|apply Hs]).
  match goal with |- context [c2 <| log_tail := ?l |>] => assert (Forall entry_ok l) as Hlog end.
  { gcase; [apply filter_ok, Hc2|constructor]. }
  typed.
Qed.

Lemma stage_chunk_typed c leader li lt off chunk fin s effs :
  core_typed c -> u64 li -> u64 lt -> staging_ok s -> byte_string chunk -> Forall effect_typed effs ->
  typed_step (stage_chunk c leader li lt (st_total_bytes s) off chunk fin s effs).
Proof.
  intros Hc Hi Ht Hs Hchunk He. unfold stage_chunk. cbv zeta. pose proof (sk_total _ Hs) as Htot.
  pose proof (sk_length _ Hs). assert (u64 (Z.of_nat (length (st_buffer s)))) by (width; lia).
  gcase; [typed|]. cbn [st_buffer].
  gcase; [by apply overrun_typed|].
  set (s1 := Build_InboundSnapshotStaging _ _ _ _ _ _ _ _). assert (staging_ok s1) as Hs1.
  { destruct Hs. split; cbn; [done..|by apply Forall_app|lia]. }
  set (c1 := c <| inbound_snapshot := Some s1 |>). assert (core_typed c1) as Hc1 by typed.
  assert (u64 (Z.of_nat (length (st_buffer s1)))) by (pose proof (sk_length _ Hs1); width; cbn in *; lia).
  change (st_buffer s ++ chunk) with (st_buffer s1). clearbody c1. gcase; [typed|].
  gcase; [by apply reset_typed|]. by apply complete_install_typed.
Qed.

Lemma on_chunk_typed c t leader li lt root sha total off chunk fin :
  core_typed c -> u64 t -> cell_ok leader -> u64 li -> u64 lt -> dig32 root -> dig32 sha ->
  u64 total -> byte_string chunk ->
  typed_step (on_install_snapshot_chunk c t leader li lt root sha total off chunk fin).
Proof.
  intros Hc Ht Hl Hi Hlt Hroot Hsha Htot Hchunk. unfold on_install_snapshot_chunk. fold (prologue c t).
  destruct (prologue_typed c t Hc Ht) as [Hc1 He1]. destruct (prologue c t) as [c1 effs1].
  cbn [fst snd] in *. gcase; [typed|]. cbv zeta.
  set (c2 := c1 <| role := Follower |> <| known_leader := _ |> <| ticks_since_leader_contact := 0 |>).
  assert (core_typed c2) as Hc2 by typed. clearbody c2. gcase; [typed|].
  set (existing := match inbound_snapshot c2 with Some _ => _ | None => _ end) in |- *.
  gcase; [by apply reset_typed|]. set (c3 := if existing then _ else _) in |- *.
  assert (core_typed c3 /\ forall s, inbound_snapshot c3 = Some s -> st_total_bytes s = total) as [Hc3 Hs3].
  { subst c3. destruct existing eqn:Hex.
    - split; [done|]. intros s Hs. unfold existing in Hex. rewrite Hs in Hex. unfold staging_matches in Hex.
      repeat (apply andb_true_iff in Hex as [Hex ?]). by match goal with
        H : bool_decide (st_total_bytes _ = _) = true |- _ => apply bool_decide_eq_true in H end.
    - split; [|by intros s [= <-]]. apply set_inbound_typed; [done|]. split; cbn; [done..|constructor|].
      width. lia. }
  clearbody c3. pose proof (ty_inbound _ Hc3) as Hin.
  destruct (inbound_snapshot c3) as [s|]; [|by apply reset_typed].
  rewrite <- (Hs3 s eq_refl). by apply stage_chunk_typed.
Qed.

Lemma on_snapshot_response_typed c t follower li next installed :
  core_typed c -> u64 t -> u64 li -> u64 next ->
  typed_step (on_install_snapshot_response c t follower li next installed).
Proof.
  intros Hc Ht Hi Hn. unfold on_install_snapshot_response.
  gcase; [by apply step_down_typed|]. gcase; [typed|]. destruct (snapshot_meta c); [|typed].
  gcase; [typed|]. cbv zeta. destruct installed.
  - match goal with |- context [try_advance_leader_commit ?x] => assert (core_typed x) as Hx by typed;
      destruct (try_advance_typed x Hx) as [Hc2 He2]; destruct (try_advance_leader_commit x) as [c2 adv] end.
    cbn [fst snd] in *. gcase; [allocate|]; typed; done.
  - gcase; [allocate; typed|]. gcase; [typed|]. allocate. typed.
Qed.

Lemma on_message_typed c from m : core_typed c -> message_ok m -> typed_step (on_message c from m).
Proof.
  intros Hc Hm. unfold on_message. gcase; [typed|].
  destruct m; cbn [message_ok] in Hm; destruct_and?; (gcase; [typed|]).
  - split; [done|]. by apply on_pre_vote_typed.
  - by apply on_pre_vote_response_typed.
  - by apply on_vote_typed.
  - by apply on_vote_response_typed.
  - by apply on_append_typed.
  - by apply on_append_response_typed.
  - by apply on_chunk_typed.
  - by apply on_snapshot_response_typed.
Qed.

Lemma step_typed c input : core_typed c -> input_typed input -> typed_step (step c input).
Proof.
  intros Hc Hi. destruct input; cbn [step input_typed] in *; destruct_and?.
  - by apply on_tick_typed.
  - by apply on_propose_typed.
  - by apply on_read_typed.
  - by apply on_message_typed.
Qed.

Lemma run_typed inputs : forall c,
  core_typed c -> Forall input_typed inputs -> typed_step (run c inputs).
Proof.
  induction inputs as [|input inputs IH]; intros c Hc Hi; [by split|]. cbn [run].
  apply Forall_cons in Hi as [Hi His]. destruct (step_typed c input Hc Hi) as [Hc1 He1].
  destruct (step c input) as [c1 effs1]. cbn [fst snd] in *.
  destruct (IH c1 Hc1 His) as [Hc2 He2]. destruct (run c1 inputs) as [c2 effs2]. split; [done|].
  by apply Forall_app.
Qed.

End handlers.

(** ** Construction and restart *)

Section construction.
Context `{Sha256}.
Implicit Types (c : ConsensusCore) (d : RehydratedCoreState).

Record durable_typed d : Prop := {
  dt_term : u64 (rh_current_term d);
  dt_voted : opt_ok cell_ok (rh_voted_for d);
  dt_commit : u64 (rh_commit_index d);
  dt_snapshot : opt_ok (fun mb => meta_ok mb.1 /\ blob_ok mb.2) (rh_snapshot d);
  dt_log : Forall entry_ok (rh_log_tail d);
}.

Lemma abs_typed c : core_inv c -> core_typed c -> durable_typed (abs c).
Proof.
  intros Hi Hc. split; cbn; try apply Hc. pose proof (ty_snapshot _ Hc). pose proof (ty_bytes _ Hc).
  by destruct (snapshot_meta c), (snapshot_bytes c).
Qed.

Lemma blank_typed local domain r t : cell_ok local -> timing_ok t -> core_typed (blank_core local domain r t).
Proof.
  intros Hl Ht. split; cbn; try done; try (width; lia); try apply map_Forall_empty.
Qed.

Lemma core_new_typed local r t c :
  cell_ok local -> timing_ok t -> core_new local r t = Ok c -> core_typed c.
Proof.
  intros Hl Ht. unfold core_new. destruct (timing_validate t) as [t'|] eqn:Hv; [|done].
  assert (t' = t) as ->.
  { revert Hv. unfold timing_validate. repeat case_match; by intros [= ->]. }
  destruct (domain_of r local) as [domain|]; [|done]. cbv zeta.
  pose proof (blank_typed local domain r t Hl Ht) as Hb.
  destruct (decide _); intros <-%Ok_inj; [|exact Hb].
  apply set_lease_typed; [|split_and!; cbn; [width; lia|apply Ht|width; lia]].
  apply set_match_typed; [|by apply counters_insert; typed]. apply set_next_typed; [|by apply counters_insert; typed].
  typed.
Qed.

Lemma rehydrate_typed local r t d c :
  cell_ok local -> timing_ok t -> durable_typed d -> rehydrate local r t d = Ok c -> core_typed c.
Proof.
  intros Hl Ht [Hterm Hv Hk Hs Hlog]. unfold rehydrate.
  destruct (core_new local r t) as [c0|] eqn:Hn; [|done].
  pose proof (core_new_typed _ _ _ _ Hl Ht Hn) as Hc0. cbv zeta.
  assert (opt_ok meta_ok (fst <$> rh_snapshot d) /\ opt_ok blob_ok (snd <$> rh_snapshot d)
    /\ u64 (from_option included_index 0 (fst <$> rh_snapshot d))) as (Hm & Hb & Hi).
  { destruct (rh_snapshot d) as [[m b]|]; cbn; [destruct Hs as [(? & ? & ?) ?]|]; by split_and!. }
  set (c1 := c0 <| snapshot_meta := _ |> <| snapshot_bytes := _ |> <| log_tail := _ |> <| commit_index := _ |>).
  assert (core_typed c1) as Hc1 by typed. clearbody c1.
  destruct (decide _); intros <-%Ok_inj; typed.
Qed.

Lemma record_local_typed c m b i :
  core_typed c -> meta_ok m -> blob_ok b -> core_typed (record_local_snapshot c m b i).1.
Proof.
  intros Hc Hm Hb. unfold record_local_snapshot. destruct (_ || _); [done|]. cbv zeta.
  destruct (match snapshot_meta c with Some _ => _ | None => false end); [done|].
  assert (forall j, core_typed (c <| log_tail := filter (fun e => e_index e > j) (log_tail c) |>)) as Hl.
  { intros j. apply set_log_typed; [done|]. apply filter_ok, Hc. }
  gcase; cbn [fst]; [|apply Hl]. apply set_offset_typed; [|apply counters_empty].
  apply set_bytes_typed; [|by apply some_ok]. apply set_meta_typed; [apply Hl|by apply some_ok].
Qed.
End construction.

(** ** Theorems *)


Lemma sample_inputs_typed : Forall (input_typed (H := checksum_hasher)) sample_inputs.
Proof.
  destruct sample_proposal_ok as [Hok Hp]. unfold sample_inputs. apply Forall_app. split.
  - by apply Forall_replicate.
  - unfold cell_ok. repeat (apply Forall_cons; split); [..|by apply Forall_nil]; cbn;
      unfold cell_ok; split_and!; try done; width; lia.
Qed.

