(* ===== verification/Store.v ===== *)
(** * Store: the SQLite consensus store

    Models nlos-consensus/src/store.rs: the three tables with their constraints
    and triggers, the SQL statements the store runs, the transactions built from
    them, the snapshot files, and recovery. A store operation returns [None]
    where the source panics, and otherwise the new store or an error. A
    transaction that fails leaves the store as it was; writing a snapshot file
    is atomic, since the source renames a synced temporary file. *)

From Stdlib Require Import Ascii.
From S2P Require Import Prelude Bytes Commands StateMachine Ledger Snapshot Roster RaftTypes.

(** ** Errors *)

Inductive ConsensusStoreError :=
  | DurabilityUnavailable (message : string)
  | IntegrityCorrupted (message : string)
  | InvalidSnapshotBoundary (message : string)
  | Io
  | Sqlite (message : string).

(** A store computation; [None] is a panic. *)
Definition store (A : Type) : Type := option (result ConsensusStoreError A).

#[export] Instance store_ret : MRet store := fun A a => Some (Ok a).
#[export] Instance store_bind : MBind store := fun A B k m =>
  match m with
  | Some (Ok a) => k a
  | Some (Err e) => Some (Err e)
  | None => None
  end.
Definition store_fail {A} (e : ConsensusStoreError) : store A := Some (Err e).
(** A computation inside an operation on the store state [s], which an error leaves at [s]. *)
Definition and_then {S A B} (s : S) (m : store A) (k : A -> S * store B) : S * store B :=
  match m with
  | Some (Ok a) => k a
  | Some (Err e) => (s, Some (Err e))
  | None => (s, None)
  end.
Definition corrupted {A} (message : string) : store A := store_fail (IntegrityCorrupted message).

(** ** Tables *)

Record MetaRow := {
  mt_current_term : Z;
  mt_voted_for : option Z;
  mt_commit_index : Z;
  mt_hard_state_sha256 : Z;
}.

Record LogRow := {
  lr_term : Z;
  lr_command_kind : Z;
  lr_idempotency_key : Z;
  lr_payload_bytes : bytes;
  lr_entry_sha256 : Z;
}.

Record StoredSnapshotRow := {
  sr_meta : SnapshotMetadata;
  sr_file_name : string;
  sr_byte_len : Z;
  sr_snapshot_sha256 : Z;
}.

(** [consensus_log] is keyed by [log_index]. *)
Record Database := {
  consensus_meta : option MetaRow;
  consensus_log : gmap Z LogRow;
  consensus_snapshot : option StoredSnapshotRow;
}.

#[export] Instance eta_database : Eta Database := fun d => {|
  consensus_meta := consensus_meta d;
  consensus_log := consensus_log d;
  consensus_snapshot := consensus_snapshot d;
|}.
#[export] Instance set_consensus_meta : Setter consensus_meta. Proof. build_setter. Defined.
#[export] Instance set_consensus_log : Setter consensus_log. Proof. build_setter. Defined.
#[export] Instance set_consensus_snapshot : Setter consensus_snapshot. Proof. build_setter. Defined.

(** The database and the snapshot files of the store directory. *)
Record SqliteConsensusStore := {
  conn : Database;
  snapshot_files : gmap string bytes;
}.

Definition u64_to_i64 (value : Z) : store Z :=
  if decide (value <= i64_max) then mret value
  else corrupted "u64 value exceeds SQLite INTEGER i64::MAX".

(** ** Statements *)

(** [UPDATE consensus_meta ... WHERE singleton = 1], with
    [trg_consensus_meta_monotonic]. *)
Definition sql_update_meta (d : Database) (row : MetaRow) : store Database :=
  match consensus_meta d with
  | None => mret d
  | Some old =>
      if decide (mt_current_term row < mt_current_term old)
      then store_fail (Sqlite "consensus_meta.current_term regression forbidden") else
      if decide (mt_commit_index row < mt_commit_index old)
      then store_fail (Sqlite "consensus_meta.commit_index regression forbidden") else
      if bool_decide (mt_current_term row = mt_current_term old)
         && bool_decide (is_Some (mt_voted_for old))
         && bool_decide (mt_voted_for row <> mt_voted_for old)
      then store_fail (Sqlite "single-vote-per-term violation in consensus_meta") else
      mret (d <| consensus_meta := Some row |>)
  end.

(** [INSERT INTO consensus_log], with the primary key and the [CHECK]s. *)
Definition sql_insert_log (d : Database) (log_index : Z) (row : LogRow) : store Database :=
  if decide (is_Some (consensus_log d !! log_index))
  then store_fail (Sqlite "UNIQUE constraint failed: consensus_log.log_index") else
  if bool_decide (log_index >= 1) && bool_decide (lr_term row >= 1)
     && bool_decide (1 <= lr_command_kind row <= 4)
  then mret (d <| consensus_log := <[log_index := row]> (consensus_log d) |>)
  else store_fail (Sqlite "CHECK constraint failed: consensus_log").

(** [included_index], or [0] without a snapshot. *)
Definition snapshot_row_index (d : Database) : Z :=
  from_option (fun s => included_index (sr_meta s)) 0 (consensus_snapshot d).

(** Whether [trg_consensus_log_safe_delete] aborts the deletion of a row. *)
Definition delete_forbidden (d : Database) (log_index : Z) : bool :=
  match consensus_meta d with
  | Some m => bool_decide (log_index <= mt_commit_index m)
              && bool_decide (log_index > snapshot_row_index d)
  | None => false
  end.

(** [DELETE FROM consensus_log WHERE P]. *)
Definition sql_delete_log (d : Database) (P : Z -> bool) : store Database :=
  if bool_decide (map_Forall (fun i _ => P i && delete_forbidden d i = false) (consensus_log d))
  then mret (d <| consensus_log := filter (fun ir => P ir.1 = false) (consensus_log d) |>)
  else store_fail (Sqlite "cannot delete committed log entry not covered by durable snapshot").

(** [SELECT MAX(log_index) FROM consensus_log]. *)
Definition sql_max_log_index (d : Database) : option Z :=
  foldr (fun i acc => Some (from_option (Z.max i) i acc)) None (map_to_list (consensus_log d)).*1.

(** [INSERT INTO consensus_snapshot ... ON CONFLICT DO UPDATE], with the
    [CHECK]s and [trg_consensus_snapshot_monotonic]. *)
Definition sql_upsert_snapshot (d : Database) (row : StoredSnapshotRow) : store Database :=
  if negb (bool_decide (included_index (sr_meta row) >= 1)
           && bool_decide (included_term (sr_meta row) >= 1) && bool_decide (sr_byte_len row >= 76))
  then store_fail (Sqlite "CHECK constraint failed: consensus_snapshot") else
  match consensus_snapshot d with
  | Some old =>
      if decide (included_index (sr_meta row) < included_index (sr_meta old))
      then store_fail (Sqlite "consensus_snapshot.included_index regression forbidden")
      else mret (d <| consensus_snapshot := Some row |>)
  | None => mret (d <| consensus_snapshot := Some row |>)
  end.

Section store.
Context `{Sha256}.
Implicit Types (d : Database).

(** ** Hard state *)

Definition HARD_STATE_HASH_DOMAIN : bytes :=
  Eval vm_compute in bytes_of_string "llmos/consensus/hard-state/v1".

Definition compute_hard_state_sha256 (current_term : Z) (voted_for : option Z) (commit_index : Z) : Z :=
  sha256 (HARD_STATE_HASH_DOMAIN ++ be_bytes 8 current_term
    ++ match voted_for with Some cell => [1] ++ be_bytes 16 cell | None => [0] end
    ++ be_bytes 8 commit_index).

(** The row a fresh database is given; the tables themselves are created empty. *)
Definition initialize_strict_schema d : Database :=
  match consensus_meta d with
  | Some _ => d
  | None => d <| consensus_meta := Some {|
      mt_current_term := 0; mt_voted_for := None; mt_commit_index := 0;
      mt_hard_state_sha256 := compute_hard_state_sha256 0 None 0 |} |>
  end.

Definition empty_store : SqliteConsensusStore := {|
  conn := {| consensus_meta := None; consensus_log := ∅; consensus_snapshot := None |};
  snapshot_files := ∅ |}.

Definition read_and_verify_hard_state d : store (Z * option Z * Z) :=
  match consensus_meta d with
  | None => corrupted "missing consensus_meta singleton row"
  | Some row =>
      if decide (mt_current_term row < 0) then corrupted "negative current_term" else
      if decide (mt_commit_index row < 0) then corrupted "negative commit_index" else
      if decide (mt_voted_for row = Some 0) then corrupted "all-zero voted_for" else
      if decide (mt_hard_state_sha256 row
                 <> compute_hard_state_sha256 (mt_current_term row) (mt_voted_for row)
                      (mt_commit_index row))
      then corrupted "consensus_meta hard_state_sha256 mismatch" else
      mret (mt_current_term row, mt_voted_for row, mt_commit_index row)
  end.

Definition write_hard_state_tx d (current_term : Z) (voted_for : option Z) (commit_index : Z) :
    store Database :=
  term_i64 ← u64_to_i64 current_term;
  commit_i64 ← u64_to_i64 commit_index;
  sql_update_meta d {|
    mt_current_term := term_i64;
    mt_voted_for := voted_for;
    mt_commit_index := commit_i64;
    mt_hard_state_sha256 := compute_hard_state_sha256 current_term voted_for commit_index;
  |}.

(** ** Log rows *)

Definition row_of_entry (e : RaftLogEntry) : LogRow := {|
  lr_term := e_term e;
  lr_command_kind := family_as_u8 (family_code (command (e_proposal e)));
  lr_idempotency_key := idempotency_key (e_proposal e);
  lr_payload_bytes := encode_command_body (e_proposal e);
  lr_entry_sha256 := e_sha256 e;
|}.

Fixpoint append_entries_tx d (entries : list RaftLogEntry) : store Database :=
  match entries with
  | [] => mret d
  | entry :: rest =>
      if negb (verify_integrity entry)
      then corrupted "refusing to append entry with invalid entry_sha256" else
      index_i64 ← u64_to_i64 (e_index entry);
      _ ← u64_to_i64 (e_term entry);
      d' ← sql_insert_log d index_i64 (row_of_entry entry);
      append_entries_tx d' rest
  end.

Definition verify_and_hydrate_log_row (log_index : Z) (raw : LogRow) : store RaftLogEntry :=
  if decide (log_index < 0) then corrupted "negative log_index" else
  if decide (lr_term raw < 0) then corrupted "negative term" else
  if bool_decide (log_index = 0) || bool_decide (lr_term raw = 0)
  then corrupted "invalid zero index/term" else
  if negb (bool_decide (0 <= lr_command_kind raw <= 255))
  then corrupted "out-of-range command_kind" else
  match from_wire_tag (lr_command_kind raw) with
  | Err _ => corrupted "forbidden command_kind in consensus_log"
  | Ok family =>
      if decide (lr_entry_sha256 raw
                 <> compute_log_entry_sha256 log_index (lr_term raw) (family_as_u8 family)
                      (lr_idempotency_key raw) (lr_payload_bytes raw))
      then corrupted "entry_sha256 mismatch" else
      match decode_command_body family (lr_idempotency_key raw) (lr_payload_bytes raw) with
      | Err _ => corrupted "corrupted command payload"
      | Ok proposal =>
          mret {| e_index := log_index; e_term := lr_term raw; e_proposal := proposal;
                  e_sha256 := lr_entry_sha256 raw |}
      end
  end.

Definition read_snapshot_row d : store (option StoredSnapshotRow) :=
  match consensus_snapshot d with
  | None => mret None
  | Some row =>
      if decide (included_index (sr_meta row) < 0) then corrupted "negative snapshot index" else
      if decide (included_term (sr_meta row) < 0) then corrupted "negative snapshot term" else
      if decide (sr_byte_len row < 0) then corrupted "negative snapshot len" else
      mret (Some row)
  end.

Definition verify_commit_bound_covered_tx d (commit_index : Z) : store unit :=
  if decide (commit_index = 0) then mret tt else
  snap ← read_snapshot_row d;
  let snap_idx := from_option (fun s => included_index (sr_meta s)) 0 snap in
  if decide (commit_index <= snap_idx) then mret tt else
  let max_log := match sql_max_log_index d with Some v => Z.max v 0 | None => 0 end in
  if decide (max_log < commit_index) then corrupted "cannot advance commit_index: durable max_log_index"
  else mret tt.

(** ** Snapshots *)

Definition upsert_snapshot_row_tx d (meta : SnapshotMetadata) (file_name : string)
    (byte_len snapshot_sha256 : Z) : store Database :=
  _ ← u64_to_i64 (included_index meta);
  _ ← u64_to_i64 (included_term meta);
  _ ← u64_to_i64 byte_len;
  sql_upsert_snapshot d {| sr_meta := meta; sr_file_name := file_name; sr_byte_len := byte_len;
                           sr_snapshot_sha256 := snapshot_sha256 |}.

Definition install_snapshot_in_tx d (meta : SnapshotMetadata) (file_name : string)
    (byte_len snapshot_sha256 : Z) : store Database :=
  '(cur_term, cur_voted_for, cur_commit) ← read_and_verify_hard_state d;
  d ← upsert_snapshot_row_tx d meta file_name byte_len snapshot_sha256;
  anchor_index ← u64_to_i64 (included_index meta);
  let anchor_matches := bool_decide (lr_term <$> consensus_log d !! anchor_index
                                     = Some (included_term meta)) in
  d ← (if anchor_matches then
         sql_delete_log d (fun i => bool_decide (i <= anchor_index))
       else if decide (cur_commit > included_index meta)
       then corrupted "refusing InstallSnapshot below commit_index"
       else sql_delete_log d (fun _ => true));
  let next_commit := Z.max cur_commit (included_index meta) in
  let next_term := Z.max cur_term (included_term meta) in
  let next_voted := if decide (next_term > cur_term) then None else cur_voted_for in
  write_hard_state_tx d next_term next_voted next_commit.

(** [format!("{value:020}")] for a [u64], which has at most 20 digits: the
    digits are written from the last one on, in front of [acc]. *)
Fixpoint decimal (digits : nat) (value : Z) (acc : string) : string :=
  match digits with
  | O => acc
  | S digits =>
      decimal digits (value / 10) (String (Ascii.ascii_of_N (Z.to_N (48 + value mod 10))) acc)
  end.

Definition snapshot_file_name (included_index included_term : Z) : string :=
  ("snapshot-" ++ decimal 20 included_index ("-" ++ decimal 20 included_term ".bin"))%string.

(** The files of the directory are all named [snapshot-*.bin]. *)
Definition retire_obsolete_snapshot_files (files : gmap string bytes) (active : string) :
    gmap string bytes :=
  filter (fun nf => nf.1 = active) files.

(** ** Performing the effects of a step *)

Record ConsensusCommitReceipt := {
  consensus_commit_index : Z;
  rc_term : Z;
  rc_state_root_digest : Z;
  rc_outcome : AppliedProposalOutcome;
}.

Record StagedSnapshot := {
  sg_meta : SnapshotMetadata;
  sg_file_name : string;
  sg_byte_len : Z;
  sg_sha256 : Z;
  sg_state_machine : ControlPlaneStateMachine;
}.

(** Decoding a snapshot and comparing it with its metadata. *)
Definition decode_matching_snapshot (meta : SnapshotMetadata) (snapshot_bytes : bytes) :
    store ControlPlaneStateMachine :=
  match decode_snapshot snapshot_bytes with
  | None => None
  | Some (Err _) => corrupted "InstallSnapshot effect carried invalid snapshot"
  | Some (Ok sm) =>
      root ← (Ok <$> state_root_digest sm : store Z);
      if bool_decide (last_applied_index sm <> included_index meta)
         || bool_decide (last_applied_term sm <> included_term meta)
         || bool_decide (root <> state_root meta)
      then corrupted "InstallSnapshot effect metadata mismatch" else mret sm
  end.

(** The first loop of [apply_durable_effects]: staging the snapshot files. *)
Fixpoint stage_snapshots (files : gmap string bytes) (staged : option StagedSnapshot)
    (effects : list ConsensusEffect) :
    gmap string bytes * store (option StagedSnapshot) :=
  match effects with
  | [] => (files, mret staged)
  | InstallSnapshot meta snapshot_bytes :: rest =>
      match decode_matching_snapshot meta snapshot_bytes with
      | Some (Ok decoded_sm) =>
          let file_name := snapshot_file_name (included_index meta) (included_term meta) in
          stage_snapshots (<[file_name := snapshot_bytes]> files)
            (Some {| sg_meta := meta; sg_file_name := file_name;
                     sg_byte_len := Z.of_nat (length snapshot_bytes);
                     sg_sha256 := compute_snapshot_transfer_sha256 (included_index meta)
                       (included_term meta) (state_root meta) snapshot_bytes;
                     sg_state_machine := decoded_sm |}) rest
      | Some (Err e) => (files, store_fail e)
      | None => (files, None)
      end
  | _ :: rest => stage_snapshots files staged rest
  end.

(** The variables of the transaction loop. *)
Record TxState := {
  tx_db : Database;
  cur_term : Z;
  cur_voted_for : option Z;
  cur_commit : Z;
  hard_state_dirty : bool;
}.

(** The [match] of the transaction loop. *)
Definition apply_tx_effect (staged : option StagedSnapshot) (tx : TxState) (effect : ConsensusEffect) :
    store TxState :=
  match effect with
  | PersistHardState current_term voted_for =>
      mret {| tx_db := tx_db tx; cur_term := current_term; cur_voted_for := voted_for;
              cur_commit := cur_commit tx; hard_state_dirty := true |}
  | InstallSnapshot meta _ =>
      match staged with
      | None => None (* [expect("pre-staged snapshot")] *)
      | Some s =>
          d ← (if hard_state_dirty tx
               then write_hard_state_tx (tx_db tx) (cur_term tx) (cur_voted_for tx) (cur_commit tx)
               else mret (tx_db tx));
          d ← install_snapshot_in_tx d meta (sg_file_name s) (sg_byte_len s) (sg_sha256 s);
          mret {| tx_db := d; cur_term := cur_term tx; cur_voted_for := cur_voted_for tx;
                  cur_commit := Z.max (cur_commit tx) (included_index meta);
                  hard_state_dirty := false |}
      end
  | TruncateLogSuffixFrom from_index =>
      if decide (from_index <= cur_commit tx)
      then corrupted "TruncateLogSuffixFrom <= commit_index" else
      from_i64 ← u64_to_i64 from_index;
      d ← sql_delete_log (tx_db tx) (fun i => bool_decide (i >= from_i64));
      mret {| tx_db := d; cur_term := cur_term tx; cur_voted_for := cur_voted_for tx;
              cur_commit := cur_commit tx; hard_state_dirty := hard_state_dirty tx |}
  | AppendLogEntries entries =>
      d ← append_entries_tx (tx_db tx) entries;
      mret {| tx_db := d; cur_term := cur_term tx; cur_voted_for := cur_voted_for tx;
              cur_commit := cur_commit tx; hard_state_dirty := hard_state_dirty tx |}
  | AdvanceCommitIndex commit_index _ _ =>
      if decide (commit_index < cur_commit tx)
      then corrupted "AdvanceCommitIndex < current commit_index" else
      _ ← verify_commit_bound_covered_tx (tx_db tx) commit_index;
      mret {| tx_db := tx_db tx; cur_term := cur_term tx; cur_voted_for := cur_voted_for tx;
              cur_commit := commit_index; hard_state_dirty := true |}
  | LeaderSteppedDown _ _ | LinearizableReadConfirmed _ _ _ | ProposalRejected _ _
  | SendMessage _ _ => mret tx
  end.

Fixpoint apply_tx_effects (staged : option StagedSnapshot) (tx : TxState)
    (effects : list ConsensusEffect) : store TxState :=
  match effects with
  | [] => mret tx
  | effect :: rest => tx ← apply_tx_effect staged tx effect; apply_tx_effects staged tx rest
  end.

(** The whole transaction. *)
Definition run_transaction d (staged : option StagedSnapshot) (effects : list ConsensusEffect) :
    store Database :=
  '(term, voted_for, commit) ← read_and_verify_hard_state d;
  tx ← apply_tx_effects staged {| tx_db := d; cur_term := term; cur_voted_for := voted_for;
                                  cur_commit := commit; hard_state_dirty := false |} effects;
  if hard_state_dirty tx
  then write_hard_state_tx (tx_db tx) (cur_term tx) (cur_voted_for tx) (cur_commit tx)
  else mret (tx_db tx).

(** Applying newly committed entries to the state machine. The state machine is
    returned in every case, since the source mutates it in place. *)
Fixpoint apply_newly_committed (sm : ControlPlaneStateMachine) (entries : list RaftLogEntry) :
    ControlPlaneStateMachine * store (list (RaftLogEntry * ConsensusCommitReceipt)) :=
  match entries with
  | [] => (sm, mret [])
  | entry :: rest =>
      if decide (e_index entry <= last_applied_index sm) then apply_newly_committed sm rest else
      if decide (e_index entry = 0) then (sm, corrupted "committed entry had zero log_index") else
      if decide (e_term entry = 0) then (sm, corrupted "committed entry had zero term") else
      match apply_committed_entry sm (e_index entry) (e_term entry) (e_proposal entry) with
      | None => (sm, None)
      | Some (sm, outcome) =>
          match state_root_digest sm with
          | None => (sm, None)
          | Some root =>
              let receipt := {| consensus_commit_index := e_index entry; rc_term := e_term entry;
                                rc_state_root_digest := root; rc_outcome := outcome |} in
              let '(sm, rest) := apply_newly_committed sm rest in
              (sm, receipts ← rest; mret ((entry, receipt) :: receipts))
          end
      end
  end.

Definition is_storage_effect (effect : ConsensusEffect) : bool :=
  match effect with
  | PersistHardState _ _ | InstallSnapshot _ _ | TruncateLogSuffixFrom _ | AppendLogEntries _
  | AdvanceCommitIndex _ _ _ => true
  | _ => false
  end.

(** The newly committed entries of all effects, in order. *)
Definition newly_committed_of (effects : list ConsensusEffect) : list RaftLogEntry :=
  concat ((fun effect =>
    match effect with AdvanceCommitIndex _ _ newly => newly | _ => [] end) <$> effects).

(** The new store and state machine, and the receipts or the error. *)
Definition apply_durable_effects (st : SqliteConsensusStore) (sm : ControlPlaneStateMachine)
    (effects : list ConsensusEffect) :
    SqliteConsensusStore * ControlPlaneStateMachine
    * store (list (RaftLogEntry * ConsensusCommitReceipt)) :=
  if negb (existsb is_storage_effect effects) then (st, sm, mret []) else
  let '(files, staged) := stage_snapshots (snapshot_files st) None effects in
  let st := {| conn := conn st; snapshot_files := files |} in
  and_then (st, sm) staged (fun staged =>
  and_then (st, sm) (run_transaction (conn st) staged effects) (fun d =>
  let '(files, sm) :=
    match staged with
    | Some s =>
        (retire_obsolete_snapshot_files files (sg_file_name s),
         if decide (last_applied_index (sg_state_machine s) >= last_applied_index sm)
         then sg_state_machine s else sm)
    | None => (files, sm)
    end in
  let '(sm, receipts) := apply_newly_committed sm (newly_committed_of effects) in
  ({| conn := d; snapshot_files := files |}, sm, receipts))).

(** ** Recovery *)

Record RecoveredConsensusState := {
  core_state : RehydratedCoreState;
  recovered_state_machine : ControlPlaneStateMachine;
}.

(** Reading and verifying the snapshot a row names. *)
Definition load_snapshot (files : gmap string bytes) (row : StoredSnapshotRow) :
    store (ControlPlaneStateMachine * bytes) :=
  match files !! sr_file_name row with
  | None => corrupted "missing or unreadable snapshot file"
  | Some b =>
      let meta := sr_meta row in
      if decide (Z.of_nat (length b) <> sr_byte_len row) then corrupted "snapshot byte length" else
      if decide (compute_snapshot_transfer_sha256 (included_index meta) (included_term meta)
                   (state_root meta) b <> sr_snapshot_sha256 row)
      then corrupted "snapshot SHA-256 mismatch" else
      match decode_snapshot b with
      | None => None
      | Some (Err _) => corrupted "snapshot decode failed"
      | Some (Ok sm) =>
          root ← (Ok <$> state_root_digest sm : store Z);
          if bool_decide (last_applied_index sm <> included_index meta)
             || bool_decide (last_applied_term sm <> included_term meta)
             || bool_decide (root <> state_root meta)
          then corrupted "snapshot metadata mismatched decoded state machine" else mret (sm, b)
      end
  end.

(** Verifying every row, in the order of the index. *)
Fixpoint hydrate_rows (rows : list (Z * LogRow)) : store (list RaftLogEntry) :=
  match rows with
  | [] => mret []
  | (i, row) :: rest =>
      entry ← verify_and_hydrate_log_row i row;
      entries ← hydrate_rows rest;
      mret (entry :: entries)
  end.

Fixpoint check_no_gap (expected_next : option Z) (entries : list RaftLogEntry) : store unit :=
  match entries with
  | [] => mret tt
  | entry :: rest =>
      if bool_decide (is_Some expected_next) && bool_decide (expected_next <> Some (e_index entry))
      then corrupted "log index gap detected during recovery"
      else check_no_gap (Some (saturating_add64 (e_index entry) 1)) rest
  end.

(** Replaying the committed part of the tail. *)
Fixpoint replay_committed (sm : ControlPlaneStateMachine) (commit_index : Z)
    (log_tail : list RaftLogEntry) : store ControlPlaneStateMachine :=
  match log_tail with
  | [] => mret sm
  | entry :: rest =>
      if decide (e_index entry > commit_index) then mret sm else
      if decide (e_index entry = 0) then corrupted "zero log_index in tail" else
      if decide (e_term entry = 0) then corrupted "zero term in tail" else
      match apply_committed_entry sm (e_index entry) (e_term entry) (e_proposal entry) with
      | None => None
      | Some (sm, _) => replay_committed sm commit_index rest
      end
  end.

(** The verified log tail above a snapshot. *)
Definition recover_tail d (commit_index snapshot_included : Z) : store (list RaftLogEntry) :=
  if decide (commit_index < snapshot_included)
  then corrupted "commit_index < snapshot.included_index" else
  all_rows ← hydrate_rows (btree_iter (consensus_log d));
  _ ← check_no_gap None all_rows;
  let log_tail := filter (fun e => e_index e > snapshot_included) all_rows in
  if match log_tail with
     | first :: _ => bool_decide (e_index first <> saturating_add64 snapshot_included 1)
     | [] => false
     end
  then corrupted "log tail does not start at snapshot_included + 1" else
  let last_available_index := from_option e_index snapshot_included (last log_tail) in
  if decide (last_available_index < commit_index)
  then corrupted "durable log ends below commit_index" else mret log_tail.

(** Dropping the rows a snapshot covers. *)
Definition drop_covered d (snapshot_included : Z) : store Database :=
  if decide (snapshot_included > 0) then
    included_i64 ← u64_to_i64 snapshot_included;
    sql_delete_log d (fun i => bool_decide (i <= included_i64))
  else mret d.

(** The new store, and what was recovered or the error. *)
Definition load_and_verify_all (st : SqliteConsensusStore) :
    SqliteConsensusStore * store RecoveredConsensusState :=
  and_then st (read_and_verify_hard_state (conn st)) (fun '(current_term, voted_for, commit_index) =>
  and_then st (read_snapshot_row (conn st)) (fun snapshot_row =>
  and_then st (match snapshot_row with
               | Some row => '(sm, b) ← load_snapshot (snapshot_files st) row;
                             mret (sm, Some (sr_meta row, b))
               | None => mret (sm_new, None)
               end) (fun '(sm, loaded) =>
  let st := {| conn := conn st; snapshot_files :=
    match snapshot_row with
    | Some row => retire_obsolete_snapshot_files (snapshot_files st) (sr_file_name row)
    | None => snapshot_files st
    end |} in
  let snapshot_included := from_option (fun l => included_index l.1) 0 loaded in
  and_then st (recover_tail (conn st) commit_index snapshot_included) (fun log_tail =>
  and_then st (drop_covered (conn st) snapshot_included) (fun d =>
  let st := {| conn := d; snapshot_files := snapshot_files st |} in
  and_then st (replay_committed sm commit_index log_tail) (fun sm =>
  (st, mret {|
    core_state := {| rh_current_term := current_term; rh_voted_for := voted_for;
                     rh_commit_index := commit_index; rh_snapshot := loaded;
                     rh_log_tail := log_tail |};
    recovered_state_machine := sm;
  |}))))))).

(** ** Local snapshots *)

Definition create_snapshot (st : SqliteConsensusStore) (included_index included_term : Z)
    (state_bytes : bytes) : SqliteConsensusStore * store SnapshotMetadata :=
  if bool_decide (included_index = 0) || bool_decide (included_term = 0)
  then (st, store_fail (InvalidSnapshotBoundary "included_index and included_term must be >= 1")) else
  and_then st (match decode_snapshot state_bytes with
               | None => None
               | Some (Err _) => corrupted "refusing to persist invalid snapshot payload"
               | Some (Ok sm) => mret sm
               end) (fun decoded_sm =>
  if bool_decide (last_applied_index decoded_sm <> included_index)
     || bool_decide (last_applied_term decoded_sm <> included_term)
  then (st, store_fail (InvalidSnapshotBoundary "snapshot header mismatch")) else
  and_then st (Ok <$> state_root_digest decoded_sm : store Z) (fun root =>
  let meta := {| RaftTypes.included_index := included_index;
                 RaftTypes.included_term := included_term; state_root := root |} in
  let snapshot_sha256 :=
    compute_snapshot_transfer_sha256 included_index included_term root state_bytes in
  let file_name := snapshot_file_name included_index included_term in
  let st := {| conn := conn st; snapshot_files := <[file_name := state_bytes]> (snapshot_files st) |} in
  and_then st ('(_, _, commit_index) ← read_and_verify_hard_state (conn st);
    if decide (included_index > commit_index)
    then store_fail (InvalidSnapshotBoundary "cannot snapshot uncommitted index") else
    prev ← read_snapshot_row (conn st);
    if match prev with
       | Some prev => bool_decide (included_index < RaftTypes.included_index (sr_meta prev))
       | None => false
       end
    then store_fail (InvalidSnapshotBoundary "snapshot regression") else
    upsert_snapshot_row_tx (conn st) meta file_name (Z.of_nat (length state_bytes)) snapshot_sha256)
    (fun d =>
  ({| conn := d; snapshot_files := retire_obsolete_snapshot_files (snapshot_files st) file_name |},
   mret meta)))).

Definition compact_log_up_to (st : SqliteConsensusStore) (up_to_index : Z) :
    SqliteConsensusStore * store nat :=
  if decide (up_to_index = 0) then (st, mret 0%nat) else
  and_then st (snap ← read_snapshot_row (conn st);
    match snap with
    | None => store_fail (InvalidSnapshotBoundary "cannot compact log without a durable snapshot")
    | Some snap =>
        if decide (up_to_index > included_index (sr_meta snap))
        then store_fail (InvalidSnapshotBoundary "cannot compact log above snapshot.included_index")
        else
          up_to_i64 ← u64_to_i64 up_to_index;
          sql_delete_log (conn st) (fun i => bool_decide (i <= up_to_i64))
    end) (fun d =>
  ({| conn := d; snapshot_files := snapshot_files st |},
   mret (size (consensus_log (conn st)) - size (consensus_log d))%nat)).

Definition install_snapshot (st : SqliteConsensusStore) (meta : SnapshotMetadata)
    (state_bytes : bytes) : SqliteConsensusStore * store ControlPlaneStateMachine :=
  and_then st (decode_matching_snapshot meta state_bytes) (fun decoded_sm =>
  let snapshot_sha256 := compute_snapshot_transfer_sha256 (included_index meta)
    (included_term meta) (state_root meta) state_bytes in
  let file_name := snapshot_file_name (included_index meta) (included_term meta) in
  let st := {| conn := conn st; snapshot_files := <[file_name := state_bytes]> (snapshot_files st) |} in
  and_then st (install_snapshot_in_tx (conn st) meta file_name (Z.of_nat (length state_bytes))
                 snapshot_sha256) (fun d =>
  ({| conn := d; snapshot_files := retire_obsolete_snapshot_files (snapshot_files st) file_name |},
   mret decoded_sm))).

(** ** Single operations *)

(** A transaction: its effect on the database is kept only when it succeeds. *)
Definition transaction {A} (st : SqliteConsensusStore) (body : store (Database * A)) :
    SqliteConsensusStore * store A :=
  and_then st body (fun '(d, a) => ({| conn := d; snapshot_files := snapshot_files st |}, mret a)).

Definition persist_hard_state (st : SqliteConsensusStore) (current_term : Z) (voted_for : option Z) :
    SqliteConsensusStore * store unit :=
  transaction st (
    '(_, _, commit_index) ← read_and_verify_hard_state (conn st);
    d ← write_hard_state_tx (conn st) current_term voted_for commit_index;
    mret (d, tt)).

Definition append_entries (st : SqliteConsensusStore) (entries : list RaftLogEntry) :
    SqliteConsensusStore * store unit :=
  match entries with
  | [] => (st, mret tt)
  | _ => transaction st (d ← append_entries_tx (conn st) entries; mret (d, tt))
  end.

Definition truncate_log_suffix_from (st : SqliteConsensusStore) (from_index : Z) :
    SqliteConsensusStore * store nat :=
  transaction st (
    '(_, _, commit_index) ← read_and_verify_hard_state (conn st);
    if decide (from_index <= commit_index) then corrupted "refusing to truncate committed index" else
    from_i64 ← u64_to_i64 from_index;
    d ← sql_delete_log (conn st) (fun i => bool_decide (i >= from_i64));
    mret (d, size (consensus_log (conn st)) - size (consensus_log d))%nat).

Definition advance_commit_index (st : SqliteConsensusStore) (commit_index : Z) :
    SqliteConsensusStore * store unit :=
  transaction st (
    '(current_term, voted_for, prev_commit) ← read_and_verify_hard_state (conn st);
    if decide (commit_index < prev_commit) then corrupted "commit_index regression" else
    _ ← verify_commit_bound_covered_tx (conn st) commit_index;
    d ← write_hard_state_tx (conn st) current_term voted_for commit_index;
    mret (d, tt)).

Definition read_log_entry (st : SqliteConsensusStore) (log_index : Z) : store (option RaftLogEntry) :=
  idx_i64 ← u64_to_i64 log_index;
  match consensus_log (conn st) !! idx_i64 with
  | Some row => entry ← verify_and_hydrate_log_row idx_i64 row; mret (Some entry)
  | None => mret None
  end.

(** The loop of [read_log_range] over the selected rows. *)
Fixpoint read_contiguous (expected : Z) (rows : list (Z * LogRow)) : store (list RaftLogEntry) :=
  match rows with
  | [] => mret []
  | (i, row) :: rest =>
      entry ← verify_and_hydrate_log_row i row;
      if decide (e_index entry <> expected) then corrupted "non-contiguous log range" else
      entries ← read_contiguous (saturating_add64 expected 1) rest;
      mret (entry :: entries)
  end.

Definition read_log_range (st : SqliteConsensusStore) (start_inclusive end_inclusive : Z) :
    store (list RaftLogEntry) :=
  if bool_decide (start_inclusive = 0) || bool_decide (end_inclusive < start_inclusive)
  then mret [] else
  start_i64 ← u64_to_i64 start_inclusive;
  end_i64 ← u64_to_i64 end_inclusive;
  read_contiguous start_inclusive
    (filter (fun ir => start_i64 <= ir.1 <= end_i64) (btree_iter (consensus_log (conn st)))).
End store.

(** ** The header of the write-ahead log *)

Definition wrapping_add32 (x y : Z) : Z := (x + y) mod 2 ^ 32.
Definition le_value (b : bytes) : Z := be_value (rev b).

(** [word] is the byte order of the checksum. *)
Fixpoint sqlite_wal_checksum (word : bytes -> Z) (chunks : nat) (data : bytes) (s0 s1 : Z) : Z * Z :=
  match chunks with
  | O => (s0, s1)
  | S chunks =>
      let w0 := word (slice 0 4 data) in
      let w1 := word (slice 4 8 data) in
      let s0 := wrapping_add32 (wrapping_add32 s0 w0) s1 in
      let s1 := wrapping_add32 (wrapping_add32 s1 w1) s0 in
      sqlite_wal_checksum word chunks (drop 8 data) s0 s1
  end.

(** [None] when there is no readable WAL file. *)
Definition verify_wal_header_if_present (wal : option bytes) : store unit :=
  match wal with
  | None | Some [] => mret tt
  | Some b =>
      if decide (length b < 32)%nat then corrupted "truncated SQLite WAL header" else
      let magic := be_value (slice 0 4 b) in
      if bool_decide (magic <> 0x377f0682) && bool_decide (magic <> 0x377f0683)
      then corrupted "corrupted SQLite WAL magic" else
      let word := if decide (magic = 0x377f0682) then le_value else be_value in
      let '(s0, s1) := sqlite_wal_checksum word 3 (slice 0 24 b) 0 0 in
      if bool_decide (s0 <> be_value (slice 24 28 b)) || bool_decide (s1 <> be_value (slice 28 32 b))
      then corrupted "SQLite WAL 32-byte header checksum mismatch" else mret tt
  end.

(** Opening a store whose pragmas and [quick_check] SQLite accepts. *)
Definition open_or_recover `{Sha256} (wal : option bytes) (st : SqliteConsensusStore) :
    SqliteConsensusStore * store RecoveredConsensusState :=
  and_then st (verify_wal_header_if_present wal) (fun _ =>
  load_and_verify_all {| conn := initialize_strict_schema (conn st);
                         snapshot_files := snapshot_files st |}).
