(* ===== verification/StoreRefines.v ===== *)
(** * StoreRefines: the SQLite store implements durable storage

    Relates the tables and files of [Store] to the abstract durable storage of
    [RaftLog], and shows that the transaction of [apply_durable_effects] brings
    the tables exactly to the state [run_effects] specifies, that the effects
    the specification accepts are never refused by a constraint or a trigger,
    and that the live state machine stays the replay of what is stored. *)

From S2P Require Import Prelude Bytes Commands StateMachine Ledger Snapshot Roster RaftTypes.
From S2P Require Import Replay RaftCore RaftLog Durability Store.

(** ** Rows *)

Section rows.
Context `{Sha256}.
Implicit Types (l : list RaftLogEntry) (e : RaftLogEntry).

Definition stored_row e : Z * LogRow := (e_index e, row_of_entry e).
(** The table that holds the entries [l]. *)
Definition rows_of l : gmap Z LogRow := list_to_map (stored_row <$> l).

(** An entry the table can hold and give back. *)
Record entry_storable e : Prop := {
  es_verified : verify_integrity e = true;
  es_index : 1 <= e_index e <= i64_max;
  es_term : 1 <= e_term e <= i64_max;
  es_key : id16 (idempotency_key (e_proposal e));
  es_command : command_ok (command (e_proposal e)) /\ command_portable (command (e_proposal e));
}.

Lemma stored_keys l : (stored_row <$> l).*1 = e_index <$> l.
Proof. by rewrite <- list_fmap_compose. Qed.

Lemma contiguous_sorted base l :
  contiguous base l -> StronglySorted entry_le (stored_row <$> l).
Proof.
  revert base. induction l as [|e l IH]; intros base; [constructor|].
  intros [He Hl]%contiguous_cons. cbn. constructor; [by eapply IH|].
  apply Forall_fmap, Forall_forall. intros e' [i Hi]%list_elem_of_lookup.
  pose proof (Hl _ _ Hi). unfold entry_le, key_le, Z_btree_key. cbn. lia.
Qed.

Lemma contiguous_NoDup base l : contiguous base l -> NoDup (e_index <$> l).
Proof.
  intros Hl. apply NoDup_alt. intros i j x. rewrite !list_lookup_fmap.
  destruct (l !! i) as [e1|] eqn:H1, (l !! j) as [e2|] eqn:H2; try done. cbn.
  intros [= <-] [= E]. pose proof (Hl _ _ H1). pose proof (Hl _ _ H2). lia.
Qed.

(** Reading the table in index order gives the rows in log order. *)
Lemma btree_iter_rows base l : contiguous base l -> btree_iter (rows_of l) = stored_row <$> l.
Proof.
  intros Hl. pose proof (contiguous_NoDup _ _ Hl) as Hnd.
  assert (btree_iter (rows_of l) ≡ₚ stored_row <$> l) as Hp.
  { rewrite btree_iter_perm. apply map_to_list_to_map. by rewrite stored_keys. }
  apply (StronglySorted_unique_strong entry_le); [|apply btree_iter_sorted|by eapply contiguous_sorted|done].
  intros [k1 r1] [k2 r2] H1 H2 Hle1 Hle2. unfold entry_le, key_le, Z_btree_key in *. cbn in *.
  assert (k1 = k2) as -> by lia. f_equal.
  apply elem_of_btree_iter in H1. apply elem_of_list_to_map_1 in H2; [|by rewrite stored_keys].
  unfold rows_of in H1. congruence.
Qed.

Lemma rows_of_nil : rows_of [] = ∅.
Proof. done. Qed.

Lemma rows_of_lookup base l i :
  contiguous base l ->
  rows_of l !! i = if decide (base <= i) then row_of_entry <$> l !! Z.to_nat (i - base) else None.
Proof.
  intros Hl. pose proof (contiguous_NoDup _ _ Hl) as Hnd.
  assert (forall r, rows_of l !! i = Some r <-> exists e, e ∈ l /\ e_index e = i /\ row_of_entry e = r) as Hiff.
  { intros r. unfold rows_of. rewrite <- elem_of_list_to_map by (by rewrite stored_keys).
    rewrite list_elem_of_fmap. split; [intros (e & [= -> ->] & He); eauto|].
    intros (e & He & <- & <-). by exists e. }
  apply option_eq. intros r. rewrite Hiff. split.
  - intros (e & [j Hj]%list_elem_of_lookup & Hi & <-). pose proof (Hl _ _ Hj).
    rewrite decide_True by lia. replace (Z.to_nat _) with j by lia. by rewrite Hj.
  - case_decide; [|done]. intros (e & He & ->)%fmap_Some. exists e.
    split; [by eapply list_elem_of_lookup_2|]. split; [|done]. rewrite (Hl _ _ He). lia.
Qed.

Lemma rows_of_lookup_None base l i :
  contiguous base l -> base + Z.of_nat (length l) <= i -> rows_of l !! i = None.
Proof.
  intros Hl Hi. rewrite (rows_of_lookup _ _ _ Hl). case_decide; [|done].
  by rewrite lookup_ge_None_2 by lia.
Qed.

Lemma rows_of_snoc base l e :
  contiguous base (l ++ [e]) -> rows_of (l ++ [e]) = <[e_index e := row_of_entry e]> (rows_of l).
Proof.
  intros Hl. unfold rows_of. rewrite fmap_app. apply list_to_map_snoc.
  apply contiguous_NoDup in Hl. rewrite fmap_app, NoDup_app in Hl. rewrite stored_keys.
  intros Hin. destruct Hl as (_ & Hl & _). apply (Hl _ Hin). by apply list_elem_of_singleton.
Qed.

Lemma rows_of_filter base l (P : Z -> bool) :
  contiguous base l ->
  filter (fun ir : Z * LogRow => P ir.1 = false) (rows_of l)
  = rows_of (filter (fun e => P (e_index e) = false) l).
Proof.
  revert base. induction l as [|e l IH]; intros base; [by rewrite rows_of_nil, map_filter_empty|].
  intros [He Hl]%contiguous_cons. specialize (IH _ Hl).
  assert (rows_of l !! e_index e = None) as Hn.
  { rewrite (rows_of_lookup _ _ _ Hl). by rewrite decide_False by lia. }
  change (rows_of (e :: l)) with (<[e_index e := row_of_entry e]> (rows_of l)).
  rewrite filter_cons. case_decide as HP.
  - rewrite map_filter_insert_True by done. by rewrite IH.
  - rewrite map_filter_insert_not' by naive_solver. done.
Qed.

Lemma Forall_kept (P : RaftLogEntry -> Prop) (Q : RaftLogEntry -> Prop)
    `{!forall e, Decision (Q e)} l : Forall P l -> Forall P (filter Q l).
Proof. rewrite !Forall_forall. intros Hl e [_ He]%list_elem_of_filter. by apply Hl. Qed.

(** Every row gives back the entry it was written from. *)
Lemma hydrate_stored e :
  entry_storable e -> verify_and_hydrate_log_row (e_index e) (row_of_entry e) = mret e.
Proof.
  intros [Hv Hi Ht Hk [Hok Hp]]. unfold verify_and_hydrate_log_row, row_of_entry. cbn.
  rewrite !decide_False by lia. rewrite !bool_decide_eq_false_2 by lia. cbn.
  set (f := family_code _).
  rewrite bool_decide_eq_true_2 by (destruct f; cbn; lia). cbn.
  assert (from_wire_tag (family_as_u8 f) = Ok f) as -> by (by destruct f).
  unfold verify_integrity in Hv. apply bool_decide_eq_true in Hv.
  rewrite decide_False by (intros Hne; apply Hne; exact Hv).
  subst f. rewrite decode_command_body_encode by done. by destruct e.
Qed.

Lemma hydrate_stored_rows l :
  Forall entry_storable l -> hydrate_rows (stored_row <$> l) = mret l.
Proof.
  induction 1 as [|e l He _ IH]; [done|]. cbn [fmap list_fmap stored_row hydrate_rows].
  rewrite hydrate_stored by done. cbn. by rewrite IH.
Qed.

Lemma append_entries_stored base es : forall d l,
  consensus_log d = rows_of l -> contiguous base (l ++ es) -> Forall entry_storable es ->
  append_entries_tx d es = mret (d <| consensus_log := rows_of (l ++ es) |>).
Proof.
  induction es as [|e es IH]; intros d l Hd Hc Hes.
  { rewrite app_nil_r, <- Hd. by destruct d. }
  apply Forall_cons in Hes as [He Hes]. pose proof He as [Hv Hi Ht _ _].
  change (e :: es) with ([e] ++ es) in *. rewrite app_assoc in *.
  pose proof (proj1 (proj1 (contiguous_app _ _ _) Hc)) as Hc1.
  assert (rows_of l !! e_index e = None) as Hn.
  { apply contiguous_app in Hc1 as [Hl He1]. apply (rows_of_lookup_None base); [done|].
    rewrite (He1 0%nat e) by done. lia. }
  cbn [app append_entries_tx]. rewrite Hv. cbn.
  unfold u64_to_i64. rewrite !decide_True by lia. cbn. unfold sql_insert_log.
  rewrite Hd, Hn, decide_False by (by intros [? ?]). cbn.
  rewrite !bool_decide_eq_true_2 by (try lia; destruct (family_code _); cbn; lia). cbn.
  rewrite (IH _ (l ++ [e])); [done| |done|done]. cbn. by rewrite (rows_of_snoc base).
Qed.

Lemma sql_max_above d i row :
  consensus_log d !! i = Some row -> exists v, sql_max_log_index d = Some v /\ i <= v.
Proof.
  intros Hi. unfold sql_max_log_index. apply elem_of_map_to_list in Hi.
  assert (i ∈ (map_to_list (consensus_log d)).*1) as Hin by (apply list_elem_of_fmap; by exists (i, row)).
  revert Hin. generalize (map_to_list (consensus_log d)).*1. intros ks.
  induction ks as [|k ks IH]; intros Hin; [by apply elem_of_nil in Hin|]. cbn.
  eexists. split; [done|]. apply elem_of_cons in Hin as [->|Hin].
  - destruct (foldr _ _ _); cbn; lia.
  - destruct (IH Hin) as (v & -> & Hv). cbn. lia.
Qed.

(** A deletion no trigger forbids. *)
Lemma sql_delete_stored base d l (P : Z -> bool) :
  consensus_log d = rows_of l -> contiguous base l ->
  (forall e, e ∈ l -> P (e_index e) = true -> delete_forbidden d (e_index e) = false) ->
  sql_delete_log d P
  = mret (d <| consensus_log := rows_of (filter (fun e => P (e_index e) = false) l) |>).
Proof.
  intros Hd Hl Hok. unfold sql_delete_log. rewrite Hd, (rows_of_filter base) by done.
  rewrite bool_decide_eq_true_2; [done|]. intros i r Hi.
  assert (exists e, e ∈ l /\ e_index e = i) as (e & He & <-).
  { rewrite (rows_of_lookup _ _ _ Hl) in Hi. case_decide; [|done].
    apply fmap_Some in Hi as (e & He & _). exists e. split; [by eapply list_elem_of_lookup_2|].
    rewrite (Hl _ _ He). lia. }
  destruct (P (e_index e)) eqn:HP; [|done]. cbn. by apply Hok.
Qed.
End rows.

(** ** What the tables hold *)

(** The term, the vote and the commit index. *)
Definition hard_of (d : RehydratedCoreState) : Z * option Z * Z :=
  (rh_current_term d, rh_voted_for d, rh_commit_index d).

Definition hard_ok (h : Z * option Z * Z) : Prop :=
  let '(term, vote, commit) := h in
  0 <= term <= i64_max /\ vote <> Some 0 /\ 0 <= commit <= i64_max.

(** What [trg_consensus_meta_monotonic] lets through. *)
Definition hard_later (h h' : Z * option Z * Z) : Prop :=
  let '(term, vote, commit) := h in
  let '(term', vote', commit') := h' in
  term <= term' /\ commit <= commit' /\ (term' = term -> forall v, vote = Some v -> vote' = Some v).

Lemma hard_later_refl h : hard_later h h.
Proof. destruct h as [[t v] c]. by repeat split. Qed.

Lemma d_later_hard d d' : d_later d d' -> hard_later (hard_of d) (hard_of d').
Proof. intros [T V _ C _]. repeat split; [done..|]. intros E v. by apply V. Qed.

Lemma hard_later_trans h1 h2 h3 : hard_later h1 h2 -> hard_later h2 h3 -> hard_later h1 h3.
Proof.
  destruct h1 as [[t1 v1] c1], h2 as [[t2 v2] c2], h3 as [[t3 v3] c3]. cbn.
  intros (T1 & C1 & V1) (T2 & C2 & V2). split_and!; [lia..|]. intros E v Hv.
  apply V2; [lia|]. apply V1; [lia|done].
Qed.

Section tables.
Context `{Sha256}.
Implicit Types (d : RehydratedCoreState) (m : SnapshotMetadata) (h : Z * option Z * Z).

Definition hard_row h : MetaRow :=
  let '(term, vote, commit) := h in
  {| mt_current_term := term; mt_voted_for := vote; mt_commit_index := commit;
     mt_hard_state_sha256 := compute_hard_state_sha256 term vote commit |}.

(** A snapshot the store can hold: it decodes to the state its metadata names. *)
Record snapshot_storable m (b : bytes) : Prop := {
  ss_index : 1 <= included_index m <= i64_max;
  ss_term : 1 <= included_term m <= i64_max;
  ss_length : Z.of_nat (length b) <= i64_max;
  ss_state : exists sm, decode_matching_snapshot m b = mret sm /\ log_state sm;
}.

Record tables (db : Database) (d : RehydratedCoreState) (old : list RaftLogEntry) : Prop := {
  tb_inv : d_inv d;
  tb_log : consensus_log db = rows_of (old ++ rh_log_tail d);
  tb_contiguous :
    contiguous (d_snapshot_index d + 1 - Z.of_nat (length old)) (old ++ rh_log_tail d);
  tb_entries : Forall entry_storable (old ++ rh_log_tail d);
  tb_snapshot : sr_meta <$> consensus_snapshot db = fst <$> rh_snapshot d;
  tb_length : 0 <= from_option sr_byte_len 0 (consensus_snapshot db);
  tb_storable : match rh_snapshot d with Some (m, b) => snapshot_storable m b | None => True end;
  tb_hard : hard_ok (hard_of d);
}.

Lemma decode_matching_length m b sm : decode_matching_snapshot m b = mret sm -> (76 <= length b)%nat.
Proof. unfold decode_matching_snapshot, decode_snapshot. case_decide; [intros [=]|lia]. Qed.

Lemma decode_matching_index m b sm :
  decode_matching_snapshot m b = mret sm ->
  decode_snapshot b = Some (Ok sm) /\ last_applied_index sm = included_index m
  /\ last_applied_term sm = included_term m /\ state_root_digest sm = Some (state_root m).
Proof.
  unfold decode_matching_snapshot. destruct (decode_snapshot b) as [[s|]|]; [|done..].
  destruct (state_root_digest s) as [root|] eqn:Hr; [|intros [=]]. cbn.
  destruct (_ || _) eqn:Hg; [intros [=]|]. intros [= <-].
  apply orb_false_iff in Hg as [[H1 H2]%orb_false_iff H3].
  apply bool_decide_eq_false, dec_stable in H1, H2, H3. by subst.
Qed.

Section holds.
Context (db : Database) (d : RehydratedCoreState) (old : list RaftLogEntry).
Context (Ht : tables db d old).

Lemma tables_snapshot_index : snapshot_row_index db = d_snapshot_index d.
Proof.
  pose proof (tb_snapshot _ _ _ Ht) as Hs. unfold snapshot_row_index, d_snapshot_index.
  destruct (consensus_snapshot db), (rh_snapshot d) as [[]|]; cbn in *; congruence.
Qed.

Lemma tables_snapshot_range : 0 <= d_snapshot_index d <= i64_max.
Proof.
  pose proof (tb_storable _ _ _ Ht) as Hs. unfold d_snapshot_index.
  destruct (rh_snapshot d) as [[m b]|]; cbn; [|unfold i64_max; lia]. destruct Hs. lia.
Qed.

Lemma tables_last : d_last d <= i64_max.
Proof.
  unfold d_last. destruct (last (rh_log_tail d)) as [e|] eqn:He.
  - pose proof (contiguous_last _ _ _ (di_contiguous _ (tb_inv _ _ _ Ht)) He) as Hi.
    pose proof (tb_entries _ _ _ Ht) as Hf. apply Forall_app in Hf as [_ Hf].
    rewrite Forall_forall in Hf. destruct (Hf e) as [_ Hx _ _ _]; [by apply last_Some_elem_of|]. lia.
  - apply last_None in He. rewrite He. cbn. pose proof tables_snapshot_range. lia.
Qed.

(** Above the snapshot the table and the log agree. *)
Lemma tables_lookup i :
  d_snapshot_index d < i -> consensus_log db !! i = row_of_entry <$> d_get d i.
Proof.
  intros Hi. rewrite (tb_log _ _ _ Ht), (rows_of_lookup _ _ _ (tb_contiguous _ _ _ Ht)).
  rewrite decide_True by lia. rewrite lookup_app_r by lia. unfold d_get.
  rewrite decide_True by lia. do 2 f_equal. lia.
Qed.

Lemma tables_old_below e : e ∈ old -> e_index e <= d_snapshot_index d.
Proof.
  intros [i Hi]%list_elem_of_lookup. pose proof (lookup_lt_Some _ _ _ Hi).
  rewrite (tb_contiguous _ _ _ Ht i e); [lia|]. by apply lookup_app_l_Some.
Qed.
End holds.
End tables.

(** ** The transaction *)

Lemma u64_to_i64_fits x : x <= i64_max -> u64_to_i64 x = mret x.
Proof. intros Hx. unfold u64_to_i64. by rewrite decide_True. Qed.

Section transaction.
Context `{Sha256}.
Implicit Types (d : RehydratedCoreState) (m : SnapshotMetadata) (h : Z * option Z * Z)
  (db : Database) (old : list RaftLogEntry).

Lemma read_hard_stored db h :
  consensus_meta db = Some (hard_row h) -> hard_ok h -> read_and_verify_hard_state db = mret h.
Proof.
  destruct h as [[t v] c]. intros Hm (Ht & Hv & Hc). unfold read_and_verify_hard_state.
  rewrite Hm. cbn. rewrite !decide_False by (done || lia || (intros E; by apply E)). done.
Qed.

Lemma write_hard_stored db h t v c :
  consensus_meta db = Some (hard_row h) -> hard_ok (t, v, c) -> hard_later h (t, v, c) ->
  write_hard_state_tx db t v c = mret (db <| consensus_meta := Some (hard_row (t, v, c)) |>).
Proof.
  destruct h as [[t0 v0] c0]. intros Hm (Ht & _ & Hc) (Lt & Lc & Lv).
  unfold write_hard_state_tx, u64_to_i64. rewrite !decide_True by lia. cbn.
  unfold sql_update_meta. rewrite Hm. cbn. rewrite !decide_False by lia.
  destruct (_ && _) eqn:Hg; [|done]. exfalso.
  apply andb_true_iff in Hg as [[H1%bool_decide_eq_true H2%bool_decide_eq_true]%andb_true_iff H3].
  apply bool_decide_eq_true in H3. destruct H2 as [w Hw]. apply H3. rewrite Hw. by apply Lv.
Qed.

(** The tables do not depend on the hard-state row. *)
Lemma tables_meta db d old row :
  tables db d old -> tables (db <| consensus_meta := row |>) d old.
Proof. intros []. by split. Qed.

Lemma read_snapshot_stored db d old :
  tables db d old -> read_snapshot_row db = mret (consensus_snapshot db).
Proof.
  intros [_ _ _ _ Hs Hlen Hr _]. unfold read_snapshot_row. destruct (consensus_snapshot db) as [row|]; [|done].
  destruct (rh_snapshot d) as [[m b]|]; [|done]. injection Hs as Hs. cbn in Hlen, Hs. subst m.
  destruct Hr. by rewrite !decide_False by lia.
Qed.

(** The variables of the loop hold the hard state of [d]; the row lags behind
    while it is dirty. *)
Record tx_rel (tx : TxState) (d : RehydratedCoreState) : Prop := {
  tr_tables : exists old, tables (tx_db tx) d old;
  tr_current : (cur_term tx, cur_voted_for tx, cur_commit tx) = hard_of d;
  tr_row : exists h, consensus_meta (tx_db tx) = Some (hard_row h) /\ hard_ok h
    /\ hard_later h (hard_of d) /\ (hard_state_dirty tx = false -> h = hard_of d);
}.

(** Writing the hard state when it is dirty leaves the row of [d]. *)
Lemma tx_flush tx d :
  tx_rel tx d ->
  exists db, (if hard_state_dirty tx
              then write_hard_state_tx (tx_db tx) (cur_term tx) (cur_voted_for tx) (cur_commit tx)
              else mret (tx_db tx)) = mret db
    /\ consensus_meta db = Some (hard_row (hard_of d)) /\ (exists old, tables db d old)
    /\ consensus_log db = consensus_log (tx_db tx)
    /\ consensus_snapshot db = consensus_snapshot (tx_db tx).
Proof.
  intros [(old & Ht) Hcur (h & Hm & Hh & Hl & Hd)]. injection Hcur as -> -> ->.
  destruct (hard_state_dirty tx).
  - eexists. split; [apply (write_hard_stored _ h); [done|apply (tb_hard _ _ _ Ht)|done]|].
    split_and!; try done. exists old. by apply tables_meta.
  - exists (tx_db tx). rewrite <- Hd by done. split_and!; eauto.
Qed.

Definition staged_row (m : SnapshotMetadata) (s : StagedSnapshot) : StoredSnapshotRow :=
  {| sr_meta := m; sr_file_name := sg_file_name s; sr_byte_len := sg_byte_len s;
     sr_snapshot_sha256 := sg_sha256 s |}.

(** What the store relies on, effect by effect: the integers fit an SQLite
    integer, entries and snapshots are intact, and the term of a snapshot is not
    above the current one. *)
Definition effect_storable d (eff : ConsensusEffect) : Prop :=
  match eff with
  | PersistHardState t v => 0 <= t <= i64_max /\ v <> Some 0
  | AppendLogEntries es => Forall entry_storable es
  | TruncateLogSuffixFrom i => i <= i64_max
  | InstallSnapshot m b => snapshot_storable m b /\ included_term m <= rh_current_term d
  | _ => True
  end.

(** The staged file of some snapshot of the batch. *)
Definition staged_fits (staged : option StagedSnapshot) : Prop :=
  exists s, staged = Some s /\ 76 <= sg_byte_len s <= i64_max.

(** One effect through the tables. *)
Definition tx_effect_ok staged tx d' (eff : ConsensusEffect) : Prop :=
  exists tx', apply_tx_effect staged tx eff = mret tx' /\ tx_rel tx' d'
    /\ consensus_snapshot (tx_db tx')
       = match eff with
         | InstallSnapshot m _ => staged_row m <$> staged
         | _ => consensus_snapshot (tx_db tx)
         end.

Lemma tx_persist staged tx d d' t v :
  tx_rel tx d -> effect_storable d (PersistHardState t v) ->
  apply_effect d (PersistHardState t v) = Some d' -> tx_effect_ok staged tx d' (PersistHardState t v).
Proof.
  intros [(old & Ht) Hcur (h & Hm & Hh & Hl & _)] [Hti Hv] He.
  destruct (apply_effect_safe _ _ (tb_inv _ _ _ Ht) _ He) as [Hd' Hlater].
  eexists. split; [reflexivity|]. split; [|done].
  injection Hcur as _ _ Hc. cbn [apply_effect] in He. destruct (_ || _); [done|]. injection He as <-.
  split; cbn.
  - exists old. destruct Ht as [? ? ? ? ? ? ? (? & ? & ?)]. split; try done.
  - by rewrite Hc.
  - exists h. split_and!; [done..| |done]. eapply hard_later_trans; [done|].
    apply (d_later_hard _ _ Hlater).
Qed.

Lemma tx_truncate staged tx d d' i :
  tx_rel tx d -> effect_storable d (TruncateLogSuffixFrom i) ->
  apply_effect d (TruncateLogSuffixFrom i) = Some d' ->
  tx_effect_ok staged tx d' (TruncateLogSuffixFrom i).
Proof.
  intros [(old & Ht) Hcur (h & Hm & Hh & Hl & Hdirty)] Hi He. cbn in Hi.
  destruct (apply_effect_safe _ _ (tb_inv _ _ _ Ht) _ He) as [Hd' Hlater].
  cbn [apply_effect] in He. case_bool_decide as Hgt; [done|]. injection He as <-.
  pose proof (tb_inv _ _ _ Ht) as [_ Hcm]. pose proof (tables_old_below _ _ _ Ht) as Hold.
  assert (filter (fun e => bool_decide (e_index e >= i) = false) (old ++ rh_log_tail d)
    = old ++ filter (fun e => e_index e < i) (rh_log_tail d)) as Hf.
  { rewrite (list_filter_iff _ (fun e => e_index e < i)).
    2: { intros e. rewrite bool_decide_eq_false. lia. }
    rewrite filter_app, (list_filter_all _ old); [done|]. intros e He. apply Hold in He. lia. }
  unfold tx_effect_ok. cbn [apply_tx_effect]. injection Hcur as E1 E2 E3. rewrite E3.
  rewrite decide_False by lia. unfold u64_to_i64. rewrite decide_True by done. cbn.
  rewrite (sql_delete_stored _ _ _ _ (tb_log _ _ _ Ht) (tb_contiguous _ _ _ Ht)).
  2: { intros e _ Hge%bool_decide_eq_true. unfold delete_forbidden. rewrite Hm.
       destruct h as [[t0 v0] c0], Hl as (_ & Hc0 & _). cbn. by rewrite bool_decide_eq_false_2 by lia. }
  rewrite Hf. eexists. split; [reflexivity|]. split; [|done]. split; cbn.
  - exists old. destruct Ht. split; try done; cbn.
    + rewrite <- Hf. rewrite (list_filter_iff _ (fun e => e_index e < i)).
      2: { intros e. rewrite bool_decide_eq_false. lia. }
      rewrite (contiguous_filter_lt _ _ _ tb_contiguous0). by apply contiguous_take.
    + rewrite <- Hf. by apply Forall_kept.
  - by rewrite E1, E2.
  - exists h. done.
Qed.

Lemma tx_append staged tx d d' es :
  tx_rel tx d -> effect_storable d (AppendLogEntries es) ->
  apply_effect d (AppendLogEntries es) = Some d' -> tx_effect_ok staged tx d' (AppendLogEntries es).
Proof.
  intros [(old & Ht) Hcur (h & Hm & Hh & Hl & Hdirty)] Hes He. cbn in Hes.
  destruct (apply_effect_safe _ _ (tb_inv _ _ _ Ht) _ He) as [Hd' Hlater].
  cbn [apply_effect] in He. case_bool_decide as Hidx; [|done]. injection He as <-.
  apply contiguous_of_indices in Hidx.
  assert (contiguous (d_snapshot_index d + 1 - Z.of_nat (length old))
    ((old ++ rh_log_tail d) ++ es)) as Hc.
  { apply contiguous_app. split; [apply (tb_contiguous _ _ _ Ht)|]. rewrite length_app.
    unfold d_last in Hidx. by replace (_ + _) with (d_snapshot_index d + Z.of_nat (length (rh_log_tail d)) + 1) by lia. }
  unfold tx_effect_ok. cbn [apply_tx_effect].
  rewrite (append_entries_stored _ _ _ _ (tb_log _ _ _ Ht) Hc Hes). cbn.
  eexists. split; [reflexivity|]. split; [|done]. rewrite <- app_assoc in Hc. split; cbn; [|done|by exists h].
  exists old. destruct Ht. split; try done; cbn.
  - by rewrite app_assoc.
  - rewrite app_assoc. by apply Forall_app.
Qed.

Lemma tx_advance staged tx d d' i t newly :
  tx_rel tx d -> apply_effect d (AdvanceCommitIndex i t newly) = Some d' ->
  tx_effect_ok staged tx d' (AdvanceCommitIndex i t newly).
Proof.
  intros [(old & Ht) Hcur (h & Hm & Hh & Hl & Hdirty)] He.
  destruct (apply_effect_safe _ _ (tb_inv _ _ _ Ht) _ He) as [Hd' Hlater].
  cbn [apply_effect] in He. destruct (_ && _) eqn:Hg; [|done]. injection He as <-.
  apply andb_true_iff in Hg as [Hi%bool_decide_eq_true _].
  pose proof (tables_last _ _ _ Ht) as Hlast. pose proof (tables_snapshot_range _ _ _ Ht) as Hsnap.
  pose proof (di_commit _ (tb_inv _ _ _ Ht)) as Hcm.
  unfold tx_effect_ok. cbn [apply_tx_effect]. injection Hcur as E1 E2 E3. rewrite E3.
  rewrite decide_False by lia.
  assert (verify_commit_bound_covered_tx (tx_db tx) i = mret tt) as ->.
  { unfold verify_commit_bound_covered_tx. case_decide; [done|].
    assert (read_snapshot_row (tx_db tx) = mret (consensus_snapshot (tx_db tx))) as ->
      by (by eapply read_snapshot_stored).
    cbn. fold (snapshot_row_index (tx_db tx)). rewrite (tables_snapshot_index _ _ _ Ht).
    case_decide; [done|]. pose proof (tables_lookup _ _ _ Ht i) as Hlk.
    unfold d_get in Hlk. rewrite decide_True in Hlk by lia.
    destruct (lookup_lt_is_Some_2 (rh_log_tail d) (Z.to_nat (i - (d_snapshot_index d + 1)))) as [e He].
    { unfold d_last in Hi. lia. }
    rewrite He in Hlk. destruct (sql_max_above _ _ _ (Hlk ltac:(lia))) as (v & -> & Hv).
    by rewrite decide_False by lia. }
  eexists. split; [reflexivity|]. split; [|done]. split; cbn.
  - exists old. destruct Ht as [? ? ? ? ? ? ? (? & ? & ?)]. split; try done. cbn. split_and!; done || lia.
  - by rewrite E1, E2.
  - exists h. split_and!; [done..| |done]. eapply hard_later_trans; [done|].
    apply (d_later_hard _ _ Hlater).
Qed.

(** With the new snapshot row in place every row may go. *)
Lemma delete_allowed db d old row P :
  tables db d old -> consensus_meta db = Some (hard_row (hard_of d)) ->
  rh_commit_index d < included_index (sr_meta row) ->
  sql_delete_log (db <| consensus_snapshot := Some row |>) P
  = mret (db <| consensus_snapshot := Some row |>
      <| consensus_log := rows_of (filter (fun e => P (e_index e) = false) (old ++ rh_log_tail d)) |>).
Proof.
  intros Ht Hm Hlt. eapply sql_delete_stored; [exact (tb_log _ _ _ Ht)|exact (tb_contiguous _ _ _ Ht)|].
  intros e _ _. unfold delete_forbidden, snapshot_row_index. cbn. rewrite Hm. cbn.
  destruct (bool_decide (e_index e <= _)) eqn:E; [|done]. apply bool_decide_eq_true in E.
  by rewrite bool_decide_eq_false_2 by lia.
Qed.

Lemma prune_stored db d old row :
  tables db d old -> consensus_meta db = Some (hard_row (hard_of d)) ->
  rh_commit_index d < included_index (sr_meta row) ->
  let db2 := db <| consensus_snapshot := Some row |> in
  let idx := included_index (sr_meta row) in
  (if bool_decide (lr_term <$> consensus_log db2 !! idx = Some (included_term (sr_meta row)))
   then sql_delete_log db2 (fun i => bool_decide (i <= idx))
   else if decide (rh_commit_index d > idx)
   then corrupted "refusing InstallSnapshot below commit_index"
   else sql_delete_log db2 (fun _ => true))
  = mret (db2 <| consensus_log := rows_of
      (if decide (e_term <$> d_get d idx = Some (included_term (sr_meta row)))
       then filter (fun e => e_index e > idx) (rh_log_tail d) else []) |>).
Proof.
  intros Ht Hm Hlt. cbv zeta. pose proof (di_commit _ (tb_inv _ _ _ Ht)) as Hcm.
  assert (lr_term <$> consensus_log db !! included_index (sr_meta row)
    = e_term <$> d_get d (included_index (sr_meta row))) as Hanchor.
  { rewrite (tables_lookup _ _ _ Ht) by lia. by destruct (d_get _ _). }
  cbn [consensus_log set_consensus_log set_consensus_snapshot]. cbn. rewrite Hanchor.
  rewrite !(delete_allowed _ _ _ _ _ Ht Hm Hlt). case_bool_decide as Ha.
  - rewrite decide_True by done. do 3 f_equal.
    rewrite (list_filter_iff _ (fun e => e_index e > included_index (sr_meta row))).
    2: { intros e. rewrite bool_decide_eq_false. lia. }
    rewrite filter_app, (list_filter_none _ old); [done|].
    intros e He%(tables_old_below _ _ _ Ht). lia.
  - rewrite !decide_False by (done || lia). do 3 f_equal. by apply list_filter_none.
Qed.

Lemma upsert_stored db d old m file len sha :
  tables db d old -> 1 <= included_index m <= i64_max -> 1 <= included_term m <= i64_max ->
  d_snapshot_index d <= included_index m -> 76 <= len <= i64_max ->
  upsert_snapshot_row_tx db m file len sha
  = mret (db <| consensus_snapshot := Some {| sr_meta := m; sr_file_name := file;
                  sr_byte_len := len; sr_snapshot_sha256 := sha |} |>).
Proof.
  intros Ht Hi Hterm Hle Hlen. unfold upsert_snapshot_row_tx, u64_to_i64.
  rewrite !decide_True by lia. cbn. unfold sql_upsert_snapshot. cbn.
  rewrite !bool_decide_eq_true_2 by lia. cbn.
  pose proof (tables_snapshot_index _ _ _ Ht) as Hidx. unfold snapshot_row_index in Hidx.
  destruct (consensus_snapshot db); [|done]. cbn in Hidx. by rewrite decide_False by lia.
Qed.

Lemma install_in_tx_stored db d d' old m b s :
  tables db d old -> consensus_meta db = Some (hard_row (hard_of d)) ->
  76 <= sg_byte_len s <= i64_max -> effect_storable d (InstallSnapshot m b) ->
  apply_effect d (InstallSnapshot m b) = Some d' ->
  exists db', install_snapshot_in_tx db m (sg_file_name s) (sg_byte_len s) (sg_sha256 s) = mret db'
    /\ tables db' d' [] /\ consensus_meta db' = Some (hard_row (hard_of d'))
    /\ consensus_snapshot db' = Some (staged_row m s).
Proof.
  intros Ht Hm Hlen [Hss Hterm] He. pose proof (tb_hard _ _ _ Ht) as Hh.
  destruct (apply_effect_safe _ _ (tb_inv _ _ _ Ht) _ He) as [Hd' Hlater].
  pose proof (di_commit _ (tb_inv _ _ _ Ht)) as Hcm. pose proof Hss as [Hi Hti _ _].
  cbn [apply_effect] in He. case_bool_decide as Hlt; [|done]. injection He as <-.
  unfold install_snapshot_in_tx. rewrite (read_hard_stored _ _ Hm Hh). unfold hard_of at 1. cbn.
  rewrite (upsert_stored _ _ _ _ _ _ _ Ht) by lia. cbn.
  rewrite u64_to_i64_fits by lia. cbn.
  pose proof (prune_stored db d old (staged_row m s) Ht Hm Hlt) as Hp. cbn in Hp.
  unfold staged_row in Hp. rewrite Hp. clear Hp. cbn.
  rewrite (Z.max_l (rh_current_term d)), (Z.max_r (rh_commit_index d)) by lia.
  rewrite (decide_False (P := rh_current_term d > rh_current_term d)) by lia. rewrite (write_hard_stored _ (hard_of d)); [|done| |].
  - eexists. split; [reflexivity|]. split_and!; [|done..].
    split; cbn; try done.
    + rewrite Z.sub_0_r. apply (di_contiguous _ Hd').
    + pose proof (tb_entries _ _ _ Ht) as Hf. apply Forall_app in Hf as [_ Hf].
      destruct (decide _); [by apply Forall_kept|constructor].
    + lia.
    + destruct Hh as (? & ? & ?). split_and!; done || lia.
  - destruct Hh as (? & ? & ?). split_and!; done || lia.
  - apply (d_later_hard _ _ Hlater).
Qed.

Lemma tx_install staged tx d d' m b :
  tx_rel tx d -> staged_fits staged -> effect_storable d (InstallSnapshot m b) ->
  apply_effect d (InstallSnapshot m b) = Some d' -> tx_effect_ok staged tx d' (InstallSnapshot m b).
Proof.
  intros Hrel (s & -> & Hlen) Hst He.
  destruct (tx_flush _ _ Hrel) as (db & Hdb & Hm & (old & Ht) & _).
  destruct (install_in_tx_stored _ _ _ _ _ _ s Ht Hm Hlen Hst He) as (db' & Hin & Ht' & Hm' & Hs').
  unfold tx_effect_ok. cbn [apply_tx_effect]. rewrite Hdb. cbn. rewrite Hin. cbn.
  eexists. split; [reflexivity|]. split; [|done].
  pose proof (tr_current _ _ Hrel) as Hcur. injection Hcur as E1 E2 E3.
  cbn [apply_effect] in He. case_bool_decide; [|done]. injection He as <-. split; cbn.
  - eauto.
  - rewrite E1, E2, E3, Z.max_r by lia. done.
  - eexists. split; [exact Hm'|]. split; [apply (tb_hard _ _ _ Ht')|]. split; [apply hard_later_refl|done].
Qed.

(** What the store relies on, along a batch of effects. *)
Fixpoint effects_storable d (effs : list ConsensusEffect) : Prop :=
  match effs with
  | [] => True
  | eff :: effs =>
      effect_storable d eff
      /\ match apply_effect d eff with Some d' => effects_storable d' effs | None => True end
  end.

(** The last snapshot of a batch. *)
Fixpoint last_install (effs : list ConsensusEffect) : option (SnapshotMetadata * bytes) :=
  match effs with
  | [] => None
  | eff :: effs =>
      match last_install effs, eff with
      | Some mb, _ => Some mb
      | None, InstallSnapshot m b => Some (m, b)
      | None, _ => None
      end
  end.

Lemma run_effects_last_install effs : forall d d',
  run_effects d effs = Some d' ->
  rh_snapshot d' = match last_install effs with Some mb => Some mb | None => rh_snapshot d end.
Proof.
  induction effs as [|eff effs IH]; intros d d'; [by intros [= <-]|].
  cbn [run_effects last_install]. intros (d1 & H1 & H2)%bind_Some. rewrite (IH _ _ H2).
  destruct (last_install effs); [done|]. destruct eff; cbn [apply_effect] in H1;
    try (by injection H1 as <-); destruct (_ : bool); try done; by injection H1 as <-.
Qed.

Lemma tx_effect_stored staged tx d d' eff :
  tx_rel tx d -> (is_install eff -> staged_fits staged) -> effect_storable d eff ->
  apply_effect d eff = Some d' -> tx_effect_ok staged tx d' eff.
Proof.
  intros Hrel Hfit Hst He. destruct eff; try (injection He as <-; by exists tx).
  - by eapply tx_persist.
  - eapply tx_install; eauto. by apply Hfit.
  - by eapply tx_truncate.
  - by eapply tx_append.
  - by eapply tx_advance.
Qed.

(** A whole batch through the tables. *)
Lemma tx_effects_stored staged effs : forall tx d d',
  tx_rel tx d -> (is_Some (last_install effs) -> staged_fits staged) -> effects_storable d effs ->
  run_effects d effs = Some d' ->
  exists tx', apply_tx_effects staged tx effs = mret tx' /\ tx_rel tx' d'
    /\ consensus_snapshot (tx_db tx')
       = match last_install effs with
         | Some (m, _) => staged_row m <$> staged
         | None => consensus_snapshot (tx_db tx)
         end.
Proof.
  induction effs as [|eff effs IH]; intros tx d d' Hrel Hfit Hst.
  { intros [= <-]. by exists tx. }
  destruct Hst as [Hst1 Hst]. cbn [run_effects]. intros (d1 & H1 & H2)%bind_Some.
  rewrite H1 in Hst.
  destruct (tx_effect_stored staged tx d d1 eff) as (tx1 & Ht1 & Hr1 & Hs1); [done| |done..|].
  { intros Hi. apply Hfit. cbn. destruct (last_install effs); [eauto|].
    by destruct eff; try done; eauto. }
  destruct (IH tx1 d1 d' Hr1) as (tx' & Ht' & Hr' & Hs'); [|done..|].
  { intros [mb Hmb]. apply Hfit. cbn. rewrite Hmb. eauto. }
  exists tx'. cbn [apply_tx_effects]. rewrite Ht1. split; [done|]. split; [done|].
  rewrite Hs'. cbn [last_install]. destruct (last_install effs) as [[]|]; [done|].
  rewrite Hs1. by destruct eff.
Qed.

(** The transaction: storage and tables end in the same state. *)
Lemma run_transaction_stored staged effs db d d' old :
  tables db d old -> consensus_meta db = Some (hard_row (hard_of d)) ->
  (is_Some (last_install effs) -> staged_fits staged) -> effects_storable d effs ->
  run_effects d effs = Some d' ->
  exists db', run_transaction db staged effs = mret db' /\ (exists old', tables db' d' old')
    /\ consensus_meta db' = Some (hard_row (hard_of d'))
    /\ consensus_snapshot db'
       = match last_install effs with
         | Some (m, _) => staged_row m <$> staged
         | None => consensus_snapshot db
         end.
Proof.
  intros Ht Hm Hfit Hst He. unfold run_transaction.
  rewrite (read_hard_stored _ _ Hm (tb_hard _ _ _ Ht)). cbn.
  destruct (tx_effects_stored staged effs {| tx_db := db; cur_term := rh_current_term d;
    cur_voted_for := rh_voted_for d; cur_commit := rh_commit_index d;
    hard_state_dirty := false |} d d') as (tx & Htx & Hrel & Hs); [|done..|].
  { split; cbn; [eauto|done|]. exists (hard_of d). split_and!; [done|apply (tb_hard _ _ _ Ht)| |done].
    apply hard_later_refl. }
  rewrite Htx. cbn. destruct (tx_flush _ _ Hrel) as (db' & Hdb & Hm' & Ht' & _ & Hs').
  exists db'. split; [done|]. split; [done|]. split; [done|]. by rewrite Hs'.
Qed.
End transaction.
