(* ===== verification/StoreRecovery.v ===== *)
(** * StoreRecovery: the store, the state machine and recovery

    Builds on [StoreRefines]: [stores] relates a whole store, files included,
    to abstract storage, and [live] a running state machine to it. The effects
    of a step keep both; recovery rebuilds both from the tables and the files
    alone. *)

From S2P Require Import Prelude Bytes Commands StateMachine Ledger Snapshot Replay Roster RaftTypes.
From S2P Require Import RaftCore RaftLog Durability Store StoreRefines.

(** ** The entries a batch delivers *)

Section delivery.
Implicit Types (d : RehydratedCoreState) (effs : list ConsensusEffect).

Lemma last_install_None effs :
  last_install effs = None -> Forall (fun eff => ~ is_install eff) effs.
Proof.
  induction effs as [|eff effs IH]; [done|]. cbn. destruct (last_install effs); [done|].
  intros Hn. apply Forall_cons. split; [intros Hi; by destruct eff|apply IH; done].
Qed.

Lemma delivered_below effs : forall d d',
  d_inv d -> run_effects d effs = Some d' ->
  Forall (fun e => e_index e <= rh_commit_index d') (delivered effs).
Proof.
  induction effs as [|eff effs IH]; intros d d' Hd; [by constructor|].
  cbn [run_effects]. intros (d1 & H1 & H2)%bind_Some.
  destruct (apply_effect_safe d d1 Hd eff H1) as [Hd1 _].
  change (eff :: effs) with ([eff] ++ effs). rewrite delivered_app. apply Forall_app.
  split; [|by eapply IH]. destruct (run_effects_safe _ _ _ Hd1 H2) as [_ Hl].
  pose proof (dl_commit _ _ Hl). destruct eff as [| | | |i t newly| | | |]; try by constructor.
  cbn. rewrite app_nil_r. cbn [apply_effect] in H1. destruct (_ && _) eqn:Hg; [|done].
  apply andb_true_iff in Hg as [_ ->%bool_decide_eq_true]. injection H1 as <-. cbn in *.
  apply Forall_forall. intros e [Hi _]%list_elem_of_filter. lia.
Qed.

Lemma last_install_elem effs m b : last_install effs = Some (m, b) -> InstallSnapshot m b ∈ effs.
Proof.
  induction effs as [|eff effs IH]; [done|]. cbn. destruct (last_install effs) as [[]|].
  - intros [= -> ->]. right. by apply IH.
  - destruct eff; try done. intros [= -> ->]. left.
Qed.

(** A snapshot is installed above the commit index. *)
Lemma install_above effs : forall d d' m b,
  d_inv d -> run_effects d effs = Some d' -> InstallSnapshot m b ∈ effs ->
  rh_commit_index d < included_index m.
Proof.
  induction effs as [|eff effs IH]; intros d d' m b Hd Hrun Hin; [by apply elem_of_nil in Hin|].
  cbn [run_effects] in Hrun. apply bind_Some in Hrun as (d1 & H1 & H2).
  destruct (apply_effect_safe d d1 Hd eff H1) as [Hd1 Hl]. pose proof (dl_commit _ _ Hl).
  apply elem_of_cons in Hin as [<-|Hin].
  - cbn [apply_effect] in H1. by case_bool_decide.
  - pose proof (IH _ _ _ _ Hd1 H2 Hin). lia.
Qed.

Lemma last_install_above effs d d' m b :
  d_inv d -> run_effects d effs = Some d' -> last_install effs = Some (m, b) ->
  rh_commit_index d < included_index m.
Proof. intros Hd Hrun Hm%last_install_elem. by eapply install_above. Qed.

Lemma d_range_lookup d lo hi i :
  d_inv d -> d_snapshot_index d <= lo -> lo <= hi <= d_last d ->
  d_range d lo hi !! i = if decide (Z.of_nat i < hi - lo) then d_get d (lo + 1 + Z.of_nat i) else None.
Proof.
  intros Hd Hlo Hhi. rewrite d_range_slice by done. case_decide as Hi.
  - rewrite lookup_take_lt by lia. rewrite lookup_drop. unfold d_get. rewrite decide_True by lia.
    f_equal. lia.
  - apply lookup_take_ge. lia.
Qed.

(** Without a snapshot the entries delivered are those between the commit indices. *)
Lemma delivered_plain effs d d' :
  d_inv d -> last_install effs = None -> run_effects d effs = Some d' ->
  delivered effs = d_range d' (rh_commit_index d) (rh_commit_index d').
Proof.
  intros Hd Hn%last_install_None Hrun.
  destruct (run_effects_delivered _ _ _ Hd Hn Hrun) as [Hc Hlen].
  destruct (run_effects_safe _ _ _ Hd Hrun) as [Hd' Hl].
  pose proof (run_effects_snapshot _ _ _ Hn Hrun) as Hs.
  pose proof (di_commit _ Hd). pose proof (di_commit _ Hd'). pose proof (dl_commit _ _ Hl).
  apply list_eq. intros i. rewrite d_range_lookup by (done || lia). case_decide as Hi.
  - destruct (lookup_lt_is_Some_2 (delivered effs) i) as [e He]; [lia|]. rewrite He.
    pose proof (run_effects_kept _ _ _ e Hd Hn Hrun) as Hk. rewrite (Hc _ _ He) in Hk.
    symmetry. apply Hk. by eapply list_elem_of_lookup_2.
  - apply lookup_ge_None_2. lia.
Qed.

(** In general a batch delivers entries its last snapshot covers, then those
    between the snapshot and the new commit index. *)
Definition delivery_base d effs : Z :=
  match last_install effs with Some (m, _) => included_index m | None => rh_commit_index d end.

Lemma delivered_split effs : forall d d',
  d_inv d -> run_effects d effs = Some d' ->
  exists covered, delivered effs = covered ++ d_range d' (delivery_base d effs) (rh_commit_index d')
    /\ Forall (fun e => e_index e <= delivery_base d effs) covered.
Proof.
  induction effs as [|eff effs IH]; intros d d' Hd Hrun.
  { exists []. injection Hrun as <-. split; [|constructor]. cbn. symmetry.
    apply list_filter_none. lia. }
  destruct (last_install (eff :: effs)) as [[m b]|] eqn:Hli.
  2: { exists []. split; [|constructor]. unfold delivery_base. rewrite Hli. by apply delivered_plain. }
  cbn [run_effects] in Hrun. apply bind_Some in Hrun as (d1 & H1 & H2).
  destruct (apply_effect_safe d d1 Hd eff H1) as [Hd1 _].
  destruct (IH d1 d' Hd1 H2) as (covered & Hdel & Hcov).
  assert (delivery_base d1 effs = included_index m /\ rh_commit_index d1 <= included_index m) as [Hb Hle].
  { unfold delivery_base. cbn in Hli. destruct (last_install effs) as [[m' b']|] eqn:E.
    - injection Hli as -> ->. pose proof (last_install_above _ _ _ _ _ Hd1 H2 E). split; [done|lia].
    - destruct eff; try done. injection Hli as -> ->. cbn [apply_effect] in H1.
      case_bool_decide; [|done]. injection H1 as <-. cbn. split; [done|lia]. }
  exists (delivered [eff] ++ covered). unfold delivery_base at 1 2. rewrite Hli, <- Hb.
  change (eff :: effs) with ([eff] ++ effs). rewrite delivered_app, Hdel.
  split; [by rewrite app_assoc|]. apply Forall_app. split; [|done]. rewrite Hb.
  eapply Forall_impl; [|cbn; intros e He; exact (Z.le_trans _ _ _ He Hle)].
  apply (delivered_below [eff] d d1 Hd). cbn. by rewrite H1.
Qed.
End delivery.

(** ** The running state machine *)

Section live.
Context `{Sha256}.
Implicit Types (d : RehydratedCoreState) (l : list RaftLogEntry) (s sm : ControlPlaneStateMachine).

Definition triple (e : RaftLogEntry) : Z * Z * ControlPlaneProposal :=
  (e_index e, e_term e, e_proposal e).

Lemma storable_wire l : Forall entry_storable l -> Forall wire_entry (triple <$> l).
Proof.
  intros Hl. apply Forall_fmap. eapply Forall_impl; [exact Hl|].
  intros e [_ Hi Ht Hk [Hok Hp]]. unfold compose, triple. cbn. unfold i64_max in *.
  split_and!; try done; width; lia.
Qed.

Lemma contiguous_log_ok base l :
  contiguous (base + 1) l -> Forall entry_storable l -> log_ok base (triple <$> l).
Proof.
  revert base. induction l as [|e l IH]; intros base; [done|].
  intros [He Hl]%contiguous_cons [Hs Hss]%Forall_cons. cbn. split; [lia|].
  split; [apply Hs|]. rewrite He. by apply IH.
Qed.

Lemma apply_log_last l : forall s s' outs,
  contiguous (last_applied_index s + 1) l -> apply_log s (triple <$> l) = Some (s', outs) ->
  last_applied_index s' = last_applied_index s + Z.of_nat (length l).
Proof.
  induction l as [|e l IH]; intros s s' outs Hc; [intros [= <- <-]; cbn; lia|].
  apply contiguous_cons in Hc as [He Hc]. cbn [fmap list_fmap triple apply_log].
  intros ([s1 o] & H1 & ([s2 o2] & H2 & [= <- <-])%bind_Some)%bind_Some.
  assert (last_applied_index s1 = e_index e) as Hi.
  { apply apply_committed_entry_inv in H1 as [_ [[_ ->]|(?&?&?&?&?&?&?&?)]]; done. }
  rewrite He in Hi. rewrite (IH s1 _ _ ltac:(by rewrite Hi) H2). cbn [length]. lia.
Qed.

(** The state the stored snapshot holds. *)
Definition base_state d s : Prop :=
  match rh_snapshot d with Some (m, b) => decode_matching_snapshot m b = mret s | None => s = sm_new end.

(** [sm] is the snapshot with the committed entries above it applied. *)
Definition live d sm : Prop :=
  exists s outs, base_state d s
    /\ apply_log s (triple <$> d_range d (d_snapshot_index d) (rh_commit_index d)) = Some (sm, outs).

Lemma live_unique d sm sm' : live d sm -> live d sm' -> sm = sm'.
Proof.
  intros (s & outs & Hb & Hl) (s' & outs' & Hb' & Hl'). assert (s = s') as <-; [|congruence].
  unfold base_state in *. destruct (rh_snapshot d) as [[m b]|]; [|by subst].
  rewrite Hb in Hb'. by injection Hb'.
Qed.

Section holds.
Context (db : Database) (d : RehydratedCoreState) (old : list RaftLogEntry).
Context (Ht : tables db d old).

Lemma tables_base :
  exists s, base_state d s /\ log_state s /\ last_applied_index s = d_snapshot_index d.
Proof.
  pose proof (tb_storable _ _ _ Ht) as Hs. unfold base_state, d_snapshot_index.
  destruct (rh_snapshot d) as [[m b]|]; [|exists sm_new; split_and!; [done|apply log_state_new|done]].
  destruct Hs as [_ _ _ (s & Hs & Hlog)]. exists s. split_and!; [done..|].
  by apply decode_matching_index in Hs as (_ & ? & _).
Qed.

Lemma tables_range_storable lo hi : Forall entry_storable (d_range d lo hi).
Proof.
  pose proof (tb_entries _ _ _ Ht) as Hf. apply Forall_app in Hf as [_ Hf]. by apply Forall_kept.
Qed.

Lemma tables_committed_contiguous :
  contiguous (d_snapshot_index d + 1) (d_range d (d_snapshot_index d) (rh_commit_index d)).
Proof.
  pose proof (di_commit _ (tb_inv _ _ _ Ht)).
  apply d_range_contiguous; [apply (tb_inv _ _ _ Ht)|lia|lia].
Qed.

(** Replaying what is stored never fails. *)
Lemma tables_live : exists sm, live d sm.
Proof.
  destruct tables_base as (s & Hb & Hs & Hi).
  destruct (log_state_run s (triple <$> d_range d (d_snapshot_index d) (rh_commit_index d)) Hs)
    as (sm & outs & Hl).
  { rewrite Hi. apply contiguous_log_ok; [apply tables_committed_contiguous|apply tables_range_storable]. }
  exists sm, s, outs. done.
Qed.

Lemma live_state sm : live d sm -> log_state sm /\ last_applied_index sm = rh_commit_index d.
Proof.
  intros (s & outs & Hb & Hl). destruct tables_base as (s' & Hb' & Hs & Hi).
  assert (s = s') as ->.
  { unfold base_state in *. destruct (rh_snapshot d) as [[]|]; [|congruence].
    rewrite Hb in Hb'. by injection Hb'. }
  pose proof (di_commit _ (tb_inv _ _ _ Ht)) as Hcm. split.
  - eapply log_state_extend; [done| |done]. apply storable_wire, tables_range_storable.
  - rewrite (apply_log_last _ _ _ _ ltac:(rewrite Hi; apply tables_committed_contiguous) Hl), Hi.
    destruct (d_range_contiguous d (d_snapshot_index d) (rh_commit_index d)) as [_ Hlen];
      [apply (tb_inv _ _ _ Ht)|lia..].
Qed.
End holds.

(** Committed entries stay where they were. *)
Lemma d_range_kept d d' lo hi :
  d_inv d -> d_inv d' -> d_later d d' -> d_snapshot_index d' <= lo -> lo <= hi <= rh_commit_index d ->
  d_range d' lo hi = d_range d lo hi.
Proof.
  intros Hd Hd' Hl Hlo Hhi. pose proof (di_commit _ Hd). pose proof (di_commit _ Hd').
  pose proof (dl_commit _ _ Hl). pose proof (dl_snapshot _ _ Hl).
  apply list_eq. intros i. rewrite !d_range_lookup by (done || lia). case_decide; [|done].
  apply (dl_entries _ _ Hl). lia.
Qed.

Lemma d_range_split d lo mid hi :
  d_inv d -> d_snapshot_index d <= lo -> lo <= mid <= hi -> hi <= d_last d ->
  d_range d lo hi = d_range d lo mid ++ d_range d mid hi.
Proof.
  intros Hd Hlo Hm Hhi. rewrite !d_range_slice by (done || lia).
  replace (Z.to_nat (hi - lo)) with (Z.to_nat (mid - lo) + Z.to_nat (hi - mid))%nat by lia.
  replace (Z.to_nat (mid - d_snapshot_index d))
    with (Z.to_nat (lo - d_snapshot_index d) + Z.to_nat (mid - lo))%nat by lia.
  rewrite <- drop_drop. generalize (drop (Z.to_nat (lo - d_snapshot_index d)) (rh_log_tail d)).
  intros l. by rewrite take_take_drop.
Qed.
End live.

(** ** A batch of effects *)

Section batch.
Context `{Sha256}.
Implicit Types (d : RehydratedCoreState) (l : list RaftLogEntry) (effs : list ConsensusEffect)
  (sm : ControlPlaneStateMachine) (st : SqliteConsensusStore).

Definition snapshot_file (m : SnapshotMetadata) : string :=
  snapshot_file_name (included_index m) (included_term m).

(** What is staged for a snapshot. *)
Definition stage_of (m : SnapshotMetadata) (b : bytes) sm : StagedSnapshot := {|
  sg_meta := m; sg_file_name := snapshot_file m; sg_byte_len := Z.of_nat (length b);
  sg_sha256 := compute_snapshot_transfer_sha256 (included_index m) (included_term m) (state_root m) b;
  sg_state_machine := sm |}.

Definition snapshot_row (m : SnapshotMetadata) (b : bytes) : StoredSnapshotRow := {|
  sr_meta := m; sr_file_name := snapshot_file m; sr_byte_len := Z.of_nat (length b);
  sr_snapshot_sha256 :=
    compute_snapshot_transfer_sha256 (included_index m) (included_term m) (state_root m) b |}.

(** The whole store holds [d]. *)
Record stores st d : Prop := {
  so_tables : exists old, tables (conn st) d old;
  so_meta : consensus_meta (conn st) = Some (hard_row (hard_of d));
  so_row : consensus_snapshot (conn st) = uncurry snapshot_row <$> rh_snapshot d;
  so_file m b : rh_snapshot d = Some (m, b) -> snapshot_files st !! snapshot_file m = Some b;
}.

Lemma stage_snapshots_stored effs : forall files staged,
  (forall m b, InstallSnapshot m b ∈ effs -> exists sm, decode_matching_snapshot m b = mret sm) ->
  exists files' staged', stage_snapshots files staged effs = (files', mret staged')
    /\ match last_install effs with
       | Some (m, b) => files' !! snapshot_file m = Some b
           /\ exists sm, decode_matching_snapshot m b = mret sm /\ staged' = Some (stage_of m b sm)
       | None => files' = files /\ staged' = staged
       end.
Proof.
  induction effs as [|eff effs IH]; intros files staged Hall; [by exists files, staged|].
  assert (forall m b, InstallSnapshot m b ∈ effs -> exists sm, decode_matching_snapshot m b = mret sm)
    as Hrest by (intros m b Hin; apply Hall; by right).
  destruct eff as [|m b| | | | | | |];
    try (destruct (IH files staged Hrest) as (files' & staged' & Hst & Hli); exists files', staged';
         split; [done|]; cbn; by destruct (last_install effs) as [[]|]).
  destruct (Hall m b) as [sm Hsm]; [by left|]. cbn [stage_snapshots last_install]. rewrite Hsm.
  edestruct IH as (files' & staged' & Hst & Hli); [exact Hrest|].
  exists files', staged'. split; [exact Hst|]. destruct (last_install effs) as [[m' b']|]; [done|].
  destruct Hli as [-> ->]. split; [apply lookup_insert_eq|]. by exists sm.
Qed.

Lemma effects_storable_installs effs : forall d d' m b,
  effects_storable d effs -> run_effects d effs = Some d' -> InstallSnapshot m b ∈ effs ->
  snapshot_storable m b.
Proof.
  induction effs as [|eff effs IH]; intros d d' m b Hst Hrun Hin; [by apply elem_of_nil in Hin|].
  destruct Hst as [Hst1 Hst]. cbn [run_effects] in Hrun. apply bind_Some in Hrun as (d1 & H1 & H2).
  rewrite H1 in Hst. apply elem_of_cons in Hin as [<-|Hin]; [apply Hst1|by eapply IH].
Qed.

(** *** Newly committed entries *)

Lemma apply_newly_skips sm covered l :
  Forall (fun e => e_index e <= last_applied_index sm) covered ->
  apply_newly_committed sm (covered ++ l) = apply_newly_committed sm l.
Proof. induction 1 as [|e covered He _ IH]; [done|]. cbn. by rewrite decide_True. Qed.

(** The receipts of entries applied in order from one state to another: each
    carries its entry's index and term, the outcome and the new state's digest. *)
Inductive acknowledges :
    ControlPlaneStateMachine -> list (RaftLogEntry * ConsensusCommitReceipt) ->
    ControlPlaneStateMachine -> Prop :=
  | ack_nil sm : acknowledges sm [] sm
  | ack_cons sm e r sm1 rest sm2 :
      apply_committed_entry sm (e_index e) (e_term e) (e_proposal e) = Some (sm1, rc_outcome r) ->
      state_root_digest sm1 = Some (rc_state_root_digest r) ->
      consensus_commit_index r = e_index e -> rc_term r = e_term e ->
      acknowledges sm1 rest sm2 -> acknowledges sm ((e, r) :: rest) sm2.

Lemma apply_newly_runs l : forall sm sm' outs,
  log_state sm -> Forall entry_storable l -> contiguous (last_applied_index sm + 1) l ->
  apply_log sm (triple <$> l) = Some (sm', outs) -> last_applied_index sm' <= u32_max ->
  exists receipts, apply_newly_committed sm l = (sm', mret receipts) /\ receipts.*1 = l
    /\ acknowledges sm receipts sm'.
Proof.
  induction l as [|e l IH]; intros sm sm' outs Hs Hl Hc; [intros [= <- <-] _; exists []; split_and!; [done..|constructor]|].
  apply Forall_cons in Hl as [He Hl]. pose proof (apply_log_last _ sm sm' outs Hc) as Hlast.
  apply contiguous_cons in Hc as [Hi Hc]. intros Hrun Hmax. specialize (Hlast Hrun).
  cbn [fmap list_fmap triple apply_log] in Hrun.
  apply bind_Some in Hrun as ([s1 o] & H1 & ([s2 o2] & H2 & [= <- <-])%bind_Some).
  assert (last_applied_index s1 = e_index e) as Hi1.
  { apply apply_committed_entry_inv in H1 as [_ [[_ ->]|(?&?&?&?&?&?&?&?)]]; done. }
  assert (log_state s1) as Hs1.
  { eapply (log_state_extend sm [triple e]); [done|by apply (storable_wire [e]), Forall_singleton|].
    cbn. by rewrite H1. }
  destruct (log_state_root s1 Hs1) as [root Hroot]; [cbn [length] in Hlast; lia|].
  destruct (IH s1 _ _ Hs1 Hl ltac:(by rewrite Hi1, Hi) H2 Hmax) as (rs & Hrs & <- & Hok).
  eexists. cbn [apply_newly_committed]. rewrite decide_False by lia.
  destruct He as [_ Hidx Hterm _ _]. rewrite !decide_False by lia. rewrite H1, Hroot, Hrs.
  split; [reflexivity|]. split; [done|]. by econstructor.
Qed.

(** The state machine the entries of a batch are applied to: the staged snapshot
    if there is one. *)
Definition batch_machine sm effs : ControlPlaneStateMachine :=
  match last_install effs with
  | Some (m, b) => match decode_matching_snapshot m b with Some (Ok s) => s | _ => sm end
  | None => sm
  end.

Section base.
Context (db db' : Database) (d d' : RehydratedCoreState) (old old' : list RaftLogEntry).
Context (sm sm' : ControlPlaneStateMachine) (effs : list ConsensusEffect).
Context (Ht : tables db d old) (Ht' : tables db' d' old').
Context (Hlive : live d sm) (Hlive' : live d' sm').
Context (Hst : effects_storable d effs) (Hrun : run_effects d effs = Some d').

Lemma delivery_base_range :
  rh_commit_index d <= delivery_base d effs <= rh_commit_index d'
  /\ d_snapshot_index d' <= delivery_base d effs.
Proof.
  destruct (run_effects_safe _ _ _ (tb_inv _ _ _ Ht) Hrun) as [Hd' Hl].
  pose proof (di_commit _ (tb_inv _ _ _ Ht)). pose proof (di_commit _ Hd'). pose proof (dl_commit _ _ Hl).
  pose proof (run_effects_last_install _ _ _ Hrun) as Hsnap. unfold delivery_base.
  destruct (last_install effs) as [[m b]|] eqn:E.
  - pose proof (last_install_above _ _ _ _ _ (tb_inv _ _ _ Ht) Hrun E).
    unfold d_snapshot_index in *. rewrite Hsnap in *. cbn in *. lia.
  - assert (d_snapshot_index d' = d_snapshot_index d) by (unfold d_snapshot_index; by rewrite Hsnap). lia.
Qed.

Lemma batch_machine_state :
  log_state (batch_machine sm effs)
  /\ last_applied_index (batch_machine sm effs) = delivery_base d effs.
Proof.
  unfold batch_machine, delivery_base. destruct (last_install effs) as [[m b]|] eqn:E.
  - apply last_install_elem in E. apply (effects_storable_installs _ _ _ _ _ Hst Hrun) in E.
    destruct E as [_ _ _ (s & Hs & Hlog)]. rewrite Hs. split; [done|].
    by apply decode_matching_index in Hs as (_ & ? & _).
  - apply (live_state _ _ _ Ht sm Hlive).
Qed.

Lemma batch_machine_runs :
  exists outs, apply_log (batch_machine sm effs)
    (triple <$> d_range d' (delivery_base d effs) (rh_commit_index d')) = Some (sm', outs).
Proof.
  pose proof delivery_base_range as [Hb1 Hb2].
  destruct (run_effects_safe _ _ _ (tb_inv _ _ _ Ht) Hrun) as [Hd' Hl].
  pose proof (di_commit _ (tb_inv _ _ _ Ht)). pose proof (di_commit _ Hd').
  pose proof (run_effects_last_install _ _ _ Hrun) as Hsnap.
  destruct Hlive as (s & outs & Hs & Hlog), Hlive' as (s' & outs' & Hs' & Hlog').
  unfold batch_machine, delivery_base in *. destruct (last_install effs) as [[m b]|] eqn:E.
  - unfold base_state in Hs'. rewrite Hsnap in Hs'. rewrite Hs'. exists outs'.
    unfold d_snapshot_index in Hlog'. by rewrite Hsnap in Hlog'.
  - assert (d_snapshot_index d' = d_snapshot_index d) as Hi by (unfold d_snapshot_index; by rewrite Hsnap).
    assert (s' = s) as ->.
    { unfold base_state in *. rewrite Hsnap in Hs'. destruct (rh_snapshot d) as [[]|]; [|congruence].
      rewrite Hs in Hs'. by injection Hs'. }
    rewrite Hi, (d_range_split d' _ (rh_commit_index d)) in Hlog' by (done || lia).
    rewrite (d_range_kept d d') in Hlog' by (done || lia || apply Ht).
    rewrite fmap_app, apply_log_app, Hlog in Hlog'. cbn in Hlog'.
    apply bind_Some in Hlog' as ([s2 o2] & H2 & [= -> <-]). eauto.
Qed.

(** The state machine after a batch. *)
Lemma batch_applies :
  rh_commit_index d' <= u32_max ->
  exists receipts,
    apply_newly_committed (batch_machine sm effs) (newly_committed_of effs) = (sm', mret receipts)
    /\ receipts.*1 = d_range d' (delivery_base d effs) (rh_commit_index d')
    /\ acknowledges (batch_machine sm effs) receipts sm'.
Proof.
  intros Hmax. destruct batch_machine_state as [Hs1 Hi1]. destruct batch_machine_runs as [outs Hlog].
  destruct delivery_base_range as [Hb1 Hb2].
  destruct (live_state _ _ _ Ht' sm' Hlive') as [_ Hidx'].
  destruct (delivered_split _ _ _ (tb_inv _ _ _ Ht) Hrun) as (covered & Hdel & Hcov).
  change (newly_committed_of effs) with (delivered effs).
  rewrite Hdel, apply_newly_skips by (by rewrite Hi1). pose proof (di_commit _ (tb_inv _ _ _ Ht')).
  edestruct apply_newly_runs as (rs & Hrs & Hfst & Hok); [exact Hs1| | |exact Hlog|lia|].
  - apply (tables_range_storable _ _ _ Ht').
  - rewrite Hi1. apply d_range_contiguous; [apply Ht'|lia..].
  - by exists rs.
Qed.
End base.

Lemma volatile_batch effs : forall d,
  existsb is_storage_effect effs = false -> run_effects d effs = Some d /\ last_install effs = None.
Proof.
  induction effs as [|eff effs IH]; intros d; [done|]. cbn [existsb].
  intros [He Hes]%orb_false_iff. destruct (IH d Hes) as [Hr Hl].
  by destruct eff; try done; cbn; rewrite ?Hr, ?Hl.
Qed.

(** Staging: the files of the batch, and what the transaction gets to see. *)
Lemma stage_batch st d d' effs :
  effects_storable d effs -> run_effects d effs = Some d' ->
  exists files staged, stage_snapshots (snapshot_files st) None effs = (files, mret staged)
    /\ (is_Some (last_install effs) -> staged_fits staged)
    /\ match last_install effs with
       | Some (m, b) => files !! snapshot_file m = Some b
           /\ exists s, decode_matching_snapshot m b = mret s /\ staged = Some (stage_of m b s)
       | None => files = snapshot_files st /\ staged = None
       end.
Proof.
  intros Hst Hrun. destruct (stage_snapshots_stored effs (snapshot_files st) None) as (fs & sg & Hsg & Hli).
  { intros m b Hin. destruct (effects_storable_installs _ _ _ _ _ Hst Hrun Hin) as [_ _ _ (s & ? & _)]. eauto. }
  exists fs, sg. split; [done|]. split; [|done]. intros [[m b] Hmb]. rewrite Hmb in Hli.
  destruct Hli as (_ & s & Hs & ->). eexists. split; [done|]. cbn.
  pose proof (decode_matching_length _ _ _ Hs).
  apply last_install_elem in Hmb. destruct (effects_storable_installs _ _ _ _ _ Hst Hrun Hmb). lia.
Qed.

(** The store after the transaction, before or after old files are removed. *)
Lemma stores_batch st d d' effs files staged :
  stores st d -> effects_storable d effs -> run_effects d effs = Some d' ->
  stage_snapshots (snapshot_files st) None effs = (files, mret staged) ->
  exists db, run_transaction (conn st) staged effs = mret db
    /\ stores {| conn := db; snapshot_files := files |} d'
    /\ (forall s, staged = Some s -> stores {| conn := db;
          snapshot_files := retire_obsolete_snapshot_files files (sg_file_name s) |} d').
Proof.
  intros [(old & Ht) Hm Hrow Hfile] Hst Hrun Hsg.
  destruct (stage_batch st d d' effs Hst Hrun) as (fs & sg & Hsg' & Hfit & Hli).
  rewrite Hsg in Hsg'. injection Hsg' as <- <-.
  destruct (run_transaction_stored staged effs _ _ _ _ Ht Hm Hfit Hst Hrun)
    as (db & Htx & Ht' & Hm' & Hrow').
  pose proof (run_effects_last_install _ _ _ Hrun) as Hsnap. exists db. split; [done|].
  destruct (last_install effs) as [[m b]|] eqn:Hl.
  - destruct Hli as (Hf & s & Hs & ->).
    split; [|intros s' [= <-]]; (split; cbn; [done|done|by rewrite Hrow', Hsnap|]);
      rewrite Hsnap; intros m' b' [= <- <-]; [done|].
    by apply map_lookup_filter_Some.
  - destruct Hli as [-> ->]. split; [|done]. split; cbn; [done|done|by rewrite Hrow', Hsnap|].
    rewrite Hsnap. apply Hfile.
Qed.

Lemma durable_batch st d d' sm effs :
  stores st d -> live d sm -> effects_storable d effs -> run_effects d effs = Some d' ->
  rh_commit_index d' <= u32_max ->
  exists st' sm' receipts, apply_durable_effects st sm effs = (st', sm', mret receipts)
    /\ stores st' d' /\ live d' sm'
    /\ receipts.*1 = d_range d' (delivery_base d effs) (rh_commit_index d')
    /\ acknowledges (batch_machine sm effs) receipts sm'.
Proof.
  intros Hso Hlive Hst Hrun Hmax. unfold apply_durable_effects.
  destruct (existsb is_storage_effect effs) eqn:Hany; cbn [negb].
  2: { destruct (volatile_batch effs d Hany) as [Hr Hl]. rewrite Hrun in Hr. injection Hr as ->.
       exists st, sm, []. split_and!; [done..| |].
       - unfold delivery_base. rewrite Hl. symmetry. apply list_filter_none. lia.
       - unfold batch_machine. rewrite Hl. constructor. }
  destruct (stage_batch st d d' effs Hst Hrun) as (fs & sg & Hsg & _ & Hli).
  destruct (stores_batch st d d' effs fs sg Hso Hst Hrun Hsg) as (db & Htx & Hso1 & Hso2).
  rewrite Hsg. cbn [and_then]. unfold mret at 1, store_ret at 1. cbn [and_then conn]. rewrite Htx.
  unfold mret at 1, store_ret at 1. cbn [and_then].
  pose proof Hso as [(old & Ht) _ _ _]. pose proof Hso1 as [(old' & Ht') _ _ _]. cbn in Ht'.
  destruct (tables_live _ _ _ Ht') as [sm' Hlive'].
  destruct (batch_applies _ _ d d' old old' sm sm' effs Ht Ht' Hlive Hlive' Hst Hrun Hmax)
    as (rs & Hrs & Hfst & Hok).
  destruct (live_state _ _ _ Ht sm Hlive) as [_ Hidx]. unfold batch_machine in *.
  destruct (last_install effs) as [[m b]|] eqn:El.
  - destruct Hli as (_ & s & Hs & ->). rewrite Hs in Hrs, Hok |- *.
    unfold mret, store_ret in Hrs, Hok |- *. cbn in Hrs, Hok |- *.
    pose proof (last_install_above _ _ _ _ _ (tb_inv _ _ _ Ht) Hrun El).
    apply decode_matching_index in Hs as (_ & Hsi & _).
    cbn [sg_state_machine stage_of]. rewrite decide_True by lia. rewrite Hrs.
    exists {| conn := db; snapshot_files := retire_obsolete_snapshot_files fs (snapshot_file m) |}, sm', rs.
    split_and!; try done. by apply (Hso2 (stage_of m b s)).
  - destruct Hli as [-> ->]. rewrite Hrs. by exists {| conn := db; snapshot_files := snapshot_files st |}, sm', rs.
Qed.
End batch.

(** ** Recovery *)

Section recovery.
Context `{Sha256}.
Implicit Types (d : RehydratedCoreState) (l : list RaftLogEntry) (s sm : ControlPlaneStateMachine)
  (st : SqliteConsensusStore).

Lemma check_no_gap_contiguous base l :
  Forall entry_storable l -> contiguous base l ->
  forall expected, (expected = None \/ expected = Some base) -> check_no_gap expected l = mret tt.
Proof.
  revert base. induction l as [|e l IH]; intros base; [done|].
  intros [He Hs]%Forall_cons [Hi Hc]%contiguous_cons expected Hex. cbn [check_no_gap].
  assert (bool_decide (is_Some expected) && bool_decide (expected <> Some (e_index e)) = false) as ->.
  { apply andb_false_iff. destruct Hex as [->| ->]; [left; by apply bool_decide_eq_false_2; intros [? ?]|].
    right. apply bool_decide_eq_false_2. rewrite Hi. intros Hn. by apply Hn. }
  apply (IH (base + 1)); [done..|]. right. f_equal. unfold saturating_add64.
  destruct He as [_ Hx _ _ _]. unfold i64_max in Hx. width. lia.
Qed.

Lemma replay_committed_runs l : forall base s sm outs commit,
  contiguous base l -> Forall entry_storable l ->
  apply_log s (triple <$> filter (fun e => e_index e <= commit) l) = Some (sm, outs) ->
  replay_committed s commit l = mret sm.
Proof.
  induction l as [|e l IH]; intros base s sm outs commit Hc Hs; [by intros [= <- <-]|].
  apply contiguous_cons in Hc as [Hi Hc]. apply Forall_cons in Hs as [He Hs].
  cbn [replay_committed]. rewrite filter_cons. case_decide as Hle.
  - rewrite decide_False by lia. destruct He as [_ Hx Ht _ _]. rewrite !decide_False by lia.
    cbn [fmap list_fmap triple apply_log].
    intros ([s1 o] & H1 & ([s2 o2] & H2 & [= <- <-])%bind_Some)%bind_Some. rewrite H1. by eapply IH.
  - rewrite decide_True by lia. rewrite list_filter_none; [by intros [= <- <-]|].
    intros e' [i He']%list_elem_of_lookup. rewrite (Hc _ _ He'). lia.
Qed.

Section holds.
Context (db : Database) (d : RehydratedCoreState) (old : list RaftLogEntry).
Context (Ht : tables db d old).

Lemma recover_tail_stored :
  recover_tail db (rh_commit_index d) (d_snapshot_index d) = mret (rh_log_tail d).
Proof.
  pose proof (tb_inv _ _ _ Ht) as [Hc Hcm]. pose proof (tables_snapshot_range _ _ _ Ht) as Hr.
  unfold recover_tail. rewrite decide_False by lia.
  rewrite (tb_log _ _ _ Ht), (btree_iter_rows _ _ (tb_contiguous _ _ _ Ht)).
  rewrite (hydrate_stored_rows _ (tb_entries _ _ _ Ht)). cbn.
  rewrite (check_no_gap_contiguous _ _ (tb_entries _ _ _ Ht) (tb_contiguous _ _ _ Ht)) by (by left).
  assert (filter (fun e => e_index e > d_snapshot_index d) (old ++ rh_log_tail d) = rh_log_tail d) as Hf.
  { rewrite filter_app, list_filter_none, list_filter_all; [done| |].
    - intros e [i Hi]%list_elem_of_lookup. rewrite (Hc _ _ Hi). lia.
    - intros e He%(tables_old_below _ _ _ Ht). lia. }
  cbn. rewrite Hf.
  assert (match rh_log_tail d with
    | first :: _ => bool_decide (e_index first <> saturating_add64 (d_snapshot_index d) 1)
    | [] => false end = false) as ->.
  { destruct (rh_log_tail d) as [|e l]; [done|]. apply bool_decide_eq_false_2.
    apply contiguous_cons in Hc as [Hi _]. rewrite Hi. unfold saturating_add64, i64_max in *. width. lia. }
  rewrite decide_False; [done|]. unfold d_last in Hcm.
  destruct (last (rh_log_tail d)) as [e|] eqn:He; cbn.
  - rewrite (contiguous_last _ _ _ Hc He). lia.
  - apply last_None in He. rewrite He in Hcm. cbn in Hcm. lia.
Qed.

Lemma drop_covered_stored :
  exists db', drop_covered db (d_snapshot_index d) = mret db'
    /\ consensus_meta db' = consensus_meta db /\ consensus_snapshot db' = consensus_snapshot db
    /\ exists old', tables db' d old'.
Proof.
  pose proof (tables_snapshot_range _ _ _ Ht) as Hr. pose proof (tb_inv _ _ _ Ht) as [Hc Hcm].
  unfold drop_covered. case_decide; [|by eauto 6]. rewrite u64_to_i64_fits by lia. cbn.
  rewrite (sql_delete_stored _ _ _ _ (tb_log _ _ _ Ht) (tb_contiguous _ _ _ Ht)).
  2: { intros e _ Hle%bool_decide_eq_true. unfold delete_forbidden. destruct (consensus_meta db); [|done].
       rewrite (tables_snapshot_index _ _ _ Ht), (bool_decide_eq_false_2 (_ > _)) by lia.
       apply andb_false_r. }
  eexists. split; [reflexivity|]. split; [done|]. split; [done|]. exists [].
  assert (filter (fun e => bool_decide (e_index e <= d_snapshot_index d) = false) (old ++ rh_log_tail d)
    = rh_log_tail d) as Hf.
  { rewrite filter_app, list_filter_none, list_filter_all; [done| |].
    - intros e [i Hi]%list_elem_of_lookup. apply bool_decide_eq_false. rewrite (Hc _ _ Hi). lia.
    - intros e He%(tables_old_below _ _ _ Ht). rewrite bool_decide_eq_false. lia. }
  destruct Ht. split; cbn; try done.
  - by rewrite Hf.
  - by rewrite Z.sub_0_r.
  - by apply Forall_app in tb_entries as [_ ?].
Qed.

Lemma replay_stored s sm :
  base_state d s -> live d sm -> replay_committed s (rh_commit_index d) (rh_log_tail d) = mret sm.
Proof.
  intros Hs (s' & outs & Hs' & Hl). pose proof (tb_inv _ _ _ Ht) as [Hc Hcm].
  assert (s' = s) as ->.
  { unfold base_state in *. destruct (rh_snapshot d) as [[]|]; [|congruence].
    rewrite Hs in Hs'. by injection Hs'. }
  pose proof (tb_entries _ _ _ Ht) as Hf. apply Forall_app in Hf as [_ Hf].
  eapply replay_committed_runs; [done..|]. rewrite <- Hl. do 2 f_equal. unfold d_range.
  apply list_filter_ext. intros e [i Hi]%list_elem_of_lookup. rewrite (Hc _ _ Hi). lia.
Qed.
End holds.

Lemma load_snapshot_stored files m b s :
  files !! snapshot_file m = Some b -> decode_matching_snapshot m b = mret s ->
  load_snapshot files (snapshot_row m b) = mret (s, b).
Proof.
  intros Hf (Hd & Hi & Ht & Hr)%decode_matching_index. unfold load_snapshot. cbn.
  rewrite Hf, !decide_False by (intros Hn; by apply Hn). rewrite Hd, Hr. cbn.
  by rewrite !bool_decide_eq_false_2 by (intros Hn; by apply Hn).
Qed.

(** Loading the snapshot, or starting from the empty state. *)
Lemma load_base_stored st d s :
  stores st d -> base_state d s ->
  match consensus_snapshot (conn st) with
  | Some row => '(sm, b) ← load_snapshot (snapshot_files st) row; mret (sm, Some (sr_meta row, b))
  | None => mret (sm_new, None)
  end = mret (s, rh_snapshot d).
Proof.
  intros [_ _ Hrow Hfile] Hb. rewrite Hrow. unfold base_state in Hb.
  destruct (rh_snapshot d) as [[m b]|]; cbn; [|by subst].
  by rewrite (load_snapshot_stored _ _ _ s (Hfile m b eq_refl) Hb).
Qed.

Lemma retire_stored st d db :
  stores st d -> consensus_meta db = consensus_meta (conn st) ->
  consensus_snapshot db = consensus_snapshot (conn st) -> (exists old, tables db d old) ->
  stores {| conn := db; snapshot_files :=
    match consensus_snapshot (conn st) with
    | Some row => retire_obsolete_snapshot_files (snapshot_files st) (sr_file_name row)
    | None => snapshot_files st
    end |} d.
Proof.
  intros [_ Hm Hrow Hfile] Em Es Ht. split; [exact Ht|exact (eq_trans Em Hm)|exact (eq_trans Es Hrow)|].
  intros m b Hs. rewrite Hrow, Hs. cbn. apply map_lookup_filter_Some. split; [|done]. by apply Hfile.
Qed.

(** Recovery rebuilds exactly what is stored. *)
Lemma load_stored st d :
  stores st d ->
  exists st' sm, load_and_verify_all st
      = (st', mret {| core_state := d; recovered_state_machine := sm |})
    /\ live d sm /\ stores st' d.
Proof.
  intros Hso. pose proof Hso as [(old & Ht) Hm Hrow _].
  destruct (tables_live _ _ _ Ht) as [sm Hlive]. pose proof Hlive as (s & outs & Hb & _).
  destruct (drop_covered_stored _ _ _ Ht) as (db & Hdrop & Em & Es & Ht').
  pose proof (retire_stored st d db Hso Em Es Ht') as Hso'.
  exists {| conn := db; snapshot_files :=
    match consensus_snapshot (conn st) with
    | Some row => retire_obsolete_snapshot_files (snapshot_files st) (sr_file_name row)
    | None => snapshot_files st
    end |}, sm. split; [|done].
  unfold load_and_verify_all.
  rewrite (read_hard_stored _ _ Hm (tb_hard _ _ _ Ht)). cbn [and_then mret store_ret hard_of].
  rewrite (read_snapshot_stored _ _ _ Ht). cbn [and_then mret store_ret].
  rewrite (load_base_stored st d s Hso Hb). cbn [and_then mret store_ret conn snapshot_files].
  fold (d_snapshot_index d). rewrite (recover_tail_stored _ _ _ Ht). cbn [and_then mret store_ret].
  rewrite Hdrop. cbn [and_then mret store_ret].
  rewrite (replay_stored _ _ _ Ht s sm Hb Hlive). cbn [and_then mret store_ret].
  by destruct d.
Qed.
End recovery.

(** ** Crashes *)

Lemma digit_inj x y : 0 <= x < 10 -> 0 <= y < 10 ->
  Ascii.ascii_of_N (Z.to_N (48 + x)) = Ascii.ascii_of_N (Z.to_N (48 + y)) -> x = y.
Proof.
  intros Hx Hy E. apply (f_equal Ascii.N_of_ascii) in E. rewrite !Ascii.N_ascii_embedding in E; lia.
Qed.

Lemma length_decimal k : forall n acc, String.length (decimal k n acc) = (k + String.length acc)%nat.
Proof. induction k as [|k IH]; intros n acc; [done|]. cbn. rewrite IH. cbn. lia. Qed.

Lemma decimal_inj k : forall n n' acc acc',
  0 <= n < 10 ^ Z.of_nat k -> 0 <= n' < 10 ^ Z.of_nat k ->
  decimal k n acc = decimal k n' acc' -> n = n' /\ acc = acc'.
Proof.
  induction k as [|k IH]; intros n n' acc acc' Hn Hn'.
  { cbn. intros ->. cbn in *. split; [lia|done]. }
  cbn [decimal]. intros E. rewrite Nat2Z.inj_succ, Z.pow_succ_r in Hn, Hn' by lia.
  apply IH in E as [Hd E]; [|split; [apply Z.div_pos; lia|apply Z.div_lt_upper_bound; lia]..].
  injection E as Hm ->. apply digit_inj in Hm; [|apply Z.mod_pos_bound; lia..].
  split; [|done]. rewrite (Z.div_mod n 10), (Z.div_mod n' 10) by lia. lia.
Qed.

Section crash.
Context `{Sha256}.
Implicit Types (d : RehydratedCoreState) (effs : list ConsensusEffect) (st : SqliteConsensusStore)
  (sm : ControlPlaneStateMachine) (m : SnapshotMetadata).

(** Snapshots of different indices are in different files. *)
Lemma snapshot_file_inj m m' :
  0 <= included_index m <= i64_max -> 0 <= included_index m' <= i64_max ->
  snapshot_file m = snapshot_file m' -> included_index m = included_index m'.
Proof.
  intros Hm Hm' E. unfold snapshot_file, snapshot_file_name in E.
  apply (inj (String.append "snapshot-")) in E. unfold i64_max in *.
  apply decimal_inj in E as [E _]; [done| |]; cbn; lia.
Qed.

Lemma stage_keeps_file effs name : forall files staged,
  (forall m b, InstallSnapshot m b ∈ effs -> snapshot_file m <> name) ->
  (stage_snapshots files staged effs).1 !! name = files !! name.
Proof.
  induction effs as [|eff effs IH]; intros files staged Hne; [done|].
  assert (forall m b, InstallSnapshot m b ∈ effs -> snapshot_file m <> name) as Hrest
    by (intros m b Hin; apply (Hne m b); by right).
  destruct eff as [|m b| | | | | | |]; try by apply IH. cbn [stage_snapshots].
  destruct (decode_matching_snapshot m b) as [[s|]|]; [|done..].
  rewrite IH by done. apply lookup_insert_ne. apply (Hne m b). left.
Qed.

(** What can be on disk while a batch is being performed: the old tables with
    some of the staged files, the new tables with all files, or the result. *)
Inductive disk_state st sm effs : SqliteConsensusStore -> Prop :=
  | disk_staging k :
      disk_state st sm effs {| conn := conn st;
        snapshot_files := (stage_snapshots (snapshot_files st) None (take k effs)).1 |}
  | disk_committed files staged db :
      stage_snapshots (snapshot_files st) None effs = (files, mret staged) ->
      run_transaction (conn st) staged effs = mret db ->
      disk_state st sm effs {| conn := db; snapshot_files := files |}
  | disk_done : disk_state st sm effs (apply_durable_effects st sm effs).1.1.

Lemma stores_staging st d d' effs k :
  stores st d -> effects_storable d effs -> run_effects d effs = Some d' ->
  stores {| conn := conn st;
    snapshot_files := (stage_snapshots (snapshot_files st) None (take k effs)).1 |} d.
Proof.
  intros [(old & Ht) Hm Hrow Hfile] Hst Hrun. split; [by exists old|done..|].
  intros m b Hs. cbn. rewrite <- (Hfile m b Hs). apply stage_keeps_file. intros m' b' Hin E.
  assert (InstallSnapshot m' b' ∈ effs) as Hin' by (rewrite <- (take_drop k effs); apply elem_of_app; by left).
  pose proof (install_above _ _ _ _ _ (tb_inv _ _ _ Ht) Hrun Hin') as Habove.
  destruct (effects_storable_installs _ _ _ _ _ Hst Hrun Hin') as [Hi _ _ _].
  pose proof (di_commit _ (tb_inv _ _ _ Ht)) as Hcm. pose proof (tables_snapshot_range _ _ _ Ht) as Hr.
  unfold d_snapshot_index in *. rewrite Hs in *. cbn in *.
  apply snapshot_file_inj in E; lia.
Qed.

Lemma disk_state_stores st sm d d' effs st1 :
  stores st d -> live d sm -> effects_storable d effs -> run_effects d effs = Some d' ->
  rh_commit_index d' <= u32_max -> disk_state st sm effs st1 -> stores st1 d \/ stores st1 d'.
Proof.
  intros Hso Hlive Hst Hrun Hmax [k|files staged db Hsg Htx|].
  - left. by eapply stores_staging.
  - right. destruct (stores_batch _ _ _ _ _ _ Hso Hst Hrun Hsg) as (db' & Htx' & Hso' & _).
    rewrite Htx in Htx'. by injection Htx' as <-.
  - right. destruct (durable_batch _ _ _ _ _ Hso Hlive Hst Hrun Hmax) as (st' & sm' & rs & -> & ? & _).
    done.
Qed.
End crash.

(** ** Theorems *)

Section claims.
Context `{Sha256}.


(** C3. Crash recovery is exact. Whatever point of performing a batch a crash
    hits, recovery succeeds, and returns either the state and state machine
    before the batch or those after it. *)
Theorem crash_recovery st d d' sm effs disk :
  stores st d -> live d sm -> effects_storable d effs -> run_effects d effs = Some d' ->
  rh_commit_index d' <= u32_max -> disk_state st sm effs disk ->
  exists disk' r, load_and_verify_all disk = (disk', mret r)
    /\ (core_state r = d /\ recovered_state_machine r = sm
        \/ core_state r = d' /\ recovered_state_machine r = (apply_durable_effects st sm effs).1.2).
Proof.
  intros Hso Hlive Hst Hrun Hmax Hdisk.
  destruct (durable_batch _ _ _ _ _ Hso Hlive Hst Hrun Hmax) as (st' & sm' & rs & Hde & _ & Hlive' & _).
  destruct (disk_state_stores _ _ _ _ _ _ Hso Hlive Hst Hrun Hmax Hdisk) as [Hd|Hd];
    destruct (load_stored _ _ Hd) as (disk' & smr & Hload & Hlr & _);
    exists disk'; eexists; (split; [exact Hload|]); [left|right]; (split; [done|]).
  - by apply (live_unique d).
  - rewrite Hde. by apply (live_unique d').
Qed.
End claims.

(** ** A concrete batch *)

Definition empty_state : RehydratedCoreState := {|
  rh_current_term := 0; rh_voted_for := None; rh_commit_index := 0; rh_snapshot := None;
  rh_log_tail := [] |}.

Definition sample_disk : SqliteConsensusStore := {|
  conn := initialize_strict_schema (H := checksum_hasher) (conn empty_store);
  snapshot_files := snapshot_files empty_store |}.

Definition sample_stored_entry : RaftLogEntry := entry_new (H := checksum_hasher) 1 1 sample_proposal.

Definition sample_effects : list ConsensusEffect :=
  [PersistHardState 1 (Some 2); AppendLogEntries [sample_stored_entry];
   AdvanceCommitIndex 1 1 [sample_stored_entry]; LeaderSteppedDown 1 2].

Definition sample_after : RehydratedCoreState := {|
  rh_current_term := 1; rh_voted_for := Some 2; rh_commit_index := 1; rh_snapshot := None;
  rh_log_tail := [sample_stored_entry] |}.

Lemma empty_state_stored `{Sha256} :
  stores {| conn := initialize_strict_schema (conn empty_store);
            snapshot_files := snapshot_files empty_store |} empty_state.
Proof. split; [|done..]. exists []. by split. Qed.

Lemma empty_state_live `{Sha256} : live empty_state sm_new.
Proof. by exists sm_new, []. Qed.

Lemma effects_storable_cons `{Sha256} d eff effs :
  effect_storable d eff -> (forall d', apply_effect d eff = Some d' -> effects_storable d' effs) ->
  effects_storable d (eff :: effs).
Proof. intros He Hes. split; [done|]. destruct (apply_effect d eff); auto. Qed.

Lemma sample_effects_storable : effects_storable (H := checksum_hasher) empty_state sample_effects.
Proof.
  destruct sample_proposal_ok as [[Hk Hok] Hp].
  apply effects_storable_cons; [|intros ? _]. { split; [unfold i64_max; lia|done]. }
  apply effects_storable_cons; [|intros ? _].
  { apply Forall_singleton.
    split; [apply (entry_new_verifies (H := checksum_hasher))|by vm_compute..|exact Hk|by split]. }
  by do 2 (split; [done|destruct (apply_effect _ _); [|done]]).
Qed.

Lemma sample_effects_run : run_effects empty_state sample_effects = Some sample_after.
Proof. vm_compute. reflexivity. Qed.


Lemma crash_recovery_witness :
  exists disk' r, load_and_verify_all (H := checksum_hasher)
      (apply_durable_effects (H := checksum_hasher) sample_disk sm_new sample_effects).1.1
      = (disk', mret r)
    /\ (core_state r = empty_state /\ recovered_state_machine r = sm_new
        \/ core_state r = sample_after /\ recovered_state_machine r
             = (apply_durable_effects (H := checksum_hasher) sample_disk sm_new sample_effects).1.2).
Proof.
  apply (crash_recovery (H := checksum_hasher) sample_disk empty_state sample_after sm_new
    sample_effects); [apply empty_state_stored|apply empty_state_live|apply sample_effects_storable
    |exact sample_effects_run|by vm_compute|apply disk_done].
Defined.
