(* ===== verification/LocalSnapshot.v ===== *)
(** * LocalSnapshot: snapshots a replica takes of itself

    [create_snapshot] at the commit index and [compact_log_up_to] keep the store
    consistent: recovery still finds the same commit index and the same state
    machine, now from the snapshot, and the log above it. *)

From S2P Require Import Prelude Bytes Commands StateMachine Ledger Snapshot Replay Roster RaftTypes.
From S2P Require Import RaftCore RaftLog Durability Store StoreRefines StoreRecovery.

Section local.
Context `{Sha256}.
Implicit Types (d : RehydratedCoreState) (l : list RaftLogEntry) (s sm : ControlPlaneStateMachine)
  (st : SqliteConsensusStore) (b : bytes) (m : SnapshotMetadata).

(** The metadata of a state. *)
Definition meta_of sm (root : Z) : SnapshotMetadata :=
  {| included_index := last_applied_index sm; included_term := last_applied_term sm;
     state_root := root |}.

Lemma apply_log_term l : forall s s' outs,
  Forall entry_storable l -> 1 <= last_applied_term s <= i64_max \/ l <> [] ->
  apply_log s (triple <$> l) = Some (s', outs) -> 1 <= last_applied_term s' <= i64_max.
Proof.
  induction l as [|e l IH]; intros s s' outs Hl Hs.
  { intros [= <- <-]. by destruct Hs. }
  apply Forall_cons in Hl as [He Hl]. cbn [fmap list_fmap triple apply_log].
  intros ([s1 o] & H1 & ([s2 o2] & H2 & [= <- <-])%bind_Some)%bind_Some.
  eapply IH; [done| |done]. left.
  assert (last_applied_term s1 = e_term e) as ->; [|apply He].
  apply apply_committed_entry_inv in H1 as [_ [[_ ->]|(?&?&?&?&?&?&?&?&?)]]; done.
Qed.

Section holds.
Context (db : Database) (d : RehydratedCoreState) (old : list RaftLogEntry).
Context (Ht : tables db d old).

Lemma live_term sm : live d sm -> 1 <= rh_commit_index d -> 1 <= last_applied_term sm <= i64_max.
Proof.
  intros (s & outs & Hb & Hl) Hc. eapply apply_log_term; [|..|exact Hl].
  { apply (tables_range_storable _ _ _ Ht). }
  pose proof (tb_storable _ _ _ Ht) as Hs. unfold base_state in Hb.
  pose proof (di_commit _ (tb_inv _ _ _ Ht)) as Hcm.
  destruct (rh_snapshot d) as [[m b]|] eqn:E.
  - left. apply decode_matching_index in Hb as (_ & _ & -> & _). apply Hs.
  - right. assert (d_snapshot_index d = 0) as H0 by (unfold d_snapshot_index; by rewrite E).
    destruct (d_range_contiguous d (d_snapshot_index d) (rh_commit_index d)) as [_ Hlen];
      [apply (tb_inv _ _ _ Ht)|lia..|]. intros Hn. rewrite Hn in Hlen. cbn in Hlen. lia.
Qed.

Lemma snapshot_taken_inv m b : included_index m = rh_commit_index d -> d_inv (snapshot_taken d m b).
Proof.
  intros Hm. pose proof (tb_inv _ _ _ Ht) as [Hc Hcm]. unfold d_last in Hcm.
  split; unfold d_last, d_snapshot_index in *; cbn in *.
  - apply (contiguous_above _ _ _ Hc). rewrite Hm. lia.
  - rewrite Hm. lia.
Qed.

(** The rows of a store that took a snapshot but kept its log. *)
Lemma tables_taken m b row :
  included_index m = rh_commit_index d -> snapshot_storable m b -> sr_meta row = m ->
  0 <= sr_byte_len row ->
  tables (db <| consensus_snapshot := Some row |>) (snapshot_taken d m b)
    (old ++ d_range d (d_snapshot_index d) (rh_commit_index d)).
Proof.
  intros Hm Hs Hrow Hlen. pose proof (tb_inv _ _ _ Ht) as [Hc Hcm].
  assert ((old ++ d_range d (d_snapshot_index d) (rh_commit_index d))
    ++ rh_log_tail (snapshot_taken d m b) = old ++ rh_log_tail d) as Hall.
  { rewrite <- app_assoc. f_equal. cbn. rewrite (contiguous_filter_gt _ _ _ Hc), Hm.
    rewrite d_range_slice by (done || lia).
    replace (Z.to_nat (d_snapshot_index d - d_snapshot_index d)) with 0%nat by lia. rewrite drop_0.
    replace (Z.to_nat (rh_commit_index d + 1 - (d_snapshot_index d + 1)))
      with (Z.to_nat (rh_commit_index d - d_snapshot_index d)) by lia. apply take_drop. }
  destruct (d_range_contiguous d (d_snapshot_index d) (rh_commit_index d)) as [_ Hn]; [done|lia..|].
  destruct Ht. split; try rewrite Hall; try done.
  - by apply snapshot_taken_inv.
  - change (d_snapshot_index (snapshot_taken d m b)) with (included_index m). rewrite Hm, length_app.
    by replace (rh_commit_index d + 1 - _) with (d_snapshot_index d + 1 - Z.of_nat (length old)) by lia.
  - cbn. by rewrite Hrow.
Qed.
End holds.

(** A snapshot of the running state can be stored. *)
Lemma snapshot_of_live db d old sm b root :
  tables db d old -> live d sm -> 1 <= rh_commit_index d ->
  encode_snapshot sm = Some b -> Z.of_nat (length b) <= i64_max ->
  state_root_digest sm = Some root ->
  decode_snapshot b = Some (Ok sm) /\ snapshot_storable (meta_of sm root) b
  /\ included_index (meta_of sm root) = rh_commit_index d.
Proof.
  intros Ht Hlive Hc He Hlen Hroot. destruct (live_state _ _ _ Ht sm Hlive) as [Hs Hi].
  pose proof (tables_last _ _ _ Ht). pose proof (di_commit _ (tb_inv _ _ _ Ht)).
  assert (decode_snapshot b = Some (Ok sm)) as Hd.
  { eapply decode_encode_snapshot; [|done]. by apply log_state_wf. }
  split; [done|]. split; [|done]. split; [cbn; lia|by eapply live_term|done|].
  exists sm. split; [|done]. unfold decode_matching_snapshot. rewrite Hd, Hroot. cbn.
  by rewrite !bool_decide_eq_false_2 by (intros Hn; by apply Hn).
Qed.

Lemma create_stored st d sm b :
  stores st d -> live d sm -> 1 <= rh_commit_index d ->
  encode_snapshot sm = Some b -> Z.of_nat (length b) <= i64_max ->
  exists st' root, state_root_digest sm = Some root
    /\ create_snapshot st (last_applied_index sm) (last_applied_term sm) b
       = (st', mret (meta_of sm root))
    /\ stores st' (snapshot_taken d (meta_of sm root) b).
Proof.
  intros Hso Hlive Hc He Hlen. pose proof Hso as [(old & Ht) Hm Hrow Hfile].
  assert (exists root, state_root_digest sm = Some root) as [root Hroot].
  { unfold encode_snapshot in He. apply bind_Some in He as (body & _ & (root & ? & _)%bind_Some). eauto. }
  destruct (snapshot_of_live _ _ _ _ _ _ Ht Hlive Hc He Hlen Hroot) as (Hd & Hst & Hidx).
  pose proof Hst as [Hsi Hsti _ (s & Hsm & _)]. pose proof (decode_matching_length _ _ _ Hsm) as H76.
  set (m := meta_of sm root) in *.
  exists {| conn := conn st <| consensus_snapshot := Some (snapshot_row m b) |>;
    snapshot_files := retire_obsolete_snapshot_files (<[snapshot_file m := b]> (snapshot_files st))
      (snapshot_file m) |}, root. split; [done|]. split.
  - change (last_applied_index sm) with (included_index m).
    change (last_applied_term sm) with (included_term m).
    unfold create_snapshot. rewrite !bool_decide_eq_false_2 by lia. cbn [orb].
    rewrite Hd. unfold mret at 1, store_ret at 1. cbn [and_then].
    change (last_applied_index sm) with (included_index m).
    change (last_applied_term sm) with (included_term m).
    rewrite !bool_decide_eq_false_2 by (intros Hn; by apply Hn). cbn [orb].
    rewrite Hroot. cbn [fmap option_fmap option_map and_then conn].
    rewrite (read_hard_stored _ _ Hm (tb_hard _ _ _ Ht)). cbn [mbind store_bind mret store_ret hard_of].
    rewrite decide_False by lia. rewrite (read_snapshot_stored _ _ _ Ht).
    cbn [mbind store_bind mret store_ret].
    pose proof (di_commit _ (tb_inv _ _ _ Ht)) as Hcm.
    assert (match consensus_snapshot (conn st) with
      | Some prev => bool_decide (included_index m < included_index (sr_meta prev))
      | None => false end = false) as ->.
    { pose proof (tables_snapshot_index _ _ _ Ht) as Hx. unfold snapshot_row_index in Hx.
      destruct (consensus_snapshot (conn st)); [|done]. cbn in Hx. apply bool_decide_eq_false_2. lia. }
    change {| included_index := included_index m; included_term := included_term m;
      state_root := root |} with m.
    rewrite (upsert_stored _ _ _ _ _ _ _ Ht) by lia. reflexivity.
  - split; cbn.
    + exists (old ++ d_range d (d_snapshot_index d) (rh_commit_index d)).
      apply tables_taken; [done..|cbn; lia].
    + exact Hm.
    + done.
    + intros m' b' [= <- <-]. apply map_lookup_filter_Some. split; [apply lookup_insert_eq|done].
Qed.

Lemma compact_stored st d m b :
  stores st d -> rh_snapshot d = Some (m, b) ->
  exists st' deleted, compact_log_up_to st (included_index m) = (st', mret deleted) /\ stores st' d.
Proof.
  intros Hso Hs. pose proof Hso as [(old & Ht) Hm Hrow Hfile].
  pose proof (tables_snapshot_range _ _ _ Ht) as Hr.
  assert (d_snapshot_index d = included_index m) as Hi by (unfold d_snapshot_index; by rewrite Hs).
  unfold compact_log_up_to. case_decide; [eauto|].
  rewrite (read_snapshot_stored _ _ _ Ht), Hrow, Hs.
  cbn [mbind store_bind mret store_ret fmap option_fmap option_map uncurry].
  cbn [sr_meta snapshot_row]. rewrite decide_False by lia.
  destruct (drop_covered_stored _ _ _ Ht) as (db & Hdrop & Em & Es & Ht').
  unfold drop_covered in Hdrop. rewrite Hi, decide_True in Hdrop by lia. rewrite Hdrop.
  cbn [and_then]. eexists _, _. split; [reflexivity|].
  split; [exact Ht'|exact (eq_trans Em Hm)|exact (eq_trans Es Hrow)|exact Hfile].
Qed.
Lemma live_taken d m b sm :
  decode_matching_snapshot m b = mret sm -> rh_commit_index d = included_index m ->
  live (snapshot_taken d m b) sm.
Proof.
  intros Hd Hc. exists sm, []. split; [done|].
  change (d_snapshot_index (snapshot_taken d m b)) with (included_index m).
  change (rh_commit_index (snapshot_taken d m b)) with (rh_commit_index d).
  unfold d_range. rewrite Hc, list_filter_none; [done|]. intros e _. lia.
Qed.

Lemma encode_snapshot_length s b : encode_snapshot s = Some b -> Z.of_nat (length b) <= i64_max.
Proof.
  unfold encode_snapshot. intros (body & _ & (root & _ & Hb)%bind_Some)%bind_Some.
  case_decide; [|done]. cbv zeta in Hb. apply (inj Some) in Hb as <-. rewrite !length_app, !length_be_bytes.
  change (length SNAPSHOT_MAGIC) with 8%nat. unfold i64_max. width. lia.
Qed.

(** Taking a snapshot of the live state and compacting up to it. *)
Lemma take_and_compact st d sm b :
  stores st d -> live d sm -> 1 <= rh_commit_index d -> encode_snapshot sm = Some b ->
  exists st1 st2 deleted root, state_root_digest sm = Some root
    /\ create_snapshot st (last_applied_index sm) (last_applied_term sm) b = (st1, mret (meta_of sm root))
    /\ compact_log_up_to st1 (last_applied_index sm) = (st2, mret deleted)
    /\ stores st2 (snapshot_taken d (meta_of sm root) b)
    /\ live (snapshot_taken d (meta_of sm root) b) sm
    /\ included_index (meta_of sm root) = rh_commit_index d
    /\ 1 <= included_index (meta_of sm root) < u64_max.
Proof.
  intros Hso Hlive Hpos Henc. pose proof (encode_snapshot_length _ _ Henc) as Hlen.
  pose proof Hso as [(old & Ht) _ _ _].
  destruct (create_stored _ _ _ b Hso Hlive Hpos Henc Hlen) as (st1 & root & Hroot & Hcr & Hso1).
  destruct (snapshot_of_live _ _ _ _ _ _ Ht Hlive Hpos Henc Hlen Hroot) as (_ & Hst & Hidx).
  destruct (compact_stored _ _ (meta_of sm root) b Hso1 eq_refl) as (st2 & deleted & Hcp & Hso2).
  exists st1, st2, deleted, root. split_and!; try done; destruct Hst as [Hi _ _ (s & Hs & _)].
  - destruct (live_state _ _ _ Ht _ Hlive) as [Hls _]. apply live_taken; [|done].
    assert (s = sm) as <-; [|done]. apply decode_matching_index in Hs as (Hd & _).
    rewrite (decode_encode_snapshot sm b) in Hd by (done || by apply log_state_wf). by injection Hd.
  - apply Hi.
  - unfold i64_max in Hi. width. lia.
Qed.
End local.
