(* ===== verification/FailClosed.v ===== *)
(** * FailClosed: recovery from an arbitrary database

    Whatever the tables and the files hold, recovery either reports an error or
    returns a state in which every part has passed its check: the hard state
    and the snapshot match their digests, every row of the log is an intact
    entry, and the log is contiguous, starts where the snapshot ends and
    reaches the commit index. *)

From S2P Require Import Prelude Bytes Commands StateMachine Ledger Snapshot Replay Roster RaftTypes.
From S2P Require Import RaftCore RaftLog Durability Store StoreRefines StoreRecovery.

(** The column types: integers have 64 bits, blobs hold bytes. *)
Definition row_typed (ir : Z * LogRow) : Prop :=
  ir.1 <= i64_max /\ lr_term ir.2 <= i64_max /\ id16 (lr_idempotency_key ir.2)
  /\ byte_string (lr_payload_bytes ir.2).

Record db_typed (db : Database) : Prop := {
  dt_log i row : consensus_log db !! i = Some row -> row_typed (i, row);
  dt_meta row : consensus_meta db = Some row ->
    mt_current_term row <= i64_max /\ mt_commit_index row <= i64_max;
  dt_snapshot row : consensus_snapshot db = Some row -> included_index (sr_meta row) <= i64_max;
}.

Section closed.
Context `{Sha256}.
Implicit Types (d : RehydratedCoreState) (l : list RaftLogEntry) (e : RaftLogEntry)
  (sm : ControlPlaneStateMachine) (st : SqliteConsensusStore).

(** A row that hydrates is the row of the entry it hydrates to. *)
Lemma hydrate_inv i row e :
  row_typed (i, row) -> verify_and_hydrate_log_row i row = mret e ->
  (i, row) = stored_row e /\ entry_storable e.
Proof.
  intros (Hi & Ht & Hk & Hp). unfold verify_and_hydrate_log_row.
  do 2 (case_decide; [intros [=]|]). destruct (_ || _) eqn:Hz; [intros [=]|].
  apply orb_false_iff in Hz as [Hz1%bool_decide_eq_false Hz2%bool_decide_eq_false].
  destruct (negb _); [intros [=]|].
  destruct (from_wire_tag (lr_command_kind row)) as [f|] eqn:Hf; [|intros [=]].
  case_decide as Hsha; [intros [=]|].
  destruct (decode_command_body _ _ _) as [p|] eqn:Hd; [|intros [=]]. intros [= <-].
  apply decode_body_inv in Hd as (He & Hfam & Hkey & Hok & Hport); [|done].
  assert (lr_command_kind row = family_as_u8 f) as Hkind.
  { revert Hf. unfold from_wire_tag. repeat case_match; try done; by intros [= <-]. }
  unfold stored_row, row_of_entry. cbn in *. split.
  - rewrite Hfam, Hkey, He, <- Hkind. by destruct row.
  - split; [|cbn; lia|cbn; lia|cbn; congruence|done]. apply bool_decide_eq_true.
    unfold entry_digest. cbn [e_sha256 e_index e_term e_proposal]. by rewrite Hfam, Hkey, He.
Qed.

Lemma hydrate_rows_inv rows : forall l,
  Forall row_typed rows -> hydrate_rows rows = mret l ->
  rows = stored_row <$> l /\ Forall entry_storable l.
Proof.
  induction rows as [|[i row] rows IH]; intros l Hty; [by intros [= <-]|].
  apply Forall_cons in Hty as [Hi Hty]. cbn [hydrate_rows].
  destruct (verify_and_hydrate_log_row i row) as [[e|]|] eqn:He; [|intros [=]..]. cbn.
  destruct (hydrate_rows rows) as [[l'|]|] eqn:Hl; [|intros [=]..]. cbn. intros [= <-].
  destruct (IH l' Hty eq_refl) as [-> Hs]. destruct (hydrate_inv _ _ _ Hi He) as [-> He'].
  split; [done|by constructor].
Qed.

Lemma check_no_gap_some l : forall base,
  Forall entry_storable l -> check_no_gap (Some base) l = mret tt -> contiguous base l.
Proof.
  induction l as [|e l IH]; intros base Hs; [intros _; apply contiguous_nil|].
  apply Forall_cons in Hs as [He Hs]. cbn [check_no_gap]. destruct (_ && _) eqn:Hg; [intros [=]|].
  rewrite bool_decide_eq_true_2 in Hg by eauto. cbn in Hg.
  apply bool_decide_eq_false, dec_stable in Hg. injection Hg as ->.
  intros Hc%IH; [|done]. apply contiguous_cons. split; [done|].
  destruct He as [_ Hi _ _ _]. unfold saturating_add64, i64_max in *.
  replace (e_index e + 1) with (Z.min (e_index e + 1) u64_max) by (width; lia). exact Hc.
Qed.

Lemma check_no_gap_none e l :
  Forall entry_storable (e :: l) -> check_no_gap None (e :: l) = mret tt ->
  contiguous (e_index e) (e :: l).
Proof.
  intros Hs Hc. apply check_no_gap_some; [done|]. cbn [check_no_gap] in *.
  rewrite (bool_decide_eq_false_2 (Some _ <> _)), andb_false_r by (intros Hn; by apply Hn).
  rewrite bool_decide_eq_false_2 in Hc by (by intros [? ?]). exact Hc.
Qed.

(** The log that passed every check. *)
Lemma recover_tail_inv db commit included tail :
  (forall i row, consensus_log db !! i = Some row -> row_typed (i, row)) ->
  0 <= included <= i64_max -> recover_tail db commit included = mret tail ->
  contiguous (included + 1) tail /\ included <= commit <= included + Z.of_nat (length tail)
  /\ exists old, consensus_log db = rows_of (old ++ tail) /\ Forall entry_storable (old ++ tail)
       /\ Forall (fun e => e_index e <= included) old.
Proof.
  intros Hty Hinc. unfold recover_tail. case_decide as Hc; [intros [=]|].
  destruct (hydrate_rows _) as [[l|]|] eqn:Hl; [|intros [=]..]. cbn.
  destruct (check_no_gap None l) as [[[]|]|] eqn:Hg; [|intros [=]..]. cbn.
  destruct (match filter _ l with [] => _ | _ => _ end) eqn:Hfirst; [intros [=]|].
  case_decide as Hlast; [intros [=]|]. intros [= <-].
  apply hydrate_rows_inv in Hl as [Hrows Hs].
  2: { apply Forall_forall. intros [i row] Hin. by apply Hty, elem_of_btree_iter. }
  assert (consensus_log db = rows_of l) as Hlog.
  { unfold rows_of. rewrite <- Hrows. symmetry. apply list_to_map_btree_iter. }
  assert (exists old, l = old ++ filter (fun e => e_index e > included) l
    /\ Forall (fun e => e_index e <= included) old
    /\ contiguous (included + 1) (filter (fun e => e_index e > included) l)) as (old & Hsplit & Hold & Hcont).
  { destruct l as [|e l]; [exists []; split_and!; [done..|apply contiguous_nil]|].
    apply check_no_gap_none in Hg; [|done]. rewrite (contiguous_filter_gt _ _ _ Hg) in Hfirst |- *.
    set (k := Z.to_nat _) in *. exists (take k (e :: l)). split; [by rewrite take_drop|]. split.
    - apply Forall_forall. intros e' [i [Hi Hlt]%lookup_take_Some]%list_elem_of_lookup.
      rewrite (Hg _ _ Hi). lia.
    - pose proof (contiguous_drop _ _ k Hg) as Hd. destruct (drop k (e :: l)) as [|e1 l1]; [apply contiguous_nil|].
      apply bool_decide_eq_false, dec_stable in Hfirst. apply contiguous_cons in Hd as [He1 Hd].
      unfold saturating_add64, i64_max in *. assert (e_index e1 = included + 1) as E by (width; lia).
      apply contiguous_cons. split; [done|]. by rewrite <- E, He1. }
  split; [done|]. split.
  - destruct (last (filter _ l)) as [e|] eqn:He; cbn in Hlast; [|lia].
    pose proof (contiguous_last _ _ _ Hcont He). lia.
  - exists old. rewrite <- Hsplit. done.
Qed.

Lemma and_then_ok {S A B} (s s' : S) (m : store A) (k : A -> S * store B) (r : B) :
  and_then s m k = (s', mret r) -> exists a, m = mret a /\ k a = (s', mret r).
Proof. destruct m as [[a|]|]; cbn; [|intros [=]..]. eauto. Qed.

Lemma read_hard_inv db t v c :
  read_and_verify_hard_state db = mret (t, v, c) ->
  consensus_meta db = Some (hard_row (t, v, c)) /\ 0 <= t /\ 0 <= c.
Proof.
  unfold read_and_verify_hard_state. destruct (consensus_meta db) as [row|]; [|intros [=]].
  do 2 (case_decide; [intros [=]|]). case_decide; [intros [=]|].
  case_decide as Hsha; [intros [=]|]. intros [= <- <- <-]. split; [|lia].
  cbn. rewrite <- Hsha. by destruct row.
Qed.

Lemma load_snapshot_inv files row sm b :
  load_snapshot files row = mret (sm, b) ->
  files !! sr_file_name row = Some b /\ decode_matching_snapshot (sr_meta row) b = mret sm
  /\ sr_byte_len row = Z.of_nat (length b)
  /\ sr_snapshot_sha256 row = compute_snapshot_transfer_sha256 (included_index (sr_meta row))
       (included_term (sr_meta row)) (state_root (sr_meta row)) b.
Proof.
  unfold load_snapshot, decode_matching_snapshot.
  destruct (files !! sr_file_name row) as [b'|]; [|intros [=]].
  case_decide as Hlen; [intros [=]|]. case_decide as Hsha; [intros [=]|].
  destruct (decode_snapshot b') as [[s|]|] eqn:Hd; [|intros [=]..].
  destruct (state_root_digest s) as [root|] eqn:Hr; [|intros [=]]. cbn.
  destruct (_ || _) eqn:Hm; [intros [=]|]. intros [= <- <-]. rewrite Hd, Hr. cbn. by rewrite Hm.
Qed.

Lemma replay_committed_inv l : forall base s sm commit,
  contiguous base l -> replay_committed s commit l = mret sm ->
  exists outs, apply_log s (triple <$> filter (fun e => e_index e <= commit) l) = Some (sm, outs).
Proof.
  induction l as [|e l IH]; intros base s sm commit Hc; [intros [= <-]; by exists []|].
  apply contiguous_cons in Hc as [Hi Hc]. cbn [replay_committed]. rewrite filter_cons.
  destruct (decide (e_index e > commit)) as [Hgt|Hle].
  { rewrite decide_False by lia. rewrite list_filter_none; [intros [= <-]; by exists []|].
    intros e' [i He']%list_elem_of_lookup. rewrite (Hc _ _ He'). lia. }
  rewrite (decide_True (P := e_index e <= commit)) by lia. do 2 (case_decide; [intros [=]|]).
  cbn [fmap list_fmap triple apply_log].
  destruct (apply_committed_entry s _ _ _) as [[s1 o]|] eqn:Hone; [|intros [=]].
  intros [outs Ho]%(IH _ _ _ _ Hc). cbn. rewrite Ho. cbn. eauto.
Qed.

(** What [load_and_verify_all] checked of the snapshot. *)
Definition snapshot_checked st d : Prop :=
  match rh_snapshot d with
  | None => consensus_snapshot (conn st) = None
  | Some (m, b) => exists row sm, consensus_snapshot (conn st) = Some row /\ sr_meta row = m
      /\ snapshot_files st !! sr_file_name row = Some b /\ decode_matching_snapshot m b = mret sm
      /\ sr_byte_len row = Z.of_nat (length b)
      /\ sr_snapshot_sha256 row
         = compute_snapshot_transfer_sha256 (included_index m) (included_term m) (state_root m) b
  end.

(** The database reads of recovery, in order. *)
Lemma load_inv st st' r :
  load_and_verify_all st = (st', mret r) ->
  exists s, let d := core_state r in
    read_and_verify_hard_state (conn st) = mret (hard_of d)
    /\ snapshot_checked st d /\ base_state d s /\ 0 <= d_snapshot_index d
    /\ recover_tail (conn st) (rh_commit_index d) (d_snapshot_index d) = mret (rh_log_tail d)
    /\ replay_committed s (rh_commit_index d) (rh_log_tail d) = mret (recovered_state_machine r).
Proof.
  unfold load_and_verify_all. intros ([[t v] c] & Hh & E)%and_then_ok. rewrite Hh.
  apply and_then_ok in E as (row & Hrow & E). apply and_then_ok in E as ([s loaded] & Hload & E).
  cbv zeta in E. cbn [conn] in E.
  apply and_then_ok in E as (tail & Htail & E). apply and_then_ok in E as (db & Hdb & E).
  apply and_then_ok in E as (sm & Hsm & E). injection E as <- <-. exists s. cbv zeta. cbn.
  split; [done|]. unfold read_snapshot_row in Hrow.
  destruct row as [row|].
  - destruct (load_snapshot _ row) as [[[s1 b]|]|] eqn:Hls; [|done..]. cbn in Hload.
    injection Hload as -> <-. apply load_snapshot_inv in Hls as (Hf & Hd & Hlen & Hsha).
    destruct (consensus_snapshot (conn st)) as [row'|] eqn:Hcs; [|done].
    do 3 (case_decide; [done|]). injection Hrow as ->.
    unfold snapshot_checked, base_state, d_snapshot_index. cbn. rewrite Hcs.
    split; [by exists row, s|]. split; [done|]. split; [lia|done].
  - injection Hload as <- <-. destruct (consensus_snapshot (conn st)) as [row'|] eqn:Hcs.
    { do 3 (case_decide; [done|]). done. }
    unfold snapshot_checked, base_state, d_snapshot_index. cbn. rewrite Hcs. done.
Qed.

Lemma load_checked st st' r :
  db_typed (conn st) -> load_and_verify_all st = (st', mret r) ->
  let d := core_state r in
  d_inv d /\ consensus_meta (conn st) = Some (hard_row (hard_of d)) /\ snapshot_checked st d
  /\ (exists old, consensus_log (conn st) = rows_of (old ++ rh_log_tail d)
       /\ Forall entry_storable (old ++ rh_log_tail d)
       /\ Forall (fun e => e_index e <= d_snapshot_index d) old)
  /\ live d (recovered_state_machine r).
Proof.
  intros [Hlog Hmeta Hsnap] (s & Hh & Hsc & Hb & Hpos & Htail & Hrep)%load_inv. cbv zeta in *.
  set (d := core_state r) in *.
  assert (d_snapshot_index d <= i64_max) as Hmax.
  { unfold snapshot_checked, d_snapshot_index in *. destruct (rh_snapshot d) as [[m b]|]; [|done].
    destruct Hsc as (row & sm & Hrow & <- & _). by apply Hsnap. }
  destruct (recover_tail_inv _ _ _ _ Hlog (conj Hpos Hmax) Htail) as (Hcont & Hcm & Hold).
  apply read_hard_inv in Hh as [Hh _].
  split; [by split|]. split; [done|]. split; [done|]. split; [done|].
  destruct (replay_committed_inv _ _ _ _ _ Hcont Hrep) as [outs Ho]. exists s, outs.
  split; [done|]. rewrite <- Ho. do 2 f_equal. unfold d_range. apply list_filter_ext.
  intros e [i He]%list_elem_of_lookup. rewrite (Hcont _ _ He). lia.
Qed.
End closed.

(** ** Theorems *)

(** C16. Recovery fails closed. Whatever the database and the directory hold,
    if recovery succeeds then the recovered log starts right above the
    snapshot, has no gap and reaches the commit index; the hard-state row is
    the one whose digest covers the recovered term, vote and commit index; the
    table is exactly the recovered log below which only rows the snapshot
    covers remain, every entry intact and in range; the snapshot file has the
    recorded length and digest and decodes to the state its metadata names; and
    the state machine is the replay of the committed entries on it. *)
Theorem recovery_fails_closed `{Sha256} st st' r :
  db_typed (conn st) -> load_and_verify_all st = (st', mret r) ->
  let d := core_state r in
  d_inv d /\ consensus_meta (conn st) = Some (hard_row (hard_of d)) /\ snapshot_checked st d
  /\ (exists old, consensus_log (conn st) = rows_of (old ++ rh_log_tail d)
       /\ Forall entry_storable (old ++ rh_log_tail d)
       /\ Forall (fun e => e_index e <= d_snapshot_index d) old)
  /\ live d (recovered_state_machine r).
Proof. apply load_checked. Qed.

(** The disk after a batch. *)
Definition sample_disk_after : SqliteConsensusStore :=
  (apply_durable_effects (H := checksum_hasher) sample_disk sm_new sample_effects).1.1.

Definition sample_recovered : RecoveredConsensusState := {|
  core_state := sample_after;
  recovered_state_machine :=
    (apply_durable_effects (H := checksum_hasher) sample_disk sm_new sample_effects).1.2 |}.

Lemma sample_disk_typed : db_typed (conn sample_disk_after).
Proof.
  assert (consensus_log (conn sample_disk_after) = {[1 := row_of_entry sample_stored_entry]}) as Hl
    by (vm_compute; reflexivity).
  assert (consensus_meta (conn sample_disk_after)
    = Some (hard_row (H := checksum_hasher) (1, Some 2, 1))) as Hm by (vm_compute; reflexivity).
  assert (consensus_snapshot (conn sample_disk_after) = None) as Hs by (vm_compute; reflexivity).
  split.
  - intros i row. rewrite Hl. intros [<- <-]%lookup_singleton_Some. unfold row_typed.
    split; [by vm_compute|]. split; [by vm_compute|].
    split; [apply (proj1 (proj1 sample_proposal_ok))|].
    apply (bool_decide_unpack _). vm_compute. exact I.
  - intros row. rewrite Hm. intros Hrow. apply (inj Some) in Hrow as <-. cbn. unfold i64_max. lia.
  - intros row. by rewrite Hs.
Qed.

Lemma recovery_fails_closed_witness :
  let d := sample_after in
  d_inv d /\ consensus_meta (conn sample_disk_after) = Some (hard_row (H := checksum_hasher) (hard_of d))
  /\ snapshot_checked (H := checksum_hasher) sample_disk_after d
  /\ (exists old, consensus_log (conn sample_disk_after) = rows_of (old ++ rh_log_tail d)
       /\ Forall (entry_storable (H := checksum_hasher)) (old ++ rh_log_tail d)
       /\ Forall (fun e => e_index e <= d_snapshot_index d) old)
  /\ live (H := checksum_hasher) d (recovered_state_machine sample_recovered).
Proof.
  apply (recovery_fails_closed (H := checksum_hasher) sample_disk_after
    (load_and_verify_all (H := checksum_hasher) sample_disk_after).1 sample_recovered);
    [exact sample_disk_typed|vm_compute; reflexivity].
Defined.

