(* ===== verification/SingleNode.v ===== *)
(** * SingleNode: the single-host consensus node

    Models nlos-consensus/src/single_node.rs: a replica that is its own quorum,
    its SQLite store and its state machine, composed as the source composes
    them. The node invariant says that the three agree; every operation keeps
    it, every proposal is committed, and a node reopened after a crash at any
    point of a proposal is the node before or the node after it. *)

From S2P Require Import Prelude Bytes Commands StateMachine Ledger Snapshot Replay Roster RaftTypes.
From S2P Require Import RaftCore RaftLog Durability Store StoreRefines StoreRecovery LocalSnapshot.

(** ** Errors *)

Inductive ConsensusError :=
  | Config (e : ConsensusConfigError)
  | ScopeViolation (e : ScopeViolationError)
  | ConsensusProposalRejected (reason : ProposalRejectReason)
  | StoreError (e : ConsensusStoreError)
  | TransportInit
  | ProposalTimeout
  | DriverFatal (message : ConsensusStoreError)
  | NodeShutDown.

(** A node computation; [None] is a panic. *)
Definition node (A : Type) : Type := option (result ConsensusError A).

Definition of_result {E A} (f : E -> ConsensusError) (r : result E A) : node A :=
  Some match r with Ok a => Ok a | Err e => Err (f e) end.
Definition of_store {A} (m : store A) : node A :=
  match m with Some r => of_result StoreError r | None => None end.

(** The [?] operator in an operation on the state [s], which an error leaves at [s]. *)
Definition node_then {S A B} (s : S) (m : node A) (k : A -> S * node B) : S * node B :=
  match m with
  | Some (Ok a) => k a
  | Some (Err e) => (s, Some (Err e))
  | None => (s, None)
  end.

(** ** The node *)

Record SingleHostInner := {
  sn_store : SqliteConsensusStore;
  sn_core : ConsensusCore;
  sn_state_machine : ControlPlaneStateMachine;
  sn_latest_durable_snapshot : option (SnapshotMetadata * bytes);
}.

Section node.
Context `{Sha256}.
Implicit Types (n : SingleHostInner) (disk : SqliteConsensusStore).

(** The directory after opening, and the node. *)
Definition single_open (wal : option bytes) disk (local_cell local_domain : Z) :
    SqliteConsensusStore * node SingleHostInner :=
  node_then disk (of_result Config (roster_new
    [{| cell_identity := local_cell; control_domain_id := local_domain |}])) (fun roster =>
  let '(disk, recovered) := open_or_recover wal disk in
  node_then disk (of_store recovered) (fun recovered =>
  let fresh := bool_decide (rh_current_term (core_state recovered) = 0) in
  let '(disk, persisted) :=
    if fresh then persist_hard_state disk 1 (Some local_cell) else (disk, mret tt) in
  node_then disk (of_store persisted) (fun _ =>
  let state :=
    if fresh
    then core_state recovered <| rh_current_term := 1 |> <| rh_voted_for := Some local_cell |>
    else core_state recovered in
  node_then disk (of_result Config (rehydrate local_cell roster timing_default state)) (fun core =>
  (disk, Some (Ok {| sn_store := disk; sn_core := core;
                     sn_state_machine := recovered_state_machine recovered;
                     sn_latest_durable_snapshot := rh_snapshot state |})))))).

Definition single_propose n (proposal : ControlPlaneProposal) :
    SingleHostInner * node ConsensusCommitReceipt :=
  let '(core, effects) := step (sn_core n) (Propose proposal None) in
  let '(disk, sm, receipts) := apply_durable_effects (sn_store n) (sn_state_machine n) effects in
  let n := {| sn_store := disk; sn_core := core; sn_state_machine := sm;
              sn_latest_durable_snapshot := sn_latest_durable_snapshot n |} in
  node_then n (of_store receipts) (fun receipts =>
  match last receipts with
  | Some (_, receipt) => (n, Some (Ok receipt))
  | None => (n, Some (Err (StoreError (IntegrityCorrupted "single-host proposal produced no receipt"))))
  end).

Definition single_propose_wire n (wire_frame : bytes) :
    SingleHostInner * node ConsensusCommitReceipt :=
  node_then n (of_result ScopeViolation (decode_wire wire_frame)) (single_propose n).

(** A snapshot of the state machine, by its [encode_snapshot]. *)
Definition take_snapshot n : SqliteConsensusStore * node (SnapshotMetadata * bytes) :=
  match encode_snapshot (sn_state_machine n) with
  | None => (sn_store n, None)
  | Some b =>
      let '(disk, meta) := create_snapshot (sn_store n) (last_applied_index (sn_state_machine n))
                             (last_applied_term (sn_state_machine n)) b in
      node_then disk (of_store meta) (fun meta => (disk, Some (Ok (meta, b))))
  end.

Definition with_store n disk : SingleHostInner := {|
  sn_store := disk; sn_core := sn_core n; sn_state_machine := sn_state_machine n;
  sn_latest_durable_snapshot := sn_latest_durable_snapshot n |}.

Definition create_snapshot_only n : SingleHostInner * node SnapshotMetadata :=
  let '(disk, taken) := take_snapshot n in
  node_then (with_store n disk) taken (fun '(meta, b) =>
  ({| sn_store := disk; sn_core := sn_core n; sn_state_machine := sn_state_machine n;
      sn_latest_durable_snapshot := Some (meta, b) |}, Some (Ok meta))).

Definition single_compact_log_up_to n (up_to_index : Z) : SingleHostInner * node nat :=
  let '(disk, deleted) := compact_log_up_to (sn_store n) up_to_index in
  node_then (with_store n disk) (of_store deleted) (fun deleted =>
  ({| sn_store := disk;
      sn_core := match sn_latest_durable_snapshot n with
                 | Some (meta, b) => (record_local_snapshot (sn_core n) meta b up_to_index).1
                 | None => sn_core n
                 end;
      sn_state_machine := sn_state_machine n;
      sn_latest_durable_snapshot := sn_latest_durable_snapshot n |}, Some (Ok deleted))).

Definition create_snapshot_and_compact n : SingleHostInner * node SnapshotMetadata :=
  let '(disk, taken) := take_snapshot n in
  node_then (with_store n disk) taken (fun '(meta, b) =>
  let up_to := last_applied_index (sn_state_machine n) in
  let '(disk, deleted) := compact_log_up_to disk up_to in
  node_then (with_store n disk) (of_store deleted) (fun _ =>
  ({| sn_store := disk; sn_core := (record_local_snapshot (sn_core n) meta b up_to).1;
      sn_state_machine := sn_state_machine n;
      sn_latest_durable_snapshot := Some (meta, b) |}, Some (Ok meta)))).
End node.

(** ** The invariant of an open node *)

Section invariant.
Context `{Sha256} (local domain : Z).
Implicit Types (n : SingleHostInner) (c : ConsensusCore) (d : RehydratedCoreState).

(** The roster of a node that is alone. *)
Definition solo : ValidatedVoterRoster :=
  {| members := [{| cell_identity := local; control_domain_id := domain |}] |}.

Lemma solo_new : roster_new [{| cell_identity := local; control_domain_id := domain |}] = Ok solo.
Proof.
  unfold roster_new, check_voters. cbn [length cell_identity].
  rewrite decide_False by apply not_elem_of_empty. done.
Qed.

Lemma solo_domain : domain_of solo local = Some domain.
Proof. unfold domain_of, solo. cbn. by rewrite bool_decide_eq_true_2. Qed.

(** A replica that leads its own quorum of one. *)
Record solo_core c : Prop := {
  sc_inv : core_inv c;
  sc_conf : core_conf c;
  sc_view : conf_view c = (local, domain, solo, timing_default);
  sc_leader : role c = Leader;
  sc_term : 1 <= current_term c;
  sc_vote : voted_for c = Some local;
}.

(** The replica, the store and the state machine agree. *)
Record node_ok n : Prop := {
  no_core : solo_core (sn_core n);
  no_store : stores (sn_store n) (abs (sn_core n));
  no_live : live (abs (sn_core n)) (sn_state_machine n);
}.

Lemma abs_eq c t v k s l :
  current_term c = t -> voted_for c = v -> commit_index c = k -> log_tail c = l ->
  snapshot_meta c = fst <$> s -> snapshot_bytes c = snd <$> s ->
  abs c = {| rh_current_term := t; rh_voted_for := v; rh_commit_index := k; rh_snapshot := s;
             rh_log_tail := l |}.
Proof.
  intros <- <- <- <- Hm Hb. unfold abs. rewrite Hm, Hb. by destruct s as [[]|].
Qed.

(** A replica with the state of storage, which it has committed in full. *)
Lemma solo_core_of d c :
  d_inv d -> rh_commit_index d = d_last d -> 1 <= rh_current_term d ->
  match rh_snapshot d with Some (m, _) => 1 <= included_index m < u64_max | None => True end ->
  snapshot_meta c = fst <$> rh_snapshot d -> snapshot_bytes c = snd <$> rh_snapshot d ->
  log_tail c = rh_log_tail d -> commit_index c = last_log_index c ->
  current_term c = Z.max (rh_current_term d) 1 -> voted_for c = Some local -> role c = Leader ->
  conf_view c = (local, domain, solo, timing_default) -> rh_voted_for d = Some local ->
  solo_core c /\ abs c = d.
Proof.
  intros Hd Hlast Ht Hs Em Eb El Ec Et Ev Er Ef Hv. pose proof (di_commit _ Hd) as Hcm.
  assert (snapshot_index c = d_snapshot_index d) as Hsn.
  { unfold snapshot_index, d_snapshot_index. rewrite Em. by destruct (rh_snapshot d). }
  assert (last_log_index c = rh_commit_index d) as Hll.
  { unfold last_log_index. fold (snapshot_index c). rewrite El, Hsn, Hlast. unfold d_last.
    destruct (last (rh_log_tail d)) as [e|] eqn:He.
    - rewrite (contiguous_last _ _ _ (di_contiguous _ Hd) He). lia.
    - apply last_None in He. rewrite He. cbn. lia. }
  assert (core_conf c) as Hcf.
  { injection Ef as E1 E2 E3 _. split; rewrite E3; [apply (roster_new_wf _ _ solo_new)|].
    rewrite E1, E2. exact solo_domain. }
  split; [split; [split|..]; try done|].
  - rewrite Em. destruct (rh_snapshot d) as [[]|]; done.
  - rewrite Em, Eb. destruct (rh_snapshot d) as [[]|]; cbn; split; intros [? ?]; eauto; done.
  - rewrite Hsn, El. apply (di_contiguous _ Hd).
  - rewrite Ec, Hll, Hsn. lia.
  - rewrite Et. lia.
  - rewrite (abs_eq c (rh_current_term d) (rh_voted_for d) (rh_commit_index d) (rh_snapshot d)
      (rh_log_tail d)); [by destruct d|lia|congruence|congruence|done..].
Qed.

(** Rebuilding the replica from storage. *)
Lemma rehydrate_solo d :
  d_inv d -> rh_commit_index d = d_last d -> 1 <= rh_current_term d -> rh_voted_for d = Some local ->
  match rh_snapshot d with Some (m, _) => 1 <= included_index m < u64_max | None => True end ->
  exists c, rehydrate local solo timing_default d = Ok c /\ solo_core c /\ abs c = d.
Proof.
  intros Hd Hlast Ht Hv Hs. unfold rehydrate, core_new. rewrite solo_domain.
  assert (timing_validate timing_default = Ok timing_default) as -> by reflexivity.
  rewrite !decide_True by reflexivity. eexists. split; [reflexivity|].
  apply solo_core_of; [exact Hd|exact Hlast|exact Ht|exact Hs|reflexivity..|exact Hv].
Qed.
End invariant.

(** ** Opening *)

Section opening.
Context `{Sha256} (local domain : Z).
Implicit Types (n : SingleHostInner) (c : ConsensusCore) (d : RehydratedCoreState)
  (disk : SqliteConsensusStore).

Lemma persist_stored disk d d' t v :
  stores disk d -> effect_storable d (PersistHardState t v) ->
  apply_effect d (PersistHardState t v) = Some d' ->
  exists disk', persist_hard_state disk t v = (disk', mret tt) /\ stores disk' d'.
Proof.
  intros [(old & Ht) Hm Hrow Hfile] [Hti Hv] He. pose proof (tb_hard _ _ _ Ht) as (? & ? & ?).
  destruct (apply_effect_safe _ _ (tb_inv _ _ _ Ht) _ He) as [Hd' Hlater].
  assert (hard_of d' = (t, v, rh_commit_index d) /\ rh_snapshot d' = rh_snapshot d
    /\ rh_log_tail d' = rh_log_tail d) as (Eh & Es & El).
  { cbn [apply_effect] in He. destruct (_ || _); [done|]. by injection He as <-. }
  assert (hard_ok (hard_of d')) as Hok by (by rewrite Eh).
  unfold persist_hard_state. rewrite (read_hard_stored _ _ Hm (tb_hard _ _ _ Ht)).
  cbn [mbind store_bind mret store_ret hard_of].
  rewrite (write_hard_stored _ _ _ _ _ Hm); [|by rewrite <- Eh|rewrite <- Eh; by apply d_later_hard].
  eexists. split; [reflexivity|]. rewrite <- Eh. split; cbn [conn snapshot_files].
  - exists old. apply tables_meta. destruct Ht. unfold d_snapshot_index in *.
    split; unfold d_snapshot_index; rewrite ?Es, ?El; done.
  - done.
  - by rewrite Es.
  - intros m b. rewrite Es. apply Hfile.
Qed.

Lemma initialize_stored disk d :
  stores disk d -> {| conn := initialize_strict_schema (conn disk); snapshot_files := snapshot_files disk |} = disk.
Proof. intros [_ Hm _ _]. unfold initialize_strict_schema. rewrite Hm. by destruct disk. Qed.

Lemma tables_snapshot_below db d old :
  tables db d old ->
  match rh_snapshot d with Some (m, _) => 1 <= included_index m < u64_max | None => True end.
Proof.
  intros Ht. pose proof (tb_storable _ _ _ Ht) as Hs. destruct (rh_snapshot d) as [[m b]|]; [|done].
  destruct Hs as [Hi _ _ _]. unfold i64_max in Hi. width. lia.
Qed.

(** A node reopens as it was. *)
Lemma reopen_stored wal disk c :
  verify_wal_header_if_present wal = mret tt -> solo_core local domain c -> stores disk (abs c) ->
  exists n', single_open wal disk local domain = (sn_store n', Some (Ok n'))
    /\ node_ok local domain n' /\ abs (sn_core n') = abs c
    /\ sn_latest_durable_snapshot n' = rh_snapshot (abs c).
Proof.
  intros Hwal [Hc Hcf Hview Hrole Hterm Hvote] Hso. pose proof Hso as [(old & Ht) _ _ _].
  unfold single_open. rewrite solo_new. cbn [of_result node_then].
  unfold open_or_recover. rewrite Hwal. unfold mret, store_ret. cbn [and_then].
  rewrite (initialize_stored _ _ Hso).
  destruct (load_stored _ _ Hso) as (disk' & sm & -> & Hlive & Hso').
  unfold of_store, mret, store_ret. cbn [of_result node_then core_state recovered_state_machine].
  change (rh_current_term (abs c)) with (current_term c).
  rewrite bool_decide_eq_false_2 by lia. cbn [of_result node_then].
  destruct (rehydrate_solo local domain (abs c)) as (c' & -> & Hc' & Habs).
  - by apply d_inv_abs.
  - rewrite d_last_abs by done. apply (ci_single c Hc). injection Hview as _ _ -> _. reflexivity.
  - done.
  - done.
  - by eapply tables_snapshot_below.
  - exists {| sn_store := disk'; sn_core := c'; sn_state_machine := sm;
              sn_latest_durable_snapshot := rh_snapshot (abs c) |}.
    split; [reflexivity|]. split; [|done].
    split; cbn [sn_core sn_store sn_state_machine]; [done|by rewrite Habs..].
Qed.

(** A fresh directory opens as an empty node in term 1. *)
Lemma first_open wal :
  verify_wal_header_if_present wal = mret tt -> local <> 0 ->
  exists n', single_open wal empty_store local domain = (sn_store n', Some (Ok n'))
    /\ node_ok local domain n' /\ commit_index (sn_core n') = 0 /\ sn_state_machine n' = sm_new
    /\ sn_latest_durable_snapshot n' = None.
Proof.
  intros Hwal Hlocal. unfold single_open. rewrite solo_new. cbn [of_result node_then].
  unfold open_or_recover. rewrite Hwal. unfold mret, store_ret. cbn [and_then].
  destruct (load_stored _ _ empty_state_stored) as (disk' & sm & -> & Hlive & Hso').
  unfold of_store, mret, store_ret. cbn [of_result node_then core_state recovered_state_machine].
  rewrite bool_decide_eq_true_2 by done.
  set (d1 := empty_state <| rh_current_term := 1 |> <| rh_voted_for := Some local |>).
  destruct (persist_stored disk' empty_state d1 1 (Some local) Hso') as (disk'' & Hp & Hso'').
  { split; [unfold i64_max; lia|]. by intros [= ->]. }
  { reflexivity. }
  rewrite Hp. unfold mret, store_ret. cbn [of_result node_then]. pose proof Hso'' as [(old & Ht) _ _ _].
  destruct (rehydrate_solo local domain d1) as (c' & -> & Hc' & Habs);
    [apply (tb_inv _ _ _ Ht)|done..|]. cbn [of_result node_then].
  assert (live d1 sm) as Hlive1 by exact Hlive.
  assert (sm = sm_new) as Hsm.
  { apply (live_unique d1); [done|]. exists sm_new, []. done. }
  exists {| sn_store := disk''; sn_core := c'; sn_state_machine := sm;
            sn_latest_durable_snapshot := None |}.
  split; [reflexivity|]. split; [|split; [|done]].
  - split; cbn [sn_core sn_store sn_state_machine]; [done|by rewrite Habs..].
  - change (rh_commit_index (abs c') = 0). by rewrite Habs.
Qed.
End opening.

(** ** Proposing *)

Section proposing.
Context `{Sha256} (local domain : Z).
Implicit Types (n : SingleHostInner) (c : ConsensusCore) (p : ControlPlaneProposal).

Definition solo_entry c p : RaftLogEntry := entry_new (commit_index c + 1) (current_term c) p.
Definition solo_effects c p : list ConsensusEffect :=
  [AppendLogEntries [solo_entry c p];
   AdvanceCommitIndex (commit_index c + 1) (current_term c) [solo_entry c p]].

(** A leader that is alone commits at once. *)
Lemma solo_step c p :
  solo_core local domain c -> commit_index c < u64_max ->
  exists c', step c (Propose p None) = (c', solo_effects c p) /\ solo_core local domain c'
    /\ run_effects (abs c) (solo_effects c p) = Some (abs c')
    /\ commit_index c' = commit_index c + 1 /\ current_term c' = current_term c
    /\ log_tail c' = log_tail c ++ [solo_entry c p] /\ snapshot_meta c' = snapshot_meta c.
Proof.
  intros [Hc Hcf Hview Hrole Hterm Hvote] Hmax.
  assert (roster_len (roster c) = 1%nat) as Hone by (injection Hview as _ _ -> _; reflexivity).
  pose proof (ci_single c Hc Hone) as Hlast.
  assert (input_ok c (Propose p None)) as Hin by (cbn; lia).
  pose proof (step_synced c (Propose p None) Hc Hcf Hin) as Hsync.
  cbn [step] in *. unfold on_propose, check_leader_gate in *.
  rewrite decide_False in * by (intros Hn; by apply Hn).
  rewrite decide_True in * by exact Hone.
  assert (saturating_add64 (last_log_index c) 1 = commit_index c + 1) as Hni
    by (unfold saturating_add64; lia).
  rewrite Hni in *. fold (solo_entry c p) in *. cbn [app] in *.
  eexists. split; [reflexivity|]. destruct Hsync as (Hc' & Hv' & Hrun). cbn [fst snd] in *.
  split; [|split; [exact Hrun|done]].
  split; [exact Hc'|by eapply core_conf_frame|by rewrite Hv'|exact Hrole|exact Hterm|exact Hvote].
Qed.

Lemma solo_storable disk c p :
  solo_core local domain c -> stores disk (abs c) -> proposal_ok p -> command_portable (command p) ->
  commit_index c < u32_max -> effects_storable (abs c) (solo_effects c p).
Proof.
  intros [Hc _ _ _ Hterm _] [(old & Ht) _ _ _] [Hk Hok] Hp Hmax.
  pose proof (tb_hard _ _ _ Ht) as (Ht1 & _ & Hc1). cbn in Ht1, Hc1.
  unfold solo_effects. cbn [effects_storable effect_storable]. split.
  - apply Forall_singleton. split; [apply entry_new_verifies| |cbn; lia|done|done].
    cbn. unfold i64_max. width. lia.
  - destruct (apply_effect (abs c) _); [|done]. split; [done|]. by destruct (apply_effect _ _).
Qed.

(** What a proposal to an open node does. *)
Lemma propose_stored n p :
  node_ok local domain n -> proposal_ok p -> command_portable (command p) ->
  commit_index (sn_core n) < u32_max ->
  exists n' receipt, single_propose n p = (n', Some (Ok receipt)) /\ node_ok local domain n'
    /\ commit_index (sn_core n') = commit_index (sn_core n) + 1
    /\ sn_latest_durable_snapshot n' = sn_latest_durable_snapshot n
    /\ acknowledges (sn_state_machine n) [(solo_entry (sn_core n) p, receipt)] (sn_state_machine n').
Proof.
  intros [Hc Hso Hlive] Hok Hp Hmax. set (c := sn_core n) in *.
  destruct (solo_step c p Hc) as (c' & Hstep & Hc' & Hrun & Hk & Ht & Hl & Hm); [width; lia|].
  pose proof (solo_storable _ _ _ Hc Hso Hok Hp Hmax) as Hst.
  destruct (durable_batch _ _ _ _ _ Hso Hlive Hst Hrun) as (disk & sm & rs & Hde & Hso' & Hlive' & Hfst & Hack).
  { change (commit_index c' <= u32_max). lia. }
  change (delivery_base (abs c) (solo_effects c p)) with (commit_index c) in Hfst.
  change (batch_machine (sn_state_machine n) (solo_effects c p)) with (sn_state_machine n) in Hack.
  change (rh_commit_index (abs c')) with (commit_index c') in Hfst. rewrite Hk in Hfst.
  assert (d_range (abs c') (commit_index c) (commit_index c + 1) = [solo_entry c p]) as Hr.
  { unfold d_range. cbn [rh_log_tail abs]. rewrite Hl, filter_app, list_filter_none.
    - cbn [app]. by rewrite filter_cons_True by (cbn; lia).
    - intros e [i Hi]%list_elem_of_lookup. pose proof (lookup_lt_Some _ _ _ Hi).
      rewrite (ci_contiguous c (sc_inv _ _ _ Hc) _ _ Hi).
      assert (roster_len (roster c) = 1%nat) as Hone
        by (pose proof (sc_view _ _ _ Hc) as Hv; injection Hv as _ _ -> _; reflexivity).
      rewrite (ci_single c (sc_inv _ _ _ Hc) Hone), last_log_index_length by apply Hc. lia. }
  rewrite Hr in Hfst. destruct rs as [|[e r] [|]]; try done. injection Hfst as ->.
  eexists {| sn_store := disk; sn_core := c'; sn_state_machine := sm;
    sn_latest_durable_snapshot := sn_latest_durable_snapshot n |}, r.
  split; [|by split_and!]. unfold single_propose. fold c. rewrite Hstep, Hde. reflexivity.
Qed.
End proposing.

(** ** Compacting *)

Section compacting.
Context `{Sha256} (local domain : Z).
Implicit Types (n : SingleHostInner) (c : ConsensusCore) (m : SnapshotMetadata) (b : bytes).

(** The replica drops what its own snapshot covers. *)
Lemma record_solo c m b :
  solo_core local domain c -> included_index m = commit_index c -> 1 <= included_index m < u64_max ->
  solo_core local domain (record_local_snapshot c m b (included_index m)).1
  /\ abs (record_local_snapshot c m b (included_index m)).1 = snapshot_taken (abs c) m b.
Proof.
  intros [Hc Hcf Hview Hrole Hterm Hvote] Hm Hi.
  destruct (record_local_inv c m b Hc Hm Hi) as (Hc' & Hv & Habs & _). split; [|exact Habs].
  unfold voting_view in Hv. injection Hv as Er Et Ev _ Ed Edom Ero Eti.
  assert (conf_view (record_local_snapshot c m b (included_index m)).1 = conf_view c) as Ec
    by (unfold conf_view; congruence).
  split; [done|by eapply core_conf_frame|by rewrite Ec|congruence|by rewrite Et|congruence].
Qed.

Lemma compact_node n b :
  node_ok local domain n -> 1 <= commit_index (sn_core n) ->
  encode_snapshot (sn_state_machine n) = Some b ->
  exists n' root, create_snapshot_and_compact n = (n', Some (Ok (meta_of (sn_state_machine n) root)))
    /\ state_root_digest (sn_state_machine n) = Some root /\ node_ok local domain n'
    /\ sn_state_machine n' = sn_state_machine n
    /\ abs (sn_core n') = snapshot_taken (abs (sn_core n)) (meta_of (sn_state_machine n) root) b.
Proof.
  intros [Hc Hso Hlive] Hpos Henc.
  destruct (take_and_compact _ _ _ _ Hso Hlive Hpos Henc)
    as (disk & disk' & deleted & root & Hroot & Hcr & Hcp & Hso2 & Hlive2 & Hidx & Hi).
  set (m := meta_of (sn_state_machine n) root) in *.
  destruct (record_solo _ m b Hc Hidx Hi) as [Hc' Habs].
  exists {| sn_store := disk'; sn_core := (record_local_snapshot (sn_core n) m b (included_index m)).1;
    sn_state_machine := sn_state_machine n; sn_latest_durable_snapshot := Some (m, b) |}, root.
  split; [|split; [done|split; [|done]]].
  - unfold create_snapshot_and_compact, take_snapshot. rewrite Henc, Hcr. unfold mret, store_ret.
    cbn [of_store of_result node_then]. rewrite Hcp. reflexivity.
  - split; cbn [sn_core sn_store sn_state_machine]; [done|by rewrite Habs..].
Qed.
End compacting.

(** ** Runs of a node *)

Section runs.
Context `{Sha256} (local domain : Z).
Implicit Types (n : SingleHostInner) (p : ControlPlaneProposal) (disk : SqliteConsensusStore).

(** What the wire decoder guarantees of a proposal, and room in the log. *)
Definition proposable n p : Prop :=
  proposal_ok p /\ command_portable (command p) /\ commit_index (sn_core n) < u32_max.

(** The effects of proposing [p]. *)
Definition propose_effects n p : list ConsensusEffect := (step (sn_core n) (Propose p None)).2.

(** A node opened on an empty directory, then used, compacted, and restarted
    after a crash at any point of a proposal. *)
Inductive node_reachable : SingleHostInner -> Prop :=
  | nr_open wal disk n :
      verify_wal_header_if_present wal = mret tt ->
      single_open wal empty_store local domain = (disk, Some (Ok n)) -> node_reachable n
  | nr_propose n p n' r :
      node_reachable n -> proposable n p -> single_propose n p = (n', r) -> node_reachable n'
  | nr_compact n n' meta :
      node_reachable n -> create_snapshot_and_compact n = (n', Some (Ok meta)) -> node_reachable n'
  | nr_crash n p wal disk disk' n' :
      node_reachable n -> proposable n p ->
      disk_state (sn_store n) (sn_state_machine n) (propose_effects n p) disk ->
      verify_wal_header_if_present wal = mret tt ->
      single_open wal disk local domain = (disk', Some (Ok n')) -> node_reachable n'.

Lemma compact_node_ok n n' meta :
  node_ok local domain n -> create_snapshot_and_compact n = (n', Some (Ok meta)) ->
  node_ok local domain n'.
Proof.
  intros Hn Hcomp. pose proof Hn as [Hc Hso Hlive]. pose proof Hso as [(old & Ht) _ _ _].
  destruct (live_state _ _ _ Ht _ Hlive) as [_ Hi]. change (rh_commit_index _) with (commit_index (sn_core n)) in Hi.
  pose proof (ci_commit _ (sc_inv _ _ _ Hc)) as Hcm.
  pose proof (snapshot_index_range _ (sc_inv _ _ _ Hc)) as Hsi.
  destruct (encode_snapshot (sn_state_machine n)) as [b|] eqn:Henc.
  2: { unfold create_snapshot_and_compact, take_snapshot in Hcomp. rewrite Henc in Hcomp. done. }
  destruct (decide (1 <= commit_index (sn_core n))) as [Hpos|Hzero].
  - destruct (compact_node _ _ n b Hn Hpos Henc)
      as (n1 & root & Hrun & _ & Hn1 & _). rewrite Hrun in Hcomp. by injection Hcomp as <-.
  - unfold create_snapshot_and_compact, take_snapshot, create_snapshot in Hcomp.
    rewrite Henc, bool_decide_eq_true_2 in Hcomp by lia. done.
Qed.

(** What is on disk while a node handles a proposal reopens as before or after it. *)
Lemma reopen_midway n p disk wal :
  node_ok local domain n -> proposable n p -> verify_wal_header_if_present wal = mret tt ->
  disk_state (sn_store n) (sn_state_machine n) (propose_effects n p) disk ->
  exists n', single_open wal disk local domain = (sn_store n', Some (Ok n'))
    /\ node_ok local domain n'
    /\ (abs (sn_core n') = abs (sn_core n) /\ sn_state_machine n' = sn_state_machine n
        \/ abs (sn_core n') = abs (sn_core (single_propose n p).1)
           /\ sn_state_machine n' = sn_state_machine (single_propose n p).1).
Proof.
  intros Hn (Hok & Hp & Hmax) Hwal Hdisk. pose proof Hn as [Hc Hso Hlive].
  destruct (propose_stored _ _ _ _ Hn Hok Hp Hmax) as (n1 & r & Hrun & Hn1 & Hk1 & _).
  destruct (solo_step _ _ _ p Hc) as (c' & Hstep & Hc' & Heff & Hk & _); [width; lia|].
  assert (sn_core n1 = c') as Hcore.
  { unfold single_propose in Hrun. rewrite Hstep in Hrun.
    destruct (apply_durable_effects _ _ _) as [[disk1 sm1] rs].
    destruct (of_store rs) as [[rs'|]|]; cbn in Hrun; [|by injection Hrun as <- ..].
    destruct (last rs') as [[]|]; by injection Hrun as <-. }
  unfold propose_effects in Hdisk. rewrite Hstep in Hdisk. cbn [snd] in Hdisk.
  assert (rh_commit_index (abs c') <= u32_max) as Hmax' by (cbn; lia).
  destruct (disk_state_stores _ _ _ _ _ _ Hso Hlive (solo_storable _ _ _ _ _ Hc Hso Hok Hp Hmax) Heff
    Hmax' Hdisk) as [Hd|Hd].
  - destruct (reopen_stored _ _ wal _ _ Hwal Hc Hd) as (n' & Ho & Hn' & Habs & _).
    exists n'. split; [done|]. split; [done|]. left. split; [done|].
    apply (live_unique (abs (sn_core n))); [rewrite <- Habs; apply Hn'|done].
  - destruct (reopen_stored _ _ wal _ _ Hwal Hc' Hd) as (n' & Ho & Hn' & Habs & _).
    exists n'. split; [done|]. split; [done|]. right. rewrite Hrun. cbn [fst]. rewrite Hcore.
    split; [done|]. apply (live_unique (abs c')); [rewrite <- Habs; apply Hn'|].
    rewrite <- Hcore. apply Hn1.
Qed.

Lemma node_reachable_ok n : local <> 0 -> node_reachable n -> node_ok local domain n.
Proof.
  intros Hlocal. induction 1 as [wal disk n Hwal Ho|n p n' r _ IH (Hok & Hp & Hmax) Hrun
    |n n' meta _ IH Hrun|n p wal disk disk' n' _ IH Hp Hdisk Hwal Ho].
  - destruct (first_open local domain wal Hwal Hlocal) as (n1 & Ho1 & Hn1 & _).
    rewrite Ho in Ho1. injection Ho1 as _ ->. done.
  - destruct (propose_stored _ _ _ _ IH Hok Hp Hmax) as (n1 & r1 & Hrun1 & Hn1 & _).
    rewrite Hrun in Hrun1. by injection Hrun1 as -> ->.
  - by eapply compact_node_ok.
  - destruct (reopen_midway _ _ _ _ IH Hp Hwal Hdisk) as (n1 & Ho1 & Hn1 & _).
    rewrite Ho in Ho1. injection Ho1 as _ ->. done.
Qed.
End runs.

(** ** Theorems *)

Section claims.
Context `{Sha256} (local domain : Z).


(** A single-host node survives crashes. Whatever point of a proposal a
    crash hits, the node opens again from what is on disk, and has the log,
    commit index, snapshot, term and state machine it had before the proposal
    or those it had after it. *)
Theorem single_host_survives_crash n p disk wal :
  local <> 0 -> node_reachable local domain n -> proposable n p ->
  verify_wal_header_if_present wal = mret tt ->
  disk_state (sn_store n) (sn_state_machine n) (propose_effects n p) disk ->
  exists n', single_open wal disk local domain = (sn_store n', Some (Ok n'))
    /\ (abs (sn_core n') = abs (sn_core n) /\ sn_state_machine n' = sn_state_machine n
        \/ abs (sn_core n') = abs (sn_core (single_propose n p).1)
           /\ sn_state_machine n' = sn_state_machine (single_propose n p).1).
Proof.
  intros Hlocal Hn Hp Hwal Hdisk. apply node_reachable_ok in Hn; [|done].
  destruct (reopen_midway _ _ _ _ _ _ Hn Hp Hwal Hdisk) as (n' & Ho & _ & Hor). eauto.
Qed.

(** Compaction loses nothing. When a node that has committed something takes
    a snapshot and compacts, it succeeds, its log becomes empty, and the node
    reopened from the new directory has the same commit index and the very
    same state machine, now from the snapshot. *)
Theorem compaction_loses_nothing n b wal :
  local <> 0 -> node_reachable local domain n -> 1 <= commit_index (sn_core n) ->
  encode_snapshot (sn_state_machine n) = Some b -> verify_wal_header_if_present wal = mret tt ->
  exists n' meta n'', create_snapshot_and_compact n = (n', Some (Ok meta))
    /\ log_tail (sn_core n') = [] /\ commit_index (sn_core n') = commit_index (sn_core n)
    /\ single_open wal (sn_store n') local domain = (sn_store n'', Some (Ok n''))
    /\ abs (sn_core n'') = abs (sn_core n') /\ sn_state_machine n'' = sn_state_machine n.
Proof.
  intros Hlocal Hn Hpos Henc Hwal. apply node_reachable_ok in Hn; [|done].
  destruct (compact_node _ _ n b Hn Hpos Henc)
    as (n' & root & Hrun & _ & Hn' & Hsm & Habs). pose proof Hn' as [Hc' Hso' Hlive'].
  destruct (reopen_stored _ _ wal _ _ Hwal Hc' Hso') as (n'' & Ho & Hn'' & Habs'' & _).
  exists n', (meta_of (sn_state_machine n) root), n''. split; [done|]. split_and!; [| |done..|].
  - change (rh_log_tail (abs (sn_core n')) = []). rewrite Habs. cbn.
    destruct Hn as [Hc Hso Hlive]. pose proof Hso as [(old & Ht) _ _ _].
    destruct (live_state _ _ _ Ht _ Hlive) as [_ Hi]. cbn in Hi.
    apply list_filter_none. intros e [i He]%list_elem_of_lookup. pose proof (lookup_lt_Some _ _ _ He).
    assert (roster_len (roster (sn_core n)) = 1%nat) as Hone
      by (pose proof (sc_view _ _ _ Hc) as Hv; injection Hv as _ _ -> _; reflexivity).
    rewrite Hi, (ci_single _ (sc_inv _ _ _ Hc) Hone), last_log_index_length by apply Hc.
    rewrite (ci_contiguous _ (sc_inv _ _ _ Hc) _ _ He). lia.
  - change (rh_commit_index (abs (sn_core n')) = commit_index (sn_core n)). by rewrite Habs.
  - rewrite <- Hsm. apply (live_unique (abs (sn_core n'))); [|done]. rewrite <- Habs''. apply Hn''.
Qed.
End claims.

(** ** A concrete node *)

Definition opened (r : SqliteConsensusStore * node SingleHostInner) : SingleHostInner :=
  match r.2 with
  | Some (Ok n) => n
  | _ => {| sn_store := r.1; sn_core := sample_core; sn_state_machine := sm_new;
            sn_latest_durable_snapshot := None |}
  end.

Definition sample_solo : SingleHostInner :=
  opened (single_open (H := checksum_hasher) None empty_store 1 101).
Definition sample_solo1 : SingleHostInner :=
  (single_propose (H := checksum_hasher) sample_solo sample_proposal).1.

Lemma sample_solo_open :
  single_open (H := checksum_hasher) None empty_store 1 101
  = (sn_store sample_solo, Some (Ok sample_solo)).
Proof. vm_compute. reflexivity. Qed.

Lemma sample_solo_reachable : node_reachable (H := checksum_hasher) 1 101 sample_solo.
Proof. apply (nr_open 1 101 None (sn_store sample_solo)); [reflexivity|exact sample_solo_open]. Qed.

Lemma sample_solo_proposable : proposable sample_solo sample_proposal.
Proof.
  destruct sample_proposal_ok as [Hok Hp]. split; [done|]. split; [done|].
  apply (bool_decide_unpack _). vm_compute. exact I.
Qed.

Lemma sample_solo1_reachable : node_reachable (H := checksum_hasher) 1 101 sample_solo1.
Proof.
  apply (nr_propose (H := checksum_hasher) 1 101 sample_solo sample_proposal _
    (single_propose (H := checksum_hasher) sample_solo sample_proposal).2);
    [exact sample_solo_reachable|exact sample_solo_proposable|].
  unfold sample_solo1. by destruct (single_propose _ _).
Qed.


Lemma single_host_survives_crash_witness :
  exists n', single_open (H := checksum_hasher) None
      {| conn := conn (sn_store sample_solo); snapshot_files :=
           (stage_snapshots (H := checksum_hasher) (snapshot_files (sn_store sample_solo)) None
             (take 1 (propose_effects (H := checksum_hasher) sample_solo sample_proposal))).1 |} 1 101
      = (sn_store n', Some (Ok n'))
    /\ (abs (sn_core n') = abs (sn_core sample_solo)
        /\ sn_state_machine n' = sn_state_machine sample_solo
        \/ abs (sn_core n') = abs (sn_core (single_propose (H := checksum_hasher) sample_solo sample_proposal).1)
           /\ sn_state_machine n'
              = sn_state_machine (single_propose (H := checksum_hasher) sample_solo sample_proposal).1).
Proof.
  apply (single_host_survives_crash (H := checksum_hasher) 1 101 sample_solo sample_proposal);
    [done|exact sample_solo_reachable|exact sample_solo_proposable|reflexivity|apply disk_staging].
Defined.

Definition sample_solo1_snapshot : bytes :=
  default [] (encode_snapshot (H := checksum_hasher) (sn_state_machine sample_solo1)).

Lemma compaction_loses_nothing_witness :
  exists n' meta n'',
    create_snapshot_and_compact (H := checksum_hasher) sample_solo1 = (n', Some (Ok meta))
    /\ log_tail (sn_core n') = [] /\ commit_index (sn_core n') = commit_index (sn_core sample_solo1)
    /\ single_open (H := checksum_hasher) None (sn_store n') 1 101 = (sn_store n'', Some (Ok n''))
    /\ abs (sn_core n'') = abs (sn_core n') /\ sn_state_machine n'' = sn_state_machine sample_solo1.
Proof.
  apply (compaction_loses_nothing (H := checksum_hasher) 1 101 sample_solo1 sample_solo1_snapshot);
    [done|exact sample_solo1_reachable| | |reflexivity].
  - apply (bool_decide_unpack _). vm_compute. exact I.
  - vm_compute. reflexivity.
Defined.
