(* ===== verification/Driver.v ===== *)
(** * Driver: the multi-host consensus driver

    Models nlos-consensus/src/net_driver.rs around the replica: the state one
    mutex guards ([DriverSyncState]), the step that persists before it answers
    ([step_and_persist]), the clients waiting for a commit or a read, the RPC
    handler and the coalescing of outbound messages. The sending half of a
    oneshot channel is a token; [tx.send(v)] is a [Notice]. Tasks, sockets and
    timers of tokio are left out: what they call is here, in the order they
    hold the lock. *)

From S2P Require Import Prelude Bytes Commands StateMachine Ledger Snapshot Replay Roster RaftTypes.
From S2P Require Import RaftCore RaftLog Durability Wire Store StoreRefines StoreRecovery LocalSnapshot.
From S2P Require Import SingleNode.

(** ** State *)

Record PendingProposalWaiter := { pw_term : Z; pw_tx : Z }.
Record PendingReadWaiter := { prw_round_id : option Z; prw_tx : Z }.

(** The fatal error is kept as it was raised; the source keeps its text. *)
Record DriverSyncState := {
  ds_store : SqliteConsensusStore;
  ds_core : ConsensusCore;
  ds_state_machine : ControlPlaneStateMachine;
  pending_proposals : gmap Z PendingProposalWaiter;
  pending_reads : gmap Z PendingReadWaiter;
  sticky_fatal_error : option ConsensusStoreError;
}.

#[export] Instance eta_driver : Eta DriverSyncState := fun d =>
  Build_DriverSyncState (ds_store d) (ds_core d) (ds_state_machine d) (pending_proposals d)
    (pending_reads d) (sticky_fatal_error d).
#[export] Instance set_ds_store : Setter ds_store. Proof. build_setter. Defined.
#[export] Instance set_ds_core : Setter ds_core. Proof. build_setter. Defined.
#[export] Instance set_ds_state_machine : Setter ds_state_machine. Proof. build_setter. Defined.
#[export] Instance set_pending_proposals : Setter pending_proposals. Proof. build_setter. Defined.
#[export] Instance set_pending_reads : Setter pending_reads. Proof. build_setter. Defined.
#[export] Instance set_sticky : Setter sticky_fatal_error. Proof. build_setter. Defined.

(** The engine the tasks of a node share. The channels to the peers' workers
    are known by the peers they lead to. *)
Record SharedEngine := {
  sync_state : DriverSyncState;
  peer_outbound : list Z;
  next_read_id : Z;
  shutting_down : bool;
}.

#[export] Instance eta_engine : Eta SharedEngine := fun e =>
  Build_SharedEngine (sync_state e) (peer_outbound e) (next_read_id e) (shutting_down e).
#[export] Instance set_sync_state : Setter sync_state. Proof. build_setter. Defined.
#[export] Instance set_next_read_id : Setter next_read_id. Proof. build_setter. Defined.
#[export] Instance set_shutting_down : Setter shutting_down. Proof. build_setter. Defined.

(** What a waiting client is sent. *)
Inductive Notice :=
  | ProposalResult (tx : Z) (r : result ConsensusError ConsensusCommitReceipt)
  | ReadResult (tx : Z) (r : result ConsensusError (Z * Z)).

Definition stale_term (attempted_term current_term : Z) (known_leader : option Z) : ConsensusError :=
  ConsensusProposalRejected (StaleLeaderTerm attempted_term current_term known_leader).

(** ** Waiters *)

(** The reason of the first rejected proposal among the effects. *)
Definition proposal_rejection (effects : list ConsensusEffect) : option ProposalRejectReason :=
  head (omap (fun eff => match eff with
                         | ProposalRejected None reason => Some reason
                         | _ => None
                         end) effects).

(** The first entry a step appended. *)
Definition first_appended (effects : list ConsensusEffect) : option RaftLogEntry :=
  head (omap (fun eff => match eff with AppendLogEntries (e :: _) => Some e | _ => None end) effects).

(** The quorum round of the first replication message of a step. *)
Definition replication_round (effects : list ConsensusEffect) : option Z :=
  head (omap (fun eff => match eff with
                         | SendMessage _ (AppendEntries _ _ _ _ _ _ q) => Some q
                         | _ => None
                         end) effects).

Definition register_proposal (ds : DriverSyncState) (effects : list ConsensusEffect)
    (proposal_waiter : option Z) : DriverSyncState * list Notice :=
  match proposal_waiter, first_appended effects with
  | Some tx, Some first =>
      let displaced := pending_proposals ds !! e_index first in
      (ds <| pending_proposals :=
         <[e_index first := {| pw_term := e_term first; pw_tx := tx |}]> (pending_proposals ds) |>,
       match displaced with
       | Some w => [ProposalResult (pw_tx w) (Err (stale_term (pw_term w)
                      (current_term (ds_core ds)) (known_leader (ds_core ds))))]
       | None => []
       end)
  | _, _ => (ds, [])
  end.

Definition register_read (ds : DriverSyncState) (effects : list ConsensusEffect)
    (read_waiter : option (Z * Z)) : DriverSyncState :=
  match read_waiter with
  | Some (rid, tx) =>
      ds <| pending_reads :=
        <[rid := {| prw_round_id := replication_round effects; prw_tx := tx |}]> (pending_reads ds) |>
  | None => ds
  end.

(** Waiters are answered in the order of their index. *)
Definition reject_all (waiters : gmap Z PendingProposalWaiter)
    (error : PendingProposalWaiter -> ConsensusError) : list Notice :=
  (fun iw => ProposalResult (pw_tx iw.2) (Err (error iw.2))) <$> btree_iter waiters.

Definition resolve_read (ds : DriverSyncState) (read_id : Z) (r : result ConsensusError (Z * Z)) :
    DriverSyncState * list Notice :=
  match pending_reads ds !! read_id with
  | Some w => (ds <| pending_reads := delete read_id (pending_reads ds) |>, [ReadResult (prw_tx w) r])
  | None => (ds, [])
  end.

Definition resolve_effect (ds : DriverSyncState) (effect : ConsensusEffect) :
    DriverSyncState * list Notice :=
  let leader_now := known_leader (ds_core ds) in
  match effect with
  | TruncateLogSuffixFrom from_index =>
      let split := filter (fun iw => iw.1 >= from_index) (pending_proposals ds) in
      (ds <| pending_proposals := filter (fun iw => iw.1 < from_index) (pending_proposals ds) |>,
       reject_all split (fun w => stale_term (pw_term w) (current_term (ds_core ds)) leader_now))
  | LeaderSteppedDown aborted_term new_term =>
      (ds <| pending_proposals := ∅ |>,
       reject_all (pending_proposals ds)
         (fun w => stale_term (Z.min (pw_term w) aborted_term) new_term leader_now))
  | ProposalRejected (Some rid) reason => resolve_read ds rid (Err (ConsensusProposalRejected reason))
  | LinearizableReadConfirmed rid confirmed_term commit_index =>
      resolve_read ds rid (Ok (commit_index, confirmed_term))
  | _ => (ds, [])
  end.

Fixpoint resolve_effects (ds : DriverSyncState) (effects : list ConsensusEffect) :
    DriverSyncState * list Notice :=
  match effects with
  | [] => (ds, [])
  | eff :: rest =>
      let '(ds, n1) := resolve_effect ds eff in
      let '(ds, n2) := resolve_effects ds rest in (ds, n1 ++ n2)
  end.

Fixpoint deliver_receipts (ds : DriverSyncState)
    (receipts : list (RaftLogEntry * ConsensusCommitReceipt)) : DriverSyncState * list Notice :=
  match receipts with
  | [] => (ds, [])
  | (entry, receipt) :: rest =>
      let '(ds, n1) :=
        match pending_proposals ds !! e_index entry with
        | Some w =>
            (ds <| pending_proposals := delete (e_index entry) (pending_proposals ds) |>,
             [ProposalResult (pw_tx w)
               (if decide (pw_term w = e_term entry) then Ok receipt
                else Err (stale_term (pw_term w) (e_term entry) (known_leader (ds_core ds))))])
        | None => (ds, [])
        end in
      let '(ds, n2) := deliver_receipts ds rest in (ds, n1 ++ n2)
  end.

(** ** Messages *)

Definition is_response_message (msg : RaftMessage) : bool :=
  match msg with
  | RequestPreVoteResponse _ _ _ _ | RequestVoteResponse _ _ _
  | AppendEntriesResponse _ _ _ _ _ _ _ | InstallSnapshotResponse _ _ _ _ _ => true
  | _ => false
  end.

Definition outbound_message_term (msg : RaftMessage) : Z :=
  match msg with
  | RequestPreVote prospective_term _ _ _ => prospective_term
  | RequestPreVoteResponse term _ _ _ | RequestVote term _ _ _ | RequestVoteResponse term _ _
  | AppendEntries term _ _ _ _ _ _ | AppendEntriesResponse term _ _ _ _ _ _
  | InstallSnapshotChunk term _ _ _ _ _ _ _ _ _ | InstallSnapshotResponse term _ _ _ _ => term
  end.

(** The direct reply, if any, and the other messages in order. *)
Fixpoint route_messages (direct_reply_peer : option Z) (direct_reply : option RaftMessage)
    (effects : list ConsensusEffect) : option RaftMessage * list (Z * RaftMessage) :=
  match effects with
  | [] => (direct_reply, [])
  | SendMessage target message :: rest =>
      if bool_decide (direct_reply = None) && bool_decide (direct_reply_peer = Some target)
         && is_response_message message
      then route_messages direct_reply_peer (Some message) rest
      else let '(reply, out) := route_messages direct_reply_peer direct_reply rest in
           (reply, (target, message) :: out)
  | _ :: rest => route_messages direct_reply_peer direct_reply rest
  end.

Section driver.
Context `{Sha256}.
Implicit Types (ds : DriverSyncState) (eng : SharedEngine).

(** What a step does besides changing the engine: the notices to clients, the
    messages handed to the peers' workers, and the direct reply or error. *)
Record StepOutput := {
  so_notices : list Notice;
  so_outbound : list (Z * RaftMessage);
  so_result : node (option RaftMessage);
}.

Definition silent (r : node (option RaftMessage)) : StepOutput :=
  {| so_notices := []; so_outbound := []; so_result := r |}.

(** The part of [step_and_persist] under the lock. *)
Definition locked_step ds (input : ConsensusInput) (direct_reply_peer proposal_waiter : option Z)
    (read_waiter : option (Z * Z)) : DriverSyncState * StepOutput :=
  match sticky_fatal_error ds with
  | Some fatal => (ds, silent (Some (Err (DriverFatal fatal))))
  | None =>
      let '(core, effects) := step (ds_core ds) input in
      let ds := ds <| ds_core := core |> in
      match proposal_rejection effects with
      | Some reason =>
          (ds, {| so_notices := (fun tx => ProposalResult tx (Err (ConsensusProposalRejected reason)))
                                  <$> option_list proposal_waiter;
                  so_outbound := []; so_result := Some (Ok None) |})
      | None =>
          let '(ds, displaced) := register_proposal ds effects proposal_waiter in
          let ds := register_read ds effects read_waiter in
          let '(disk, sm, receipts) :=
            apply_durable_effects (ds_store ds) (ds_state_machine ds) effects in
          let ds := ds <| ds_store := disk |> <| ds_state_machine := sm |> in
          match receipts with
          | None => (ds, {| so_notices := displaced; so_outbound := []; so_result := None |})
          | Some (Err err) =>
              (ds <| sticky_fatal_error := Some err |>,
               {| so_notices := displaced; so_outbound := []; so_result := Some (Err (StoreError err)) |})
          | Some (Ok receipts) =>
              let '(ds, resolved) := resolve_effects ds effects in
              let '(ds, delivered) := deliver_receipts ds receipts in
              let '(reply, out) := route_messages direct_reply_peer None effects in
              (ds, {| so_notices := displaced ++ resolved ++ delivered; so_outbound := out;
                      so_result := Some (Ok reply) |})
          end
      end
  end.

Definition step_and_persist eng (input : ConsensusInput) (direct_reply_peer proposal_waiter : option Z)
    (read_waiter : option (Z * Z)) : SharedEngine * StepOutput :=
  let '(ds, out) := locked_step (sync_state eng) input direct_reply_peer proposal_waiter read_waiter in
  (eng <| sync_state := ds |>,
   {| so_notices := so_notices out;
      so_outbound := if shutting_down eng then []
                     else filter (fun tm => tm.1 ∈ peer_outbound eng) (so_outbound out);
      so_result := so_result out |}).

(** ** The calls into the engine *)

(** Starting a node on a directory, up to binding its sockets. *)
Definition engine_start (wal : option bytes) (disk : SqliteConsensusStore) (local_cell : Z)
    (roster : ValidatedVoterRoster) (timing : option ConsensusTimingConfig) :
    SqliteConsensusStore * node SharedEngine :=
  if decide (roster_len roster < 3)%nat then (disk, Some (Err (Config UnsupportedTwoNodeQuorum))) else
  node_then disk (of_result Config
    (timing_validate (default (staggered_timing_for_roster local_cell roster) timing))) (fun timing =>
  let '(disk, recovered) := open_or_recover wal disk in
  node_then disk (of_store recovered) (fun recovered =>
  node_then disk (of_result Config (rehydrate local_cell roster timing (core_state recovered)))
    (fun core =>
  (disk, Some (Ok {|
     sync_state := {| ds_store := disk; ds_core := core;
                      ds_state_machine := recovered_state_machine recovered;
                      pending_proposals := ∅; pending_reads := ∅; sticky_fatal_error := None |};
     peer_outbound := filter (fun id => id <> local_cell) (cell_identity <$> members roster);
     next_read_id := 1;
     shutting_down := false |}))))).

(** [propose_fenced] up to waiting on its channel, whose sender is [tx]. *)
Definition propose_fenced eng (proposal : ControlPlaneProposal) (expected_leader_term : option Z)
    (tx : Z) : SharedEngine * StepOutput :=
  step_and_persist eng (Propose proposal expected_leader_term) None (Some tx) None.

(** [linearizable_read] up to waiting on its channel. *)
Definition linearizable_read eng (expected_leader_term : option Z) (tx : Z) :
    SharedEngine * StepOutput :=
  let read_id := next_read_id eng in
  let eng := eng <| next_read_id := (next_read_id eng + 1) mod 2 ^ 64 |> in
  step_and_persist eng (RequestLinearizableRead read_id expected_leader_term) None None
    (Some (read_id, tx)).

Definition propose eng (proposal : ControlPlaneProposal) (tx : Z) : SharedEngine * StepOutput :=
  propose_fenced eng proposal None tx.

Definition propose_in_term eng (proposal : ControlPlaneProposal) (expected_leader_term tx : Z) :
    SharedEngine * StepOutput :=
  propose_fenced eng proposal (Some expected_leader_term) tx.

Definition propose_wire eng (wire_frame : bytes) (tx : Z) : SharedEngine * StepOutput :=
  match decode_wire wire_frame with
  | Err e => (eng, silent (Some (Err (ScopeViolation e))))
  | Ok proposal => propose eng proposal tx
  end.

(** A confirmed read runs its reader on the state machine of that moment. *)
Definition finish_read {R} eng (reader : ControlPlaneStateMachine -> Z -> Z -> R)
    (confirmed_commit confirmed_term : Z) : R :=
  reader (ds_state_machine (sync_state eng)) confirmed_commit confirmed_term.

(** A read that timed out. *)
Definition forget_read eng (read_id : Z) : SharedEngine :=
  eng <| sync_state := sync_state eng
    <| pending_reads := delete read_id (pending_reads (sync_state eng)) |> |>.

(** The tick task. *)
Definition tick eng : SharedEngine * StepOutput := step_and_persist eng Tick None None None.

Inductive RpcWireStatus := RpcOk | PreExecutionUnavailable.
Record RpcHandlerReply := { rpc_status : RpcWireStatus; rpc_payload : bytes }.

Definition unavailable : RpcHandlerReply :=
  {| rpc_status := PreExecutionUnavailable; rpc_payload := [] |}.

(** [ConsensusRpcAdapter::handle_rpc] of a frame from an authenticated peer. *)
Definition handle_rpc eng (authenticated_from : Z) (payload : bytes) :
    SharedEngine * StepOutput * option RpcHandlerReply :=
  if shutting_down eng then (eng, silent (Some (Ok None)), Some unavailable) else
  match decode_raft_message payload with
  | Err _ => (eng, silent (Some (Ok None)), Some unavailable)
  | Ok message =>
      let '(eng, out) := step_and_persist eng (ReceiveMessage authenticated_from message)
                           (Some authenticated_from) None None in
      (eng, out,
       match so_result out with
       | None => None
       | Some (Err _) => Some unavailable
       | Some (Ok None) => Some {| rpc_status := RpcOk; rpc_payload := [] |}
       | Some (Ok (Some reply)) =>
           (fun b => {| rpc_status := RpcOk; rpc_payload := b |}) <$> encode_raft_message reply
       end)
  end.

(** The answer to a worker's call comes back as a message of its target. *)
Definition handle_reply eng (target : Z) (payload : bytes) : SharedEngine * StepOutput :=
  if bool_decide (payload = []) then (eng, silent (Some (Ok None))) else
  match decode_raft_message payload with
  | Err _ => (eng, silent (Some (Ok None)))
  | Ok message => step_and_persist eng (ReceiveMessage target message) None None None
  end.

Definition driver_compact ds : DriverSyncState * node SnapshotMetadata :=
  let sm := ds_state_machine ds in
  match encode_snapshot sm with
  | None => (ds, None)
  | Some b =>
      let '(disk, created) := create_snapshot (ds_store ds) (last_applied_index sm)
                                (last_applied_term sm) b in
      node_then (ds <| ds_store := disk |>) (of_store created) (fun meta =>
      let '(disk, deleted) := compact_log_up_to disk (last_applied_index sm) in
      node_then (ds <| ds_store := disk |>) (of_store deleted) (fun _ =>
      (ds <| ds_store := disk |>
          <| ds_core := (record_local_snapshot (ds_core ds) meta b (last_applied_index sm)).1 |>,
       Some (Ok meta))))
  end.

(** [shutdown] once the tasks have stopped. *)
Definition shutdown eng : SharedEngine * list Notice :=
  let ds := sync_state eng in
  (eng <| shutting_down := true |>
       <| sync_state := ds <| pending_proposals := ∅ |> <| pending_reads := ∅ |> |>,
   reject_all (pending_proposals ds) (fun _ => NodeShutDown)
   ++ ((fun iw => ReadResult (prw_tx iw.2) (Err NodeShutDown)) <$> btree_iter (pending_reads ds))).

(** ** Either deployment *)

Inductive ConsensusNode :=
  | SingleHost (n : SingleHostInner)
  | MultiHost (eng : SharedEngine).

(** A proposal is answered at once by a single host, and on its channel by a
    member of a quorum. *)
Inductive ProposeOutcome :=
  | AtOnce (r : node ConsensusCommitReceipt)
  | OnChannel (out : StepOutput).

Definition node_propose (n : ConsensusNode) (proposal : ControlPlaneProposal) (tx : Z) :
    ConsensusNode * ProposeOutcome :=
  match n with
  | SingleHost n => let '(n, r) := single_propose n proposal in (SingleHost n, AtOnce r)
  | MultiHost eng => let '(eng, out) := propose eng proposal tx in (MultiHost eng, OnChannel out)
  end.

Definition node_propose_wire (n : ConsensusNode) (wire_frame : bytes) (tx : Z) :
    ConsensusNode * ProposeOutcome :=
  match n with
  | SingleHost n => let '(n, r) := single_propose_wire n wire_frame in (SingleHost n, AtOnce r)
  | MultiHost eng => let '(eng, out) := propose_wire eng wire_frame tx in (MultiHost eng, OnChannel out)
  end.

Definition node_shutdown (n : ConsensusNode) : ConsensusNode * list Notice :=
  match n with
  | SingleHost n => (SingleHost n, [])
  | MultiHost eng => let '(eng, notices) := shutdown eng in (MultiHost eng, notices)
  end.
End driver.

(** ** Coalescing outbound messages *)

Definition is_replication (msg : RaftMessage) : bool :=
  match msg with
  | AppendEntries _ _ _ _ _ _ _ | InstallSnapshotChunk _ _ _ _ _ _ _ _ _ _ => true
  | _ => false
  end.

(** An empty append no pending read waits for. *)
Definition droppable_heartbeat (active_read_rounds : list Z) (msg : RaftMessage) : bool :=
  match msg with
  | AppendEntries _ _ _ _ [] _ q => negb (bool_decide (q ∈ active_read_rounds))
  | _ => false
  end.

(** The loop over the reversed batch; [later] is [max_later_repl_term], and the
    result is reversed again. *)
Fixpoint drop_superseded (active_read_rounds : list Z) (later : option Z)
    (rev_batch kept : list RaftMessage) : list RaftMessage :=
  match rev_batch with
  | [] => kept
  | msg :: rest =>
      let term := outbound_message_term msg in
      if is_replication msg then
        if droppable_heartbeat active_read_rounds msg
           && match later with Some later_term => bool_decide (later_term >= term) | None => false end
        then drop_superseded active_read_rounds later rest kept
        else drop_superseded active_read_rounds
               (Some (match later with Some prev => Z.max prev term | None => term end))
               rest (msg :: kept)
      else drop_superseded active_read_rounds later rest (msg :: kept)
  end.

(** [Vec::dedup]: of equal neighbours the first stays. *)
Fixpoint dedup_after (prev : RaftMessage) (l : list RaftMessage) : list RaftMessage :=
  match l with
  | [] => []
  | msg :: rest => if decide (msg = prev) then dedup_after prev rest else msg :: dedup_after msg rest
  end.
Definition dedup (l : list RaftMessage) : list RaftMessage :=
  match l with [] => [] | msg :: rest => msg :: dedup_after msg rest end.

Definition coalesce_outbound_peer_batch (raw_batch : list RaftMessage) (local_current_term : Z)
    (active_read_rounds : list Z) : list RaftMessage :=
  let term_filtered := filter (fun msg => outbound_message_term msg >= local_current_term) raw_batch in
  dedup (drop_superseded active_read_rounds None (rev term_filtered) []).

(** The rounds and the term a worker coalesces with. *)
Definition snapshot_coalesce_state (ds : DriverSyncState) : Z * list Z :=
  (current_term (ds_core ds), omap (fun iw => prw_round_id iw.2) (btree_iter (pending_reads ds))).

(** What a worker makes of a batch it took from its channel. *)
Definition worker_batch (ds : DriverSyncState) (raw_batch : list RaftMessage) : list RaftMessage :=
  let '(local_term, active_read_rounds) := snapshot_coalesce_state ds in
  coalesce_outbound_peer_batch raw_batch local_term active_read_rounds.

(** Whether the worker still sends a message of its batch when its turn comes. *)
Definition worker_sends (eng : SharedEngine) (msg : RaftMessage) : bool :=
  negb (shutting_down eng)
  && negb (bool_decide (outbound_message_term msg < current_term (ds_core (sync_state eng)))).
