(* ===== verification/DriverSafety.v ===== *)
(** * DriverSafety: a driver answers only after it has persisted

    The driver, its replica and its store stay in agreement through every step,
    and whatever a step lets out, messages, replies and receipts, was durable
    before. *)

From S2P Require Import Prelude Bytes Commands StateMachine Ledger Snapshot Replay Roster RaftTypes.
From S2P Require Import RaftCore RaftLog Durability Wire RaftTyped SnapshotBytes Store StoreRefines StoreRecovery LocalSnapshot.
From S2P Require Import SingleNode Driver.

(** ** Only a proposal is rejected as a proposal *)

Definition quiet_effect (eff : ConsensusEffect) : Prop :=
  match eff with ProposalRejected None _ => False | _ => True end.

Create HintDb quiet.

(** Splits a list of effects into its parts and closes the evident ones. *)
Ltac quiet_parts :=
  repeat lazymatch goal with
  | |- Forall _ (_, _).2 => cbn [snd]
  | |- Forall _ (_ ++ _) => apply Forall_app; split
  | |- Forall _ (_ :: _) => apply Forall_cons; split
  | |- Forall _ [] => apply Forall_nil; exact I
  | |- Forall _ (_ <$> _) => apply Forall_fmap, Forall_forall; intros; exact I
  | |- _ => solve [assumption | exact I | eauto with quiet]
  end.

Section quiet.
Context `{Sha256}.
Implicit Types (c : ConsensusCore).

Lemma build_quiet c peer round : quiet_effect (build_replication_for_peer c peer round).
Proof. unfold build_replication_for_peer. cbv zeta. repeat case_match; exact I. Qed.

Lemma broadcast_quiet c round : Forall quiet_effect (broadcast_replication_or_heartbeat c round).
Proof. apply Forall_fmap, Forall_forall. intros peer _. apply build_quiet. Qed.
#[local] Hint Resolve build_quiet broadcast_quiet : quiet.

Lemma step_down_quiet c t : Forall quiet_effect (step_down_to_higher_term c t).2.
Proof. unfold step_down_to_higher_term. cbv zeta. cbn [snd]. quiet_parts. destruct (bool_decide _); quiet_parts. Qed.
#[local] Hint Resolve step_down_quiet : quiet.

Lemma prologue_quiet c t : Forall quiet_effect (prologue c t).2.
Proof. unfold prologue. case_decide; quiet_parts. Qed.

Lemma try_advance_quiet_effect c : Forall quiet_effect (option_list (try_advance_leader_commit c).2).
Proof. unfold try_advance_leader_commit. cbv zeta. gcase; by repeat constructor. Qed.

Lemma sweep_quiet_effects c : Forall quiet_effect (sweep_confirmed_quorum_rounds c).2.
Proof.
  unfold sweep_confirmed_quorum_rounds. destruct (sweep_scan c) as [lease keys].
  assert (Forall quiet_effect []) as He by constructor. revert He. generalize (@nil ConsensusEffect).
  generalize (c <| leader_lease := lease |>).
  induction keys as [|key keys IH]; intros c1 effs He; [done|]. cbn [foldl].
  assert (Forall quiet_effect (sweep_confirm c1 key).2) as Hc.
  { unfold sweep_confirm. destruct (quorum_rounds c1 !! key); quiet_parts. }
  destruct (sweep_confirm c1 key) as [c2 confirmed]. apply IH. quiet_parts.
Qed.

Lemma reconcile_quiet entries : forall c leader round effs newly,
  Forall quiet_effect effs ->
  Forall quiet_effect (reconcile_entries c leader round effs newly entries).1.2.
Proof.
  induction entries as [|e entries IH]; intros c leader round effs newly He; cbn [reconcile_entries];
    [done|].
  repeat gcase; try destruct (log_tail c !! _); repeat gcase; try apply IH; cbn [fst snd]; quiet_parts.
Qed.

Lemma reconcile_and_commit_quiet_effects c leader entries commit round effs :
  Forall quiet_effect effs ->
  Forall quiet_effect (reconcile_and_commit_entries c leader entries commit round effs).2.
Proof.
  intros He. unfold reconcile_and_commit_entries.
  pose proof (reconcile_quiet entries c leader round effs [] He) as Hq.
  destruct (reconcile_entries _ _ _ _ _ _) as [[c1 effs1] [newly|]]; [|done]. cbn [fst snd] in Hq.
  unfold follower_advance_commit. cbv zeta. repeat gcase; quiet_parts.
Qed.

Lemma on_append_quiet c term leader prev prev_term entries commit round :
  Forall quiet_effect (on_append_entries c term leader prev prev_term entries commit round).2.
Proof.
  unfold on_append_entries. fold (prologue c term). pose proof (prologue_quiet c term) as Hp.
  destruct (prologue c term) as [c1 effs1]. cbn [snd] in Hp. gcase; [quiet_parts|]. cbv zeta.
  gcase; [destruct (filter _ _); [quiet_parts|]|destruct (term_at _ _); [|quiet_parts]];
    (gcase; [quiet_parts|by apply reconcile_and_commit_quiet_effects]).
Qed.

Lemma on_append_response_quiet c term follower success matched ct ci round :
  Forall quiet_effect (on_append_entries_response c term follower success matched ct ci round).2.
Proof.
  unfold on_append_entries_response. gcase; [apply step_down_quiet|]. gcase; [quiet_parts|].
  destruct success; [|cbv zeta; destruct (allocate_quorum_round _ _); quiet_parts].
  cbv zeta. set (c1 := c <| match_index := _ |> <| next_index := _ |> <| snapshot_send_offset := _ |>).
  clearbody c1. pose proof (try_advance_quiet_effect c1) as He.
  destruct (try_advance_leader_commit c1) as [c2 advance]. cbn [snd] in He.
  match goal with |- context [sweep_confirmed_quorum_rounds ?x] => generalize x end. intros c3.
  pose proof (sweep_quiet_effects c3) as Hs.
  destruct (sweep_confirmed_quorum_rounds c3) as [c4 confirmed]. cbn [snd] in Hs.
  gcase; [destruct (allocate_quorum_round _ _)|]; quiet_parts.
Qed.

Lemma on_chunk_quiet c term leader li lt root sha total off chunk fin :
  Forall quiet_effect (on_install_snapshot_chunk c term leader li lt root sha total off chunk fin).2.
Proof.
  unfold on_install_snapshot_chunk. fold (prologue c term). pose proof (prologue_quiet c term) as Hp.
  destruct (prologue c term) as [c1 effs1]. cbn [snd] in Hp. gcase; [quiet_parts|]. cbv zeta.
  unfold reset_and_nack, stage_chunk, complete_install, reset_and_nack. cbv zeta.
  gcase; [quiet_parts|]. match goal with |- context [negb ?b] => generalize b end. intros existing.
  gcase; [quiet_parts|]. match goal with |- context [inbound_snapshot ?x] => generalize x end. intros c3.
  destruct (inbound_snapshot c3); [|quiet_parts]. repeat (gcase; [quiet_parts|]). quiet_parts.
Qed.

Lemma on_snapshot_response_quiet c term follower li next installed :
  Forall quiet_effect (on_install_snapshot_response c term follower li next installed).2.
Proof.
  unfold on_install_snapshot_response. gcase; [apply step_down_quiet|]. gcase; [quiet_parts|].
  destruct (snapshot_meta c); [|quiet_parts]. gcase; [quiet_parts|]. cbv zeta. destruct installed.
  - match goal with |- context [try_advance_leader_commit ?x] =>
      pose proof (try_advance_quiet_effect x) as He; destruct (try_advance_leader_commit x) as [c2 adv] end.
    cbn [snd] in He. gcase; [destruct (allocate_quorum_round _ _)|]; quiet_parts.
  - gcase; [destruct (allocate_quorum_round _ _); quiet_parts|]. gcase; [quiet_parts|].
    destruct (allocate_quorum_round _ _); quiet_parts.
Qed.

Lemma on_message_quiet c from m : Forall quiet_effect (on_message c from m).2.
Proof.
  unfold on_message. gcase; [quiet_parts|]. destruct m; (gcase; [quiet_parts|]);
    auto using on_append_quiet, on_append_response_quiet, on_chunk_quiet, on_snapshot_response_quiet.
  - unfold on_request_pre_vote. quiet_parts.
  - unfold on_request_pre_vote_response, start_real_election. cbv zeta.
    gcase; [apply step_down_quiet|]. gcase; [quiet_parts|]. gcase; quiet_parts.
  - unfold on_request_vote. fold (prologue c term). pose proof (prologue_quiet c term) as Hp.
    destruct (prologue c term) as [c1 effs1]. cbn [snd] in Hp. gcase; [quiet_parts|]. cbv zeta.
    gcase; quiet_parts.
  - unfold on_request_vote_response, become_leader. cbv zeta.
    gcase; [apply step_down_quiet|]. gcase; [quiet_parts|]. gcase; [|quiet_parts].
    destruct (allocate_quorum_round _ _). apply broadcast_quiet.
Qed.

Lemma on_tick_quiet c : Forall quiet_effect (on_tick c).2.
Proof.
  unfold on_tick, start_pre_vote. cbv zeta. gcase; [quiet_parts|].
  destruct (role _); (match goal with |- context [if decide (?x >= _) then _ else _] => destruct (decide _) end);
    try destruct (allocate_quorum_round _ _); quiet_parts.
Qed.

(** A rejected proposal leaves the replica as it was. *)
Lemma rejected_step c input reason :
  proposal_rejection (step c input).2 = Some reason -> (step c input).1 = c.
Proof.
  assert (forall effs, Forall quiet_effect effs -> proposal_rejection effs = None) as Hq.
  { induction 1 as [|eff effs He _ IH]; [done|]. unfold proposal_rejection in *. by destruct eff as [| | | | | | |[] ?|]. }
  destruct input; cbn [step].
  - by rewrite Hq by apply on_tick_quiet.
  - unfold on_propose. destruct (check_leader_gate _ _); [|done]. cbv zeta.
    rewrite Hq; [done|]. gcase; [quiet_parts|]. destruct (allocate_quorum_round _ _). quiet_parts.
  - rewrite Hq; [done|]. unfold on_request_linearizable_read. destruct (check_leader_gate _ _); [|quiet_parts].
    gcase; [quiet_parts|]. destruct (allocate_quorum_round _ _). apply broadcast_quiet.
  - by rewrite Hq by apply on_message_quiet.
Qed.
End quiet.

(** ** The invariant of a driver *)

Section invariant.
Context `{Sha256}.
Implicit Types (ds : DriverSyncState) (c : ConsensusCore).

(** The replica is consistent, the store holds its durable state, and the
    state machine is the one its committed log leads to. *)
Record driver_ok ds : Prop := {
  dv_inv : core_inv (ds_core ds);
  dv_conf : core_conf (ds_core ds);
  dv_stores : stores (ds_store ds) (abs (ds_core ds));
  dv_live : live (abs (ds_core ds)) (ds_state_machine ds);
  dv_sticky : sticky_fatal_error ds = None;
}.

(** Everything but the waiting clients. *)
Definition durable_view ds :=
  (ds_store ds, ds_core ds, ds_state_machine ds, sticky_fatal_error ds).

Lemma driver_ok_frame ds ds' : durable_view ds' = durable_view ds -> driver_ok ds -> driver_ok ds'.
Proof. intros [= E1 E2 E3 E4] [H1 H2 H3 H4 H5]. split; rewrite ?E1, ?E2, ?E3, ?E4; done. Qed.

Lemma register_proposal_view ds effs tx :
  durable_view (register_proposal ds effs tx).1 = durable_view ds.
Proof. unfold register_proposal. by destruct tx, (first_appended effs). Qed.

Lemma register_read_view ds effs w : durable_view (register_read ds effs w) = durable_view ds.
Proof. unfold register_read. by destruct w as [[]|]. Qed.

Lemma resolve_effects_view effs : forall ds,
  durable_view (resolve_effects ds effs).1 = durable_view ds.
Proof.
  induction effs as [|eff effs IH]; intros ds; [done|]. cbn [resolve_effects].
  assert (durable_view (resolve_effect ds eff).1 = durable_view ds) as Hv.
  { unfold resolve_effect, resolve_read. cbv zeta. repeat case_match; done. }
  destruct (resolve_effect ds eff) as [ds1 n1]. specialize (IH ds1).
  destruct (resolve_effects ds1 effs) as [ds2 n2]. cbn in *. congruence.
Qed.

Lemma deliver_receipts_view rs : forall ds,
  durable_view (deliver_receipts ds rs).1 = durable_view ds.
Proof.
  induction rs as [|[e r] rs IH]; intros ds; [done|]. cbn [deliver_receipts].
  destruct (pending_proposals ds !! e_index e) as [w|].
  - set (ds1 := ds <| pending_proposals := _ |>). specialize (IH ds1).
    destruct (deliver_receipts ds1 rs). cbn in *. exact IH.
  - specialize (IH ds). by destruct (deliver_receipts ds rs).
Qed.

(** A step sends no message but those of the replica. *)
Lemma route_messages_sent peer effs : forall reply0 reply out t m,
  route_messages peer reply0 effs = (reply, out) ->
  ((t, m) ∈ out -> SendMessage t m ∈ effs)
  /\ (reply = Some m -> reply0 = Some m \/ exists t, peer = Some t /\ SendMessage t m ∈ effs).
Proof.
  induction effs as [|eff effs IH]; intros reply0 reply out t m Hr; cbn [route_messages] in Hr.
  { injection Hr as <- <-. split; [by intros ?%elem_of_nil|by left]. }
  assert (forall reply0 reply out, route_messages peer reply0 effs = (reply, out) ->
    ((t, m) ∈ out -> SendMessage t m ∈ eff :: effs)
    /\ (reply = Some m -> reply0 = Some m \/ exists t, peer = Some t /\ SendMessage t m ∈ eff :: effs)) as IH'.
  { intros r0 r o Ho. destruct (IH _ _ _ t m Ho) as [I1 I2]. split.
    - intros Hin. apply elem_of_cons. auto.
    - intros Heq. destruct (I2 Heq) as [?|(t' & ? & ?)]; [by left|]. right. exists t'. split; [done|].
      apply elem_of_cons. auto. }
  destruct eff; try by apply IH'.
  destruct (_ && is_response_message message) eqn:Hg.
  - apply IH' in Hr as [I1 I2]. split; [done|]. intros Heq. right.
    destruct (I2 Heq) as [[= <-]|?]; [|done]. exists target.
    apply andb_true_iff in Hg as [[_ ->%bool_decide_eq_true]%andb_true_iff _]. split; [done|left].
  - destruct (route_messages peer reply0 effs) as [r o] eqn:Ho. injection Hr as <- <-.
    destruct (IH' _ _ _ Ho) as [I1 I2]. split; [|done].
    intros [[= -> ->]|Hin]%elem_of_cons; [left|by apply I1].
Qed.

(** What a receipt handed to a client says. *)
Lemma deliver_receipts_ok rs : forall ds tx r,
  ProposalResult tx (Ok r) ∈ (deliver_receipts ds rs).2 ->
  exists e w, (e, r) ∈ rs /\ pending_proposals ds !! e_index e = Some w
    /\ pw_tx w = tx /\ pw_term w = e_term e.
Proof.
  induction rs as [|[e r] rs IH]; intros ds tx r0; cbn [deliver_receipts]; [by intros ?%elem_of_nil|].
  destruct (pending_proposals ds !! e_index e) as [w|] eqn:Hw.
  - set (ds1 := ds <| pending_proposals := _ |>). specialize (IH ds1 tx r0).
    destruct (deliver_receipts ds1 rs) as [ds2 n2]. cbn [snd] in *. intros [Hin|Hin]%elem_of_app.
    + apply list_elem_of_singleton in Hin. case_decide as Ht; [|done]. injection Hin as -> ->.
      exists e, w. split_and!; [left|done..].
    + destruct (IH Hin) as (e' & w' & He' & Hw' & ? & ?). exists e', w'. split_and!; [by right| |done..].
      unfold ds1 in Hw'. cbn in Hw'. by apply lookup_delete_Some in Hw' as [_ ?].
  - specialize (IH ds tx r0). destruct (deliver_receipts ds rs) as [ds2 n2]. cbn [snd] in *.
    intros Hin. destruct (IH Hin) as (e' & w' & ? & ? & ? & ?). exists e', w'. split_and!; [by right|done..].
Qed.

Lemma resolve_effects_no_receipt effs : forall ds tx r,
  ProposalResult tx (Ok r) ∉ (resolve_effects ds effs).2.
Proof.
  induction effs as [|eff effs IH]; intros ds tx r; cbn [resolve_effects]; [apply not_elem_of_nil|].
  assert (ProposalResult tx (Ok r) ∉ (resolve_effect ds eff).2) as H1.
  { unfold resolve_effect, resolve_read, reject_all. cbv zeta. cbn.
    repeat case_match; cbn [snd]; try apply not_elem_of_nil;
      try (intros ?%list_elem_of_singleton; done); intros (iw & ? & _)%list_elem_of_fmap; done. }
  destruct (resolve_effect ds eff) as [ds1 n1]. specialize (IH ds1 tx r).
  destruct (resolve_effects ds1 effs). cbn [snd] in *. intros [?|?]%elem_of_app; done.
Qed.

Lemma register_proposal_no_receipt ds effs tx0 tx r :
  ProposalResult tx (Ok r) ∉ (register_proposal ds effs tx0).2.
Proof.
  unfold register_proposal. destruct tx0, (first_appended effs); cbn [snd]; try apply not_elem_of_nil.
  case_match; [intros ?%list_elem_of_singleton; done|apply not_elem_of_nil].
Qed.

Lemma register_proposal_no_read ds effs tx0 tx i :
  ReadResult tx (Ok i) ∉ (register_proposal ds effs tx0).2.
Proof.
  unfold register_proposal. destruct tx0, (first_appended effs); cbn [snd]; try apply not_elem_of_nil.
  case_match; [intros ?%list_elem_of_singleton; done|apply not_elem_of_nil].
Qed.

Lemma resolve_effects_pending effs : forall ds i w,
  pending_proposals (resolve_effects ds effs).1 !! i = Some w -> pending_proposals ds !! i = Some w.
Proof.
  induction effs as [|eff effs IH]; intros ds i w; cbn [resolve_effects]; [done|].
  assert (pending_proposals (resolve_effect ds eff).1 !! i = Some w -> pending_proposals ds !! i = Some w)
    as H1.
  { unfold resolve_effect, resolve_read. cbv zeta. repeat case_match; try done; cbn.
    by intros [? _]%map_lookup_filter_Some. }
  destruct (resolve_effect ds eff) as [ds1 n1]. specialize (IH ds1 i w).
  destruct (resolve_effects ds1 effs). cbn [fst] in *. auto.
Qed.

Lemma acknowledges_elem sm rs sm' e r :
  acknowledges sm rs sm' -> (e, r) ∈ rs -> consensus_commit_index r = e_index e /\ rc_term r = e_term e.
Proof.
  induction 1 as [|sm e0 r0 sm1 rest sm2 _ _ ? ? _ IH]; [by intros ?%elem_of_nil|].
  intros [[= -> ->]|?]%elem_of_cons; auto.
Qed.

(** A client that is told its proposal committed holds the receipt of the entry
    the replica has committed at the index and in the term it waited for. *)
Definition receipt_valid ds (ds' : DriverSyncState) (effs : list ConsensusEffect)
    (proposal_waiter : option Z) (tx : Z) (r : ConsensusCommitReceipt) : Prop :=
  exists e w, pending_proposals (register_proposal ds effs proposal_waiter).1 !! e_index e = Some w
    /\ pw_tx w = tx /\ pw_term w = e_term e
    /\ d_get (abs (ds_core ds')) (e_index e) = Some e /\ e_index e <= commit_index (ds_core ds')
    /\ consensus_commit_index r = e_index e /\ rc_term r = e_term e.

Lemma register_read_pending ds effs rw :
  pending_proposals (register_read ds effs rw) = pending_proposals ds.
Proof. unfold register_read. by destruct rw as [[]|]. Qed.

(** The answers of a step that has persisted its effects. *)
Lemma answers_valid ds3 ds core effs receipts displaced peer pw (base : Z) sm sm' :
  driver_ok ds3 -> ds_core ds3 = core ->
  pending_proposals ds3 = pending_proposals (register_proposal ds effs pw).1 ->
  (forall tx r, ProposalResult tx (Ok r) ∉ displaced) ->
  receipts.*1 = d_range (abs core) base (rh_commit_index (abs core)) ->
  acknowledges sm receipts sm' ->
  exists ds' out reply,
    (let '(ds, resolved) := resolve_effects ds3 effs in
     let '(ds, delivered) := deliver_receipts ds receipts in
     let '(reply, out) := route_messages peer None effs in
     (ds, {| so_notices := displaced ++ resolved ++ delivered; so_outbound := out;
             so_result := Some (Ok reply) |})) = (ds', out) /\ so_result out = Some (Ok reply)
    /\ driver_ok ds' /\ ds_core ds' = core
    /\ (forall t m, (t, m) ∈ so_outbound out -> SendMessage t m ∈ effs)
    /\ (forall m, reply = Some m -> exists t, peer = Some t /\ SendMessage t m ∈ effs)
    /\ (forall tx r, ProposalResult tx (Ok r) ∈ so_notices out -> receipt_valid ds ds' effs pw tx r).
Proof.
  intros Hok3 Hcore Hp3 Hdis Hrs Hack.
  pose proof (resolve_effects_view effs ds3) as Hv4.
  pose proof (resolve_effects_no_receipt effs ds3) as Hn4.
  pose proof (resolve_effects_pending effs ds3) as Hp4.
  destruct (resolve_effects ds3 effs) as [ds4 resolved]. cbn [fst snd] in *.
  pose proof (deliver_receipts_view receipts ds4) as Hv5. pose proof (deliver_receipts_ok receipts ds4) as Hr5.
  destruct (deliver_receipts ds4 receipts) as [ds5 delivered]. cbn [fst snd] in *.
  rewrite Hv4 in Hv5. pose proof (driver_ok_frame _ _ Hv5 Hok3) as Hok5.
  assert (ds_core ds5 = core) as Hcore5 by (injection Hv5 as _ -> _ _; done).
  pose proof (route_messages_sent peer effs None) as Hroute.
  destruct (route_messages peer None effs) as [reply out].
  eexists ds5, _, reply. split; [reflexivity|]. split; [done|]. split; [done|]. split; [done|].
  split; [intros t m; by apply (Hroute reply out t m)|]. split.
  { intros m Hm. by destruct (proj2 (Hroute reply out 0 m eq_refl) Hm). }
  intros tx r Hin. cbn [so_notices] in Hin. apply elem_of_app in Hin as [Hin|Hin]; [by apply Hdis in Hin|].
  apply elem_of_app in Hin as [Hin|Hin]; [by apply Hn4 in Hin|].
  destruct (Hr5 tx r Hin) as (e & w & Her & Hw & Htx & Hterm). exists e, w.
  destruct (acknowledges_elem _ _ _ _ _ Hack Her) as [Hi Ht].
  assert (e ∈ d_range (abs core) base (rh_commit_index (abs core))) as [[_ Hle] He]%list_elem_of_filter.
  { rewrite <- Hrs. apply list_elem_of_fmap. by exists (e, r). }
  split; [rewrite <- Hp3; by apply Hp4|]. split_and!; try done; rewrite Hcore5; [|done].
  apply d_get_member; [|done]. apply d_inv_abs. rewrite <- Hcore. apply Hok3.
Qed.

Lemma locked_step_ok ds input peer pw rw :
  driver_ok ds -> input_ok (ds_core ds) input ->
  effects_storable (abs (ds_core ds)) (step (ds_core ds) input).2 ->
  commit_index (step (ds_core ds) input).1 <= u32_max ->
  let effs := (step (ds_core ds) input).2 in
  exists ds' out reply, locked_step ds input peer pw rw = (ds', out) /\ so_result out = Some (Ok reply)
    /\ driver_ok ds' /\ ds_core ds' = (step (ds_core ds) input).1
    /\ (forall t m, (t, m) ∈ so_outbound out -> SendMessage t m ∈ effs)
    /\ (forall m, reply = Some m -> exists t, peer = Some t /\ SendMessage t m ∈ effs)
    /\ (forall tx r, ProposalResult tx (Ok r) ∈ so_notices out -> receipt_valid ds ds' effs pw tx r).
Proof.
  intros [Hc Hconf Hso Hlive Hsticky] Hok Hst Hmax effs. unfold locked_step. rewrite Hsticky.
  pose proof (step_synced _ _ Hc Hconf Hok) as (Hc' & Hf & Hrun).
  pose proof (rejected_step (ds_core ds) input) as Hrej. subst effs.
  destruct (step (ds_core ds) input) as [core effs] eqn:Hstep. cbn [fst snd] in *.
  destruct (proposal_rejection effs) as [reason|] eqn:Hreason.
  { rewrite (Hrej reason eq_refl). eexists _, _, None. split; [reflexivity|]. split; [done|].
    split; [by split|]. split; [done|]. split; [by intros ? ? ?%elem_of_nil|]. split; [done|].
    intros tx r Hin. cbn in Hin. apply list_elem_of_fmap in Hin as (? & ? & _). done. }
  set (ds0 := ds <| ds_core := core |>).
  pose proof (register_proposal_view ds0 effs pw) as Hv1.
  pose proof (register_proposal_no_receipt ds0 effs pw) as Hn1.
  assert (pending_proposals (register_proposal ds0 effs pw).1
    = pending_proposals (register_proposal ds effs pw).1) as Hp1
    by (unfold register_proposal; by destruct pw, (first_appended effs)).
  destruct (register_proposal ds0 effs pw) as [ds1 displaced]. cbn [fst snd] in Hv1, Hn1, Hp1.
  pose proof (register_read_view ds1 effs rw) as Hv2. pose proof (register_read_pending ds1 effs rw) as Hp2.
  set (ds2 := register_read ds1 effs rw) in *. rewrite Hv1 in Hv2. injection Hv2 as E1 E2 E3 E4.
  destruct (durable_batch _ _ _ _ effs Hso Hlive Hst Hrun Hmax)
    as (st' & sm' & receipts & Happly & Hso' & Hlive' & Hrs & Hack).
  rewrite E1, E3. change (ds_store ds0) with (ds_store ds).
  change (ds_state_machine ds0) with (ds_state_machine ds). rewrite Happly.
  set (ds3 := ds2 <| ds_store := st' |> <| ds_state_machine := sm' |>).
  assert (driver_ok ds3) as Hok3.
  { split; change (ds_core ds3) with (ds_core ds2); rewrite ?E2; [exact Hc'| |exact Hso'|exact Hlive'|].
    - by eapply core_conf_frame.
    - change (sticky_fatal_error ds2 = None). by rewrite E4. }
  assert (ds_core ds3 = core) as Ecore by (change (ds_core ds2 = core); by rewrite E2).
  assert (pending_proposals ds3 = pending_proposals (register_proposal ds effs pw).1) as Hp3
    by (change (pending_proposals ds2 = pending_proposals (register_proposal ds effs pw).1); congruence).
  clearbody ds3. clear ds2 Hp2 E1 E2 E3 E4 Happly.
  by eapply (answers_valid ds3).
Qed.
End invariant.

(** ** Compaction and restart *)

Section restart.
Context `{Sha256}.
Implicit Types (ds : DriverSyncState) (c : ConsensusCore) (disk : SqliteConsensusStore).

Lemma driver_compact_ok ds ds' meta :
  driver_ok ds -> driver_compact ds = (ds', Some (Ok meta)) ->
  driver_ok ds' /\ exists m b, included_index m = commit_index (ds_core ds)
    /\ 1 <= included_index m < u64_max /\ meta_ok m /\ blob_ok b
    /\ ds_core ds' = (record_local_snapshot (ds_core ds) m b (included_index m)).1.
Proof.
  intros [Hc Hconf Hso Hlive Hsticky]. unfold driver_compact. cbv zeta.
  destruct (encode_snapshot (ds_state_machine ds)) as [b|] eqn:Henc; [|done].
  pose proof Hso as [(old & Ht) _ _ _]. destruct (live_state _ _ _ Ht _ Hlive) as [_ Hlast].
  change (rh_commit_index _) with (commit_index (ds_core ds)) in Hlast.
  pose proof (ci_commit _ Hc) as Hcm. pose proof (snapshot_index_range _ Hc) as Hsi.
  destruct (decide (1 <= commit_index (ds_core ds))) as [Hpos|Hzero].
  2:{ unfold create_snapshot. rewrite bool_decide_eq_true_2 by lia. done. }
  destruct (take_and_compact _ _ _ _ Hso Hlive Hpos Henc)
    as (disk & disk' & deleted & root & Hroot & Hcr & Hcp & Hso2 & Hlive2 & Hidx & Hi).
  assert (meta_ok (meta_of (ds_state_machine ds) root) /\ blob_ok b) as [Hmeta Hblob].
  { pose proof (live_term _ _ _ Ht _ Hlive Hpos) as Hterm. unfold i64_max in Hterm.
    pose proof (encode_snapshot_length _ _ Henc). unfold i64_max in *.
    apply bind_Some in Hroot as (body & _ & [= <-]). pose proof Hi as Hi'. cbn in Hi'.
    split; [split_and!; cbn; [width; lia..|apply sha256_range]|].
    split; [by eapply encode_snapshot_bytes|width; lia]. }
  set (m := meta_of (ds_state_machine ds) root) in *. rewrite Hcr. unfold mret, store_ret.
  cbn [of_store of_result node_then]. rewrite Hcp. unfold mret, store_ret.
  cbn [of_store of_result node_then]. change (last_applied_index (ds_state_machine ds)) with (included_index m).
  destruct (record_local_inv _ m b Hc Hidx Hi) as (Hc' & Hv & Habs & _).
  intros Heq. apply pair_equal_spec in Heq as [<- _]. split;
    [|exists m, b; exact (conj Hidx (conj Hi (conj Hmeta (conj Hblob eq_refl))))].
  unfold voting_view in Hv. injection Hv as _ _ _ _ El Ed Er Et.
  split; [exact Hc'| | | |exact Hsticky].
  - eapply core_conf_frame; [|exact Hconf]. unfold conf_view.
    set (c1 := (record_local_snapshot _ _ _ _).1) in *. change (conf_view c1 = conf_view (ds_core ds)).
    unfold conf_view. congruence.
  - change (stores disk' (abs (record_local_snapshot (ds_core ds) m b (included_index m)).1)).
    by rewrite Habs.
  - change (live (abs (record_local_snapshot (ds_core ds) m b (included_index m)).1) (ds_state_machine ds)).
    by rewrite Habs.
Qed.

(** A node starts on a directory that holds [d]. *)
Lemma engine_start_stored wal disk d id r t core :
  verify_wal_header_if_present wal = mret tt ->
  stores {| conn := initialize_strict_schema (conn disk); snapshot_files := snapshot_files disk |} d ->
  (3 <= roster_len r)%nat -> timing_validate t = Ok t -> rehydrate id r t d = Ok core ->
  exists disk' sm, engine_start wal disk id r (Some t) = (disk', Some (Ok {|
      sync_state := {| ds_store := disk'; ds_core := core; ds_state_machine := sm;
                       pending_proposals := ∅; pending_reads := ∅; sticky_fatal_error := None |};
      peer_outbound := filter (fun x => x <> id) (cell_identity <$> members r);
      next_read_id := 1; shutting_down := false |}))
    /\ live d sm /\ stores disk' d.
Proof.
  intros Hwal Hso Hlen Ht Hre. unfold engine_start. rewrite decide_False by lia.
  change (default (staggered_timing_for_roster id r) (Some t)) with t. rewrite Ht. cbn [of_result node_then].
  unfold open_or_recover. rewrite Hwal. unfold mret, store_ret. cbn [and_then].
  destruct (load_stored _ _ Hso) as (disk' & sm & -> & Hlive & Hso').
  unfold of_store, mret, store_ret. cbn [of_result node_then core_state recovered_state_machine].
  rewrite Hre. cbn [of_result node_then]. by exists disk', sm.
Qed.

(** A node that started was configured correctly. *)
Lemma engine_start_inv wal disk id r t disk' eng :
  engine_start wal disk id r (Some t) = (disk', Some (Ok eng)) ->
  (3 <= roster_len r)%nat /\ timing_validate t = Ok t /\ exists c, core_new id r t = Ok c.
Proof.
  unfold engine_start. case_decide; [done|]. change (default _ (Some t)) with t.
  destruct (timing_validate t) as [t'|] eqn:Ht; [|done]. cbn [of_result node_then].
  assert (t' = t) as -> by (revert Ht; unfold timing_validate; repeat case_match; congruence).
  destruct (open_or_recover wal disk) as [disk1 [[rec|]|]]; try done. cbn [of_store of_result node_then].
  unfold rehydrate. destruct (core_new id r t) as [c|]; [|done]. intros _. split_and!; [lia|done|by exists c].
Qed.

(** A node restarted from its own durable state has the replica it had, as a
    follower, and the same state machine. *)
Lemma engine_restart wal disk id r t c :
  verify_wal_header_if_present wal = mret tt -> stores disk (abs c) -> (3 <= roster_len r)%nat ->
  core_inv c -> core_conf c -> conf_view c = (id, local_domain c, r, t) ->
  (exists c0, core_new id r t = Ok c0) ->
  exists disk' eng, engine_start wal disk id r (Some t) = (disk', Some (Ok eng))
    /\ rehydrate id r t (abs c) = Ok (ds_core (sync_state eng))
    /\ abs (ds_core (sync_state eng)) = abs c /\ driver_ok (sync_state eng).
Proof.
  intros Hwal Hso Hlen Hc Hconf Hv Hnew.
  destruct (rehydrate_abs id r t c Hc Hconf Hv Hnew) as (c' & Hre & Hl & Hh).
  destruct (Hh ltac:(lia)) as [Hhard Hrole]. pose proof (abs_frame c c' Hl Hhard) as Habs.
  assert (timing_validate t = Ok t) as Ht.
  { destruct Hnew as [c0 Hnew]. unfold core_new in Hnew. destruct (timing_validate t) as [t'|] eqn:Hv'; [|done].
    revert Hv'. unfold timing_validate. repeat case_match; congruence. }
  pose proof (initialize_stored _ _ Hso) as Hinit.
  destruct (engine_start_stored wal disk (abs c) id r t c') as (disk' & sm & Hs & Hlive & Hso');
    [done|by rewrite Hinit|done..|].
  eexists disk', _. split; [exact Hs|]. cbn [sync_state ds_core]. split_and!; [done..|].
  split; cbn [ds_core ds_store ds_state_machine sticky_fatal_error]; try by rewrite Habs.
  - by eapply core_inv_frame.
  - eapply core_conf_frame; [by apply log_view_conf|done].
  - done.
Qed.
End restart.

(** ** Theorems *)


Definition sample_driver : DriverSyncState := {|
  ds_store := sample_disk; ds_core := sample_core; ds_state_machine := sm_new;
  pending_proposals := ∅; pending_reads := ∅; sticky_fatal_error := None |}.

Lemma sample_driver_ok : driver_ok (H := checksum_hasher) sample_driver.
Proof.
  destruct (core_new_inv _ _ _ _ _ sample_roster_new sample_core_new) as [Hc Hf].
  split; [exact Hc|exact Hf| | |reflexivity].
  - exact (empty_state_stored (H := checksum_hasher)).
  - exact (empty_state_live (H := checksum_hasher)).
Qed.


(** A driver that fails stays silent. When a step does not succeed, because
    the store failed or an earlier failure is recorded, no message leaves, no
    client is told that its proposal committed or its read may proceed, and if
    the step returned an error every later step fails and changes nothing. *)
Theorem driver_fails_closed `{Sha256} ds input peer pw rw ds' out :
  locked_step ds input peer pw rw = (ds', out) ->
  (forall reply, so_result out <> Some (Ok reply)) ->
  so_outbound out = []
  /\ (forall tx r, ProposalResult tx (Ok r) ∉ so_notices out)
  /\ (forall tx i, ReadResult tx (Ok i) ∉ so_notices out)
  /\ forall e, so_result out = Some (Err e) ->
       exists fatal, forall input' peer' pw' rw',
         locked_step ds' input' peer' pw' rw' = (ds', silent (Some (Err (DriverFatal fatal)))).
Proof.
  unfold locked_step at 1. destruct (sticky_fatal_error ds) as [fatal|] eqn:Hst.
  { intros [= <- <-] _. split_and!; [done|by intros ? ? ?%elem_of_nil..|]. intros e _. exists fatal.
    intros. unfold locked_step. by rewrite Hst. }
  destruct (step (ds_core ds) input) as [core effects]. cbv zeta.
  destruct (proposal_rejection effects) as [reason|].
  { intros [= <- <-] Hno. by destruct (Hno None). }
  pose proof (register_proposal_no_receipt (ds <| ds_core := core |>) effects pw) as Hn1.
  pose proof (register_proposal_no_read (ds <| ds_core := core |>) effects pw) as Hn2.
  destruct (register_proposal _ _ _) as [ds1 displaced]. cbn [snd] in Hn1, Hn2.
  generalize (register_read ds1 effects rw). intros ds2.
  destruct (apply_durable_effects _ _ _) as [[disk sm] [[receipts|err]|]].
  - destruct (resolve_effects _ _), (deliver_receipts _ _), (route_messages _ _ _) as [reply msgs].
    intros [= <- <-] Hno. by destruct (Hno reply).
  - intros Heq _. apply pair_equal_spec in Heq as [<- <-]. split_and!; [done..|]. intros _ _. exists err.
    intros. reflexivity.
  - intros Heq _. apply pair_equal_spec in Heq as [<- <-]. by split_and!.
Qed.

(** A vote request of a term SQLite cannot hold. *)
Lemma driver_fails_closed_witness :
  exists ds' out fatal, locked_step (H := checksum_hasher) sample_driver
      (ReceiveMessage 2 (RequestVote (2 ^ 63) 2 0 0)) (Some 2) None None = (ds', out)
    /\ so_outbound out = []
    /\ forall input' peer' pw' rw', locked_step (H := checksum_hasher) ds' input' peer' pw' rw'
         = (ds', silent (Some (Err (DriverFatal fatal)))).
Proof.
  destruct (locked_step (H := checksum_hasher) sample_driver
    (ReceiveMessage 2 (RequestVote (2 ^ 63) 2 0 0)) (Some 2) None None) as [ds' out] eqn:Hl.
  assert (so_result out = Some (Err (StoreError
    (IntegrityCorrupted "u64 value exceeds SQLite INTEGER i64::MAX")))) as Hres.
  { change out with (ds', out).2. rewrite <- Hl. vm_compute. reflexivity. }
  destruct (driver_fails_closed (H := checksum_hasher) sample_driver
    (ReceiveMessage 2 (RequestVote (2 ^ 63) 2 0 0)) (Some 2) None None ds' out Hl)
    as (Hout & _ & _ & Hlater); [intros reply Heq; rewrite Hres in Heq; discriminate Heq|].
  destruct (Hlater _ Hres) as [fatal Hfatal]. exists ds', out, fatal.
  exact (conj eq_refl (conj Hout Hfatal)).
Defined.
