(* ===== verification/Coalesce.v ===== *)
(** * Coalesce: what a peer's worker drops

    The backwards pass of [coalesce_outbound_peer_batch] is the filter that
    drops a heartbeat when a later replication message of at least its term
    follows, and nothing that matters is lost by it. *)

From S2P Require Import Prelude Bytes Commands StateMachine Roster RaftTypes RaftCore RaftLog.
From S2P Require Import Durability Wire Store SingleNode Driver.

Section coalesce.
Context (rounds : list Z).
Implicit Types (m : RaftMessage) (l : list RaftMessage).

(** A later message that makes a heartbeat of term [t] redundant. *)
Definition supersedes (t : Z) m : bool := is_replication m && bool_decide (outbound_message_term m >= t).

(** The reference: walking forwards, a heartbeat goes when a later message
    supersedes it. *)
Fixpoint drop_heartbeats l : list RaftMessage :=
  match l with
  | [] => []
  | m :: rest =>
      if droppable_heartbeat rounds m && existsb (supersedes (outbound_message_term m)) rest
      then drop_heartbeats rest else m :: drop_heartbeats rest
  end.

Definition reaches (later : option Z) (t : Z) : bool :=
  match later with Some x => bool_decide (x >= t) | None => false end.

(** The same with the term of what follows the list. *)
Fixpoint drop_before (later : option Z) l : list RaftMessage :=
  match l with
  | [] => []
  | m :: rest =>
      let t := outbound_message_term m in
      if droppable_heartbeat rounds m && (existsb (supersedes t) rest || reaches later t)
      then drop_before later rest else m :: drop_before later rest
  end.

Lemma drop_before_none l : drop_before None l = drop_heartbeats l.
Proof. induction l as [|m l IH]; [done|]. cbn. by rewrite orb_false_r, IH. Qed.

Definition extend (later : option Z) m : option Z :=
  if is_replication m
  then Some (match later with Some x => Z.max x (outbound_message_term m) | None => outbound_message_term m end)
  else later.

Lemma reaches_extend later m t : reaches (extend later m) t = supersedes t m || reaches later t.
Proof.
  unfold extend, supersedes, reaches. destruct (is_replication m); [|done]. cbn.
  destruct later as [x|]; [|by rewrite orb_false_r]. repeat case_bool_decide; try done; lia.
Qed.

Lemma drop_before_snoc later l m :
  drop_before later (l ++ [m]) = drop_before (extend later m) l ++ drop_before later [m].
Proof.
  induction l as [|x l IH]; [done|]. cbn [app drop_before]. cbv zeta.
  rewrite existsb_app, reaches_extend, IH. cbn [existsb]. rewrite orb_false_r, orb_assoc.
  by destruct (_ && _).
Qed.

Lemma droppable_replication m : droppable_heartbeat rounds m = true -> is_replication m = true.
Proof. by destruct m. Qed.

Lemma droppable_heartbeat_inv m :
  droppable_heartbeat rounds m = true ->
  exists term leader prev prev_term commit round,
    m = AppendEntries term leader prev prev_term [] commit round /\ round ∉ rounds.
Proof.
  destruct m as [| | | |t l p pt [|] k q| | |]; try done. cbn.
  rewrite negb_true_iff, bool_decide_eq_false. intros Hq. by exists t, l, p, pt, k, q.
Qed.

Lemma drop_superseded_eq l : forall later kept,
  drop_superseded rounds later (rev l) kept = drop_before later l ++ kept.
Proof.
  induction l as [|m l IH] using rev_ind; intros later kept; [done|].
  rewrite rev_unit, drop_before_snoc. cbn [drop_superseded drop_before existsb]. cbv zeta.
  pose proof (droppable_replication m) as Hrepl. unfold extend. rewrite orb_false_l. fold (reaches later (outbound_message_term m)).
  destruct (is_replication m) eqn:Hm.
  - destruct (droppable_heartbeat rounds m && reaches later (outbound_message_term m)) eqn:Hd.
    + apply andb_true_iff in Hd as [_ Hl]. unfold reaches in Hl. destruct later as [x|]; [|done].
      apply bool_decide_eq_true in Hl. rewrite Z.max_l by lia. by rewrite IH, app_nil_r.
    + by rewrite IH, <- app_assoc.
  - destruct (droppable_heartbeat rounds m) eqn:Hd; [by specialize (Hrepl eq_refl)|].
    by rewrite IH, <- app_assoc.
Qed.

(** *** What the reference keeps *)

Lemma drop_heartbeats_sublist l : drop_heartbeats l `sublist_of` l.
Proof. induction l as [|m l IH]; [done|]. cbn. by destruct (_ && _); constructor. Qed.

Lemma dedup_after_sublist l : forall prev, dedup_after prev l `sublist_of` l.
Proof. induction l as [|m l IH]; intros prev; [done|]. cbn. case_decide; constructor; apply IH. Qed.

Lemma dedup_sublist l : dedup l `sublist_of` l.
Proof. destruct l; [done|]. cbn. constructor. apply dedup_after_sublist. Qed.

Lemma dedup_after_elem l : forall prev m, m ∈ l -> m = prev \/ m ∈ dedup_after prev l.
Proof.
  induction l as [|x l IH]; intros prev m; [by intros ?%elem_of_nil|]. cbn.
  intros [->|Hm]%elem_of_cons; case_decide as Hx; [by left|right; left|by apply IH|].
  destruct (IH x m Hm) as [->|?]; right; [left|by right].
Qed.

(** Removing equal neighbours loses no message altogether. *)
Lemma dedup_elem l m : m ∈ dedup l <-> m ∈ l.
Proof.
  split; [intros; by eapply elem_of_sublist, dedup_sublist|]. destruct l as [|x l]; [done|]. cbn.
  intros [->|Hm]%elem_of_cons; [left|]. destruct (dedup_after_elem l x m Hm) as [->|?]; [left|by right].
Qed.

(** A message that goes is a heartbeat no read waits for, and a later message
    that supersedes it stays. *)
Lemma drop_heartbeats_kept l1 m l2 :
  m ∈ drop_heartbeats (l1 ++ m :: l2)
  \/ droppable_heartbeat rounds m = true
     /\ exists m', m' ∈ l2 /\ m' ∈ drop_heartbeats (l1 ++ m :: l2)
          /\ supersedes (outbound_message_term m) m' = true.
Proof.
  assert (forall x l l', x ∈ drop_heartbeats l -> x ∈ drop_heartbeats (l' ++ l)) as Happ.
  { intros x l l' Hx. induction l' as [|y l' IH]; [done|]. cbn. destruct (_ && _); [done|]. by right. }
  assert (forall l t, existsb (supersedes t) l = true ->
    exists m', m' ∈ l /\ m' ∈ drop_heartbeats l /\ supersedes t m' = true) as Hlast.
  { induction l as [|x l IH]; intros t; [done|]. cbn [existsb drop_heartbeats].
    intros Hex. destruct (droppable_heartbeat rounds x && _) eqn:Hd.
    - apply andb_true_iff in Hd as [Hdrop Hlater].
      assert (existsb (supersedes t) l = true) as Ht.
      { destruct (supersedes t x) eqn:Hx; [|done]. apply existsb_exists in Hlater as (y & Hy & Hs).
        apply existsb_exists. exists y. split; [done|]. unfold supersedes in *.
        apply andb_true_iff in Hs as [-> Hs%bool_decide_eq_true].
        apply andb_true_iff in Hx as [_ Hx%bool_decide_eq_true]. apply bool_decide_eq_true. lia. }
      destruct (IH t Ht) as (m' & ? & ? & ?). exists m'. split_and!; [by right|done..].
    - destruct (supersedes t x) eqn:Hx; [exists x; split_and!; [left|left|done]|].
      destruct (IH t Hex) as (m' & ? & ? & ?). exists m'. split_and!; [by right|by right|done]. }
  destruct (droppable_heartbeat rounds m && existsb (supersedes (outbound_message_term m)) l2) eqn:Hd.
  - right. apply andb_true_iff in Hd as [Hdrop Hex]. split; [done|].
    destruct (Hlast _ _ Hex) as (m' & Hin & Hk & Hs). exists m'. split_and!; [done| |done].
    apply Happ. cbn. rewrite Hdrop, Hex. done.
  - left. apply Happ. cbn. rewrite Hd. left.
Qed.

Lemma coalesce_reference batch t :
  coalesce_outbound_peer_batch batch t rounds
  = dedup (drop_heartbeats (filter (fun m => outbound_message_term m >= t) batch)).
Proof.
  unfold coalesce_outbound_peer_batch. by rewrite drop_superseded_eq, app_nil_r, drop_before_none.
Qed.

Lemma coalesce_recent batch t :
  coalesce_outbound_peer_batch batch t rounds
    `sublist_of` filter (fun m => outbound_message_term m >= t) batch.
Proof. rewrite coalesce_reference. etrans; [apply dedup_sublist|apply drop_heartbeats_sublist]. Qed.

Lemma coalesce_sublist batch t : coalesce_outbound_peer_batch batch t rounds `sublist_of` batch.
Proof. etrans; [apply coalesce_recent|apply sublist_filter]. Qed.
End coalesce.

(** ** Theorem *)

(** C37. Coalescing a peer's backlog drops only what is redundant. The backwards
    pass over a batch computes the forward reference: of the messages of the
    current term or later, a heartbeat goes when a later replication message of
    at least its term follows, and equal neighbours are merged. The result
    keeps the order, has no message of an older term, and every message of the
    batch that is not of an older term is either sent or a heartbeat that no
    pending read waits for and that a message sent after it supersedes. *)
Theorem coalesce_drops_redundant batch t rounds :
  let kept := coalesce_outbound_peer_batch batch t rounds in
  let recent := filter (fun m => outbound_message_term m >= t) batch in
  kept = dedup (drop_heartbeats rounds recent)
  /\ kept `sublist_of` batch /\ Forall (fun m => outbound_message_term m >= t) kept
  /\ forall l1 m l2, recent = l1 ++ m :: l2 ->
       m ∈ kept
       \/ (exists term leader prev prev_term commit round,
             m = AppendEntries term leader prev prev_term [] commit round /\ round ∉ rounds)
          /\ exists m', m' ∈ l2 /\ m' ∈ kept /\ supersedes (outbound_message_term m) m' = true.
Proof.
  intros kept recent.
  split_and!; [apply coalesce_reference|apply coalesce_sublist| |].
  - apply Forall_forall. intros m Hm. eapply elem_of_sublist in Hm; [|apply coalesce_recent].
    by apply list_elem_of_filter in Hm as [? _].
  - intros l1 m l2 Hr. unfold kept. rewrite coalesce_reference, dedup_elem. fold recent. rewrite Hr.
    destruct (drop_heartbeats_kept rounds l1 m l2) as [?|(? & m' & ? & ? & ?)]; [by left|right].
    split; [by apply droppable_heartbeat_inv|]. exists m'. by rewrite dedup_elem.
Qed.
