(* ===== verification/RaftRules.v ===== *)
(** * RaftRules: what the individual rules of the protocol decide

    Exact characterisations of the decisions of a replica: which index a leader
    commits, which reads a quorum confirms, what an acknowledged append
    guarantees, when a pre-vote is granted and when a proposal is fenced. *)

From S2P Require Import Prelude Bytes Commands Roster RaftTypes RaftCore RaftLog Durability.

Section rules.
Context `{Sha256}.
Implicit Types (c : ConsensusCore).

(** ** The commit rule *)

(** A quorum of control domains, each of a voter known to hold [idx]. *)
Definition held_by_quorum c (idx : Z) : Prop :=
  exists domains : gset Z, (quorum_size (roster c) <= size domains)%nat /\
    forall d, d ∈ domains -> exists v, v ∈ members (roster c) /\ control_domain_id v = d
      /\ idx <= default 0 (match_index c !! cell_identity v).

Lemma elem_of_replicated c idx d :
  d ∈ replicated_domains c idx <-> exists v, v ∈ members (roster c) /\ control_domain_id v = d
    /\ idx <= default 0 (match_index c !! cell_identity v).
Proof.
  unfold replicated_domains.
  assert (forall l (s : gset Z), d ∈ foldl (fun (s : gset Z) voter =>
      if decide (default 0 (match_index c !! cell_identity voter) >= idx)
      then {[control_domain_id voter]} ∪ s else s) s l
    <-> d ∈ s \/ exists v, v ∈ l /\ control_domain_id v = d
          /\ idx <= default 0 (match_index c !! cell_identity v)) as Hfold.
  { intros l. induction l as [|v l IH]; intros s; cbn [foldl].
    { split; [by left|]. by intros [?|(v & ?%elem_of_nil & _)]. }
    rewrite IH. destruct (decide _) as [Hge|Hlt]; split.
    - intros [[->%elem_of_singleton|?]%elem_of_union|(w & ? & ? & ?)]; [right|by left|right].
      + exists v. split_and!; [by left|done|lia].
      + exists w. split_and!; [by right|done..].
    - intros [?|(w & [->|?]%elem_of_cons & <- & ?)]; [left; set_solver|left; set_solver|].
      right. by exists w.
    - intros [?|(w & ? & ? & ?)]; [by left|right]. exists w. split_and!; [by right|done..].
    - intros [?|(w & [->|?]%elem_of_cons & <- & ?)]; [by left|lia|right; by exists w]. }
  rewrite Hfold. split; [|by right]. by intros [?%not_elem_of_empty|].
Qed.

Lemma commit_candidate_spec c idx :
  commit_candidate c idx = true <-> term_at c idx = Some (current_term c) /\ held_by_quorum c idx.
Proof.
  unfold commit_candidate. rewrite andb_true_iff, !bool_decide_eq_true.
  split; intros [Ht Hq]; split; try done.
  - exists (replicated_domains c idx). split; [done|]. intros d. by rewrite elem_of_replicated.
  - destruct Hq as (domains & Hsize & Hd).
    assert (domains ⊆ replicated_domains c idx) as Hsub%subseteq_size; [|lia].
    intros d Hin. by apply elem_of_replicated, Hd.
Qed.

(** Scanning upwards and keeping the last hit finds the greatest one. *)
Lemma foldl_last_hit (f : Z -> bool) n : forall start best0,
  let best := foldl (fun best idx => if f idx then idx else best) best0 (seqZ start (Z.of_nat n)) in
  (best = best0 /\ (forall i, start <= i < start + Z.of_nat n -> f i = false))
  \/ (start <= best < start + Z.of_nat n /\ f best = true
      /\ (forall i, best < i < start + Z.of_nat n -> f i = false)).
Proof.
  induction n as [|n IH]; intros start best0; cbv zeta.
  { left. split; [done|]. lia. }
  replace (Z.of_nat (S n)) with (Z.succ (Z.of_nat n)) by lia.
  rewrite seqZ_cons by lia. cbn [foldl]. rewrite Z.pred_succ.
  destruct (IH (Z.succ start) (if f start then start else best0)) as [[Hb Hn]|(Hr & Hf & Hn)];
    cbv zeta in *.
  - rewrite Hb. destruct (f start) eqn:Hs.
    + right. split_and!; [lia..|done|]. intros i Hi. apply Hn. lia.
    + left. split; [done|]. intros i Hi. destruct (decide (i = start)) as [->|]; [done|].
      apply Hn. lia.
  - right. split_and!; [lia..|done|]. intros i Hi. apply Hn. lia.
Qed.

(** The commit rule. A leader's new commit index is the greatest index above
    the old one, up to the end of its log, whose entry is of the leader's own
    term and which a quorum of distinct control domains is known to hold; when
    there is none the commit index stays. *)
Theorem leader_commit_rule c :
  let c' := (try_advance_leader_commit c).1 in
  let committable idx :=
    commit_index c < idx <= last_log_index c
    /\ term_at c idx = Some (current_term c) /\ held_by_quorum c idx in
  (commit_index c' = commit_index c /\ forall idx, ~ committable idx)
  \/ (committable (commit_index c') /\ forall idx, committable idx -> idx <= commit_index c').
Proof.
  cbv zeta. unfold try_advance_leader_commit. cbv zeta.
  destruct (decide (last_log_index c - commit_index c <= 0)) as [Hle|Hgt].
  { left. rewrite seqZ_nil by lia. cbn [foldl]. rewrite decide_False by lia. split; [done|]. lia. }
  pose proof (foldl_last_hit (commit_candidate c) (Z.to_nat (last_log_index c - commit_index c))
    (commit_index c + 1) (commit_index c)) as Hfold.
  rewrite Z2Nat.id in Hfold by lia. cbv zeta in Hfold. set (best := foldl _ _ _) in *.
  clearbody best. destruct Hfold as [[-> Hn]|(Hr & Hf & Hn)].
  - left. rewrite decide_False by lia. split; [done|].
    intros idx (Hi & Hc%commit_candidate_spec). rewrite Hn in Hc by lia. done.
  - right. rewrite decide_True by lia. cbn. apply commit_candidate_spec in Hf. split; [by split; [lia|]|].
    intros idx (Hi & Hc%commit_candidate_spec). apply Znot_gt_le. intros Hgt'.
    rewrite Hn in Hc by lia. done.
Qed.

(** ** The read rule *)

(** A round of the leader's own term that a quorum of control domains acknowledged. *)
Definition round_quorate c (round : PendingQuorumRound) : bool :=
  bool_decide (pr_term round = current_term c)
  && bool_decide (quorum_size (roster c) <= size (pr_acked_domains round))%nat.

Definition round_confirmed c (kr : Z * PendingQuorumRound) : bool :=
  round_quorate c kr.2
  && (has_authoritative_commit_view_in_current_term c
      || bool_decide (pr_waiting_read_ids kr.2 = [])).

Lemma sweep_scan_keys c :
  (sweep_scan c).2 = (filter (fun kr => round_confirmed c kr = true) (btree_iter (quorum_rounds c))).*1.
Proof.
  unfold sweep_scan. set (view := has_authoritative_commit_view_in_current_term c).
  enough (forall l lease keys, (foldl (fun '(lease, keys) '(round_id, round) =>
      if bool_decide (pr_term round = current_term c)
         && bool_decide (quorum_size (roster c) <= size (pr_acked_domains round))%nat
      then (if decide (round_id >= ll_last_confirmed_round lease)
            then {| ll_term := current_term c; ll_remaining_ticks := leader_lease_ticks (timing c);
                    ll_last_confirmed_round := round_id |} else lease,
            if view || bool_decide (pr_waiting_read_ids round = [])
            then keys ++ [round_id] else keys)
      else (lease, keys)) (lease, keys) l).2
    = keys ++ (filter (fun kr => round_confirmed c kr = true) l).*1) as Hfold.
  { exact (Hfold _ _ []). }
  induction l as [|[k round] l IH]; intros lease keys; [by rewrite app_nil_r|].
  rewrite filter_cons. cbn [foldl].
  destruct (decide (round_confirmed c (k, round) = true)) as [Hok|Hok];
    unfold round_confirmed, round_quorate in Hok; cbn [fst snd] in Hok; fold view in Hok;
    destruct (bool_decide (pr_term round = _) && _); cbn [andb] in Hok; try done; rewrite IH.
  - rewrite Hok. cbn. by rewrite <- app_assoc.
  - by destruct (view || _).
Qed.

(** Confirming the given rounds, one after the other. *)
Abbreviation confirm_all := (foldl (fun '(c, effects) key =>
  let '(c, confirmed) := sweep_confirm c key in (c, effects ++ confirmed))).

Lemma sweep_confirm_fields c key : let c' := (sweep_confirm c key).1 in
  quorum_rounds c' = delete key (quorum_rounds c)
  /\ current_term c' = current_term c /\ commit_index c' = commit_index c.
Proof.
  unfold sweep_confirm. destruct (quorum_rounds c !! key) eqn:Hk; [done|].
  cbn. by rewrite delete_id.
Qed.

Lemma confirm_all_reads keys : forall c effs rid t i, NoDup keys ->
  LinearizableReadConfirmed rid t i ∈ (confirm_all (c, effs) keys).2 <->
  LinearizableReadConfirmed rid t i ∈ effs \/
  exists key round, key ∈ keys /\ quorum_rounds c !! key = Some round
    /\ rid ∈ pr_waiting_read_ids round /\ t = current_term c
    /\ i = Z.max (commit_index c) (pr_commit_index_at_issue round).
Proof.
  induction keys as [|key keys IH]; intros c effs rid t i Hnd; cbn [foldl].
  { split; [by left|]. by intros [?|(? & ? & ?%elem_of_nil & _)]. }
  apply NoDup_cons in Hnd as [Hnew Hnd].
  pose proof (sweep_confirm_fields c key) as (Hq & Ht & Hc). cbv zeta in *.
  assert (forall eff, eff ∈ (sweep_confirm c key).2 <-> exists round rid,
    quorum_rounds c !! key = Some round /\ rid ∈ pr_waiting_read_ids round
    /\ eff = LinearizableReadConfirmed rid (current_term c)
         (Z.max (commit_index c) (pr_commit_index_at_issue round))) as Heff.
  { intros eff. unfold sweep_confirm. destruct (quorum_rounds c !! key) as [round|]; cbn.
    - rewrite list_elem_of_fmap. split; [intros (r & -> & ?); by exists round, r|].
      intros (? & r & [= <-] & ? & ->). by exists r.
    - split; [by intros ?%elem_of_nil|]. by intros (? & ? & ? & _). }
  destruct (sweep_confirm c key) as [c1 confirmed]. cbn [fst snd] in *.
  rewrite IH by done. rewrite elem_of_app, Heff, Hq, Ht, Hc. split.
  - intros [[?|(round & r & ? & ? & [= -> -> ->])]|(k & round & Hk & Hl & ?)]; [by left|..]; right.
    + exists key, round. split_and!; try done. by left.
    + exists k, round. apply lookup_delete_Some in Hl as [_ Hl]. split_and!; [by right|naive_solver..].
  - intros [?|(k & round & [->|Hk]%elem_of_cons & Hl & Hr & -> & ->)]; [naive_solver| |].
    + left. right. naive_solver.
    + right. exists k, round. split_and!; try done. rewrite lookup_delete_ne; [done|]. set_solver.
Qed.

(** The read rule. A leader confirms a linearizable read exactly when the
    read waits on a round issued in the leader's current term that a quorum of
    distinct control domains has acknowledged, while the leader's commit index
    is known to be current for its term (its entry there is of the term, or the
    log is empty). The confirmed index covers both the commit index and the
    commit index the read was issued at. *)
Theorem linearizable_read_rule c rid t i :
  LinearizableReadConfirmed rid t i ∈ (sweep_confirmed_quorum_rounds c).2 <->
  has_authoritative_commit_view_in_current_term c = true /\ t = current_term c /\
  exists key round, quorum_rounds c !! key = Some round /\ rid ∈ pr_waiting_read_ids round
    /\ pr_term round = current_term c
    /\ (quorum_size (roster c) <= size (pr_acked_domains round))%nat
    /\ i = Z.max (commit_index c) (pr_commit_index_at_issue round).
Proof.
  unfold sweep_confirmed_quorum_rounds. pose proof (sweep_scan_keys c) as Hkeys.
  destruct (sweep_scan c) as [lease keys]. cbn [snd] in Hkeys.
  set (c1 := c <| leader_lease := lease |>). rewrite confirm_all_reads.
  2: { rewrite Hkeys. eapply sublist_NoDup; [apply (NoDup_fst_btree_iter (quorum_rounds c))|].
       apply fmap_sublist, sublist_filter. }
  change (quorum_rounds c1) with (quorum_rounds c).
  change (current_term c1) with (current_term c). change (commit_index c1) with (commit_index c).
  split.
  - intros [?%elem_of_nil|(k & round & Hk & Hl & Hr & -> & ->)]; [done|].
    rewrite Hkeys in Hk. apply list_elem_of_fmap in Hk as ([k' round'] & -> & [Hok Hin]%list_elem_of_filter).
    apply elem_of_btree_iter in Hin. cbn [fst] in Hl. assert (round' = round) as -> by congruence.
    unfold round_confirmed, round_quorate in Hok. cbn [snd] in Hok.
    rewrite !andb_true_iff, orb_true_iff, !bool_decide_eq_true in Hok.
    destruct Hok as [[Ht Hq] [Hv|Hnil]]; [|rewrite Hnil in Hr; by apply elem_of_nil in Hr].
    split_and!; [done..|]. exists k', round. by split_and!.
  - intros (Hv & -> & k & round & Hl & Hr & Ht & Hq & ->). right. exists k, round.
    split_and!; try done. rewrite Hkeys. apply list_elem_of_fmap. exists (k, round). split; [done|].
    apply list_elem_of_filter. split; [|by apply elem_of_btree_iter].
    unfold round_confirmed, round_quorate. cbn [snd].
    by rewrite Hv, !bool_decide_eq_true_2 by done.
Qed.

(** ** The append rule *)

Lemma contiguous_ascending base l : contiguous base l -> ascending l.
Proof.
  revert base. induction l as [|e l IH]; intros base Hl; [constructor|].
  apply contiguous_cons in Hl as [He Hl]. constructor; [by eapply IH|].
  apply Forall_forall. intros e' [i Hi]%list_elem_of_lookup. rewrite (Hl _ _ Hi). lia.
Qed.

Lemma follower_advance_fields c leader_commit : let c' := (follower_advance_commit c leader_commit).1 in
  log_tail c' = log_tail c /\ snapshot_meta c' = snapshot_meta c.
Proof. unfold follower_advance_commit. cbv zeta. by repeat gcase. Qed.

Lemma term_at_prev_bound c prev t :
  core_inv c -> snapshot_index c <= prev -> term_at c prev = Some t ->
  prev + 1 <= first_uncompacted_index c + Z.of_nat (length (log_tail c)).
Proof.
  intros Hc Hprev Ht. rewrite first_uncompacted_snapshot by done.
  destruct (decide (prev = snapshot_index c)) as [->|Hne]; [lia|].
  rewrite term_at_tail in Ht by (done || lia).
  apply fmap_Some in Ht as (e & He & _). pose proof (tail_get_bound c Hc _ _ He) as Hb.
  rewrite last_log_index_length in Hb by done. lia.
Qed.

Lemma reconcile_and_commit_holds c leader entries start leader_commit round effs :
  core_inv c -> contiguous start entries -> Forall (fun e => verify_integrity e = true) entries ->
  start <= first_uncompacted_index c + Z.of_nat (length (log_tail c)) -> snapshot_index c < start ->
  let c' := (reconcile_and_commit_entries c leader entries leader_commit round effs).1 in
  (forall e, e ∈ entries -> commit_index c < e_index e -> term_at c' (e_index e) = Some (e_term e))
  /\ (forall i, i < start -> term_at c' i = term_at c i).
Proof.
  intros Hc Hcont Hver Hle Hsnap. unfold reconcile_and_commit_entries.
  destruct (reconcile_spec entries c leader round effs []) as (keep & added & cut & -> & [Ha Hcut Hm]);
    [by eapply contiguous_ascending|done|].
  set (c1 := c <| log_tail := _ |>).
  pose proof (follower_advance_fields c1 leader_commit) as [Hl Hs]. cbv zeta in Hl, Hs.
  destruct (follower_advance_commit c1 leader_commit) as [c2 advance]. cbn [fst] in *.
  change (snapshot_meta c1) with (snapshot_meta c) in Hs.
  change (log_tail c1) with (take keep (log_tail c) ++ added) in Hl.
  assert (first_uncompacted_index c2 = first_uncompacted_index c) as Hb
    by (unfold first_uncompacted_index; by rewrite Hs).
  pose proof (first_uncompacted_snapshot c Hc) as Hbase.
  assert (forall i, snapshot_index c < i -> term_at c2 i
    = e_term <$> (take keep (log_tail c) ++ added) !! Z.to_nat (i - first_uncompacted_index c)) as Hterm.
  { intros i Hi. pose proof (snapshot_index_range c Hc). unfold term_at, tail_get.
    rewrite decide_False by lia. unfold snapshot_index in Hi. rewrite Hs, Hl, Hb.
    rewrite (decide_True (P := first_uncompacted_index c <= i)) by (unfold snapshot_index in *; lia).
    destruct (snapshot_meta c); [|done]. cbn in Hi. by rewrite !decide_False by lia. }
  split.
  - intros e He Hcommit. pose proof (ci_commit c Hc). rewrite Hterm by lia.
    destruct (Hm start Hcont Hle e He) as [?|?]; [lia|lia|done].
  - intros i Hi. destruct (decide (i <= snapshot_index c)) as [Hlow|Hhigh].
    { unfold term_at, snapshot_index in *. rewrite Hs. destruct (decide (i = 0)); [done|].
      destruct (snapshot_meta c) as [m|]; cbn in Hlow, Hbase;
        [|unfold tail_get; rewrite Hb, Hbase; by rewrite !decide_False by lia].
      destruct (decide (i = included_index m)); [done|]. by rewrite !decide_True by lia. }
    rewrite Hterm by lia. rewrite term_at_tail, tail_get_lookup by (done || lia).
    rewrite <- Hbase.
    assert (Z.to_nat (i - first_uncompacted_index c) < keep)%nat as Hk.
    { destruct Hcut as [[-> _]|(_ & _ & (e & [j Hj]%list_elem_of_lookup & He) & _)]; [lia|].
      rewrite (Hcont _ _ Hj) in He. lia. }
    rewrite lookup_app_l by (rewrite length_take; lia). by rewrite lookup_take_lt.
Qed.

Lemma term_at_frame c c' : log_view c' = log_view c -> forall i, term_at c' i = term_at c i.
Proof.
  unfold log_view. intros [= E1 _ E2 _ _ _ _ _] i.
  unfold term_at, tail_get, first_uncompacted_index. by rewrite E1, E2.
Qed.

Lemma prologue_silent c term to m : SendMessage to m ∉ (prologue c term).2.
Proof.
  unfold prologue, step_down_to_higher_term. gcase; [|apply not_elem_of_nil]. cbn [snd].
  intros [Hin|[Hin|Hin]%elem_of_app]%elem_of_app.
  - by apply list_elem_of_singleton in Hin.
  - destruct (bool_decide _); [by apply list_elem_of_singleton in Hin|by apply elem_of_nil in Hin].
  - by apply list_elem_of_fmap in Hin as (rid & ? & _).
Qed.

(** An acknowledged append is held. When a follower answers an append that
    starts at or above its snapshot with success, then its log agrees with the
    leader's on the entry before the appended ones, and holds an entry of the
    leader's term for every appended index above its commit index; the log
    below is as it was. *)
Theorem acknowledged_append_is_held c term leader prev prev_term entries leader_commit round
    c' effs t me m ct ci :
  core_inv c -> contiguous (prev + 1) entries ->
  Forall (fun e => verify_integrity e = true) entries -> snapshot_index c <= prev ->
  on_append_entries c term leader prev prev_term entries leader_commit round = (c', effs) ->
  SendMessage leader (AppendEntriesResponse t me true m ct ci round) ∈ effs ->
  term_at c' prev = Some prev_term
  /\ (forall e, e ∈ entries -> commit_index c < e_index e ->
       term_at c' (e_index e) = Some (e_term e))
  /\ (forall i, i <= prev -> term_at c' i = term_at c i).
Proof.
  intros Hc Hcont Hver Hprev. unfold on_append_entries. fold (prologue c term).
  pose proof (prologue_fields c term) as (_ & _ & _ & Hl & _). cbv zeta in Hl.
  pose proof (prologue_silent c term) as Hsilent.
  destruct (prologue c term) as [c1 effs1]. cbn [fst snd] in *.
  assert (forall resp, SendMessage leader (AppendEntriesResponse t me true m ct ci round)
    ∈ effs1 ++ [resp] -> resp = SendMessage leader (AppendEntriesResponse t me true m ct ci round))
    as Hresp.
  { intros resp [Hin|Hin]%elem_of_app; [by apply Hsilent in Hin|].
    by apply list_elem_of_singleton in Hin. }
  gcase; [intros [= <- <-] Hin%Hresp; by injection Hin|]. cbv zeta.
  set (c2 := c1 <| role := Follower |> <| known_leader := _ |> <| ticks_since_leader_contact := 0 |>).
  assert (log_view c2 = log_view c) as Hl2 by (rewrite <- Hl; view_eq). clearbody c2.
  pose proof (core_inv_frame c c2 Hl2 Hc) as Hc2. pose proof (term_at_frame c c2 Hl2) as Ht2.
  assert (snapshot_index c2 = snapshot_index c /\ commit_index c2 = commit_index c) as [Hs2 Hm2].
  { unfold log_view in Hl2. injection Hl2 as E1 _ _ E2 _ _ _ _. unfold snapshot_index. by rewrite E1. }
  fold (snapshot_index c2). rewrite decide_False by lia.
  destruct (term_at c2 prev) as [local_prev|] eqn:Hp;
    [|intros [= <- <-] Hin%Hresp; by injection Hin].
  destruct (decide (local_prev <> prev_term)) as [|Heq];
    [intros [= <- <-] Hin%Hresp; by injection Hin|].
  apply dec_stable in Heq as ->. intros Heq _. rewrite <- Hs2 in Hprev.
  destruct (reconcile_and_commit_holds c2 leader entries (prev + 1) leader_commit round effs1)
    as [H1 H2]; [done..|by eapply term_at_prev_bound|lia|].
  rewrite Heq in H1, H2. cbn [fst] in *. split_and!.
  - by rewrite H2 by lia.
  - by rewrite Hm2 in H1.
  - intros i Hi. rewrite H2 by lia. by rewrite <- Ht2.
Qed.

(** ** Elections without disruption *)

Lemma on_tick_hard_view c : hard_view (on_tick c).1 = hard_view c.
Proof.
  unfold on_tick. cbv zeta. gcase; [done|]. set (c1 := if decide _ then _ else _).
  assert (hard_view c1 = hard_view c) as <- by (subst c1; by gcase).
  clearbody c1. destruct (role c1); gcase; view_eq.
Qed.

(** Pre-votes disturb nobody. A pre-vote request never changes the replica it
    reaches, and a timeout changes neither term nor vote. A pre-vote is only
    granted to a voter asking for itself, for a higher term, with a log at least
    as up to date, by a replica that is not leader and has not heard from a
    leader within its lease. *)
Theorem pre_vote_is_harmless c from prospective cand cand_index cand_term :
  let r := step c (ReceiveMessage from (RequestPreVote prospective cand cand_index cand_term)) in
  r.1 = c /\ hard_view (step c Tick).1 = hard_view c /\
  forall to t p v, SendMessage to (RequestPreVoteResponse t p v true) ∈ r.2 ->
    contains (roster c) from = true /\ to = from /\ cand = from /\ p = prospective
    /\ current_term c < prospective /\ role c <> Leader
    /\ ~ (is_Some (known_leader c) /\ ticks_since_leader_contact c < leader_lease_ticks (timing c))
    /\ (last_log_term c < cand_term
        \/ (last_log_term c = cand_term /\ last_log_index c <= cand_index)).
Proof.
  cbv zeta. split_and!; [|apply on_tick_hard_view|].
  - cbn [step]. unfold on_message. gcase; [done|]. by gcase.
  - intros to t p v. cbn [step]. unfold on_message.
    destruct (negb _ || _) eqn:Hg; [by intros ?%elem_of_nil|].
    apply orb_false_iff in Hg as [Hin%negb_false_iff _].
    destruct (decide (cand <> from)) as [|Heq]; [by intros ?%elem_of_nil|].
    apply dec_stable in Heq as ->. cbn [snd]. unfold on_request_pre_vote. cbv zeta.
    intros Hm%list_elem_of_singleton. injection Hm as -> -> -> -> Hgrant. symmetry in Hgrant.
    unfold log_up_to_date in Hgrant.
    rewrite !andb_true_iff, negb_true_iff, orb_false_iff, andb_false_iff in Hgrant.
    rewrite !bool_decide_eq_true, !bool_decide_eq_false in Hgrant.
    destruct Hgrant as [[? [? Hheard]] ?]. split_and!; try done; [lia|].
    intros [? ?]. by destruct Hheard.
Qed.

(** ** Fencing *)

Lemma check_leader_gate_spec c expected :
  check_leader_gate c expected = Ok tt <->
  role c = Leader /\ (expected = None \/ expected = Some (current_term c)).
Proof.
  unfold check_leader_gate. destruct expected as [t|].
  - gcase; [split; [done|]; intros [_ [|[= ->]]]; [done|lia]|].
    destruct (_ || _) eqn:Hg.
    + split; [done|]. intros [Hr [|[= ->]]]; [done|].
      by rewrite !bool_decide_eq_false_2 in Hg by tauto.
    + apply orb_false_iff in Hg as [Hr Ht]. apply bool_decide_eq_false in Hr, Ht.
      apply dec_stable in Hr, Ht. subst t. split; [|done]. intros _. by split; [|right].
  - destruct (decide (role c <> Leader)) as [Hr|Hr].
    + split; [|by intros [? _]]. destruct (former_leader_term c); [by gcase|done].
    + apply dec_stable in Hr. split; [|done]. intros _. by split; [|left].
Qed.

(** Proposals and reads are fenced. A proposal or read is taken up only by a
    leader, and when it names a term only by the leader of exactly that term;
    then the proposal is appended as one entry of the leader's term. Otherwise
    the replica is unchanged and the caller gets one rejection. *)
Theorem proposals_are_fenced c p rid expected :
  let c' := (step c (Propose p expected)).1 in
  if decide (role c = Leader /\ (expected = None \/ expected = Some (current_term c)))
  then log_tail c'
       = log_tail c ++ [entry_new (saturating_add64 (last_log_index c) 1) (current_term c) p]
  else exists reason,
    step c (Propose p expected) = (c, [ProposalRejected None reason])
    /\ step c (RequestLinearizableRead rid expected) = (c, [ProposalRejected (Some rid) reason]).
Proof.
  cbv zeta. cbn [step]. unfold on_propose, on_request_linearizable_read.
  pose proof (check_leader_gate_spec c expected) as Hgate.
  destruct (decide _) as [Hok|Hno].
  - rewrite (proj2 Hgate Hok). gcase; view_eq.
  - destruct (check_leader_gate c expected) as [[]|reason]; [by destruct Hno; apply Hgate|].
    by exists reason.
Qed.
End rules.

(** ** A concrete append *)

Definition sample_entry : RaftLogEntry := entry_new (H := checksum_hasher) 1 1 sample_proposal.

Definition sample_append : stepped :=
  on_append_entries (H := checksum_hasher) sample_core 1 2 0 0 [sample_entry] 0 5.

Lemma acknowledged_append_is_held_witness :
  term_at sample_append.1 0 = Some 0
  /\ (forall e, e ∈ [sample_entry] -> commit_index sample_core < e_index e ->
       term_at sample_append.1 (e_index e) = Some (e_term e))
  /\ (forall i, i <= 0 -> term_at sample_append.1 i = term_at sample_core i).
Proof.
  apply (acknowledged_append_is_held (H := checksum_hasher) sample_core 1 2 0 0 [sample_entry] 0 5
    sample_append.1 sample_append.2 1 1 1 None 0).
  - apply (core_new_inv 1 sample_voters sample_roster timing_default);
      [exact sample_roster_new|exact sample_core_new].
  - by apply contiguous_single.
  - repeat constructor; apply entry_new_verifies.
  - vm_compute. discriminate.
  - unfold sample_append. by destruct (on_append_entries _ _ _ _ _ _ _ _).
  - vm_compute. by repeat constructor.
Defined.
