(* ===== verification/Transfer.v ===== *)
(** * Transfer: a snapshot transfer completes

    A leader that has compacted what a follower still misses sends its snapshot
    in chunks, each on the answer to the one before. The exchange ends, after at
    most one round per chunk and one to agree on where to begin, with the
    snapshot installed. *)

From S2P Require Import Prelude Bytes Commands StateMachine Roster RaftTypes RaftCore RaftLog.

(** ** The exchange *)

(** The first message for [peer] among the effects of a step. *)
Definition message_to (peer : Z) (effs : list ConsensusEffect) : option RaftMessage :=
  head (omap (fun eff => match eff with
    | SendMessage to m => if decide (to = peer) then Some m else None
    | _ => None
    end) effs).

Section exchange.
Context `{Sha256}.
Implicit Types (leader follower : ConsensusCore).

(** At most [rounds] messages from the leader and as many answers, until the
    follower answers that the snapshot is installed. *)
Fixpoint exchange (rounds : nat) leader follower (m : RaftMessage) :
    option (ConsensusCore * ConsensusCore) :=
  match rounds with
  | O => None
  | S rounds =>
      let '(follower, effs) := step follower (ReceiveMessage (local_id leader) m) in
      answer ← message_to (local_id leader) effs;
      let '(leader, effs) := step leader (ReceiveMessage (local_id follower) answer) in
      match answer with
      | InstallSnapshotResponse _ _ _ _ true => Some (leader, follower)
      | _ => m ← message_to (local_id follower) effs; exchange rounds leader follower m
      end
  end.
End exchange.

Section transfer.
Context `{Sha256} (T lid fid : Z) (meta : SnapshotMetadata) (b : bytes) (cap : nat).
Context (Hcap : (0 < cap)%nat) (Hne : lid <> fid) (Hidx : 1 <= included_index meta).
Implicit Types (leader follower c : ConsensusCore).

Definition sha : Z := compute_snapshot_transfer_sha256 (included_index meta) (included_term meta)
  (state_root meta) b.

(** The leader of term [T], with its snapshot, is to send from offset [o]. *)
Record sender leader (o : nat) : Prop := {
  sd_role : role leader = Leader;
  sd_term : current_term leader = T;
  sd_id : local_id leader = lid;
  sd_peer : contains (roster leader) fid = true;
  sd_meta : snapshot_meta leader = Some meta;
  sd_bytes : snapshot_bytes leader = Some b;
  sd_cap : Nat.max (max_snapshot_chunk_bytes (timing leader)) 64 = cap;
  sd_next : exists n, next_index leader !! fid = Some n /\ n <= included_index meta;
  sd_offset : default 0 (snapshot_send_offset leader !! fid) = Z.of_nat o;
}.

(** The follower, which has not committed what the snapshot covers. *)
Record receiver follower : Prop := {
  rv_id : local_id follower = fid;
  rv_peer : contains (roster follower) lid = true;
  rv_term : current_term follower <= T;
  rv_commit : commit_index follower < included_index meta;
}.

(** The staging area belongs to this transfer. *)
Definition staged_here (s : InboundSnapshotStaging) : bool :=
  staging_matches s T lid (included_index meta) (included_term meta) (state_root meta) sha
    (Z.of_nat (length b)).

(** The follower has staged the first [p] bytes; nothing, when it has no staging
    area for this transfer. *)
Definition staged follower (p : nat) : Prop :=
  (p <= length b)%nat /\
  match inbound_snapshot follower with
  | Some s => if staged_here s then st_buffer s = take p b else p = 0%nat
  | None => p = 0%nat
  end.

Definition chunk_end (o : nat) : nat := Nat.min (o + cap) (length b).
Definition chunk (o : nat) : RaftMessage :=
  InstallSnapshotChunk T lid (included_index meta) (included_term meta) (state_root meta) sha
    (Z.of_nat (length b)) (Z.of_nat o) (slice o (chunk_end o) b)
    (bool_decide (length b <= chunk_end o)%nat).

Lemma sender_sends leader o round :
  sender leader o -> (o <= length b)%nat ->
  build_replication_for_peer leader fid round = SendMessage fid (chunk o).
Proof.
  intros [Hrole Ht Hid Hp Hm Hb Hc (n & Hn & Hni) Ho] Hle.
  unfold build_replication_for_peer. rewrite Hm, Hb, Hn, Ho, Hc, Hid, Ht. cbn [default]. cbv zeta.
  rewrite decide_True by (cbn; lia). unfold chunk, chunk_end, sha. rewrite Nat2Z.id.
  by replace (Nat.min o (length b)) with o by lia.
Qed.

(** ** The follower's side *)

Definition sends_none (effs : list ConsensusEffect) : Prop :=
  Forall (fun eff => match eff with SendMessage _ _ => False | _ => True end) effs.

Lemma message_to_skip peer effs effs' : sends_none effs -> message_to peer (effs ++ effs') = message_to peer effs'.
Proof. induction 1 as [|eff effs He _ IH]; [done|]. by destruct eff. Qed.

Definition response (p : nat) (installed : bool) : RaftMessage :=
  InstallSnapshotResponse T fid (included_index meta) (Z.of_nat p) installed.

Lemma answer_last effs p installed :
  sends_none effs -> message_to lid (effs ++ [SendMessage lid (response p installed)]) = Some (response p installed).
Proof. intros He. rewrite message_to_skip by done. unfold message_to. cbn. by rewrite decide_True. Qed.

(** What the exchange needs of a follower. *)
Definition receiver_view c := (local_id c, roster c, current_term c, commit_index c, inbound_snapshot c).

Lemma prologue_receiver c :
  current_term c <= T ->
  let '(c1, effs) := prologue c T in
  receiver_view c1 = (local_id c, roster c, T, commit_index c, inbound_snapshot c) /\ sends_none effs.
Proof.
  intros Ht. unfold prologue. case_decide.
  - unfold step_down_to_higher_term. cbv zeta. split; [by destruct (bool_decide _)|].
    repeat (apply Forall_app; split); [by repeat constructor|by destruct (bool_decide _); repeat constructor|].
    by apply Forall_fmap, Forall_forall.
  - split; [|constructor]. unfold receiver_view. repeat f_equal. lia.
Qed.

(** The follower after a message: ready for the rest with [p] bytes staged. *)
Definition waiting (r : stepped) (p : nat) : Prop :=
  receiver r.1 /\ staged r.1 p /\ message_to lid r.2 = Some (response p false).

(** The follower after the last chunk. *)
Definition installed c : Prop :=
  local_id c = fid /\ snapshot_meta c = Some meta /\ snapshot_bytes c = Some b
  /\ commit_index c = included_index meta.

Definition finished (r : stepped) : Prop :=
  installed r.1 /\ message_to lid r.2 = Some (response (length b) true).

Lemma waiting_intro c effs p :
  receiver_view c = (fid, roster c, T, commit_index c, inbound_snapshot c) ->
  contains (roster c) lid = true -> commit_index c < included_index meta -> staged c p -> sends_none effs ->
  waiting (c, effs ++ [snapshot_response c lid (included_index meta) (Z.of_nat p) false]) p.
Proof.
  intros [= Hid Ht] Hp Hc Hs He. unfold waiting. cbn [fst snd].
  split; [split; [done|done|lia|done]|]. split; [done|].
  unfold snapshot_response. rewrite Hid, Ht. by apply answer_last.
Qed.

Lemma slice_extends o : (o <= chunk_end o)%nat -> take o b ++ slice o (chunk_end o) b = take (chunk_end o) b.
Proof. intros Ho. unfold slice. rewrite take_take_drop. f_equal. lia. Qed.

(** The last byte has arrived. *)
Lemma complete_install_finishes c effs s :
  local_id c = fid -> current_term c = T -> commit_index c < included_index meta ->
  staged_here s = true -> st_buffer s = b -> sends_none effs ->
  finished (complete_install c lid (included_index meta) (included_term meta) (Z.of_nat (length b)) s effs).
Proof.
  intros Hid Ht Hc Hs Hb He. unfold staged_here, staging_matches in Hs.
  rewrite !andb_true_iff, !bool_decide_eq_true in Hs. destruct Hs as ((((((_ & _) & Ei) & Et) & Er) & Esha) & _).
  unfold complete_install. rewrite Ei, Et, Er, Hb, Esha. fold sha. cbv zeta.
  rewrite decide_False by (intros Hx; by apply Hx).
  match goal with |- finished (?x, _) => set (c' := x) end.
  assert (local_id c' = fid /\ current_term c' = T) as [Hid' Ht'] by by split.
  split.
  - split; [exact Hid'|]. split; [by destruct meta|]. split; [reflexivity|]. cbn. lia.
  - cbn [snd]. unfold snapshot_response. rewrite Hid', Ht'.
    change [?x; ?y] with ([x] ++ [y]). rewrite app_assoc. apply answer_last.
    apply Forall_app. split; [done|by repeat constructor].
Qed.

(** A chunk where the follower expects it. *)
Lemma stage_chunk_aligned c effs s o :
  receiver_view c = (fid, roster c, T, commit_index c, Some s) ->
  contains (roster c) lid = true -> commit_index c < included_index meta ->
  staged_here s = true -> st_buffer s = take o b -> (o <= length b)%nat -> sends_none effs ->
  let r := stage_chunk c lid (included_index meta) (included_term meta) (Z.of_nat (length b)) (Z.of_nat o)
    (slice o (chunk_end o) b) (bool_decide (length b <= chunk_end o)%nat) s effs in
  if decide (length b <= chunk_end o)%nat then finished r else waiting r (chunk_end o).
Proof.
  intros Hv Hp Hc Hs Hbuf Ho He. unfold stage_chunk. rewrite Hbuf, length_take, Nat.min_l by lia.
  rewrite (decide_False (P := Z.of_nat o <> Z.of_nat o)) by (intros Hx; by apply Hx). rewrite slice_extends by (unfold chunk_end; lia).
  cbv zeta. cbn [st_buffer]. set (s' := {| st_buffer := _ |}).
  assert (length (take (chunk_end o) b) = chunk_end o) as Hlen
    by (rewrite length_take; unfold chunk_end; lia).
  rewrite Hlen. rewrite (decide_False (P := Z.of_nat (chunk_end o) > _)) by (unfold chunk_end; lia).
  assert (staged_here s' = true) as Hs' by exact Hs.
  pose proof Hv as [= Hid Ht Hin].
  destruct (decide (length b <= chunk_end o)%nat) as [Hend|Hend].
  - rewrite bool_decide_eq_true_2 by done. cbn [negb]. rewrite decide_False by (unfold chunk_end in *; lia).
    apply complete_install_finishes; [exact Hid|exact Ht|exact Hc|exact Hs'|by apply take_ge|exact He].
  - rewrite bool_decide_eq_false_2 by done. cbn [negb].
    apply waiting_intro; [|exact Hp|exact Hc| |exact He].
    + unfold receiver_view. cbn. by rewrite Hid, Ht.
    + split; [unfold chunk_end; lia|]. cbn [inbound_snapshot]. cbn. rewrite Hs'. done.
Qed.

(** A follower handles a chunk: it takes the one it expects and asks for that one
    otherwise. *)
Lemma receive c p o :
  receiver c -> staged c p -> (o <= length b)%nat ->
  let r := step c (ReceiveMessage lid (chunk o)) in
  if decide (o = p)
  then if decide (length b <= chunk_end o)%nat then finished r else waiting r (chunk_end o)
  else waiting r p.
Proof.
  intros [Hid Hp Ht Hc] [Hpl Hst] Ho. cbv zeta. unfold chunk, step, on_message.
  rewrite Hp. rewrite bool_decide_eq_false_2 by congruence. cbn [negb orb].
  rewrite (decide_False (P := lid <> lid)) by (intros Hx; by apply Hx).
  unfold on_install_snapshot_chunk. fold (prologue c T). pose proof (prologue_receiver c Ht) as Hpr.
  destruct (prologue c T) as [c1 effs]. destruct Hpr as [[= E1 E2 E3 E4 E5] He].
  rewrite (decide_False (P := T < current_term c1)) by lia. cbv zeta.
  set (c2 := c1 <| role := _ |> <| known_leader := _ |> <| ticks_since_leader_contact := _ |>).
  assert (receiver_view c2 = (fid, roster c2, T, commit_index c2, inbound_snapshot c)) as Hv.
  { unfold receiver_view. cbn. by rewrite E1, E3, E5, Hid. }
  assert (contains (roster c2) lid = true) as Hp2 by (cbn; by rewrite E2).
  assert (commit_index c2 < included_index meta) as Hc2 by (cbn; by rewrite E4).
  clearbody c2. clear E1 E2 E3 E4 E5. pose proof Hv as [= V1 V3 V5].
  rewrite (decide_False (P := included_index meta <= commit_index c2)) by lia. rewrite V5.
  match goal with |- context [negb ?x] => set (existing := x) end.
  assert (existing = true
    /\ (exists s, inbound_snapshot c = Some s /\ staged_here s = true /\ st_buffer s = take p b)
    \/ existing = false /\ p = 0%nat) as Hcases.
  { change existing with (match inbound_snapshot c with Some s => staged_here s | None => false end).
    destruct (inbound_snapshot c) as [s|]; [|by right]. destruct (staged_here s) eqn:Hs; [left; eauto|by right]. }
  clearbody existing. destruct Hcases as [[-> (s & Hin & Hs & Hbuf)]|[-> ->]].
  - cbn [negb andb]. rewrite V5, Hin. rewrite Hin in Hv. destruct (decide (o = p)) as [->|Hop].
    { by apply stage_chunk_aligned. }
    unfold stage_chunk. rewrite Hbuf, length_take, Nat.min_l by lia. cbv zeta. rewrite decide_True by lia.
    apply waiting_intro; [congruence|done|done| |done]. split; [done|]. rewrite V5, Hin, Hs. done.
  - cbn [negb andb]. destruct (decide (o = 0%nat)) as [->|Ho0].
    + rewrite bool_decide_eq_false_2 by (intros Hx; by apply Hx). cbn [inbound_snapshot].
      match goal with |- context [c2 <| inbound_snapshot := Some ?x |>] => set (s := x) end.
      apply (stage_chunk_aligned (c2 <| inbound_snapshot := Some s |>) effs s 0);
        [|exact Hp2|exact Hc2| |done|lia|done].
      * unfold receiver_view. cbn. by rewrite V1, V3.
      * unfold staged_here, staging_matches. cbn. by rewrite !bool_decide_eq_true_2.
    + rewrite bool_decide_eq_true_2 by lia. unfold reset_and_nack. cbv zeta.
      apply (waiting_intro (c2 <| inbound_snapshot := None |>) effs 0); [|exact Hp2|exact Hc2| |done].
      * unfold receiver_view. cbn. by rewrite V1, V3.
      * split; [lia|]. done.
Qed.

(** ** The leader's side *)

(** The leader moves to offset [p] and sends from there. *)
Lemma advance_sender leader o p :
  sender leader o -> (p <= length b)%nat ->
  let r := let '(c, round_id) := allocate_quorum_round
             (leader <| snapshot_send_offset := <[fid := Z.of_nat p]> (snapshot_send_offset leader) |>) None in
           (c, [build_replication_for_peer c fid round_id]) in
  sender r.1 p /\ message_to fid r.2 = Some (chunk p).
Proof.
  intros [Hrole Ht Hid Hpeer Hm Hb Hc Hn Ho] Hpl.
  set (c := leader <| snapshot_send_offset := _ |>).
  assert (sender (allocate_quorum_round c None).1 p) as Hsd.
  { split; try done. cbn. by rewrite lookup_insert_eq. }
  destruct (allocate_quorum_round c None) as [c' round]. cbn [fst snd] in *. split; [done|].
  rewrite (sender_sends _ _ _ Hsd Hpl). unfold message_to. cbn. by rewrite decide_True.
Qed.

(** The next chunk on an answer that asks for it. *)
Lemma answered leader o p :
  sender leader o -> p = 0%nat \/ (o < p)%nat -> (p <= length b)%nat ->
  let r := step leader (ReceiveMessage fid (response p false)) in
  sender r.1 p /\ message_to fid r.2 = Some (chunk p).
Proof.
  intros Hsd Hp Hpl. pose proof Hsd as [Hrole Ht Hid Hpeer Hm Hb Hc Hn Ho].
  unfold response, step, on_message. cbv zeta. rewrite Hpeer, bool_decide_eq_false_2 by congruence.
  cbn [negb orb]. rewrite (decide_False (P := fid <> fid)) by (intros Hx; by apply Hx).
  unfold on_install_snapshot_response. rewrite Ht, Hrole, Hm.
  rewrite decide_False by lia. rewrite !bool_decide_eq_false_2 by (intros Hx; by apply Hx). cbn [orb].
  rewrite (decide_False (P := included_index meta <> _)) by (intros Hx; by apply Hx). cbv zeta.
  destruct (decide (Z.of_nat p = 0)) as [Hp0|Hp0].
  - replace p with 0%nat by lia. apply (advance_sender leader o 0 Hsd). lia.
  - rewrite Ho, decide_False by lia. exact (advance_sender leader o p Hsd Hpl).
Qed.

(** The leader knows once the snapshot is installed. *)
Lemma acknowledged leader o :
  sender leader o ->
  exists i, match_index (step leader (ReceiveMessage fid (response (length b) true))).1 !! fid = Some i
    /\ included_index meta <= i.
Proof.
  intros [Hrole Ht Hid Hpeer Hm Hb Hc Hn Ho].
  unfold response, step, on_message. cbv zeta. rewrite Hpeer, bool_decide_eq_false_2 by congruence.
  cbn [negb orb]. rewrite (decide_False (P := fid <> fid)) by (intros Hx; by apply Hx).
  unfold on_install_snapshot_response. rewrite Ht, Hrole, Hm.
  rewrite decide_False by lia. rewrite !bool_decide_eq_false_2 by (intros Hx; by apply Hx). cbn [orb].
  rewrite (decide_False (P := included_index meta <> _)) by (intros Hx; by apply Hx). cbv zeta.
  match goal with |- context [try_advance_leader_commit ?x] => set (c := x) end.
  assert (match_index (try_advance_leader_commit c).1
    = <[fid := Z.max (default 0 (match_index leader !! fid)) (included_index meta)]> (match_index leader)) as Hmi.
  { unfold try_advance_leader_commit. cbv zeta. by case_decide. }
  destruct (try_advance_leader_commit c) as [c1 adv]. cbn [fst] in Hmi.
  eexists. split; [|apply Z.le_max_r].
  case_decide; cbn [allocate_quorum_round fst]; [unfold allocate_quorum_round; cbn|]; rewrite Hmi; apply lookup_insert_eq.
Qed.

(** ** The exchange completes *)

(** Both sides agree on the offset: one round per chunk that is left. *)
Lemma exchange_aligned n : forall leader follower o,
  sender leader o -> receiver follower -> staged follower o -> (o <= length b)%nat ->
  ((length b - o) / cap < n)%nat ->
  exists leader' follower' i, exchange n leader follower (chunk o) = Some (leader', follower')
    /\ installed follower' /\ match_index leader' !! fid = Some i /\ included_index meta <= i.
Proof.
  induction n as [|n IH]; intros leader follower o Hsd Hrv Hst Ho Hn; [lia|].
  cbn [exchange]. rewrite (sd_id _ _ Hsd). pose proof (receive follower o o Hrv Hst Ho) as Hr.
  rewrite decide_True in Hr by done. cbv zeta in Hr.
  destruct (step follower (ReceiveMessage lid (chunk o))) as [follower' effs].
  destruct (decide _) as [Hend|Hend].
  - destruct Hr as [Hinst Hans]. cbn [fst snd] in *. rewrite Hans. cbn [mbind option_bind].
    destruct (acknowledged leader o Hsd) as (i & Hi & Hle). destruct Hinst as (Hid & Hinst). rewrite Hid.
    destruct (step leader _) as [leader' effs']. exists leader', follower', i. by split_and!.
  - destruct Hr as (Hrv' & Hst' & Hans). cbn [fst snd] in *. rewrite Hans. cbn [mbind option_bind].
    rewrite (rv_id _ Hrv'). assert (chunk_end o = (o + cap)%nat) as He by (unfold chunk_end in *; lia).
    destruct (answered leader o (chunk_end o) Hsd) as [Hsd' Hm]; [lia|unfold chunk_end; lia|].
    destruct (step leader _) as [leader' effs']. cbn [fst snd] in *. cbn [response]. rewrite Hm. cbn [mbind option_bind].
    apply IH; [done..|unfold chunk_end; lia|].
    assert ((length b - o) / cap = S ((length b - chunk_end o) / cap))%nat as Hq; [|lia].
    replace (length b - o)%nat with (1 * cap + (length b - chunk_end o))%nat by (unfold chunk_end in *; lia).
    rewrite Nat.div_add_l by lia. lia.
Qed.
End transfer.

(** ** Theorem *)

(** A snapshot transfer completes. A leader whose follower still misses what
    its snapshot covers sends a chunk; when each message and its answer arrive,
    then after at most one round per chunk that the follower has not staged yet,
    and one to agree where to go on, the follower has installed the leader's
    snapshot and committed up to it, and the leader knows. It does not matter
    which term, vote or staging area of an earlier transfer the follower has,
    nor at which offset not past the follower's the leader begins. *)
Theorem snapshot_transfer_completes `{Sha256} T lid fid meta b cap leader follower o p round :
  lid <> fid -> 1 <= included_index meta ->
  sender T lid fid meta b cap leader o -> receiver T lid fid meta follower ->
  staged T lid meta b follower p -> (o <= length b)%nat -> p = 0%nat \/ (o <= p)%nat ->
  exists m leader' follower' i,
    build_replication_for_peer leader fid round = SendMessage fid m
    /\ exchange (S (S ((length b - p) / cap))) leader follower m = Some (leader', follower')
    /\ snapshot_meta follower' = Some meta /\ snapshot_bytes follower' = Some b
    /\ commit_index follower' = included_index meta
    /\ match_index leader' !! fid = Some i /\ included_index meta <= i.
Proof.
  intros Hne Hidx Hsd Hrv Hst Ho Hop. exists (chunk T lid meta b cap o).
  assert (0 < cap)%nat as Hcap by (rewrite <- (sd_cap _ _ _ _ _ _ _ _ Hsd); lia).
  rewrite (sender_sends T lid fid meta b cap Hcap Hidx leader o round Hsd Ho).
  enough (exists leader' follower' i, exchange (S (S ((length b - p) / cap))) leader follower
      (chunk T lid meta b cap o) = Some (leader', follower') /\ installed fid meta b follower'
      /\ match_index leader' !! fid = Some i /\ included_index meta <= i)
    as (l & f & i & He & (_ & ? & ? & ?) & ? & ?) by by exists l, f, i.
  destruct (decide (o = p)) as [->|Hne'].
  { apply (exchange_aligned T); try done. lia. }
  set (n := S ((length b - p) / cap)). cbn [exchange]. rewrite (sd_id _ _ _ _ _ _ _ _ Hsd).
  pose proof (receive T lid fid meta b cap Hcap Hne Hidx follower p o Hrv Hst Ho) as Hr. cbv zeta in Hr.
  rewrite decide_False in Hr by done. destruct (step follower _) as [follower' effs].
  destruct Hr as (Hrv' & Hst' & Hans). cbn [fst snd] in *. rewrite Hans. cbn [mbind option_bind].
  rewrite (rv_id _ _ _ _ _ Hrv').
  destruct (answered T lid fid meta b cap Hcap Hne Hidx leader o p Hsd) as [Hsd' Hm]; [lia|apply Hst|].
  destruct (step leader _) as [leader' effs']. cbn [fst snd response] in *. rewrite Hm. cbn [mbind option_bind].
  apply (exchange_aligned T); try done; [apply Hst|unfold n; lia].
Qed.

(** A snapshot of 150 bytes in chunks of 64, of which the follower holds none. *)
Definition chunked : ConsensusTimingConfig := {|
  heartbeat_interval_ticks := 2; leader_lease_ticks := 5; election_timeout_ticks := 10;
  max_snapshot_chunk_bytes := 64%nat |}.

Definition sample_meta : SnapshotMetadata := {| included_index := 7; included_term := 1; state_root := 5 |}.

Definition sample_sender : ConsensusCore := blank_core 1 101 sample_roster chunked
  <| role := Leader |> <| current_term := 2 |> <| snapshot_meta := Some sample_meta |>
  <| snapshot_bytes := Some (replicate 150 3) |> <| commit_index := 7 |> <| next_index := {[2 := 1]} |>.

Lemma snapshot_transfer_completes_witness :
  exists leader follower, exchange (H := checksum_hasher) 4 sample_sender
      (blank_core 2 102 sample_roster chunked)
      (chunk (H := checksum_hasher) 2 1 sample_meta (replicate 150 3) 64 0) = Some (leader, follower)
    /\ snapshot_bytes follower = Some (replicate 150 3) /\ commit_index follower = 7.
Proof.
  assert (sender 2 1 2 sample_meta (replicate 150 3) 64 sample_sender 0) as Hsd
    by (split; try reflexivity; exists 1; split; [reflexivity|cbn; lia]).
  destruct (snapshot_transfer_completes (H := checksum_hasher) 2 1 2 sample_meta (replicate 150 3) 64
    sample_sender (blank_core 2 102 sample_roster chunked) 0 0 0)
    as (m & l & f & i & Hm & He & _ & Hb & Hc & _);
    [lia|cbn; lia|exact Hsd|by split; cbn; try lia|split; [lia|reflexivity]|lia|by left|].
  rewrite (sender_sends (H := checksum_hasher) 2 1 2 sample_meta (replicate 150 3) 64 ltac:(lia)
    ltac:(cbn; lia) sample_sender 0 0 Hsd ltac:(lia)) in Hm. injection Hm as <-.
  exists l, f. split; [exact He|]. split; [exact Hb|exact Hc].
Defined.
