(* ===== verification/Election.v ===== *)
(** * Election: at most one leader per term

    A cluster of replicas that exchange messages over a network that may lose,
    duplicate, delay and reorder them, and that may crash and restart from
    storage at any point. Control domains vote at most once per term, so no term
    ever has two leaders. *)

From S2P Require Import Prelude Bytes Commands Roster RaftTypes RaftCore RaftLog Durability.

(** ** What one step does to an election *)

Definition election_view (c : ConsensusCore) : ConsensusRole * Z * option Z * gset Z :=
  (role c, current_term c, voted_for c, votes_granted_domains c).

Definition campaigning (c : ConsensusCore) : Prop := role c = Candidate \/ role c = Leader.

(** The effect is not a granted vote. *)
Definition not_grant (eff : ConsensusEffect) : Prop :=
  match eff with SendMessage _ (RequestVoteResponse _ _ true) => False | _ => True end.

Ltac election_eq := unfold election_view; cbn; reflexivity.

Section steps.
Context `{Sha256}.
Implicit Types (c : ConsensusCore).

(** A step that leaves elections alone: it grants no vote, and leaves the
    election state as it was or gives up the candidacy. *)
Definition calm c (r : stepped) : Prop :=
  Forall not_grant r.2 /\ (election_view r.1 = election_view c \/ ~ campaigning r.1).

Lemma calm_view c c' effs :
  election_view c' = election_view c -> Forall not_grant effs -> calm c (c', effs).
Proof. intros Hv He. split; [done|by left]. Qed.

Lemma calm_follower c c' effs : role c' = Follower -> Forall not_grant effs -> calm c (c', effs).
Proof. intros Hr He. split; [done|right]. cbn. unfold campaigning. rewrite Hr. naive_solver. Qed.

Lemma build_not_grant c peer round : not_grant (build_replication_for_peer c peer round).
Proof. unfold build_replication_for_peer. cbv zeta. repeat case_match; exact I. Qed.

Lemma broadcast_not_grant c round : Forall not_grant (broadcast_replication_or_heartbeat c round).
Proof. apply Forall_fmap, Forall_forall. intros peer _. apply build_not_grant. Qed.

Lemma fmap_not_grant {A} (f : A -> ConsensusEffect) l :
  (forall a, not_grant (f a)) -> Forall not_grant (f <$> l).
Proof. intros Hf. apply Forall_fmap, Forall_forall. intros a _. apply Hf. Qed.

Lemma step_down_calm c t : calm c (step_down_to_higher_term c t).
Proof.
  unfold step_down_to_higher_term. cbv zeta. apply calm_follower; [cbn; reflexivity|].
  apply Forall_app. split; [by repeat constructor|]. apply Forall_app.
  split; [by gcase; repeat constructor|]. by apply fmap_not_grant.
Qed.

Lemma on_tick_calm c : calm c (on_tick c).
Proof.
  unfold on_tick. cbv zeta. gcase; [by apply calm_view|].
  set (c1 := if decide _ then _ else _).
  assert (election_view c1 = election_view c) as Hv by (subst c1; gcase; election_eq).
  clearbody c1. unfold start_pre_vote, allocate_quorum_round. cbv zeta.
  destruct (role c1); (gcase; [|apply calm_view; [rewrite <- Hv; election_eq|by constructor]]).
  1-3: (split; [by apply fmap_not_grant|right; unfold campaigning; cbn; naive_solver]).
  apply calm_view; [rewrite <- Hv; election_eq|apply broadcast_not_grant].
Qed.

Lemma on_propose_calm c p expected : calm c (on_propose c p expected).
Proof.
  unfold on_propose, allocate_quorum_round.
  destruct (check_leader_gate _ _); [|apply calm_view; [done|by repeat constructor]]. cbv zeta.
  gcase; (apply calm_view; [election_eq|]); apply Forall_app; (split; [by repeat constructor|]).
  - by repeat constructor.
  - apply broadcast_not_grant.
Qed.

Lemma on_read_calm c rid expected : calm c (on_request_linearizable_read c rid expected).
Proof.
  unfold on_request_linearizable_read, allocate_quorum_round.
  destruct (check_leader_gate _ _); [|apply calm_view; [done|by repeat constructor]]. cbv zeta.
  gcase; (apply calm_view; [election_eq|]); [by repeat constructor|apply broadcast_not_grant].
Qed.

Lemma calm_snoc c c1 c2 effs1 effs2 :
  calm c (c1, effs1) -> election_view c2 = election_view c1 -> Forall not_grant effs2 ->
  calm c (c2, effs1 ++ effs2).
Proof.
  intros [H1 H2] Hv He. split; [by apply Forall_app|]. cbn [fst] in *.
  destruct H2 as [H2|H2]; [left; congruence|right].
  unfold campaigning, election_view in *. by injection Hv as -> _ _ _.
Qed.

Lemma prologue_calm c term : calm c (prologue c term).
Proof. unfold prologue. gcase; [apply step_down_calm|by apply calm_view]. Qed.

Lemma reconcile_entries_quiet entries : forall c leader round effs newly,
  Forall not_grant effs ->
  let '(c', effs', _) := reconcile_entries c leader round effs newly entries in
  election_view c' = election_view c /\ Forall not_grant effs'.
Proof.
  induction entries as [|e entries IH]; intros c leader round effs newly He; cbn [reconcile_entries];
    [done|].
  gcase; [split; [done|]; apply Forall_app; split; [done|]; by repeat constructor|].
  gcase; [by apply IH|]. destruct (log_tail c !! _); [gcase; [|by apply IH]|gcase; [|by apply IH]].
  - set (c1 := c <| log_tail := _ |>). change (election_view c) with (election_view c1).
    apply IH. apply Forall_app. split; [done|by repeat constructor].
  - set (c1 := c <| log_tail := _ |>). change (election_view c) with (election_view c1).
    by apply IH.
Qed.

Lemma reconcile_and_commit_quiet c leader entries leader_commit round effs :
  Forall not_grant effs ->
  let r := reconcile_and_commit_entries c leader entries leader_commit round effs in
  election_view r.1 = election_view c /\ Forall not_grant r.2.
Proof.
  intros He. unfold reconcile_and_commit_entries. cbv zeta.
  pose proof (reconcile_entries_quiet entries c leader round effs [] He) as Hq.
  destruct (reconcile_entries _ _ _ _ _ _) as [[c1 effs1] [newly|]]; [|done].
  destruct Hq as [Hv1 He1]. unfold follower_advance_commit. cbv zeta.
  assert (Forall not_grant (match newly with [] => effs1 | _ => effs1 ++ [AppendLogEntries newly] end))
    as He2 by (destruct newly; [done|]; apply Forall_app; split; [done|by repeat constructor]).
  repeat gcase; (split; [rewrite <- Hv1; election_eq|]); cbn [snd];
    repeat (apply Forall_app; split); done || by repeat constructor.
Qed.

Lemma on_append_entries_calm c term leader prev prev_term entries leader_commit round :
  calm c (on_append_entries c term leader prev prev_term entries leader_commit round).
Proof.
  unfold on_append_entries. fold (prologue c term). pose proof (prologue_calm c term) as Hp.
  destruct (prologue c term) as [c1 effs1].
  gcase; [eapply calm_snoc; [done..|by repeat constructor]|]. cbv zeta.
  set (c2 := c1 <| role := Follower |> <| known_leader := _ |> <| ticks_since_leader_contact := 0 |>).
  assert (role c2 = Follower) as Hr by reflexivity. destruct Hp as [He _]. cbn [snd] in He.
  assert (forall eff, not_grant eff -> calm c (c2, effs1 ++ [eff])) as Hnack.
  { intros eff Heff. apply calm_follower; [done|]. apply Forall_app. split; [done|by constructor]. }
  assert (forall es, calm c (reconcile_and_commit_entries c2 leader es leader_commit round effs1))
    as Hrec.
  { intros es. destruct (reconcile_and_commit_quiet c2 leader es leader_commit round effs1 He) as [Hv Hq].
    destruct (reconcile_and_commit_entries _ _ _ _ _ _) as [c3 effs3]. cbn [fst snd] in *.
    apply calm_follower; [|done]. unfold election_view in Hv. congruence. }
  clearbody c2. gcase.
  - destruct (filter _ entries) as [|first rest]; [by apply Hnack|]. gcase; [by apply Hnack|].
    apply Hrec.
  - destruct (term_at c2 prev); [|by apply Hnack]. gcase; [by apply Hnack|]. apply Hrec.
Qed.

Lemma try_advance_quiet c :
  election_view (try_advance_leader_commit c).1 = election_view c
  /\ Forall not_grant (option_list (try_advance_leader_commit c).2).
Proof.
  unfold try_advance_leader_commit. cbv zeta. gcase; (split; [election_eq|by repeat constructor]).
Qed.

Lemma sweep_quiet c : let r := sweep_confirmed_quorum_rounds c in
  election_view r.1 = election_view c /\ Forall not_grant r.2.
Proof.
  unfold sweep_confirmed_quorum_rounds. destruct (sweep_scan c) as [lease keys]. cbv zeta.
  change (election_view c) with (election_view (c <| leader_lease := lease |>)).
  generalize (c <| leader_lease := lease |>). intros c1.
  assert (Forall not_grant []) as He by constructor. revert c1 He. generalize (@nil ConsensusEffect).
  induction keys as [|key keys IH]; intros effs c1 He; [done|]. cbn [foldl].
  assert (election_view (sweep_confirm c1 key).1 = election_view c1
    /\ Forall not_grant (sweep_confirm c1 key).2) as [Hv Hc].
  { unfold sweep_confirm. destruct (quorum_rounds c1 !! key); [|done].
    split; [election_eq|]. by apply fmap_not_grant. }
  destruct (sweep_confirm c1 key) as [c2 confirmed]. cbn [fst snd] in *.
  rewrite <- Hv. apply IH. by apply Forall_app.
Qed.

Lemma on_append_entries_response_calm c term follower success matched ct ci round :
  calm c (on_append_entries_response c term follower success matched ct ci round).
Proof.
  unfold on_append_entries_response, allocate_quorum_round.
  gcase; [apply step_down_calm|]. gcase; [by apply calm_view|]. destruct success; cbv zeta.
  - set (upd := Z.min _ _). set (c1 := c <| match_index := _ |> <| next_index := _ |>
      <| snapshot_send_offset := _ |>).
    assert (election_view c1 = election_view c) as Hv1 by election_eq. clearbody c1 upd.
    pose proof (try_advance_quiet c1) as [Hv2 He2].
    destruct (try_advance_leader_commit c1) as [c2 advance]. cbn [fst snd] in *.
    set (c3 := match domain_of (roster c2) follower with Some _ => _ | None => _ end).
    assert (election_view c3 = election_view c2) as Hv3.
    { subst c3. destruct (domain_of _ _), (quorum_rounds c2 !! round); try done.
      destruct (decide _); election_eq. }
    clearbody c3. pose proof (sweep_quiet c3) as [Hv4 He4]. cbv zeta in *.
    destruct (sweep_confirmed_quorum_rounds c3) as [c4 confirmed]. cbn [fst snd] in *.
    gcase; (apply calm_view; [transitivity (election_view c4); [election_eq|congruence]|]);
      repeat (apply Forall_app; split); try done. repeat constructor. apply build_not_grant.
  - apply calm_view; [election_eq|]. repeat constructor. apply build_not_grant.
Qed.

Lemma on_install_snapshot_chunk_calm c term leader li lt root sha total off chunk fin :
  calm c (on_install_snapshot_chunk c term leader li lt root sha total off chunk fin).
Proof.
  unfold on_install_snapshot_chunk. fold (prologue c term). pose proof (prologue_calm c term) as Hp.
  destruct (prologue c term) as [c1 effs1].
  gcase; [eapply calm_snoc; [done..|by repeat constructor]|]. cbv zeta.
  destruct Hp as [He _]. cbn [snd] in He.
  assert (forall c' eff, role c' = Follower -> not_grant eff -> calm c (c', effs1 ++ [eff])) as Hone.
  { intros c' eff Hr Heff. apply calm_follower; [done|]. apply Forall_app. split; [done|by constructor]. }
  gcase; [by apply Hone|]. set (existing := match inbound_snapshot _ with Some _ => _ | None => _ end).
  unfold reset_and_nack. gcase; [by apply Hone|].
  set (c3 := if existing then _ else _).
  assert (role c3 = Follower) as Hr3 by (subst c3; by destruct existing). clearbody c3.
  destruct (inbound_snapshot c3) as [staging|]; [|by apply Hone].
  unfold stage_chunk, reset_and_nack, complete_install. cbv zeta.
  gcase; [by apply Hone|]. gcase; [by apply Hone|]. gcase; [by apply Hone|].
  gcase; [by apply Hone|]. gcase; [by apply Hone|].
  apply calm_follower; [exact Hr3|]. apply Forall_app. split; [done|by repeat constructor].
Qed.

Lemma on_install_snapshot_response_calm c term follower li next installed :
  calm c (on_install_snapshot_response c term follower li next installed).
Proof.
  unfold on_install_snapshot_response, allocate_quorum_round.
  gcase; [apply step_down_calm|]. gcase; [by apply calm_view|].
  destruct (snapshot_meta c) as [m|]; [|by apply calm_view].
  gcase; [by apply calm_view|]. cbv zeta. destruct installed.
  - set (upd := Z.max _ _). set (c1 := c <| snapshot_send_offset := _ |> <| match_index := _ |>
      <| next_index := _ |>).
    assert (election_view c1 = election_view c) as Hv1 by election_eq. clearbody c1 upd.
    pose proof (try_advance_quiet c1) as [Hv2 He2].
    destruct (try_advance_leader_commit c1) as [c2 advance]. cbn [fst snd] in *.
    gcase; (apply calm_view; [transitivity (election_view c2); [election_eq|congruence]|]);
      repeat (apply Forall_app; split); try done. repeat constructor. apply build_not_grant.
  - gcase.
    + apply calm_view; [election_eq|]. repeat constructor. apply build_not_grant.
    + gcase; [by apply calm_view|].
      apply calm_view; [election_eq|]. repeat constructor. apply build_not_grant.
Qed.

(** ** Votes and candidacies *)

(** What any step does to an election: a granted vote is the replica's recorded
    one; a candidate counts the votes it had, its own, and the one it is just
    told of; and a leader had won or wins with a quorum. *)
Record elects c (input : ConsensusInput) (r : stepped) : Prop := {
  el_grant to t v : SendMessage to (RequestVoteResponse t v true) ∈ r.2 ->
    v = local_id c /\ t = current_term r.1 /\ voted_for r.1 = Some to;
  el_votes d : campaigning r.1 -> d ∈ votes_granted_domains r.1 ->
    (campaigning c /\ current_term r.1 = current_term c /\ d ∈ votes_granted_domains c)
    \/ (d = local_domain c /\ voted_for r.1 = Some (local_id c))
    \/ (exists v, input = ReceiveMessage v (RequestVoteResponse (current_term r.1) v true)
          /\ domain_of (roster c) v = Some d);
  el_leader : role r.1 = Leader ->
    (role c = Leader /\ votes_granted_domains r.1 = votes_granted_domains c)
    \/ (quorum_size (roster c) <= size (votes_granted_domains r.1))%nat;
}.

Lemma calm_elects c input r : calm c r -> elects c input r.
Proof.
  destruct r as [c' effs]. intros [He Hv]. cbn [fst snd] in *. split; cbn [fst snd].
  - intros to t v Hin. rewrite Forall_forall in He. by apply He in Hin.
  - intros d Hc Hd. left. destruct Hv as [Hv|Hv]; [|done].
    unfold election_view in Hv. injection Hv as E1 E2 _ E3. unfold campaigning in *.
    by rewrite <- E1, <- E2, <- E3.
  - intros Hl. left. destruct Hv as [Hv|Hv]; [|by destruct Hv; right].
    unfold election_view in Hv. injection Hv as E1 _ _ E3. by rewrite <- E1, <- E3.
Qed.

Lemma on_request_pre_vote_response_elects c input rt pt voter granted :
  elects c input (on_request_pre_vote_response c rt pt voter granted).
Proof.
  unfold on_request_pre_vote_response. gcase; [apply calm_elects, step_down_calm|].
  gcase; [by apply calm_elects, calm_view|]. cbv zeta.
  set (c1 := match domain_of (roster c) voter with
    | Some domain => if granted then _ else _ | None => _ end).
  assert (election_view c1 = election_view c /\ conf_view c1 = conf_view c) as [Hv Hf].
  { subst c1. destruct (domain_of _ _), granted; split; election_eq || view_eq. }
  clearbody c1. gcase; [|by apply calm_elects, calm_view].
  unfold conf_view in Hf. injection Hf as E1 E2 E3 E4. unfold start_real_election. cbv zeta. split.
  - cbn [snd]. intros to t v [Hin|Hin]%elem_of_cons; [done|].
    by apply list_elem_of_fmap in Hin as (peer & ? & _).
  - cbn. intros d _ ->%elem_of_singleton. right; left. by rewrite E1, E2.
  - by cbn.
Qed.

Lemma on_request_vote_elects c input term cand li lt :
  elects c input (on_request_vote c term cand li lt).
Proof.
  unfold on_request_vote. fold (prologue c term). pose proof (prologue_calm c term) as Hp.
  pose proof (prologue_fields c term) as (_ & _ & Hlocal & _). cbv zeta in Hlocal.
  destruct (prologue c term) as [c1 effs1]. cbn [fst] in Hlocal.
  gcase; [eapply calm_elects, calm_snoc; [done..|by repeat constructor]|]. cbv zeta.
  destruct (_ && _);
    [|eapply calm_elects, calm_snoc; [done..|by repeat constructor]].
  destruct Hp as [He Hv]. cbn [fst snd] in *. split; cbn [fst snd].
  - intros to t v [[Hin|Hin]%elem_of_app|Hin]%elem_of_app.
    + rewrite Forall_forall in He. by apply He in Hin.
    + by apply list_elem_of_singleton in Hin.
    + apply list_elem_of_singleton in Hin. injection Hin as -> -> ->. cbn. by rewrite Hlocal.
  - intros d Hc Hd. change (campaigning c1) in Hc. cbn in Hd. left.
    destruct Hv as [Hv|Hv]; [|done]. unfold election_view in Hv. injection Hv as F1 F2 _ F3.
    unfold campaigning in *. cbn. by rewrite <- F1, <- F2, <- F3.
  - cbn. intros Hl. left. destruct Hv as [Hv|Hv]; [|by destruct Hv; right].
    unfold election_view in Hv. injection Hv as F1 _ _ F3. by rewrite <- F1, <- F3.
Qed.

Lemma on_request_vote_response_elects c term voter granted :
  elects c (ReceiveMessage voter (RequestVoteResponse term voter granted))
    (on_request_vote_response c term voter granted).
Proof.
  unfold on_request_vote_response. gcase; [apply calm_elects, step_down_calm|].
  destruct (_ || _) eqn:Hg; [by apply calm_elects, calm_view|]. cbv zeta.
  apply orb_false_iff in Hg as [Hrole Hterm]. apply bool_decide_eq_false in Hrole, Hterm.
  apply dec_stable in Hrole, Hterm. subst term.
  set (c1 := match domain_of (roster c) voter with
    | Some domain => if granted then _ else _ | None => _ end).
  assert (role c1 = Candidate /\ current_term c1 = current_term c /\ roster c1 = roster c
    /\ forall d, d ∈ votes_granted_domains c1 -> d ∈ votes_granted_domains c
         \/ (granted = true /\ domain_of (roster c) voter = Some d)) as (Hr & Ht & Hro & Hd).
  { subst c1. destruct (domain_of (roster c) voter) as [dom|], granted; cbn; split_and!; try done;
      try by left. intros d [->%elem_of_singleton|?]%elem_of_union; [by right|by left]. }
  clearbody c1.
  assert (forall d, d ∈ votes_granted_domains c1 ->
    (campaigning c /\ current_term c1 = current_term c /\ d ∈ votes_granted_domains c)
    \/ (exists v, ReceiveMessage voter (RequestVoteResponse (current_term c) voter granted)
          = ReceiveMessage v (RequestVoteResponse (current_term c1) v true)
          /\ domain_of (roster c) v = Some d)) as Hvotes.
  { intros d [?|[-> ?]]%Hd; [left|right]; [by split_and!; [left|..]|].
    exists voter. by rewrite Ht. }
  destruct (decide _) as [Hq|Hq] in |- *.
  - unfold become_leader, allocate_quorum_round. cbv zeta. split; cbn [fst snd].
    + intros to t v Hin. by eapply Forall_forall in Hin; [|apply broadcast_not_grant].
    + cbn. intros d _ [?|?]%Hvotes; [by left|by right; right].
    + right. rewrite <- Hro. exact Hq.
  - split; cbn [fst snd].
    + by intros to t v ?%elem_of_nil.
    + intros d _ [?|?]%Hvotes; [by left|by right; right].
    + intros Hl. rewrite Hr in Hl. done.
Qed.

Lemma step_elects c input : elects c input (step c input).
Proof.
  destruct input as [|p expected|rid expected|from m]; cbn [step].
  - apply calm_elects, on_tick_calm.
  - apply calm_elects, on_propose_calm.
  - apply calm_elects, on_read_calm.
  - unfold on_message. gcase; [by apply calm_elects, calm_view|].
    destruct m; (destruct (decide _) as [|Hfrom] in |- *; [by apply calm_elects, calm_view|]);
      apply dec_stable in Hfrom; subst from.
    + apply calm_elects, calm_view; [done|by repeat constructor].
    + apply on_request_pre_vote_response_elects.
    + apply on_request_vote_elects.
    + apply on_request_vote_response_elects.
    + apply calm_elects, on_append_entries_calm.
    + apply calm_elects, on_append_entries_response_calm.
    + apply calm_elects, on_install_snapshot_chunk_calm.
    + apply calm_elects, on_install_snapshot_response_calm.
Qed.
End steps.

(** ** The cluster *)

(** The replicas, every message ever sent with its sender and receiver, and two
    histories: the votes [(voter, term, candidate)] that were ever recorded, and
    the pairs [(term, replica)] of everyone who ever was leader. *)
Record World := {
  w_cores : gmap Z ConsensusCore;
  w_sent : list (Z * Z * RaftMessage);
  w_ballots : gset (Z * Z * Z);
  w_leaders : gset (Z * Z);
}.

Definition sends (id : Z) (effs : list ConsensusEffect) : list (Z * Z * RaftMessage) :=
  omap (fun eff => match eff with SendMessage to m => Some (id, to, m) | _ => None end) effs.

Definition ballot_of (id : Z) (c : ConsensusCore) : gset (Z * Z * Z) :=
  match voted_for c with Some cand => {[(id, current_term c, cand)]} | None => ∅ end.

Definition leader_of (id : Z) (c : ConsensusCore) : gset (Z * Z) :=
  match role c with Leader => {[(current_term c, id)]} | _ => ∅ end.

(** Replica [id] moves to [c'] and emits [effs]. *)
Definition moved (w : World) (id : Z) (c' : ConsensusCore) (effs : list ConsensusEffect) : World := {|
  w_cores := <[id := c']> (w_cores w);
  w_sent := w_sent w ++ sends id effs;
  w_ballots := w_ballots w ∪ ballot_of id c';
  w_leaders := w_leaders w ∪ leader_of id c';
|}.

Section cluster.
Context `{Sha256} (r : ValidatedVoterRoster) (timings : Z -> ConsensusTimingConfig).

(** A cluster of fresh replicas. *)
Definition w_initial (cores : gmap Z ConsensusCore) : World :=
  {| w_cores := cores; w_sent := []; w_ballots := ∅; w_leaders := ∅ |}.

(** One step of the cluster. A replica handles a tick, a proposal or a read; or
    it handles a message some replica sent it at any earlier time; or it is
    restarted from its durable state; or it compacts its log into a snapshot at
    its commit index. A message that is never delivered is lost. *)
Inductive wstep (w : World) : World -> Prop :=
  | ws_input id c input :
      w_cores w !! id = Some c -> input_ok c input ->
      (forall from m, input = ReceiveMessage from m -> (from, id, m) ∈ w_sent w) ->
      wstep w (moved w id (step c input).1 (step c input).2)
  | ws_restart id c c' :
      w_cores w !! id = Some c -> rehydrate id r (timings id) (abs c) = Ok c' ->
      wstep w (moved w id c' [])
  | ws_compact id c m b :
      w_cores w !! id = Some c -> included_index m = commit_index c ->
      1 <= included_index m < u64_max ->
      wstep w (moved w id (record_local_snapshot c m b (included_index m)).1 []).

Inductive reachable : World -> Prop :=
  | r_initial cores :
      (forall id c, cores !! id = Some c -> core_new id r (timings id) = Ok c) ->
      reachable (w_initial cores)
  | r_step w w' : reachable w -> wstep w w' -> reachable w'.

(** A quorum of control domains, each of a voter that voted for [cand] in [t]. *)
Definition won (ballots : gset (Z * Z * Z)) (t cand : Z) : Prop :=
  exists domains : gset Z, (quorum_size r <= size domains)%nat /\
    forall d, d ∈ domains -> exists v, domain_of r v = Some d /\ (v, t, cand) ∈ ballots.

(** A replica of the cluster, whose configuration was validated. *)
Definition good_core (id : Z) (c : ConsensusCore) : Prop :=
  core_inv c /\ core_conf c /\ conf_view c = (id, local_domain c, r, timings id)
  /\ exists c0, core_new id r (timings id) = Ok c0.

Record world_inv (w : World) : Prop := {
  wi_core id c : w_cores w !! id = Some c -> good_core id c;
  wi_recorded v t cand : (v, t, cand) ∈ w_ballots w -> exists c, w_cores w !! v = Some c
    /\ (t < current_term c \/ (t = current_term c /\ voted_for c = Some cand));
  wi_voted id c cand : w_cores w !! id = Some c -> voted_for c = Some cand ->
    (id, current_term c, cand) ∈ w_ballots w;
  wi_unique v t cand cand' : (v, t, cand) ∈ w_ballots w -> (v, t, cand') ∈ w_ballots w ->
    cand = cand';
  wi_granted from to t v : (from, to, RequestVoteResponse t v true) ∈ w_sent w ->
    (from, t, to) ∈ w_ballots w;
  wi_votes id c d : w_cores w !! id = Some c -> campaigning c -> d ∈ votes_granted_domains c ->
    exists v, domain_of r v = Some d /\ (v, current_term c, id) ∈ w_ballots w;
  wi_quorum id c : w_cores w !! id = Some c -> role c = Leader ->
    (quorum_size r <= size (votes_granted_domains c))%nat;
  wi_leaders t id : (t, id) ∈ w_leaders w -> won (w_ballots w) t id;
}.

Lemma elem_of_ballot_of id c v t cand :
  (v, t, cand) ∈ ballot_of id c <-> v = id /\ t = current_term c /\ voted_for c = Some cand.
Proof.
  unfold ballot_of. destruct (voted_for c) as [x|]; [|set_solver].
  rewrite elem_of_singleton. split; [by intros [= -> -> ->]|]. by intros (-> & -> & [= ->]).
Qed.

Lemma elem_of_leader_of id c t v :
  (t, v) ∈ leader_of id c <-> v = id /\ t = current_term c /\ role c = Leader.
Proof. unfold leader_of. destruct (role c); set_solver. Qed.

Lemma elem_of_sends id effs from to m :
  (from, to, m) ∈ sends id effs <-> from = id /\ SendMessage to m ∈ effs.
Proof.
  unfold sends. rewrite list_elem_of_omap. split.
  - intros (eff & Hin & Heq). destruct eff; try done. by injection Heq as -> -> ->.
  - intros [-> Hin]. by exists (SendMessage to m).
Qed.

Lemma won_mono b b' t cand : b ⊆ b' -> won b t cand -> won b' t cand.
Proof.
  intros Hsub (domains & Hsize & Hd). exists domains. split; [done|]. intros d Hin.
  destruct (Hd d Hin) as (v & ? & ?). exists v. set_solver.
Qed.

Section moved.
Context (w : World) (id : Z) (c c' : ConsensusCore) (effs : list ConsensusEffect).
Context (Hw : world_inv w) (Hid : w_cores w !! id = Some c) (Hlater : d_later (abs c) (abs c')).
Let ballots' := w_ballots w ∪ ballot_of id c'.

Lemma moved_recorded v t cand : (v, t, cand) ∈ ballots' ->
  exists c0, <[id := c']> (w_cores w) !! v = Some c0
    /\ (t < current_term c0 \/ (t = current_term c0 /\ voted_for c0 = Some cand)).
Proof.
  destruct Hlater as [Hterm Hvote _ _ _]. cbn in Hterm, Hvote.
  intros [Hold|(-> & -> & ?)%elem_of_ballot_of]%elem_of_union.
  - destruct (wi_recorded _ Hw _ _ _ Hold) as (c0 & Hc0 & Hcase).
    destruct (decide (v = id)) as [->|Hne]; [|exists c0; by rewrite lookup_insert_ne].
    exists c'. rewrite lookup_insert_eq. split; [done|]. assert (c0 = c) as -> by congruence.
    destruct Hcase as [?|[-> Hv]]; [left; lia|].
    destruct (decide (current_term c' = current_term c)) as [Heq|]; [|left; lia].
    right. split; [done|]. by apply Hvote.
  - exists c'. rewrite lookup_insert_eq. eauto.
Qed.

Lemma moved_unique v t cand cand' :
  (v, t, cand) ∈ ballots' -> (v, t, cand') ∈ ballots' -> cand = cand'.
Proof.
  assert (forall x y, (id, current_term c', x) ∈ w_ballots w -> voted_for c' = Some y -> x = y) as Hmix.
  { intros x y Hx Hy. destruct (wi_recorded _ Hw _ _ _ Hx) as (c0 & Hc0 & Hcase).
    assert (c0 = c) as -> by congruence. destruct Hlater as [Hterm Hvote _ _ _]. cbn in Hterm, Hvote.
    destruct Hcase as [?|[Heq Hv]]; [lia|]. rewrite (Hvote x) in Hy by done. congruence. }
  intros [H1|(-> & -> & H1)%elem_of_ballot_of]%elem_of_union
    [H2|(E1 & E2 & H2)%elem_of_ballot_of]%elem_of_union.
  - by eapply (wi_unique _ Hw).
  - subst. by apply Hmix.
  - symmetry. by apply Hmix.
  - congruence.
Qed.

Lemma moved_inv :
  good_core id c' ->
  (forall to t v, SendMessage to (RequestVoteResponse t v true) ∈ effs ->
     t = current_term c' /\ voted_for c' = Some to) ->
  (forall d, campaigning c' -> d ∈ votes_granted_domains c' ->
     exists v, domain_of r v = Some d /\ (v, current_term c', id) ∈ ballots') ->
  (role c' = Leader -> (quorum_size r <= size (votes_granted_domains c'))%nat) ->
  world_inv (moved w id c' effs).
Proof.
  intros Hgood Hgrant Hvotes Hquorum. split; cbn [moved w_cores w_sent w_ballots w_leaders]; fold ballots'.
  - intros v c0 [[<- <-]|[Hne Hc0]]%lookup_insert_Some; [done|by apply Hw].
  - apply moved_recorded.
  - intros v c0 cand [[<- <-]|[Hne Hc0]]%lookup_insert_Some Hv; apply elem_of_union.
    + right. by apply elem_of_ballot_of.
    + left. by apply Hw.
  - apply moved_unique.
  - intros from to t v [Hin|[-> Hin]%elem_of_sends]%elem_of_app; apply elem_of_union.
    + left. by eapply Hw.
    + right. apply elem_of_ballot_of. by destruct (Hgrant to t v Hin).
  - intros v c0 d [[<- <-]|[Hne Hc0]]%lookup_insert_Some Hc Hd; [by apply Hvotes|].
    destruct (wi_votes _ Hw _ _ _ Hc0 Hc Hd) as (x & ? & ?). exists x. split; [done|].
    apply elem_of_union. by left.
  - intros v c0 [[<- <-]|[Hne Hc0]]%lookup_insert_Some Hl; [by apply Hquorum|by eapply Hw].
  - intros t v [Hin|(-> & -> & Hl)%elem_of_leader_of]%elem_of_union.
    + eapply won_mono; [|by apply Hw]. apply union_subseteq_l.
    + exists (votes_granted_domains c'). split; [by apply Hquorum|]. intros d Hd.
      apply Hvotes; [by right|done].
Qed.
End moved.

(** ** Every reachable cluster *)

Context (Hr : roster_wf r) (Hmulti : roster_len r <> 1%nat).

Lemma good_core_frame id c c' :
  core_inv c' -> conf_view c' = conf_view c -> good_core id c -> good_core id c'.
Proof.
  intros Hc' Hf (_ & Hconf & Hv & Hnew). split_and!; [done|by eapply core_conf_frame| |done].
  rewrite Hf, Hv. unfold conf_view in Hf. congruence.
Qed.

Lemma input_inv w id c input :
  world_inv w -> w_cores w !! id = Some c -> input_ok c input ->
  (forall from m, input = ReceiveMessage from m -> (from, id, m) ∈ w_sent w) ->
  world_inv (moved w id (step c input).1 (step c input).2).
Proof.
  intros Hw Hid Hok Hsent. destruct (wi_core _ Hw _ _ Hid) as (Hc & Hconf & Hv & Hnew).
  pose proof (step_synced c input Hc Hconf Hok) as (Hc' & Hf & Heffs).
  pose proof (step_elects c input) as [Hgrant Hvotes Hlead].
  destruct (step c input) as [c' effs]. cbn [fst snd] in *.
  destruct (run_effects_safe effs _ _ (d_inv_abs c Hc) Heffs) as [_ Hlater].
  assert (roster c = r /\ local_id c = id) as [Hroster Hlocal].
  { unfold conf_view in Hv. by injection Hv as -> -> _. }
  apply (moved_inv w id c c' effs Hw Hid Hlater).
  - eapply good_core_frame; [done..|]. by apply Hw.
  - intros to t v Hin. by destruct (Hgrant to t v Hin) as (_ & ? & ?).
  - intros d Hcamp Hd. destruct (Hvotes d Hcamp Hd) as [(Hc0 & Ht & Hd0)|[[-> Hself]|(v & -> & Hdom)]].
    + destruct (wi_votes _ Hw _ _ _ Hid Hc0 Hd0) as (v & ? & ?). exists v. split; [done|].
      rewrite Ht. set_solver.
    + exists id. rewrite <- Hroster, <- Hlocal at 1. split; [apply Hconf|].
      apply elem_of_union. right. apply elem_of_ballot_of. by rewrite Hself, Hlocal.
    + exists v. rewrite <- Hroster. split; [done|]. apply elem_of_union. left.
      eapply (wi_granted _ Hw). by apply Hsent.
  - intros Hl. rewrite <- Hroster. destruct (Hlead Hl) as [[Hl0 ->]|?]; [|done].
    rewrite Hroster. by eapply (wi_quorum _ Hw).
Qed.

Lemma restart_inv w id c c' :
  world_inv w -> w_cores w !! id = Some c -> rehydrate id r (timings id) (abs c) = Ok c' ->
  world_inv (moved w id c' []).
Proof.
  intros Hw Hid Hre. destruct (wi_core _ Hw _ _ Hid) as (Hc & Hconf & Hv & Hnew).
  destruct (rehydrate_abs id r (timings id) c Hc Hconf Hv Hnew) as (c1 & Hre1 & Hl & Hh).
  rewrite Hre in Hre1. injection Hre1 as <-. destruct (Hh Hmulti) as [Hhard Hrole].
  assert (~ campaigning c') as Hno by (unfold campaigning; rewrite Hrole; naive_solver).
  apply (moved_inv w id c c' [] Hw Hid).
  - by rewrite (abs_frame c c').
  - eapply good_core_frame; [by eapply core_inv_frame|by apply log_view_conf|]. by apply Hw.
  - by intros to t v ?%elem_of_nil.
  - done.
  - intros Hl'. rewrite Hrole in Hl'. done.
Qed.

Lemma compact_inv w id c m b :
  world_inv w -> w_cores w !! id = Some c -> included_index m = commit_index c ->
  1 <= included_index m < u64_max ->
  world_inv (moved w id (record_local_snapshot c m b (included_index m)).1 []).
Proof.
  intros Hw Hid Hm Hi. destruct (wi_core _ Hw _ _ Hid) as (Hc & Hconf & Hv & Hnew).
  destruct (record_local_inv c m b Hc Hm Hi) as (Hc' & Hvote & _ & _ & Hlater).
  set (c' := (record_local_snapshot c m b (included_index m)).1) in *. clearbody c'.
  unfold voting_view in Hvote. injection Hvote as Er Et Ev Eg Ed Edom Ero Eti.
  apply (moved_inv w id c c' [] Hw Hid Hlater).
  - eapply good_core_frame; [done| |by apply Hw]. unfold conf_view. congruence.
  - by intros to t v ?%elem_of_nil.
  - intros d Hcamp Hd. assert (campaigning c) as Hcamp' by (unfold campaigning in *; by rewrite <- Er).
    rewrite Eg in Hd. destruct (wi_votes _ Hw _ _ _ Hid Hcamp' Hd) as (v & ? & ?). exists v.
    rewrite Et. split; [done|]. apply elem_of_union. by left.
  - intros Hl. rewrite Er in Hl. rewrite Eg. by eapply (wi_quorum _ Hw).
Qed.

Lemma reachable_inv w : reachable w -> world_inv w.
Proof.
  induction 1 as [cores Hcores|w w' _ IH Hstep].
  - assert (forall id c, cores !! id = Some c -> c = blank_core id (local_domain c) r (timings id))
      as Hblank.
    { intros id c Hc. by apply (core_new_fields _ _ _ _ (Hcores id c Hc)). }
    split; cbn [w_initial w_cores w_sent w_ballots w_leaders].
    + intros id c Hc. pose proof (Hcores id c Hc) as Hnew.
      pose proof (core_new_fields _ _ _ _ Hnew) as (Hf & Hd & Hl & _).
      split_and!; [| |by rewrite Hf|by exists c].
      * eapply core_inv_frame; [exact Hl|]. split; cbn; done.
      * eapply core_conf_frame; [exact Hf|]. by split.
    + intros v t cand ?%not_elem_of_empty. done.
    + intros id c cand Hc. by rewrite (Hblank id c Hc).
    + intros v t cand cand' ?%not_elem_of_empty. done.
    + intros from to t v ?%elem_of_nil. done.
    + intros id c d Hc. rewrite (Hblank id c Hc). intros [?|?]; done.
    + intros id c Hc. by rewrite (Hblank id c Hc).
    + intros t id ?%not_elem_of_empty. done.
  - destruct Hstep; [by apply input_inv|by eapply restart_inv|by apply compact_inv].
Qed.

Lemma won_unique w t a b : world_inv w -> won (w_ballots w) t a -> won (w_ballots w) t b -> a = b.
Proof.
  intros Hw (A & HA & HdA) (B & HB & HdB).
  destruct (quorums_intersect r Hr A B) as (v & d & Hv & Hin1 & Hin2); [| |done|done|].
  - intros d Hd. destruct (HdA d Hd) as (v & ? & _). apply (elem_of_domains r Hr). by exists v.
  - intros d Hd. destruct (HdB d Hd) as (v & ? & _). apply (elem_of_domains r Hr). by exists v.
  - destruct (HdA d Hin1) as (v1 & Hv1 & Hb1), (HdB d Hin2) as (v2 & Hv2 & Hb2).
    assert (v1 = v2) as -> by (by eapply (domain_of_inj r Hr)). by eapply (wi_unique _ Hw).
Qed.
End cluster.

(** ** Executing the cluster *)

Inductive action :=
  | Act (id : Z) (input : ConsensusInput)
  | Deliver (k : nat)
  | Restart (id : Z).

Section execution.
Context `{Sha256} (r : ValidatedVoterRoster) (timings : Z -> ConsensusTimingConfig).

Definition is_local (input : ConsensusInput) : bool :=
  match input with ReceiveMessage _ _ => false | _ => true end.

(** One action: a local input, the delivery of the [k]-th message ever sent, or
    a restart. *)
Definition act (w : World) (a : action) : option World :=
  match a with
  | Act id input =>
      c ← w_cores w !! id;
      if is_local input && bool_decide (input_ok c input)
      then Some (moved w id (step c input).1 (step c input).2) else None
  | Deliver k =>
      '(from, to, m) ← w_sent w !! k;
      c ← w_cores w !! to;
      let input := ReceiveMessage from m in
      if bool_decide (input_ok c input)
      then Some (moved w to (step c input).1 (step c input).2) else None
  | Restart id =>
      c ← w_cores w !! id;
      match rehydrate id r (timings id) (abs c) with
      | Ok c' => Some (moved w id c' [])
      | Err _ => None
      end
  end.

Fixpoint acts (w : World) (l : list action) : option World :=
  match l with
  | [] => Some w
  | a :: l => w' ← act w a; acts w' l
  end.

Lemma act_step w a w' : act w a = Some w' -> wstep r timings w w'.
Proof.
  destruct a as [id input|k|id]; cbn [act].
  - intros (c & Hc & Hw)%bind_Some. destruct (_ && _) eqn:Hg; [|done]. injection Hw as <-.
    apply andb_true_iff in Hg as [Hl Hok%bool_decide_eq_true].
    apply ws_input; [done..|]. intros from m ->. done.
  - intros ([[from to] m] & Hk & (c & Hc & Hw)%bind_Some)%bind_Some. cbv zeta in Hw.
    case_bool_decide as Hok; [|done]. injection Hw as <-.
    refine (ws_input r timings w to c (ReceiveMessage from m) Hc Hok _).
    intros from' m' [= <- <-]. by eapply list_elem_of_lookup_2.
  - intros (c & Hc & Hw)%bind_Some. destruct (rehydrate _ _ _ _) as [c'|] eqn:Hre; [|done].
    injection Hw as <-. by eapply ws_restart.
Qed.

Lemma acts_reachable l : forall w w',
  reachable r timings w -> acts w l = Some w' -> reachable r timings w'.
Proof.
  induction l as [|a l IH]; intros w w' Hw; cbn [acts]; [by intros [= <-]|].
  intros (w1 & Ha & Hl)%bind_Some. eapply IH; [|exact Hl]. eapply r_step; [done|].
  by eapply act_step.
Qed.
End execution.

(** ** Theorems *)

(** Election safety. In a cluster of more than one voter, however messages
    are lost, duplicated, delayed or reordered and whichever replicas restart,
    no two replicas are ever leader in the same term. *)
Theorem election_safety `{Sha256} voters r timings w t a b :
  roster_new voters = Ok r -> roster_len r <> 1%nat -> reachable r timings w ->
  (t, a) ∈ w_leaders w -> (t, b) ∈ w_leaders w -> a = b.
Proof.
  intros [Hr _]%roster_new_wf Hm Hreach Ha Hb.
  pose proof (reachable_inv r timings Hr Hm w Hreach) as Hw.
  eapply (won_unique r timings Hr w t); [done|by apply Hw..].
Qed.

(** One vote per term. A replica never grants its vote in one term to two
    different candidates, not even when it restarts in between. *)
Theorem one_vote_per_term `{Sha256} voters r timings w voter t v1 v2 a b :
  roster_new voters = Ok r -> roster_len r <> 1%nat -> reachable r timings w ->
  (voter, a, RequestVoteResponse t v1 true) ∈ w_sent w ->
  (voter, b, RequestVoteResponse t v2 true) ∈ w_sent w -> a = b.
Proof.
  intros [Hr _]%roster_new_wf Hm Hreach Ha Hb.
  pose proof (reachable_inv r timings Hr Hm w Hreach) as Hw.
  eapply (wi_unique _ _ _ Hw voter t); by eapply (wi_granted _ _ _ Hw).
Qed.

(** ** A concrete election *)

Definition sample_timings (id : Z) : ConsensusTimingConfig := timing_default.

Definition sample_cluster : World := w_initial
  (list_to_map ((fun i => (i, blank_core i (100 + i) sample_roster timing_default)) <$> [1; 2; 3])).

Lemma sample_cluster_reachable : reachable (H := checksum_hasher) sample_roster sample_timings sample_cluster.
Proof.
  apply r_initial. intros id c Hc.
  apply elem_of_list_to_map_2, list_elem_of_fmap in Hc as (i & [= -> ->] & Hi).
  repeat (apply elem_of_cons in Hi as [->|Hi]; [vm_compute; reflexivity|]).
  by apply elem_of_nil in Hi.
Qed.

(** Replica 1 times out and asks replica 2 for its pre-vote and its vote; replica
    2 restarts after voting and is asked once more. *)
Definition sample_election : list action :=
  replicate 10 (Act 1 Tick) ++
  [Deliver 0; Deliver 2; Deliver 3; Restart 2; Deliver 3; Deliver 5].

Definition sample_elected : World :=
  default sample_cluster
    (acts (H := checksum_hasher) sample_roster sample_timings sample_cluster sample_election).

Lemma sample_elected_reachable : reachable (H := checksum_hasher) sample_roster sample_timings sample_elected.
Proof.
  apply (acts_reachable (H := checksum_hasher) sample_roster sample_timings sample_election sample_cluster);
    [exact sample_cluster_reachable|]. vm_compute. reflexivity.
Qed.

Lemma election_safety_witness : (1, 1) ∈ w_leaders sample_elected /\ 1 = 1.
Proof.
  assert ((1, 1) ∈ w_leaders sample_elected) as Hl
    by (apply (bool_decide_unpack _); vm_compute; exact I).
  split; [exact Hl|].
  apply (election_safety (H := checksum_hasher) sample_voters sample_roster sample_timings
    sample_elected 1 1 1); [exact sample_roster_new|done|exact sample_elected_reachable|exact Hl..].
Defined.

Lemma one_vote_per_term_witness :
  w_sent sample_elected !! 5%nat = Some (2, 1, RequestVoteResponse 1 2 true)
  /\ w_sent sample_elected !! 6%nat = Some (2, 1, RequestVoteResponse 1 2 true) /\ 1 = 1.
Proof.
  assert (w_sent sample_elected !! 5%nat = Some (2, 1, RequestVoteResponse 1 2 true)) as H5
    by (vm_compute; reflexivity).
  assert (w_sent sample_elected !! 6%nat = Some (2, 1, RequestVoteResponse 1 2 true)) as H6
    by (vm_compute; reflexivity).
  split; [exact H5|]. split; [exact H6|].
  apply (one_vote_per_term (H := checksum_hasher) sample_voters sample_roster sample_timings
    sample_elected 2 1 2 2 1 1); [exact sample_roster_new|done|exact sample_elected_reachable| |].
  - exact (list_elem_of_lookup_2 _ _ _ H5).
  - exact (list_elem_of_lookup_2 _ _ _ H6).
Defined.
