(* ===== verification/Cluster.v ===== *)
(** * Cluster: drivers, disks and frames together

    A cluster as it is deployed: every node is a driver with its SQLite store,
    messages wait in queues, are coalesced and encoded, travel as byte frames
    that may be lost, repeated, delayed and reordered, are decoded by the RPC
    handler, and a node may crash at any point of persisting a step and be
    started again from what its disk holds. Every behaviour of this system is a
    behaviour of the abstract cluster of [Election]. *)

From S2P Require Import Prelude Bytes Commands StateMachine Ledger Snapshot Replay Roster RaftTypes.
From S2P Require Import RaftCore RaftLog Durability Wire RaftTyped Store StoreRefines StoreRecovery.
From S2P Require Import LocalSnapshot SingleNode Driver DriverSafety Coalesce Election.

(** ** The system *)

(** The nodes, every message ever handed to a peer's worker, every message a
    worker has taken into a batch, every frame ever put on the network, each
    with sender and receiver, and the history of leaders as pairs of term and
    node. *)
Record Cluster := {
  cl_nodes : gmap Z SharedEngine;
  cl_queued : list (Z * Z * RaftMessage);
  cl_batched : list (Z * Z * RaftMessage);
  cl_frames : list (Z * Z * bytes);
  cl_leaders : gset (Z * Z);
}.

Definition core_of (eng : SharedEngine) : ConsensusCore := ds_core (sync_state eng).

(** Node [id] moves to [eng], queues [out] and puts [frames] on the network. *)
Definition cl_moved (cl : Cluster) (id : Z) (eng : SharedEngine) (out : list (Z * RaftMessage))
    (frames : list (Z * Z * bytes)) : Cluster := {|
  cl_nodes := <[id := eng]> (cl_nodes cl);
  cl_queued := cl_queued cl ++ ((fun tm => (id, tm.1, tm.2)) <$> out);
  cl_batched := cl_batched cl;
  cl_frames := cl_frames cl ++ frames;
  cl_leaders := cl_leaders cl ∪ leader_of id (core_of eng);
|}.

(** A worker of [id] towards [peer] has a batch ready. *)
Definition cl_batch (cl : Cluster) (id peer : Z) (batch : list RaftMessage) : Cluster := {|
  cl_nodes := cl_nodes cl;
  cl_queued := cl_queued cl;
  cl_batched := cl_batched cl ++ (pair (id, peer) <$> batch);
  cl_frames := cl_frames cl;
  cl_leaders := cl_leaders cl;
|}.

Section cluster.
Context `{Sha256} (r : ValidatedVoterRoster) (timings : Z -> ConsensusTimingConfig).
Implicit Types (cl : Cluster) (eng : SharedEngine) (w : World).

(** An input the store has room for: no counter is at its maximum, entries come
    in order and intact, terms and indices fit SQLite's integers, proposals are
    well-formed and a snapshot to install decodes to its metadata. *)
Definition fits eng (input : ConsensusInput) : Prop :=
  input_ok (core_of eng) input
  /\ effects_storable (abs (core_of eng)) (step (core_of eng) input).2
  /\ commit_index (step (core_of eng) input).1 <= u32_max.

(** What a node can be working on: a local call, or a frame from the network. *)
Definition available cl id (input : ConsensusInput) : Prop :=
  match input with
  | ReceiveMessage from m => exists b, (from, id, b) ∈ cl_frames cl /\ decode_raft_message b = Ok m
  | _ => input_typed input
  end.

(** What the disk of a node can hold when it crashes: what it holds between two
    steps, or any stage of making a step durable. *)
Definition crash_disk cl id eng (disk : SqliteConsensusStore) : Prop :=
  disk = ds_store (sync_state eng)
  \/ exists input, available cl id input /\ fits eng input
     /\ disk_state (ds_store (sync_state eng)) (ds_state_machine (sync_state eng))
          (step (core_of eng) input).2 disk.

Inductive cstep cl : Cluster -> Prop :=
  | cs_local id eng input proposal_waiter read_waiter eng' out :
      cl_nodes cl !! id = Some eng -> is_local input = true -> available cl id input -> fits eng input ->
      step_and_persist eng input None proposal_waiter read_waiter = (eng', out) ->
      cstep cl (cl_moved cl id eng' (so_outbound out) [])
  | cs_batch id peer eng raw_batch :
      cl_nodes cl !! id = Some eng -> (forall m, m ∈ raw_batch -> (id, peer, m) ∈ cl_queued cl) ->
      cstep cl (cl_batch cl id peer (worker_batch (sync_state eng) raw_batch))
  | cs_send id peer eng m b :
      cl_nodes cl !! id = Some eng -> (id, peer, m) ∈ cl_batched cl -> worker_sends eng m = true ->
      encode_raft_message m = Some b -> cstep cl (cl_moved cl id eng [] [(id, peer, b)])
  | cs_request id from eng b eng' out reply :
      cl_nodes cl !! id = Some eng -> (from, id, b) ∈ cl_frames cl ->
      (forall m, decode_raft_message b = Ok m -> fits eng (ReceiveMessage from m)) ->
      handle_rpc eng from b = (eng', out, Some reply) ->
      cstep cl (cl_moved cl id eng' (so_outbound out) [(id, from, rpc_payload reply)])
  | cs_reply id from eng b eng' out :
      cl_nodes cl !! id = Some eng -> (from, id, b) ∈ cl_frames cl ->
      (forall m, decode_raft_message b = Ok m -> fits eng (ReceiveMessage from m)) ->
      handle_reply eng from b = (eng', out) -> cstep cl (cl_moved cl id eng' (so_outbound out) [])
  | cs_compact id eng ds meta :
      cl_nodes cl !! id = Some eng -> driver_compact (sync_state eng) = (ds, Some (Ok meta)) ->
      cstep cl (cl_moved cl id (eng <| sync_state := ds |>) [] [])
  | cs_shutdown id eng :
      cl_nodes cl !! id = Some eng -> cstep cl (cl_moved cl id (shutdown eng).1 [] [])
  | cs_crash id eng wal disk disk' eng' :
      cl_nodes cl !! id = Some eng -> crash_disk cl id eng disk ->
      verify_wal_header_if_present wal = mret tt ->
      engine_start wal disk id r (Some (timings id)) = (disk', Some (Ok eng')) ->
      cstep cl (cl_moved cl id eng' [] []).

(** A node started on an empty directory. *)
Definition fresh_node id eng : Prop :=
  cell_ok id /\ timing_ok (timings id) /\ exists wal disk,
    verify_wal_header_if_present wal = mret tt
    /\ engine_start wal empty_store id r (Some (timings id)) = (disk, Some (Ok eng)).

Definition cl_initial (nodes : gmap Z SharedEngine) : Cluster :=
  {| cl_nodes := nodes; cl_queued := []; cl_batched := []; cl_frames := []; cl_leaders := ∅ |}.

Inductive cluster_reachable : Cluster -> Prop :=
  | cr_initial nodes : map_Forall fresh_node nodes -> cluster_reachable (cl_initial nodes)
  | cr_step cl cl' : cluster_reachable cl -> cstep cl cl' -> cluster_reachable cl'.

(** ** Simulation *)

(** A node against its replica in the abstract cluster. *)
Definition node_simulated w id eng : Prop :=
  w_cores w !! id = Some (core_of eng) /\ driver_ok (sync_state eng) /\ core_typed (core_of eng)
  /\ leader_of id (core_of eng) ⊆ w_leaders w.

Record simulates cl w : Prop := {
  sim_reachable : reachable r timings w;
  sim_node id eng : cl_nodes cl !! id = Some eng -> node_simulated w id eng;
  sim_queued x : x ∈ cl_queued cl -> x ∈ w_sent w;
  sim_batched x : x ∈ cl_batched cl -> x ∈ w_sent w;
  sim_frames from to b m : (from, to, b) ∈ cl_frames cl -> decode_raft_message b = Ok m ->
    (from, to, m) ∈ w_sent w;
  sim_typed from to m : (from, to, m) ∈ w_sent w -> message_ok m;
  sim_leaders : cl_leaders cl ⊆ w_leaders w;
}.

(** One move of the cluster against one move of the abstract one. *)
Lemma simulates_moved cl w id eng out frames effs :
  simulates cl w -> reachable r timings (moved w id (core_of eng) effs) ->
  driver_ok (sync_state eng) -> core_typed (core_of eng) -> Forall effect_typed effs ->
  (forall t m, (t, m) ∈ out -> SendMessage t m ∈ effs) ->
  (forall from to b m, (from, to, b) ∈ frames -> decode_raft_message b = Ok m ->
     (from, to, m) ∈ w_sent w ++ sends id effs) ->
  simulates (cl_moved cl id eng out frames) (moved w id (core_of eng) effs).
Proof.
  intros [Hreach Hnode Hq Hb Hf Ht Hl] Hreach' Hok Hty Heffs Hout Hframes.
  split; cbn [cl_moved cl_nodes cl_queued cl_batched cl_frames cl_leaders moved w_cores w_sent w_leaders].
  - done.
  - unfold node_simulated. cbn [moved w_cores w_leaders].
    intros i e [[<- <-]|[Hne He]]%lookup_insert_Some; [rewrite lookup_insert_eq; split_and!; set_solver|].
    rewrite lookup_insert_ne by done. destruct (Hnode i e He) as (? & ? & ? & ?). split_and!; set_solver.
  - intros x [Hin|Hin]%elem_of_app; apply elem_of_app; [left; by apply Hq|right].
    apply list_elem_of_fmap in Hin as ([t m] & -> & Hin). apply elem_of_sends. auto.
  - intros x Hin. apply elem_of_app. left. by apply Hb.
  - intros from to b m [Hin|Hin]%elem_of_app Hd; [apply elem_of_app; left; by eapply Hf|by eapply Hframes].
  - intros from to m [Hin|Hin]%elem_of_app; [by eapply Ht|]. apply elem_of_sends in Hin as [-> Hin].
    rewrite Forall_forall in Heffs. by apply (Heffs _ Hin).
  - set_solver.
Qed.

(** A step of a node, whose reply may go out as a frame. *)
Lemma simulates_step cl w id eng input peer pw rw eng' out frames :
  simulates cl w -> cl_nodes cl !! id = Some eng -> available cl id input -> fits eng input ->
  step_and_persist eng input peer pw rw = (eng', out) ->
  (forall from to b m, (from, to, b) ∈ frames -> decode_raft_message b = Ok m ->
     exists reply, so_result out = Some (Ok (Some reply)) /\ encode_raft_message reply = Some b
       /\ from = id /\ peer = Some to) ->
  exists w', simulates (cl_moved cl id eng' (so_outbound out) frames) w'.
Proof.
  intros Hsim Hn Hav (Hin & Hst & Hmax) Hs Hframes. destruct (sim_node _ _ Hsim _ _ Hn) as (Hc & Hok & Hty & _).
  assert (input_typed input) as Hit.
  { destruct input; try exact Hav. destruct Hav as (b & Hb & Hd). eapply (sim_typed _ _ Hsim).
    by eapply (sim_frames _ _ Hsim). }
  pose proof (step_typed (core_of eng) input Hty Hit) as [Hty' Heffs].
  destruct (locked_step_ok _ _ peer pw rw Hok Hin Hst Hmax)
    as (ds' & o & reply & Hl & Hres & Hok' & Hcore & Hout & Hrep & _).
  unfold step_and_persist in Hs. rewrite Hl in Hs. apply pair_equal_spec in Hs as [<- <-].
  exists (moved w id (core_of (eng <| sync_state := ds' |>)) (step (core_of eng) input).2).
  apply (simulates_moved cl w id (eng <| sync_state := ds' |>)); [exact Hsim| |exact Hok'| |exact Heffs| |].
  - change (core_of (eng <| sync_state := ds' |>)) with (ds_core ds'). rewrite Hcore.
    eapply r_step; [by apply Hsim|]. apply ws_input; [done..|]. intros from m ->.
    destruct Hav as (b & Hb & Hd). by eapply (sim_frames _ _ Hsim).
  - change (core_typed (ds_core ds')). by rewrite Hcore.
  - cbn [so_outbound]. intros t m Hx. apply Hout. destruct (shutting_down eng); [by apply elem_of_nil in Hx|].
    by apply list_elem_of_filter in Hx as [_ ?].
  - intros from to b m Hb Hd. destruct (Hframes from to b m Hb Hd) as (m' & Hr & He & -> & Hp).
    cbn [so_result] in Hr. rewrite Hres in Hr. injection Hr as ->.
    destruct (Hrep m' eq_refl) as (t & Ht & Hs). rewrite Hp in Ht. injection Ht as <-.
    assert (message_ok m') as Hm by (rewrite Forall_forall in Heffs; by apply (Heffs _ Hs)).
    rewrite (decode_encoded m' b m Hm He Hd). apply elem_of_app. right. by apply elem_of_sends.
Qed.

(** A move that changes no replica. *)
Lemma simulates_idle cl w id eng eng' frames :
  simulates cl w -> cl_nodes cl !! id = Some eng -> core_of eng' = core_of eng ->
  driver_ok (sync_state eng') ->
  (forall from to b m, (from, to, b) ∈ frames -> decode_raft_message b = Ok m -> (from, to, m) ∈ w_sent w) ->
  simulates (cl_moved cl id eng' [] frames) w.
Proof.
  intros [Hreach Hnode Hq Hb Hf Ht Hl] Hn Hcore Hok Hframes. destruct (Hnode _ _ Hn) as (Hc & _ & Hty & Hlead).
  split; cbn [cl_moved cl_nodes cl_queued cl_batched cl_frames cl_leaders]; rewrite ?app_nil_r; try done.
  - intros i e [[<- <-]|[Hne He]]%lookup_insert_Some; [|by apply Hnode]. unfold node_simulated. by rewrite Hcore.
  - intros from to b m [Hin|Hin]%elem_of_app Hd; [by eapply Hf|by eapply Hframes].
  - rewrite Hcore. set_solver.
Qed.

Lemma simulates_batch cl w id peer eng raw_batch :
  simulates cl w -> (forall m, m ∈ raw_batch -> (id, peer, m) ∈ cl_queued cl) ->
  simulates (cl_batch cl id peer (worker_batch (sync_state eng) raw_batch)) w.
Proof.
  intros [Hreach Hnode Hq Hb Hf Ht Hl] Hraw.
  split; cbn [cl_batch cl_nodes cl_queued cl_batched cl_frames cl_leaders]; try done.
  intros x [Hin|Hin]%elem_of_app; [by apply Hb|]. apply list_elem_of_fmap in Hin as (m & -> & Hm).
  apply Hq, Hraw. eapply elem_of_sublist; [exact Hm|]. apply coalesce_sublist.
Qed.

Lemma decode_nil m : decode_raft_message [] <> Ok m.
Proof. done. Qed.

(** A frame is handled as a request. *)
Lemma simulates_request cl w id from eng b eng' out reply :
  simulates cl w -> cl_nodes cl !! id = Some eng -> (from, id, b) ∈ cl_frames cl ->
  (forall m, decode_raft_message b = Ok m -> fits eng (ReceiveMessage from m)) ->
  handle_rpc eng from b = (eng', out, Some reply) ->
  exists w', simulates (cl_moved cl id eng' (so_outbound out) [(id, from, rpc_payload reply)]) w'.
Proof.
  intros Hsim Hn Hb Hfit. pose proof (sim_node _ _ Hsim _ _ Hn) as (_ & Hok & _).
  assert (simulates (cl_moved cl id eng [] [(id, from, [])]) w) as Hidle.
  { apply (simulates_idle _ _ _ eng); [done..|].
    intros ? ? ? m [= -> -> ->]%list_elem_of_singleton Hd. by apply decode_nil in Hd. }
  unfold handle_rpc. destruct (shutting_down eng); [intros [= <- <- <-]; eauto|].
  destruct (decode_raft_message b) as [m|] eqn:Hd; [|intros [= <- <- <-]; eauto].
  destruct (step_and_persist _ _ _ _ _) as [eng1 out1] eqn:Hs. intros Heq.
  apply pair_equal_spec in Heq as [[<- <-]%pair_equal_spec Hreply].
  eapply (simulates_step _ _ _ _ (ReceiveMessage from m)); [done|done|by exists b|by apply Hfit|exact Hs|].
  intros ? ? b' m' [= -> -> ->]%list_elem_of_singleton Hd'.
  destruct (so_result out1) as [[[rm|]|]|]; try done;
    try (injection Hreply as <-; by apply decode_nil in Hd').
  apply fmap_Some in Hreply as (b1 & He & ->). by exists rm.
Qed.

Lemma simulates_reply cl w id from eng b eng' out :
  simulates cl w -> cl_nodes cl !! id = Some eng -> (from, id, b) ∈ cl_frames cl ->
  (forall m, decode_raft_message b = Ok m -> fits eng (ReceiveMessage from m)) ->
  handle_reply eng from b = (eng', out) ->
  exists w', simulates (cl_moved cl id eng' (so_outbound out) []) w'.
Proof.
  intros Hsim Hn Hb Hfit. pose proof (sim_node _ _ Hsim _ _ Hn) as (_ & Hok & _).
  assert (simulates (cl_moved cl id eng [] []) w) as Hidle.
  { apply (simulates_idle _ _ _ eng); [done..|]. by intros ? ? ? m ?%elem_of_nil. }
  unfold handle_reply. case_bool_decide; [intros [= <- <-]; eauto|].
  destruct (decode_raft_message b) as [m|] eqn:Hd; [|intros [= <- <-]; eauto]. intros Hs.
  eapply (simulates_step _ _ _ _ (ReceiveMessage from m)); [done|done|by exists b|by apply Hfit|exact Hs|].
  by intros ? ? ? ? ?%elem_of_nil.
Qed.

(** A node compacts its log. *)
Lemma simulates_compact cl w id eng ds meta :
  simulates cl w -> cl_nodes cl !! id = Some eng -> driver_compact (sync_state eng) = (ds, Some (Ok meta)) ->
  exists w', simulates (cl_moved cl id (eng <| sync_state := ds |>) [] []) w'.
Proof.
  intros Hsim Hn Hdc. destruct (sim_node _ _ Hsim _ _ Hn) as (Hc & Hok & Hty & _).
  destruct (driver_compact_ok _ _ _ Hok Hdc) as (Hok' & m & b & Hidx & Hi & Hm & Hb & Hcore).
  exists (moved w id (core_of (eng <| sync_state := ds |>)) []).
  apply simulates_moved; [done| |exact Hok'| |done|by intros ? ? ?%elem_of_nil|by intros ? ? ? ? ?%elem_of_nil].
  - change (core_of (eng <| sync_state := ds |>)) with (ds_core ds). rewrite Hcore.
    eapply r_step; [by apply Hsim|]. by apply ws_compact.
  - change (core_typed (ds_core ds)). rewrite Hcore. by apply record_local_typed.
Qed.

Lemma shutdown_ok eng : driver_ok (sync_state eng) -> driver_ok (sync_state (shutdown eng).1).
Proof. by apply driver_ok_frame. Qed.
End cluster.

Section safety.
Context `{Sha256} (r : ValidatedVoterRoster) (timings : Z -> ConsensusTimingConfig).
Context (Hr : roster_wf r) (Hm : (3 <= roster_len r)%nat).
Implicit Types (cl : Cluster) (eng : SharedEngine) (w : World).

(** What a node restarted from [abs c] is. *)
Lemma restart_typed w id c wal disk disk' eng :
  reachable r timings w -> w_cores w !! id = Some c -> core_typed c -> stores disk (abs c) ->
  verify_wal_header_if_present wal = mret tt ->
  engine_start wal disk id r (Some (timings id)) = (disk', Some (Ok eng)) ->
  rehydrate id r (timings id) (abs c) = Ok (core_of eng) /\ driver_ok (sync_state eng)
  /\ core_typed (core_of eng).
Proof.
  intros Hreach Hc Hty Hso Hwal Hs.
  pose proof (reachable_inv r timings Hr ltac:(lia) w Hreach) as Hw.
  destruct (wi_core _ _ _ Hw id c Hc) as (Hinv & Hconf & Hv & Hnew).
  destruct (engine_restart wal disk id r (timings id) c) as (d & e & Hs' & Hre & Habs & Hok); try done.
  rewrite Hs in Hs'. injection Hs' as <- <-. split_and!; [done..|].
  injection Hv as El _ Et. pose proof (ty_local _ Hty) as Hl. pose proof (ty_timing _ Hty) as Ht. rewrite El in Hl. rewrite Et in Ht.
  eapply rehydrate_typed; [done..|by apply abs_typed|exact Hre].
Qed.

(** A cluster with fewer messages and a shorter history is simulated as well. *)
Lemma simulates_weaken cl cl' w :
  simulates r timings cl w -> cl_nodes cl' = cl_nodes cl -> cl_queued cl' ⊆ cl_queued cl ->
  cl_batched cl' ⊆ cl_batched cl -> cl_frames cl' ⊆ cl_frames cl -> cl_leaders cl' ⊆ cl_leaders cl ->
  simulates r timings cl' w.
Proof.
  intros [Hreach Hnode Hq Hb Hf Ht Hl] En Eq Eb Ef El. split; [done|by rewrite En|set_solver..| |done|set_solver].
  intros from to b m Hin. by eapply Hf, Ef.
Qed.

(** A node is restarted from a disk that holds its durable state. *)
Lemma simulates_restart cl w id eng wal disk disk' eng' :
  simulates r timings cl w -> cl_nodes cl !! id = Some eng -> stores disk (abs (core_of eng)) ->
  verify_wal_header_if_present wal = mret tt ->
  engine_start wal disk id r (Some (timings id)) = (disk', Some (Ok eng')) ->
  exists w', simulates r timings (cl_moved cl id eng' [] []) w'.
Proof.
  intros Hsim Hn Hso Hwal Hs. pose proof (sim_node _ _ _ _ Hsim _ _ Hn) as (Hc & Hok & Hty & _).
  pose proof (sim_reachable _ _ _ _ Hsim) as Hreach.
  destruct (restart_typed w id _ wal disk disk' eng' Hreach Hc Hty Hso Hwal Hs) as (Hre & Hok' & Hty').
  eexists. apply simulates_moved;
    [exact Hsim| |done..|by intros ? ? ?%elem_of_nil|by intros ? ? ? ? ?%elem_of_nil].
  eapply r_step; [done|]. by eapply ws_restart.
Qed.

Lemma simulates_crash cl w id eng wal disk disk' eng' :
  simulates r timings cl w -> cl_nodes cl !! id = Some eng -> crash_disk cl id eng disk ->
  verify_wal_header_if_present wal = mret tt ->
  engine_start wal disk id r (Some (timings id)) = (disk', Some (Ok eng')) ->
  exists w', simulates r timings (cl_moved cl id eng' [] []) w'.
Proof.
  intros Hsim Hn Hdisk Hwal Hs. pose proof (sim_node _ _ _ _ Hsim _ _ Hn) as (Hc & Hok & _).
  destruct Hdisk as [->|(input & Hav & (Hin & Hst & Hmax) & Hds)].
  { eapply simulates_restart; [done..|apply Hok|done|done]. }
  pose proof (step_synced _ _ (dv_inv _ Hok) (dv_conf _ Hok) Hin) as (_ & _ & Hrun).
  destruct (disk_state_stores _ _ _ _ _ _ (dv_stores _ Hok) (dv_live _ Hok) Hst Hrun Hmax Hds) as [Hso|Hso].
  { by eapply simulates_restart. }
  destruct (step_and_persist eng input None None None) as [eng1 out] eqn:Hstep.
  destruct (simulates_step r timings cl w id eng input None None None eng1 out [])
    as [w1 Hsim1]; [done..|by intros ? ? ? ? ?%elem_of_nil|].
  assert (core_of eng1 = (step (core_of eng) input).1) as Hcore.
  { destruct (locked_step_ok _ _ None None None Hok Hin Hst Hmax) as (ds' & o & ? & Hl & _ & _ & Hcore & _).
    unfold step_and_persist in Hstep. rewrite Hl in Hstep. apply pair_equal_spec in Hstep as [<- _]. exact Hcore. }
  destruct (simulates_restart _ w1 id eng1 wal disk disk' eng' Hsim1) as [w2 Hsim2];
    [apply lookup_insert_eq|by rewrite Hcore|done..|].
  exists w2. eapply simulates_weaken; [exact Hsim2|..];
    cbn [cl_moved cl_nodes cl_queued cl_batched cl_frames cl_leaders]; rewrite ?insert_insert_eq; set_solver.
Qed.
(** A fresh node is a fresh replica over a store of the empty state. *)
Lemma fresh_node_ok id eng :
  fresh_node r timings id eng ->
  core_new id r (timings id) = Ok (core_of eng) /\ driver_ok (sync_state eng) /\ core_typed (core_of eng)
  /\ role (core_of eng) = Follower.
Proof.
  intros (Hid & Htim & wal & disk & Hwal & Hs).
  destruct (engine_start_inv _ _ _ _ _ _ _ Hs) as (_ & Hval & c & Hnew).
  pose proof (core_new_fields _ _ _ _ Hnew) as (_ & Hdom & _ & Hblank). specialize (Hblank ltac:(lia)).
  assert (rehydrate id r (timings id) empty_state = Ok c) as Hre.
  { unfold rehydrate. rewrite Hnew. cbv zeta. rewrite decide_False by lia. by rewrite Hblank. }
  destruct (engine_start_stored wal empty_store empty_state id r (timings id) c)
    as (disk1 & sm & Hs' & Hlive & Hso); [done|apply empty_state_stored|done..|].
  rewrite Hs in Hs'. injection Hs' as <- ->. unfold core_of. cbn [sync_state ds_core].
  assert (abs c = empty_state) as Habs by by rewrite Hblank.
  split_and!; [done| |by eapply core_new_typed|by rewrite Hblank].
  split; cbn [ds_core ds_store ds_state_machine sticky_fatal_error]; rewrite ?Habs; try done.
  - rewrite Hblank. split; cbn; done.
  - by rewrite Hblank.
Qed.

Lemma initial_simulated nodes :
  map_Forall (fresh_node r timings) nodes ->
  simulates r timings (cl_initial nodes) (w_initial (core_of <$> nodes)).
Proof.
  intros Hn. split; cbn [cl_initial w_initial cl_nodes cl_queued cl_batched cl_frames cl_leaders w_sent w_leaders];
    try done; try set_solver.
  - apply r_initial. intros id c (eng & <- & He)%lookup_fmap_Some. by apply (fresh_node_ok id), Hn.
  - intros id eng He. destruct (fresh_node_ok id eng (Hn id eng He)) as (_ & Hok & Hty & Hrole).
    unfold node_simulated. cbn [w_initial w_cores w_leaders]. rewrite lookup_fmap, He. split_and!; [done..|].
    unfold leader_of. by rewrite Hrole.
Qed.

Lemma step_simulated cl w cl' :
  simulates r timings cl w -> cstep r timings cl cl' -> exists w', simulates r timings cl' w'.
Proof.
  intros Hsim Hstep. destruct Hstep as
    [id eng input pw rw eng' out Hn _ Hav Hfit Hs|id peer eng raw Hn Hraw|id peer eng m b Hn Hb Hw He
    |id from eng b eng' out reply Hn Hb Hfit Hh|id from eng b eng' out Hn Hb Hfit Hh|id eng ds meta Hn Hdc
    |id eng Hn|id eng wal disk disk' eng' Hn Hd Hwal Hs].
  - eapply simulates_step; [done..|]. by intros ? ? ? ? ?%elem_of_nil.
  - exists w. by apply simulates_batch.
  - exists w. apply (simulates_idle r timings cl w id eng); [done..|by apply (sim_node _ _ _ _ Hsim _ _ Hn)|].
    intros from to b' m' [= -> -> ->]%list_elem_of_singleton Hd.
    pose proof (sim_batched _ _ _ _ Hsim _ Hb) as Hsent.
    by rewrite (decode_encoded m b m' (sim_typed _ _ _ _ Hsim _ _ _ Hsent) He Hd).
  - by eapply simulates_request.
  - by eapply simulates_reply.
  - by eapply simulates_compact.
  - exists w. apply (simulates_idle r timings cl w id eng); [done..| |by intros ? ? ? ? ?%elem_of_nil].
    by apply shutdown_ok, (sim_node _ _ _ _ Hsim _ _ Hn).
  - by eapply simulates_crash.
Qed.

Lemma cluster_simulated cl : cluster_reachable r timings cl -> exists w, simulates r timings cl w.
Proof.
  induction 1 as [nodes Hn|cl cl' _ [w IH] Hstep]; [eexists; by apply initial_simulated|].
  by eapply step_simulated.
Qed.
End safety.

(** ** Executing the cluster *)

Inductive cluster_action :=
  | CTick (id : Z)
  | CBatch (id peer : Z)
  | CSend (k : nat)
  | CRequest (k : nat)
  | CReply (k : nat)
  | CCrash (id : Z).

Section execution.
Context `{Sha256} (r : ValidatedVoterRoster) (timings : Z -> ConsensusTimingConfig).
Implicit Types (cl : Cluster) (eng : SharedEngine).

(** Effects that only touch the hard state, which is enough for elections. *)
Definition hard_state_only (eff : ConsensusEffect) : bool :=
  match eff with
  | PersistHardState t v => bool_decide (0 <= t <= i64_max) && bool_decide (v <> Some 0)
  | AppendLogEntries _ | InstallSnapshot _ _ | TruncateLogSuffixFrom _ => false
  | _ => true
  end.

Definition fits_hard eng (input : ConsensusInput) : bool :=
  bool_decide (input_ok (core_of eng) input)
  && forallb hard_state_only (step (core_of eng) input).2
  && bool_decide (commit_index (step (core_of eng) input).1 <= u32_max).

Definition frame_fits eng (from : Z) (b : bytes) : bool :=
  match decode_raft_message b with Ok m => fits_hard eng (ReceiveMessage from m) | Err _ => true end.

(** One action: a tick, a worker taking what is queued for its peer, sending
    the [k]-th batched message, handling the [k]-th frame as a request or as a
    reply, and a crash between two steps. *)
Definition cact cl (a : cluster_action) : option Cluster :=
  match a with
  | CTick id =>
      eng ← cl_nodes cl !! id;
      if fits_hard eng Tick then
        let '(eng', out) := tick eng in
        Some (cl_moved cl id eng' (so_outbound out) [])
      else None
  | CBatch id peer =>
      eng ← cl_nodes cl !! id;
      Some (cl_batch cl id peer (worker_batch (sync_state eng)
        (snd <$> filter (fun x => x.1 = (id, peer)) (cl_queued cl))))
  | CSend k =>
      '(id, peer, m) ← cl_batched cl !! k;
      eng ← cl_nodes cl !! id;
      b ← encode_raft_message m;
      if worker_sends eng m then Some (cl_moved cl id eng [] [(id, peer, b)]) else None
  | CRequest k =>
      '(from, id, b) ← cl_frames cl !! k;
      eng ← cl_nodes cl !! id;
      if frame_fits eng from b then
        let '(eng', out, reply) := handle_rpc eng from b in
        reply ← reply;
        Some (cl_moved cl id eng' (so_outbound out) [(id, from, rpc_payload reply)])
      else None
  | CReply k =>
      '(from, id, b) ← cl_frames cl !! k;
      eng ← cl_nodes cl !! id;
      if frame_fits eng from b then
        let '(eng', out) := handle_reply eng from b in
        Some (cl_moved cl id eng' (so_outbound out) [])
      else None
  | CCrash id =>
      eng ← cl_nodes cl !! id;
      match engine_start None (ds_store (sync_state eng)) id r (Some (timings id)) with
      | (_, Some (Ok eng')) => Some (cl_moved cl id eng' [] [])
      | _ => None
      end
  end.

Fixpoint cacts cl (l : list cluster_action) : option Cluster :=
  match l with
  | [] => Some cl
  | a :: l => cl' ← cact cl a; cacts cl' l
  end.

Lemma fits_hard_sound eng input : fits_hard eng input = true -> fits eng input.
Proof.
  unfold fits_hard, fits. rewrite !andb_true_iff, !bool_decide_eq_true.
  intros ((Hin & Heffs) & Hmax). split_and!; [done| |done].
  generalize (abs (core_of eng)). induction (step (core_of eng) input).2 as [|eff effs IH]; intros d; [done|].
  cbn [forallb] in Heffs. apply andb_true_iff in Heffs as [He Heffs]. cbn [effects_storable]. split.
  - destruct eff; try done. cbn [hard_state_only] in He. rewrite andb_true_iff, !bool_decide_eq_true in He. done.
  - destruct (apply_effect d eff); [by apply IH|done].
Qed.

Lemma frame_fits_sound eng from b m :
  frame_fits eng from b = true -> decode_raft_message b = Ok m -> fits eng (ReceiveMessage from m).
Proof. unfold frame_fits. intros Hf Hd. rewrite Hd in Hf. by apply fits_hard_sound. Qed.

Lemma cact_step cl a cl' : cact cl a = Some cl' -> cstep r timings cl cl'.
Proof.
  destruct a as [id|id peer|k|k|k|id]; cbn [cact].
  - intros (eng & Hn & Hc)%bind_Some. destruct (fits_hard eng Tick) eqn:Hf; [|done].
    apply fits_hard_sound in Hf. unfold tick in Hc. destruct (step_and_persist _ _ _ _ _) as [eng' out] eqn:Hs. apply (inj Some) in Hc as <-.
    by apply (cs_local r timings cl id eng Tick None None).
  - intros (eng & Hn & Hc)%bind_Some. apply (inj Some) in Hc as <-. apply cs_batch; [done|].
    intros m ([x m'] & -> & [Hx Hin]%list_elem_of_filter)%list_elem_of_fmap. cbn in Hx. by subst.
  - intros ([[id peer] m] & Hk & (eng & Hn & (b & He & Hc)%bind_Some)%bind_Some)%bind_Some.
    destruct (worker_sends eng m) eqn:Hw; [|done]. apply (inj Some) in Hc as <-.
    eapply cs_send; [done|by eapply list_elem_of_lookup_2|done..].
  - intros ([[from id] b] & Hk & (eng & Hn & Hc)%bind_Some)%bind_Some.
    destruct (frame_fits eng from b) eqn:Hf; [|done].
    destruct (handle_rpc eng from b) as [[eng' out] reply] eqn:Hh.
    apply bind_Some in Hc as (rep & -> & Hc). apply (inj Some) in Hc as <-.
    eapply cs_request; [done|by eapply list_elem_of_lookup_2|intros m; by apply frame_fits_sound|done].
  - intros ([[from id] b] & Hk & (eng & Hn & Hc)%bind_Some)%bind_Some.
    destruct (frame_fits eng from b) eqn:Hf; [|done].
    destruct (handle_reply eng from b) as [eng' out] eqn:Hh. apply (inj Some) in Hc as <-.
    eapply cs_reply; [done|by eapply list_elem_of_lookup_2|intros m; by apply frame_fits_sound|done].
  - intros (eng & Hn & Hc)%bind_Some.
    destruct (engine_start _ _ _ _ _) as [d [[eng'|]|]] eqn:Hs; [|done..]. apply (inj Some) in Hc as <-.
    by eapply (cs_crash r timings cl id eng None); [done|left|..].
Qed.

Lemma cacts_reachable l : forall cl cl',
  cluster_reachable r timings cl -> cacts cl l = Some cl' -> cluster_reachable r timings cl'.
Proof.
  induction l as [|a l IH]; intros cl cl' Hcl; cbn [cacts]; [by intros [= <-]|].
  intros (cl1 & Ha & Hl)%bind_Some. eapply IH; [|exact Hl]. eapply cr_step; [done|]. by eapply cact_step.
Qed.
End execution.

(** ** Three nodes elect a leader *)

Definition sample_engine (id : Z) : option SharedEngine :=
  match engine_start (H := checksum_hasher) None empty_store id sample_roster (Some timing_default) with
  | (_, Some (Ok eng)) => Some eng
  | _ => None
  end.

Definition sample_nodes : gmap Z SharedEngine :=
  list_to_map (omap (fun id => pair id <$> sample_engine id) [1; 2; 3]).

Lemma sample_nodes_reachable :
  cluster_reachable (H := checksum_hasher) sample_roster sample_timings (cl_initial sample_nodes).
Proof.
  apply cr_initial. intros id eng Hn.
  apply elem_of_list_to_map_2, list_elem_of_omap in Hn as (i & Hi & Hs).
  assert (cell_ok i) as Hid.
  { clear Hs. repeat (apply elem_of_cons in Hi as [->|Hi]; [split; [width; lia|done]|]). by apply elem_of_nil in Hi. }
  apply fmap_Some in Hs as (e & He & [= -> ->]). unfold sample_engine in He.
  destruct (engine_start _ _ _ _ _) as [disk [[e'|]|]] eqn:Hstart; [|done..]. injection He as ->.
  split; [exact Hid|]. split; [split_and!; cbn; width; lia|].
  exists None, disk. split; [reflexivity|exact Hstart].
Qed.

(** Node 1 times out and asks node 2 for its pre-vote and its vote; node 2
    crashes after voting, and the answer it sent before still makes node 1
    leader. *)
Definition sample_deployment : list cluster_action :=
  replicate 10 (CTick 1) ++
  [CBatch 1 2; CSend 0; CRequest 0; CReply 1; CBatch 1 2; CSend 2; CRequest 2; CCrash 2; CReply 3; CRequest 2].

Definition sample_deployed : Cluster :=
  default (cl_initial ∅)
    (cacts (H := checksum_hasher) sample_roster sample_timings (cl_initial sample_nodes) sample_deployment).

Lemma sample_deployed_reachable :
  cluster_reachable (H := checksum_hasher) sample_roster sample_timings sample_deployed.
Proof.
  apply (cacts_reachable (H := checksum_hasher) sample_roster sample_timings sample_deployment
    (cl_initial sample_nodes)); [exact sample_nodes_reachable|]. vm_compute. reflexivity.
Qed.

(** ** Theorems *)



(** C4. Election safety as deployed. With drivers that persist to SQLite, workers
    that coalesce, frames that are encoded, lost, repeated and reordered, and
    nodes that crash while writing and start again from their disks, no two
    nodes are ever leader in the same term. *)
Theorem deployed_election_safety `{Sha256} voters r timings cl t a b :
  roster_new voters = Ok r -> (3 <= roster_len r)%nat -> cluster_reachable r timings cl ->
  (t, a) ∈ cl_leaders cl -> (t, b) ∈ cl_leaders cl -> a = b.
Proof.
  intros [Hr _]%roster_new_wf Hm Hcl Ha Hb. destruct (cluster_simulated r timings Hr Hm cl Hcl) as [w Hsim].
  pose proof (reachable_inv r timings Hr ltac:(lia) w (sim_reachable _ _ _ _ Hsim)) as Hw.
  eapply (won_unique r timings Hr w t); [done|by apply Hw, (sim_leaders _ _ _ _ Hsim)..].
Qed.

Lemma deployed_election_safety_witness : (1, 1) ∈ cl_leaders sample_deployed /\ 1 = 1.
Proof.
  assert ((1, 1) ∈ cl_leaders sample_deployed) as Hl
    by (apply (bool_decide_unpack _); vm_compute; exact I).
  split; [exact Hl|].
  apply (deployed_election_safety (H := checksum_hasher) sample_voters sample_roster sample_timings
    sample_deployed 1 1 1); [exact sample_roster_new|cbn; lia|exact sample_deployed_reachable|exact Hl..].
Defined.
