(* ===== verification/RaftFindings.v ===== *)
(** * RaftFindings: executions that break an intended guarantee

    Concrete executions of the model, each showing a behaviour of the consensus
    core that its comments exclude. They use the checksum hasher of [Bytes]; the
    hash does not influence them. *)

From S2P Require Import Prelude Bytes Commands Roster RaftTypes RaftCore RaftLog Durability Election.

(** ** Replicas that commit different entries *)

Definition other_proposal : ControlPlaneProposal :=
  {| idempotency_key := 8; command := command sample_proposal |}.

Abbreviation deliver_all ks := (Deliver <$> ks%nat).

(** Replica 2 leads term 1 with replica 3's vote and appends an entry that reaches
    nobody. Replica 1 leads term 2 with replica 3's vote; its first heartbeat,
    without entries, reaches replica 2, which answers with the length of its own
    log. Replica 1 meanwhile appends an entry, and takes the late answer as a
    copy of it. Replica 2 then leads term 3 with replica 3's vote and commits its
    own entry. *)
Definition divergence : list action :=
  replicate 10 (Act 2 Tick) ++ deliver_all [1; 2; 4; 5]
  ++ [Act 2 (Propose sample_proposal None)]
  ++ replicate 10 (Act 1 Tick) ++ deliver_all [11; 12]
  ++ replicate 10 (Act 1 Tick) ++ deliver_all [14; 15; 17; 18; 19]
  ++ [Act 1 (Propose other_proposal None)] ++ deliver_all [21]
  ++ replicate 10 (Act 2 Tick) ++ deliver_all [25; 26; 28; 29]
  ++ [Act 2 (Propose sample_proposal None)] ++ deliver_all [33; 34; 35; 36].

Definition diverged (w : World) : bool :=
  match w_cores w !! 1, w_cores w !! 2 with
  | Some c1, Some c2 =>
      match tail_get c1 1, tail_get c2 1 with
      | Some e1, Some e2 =>
          bool_decide (1 <= commit_index c1) && bool_decide (1 <= commit_index c2)
          && bool_decide (e_proposal e1 = other_proposal)
          && bool_decide (e_proposal e2 = sample_proposal)
      | _, _ => false
      end
  | _, _ => false
  end.

Lemma diverged_spec w : diverged w = true -> exists c1 c2 e1 e2,
  w_cores w !! 1 = Some c1 /\ w_cores w !! 2 = Some c2
  /\ 1 <= commit_index c1 /\ 1 <= commit_index c2
  /\ tail_get c1 1 = Some e1 /\ tail_get c2 1 = Some e2
  /\ e_proposal e1 = other_proposal /\ e_proposal e2 = sample_proposal.
Proof.
  unfold diverged. destruct (w_cores w !! 1) as [c1|], (w_cores w !! 2) as [c2|]; try done.
  destruct (tail_get c1 1) as [e1|] eqn:E1, (tail_get c2 1) as [e2|] eqn:E2; try done.
  rewrite !andb_true_iff, !bool_decide_eq_true. intros [[[? ?] ?] ?].
  by exists c1, c2, e1, e2.
Qed.

Lemma divergence_runs :
  match acts (H := checksum_hasher) sample_roster sample_timings sample_cluster divergence with
  | Some w => diverged w
  | None => false
  end = true.
Proof. vm_compute. reflexivity. Qed.


(** ** A rejected append that changes the log *)

Definition corrupt_entry : RaftLogEntry :=
  {| e_index := 2; e_term := 1; e_proposal := sample_proposal; e_sha256 := 0 |}.
Definition intact_entry : RaftLogEntry := entry_new (H := checksum_hasher) 1 1 sample_proposal.

Definition corrupt_append : stepped :=
  step (H := checksum_hasher) sample_core
    (ReceiveMessage 2 (AppendEntries 1 2 0 0 [intact_entry; corrupt_entry] 0 5)).
Definition retried_append : stepped :=
  step (H := checksum_hasher) corrupt_append.1
    (ReceiveMessage 2 (AppendEntries 1 2 0 0 [intact_entry] 0 6)).

(** An append whose second entry fails its integrity check is refused, but the
    first entry stays in the replica's log without having been stored; the
    leader's next append is then acknowledged for it, and it is still not
    stored. *)
Theorem refused_append_leaves_unstored_entry :
  log_tail corrupt_append.1 = [intact_entry]
  /\ SendMessage 2 (AppendEntriesResponse 1 1 true 1 None 0 6) ∈ retried_append.2
  /\ rh_log_tail <$> run_effects (abs sample_core) (corrupt_append.2 ++ retried_append.2) = Some [].
Proof.
  split_and!; [vm_compute; reflexivity| |vm_compute; reflexivity].
  vm_compute. by repeat constructor.
Qed.

(** ** Compacting below the snapshot *)

Definition partial_compaction : ConsensusCore * bool :=
  record_local_snapshot sample_run2.1
    {| included_index := 2; included_term := 2; state_root := 0 |} [] 1.

(** Recording a snapshot and compacting only part of what it covers drops a prefix
    of the log without recording where the rest starts: entry 2 is then found,
    and its term reported, at index 1. *)
Theorem partial_compaction_shifts_log :
  partial_compaction.2 = true
  /\ term_at sample_run2.1 1 = Some 1 /\ term_at partial_compaction.1 1 = Some 2
  /\ e_index <$> tail_get partial_compaction.1 1 = Some 2.
Proof. vm_compute. split_and!; reflexivity. Qed.

(** ** Pending quorum rounds *)

Definition many_reads : stepped :=
  run (H := checksum_hasher) sample_run.1
    ((fun i => RequestLinearizableRead i None) <$> seqZ 1 300).

(** A leader that is asked for reads which no quorum answers keeps a round for
    each of them, beyond the 256 it prunes to. *)
Theorem quorum_rounds_unbounded : (256 < size (quorum_rounds many_reads.1))%nat.
Proof. apply (bool_decide_unpack _). vm_compute. exact I. Qed.
