(* ===== verification/Cell.v ===== *)
(** * Cell: identity, epoch and fencing of a Cell

    Models nlos-cell/src/lib.rs: epochs and fencing tokens, the fences a Cell
    presents, the process-scoped authority, and the boot generation it persists
    in its data directory. The directory holds at most two files, of ASCII
    text. A write of a file is atomic; [writes] says how many of them succeed
    before the file system fails or the process dies. *)

From S2P Require Import Prelude Bytes.

(** ** Counters *)

(** [checked_next] of [CellEpoch], [CellFencingToken] and [Generation], which
    are non-zero [u64]s. *)
Definition checked_next (value : Z) : option Z :=
  if decide (value + 1 <= u64_max) then Some (value + 1) else None.

Definition INITIAL : Z := 1.

(** [from_u64] *)
Definition from_u64 (value : Z) : option Z := if decide (value = 0) then None else Some value.

Record CellFence := {
  f_identity : Z;
  f_node_boot_generation : Z;
  f_epoch : Z;
  f_fencing_token : Z;
}.
#[export] Instance fence_eq_dec : EqDecision CellFence.
Proof. solve_decision. Defined.

(** ** Text *)

Definition is_whitespace (b : Z) : bool := bool_decide (9 <= b <= 13) || bool_decide (b = 32).

Fixpoint trim_start (l : bytes) : bytes :=
  match l with
  | [] => []
  | b :: rest => if is_whitespace b then trim_start rest else l
  end.
(** [str::trim] *)
Definition trim (l : bytes) : bytes := rev (trim_start (rev (trim_start l))).

(** [format!("{}", n)], which has at most [digits] digits. *)
Fixpoint digits_of (digits : nat) (n : Z) (acc : bytes) : bytes :=
  match digits with
  | O => acc
  | S digits =>
      if decide (n < 10) then (48 + n) :: acc else digits_of digits (n / 10) ((48 + n mod 10) :: acc)
  end.

(** [str::parse::<u64>()]: an optional plus sign and at least one digit. *)
Fixpoint parse_digits (value : Z) (l : bytes) : option Z :=
  match l with
  | [] => Some value
  | b :: rest =>
      if decide (48 <= b <= 57 /\ value * 10 + (b - 48) <= u64_max)
      then parse_digits (value * 10 + (b - 48)) rest else None
  end.
Definition parse_u64 (l : bytes) : option Z :=
  match l with
  | [] => None
  | b :: rest =>
      if decide (b = 43) then match rest with [] => None | _ => parse_digits 0 rest end
      else parse_digits 0 l
  end.

Definition hex_digit (n : Z) : Z := if decide (n < 10) then 48 + n else 87 + n.
(** [format_args!("{byte:02x}")] of every byte. *)
Definition hex_identity (bs : bytes) : bytes :=
  concat ((fun b => [hex_digit (b / 16); hex_digit (b mod 16)]) <$> bs).

Definition hex_nibble (b : Z) : option Z :=
  if decide (48 <= b <= 57) then Some (b - 48)
  else if decide (97 <= b <= 102) then Some (b - 97 + 10)
  else if decide (65 <= b <= 70) then Some (b - 65 + 10)
  else None.

(** The loop over [chunks(2)]. *)
Fixpoint unhex (l : bytes) : option bytes :=
  match l with
  | [] => Some []
  | high :: low :: rest =>
      h ← hex_nibble high; n ← hex_nibble low; bs ← unhex rest;
      Some (Z.lor (Z.shiftl h 4) n :: bs)
  | [_] => None
  end.

(** ** The data directory *)

Inductive CellError :=
  | AlreadyClaimedInProcess (existing : Z)
  | GenerationExhausted
  | LockPoisoned
  | DataDirUnavailable
  | DataDirCorrupt
  | DataDirIdentityMismatch (existing presented : Z).

Record DataDir := { identity_file : option bytes; boot_file : option bytes }.

Definition write_identity (identity : Z) : bytes := hex_identity (be_bytes 16 identity).
Definition read_identity (raw : bytes) : result CellError Z :=
  let trimmed := trim raw in
  if decide (length trimmed <> 32%nat) then Err DataDirCorrupt else
  match unhex trimmed with
  | Some bs => Ok (be_value bs)
  | None => Err DataDirCorrupt
  end.

Definition write_boot_generation (generation : Z) : bytes := digits_of 20 generation [] ++ [10].
Definition read_boot_generation (raw : bytes) : result CellError Z :=
  match parse_u64 (trim raw) with
  | Some value => match from_u64 value with Some g => Ok g | None => Err DataDirCorrupt end
  | None => Err DataDirCorrupt
  end.

(** The directory after the operation, and its result. *)
Definition advance_persisted_boot_generation (writes : nat) (dir : DataDir) (identity : Z) :
    DataDir * result CellError Z :=
  match identity_file dir, boot_file dir with
  | None, None =>
      match writes with
      | O => (dir, Err DataDirUnavailable)
      | S writes =>
          let dir := {| identity_file := Some (write_identity identity); boot_file := None |} in
          match writes with
          | O => (dir, Err DataDirUnavailable)
          | S _ => ({| identity_file := identity_file dir;
                       boot_file := Some (write_boot_generation INITIAL) |}, Ok INITIAL)
          end
      end
  | Some id_raw, Some boot_raw =>
      match read_identity id_raw with
      | Err e => (dir, Err e)
      | Ok existing =>
          if decide (existing <> identity)
          then (dir, Err (DataDirIdentityMismatch existing identity)) else
          match read_boot_generation boot_raw with
          | Err e => (dir, Err e)
          | Ok previous =>
              match checked_next previous with
              | None => (dir, Err GenerationExhausted)
              | Some next =>
                  match writes with
                  | O => (dir, Err DataDirUnavailable)
                  | S _ => ({| identity_file := Some id_raw;
                               boot_file := Some (write_boot_generation next) |}, Ok next)
                  end
              end
          end
      end
  | _, _ => (dir, Err DataDirCorrupt)
  end.

(** ** The authority *)

Record CellAuthority := {
  a_identity : Z;
  a_node_boot_generation : Z;
  a_epoch : Z;
  a_fencing_token : Z;
}.

Definition fence_of (a : CellAuthority) : CellFence := {|
  f_identity := a_identity a;
  f_node_boot_generation := a_node_boot_generation a;
  f_epoch := a_epoch a;
  f_fencing_token := a_fencing_token a |}.

Definition claimed (identity generation : Z) : CellAuthority := {|
  a_identity := identity; a_node_boot_generation := generation;
  a_epoch := INITIAL; a_fencing_token := INITIAL |}.

(** [slot] is [PROCESS_CLAIM] of the process. *)
Definition claim (slot : option Z) (domain : Z) : option Z * result CellError CellAuthority :=
  match slot with
  | Some existing => (slot, Err (AlreadyClaimedInProcess existing))
  | None => (Some domain, Ok (claimed domain INITIAL))
  end.

Definition claim_with_data_dir (writes : nat) (slot : option Z) (dir : DataDir) (domain : Z) :
    option Z * DataDir * result CellError CellAuthority :=
  match slot with
  | Some existing => (slot, dir, Err (AlreadyClaimedInProcess existing))
  | None =>
      let '(dir, generation) := advance_persisted_boot_generation writes dir domain in
      match generation with
      | Err e => (slot, dir, Err e)
      | Ok generation => (Some domain, dir, Ok (claimed domain generation))
      end
  end.

Definition advance_epoch (a : CellAuthority) : CellAuthority * result CellError CellFence :=
  match checked_next (a_epoch a) with
  | None => (a, Err GenerationExhausted)
  | Some epoch =>
      match checked_next (a_fencing_token a) with
      | None => (a, Err GenerationExhausted)
      | Some token =>
          let a := {| a_identity := a_identity a; a_node_boot_generation := a_node_boot_generation a;
                      a_epoch := epoch; a_fencing_token := token |} in
          (a, Ok (fence_of a))
      end
  end.

Inductive CellAdmitError :=
  | StaleEpoch (presented current : Z)
  | EpochMismatch (presented current : Z)
  | BootGenerationMismatch (presented current : Z)
  | IdentityMismatch (presented current : Z)
  | FencingTokenMismatch (presented current : Z).

Definition admit_fence (a : CellAuthority) (presented : CellFence) : result CellAdmitError unit :=
  if decide (f_identity presented <> a_identity a)
  then Err (IdentityMismatch (f_identity presented) (a_identity a)) else
  if decide (f_node_boot_generation presented <> a_node_boot_generation a)
  then Err (BootGenerationMismatch (f_node_boot_generation presented) (a_node_boot_generation a)) else
  if decide (f_epoch presented < a_epoch a)
  then Err (StaleEpoch (f_epoch presented) (a_epoch a)) else
  if decide (f_epoch presented <> a_epoch a)
  then Err (EpochMismatch (f_epoch presented) (a_epoch a)) else
  if decide (f_fencing_token presented <> a_fencing_token a)
  then Err (FencingTokenMismatch (f_fencing_token presented) (a_fencing_token a)) else
  Ok tt.

(** ** Files round trip *)

Definition visible (b : Z) : Prop := is_whitespace b = false.

Lemma trim_start_visible l : Forall visible l -> trim_start l = l.
Proof. destruct 1 as [|b l Hb _]; [done|]. unfold visible in Hb. cbn. by rewrite Hb. Qed.

(** Trailing white space goes, visible text stays. *)
Lemma trim_visible l ws : Forall visible l -> l <> [] -> Forall (fun b => is_whitespace b = true) ws ->
  trim (l ++ ws) = l.
Proof.
  intros Hl Hne Hws. unfold trim.
  assert (trim_start (l ++ ws) = l ++ ws) as ->.
  { destruct Hl as [|b l Hb _]; [done|]. unfold visible in Hb. cbn. by rewrite Hb. }
  rewrite rev_app_distr. assert (trim_start (rev ws ++ rev l) = rev l) as ->; [|apply rev_involutive].
  assert (Forall (fun b => is_whitespace b = true) (rev ws)) as Hr by (by apply Forall_rev).
  assert (Forall visible (rev l)) as Hl' by (by apply Forall_rev).
  induction Hr as [|b bs Hb _ IH]; [by apply trim_start_visible|]. cbn. by rewrite Hb.
Qed.

Lemma digit_visible n : 0 <= n < 10 -> visible (48 + n).
Proof.
  intros Hn. unfold visible, is_whitespace. by rewrite !bool_decide_eq_false_2 by lia.
Qed.

Lemma digits_of_visible k : forall n acc, 0 <= n -> Forall visible acc -> Forall visible (digits_of k n acc).
Proof.
  induction k as [|k IH]; intros n acc Hn Hacc; cbn; [done|]. case_decide.
  - constructor; [apply digit_visible; lia|done].
  - apply IH; [apply Z.div_pos; lia|]. constructor; [|done]. apply digit_visible, Z.mod_pos_bound. lia.
Qed.

Lemma digits_of_nonempty k n acc : (0 < k)%nat -> exists b l, digits_of k n acc = b :: l /\ (0 <= n -> 48 <= b <= 57).
Proof.
  revert n acc. induction k as [|k IH]; intros n acc Hk; [lia|]. cbn. case_decide as Hn.
  - exists (48 + n), acc. split; [done|lia].
  - destruct k as [|k].
    + cbn. eexists _, _. split; [done|]. intros _. pose proof (Z.mod_pos_bound n 10). lia.
    + destruct (IH (n / 10) ((48 + n mod 10) :: acc)) as (b & l & -> & Hb); [lia|]. exists b, l.
      split; [done|]. intros _. apply Hb, Z.div_pos; lia.
Qed.

Lemma parse_digits_of k : forall n acc, 0 <= n <= u64_max -> n < 10 ^ Z.of_nat k ->
  parse_digits 0 (digits_of k n acc) = parse_digits n acc.
Proof.
  induction k as [|k IH]; intros n acc Hn Hk.
  { cbn in *. by replace n with 0 by lia. }
  cbn [digits_of]. case_decide as H10.
  - cbn [parse_digits]. rewrite decide_True by lia. by replace (0 * 10 + (48 + n - 48)) with n by lia.
  - replace (Z.of_nat (S k)) with (Z.of_nat k + 1) in Hk by lia. rewrite Z.pow_add_r in Hk by lia.
    pose proof (Z.div_mod n 10 ltac:(lia)) as Hdm. pose proof (Z.mod_pos_bound n 10 ltac:(lia)) as Hm.
    rewrite IH; [|lia|apply Z.div_lt_upper_bound; lia].
    cbn [parse_digits]. rewrite decide_True by lia. f_equal. lia.
Qed.

Lemma read_written_generation g : 1 <= g <= u64_max -> read_boot_generation (write_boot_generation g) = Ok g.
Proof.
  intros Hg. unfold read_boot_generation, write_boot_generation.
  destruct (digits_of_nonempty 20 g [] ltac:(lia)) as (b & l & Hd & Hb).
  rewrite trim_visible; [|by apply digits_of_visible; [lia|]|by rewrite Hd|by repeat constructor].
  assert (parse_u64 (digits_of 20 g []) = Some g) as ->.
  { transitivity (parse_digits 0 (digits_of 20 g [])).
    - rewrite Hd. unfold parse_u64. by rewrite decide_False by lia.
    - rewrite parse_digits_of by (unfold u64_max in *; lia). done. }
  unfold from_u64. by rewrite decide_False by lia.
Qed.

Lemma hex_digit_visible n : 0 <= n < 16 -> visible (hex_digit n).
Proof.
  intros Hn. unfold visible, is_whitespace, hex_digit.
  case_decide; by rewrite !bool_decide_eq_false_2 by lia.
Qed.

Lemma hex_nibble_digit n : 0 <= n < 16 -> hex_nibble (hex_digit n) = Some n.
Proof.
  intros Hn. unfold hex_nibble, hex_digit. destruct (decide (n < 10)).
  - rewrite decide_True by lia. f_equal. lia.
  - rewrite decide_False by lia. rewrite decide_True by lia. f_equal. lia.
Qed.

Lemma nibbles b : u8 b -> 0 <= b / 16 < 16 /\ 0 <= b mod 16 < 16 /\ Z.lor (Z.shiftl (b / 16) 4) (b mod 16) = b.
Proof.
  intros Hb. width. split; [split; [apply Z.div_pos|apply Z.div_lt_upper_bound]; lia|].
  split; [apply Z.mod_pos_bound; lia|].
  assert (forallb (fun b => Z.lor (Z.shiftl (b / 16) 4) (b mod 16) =? b) (seqZ 0 256) = true) as Hall
    by (vm_compute; reflexivity).
  rewrite forallb_forall in Hall. apply Z.eqb_eq, Hall, list_elem_of_In, elem_of_seqZ. lia.
Qed.

Lemma unhex_hex bs : byte_string bs -> unhex (hex_identity bs) = Some bs.
Proof.
  induction 1 as [|b bs Hb _ IH]; [done|]. destruct (nibbles b Hb) as (Hh & Hl & Hv).
  unfold hex_identity in *. cbn [fmap list_fmap concat app unhex].
  rewrite !hex_nibble_digit by done. cbn [mbind option_bind]. by rewrite IH, Hv.
Qed.

Lemma hex_identity_visible bs : byte_string bs -> Forall visible (hex_identity bs).
Proof.
  induction 1 as [|b bs Hb _ IH]; [constructor|]. destruct (nibbles b Hb) as (Hh & Hl & _).
  unfold hex_identity in *. cbn. repeat constructor; [by apply hex_digit_visible..|done].
Qed.

Lemma length_hex bs : length (hex_identity bs) = (2 * length bs)%nat.
Proof. induction bs as [|b bs IH]; [done|]. unfold hex_identity in *. cbn in *. lia. Qed.

Lemma read_written_identity id : id16 id -> read_identity (write_identity id) = Ok id.
Proof.
  intros Hid. unfold read_identity, write_identity. cbv zeta.
  pose proof (be_bytes_byte_string 16 id) as Hbs.
  assert (trim (hex_identity (be_bytes 16 id)) = hex_identity (be_bytes 16 id)) as ->.
  { rewrite <- (app_nil_r (hex_identity _)) at 1. apply trim_visible; [by apply hex_identity_visible|done|done]. }
  rewrite length_hex, length_be_bytes. rewrite decide_False by lia. rewrite unhex_hex by done.
  f_equal. apply be_value_bytes. unfold id16 in Hid. change (256 ^ Z.of_nat 16) with (2 ^ 128). lia.
Qed.

(** ** A Cell across restarts *)

(** The directory of a Cell, the authority of the process that runs on it, and
    every fence a process on it has ever presented. *)
Record Host := {
  h_dir : DataDir;
  h_process : option CellAuthority;
  h_issued : list CellFence;
}.

Inductive host_step (h : Host) : Host -> Prop :=
  | hs_claim writes identity slot dir a :
      id16 identity ->
      claim_with_data_dir writes (a_identity <$> h_process h) (h_dir h) identity = (slot, dir, Ok a) ->
      host_step h {| h_dir := dir; h_process := Some a; h_issued := fence_of a :: h_issued h |}
  | hs_claim_refused writes identity slot dir e :
      id16 identity ->
      claim_with_data_dir writes (a_identity <$> h_process h) (h_dir h) identity = (slot, dir, Err e) ->
      host_step h {| h_dir := dir; h_process := h_process h; h_issued := h_issued h |}
  | hs_advance a a' f :
      h_process h = Some a -> advance_epoch a = (a', Ok f) ->
      host_step h {| h_dir := h_dir h; h_process := Some a'; h_issued := f :: h_issued h |}
  | hs_exit :
      host_step h {| h_dir := h_dir h; h_process := None; h_issued := h_issued h |}.

Inductive host_reachable : Host -> Prop :=
  | hr_initial :
      host_reachable {| h_dir := {| identity_file := None; boot_file := None |};
                        h_process := None; h_issued := [] |}
  | hr_step h h' : host_reachable h -> host_step h h' -> host_reachable h'.

(** Fences issued before, against the boot generation and epoch in force. *)
Definition issued_before (identity generation : Z) (process : option CellAuthority) (f : CellFence) : Prop :=
  f_identity f = identity /\ f_node_boot_generation f <= generation
  /\ match process with
     | Some a => f_node_boot_generation f = generation ->
                 f_epoch f < a_epoch a \/ f = fence_of a
     | None => True
     end.

Definition runs_on (identity generation : Z) (process : option CellAuthority) : Prop :=
  match process with
  | Some a => a_identity a = identity /\ a_node_boot_generation a = generation
  | None => True
  end.

(** The directory is fresh, was left by a first boot that died half-way, or
    holds the identity and the latest boot generation. *)
Inductive host_inv (h : Host) : Prop :=
  | inv_unbooted boot :
      h_dir h = {| identity_file := boot; boot_file := None |} ->
      h_process h = None -> h_issued h = [] -> host_inv h
  | inv_booted identity generation :
      id16 identity -> 1 <= generation <= u64_max ->
      h_dir h = {| identity_file := Some (write_identity identity);
                   boot_file := Some (write_boot_generation generation) |} ->
      runs_on identity generation (h_process h) ->
      Forall (issued_before identity generation (h_process h)) (h_issued h) -> host_inv h.

(** A boot on a used directory takes the next generation. *)
Lemma boot_used writes identity generation id' :
  id16 identity -> 1 <= generation <= u64_max ->
  let dir := {| identity_file := Some (write_identity identity);
                boot_file := Some (write_boot_generation generation) |} in
  let '(dir', r) := advance_persisted_boot_generation writes dir id' in
  match r with
  | Ok g => id' = identity /\ g = generation + 1 /\ g <= u64_max
      /\ dir' = {| identity_file := Some (write_identity identity); boot_file := Some (write_boot_generation g) |}
  | Err _ => dir' = dir
  end.
Proof.
  intros Hid Hg. unfold advance_persisted_boot_generation. cbn [identity_file boot_file].
  rewrite read_written_identity by done. case_decide as Hne; [done|].
  rewrite read_written_generation by done. unfold checked_next. case_decide as Hmax; [|done].
  destruct writes; [done|]. split_and!; [|done..]. by destruct (decide (id' = identity)); [|destruct Hne].
Qed.

Lemma host_step_inv h h' : host_inv h -> host_step h h' -> host_inv h'.
Proof.
  intros Hinv Hstep. destruct Hstep as [writes id slot dir a Hid Hc|writes id slot dir e Hid Hc|a a' f Hp Ha|].
  - destruct Hinv as [boot Hd Hp Hi|identity generation Hid0 Hg Hd Hr Hi].
    + rewrite Hp, Hd in Hc. cbn in Hc. destruct boot; [done|]. destruct writes as [|[|]]; [done..|].
      injection Hc as <- <- <-.
      eapply (inv_booted _ id 1); [done|unfold u64_max; lia|done|done|]. cbn. rewrite Hi.
      constructor; [|constructor]. split_and!; cbn; [done|unfold INITIAL; lia|by right].
    + destruct (h_process h) as [a0|] eqn:Hp; [done|]. cbn in Hc. rewrite Hd in Hc.
      pose proof (boot_used writes identity generation id Hid0 Hg) as Hb. cbv zeta in Hb.
      destruct (advance_persisted_boot_generation _ _ _) as [dir' [g|]]; [|done].
      injection Hc as <- <- <-. destruct Hb as (-> & -> & Hmax & ->).
      eapply (inv_booted _ identity (generation + 1)); [done|lia|done|done|]. cbn. constructor.
      * split_and!; cbn; [done|lia|by right].
      * eapply Forall_impl; [exact Hi|]. intros f (Hf1 & Hf2 & _). split_and!; [done|lia|]. cbn. lia.
  - destruct Hinv as [boot Hd Hp Hi|identity generation Hid0 Hg Hd Hr Hi].
    + rewrite Hp, Hd in Hc. cbn in Hc. destruct boot; [injection Hc as <- <- <-|
        destruct writes as [|[|]]; [injection Hc as <- <- <-..|done]]; by eapply inv_unbooted.
    + eapply (inv_booted _ identity generation); [done|done| |done|done]. cbn.
      destruct (h_process h) as [a0|]; cbn in Hc; [injection Hc as <- <- <-; exact Hd|]. rewrite Hd in Hc.
      pose proof (boot_used writes identity generation id Hid0 Hg) as Hb. cbv zeta in Hb.
      destruct (advance_persisted_boot_generation _ _ _) as [dir' [g|]]; [done|].
      injection Hc as <- <- <-. by subst dir'.
  - unfold advance_epoch, checked_next in Ha. case_decide as He; [|done]. case_decide; [|done].
    injection Ha as <- <-.
    destruct Hinv as [boot Hd Hp' Hi|identity generation Hid0 Hg Hd Hr Hi]; [congruence|].
    rewrite Hp in Hr, Hi. destruct Hr as [Hr1 Hr2].
    eapply (inv_booted _ identity generation); [done|done|done|done|]. cbn. constructor.
    + split_and!; cbn; [done|lia|by right].
    + eapply Forall_impl; [exact Hi|]. intros f (Hf1 & Hf2 & Hf3). split_and!; [done|done|]. cbn.
      intros Hb. left. destruct (Hf3 Hb) as [?| ->]; cbn; lia.
  - destruct Hinv as [boot Hd Hp Hi|identity generation Hid0 Hg Hd Hr Hi]; [by eapply inv_unbooted|].
    eapply (inv_booted _ identity generation); [done|done|done|done|]. cbn.
    eapply Forall_impl; [exact Hi|]. by intros f (? & ? & _).
Qed.

Lemma host_reachable_inv h : host_reachable h -> host_inv h.
Proof. induction 1; [by eapply inv_unbooted|by eapply host_step_inv]. Qed.

(** ** Theorems *)

(** C25. A superseded fence is never admitted again. However often a Cell
    advances its epoch, is restarted on its data directory, dies in the middle
    of writing there or is claimed under another identity, the current
    authority admits the fence it presents now, and every fence that any process
    on the directory presented before is refused as of an older boot generation
    or an older epoch. *)
Theorem superseded_fences_refused h a f :
  host_reachable h -> h_process h = Some a -> f ∈ h_issued h ->
  admit_fence a (fence_of a) = Ok tt
  /\ (f = fence_of a
      \/ admit_fence a f = Err (BootGenerationMismatch (f_node_boot_generation f) (a_node_boot_generation a))
         /\ f_node_boot_generation f < a_node_boot_generation a
      \/ admit_fence a f = Err (StaleEpoch (f_epoch f) (a_epoch a)) /\ f_epoch f < a_epoch a).
Proof.
  intros Hh%host_reachable_inv Hp Hf. unfold admit_fence. split.
  { by rewrite !decide_False by (cbn; lia || auto). }
  destruct Hh as [boot _ Hp' _|identity generation _ _ _ Hr Hi]; [congruence|].
  rewrite Hp in Hr, Hi. destruct Hr as [Hr1 Hr2].
  rewrite Forall_forall in Hi. destruct (Hi f Hf) as (Hf1 & Hf2 & Hf3).
  destruct (decide (f_node_boot_generation f = generation)) as [Hb|Hb].
  - destruct (Hf3 Hb) as [He| ->]; [|by left]. right. right. split; [|done].
    rewrite decide_False by (intros Hx; apply Hx; congruence).
    rewrite decide_False by (intros Hx; apply Hx; congruence). by rewrite decide_True by lia.
  - right. left. split; [|lia]. rewrite decide_False by (intros Hx; apply Hx; congruence).
    by rewrite decide_True by congruence.
Qed.

(** ** A Cell that restarts *)

Definition do_claim (writes : nat) (identity : Z) (h : Host) : Host :=
  let '(_, dir, r) := claim_with_data_dir writes (a_identity <$> h_process h) (h_dir h) identity in
  match r with
  | Ok a => {| h_dir := dir; h_process := Some a; h_issued := fence_of a :: h_issued h |}
  | Err _ => {| h_dir := dir; h_process := h_process h; h_issued := h_issued h |}
  end.

Definition do_advance (h : Host) : Host :=
  match h_process h with
  | Some a =>
      match advance_epoch a with
      | (a', Ok f) => {| h_dir := h_dir h; h_process := Some a'; h_issued := f :: h_issued h |}
      | _ => h
      end
  | None => h
  end.

Definition do_exit (h : Host) : Host :=
  {| h_dir := h_dir h; h_process := None; h_issued := h_issued h |}.

Lemma do_claim_reachable writes identity h :
  id16 identity -> host_reachable h -> host_reachable (do_claim writes identity h).
Proof.
  intros Hid Hh. unfold do_claim. destruct (claim_with_data_dir _ _ _ _) as [[slot dir] [a|e]] eqn:Hc;
    (eapply hr_step; [exact Hh|]); [by eapply hs_claim|by eapply hs_claim_refused].
Qed.

Lemma do_advance_reachable h : host_reachable h -> host_reachable (do_advance h).
Proof.
  intros Hh. unfold do_advance. destruct (h_process h) as [a|] eqn:Hp; [|done].
  destruct (advance_epoch a) as [a' [f|]] eqn:Ha; [|done]. eapply hr_step; [exact Hh|]. by eapply hs_advance.
Qed.

(** The first boot, an epoch advance, a crash and a second boot. *)
Definition sample_host : Host :=
  do_claim 2 7 (do_exit (do_advance (do_claim 2 7
    {| h_dir := {| identity_file := None; boot_file := None |}; h_process := None; h_issued := [] |}))).

Lemma sample_host_reachable : host_reachable sample_host.
Proof.
  assert (id16 7) as Hid by (split; [lia|done]).
  apply do_claim_reachable; [done|]. eapply hr_step; [|apply hs_exit].
  apply do_advance_reachable, do_claim_reachable; [done|apply hr_initial].
Qed.

Lemma superseded_fences_refused_witness :
  admit_fence (claimed 7 2) {| f_identity := 7; f_node_boot_generation := 1; f_epoch := 2; f_fencing_token := 2 |}
  <> Ok tt.
Proof.
  destruct (superseded_fences_refused sample_host (claimed 7 2)
    {| f_identity := 7; f_node_boot_generation := 1; f_epoch := 2; f_fencing_token := 2 |}
    sample_host_reachable) as [_ [H|[[H _]|[H _]]]];
    [vm_compute; reflexivity|vm_compute; right; left|discriminate H|rewrite H; discriminate|rewrite H; discriminate].
Defined.
