(* ===== verification/Detector.v ===== *)
(** * Detector: the failure detector of a Cell

    Models nlos-cell/src/failure_detector.rs: heartbeats, sweeps and epoch
    advances over the subjects a Cell watches. The source iterates over a
    [HashMap] and sorts what it reports; the model iterates in key order. *)

From S2P Require Import Prelude Bytes Cell.

(** ** Data *)

Inductive MonitoredSubject := Fiber (id : Z) | Process (id : Z).

Definition subject_key (s : MonitoredSubject) : Z * Z :=
  match s with Fiber id => (0, id) | Process id => (1, id) end.

#[export] Instance subject_eq_dec : EqDecision MonitoredSubject.
Proof. solve_decision. Defined.
#[export] Instance subject_countable : Countable MonitoredSubject.
Proof.
  refine (inj_countable' (fun s => match s with Fiber id => inl id | Process id => inr id end)
    (fun x => match x with inl id => Fiber id | inr id => Process id end) _). by intros [].
Defined.
#[export] Instance subject_btree_key : BTreeKey MonitoredSubject :=
  fun s t => pair_le (subject_key s) (subject_key t).
#[export] Instance subject_btree_laws : BTreeKeyLaws MonitoredSubject.
Proof.
  split.
  - intros s t. unfold key_le, subject_btree_key, pair_le. apply _.
  - intros s t. unfold key_le, subject_btree_key, pair_le. lia.
  - intros s t u. unfold key_le, subject_btree_key, pair_le. lia.
Defined.

Inductive Liveness := Alive | Suspect | Dead.

Record FailureDetectorConfig := { suspect_after : Z; dead_after : Z }.

Record DeadJudgment := {
  j_subject : MonitoredSubject;
  j_epoch : Z;
  j_dead_at : Z;
  j_incarnation : Z;
}.

Inductive FailureDetectorError :=
  | ClockRegression (presented last_seen : Z)
  | SubjectAlreadyDead (subject : MonitoredSubject) (epoch incarnation : Z)
  | DetectorEpochNotAdvanced (presented current : Z)
  | DetectorIdentityMismatch (presented current : Z)
  | DeadThresholdBeforeSuspect (suspect dead : Z).

(** [FailureDetectorConfig::new] *)
Definition config_new (suspect dead : Z) : result FailureDetectorError FailureDetectorConfig :=
  if decide (dead < suspect) then Err (DeadThresholdBeforeSuspect suspect dead)
  else Ok {| suspect_after := suspect; dead_after := dead |}.

Record SubjectRecord := {
  sr_epoch : Z;
  sr_incarnation : Z;
  sr_baseline_tick : Z;
  sr_last_heartbeat : option Z;
  sr_suspected_at : option Z;
  sr_dead_at : option Z;
}.

Definition record_liveness (r : SubjectRecord) : Liveness :=
  match sr_dead_at r, sr_suspected_at r with
  | Some _, _ => Dead
  | None, Some _ => Suspect
  | None, None => Alive
  end.

Definition silence_since (r : SubjectRecord) : Z := default (sr_baseline_tick r) (sr_last_heartbeat r).

Record FailureDetector := {
  fd_identity : Z;
  fd_epoch : Z;
  fd_config : FailureDetectorConfig;
  fd_last_tick : Z;
  fd_subjects : gmap MonitoredSubject SubjectRecord;
  fd_dead_judgments : list DeadJudgment;
}.

Record LivenessView := {
  v_subject : MonitoredSubject;
  v_liveness : Liveness;
  v_epoch : Z;
  v_incarnation : Z;
  v_last_heartbeat : option Z;
  v_suspected_at : option Z;
  v_dead_at : option Z;
}.

Record SweepReport := {
  sw_epoch : Z;
  newly_suspected : list (MonitoredSubject * Z);
  newly_dead : list DeadJudgment;
}.

Record EpochAdvanceReport := {
  ea_previous_epoch : Z;
  ea_new_epoch : Z;
  suspicions_voided : list (MonitoredSubject * Z);
  re_tracked_after_death : list MonitoredSubject;
}.

(** ** Operations *)

Definition detector_new (fence : CellFence) (config : FailureDetectorConfig) : FailureDetector := {|
  fd_identity := f_identity fence; fd_epoch := f_epoch fence; fd_config := config;
  fd_last_tick := 0; fd_subjects := ∅; fd_dead_judgments := [] |}.

Section detector.
Implicit Types (d : FailureDetector) (r : SubjectRecord) (s : MonitoredSubject).

Definition liveness d s : option LivenessView :=
  (fun r => {| v_subject := s; v_liveness := record_liveness r; v_epoch := sr_epoch r;
               v_incarnation := sr_incarnation r; v_last_heartbeat := sr_last_heartbeat r;
               v_suspected_at := sr_suspected_at r; v_dead_at := sr_dead_at r |})
  <$> fd_subjects d !! s.

Definition with_subjects d (now : Z) (subjects : gmap MonitoredSubject SubjectRecord) : FailureDetector := {|
  fd_identity := fd_identity d; fd_epoch := fd_epoch d; fd_config := fd_config d;
  fd_last_tick := now; fd_subjects := subjects; fd_dead_judgments := fd_dead_judgments d |}.

Definition observe_tick d (now : Z) : result FailureDetectorError FailureDetector :=
  if decide (now < fd_last_tick d) then Err (ClockRegression now (fd_last_tick d))
  else Ok (with_subjects d now (fd_subjects d)).

(** Whether the heartbeat cleared a suspicion. *)
Definition record_heartbeat d s (now : Z) : FailureDetector * result FailureDetectorError bool :=
  match observe_tick d now with
  | Err e => (d, Err e)
  | Ok d =>
      match fd_subjects d !! s with
      | Some r =>
          if decide (is_Some (sr_dead_at r))
          then (d, Err (SubjectAlreadyDead s (sr_epoch r) (sr_incarnation r))) else
          (with_subjects d now (<[s := {|
             sr_epoch := fd_epoch d; sr_incarnation := sr_incarnation r; sr_baseline_tick := now;
             sr_last_heartbeat := Some now; sr_suspected_at := None; sr_dead_at := sr_dead_at r |}]>
             (fd_subjects d)), Ok (bool_decide (is_Some (sr_suspected_at r))))
      | None =>
          (with_subjects d now (<[s := {|
             sr_epoch := fd_epoch d; sr_incarnation := 1; sr_baseline_tick := now;
             sr_last_heartbeat := Some now; sr_suspected_at := None; sr_dead_at := None |}]>
             (fd_subjects d)), Ok false)
      end
  end.

Definition elapsed (now : Z) r : Z := saturating_sub64 now (silence_since r).

(** The tests of one turn of the sweep. *)
Definition dies (config : FailureDetectorConfig) (now : Z) r : bool :=
  bool_decide (sr_dead_at r = None) && bool_decide (elapsed now r >= dead_after config).
Definition suspects (config : FailureDetectorConfig) (now : Z) r : bool :=
  bool_decide (sr_dead_at r = None) && negb (bool_decide (elapsed now r >= dead_after config))
  && bool_decide (elapsed now r >= suspect_after config) && bool_decide (sr_suspected_at r = None).

Definition sweep_record (config : FailureDetectorConfig) (now : Z) r : SubjectRecord := {|
  sr_epoch := sr_epoch r; sr_incarnation := sr_incarnation r; sr_baseline_tick := sr_baseline_tick r;
  sr_last_heartbeat := sr_last_heartbeat r;
  sr_suspected_at := if suspects config now r then Some now else sr_suspected_at r;
  sr_dead_at := if dies config now r then Some now else sr_dead_at r |}.

Definition judgment (now : Z) s r : DeadJudgment := {|
  j_subject := s; j_epoch := sr_epoch r; j_dead_at := now; j_incarnation := sr_incarnation r |}.

Definition sweep d (now : Z) : FailureDetector * result FailureDetectorError SweepReport :=
  match observe_tick d now with
  | Err e => (d, Err e)
  | Ok d =>
      let config := fd_config d in
      let dead := omap (fun sr => if dies config now sr.2 then Some (judgment now sr.1 sr.2) else None)
                    (btree_iter (fd_subjects d)) in
      ({| fd_identity := fd_identity d; fd_epoch := fd_epoch d; fd_config := config;
          fd_last_tick := fd_last_tick d;
          fd_subjects := sweep_record config now <$> fd_subjects d;
          fd_dead_judgments := fd_dead_judgments d ++ dead |},
       Ok {| sw_epoch := fd_epoch d;
             newly_suspected := omap (fun sr => if suspects config now sr.2 then Some (sr.1, now) else None)
                                  (btree_iter (fd_subjects d));
             newly_dead := dead |})
  end.

Definition retrack (epoch boundary : Z) r : SubjectRecord := {|
  sr_epoch := epoch;
  sr_incarnation := match sr_dead_at r with
                    | Some _ => saturating_add64 (sr_incarnation r) 1
                    | None => sr_incarnation r
                    end;
  sr_baseline_tick := boundary; sr_last_heartbeat := None; sr_suspected_at := None; sr_dead_at := None |}.

Definition on_epoch_advanced d (fence : CellFence) :
    FailureDetector * result FailureDetectorError EpochAdvanceReport :=
  if decide (f_identity fence <> fd_identity d)
  then (d, Err (DetectorIdentityMismatch (f_identity fence) (fd_identity d))) else
  if decide (f_epoch fence <= fd_epoch d)
  then (d, Err (DetectorEpochNotAdvanced (f_epoch fence) (fd_epoch d))) else
  ({| fd_identity := fd_identity d; fd_epoch := f_epoch fence; fd_config := fd_config d;
      fd_last_tick := fd_last_tick d;
      fd_subjects := retrack (f_epoch fence) (fd_last_tick d) <$> fd_subjects d;
      fd_dead_judgments := fd_dead_judgments d |},
   Ok {| ea_previous_epoch := fd_epoch d;
         ea_new_epoch := f_epoch fence;
         suspicions_voided := omap (fun sr => pair sr.1 <$> sr_suspected_at sr.2) (btree_iter (fd_subjects d));
         re_tracked_after_death :=
           omap (fun sr => if decide (is_Some (sr_dead_at sr.2)) then Some sr.1 else None)
             (btree_iter (fd_subjects d)) |}).
End detector.

(** ** The invariant *)

Inductive detector_op :=
  | OpHeartbeat (s : MonitoredSubject) (now : Z)
  | OpSweep (now : Z)
  | OpEpoch (fence : CellFence).

Definition op_step (d : FailureDetector) (o : detector_op) : FailureDetector :=
  match o with
  | OpHeartbeat s now => (record_heartbeat d s now).1
  | OpSweep now => (sweep d now).1
  | OpEpoch fence => (on_epoch_advanced d fence).1
  end.

Definition config_ok (config : FailureDetectorConfig) : Prop :=
  1 <= suspect_after config /\ suspect_after config <= dead_after config.

Inductive detector_reachable : FailureDetector -> Prop :=
  | dr_new fence config : config_ok config -> detector_reachable (detector_new fence config)
  | dr_step d o : detector_reachable d -> detector_reachable (op_step d o).

Section invariant.
Implicit Types (d : FailureDetector) (r : SubjectRecord) (s : MonitoredSubject) (js : list DeadJudgment).

Definition judged s js : list DeadJudgment := filter (fun j => j_subject j = s) js.

(** How many judgments a record stands for. *)
Definition deaths r : Z := match sr_dead_at r with Some _ => sr_incarnation r | None => sr_incarnation r - 1 end.

Record record_ok (config : FailureDetectorConfig) (last_tick : Z) js s r : Prop := {
  ro_incarnation : 1 <= sr_incarnation r;
  ro_silence : silence_since r <= last_tick;
  ro_suspected t : sr_suspected_at r = Some t ->
    t <= last_tick /\ suspect_after config <= t - silence_since r;
  ro_dead t : sr_dead_at r = Some t -> t <= last_tick /\ dead_after config <= t - silence_since r;
  ro_judged : j_incarnation <$> judged s js = seqZ 1 (deaths r);
}.

Record detector_inv d : Prop := {
  dv_config : config_ok (fd_config d);
  dv_record s r : fd_subjects d !! s = Some r ->
    record_ok (fd_config d) (fd_last_tick d) (fd_dead_judgments d) s r;
  dv_untracked s : fd_subjects d !! s = None -> judged s (fd_dead_judgments d) = [];
}.

Lemma record_ok_later config t t' js s r : t <= t' -> record_ok config t js s r -> record_ok config t' js s r.
Proof.
  intros Ht [H1 H2 H3 H4 H5]. split; [done|lia|intros x Hx; specialize (H3 x Hx); lia
    |intros x Hx; specialize (H4 x Hx); lia|done].
Qed.

(** The judgments a sweep passes on one subject. *)
Lemma judged_sweep config now (subjects : gmap MonitoredSubject SubjectRecord) s :
  judged s (omap (fun sr => if dies config now sr.2 then Some (judgment now sr.1 sr.2) else None)
              (btree_iter subjects))
  = match subjects !! s with
    | Some r => if dies config now r then [judgment now s r] else []
    | None => []
    end.
Proof.
  rewrite <- (list_to_map_btree_iter subjects) at 2.
  pose proof (NoDup_fst_btree_iter subjects) as Hnd. revert Hnd.
  generalize (btree_iter subjects). intros l. induction l as [|[s' r] l IH]; intros Hnd; [done|].
  cbn [fmap list_fmap fst] in Hnd. apply NoDup_cons in Hnd as [Hs' Hnd]. specialize (IH Hnd).
  cbn [list_to_map foldr omap list_omap fst snd]. destruct (decide (s' = s)) as [->|Hne].
  - rewrite lookup_insert_eq. rewrite not_elem_of_list_to_map_1 in IH by done.
    destruct (dies config now r); [|done]. unfold judged in *. rewrite filter_cons_True by done. by rewrite IH.
  - rewrite lookup_insert_ne by done. destruct (dies config now r); [|done].
    unfold judged in *. by rewrite filter_cons_False.
Qed.

Lemma elapsed_eq now r : silence_since r <= now -> elapsed now r = now - silence_since r.
Proof. unfold elapsed, saturating_sub64. lia. Qed.

Lemma sweep_record_ok config last now js js' s r :
  config_ok config -> last <= now -> record_ok config last js s r ->
  judged s js' = judged s js ++ (if dies config now r then [judgment now s r] else []) ->
  record_ok config now js' s (sweep_record config now r).
Proof.
  intros Hcfg Hnow [H1 H2 H3 H4 H5] Hj. pose proof (elapsed_eq now r ltac:(lia)) as Hel.
  split; cbn [sweep_record sr_incarnation sr_suspected_at sr_dead_at];
    change (silence_since (sweep_record config now r)) with (silence_since r); [done|lia|..].
  - intros t. destruct (suspects config now r) eqn:Hg.
    + intros [= <-]. unfold suspects in Hg. rewrite !andb_true_iff, !bool_decide_eq_true in Hg. lia.
    + intros Ht. specialize (H3 t Ht). lia.
  - intros t. destruct (dies config now r) eqn:Hg.
    + intros [= <-]. unfold dies in Hg. rewrite !andb_true_iff, !bool_decide_eq_true in Hg. lia.
    + intros Ht. specialize (H4 t Ht). lia.
  - rewrite Hj, fmap_app, H5. unfold deaths. cbn [sweep_record sr_dead_at sr_incarnation].
    destruct (dies config now r) eqn:Hg; [|by rewrite app_nil_r].
    unfold dies in Hg. apply andb_true_iff in Hg as [->%bool_decide_eq_true _].
    cbn [fmap list_fmap judgment j_incarnation].
    replace (sr_incarnation r) with (sr_incarnation r - 1 + 1) at 3 by lia. rewrite seqZ_app by lia.
    f_equal. replace (1 + (sr_incarnation r - 1)) with (sr_incarnation r) by lia. done.
Qed.

Lemma retrack_ok config t js s r epoch :
  record_ok config t js s r -> sr_incarnation r < u64_max \/ sr_dead_at r = None ->
  record_ok config t js s (retrack epoch t r).
Proof.
  intros [H1 H2 H3 H4 H5] Hmax. unfold deaths in H5.
  assert (sr_incarnation (retrack epoch t r) - 1 = deaths r /\ 1 <= sr_incarnation (retrack epoch t r)) as [Hd Hi].
  { unfold deaths. cbn. destruct (sr_dead_at r); [|lia]. destruct Hmax as [?|?]; [|done].
    unfold saturating_add64. lia. }
  split; [done|unfold silence_since; cbn; lia|done|done|].
  unfold deaths at 1. change (sr_dead_at (retrack epoch t r)) with (@None Z). by rewrite Hd.
Qed.

(** A subject was judged no more often than there are judgments. *)
Lemma incarnation_bound config t js s r :
  record_ok config t js s r -> is_Some (sr_dead_at r) -> sr_incarnation r <= Z.of_nat (length js).
Proof.
  intros [H1 _ _ _ H5] [x Hx]. unfold deaths in H5. rewrite Hx in H5.
  assert (length (judged s js) = Z.to_nat (sr_incarnation r)) as Hl.
  { rewrite <- (length_fmap j_incarnation), H5. apply length_seqZ. }
  pose proof (length_filter (fun j => j_subject j = s) js). unfold judged in Hl. lia.
Qed.

Lemma with_subjects_inv d now : fd_last_tick d <= now -> detector_inv d ->
  detector_inv (with_subjects d now (fd_subjects d)).
Proof. intros Hn [H1 H2 H3]. split; [done|intros s r Hr; by eapply record_ok_later, H2|done]. Qed.

Lemma insert_inv d now s r :
  fd_last_tick d <= now -> detector_inv d ->
  record_ok (fd_config d) now (fd_dead_judgments d) s r ->
  detector_inv (with_subjects d now (<[s := r]> (fd_subjects d))).
Proof.
  intros Hn [H1 H2 H3] Hr. split; cbn [with_subjects fd_config fd_subjects fd_last_tick fd_dead_judgments]; [done|..].
  - intros s' r' [[<- <-]|[_ Hr']]%lookup_insert_Some; [done|by eapply record_ok_later, H2].
  - intros s' [Hs' _]%lookup_insert_None. by apply H3.
Qed.

Lemma heartbeat_inv d s now : detector_inv d -> detector_inv (record_heartbeat d s now).1.
Proof.
  intros Hd. unfold record_heartbeat, observe_tick. case_decide as Hn; [done|].
  pose proof (with_subjects_inv d now ltac:(lia) Hd) as Hd'. cbn [with_subjects fd_subjects].
  destruct (fd_subjects d !! s) as [r|] eqn:Hr.
  - pose proof (dv_record _ Hd s r Hr) as [H1 H2 H3 H4 H5].
    destruct (decide (is_Some (sr_dead_at r))) as [|Hnd]; [done|]. apply eq_None_not_Some in Hnd.
    apply (insert_inv (with_subjects d now (fd_subjects d)) now); [cbn; lia|done|].
    split; [done|unfold silence_since; cbn; lia|done|cbn; by rewrite Hnd|].
    transitivity (seqZ 1 (deaths r)); [exact H5|]. unfold deaths. cbn. by rewrite Hnd.
  - apply (insert_inv (with_subjects d now (fd_subjects d)) now); [cbn; lia|done|].
    split; [done|unfold silence_since; cbn; lia|done|done|].
    change (j_incarnation <$> judged s (fd_dead_judgments d) = []). by rewrite (dv_untracked _ Hd s Hr).
Qed.

Lemma judged_app s js js' : judged s (js ++ js') = judged s js ++ judged s js'.
Proof. apply filter_app. Qed.

Lemma sweep_inv d now : detector_inv d -> detector_inv (sweep d now).1.
Proof.
  intros [H1 H2 H3]. unfold sweep, observe_tick. case_decide as Hn; [done|].
  cbn [with_subjects fd_subjects fd_config fd_dead_judgments fd_last_tick fd_epoch fd_identity].
  split; cbn [fst fd_config fd_subjects fd_last_tick fd_dead_judgments]; [done|..].
  - intros s r' (r & <- & Hr)%lookup_fmap_Some.
    eapply sweep_record_ok; [done| |by apply H2|]; [lia|]. by rewrite judged_app, judged_sweep, Hr.
  - intros s Hs. rewrite lookup_fmap in Hs. apply fmap_None in Hs.
    by rewrite judged_app, judged_sweep, Hs, H3.
Qed.

Lemma epoch_inv d fence :
  Z.of_nat (length (fd_dead_judgments d)) < u64_max -> detector_inv d ->
  detector_inv (on_epoch_advanced d fence).1.
Proof.
  intros Hlen [H1 H2 H3]. unfold on_epoch_advanced. case_decide; [done|]. case_decide; [done|].
  split; cbn [fst fd_config fd_subjects fd_last_tick fd_dead_judgments]; [done|..].
  - intros s r' (r & <- & Hr)%lookup_fmap_Some. apply retrack_ok; [by apply H2|].
    destruct (sr_dead_at r) as [x|] eqn:Hx; [left|by right].
    pose proof (incarnation_bound _ _ _ _ _ (H2 s r Hr)) as Hb. rewrite Hx in Hb. specialize (Hb ltac:(done)). lia.
  - intros s Hs. rewrite lookup_fmap in Hs. apply fmap_None in Hs. by apply H3.
Qed.

(** Judgments are only ever added. *)
Lemma op_step_history d o : fd_dead_judgments d `prefix_of` fd_dead_judgments (op_step d o).
Proof.
  destruct o as [s now|now|fence]; cbn [op_step].
  - unfold record_heartbeat, observe_tick. case_decide; [reflexivity|].
    destruct (fd_subjects _ !! s); [case_decide|]; reflexivity.
  - unfold sweep, observe_tick. case_decide; [reflexivity|]. by apply prefix_app_r.
  - unfold on_epoch_advanced. repeat case_decide; reflexivity.
Qed.

Lemma op_step_inv d o :
  Z.of_nat (length (fd_dead_judgments (op_step d o))) < u64_max -> detector_inv d -> detector_inv (op_step d o).
Proof.
  intros Hlen Hd. pose proof (prefix_length _ _ (op_step_history d o)).
  destruct o; [by apply heartbeat_inv|by apply sweep_inv|apply epoch_inv; [lia|done]].
Qed.

Lemma detector_reachable_inv d :
  detector_reachable d -> Z.of_nat (length (fd_dead_judgments d)) < u64_max -> detector_inv d.
Proof.
  induction 1 as [fence config Hc|d o Hd IH]; intros Hlen; [by split|].
  pose proof (prefix_length _ _ (op_step_history d o)). apply op_step_inv; [done|]. apply IH. lia.
Qed.
End invariant.

(** ** Theorems *)

(** The verdict that measured silence gives. *)
Definition verdict (config : FailureDetectorConfig) (silence : Z) : Liveness :=
  if decide (silence >= dead_after config) then Dead
  else if decide (silence >= suspect_after config) then Suspect else Alive.

Lemma sweep_record_verdict config last now js s r :
  config_ok config -> last <= now -> record_ok config last js s r ->
  record_liveness (sweep_record config now r) = match sr_dead_at r with
    | Some _ => Dead
    | None => verdict config (now - silence_since r)
    end.
Proof.
  intros Hcfg Hnow [H1 H2 H3 H4 H5]. pose proof (elapsed_eq now r ltac:(lia)) as Hel.
  unfold record_liveness, verdict. cbn [sweep_record sr_dead_at sr_suspected_at].
  unfold dies, suspects. rewrite Hel. unfold config_ok in Hcfg.
  destruct (sr_dead_at r) as [t|] eqn:Hd.
  { rewrite (bool_decide_eq_false_2 (Some t = None)) by done. done. }
  rewrite (bool_decide_eq_true_2 (None = None)) by done. cbn [andb].
  destruct (decide (now - silence_since r >= dead_after config)).
  { rewrite (bool_decide_eq_true_2 (now - silence_since r >= dead_after config)) by done. done. }
  rewrite (bool_decide_eq_false_2 (now - silence_since r >= dead_after config)) by done. cbn [negb andb].
  destruct (sr_suspected_at r) as [t|] eqn:Ht.
  - specialize (H3 t eq_refl). rewrite decide_True by lia. rewrite (bool_decide_eq_false_2 (Some t = None)) by done.
    by rewrite andb_false_r.
  - case_decide; [rewrite bool_decide_eq_true_2 by done|rewrite bool_decide_eq_false_2 by done]; done.
Qed.

(** Nothing is left to do at the same tick. *)
Lemma sweep_record_settled config now r :
  dies config now (sweep_record config now r) = false /\ suspects config now (sweep_record config now r) = false
  /\ sweep_record config now (sweep_record config now r) = sweep_record config now r.
Proof.
  assert (dies config now (sweep_record config now r) = false
    /\ suspects config now (sweep_record config now r) = false) as [Hd Hs].
  { unfold dies at 1, suspects at 1. cbn [sweep_record sr_dead_at sr_suspected_at].
    change (elapsed now (sweep_record config now r)) with (elapsed now r).
    destruct (dies config now r) eqn:Hd, (suspects config now r) eqn:Hs; try done; cbn [bool_decide];
      unfold dies, suspects in *; repeat case_bool_decide; done. }
  split_and!; [done..|]. destruct r as [e i b h su de]. unfold sweep_record at 1.
  rewrite Hd, Hs. done.
Qed.

Lemma omap_none {A B} (f : A -> option B) l : (forall x, x ∈ l -> f x = None) -> omap f l = [].
Proof.
  induction l as [|x l IH]; intros Hl; [done|]. cbn. rewrite (Hl x) by left. apply IH. intros y Hy.
  apply Hl. by right.
Qed.

Lemma swept_again config now (subjects : gmap MonitoredSubject SubjectRecord) s r :
  (s, r) ∈ btree_iter (sweep_record config now <$> subjects) ->
  dies config now r = false /\ suspects config now r = false.
Proof.
  rewrite elem_of_btree_iter. intros (r0 & <- & _)%lookup_fmap_Some.
  by destruct (sweep_record_settled config now r0) as (? & ? & _).
Qed.

(** The verdicts of the detector are exactly what the silence measured
    warrants. After a sweep a subject that was not judged dead before has the
    verdict its silence since the last heartbeat of the epoch, or since the
    epoch began, gives against the thresholds, and a dead one stays dead; the
    judgments the sweep passes are added to the history, which is never
    rewritten; and a second sweep at the same tick changes and reports nothing. *)
Theorem sweep_verdicts_exact d now d' report :
  detector_reachable d -> Z.of_nat (length (fd_dead_judgments d)) < u64_max ->
  sweep d now = (d', Ok report) ->
  (forall s r, fd_subjects d !! s = Some r -> exists r', fd_subjects d' !! s = Some r'
     /\ silence_since r' = silence_since r /\ sr_incarnation r' = sr_incarnation r
     /\ record_liveness r' = match sr_dead_at r with
                             | Some _ => Dead
                             | None => verdict (fd_config d) (now - silence_since r)
                             end)
  /\ fd_dead_judgments d' = fd_dead_judgments d ++ newly_dead report
  /\ sweep d' now = (d', Ok {| sw_epoch := fd_epoch d; newly_suspected := []; newly_dead := [] |}).
Proof.
  intros Hd Hlen Hs. pose proof (detector_reachable_inv d Hd Hlen) as [Hcfg Hrec _].
  unfold sweep, observe_tick in Hs. case_decide as Hn; [done|].
  cbn [with_subjects fd_subjects fd_config fd_dead_judgments fd_last_tick fd_epoch fd_identity] in Hs.
  injection Hs as <- <-. cbn [fd_subjects fd_dead_judgments newly_dead]. split_and!; [|done|].
  - intros s r Hr. exists (sweep_record (fd_config d) now r). rewrite lookup_fmap, Hr.
    split_and!; [done..|]. eapply sweep_record_verdict; [done| |by apply Hrec]. lia.
  - unfold sweep, observe_tick. cbn [fd_last_tick]. rewrite decide_False by lia.
    cbn [with_subjects fd_subjects fd_config fd_dead_judgments fd_last_tick fd_epoch fd_identity].
    rewrite !(omap_none _ (btree_iter (sweep_record _ _ <$> _))); [|intros [s r] [Hx Hy]%swept_again; cbn; by rewrite ?Hx, ?Hy..].
    rewrite app_nil_r, <- map_fmap_compose.
    assert (sweep_record (fd_config d) now ∘ sweep_record (fd_config d) now <$> fd_subjects d
      = sweep_record (fd_config d) now <$> fd_subjects d) as ->; [|done].
    apply map_fmap_ext. intros s r _. by destruct (sweep_record_settled (fd_config d) now r) as (_ & _ & ?).
Qed.

(** Judgments are numbered history. Whatever heartbeats, sweeps and epoch
    advances follow, the judgments passed before stay as they are, and the
    judgments of a subject carry the incarnations 1, 2, 3, ... in order: no
    incarnation is judged twice, and the incarnation now watched is one more
    than the deaths before it. A heartbeat does not revive a dead incarnation:
    it is refused and the record stays. *)
Theorem judgments_are_history d o s :
  detector_reachable d -> Z.of_nat (length (fd_dead_judgments (op_step d o))) < u64_max ->
  fd_dead_judgments d `prefix_of` fd_dead_judgments (op_step d o)
  /\ (exists k, j_incarnation <$> judged s (fd_dead_judgments (op_step d o)) = seqZ 1 k)
  /\ (forall r, fd_subjects (op_step d o) !! s = Some r ->
        j_incarnation <$> judged s (fd_dead_judgments (op_step d o)) = seqZ 1 (deaths r))
  /\ (forall r now, fd_subjects d !! s = Some r -> record_liveness r = Dead ->
        fd_subjects (record_heartbeat d s now).1 !! s = Some r
        /\ exists e, (record_heartbeat d s now).2 = Err e).
Proof.
  intros Hd Hlen. pose proof (op_step_history d o) as Hp.
  pose proof (detector_reachable_inv _ (dr_step d o Hd) Hlen) as [_ Hrec Hun].
  split; [done|]. split; [|split].
  - destruct (fd_subjects (op_step d o) !! s) as [r|] eqn:Hr.
    + exists (deaths r). by apply (Hrec s r Hr).
    + exists 0. by rewrite (Hun s Hr).
  - intros r Hr. by apply (Hrec s r Hr).
  - intros r now Hr Hdead. unfold record_heartbeat, observe_tick. case_decide; [eauto|].
    cbn [with_subjects fd_subjects]. rewrite Hr.
    rewrite decide_True; [eauto|]. unfold record_liveness in Hdead. by repeat case_match.
Qed.

(** A silent fiber: suspected, judged, and watched again in the next epoch. *)
Definition sample_fence (epoch : Z) : CellFence :=
  {| f_identity := 7; f_node_boot_generation := 1; f_epoch := epoch; f_fencing_token := epoch |}.
Definition sample_config : FailureDetectorConfig := {| suspect_after := 3; dead_after := 5 |}.

Definition sample_detector : FailureDetector :=
  foldl op_step (detector_new (sample_fence 1) sample_config)
    [OpHeartbeat (Fiber 9) 10; OpSweep 13; OpSweep 16].

Lemma sample_detector_reachable : detector_reachable sample_detector.
Proof. do 3 apply (dr_step _ _). apply dr_new. unfold config_ok. cbn. lia. Qed.

Lemma sweep_verdicts_exact_witness :
  exists r, fd_subjects (sweep sample_detector 20).1 !! Fiber 9 = Some r /\ record_liveness r = Dead.
Proof.
  destruct (fd_subjects sample_detector !! Fiber 9) as [r|] eqn:Hr; [|vm_compute in Hr; discriminate Hr].
  destruct (sweep_verdicts_exact sample_detector 20 (sweep sample_detector 20).1
    {| sw_epoch := 1; newly_suspected := []; newly_dead := [] |} sample_detector_reachable)
    as (H & _ & _); [vm_compute; reflexivity|vm_compute; reflexivity|].
  destruct (H (Fiber 9) r Hr) as (r' & Hr' & _ & _ & Hv). exists r'. split; [exact Hr'|]. rewrite Hv.
  vm_compute in Hr. injection Hr as <-. reflexivity.
Defined.

Lemma judgments_are_history_witness :
  j_incarnation <$> judged (Fiber 9) (fd_dead_judgments (op_step sample_detector (OpEpoch (sample_fence 2)))) = [1].
Proof.
  destruct (judgments_are_history sample_detector (OpEpoch (sample_fence 2)) (Fiber 9)
    sample_detector_reachable) as (_ & _ & H & _); [vm_compute; reflexivity|].
  destruct (fd_subjects (op_step sample_detector (OpEpoch (sample_fence 2))) !! Fiber 9) as [r|] eqn:Hr;
    [|vm_compute in Hr; discriminate Hr].
  rewrite (H r eq_refl). vm_compute in Hr. injection Hr as <-. reflexivity.
Defined.

(** A subject that was suspected before it was judged dead keeps the suspicion:
    its view still shows it, and the next epoch reports it as voided. *)
Lemma dead_suspicion_reported_void :
  (liveness sample_detector (Fiber 9) = Some {| v_subject := Fiber 9; v_liveness := Dead; v_epoch := 1;
     v_incarnation := 1; v_last_heartbeat := Some 10; v_suspected_at := Some 13; v_dead_at := Some 16 |})
  /\ exists d report, on_epoch_advanced sample_detector (sample_fence 2) = (d, Ok report)
       /\ suspicions_voided report = [(Fiber 9, 13)] /\ re_tracked_after_death report = [Fiber 9].
Proof. split; [vm_compute; reflexivity|]. eexists _, _. split; [vm_compute; reflexivity|]. split; reflexivity. Qed.
