(* ===== verification/NameCache.v ===== *)
(** * NameCache: the capability cache of a Cell

    Models nlos-cell/src/name_cache.rs: validated namespace paths and, for each
    of them, at most one cached capability under a generation fence that only
    rises and an epoch fence that drops everything. *)

From S2P Require Import Prelude Bytes Cell.

(** ** Paths *)

(** [str::split('/')] *)
Fixpoint split_slash (l : bytes) : list bytes :=
  match l with
  | [] => [[]]
  | b :: rest =>
      match split_slash rest with
      | seg :: segs => if decide (b = 47) then [] :: seg :: segs else (b :: seg) :: segs
      | [] => []
      end
  end.

Inductive NameCacheError :=
  | InvalidPath (presented : bytes)
  | StaleGeneration (path : bytes) (presented invalidated : Z)
  | StaleEntry (path : bytes) (presented current : Z)
  | GenerationConflict (path : bytes) (presented current generation : Z)
  | StaleInvalidation (path : bytes) (presented invalidated : Z)
  | CacheEpochNotAdvanced (presented current : Z)
  | CacheIdentityMismatch (presented current : Z).

(** On the UTF-8 bytes of the text. *)
Definition path_new (path : bytes) : result NameCacheError bytes :=
  if negb (bool_decide (head path = Some 47)) || bool_decide (length path < 2)%nat
     || bool_decide (last path = Some 47) then Err (InvalidPath path) else
  if negb (forallb (fun b => bool_decide (b = 47) || bool_decide (0x21 <= b <= 0x7e)) path)
  then Err (InvalidPath path) else
  if existsb (fun seg => bool_decide (seg = [])) (split_slash (tail path)) then Err (InvalidPath path) else
  Ok path.

(** ** The cache *)

Record CachedCapability := { c_capability : Z; c_generation : Z }.
Record CacheHit := { hit_cached : CachedCapability; hit_epoch : Z }.

Inductive InsertOutcome := Inserted | Unchanged | Replaced (previous : CachedCapability).
Inductive InvalidationOutcome := Advanced (invalidated_through : Z) (evicted : Z) | Idempotent.
Record EpochInvalidation := { ei_previous_epoch : Z; ei_new_epoch : Z; entries_fenced : nat }.

Record PathState := {
  p_live : option CachedCapability;
  p_inserted_epoch : option Z;
  p_invalidated_through : option Z;
}.

Record CapabilityNameCache := {
  nc_identity : Z;
  nc_epoch : Z;
  nc_paths : gmap bytes PathState;
}.

Definition cache_new (fence : CellFence) : CapabilityNameCache :=
  {| nc_identity := f_identity fence; nc_epoch := f_epoch fence; nc_paths := ∅ |}.

Definition unseen : PathState :=
  {| p_live := None; p_inserted_epoch := None; p_invalidated_through := None |}.

Section cache.
Implicit Types (c : CapabilityNameCache) (path : bytes).

Definition invalidated_through c path : option Z :=
  state ← nc_paths c !! path; p_invalidated_through state.

Definition get c path : option CacheHit :=
  state ← nc_paths c !! path;
  cached ← p_live state;
  inserted_epoch ← p_inserted_epoch state;
  if decide (inserted_epoch <> nc_epoch c) then None
  else Some {| hit_cached := cached; hit_epoch := inserted_epoch |}.

Definition with_path c path (state : PathState) : CapabilityNameCache :=
  {| nc_identity := nc_identity c; nc_epoch := nc_epoch c; nc_paths := <[path := state]> (nc_paths c) |}.

Definition insert_live c path (state : PathState) (presented : CachedCapability) : CapabilityNameCache :=
  with_path c path {| p_live := Some presented; p_inserted_epoch := Some (nc_epoch c);
                      p_invalidated_through := p_invalidated_through state |}.

(** [entry(path).or_insert(..)] leaves an empty state behind on every way out. *)
Definition cache_insert c path (capability capability_generation : Z) :
    CapabilityNameCache * result NameCacheError InsertOutcome :=
  let state := default unseen (nc_paths c !! path) in
  let c := with_path c path state in
  let fenced := match p_invalidated_through state with
                | Some through => if decide (capability_generation <= through) then Some through else None
                | None => None
                end in
  match fenced with
  | Some through => (c, Err (StaleGeneration path capability_generation through))
  | None =>
      let presented := {| c_capability := capability; c_generation := capability_generation |} in
      match p_live state with
      | Some current =>
          if decide (capability_generation < c_generation current)
          then (c, Err (StaleEntry path capability_generation (c_generation current))) else
          if decide (capability_generation = c_generation current) then
            if decide (c_capability current = capability) then (c, Ok Unchanged)
            else (c, Err (GenerationConflict path capability (c_capability current) capability_generation))
          else (insert_live c path state presented, Ok (Replaced current))
      | None => (insert_live c path state presented, Ok Inserted)
      end
  end.

Definition cache_invalidate c path (through : Z) :
    CapabilityNameCache * result NameCacheError InvalidationOutcome :=
  let state := default unseen (nc_paths c !! path) in
  let c := with_path c path state in
  let advance :=
    let evicts := match p_live state with
                  | Some live => bool_decide (c_generation live <= through)
                  | None => false
                  end in
    (with_path c path {|
       p_live := if evicts then None else p_live state;
       p_inserted_epoch := if evicts then None else p_inserted_epoch state;
       p_invalidated_through := Some through |},
     Ok (Advanced through (if evicts then 1 else 0))) in
  match p_invalidated_through state with
  | Some current =>
      if decide (through < current) then (c, Err (StaleInvalidation path through current)) else
      if decide (through = current) then (c, Ok Idempotent) else advance
  | None => advance
  end.

Definition drop_live (state : PathState) : PathState :=
  match p_live state with
  | Some _ => {| p_live := None; p_inserted_epoch := None;
                 p_invalidated_through := p_invalidated_through state |}
  | None => state
  end.

Definition cache_epoch_advanced c (fence : CellFence) :
    CapabilityNameCache * result NameCacheError EpochInvalidation :=
  if decide (f_identity fence <> nc_identity c)
  then (c, Err (CacheIdentityMismatch (f_identity fence) (nc_identity c))) else
  if decide (f_epoch fence <= nc_epoch c)
  then (c, Err (CacheEpochNotAdvanced (f_epoch fence) (nc_epoch c))) else
  ({| nc_identity := nc_identity c; nc_epoch := f_epoch fence; nc_paths := drop_live <$> nc_paths c |},
   Ok {| ei_previous_epoch := nc_epoch c; ei_new_epoch := f_epoch fence;
         entries_fenced := size (filter (fun kv => is_Some (p_live kv.2)) (nc_paths c)) |}).
End cache.

(** ** Fencing *)

Inductive cache_op :=
  | COInsert (path : bytes) (capability generation : Z)
  | COInvalidate (path : bytes) (through : Z)
  | COEpoch (fence : CellFence).

Definition cache_step (c : CapabilityNameCache) (o : cache_op) : CapabilityNameCache :=
  match o with
  | COInsert path capability generation => (cache_insert c path capability generation).1
  | COInvalidate path through => (cache_invalidate c path through).1
  | COEpoch fence => (cache_epoch_advanced c fence).1
  end.

Section fencing.
Implicit Types (c : CapabilityNameCache) (path : bytes).

(** What is live was inserted in this epoch, above the fence of its path. *)
Record path_ok (epoch : Z) (state : PathState) : Prop := {
  po_epoch : match p_live state with
             | Some _ => p_inserted_epoch state = Some epoch
             | None => p_inserted_epoch state = None
             end;
  po_fence cached through : p_live state = Some cached -> p_invalidated_through state = Some through ->
    through < c_generation cached;
}.

Definition cache_inv c : Prop := map_Forall (fun _ => path_ok (nc_epoch c)) (nc_paths c).

Lemma unseen_ok epoch : path_ok epoch unseen.
Proof. by split. Qed.

Lemma lookup_ok c path : cache_inv c -> path_ok (nc_epoch c) (default unseen (nc_paths c !! path)).
Proof. intros Hc. destruct (nc_paths c !! path) eqn:Hp; [by apply (Hc path)|apply unseen_ok]. Qed.

Lemma with_path_inv c path state : cache_inv c -> path_ok (nc_epoch c) state -> cache_inv (with_path c path state).
Proof. intros Hc Hs. by apply map_Forall_insert_2. Qed.

Lemma cache_step_inv c o : cache_inv c -> cache_inv (cache_step c o).
Proof.
  intros Hc. destruct o as [path cap g|path through|fence]; cbn [cache_step].
  - pose proof (lookup_ok c path Hc) as Hs. unfold cache_insert. cbv zeta.
    set (state := default unseen (nc_paths c !! path)) in *. clearbody state.
    pose proof (with_path_inv c path state Hc Hs) as Hc'.
    destruct (match p_invalidated_through state with Some _ => _ | None => None end) eqn:Hf; [done|].
    assert (path_ok (nc_epoch c) {| p_live := Some {| c_capability := cap; c_generation := g |};
      p_inserted_epoch := Some (nc_epoch c); p_invalidated_through := p_invalidated_through state |}) as Hnew.
    { split; [done|]. cbn. intros cached through [= <-] Ht. rewrite Ht in Hf. case_decide; [done|]. cbn. lia. }
    destruct (p_live state); [|by apply with_path_inv]. repeat case_decide; try done. by apply with_path_inv.
  - pose proof (lookup_ok c path Hc) as Hs. unfold cache_invalidate. cbv zeta.
    set (state := default unseen (nc_paths c !! path)) in *. clearbody state.
    pose proof (with_path_inv c path state Hc Hs) as Hc'.
    match goal with |- context [with_path (with_path c path state) path ?x] =>
      assert (path_ok (nc_epoch c) x) as Hnew end.
    { destruct Hs as [He Hf]. split; cbn.
      - destruct (p_live state) as [live|]; [|done]. by case_bool_decide.
      - destruct (p_live state) as [live|]; [|done]. case_bool_decide; [done|].
        intros cached t [= <-] [= <-]. lia. }
    destruct (p_invalidated_through state); [repeat case_decide; try done|]; by apply with_path_inv.
  - unfold cache_epoch_advanced. case_decide; [done|]. case_decide; [done|].
    intros path state (s & <- & Hs)%lookup_fmap_Some. pose proof (Hc path s Hs) as [He _].
    unfold drop_live. destruct (p_live s) eqn:Hl; split; cbn; rewrite ?Hl; done.
Qed.

Definition fenced_at c path (through : Z) : Prop :=
  exists h, invalidated_through c path = Some h /\ through <= h.

(** The fence of a path never falls. *)
Lemma cache_step_fence c o path through : fenced_at c path through -> fenced_at (cache_step c o) path through.
Proof.
  intros (h & Hh & Hle). unfold fenced_at, invalidated_through in *.
  apply bind_Some in Hh as (state & Hp & Hst).
  assert (forall q st, (q = path -> exists h', p_invalidated_through st = Some h' /\ through <= h') ->
    exists h', invalidated_through (with_path c q st) path = Some h' /\ through <= h') as Hw.
  { intros q st Hq. unfold invalidated_through, with_path. cbn [nc_paths].
    destruct (decide (q = path)) as [->|Hne].
    - rewrite lookup_insert_eq. by apply Hq.
    - rewrite lookup_insert_ne by done. rewrite Hp. cbn. eauto. }
  destruct o as [q cap g|q t|fence]; cbn [cache_step].
  - assert (q = path -> default unseen (nc_paths c !! q) = state) as Hq by (intros ->; by rewrite Hp).
    unfold cache_insert. cbv zeta. set (st := default unseen (nc_paths c !! q)) in *. clearbody st.
    assert (exists h', invalidated_through (with_path c q st) path = Some h' /\ through <= h') as Hsame.
    { apply Hw. intros ->%Hq. eauto. }
    repeat case_match; try exact Hsame; unfold insert_live; unfold invalidated_through, with_path; cbn [nc_paths fst];
      rewrite insert_insert_eq; apply (Hw q); intros ->%Hq; eauto.
  - assert (q = path -> default unseen (nc_paths c !! q) = state) as Hq by (intros ->; by rewrite Hp).
    unfold cache_invalidate. cbv zeta. set (st := default unseen (nc_paths c !! q)) in *. clearbody st.
    assert (exists h', invalidated_through (with_path c q st) path = Some h' /\ through <= h') as Hsame.
    { apply Hw. intros ->%Hq. eauto. }
    destruct (p_invalidated_through st) as [cur|] eqn:Hcur.
    + case_decide; [exact Hsame|]. case_decide; [exact Hsame|].
      unfold with_path. cbn [nc_paths fst]. rewrite insert_insert_eq. apply (Hw q). intros Heq%Hq. subst st.
      cbn. eexists. split; [done|]. rewrite Hst in Hcur. injection Hcur as ->. lia.
    + unfold with_path. cbn [nc_paths fst]. rewrite insert_insert_eq. apply (Hw q). intros Heq%Hq. congruence.
  - unfold cache_epoch_advanced. case_decide; [by cbn; rewrite Hp; eauto|]. case_decide; [by cbn; rewrite Hp; eauto|].
    cbn [fst nc_paths]. rewrite lookup_fmap, Hp. cbn. exists h. unfold drop_live. by destruct (p_live state).
Qed.
End fencing.

Section claims.
Implicit Types (c : CapabilityNameCache) (path : bytes).

Lemma cache_run_inv c ops : cache_inv c -> cache_inv (foldl cache_step c ops).
Proof. revert c. induction ops as [|o ops IH]; [done|]. intros c Hc. by apply IH, cache_step_inv. Qed.

Lemma cache_run_fence c ops path through :
  fenced_at c path through -> fenced_at (foldl cache_step c ops) path through.
Proof. revert c. induction ops as [|o ops IH]; [done|]. intros c Hc. by apply IH, cache_step_fence. Qed.

(** An accepted invalidation leaves its path fenced. *)
Lemma invalidate_fences c path through outcome :
  (cache_invalidate c path through).2 = Ok outcome -> fenced_at (cache_invalidate c path through).1 path through.
Proof.
  unfold cache_invalidate, fenced_at, invalidated_through. cbv zeta.
  set (state := default unseen (nc_paths c !! path)). clearbody state.
  destruct (p_invalidated_through state) as [cur|] eqn:Hcur.
  - case_decide; [done|]. case_decide as Heq; intros _; unfold with_path; cbn [fst nc_paths];
      rewrite lookup_insert_eq; cbn; rewrite ?Hcur; eauto with lia.
  - intros _. unfold with_path. cbn [fst nc_paths]. rewrite lookup_insert_eq. cbn. eauto with lia.
Qed.

(** A hit is what is live, of the present epoch and above the fence. *)
Lemma get_above_fence c path through hit :
  cache_inv c -> fenced_at c path through -> get c path = Some hit ->
  through < c_generation (hit_cached hit) /\ hit_epoch hit = nc_epoch c.
Proof.
  intros Hc (h & Hh & Hle) Hget. unfold get, invalidated_through in *.
  apply bind_Some in Hh as (state & Hp & Hst). rewrite Hp in Hget. cbn in Hget.
  apply bind_Some in Hget as (cached & Hl & (e & He & Hget)%bind_Some).
  case_decide as Heq; [done|]. injection Hget as <-. cbn.
  pose proof (po_fence _ _ (Hc path state Hp) cached h Hl Hst). split; [lia|].
  by destruct (decide (e = nc_epoch c)).
Qed.

(** An insertion at or below the fence is refused, with no effect on any lookup. *)
Lemma insert_below_fence c path through cap g :
  fenced_at c path through -> g <= through ->
  exists h, cache_insert c path cap g = (c, Err (StaleGeneration path g h)).
Proof.
  intros (h & Hh & Hle) Hg. exists h. unfold invalidated_through in Hh.
  apply bind_Some in Hh as (state & Hp & Hst). unfold cache_insert. rewrite Hp. cbn [default from_option id].
  cbv zeta. rewrite Hst. rewrite decide_True by lia. f_equal. unfold with_path. rewrite insert_id by done.
  by destruct c.
Qed.

Lemma epoch_advance_drops c fence report path :
  (cache_epoch_advanced c fence).2 = Ok report -> get (cache_epoch_advanced c fence).1 path = None.
Proof.
  unfold cache_epoch_advanced. case_decide; [done|]. case_decide; [done|]. intros _. unfold get. cbn [fst nc_paths].
  rewrite lookup_fmap. destruct (nc_paths c !! path) as [state|]; [|done]. cbn. unfold drop_live.
  by destruct (p_live state) eqn:Hl; cbn; rewrite ?Hl.
Qed.

(** Revocation is permanent.  In a cache built by any operations, once an
    invalidation of a path through a generation has been accepted, then after any
    further insertions, invalidations and epoch advances the path never answers with
    a capability of that generation or an older one, every answer was cached in the
    present epoch, and caching such a generation again is refused leaving the cache
    exactly as it was. *)
Theorem revocation_is_permanent fence before path through outcome after :
  let c := foldl cache_step (cache_new fence) before in
  let c' := foldl cache_step (cache_invalidate c path through).1 after in
  (cache_invalidate c path through).2 = Ok outcome ->
  (forall hit, get c' path = Some hit ->
     through < c_generation (hit_cached hit) /\ hit_epoch hit = nc_epoch c') /\
  (forall cap g, g <= through -> exists h, cache_insert c' path cap g = (c', Err (StaleGeneration path g h))).
Proof.
  intros c c' Hout.
  assert (cache_inv c) as Hc by (apply cache_run_inv; by apply map_Forall_empty).
  pose proof (cache_run_inv _ after (cache_step_inv c (COInvalidate path through) Hc)) as Hc'.
  pose proof (cache_run_fence _ after _ _ (invalidate_fences _ _ _ _ Hout)) as Hf.
  split; [intros hit; by apply get_above_fence|intros cap g; by apply insert_below_fence].
Qed.

Lemma revocation_is_permanent_witness :
  let fence e := {| f_identity := 7; f_node_boot_generation := 1; f_epoch := e; f_fencing_token := e |} in
  let p := [47; 97] in
  let c := foldl cache_step (cache_new (fence 1)) [COInsert p 5 3] in
  let c' := foldl cache_step (cache_invalidate c p 4).1 [COInsert p 5 4; COEpoch (fence 2); COInsert p 6 5] in
  get c p = Some {| hit_cached := {| c_capability := 5; c_generation := 3 |}; hit_epoch := 1 |} /\
  get c' p = Some {| hit_cached := {| c_capability := 6; c_generation := 5 |}; hit_epoch := 2 |} /\
  exists h, cache_insert c' p 5 3 = (c', Err (StaleGeneration p 3 h)).
Proof.
  intros fence p c c'. split; [vm_compute; reflexivity|]. split; [vm_compute; reflexivity|].
  apply (revocation_is_permanent (fence 1) [COInsert p 5 3] p 4 (Advanced 4 1)
           [COInsert p 5 4; COEpoch (fence 2); COInsert p 6 5]); [vm_compute; reflexivity|lia].
Defined.
End claims.

(** ** Paths, exactly *)

Definition join_slash (segs : list bytes) : bytes := seg ← segs; 47 :: seg.

Definition segment_ok (seg : bytes) : Prop := seg <> [] /\ Forall (fun b => 0x21 <= b <= 0x7e /\ b <> 47) seg.

Lemma split_slash_join l : join_slash (split_slash l) = 47 :: l.
Proof.
  induction l as [|b l IH]; [done|]. cbn [split_slash].
  destruct (split_slash l) as [|seg segs]; [done|]. cbn in IH. injection IH as IH.
  case_decide as Hb; cbn; by rewrite ?Hb, IH.
Qed.

Lemma split_slash_clean l : Forall (Forall (.≠ 47)) (split_slash l).
Proof.
  induction l as [|b l IH]; [by repeat constructor|]. cbn [split_slash].
  destruct (split_slash l) as [|seg segs]; [done|]. inversion IH. subst. case_decide; by repeat constructor.
Qed.

Lemma split_slash_segment seg : Forall (.≠ 47) seg -> split_slash seg = [seg].
Proof. induction 1 as [|b l Hb _ IH]; [done|]. cbn [split_slash]. rewrite IH. by rewrite decide_False. Qed.

Lemma split_slash_app seg rest :
  Forall (.≠ 47) seg -> split_slash (seg ++ 47 :: rest) = seg :: split_slash rest.
Proof.
  intros Hseg. assert (split_slash rest <> []) as Hne.
  { intros Hn. pose proof (split_slash_join rest) as Hj. by rewrite Hn in Hj. }
  induction Hseg as [|b l Hb _ IH]; cbn [split_slash app].
  - destruct (split_slash rest); [done|]. done.
  - rewrite IH. by rewrite decide_False.
Qed.

Lemma split_slash_joined seg segs :
  Forall (Forall (.≠ 47)) (seg :: segs) -> split_slash (tail (join_slash (seg :: segs))) = seg :: segs.
Proof.
  revert seg. induction segs as [|seg' segs IH]; intros seg Hall; inversion_clear Hall as [|? ? Hseg Hrest].
  - unfold join_slash. cbn. rewrite app_nil_r. by apply split_slash_segment.
  - specialize (IH _ Hrest). unfold join_slash in *. cbn in *. rewrite split_slash_app by done. by rewrite IH.
Qed.

Lemma path_bytes_ok path :
  forallb (fun b => bool_decide (b = 47) || bool_decide (0x21 <= b <= 0x7e)) path = true <->
  Forall (fun b => 0x21 <= b <= 0x7e) path.
Proof.
  rewrite forallb_forall, Forall_forall. setoid_rewrite list_elem_of_In.
  split; intros H b Hb; specialize (H b Hb).
  - apply orb_true_iff in H as [H%bool_decide_eq_true|H%bool_decide_eq_true]; lia.
  - apply orb_true_iff. right. by apply bool_decide_eq_true.
Qed.

Lemma segments_nonempty segs :
  existsb (fun seg => bool_decide (seg = [])) segs = false <-> Forall (fun seg : bytes => seg <> []) segs.
Proof.
  induction segs as [|seg segs IH]; [done|]. cbn. rewrite orb_false_iff, bool_decide_eq_false, IH, Forall_cons. done.
Qed.

Lemma join_slash_last seg segs :
  Forall segment_ok (seg :: segs) -> last (join_slash (seg :: segs)) <> Some 47.
Proof.
  revert seg. induction segs as [|seg' segs IH]; intros seg Hall; inversion_clear Hall as [|? ? [Hne Hseg] Hrest].
  - unfold join_slash. cbn. rewrite app_nil_r. destruct seg as [|b seg _] using rev_ind; [done|].
    rewrite app_comm_cons, last_snoc. apply Forall_app in Hseg as [_ Hb]. inversion_clear Hb. intros [= ->]. lia.
  - specialize (IH _ Hrest). unfold join_slash in *. cbn in *.
    by rewrite app_comm_cons, last_app_cons.
Qed.

(** A path is accepted exactly when it is one or more non-empty segments of
    printable ASCII, each led by its separator. *)
Lemma path_new_exact path p :
  path_new path = Ok p <->
  p = path /\ exists segs, segs <> [] /\ Forall segment_ok segs /\ path = join_slash segs.
Proof.
  unfold path_new. split.
  - destruct (_ || _) eqn:Hshape; [done|]. destruct (negb (forallb _ _)) eqn:Hb; [done|].
    destruct (existsb _ _) eqn:Hs; [done|]. intros [= ->]. split; [done|].
    apply negb_false_iff, path_bytes_ok in Hb. apply segments_nonempty in Hs.
    apply orb_false_iff in Hshape as [[Hh%negb_false_iff%bool_decide_eq_true _]%orb_false_iff _].
    destruct p as [|b rest]; [done|]. cbn in Hh. injection Hh as ->. cbn [tail] in Hs.
    exists (split_slash rest). rewrite split_slash_join. split_and!; [|apply Forall_forall|done].
    + intros Hn. pose proof (split_slash_join rest) as Hj. by rewrite Hn in Hj.
    + intros seg Hseg. split; [by eapply Forall_forall in Hs|].
      assert (Forall (fun b => 0x21 <= b <= 0x7e) seg) as Hp.
      { apply Forall_forall. intros b Hbs. rewrite <- split_slash_join in Hb.
        eapply Forall_forall in Hb; [exact Hb|]. unfold join_slash. apply list_elem_of_bind.
        exists seg. split; [by right|done]. }
      pose proof (split_slash_clean rest) as Hc. eapply Forall_forall in Hc; [|exact Hseg].
      by apply Forall_and.
  - intros (-> & segs & Hne & Hok & ->). destruct segs as [|seg segs]; [done|].
    assert (Forall (Forall (.≠ 47)) (seg :: segs)) as Hclean.
    { eapply Forall_impl; [exact Hok|]. intros s [_ Hs]. eapply Forall_impl; [exact Hs|]. by intros b []. }
    rewrite (split_slash_joined _ _ Hclean).
    rewrite (proj2 (segments_nonempty _)) by (eapply Forall_impl; [exact Hok|by intros s []]).
    rewrite (proj2 (path_bytes_ok _)).
    2:{ apply Forall_forall. unfold join_slash. intros b (s & Hb & Hs)%list_elem_of_bind.
        eapply Forall_forall in Hs; [|exact Hok]. destruct Hs as [_ Hs].
        apply elem_of_cons in Hb as [->|Hb]; [lia|]. eapply Forall_forall in Hs; [|exact Hb]. lia. }
    rewrite (bool_decide_eq_false_2 _ (join_slash_last _ _ Hok)). inversion_clear Hok as [|? ? [Hs _] _].
    destruct seg; [done|]. done.
Qed.
