(* ===== verification/Partition.v ===== *)
(** * Partition: autonomy of a Cell cut off from its control plane

    Models the gate of nlos-cell/src/partition.rs and the clock guard of
    nlos-cell/src/clock_liveness.rs that drives it: a link state machine whose
    authoritative fence never moves back, and the actions the gate lets through in
    each of its states. *)

From S2P Require Import Prelude Bytes Cell.

(** ** The link *)

Inductive ControlPlaneLinkPhase := Connected | Partitioned | Reconnecting.

#[export] Instance phase_eq_dec : EqDecision ControlPlaneLinkPhase.
Proof. solve_decision. Defined.

Inductive ControlPlaneLinkState :=
  | LinkConnected (verified_fence : CellFence) (last_contact_tick : Z)
  | LinkPartitioned (frozen_fence : CellFence) (partitioned_since_tick reason_code : Z)
  | LinkReconnecting (prior_frozen_fence candidate_fence : CellFence) (started_tick : Z).

Definition phase (s : ControlPlaneLinkState) : ControlPlaneLinkPhase :=
  match s with
  | LinkConnected _ _ => Connected
  | LinkPartitioned _ _ _ => Partitioned
  | LinkReconnecting _ _ _ => Reconnecting
  end.

Definition requires_local_autonomy_gate (s : ControlPlaneLinkState) : bool :=
  match s with
  | LinkPartitioned _ _ _ | LinkReconnecting _ _ _ => true
  | LinkConnected _ _ => false
  end.

Definition authoritative_fence (s : ControlPlaneLinkState) : CellFence :=
  match s with
  | LinkConnected verified_fence _ => verified_fence
  | LinkPartitioned frozen_fence _ _ => frozen_fence
  | LinkReconnecting _ candidate_fence _ => candidate_fence
  end.

Definition link_wire_tag (s : ControlPlaneLinkState) : Z :=
  match s with
  | LinkConnected _ _ => 1
  | LinkPartitioned _ _ _ => 2
  | LinkReconnecting _ _ _ => 3
  end.

(** ** Actions and receipts *)

Record LocalAutonomyProof := {
  capability_valid_until_tick : Z;
  capability_revoked : bool;
  capability_locally_verified : bool;
  lease_epoch : Z;
  lease_expires_at_tick : option Z;
  lease_remaining : Z;
  requested_spend : Z;
}.

Inductive PartitionedActionKind :=
  | LocalPureComputeOrAuthorizedSpend (proof : LocalAutonomyProof)
  | RequestQuotaExpansionOrRenewal
  | CrossCellCanonicalPublishWithoutLocalAuthority
  | UncachedRemoteAuthorityMutation.

Definition action_label (a : PartitionedActionKind) : string :=
  match a with
  | LocalPureComputeOrAuthorizedSpend _ => "local_pure_compute_or_authorized_spend"
  | RequestQuotaExpansionOrRenewal => "request_quota_expansion_or_renewal"
  | CrossCellCanonicalPublishWithoutLocalAuthority =>
      "cross_cell_canonical_publish_without_local_authority"
  | UncachedRemoteAuthorityMutation => "uncached_remote_authority_mutation"
  end.

Record PartitionAutonomyReceipt := {
  admitted_at_tick : Z;
  r_link_state : ControlPlaneLinkState;
  r_verified_fence : CellFence;
  authorized_spend : Z;
  remaining_after_spend : Z;
  receipt_digest : Z;
}.

Definition PARTITION_AUTONOMY_RECEIPT_DOMAIN : bytes :=
  bytes_of_string "llmos/cell-partition-autonomy-receipt/v1".

Inductive PartitionViolation :=
  | CapabilityNotLocallyProvable (verified revoked : bool)
  | CapabilityExpiredDuringPartition (now_tick valid_until_tick : Z)
  | QuotaLeaseExpiredDuringPartition (now_tick expires_at_tick : Z)
  | QuotaFrozenInsufficientRemaining (requested remaining : Z)
  | ControlPlaneRequiredDuringPartition (action : string) (link_phase : ControlPlaneLinkPhase)
  | LeaseEpochMismatchDuringPartition (lease_epoch expected_epoch : Z)
  | FenceMismatchDuringPartition (presented expected : CellFence)
  | InvalidStateTransition (current_phase : ControlPlaneLinkPhase) (attempted : string)
  | NonMonotonicTick (previous_tick supplied_tick : Z)
  | ReconnectingEpochNotAdvanced (prior_fence candidate_fence : CellFence).

Section receipt.
Context `{Sha256}.

Definition receipt_compute_digest (tick : Z) (s : ControlPlaneLinkState) (fence : CellFence)
    (spend remaining : Z) : Z :=
  sha256 (PARTITION_AUTONOMY_RECEIPT_DOMAIN ++ [link_wire_tag s] ++ be_bytes 8 tick
          ++ be_bytes 16 (f_identity fence) ++ be_bytes 8 (f_node_boot_generation fence)
          ++ be_bytes 8 (f_epoch fence) ++ be_bytes 8 (f_fencing_token fence)
          ++ be_bytes 8 spend ++ be_bytes 8 remaining).

Definition receipt_new (tick : Z) (s : ControlPlaneLinkState) (fence : CellFence)
    (spend remaining : Z) : PartitionAutonomyReceipt := {|
  admitted_at_tick := tick; r_link_state := s; r_verified_fence := fence;
  authorized_spend := spend; remaining_after_spend := remaining;
  receipt_digest := receipt_compute_digest tick s fence spend remaining
|}.

Definition receipt_verify_digest (r : PartitionAutonomyReceipt) : bool :=
  bool_decide (receipt_compute_digest (admitted_at_tick r) (r_link_state r) (r_verified_fence r)
                 (authorized_spend r) (remaining_after_spend r) = receipt_digest r).
End receipt.

(** ** The gate *)

Record PartitionAutonomyGate := { g_state : ControlPlaneLinkState; last_observed_tick : Z }.

Definition gate_connected (verified_fence : CellFence) (now_tick : Z) : PartitionAutonomyGate :=
  {| g_state := LinkConnected verified_fence now_tick; last_observed_tick := now_tick |}.

Definition gate_partitioned (frozen_fence : CellFence) (partitioned_since_tick reason_code : Z) :
    PartitionAutonomyGate :=
  {| g_state := LinkPartitioned frozen_fence partitioned_since_tick reason_code;
     last_observed_tick := partitioned_since_tick |}.

(** A state change and what it returns. *)
Definition gate_result : Type := PartitionAutonomyGate * result PartitionViolation ControlPlaneLinkState.

Definition gate_moved (s : ControlPlaneLinkState) (tick : Z) : gate_result :=
  ({| g_state := s; last_observed_tick := tick |}, Ok s).

Section gate.
Implicit Types g : PartitionAutonomyGate.

Definition monotonic_tick g (now_tick : Z) (k : gate_result) : gate_result :=
  if decide (now_tick < last_observed_tick g)
  then (g, Err (NonMonotonicTick (last_observed_tick g) now_tick)) else k.

Definition fence_is_monotonic_successor (prior next : CellFence) : bool :=
  bool_decide (f_identity prior = f_identity next)
  && bool_decide (f_node_boot_generation next >= f_node_boot_generation prior)
  && bool_decide (f_epoch next >= f_epoch prior)
  && bool_decide (f_fencing_token next >= f_fencing_token prior).

Definition record_control_plane_contact g (verified_fence : CellFence) (now_tick : Z) : gate_result :=
  monotonic_tick g now_tick
    match g_state g with
    | LinkConnected prior _ =>
        if negb (fence_is_monotonic_successor prior verified_fence)
        then (g, Err (FenceMismatchDuringPartition verified_fence prior))
        else gate_moved (LinkConnected verified_fence now_tick) now_tick
    | current => (g, Err (InvalidStateTransition (phase current) "record_control_plane_contact"))
    end.

Definition enter_partition g (frozen_fence : CellFence) (now_tick reason_code : Z) : gate_result :=
  monotonic_tick g now_tick
    match g_state g with
    | LinkConnected verified_fence _ =>
        if negb (fence_is_monotonic_successor verified_fence frozen_fence)
        then (g, Err (FenceMismatchDuringPartition frozen_fence verified_fence))
        else gate_moved (LinkPartitioned frozen_fence now_tick reason_code) now_tick
    | LinkPartitioned existing_fence partitioned_since_tick existing_reason =>
        if decide (existing_fence = frozen_fence /\ existing_reason = reason_code)
        then gate_moved (LinkPartitioned existing_fence partitioned_since_tick existing_reason) now_tick
        else (g, Err (InvalidStateTransition Partitioned "enter_partition"))
    | LinkReconnecting _ candidate_fence _ =>
        if negb (fence_is_monotonic_successor candidate_fence frozen_fence)
        then (g, Err (FenceMismatchDuringPartition frozen_fence candidate_fence))
        else gate_moved (LinkPartitioned frozen_fence now_tick reason_code) now_tick
    end.

Definition begin_reconnection g (candidate_fence : CellFence) (now_tick : Z) : gate_result :=
  monotonic_tick g now_tick
    match g_state g with
    | LinkPartitioned frozen_fence _ _ =>
        if decide (f_identity candidate_fence <> f_identity frozen_fence
                   \/ f_node_boot_generation candidate_fence < f_node_boot_generation frozen_fence)
        then (g, Err (FenceMismatchDuringPartition candidate_fence frozen_fence)) else
        if decide (f_epoch candidate_fence <= f_epoch frozen_fence
                   \/ f_fencing_token candidate_fence <= f_fencing_token frozen_fence)
        then (g, Err (ReconnectingEpochNotAdvanced frozen_fence candidate_fence))
        else gate_moved (LinkReconnecting frozen_fence candidate_fence now_tick) now_tick
    | LinkReconnecting prior_frozen_fence existing_candidate started_tick =>
        if decide (existing_candidate = candidate_fence)
        then gate_moved (LinkReconnecting prior_frozen_fence existing_candidate started_tick) now_tick
        else (g, Err (InvalidStateTransition Reconnecting "begin_reconnection"))
    | current => (g, Err (InvalidStateTransition (phase current) "begin_reconnection"))
    end.

Definition complete_reconnection g (verified_fence : CellFence) (now_tick : Z) : gate_result :=
  monotonic_tick g now_tick
    match g_state g with
    | LinkReconnecting _ candidate_fence _ =>
        if negb (fence_is_monotonic_successor candidate_fence verified_fence)
        then (g, Err (FenceMismatchDuringPartition verified_fence candidate_fence))
        else gate_moved (LinkConnected verified_fence now_tick) now_tick
    | LinkConnected existing _ =>
        if decide (existing = verified_fence) then gate_moved (LinkConnected verified_fence now_tick) now_tick
        else (g, Err (InvalidStateTransition Connected "complete_reconnection"))
    | current => (g, Err (InvalidStateTransition (phase current) "complete_reconnection"))
    end.

Definition admit_local `{Sha256} g (now_tick : Z) (current_fence : CellFence) (proof : LocalAutonomyProof) :
    result PartitionViolation PartitionAutonomyReceipt :=
  if negb (capability_locally_verified proof) || capability_revoked proof
  then Err (CapabilityNotLocallyProvable (capability_locally_verified proof) (capability_revoked proof)) else
  if decide (now_tick > capability_valid_until_tick proof)
  then Err (CapabilityExpiredDuringPartition now_tick (capability_valid_until_tick proof)) else
  if decide (lease_epoch proof <> f_epoch current_fence)
  then Err (LeaseEpochMismatchDuringPartition (lease_epoch proof) (f_epoch current_fence)) else
  let spend :=
    if decide (requested_spend proof > lease_remaining proof)
    then Err (QuotaFrozenInsufficientRemaining (requested_spend proof) (lease_remaining proof))
    else Ok (receipt_new now_tick (g_state g) current_fence (requested_spend proof)
               (lease_remaining proof - requested_spend proof)) in
  match lease_expires_at_tick proof with
  | Some expires_at_tick =>
      if decide (now_tick >= expires_at_tick)
      then Err (QuotaLeaseExpiredDuringPartition now_tick expires_at_tick) else spend
  | None => spend
  end.

Definition admit_action `{Sha256} g (now_tick : Z) (current_fence : CellFence) (action : PartitionedActionKind) :
    result PartitionViolation PartitionAutonomyReceipt :=
  let expected_fence := authoritative_fence (g_state g) in
  if decide (current_fence <> expected_fence)
  then Err (FenceMismatchDuringPartition current_fence expected_fence) else
  match action with
  | LocalPureComputeOrAuthorizedSpend proof => admit_local g now_tick current_fence proof
  | _ =>
      if requires_local_autonomy_gate (g_state g)
      then Err (ControlPlaneRequiredDuringPartition (action_label action) (phase (g_state g)))
      else Ok (receipt_new now_tick (g_state g) current_fence 0 0)
  end.
End gate.

(** ** Clock samples *)

Definition REASON_CLOCK_SKEW_RTT_EXCEEDED : Z := 0xC101.
Definition REASON_LOCAL_MONOTONIC_REGRESSION : Z := 0xC102.

Definition div_ceil2 (x : Z) : Z := (x + 1) / 2.

Definition rtt_exceeds_max_clock_skew (measured_rtt_ms max_clock_skew_ms : Z) : bool :=
  bool_decide (div_ceil2 measured_rtt_ms > max_clock_skew_ms).

Inductive LinkClockViolation :=
  | ClockSkewRttExceeded (measured_rtt_ms max_clock_skew_ms : Z) (quarantined_state : ControlPlaneLinkState)
  | LocalMonotonicRegression (previous_tick regressed_tick : Z) (quarantined_state : ControlPlaneLinkState).

Definition observe_cross_host_clock_sample (g : PartitionAutonomyGate) (now_mono_tick : Z)
    (measured_rtt_ms_opt : option Z) (max_clock_skew_ms : Z) :
    PartitionAutonomyGate * result LinkClockViolation ControlPlaneLinkState :=
  let frozen_fence := authoritative_fence (g_state g) in
  if decide (now_mono_tick < last_observed_tick g) then
    let previous_tick := last_observed_tick g in
    let quarantined := LinkPartitioned frozen_fence previous_tick REASON_LOCAL_MONOTONIC_REGRESSION in
    ({| g_state := quarantined; last_observed_tick := previous_tick |},
     Err (LocalMonotonicRegression previous_tick now_mono_tick quarantined))
  else
  let settle :=
    let s := match g_state g with
             | LinkConnected verified_fence _ => LinkConnected verified_fence now_mono_tick
             | s => s
             end in
    ({| g_state := s; last_observed_tick := now_mono_tick |}, Ok s) in
  match measured_rtt_ms_opt with
  | Some rtt =>
      if rtt_exceeds_max_clock_skew rtt max_clock_skew_ms then
        let quarantined := LinkPartitioned frozen_fence now_mono_tick REASON_CLOCK_SKEW_RTT_EXCEEDED in
        ({| g_state := quarantined; last_observed_tick := now_mono_tick |},
         Err (ClockSkewRttExceeded rtt max_clock_skew_ms quarantined))
      else settle
  | None => settle
  end.

Inductive LinkClockHealthState :=
  | Healthy (max_clock_skew_ms last_mono_tick : Z) (last_rtt_ms : option Z)
  | ClockSkewQuarantined (measured_rtt_ms max_clock_skew_ms quarantined_at_tick : Z)
  | MonotonicRegressionQuarantined (previous_tick regressed_tick : Z).

Record CrossHostLinkClockGuard := {
  lg_gate : PartitionAutonomyGate;
  lg_health : LinkClockHealthState;
  lg_max_clock_skew_ms : Z;
}.

Definition guard_connected (verified_fence : CellFence) (initial_mono_tick max_clock_skew_ms : Z) :
    CrossHostLinkClockGuard := {|
  lg_gate := gate_connected verified_fence initial_mono_tick;
  lg_health := Healthy max_clock_skew_ms initial_mono_tick None;
  lg_max_clock_skew_ms := max_clock_skew_ms
|}.

Definition observe_sample (lg : CrossHostLinkClockGuard) (now_mono_tick : Z) (measured_rtt_ms_opt : option Z) :
    CrossHostLinkClockGuard * result LinkClockViolation LinkClockHealthState :=
  let skew := lg_max_clock_skew_ms lg in
  let '(g, r) := observe_cross_host_clock_sample (lg_gate lg) now_mono_tick measured_rtt_ms_opt skew in
  let guard health := {| lg_gate := g; lg_health := health; lg_max_clock_skew_ms := skew |} in
  match r with
  | Ok _ =>
      let health := match lg_health lg with
                    | Healthy _ _ last_rtt_ms =>
                        Healthy skew now_mono_tick
                          (match measured_rtt_ms_opt with Some rtt => Some rtt | None => last_rtt_ms end)
                    | health => health
                    end in
      (guard health, Ok health)
  | Err (ClockSkewRttExceeded rtt _ _ as err) => (guard (ClockSkewQuarantined rtt skew now_mono_tick), Err err)
  | Err (LocalMonotonicRegression previous_tick regressed_tick _ as err) =>
      (guard (MonotonicRegressionQuarantined previous_tick regressed_tick), Err err)
  end.

(** ** Every way the gate moves *)

Inductive gate_op :=
  | GContact (verified_fence : CellFence) (now_tick : Z)
  | GPartition (frozen_fence : CellFence) (now_tick reason_code : Z)
  | GBegin (candidate_fence : CellFence) (now_tick : Z)
  | GComplete (verified_fence : CellFence) (now_tick : Z)
  | GClock (now_mono_tick : Z) (measured_rtt_ms_opt : option Z) (max_clock_skew_ms : Z).

Definition gate_step (g : PartitionAutonomyGate) (o : gate_op) : PartitionAutonomyGate :=
  match o with
  | GContact fence tick => (record_control_plane_contact g fence tick).1
  | GPartition fence tick reason => (enter_partition g fence tick reason).1
  | GBegin fence tick => (begin_reconnection g fence tick).1
  | GComplete fence tick => (complete_reconnection g fence tick).1
  | GClock tick rtt skew => (observe_cross_host_clock_sample g tick rtt skew).1
  end.

Definition gate_run (g : PartitionAutonomyGate) (ops : list gate_op) : PartitionAutonomyGate :=
  foldl gate_step g ops.

(** A later fence of the same Cell: no axis moved back. *)
Record fence_le (a b : CellFence) : Prop := {
  fle_identity : f_identity a = f_identity b;
  fle_boot : f_node_boot_generation a <= f_node_boot_generation b;
  fle_epoch : f_epoch a <= f_epoch b;
  fle_token : f_fencing_token a <= f_fencing_token b;
}.

#[export] Instance fence_le_preorder : PreOrder fence_le.
Proof.
  split; [by intros a; split|]. intros a b c [Hi1 Hb1 He1 Ht1] [Hi2 Hb2 He2 Ht2]. split; [congruence|lia..].
Qed.

Section safety.
Implicit Types g : PartitionAutonomyGate.

Lemma fence_successor_le a b : fence_is_monotonic_successor a b = true <-> fence_le a b.
Proof.
  unfold fence_is_monotonic_successor. rewrite !andb_true_iff, !bool_decide_eq_true.
  split; [intros [[[? ?] ?] ?]; split; lia|intros []; split_and!; lia].
Qed.

(** What one move may do to the link: the link is cut or cut anew, it reconnects
    under a fence that is strictly newer, or it keeps its phase. *)
Record link_moves (s s' : ControlPlaneLinkState) : Prop := {
  lm_fence : fence_le (authoritative_fence s) (authoritative_fence s');
  lm_leave : phase s = Partitioned -> phase s' <> Partitioned ->
    phase s' = Reconnecting /\
    f_epoch (authoritative_fence s) < f_epoch (authoritative_fence s') /\
    f_fencing_token (authoritative_fence s) < f_fencing_token (authoritative_fence s');
}.

Lemma link_moves_refl s : link_moves s s.
Proof. split; [done|]. by intros. Qed.

Definition gate_moves g g' : Prop :=
  link_moves (g_state g) (g_state g') /\ last_observed_tick g <= last_observed_tick g'.

Lemma gate_moves_refl g : gate_moves g g.
Proof. split; [apply link_moves_refl|lia]. Qed.

Lemma monotonic_tick_moves g tick k :
  (last_observed_tick g <= tick -> gate_moves g k.1) -> gate_moves g (monotonic_tick g tick k).1.
Proof. intros Hk. unfold monotonic_tick. case_decide; [apply gate_moves_refl|apply Hk; lia]. Qed.

(** Moves that do not leave a partition. *)
Lemma moved_moves g s tick :
  last_observed_tick g <= tick -> fence_le (authoritative_fence (g_state g)) (authoritative_fence s) ->
  (phase (g_state g) = Partitioned -> phase s = Partitioned) -> gate_moves g (gate_moved s tick).1.
Proof. intros Ht Hf Hp. split; [|done]. split; [done|]. intros Hg Hs. by destruct (Hs (Hp Hg)). Qed.

Lemma contact_moves g fence tick : gate_moves g (record_control_plane_contact g fence tick).1.
Proof.
  apply monotonic_tick_moves. intros Ht. destruct (g_state g) as [v c|v c r|p v c] eqn:Hs; try apply gate_moves_refl.
  destruct (fence_is_monotonic_successor v fence) eqn:Hf; [|apply gate_moves_refl].
  apply fence_successor_le in Hf. apply moved_moves; by rewrite ?Hs.
Qed.

Lemma enter_moves g fence tick reason : gate_moves g (enter_partition g fence tick reason).1.
Proof.
  apply monotonic_tick_moves. intros Ht. destruct (g_state g) as [v c|v c r|p v c] eqn:Hs.
  2: { case_decide; [|apply gate_moves_refl]. by apply moved_moves; rewrite ?Hs. }
  all: destruct (fence_is_monotonic_successor v fence) eqn:Hf; [|apply gate_moves_refl];
    apply fence_successor_le in Hf; apply moved_moves; by rewrite ?Hs.
Qed.

Lemma begin_moves g fence tick : gate_moves g (begin_reconnection g fence tick).1.
Proof.
  apply monotonic_tick_moves. intros Ht. destruct (g_state g) as [v c|v c r|p v c] eqn:Hs; [apply gate_moves_refl| |].
  - case_decide; [apply gate_moves_refl|]. case_decide; [apply gate_moves_refl|].
    split; [|done]. rewrite Hs. split; [split; cbn; lia|]. intros _ _. cbn. split; [done|lia].
  - case_decide; [|apply gate_moves_refl]. by apply moved_moves; rewrite ?Hs.
Qed.

Lemma complete_moves g fence tick : gate_moves g (complete_reconnection g fence tick).1.
Proof.
  apply monotonic_tick_moves. intros Ht. destruct (g_state g) as [v c|v c r|p v c] eqn:Hs; [|apply gate_moves_refl|].
  - case_decide as Hf; [|apply gate_moves_refl]. apply moved_moves; rewrite ?Hs; cbn; [done|by subst|done].
  - destruct (fence_is_monotonic_successor v fence) eqn:Hf; [|apply gate_moves_refl].
    apply fence_successor_le in Hf. apply moved_moves; by rewrite ?Hs.
Qed.

Lemma clock_moves g tick rtt skew : gate_moves g (observe_cross_host_clock_sample g tick rtt skew).1.
Proof.
  assert (forall s t, last_observed_tick g <= t -> authoritative_fence s = authoritative_fence (g_state g) ->
    (phase s = Partitioned \/ phase s = phase (g_state g)) ->
    gate_moves g {| g_state := s; last_observed_tick := t |}) as Hkeep.
  { intros s t Ht Hf Hp. apply (moved_moves g s t Ht); [by rewrite Hf|]. intros Hg. destruct Hp; congruence. }
  unfold observe_cross_host_clock_sample. case_decide; [by apply Hkeep; [lia|..|left]|].
  destruct rtt as [rtt|]; [destruct (rtt_exceeds_max_clock_skew rtt skew); [by apply Hkeep; [lia|..|left]|]|];
    (apply Hkeep; [lia| |right]; by destruct (g_state g)).
Qed.

Lemma gate_step_moves g o : gate_moves g (gate_step g o).
Proof. destruct o; [apply contact_moves|apply enter_moves|apply begin_moves|apply complete_moves|apply clock_moves]. Qed.

Lemma gate_run_moves g ops :
  fence_le (authoritative_fence (g_state g)) (authoritative_fence (g_state (gate_run g ops))) /\
  last_observed_tick g <= last_observed_tick (gate_run g ops).
Proof.
  revert g. induction ops as [|o ops IH]; intros g; [done|]. cbn.
  destruct (gate_step_moves g o) as [[Hf _] Ht]. destruct (IH (gate_step g o)) as [Hf' Ht'].
  split; [by etrans|]. unfold gate_run in *. lia.
Qed.

(** Once cut, the link is only whole again under a newer epoch and a newer token. *)
Lemma partition_exit g ops :
  phase (g_state g) = Partitioned -> phase (g_state (gate_run g ops)) <> Partitioned ->
  f_epoch (authoritative_fence (g_state g)) < f_epoch (authoritative_fence (g_state (gate_run g ops))) /\
  f_fencing_token (authoritative_fence (g_state g))
    < f_fencing_token (authoritative_fence (g_state (gate_run g ops))).
Proof.
  revert g. induction ops as [|o ops IH]; intros g Hg Hout; [done|]. cbn [gate_run foldl] in *.
  change (foldl gate_step (gate_step g o) ops) with (gate_run (gate_step g o) ops) in *.
  destruct (gate_step_moves g o) as [[[_ _ He Ht] Hl] _].
  destruct (decide (phase (g_state (gate_step g o)) = Partitioned)) as [Hp|Hp].
  - destruct (IH _ Hp Hout). lia.
  - destruct (Hl Hg Hp) as (_ & He' & Ht'). destruct (gate_run_moves (gate_step g o) ops) as [[] _]. lia.
Qed.

(** An admission reads as its guards. *)
Lemma admit_local_inv `{Sha256} g tick fence proof receipt :
  admit_local g tick fence proof = Ok receipt ->
  capability_locally_verified proof = true /\ capability_revoked proof = false /\
  tick <= capability_valid_until_tick proof /\ lease_epoch proof = f_epoch fence /\
  (forall e, lease_expires_at_tick proof = Some e -> tick < e) /\
  requested_spend proof <= lease_remaining proof /\
  receipt = receipt_new tick (g_state g) fence (requested_spend proof)
              (lease_remaining proof - requested_spend proof).
Proof.
  unfold admit_local. destruct (capability_locally_verified proof), (capability_revoked proof); try done.
  cbn [negb orb]. case_decide; [done|]. case_decide as He; [done|]. cbv zeta.
  destruct (lease_expires_at_tick proof) as [e|]; [case_decide; [done|]|];
    (case_decide; [done|]; intros [= <-]; split_and!; try done; try lia; intros ? [= <-]; lia).
Qed.

(** Autonomy under partition is confined and does not outlive it.  While the
    link is cut, what the gate admits is local work only, under the frozen fence,
    with a proof verified, unrevoked and unexpired whose lease is of the frozen epoch
    and covers the spend exactly as the receipt books it.  The fence and the clock of
    the gate never move back, and once any sequence of operations has taken the link
    out of partition the frozen fence is refused for every action, and no proof on
    that lease's epoch is accepted under any fence. *)
Theorem partition_autonomy_confined `{Sha256} g tick action receipt ops :
  phase (g_state g) = Partitioned ->
  admit_action g tick (authoritative_fence (g_state g)) action = Ok receipt ->
  (exists proof, action = LocalPureComputeOrAuthorizedSpend proof /\
     capability_locally_verified proof = true /\ capability_revoked proof = false /\
     tick <= capability_valid_until_tick proof /\
     lease_epoch proof = f_epoch (authoritative_fence (g_state g)) /\
     (forall e, lease_expires_at_tick proof = Some e -> tick < e) /\
     authorized_spend receipt = requested_spend proof /\
     authorized_spend receipt <= lease_remaining proof /\
     authorized_spend receipt + remaining_after_spend receipt = lease_remaining proof /\
     receipt_verify_digest receipt = true) /\
  let g' := gate_run g ops in
  fence_le (authoritative_fence (g_state g)) (authoritative_fence (g_state g')) /\
  last_observed_tick g <= last_observed_tick g' /\
  (phase (g_state g') <> Partitioned ->
   (forall tick' action', exists e, admit_action g' tick' (authoritative_fence (g_state g)) action' =
      Err (FenceMismatchDuringPartition (authoritative_fence (g_state g)) e)) /\
   (forall tick' fence' proof' receipt',
      lease_epoch proof' = f_epoch (authoritative_fence (g_state g)) ->
      admit_action g' tick' fence' (LocalPureComputeOrAuthorizedSpend proof') <> Ok receipt')).
Proof.
  intros Hp Hadmit. split; [|cbv zeta; destruct (gate_run_moves g ops) as [Hf Ht]; split_and!; [done..|]].
  - unfold admit_action in Hadmit. rewrite decide_False in Hadmit by tauto.
    assert (requires_local_autonomy_gate (g_state g) = true) as Hreq by (by destruct (g_state g)).
    rewrite Hreq in Hadmit. destruct action as [proof| | |]; try done.
    apply admit_local_inv in Hadmit as (Hv & Hr & Hc & He & Hx & Hs & ->).
    exists proof. split_and!; try done; cbn; [lia|]. by apply bool_decide_eq_true.
  - intros Hout. destruct (partition_exit g ops Hp Hout) as [He _]. split.
    + intros tick' action'. eexists. unfold admit_action. rewrite decide_True; [done|].
      intros Heq. rewrite Heq in He. lia.
    + intros tick' fence' proof' receipt' Hl. unfold admit_action. case_decide as Hfe; [done|].
      intros (_ & _ & _ & Hle & _)%admit_local_inv. subst fence'. lia.
Qed.

Lemma partition_autonomy_confined_witness :
  let fence e := {| f_identity := 7; f_node_boot_generation := 1; f_epoch := e; f_fencing_token := e |} in
  let proof := {| capability_valid_until_tick := 50; capability_revoked := false;
                  capability_locally_verified := true; lease_epoch := 3; lease_expires_at_tick := Some 40;
                  lease_remaining := 10; requested_spend := 4 |} in
  let g := gate_run (gate_connected (fence 3) 10) [GClock 20 (Some 101) 50] in
  let g' := gate_run g [GBegin (fence 4) 30; GComplete (fence 4) 31] in
  phase (g_state g) = Partitioned /\ phase (g_state g') = Connected /\
  forall receipt, admit_action (H := checksum_hasher) g' 32 (fence 4) (LocalPureComputeOrAuthorizedSpend proof)
                  <> Ok receipt.
Proof.
  intros fence proof g g'. split; [reflexivity|]. split; [reflexivity|]. intros receipt.
  apply (partition_autonomy_confined (H := checksum_hasher) g 25 (LocalPureComputeOrAuthorizedSpend proof)
           (receipt_new (H := checksum_hasher) 25 (g_state g) (fence 3) 4 6)
           [GBegin (fence 4) 30; GComplete (fence 4) 31]); [reflexivity|reflexivity|discriminate|reflexivity].
Defined.

(** ** The clock guard *)

Lemma div_ceil2_le x m : div_ceil2 x > m <-> 2 * m < x.
Proof. unfold div_ceil2. pose proof (Z.div_mod (x + 1) 2). pose proof (Z.mod_pos_bound (x + 1) 2). lia. Qed.

(** A sample is refused exactly when the clock ran back or the round trip is more
    than twice the allowed skew; the link is then cut, under the fence it had. *)
Lemma clock_sample_exact g tick rtt skew g' r :
  observe_cross_host_clock_sample g tick rtt skew = (g', r) ->
  authoritative_fence (g_state g') = authoritative_fence (g_state g) /\
  if bool_decide (tick < last_observed_tick g) || from_option (fun x => bool_decide (2 * skew < x)) false rtt
  then phase (g_state g') = Partitioned /\ exists v, r = Err v
  else phase (g_state g') = phase (g_state g) /\ r = Ok (g_state g').
Proof.
  unfold observe_cross_host_clock_sample. case_decide as Ht.
  { intros [= <- <-]. rewrite bool_decide_eq_true_2 by done. cbn. eauto. }
  rewrite bool_decide_eq_false_2 by done. destruct rtt as [x|]; cbn [from_option orb].
  - unfold rtt_exceeds_max_clock_skew. rewrite (bool_decide_ext _ _ (div_ceil2_le x skew)).
    case_bool_decide; intros [= <- <-]; [by eauto|by destruct (g_state g)].
  - intros [= <- <-]. by destruct (g_state g).
Qed.

(** The guard's verdict follows the gate: a refusal is a quarantine, and a quarantine
    is never lifted by later samples. *)
Lemma observe_sample_quarantine lg tick rtt lg' r :
  observe_sample lg tick rtt = (lg', r) ->
  match r with
  | Err _ => phase (g_state (lg_gate lg')) = Partitioned /\ (forall m t x, lg_health lg' <> Healthy m t x)
  | Ok health => health = lg_health lg' /\
      ((exists m t x, lg_health lg = Healthy m t x) <-> exists m t x, health = Healthy m t x)
  end.
Proof.
  unfold observe_sample. destruct (observe_cross_host_clock_sample _ _ _ _) as [g r'] eqn:Hg.
  apply clock_sample_exact in Hg as [_ Hg]. destruct (_ || _); destruct Hg as [Hp Hr].
  - destruct Hr as [[] ->]; intros [= <- <-]; by split.
  - subst r'. intros [= <- <-]. split; [done|]. destruct (lg_health lg); naive_solver.
Qed.
End safety.
