(* ===== verification/RemoteCall.v ===== *)
(** * RemoteCall: outcomes of calls to other Cells and what may be retried

    Models the remote-call contract of nlos-cell/src/partition.rs and
    nlos-net/src/failure.rs: how a transport failure is classified, when a retry is
    allowed, the reconciliation tracker and the aggregation of a fan-out. *)

From S2P Require Import Prelude Bytes Cell.

(** ** Contracts and outcomes *)

Inductive RemoteRetryDirective :=
  | SafeToRetryWithSameKey
  | ReconcileBeforeRetry
  | RetryFailedShardsOnly
  | DoNotRetryBudgetExhausted.

Inductive RemoteRetryRefusal :=
  | AlreadySucceeded
  | UncertainSideEffectRequiresReconciliation (idempotency_key : Z)
  | RetryBudgetExhausted (attempt_number max_retries : Z).

Record RemoteCallContract := {
  call_id : Z;
  idempotency_key : Z;
  deadline_tick : Z;
  max_retries : Z;
  attempt_number : Z;
  side_effecting : bool;
}.

Inductive RemoteCallOutcome (T : Type) :=
  | Succeeded (value : T) (observed_epoch : Z) (idempotency_replayed : bool)
  | Unavailable (deadline_tick : Z) (retry_directive : RemoteRetryDirective) (idempotency_key : Z)
  | DeadlineExceededUncertain (deadline_tick elapsed_ticks : Z) (side_effecting : bool)
      (retry_directive : RemoteRetryDirective) (idempotency_key : Z)
  | Partial (completed_shards failed_shards : Z) (partial_value : option T) (uncertainty_digest : Z)
      (retry_directive : RemoteRetryDirective).
Arguments Succeeded {T}. Arguments Unavailable {T}.
Arguments DeadlineExceededUncertain {T}. Arguments Partial {T}.

Definition REMOTE_CALL_PARTIAL_UNCERTAINTY_DOMAIN : bytes :=
  bytes_of_string "llmos/remote-call-partial-uncertainty/v1".

Section outcome.
Context {T : Type}.
Implicit Types o : RemoteCallOutcome T.

Definition is_succeeded o : bool := match o with Succeeded _ _ _ => true | _ => false end.

Definition is_uncertain o : bool :=
  match o with
  | DeadlineExceededUncertain _ _ _ _ _ | Partial _ _ _ _ _ => true
  | _ => false
  end.

Definition retry_directive_of o : option RemoteRetryDirective :=
  match o with
  | Succeeded _ _ _ => None
  | Unavailable _ d _ | DeadlineExceededUncertain _ _ _ d _ | Partial _ _ _ _ d => Some d
  end.

Definition outcome_requires_reconciliation o : bool :=
  match retry_directive_of o with Some ReconcileBeforeRetry => true | _ => false end.
End outcome.

Section contract.
Context {T : Type}.
Implicit Types c : RemoteCallContract.

Definition has_retry_budget_remaining c : bool := bool_decide (attempt_number c < max_retries c).

Definition classify_succeeded c (value : T) (observed_epoch : Z) (idempotency_replayed : bool) :
    RemoteCallOutcome T := Succeeded value observed_epoch idempotency_replayed.

Definition classify_pre_dispatch_unavailable c : RemoteCallOutcome T :=
  let d := if has_retry_budget_remaining c then SafeToRetryWithSameKey else DoNotRetryBudgetExhausted in
  Unavailable (deadline_tick c) d (idempotency_key c).

Definition classify_inflight_timeout c (elapsed_ticks : Z) : RemoteCallOutcome T :=
  let d := if side_effecting c then ReconcileBeforeRetry
           else if has_retry_budget_remaining c then SafeToRetryWithSameKey
           else DoNotRetryBudgetExhausted in
  DeadlineExceededUncertain (deadline_tick c) elapsed_ticks (side_effecting c) d (idempotency_key c).

Definition classify_partial `{Sha256} c (completed_shards failed_shards : Z) (partial_value : option T)
    (shards_idempotent : bool) (shard_evidence : bytes) : RemoteCallOutcome T :=
  let digest := sha256 (REMOTE_CALL_PARTIAL_UNCERTAINTY_DOMAIN ++ be_bytes 16 (call_id c)
                        ++ be_bytes 16 (idempotency_key c) ++ be_bytes 4 completed_shards
                        ++ be_bytes 4 failed_shards ++ shard_evidence) in
  let d := if side_effecting c && negb shards_idempotent then ReconcileBeforeRetry
           else if has_retry_budget_remaining c then RetryFailedShardsOnly
           else DoNotRetryBudgetExhausted in
  Partial completed_shards failed_shards partial_value digest d.

Definition next_retry_for_outcome c (prior : RemoteCallOutcome T) (next_deadline_tick : Z) :
    result RemoteRetryRefusal RemoteCallContract :=
  match retry_directive_of prior with
  | None => Err AlreadySucceeded
  | Some ReconcileBeforeRetry => Err (UncertainSideEffectRequiresReconciliation (idempotency_key c))
  | Some DoNotRetryBudgetExhausted => Err (RetryBudgetExhausted (attempt_number c) (max_retries c))
  | Some (SafeToRetryWithSameKey | RetryFailedShardsOnly) =>
      if negb (has_retry_budget_remaining c)
      then Err (RetryBudgetExhausted (attempt_number c) (max_retries c))
      else Ok {| call_id := call_id c; idempotency_key := idempotency_key c;
                 deadline_tick := next_deadline_tick; max_retries := max_retries c;
                 attempt_number := attempt_number c + 1; side_effecting := side_effecting c |}
  end.
End contract.

(** ** Transport failures *)

Inductive WriteProgressPhase := BeforeFirstPayloadByte | AfterFirstPayloadByte.

#[export] Instance write_phase_eq_dec : EqDecision WriteProgressPhase.
Proof. solve_decision. Defined.

(** The kinds of [std::io::ErrorKind] the sources name. *)
Inductive ErrorKind :=
  | IoConnectionReset | IoConnectionAborted | IoBrokenPipe | IoUnexpectedEof | IoTimedOut
  | IoConnectionRefused | IoNetworkUnreachable | IoHostUnreachable | IoAddrNotAvailable
  | IoInvalidInput | IoInvalidData
  | IoOther (kind : Z).

Inductive SocketFailureKind :=
  | SingleHostProfileDisabled
  | EndpointUnresolved
  | ConnectRefusedOrUnreachable
  | ConnectTimeout
  | TlsHandshakeRejected
  | PeerFenceHandshakeRejected
  | WriteTimeout
  | ReadTimeout
  | ConnectionReset
  | UnexpectedEofOrTlsTruncation
  | TransportIoOther (kind : ErrorKind).

Definition from_stream_io_error (kind : ErrorKind) : SocketFailureKind :=
  match kind with
  | IoConnectionReset | IoConnectionAborted | IoBrokenPipe => ConnectionReset
  | IoUnexpectedEof => UnexpectedEofOrTlsTruncation
  | IoTimedOut => ReadTimeout
  | IoConnectionRefused | IoNetworkUnreachable | IoHostUnreachable | IoAddrNotAvailable =>
      ConnectRefusedOrUnreachable
  | other => TransportIoOther other
  end.

Definition classify_transport_failure {T} (c : RemoteCallContract) (p : WriteProgressPhase)
    (kind : SocketFailureKind) (elapsed_ticks : Z) : RemoteCallOutcome T :=
  match p with
  | BeforeFirstPayloadByte => classify_pre_dispatch_unavailable c
  | AfterFirstPayloadByte => classify_inflight_timeout c elapsed_ticks
  end.

(** The tracker's map, under its mutex. *)
Definition PendingReconciliationTracker : Type := gmap Z SocketFailureKind.

Definition check_before_dispatch (t : PendingReconciliationTracker) (key : Z) : result RemoteRetryRefusal () :=
  if decide (is_Some (t !! key)) then Err (UncertainSideEffectRequiresReconciliation key) else Ok ().

Definition record_uncertain_side_effect (t : PendingReconciliationTracker) (key : Z)
    (failure_kind : SocketFailureKind) : PendingReconciliationTracker := <[key := failure_kind]> t.

Definition mark_reconciled (t : PendingReconciliationTracker) (key : Z) :
    PendingReconciliationTracker * bool := (delete key t, bool_decide (is_Some (t !! key))).

Definition requires_reconciliation (t : PendingReconciliationTracker) (key : Z) : bool :=
  bool_decide (is_Some (t !! key)).

(** ** Fan-out *)

Section fanout.
Context {T : Type}.

Record Fanout := {
  completed : list (Z * T);
  unavailable_count : Z;
  uncertain_count : Z;
  max_observed_epoch : Z;
  any_replayed : bool;
  evidence : bytes;
}.

Definition fanout_start : Fanout := {|
  completed := []; unavailable_count := 0; uncertain_count := 0;
  max_observed_epoch := INITIAL; any_replayed := false; evidence := []
|}.

Definition fan_shard (f : Fanout) (shard : Z * RemoteCallOutcome T) : Fanout :=
  let '(cell, o) := shard in
  let ev tail := evidence f ++ be_bytes 16 cell ++ tail in
  match o with
  | Succeeded value epoch replayed => {|
      completed := completed f ++ [(cell, value)];
      unavailable_count := unavailable_count f; uncertain_count := uncertain_count f;
      max_observed_epoch := if decide (epoch > max_observed_epoch f) then epoch else max_observed_epoch f;
      any_replayed := any_replayed f || replayed;
      evidence := ev (0x01 :: drop 4 (be_bytes 8 epoch)) |}
  | Unavailable _ _ _ => {|
      completed := completed f; unavailable_count := saturating_add32 (unavailable_count f) 1;
      uncertain_count := uncertain_count f; max_observed_epoch := max_observed_epoch f;
      any_replayed := any_replayed f; evidence := ev (0x02 :: be_bytes 4 0) |}
  | DeadlineExceededUncertain _ _ side_effecting _ _ => {|
      completed := completed f; unavailable_count := unavailable_count f;
      uncertain_count := saturating_add32 (uncertain_count f) 1; max_observed_epoch := max_observed_epoch f;
      any_replayed := any_replayed f;
      evidence := ev ((if side_effecting then 0x03 else 0x04) :: be_bytes 4 0) |}
  | Partial _ _ _ digest _ => {|
      completed := completed f; unavailable_count := unavailable_count f;
      uncertain_count := saturating_add32 (uncertain_count f) 1; max_observed_epoch := max_observed_epoch f;
      any_replayed := any_replayed f; evidence := ev (0x05 :: take 4 (be_bytes 32 digest)) |}
  end.

Definition shard_le (a b : Z * RemoteCallOutcome T) : Prop := a.1 <= b.1.

#[global] Instance shard_le_dec a b : Decision (shard_le a b).
Proof. unfold shard_le. apply _. Defined.

(** The stable sort by Cell. *)
Definition sort_shards (shards : list (Z * RemoteCallOutcome T)) : list (Z * RemoteCallOutcome T) :=
  merge_sort shard_le shards.

Definition aggregate_fanout_outcomes `{Sha256} (c : RemoteCallContract)
    (shards : list (Z * RemoteCallOutcome T)) (shards_idempotent : bool) :
    RemoteCallOutcome (list (Z * T)) :=
  let f := foldl fan_shard fanout_start (sort_shards shards) in
  let completed_shards := Z.min (Z.of_nat (length (completed f))) u32_max in
  let failed_shards := saturating_add32 (unavailable_count f) (uncertain_count f) in
  if decide (failed_shards = 0) then classify_succeeded c (completed f) (max_observed_epoch f) (any_replayed f) else
  if decide (completed_shards = 0 /\ uncertain_count f = 0) then classify_pre_dispatch_unavailable c else
  let effective := shards_idempotent && negb (side_effecting c && bool_decide (uncertain_count f > 0)) in
  classify_partial c completed_shards failed_shards
    (match completed f with [] => None | l => Some l end) effective (evidence f).
End fanout.
Arguments Fanout : clear implicits.

(** ** Retries *)

(** One failed attempt: how far it got, how it failed, the ticks it took, and the
    deadline asked for next. *)
Record FailedAttempt := {
  fa_phase : WriteProgressPhase; fa_kind : SocketFailureKind; fa_elapsed : Z; fa_next_deadline : Z;
}.

(** Classify each failure and retry on it. *)
Fixpoint retry_chain (c : RemoteCallContract) (failures : list FailedAttempt) :
    result RemoteRetryRefusal RemoteCallContract :=
  match failures with
  | [] => Ok c
  | a :: rest =>
      match next_retry_for_outcome c
              (classify_transport_failure (T := ()) c (fa_phase a) (fa_kind a) (fa_elapsed a))
              (fa_next_deadline a) with
      | Ok c => retry_chain c rest
      | Err e => Err e
      end
  end.

Section retries.
Implicit Types c : RemoteCallContract.

(** One retry: allowed exactly with budget left and no side effect in doubt. *)
Lemma retry_exact c a :
  next_retry_for_outcome c (classify_transport_failure (T := ()) c (fa_phase a) (fa_kind a) (fa_elapsed a))
    (fa_next_deadline a) =
  if decide (side_effecting c = true /\ fa_phase a = AfterFirstPayloadByte)
  then Err (UncertainSideEffectRequiresReconciliation (idempotency_key c)) else
  if decide (attempt_number c < max_retries c)
  then Ok {| call_id := call_id c; idempotency_key := idempotency_key c; deadline_tick := fa_next_deadline a;
             max_retries := max_retries c; attempt_number := attempt_number c + 1;
             side_effecting := side_effecting c |}
  else Err (RetryBudgetExhausted (attempt_number c) (max_retries c)).
Proof.
  unfold next_retry_for_outcome, classify_transport_failure, classify_pre_dispatch_unavailable,
    classify_inflight_timeout, has_retry_budget_remaining.
  destruct (fa_phase a), (side_effecting c); cbn [retry_directive_of];
    rewrite ?bool_decide_decide; repeat case_decide; naive_solver.
Qed.

Definition retried c (n : nat) c' : Prop :=
  call_id c' = call_id c /\ idempotency_key c' = idempotency_key c /\ max_retries c' = max_retries c /\
  side_effecting c' = side_effecting c /\ attempt_number c' = attempt_number c + Z.of_nat n.

(** No blind retry.  A chain of transport failures leads to another attempt
    exactly when the retry budget covers every retry in it and, for a side-effecting
    call, every failed attempt had handed no byte of its request to the transport; so
    at most the last attempt of a side-effecting call can have run remotely.  Each
    retry keeps the call, its idempotency key and its contract, and counts one up. *)
Theorem no_blind_retry c failures c' :
  retry_chain c failures = Ok c' ->
  retried c (length failures) c' /\
  (failures <> [] -> attempt_number c' <= max_retries c) /\
  (side_effecting c = true -> Forall (fun a => fa_phase a = BeforeFirstPayloadByte) failures).
Proof.
  revert c. induction failures as [|a failures IH]; intros c; cbn [retry_chain length].
  { intros [= <-]. split; [unfold retried; split_and!; lia || done|]. by split. }
  rewrite retry_exact. case_decide as Hb; [done|]. case_decide as Hlt; [|done].
  intros ((Hc & Hk & Hm & Hs & Hn) & Hle & Hall)%IH. cbn in *. split_and!.
  - unfold retried. split_and!; try done. lia.
  - intros _. destruct failures; [cbn in *; lia|by apply Hle].
  - intros Hse. constructor; [|by apply Hall]. destruct (fa_phase a); [done|tauto].
Qed.

Lemma no_blind_retry_witness :
  let c := {| call_id := 1; idempotency_key := 2; deadline_tick := 10; max_retries := 2;
              attempt_number := 0; side_effecting := true |} in
  let refused t := {| fa_phase := BeforeFirstPayloadByte; fa_kind := ConnectRefusedOrUnreachable;
                      fa_elapsed := 1; fa_next_deadline := t |} in
  let c' := {| call_id := 1; idempotency_key := 2; deadline_tick := 30; max_retries := 2;
               attempt_number := 2; side_effecting := true |} in
  retry_chain c [refused 20; refused 30] = Ok c' /\ retried c 2 c'.
Proof.
  intros c refused c'. split; [reflexivity|]. apply (no_blind_retry c [refused 20; refused 30] c'). reflexivity.
Defined.

(** The other direction: nothing else stops a retry. *)
Lemma retry_chain_goes_on c failures :
  attempt_number c + Z.of_nat (length failures) <= max_retries c ->
  (side_effecting c = true -> Forall (fun a => fa_phase a = BeforeFirstPayloadByte) failures) ->
  exists c', retry_chain c failures = Ok c'.
Proof.
  revert c. induction failures as [|a failures IH]; intros c Hn Hall; cbn [retry_chain]; [by eauto|].
  rewrite retry_exact. rewrite decide_False, decide_True.
  - apply IH; cbn in *; [lia|]. intros Hse. by apply Hall, Forall_cons in Hse as [_ ?].
  - cbn in Hn. lia.
  - intros [Hse Hp]. apply Hall, Forall_cons in Hse as [Hb _]. congruence.
Qed.

(** A key on record is refused until it is reconciled. *)
Lemma tracker_blocks t key kind key' :
  check_before_dispatch (record_uncertain_side_effect t key kind) key
    = Err (UncertainSideEffectRequiresReconciliation key) /\
  check_before_dispatch (mark_reconciled t key).1 key = Ok () /\
  (key' <> key -> check_before_dispatch (record_uncertain_side_effect t key kind) key' = check_before_dispatch t key').
Proof.
  unfold check_before_dispatch, record_uncertain_side_effect, mark_reconciled, PendingReconciliationTracker in *.
  split_and!.
  - rewrite decide_True; [done|]. rewrite lookup_insert_eq. by eexists.
  - rewrite decide_False; [done|]. cbn [fst]. rewrite lookup_delete_eq. by intros [].
  - intros Hne. by rewrite lookup_insert_ne.
Qed.
End retries.

(** ** Aggregation *)

Section aggregation.
Context {T : Type}.
Implicit Types (shards : list (Z * RemoteCallOutcome T)).

(** The results that came back. *)
Definition succeeded_shards shards : list (Z * T) :=
  omap (fun s => match s.2 with Succeeded v _ _ => Some (s.1, v) | _ => None end) shards.

Definition uncertain_shards shards : list (Z * RemoteCallOutcome T) :=
  filter (fun s => is_uncertain s.2 = true) shards.

Definition unreached_shards shards : list (Z * RemoteCallOutcome T) :=
  filter (fun s => is_succeeded s.2 = false /\ is_uncertain s.2 = false) shards.

Lemma fan_fold shards f :
  0 <= unavailable_count f <= u32_max -> 0 <= uncertain_count f <= u32_max ->
  let f' := foldl fan_shard f shards in
  completed f' = completed f ++ succeeded_shards shards /\
  unavailable_count f' = Z.min (unavailable_count f + Z.of_nat (length (unreached_shards shards))) u32_max /\
  uncertain_count f' = Z.min (uncertain_count f + Z.of_nat (length (uncertain_shards shards))) u32_max.
Proof.
  revert f. induction shards as [|[cell o] shards IH]; intros f Hu Hc; cbv zeta.
  { cbn. rewrite app_nil_r. split_and!; lia || done. }
  cbn [foldl]. unfold unreached_shards, uncertain_shards. rewrite !filter_cons. cbn [snd].
  fold (unreached_shards shards) (uncertain_shards shards).
  destruct (IH (fan_shard f (cell, o))) as (Hf1 & Hf2 & Hf3);
    [destruct o; cbn; unfold saturating_add32; lia..|].
  rewrite Hf1, Hf2, Hf3. clear Hf1 Hf2 Hf3 IH.
  destruct o; cbn [fan_shard completed unavailable_count uncertain_count is_succeeded is_uncertain];
    repeat case_decide; try naive_solver; unfold saturating_add32; rewrite <- ?app_assoc; cbn [length];
    split_and!; lia || done.
Qed.

#[local] Instance shard_le_total : Total (shard_le (T := T)).
Proof. intros a b. unfold shard_le. lia. Qed.
#[local] Instance shard_le_trans : Transitive (shard_le (T := T)).
Proof. intros a b c. unfold shard_le. lia. Qed.

Lemma sort_shards_perm shards : sort_shards shards ≡ₚ shards.
Proof. apply merge_sort_Permutation. Qed.

(** With one outcome per Cell the order of arrival is gone. *)
Lemma sort_shards_canonical shards shards' :
  NoDup shards.*1 -> shards ≡ₚ shards' -> sort_shards shards' = sort_shards shards.
Proof.
  intros Hnd Hp. apply (StronglySorted_unique_strong shard_le).
  - intros a b. unfold sort_shards. rewrite !merge_sort_Permutation, <- Hp. intros Ha Hb Hab Hba.
    apply (NoDup_fmap_eq fst shards); try done. unfold shard_le in *. lia.
  - apply (StronglySorted_merge_sort _).
  - apply (StronglySorted_merge_sort _).
  - unfold sort_shards. by rewrite !merge_sort_Permutation, Hp.
Qed.

(** The fold over the sorted shards, in terms of the shards as given. *)
Lemma fan_summary shards :
  let f := foldl fan_shard fanout_start (sort_shards shards) in
  completed f ≡ₚ succeeded_shards shards /\
  unavailable_count f = Z.min (Z.of_nat (length (unreached_shards shards))) u32_max /\
  uncertain_count f = Z.min (Z.of_nat (length (uncertain_shards shards))) u32_max.
Proof.
  destruct (fan_fold (sort_shards shards) fanout_start) as (H1 & H2 & H3); [cbn; unfold u32_max; lia..|].
  cbv zeta. rewrite H1, H2, H3. cbn [fanout_start completed unavailable_count uncertain_count app].
  unfold succeeded_shards, unreached_shards, uncertain_shards. rewrite !Z.add_0_l, sort_shards_perm. done.
Qed.

Lemma all_succeeded shards :
  unreached_shards shards = [] /\ uncertain_shards shards = [] <->
  Forall (fun s => is_succeeded s.2 = true) shards.
Proof.
  unfold unreached_shards, uncertain_shards. induction shards as [|[cell o] shards IH]; [done|].
  rewrite !filter_cons, Forall_cons, <- IH. cbn [snd].
  destruct o; cbn [is_succeeded is_uncertain]; repeat case_decide; naive_solver.
Qed.

Lemma length_zero {A} (l : list A) : Z.min (Z.of_nat (length l)) u32_max = 0 <-> l = [].
Proof. destruct l; cbn; [done|]. unfold u32_max. split; [lia|done]. Qed.

Lemma aggregate_cases `{Sha256} c shards idem :
  let o := aggregate_fanout_outcomes c shards idem in
  (unreached_shards shards = [] /\ uncertain_shards shards = [] /\
     exists v e r, o = Succeeded v e r /\ v ≡ₚ succeeded_shards shards) \/
  (unreached_shards shards <> [] /\ uncertain_shards shards = [] /\ succeeded_shards shards = [] /\
     o = classify_pre_dispatch_unavailable c) \/
  (~ (unreached_shards shards = [] /\ uncertain_shards shards = []) /\
     exists n m v e eff, o = classify_partial c n m v eff e /\ default [] v ≡ₚ succeeded_shards shards /\
       (side_effecting c = true -> uncertain_shards shards <> [] -> eff = false)).
Proof.
  cbv zeta. unfold aggregate_fanout_outcomes. destruct (fan_summary shards) as (Hc & Hu & Hn).
  set (f := foldl fan_shard fanout_start (sort_shards shards)) in *. clearbody f.
  pose proof (length_zero (unreached_shards shards)) as Hu0. pose proof (length_zero (uncertain_shards shards)) as Hn0.
  rewrite <- Hu in Hu0. rewrite <- Hn in Hn0. unfold saturating_add32. case_decide as Hf.
  - left. unfold u32_max in *. split_and!; [apply Hu0; lia|apply Hn0; lia|]. unfold classify_succeeded. eauto 10.
  - right. case_decide as Hz.
    + left. destruct Hz as [Hz1 Hz2]. pose proof (proj1 (length_zero (completed f)) Hz1) as Hnil.
      rewrite Hnil in Hc. apply Permutation_nil_l in Hc. split_and!; [|by apply Hn0|done|done].
      intros Hun%Hu0. rewrite Hun, Hz2 in Hf. done.
    + right. split; [intros [Ha%Hu0 Hb%Hn0]; rewrite Ha, Hb in Hf; done|].
      do 5 eexists. split; [reflexivity|]. split; [by destruct (completed f)|].
      intros -> Hne. rewrite (bool_decide_eq_true_2 (uncertain_count f > 0)); [by rewrite andb_false_r|].
      assert (uncertain_count f <> 0) by tauto. unfold u32_max in *. lia.
Qed.
End aggregation.

(** A fan-out reports no more than its shards do.  It succeeds exactly when every
    shard did; the values it returns, whole or partial, are those of the shards that
    succeeded; it is reported as never dispatched only when no shard succeeded and none
    is in doubt; when a side-effecting call has a shard in doubt no retry is allowed
    before reconciliation, whatever is claimed of the shards; and with one outcome for
    each Cell the answer does not depend on the order in which the outcomes came in. *)
Theorem fanout_is_honest `{Sha256} {T} c (shards : list (Z * RemoteCallOutcome T)) idem :
  let o := aggregate_fanout_outcomes c shards idem in
  (is_succeeded o = true <-> Forall (fun s => is_succeeded s.2 = true) shards) /\
  match o with
  | Succeeded v _ _ => v ≡ₚ succeeded_shards shards
  | Partial _ _ v _ _ => default [] v ≡ₚ succeeded_shards shards
  | _ => succeeded_shards shards = [] /\ uncertain_shards shards = []
  end /\
  (side_effecting c = true -> uncertain_shards shards <> [] -> forall tick,
     next_retry_for_outcome c o tick = Err (UncertainSideEffectRequiresReconciliation (idempotency_key c))) /\
  (NoDup shards.*1 -> forall shards', shards ≡ₚ shards' -> aggregate_fanout_outcomes c shards' idem = o).
Proof.
  cbv zeta. rewrite <- all_succeeded.
  assert (NoDup shards.*1 -> forall shards', shards ≡ₚ shards' ->
    aggregate_fanout_outcomes c shards' idem = aggregate_fanout_outcomes c shards idem) as Horder.
  { intros Hnd shards' Hp. unfold aggregate_fanout_outcomes. by rewrite (sort_shards_canonical shards shards'). }
  destruct (aggregate_cases c shards idem) as
    [(Hu & Hn & v & e & r & Ho & Hv)|[(Hu & Hn & Hs & Ho)|(Hne & n & m & v & e & eff & Ho & Hv & Heff)]];
    rewrite Ho in *; clear Ho.
  - split_and!; [by cbn|done|intros _ Hne; by destruct (Hne Hn)|done].
  - split_and!; [|done|intros _ Hne; by destruct (Hne Hn)|done]. cbn. split; [done|]. by intros [? _].
  - split_and!; [by cbn; split; [|tauto]|done| |done]. intros Hse Hunc tick. unfold next_retry_for_outcome, classify_partial.
    cbn [retry_directive_of]. by rewrite Hse, (Heff Hse Hunc).
Qed.

Lemma fanout_is_honest_witness :
  let c := {| call_id := 1; idempotency_key := 2; deadline_tick := 10; max_retries := 2;
              attempt_number := 0; side_effecting := true |} in
  let shards := [(9, Succeeded 70 3 false); (4, classify_inflight_timeout c 5)] in
  aggregate_fanout_outcomes (H := checksum_hasher) c (rev shards) true
    = aggregate_fanout_outcomes (H := checksum_hasher) c shards true /\
  forall tick, next_retry_for_outcome c (aggregate_fanout_outcomes (H := checksum_hasher) c shards true) tick
    = Err (UncertainSideEffectRequiresReconciliation 2).
Proof.
  intros c shards. destruct (fanout_is_honest (H := checksum_hasher) c shards true) as (_ & _ & Hretry & Horder).
  split.
  - apply Horder; [|apply Permutation_rev]. apply (bool_decide_unpack _). vm_compute. reflexivity.
  - apply Hretry; [reflexivity|discriminate].
Defined.
