(* ===== verification/Liveness.v ===== *)
(** * Liveness: heartbeats of other Cells against the receiver's own clock

    Models [ReceiverMonotonicLivenessTracker] of nlos-cell/src/clock_liveness.rs:
    digest-bound heartbeat envelopes ordered by watermark, judged by local silence
    only. *)

From S2P Require Import Prelude Bytes Cell Partition.

(** ** Text and digests *)

Definition le_bytes (n : nat) (x : Z) : bytes := rev (be_bytes n x).

(** [char::is_control] somewhere in UTF-8 text: U+0000..1F, U+007F, and U+0080..9F,
    which is 0xC2 followed by the code. *)
Fixpoint has_control (l : bytes) : bool :=
  match l with
  | [] => false
  | b :: rest =>
      bool_decide (b < 0x20) || bool_decide (b = 0x7f)
      || (bool_decide (b = 0xC2) && match rest with c :: _ => bool_decide (0x80 <= c <= 0x9f) | [] => false end)
      || has_control rest
  end.

Definition validate_single_line (text : bytes) (max_bytes : Z) : option bytes :=
  if decide (text = [] \/ Z.of_nat (length text) > max_bytes) then None else
  if has_control text then None else Some text.

Definition MAX_ROUTING_SUMMARY_BYTES : Z := 512.

Definition CROSS_HOST_HEARTBEAT_DOMAIN : bytes := bytes_of_string "llmos/cell-cross-host-heartbeat/v1".

(** ** Envelopes *)

Record CrossHostHeartbeatWatermark := {
  w_node_boot_generation : Z;
  w_epoch : Z;
  w_heartbeat_seq : Z;
}.

#[export] Instance watermark_eq_dec : EqDecision CrossHostHeartbeatWatermark.
Proof. solve_decision. Defined.

(** The derived order: lexicographic. *)
Definition watermark_lt (a b : CrossHostHeartbeatWatermark) : Prop :=
  w_node_boot_generation a < w_node_boot_generation b \/
  (w_node_boot_generation a = w_node_boot_generation b /\
   (w_epoch a < w_epoch b \/ (w_epoch a = w_epoch b /\ w_heartbeat_seq a < w_heartbeat_seq b))).

#[export] Instance watermark_lt_dec a b : Decision (watermark_lt a b).
Proof. unfold watermark_lt. apply _. Defined.

Record CrossHostHeartbeatEnvelope := {
  h_cell_id : Z;
  h_watermark : CrossHostHeartbeatWatermark;
  h_fencing_token : Z;
  h_measured_rtt_ms : option Z;
  h_audit_wall_hint : option Z;
  h_routing_summary : bytes;
  h_envelope_digest : Z;
}.

Inductive ClockLivenessError :=
  | MonoRegression (previous_mono_ms observed_mono_ms : Z)
  | MalformedHeartbeatEnvelope (reason : string)
  | StaleOrReplayedWatermark (cell_id : Z) (committed presented : CrossHostHeartbeatWatermark)
  | HeartbeatSkewExceeded (measured_rtt_ms max_clock_skew_ms : Z)
  | CheckpointOrderViolation (cell : Z) (reason : string)
  | CheckpointChainTampered (cell : Z) (reason : string).

Definition opt_le_bytes (o : option Z) : bytes :=
  match o with Some x => 1 :: le_bytes 8 x | None => [0] end.

Section envelope.
Context `{Sha256}.

Definition heartbeat_compute_digest (cell_id : Z) (w : CrossHostHeartbeatWatermark) (fencing_token : Z)
    (rtt hint : option Z) (routing_summary : bytes) : Z :=
  sha256 (CROSS_HOST_HEARTBEAT_DOMAIN ++ [0] ++ be_bytes 16 cell_id
          ++ le_bytes 8 (w_node_boot_generation w) ++ le_bytes 8 (w_epoch w) ++ le_bytes 8 (w_heartbeat_seq w)
          ++ le_bytes 8 fencing_token ++ opt_le_bytes rtt ++ opt_le_bytes hint
          ++ le_bytes 8 (Z.of_nat (length routing_summary)) ++ routing_summary).

Definition envelope_new (cell_id : Z) (w : CrossHostHeartbeatWatermark) (fencing_token : Z)
    (rtt hint : option Z) (routing_summary : bytes) : result ClockLivenessError CrossHostHeartbeatEnvelope :=
  match validate_single_line routing_summary MAX_ROUTING_SUMMARY_BYTES with
  | None => Err (MalformedHeartbeatEnvelope "invalid routing_summary")
  | Some _ => Ok {|
      h_cell_id := cell_id; h_watermark := w; h_fencing_token := fencing_token; h_measured_rtt_ms := rtt;
      h_audit_wall_hint := hint; h_routing_summary := routing_summary;
      h_envelope_digest := heartbeat_compute_digest cell_id w fencing_token rtt hint routing_summary |}
  end.

Definition envelope_verify (e : CrossHostHeartbeatEnvelope) : bool :=
  match validate_single_line (h_routing_summary e) MAX_ROUTING_SUMMARY_BYTES with
  | None => false
  | Some _ => bool_decide (h_envelope_digest e =
      heartbeat_compute_digest (h_cell_id e) (h_watermark e) (h_fencing_token e) (h_measured_rtt_ms e)
        (h_audit_wall_hint e) (h_routing_summary e))
  end.
End envelope.

(** ** The tracker *)

Record TrackedPeerHeartbeatState := {
  tp_cell_id : Z;
  high_watermark : CrossHostHeartbeatWatermark;
  tp_fencing_token : Z;
  last_received_at_mono : Z;
  last_measured_rtt_ms : option Z;
  last_audit_wall_hint : option Z;
  tp_routing_summary : bytes;
  last_envelope_digest : Z;
  skew_quarantined_rtt_ms : option Z;
}.

Record ReceiverMonotonicLivenessTracker := {
  max_silence_ms : Z;
  t_max_clock_skew_ms : Z;
  last_receiver_mono : option Z;
  t_peers : gmap Z TrackedPeerHeartbeatState;
}.

Inductive CrossHostHeartbeatDecision :=
  | HeartbeatAccepted (watermark : CrossHostHeartbeatWatermark) (received_at_mono : Z)
  | DuplicateIgnored (watermark : CrossHostHeartbeatWatermark) (preserved_received_at_mono : Z).

Inductive HeuristicPeerLiveness :=
  | HeuristicAlive (silence_ms : Z)
  | HeuristicSuspectSilence (silence_ms max_silence_ms : Z)
  | HeuristicClockSkewQuarantined (measured_rtt_ms max_clock_skew_ms : Z).

Definition tracker_new (silence skew : Z) : ReceiverMonotonicLivenessTracker :=
  {| max_silence_ms := silence; t_max_clock_skew_ms := skew; last_receiver_mono := None; t_peers := ∅ |}.

Definition checked_elapsed_since (now earlier : Z) : result ClockLivenessError Z :=
  if decide (now < earlier) then Err (MonoRegression earlier now) else Ok (now - earlier).

Section tracker.
Context `{Sha256}.
Implicit Types t : ReceiverMonotonicLivenessTracker.

Definition with_mono t (now : Z) : ReceiverMonotonicLivenessTracker :=
  {| max_silence_ms := max_silence_ms t; t_max_clock_skew_ms := t_max_clock_skew_ms t;
     last_receiver_mono := Some now; t_peers := t_peers t |}.

Definition advance_receiver_mono t (now : Z) : result ClockLivenessError ReceiverMonotonicLivenessTracker :=
  match last_receiver_mono t with
  | Some prev =>
      match checked_elapsed_since now prev with
      | Ok _ => Ok (with_mono t now)
      | Err e => Err e
      end
  | None => Ok (with_mono t now)
  end.

Definition with_peer t (cell : Z) (p : TrackedPeerHeartbeatState) : ReceiverMonotonicLivenessTracker :=
  {| max_silence_ms := max_silence_ms t; t_max_clock_skew_ms := t_max_clock_skew_ms t;
     last_receiver_mono := last_receiver_mono t; t_peers := <[cell := p]> (t_peers t) |}.

(** What an envelope meets in the state of its Cell: an early return, or nothing. *)
Definition meets_existing (e : CrossHostHeartbeatEnvelope) (existing : TrackedPeerHeartbeatState) :
    option (result ClockLivenessError CrossHostHeartbeatDecision) :=
  let stale := Err (StaleOrReplayedWatermark (h_cell_id e) (high_watermark existing) (h_watermark e)) in
  if decide (h_watermark e = high_watermark existing) then
    if decide (h_envelope_digest e = last_envelope_digest existing)
    then Some (Ok (DuplicateIgnored (high_watermark existing) (last_received_at_mono existing)))
    else Some stale
  else if decide (watermark_lt (h_watermark e) (high_watermark existing)) then Some stale else
  if decide (w_node_boot_generation (h_watermark e) = w_node_boot_generation (high_watermark existing)
             /\ w_epoch (h_watermark e) = w_epoch (high_watermark existing)
             /\ h_fencing_token e < tp_fencing_token existing)
  then Some (Err (MalformedHeartbeatEnvelope "fencing_token regressed within identical (boot_generation, epoch)"))
  else None.

Definition observed_peer t (e : CrossHostHeartbeatEnvelope) (received_at_mono : Z) : TrackedPeerHeartbeatState := {|
  tp_cell_id := h_cell_id e; high_watermark := h_watermark e; tp_fencing_token := h_fencing_token e;
  last_received_at_mono := received_at_mono; last_measured_rtt_ms := h_measured_rtt_ms e;
  last_audit_wall_hint := h_audit_wall_hint e; tp_routing_summary := h_routing_summary e;
  last_envelope_digest := h_envelope_digest e;
  skew_quarantined_rtt_ms :=
    match h_measured_rtt_ms e with
    | Some rtt => if rtt_exceeds_max_clock_skew rtt (t_max_clock_skew_ms t) then Some rtt else None
    | None => None
    end
|}.

Definition observe_heartbeat t (e : CrossHostHeartbeatEnvelope) (received_at_mono : Z) :
    ReceiverMonotonicLivenessTracker * result ClockLivenessError CrossHostHeartbeatDecision :=
  match advance_receiver_mono t received_at_mono with
  | Err err => (t, Err err)
  | Ok t =>
      if negb (envelope_verify e)
      then (t, Err (MalformedHeartbeatEnvelope "envelope digest or routing_summary verification failed")) else
      match t_peers t !! h_cell_id e ≫= meets_existing e with
      | Some r => (t, r)
      | None =>
          let next := observed_peer t e received_at_mono in
          (with_peer t (h_cell_id e) next,
           match skew_quarantined_rtt_ms next with
           | Some rtt => Err (HeartbeatSkewExceeded rtt (t_max_clock_skew_ms t))
           | None => Ok (HeartbeatAccepted (h_watermark e) received_at_mono)
           end)
      end
  end.

Definition evaluate_peer t (cell_id now : Z) :
    ReceiverMonotonicLivenessTracker * result ClockLivenessError (option HeuristicPeerLiveness) :=
  match advance_receiver_mono t now with
  | Err err => (t, Err err)
  | Ok t =>
      (t, match t_peers t !! cell_id with
          | None => Ok None
          | Some peer =>
              match skew_quarantined_rtt_ms peer with
              | Some rtt => Ok (Some (HeuristicClockSkewQuarantined rtt (t_max_clock_skew_ms t)))
              | None =>
                  match checked_elapsed_since now (last_received_at_mono peer) with
                  | Err err => Err err
                  | Ok silence_ms =>
                      if decide (silence_ms <= max_silence_ms t) then Ok (Some (HeuristicAlive silence_ms))
                      else Ok (Some (HeuristicSuspectSilence silence_ms (max_silence_ms t)))
                  end
              end
          end)
  end.

(** The loop over the peers, in order, stopping at the first error. *)
Fixpoint live_peers (silence now : Z) (peers : list TrackedPeerHeartbeatState) :
    result ClockLivenessError (list TrackedPeerHeartbeatState) :=
  match peers with
  | [] => Ok []
  | peer :: rest =>
      match skew_quarantined_rtt_ms peer with
      | Some _ => live_peers silence now rest
      | None =>
          match checked_elapsed_since now (last_received_at_mono peer) with
          | Err err => Err err
          | Ok silence_ms =>
              match live_peers silence now rest with
              | Ok alive => Ok (if decide (silence_ms <= silence) then peer :: alive else alive)
              | Err err => Err err
              end
          end
      end
  end.

Definition heuristic_live_peers t (now : Z) :
    ReceiverMonotonicLivenessTracker * result ClockLivenessError (list TrackedPeerHeartbeatState) :=
  match advance_receiver_mono t now with
  | Err err => (t, Err err)
  | Ok t => (t, live_peers (max_silence_ms t) now (btree_values (t_peers t)))
  end.
End tracker.

(** ** Replays do not revive *)

Inductive tracker_op :=
  | THeartbeat (e : CrossHostHeartbeatEnvelope) (received_at_mono : Z)
  | TEvaluate (cell now : Z)
  | TLive (now : Z).

Definition tracker_step `{Sha256} (t : ReceiverMonotonicLivenessTracker) (o : tracker_op) :
    ReceiverMonotonicLivenessTracker :=
  match o with
  | THeartbeat e at_ => (observe_heartbeat t e at_).1
  | TEvaluate cell now => (evaluate_peer t cell now).1
  | TLive now => (heuristic_live_peers t now).1
  end.

Definition tracker_run `{Sha256} (t : ReceiverMonotonicLivenessTracker) (ops : list tracker_op) :
    ReceiverMonotonicLivenessTracker := foldl tracker_step t ops.

Section liveness.
Context `{Sha256}.
Implicit Types t : ReceiverMonotonicLivenessTracker.

(** Peers are filed under their Cell and were heard no later than the local clock. *)
Definition tracker_inv t : Prop :=
  map_Forall (fun cell p => tp_cell_id p = cell /\
    exists now, last_receiver_mono t = Some now /\ last_received_at_mono p <= now) (t_peers t).

Lemma advance_inv t now t' :
  advance_receiver_mono t now = Ok t' ->
  t' = with_mono t now /\ (forall prev, last_receiver_mono t = Some prev -> prev <= now).
Proof.
  unfold advance_receiver_mono, checked_elapsed_since. destruct (last_receiver_mono t) as [prev|].
  - case_decide; [done|]. intros [= <-]. split; [done|]. intros ? [= <-]. lia.
  - by intros [= <-].
Qed.

Lemma with_mono_inv t now :
  tracker_inv t -> (forall prev, last_receiver_mono t = Some prev -> prev <= now) -> tracker_inv (with_mono t now).
Proof.
  intros Ht Hnow cell p Hp. destruct (Ht cell p Hp) as [Hc (prev & Hprev & Hle)]. split; [done|].
  exists now. split; [done|]. specialize (Hnow _ Hprev). lia.
Qed.

Lemma advance_keeps t now t' : tracker_inv t -> advance_receiver_mono t now = Ok t' -> tracker_inv t'.
Proof. intros Ht [-> Hnow]%advance_inv. by apply with_mono_inv. Qed.

Lemma tracker_step_inv t o : tracker_inv t -> tracker_inv (tracker_step t o).
Proof.
  intros Ht. destruct o as [e now|cell now|now]; cbn [tracker_step].
  2,3: unfold evaluate_peer, heuristic_live_peers; destruct (advance_receiver_mono t now) as [t'|] eqn:Ha;
    [by eapply advance_keeps|done].
  unfold observe_heartbeat. destruct (advance_receiver_mono t now) as [t'|] eqn:Ha; [|done].
  pose proof (advance_keeps _ _ _ Ht Ha) as Ht'. apply advance_inv in Ha as [-> _].
  destruct (envelope_verify e); [|done]. cbn [negb]. destruct (_ ≫= _); [done|]. cbn [fst].
  apply map_Forall_insert_2; [|exact Ht']. split; [done|]. exists now. split; [done|]. cbn. lia.
Qed.

Lemma tracker_run_inv t ops : tracker_inv t -> tracker_inv (tracker_run t ops).
Proof. revert t. induction ops as [|o ops IH]; [done|]. intros t Ht. by apply IH, tracker_step_inv. Qed.

Lemma advance_peers t now t' : advance_receiver_mono t now = Ok t' ->
  t_peers t' = t_peers t /\ max_silence_ms t' = max_silence_ms t.
Proof. by intros [-> _]%advance_inv. Qed.

(** Nothing but a watermark above the high one changes what is known of a Cell. *)
Lemma tracker_step_keeps t o cell p :
  t_peers t !! cell = Some p ->
  (forall e at_, o = THeartbeat e at_ -> h_cell_id e = cell -> ~ watermark_lt (high_watermark p) (h_watermark e)) ->
  t_peers (tracker_step t o) !! cell = Some p /\ max_silence_ms (tracker_step t o) = max_silence_ms t.
Proof.
  intros Hp Ho. destruct o as [e now|c now|now]; cbn [tracker_step].
  2,3: unfold evaluate_peer, heuristic_live_peers; destruct (advance_receiver_mono t now) as [t'|] eqn:Ha;
    [by cbn [fst]; apply advance_peers in Ha as [-> ->]|done].
  unfold observe_heartbeat. destruct (advance_receiver_mono t now) as [t'|] eqn:Ha; [|done].
  apply advance_peers in Ha as [Hps Hms]. destruct (envelope_verify e); cbn [negb fst]; [|by rewrite Hps, Hms].
  destruct (_ ≫= _) eqn:Hm; cbn [fst]; [by rewrite Hps, Hms|]. unfold with_peer. cbn [t_peers max_silence_ms].
  split; [|done]. rewrite Hps in Hm. destruct (decide (h_cell_id e = cell)) as [Hc|Hc].
  2: { rewrite lookup_insert_ne by done. rewrite Hps. exact Hp. }
  exfalso. rewrite Hc, Hp in Hm. cbn in Hm. unfold meets_existing in Hm.
  case_decide as Heq; [by case_decide|]. case_decide as Hlt; [done|].
  apply (Ho e now eq_refl Hc). unfold watermark_lt in *.
  destruct (high_watermark p) as [b1 e1 s1], (h_watermark e) as [b2 e2 s2]. cbn in *.
  destruct (decide (b1 = b2 /\ e1 = e2 /\ s1 = s2)) as [(-> & -> & ->)|]; [done|]. lia.
Qed.

Lemma tracker_run_keeps t ops cell p :
  t_peers t !! cell = Some p ->
  (forall e at_, THeartbeat e at_ ∈ ops -> h_cell_id e = cell -> ~ watermark_lt (high_watermark p) (h_watermark e)) ->
  t_peers (tracker_run t ops) !! cell = Some p /\ max_silence_ms (tracker_run t ops) = max_silence_ms t.
Proof.
  revert t. induction ops as [|o ops IH]; intros t Hp Hops; [done|]. cbn [tracker_run foldl].
  destruct (tracker_step_keeps t o cell p Hp) as [Hp' Hm].
  { intros e at_ ->. apply (Hops e at_). by left. }
  destruct (IH (tracker_step t o) Hp') as [H1 H2]; [|by rewrite <- Hm].
  intros e at_ He. apply (Hops e at_). by right.
Qed.

Lemma tracker_run_config t ops : max_silence_ms (tracker_run t ops) = max_silence_ms t.
Proof.
  revert t. induction ops as [|o ops IH]; intros t; [done|]. cbn [tracker_run foldl].
  change (foldl tracker_step (tracker_step t o) ops) with (tracker_run (tracker_step t o) ops). rewrite IH.
  destruct o as [e now|c now|now]; cbn [tracker_step]; unfold observe_heartbeat, evaluate_peer, heuristic_live_peers;
    (destruct (advance_receiver_mono t now) as [t'|] eqn:Ha; [apply advance_peers in Ha as [_ Ha]|done]); try done.
  destruct (envelope_verify e); [|done]. by destruct (_ ≫= _).
Qed.

Lemma live_peers_elem bound now l alive p :
  live_peers bound now l = Ok alive -> p ∈ alive ->
  p ∈ l /\ skew_quarantined_rtt_ms p = None /\ now - last_received_at_mono p <= bound.
Proof.
  revert alive. induction l as [|q l IH]; intros alive; cbn [live_peers]; [by intros [= <-] ?%not_elem_of_nil|].
  destruct (skew_quarantined_rtt_ms q) eqn:Hq.
  { intros Hl Hp. destruct (IH alive Hl Hp) as (? & ? & ?). split_and!; [by right|done..]. }
  destruct (checked_elapsed_since now (last_received_at_mono q)) as [s|] eqn:He; [|done].
  assert (s = now - last_received_at_mono q) as ->.
  { unfold checked_elapsed_since in He. case_decide; [done|]. by injection He as <-. }
  destruct (live_peers bound now l) as [rest|] eqn:Hl; [|done]. intros [= <-].
  case_decide; [intros [->|Hp]%elem_of_cons|intros Hp]; [by split_and!; [left|..]|..];
    destruct (IH rest eq_refl Hp) as (? & ? & ?); (split_and!; [by right|done..]).
Qed.

(** With a clock that does not run back a judgment is always reached. *)
Lemma evaluate_total t cell now :
  tracker_inv t -> (forall prev, last_receiver_mono t = Some prev -> prev <= now) ->
  exists r, evaluate_peer t cell now = (with_mono t now, Ok r).
Proof.
  intros Ht Hnow. unfold evaluate_peer, advance_receiver_mono, checked_elapsed_since.
  assert (match last_receiver_mono t with
          | Some prev => match (if decide (now < prev) then Err (MonoRegression prev now) else Ok (now - prev)) with
                         | Ok _ => Ok (with_mono t now) | Err e => Err e end
          | None => Ok (with_mono t now) end = Ok (with_mono t now)) as ->.
  { destruct (last_receiver_mono t) as [prev|]; [|done]. rewrite decide_False; [done|]. specialize (Hnow prev eq_refl). lia. }
  cbn [t_peers with_mono]. destruct (t_peers t !! cell) as [p|] eqn:Hp; [|by eauto].
  destruct (skew_quarantined_rtt_ms p); [by eauto|].
  destruct (Ht cell p Hp) as [_ (prev & Hprev & Hle)]. specialize (Hnow prev Hprev).
  rewrite decide_False by lia. case_decide; eauto.
Qed.

(** A Cell is alive exactly while the silence since its last heartbeat that counted
    is within bounds and its round trip was. *)
Lemma evaluate_alive t cell now t' silence :
  evaluate_peer t cell now = (t', Ok (Some (HeuristicAlive silence))) <->
  advance_receiver_mono t now = Ok t' /\ exists p, t_peers t !! cell = Some p /\
    skew_quarantined_rtt_ms p = None /\ silence = now - last_received_at_mono p /\ 0 <= silence <= max_silence_ms t.
Proof.
  unfold evaluate_peer. destruct (advance_receiver_mono t now) as [t1|] eqn:Ha; [|naive_solver].
  apply advance_peers in Ha as [Hps Hms]. rewrite Hps, Hms. unfold checked_elapsed_since.
  destruct (t_peers t !! cell) as [p|]; [|naive_solver]. destruct (skew_quarantined_rtt_ms p) eqn:Hq; [naive_solver|].
  split.
  - case_decide; [done|]. case_decide; [|done]. intros [= <- <-]. split; [done|]. exists p. split_and!; done || lia.
  - intros ([= <-] & p' & [= <-] & _ & -> & Hb). by rewrite decide_False, decide_True by lia.
Qed.
End liveness.

(** Only news keeps a Cell alive.  In a tracker built by any observations, once a
    Cell's last counted heartbeat has been followed by more silence than allowed, no
    number of replayed, reordered or conflicting envelopes up to the recorded watermark,
    and no traffic of other Cells, makes the Cell count as alive again: what is recorded
    of it is untouched, and it is neither judged alive nor listed among the live. *)
Theorem replays_never_revive `{Sha256} silence skew before after cell p now :
  let t := tracker_run (tracker_new silence skew) before in
  let t' := tracker_run t after in
  t_peers t !! cell = Some p ->
  (forall e at_, THeartbeat e at_ ∈ after -> h_cell_id e = cell -> ~ watermark_lt (high_watermark p) (h_watermark e)) ->
  last_received_at_mono p + silence < now ->
  t_peers t' !! cell = Some p /\
  (forall s, (evaluate_peer t' cell now).2 <> Ok (Some (HeuristicAlive s))) /\
  (forall alive, (heuristic_live_peers t' now).2 = Ok alive -> p ∉ alive).
Proof.
  intros t t' Hp Hops Hnow. destruct (tracker_run_keeps t after cell p Hp Hops) as [Hp' _]. fold t' in Hp'.
  assert (max_silence_ms t' = silence) as Hms by (unfold t', t; by rewrite !tracker_run_config).
  split_and!; [exact Hp'|..].
  - intros s. destruct (evaluate_peer t' cell now) as [t1 r] eqn:He. cbn [snd]. intros ->.
    apply evaluate_alive in He as (_ & p' & Hp1 & _ & -> & Hb). rewrite Hp' in Hp1. injection Hp1 as <-. lia.
  - intros alive. unfold heuristic_live_peers. destruct (advance_receiver_mono t' now) as [t1|] eqn:Ha; [|done].
    apply advance_peers in Ha as [_ Hms1]. cbn [snd]. intros Hl Hin.
    apply (live_peers_elem _ _ _ _ _ Hl) in Hin as (_ & _ & Hle). lia.
Qed.

Lemma replays_never_revive_witness :
  let e seq d := {| h_cell_id := 5; h_watermark := {| w_node_boot_generation := 1; w_epoch := 1; w_heartbeat_seq := seq |};
                    h_fencing_token := 1; h_measured_rtt_ms := None; h_audit_wall_hint := None;
                    h_routing_summary := [97]; h_envelope_digest := d |} in
  let sealed seq := e seq (heartbeat_compute_digest (H := checksum_hasher) 5 (h_watermark (e seq 0)) 1 None None [97]) in
  let t := tracker_run (H := checksum_hasher) (tracker_new 100 50) [THeartbeat (sealed 1) 10; THeartbeat (sealed 2) 20] in
  let after := [THeartbeat (sealed 2) 90; THeartbeat (sealed 1) 115] in
  (evaluate_peer t 5 120).2 = Ok (Some (HeuristicAlive 100)) /\
  forall s, (evaluate_peer (tracker_run (H := checksum_hasher) t after) 5 121).2
            <> Ok (Some (HeuristicAlive s)).
Proof.
  intros e sealed t after. split; [vm_compute; reflexivity|].
  assert (exists p, t_peers t !! 5 = Some p /\ high_watermark p = h_watermark (e 2 0) /\ last_received_at_mono p = 20)
    as (p & Hp & Hw & Hr).
  { destruct (t_peers t !! 5) as [p|] eqn:Hp; [|vm_compute in Hp; discriminate Hp].
    exists p. split; [reflexivity|]. vm_compute in Hp. injection Hp as <-. split; reflexivity. }
  assert (forall e' at_, THeartbeat e' at_ ∈ after -> h_cell_id e' = 5 ->
    ~ watermark_lt (high_watermark p) (h_watermark e')) as Hold.
  { assert (forall d1 d2 e' at_, THeartbeat e' at_ ∈ [THeartbeat (e 2 d2) 90; THeartbeat (e 1 d1) 115] ->
      ~ watermark_lt (h_watermark (e 2 0)) (h_watermark e')) as Hgen.
    { clear. intros d1 d2 e' at_. rewrite !elem_of_cons, elem_of_nil. unfold watermark_lt.
      intros [[= -> _]|[[= -> _]|[]]]; cbn; lia. }
    rewrite Hw. intros e' at_ Hin _. exact (Hgen _ _ e' at_ Hin). }
  assert (last_received_at_mono p + 100 < 121) as Hlate by (rewrite Hr; reflexivity).
  exact (proj1 (proj2 (replays_never_revive (H := checksum_hasher) 100 50
    [THeartbeat (sealed 1) 10; THeartbeat (sealed 2) 20] after 5 p 121 Hp Hold Hlate))).
Defined.
