(* ===== verification/Trail.v ===== *)
(** * Trail: hash-chained checkpoint trails

    Models [MonotonicCheckpointTrail] of nlos-cell/src/clock_liveness.rs, with the
    checkpoint facts of nlos-cell/src/federation.rs it stores: an append-only chain
    for each Cell, ordered by boot generation, epoch and sequence and linked by
    digests. *)

From S2P Require Import Prelude Bytes Cell Partition Liveness.

Record CheckpointFact := {
  cf_node_boot_generation : Z;
  cf_epoch : Z;
  cf_fencing_token : Z;
  cf_digest : bytes;
}.

#[export] Instance checkpoint_fact_eq_dec : EqDecision CheckpointFact.
Proof. solve_decision. Defined.

Record MonotonicCheckpointCoord := {
  co_cell : Z;
  co_node_boot_generation : Z;
  co_epoch : Z;
  co_checkpoint_seq : Z;
}.

#[export] Instance coord_eq_dec : EqDecision MonotonicCheckpointCoord.
Proof. solve_decision. Defined.

Record MonotonicCheckpointEntry := {
  coord : MonotonicCheckpointCoord;
  fact : CheckpointFact;
  prev_chain_digest : Z;
  entry_chain_digest : Z;
  audit_wall_hint_opt : option Z;
}.

Definition MONOTONIC_CHECKPOINT_CHAIN_DOMAIN : bytes :=
  bytes_of_string "llmos/cell-monotonic-checkpoint-chain/v1".

(** What is hashed. *)
Definition chain_preimage (c : MonotonicCheckpointCoord) (fencing_token : Z) (fact_digest : bytes)
    (prev : Z) : bytes :=
  MONOTONIC_CHECKPOINT_CHAIN_DOMAIN ++ [0] ++ be_bytes 16 (co_cell c)
  ++ le_bytes 8 (co_node_boot_generation c) ++ le_bytes 8 (co_epoch c) ++ le_bytes 8 (co_checkpoint_seq c)
  ++ le_bytes 8 fencing_token ++ be_bytes 32 prev
  ++ le_bytes 8 (Z.of_nat (length fact_digest)) ++ fact_digest.

Definition compute_chain_digest `{Sha256} (c : MonotonicCheckpointCoord) (fencing_token : Z)
    (fact_digest : bytes) (prev : Z) : Z := sha256 (chain_preimage c fencing_token fact_digest prev).

(** The fact is of the boot and epoch it is filed under. *)
Definition fact_matches (c : MonotonicCheckpointCoord) (f : CheckpointFact) : bool :=
  bool_decide (cf_node_boot_generation f = co_node_boot_generation c) && bool_decide (cf_epoch f = co_epoch c).

Definition checkpoint_new `{Sha256} (c : MonotonicCheckpointCoord) (f : CheckpointFact) (prev : Z) (hint : option Z) :
    result ClockLivenessError MonotonicCheckpointEntry :=
  if negb (fact_matches c f)
  then Err (CheckpointOrderViolation (co_cell c)
              "CheckpointFact boot_generation/epoch mismatch with MonotonicCheckpointCoord")
  else Ok {| coord := c; fact := f; prev_chain_digest := prev;
             entry_chain_digest := compute_chain_digest c (cf_fencing_token f) (cf_digest f) prev;
             audit_wall_hint_opt := hint |}.

Definition verify_entry_digest `{Sha256} (e : MonotonicCheckpointEntry) : bool :=
  fact_matches (coord e) (fact e)
  && bool_decide (entry_chain_digest e =
       compute_chain_digest (coord e) (cf_fencing_token (fact e)) (cf_digest (fact e)) (prev_chain_digest e)).

Definition MonotonicCheckpointTrail : Type := gmap Z (list MonotonicCheckpointEntry).

Definition entries (t : MonotonicCheckpointTrail) (cell : Z) : list MonotonicCheckpointEntry :=
  default [] (t !! cell).

Definition head_chain_digest (t : MonotonicCheckpointTrail) (cell : Z) : Z :=
  from_option entry_chain_digest 0 (last (entries t cell)).

Definition era (e : MonotonicCheckpointEntry) : Z * Z := (co_node_boot_generation (coord e), co_epoch (coord e)).

Definition era_lt (a b : Z * Z) : Prop := a.1 < b.1 \/ (a.1 = b.1 /\ a.2 < b.2).

#[export] Instance era_lt_dec a b : Decision (era_lt a b).
Proof. unfold era_lt. apply _. Defined.

(** The checks on a new entry against the head of the chain; [None] accepts. *)
Definition head_violation (chain_last : option MonotonicCheckpointEntry) (entry : MonotonicCheckpointEntry) :
    option ClockLivenessError :=
  let cell := co_cell (coord entry) in
  match chain_last with
  | None =>
      if decide (co_checkpoint_seq (coord entry) <> 1)
      then Some (CheckpointOrderViolation cell "genesis monotonic checkpoint must start at checkpoint_seq == 1") else
      if decide (prev_chain_digest entry <> 0)
      then Some (CheckpointChainTampered cell "genesis monotonic checkpoint must have zero prev_chain_digest")
      else None
  | Some prev =>
      if decide (era_lt (era entry) (era prev))
      then Some (CheckpointOrderViolation cell "checkpoint (node_boot_generation, epoch) regressed") else
      if decide (prev_chain_digest entry <> entry_chain_digest prev)
      then Some (CheckpointChainTampered cell "checkpoint prev_chain_digest does not link to prior head") else
      if decide (era entry = era prev) then
        if decide (Some (co_checkpoint_seq (coord entry)) <> checked_add64 (co_checkpoint_seq (coord prev)) 1)
        then Some (CheckpointOrderViolation cell
                     "checkpoint_seq is non-contiguous within same (boot_generation, epoch)") else
        if decide (cf_fencing_token (fact entry) < cf_fencing_token (fact prev))
        then Some (CheckpointOrderViolation cell "fencing_token regressed within same (boot_generation, epoch)")
        else None
      else if decide (co_checkpoint_seq (coord entry) <> 1)
      then Some (CheckpointOrderViolation cell "new (boot_generation, epoch) era must start at checkpoint_seq == 1")
      else None
  end.

Definition trail_append `{Sha256} (t : MonotonicCheckpointTrail) (entry : MonotonicCheckpointEntry) :
    MonotonicCheckpointTrail * result ClockLivenessError MonotonicCheckpointEntry :=
  let cell := co_cell (coord entry) in
  if negb (verify_entry_digest entry)
  then (t, Err (CheckpointChainTampered cell "entry_chain_digest mismatch")) else
  let chain := default [] (t !! cell) in
  let t := <[cell := chain]> t in
  match list_find (fun e => coord e = coord entry) chain with
  | Some (_, existing) =>
      if decide (entry_chain_digest existing = entry_chain_digest entry /\ fact existing = fact entry
                 /\ prev_chain_digest existing = prev_chain_digest entry)
      then (t, Ok existing)
      else (t, Err (CheckpointOrderViolation cell
                      "conflicting checkpoint replay at identical MonotonicCheckpointCoord"))
  | None =>
      match head_violation (last chain) entry with
      | Some err => (t, Err err)
      | None => (<[cell := chain ++ [entry]]> t, Ok entry)
      end
  end.

(** ** Well-formed chains *)

Section chains.
Context `{Sha256}.
Implicit Types (t : MonotonicCheckpointTrail) (e : MonotonicCheckpointEntry).

(** The widths of the fields, as their Rust types have them. *)
Record entry_typed e : Prop := {
  et_cell : id16 (co_cell (coord e));
  et_boot : u64 (co_node_boot_generation (coord e));
  et_epoch : u64 (co_epoch (coord e));
  et_seq : u64 (co_checkpoint_seq (coord e));
  et_token : u64 (cf_fencing_token (fact e));
  et_prev : dig32 (prev_chain_digest e);
  et_digest : u64 (Z.of_nat (length (cf_digest (fact e))));
}.

(** One accepted step of a chain. *)
Record linked (prev : option MonotonicCheckpointEntry) e : Prop := {
  li_verified : verify_entry_digest e = true;
  li_prev : prev_chain_digest e = from_option entry_chain_digest 0 prev;
  li_first : prev = None -> co_checkpoint_seq (coord e) = 1;
  li_next p : prev = Some p ->
    (era p = era e /\ co_checkpoint_seq (coord e) = co_checkpoint_seq (coord p) + 1 /\
     cf_fencing_token (fact p) <= cf_fencing_token (fact e)) \/
    (era_lt (era p) (era e) /\ co_checkpoint_seq (coord e) = 1);
}.

Inductive chain_ok (cell : Z) : list MonotonicCheckpointEntry -> Prop :=
  | chain_nil : chain_ok cell []
  | chain_snoc l e : chain_ok cell l -> linked (last l) e -> co_cell (coord e) = cell -> entry_typed e ->
      chain_ok cell (l ++ [e]).

Definition trail_ok t : Prop := map_Forall chain_ok t.

Lemma head_violation_linked prev e :
  verify_entry_digest e = true -> head_violation prev e = None -> linked prev e.
Proof.
  intros Hv. unfold head_violation. destruct prev as [p|].
  - case_decide as Hr; [done|]. case_decide as Hd; [done|]. case_decide as Heq.
    + case_decide as Hs; [done|]. case_decide; [done|]. intros _. split; try done.
      intros q [= <-]. left. unfold checked_add64 in Hs. case_decide; [|done]. injection Hs as Hs. split_and!; [done|lia..].
    + case_decide as Hs; [done|]. intros _. split; try done. intros q [= <-]. right.
      split; [|done]. destruct (era e) as [b1 e1] eqn:He1, (era p) as [b2 e2] eqn:He2. unfold era_lt in *. cbn in *.
      destruct (decide (b1 = b2)) as [->|]; [|lia]. destruct (decide (e1 = e2)) as [->|]; [done|lia].
  - case_decide as Hs; [done|]. case_decide as Hd; [done|]. intros _. by split.
Qed.

Lemma append_ok t e : trail_ok t -> entry_typed e -> trail_ok (trail_append t e).1.
Proof.
  intros Ht He. unfold trail_append. destruct (verify_entry_digest e) eqn:Hv; [|done]. cbn [negb]. cbv zeta.
  set (cell := co_cell (coord e)).
  assert (chain_ok cell (default [] (t !! cell))) as Hc.
  { destruct (t !! cell) eqn:Hl; [by apply (Ht cell)|apply chain_nil]. }
  assert (trail_ok (<[cell := default [] (t !! cell)]> t)) as Ht' by by apply map_Forall_insert_2.
  destruct (list_find _ _) as [[i x]|]; [by case_decide|].
  destruct (head_violation _ _) eqn:Hh; [done|]. apply map_Forall_insert_2; [|done].
  apply chain_snoc; [done|by apply head_violation_linked|done|done].
Qed.

(** ** A head fixes its history *)

Definition preimage_of e : bytes :=
  chain_preimage (coord e) (cf_fencing_token (fact e)) (cf_digest (fact e)) (prev_chain_digest e).

(** Equal but for the wall-clock hint, which nothing binds. *)
Definition same_entry e e' : Prop :=
  coord e = coord e' /\ fact e = fact e' /\ prev_chain_digest e = prev_chain_digest e' /\
  entry_chain_digest e = entry_chain_digest e'.

Lemma length_le_bytes n x : length (le_bytes n x) = n.
Proof. unfold le_bytes. by rewrite length_rev, length_be_bytes. Qed.

Lemma be_bytes_inj n x y :
  0 <= x < 256 ^ Z.of_nat n -> 0 <= y < 256 ^ Z.of_nat n -> be_bytes n x = be_bytes n y -> x = y.
Proof. intros Hx Hy Heq. by rewrite <- (be_value_bytes n x), <- (be_value_bytes n y), Heq. Qed.

Lemma le_bytes_inj x y : u64 x -> u64 y -> le_bytes 8 x = le_bytes 8 y -> x = y.
Proof.
  unfold le_bytes, u64, u64_max. intros Hx Hy Heq. apply (f_equal (@rev Z)) in Heq. rewrite !rev_involutive in Heq.
  apply (be_bytes_inj 8); [change (256 ^ Z.of_nat 8) with (2 ^ 64); lia..|done].
Qed.

Lemma preimage_inj e e' :
  entry_typed e -> entry_typed e' -> preimage_of e = preimage_of e' ->
  coord e = coord e' /\ cf_fencing_token (fact e) = cf_fencing_token (fact e') /\
  cf_digest (fact e) = cf_digest (fact e') /\ prev_chain_digest e = prev_chain_digest e'.
Proof.
  intros [Hc Hb He Hs Ht Hp Hd] [Hc' Hb' He' Hs' Ht' Hp' Hd']. unfold preimage_of, chain_preimage. intros Heq.
  apply app_inv_head in Heq. apply app_inj_1 in Heq as [_ Heq]; [|done].
  apply app_inj_1 in Heq as [H1 Heq]; [|by rewrite !length_be_bytes].
  do 4 (apply app_inj_1 in Heq as [?%le_bytes_inj Heq]; [|first [assumption|by rewrite !length_le_bytes]..]).
  apply app_inj_1 in Heq as [H6 Heq]; [|by rewrite !length_be_bytes].
  apply app_inj_1 in Heq as [_ Hdig]; [|by rewrite !length_le_bytes].
  apply be_bytes_inj in H1; [|exact Hc|exact Hc']. apply be_bytes_inj in H6; [|exact Hp|exact Hp'].
  split_and!; try done. destruct (coord e), (coord e'). cbn in *. congruence.
Qed.

(** A break of the hash among the entries of two chains: two different strings with
    one digest, or a string whose digest is the mark of an empty chain. *)
Definition hash_broken (l1 l2 : list MonotonicCheckpointEntry) : Prop :=
  (exists e1 e2, e1 ∈ l1 /\ e2 ∈ l2 /\ preimage_of e1 <> preimage_of e2 /\
     sha256 (preimage_of e1) = sha256 (preimage_of e2)) \/
  (exists e, (e ∈ l1 \/ e ∈ l2) /\ sha256 (preimage_of e) = 0).

Lemma verified_digest e :
  verify_entry_digest e = true ->
  entry_chain_digest e = sha256 (preimage_of e) /\ cf_node_boot_generation (fact e) = co_node_boot_generation (coord e) /\
  cf_epoch (fact e) = co_epoch (coord e).
Proof. unfold verify_entry_digest, fact_matches. rewrite !andb_true_iff, !bool_decide_eq_true. tauto. Qed.

Lemma same_preimage e e' :
  verify_entry_digest e = true -> verify_entry_digest e' = true -> entry_typed e -> entry_typed e' ->
  preimage_of e = preimage_of e' -> same_entry e e'.
Proof.
  intros (Hd & Hb & He)%verified_digest (Hd' & Hb' & He')%verified_digest Ht Ht' Heq.
  destruct (preimage_inj e e' Ht Ht' Heq) as (Hc & Htok & Hdig & Hp). split_and!; [done| |done|congruence].
  rewrite Hc in Hb, He. destruct (fact e), (fact e'). cbn in *. congruence.
Qed.

Lemma hash_broken_mono l1 l2 k1 k2 : l1 ⊆ k1 -> l2 ⊆ k2 -> hash_broken l1 l2 -> hash_broken k1 k2.
Proof. intros H1 H2 [(e1 & e2 & ?)|(e & ?)]; [left|right]; naive_solver. Qed.

Lemma chains_agree cell l1 l2 :
  chain_ok cell l1 -> chain_ok cell l2 ->
  from_option entry_chain_digest 0 (last l1) = from_option entry_chain_digest 0 (last l2) ->
  Forall2 same_entry l1 l2 \/ hash_broken l1 l2.
Proof.
  intros H1. revert l2. induction H1 as [|l1 e1 Hok1 IH Hl1 _ Ht1]; intros l2 H2.
  - destruct H2 as [|l2 e2 _ Hl2 _ _]; [by left|]. rewrite last_snoc. cbn. intros Hd. right. right. exists e2.
    split; [right; apply elem_of_app; right; by left|]. by destruct (verified_digest e2 (li_verified _ _ Hl2)) as [<- _].
  - destruct H2 as [|l2 e2 Hok2 Hl2 _ Ht2]; rewrite !last_snoc; cbn; intros Hd;
      destruct (verified_digest e1 (li_verified _ _ Hl1)) as [Hd1 _].
    { right. right. exists e1. split; [left; apply elem_of_app; right; by left|]. congruence. }
    destruct (verified_digest e2 (li_verified _ _ Hl2)) as [Hd2 _].
    destruct (decide (preimage_of e1 = preimage_of e2)) as [Heq|Hne].
    2: { right. left. exists e1, e2. split_and!; [apply elem_of_app; right; by left..|done|congruence]. }
    pose proof (same_preimage e1 e2 (li_verified _ _ Hl1) (li_verified _ _ Hl2) Ht1 Ht2 Heq) as Hsame.
    destruct (IH l2 Hok2) as [Hall|Hb].
    + rewrite <- (li_prev _ _ Hl1), <- (li_prev _ _ Hl2). apply Hsame.
    + left. apply Forall2_app; [done|]. by constructor.
    + right. apply (hash_broken_mono l1 l2); [intros x Hx; apply elem_of_app; by left..|exact Hb].
Qed.

Lemma entries_append t e cell : entries t cell `prefix_of` entries (trail_append t e).1 cell.
Proof.
  unfold trail_append. destruct (negb _); [done|]. cbv zeta. generalize (co_cell (coord e)). intros c.
  assert (entries (<[c := default [] (t !! c)]> t) cell = entries t cell) as Hsame.
  { unfold entries, MonotonicCheckpointTrail in *. destruct (decide (c = cell)) as [->|]; [by rewrite lookup_insert_eq|by rewrite lookup_insert_ne]. }
  destruct (list_find _ _) as [[i x]|]; [case_decide; cbn [fst]; by rewrite Hsame|].
  destruct (head_violation _ _); cbn [fst]; [by rewrite Hsame|]. unfold entries, MonotonicCheckpointTrail in *. rewrite insert_insert_eq.
  destruct (decide (c = cell)) as [->|]; [|by rewrite lookup_insert_ne]. rewrite lookup_insert_eq. cbn. by eexists.
Qed.
End chains.

Definition trail_run `{Sha256} (t : MonotonicCheckpointTrail) (es : list MonotonicCheckpointEntry) :
    MonotonicCheckpointTrail := foldl (fun t e => (trail_append t e).1) t es.

Lemma trail_run_ok `{Sha256} t es : trail_ok t -> Forall entry_typed es -> trail_ok (trail_run t es).
Proof.
  intros Ht Hes. revert t Ht. induction Hes as [|e es He _ IH]; [done|]. intros t Ht. by apply IH, append_ok.
Qed.

Lemma trail_run_chain `{Sha256} es cell : Forall entry_typed es -> chain_ok cell (entries (trail_run ∅ es) cell).
Proof.
  intros Hes. pose proof (trail_run_ok ∅ es (map_Forall_empty _) Hes) as Ht. unfold entries.
  destruct (trail_run ∅ es !! cell) eqn:Hl; [by apply (Ht cell)|apply chain_nil].
Qed.

Lemma trail_run_prefix `{Sha256} t es cell : entries t cell `prefix_of` entries (trail_run t es) cell.
Proof.
  revert t. induction es as [|e es IH]; intros t; [done|]. etrans; [apply (entries_append t e)|]. apply IH.
Qed.

(** A trail is append-only and its head commits to all of it.  What a trail holds
    for a Cell stays there, in place, under any further appends; every chain it holds
    starts at sequence one, moves on by one within a boot and epoch, starts over at one
    in a later boot or epoch, and never lets the fencing token fall within one; and two
    trails with the same head digest for a Cell hold the same entries for it, one by
    one, unless two of their own entries hash to one digest, or one of them to the
    digest of an empty chain. *)
Theorem trail_is_tamper_evident `{Sha256} es es' more cell :
  Forall entry_typed es -> Forall entry_typed es' ->
  let t := trail_run ∅ es in
  let t' := trail_run ∅ es' in
  entries t cell `prefix_of` entries (trail_run t more) cell /\
  chain_ok cell (entries t cell) /\
  (head_chain_digest t cell = head_chain_digest t' cell ->
   Forall2 same_entry (entries t cell) (entries t' cell) \/ hash_broken (entries t cell) (entries t' cell)).
Proof.
  intros Hes Hes'. cbv zeta. split_and!; [apply trail_run_prefix|by apply trail_run_chain|].
  apply (chains_agree cell); by apply trail_run_chain.
Qed.

Lemma trail_is_tamper_evident_witness :
  let seal seq prev hint :=
    let c := {| co_cell := 5; co_node_boot_generation := 1; co_epoch := 1; co_checkpoint_seq := seq |} in
    {| coord := c; fact := {| cf_node_boot_generation := 1; cf_epoch := 1; cf_fencing_token := 1; cf_digest := [97] |};
       prev_chain_digest := prev;
       entry_chain_digest := compute_chain_digest (H := checksum_hasher) c 1 [97] prev;
       audit_wall_hint_opt := hint |} in
  let e1 hint := seal 1 0 hint in
  let e2 hint := seal 2 (entry_chain_digest (e1 None)) hint in
  let t := trail_run (H := checksum_hasher) ∅ [e1 None; e2 None] in
  let t' := trail_run (H := checksum_hasher) ∅ [e1 (Some 9); e1 None; e2 (Some 8)] in
  length (entries t 5) = 2%nat /\ t <> t' /\
  (Forall2 same_entry (entries t 5) (entries t' 5) \/ hash_broken (H := checksum_hasher) (entries t 5) (entries t' 5)).
Proof.
  intros seal e1 e2 t t'. split; [vm_compute; reflexivity|]. split.
  { intros Heq. apply (f_equal (fun m => audit_wall_hint_opt <$> head (entries m 5))) in Heq.
    vm_compute in Heq. discriminate Heq. }
  assert (forall seq prev hint, u64 seq -> dig32 prev -> entry_typed (seal seq prev hint)) as Htyped.
  { intros seq prev hint Hseq Hprev. split; cbn -[Z.pow]; first [exact Hseq|exact Hprev|width; lia]. }
  assert (dig32 (entry_chain_digest (e1 None))) as Hdig by apply (sha256_range (Sha256 := checksum_hasher)).
  assert (forall hint, entry_typed (e1 hint)) as H1 by (intros hint; apply Htyped; width; lia).
  assert (forall hint, entry_typed (e2 hint)) as H2 by (intros hint; apply Htyped; [width; lia|exact Hdig]).
  refine (proj2 (proj2 (trail_is_tamper_evident (H := checksum_hasher) [e1 None; e2 None]
    [e1 (Some 9); e1 None; e2 (Some 8)] [] 5 _ _)) _).
  - exact (Forall_cons_2 _ _ _ (H1 _) (Forall_cons_2 _ _ _ (H2 _) (Forall_nil_2 _))).
  - exact (Forall_cons_2 _ _ _ (H1 _) (Forall_cons_2 _ _ _ (H1 _) (Forall_cons_2 _ _ _ (H2 _) (Forall_nil_2 _)))).
  - vm_compute. reflexivity.
Defined.
