(* ===== verification/Mux.v ===== *)
(** * Mux: the framing of the links between Cells

    Models nlos-net/src/frame.rs: the seven frames multiplexed on a link, their bodies
    at fixed offsets, and the length-prefixed writing and reading of them on a stream
    that may take or give any part of what is asked, fail, or stall. *)

From S2P Require Import Prelude Bytes Cell RemoteCall.

Definition MAX_BULK_CHUNK_BYTES : Z := 64 * 1024.
Definition DEFAULT_MAX_CONTROL_PAYLOAD_BYTES : Z := 256 * 1024.
Definition MUX_PROTOCOL_VERSION : Z := 1.
Definition MAX_MUX_WIRE_FRAME_BYTES : Z := 512 * 1024.
Definition KIND_CONTROL_RPC_REQ : Z := 0x01.
Definition KIND_CONTROL_RPC_RESP : Z := 0x02.
Definition KIND_BULK_OPEN : Z := 0x10.
Definition KIND_BULK_CHUNK : Z := 0x11.
Definition KIND_BULK_WINDOW_CREDIT : Z := 0x12.
Definition KIND_BULK_FINISH : Z := 0x13.
Definition KIND_BULK_COMPLETE_ACK : Z := 0x14.

Inductive FramePriorityClass := HighControl | BulkData.

Inductive RpcWireStatus := RpcOk | PreExecutionUnavailable.

Definition status_as_u8 (s : RpcWireStatus) : Z :=
  match s with RpcOk => 0 | PreExecutionUnavailable => 1 end.

(** Identifiers and digests of fixed width are the integers of their bytes. *)
Inductive MuxFrame :=
  | ControlRpcRequest (stream_id call_id idempotency_key deadline_tick : Z) (side_effecting : bool) (payload : bytes)
  | ControlRpcResponse (stream_id observed_epoch : Z) (idempotency_replayed : bool) (status : RpcWireStatus)
      (payload : bytes)
  | BulkStreamOpen (stream_id call_id idempotency_key total_bytes : Z)
  | BulkChunk (stream_id chunk_seq : Z) (data : bytes)
  | BulkWindowCredit (stream_id granted_bytes : Z)
  | BulkStreamFinish (stream_id total_chunks total_bytes sha256_digest : Z)
  | BulkStreamCompleteAck (stream_id observed_epoch verified_bytes verified_sha256 : Z) (idempotency_replayed : bool).

Definition priority_class (f : MuxFrame) : FramePriorityClass :=
  match f with
  | ControlRpcRequest _ _ _ _ _ _ | ControlRpcResponse _ _ _ _ _ | BulkWindowCredit _ _
  | BulkStreamCompleteAck _ _ _ _ _ => HighControl
  | BulkStreamOpen _ _ _ _ | BulkChunk _ _ _ | BulkStreamFinish _ _ _ _ => BulkData
  end.

Inductive FrameCodecError :=
  | UnsupportedVersion (v : Z)
  | ControlPayloadTooLarge (actual maximum : Z)
  | BulkChunkOutOfBounds (actual maximum : Z)
  | OuterFrameTooLarge (actual maximum : Z)
  | MalformedFrame (reason : string)
  | FrameTimeout (phase : WriteProgressPhase) (kind : SocketFailureKind)
  | FrameIo (phase : WriteProgressPhase) (kind : SocketFailureKind).

Definition len (b : bytes) : Z := Z.of_nat (length b).

Definition flag_as_u8 (b : bool) : Z := if b then 1 else 0.

(** ** Bodies *)

(** The lengths fit in 32 bits whenever the control limit does, which is what the
    [expect] on the conversion relies on. *)
Definition encode_body (f : MuxFrame) (max_control : Z) : result FrameCodecError bytes :=
  match f with
  | ControlRpcRequest stream_id call_id key deadline_tick side_effecting payload =>
      if decide (len payload > max_control) then Err (ControlPayloadTooLarge (len payload) max_control) else
      Ok ([MUX_PROTOCOL_VERSION; KIND_CONTROL_RPC_REQ] ++ be_bytes 8 stream_id ++ be_bytes 16 call_id
          ++ be_bytes 16 key ++ be_bytes 8 deadline_tick ++ [flag_as_u8 side_effecting]
          ++ be_bytes 4 (len payload) ++ payload)
  | ControlRpcResponse stream_id observed_epoch replayed status payload =>
      if decide (len payload > max_control) then Err (ControlPayloadTooLarge (len payload) max_control) else
      Ok ([MUX_PROTOCOL_VERSION; KIND_CONTROL_RPC_RESP] ++ be_bytes 8 stream_id ++ be_bytes 8 observed_epoch
          ++ [flag_as_u8 replayed] ++ [status_as_u8 status] ++ be_bytes 4 (len payload) ++ payload)
  | BulkStreamOpen stream_id call_id key total_bytes =>
      Ok ([MUX_PROTOCOL_VERSION; KIND_BULK_OPEN] ++ be_bytes 8 stream_id ++ be_bytes 16 call_id
          ++ be_bytes 16 key ++ be_bytes 8 total_bytes)
  | BulkChunk stream_id chunk_seq data =>
      if decide (data = [] \/ len data > MAX_BULK_CHUNK_BYTES)
      then Err (BulkChunkOutOfBounds (len data) MAX_BULK_CHUNK_BYTES) else
      Ok ([MUX_PROTOCOL_VERSION; KIND_BULK_CHUNK] ++ be_bytes 8 stream_id ++ be_bytes 4 chunk_seq
          ++ be_bytes 4 (len data) ++ data)
  | BulkWindowCredit stream_id granted_bytes =>
      if decide (granted_bytes = 0) then Err (MalformedFrame "zero BulkWindowCredit") else
      Ok ([MUX_PROTOCOL_VERSION; KIND_BULK_WINDOW_CREDIT] ++ be_bytes 8 stream_id ++ be_bytes 4 granted_bytes)
  | BulkStreamFinish stream_id total_chunks total_bytes digest =>
      Ok ([MUX_PROTOCOL_VERSION; KIND_BULK_FINISH] ++ be_bytes 8 stream_id ++ be_bytes 4 total_chunks
          ++ be_bytes 8 total_bytes ++ be_bytes 32 digest)
  | BulkStreamCompleteAck stream_id observed_epoch verified_bytes verified_sha256 replayed =>
      Ok ([MUX_PROTOCOL_VERSION; KIND_BULK_COMPLETE_ACK] ++ be_bytes 8 stream_id ++ be_bytes 8 observed_epoch
          ++ be_bytes 8 verified_bytes ++ be_bytes 32 verified_sha256 ++ [flag_as_u8 replayed])
  end.

(** The integer at [i..j] of a body. *)
Definition field (i j : nat) (body : bytes) : Z := be_value (slice i j body).

Definition bool_byte (body : bytes) (i : nat) (reason : string) : result FrameCodecError bool :=
  let b := field i (i + 1) body in
  if decide (b = 0) then Ok false else if decide (b = 1) then Ok true else Err (MalformedFrame reason).

Definition decode_request (body : bytes) (max_control : Z) : result FrameCodecError MuxFrame :=
  if decide (length body < 8 + 16 + 16 + 8 + 1 + 4)%nat
  then Err (MalformedFrame "truncated ControlRpcRequest") else
  side_effecting ← bool_byte body 48 "invalid bool byte";
  let payload_len := field 49 53 body in
  if decide (payload_len > max_control) then Err (ControlPayloadTooLarge payload_len max_control) else
  if decide (len body <> 53 + payload_len) then Err (MalformedFrame "ControlRpcRequest len mismatch") else
  Ok (ControlRpcRequest (field 0 8 body) (field 8 24 body) (field 24 40 body) (field 40 48 body) side_effecting
        (drop 53 body)).

Definition decode_response (body : bytes) (max_control : Z) : result FrameCodecError MuxFrame :=
  if decide (length body < 8 + 8 + 1 + 1 + 4)%nat
  then Err (MalformedFrame "truncated ControlRpcResponse") else
  observed_epoch ← ok_or (from_u64 (field 8 16 body)) (MalformedFrame "zero observed_epoch");
  replayed ← bool_byte body 16 "invalid replay bool";
  let status_byte := field 17 18 body in
  status ← (if decide (status_byte = 0) then Ok RpcOk else
            if decide (status_byte = 1) then Ok PreExecutionUnavailable
            else Err (MalformedFrame "unknown RpcWireStatus"));
  let payload_len := field 18 22 body in
  if decide (payload_len > max_control) then Err (ControlPayloadTooLarge payload_len max_control) else
  if decide (len body <> 22 + payload_len) then Err (MalformedFrame "ControlRpcResponse len mismatch") else
  Ok (ControlRpcResponse (field 0 8 body) observed_epoch replayed status (drop 22 body)).

Definition decode_open (body : bytes) : result FrameCodecError MuxFrame :=
  if decide (length body <> 8 + 16 + 16 + 8)%nat then Err (MalformedFrame "BulkStreamOpen len != 48") else
  Ok (BulkStreamOpen (field 0 8 body) (field 8 24 body) (field 24 40 body) (field 40 48 body)).

Definition decode_chunk (body : bytes) : result FrameCodecError MuxFrame :=
  if decide (length body < 8 + 4 + 4)%nat then Err (MalformedFrame "truncated BulkChunk") else
  let chunk_len := field 12 16 body in
  if decide (chunk_len = 0 \/ chunk_len > MAX_BULK_CHUNK_BYTES)
  then Err (BulkChunkOutOfBounds chunk_len MAX_BULK_CHUNK_BYTES) else
  if decide (len body <> 16 + chunk_len) then Err (MalformedFrame "BulkChunk len mismatch") else
  Ok (BulkChunk (field 0 8 body) (field 8 12 body) (drop 16 body)).

Definition decode_credit (body : bytes) : result FrameCodecError MuxFrame :=
  if decide (length body <> 12)%nat then Err (MalformedFrame "BulkWindowCredit len != 12") else
  let granted_bytes := field 8 12 body in
  if decide (granted_bytes = 0) then Err (MalformedFrame "zero BulkWindowCredit") else
  Ok (BulkWindowCredit (field 0 8 body) granted_bytes).

Definition decode_finish (body : bytes) : result FrameCodecError MuxFrame :=
  if decide (length body <> 8 + 4 + 8 + 32)%nat then Err (MalformedFrame "BulkStreamFinish len != 52") else
  Ok (BulkStreamFinish (field 0 8 body) (field 8 12 body) (field 12 20 body) (field 20 52 body)).

Definition decode_ack (body : bytes) : result FrameCodecError MuxFrame :=
  if decide (length body <> 8 + 8 + 8 + 32 + 1)%nat
  then Err (MalformedFrame "BulkStreamCompleteAck len != 57") else
  observed_epoch ← ok_or (from_u64 (field 8 16 body)) (MalformedFrame "zero observed_epoch");
  replayed ← bool_byte body 56 "invalid ack replay bool";
  Ok (BulkStreamCompleteAck (field 0 8 body) observed_epoch (field 16 24 body) (field 24 56 body) replayed).

Definition decode_body (wire : bytes) (max_control : Z) : result FrameCodecError MuxFrame :=
  match wire with
  | version :: kind :: body =>
      if decide (version <> MUX_PROTOCOL_VERSION) then Err (UnsupportedVersion version) else
      if decide (kind = KIND_CONTROL_RPC_REQ) then decode_request body max_control else
      if decide (kind = KIND_CONTROL_RPC_RESP) then decode_response body max_control else
      if decide (kind = KIND_BULK_OPEN) then decode_open body else
      if decide (kind = KIND_BULK_CHUNK) then decode_chunk body else
      if decide (kind = KIND_BULK_WINDOW_CREDIT) then decode_credit body else
      if decide (kind = KIND_BULK_FINISH) then decode_finish body else
      if decide (kind = KIND_BULK_COMPLETE_ACK) then decode_ack body else
      Err (MalformedFrame "unknown MuxFrame kind tag")
  | _ => Err (MalformedFrame "frame shorter than 2B header")
  end.

(** ** Bodies round trip *)

(** The widths of the fields. *)
Definition frame_typed (f : MuxFrame) : Prop :=
  match f with
  | ControlRpcRequest s c k d _ payload => u64 s /\ id16 c /\ id16 k /\ u64 d /\ byte_string payload
  | ControlRpcResponse s e _ _ payload => u64 s /\ nz64 e /\ byte_string payload
  | BulkStreamOpen s c k t => u64 s /\ id16 c /\ id16 k /\ u64 t
  | BulkChunk s q data => u64 s /\ u32 q /\ byte_string data
  | BulkWindowCredit s g => u64 s /\ u32 g
  | BulkStreamFinish s n t d => u64 s /\ u32 n /\ u64 t /\ dig32 d
  | BulkStreamCompleteAck s e v d _ => u64 s /\ nz64 e /\ u64 v /\ dig32 d
  end.

Section fields.

Lemma field_skip n x i j b : (n <= i)%nat -> field i j (be_bytes n x ++ b) = field (i - n) (j - n) b.
Proof.
  intros Hi. unfold field, slice. f_equal. rewrite drop_app, drop_ge, length_be_bytes by (rewrite length_be_bytes; lia).
  cbn. f_equal. lia.
Qed.

Lemma field_hit n x b : 0 <= x < 256 ^ Z.of_nat n -> field 0 n (be_bytes n x ++ b) = x.
Proof.
  intros Hx. unfold field, slice. rewrite Nat.sub_0_r, drop_0, take_app_length' by (by rewrite length_be_bytes).
  by apply be_value_bytes.
Qed.

Lemma field_last n x : 0 <= x < 256 ^ Z.of_nat n -> field 0 n (be_bytes n x) = x.
Proof. intros Hx. rewrite <- (app_nil_r (be_bytes n x)). by apply field_hit. Qed.

Lemma drop_skip n x i b : (n <= i)%nat -> drop i (be_bytes n x ++ b) = drop (i - n) b.
Proof. intros Hi. rewrite drop_app, drop_ge, length_be_bytes by (rewrite length_be_bytes; lia). done. Qed.

(** A string of bytes starts with the encoding of the integer of its first ones. *)
Lemma cut_field n b :
  byte_string b -> (n <= length b)%nat ->
  exists x rest, b = be_bytes n x ++ rest /\ 0 <= x < 256 ^ Z.of_nat n /\ byte_string rest /\
    length rest = (length b - n)%nat.
Proof.
  intros Hb Hn. exists (be_value (take n b)), (drop n b).
  assert (byte_string (take n b)) as Ht by by apply Forall_take.
  assert (length (take n b) = n) as Hl by (rewrite length_take; lia).
  pose proof (be_value_bound _ Ht) as Hv. rewrite Hl in Hv.
  split_and!; [|lia|lia|by apply Forall_drop|by rewrite length_drop].
  rewrite <- Hl at 1. rewrite be_bytes_value by done. by rewrite take_drop.
Qed.
End fields.

(** Cut the next field off a body, which [Hb] says is made of bytes. *)
Tactic Notation "cut_off" ident(Hb) constr(n) ident(x) :=
  let Heq := fresh "Heq" in
  let Hx := fresh "Hx" in
  let Hr := fresh "Hr" in
  let Hlr := fresh "Hlr" in
  let k := eval vm_compute in (Z.to_nat n) in
  destruct (cut_field k _ Hb) as (x & ? & Heq & Hx & Hr & Hlr); [lia|]; clear Hb; rename Hr into Hb.

Ltac in_width := width; cbn; lia.

Ltac fields :=
  repeat match goal with
  | |- context [field ?i ?j (be_bytes ?n ?x ++ ?b)] =>
      first [ change i with 0%nat; change j with n; rewrite (field_hit n x b) by in_width
            | rewrite (field_skip n x i j b) by lia; cbn [Nat.sub Nat.add] ]
  | |- context [field ?i ?j (be_bytes ?n ?x)] => rewrite (field_last n x) by in_width
  | |- context [drop ?i (be_bytes ?n ?x ++ ?b)] => rewrite (drop_skip n x i b) by lia; cbn [Nat.sub Nat.add]
  end.

Section roundtrip.
Context (max_control : Z) (Hmax : max_control <= u32_max).

Lemma bool_byte_encoded b : u8 (flag_as_u8 b).
Proof. destruct b; by vm_compute. Qed.

(** A flag byte, read back. *)
Lemma bool_byte_iff (e : Z) reason b :
  (if decide (e = 0) then Ok false else if decide (e = 1) then Ok true else Err (MalformedFrame reason)) = Ok b <->
  e = flag_as_u8 b.
Proof. destruct b; cbn; repeat case_decide; naive_solver. Qed.

Lemma status_byte_iff (e : Z) reason t :
  (if decide (e = 0) then Ok RpcOk else if decide (e = 1) then Ok PreExecutionUnavailable
   else Err (MalformedFrame reason)) = Ok t <-> e = status_as_u8 t.
Proof. destruct t; cbn; repeat case_decide; naive_solver. Qed.

Lemma epoch_iff (e : Z) reason x :
  u64 e -> ok_or (from_u64 e) (MalformedFrame reason) = Ok x <-> nz64 e /\ x = e.
Proof. intros He. unfold from_u64, ok_or. case_decide; width; naive_solver lia. Qed.

Lemma bind_Ok {A B} (m : result FrameCodecError A) (k : A -> result FrameCodecError B) y :
  m ≫= k = Ok y <-> exists x, m = Ok x /\ k x = Ok y.
Proof. destruct m; cbn; naive_solver. Qed.

Lemma guard_Ok {A} P `{!Decision P} e (m : result FrameCodecError A) y :
  (if decide P then Err e else m) = Ok y <-> ~ P /\ m = Ok y.
Proof. case_decide; naive_solver. Qed.

(** What a body cut into its fields decodes to, for each kind of frame. *)
Lemma decode_request_iff s c k d e n p f :
  u64 s -> id16 c -> id16 k -> u64 d -> u8 e -> u32 n ->
  decode_request (be_bytes 8 s ++ be_bytes 16 c ++ be_bytes 16 k ++ be_bytes 8 d ++ be_bytes 1 e
                  ++ be_bytes 4 n ++ p) max_control = Ok f <->
  exists b, e = flag_as_u8 b /\ n = len p /\ len p <= max_control /\ f = ControlRpcRequest s c k d b p.
Proof.
  intros Hs Hc Hk Hd He Hn. unfold decode_request, bool_byte, len. fields.
  rewrite !length_app, !length_be_bytes, guard_Ok, bind_Ok, drop_0. setoid_rewrite guard_Ok.
  setoid_rewrite guard_Ok. setoid_rewrite bool_byte_iff. split.
  - intros (_ & b & He' & Hm & Hl & [= <-]). exists b. split_and!; done || lia.
  - intros (b & He' & Hl & Hm & ->). split; [lia|]. exists b. split_and!; done || lia.
Qed.

Lemma decode_response_iff s e r t n p f :
  u64 s -> u64 e -> u8 r -> u8 t -> u32 n ->
  decode_response (be_bytes 8 s ++ be_bytes 8 e ++ be_bytes 1 r ++ be_bytes 1 t ++ be_bytes 4 n ++ p)
    max_control = Ok f <->
  exists b st, nz64 e /\ r = flag_as_u8 b /\ t = status_as_u8 st /\ n = len p /\ len p <= max_control /\
    f = ControlRpcResponse s e b st p.
Proof.
  intros Hs He Hr Ht Hn. unfold decode_response, bool_byte, len. fields.
  rewrite !length_app, !length_be_bytes, guard_Ok, bind_Ok, drop_0. setoid_rewrite bind_Ok. setoid_rewrite bind_Ok.
  setoid_rewrite guard_Ok. setoid_rewrite guard_Ok. setoid_rewrite bool_byte_iff. setoid_rewrite status_byte_iff.
  setoid_rewrite epoch_iff; [|done]. split.
  - intros (_ & x & [Hx ->] & b & Hb & st & Hst & Hm & Hl & [= <-]). exists b, st. split_and!; try done; width; lia.
  - intros (b & st & Hx & Hb & Hst & Hl & Hm & ->). split; [lia|]. exists e. split; [done|]. exists b. split; [done|].
    exists st. split_and!; done || lia.
Qed.

Lemma decode_chunk_iff s q n p f :
  u64 s -> u32 q -> u32 n ->
  decode_chunk (be_bytes 8 s ++ be_bytes 4 q ++ be_bytes 4 n ++ p) = Ok f <->
  n = len p /\ p <> [] /\ len p <= MAX_BULK_CHUNK_BYTES /\ f = BulkChunk s q p.
Proof.
  intros Hs Hq Hn. unfold decode_chunk, len. fields.
  rewrite !length_app, !length_be_bytes, !guard_Ok, drop_0. split.
  - intros (_ & Hb & Hl & [= <-]). split_and!; [lia| |lia|done]. intros ->. cbn in *. lia.
  - intros (-> & Hp & Hm & ->). assert (0 < Z.of_nat (length p)) by (destruct p; [done|cbn; lia]).
    split_and!; done || lia.
Qed.

Lemma decode_credit_iff s g f :
  u64 s -> u32 g ->
  decode_credit (be_bytes 8 s ++ be_bytes 4 g) = Ok f <-> g <> 0 /\ f = BulkWindowCredit s g.
Proof.
  intros Hs Hg. unfold decode_credit. fields. rewrite length_app, !length_be_bytes, !guard_Ok. naive_solver lia.
Qed.

Lemma decode_ack_iff s e v d r f :
  u64 s -> u64 e -> u64 v -> dig32 d -> u8 r ->
  decode_ack (be_bytes 8 s ++ be_bytes 8 e ++ be_bytes 8 v ++ be_bytes 32 d ++ be_bytes 1 r) = Ok f <->
  exists b, nz64 e /\ r = flag_as_u8 b /\ f = BulkStreamCompleteAck s e v d b.
Proof.
  intros Hs He Hv Hd Hr. unfold decode_ack, bool_byte. fields.
  rewrite !length_app, !length_be_bytes, guard_Ok, bind_Ok. setoid_rewrite bind_Ok.
  setoid_rewrite bool_byte_iff. setoid_rewrite epoch_iff; [|done]. split.
  - intros (_ & x & [Hx ->] & b & Hb & [= <-]). by exists b.
  - intros (b & Hx & Hb & ->). split; [lia|]. exists e. split; [done|]. by exists b.
Qed.

Lemma decode_open_iff s c k t f :
  u64 s -> id16 c -> id16 k -> u64 t ->
  decode_open (be_bytes 8 s ++ be_bytes 16 c ++ be_bytes 16 k ++ be_bytes 8 t) = Ok f <-> f = BulkStreamOpen s c k t.
Proof.
  intros Hs Hc Hk Ht. unfold decode_open. fields. rewrite !length_app, !length_be_bytes, !guard_Ok.
  split; [by intros [_ [= <-]]|]. intros ->. split; [lia|done].
Qed.

Lemma decode_finish_iff s n t d f :
  u64 s -> u32 n -> u64 t -> dig32 d ->
  decode_finish (be_bytes 8 s ++ be_bytes 4 n ++ be_bytes 8 t ++ be_bytes 32 d) = Ok f <-> f = BulkStreamFinish s n t d.
Proof.
  intros Hs Hc Hk Ht. unfold decode_finish. fields. rewrite !length_app, !length_be_bytes, !guard_Ok.
  split; [by intros [_ [= <-]]|]. intros ->. split; [lia|done].
Qed.

(** A frame that encodes, decodes to itself. *)
Lemma decode_encode f b : frame_typed f -> encode_body f max_control = Ok b -> decode_body b max_control = Ok f.
Proof.
  assert (forall x, u8 x -> [x] = be_bytes 1 x) as Hone by (intros x Hx; by rewrite be_bytes_single).
  unfold u32_max in Hmax.
  destruct f as [s c k d se p|s e r t p|s c k t|s q p|s g|s n t d|s e v d r]; intros Hf He; cbn in Hf;
    unfold encode_body in He; rewrite ?guard_Ok in He; destruct_and?; repeat match goal with H : Ok _ = Ok _ |- _ => apply Ok_inj in H as <- end.
  - rewrite (Hone _ (bool_byte_encoded se)). apply decode_request_iff; try done; [apply bool_byte_encoded|unfold len in *; width; lia|].
    exists se. split_and!; done || lia.
  - rewrite (Hone _ (bool_byte_encoded r)), (Hone (status_as_u8 t)) by (by destruct t).
    apply decode_response_iff; try done; [width; lia|apply bool_byte_encoded|by destruct t|unfold len in *; width; lia|].
    exists r, t. split_and!; done || lia.
  - by apply decode_open_iff.
  - apply decode_chunk_iff; try done; [unfold len, MAX_BULK_CHUNK_BYTES in *; width; lia|]. split_and!; try done; try lia. tauto.
  - by apply decode_credit_iff.
  - by apply decode_finish_iff.
  - rewrite (Hone _ (bool_byte_encoded r)). apply decode_ack_iff; try done; [width; lia|apply bool_byte_encoded|]. by exists r.
Qed.

Definition canonical_body (kind : Z) (body : bytes) (f : MuxFrame) : Prop :=
  frame_typed f /\ encode_body f max_control = Ok (MUX_PROTOCOL_VERSION :: kind :: body).

Lemma encode_ok {A} P `{!Decision P} e (a : A) : ~ P -> (if decide P then Err e else Ok a) =@{result FrameCodecError A} Ok a.
Proof. intros. by rewrite decide_False. Qed.

Lemma decode_request_canonical body f :
  byte_string body -> decode_request body max_control = Ok f -> canonical_body KIND_CONTROL_RPC_REQ body f.
Proof.
  intros Hb Hd. assert (53 <= length body)%nat as Hl by (unfold decode_request in Hd; rewrite guard_Ok in Hd; lia).
  cut_off Hb 8 s. cut_off Hb 16 c. cut_off Hb 16 k. cut_off Hb 8 d. cut_off Hb 1 e. cut_off Hb 4 n. subst.
  apply decode_request_iff in Hd as (b & -> & -> & Hm & ->); [|in_width..].
  split; [cbn; split_and!; done || in_width|]. cbn [encode_body]. rewrite encode_ok by lia.
  by rewrite be_bytes_single by apply bool_byte_encoded.
Qed.

Lemma decode_response_canonical body f :
  byte_string body -> decode_response body max_control = Ok f -> canonical_body KIND_CONTROL_RPC_RESP body f.
Proof.
  intros Hb Hd. assert (22 <= length body)%nat as Hl by (unfold decode_response in Hd; rewrite guard_Ok in Hd; lia).
  cut_off Hb 8 s. cut_off Hb 8 e. cut_off Hb 1 r. cut_off Hb 1 t. cut_off Hb 4 n. subst.
  apply decode_response_iff in Hd as (b & st & He & -> & -> & -> & Hm & ->); [|in_width..].
  split; [cbn; split_and!; done || in_width|]. cbn [encode_body]. rewrite encode_ok by lia.
  by rewrite !be_bytes_single by (apply bool_byte_encoded || by destruct st).
Qed.

Lemma decode_chunk_canonical body f :
  byte_string body -> decode_chunk body = Ok f -> canonical_body KIND_BULK_CHUNK body f.
Proof.
  intros Hb Hd. assert (16 <= length body)%nat as Hl by (unfold decode_chunk in Hd; rewrite guard_Ok in Hd; lia).
  cut_off Hb 8 s. cut_off Hb 4 q. cut_off Hb 4 n. subst.
  apply decode_chunk_iff in Hd as (-> & Hp & Hm & ->); [|in_width..].
  split; [cbn; split_and!; done || in_width|]. cbn [encode_body]. rewrite encode_ok; [done|]. intros [?|?]; [done|lia].
Qed.

Lemma decode_fixed_canonical kind body f :
  byte_string body ->
  (kind = KIND_BULK_OPEN /\ decode_open body = Ok f \/ kind = KIND_BULK_WINDOW_CREDIT /\ decode_credit body = Ok f \/
   kind = KIND_BULK_FINISH /\ decode_finish body = Ok f \/ kind = KIND_BULK_COMPLETE_ACK /\ decode_ack body = Ok f) ->
  canonical_body kind body f.
Proof.
  assert (forall l : bytes, (length l <= 0)%nat -> l = []) as Hnil by (intros []; [done|cbn; lia]).
  intros Hb [[-> Hd]|[[-> Hd]|[[-> Hd]|[-> Hd]]]].
  - assert (length body = 48)%nat as Hl by (unfold decode_open in Hd; rewrite guard_Ok in Hd; lia).
    cut_off Hb 8 s. cut_off Hb 16 c. cut_off Hb 16 k. cut_off Hb 8 t. subst.
    assert (x2 = []) as -> by (apply Hnil; lia). rewrite app_nil_r in *. apply decode_open_iff in Hd as ->; [|in_width..].
    split; [cbn; split_and!; in_width|done].
  - assert (length body = 12)%nat as Hl by (unfold decode_credit in Hd; rewrite guard_Ok in Hd; lia).
    cut_off Hb 8 s. cut_off Hb 4 g. subst. assert (x0 = []) as -> by (apply Hnil; lia). rewrite app_nil_r in *.
    apply decode_credit_iff in Hd as [Hg ->]; [|in_width..]. split; [cbn; split_and!; in_width|].
    cbn [encode_body]. by rewrite encode_ok.
  - assert (length body = 52)%nat as Hl by (unfold decode_finish in Hd; rewrite guard_Ok in Hd; lia).
    cut_off Hb 8 s. cut_off Hb 4 n. cut_off Hb 8 t. cut_off Hb 32 d. subst.
    assert (x2 = []) as -> by (apply Hnil; lia). rewrite app_nil_r in *. apply decode_finish_iff in Hd as ->; [|in_width..].
    split; [cbn; split_and!; in_width|done].
  - assert (length body = 57)%nat as Hl by (unfold decode_ack in Hd; rewrite guard_Ok in Hd; lia).
    cut_off Hb 8 s. cut_off Hb 8 e. cut_off Hb 8 v. cut_off Hb 32 d. cut_off Hb 1 r. subst.
    assert (x3 = []) as -> by (apply Hnil; lia). rewrite app_nil_r in *. apply decode_ack_iff in Hd as (b & He & -> & ->); [|in_width..].
    split; [cbn; split_and!; done || in_width|]. cbn [encode_body]. by rewrite be_bytes_single by apply bool_byte_encoded.
Qed.

(** A body that decodes is the encoding of the frame it decodes to. *)
Lemma encode_decode b f :
  byte_string b -> decode_body b max_control = Ok f -> frame_typed f /\ encode_body f max_control = Ok b.
Proof.
  intros Hb Hd. destruct b as [|v [|kind body]]; [done..|]. cbn [decode_body] in Hd.
  apply guard_Ok in Hd as [Hv Hd]. apply dec_stable in Hv as ->.
  inversion Hb as [|? ? _ Hb']. inversion Hb' as [|? ? _ Hbody]. subst.
  repeat case_decide; subst; try done;
    first [by apply decode_request_canonical|by apply decode_response_canonical|by apply decode_chunk_canonical
          |apply decode_fixed_canonical; tauto].
Qed.
End roundtrip.
