(* ===== verification/MuxStream.v ===== *)
(** * MuxStream: frames on a byte stream

    Models [write_mux_frame] and [read_mux_frame] of nlos-net/src/frame.rs.  The
    writer is a schedule of what each call of it does; a schedule that ends leaves the
    future pending until the timeout fires. *)

From S2P Require Import Prelude Bytes Cell RemoteCall Mux.

(** ** Writing *)

(** What one [write] does: take some of the bytes it is given, or fail. *)
Inductive write_event := Wrote (n : nat) | WriteFailed (kind : ErrorKind).

(** What [flush] does; [None] when it never returns. *)
Definition flush_event : Type := option (result ErrorKind ()).

Definition max_wire (max_control : Z) : Z := Z.max MAX_MUX_WIRE_FRAME_BYTES (max_control + 128).

Definition phase_at (written : nat) : WriteProgressPhase :=
  match written with O => BeforeFirstPayloadByte | S _ => AfterFirstPayloadByte end.

Definition write_timed_out : FrameCodecError := FrameTimeout AfterFirstPayloadByte WriteTimeout.

(** The loop over the unwritten tail; returns how much the writer took in all. *)
Fixpoint send_loop (events : list write_event) (flush : flush_event) (wire : bytes) (written : nat) :
    nat * result FrameCodecError () :=
  if decide (length wire <= written)%nat then
    (written, match flush with
              | Some (Ok _) => Ok ()
              | Some (Err kind) => Err (FrameIo AfterFirstPayloadByte (from_stream_io_error kind))
              | None => Err write_timed_out
              end)
  else
    match events with
    | [] => (written, Err write_timed_out)
    | Wrote n :: events =>
        match Nat.min n (length wire - written) with
        | O => (written, Err (FrameIo (phase_at written) UnexpectedEofOrTlsTruncation))
        | n => send_loop events flush wire (written + n)
        end
    | WriteFailed kind :: _ => (written, Err (FrameIo (phase_at written) (from_stream_io_error kind)))
    end.

(** Returns the bytes the writer took and the result. *)
Definition write_mux_frame (events : list write_event) (flush : flush_event) (f : MuxFrame) (max_control : Z) :
    bytes * result FrameCodecError () :=
  match encode_body f max_control with
  | Err e => ([], Err e)
  | Ok body =>
      if decide (len body > max_wire max_control)
      then ([], Err (OuterFrameTooLarge (len body) (max_wire max_control))) else
      if decide (len body > u32_max)
      then ([], Err (OuterFrameTooLarge (len body) (max_wire max_control))) else
      let wire := be_bytes 4 (len body) ++ body in
      let '(written, r) := send_loop events flush wire 0 in
      (take written wire, r)
  end.

(** ** Reading *)

(** [read_exact] of [n] bytes from what has arrived; short of them the peer has
    closed the stream or the read stalls. *)
Definition read_exact (stream : bytes) (closed : bool) (n : nat) : result FrameCodecError (bytes * bytes) :=
  if decide (length stream < n)%nat then
    Err (if closed then FrameIo AfterFirstPayloadByte (from_stream_io_error IoUnexpectedEof)
         else FrameTimeout AfterFirstPayloadByte ReadTimeout)
  else Ok (take n stream, drop n stream).

Definition read_mux_frame (stream : bytes) (closed : bool) (max_control : Z) :
    result FrameCodecError (MuxFrame * bytes) :=
  '(prefix, rest) ← read_exact stream closed 4;
  let declared := be_value prefix in
  if decide (declared = 0 \/ declared > max_wire max_control)
  then Err (OuterFrameTooLarge declared (max_wire max_control)) else
  '(body, rest) ← read_exact rest closed (Z.to_nat declared);
  f ← decode_body body max_control;
  Ok (f, rest).

Fixpoint read_frames (n : nat) (stream : bytes) (closed : bool) (max_control : Z) :
    result FrameCodecError (list MuxFrame * bytes) :=
  match n with
  | O => Ok ([], stream)
  | S n =>
      '(f, rest) ← read_mux_frame stream closed max_control;
      '(fs, rest) ← read_frames n rest closed max_control;
      Ok (f :: fs, rest)
  end.

(** ** Sizes *)

Section sizes.
Context (max_control : Z).

Lemma encode_body_size f b :
  encode_body f max_control = Ok b -> 14 <= len b <= max_wire max_control.
Proof.
  unfold max_wire, MAX_MUX_WIRE_FRAME_BYTES.
  destruct f; unfold encode_body; rewrite ?guard_Ok; intros He; destruct_and?;
    repeat match goal with H : Ok _ = Ok _ |- _ => apply Ok_inj in H as <- end; unfold len, MAX_BULK_CHUNK_BYTES in *;
    rewrite !length_app, !length_be_bytes; cbn [length]; lia.
Qed.
End sizes.

(** ** The send loop *)

Section sending.
Context (flush : flush_event) (wire : bytes).

(** It stops between where it began and the end of the wire; at the end when it
    succeeds, and where it began when it reports that nothing was taken. *)
Lemma send_loop_spec events written n r :
  (written <= length wire)%nat -> send_loop events flush wire written = (n, r) ->
  (written <= n <= length wire)%nat /\
  (r = Ok () -> n = length wire) /\
  (forall kind, r = Err (FrameIo BeforeFirstPayloadByte kind) -> n = O) /\
  (forall kind, r <> Err (FrameTimeout BeforeFirstPayloadByte kind)).
Proof.
  revert written. induction events as [|ev events IH]; intros written Hw; cbn [send_loop].
  - case_decide; intros [= <- <-]; (split; [lia|]); split_and!; try done; destruct flush as [[[]|]|]; try done; intros; lia.
  - case_decide as Hend.
    { intros [= <- <-]. split; [lia|]. split_and!; destruct flush as [[[]|]|]; try done; intros; lia. }
    destruct ev as [k|kind].
    + destruct (Nat.min k (length wire - written)) as [|m] eqn:Hk.
      * intros [= <- <-]. split; [lia|]. split_and!; try done. intros kind [= Hp _]. by destruct written.
      * intros H. destruct (IH (written + S m)%nat ltac:(lia) H) as (H1 & H2 & H3 & H4). split_and!; try done; lia.
    + intros [= <- <-]. split; [lia|]. split_and!; try done. intros kind' [= Hp _]. by destruct written.
Qed.
End sending.

(** A writer that takes at least a byte at a time gets the whole wire across. *)
Lemma send_loop_completes wire events written :
  Forall (fun ev => exists n, ev = Wrote (S n)) events -> (length wire <= written + length events)%nat ->
  (written <= length wire)%nat ->
  send_loop events (Some (Ok ())) wire written = (length wire, Ok ()).
Proof.
  intros Hev. revert written. induction Hev as [|ev events [n ->] _ IH]; intros written Hl Hw; cbn [send_loop length] in *.
  - rewrite decide_True by lia. f_equal. lia.
  - case_decide; [f_equal; lia|]. destruct (Nat.min (S n) (length wire - written)) as [|m] eqn:Hm; [lia|].
    apply IH; lia.
Qed.

Section link.
Context (max_control : Z) (Hmax : max_control + 128 <= u32_max).

(** What a writer is handed, in every case: nothing, or part of the one wire. *)
Lemma write_mux_frame_inv events flush f out r :
  write_mux_frame events flush f max_control = (out, r) ->
  (exists e, encode_body f max_control = Err e /\ out = [] /\ r = Err e) \/
  (exists body n, encode_body f max_control = Ok body /\
     send_loop events flush (be_bytes 4 (len body) ++ body) 0 = (n, r) /\
     out = take n (be_bytes 4 (len body) ++ body)).
Proof.
  unfold write_mux_frame. destruct (encode_body f max_control) as [body|e] eqn:He.
  - pose proof (encode_body_size _ _ _ He) as Hs.
    assert (len body <= u32_max) by (unfold max_wire, MAX_MUX_WIRE_FRAME_BYTES, u32_max in *; lia).
    rewrite decide_False, decide_False by lia. cbv zeta. destruct (send_loop _ _ _ _) as [n r'] eqn:Hsend.
    intros [= <- <-]. right. eauto 10.
  - intros [= <- <-]. left. eauto.
Qed.

Lemma write_ok events flush f out :
  write_mux_frame events flush f max_control = (out, Ok ()) ->
  exists body, encode_body f max_control = Ok body /\ out = be_bytes 4 (len body) ++ body.
Proof.
  intros [(e & _ & _ & ?)|(body & n & He & Hs & ->)]%write_mux_frame_inv; [done|]. exists body. split; [done|].
  apply send_loop_spec in Hs as (_ & Hn & _); [|lia]. rewrite Hn by done. by rewrite firstn_all.
Qed.

(** One frame, read off the front of a stream. *)
Lemma read_written f body rest closed :
  frame_typed f -> encode_body f max_control = Ok body ->
  read_mux_frame ((be_bytes 4 (len body) ++ body) ++ rest) closed max_control = Ok (f, rest).
Proof.
  intros Hf He. pose proof (encode_body_size _ _ _ He) as Hs.
  assert (len body <= u32_max) by (unfold max_wire, MAX_MUX_WIRE_FRAME_BYTES, u32_max in *; lia).
  unfold read_mux_frame, read_exact. rewrite decide_False by (rewrite !length_app, length_be_bytes; lia).
  rewrite <- app_assoc, take_app_length', drop_app_length' by (by rewrite length_be_bytes). cbn [mbind result_bind].
  rewrite be_value_bytes by (unfold u32_max in *; cbn; lia).
  rewrite decide_False by lia. unfold len. rewrite Nat2Z.id.
  rewrite decide_False by (rewrite length_app; lia). rewrite take_app_length, drop_app_length. cbn [mbind result_bind].
  rewrite (decode_encode max_control ltac:(lia) f body Hf He). done.
Qed.

(** What is read is a frame of the stream, within the limit. *)
Lemma read_inv stream closed f rest :
  byte_string stream -> read_mux_frame stream closed max_control = Ok (f, rest) ->
  frame_typed f /\ exists body, encode_body f max_control = Ok body /\ stream = be_bytes 4 (len body) ++ body ++ rest.
Proof.
  intros Hb. unfold read_mux_frame, read_exact. case_decide; [done|]. cbn [mbind result_bind].
  assert (byte_string (take 4 stream)) as H4 by by apply Forall_take.
  assert (length (take 4 stream) = 4)%nat as Hl4 by (rewrite length_take; lia).
  pose proof (be_value_bound _ H4) as Hv. rewrite Hl4 in Hv. cbn in Hv.
  case_decide; [done|]. case_decide; [done|]. cbn [mbind result_bind].
  set (declared := be_value (take 4 stream)) in *. set (body := take (Z.to_nat declared) (drop 4 stream)).
  destruct (decode_body body max_control) as [f'|] eqn:Hd; [|done]. cbn. intros [= -> <-].
  apply encode_decode in Hd as [Hf He]; [|first [lia|by apply Forall_take, Forall_drop]..]. split; [done|]. exists body.
  split; [done|]. assert (len body = declared) as -> by (unfold len, body; rewrite length_take; lia).
  unfold declared at 1. rewrite <- Hl4 at 1. rewrite be_bytes_value by done. unfold body. by rewrite !take_drop.
Qed.
End link.

(** C27. What is written on a link is what is read.  Frames written one after another,
    each by any schedule of partial writes that ends in success, are read back from the
    other end exactly, in order, leaving what follows them untouched; and whatever a
    reader accepts from any bytes is the one encoding of the frame it returns. *)
Theorem mux_link_roundtrip max_control frames rest closed :
  max_control + 128 <= u32_max -> Forall frame_typed frames ->
  (forall outs, Forall2 (fun f out => exists events flush,
                   write_mux_frame events flush f max_control = (out, Ok ())) frames outs ->
     read_frames (length frames) (concat outs ++ rest) closed max_control = Ok (frames, rest)) /\
  (forall stream f rest', byte_string stream ->
     read_mux_frame stream closed max_control = Ok (f, rest') ->
     exists out, write_mux_frame [Wrote (length out)] (Some (Ok ())) f max_control = (out, Ok ()) /\
       stream = out ++ rest').
Proof.
  intros Hmax Hfs. split.
  - induction Hfs as [|f frames Hf _ IH]; intros outs Houts; inversion Houts as [|? out ? outs' Hw Hrest]; subst; [done|].
    destruct Hw as (events & flush & Hw). apply write_ok in Hw as (body & He & ->); [|done].
    cbn [concat length read_frames]. rewrite <- (app_assoc _ (concat outs')). rewrite (read_written _ Hmax f) by done.
    cbn [mbind result_bind]. by rewrite (IH outs' Hrest).
  - intros stream f rest' Hb Hr. apply read_inv in Hr as (Hf & body & He & ->); [|done..].
    exists (be_bytes 4 (len body) ++ body). split; [|by rewrite <- app_assoc].
    destruct (write_mux_frame _ _ _ _) as [out r] eqn:Hw.
    apply write_mux_frame_inv in Hw as [(e & ? & _)|(body' & n & He' & Hs & ->)]; [congruence| |done].
    rewrite He in He'. apply Ok_inj in He' as <-.
    set (wire := be_bytes 4 (len body) ++ body) in *.
    assert (exists m, length wire = S m) as [m Hm] by (unfold wire; rewrite length_app, length_be_bytes; by eexists).
    cbn [send_loop] in Hs. rewrite decide_False in Hs by lia.
    rewrite Nat.sub_0_r, Nat.min_id, Hm in Hs. rewrite decide_True in Hs by lia. injection Hs as <- <-.
    cbn [Nat.add]. rewrite <- Hm. by rewrite firstn_all.
Qed.

Lemma mux_link_roundtrip_witness :
  let frames := [BulkWindowCredit 3 5; ControlRpcRequest 4 1 2 9 true [7; 8]] in
  exists outs,
    Forall2 (fun f out => exists events flush, write_mux_frame events flush f 1024 = (out, Ok ())) frames outs /\
    read_frames 2 (concat outs ++ [1]) false 1024 = Ok (frames, [1]).
Proof.
  intros frames.
  assert (exists o1 o2, write_mux_frame [Wrote 3; Wrote 40] (Some (Ok ())) (BulkWindowCredit 3 5) 1024 = (o1, Ok ()) /\
    write_mux_frame [Wrote 1; Wrote 100] (Some (Ok ())) (ControlRpcRequest 4 1 2 9 true [7; 8]) 1024 = (o2, Ok ()))
    as (o1 & o2 & H1 & H2) by (do 2 eexists; split; vm_compute; reflexivity).
  assert (Forall2 (fun f out => exists events flush, write_mux_frame events flush f 1024 = (out, Ok ())) frames [o1; o2]) as Hw.
  { constructor; [do 2 eexists; exact H1|]. constructor; [do 2 eexists; exact H2|]. constructor. }
  exists [o1; o2]. split; [exact Hw|].
  apply (mux_link_roundtrip 1024 frames [1] false); [discriminate| |exact Hw].
  constructor; [cbn; width; lia|]. constructor; [|constructor]. cbn. width. split_and!; try lia.
  constructor; [unfold u8; lia|]. constructor; [unfold u8; lia|constructor].
Defined.
