(* ===== verification/Session.v ===== *)
(** * Session: what a multiplexed session does with the frames it receives

    Models the shared state of nlos-net/src/mux.rs and the dispatch of inbound frames
    to it: answers to calls, window credits, and the bulk streams a peer opens, with
    their readers.  Handlers run outside the session; what they do to it are the
    operations [handler_done], [next_chunk] and [reader_drop]. *)

From S2P Require Import Prelude Bytes Cell RemoteCall Mux.

(** ** State *)

Record MuxConfig := {
  max_control_payload_bytes : Z;
  bulk_window_bytes : Z;
  max_concurrent_bulk_streams : Z;
}.

(** The configuration a session runs with. *)
Definition effective_config (c : MuxConfig) : MuxConfig := {|
  max_control_payload_bytes := max_control_payload_bytes c;
  bulk_window_bytes := Z.max (bulk_window_bytes c) MAX_BULK_CHUNK_BYTES;
  max_concurrent_bulk_streams := Z.max (max_concurrent_bulk_streams c) 1
|}.

Record InboundBulkQueue := {
  expected_seq : Z;
  received_bytes : Z;
  buffered_bytes : Z;
  chunks : list bytes;
  finished_verified : option (Z * Z);
  aborted_reason : option string;
}.

(** [hashed] is what the running hash has taken in. *)
Record InboundBulkStreamState := {
  expected_total_bytes : Z;
  window_limit : Z;
  hashed : bytes;
  queue : InboundBulkQueue;
}.

Record SenderBulkFlowState := { credit : Z; flow_failure : option SocketFailureKind }.

(** A stream's state is shared by the table and by the reader of its handler: the
    states are [streams], and the table of inbound streams is the set of those ids that
    are registered in it. *)
Record SharedMuxState := {
  pending_rpcs : gset Z;
  pending_bulk_senders : gmap Z SenderBulkFlowState;
  inbound_bulk_streams : gset Z;
  streams : gmap Z InboundBulkStreamState;
  terminal_failure : option SocketFailureKind;
  shutdown : bool;
  current_bulk_buffered_bytes : Z;
  peak_bulk_buffered_bytes : Z;
}.

#[export] Instance eta_queue : Eta InboundBulkQueue := fun q =>
  Build_InboundBulkQueue (expected_seq q) (received_bytes q) (buffered_bytes q) (chunks q)
    (finished_verified q) (aborted_reason q).
#[export] Instance eta_stream : Eta InboundBulkStreamState := fun s =>
  Build_InboundBulkStreamState (expected_total_bytes s) (window_limit s) (hashed s) (queue s).
#[export] Instance eta_shared : Eta SharedMuxState := fun m =>
  Build_SharedMuxState (pending_rpcs m) (pending_bulk_senders m) (inbound_bulk_streams m) (streams m)
    (terminal_failure m) (shutdown m) (current_bulk_buffered_bytes m) (peak_bulk_buffered_bytes m).
#[export] Instance set_expected_seq : Setter expected_seq. Proof. build_setter. Defined.
#[export] Instance set_received_bytes : Setter received_bytes. Proof. build_setter. Defined.
#[export] Instance set_buffered_bytes : Setter buffered_bytes. Proof. build_setter. Defined.
#[export] Instance set_chunks : Setter chunks. Proof. build_setter. Defined.
#[export] Instance set_finished_verified : Setter finished_verified. Proof. build_setter. Defined.
#[export] Instance set_aborted_reason : Setter aborted_reason. Proof. build_setter. Defined.
#[export] Instance set_hashed : Setter hashed. Proof. build_setter. Defined.
#[export] Instance set_queue : Setter queue. Proof. build_setter. Defined.
#[export] Instance set_pending_rpcs : Setter pending_rpcs. Proof. build_setter. Defined.
#[export] Instance set_pending_bulk_senders : Setter pending_bulk_senders. Proof. build_setter. Defined.
#[export] Instance set_inbound_bulk_streams : Setter inbound_bulk_streams. Proof. build_setter. Defined.
#[export] Instance set_streams : Setter streams. Proof. build_setter. Defined.
#[export] Instance set_terminal_failure : Setter terminal_failure. Proof. build_setter. Defined.
#[export] Instance set_shutdown : Setter shutdown. Proof. build_setter. Defined.
#[export] Instance set_current_bulk_buffered_bytes : Setter current_bulk_buffered_bytes. Proof. build_setter. Defined.
#[export] Instance set_peak_bulk_buffered_bytes : Setter peak_bulk_buffered_bytes. Proof. build_setter. Defined.

Definition shared_new : SharedMuxState := {|
  pending_rpcs := ∅; pending_bulk_senders := ∅; inbound_bulk_streams := ∅; streams := ∅;
  terminal_failure := None; shutdown := false; current_bulk_buffered_bytes := 0; peak_bulk_buffered_bytes := 0
|}.

(** What a dispatch makes happen outside the shared state. *)
Inductive mux_event :=
  | SendHigh (frame : MuxFrame)
  | SpawnRpcHandler (stream_id call_id idempotency_key deadline_tick : Z) (side_effecting : bool) (payload : bytes)
  | AnswerRpc (stream_id : Z) (response : result SocketFailureKind MuxFrame)
  | AnswerBulk (stream_id : Z) (ack : result SocketFailureKind (Z * Z * Z * bool))
  | SpawnBulkHandler (stream_id call_id idempotency_key total_bytes : Z).

(** ** Failure *)

Definition abort_stream (reason : string) (st : InboundBulkStreamState) : InboundBulkStreamState :=
  st <| queue := queue st <| aborted_reason := Some reason |> |>.

Definition record_failure_and_abort_all (m : SharedMuxState) (kind : SocketFailureKind) :
    SharedMuxState * list mux_event :=
  let term := match terminal_failure m with Some k => Some k | None => Some kind end in
  let events := ((fun s => AnswerRpc s (Err kind)) <$> elements (pending_rpcs m))
                ++ ((fun s => AnswerBulk s (Err kind)) <$> elements (dom (pending_bulk_senders m))) in
  (m <| terminal_failure := term |> <| shutdown := true |> <| pending_rpcs := ∅ |> <| pending_bulk_senders := ∅ |>
     <| inbound_bulk_streams := ∅ |>
     <| streams := map_imap (fun s st => Some (if decide (s ∈ inbound_bulk_streams m)
                      then abort_stream "multiplexed connection closed during bulk stream" st else st))
                     (streams m) |>,
   events).

(** ** Dispatch *)

Definition open_stream (config : MuxConfig) (total_bytes : Z) : InboundBulkStreamState := {|
  expected_total_bytes := total_bytes;
  window_limit := bulk_window_bytes config;
  hashed := [];
  queue := {| expected_seq := 0; received_bytes := 0; buffered_bytes := 0; chunks := [];
              finished_verified := None; aborted_reason := None |}
|}.

Definition with_stream (m : SharedMuxState) (s : Z) (st : InboundBulkStreamState) : SharedMuxState :=
  m <| streams := <[s := st]> (streams m) |>.

(** The registered stream of an id. *)
Definition inbound (m : SharedMuxState) (s : Z) : option InboundBulkStreamState :=
  if decide (s ∈ inbound_bulk_streams m) then streams m !! s else None.

Definition dispatch_chunk (m : SharedMuxState) (s chunk_seq : Z) (data : bytes) : SharedMuxState * bool :=
  match inbound m s with
  | None => (m, false)
  | Some st =>
      let q := queue st in
      let fail reason := (with_stream m s (abort_stream reason st), false) in
      if decide (expected_seq q <> chunk_seq) then fail "out-of-sequence BulkChunk"%string else
      if decide (saturating_add64 (buffered_bytes q) (len data) > window_limit st)
      then fail "peer exceeded BulkWindowCredit limit"%string else
      if decide (saturating_add64 (received_bytes q) (len data) > expected_total_bytes st)
      then fail "BulkChunk exceeded declared total_bytes"%string else
      let q := q <| expected_seq := saturating_add32 (expected_seq q) 1 |>
                 <| received_bytes := saturating_add64 (received_bytes q) (len data) |>
                 <| buffered_bytes := buffered_bytes q + len data |>
                 <| chunks := chunks q ++ [data] |> in
      let total_buf := current_bulk_buffered_bytes m + len data in
      (with_stream m s (st <| hashed := hashed st ++ data |> <| queue := q |>)
         <| current_bulk_buffered_bytes := total_buf |>
         <| peak_bulk_buffered_bytes := Z.max (peak_bulk_buffered_bytes m) total_buf |>, true)
  end.

Definition dispatch_finish `{Sha256} (m : SharedMuxState) (s total_chunks total_bytes digest : Z) :
    SharedMuxState * bool :=
  match inbound m s with
  | None => (m, false)
  | Some st =>
      let q := queue st in
      let fail reason := (with_stream m s (abort_stream reason st), false) in
      if decide (expected_seq q <> total_chunks \/ received_bytes q <> total_bytes
                 \/ total_bytes <> expected_total_bytes st)
      then fail "BulkStreamFinish count mismatch"%string else
      if decide (sha256 (hashed st) <> digest) then fail "BulkStreamFinish SHA-256 digest mismatch"%string else
      (with_stream m s (st <| queue := q <| finished_verified := Some (total_bytes, digest) |> |>), true)
  end.

(** [rpc_handler] and [bulk_handler] say whether the session has one;
    [local_epoch] is the epoch of the local claims. *)
Definition dispatch_inbound_frame `{Sha256} (config : MuxConfig) (local_epoch : Z) (rpc_handler bulk_handler : bool)
    (m : SharedMuxState) (frame : MuxFrame) : SharedMuxState * list mux_event * bool :=
  match frame with
  | ControlRpcRequest s call_id key deadline side_effecting payload =>
      (m, [if rpc_handler then SpawnRpcHandler s call_id key deadline side_effecting payload
           else SendHigh (ControlRpcResponse s local_epoch false PreExecutionUnavailable [])], true)
  | ControlRpcResponse s _ _ _ _ =>
      if decide (s ∈ pending_rpcs m)
      then (m <| pending_rpcs := pending_rpcs m ∖ {[s]} |>, [AnswerRpc s (Ok frame)], true)
      else (m, [], true)
  | BulkWindowCredit s granted =>
      match pending_bulk_senders m !! s with
      | Some flow =>
          let flow := {| credit := saturating_add64 (credit flow) granted; flow_failure := flow_failure flow |} in
          (m <| pending_bulk_senders := <[s := flow]> (pending_bulk_senders m) |>, [], true)
      | None => (m, [], true)
      end
  | BulkStreamCompleteAck s epoch verified_bytes digest replayed =>
      match pending_bulk_senders m !! s with
      | Some _ => (m <| pending_bulk_senders := delete s (pending_bulk_senders m) |>,
                   [AnswerBulk s (Ok (epoch, verified_bytes, digest, replayed))], true)
      | None => (m, [], true)
      end
  | BulkStreamOpen s call_id key total_bytes =>
      if negb bulk_handler then (m, [], false) else
      if decide (Z.of_nat (size (inbound_bulk_streams m)) >= Z.max (max_concurrent_bulk_streams config) 1
                 \/ s ∈ inbound_bulk_streams m)
      then (m, [], false) else
      (with_stream m s (open_stream config total_bytes)
         <| inbound_bulk_streams := {[s]} ∪ inbound_bulk_streams m |>,
       [SpawnBulkHandler s call_id key total_bytes], true)
  | BulkChunk s chunk_seq data =>
      let '(m, go_on) := dispatch_chunk m s chunk_seq data in (m, [], go_on)
  | BulkStreamFinish s total_chunks total_bytes digest =>
      let '(m, go_on) := dispatch_finish m s total_chunks total_bytes digest in (m, [], go_on)
  end.

(** One turn of the reader loop: a dispatch that says stop ends the session. *)
Definition receive `{Sha256} (config : MuxConfig) (local_epoch : Z) (rpc_handler bulk_handler : bool)
    (m : SharedMuxState) (frame : MuxFrame) : SharedMuxState * list mux_event :=
  if shutdown m then (m, []) else
  let '(m, events, go_on) := dispatch_inbound_frame config local_epoch rpc_handler bulk_handler m frame in
  if go_on then (m, events)
  else let '(m, aborted) := record_failure_and_abort_all m UnexpectedEofOrTlsTruncation in (m, events ++ aborted).

(** ** Readers and handlers *)

Inductive ChunkRead := ReadError (reason : string) | ReadChunk (data : bytes) | ReadEnd | ReadWaits.

(** One look of [next_chunk] at its queue; [ReadWaits] is where it awaits a notice. *)
Definition next_chunk (m : SharedMuxState) (s : Z) : SharedMuxState * list mux_event * ChunkRead :=
  match streams m !! s with
  | None => (m, [], ReadWaits)
  | Some st =>
      let q := queue st in
      match aborted_reason q with
      | Some reason => (m, [], ReadError reason)
      | None =>
          match chunks q with
          | chunk :: rest =>
              let q := q <| buffered_bytes := Z.max (buffered_bytes q - len chunk) 0 |> <| chunks := rest |> in
              (with_stream m s (st <| queue := q |>)
                 <| current_bulk_buffered_bytes := current_bulk_buffered_bytes m - len chunk |>,
               if decide (len chunk <= u32_max) then [SendHigh (BulkWindowCredit s (len chunk))] else [],
               ReadChunk chunk)
          | [] => (m, [], match finished_verified q with Some _ => ReadEnd | None => ReadWaits end)
          end
      end
  end.

Definition reader_drop (m : SharedMuxState) (s : Z) : SharedMuxState :=
  match streams m !! s with
  | Some st =>
      let q := queue st in
      if decide (buffered_bytes q > 0)
      then with_stream m s (st <| queue := q <| buffered_bytes := 0 |> <| chunks := [] |> |>)
             <| current_bulk_buffered_bytes := current_bulk_buffered_bytes m - buffered_bytes q |>
      else m
  | None => m
  end.

(** The handler of a stream returns: with an epoch and whether it was a replay, or
    with an error. *)
Definition handler_done (m : SharedMuxState) (s : Z) (completion : option (Z * bool)) :
    SharedMuxState * list mux_event :=
  let m' := m <| inbound_bulk_streams := inbound_bulk_streams m ∖ {[s]} |> in
  (m', match completion, st ← streams m !! s; finished_verified (queue st) with
       | Some (epoch, replayed), Some (verified_bytes, digest) =>
           [SendHigh (BulkStreamCompleteAck s epoch verified_bytes digest replayed)]
       | _, _ => []
       end).

(** ** Memory *)

Inductive session_op :=
  | OpReceive (frame : MuxFrame)
  | OpNextChunk (s : Z)
  | OpReaderDrop (s : Z)
  | OpHandlerDone (s : Z) (completion : option (Z * bool))
  | OpFail (kind : SocketFailureKind).

Definition session_step `{Sha256} (config : MuxConfig) (local_epoch : Z) (rpc_handler bulk_handler : bool)
    (m : SharedMuxState) (o : session_op) : SharedMuxState :=
  match o with
  | OpReceive frame => (receive config local_epoch rpc_handler bulk_handler m frame).1
  | OpNextChunk s => (next_chunk m s).1.1
  | OpReaderDrop s => reader_drop m s
  | OpHandlerDone s completion => (handler_done m s completion).1
  | OpFail kind => (record_failure_and_abort_all m kind).1
  end.

Definition total_len (l : list bytes) : Z := foldr (fun b acc => len b + acc) 0 l.

Section memory.
Context `{Sha256} (config : MuxConfig) (Hwindow : bulk_window_bytes config < u64_max).
Implicit Types (m : SharedMuxState) (st : InboundBulkStreamState).

(** A stream holds what its counter says, within its window. *)
Record stream_ok st : Prop := {
  so_window : window_limit st = bulk_window_bytes config;
  so_count : buffered_bytes (queue st) = total_len (chunks (queue st));
  so_bound : buffered_bytes (queue st) <= bulk_window_bytes config;
}.

Record session_ok m : Prop := {
  ses_streams : map_Forall (fun _ => stream_ok) (streams m);
  ses_known : inbound_bulk_streams m ⊆ dom (streams m);
  ses_count : Z.of_nat (size (inbound_bulk_streams m)) <= Z.max (max_concurrent_bulk_streams config) 1;
}.

Lemma len_nonneg b : 0 <= len b.
Proof. unfold len. lia. Qed.

Lemma total_len_nonneg l : 0 <= total_len l.
Proof. unfold total_len. induction l as [|b l IH]; cbn; [done|]. pose proof (len_nonneg b). lia. Qed.

Lemma total_len_app l k : total_len (l ++ k) = total_len l + total_len k.
Proof. unfold total_len. induction l as [|b l IH]; cbn; lia. Qed.

Lemma with_stream_ok m s st : session_ok m -> stream_ok st -> session_ok (with_stream m s st).
Proof.
  intros [Hs Hk Hc] Hst. split; [by apply map_Forall_insert_2| |done]. cbn. set_solver.
Qed.

Lemma abort_stream_ok reason st : stream_ok st -> stream_ok (abort_stream reason st).
Proof. by intros [? ? ?]. Qed.

Lemma inbound_ok m s st : session_ok m -> inbound m s = Some st -> stream_ok st.
Proof. intros Hm. unfold inbound. case_decide; [|done]. by apply (ses_streams _ Hm). Qed.

Lemma dispatch_chunk_ok m s q data : session_ok m -> session_ok (dispatch_chunk m s q data).1.
Proof.
  intros Hm. unfold dispatch_chunk. destruct (inbound m s) as [st|] eqn:Hst; [|done].
  pose proof (inbound_ok _ _ _ Hm Hst) as Hok. cbv zeta.
  case_decide; [by apply with_stream_ok, abort_stream_ok|]. case_decide as Hw; [by apply with_stream_ok, abort_stream_ok|].
  case_decide; [by apply with_stream_ok, abort_stream_ok|].
  enough (stream_ok (st <| hashed := hashed st ++ data |> <| queue := queue st
    <| expected_seq := saturating_add32 (expected_seq (queue st)) 1 |>
    <| received_bytes := saturating_add64 (received_bytes (queue st)) (len data) |>
    <| buffered_bytes := buffered_bytes (queue st) + len data |>
    <| chunks := chunks (queue st) ++ [data] |> |>)) as Hnew.
  { pose proof (with_stream_ok m s _ Hm Hnew) as [? ? ?]. by split. }
  destruct Hok as [Hwl Hcnt Hb]. split; cbn; [done| |].
  - rewrite total_len_app, Hcnt. cbn. lia.
  - unfold saturating_add64 in Hw. rewrite Hwl in Hw. lia.
Qed.

Lemma dispatch_finish_ok m s n t d : session_ok m -> session_ok (dispatch_finish m s n t d).1.
Proof.
  intros Hm. unfold dispatch_finish. destruct (inbound m s) as [st|] eqn:Hst; [|done].
  pose proof (inbound_ok _ _ _ Hm Hst) as Hok. cbv zeta.
  case_decide; [by apply with_stream_ok, abort_stream_ok|]. case_decide; [by apply with_stream_ok, abort_stream_ok|].
  apply with_stream_ok; [done|]. by destruct Hok.
Qed.

Lemma abort_all_ok m kind : session_ok m -> session_ok (record_failure_and_abort_all m kind).1.
Proof.
  intros [Hs Hk Hc]. unfold record_failure_and_abort_all. cbn [fst]. split; cbn.
  - intros s st Hst. rewrite map_lookup_imap in Hst. destruct (streams m !! s) as [st0|] eqn:Hl; [|done].
    cbn in Hst. injection Hst as <-. pose proof (Hs s st0 Hl). case_decide; [by apply abort_stream_ok|done].
  - set_solver.
  - rewrite size_empty. lia.
Qed.

Lemma open_ok m s total :
  session_ok m -> Z.of_nat (size (inbound_bulk_streams m)) < Z.max (max_concurrent_bulk_streams config) 1 ->
  s ∉ inbound_bulk_streams m -> 0 <= bulk_window_bytes config ->
  session_ok (with_stream m s (open_stream config total) <| inbound_bulk_streams := {[s]} ∪ inbound_bulk_streams m |>).
Proof.
  intros [Hs Hk Hc] Hsize Hnew Hpos. split; cbn.
  - apply map_Forall_insert_2; [by split|done].
  - set_solver.
  - rewrite size_union, size_singleton by set_solver. lia.
Qed.

Lemma total_len_tail b l st :
  stream_ok st -> chunks (queue st) = b :: l ->
  Z.max (buffered_bytes (queue st) - len b) 0 = total_len l.
Proof.
  intros [_ Hc _] Hl. rewrite Hc, Hl. pose proof (total_len_nonneg l). cbn. unfold total_len in *. lia.
Qed.

Lemma next_chunk_ok m s : session_ok m -> session_ok (next_chunk m s).1.1.
Proof.
  intros Hm. unfold next_chunk. destruct (streams m !! s) as [st|] eqn:Hst; [|done]. cbv zeta.
  pose proof (ses_streams _ Hm s st Hst) as Hok. destruct (aborted_reason (queue st)); [done|].
  destruct (chunks (queue st)) as [|b l] eqn:Hl; [done|]. cbn [fst].
  pose proof (total_len_tail b l st Hok Hl) as Ht.
  enough (stream_ok (st <| queue := queue st <| buffered_bytes := Z.max (buffered_bytes (queue st) - len b) 0 |>
    <| chunks := l |> |>)) as Hnew.
  { pose proof (with_stream_ok m s _ Hm Hnew) as [? ? ?]. by split. }
  destruct Hok as [Hw Hc Hb]. split; cbn; [done|done|]. pose proof (len_nonneg b).
  pose proof (total_len_nonneg (chunks (queue st))). lia.
Qed.

Lemma reader_drop_ok m s : 0 <= bulk_window_bytes config -> session_ok m -> session_ok (reader_drop m s).
Proof.
  intros Hpos Hm. unfold reader_drop. destruct (streams m !! s) as [st|] eqn:Hst; [|done]. cbv zeta. case_decide; [|done].
  enough (stream_ok (st <| queue := queue st <| buffered_bytes := 0 |> <| chunks := [] |> |>)) as Hnew.
  { pose proof (with_stream_ok m s _ Hm Hnew) as [? ? ?]. by split. }
  destruct (ses_streams _ Hm s st Hst) as [Hw _ _]. by split.
Qed.

Lemma handler_done_ok m s completion : session_ok m -> session_ok (handler_done m s completion).1.
Proof.
  intros [Hs Hk Hc]. split; cbn; [done|set_solver|].
  pose proof (subseteq_size (inbound_bulk_streams m ∖ {[s]}) (inbound_bulk_streams m) ltac:(set_solver)). lia.
Qed.

Lemma receive_ok epoch rpc bulk m frame :
  0 <= bulk_window_bytes config -> session_ok m -> session_ok (receive config epoch rpc bulk m frame).1.
Proof.
  intros Hpos Hm. unfold receive. destruct (shutdown m); [done|].
  enough (session_ok (dispatch_inbound_frame config epoch rpc bulk m frame).1.1) as Hd.
  { destruct (dispatch_inbound_frame _ _ _ _ _ _) as [[m' ev] []]; [done|]. cbn in Hd.
    pose proof (abort_all_ok m' UnexpectedEofOrTlsTruncation Hd). by destruct (record_failure_and_abort_all _ _). }
  assert (forall f : SharedMuxState -> SharedMuxState,
    (streams (f m) = streams m /\ inbound_bulk_streams (f m) = inbound_bulk_streams m) -> session_ok (f m)) as Hsame.
  { intros f [E1 E2]. destruct Hm as [? ? ?]. split; by rewrite ?E1, ?E2. }
  destruct frame as [| s e r t p|s c k t|s q d|s g|s n t d|s e v d r]; cbn [dispatch_inbound_frame]; [done|..].
  - case_decide; [|done]. by apply (Hsame (fun m => m <| pending_rpcs := _ |>)).
  - destruct bulk; [|done]. cbn [negb]. case_decide; [done|]. apply open_ok; [done|lia|tauto|done].
  - pose proof (dispatch_chunk_ok m s q d Hm) as Hd. by destruct (dispatch_chunk m s q d).
  - destruct (pending_bulk_senders m !! s); [|done]. by apply (Hsame (fun m => m <| pending_bulk_senders := _ |>)).
  - pose proof (dispatch_finish_ok m s n t d Hm) as Hd. by destruct (dispatch_finish m s n t d).
  - destruct (pending_bulk_senders m !! s); [|done]. by apply (Hsame (fun m => m <| pending_bulk_senders := _ |>)).
Qed.

Lemma session_step_ok epoch rpc bulk m o :
  0 <= bulk_window_bytes config -> session_ok m -> session_ok (session_step config epoch rpc bulk m o).
Proof.
  intros Hpos Hm. destruct o; cbn [session_step];
    auto using receive_ok, next_chunk_ok, reader_drop_ok, handler_done_ok, abort_all_ok.
Qed.
End memory.

(** What the session buffers for its registered streams. *)
Definition held (m : SharedMuxState) (s : Z) : Z :=
  from_option (fun st => total_len (chunks (queue st))) 0 (streams m !! s).

Definition total_held (m : SharedMuxState) : Z :=
  foldr (fun s acc => held m s + acc) 0 (elements (inbound_bulk_streams m)).

Lemma foldr_sum_bound {A} (f : A -> Z) (b : Z) (l : list A) :
  (forall x, x ∈ l -> f x <= b) -> foldr (fun x acc => f x + acc) 0 l <= Z.of_nat (length l) * b.
Proof.
  induction l as [|x l IH]; intros Hl; cbn [foldr length]; [lia|].
  assert (f x <= b) by (apply Hl; by left). assert (forall y, y ∈ l -> f y <= b) as Hl' by (intros y Hy; apply Hl; by right).
  specialize (IH Hl'). lia.
Qed.

Lemma session_run_ok `{Sha256} c epoch rpc bulk ops :
  bulk_window_bytes c < u64_max ->
  session_ok (effective_config c) (foldl (session_step (effective_config c) epoch rpc bulk) shared_new ops).
Proof.
  intros Hw. assert (bulk_window_bytes (effective_config c) < u64_max /\ 0 <= bulk_window_bytes (effective_config c)) as [Hlt Hpos]
    by (cbn; unfold MAX_BULK_CHUNK_BYTES, u64_max in *; lia).
  assert (session_ok (effective_config c) shared_new) as Hnew.
  { split; cbn; [apply map_Forall_empty|set_solver|rewrite size_empty; lia]. }
  revert Hnew. generalize shared_new. induction ops as [|o ops IH]; [done|]. intros m Hm.
  apply IH. by apply session_step_ok.
Qed.

(** C26. The memory a peer can make a session hold is bounded.  Whatever frames the
    peer sends, in whatever order with the handlers' reads, drops and returns and with
    failures, no stream ever holds more unread bytes than the window, there are never
    more streams than configured, and so all of them together hold at most the product
    of the two. *)
Theorem bulk_memory_bounded `{Sha256} c epoch rpc bulk ops :
  bulk_window_bytes c < u64_max ->
  let config := effective_config c in
  let m := foldl (session_step config epoch rpc bulk) shared_new ops in
  (forall s, held m s <= bulk_window_bytes config) /\
  Z.of_nat (size (inbound_bulk_streams m)) <= max_concurrent_bulk_streams config /\
  total_held m <= max_concurrent_bulk_streams config * bulk_window_bytes config.
Proof.
  intros Hw config m. pose proof (session_run_ok c epoch rpc bulk ops Hw) as Hm.
  change (session_ok config m) in Hm. clearbody m.
  assert (0 <= bulk_window_bytes config) as Hpos by (cbn; unfold MAX_BULK_CHUNK_BYTES; lia).
  assert (forall s, held m s <= bulk_window_bytes config) as Hheld.
  { intros s. unfold held. destruct (streams m !! s) as [st|] eqn:Hst; cbn [from_option]; [|done].
    destruct (ses_streams _ _ Hm s st Hst) as [_ Hc Hb]. lia. }
  pose proof (ses_count _ _ Hm) as Hcount. cbn [config effective_config max_concurrent_bulk_streams] in *.
  split_and!; [done|lia|]. unfold total_held. etrans; [apply foldr_sum_bound; intros; by apply Hheld|].
  change (length (elements (inbound_bulk_streams m))) with (size (inbound_bulk_streams m)).
  apply Z.mul_le_mono_nonneg_r; lia.
Qed.

Lemma bulk_memory_bounded_witness :
  let c := {| max_control_payload_bytes := 1024; bulk_window_bytes := 1; max_concurrent_bulk_streams := 0 |} in
  let m := foldl (session_step (H := checksum_hasher) (effective_config c) 1 false true) shared_new
             [OpReceive (BulkStreamOpen 4 1 2 5); OpReceive (BulkChunk 4 0 [1; 2; 3])] in
  held m 4 = 3 /\ held m 4 <= 65536 /\ total_held m <= 1 * 65536.
Proof.
  intros c m. split; [vm_compute; reflexivity|].
  destruct (bulk_memory_bounded (H := checksum_hasher) c 1 false true
    [OpReceive (BulkStreamOpen 4 1 2 5); OpReceive (BulkChunk 4 0 [1; 2; 3])] ltac:(vm_compute; reflexivity)) as (H1 & _ & H3).
  split; [exact (H1 4)|exact H3].
Defined.
