(* ===== verification/BulkFlow.v ===== *)
(** * BulkFlow: a bulk transfer from one end of a link to the other

    Models the sending side of a bulk stream, [send_bulk_chunks] of
    nlos-net/src/mux.rs, and runs it against the receiving side of Session.v over a
    link that keeps frames in order each way. *)

From S2P Require Import Prelude Bytes Cell RemoteCall Mux Session.

(** ** The sender *)

Record BulkSender := {
  bs_stream : Z;
  bs_total_bytes : Z;
  todo : list bytes;
  sent_bytes : Z;
  chunk_seq : Z;
  bs_hashed : bytes;
}.

Definition sender_new (stream_id total_bytes : Z) (l : list bytes) : BulkSender :=
  {| bs_stream := stream_id; bs_total_bytes := total_bytes; todo := l; sent_bytes := 0; chunk_seq := 0; bs_hashed := [] |}.

Definition open_frame (c : RemoteCallContract) (b : BulkSender) : MuxFrame :=
  BulkStreamOpen (bs_stream b) (call_id c) (idempotency_key c) (bs_total_bytes b).

(** One turn of the sending loop, under the stream's credit. *)
Inductive SenderMove :=
  | SenderFails (kind : SocketFailureKind)
  | SenderWaits
  | SenderEmits (frame : MuxFrame) (b : BulkSender) (flow : SenderBulkFlowState)
  | SenderFinishes (frame : MuxFrame).

Definition sender_next `{Sha256} (b : BulkSender) (flow : SenderBulkFlowState) : SenderMove :=
  match todo b with
  | chunk :: rest =>
      if decide (chunk = [] \/ len chunk > MAX_BULK_CHUNK_BYTES)
      then SenderFails (TransportIoOther IoInvalidInput) else
      if decide (saturating_add64 (sent_bytes b) (len chunk) > bs_total_bytes b)
      then SenderFails (TransportIoOther IoInvalidData) else
      match flow_failure flow with
      | Some kind => SenderFails kind
      | None =>
          if decide (credit flow >= len chunk) then
            SenderEmits (BulkChunk (bs_stream b) (chunk_seq b) chunk)
              {| bs_stream := bs_stream b; bs_total_bytes := bs_total_bytes b; todo := rest;
                 sent_bytes := saturating_add64 (sent_bytes b) (len chunk);
                 chunk_seq := saturating_add32 (chunk_seq b) 1; bs_hashed := bs_hashed b ++ chunk |}
              {| credit := credit flow - len chunk; flow_failure := None |}
          else SenderWaits
      end
  | [] =>
      if decide (sent_bytes b <> bs_total_bytes b) then SenderFails (TransportIoOther IoInvalidData)
      else SenderFinishes (BulkStreamFinish (bs_stream b) (chunk_seq b) (sent_bytes b) (sha256 (bs_hashed b)))
  end.

Record BulkTransferReceipt := {
  rc_stream_id : Z; rc_verified_bytes : Z; rc_total_chunks : Z; rc_verified_sha256 : Z;
}.

(** The acknowledgement, checked against what was sent. *)
Definition sender_acked `{Sha256} (b : BulkSender) (ack : result SocketFailureKind (Z * Z * Z * bool)) :
    result SocketFailureKind (Z * bool * BulkTransferReceipt) :=
  match ack with
  | Ok (epoch, verified_bytes, verified_sha256, replayed) =>
      if decide (verified_bytes <> sent_bytes b \/ verified_sha256 <> sha256 (bs_hashed b))
      then Err UnexpectedEofOrTlsTruncation
      else Ok (epoch, replayed, {| rc_stream_id := bs_stream b; rc_verified_bytes := verified_bytes;
                                   rc_total_chunks := chunk_seq b; rc_verified_sha256 := verified_sha256 |})
  | Err kind => Err kind
  end.

(** ** The link *)

Record Link := {
  l_sender : BulkSender;
  l_finishing : bool;
  l_tx : SharedMuxState;
  l_forward : list MuxFrame;
  l_rx : SharedMuxState;
  l_back : list MuxFrame;
  l_read : list bytes;
  l_eof : bool;
  l_handled : bool;
  l_result : option (result SocketFailureKind (Z * bool * BulkTransferReceipt));
}.

Inductive link_op := LSend | LDeliver | LRead | LHandled (epoch : Z) (replayed : bool) | LReturn.

(** The frames a step puts on the way back. *)
Definition high_frames (events : list mux_event) : list MuxFrame :=
  omap (fun e => match e with SendHigh f => Some f | _ => None end) events.

Definition bulk_answer (s : Z) (events : list mux_event) : option (result SocketFailureKind (Z * Z * Z * bool)) :=
  head (omap (fun e => match e with AnswerBulk s' ack => if decide (s' = s) then Some ack else None | _ => None end) events).

Definition link_start (config : MuxConfig) (c : RemoteCallContract) (b : BulkSender) : Link := {|
  l_sender := b; l_finishing := false;
  l_tx := shared_new <| pending_bulk_senders :=
            {[bs_stream b := {| credit := bulk_window_bytes config; flow_failure := None |}]} |>;
  l_forward := [open_frame c b]; l_rx := shared_new; l_back := []; l_read := []; l_eof := false;
  l_handled := false; l_result := None
|}.

(** [tx_config] and [rx_config] are the configurations the two ends run with; the
    receiving end has a bulk handler.  [None] when the step cannot be taken now. *)
Definition link_step `{Sha256} (tx_config rx_config : MuxConfig) (l : Link) (o : link_op) : option Link :=
  let s := bs_stream (l_sender l) in
  match o with
  | LSend =>
      if l_finishing l then None else
      flow ← pending_bulk_senders (l_tx l) !! s;
      match sender_next (l_sender l) flow with
      | SenderEmits frame b flow => Some
          {| l_sender := b; l_finishing := false;
             l_tx := l_tx l <| pending_bulk_senders := <[s := flow]> (pending_bulk_senders (l_tx l)) |>;
             l_forward := l_forward l ++ [frame]; l_rx := l_rx l; l_back := l_back l; l_read := l_read l;
             l_eof := l_eof l; l_handled := l_handled l; l_result := l_result l |}
      | SenderFinishes frame => Some
          {| l_sender := l_sender l; l_finishing := true; l_tx := l_tx l; l_forward := l_forward l ++ [frame];
             l_rx := l_rx l; l_back := l_back l; l_read := l_read l; l_eof := l_eof l;
             l_handled := l_handled l; l_result := l_result l |}
      | SenderFails kind => Some
          {| l_sender := l_sender l; l_finishing := true; l_tx := (record_failure_and_abort_all (l_tx l) kind).1;
             l_forward := l_forward l; l_rx := l_rx l; l_back := l_back l; l_read := l_read l; l_eof := l_eof l;
             l_handled := l_handled l; l_result := Some (Err kind) |}
      | SenderWaits => None
      end
  | LDeliver =>
      match l_forward l with
      | frame :: rest =>
          let '(m, events) := receive rx_config 0 false true (l_rx l) frame in Some
          {| l_sender := l_sender l; l_finishing := l_finishing l; l_tx := l_tx l; l_forward := rest; l_rx := m;
             l_back := l_back l ++ high_frames events; l_read := l_read l; l_eof := l_eof l;
             l_handled := l_handled l; l_result := l_result l |}
      | [] => None
      end
  | LRead =>
      if l_eof l then None else
      let '(m, events, r) := next_chunk (l_rx l) s in
      match r with
      | ReadChunk data => Some
          {| l_sender := l_sender l; l_finishing := l_finishing l; l_tx := l_tx l; l_forward := l_forward l;
             l_rx := m; l_back := l_back l ++ high_frames events; l_read := l_read l ++ [data]; l_eof := false;
             l_handled := l_handled l; l_result := l_result l |}
      | ReadEnd => Some
          {| l_sender := l_sender l; l_finishing := l_finishing l; l_tx := l_tx l; l_forward := l_forward l;
             l_rx := m; l_back := l_back l; l_read := l_read l; l_eof := true;
             l_handled := l_handled l; l_result := l_result l |}
      | ReadError _ | ReadWaits => None
      end
  | LHandled epoch replayed =>
      if negb (l_eof l) || l_handled l then None else
      let '(m, events) := handler_done (l_rx l) s (Some (epoch, replayed)) in Some
      {| l_sender := l_sender l; l_finishing := l_finishing l; l_tx := l_tx l; l_forward := l_forward l;
         l_rx := m; l_back := l_back l ++ high_frames events; l_read := l_read l; l_eof := true;
         l_handled := true; l_result := l_result l |}
  | LReturn =>
      match l_back l with
      | frame :: rest =>
          let '(m, events) := receive tx_config 0 false true (l_tx l) frame in Some
          {| l_sender := l_sender l; l_finishing := l_finishing l; l_tx := m; l_forward := l_forward l;
             l_rx := l_rx l; l_back := rest; l_read := l_read l; l_eof := l_eof l; l_handled := l_handled l;
             l_result := match bulk_answer s events with
                         | Some ack => Some (sender_acked (l_sender l) ack)
                         | None => l_result l
                         end |}
      | [] => None
      end
  end.

Fixpoint link_run `{Sha256} (tx_config rx_config : MuxConfig) (l : Link) (ops : list link_op) : option Link :=
  match ops with
  | [] => Some l
  | o :: ops => l ← link_step tx_config rx_config l o; link_run tx_config rx_config l ops
  end.

(** ** Work left *)

Definition unread (m : SharedMuxState) (s : Z) : nat :=
  match streams m !! s with Some st => length (chunks (queue st)) | None => O end.

Definition work (l : Link) : nat :=
  4 * length (todo (l_sender l)) + 3 * length (l_forward l) + 2 * unread (l_rx l) (bs_stream (l_sender l))
  + length (l_back l) + (if l_finishing l then 0 else 4) + (if l_eof l then 0 else 3) + (if l_handled l then 0 else 2).

Section work.
Context `{Sha256}.

Lemma unread_with_stream m q st s :
  unread (with_stream m q st) s = if decide (q = s) then length (chunks (queue st)) else unread m s.
Proof.
  unfold unread, with_stream. cbn [streams set_field set_streams].
  case_decide; subst; [by rewrite lookup_insert_eq|by rewrite lookup_insert_ne].
Qed.

Lemma unread_inbound m q st : inbound m q = Some st -> unread m q = length (chunks (queue st)).
Proof. unfold inbound, unread. case_decide; [|done]. by intros ->. Qed.

Lemma unread_abort m kind s : unread (record_failure_and_abort_all m kind).1 s = unread m s.
Proof.
  unfold record_failure_and_abort_all, unread. cbn [fst streams set_field set_streams].
  rewrite map_lookup_imap. destruct (streams m !! s); [|done]. cbn. by case_decide.
Qed.

Lemma high_frames_none events :
  Forall (fun e => match e with SendHigh _ => False | _ => True end) events -> high_frames events = [].
Proof. unfold high_frames. induction 1 as [|e events He _ IH]; [done|]. by destruct e. Qed.

Lemma abort_sends_nothing m kind : high_frames (record_failure_and_abort_all m kind).2 = [].
Proof. apply high_frames_none, Forall_app. split; apply Forall_fmap, Forall_true; done. Qed.

Lemma dispatch_work config m f s :
  (length (high_frames (dispatch_inbound_frame config 0 false true m f).1.2)
   + 2 * unread (dispatch_inbound_frame config 0 false true m f).1.1 s <= 2 * unread m s + 2)%nat.
Proof.
  assert (forall m', streams m' = streams m -> unread m' s = unread m s) as Hsame by (unfold unread; by intros m' ->).
  destruct f as [q c k d se p|q e r t p|q c k t|q n d|q g|q n t d|q e v d r]; cbn [dispatch_inbound_frame negb].
  - cbn. lia.
  - case_decide; cbn [fst snd]; [rewrite Hsame by done|]; cbn; lia.
  - case_decide; cbn [fst snd high_frames omap list_omap length]; [lia|].
    transitivity (2 * unread (with_stream m q (open_stream config t)) s)%nat; [done|].
    rewrite unread_with_stream. case_decide; cbn; lia.
  - unfold dispatch_chunk. destruct (inbound m q) as [st|] eqn:Hin; [|cbn; lia]. apply unread_inbound in Hin. cbv zeta.
    repeat case_decide; cbn [fst snd high_frames omap list_omap length]; rewrite ?unread_with_stream.
    1-3: case_decide; subst; [rewrite Hin|]; cbn; lia.
    match goal with |- context [unread (set_field _ _ (set_field _ _ (with_stream m q ?st'))) s] =>
      transitivity (2 * unread (with_stream m q st') s)%nat; [done|] end.
    rewrite unread_with_stream. case_decide; subst; [rewrite Hin; cbn; rewrite length_app; cbn|]; lia.
  - destruct (pending_bulk_senders m !! q); cbn [fst snd]; [rewrite Hsame by done|]; cbn; lia.
  - unfold dispatch_finish. destruct (inbound m q) as [st|] eqn:Hin; [|cbn; lia]. apply unread_inbound in Hin. cbv zeta.
    repeat case_decide; cbn [fst snd high_frames omap list_omap length]; rewrite ?unread_with_stream;
      (case_decide; subst; [rewrite Hin|]; cbn; lia).
  - destruct (pending_bulk_senders m !! q); cbn [fst snd]; [rewrite Hsame by done|]; cbn; lia.
Qed.

Lemma receive_work config m f s m' events :
  receive config 0 false true m f = (m', events) ->
  (length (high_frames events) + 2 * unread m' s <= 2 * unread m s + 2)%nat.
Proof.
  unfold receive. destruct (shutdown m); [intros [= <- <-]; cbn; lia|]. pose proof (dispatch_work config m f s) as Hd.
  destruct (dispatch_inbound_frame _ _ _ _ _ _) as [[m1 ev] []]; cbn [fst snd] in Hd; [by intros [= <- <-]|].
  pose proof (unread_abort m1 UnexpectedEofOrTlsTruncation s) as Hu.
  pose proof (abort_sends_nothing m1 UnexpectedEofOrTlsTruncation) as Hn.
  destruct (record_failure_and_abort_all _ _) as [m2 ev2]. cbn [fst snd] in *. intros [= <- <-].
  rewrite Hu. unfold high_frames in *. rewrite omap_app, Hn, app_nil_r. done.
Qed.

(** Every step the link takes leaves less to do. *)
Lemma link_step_work tx_config rx_config l o l' :
  link_step tx_config rx_config l o = Some l' -> (work l' < work l)%nat.
Proof.
  unfold link_step, work. destruct o as [| | |epoch replayed|].
  - destruct (l_finishing l); [done|]. intros (flow & _ & Hstep)%bind_Some. unfold sender_next in Hstep.
    destruct (todo (l_sender l)) as [|c rest] eqn:Htodo.
    + case_decide; injection Hstep as <-; cbn; rewrite ?Htodo, ?length_app; cbn; lia.
    + do 2 (case_decide; [injection Hstep as <-; cbn; rewrite ?Htodo; cbn; lia|]).
      destruct (flow_failure flow); [injection Hstep as <-; cbn; rewrite ?Htodo; cbn; lia|].
      case_decide; [|done]. injection Hstep as <-. cbn. rewrite length_app. cbn. lia.
  - destruct (l_forward l) as [|f rest]; [done|]. destruct (receive _ _ _ _ _ _) as [m events] eqn:Hr.
    apply (receive_work _ _ _ (bs_stream (l_sender l))) in Hr. intros [= <-]. cbn. rewrite length_app. lia.
  - destruct (l_eof l); [done|]. unfold next_chunk.
    destruct (streams (l_rx l) !! bs_stream (l_sender l)) as [st|] eqn:Hst; [|done]. cbv zeta.
    destruct (aborted_reason (queue st)); [done|]. destruct (chunks (queue st)) as [|c rest] eqn:Hc.
    + destruct (finished_verified (queue st)); [|done]. intros [= <-]. cbn. lia.
    + assert (unread (l_rx l) (bs_stream (l_sender l)) = S (length rest)) as Hu by (unfold unread; by rewrite Hst, Hc).
      rewrite Hu. intros [= <-]. cbn [l_sender l_forward l_rx l_back l_finishing l_eof l_handled].
      match goal with |- context [unread ?m ?s] =>
        assert (unread m s = length rest) as -> by (unfold unread; cbn; by rewrite lookup_insert_eq) end.
      rewrite length_app. case_decide; cbn; lia.
  - destruct (l_eof l), (l_handled l); cbn [negb orb]; try done. unfold handler_done. intros [= <-].
    cbn. rewrite length_app. unfold unread. cbn. destruct (streams _ !! _) as [st|]; cbn; [|lia].
    destruct (finished_verified (queue st)) as [[]|]; cbn; lia.
  - destruct (l_back l) as [|f rest]; [done|]. destruct (receive _ _ _ _ _ _). intros [= <-]. cbn. lia.
Qed.
End work.

(** ** What a run of the link keeps *)

Section transfer.
Context `{Sha256} (tx_config rx_config : MuxConfig) (contract : RemoteCallContract).
Context (s total : Z) (all : list bytes).

(** The widths of the two windows, and a transfer within its declared size. *)
Context (Hchunk : MAX_BULK_CHUNK_BYTES <= bulk_window_bytes tx_config).
Context (Hwindows : bulk_window_bytes tx_config <= bulk_window_bytes rx_config < u64_max).
Context (Hsizes : Forall (fun c => c <> [] /\ len c <= MAX_BULK_CHUNK_BYTES) all).
Context (Htotal : total_len all = total) (Hu64 : total <= u64_max).

(** Sequence numbers saturate. *)
Definition seqno (n : nat) : Z := Z.min (Z.of_nat n) u32_max.

Fixpoint frames_of (n : nat) (cs : list bytes) : list MuxFrame :=
  match cs with
  | [] => []
  | c :: cs => BulkChunk s (seqno n) c :: frames_of (S n) cs
  end.

Definition sender_at (sent rest : list bytes) : BulkSender := {|
  bs_stream := s; bs_total_bytes := total; todo := rest; sent_bytes := total_len sent;
  chunk_seq := seqno (length sent); bs_hashed := concat sent
|}.

Definition stream_at (seen buffered : list bytes) (verified : option (Z * Z)) : InboundBulkStreamState := {|
  expected_total_bytes := total; window_limit := bulk_window_bytes rx_config; hashed := concat seen;
  queue := {| expected_seq := seqno (length seen); received_bytes := total_len seen;
              buffered_bytes := total_len buffered; chunks := buffered;
              finished_verified := verified; aborted_reason := None |}
|}.

Definition opening : MuxFrame := BulkStreamOpen s (call_id contract) (idempotency_key contract) total.

Definition finish_frame : MuxFrame := BulkStreamFinish s (seqno (length all)) total (sha256 (concat all)).

(** Where the finish frame is. *)
Inductive fin_at := FinTodo | FinFlying | FinIn.

(** Where the acknowledgement is. *)
Inductive ack_at := AckTodo | AckFlying (epoch : Z) (replayed : bool) | AckIn (epoch : Z) (replayed : bool).

Definition ack_frame (a : ack_at) : list MuxFrame :=
  match a with
  | AckFlying epoch replayed => [BulkStreamCompleteAck s epoch total (sha256 (concat all)) replayed]
  | _ => []
  end.

Definition fin_frame (f : fin_at) : list MuxFrame := match f with FinFlying => [finish_frame] | _ => [] end.

Definition verified_at (f : fin_at) : option (Z * Z) :=
  match f with FinIn => Some (total, sha256 (concat all)) | _ => None end.

Definition credits (gs : list Z) : list MuxFrame := BulkWindowCredit s <$> gs.

Definition sum (gs : list Z) : Z := foldr Z.add 0 gs.

(** The receipt of a transfer of everything. *)
Definition receipt : BulkTransferReceipt := {|
  rc_stream_id := s; rc_verified_bytes := total; rc_total_chunks := seqno (length all);
  rc_verified_sha256 := sha256 (concat all)
|}.

(** [flying] and [buffered] are the chunks on their way and unread, [gs] the credit on
    its way back. *)
Record link_at (l : Link) (opened : bool) (buffered flying : list bytes) (gs : list Z) (f : fin_at) (a : ack_at) : Prop := {
  la_all : l_read l ++ buffered ++ flying ++ todo (l_sender l) = all;
  la_sender : l_sender l = sender_at (l_read l ++ buffered ++ flying) (todo (l_sender l));
  la_forward : l_forward l = (if opened then [] else [opening])
                 ++ frames_of (length (l_read l ++ buffered)) flying ++ fin_frame f;
  la_back : l_back l = credits gs ++ ack_frame a;
  la_grants : Forall (fun g => 0 <= g) gs;
  la_unopened : opened = false -> l_read l = [] /\ buffered = [] /\ l_rx l = shared_new /\ f <> FinIn;
  la_rx : opened = true -> shutdown (l_rx l) = false /\
    (a = AckTodo -> s ∈ inbound_bulk_streams (l_rx l)) /\
    streams (l_rx l) !! s = Some (stream_at (l_read l ++ buffered) buffered (verified_at f));
  la_fin : (l_finishing l = true <-> f <> FinTodo) /\ (f <> FinTodo -> todo (l_sender l) = []) /\
    (f = FinIn -> flying = []);
  la_eof : l_eof l = true -> f = FinIn /\ buffered = [];
  la_handled : (l_handled l = true <-> a <> AckTodo) /\ (a <> AckTodo -> l_eof l = true);
  la_tx : shutdown (l_tx l) = false;
  la_credit : match a with
    | AckIn epoch replayed => l_result l = Some (Ok (epoch, replayed, receipt)) /\ gs = []
    | _ => l_result l = None /\ exists credit, pending_bulk_senders (l_tx l) !! s = Some {| credit := credit; flow_failure := None |} /\
        0 <= credit /\ credit + total_len flying + total_len buffered + sum gs = bulk_window_bytes tx_config
    end;
}.

Definition link_inv (l : Link) : Prop := exists opened buffered flying gs f a, link_at l opened buffered flying gs f a.

Lemma start_inv : link_inv (link_start tx_config contract (sender_new s total all)).
Proof.
  exists false, [], [], [], FinTodo, AckTodo. split; try done; try (cbn; naive_solver).
  split; [done|]. exists (bulk_window_bytes tx_config). split; [apply lookup_singleton_eq|].
  unfold MAX_BULK_CHUNK_BYTES in *. cbn. lia.
Qed.

Lemma seqno_S n : saturating_add32 (seqno n) 1 = seqno (S n).
Proof. unfold saturating_add32, seqno, u32_max. lia. Qed.

Lemma frames_of_snoc n cs c : frames_of n (cs ++ [c]) = frames_of n cs ++ [BulkChunk s (seqno (n + length cs)) c].
Proof.
  revert n. induction cs as [|c' cs IH]; intros n; cbn; [by rewrite Nat.add_0_r|]. rewrite IH.
  by replace (n + S (length cs))%nat with (S n + length cs)%nat by lia.
Qed.

Lemma total_len_snoc l c : total_len (l ++ [c]) = total_len l + len c.
Proof. rewrite total_len_app. cbn. lia. Qed.

Lemma total_len_cons c l : total_len (c :: l) = len c + total_len l.
Proof. done. Qed.

Lemma concat_snoc (l : list bytes) c : concat (l ++ [c]) = concat l ++ c.
Proof. rewrite concat_app. cbn. by rewrite app_nil_r. Qed.

Lemma sum_nonneg gs : Forall (fun g => 0 <= g) gs -> 0 <= sum gs.
Proof. unfold sum. induction 1; cbn; lia. Qed.

Lemma sum_snoc gs g : sum (gs ++ [g]) = sum gs + g.
Proof. unfold sum. induction gs; cbn; lia. Qed.

Lemma prefix_bound (l k : list bytes) : all = l ++ k -> total_len l <= total.
Proof. intros Hl. rewrite <- Htotal, Hl, total_len_app. pose proof (total_len_nonneg k). lia. Qed.

(** *** Sending *)

Lemma sender_next_chunk sent c rest cr :
  all = sent ++ c :: rest ->
  sender_next (sender_at sent (c :: rest)) {| credit := cr; flow_failure := None |} =
  if decide (cr >= len c)
  then SenderEmits (BulkChunk s (seqno (length sent)) c) (sender_at (sent ++ [c]) rest)
         {| credit := cr - len c; flow_failure := None |}
  else SenderWaits.
Proof.
  intros Hall. assert (total_len (sent ++ [c]) <= total) as Hle by (apply (prefix_bound _ rest); by rewrite <- app_assoc).
  rewrite total_len_snoc in Hle.
  assert (c <> [] /\ len c <= MAX_BULK_CHUNK_BYTES) as [Hne Hc].
  { rewrite Hall in Hsizes. by apply Forall_app in Hsizes as [_ [? _]%Forall_cons]. }
  unfold sender_next, sender_at. cbn [todo bs_stream bs_total_bytes sent_bytes chunk_seq bs_hashed flow_failure credit].
  rewrite decide_False by (intros [?|?]; [done|lia]).
  assert (saturating_add64 (total_len sent) (len c) = total_len (sent ++ [c])) as ->.
  { rewrite total_len_snoc. unfold saturating_add64. lia. }
  rewrite decide_False by (rewrite total_len_snoc; lia).
  rewrite seqno_S, concat_snoc, length_app. cbn [length]. by rewrite Nat.add_1_r.
Qed.

Lemma sender_next_end flow : sender_next (sender_at all []) flow = SenderFinishes finish_frame.
Proof.
  unfold sender_next, sender_at, finish_frame. cbn [todo bs_stream bs_total_bytes sent_bytes chunk_seq bs_hashed].
  rewrite Htotal. by rewrite decide_False by tauto.
Qed.

Lemma send_inv l l' : link_inv l -> link_step tx_config rx_config l LSend = Some l' -> link_inv l'.
Proof.
  intros (opened & buffered & flying & gs & f & a & [Ha Hs Hf Hb Hg Hun Hrx (Hfin1 & Hfin2 & Hfin3) He [Hh1 Hh2] Htx Hc]) Hstep.
  cbn [link_step] in Hstep. destruct (l_finishing l) eqn:Hfl; [done|].
  assert (f = FinTodo) as -> by (destruct f; [done|..]; by assert (false = true) by (by apply Hfin1)).
  assert (a = AckTodo) as -> by (destruct a; [done|..]; by destruct He as [He _]; [apply Hh2|]).
  destruct Hc as (Hres & cr & Hcr & Hpos & Hsum). remember (todo (l_sender l)) as rest eqn:Hrest.
  rewrite Hs in Hstep. change (bs_stream (sender_at _ _)) with s in Hstep. rewrite Hcr in Hstep.
  cbn [mbind option_bind] in Hstep. destruct rest as [|c rest].
  - assert (l_read l ++ buffered ++ flying = all) as Hsent by (by rewrite app_nil_r in Ha).
    rewrite Hsent, sender_next_end in Hstep. injection Hstep as <-.
    exists opened, buffered, flying, gs, FinFlying, AckTodo. split; cbn -[sender_at credits]; try done.
    + by rewrite Hsent.
    + rewrite Hf. cbn. by rewrite app_nil_r, <- app_assoc.
    + naive_solver.
    + naive_solver.
    + eauto.
  - rewrite sender_next_chunk in Hstep by (by rewrite <- Ha, <- !app_assoc). case_decide as Hcredit; [|done].
    injection Hstep as <-.
    exists opened, buffered, (flying ++ [c]), gs, FinTodo, AckTodo. split; cbn -[sender_at credits]; try done.
    + cbn [sender_at todo]. rewrite <- Ha. by rewrite <- !app_assoc.
    + cbn [sender_at todo]. by rewrite <- !app_assoc.
    + rewrite Hf, frames_of_snoc. cbn. rewrite !app_nil_r, <- app_assoc. do 4 f_equal. rewrite !length_app. f_equal. lia.
    + split; [done|]. eexists. split; [apply lookup_insert_eq|]. rewrite total_len_snoc. split; lia.
Qed.

(** *** Delivering *)

(** A receiver with the stream open. *)
Definition rx_at (m : SharedMuxState) (st : InboundBulkStreamState) : Prop :=
  shutdown m = false /\ s ∈ inbound_bulk_streams m /\ streams m !! s = Some st.

Lemma inbound_at m st : rx_at m st -> inbound m s = Some st.
Proof. intros (_ & Hin & Hst). unfold inbound. by rewrite decide_True. Qed.

Lemma deliver_open :
  exists m events, receive rx_config 0 false true shared_new opening = (m, events) /\ high_frames events = [] /\
    rx_at m (stream_at [] [] None).
Proof.
  unfold receive, opening. cbn [shutdown shared_new dispatch_inbound_frame negb].
  rewrite decide_False by (cbn [inbound_bulk_streams shared_new]; rewrite size_empty; set_solver by lia).
  do 2 eexists. split; [reflexivity|]. split; [done|]. split_and!; [done|cbn; set_solver|apply lookup_insert_eq].
Qed.

Lemma deliver_chunk m seen buffered c rest :
  rx_at m (stream_at seen buffered None) -> all = seen ++ c :: rest ->
  total_len buffered + len c <= bulk_window_bytes rx_config ->
  exists m', receive rx_config 0 false true m (BulkChunk s (seqno (length seen)) c) = (m', []) /\
    rx_at m' (stream_at (seen ++ [c]) (buffered ++ [c]) None).
Proof.
  intros Hrx Hall Hfit. pose proof (inbound_at _ _ Hrx) as Hin. destruct Hrx as (Hsh & Hreg & Hst).
  assert (total_len (seen ++ [c]) <= total) as Hle by (apply (prefix_bound _ rest); by rewrite <- app_assoc).
  rewrite total_len_snoc in Hle. pose proof (total_len_nonneg seen). pose proof (total_len_nonneg buffered).
  unfold receive. rewrite Hsh. cbn [dispatch_inbound_frame]. unfold dispatch_chunk. rewrite Hin.
  cbn [stream_at queue expected_seq buffered_bytes received_bytes window_limit expected_total_bytes].
  rewrite decide_False by tauto. rewrite decide_False by (unfold saturating_add64; lia).
  rewrite decide_False by (unfold saturating_add64; lia).
  eexists. split; [reflexivity|]. split_and!; [done|done|]. cbn -[stream_at]. rewrite lookup_insert_eq. f_equal.
  unfold stream_at. cbn. rewrite seqno_S, concat_snoc, !total_len_snoc, length_app. cbn [length]. rewrite Nat.add_1_r.
  unfold saturating_add64. rewrite Z.min_l by lia. done.
Qed.

Lemma deliver_finish m buffered :
  rx_at m (stream_at all buffered None) ->
  exists m', receive rx_config 0 false true m finish_frame = (m', []) /\
    rx_at m' (stream_at all buffered (Some (total, sha256 (concat all)))).
Proof.
  intros Hrx. pose proof (inbound_at _ _ Hrx) as Hin. destruct Hrx as (Hsh & Hreg & Hst).
  unfold receive, finish_frame. rewrite Hsh. cbn [dispatch_inbound_frame]. unfold dispatch_finish. rewrite Hin.
  cbn [stream_at queue expected_seq received_bytes hashed expected_total_bytes].
  rewrite decide_False by (rewrite Htotal; tauto). rewrite decide_False by tauto.
  eexists. split; [reflexivity|]. split_and!; [done|done|]. cbn -[stream_at]. by rewrite lookup_insert_eq.
Qed.

Lemma not_acked l opened buffered flying gs f a :
  link_at l opened buffered flying gs f a -> f <> FinIn -> a = AckTodo.
Proof.
  intros Hl Hf. destruct (la_handled _ _ _ _ _ _ _ Hl) as [_ Hh]. destruct a; [done|..];
    (destruct (la_eof _ _ _ _ _ _ _ Hl) as [He _]; [by apply Hh|done]).
Qed.

Lemma deliver_inv l l' : link_inv l -> link_step tx_config rx_config l LDeliver = Some l' -> link_inv l'.
Proof.
  intros (opened & buffered & flying & gs & f & a & Hl) Hstep. pose proof (not_acked _ _ _ _ _ _ _ Hl) as Hack.
  destruct Hl as [Ha Hs Hf Hb Hg Hun Hrx (Hfin1 & Hfin2 & Hfin3) He [Hh1 Hh2] Htx Hc].
  cbn [link_step] in Hstep. rewrite Hf in Hstep. destruct opened; cbn [app] in Hstep.
  2: { destruct (Hun eq_refl) as (Hr & -> & Hnew & HfIn). specialize (Hack HfIn) as ->.
    destruct deliver_open as (m & events & Hrec & Hhigh & Hm). rewrite Hnew, Hrec, Hhigh, app_nil_r in Hstep.
    injection Hstep as <-. rewrite Hr in *. exists true, [], flying, gs, f, AckTodo. split; cbn -[sender_at credits]; try done; [by rewrite Hb, app_nil_r|].
    intros _. destruct Hm as (? & ? & ->). split_and!; try done. by destruct f. }
  destruct (Hrx eq_refl) as (Hsh & Hreg & Hst). clear Hrx Hun.
  destruct flying as [|c flying]; cbn [frames_of app] in Hstep.
  - destruct f; cbn [fin_frame] in Hstep; [done| |done]. specialize (Hack ltac:(done)) as ->.
    specialize (Hfin2 ltac:(done)). rewrite Hfin2, !app_nil_r in Ha. cbn [verified_at] in Hst. rewrite Ha in Hst.
    destruct (deliver_finish (l_rx l) buffered) as (m & Hrec & Hm); [by split_and!; [|apply Hreg|]|].
    rewrite Hrec in Hstep. injection Hstep as <-.
    exists true, buffered, [], gs, FinIn, AckTodo. split; cbn -[sender_at credits]; try done.
    + by rewrite Hfin2, !app_nil_r.
    + by rewrite Hb, app_nil_r.
    + intros _. rewrite Ha. destruct Hm as (? & ? & ?). by split_and!.
    + split_and!; [|done|done]. split; [done|]. intros _. by apply Hfin1.
    + intros Heof. by destruct (He Heof).
  - assert (f <> FinIn) as HfIn by (intros ->; by specialize (Hfin3 eq_refl)). specialize (Hack HfIn) as ->.
    destruct Hc as (Hres & cr & Hcr & Hpos & Hsum).
    assert (verified_at f = None) as Hv by (by destruct f). rewrite Hv in Hst.
    assert (0 <= sum gs) as Hgs by by apply sum_nonneg.
    destruct (deliver_chunk (l_rx l) (l_read l ++ buffered) buffered c (flying ++ todo (l_sender l))) as (m & Hrec & Hm).
    { split_and!; [done|by apply Hreg|done]. }
    { by rewrite <- Ha, <- !app_assoc. }
    { rewrite total_len_cons in Hsum. pose proof (total_len_nonneg flying). lia. }
    rewrite Hrec in Hstep. injection Hstep as <-.
    exists true, (buffered ++ [c]), flying, gs, f, AckTodo. split; cbn -[sender_at credits]; try done.
    + by rewrite <- Ha, <- !app_assoc.
    + by rewrite <- !app_assoc in *.
    + rewrite !length_app. cbn [length]. by replace (length (l_read l) + (length buffered + 1))%nat with (S (length (l_read l) + length buffered)) by lia.
    + by rewrite Hb, app_nil_r.
    + intros _. destruct Hm as (? & ? & Hm). rewrite Hv, app_assoc. by split_and!.
    + intros Heof. by destruct (He Heof).
    + split; [done|]. exists cr. split; [done|]. rewrite total_len_snoc. rewrite total_len_cons in Hsum. lia.
Qed.

(** *** Reading *)

Lemma link_read_inv l l' : link_inv l -> link_step tx_config rx_config l LRead = Some l' -> link_inv l'.
Proof.
  intros (opened & buffered & flying & gs & f & a & Hl) Hstep.
  destruct Hl as [Ha Hs Hf Hb Hg Hun Hrx Hfin He [Hh1 Hh2] Htx Hc].
  cbn [link_step] in Hstep. destruct (l_eof l) eqn:Heof; [done|].
  assert (a = AckTodo) as -> by (destruct a; [done|by specialize (Hh2 ltac:(done))..]).
  rewrite Hs in Hstep. change (bs_stream (sender_at _ _)) with s in Hstep. unfold next_chunk in Hstep.
  destruct opened.
  2: { destruct (Hun eq_refl) as (_ & _ & Hnew & _). by rewrite Hnew in Hstep. }
  destruct (Hrx eq_refl) as (Hsh & Hreg & Hst). rewrite Hst in Hstep.
  cbn [stream_at queue aborted_reason chunks finished_verified] in Hstep. destruct buffered as [|c buffered].
  - destruct f; cbn [verified_at] in Hstep; [done..|]. injection Hstep as <-.
    exists true, [], flying, gs, FinIn, AckTodo. split; cbn -[sender_at credits]; done.
  - assert (len c <= u32_max) as Hu.
    { rewrite <- Ha in Hsizes. apply Forall_app in Hsizes as [_ Hsz]. apply Forall_app in Hsz as [[[_ Hsz] _]%Forall_cons _].
      unfold MAX_BULK_CHUNK_BYTES, u32_max in *. lia. }
    rewrite decide_True in Hstep by done. injection Hstep as <-.
    destruct Hc as (Hres & cr & Hcr & Hpos & Hsum). rewrite total_len_cons in Hsum.
    exists true, buffered, flying, (gs ++ [len c]), f, AckTodo. split; cbn -[sender_at credits stream_at]; try done.
    + cbn [sender_at todo]. by rewrite <- app_assoc.
    + cbn [sender_at todo]. by rewrite <- app_assoc.
    + rewrite Hf. by rewrite <- app_assoc.
    + rewrite Hb. unfold credits. rewrite fmap_app. cbn. by rewrite !app_nil_r.
    + apply Forall_app_2; [done|]. constructor; [apply len_nonneg|done].
    + intros _. split_and!; [done|done|].
      assert (Z.max (len c + total_len buffered - len c) 0 = total_len buffered) as ->
        by (pose proof (total_len_nonneg buffered); lia).
      by rewrite lookup_insert_eq, <- app_assoc.
    + split; [done|]. exists cr. split; [done|]. split; [done|]. rewrite sum_snoc. lia.
Qed.

(** *** The handler and the way back *)

Lemma handled_inv l epoch replayed l' :
  link_inv l -> link_step tx_config rx_config l (LHandled epoch replayed) = Some l' -> link_inv l'.
Proof.
  intros (opened & buffered & flying & gs & f & a & Hl) Hstep.
  destruct Hl as [Ha Hs Hf Hb Hg Hun Hrx (Hfin1 & Hfin2 & Hfin3) He [Hh1 Hh2] Htx Hc].
  cbn [link_step] in Hstep. destruct (l_eof l) eqn:Heof; [|done]. destruct (l_handled l) eqn:Hhd; [done|].
  destruct (He eq_refl) as [-> ->]. specialize (Hfin3 eq_refl) as ->. specialize (Hfin2 ltac:(done)).
  assert (a = AckTodo) as -> by (destruct a; [done|..]; by assert (false = true) by (by apply Hh1)).
  destruct opened; [|by destruct (Hun eq_refl) as (_ & _ & _ & ?)]. destruct (Hrx eq_refl) as (Hsh & Hreg & Hst).
  rewrite Hs in Hstep. change (bs_stream (sender_at _ _)) with s in Hstep. cbn [negb orb] in Hstep.
  unfold handler_done in Hstep. rewrite Hst in Hstep. cbn in Hstep. injection Hstep as <-.
  exists true, [], [], gs, FinIn, (AckFlying epoch replayed). split; cbn -[sender_at credits stream_at]; try done.
  - by rewrite Hb, app_nil_r.
Qed.

Lemma return_inv l l' : link_inv l -> link_step tx_config rx_config l LReturn = Some l' -> link_inv l'.
Proof.
  intros (opened & buffered & flying & gs & f & a & Hl) Hstep.
  destruct Hl as [Ha Hs Hf Hb Hg Hun Hrx (Hfin1 & Hfin2 & Hfin3) He [Hh1 Hh2] Htx Hc].
  cbn [link_step] in Hstep. rewrite Hb in Hstep. destruct gs as [|g gs].
  - destruct a as [|epoch replayed|]; [done| |done]. cbn [credits fmap list_fmap app ack_frame] in Hstep.
    destruct Hc as (Hres & cr & Hcr & _). specialize (Hh2 ltac:(done)). destruct (He Hh2) as [-> ->].
    specialize (Hfin3 eq_refl) as ->. specialize (Hfin2 ltac:(done)).
    assert (l_read l = all) as Hread by (by rewrite Hfin2, !app_nil_r in Ha).
    unfold receive in Hstep. rewrite Htx in Hstep. cbn [dispatch_inbound_frame] in Hstep. rewrite Hcr in Hstep.
    rewrite Hs in Hstep. change (bs_stream (sender_at _ _)) with s in Hstep.
    rewrite !app_nil_r, Hread in Hstep. unfold bulk_answer in Hstep. cbn [omap list_omap] in Hstep.
    rewrite decide_True in Hstep by done. cbn [head] in Hstep. injection Hstep as <-.
    exists opened, [], [], [], FinIn, (AckIn epoch replayed). split; cbn -[sender_at credits stream_at sender_acked]; try done.
    + cbn [sender_at todo]. by rewrite Hfin2, app_nil_r.
    + cbn [sender_at todo]. by rewrite app_nil_r.
    + intros Ho. by destruct (Hun Ho) as (_ & _ & _ & ?).
    + intros Ho. destruct (Hrx Ho) as (Hsh & _ & Hst). rewrite Hread in Hst. by split_and!.
    + split; [split; [done|intros _; by apply Hh1]|done].
    + split; [|done]. rewrite decide_False; [done|]. rewrite Htotal. tauto.
  - inversion_clear Hg as [|? ? Hg0 Hg'].
    assert (exists cr, pending_bulk_senders (l_tx l) !! s = Some {| credit := cr; flow_failure := None |} /\ 0 <= cr /\
      l_result l = None /\ (forall e r, a <> AckIn e r) /\
      cr + total_len flying + total_len buffered + (g + sum gs) = bulk_window_bytes tx_config) as (cr & Hcr & Hpos & Hres & HaIn & Hsum).
    { destruct a as [| |]; [| |by destruct Hc]; destruct Hc as (? & cr & ? & ? & Hsum); exists cr; split_and!; done. }
    cbn [credits fmap list_fmap app] in Hstep. unfold receive in Hstep. rewrite Htx in Hstep.
    cbn [dispatch_inbound_frame] in Hstep. rewrite Hcr in Hstep. cbn [bulk_answer omap list_omap head] in Hstep.
    injection Hstep as <-. pose proof (sum_nonneg gs Hg'). pose proof (total_len_nonneg flying).
    pose proof (total_len_nonneg buffered).
    exists opened, buffered, flying, gs, f, a. split; cbn -[sender_at credits stream_at]; try done.
    destruct a as [| |e r]; [| |by destruct (HaIn e r)]; (split; [done|]; exists (cr + g);
      split; [rewrite lookup_insert_eq; do 2 f_equal; unfold saturating_add64; lia|lia]).
Qed.

Lemma step_inv l o l' : link_inv l -> link_step tx_config rx_config l o = Some l' -> link_inv l'.
Proof. destruct o; eauto using send_inv, deliver_inv, link_read_inv, handled_inv, return_inv. Qed.

Lemma run_inv l ops l' : link_inv l -> link_run tx_config rx_config l ops = Some l' -> link_inv l'.
Proof.
  revert l. induction ops as [|o ops IH]; intros l Hl; cbn [link_run]; [by intros [= <-]|].
  intros (l1 & Hl1 & Hrun)%bind_Some. eauto using step_inv.
Qed.

(** *** Progress *)

(** A transfer that is not over can always go on: a sender short of credit has credit,
    chunks or unread bytes to wait for. *)
Lemma can_step l : link_inv l -> l_result l = None -> exists o l', link_step tx_config rx_config l o = Some l'.
Proof.
  intros (opened & buffered & flying & gs & f & a & Hl) Hres.
  destruct Hl as [Ha Hs Hf Hb Hg Hun Hrx (Hfin1 & Hfin2 & Hfin3) He [Hh1 Hh2] Htx Hc].
  destruct (l_back l) as [|fr back] eqn:Hback.
  2: { exists LReturn. cbn [link_step]. rewrite Hback. destruct (receive _ _ _ _ _ _). eauto. }
  destruct (l_forward l) as [|fr forward] eqn:Hfor.
  2: { exists LDeliver. cbn [link_step]. rewrite Hfor. destruct (receive _ _ _ _ _ _). eauto. }
  destruct opened; [|done]. destruct flying; [|done]. destruct gs; [|done]. destruct (Hrx eq_refl) as (Hsh & _ & Hst).
  destruct (l_eof l) eqn:Heof.
  { exists (LHandled 0 false). cbn [link_step]. rewrite Heof. destruct (l_handled l) eqn:Hhd; [|by eauto].
    destruct a; [by destruct (proj1 Hh1 eq_refl)|done|]. destruct Hc. congruence. }
  destruct buffered as [|c buffered].
  2: { exists LRead. cbn [link_step]. rewrite Heof, Hs. change (bs_stream (sender_at _ _)) with s.
    unfold next_chunk. rewrite Hst. cbn. eauto. }
  destruct f; [|done|].
  - exists LSend. cbn [link_step]. destruct (l_finishing l) eqn:Hfl; [by destruct (proj1 Hfin1 eq_refl)|].
    rewrite Hs. change (bs_stream (sender_at _ _)) with s.
    assert (a = AckTodo) as -> by (destruct a; [done|by specialize (Hh2 ltac:(done))..]).
    destruct Hc as (_ & cr & Hcr & _ & Hsum). rewrite Hcr. cbn [mbind option_bind].
    destruct (todo (l_sender l)) as [|c rest] eqn:Htodo; rewrite !app_nil_r in *.
    + rewrite Ha, sender_next_end. eauto.
    + rewrite sender_next_chunk by done. rewrite decide_True; [by eauto|].
      assert (len c <= MAX_BULK_CHUNK_BYTES).
      { rewrite <- Ha in Hsizes. by apply Forall_app in Hsizes as [_ [[_ ?] _]%Forall_cons]. }
      cbn in Hsum. lia.
  - exists LRead. cbn [link_step]. rewrite Heof, Hs. change (bs_stream (sender_at _ _)) with s.
    unfold next_chunk. rewrite Hst. cbn. eauto.
Qed.

(** However the transfer has gone so far, it can be run to its end. *)
Lemma completes l : link_inv l -> exists ops l' epoch replayed,
  link_run tx_config rx_config l ops = Some l' /\ l_result l' = Some (Ok (epoch, replayed, receipt)) /\
  l_read l' = all /\ (length ops <= work l)%nat.
Proof.
  remember (work l) as n eqn:Hn. revert l Hn. induction (lt_wf n) as [n _ IH]. intros l -> Hl.
  destruct (l_result l) as [r|] eqn:Hres.
  - destruct Hl as (opened & buffered & flying & gs & f & a & Hl).
    destruct a as [|e rp|e rp]; pose proof (la_credit _ _ _ _ _ _ _ Hl) as Hc; cbn in Hc; [destruct Hc; congruence..|].
    destruct Hc as [Hr ->]. exists [], l, e, rp. split; [done|]. split; [done|]. split; [|cbn; lia].
    destruct Hl as [Ha _ _ _ _ _ _ (_ & Hfin2 & Hfin3) He [_ Hh2] _ _]. destruct (He (Hh2 ltac:(done))) as [-> ->].
    rewrite (Hfin3 eq_refl), (Hfin2 ltac:(done)) in Ha. by rewrite !app_nil_r in Ha.
  - destruct (can_step l Hl Hres) as (o & l1 & Hstep). pose proof (link_step_work _ _ _ _ _ Hstep) as Hw.
    destruct (IH (work l1) Hw l1 eq_refl (step_inv _ _ _ Hl Hstep)) as (ops & l' & e & rp & Hrun & Hr & Hread & Hlen).
    exists (o :: ops), l', e, rp. cbn [link_run length]. rewrite Hstep. split_and!; done || lia.
Qed.
End transfer.

(** A transfer as the sender may make it: chunks of legal size that add up to the
    declared total, and windows that fit. *)
Record transfer_ok (tx_config rx_config : MuxConfig) (total : Z) (all : list bytes) : Prop := {
  to_chunk : MAX_BULK_CHUNK_BYTES <= bulk_window_bytes tx_config;
  to_windows : bulk_window_bytes tx_config <= bulk_window_bytes rx_config < u64_max;
  to_sizes : Forall (fun c => c <> [] /\ len c <= MAX_BULK_CHUNK_BYTES) all;
  to_total : total_len all = total;
  to_u64 : total <= u64_max;
}.

Lemma link_run_work `{Sha256} tx_config rx_config l ops l' :
  link_run tx_config rx_config l ops = Some l' -> (length ops + work l' <= work l)%nat.
Proof.
  revert l. induction ops as [|o ops IH]; intros l; cbn [link_run length]; [by intros [= <-]|].
  intros (l1 & Hstep%link_step_work & Hrun%IH)%bind_Some. lia.
Qed.

(** C22. A bulk transfer under flow control never trips over itself.  However sending,
    delivery, reading and credit interleave, the receiving session is never shut down
    and never refuses a frame, it never holds more unread bytes than the sender's
    window, the reader is given the chunks in order and whole, it sees the end only
    after the last one, and a result at the sender is always the receipt for exactly
    these bytes, all of them read. *)
Theorem bulk_transfer_exact `{Sha256} tx_config rx_config contract s total all ops l :
  transfer_ok tx_config rx_config total all ->
  link_run tx_config rx_config (link_start tx_config contract (sender_new s total all)) ops = Some l ->
  shutdown (l_rx l) = false /\
  held (l_rx l) s <= bulk_window_bytes tx_config /\
  l_read l `prefix_of` all /\
  (l_eof l = true -> l_read l = all) /\
  (forall r, l_result l = Some r -> l_read l = all /\ exists epoch replayed,
     r = Ok (epoch, replayed, {| rc_stream_id := s; rc_verified_bytes := total;
                                 rc_total_chunks := Z.min (Z.of_nat (length all)) u32_max;
                                 rc_verified_sha256 := sha256 (concat all) |})).
Proof.
  intros [H1 H2 H3 H4 H5] Hrun. apply run_inv with (contract := contract) (s := s) (total := total) (all := all) in Hrun;
    [|done..|by apply start_inv].
  destruct Hrun as (opened & buffered & flying & gs & f & a & Hl).
  destruct Hl as [Ha _ _ _ Hg Hun Hrx (_ & Hfin2 & Hfin3) He [_ Hh2] _ Hc].
  assert (l_eof l = true -> l_read l = all) as Heof.
  { intros E. destruct (He E) as [-> ->]. rewrite (Hfin3 eq_refl), (Hfin2 ltac:(done)) in Ha. by rewrite !app_nil_r in Ha. }
  assert (0 <= bulk_window_bytes tx_config) as Hpos by (unfold MAX_BULK_CHUNK_BYTES in *; lia).
  split_and!; [| |by eexists|done|].
  - destruct opened; [by destruct (Hrx eq_refl)|]. by destruct (Hun eq_refl) as (_ & _ & -> & _).
  - unfold held. destruct opened; [|by destruct (Hun eq_refl) as (_ & _ & -> & _)].
    destruct (Hrx eq_refl) as (_ & _ & ->).
    cbn [from_option stream_at queue chunks]. destruct a; [| |destruct (He (Hh2 ltac:(done))) as [_ ->]; done];
      destruct Hc as (_ & cr & _ & Hcr & Hsum); pose proof (sum_nonneg gs Hg); pose proof (total_len_nonneg flying); lia.
  - intros r Hr. destruct a as [|e rp|e rp]; [destruct Hc; congruence..|]. destruct Hc as [Hc _].
    split; [by apply Heof, Hh2|]. exists e, rp. rewrite Hr in Hc. by injection Hc as ->.
Qed.

(** C23. A bulk transfer always ends.  From every state the link can reach there is a
    way to go on to the receipt, with everything read, and no run of it has more steps
    than a number fixed at the start: whatever comes first, the transfer is never stuck
    waiting for credit. *)
Theorem bulk_transfer_completes `{Sha256} tx_config rx_config contract s total all ops l :
  transfer_ok tx_config rx_config total all ->
  let start := link_start tx_config contract (sender_new s total all) in
  link_run tx_config rx_config start ops = Some l ->
  (length ops <= 4 * length all + 12)%nat /\
  exists more l' r, link_run tx_config rx_config l more = Some l' /\ l_result l' = Some (Ok r) /\ l_read l' = all.
Proof.
  intros [H1 H2 H3 H4 H5] start Hrun. pose proof (link_run_work _ _ _ _ _ Hrun) as Hwork.
  change (work start) with (4 * length all + 3 * 1 + 2 * 0 + 0 + 4 + 3 + 2)%nat in Hwork. split; [lia|].
  apply run_inv with (contract := contract) (s := s) (total := total) (all := all) in Hrun; [|done..|by apply start_inv].
  destruct (completes tx_config rx_config contract s total all) with (l := l) as (more & l' & e & rp & Hmore & Hr & Hread & _);
    [done..|]. eauto 10.
Qed.

(** A transfer of three bytes in two chunks, for examples. *)
Definition example_config : MuxConfig :=
  {| max_control_payload_bytes := 1024; bulk_window_bytes := 65536; max_concurrent_bulk_streams := 1 |}.

Definition example_contract : RemoteCallContract :=
  {| call_id := 1; idempotency_key := 2; deadline_tick := 10; max_retries := 2; attempt_number := 0; side_effecting := true |}.

Definition example_start : Link := link_start example_config example_contract (sender_new 7 3 [[1; 2]; [3]]).

Lemma example_transfer_ok : transfer_ok example_config example_config 3 [[1; 2]; [3]].
Proof.
  split; [done|done| |done|done].
  constructor; [split; [done|unfold len, MAX_BULK_CHUNK_BYTES; cbn; lia]|].
  constructor; [split; [done|unfold len, MAX_BULK_CHUNK_BYTES; cbn; lia]|constructor].
Qed.

Lemma bulk_transfer_exact_witness :
  let ops := [LSend; LDeliver; LDeliver; LRead; LSend; LSend; LDeliver; LRead; LDeliver; LRead; LHandled 4 false;
              LReturn; LReturn; LReturn] in
  exists l, link_run (H := checksum_hasher) example_config example_config example_start ops = Some l /\
    is_Some (l_result l) /\ l_read l = [[1; 2]; [3]].
Proof.
  intros ops.
  assert (match link_run (H := checksum_hasher) example_config example_config example_start ops with
          | Some l => match l_result l with Some _ => l_eof l = true | None => False end
          | None => False
          end) as Hrun by (vm_compute; reflexivity).
  destruct (link_run (H := checksum_hasher) example_config example_config example_start ops) as [l|] eqn:Hl; [|destruct Hrun].
  exists l. split; [reflexivity|].
  pose proof (bulk_transfer_exact (H := checksum_hasher) example_config example_config example_contract 7 3 [[1; 2]; [3]]
    ops l example_transfer_ok Hl) as (_ & _ & _ & Heof & _).
  destruct (l_result l); [|destruct Hrun]. split; [eexists; reflexivity|exact (Heof Hrun)].
Defined.

Lemma bulk_transfer_completes_witness :
  exists l, link_run (H := checksum_hasher) example_config example_config example_start [LSend; LDeliver] = Some l /\
  exists more l' r, link_run (H := checksum_hasher) example_config example_config l more = Some l' /\
    l_result l' = Some (Ok r) /\ l_read l' = [[1; 2]; [3]].
Proof.
  assert (is_Some (link_run (H := checksum_hasher) example_config example_config example_start [LSend; LDeliver])) as [l Hl]
    by (vm_compute; eexists; reflexivity).
  exists l. split; [exact Hl|].
  exact (proj2 (bulk_transfer_completes (H := checksum_hasher) example_config example_config example_contract 7 3
    [[1; 2]; [3]] [LSend; LDeliver] l example_transfer_ok Hl)).
Defined.
