(* ===== verification/RpcCall.v ===== *)
(** * RpcCall: a call over a multiplexed session, and the writer that sends it

    Models [call_rpc], the strict-priority writer loop and [extract_codec_failure] of
    nlos-net/src/mux.rs: the queues of frames, the one frame being written, and the
    calls that wait first for their request to be written and then for the answer. *)

From S2P Require Import Prelude Bytes Cell RemoteCall Mux MuxStream Session.

(** ** Classification *)

Definition extract_codec_failure (e : FrameCodecError) : WriteProgressPhase * SocketFailureKind :=
  match e with
  | FrameTimeout phase kind | FrameIo phase kind => (phase, kind)
  | _ => (AfterFirstPayloadByte, UnexpectedEofOrTlsTruncation)
  end.

(** What a call sees of its request's write: its own timeout, the writer gone without a
    word, or the writer's report. *)
Inductive write_wait :=
  | WriteWaitTimeout
  | WriterGone
  | WriteReported (r : result (WriteProgressPhase * SocketFailureKind) ()).

(** What it sees of the answer. *)
Inductive response_wait :=
  | ResponseFrame (frame : MuxFrame)
  | ResponseFailed (kind : SocketFailureKind)
  | ResponseDropped
  | ResponseTimeout.

Definition CallOutcome : Type := RemoteCallOutcome bytes * option SocketFailureKind.

Definition failed_call (c : RemoteCallContract) (phase : WriteProgressPhase) (kind : SocketFailureKind) (elapsed : Z) :
    CallOutcome := (classify_transport_failure c phase kind elapsed, Some kind).

Definition started_phase (started : bool) : WriteProgressPhase :=
  if started then AfterFirstPayloadByte else BeforeFirstPayloadByte.

(** The call's return before it takes a stream, if it returns there. *)
Definition call_refused (config : MuxConfig) (m : SharedMuxState) (c : RemoteCallContract) (payload : bytes) : option CallOutcome :=
  if decide (len payload > max_control_payload_bytes config)
  then Some (classify_transport_failure c BeforeFirstPayloadByte EndpointUnresolved 0, None) else
  (fun prior => failed_call c BeforeFirstPayloadByte prior 0) <$> terminal_failure m.

(** Its return on what it sees of the write; [None] when it goes on to wait for the
    answer. *)
Definition call_after_write (c : RemoteCallContract) (started : bool) (elapsed : Z) (w : write_wait) : option CallOutcome :=
  match w with
  | WriteWaitTimeout => Some (failed_call c (started_phase started) WriteTimeout elapsed)
  | WriterGone => Some (failed_call c (started_phase started) ConnectionReset elapsed)
  | WriteReported (Err (phase, kind)) => Some (failed_call c phase kind elapsed)
  | WriteReported (Ok _) => None
  end.

Definition call_after_response (c : RemoteCallContract) (m : SharedMuxState) (elapsed : Z) (w : response_wait) : CallOutcome :=
  match w with
  | ResponseFrame (ControlRpcResponse _ epoch replayed RpcOk payload) => (classify_succeeded c payload epoch replayed, None)
  | ResponseFrame (ControlRpcResponse _ _ _ PreExecutionUnavailable _) => (classify_pre_dispatch_unavailable c, None)
  | ResponseFrame _ => failed_call c AfterFirstPayloadByte UnexpectedEofOrTlsTruncation elapsed
  | ResponseFailed kind => failed_call c AfterFirstPayloadByte kind elapsed
  | ResponseDropped => failed_call c AfterFirstPayloadByte (default UnexpectedEofOrTlsTruncation (terminal_failure m)) elapsed
  | ResponseTimeout => failed_call c AfterFirstPayloadByte ReadTimeout elapsed
  end.

(** ** The session *)

(** A frame to write, and the stream of the call that waits for it, if one does. *)
Record OutboundWorkItem := { wi_frame : MuxFrame; wi_call : option Z }.

(** How a call came to return. *)
Inductive call_end := OnWrite (w : write_wait) | OnResponse (w : response_wait).

Inductive call_stage :=
  | CallWriting
  | CallAwaitingResponse
  | CallReturned (how : call_end) (outcome : CallOutcome).

Record Session := {
  ss_shared : SharedMuxState;
  next_stream_id : Z;
  high_queue : list OutboundWorkItem;
  bulk_queue : list OutboundWorkItem;
  writing : option OutboundWorkItem;
  write_started : gset Z;
  calls : gmap Z (RemoteCallContract * call_stage);
  wire : list (option Z * bytes);
}.

Definition session_new : Session := {|
  ss_shared := shared_new; next_stream_id := 1; high_queue := []; bulk_queue := []; writing := None;
  write_started := ∅; calls := ∅; wire := []
|}.

#[export] Instance eta_session : Eta Session := fun x =>
  Build_Session (ss_shared x) (next_stream_id x) (high_queue x) (bulk_queue x) (writing x) (write_started x)
    (calls x) (wire x).
#[export] Instance set_ss_shared : Setter ss_shared. Proof. build_setter. Defined.
#[export] Instance set_next_stream_id : Setter next_stream_id. Proof. build_setter. Defined.
#[export] Instance set_high_queue : Setter high_queue. Proof. build_setter. Defined.
#[export] Instance set_bulk_queue : Setter bulk_queue. Proof. build_setter. Defined.
#[export] Instance set_writing : Setter writing. Proof. build_setter. Defined.
#[export] Instance set_write_started : Setter write_started. Proof. build_setter. Defined.
#[export] Instance set_calls : Setter calls. Proof. build_setter. Defined.
#[export] Instance set_wire : Setter wire. Proof. build_setter. Defined.

Section steps.
Context (config : MuxConfig).
Implicit Types x : Session.

Definition request_frame (c : RemoteCallContract) (s : Z) (payload : bytes) : MuxFrame :=
  ControlRpcRequest s (call_id c) (idempotency_key c) (deadline_tick c) (side_effecting c) payload.

(** A call up to the point where it waits for the write; the queue is open as long as
    the writer runs. *)
Definition call_submit x (c : RemoteCallContract) (payload : bytes) : Session * option CallOutcome :=
  match call_refused config (ss_shared x) c payload with
  | Some outcome => (x, Some outcome)
  | None =>
      let s := next_stream_id x in
      if shutdown (ss_shared x)
      then (x <| next_stream_id := s + 1 |>, Some (failed_call c BeforeFirstPayloadByte ConnectionReset 0)) else
      (x <| next_stream_id := s + 1 |>
         <| ss_shared := ss_shared x <| pending_rpcs := {[s]} ∪ pending_rpcs (ss_shared x) |> |>
         <| high_queue := high_queue x ++ [{| wi_frame := request_frame c s payload; wi_call := Some s |}] |>
         <| calls := <[s := (c, CallWriting)]> (calls x) |>, None)
  end.

(** A call returns; its entry in the table of pending calls goes with it. *)
Definition call_returns x (s : Z) (c : RemoteCallContract) (how : call_end) (outcome : CallOutcome) : Session :=
  x <| calls := <[s := (c, CallReturned how outcome)]> (calls x) |>
    <| ss_shared := ss_shared x <| pending_rpcs := pending_rpcs (ss_shared x) ∖ {[s]} |> |>.

(** A call that waits for its write sees [w]. *)
Definition call_sees_write x (s elapsed : Z) (w : write_wait) : option Session :=
  match calls x !! s with
  | Some (c, CallWriting) =>
      Some (match call_after_write c (bool_decide (s ∈ write_started x)) elapsed w with
            | Some outcome => call_returns x s c (OnWrite w) outcome
            | None => x <| calls := <[s := (c, CallAwaitingResponse)]> (calls x) |>
            end)
  | _ => None
  end.

Definition call_sees_response x (s elapsed : Z) (w : response_wait) : option Session :=
  match calls x !! s with
  | Some (c, CallAwaitingResponse) =>
      Some (call_returns x s c (OnResponse w) (call_after_response c (ss_shared x) elapsed w))
  | _ => None
  end.

(** The writer takes the next item: high priority first. *)
Definition writer_take x : option Session :=
  if shutdown (ss_shared x) then None else
  match writing x, high_queue x, bulk_queue x with
  | None, item :: rest, _ => Some
      (x <| high_queue := rest |> <| writing := Some item |>
         <| write_started := from_option (fun s => {[s]}) ∅ (wi_call item) ∪ write_started x |>)
  | None, [], item :: rest => Some
      (x <| bulk_queue := rest |> <| writing := Some item |>
         <| write_started := from_option (fun s => {[s]}) ∅ (wi_call item) ∪ write_started x |>)
  | _, _, _ => None
  end.

(** It writes it, and tells the call that waits for it; a failure ends the session. *)
Definition writer_write x (events : list write_event) (flush : flush_event) (elapsed : Z) : option Session :=
  item ← writing x;
  let '(out, r) := write_mux_frame events flush (wi_frame item) (max_control_payload_bytes config) in
  let x := x <| writing := None |> <| wire := wire x ++ [(wi_call item, out)] |> in
  let report r x := match wi_call item with
                    | Some s => default x (call_sees_write x s elapsed (WriteReported r))
                    | None => x
                    end in
  Some (match r with
        | Ok _ => report (Ok ()) x
        | Err e =>
            let '(phase, kind) := extract_codec_failure e in
            let x := report (Err (phase, kind)) x in
            x <| ss_shared := (record_failure_and_abort_all (ss_shared x) kind).1 |>
        end).

Inductive call_op :=
  | CSubmit (c : RemoteCallContract) (payload : bytes)
  | CTake
  | CWrite (events : list write_event) (flush : flush_event) (elapsed : Z)
  | CTimeout (s elapsed : Z)
  | CGone (s elapsed : Z)
  | CResponse (s elapsed : Z) (w : response_wait)
  | CBulk (frame : MuxFrame)
  | CFail (kind : SocketFailureKind).

(** The writer drops what is queued when it stops: a waiting call then sees it gone. The
    reader and [close] end the session as a failed write does. *)
Definition call_step x (o : call_op) : option Session :=
  match o with
  | CSubmit c payload => Some (call_submit x c payload).1
  | CTake => writer_take x
  | CWrite events flush elapsed => writer_write x events flush elapsed
  | CTimeout s elapsed => call_sees_write x s elapsed WriteWaitTimeout
  | CGone s elapsed =>
      if shutdown (ss_shared x) then call_sees_write x s elapsed WriterGone else None
  | CResponse s elapsed w => call_sees_response x s elapsed w
  | CBulk frame => Some (x <| bulk_queue := bulk_queue x ++ [{| wi_frame := frame; wi_call := None |}] |>)
  | CFail kind => Some (x <| ss_shared := (record_failure_and_abort_all (ss_shared x) kind).1 |>)
  end.

Fixpoint call_run x (ops : list call_op) : option Session :=
  match ops with
  | [] => Some x
  | o :: ops => x ← call_step x o; call_run x ops
  end.
End steps.

(** ** What an answer of "not sent" is worth *)

Section honesty.
Context (config : MuxConfig) (Hmax : max_control_payload_bytes config + 128 <= u32_max).
Implicit Types x : Session.

Definition queued x : list Z := omap wi_call (high_queue x).

(** Nothing of the call's request has been handed to the transport, nor will be. *)
Definition unsent x (s : Z) : Prop :=
  (forall out, (Some s, out) ∈ wire x -> out = []) /\
  (s ∈ write_started x -> (forall item, writing x = Some item -> wi_call item <> Some s)) /\
  (s ∉ write_started x -> shutdown (ss_shared x) = true).

Record call_inv x : Prop := {
  ci_wire s out : (Some s, out) ∈ wire x -> s ∈ write_started x;
  ci_writing item s : writing x = Some item -> wi_call item = Some s ->
    s ∈ write_started x /\ forall out, (Some s, out) ∉ wire x;
  ci_queued s : s ∈ queued x -> s ∉ write_started x;
  ci_nodup : NoDup (queued x);
  ci_bulk : Forall (fun item => wi_call item = None) (bulk_queue x);
  ci_fresh s : s ∈ queued x \/ s ∈ write_started x -> s < next_stream_id x;
  ci_unsent s c w outcome : calls x !! s = Some (c, CallReturned (OnWrite w) outcome) ->
    w <> WriteWaitTimeout -> is_uncertain outcome.1 = false -> unsent x s;
}.

Lemma new_inv : call_inv session_new.
Proof. split; cbn; try done; try set_solver. apply NoDup_nil_2. Qed.

(** A failed write that reports that no byte was taken, took none. *)
Lemma reported_before events flush f out e :
  write_mux_frame events flush f (max_control_payload_bytes config) = (out, Err e) ->
  (extract_codec_failure e).1 = BeforeFirstPayloadByte -> out = [].
Proof.
  intros [(e' & _ & -> & _)|(body & n & _ & Hs & ->)]%write_mux_frame_inv Hb; [done| |done].
  apply send_loop_spec in Hs as (_ & _ & Hio & Hto); [|lia]. destruct e; cbn in Hb; try done; subst.
  - by destruct (Hto kind).
  - by rewrite (Hio kind eq_refl).
Qed.

Lemma call_sees_write_frame x s elapsed w x' :
  call_sees_write x s elapsed w = Some x' ->
  wire x' = wire x /\ writing x' = writing x /\ high_queue x' = high_queue x /\ bulk_queue x' = bulk_queue x /\
  write_started x' = write_started x /\ next_stream_id x' = next_stream_id x /\
  shutdown (ss_shared x') = shutdown (ss_shared x) /\
  exists c, calls x !! s = Some (c, CallWriting) /\
    (calls x' = <[s := (c, CallAwaitingResponse)]> (calls x) \/
     exists outcome, call_after_write c (bool_decide (s ∈ write_started x)) elapsed w = Some outcome /\
       calls x' = <[s := (c, CallReturned (OnWrite w) outcome)]> (calls x)).
Proof.
  unfold call_sees_write. destruct (calls x !! s) as [[c [| |]]|]; try done. intros [= <-].
  destruct (call_after_write _ _ _ _) as [o|] eqn:Hw; split_and!; try done; exists c; eauto.
Qed.

(** Two states that agree on what the invariant reads, but for returned calls. *)
Lemma call_inv_frame x x' :
  call_inv x -> wire x' = wire x -> writing x' = writing x -> high_queue x' = high_queue x ->
  Forall (fun item => wi_call item = None) (bulk_queue x') -> write_started x' = write_started x ->
  next_stream_id x' = next_stream_id x -> (shutdown (ss_shared x) = true -> shutdown (ss_shared x') = true) ->
  (forall s c w outcome, calls x' !! s = Some (c, CallReturned (OnWrite w) outcome) -> w <> WriteWaitTimeout ->
     is_uncertain outcome.1 = false -> calls x !! s = Some (c, CallReturned (OnWrite w) outcome) \/ unsent x' s) ->
  call_inv x'.
Proof.
  intros [H1 H2 H3 H4 H5 H6 H7] E1 E2 E3 E4 E5 E6 E7 Hcalls.
  split; unfold queued in *; rewrite ?E1, ?E2, ?E3, ?E5, ?E6; try done.
  intros s c w o Hs Hw Hu. destruct (Hcalls s c w o Hs Hw Hu) as [Hold|]; [|done].
  destruct (H7 s c w o Hold Hw Hu) as (Ha & Hb & Hc). unfold unsent. rewrite E1, E2, E5. by split_and!; auto.
Qed.

Lemma submit_inv x c payload : call_inv x -> call_inv (call_submit config x c payload).1.
Proof.
  intros Hx. unfold call_submit. destruct (call_refused _ _ _ _); [done|]. cbv zeta.
  destruct (shutdown (ss_shared x)); cbn [fst].
  { destruct Hx as [H1 H2 H3 H4 H5 H6 H7]. split; try done. intros s Hs. cbn. specialize (H6 s Hs). lia. }
  match goal with |- call_inv ?y => set (x' := y) end. set (n := next_stream_id x) in *.
  assert (queued x' = queued x ++ [n]) as Hq by (unfold queued, x'; cbn; by rewrite omap_app).
  assert (wire x' = wire x /\ writing x' = writing x /\ write_started x' = write_started x /\ next_stream_id x' = n + 1 /\
    shutdown (ss_shared x') = shutdown (ss_shared x) /\ calls x' = <[n := (c, CallWriting)]> (calls x) /\
    bulk_queue x' = bulk_queue x) as (E1 & E2 & E3 & E4 & E5 & E6 & E7) by done.
  clearbody x'. destruct Hx as [H1 H2 H3 H4 H5 H6 H7]. fold n in H6.
  split; rewrite ?Hq, ?E1, ?E2, ?E3, ?E4, ?E6, ?E7; try done.
  - intros s [Hs|Hs%list_elem_of_singleton]%elem_of_app; [by apply H3|]. subst s.
    intros Hst. specialize (H6 _ (or_intror Hst)). lia.
  - apply NoDup_app. split_and!; [done| |apply NoDup_singleton].
    intros s Hs Hn%list_elem_of_singleton. subst s. specialize (H6 _ (or_introl Hs)). lia.
  - intros s. rewrite elem_of_app, list_elem_of_singleton. intros [[Hs| ->]|Hs]; [|lia|];
      [specialize (H6 s (or_introl Hs))|specialize (H6 s (or_intror Hs))]; lia.
  - intros s c' w o. destruct (decide (s = n)) as [->|Hne]; [by rewrite lookup_insert_eq|].
    rewrite lookup_insert_ne by done. intros Hs Hw Hu. destruct (H7 s c' w o Hs Hw Hu) as (Ha & Hb & Hc).
    unfold unsent. by rewrite E1, E2, E3, E5.
Qed.

(** A call that is not to be sent stays so when the writer takes an item. *)
Lemma take_inv x x' : call_inv x -> writer_take x = Some x' -> call_inv x'.
Proof.
  intros Hx. unfold writer_take. destruct (shutdown (ss_shared x)) eqn:Hsh; [done|].
  destruct (writing x) eqn:Hw; [done|]. intros Htake.
  assert (exists item, writing x' = Some item /\ wire x' = wire x /\ next_stream_id x' = next_stream_id x /\
    calls x' = calls x /\ shutdown (ss_shared x') = false /\ Forall (fun item => wi_call item = None) (bulk_queue x') /\
    write_started x' = from_option (fun s => {[s]}) ∅ (wi_call item) ∪ write_started x /\
    option_list (wi_call item) ++ queued x' = queued x) as (item & E1 & E2 & E3 & E4 & E5 & E6 & E7 & E8).
  { unfold queued. destruct (high_queue x) as [|item rest] eqn:Hh.
    - pose proof (ci_bulk _ Hx) as Hbulk. destruct (bulk_queue x) as [|item rest] eqn:Hbq; [done|]. injection Htake as <-.
      inversion Hbulk as [|? ? Hn Hrest]. subst. exists item. split_and!; try done. cbn. by rewrite Hn, Hh.
    - injection Htake as <-. exists item. split_and!; try done; [apply (ci_bulk _ Hx)|]. cbn. by destruct (wi_call item). }
  clear Htake. destruct Hx as [H1 H2 H3 H4 H5 H6 H7].
  assert (forall s, wi_call item = Some s -> s ∈ queued x) as Hitem by (intros s Hs; rewrite <- E8, Hs; by left).
  assert (forall s, s ∈ queued x' -> s ∈ queued x) as Hsub by (intros s Hs; rewrite <- E8; apply elem_of_app; by right).
  split.
  - intros s out. rewrite E2, E7. intros Hs%H1. set_solver.
  - intros item' s. rewrite E1, E2, E7. intros [= <-] Hs. split; [rewrite Hs; cbn; set_solver|].
    intros out Hout. by apply (H3 s (Hitem s Hs)), (H1 s out).
  - intros s Hs. rewrite E7. intros [Hs'|Hs']%elem_of_union; [|by apply (H3 s (Hsub s Hs))].
    destruct (wi_call item) as [t|]; cbn in *; [|set_solver]. apply elem_of_singleton in Hs' as ->.
    rewrite <- E8 in H4. by apply NoDup_cons in H4 as [? _].
  - rewrite <- E8 in H4. by apply NoDup_app in H4 as (_ & _ & ?).
  - done.
  - intros s. rewrite E3, E7. intros [Hs|[Hs|Hs]%elem_of_union].
    + apply H6. left. by apply Hsub.
    + destruct (wi_call item) as [t|]; cbn in *; [|set_solver]. apply elem_of_singleton in Hs as ->. apply H6. left. by apply Hitem.
    + apply H6. by right.
  - intros s c w o. rewrite E4. intros Hs Hw' Hu. destruct (H7 s c w o Hs Hw' Hu) as (Ha & Hb & Hc).
    assert (s ∈ write_started x) as Hst by (destruct (decide (s ∈ write_started x)); [done|]; by rewrite Hc in Hsh).
    split_and!; [by rewrite E2| |].
    + intros _ item'. rewrite E1. intros [= <-] Heq. by apply (H3 s (Hitem s Heq)).
    + intros Hn. destruct Hn. rewrite E7. set_solver.
Qed.

(** A call that sees its own timeout, or the writer gone after a shutdown. *)
Lemma sees_inv x s elapsed w x' :
  call_inv x -> w = WriteWaitTimeout \/ (w = WriterGone /\ shutdown (ss_shared x) = true) ->
  call_sees_write x s elapsed w = Some x' -> call_inv x'.
Proof.
  intros Hx Hw Hs. apply call_sees_write_frame in Hs as (E1 & E2 & E3 & E4 & E5 & E6 & E7 & c & Hc & Hcalls).
  apply (call_inv_frame x); try done; [rewrite E4; by apply ci_bulk|by rewrite E7|].
  intros q c' w' o Hq Hw' Hu. destruct Hcalls as [Hcalls|(o' & Ho & Hcalls)]; rewrite Hcalls in Hq;
    (destruct (decide (q = s)) as [->|]; [rewrite lookup_insert_eq in Hq|rewrite lookup_insert_ne in Hq by done; by left]); [done|].
  injection Hq as <- <- <-. destruct Hw as [->|[-> Hsh]]; [done|]. right. cbn in Ho. injection Ho as <-.
  case_bool_decide as Hst; [done|]. unfold unsent. rewrite E1, E2, E5, E7. split_and!; [|done|done].
  intros out Hout. by destruct (Hst (ci_wire _ Hx s out Hout)).
Qed.

Lemma response_inv x s elapsed w x' : call_inv x -> call_sees_response x s elapsed w = Some x' -> call_inv x'.
Proof.
  unfold call_sees_response. intros Hx. destruct (calls x !! s) as [[c [| |]]|] eqn:Hc; try done. intros [= <-].
  apply (call_inv_frame x); try done; [exact (ci_bulk _ Hx)|]. intros q c' w' o Hq Hw' Hu. left. cbn in Hq.
  destruct (decide (q = s)) as [->|]; [by rewrite lookup_insert_eq in Hq|by rewrite lookup_insert_ne in Hq].
Qed.

(** The writer puts an item on the wire. *)
Definition written x (item : OutboundWorkItem) (out : bytes) : Session :=
  x <| writing := None |> <| wire := wire x ++ [(wi_call item, out)] |>.

Lemma written_inv x item out : call_inv x -> writing x = Some item -> call_inv (written x item out).
Proof.
  intros [H1 H2 H3 H4 H5 H6 H7] Hw. split; cbn; try done.
  - intros s out' [Hs|Hs%list_elem_of_singleton]%elem_of_app; [by eapply H1|]. injection Hs as Hs _.
    by destruct (H2 item s Hw (eq_sym Hs)).
  - intros s c w o Hs Hw' Hu. destruct (H7 s c w o Hs Hw' Hu) as (Ha & Hb & Hc). split_and!; [|done|done].
    intros out' [Hout|Hout%list_elem_of_singleton]%elem_of_app; [by apply Ha|]. injection Hout as Hcall _.
    destruct (H2 item s Hw (eq_sym Hcall)) as [Hst _]. by destruct (Hb Hst item Hw).
Qed.

Lemma report_inv x item out r elapsed :
  call_inv x -> writing x = Some item -> ((exists kind, r = Err (BeforeFirstPayloadByte, kind)) -> out = []) ->
  call_inv (match wi_call item with
            | Some s => default (written x item out) (call_sees_write (written x item out) s elapsed (WriteReported r))
            | None => written x item out
            end).
Proof.
  intros Hx Hw Hr. pose proof (written_inv x item out Hx Hw) as Hx1. destruct (wi_call item) as [s|] eqn:Hs; [|done].
  destruct (call_sees_write _ _ _ _) as [x'|] eqn:Hsee; [|done]. cbn [default from_option id].
  apply call_sees_write_frame in Hsee as (E1 & E2 & E3 & E4 & E5 & E6 & E7 & c & Hc & Hcalls).
  apply (call_inv_frame (written x item out)); try done; [rewrite E4; by apply ci_bulk|by rewrite E7|].
  intros q c' w' o Hq Hw' Hu. destruct Hcalls as [Hcalls|(o' & Ho & Hcalls)]; rewrite Hcalls in Hq;
    (destruct (decide (q = s)) as [->|]; [rewrite lookup_insert_eq in Hq|rewrite lookup_insert_ne in Hq by done; by left]); [done|].
  injection Hq as <- <- <-. right. cbn in Ho. destruct r as [|[phase kind]]; [done|]. injection Ho as <-.
  destruct phase; [|done]. rewrite (Hr (ex_intro _ kind eq_refl)) in *.
  destruct (ci_writing _ Hx item s Hw Hs) as [Hst Hno]. unfold unsent. rewrite E1, E2, E5, E7. cbn. split_and!; [|done|done].
  intros out' [Hout|Hout%list_elem_of_singleton]%elem_of_app; [by destruct (Hno out')|]. by injection Hout as _ ->.
Qed.

Lemma abort_inv x kind :
  call_inv x -> call_inv (x <| ss_shared := (record_failure_and_abort_all (ss_shared x) kind).1 |>).
Proof. intros Hx. apply (call_inv_frame x); try done; [exact (ci_bulk _ Hx)|]. by left. Qed.

Lemma write_inv x events flush elapsed x' : call_inv x -> writer_write config x events flush elapsed = Some x' -> call_inv x'.
Proof.
  intros Hx (item & Hw & Hstep)%bind_Some.
  destruct (write_mux_frame _ _ _ _) as [out r] eqn:Hout. cbv zeta in Hstep. apply (inj Some) in Hstep as <-.
  fold (written x item out). destruct r as [[]|e].
  - apply (report_inv x item out (Ok ()) elapsed Hx Hw). by intros [].
  - pose proof (reported_before _ _ _ _ _ Hout) as Hb. destruct (extract_codec_failure e) as [phase kind].
    pose proof (report_inv x item out (Err (phase, kind)) elapsed Hx Hw) as Hrep.
    apply abort_inv, Hrep. intros [k [= -> _]]. by apply Hb.
Qed.

Lemma call_step_inv x o x' : call_inv x -> call_step config x o = Some x' -> call_inv x'.
Proof.
  intros Hx. destruct o; cbn [call_step].
  - intros [= <-]. by apply submit_inv.
  - by apply take_inv.
  - by apply write_inv.
  - apply sees_inv; [done|by left].
  - destruct (shutdown (ss_shared x)) eqn:Hsh; [|done]. apply sees_inv; [done|by right].
  - by apply response_inv.
  - intros [= <-]. apply (call_inv_frame x); try done; [|by left]. cbn. apply Forall_app_2; [by apply ci_bulk|by constructor].
  - intros [= <-]. by apply abort_inv.
Qed.

Lemma call_run_inv x ops x' : call_inv x -> call_run config x ops = Some x' -> call_inv x'.
Proof.
  revert x. induction ops as [|o ops IH]; intros x Hx; cbn [call_run]; [by intros [= <-]|].
  intros (x1 & H1 & H2)%bind_Some. eauto using call_step_inv.
Qed.
End honesty.

(** ** Returned calls stay returned *)

Definition calls_known (x : Session) : Prop := forall s, is_Some (calls x !! s) -> s < next_stream_id x.

(** A step leaves a returned call alone. *)
Definition keeps_returned (x x' : Session) : Prop :=
  calls_known x' /\ forall s c how outcome,
    calls x !! s = Some (c, CallReturned how outcome) -> calls x' !! s = Some (c, CallReturned how outcome).

Section returned.
Context (config : MuxConfig).

Lemma keeps_returned_same x x' :
  calls_known x -> calls x' = calls x -> next_stream_id x' = next_stream_id x -> keeps_returned x x'.
Proof. intros Hk E1 E2. split; [intros s; by rewrite E1, E2; apply Hk|]. intros s c how o. by rewrite E1. Qed.

Lemma keeps_returned_insert x x' s c st st' :
  calls_known x -> calls x !! s = Some (c, st) -> (forall how o, st <> CallReturned how o) ->
  calls x' = <[s := (c, st')]> (calls x) -> next_stream_id x' = next_stream_id x -> keeps_returned x x'.
Proof.
  intros Hk Hs Hst E1 E2. split.
  - intros q. rewrite E1, E2. intros [y Hq]. apply Hk.
    destruct (decide (q = s)) as [->|]; [by eexists|]. rewrite lookup_insert_ne in Hq by done. by eexists.
  - intros q c' how o Hq. rewrite E1. destruct (decide (q = s)) as [->|]; [|by rewrite lookup_insert_ne].
    rewrite Hs in Hq. injection Hq as _ Hq. by destruct (Hst how o).
Qed.

Lemma sees_write_keeps x s elapsed w x' :
  calls_known x -> call_sees_write x s elapsed w = Some x' -> keeps_returned x x'.
Proof.
  intros Hk (_ & _ & _ & _ & _ & E6 & _ & c & Hc & [E|(o & _ & E)])%call_sees_write_frame;
    by eapply keeps_returned_insert.
Qed.

Lemma keeps_returned_trans x y z : keeps_returned x y -> keeps_returned y z -> keeps_returned x z.
Proof. intros [_ H1] [Hk H2]. split; eauto. Qed.

Lemma call_step_keeps x o x' : calls_known x -> call_step config x o = Some x' -> keeps_returned x x'.
Proof.
  intros Hk. destruct o as [c payload| |events flush elapsed|s elapsed|s elapsed|s elapsed w|frame|kind]; cbn [call_step].
  - intros [= <-]. unfold call_submit. destruct (call_refused _ _ _ _); [by apply keeps_returned_same|]. cbv zeta.
    destruct (shutdown (ss_shared x)); cbn [fst].
    { split; [|done]. intros q Hq. specialize (Hk q Hq). cbn. lia. }
    set (n := next_stream_id x). split.
    + intros q [y Hq]. cbn in *. destruct (decide (q = n)) as [->|]; [lia|]. rewrite lookup_insert_ne in Hq by done.
      assert (q < n) by (apply Hk; by eexists). lia.
    + intros q c' how o' Hq. cbn. rewrite lookup_insert_ne; [done|].
      assert (q < n) by (apply Hk; by eexists). unfold n in *. lia.
  - unfold writer_take. repeat case_match; try done; intros [= <-]; by apply keeps_returned_same.
  - intros (item & Hw & Hstep)%bind_Some. destruct (write_mux_frame _ _ _ _) as [out r]. apply (inj Some) in Hstep as <-.
    fold (written x item out). pose proof (keeps_returned_same x (written x item out) Hk eq_refl eq_refl) as Hw1.
    assert (forall r', keeps_returned x (match wi_call item with
      | Some s => default (written x item out) (call_sees_write (written x item out) s elapsed (WriteReported r'))
      | None => written x item out end)) as Hrep.
    { intros r'. destruct (wi_call item) as [s|]; [|done]. destruct (call_sees_write _ _ _ _) as [x1|] eqn:Hs; [|done].
      eapply keeps_returned_trans; [exact Hw1|]. eapply sees_write_keeps; [apply Hw1|exact Hs]. }
    destruct r as [[]|e]; [apply Hrep|]. destruct (extract_codec_failure e) as [phase kind].
    destruct (Hrep (Err (phase, kind))) as [Hk' Hkeep]. split; [exact Hk'|exact Hkeep].
  - by apply sees_write_keeps.
  - destruct (shutdown _); [by apply sees_write_keeps|done].
  - unfold call_sees_response. destruct (calls x !! s) as [[c [| |]]|] eqn:Hc; try done. intros [= <-].
    by eapply (keeps_returned_insert x _ s c CallAwaitingResponse).
  - intros [= <-]. by apply keeps_returned_same.
  - intros [= <-]. by apply keeps_returned_same.
Qed.

Lemma call_run_keeps x ops x' : calls_known x -> call_run config x ops = Some x' -> keeps_returned x x'.
Proof.
  revert x. induction ops as [|o ops IH]; intros x Hk; cbn [call_run]; [by intros [= <-]; apply keeps_returned_same|].
  intros (x1 & H1 & H2)%bind_Some. pose proof (call_step_keeps x o x1 Hk H1) as Hkeep.
  eapply keeps_returned_trans; [exact Hkeep|]. apply IH; [apply Hkeep|done].
Qed.
End returned.

(** C28. A call reported as not sent was not sent.  In any interleaving of calls,
    writer and answers, when a call returns before its answer for another reason than its
    own timeout and its outcome is not the uncertain one, then no byte of its request
    has been or will ever be handed to the transport; so the retry such an outcome may
    allow cannot run the call twice. *)
Theorem unavailable_means_unsent config ops x s c w outcome more x' :
  max_control_payload_bytes config + 128 <= u32_max ->
  call_run config session_new ops = Some x ->
  calls x !! s = Some (c, CallReturned (OnWrite w) outcome) ->
  w <> WriteWaitTimeout -> is_uncertain outcome.1 = false ->
  call_run config x more = Some x' ->
  forall out, (Some s, out) ∈ wire x' -> out = [].
Proof.
  intros Hmax Hrun Hs Hw Hu Hmore.
  assert (calls_known session_new) as Hnew by (intros q [y Hq]; cbn in Hq; by rewrite lookup_empty in Hq).
  destruct (call_run_keeps config _ _ _ Hnew Hrun) as [Hk _]. destruct (call_run_keeps config _ _ _ Hk Hmore) as [_ Hkeep].
  pose proof (call_run_inv config Hmax _ _ _ (new_inv config Hmax) Hrun) as Hx.
  pose proof (call_run_inv config Hmax _ _ _ Hx Hmore) as Hx'.
  by destruct (ci_unsent _ Hx' s c w outcome (Hkeep _ _ _ _ Hs) Hw Hu).
Qed.

(** A call that is refused by the transport after it was queued, for examples. *)
Definition example_call : RemoteCallContract :=
  {| call_id := 1; idempotency_key := 2; deadline_tick := 10; max_retries := 2; attempt_number := 0; side_effecting := true |}.

Definition small_config : MuxConfig :=
  {| max_control_payload_bytes := 1024; bulk_window_bytes := 65536; max_concurrent_bulk_streams := 1 |}.

Lemma unavailable_means_unsent_witness :
  let ops := [CSubmit example_call [9]; CTake; CWrite [WriteFailed IoConnectionReset] None 3] in
  exists x, call_run small_config session_new ops = Some x /\ wire x = [(Some 1, [])] /\
    calls x !! 1 = Some (example_call, CallReturned (OnWrite (WriteReported (Err (BeforeFirstPayloadByte, ConnectionReset))))
      (Unavailable 10 SafeToRetryWithSameKey 2, Some ConnectionReset)) /\
    forall more x', call_run small_config x more = Some x' -> forall out, (Some 1, out) ∈ wire x' -> out = [].
Proof.
  intros ops. eexists. split; [vm_compute; reflexivity|]. split; [reflexivity|]. split; [vm_compute; reflexivity|].
  intros more x'. eapply (unavailable_means_unsent small_config ops _ 1 example_call
    (WriteReported (Err (BeforeFirstPayloadByte, ConnectionReset)))
    (Unavailable 10 SafeToRetryWithSameKey 2, Some ConnectionReset));
    [discriminate|vm_compute; reflexivity|vm_compute; reflexivity|discriminate|reflexivity].
Defined.

