(* ===== verification/Txn.v ===== *)
(** * Txn: transactions

    The effect the SQLite authorities share: a transaction reads and writes tables of
    type [T] and may fail with an error of type [E], and a failed transaction leaves the
    tables as they were. With it come the weakest preconditions that the specifications
    of the authorities are stated in. *)

From S2P Require Import Prelude.

(** What SQLite itself refuses: a constraint, a trigger, a full sequence, a column of
    another type than asked for, a query that has to have a row and has none, or the
    creation of an object that exists. *)
Inductive SqliteError :=
  | ConstraintViolation
  | TriggerAbort (reason : string)
  | DatabaseFull
  | InvalidColumnType
  | QueryReturnedNoRows
  | ObjectExists.

Definition txn (T E A : Type) : Type := T -> result E (A * T).

#[export] Instance txn_ret {T E} : MRet (txn T E) := fun A a d => Ok (a, d).
#[export] Instance txn_bind {T E} : MBind (txn T E) := fun A B k m d =>
  match m d with Ok (a, d) => k a d | Err e => Err e end.

Section txn.
Context {T E : Type}.

Definition throw {A} (e : E) : txn T E A := fun _ => Err e.
Definition lift {A} (r : result E A) : txn T E A := fun d => match r with Ok a => Ok (a, d) | Err e => Err e end.
Definition reading {A} (f : T -> A) : txn T E A := fun d => Ok (f d, d).
Definition writing (f : T -> T) : txn T E () := fun d => Ok ((), f d).

(** A committed transaction changes the tables, a failed one does not. *)
Definition run_tx {A} (m : txn T E A) (d : T) : T * result E A :=
  match m d with Ok (a, d') => (d', Ok a) | Err e => (d, Err e) end.

(** ** Weakest preconditions *)

Definition wp {A} (m : txn T E A) (Q : A -> T -> Prop) (X : E -> Prop) (d : T) : Prop :=
  match m d with Ok (a, d') => Q a d' | Err e => X e end.

Section rules.
Context {A B : Type} (X : E -> Prop).

Lemma wp_bind (m : txn T E A) (k : A -> txn T E B) Q d : wp m (fun a => wp (k a) Q X) X d -> wp (m ≫= k) Q X d.
Proof. unfold wp, mbind, txn_bind. by destruct (m d) as [[a d']|e]. Qed.

Lemma wp_ret (a : A) Q d : Q a d -> wp (mret a) Q X d.
Proof. done. Qed.

Lemma wp_throw e Q d : X e -> wp (A := A) (throw e) Q X d.
Proof. done. Qed.

Lemma wp_lift (r : result E A) Q d :
  (forall a, r = Ok a -> Q a d) -> (forall e, r = Err e -> X e) -> wp (lift r) Q X d.
Proof. unfold wp, lift. destruct r; auto. Qed.

Lemma wp_lift_Ok (r : result E A) a (Q : A -> T -> Prop) d : r = Ok a -> Q a d -> wp (lift r) Q X d.
Proof. by intros ->. Qed.

Lemma wp_reading (f : T -> A) Q d : Q (f d) d -> wp (reading f) Q X d.
Proof. done. Qed.

Lemma wp_writing f (Q : () -> T -> Prop) d : Q () (f d) -> wp (writing f) Q X d.
Proof. done. Qed.

Lemma wp_mono (m : txn T E A) (Q Q' : A -> T -> Prop) (X' : E -> Prop) d :
  wp m Q X d -> (forall a d', Q a d' -> Q' a d') -> (forall e, X e -> X' e) -> wp m Q' X' d.
Proof. unfold wp. destruct (m d) as [[a d']|e]; auto. Qed.
End rules.

(** What holds of a transaction holds of its run. *)
Lemma run_wp {A} (m : txn T E A) Q X d :
  wp m Q X d ->
  match (run_tx m d).2 with Ok a => Q a (run_tx m d).1 | Err e => X e /\ (run_tx m d).1 = d end.
Proof. unfold wp, run_tx. by destruct (m d) as [[a d']|e]. Qed.
End txn.

(** ** Tables

    A table is a map from its primary key to its rows. *)

Section tables.
Context {K V : Type} `{Countable K}.

(** Whether a key is in the table: what a foreign key asks for. *)
Definition present (m : gmap K V) (k : K) : bool := match m !! k with Some _ => true | None => false end.

Lemma present_true m k : present m k = true <-> exists v, m !! k = Some v.
Proof. unfold present. destruct (m !! k) as [v|]; [|naive_solver]. split; [by exists v|done]. Qed.

(** Whether some row satisfies [P], how many do, and a first one: a query by columns
    other than the key. When several rows match, SQLite returns one of them; the order of
    [map_to_list] stands for its choice. *)
Definition any_row (P : K -> V -> bool) (m : gmap K V) : bool :=
  existsb (fun kv => P kv.1 kv.2) (map_to_list m).
Definition count_rows (P : K -> V -> bool) (m : gmap K V) : Z :=
  Z.of_nat (size (filter (fun kv => P kv.1 kv.2 = true) m)).
Definition first_row (P : K -> V -> bool) (m : gmap K V) : option (K * V) :=
  find (fun kv => P kv.1 kv.2) (map_to_list m).

Lemma any_row_true P m : any_row P m = true <-> exists k v, m !! k = Some v /\ P k v = true.
Proof.
  unfold any_row. rewrite existsb_exists. split.
  - intros ([k v] & Hin & HP). exists k, v. split; [|done]. by apply elem_of_map_to_list, list_elem_of_In.
  - intros (k & v & Hk & HP). exists (k, v). split; [|done]. by apply list_elem_of_In, elem_of_map_to_list.
Qed.

Lemma any_row_false P m : any_row P m = false <-> (forall k v, m !! k = Some v -> P k v = false).
Proof.
  rewrite <- not_true_iff_false, any_row_true. split.
  - intros Hn k v Hk. destruct (P k v) eqn:E; [|done]. destruct Hn. by exists k, v.
  - intros Hall (k & v & Hk & HP). by rewrite (Hall k v Hk) in HP.
Qed.

Lemma first_row_Some P m k v : first_row P m = Some (k, v) -> m !! k = Some v /\ P k v = true.
Proof.
  intros [Hin HP]%find_some. split; [|done]. by apply elem_of_map_to_list, list_elem_of_In.
Qed.

Lemma first_row_None P m : first_row P m = None -> forall k v, m !! k = Some v -> P k v = false.
Proof.
  intros Hn k v Hk. apply (find_none _ _ Hn (k, v)). by apply list_elem_of_In, elem_of_map_to_list.
Qed.

(** The row a query finds when only one can match. *)
Lemma first_row_unique P m k v :
  m !! k = Some v -> P k v = true -> (forall k' v', m !! k' = Some v' -> P k' v' = true -> k' = k) ->
  first_row P m = Some (k, v).
Proof.
  intros Hk HP Hu. destruct (first_row P m) as [[k' v']|] eqn:E.
  - apply first_row_Some in E as [Hk' HP']. assert (k' = k) as -> by eauto. congruence.
  - by rewrite (first_row_None _ _ E k v Hk) in HP.
Qed.

Lemma count_rows_insert P m k v : m !! k = None ->
  count_rows P (<[k := v]> m) = count_rows P m + (if P k v then 1 else 0).
Proof.
  intros Hk. unfold count_rows. destruct (P k v) eqn:E.
  - rewrite map_filter_insert_True by done. rewrite map_size_insert_None; [lia|]. apply map_lookup_filter_None. by left.
  - rewrite map_filter_insert_False by (cbn; congruence). rewrite delete_id by done. lia.
Qed.

Lemma count_rows_zero P m : (forall k v, m !! k = Some v -> P k v = false) -> count_rows P m = 0.
Proof.
  intros Hall. unfold count_rows. rewrite (proj2 (map_size_empty_iff _)); [done|]. apply map_empty. intros k.
  apply map_lookup_filter_None. right. intros v Hk. cbn. by rewrite (Hall k v Hk).
Qed.

Lemma count_rows_pos P m k v : m !! k = Some v -> P k v = true -> 0 < count_rows P m.
Proof.
  intros Hk HP. unfold count_rows. enough (size (filter (fun kv => P kv.1 kv.2 = true) m) <> 0%nat) by lia.
  apply (map_size_ne_0_lookup_2 _ k). exists v. by apply map_lookup_filter_Some.
Qed.

Lemma count_rows_nonneg P m : 0 <= count_rows P m.
Proof. unfold count_rows. lia. Qed.

Lemma count_rows_fmap {W} (f : W -> V) P (m : gmap K W) : count_rows P (f <$> m) = Z.of_nat (size (filter (fun kv => P kv.1 (f kv.2) = true) m)).
Proof. unfold count_rows. rewrite map_filter_fmap, map_size_fmap. by do 2 f_equal. Qed.

(** The insertion of a row: refused when the primary key is taken or another constraint
    of the table ([allowed]) does not hold. *)
Definition insert_row {T E} (get : T -> gmap K V) (put : gmap K V -> T -> T) (refuse : E)
    (allowed : T -> bool) (k : K) (v : V) : txn T E () := fun d =>
  if match get d !! k with Some _ => false | None => allowed d end then Ok ((), put (<[k := v]> (get d)) d)
  else Err refuse.

Lemma wp_insert_row {T E} get put refuse allowed k v (Q : () -> T -> Prop) (X : E -> Prop) d :
  (get d !! k = None -> allowed d = true -> Q () (put (<[k := v]> (get d)) d)) -> X refuse ->
  wp (insert_row get put refuse allowed k v) Q X d.
Proof. unfold wp, insert_row. intros HQ HX. destruct (get d !! k); [done|]. destruct (allowed d); auto. Qed.

(** An insertion that is refused for a cause. *)
Lemma wp_insert_row_cause {T E} get put refuse allowed k v (Q : () -> T -> Prop) (X : E -> Prop) d :
  (get d !! k = None -> allowed d = true -> Q () (put (<[k := v]> (get d)) d)) ->
  (is_Some (get d !! k) \/ allowed d = false -> X refuse) ->
  wp (insert_row get put refuse allowed k v) Q X d.
Proof. unfold wp, insert_row. intros HQ HX. destruct (get d !! k); [by apply HX; left|]. destruct (allowed d); auto. Qed.

(** An insertion whose constraints hold. *)
Lemma wp_insert_row_ok {T E} get put refuse allowed k v (Q : () -> T -> Prop) (X : E -> Prop) d :
  get d !! k = None -> allowed d = true -> Q () (put (<[k := v]> (get d)) d) ->
  wp (insert_row get put refuse allowed k v) Q X d.
Proof. unfold wp, insert_row. by intros -> ->. Qed.
End tables.

(** Runs the pure steps of a transaction. *)
Ltac wp_pure :=
  match goal with
  | |- wp (_ ≫= _) _ _ _ => apply wp_bind
  | |- wp (mret _) _ _ _ => apply wp_ret
  | |- wp (throw _) _ _ _ => apply wp_throw
  | |- wp (reading _) _ _ _ => apply wp_reading
  | |- wp (writing _) _ _ _ => apply wp_writing
  end; cbv beta.

(** Takes both branches of a transaction that decides. *)
Tactic Notation "wp_case" "as" ident(Hcase) :=
  match goal with |- wp (if decide ?P then _ else _) _ _ _ => destruct (decide P) as [Hcase|Hcase] end.
