(* ===== verification/Operation.v ===== *)
(** * Operation: the callback fence of an external operation

    Models nlos-operation/src/lib.rs: the state machine of one operation, restoring it
    from a durable record, and the in-memory registry of operations; also the fiber
    handle of nlos-runtime/src/lib.rs and the cancellation epoch of
    nlos-types/src/lib.rs. *)

From S2P Require Import Prelude.

(** ** Data *)

Record FiberHandle := { fiber_id : Z; fiber_generation : Z }.
#[export] Instance fiber_handle_eq_dec : EqDecision FiberHandle.
Proof. solve_decision. Defined.

(** A cancellation epoch is any [u64]; zero means that nothing was cancelled. *)
Definition CancelEpoch_INITIAL : Z := 0.
Definition cancel_epoch_next (e : Z) : option Z := checked_add64 e 1.

Record OperationSpec := {
  operation_id : Z;
  generation : Z;
  owner_fiber : FiberHandle;
  cancellation_scope_id : Z;
  cancellation_generation : Z;
}.
#[export] Instance spec_eq_dec : EqDecision OperationSpec.
Proof. solve_decision. Defined.

Record OperationHandle := { oh_operation_id : Z; oh_generation : Z }.
#[export] Instance operation_handle_eq_dec : EqDecision OperationHandle.
Proof. solve_decision. Defined.

Record CallbackTicket := {
  ct_callback_id : Z;
  ct_operation : OperationHandle;
  ct_owner_fiber : FiberHandle;
  ct_cancel_epoch : Z;
}.
#[export] Instance ticket_eq_dec : EqDecision CallbackTicket.
Proof. solve_decision. Defined.

Inductive OperationState :=
  | Registered
  | Dispatched
  | CancelRequested
  | Completed (receipt_id : Z)
  | Failed (receipt_id : Z)
  | CancelledBeforeEffect (receipt_id : Z)
  | PartialEffect (receipt_id : Z)
  | EffectUnknown (receipt_id : Z).
#[export] Instance operation_state_eq_dec : EqDecision OperationState.
Proof. solve_decision. Defined.

Definition is_terminal (s : OperationState) : bool :=
  match s with Registered | Dispatched | CancelRequested => false | _ => true end.

Inductive CompletionOutcome :=
  | OutCompleted (receipt_id : Z)
  | OutFailed (receipt_id : Z)
  | OutCancelledBeforeEffect (receipt_id : Z)
  | OutPartialEffect (receipt_id : Z)
  | OutEffectUnknown (receipt_id : Z).
#[export] Instance outcome_eq_dec : EqDecision CompletionOutcome.
Proof. solve_decision. Defined.

Definition outcome_state (o : CompletionOutcome) : OperationState :=
  match o with
  | OutCompleted r => Completed r
  | OutFailed r => Failed r
  | OutCancelledBeforeEffect r => CancelledBeforeEffect r
  | OutPartialEffect r => PartialEffect r
  | OutEffectUnknown r => EffectUnknown r
  end.

Inductive CompletionDecision :=
  | CanonicalizedAndWake (state : OperationState)
  | CanonicalizedForReconciliation (state : OperationState)
  | Duplicate (state : OperationState).

Record AcceptedCallback := { ac_callback_id : Z; ac_outcome : CompletionOutcome }.
#[export] Instance accepted_eq_dec : EqDecision AcceptedCallback.
Proof. solve_decision. Defined.

Record IssuedCallback := { ic_callback_id : Z; ic_cancel_epoch : Z }.
#[export] Instance issued_eq_dec : EqDecision IssuedCallback.
Proof. solve_decision. Defined.

Inductive OperationError :=
  | DuplicateOperation
  | InvalidGeneration
  | InvalidState
  | CancelEpochExhausted
  | CallbackIdentityConflict.

Record OperationSnapshot := {
  sn_handle : OperationHandle;
  sn_owner_fiber : FiberHandle;
  sn_cancel_epoch : Z;
  sn_state : OperationState;
}.

Record OperationMachine := {
  m_spec : OperationSpec;
  m_cancel_epoch : Z;
  m_state : OperationState;
  m_issued : option IssuedCallback;
  m_accepted : option AcceptedCallback;
}.
#[export] Instance machine_eq_dec : EqDecision OperationMachine.
Proof. solve_decision. Defined.

Definition handle_of (s : OperationSpec) : OperationHandle :=
  {| oh_operation_id := operation_id s; oh_generation := generation s |}.

(** ** The machine *)

Definition machine_new (spec : OperationSpec) : OperationMachine := {|
  m_spec := spec; m_cancel_epoch := CancelEpoch_INITIAL; m_state := Registered; m_issued := None; m_accepted := None
|}.

Definition callback_is_terminal (state : OperationState) (accepted : option AcceptedCallback) : bool :=
  match accepted with
  | Some a => bool_decide (outcome_state (ac_outcome a) = state) && is_terminal state
  | None => false
  end.

Definition issued_matches_accepted (issued : option IssuedCallback) (accepted : option AcceptedCallback) : bool :=
  match issued, accepted with
  | Some i, Some a => bool_decide (ic_callback_id i = ac_callback_id a)
  | _, None => true
  | None, Some _ => false
  end.

Definition is_some {A} (o : option A) : bool := match o with Some _ => true | None => false end.

Definition state_matches_issue (state : OperationState) (issued : option IssuedCallback)
    (accepted : option AcceptedCallback) : bool :=
  match state with
  | Registered => negb (is_some issued)
  | Dispatched | CancelRequested => is_some issued && negb (is_some accepted)
  | CancelledBeforeEffect _ => Bool.eqb (is_some issued) (is_some accepted)
  | _ => is_some issued && is_some accepted
  end.

Definition acceptance_is_valid (state : OperationState) (accepted : option AcceptedCallback) : bool :=
  match accepted with
  | Some _ => callback_is_terminal state accepted
  | None => match state with
            | Completed _ | Failed _ | PartialEffect _ | EffectUnknown _ => false
            | _ => true
            end
  end.

Definition epoch_matches_state (cancel_epoch : Z) (state : OperationState) (issued : option IssuedCallback) : bool :=
  match issued with
  | None =>
      match state with
      | Registered => bool_decide (cancel_epoch = CancelEpoch_INITIAL)
      | CancelledBeforeEffect _ => bool_decide (cancel_epoch = 1)
      | _ => false
      end
  | Some i =>
      let same_epoch := bool_decide (cancel_epoch = ic_cancel_epoch i) in
      let cancelled_epoch := bool_decide (cancel_epoch_next (ic_cancel_epoch i) = Some cancel_epoch) in
      match state with
      | Dispatched => same_epoch
      | CancelRequested => cancelled_epoch
      | Registered => false
      | _ => same_epoch || cancelled_epoch
      end
  end.

Definition restore (spec : OperationSpec) (cancel_epoch : Z) (state : OperationState)
    (issued : option IssuedCallback) (accepted : option AcceptedCallback) : result OperationError OperationMachine :=
  if negb (issued_matches_accepted issued accepted) || negb (state_matches_issue state issued accepted)
     || negb (acceptance_is_valid state accepted) || negb (epoch_matches_state cancel_epoch state issued)
  then Err InvalidState
  else Ok {| m_spec := spec; m_cancel_epoch := cancel_epoch; m_state := state; m_issued := issued; m_accepted := accepted |}.

Definition snapshot_of (m : OperationMachine) : OperationSnapshot := {|
  sn_handle := handle_of (m_spec m); sn_owner_fiber := owner_fiber (m_spec m);
  sn_cancel_epoch := m_cancel_epoch m; sn_state := m_state m
|}.

(** No transition changes the machine on its error paths, so each returns the new
    machine with its answer, or an error. *)
Definition validate_handle (m : OperationMachine) (h : OperationHandle) : result OperationError () :=
  if decide (operation_id (m_spec m) <> oh_operation_id h \/ generation (m_spec m) <> oh_generation h)
  then Err InvalidGeneration else Ok ().

Definition machine_dispatch (m : OperationMachine) (h : OperationHandle) (callback_id : Z) :
    result OperationError (OperationMachine * CallbackTicket) :=
  _ ← validate_handle m h;
  if decide (m_state m <> Registered) then Err InvalidState else
  Ok ({| m_spec := m_spec m; m_cancel_epoch := m_cancel_epoch m; m_state := Dispatched;
         m_issued := Some {| ic_callback_id := callback_id; ic_cancel_epoch := m_cancel_epoch m |};
         m_accepted := m_accepted m |},
      {| ct_callback_id := callback_id; ct_operation := h; ct_owner_fiber := owner_fiber (m_spec m);
         ct_cancel_epoch := m_cancel_epoch m |}).

Definition machine_request_cancel (m : OperationMachine) (h : OperationHandle) (no_effect_receipt : Z) :
    result OperationError (OperationMachine * OperationSnapshot) :=
  _ ← validate_handle m h;
  let cancelled s :=
    epoch ← ok_or (cancel_epoch_next (m_cancel_epoch m)) CancelEpochExhausted;
    let m := {| m_spec := m_spec m; m_cancel_epoch := epoch; m_state := s; m_issued := m_issued m;
                m_accepted := m_accepted m |} in
    Ok (m, snapshot_of m) in
  match m_state m with
  | Registered => cancelled (CancelledBeforeEffect no_effect_receipt)
  | Dispatched => cancelled CancelRequested
  | _ => Err InvalidState
  end.

Definition machine_complete (m : OperationMachine) (t : CallbackTicket) (o : CompletionOutcome) :
    result OperationError (OperationMachine * CompletionDecision) :=
  _ ← validate_handle m (ct_operation t);
  if decide (ct_owner_fiber t <> owner_fiber (m_spec m)) then Err InvalidGeneration else
  issued ← ok_or (m_issued m) InvalidState;
  if decide (ic_callback_id issued <> ct_callback_id t \/ ic_cancel_epoch issued <> ct_cancel_epoch t)
  then Err InvalidGeneration else
  match m_accepted m with
  | Some a =>
      if decide (ac_callback_id a = ct_callback_id t) then
        if decide (ac_outcome a <> o) then Err CallbackIdentityConflict else Ok (m, Duplicate (m_state m))
      else Err InvalidState
  | None =>
      if decide (m_state m <> Dispatched /\ m_state m <> CancelRequested) then Err InvalidState else
      let wake_allowed := bool_decide (ct_cancel_epoch t = m_cancel_epoch m) && bool_decide (m_state m = Dispatched) in
      let m := {| m_spec := m_spec m; m_cancel_epoch := m_cancel_epoch m; m_state := outcome_state o;
                  m_issued := m_issued m;
                  m_accepted := Some {| ac_callback_id := ct_callback_id t; ac_outcome := o |} |} in
      Ok (m, if wake_allowed then CanonicalizedAndWake (m_state m) else CanonicalizedForReconciliation (m_state m))
  end.

(** ** The registry *)

Definition OperationRegistry : Type := gmap Z OperationMachine.

Definition registry_register (g : OperationRegistry) (spec : OperationSpec) :
    OperationRegistry * result OperationError OperationHandle :=
  match g !! operation_id spec with
  | Some _ => (g, Err DuplicateOperation)
  | None => (<[operation_id spec := machine_new spec]> g, Ok (handle_of spec))
  end.

Definition record_mut (g : OperationRegistry) (h : OperationHandle) : result OperationError OperationMachine :=
  m ← ok_or (g !! oh_operation_id h) InvalidGeneration;
  if decide (generation (m_spec m) <> oh_generation h) then Err InvalidGeneration else Ok m.

(** Runs a transition of the record a handle names. *)
Definition on_record {A} (g : OperationRegistry) (h : OperationHandle)
    (f : OperationMachine -> result OperationError (OperationMachine * A)) :
    OperationRegistry * result OperationError A :=
  match m ← record_mut g h; f m with
  | Ok (m, a) => (<[oh_operation_id h := m]> g, Ok a)
  | Err e => (g, Err e)
  end.

Definition registry_dispatch (g : OperationRegistry) (h : OperationHandle) (callback_id : Z) :=
  on_record g h (fun m => machine_dispatch m h callback_id).

Definition registry_request_cancel (g : OperationRegistry) (h : OperationHandle) (no_effect_receipt : Z) :=
  on_record g h (fun m => machine_request_cancel m h no_effect_receipt).

Definition registry_complete (g : OperationRegistry) (t : CallbackTicket) (o : CompletionOutcome) :=
  on_record g (ct_operation t) (fun m => machine_complete m t o).

Definition registry_inspect (g : OperationRegistry) (h : OperationHandle) : result OperationError OperationSnapshot :=
  m ← record_mut g h; Ok (snapshot_of m).

(** ** The shapes a machine goes through *)

(** Dispatched under callback [cb], before any cancellation. *)
Definition dispatched (spec : OperationSpec) (cb : Z) : OperationMachine := {|
  m_spec := spec; m_cancel_epoch := 0; m_state := Dispatched;
  m_issued := Some {| ic_callback_id := cb; ic_cancel_epoch := 0 |}; m_accepted := None
|}.

(** Cancelled while the effect is under way. *)
Definition cancelling (spec : OperationSpec) (cb : Z) : OperationMachine := {|
  m_spec := spec; m_cancel_epoch := 1; m_state := CancelRequested;
  m_issued := Some {| ic_callback_id := cb; ic_cancel_epoch := 0 |}; m_accepted := None
|}.

(** Cancelled before it was dispatched. *)
Definition cancelled_early (spec : OperationSpec) (receipt : Z) : OperationMachine := {|
  m_spec := spec; m_cancel_epoch := 1; m_state := CancelledBeforeEffect receipt; m_issued := None; m_accepted := None
|}.

(** Called back with [o], [late] when it had been cancelled meanwhile. *)
Definition finished_machine (spec : OperationSpec) (cb : Z) (o : CompletionOutcome) (late : bool) : OperationMachine := {|
  m_spec := spec; m_cancel_epoch := if late then 1 else 0; m_state := outcome_state o;
  m_issued := Some {| ic_callback_id := cb; ic_cancel_epoch := 0 |};
  m_accepted := Some {| ac_callback_id := cb; ac_outcome := o |}
|}.

Inductive machine_ok (spec : OperationSpec) : OperationMachine -> Prop :=
  | ok_registered : machine_ok spec (machine_new spec)
  | ok_cancelled_early r : machine_ok spec (cancelled_early spec r)
  | ok_dispatched cb : machine_ok spec (dispatched spec cb)
  | ok_cancelling cb : machine_ok spec (cancelling spec cb)
  | ok_finished cb o late : machine_ok spec (finished_machine spec cb o late).

Definition ticket_of (spec : OperationSpec) (cb : Z) : CallbackTicket := {|
  ct_callback_id := cb; ct_operation := handle_of spec; ct_owner_fiber := owner_fiber spec; ct_cancel_epoch := 0
|}.

Section machine.
Context (spec : OperationSpec).
Implicit Types m : OperationMachine.

Lemma machine_ok_spec m : machine_ok spec m -> m_spec m = spec.
Proof. by destruct 1. Qed.

Lemma machine_ok_registered m : machine_ok spec m -> m_state m = Registered -> m = machine_new spec.
Proof. destruct 1 as [|r|cb|cb|cb o late]; try done. by destruct o. Qed.

Lemma machine_ok_restore m :
  machine_ok spec m -> restore (m_spec m) (m_cancel_epoch m) (m_state m) (m_issued m) (m_accepted m) = Ok m.
Proof.
  unfold restore, issued_matches_accepted, acceptance_is_valid, callback_is_terminal.
  destruct 1 as [|r|cb|cb|cb o late]; try done. cbn. rewrite !bool_decide_true by done.
  by destruct o, late.
Qed.

Lemma validate_handle_Ok m h u : validate_handle m h = Ok u <-> h = handle_of (m_spec m).
Proof.
  unfold validate_handle, handle_of. destruct h as [i g], u; cbn. case_decide as Hd; split; intros He; try done.
  - injection He as -> ->. by destruct Hd.
  - f_equal; [by destruct (decide (operation_id (m_spec m) = i)); [|destruct Hd; left]|].
    by destruct (decide (generation (m_spec m) = g)); [|destruct Hd; right].
Qed.

Lemma result_bind_Ok {E A B} (r : result E A) (k : A -> result E B) b :
  (x ← r; k x) = Ok b <-> exists a, r = Ok a /\ k a = Ok b.
Proof. destruct r as [a|e]; cbn; naive_solver. Qed.

Lemma dispatch_inv m h cb m' t :
  machine_ok spec m -> machine_dispatch m h cb = Ok (m', t) ->
  m = machine_new spec /\ h = handle_of spec /\ m' = dispatched spec cb /\ t = ticket_of spec cb.
Proof.
  intros Hm (u & Hh & Hd)%result_bind_Ok. apply validate_handle_Ok in Hh as ->.
  case_decide as Hs; [done|]. injection Hd as <- <-. destruct Hm as [| | | |cb' o late]; try done; by destruct o.
Qed.

Lemma cancel_inv m h r m' s :
  machine_ok spec m -> machine_request_cancel m h r = Ok (m', s) ->
  h = handle_of spec /\ s = snapshot_of m' /\
  (m = machine_new spec /\ m' = cancelled_early spec r \/
   exists cb, m = dispatched spec cb /\ m' = cancelling spec cb).
Proof.
  intros Hm (u & Hh & Hd)%result_bind_Ok. apply validate_handle_Ok in Hh as ->. rewrite (machine_ok_spec m Hm).
  destruct Hm as [|r'|cb|cb|cb o late]; cbn in Hd; try done.
  - injection Hd as <- <-. split; [done|]. split; [done|]. by left.
  - injection Hd as <- <-. split; [done|]. split; [done|]. right. by exists cb.
  - by destruct o.
Qed.

Lemma complete_inv m t o m' d :
  machine_ok spec m -> machine_complete m t o = Ok (m', d) ->
  exists cb, t = ticket_of spec cb /\
    (m = dispatched spec cb /\ m' = finished_machine spec cb o false /\ d = CanonicalizedAndWake (outcome_state o) \/
     m = cancelling spec cb /\ m' = finished_machine spec cb o true /\ d = CanonicalizedForReconciliation (outcome_state o) \/
     exists late, m = finished_machine spec cb o late /\ m' = m /\ d = Duplicate (outcome_state o)).
Proof.
  intros Hm (u & Hh & Hd)%result_bind_Ok. apply validate_handle_Ok in Hh. rewrite (machine_ok_spec m Hm) in *.
  case_decide as Hown; [done|]. apply result_bind_Ok in Hd as (i & Hi & Hd).
  case_decide as Hcb; [done|]. destruct t as [tcb th town tep]; cbn in *. subst th.
  assert (town = owner_fiber spec) as -> by (by destruct (decide (town = owner_fiber spec))).
  destruct Hm as [|r'|cb|cb|cb o' late]; cbn in Hi; try done; injection Hi as <-; cbn in Hcb;
    (assert (tcb = cb) as -> by (destruct (decide (cb = tcb)); [done|by destruct Hcb; left]));
    (assert (tep = 0) as -> by (destruct (decide (0 = tep)); [done|by destruct Hcb; right]));
    exists cb; (split; [done|]); cbn in Hd.
  - injection Hd as <- <-. by left.
  - injection Hd as <- <-. right. by left.
  - rewrite decide_True in Hd by done. case_decide as Ho; [done|]. injection Hd as <- <-.
    assert (o' = o) as -> by (by destruct (decide (o' = o))). right. right. by exists late.
Qed.

Lemma dispatch_ok m h cb m' t : machine_ok spec m -> machine_dispatch m h cb = Ok (m', t) -> machine_ok spec m'.
Proof. intros Hm (_ & _ & -> & _)%dispatch_inv; [constructor|done]. Qed.

Lemma cancel_ok m h r m' s : machine_ok spec m -> machine_request_cancel m h r = Ok (m', s) -> machine_ok spec m'.
Proof. intros Hm (_ & _ & [[_ ->]|(cb & _ & ->)])%cancel_inv; [constructor|constructor|done]. Qed.

Lemma complete_ok m t o m' d : machine_ok spec m -> machine_complete m t o = Ok (m', d) -> machine_ok spec m'.
Proof.
  intros Hm (cb & _ & [(_ & -> & _)|[(_ & -> & _)|(late & Hf & -> & _)]])%complete_inv; try done; constructor.
Qed.
End machine.
