(* ===== verification/OpStore.v ===== *)
(** * OpStore: the durable operation authority

    Models nlos-store/src/lib.rs: the SQLite tables of operations, their outbox, their
    idempotency records and their dispatch receipts, with the constraints and triggers of
    the schema, and every operation of [SqliteOperationStore]. *)

From S2P Require Import Prelude Bytes Txn Operation.

Definition MAX_ENDPOINT_COMPONENT_BYTES : Z := 128.
Definition MAX_DURABLE_RESULT_BYTES : Z := 1048576.
Definition MAX_PARK_REASON_BYTES : Z := 1024.
Definition SCHEMA_VERSION : Z := 6.

Definition size_of (b : bytes) : Z := Z.of_nat (length b).

(** ** Errors and answers *)

(** Without the two errors the model cannot reach: [LockPoisoned], as no operation
    panics, and [DurabilityUnavailable], as SQLite is taken to grant WAL and FULL. *)
Inductive StoreError :=
  | Sqlite (e : SqliteError)
  | Operation (e : OperationError)
  | CorruptRecord (reason : string)
  | UnsupportedSchema (version : Z)
  | OutboxEntryNotFound
  | OutboxParkConflict
  | InvalidParkRequest (reason : string)
  | InvalidIdempotencyScope
  | IdempotencyConflict
  | IdempotencyRecordNotFound
  | DispatchPreparationNotFound
  | DispatchPreparationConflict
  | OperationNotActivated
  | CancelEpochConflict (expected current : Z)
  | DurableResultTooLarge (actual maximum : Z).

Inductive RegistrationDecision := Created (h : OperationHandle) | Existing (h : OperationHandle).

Record OperationDispatchPreparation := {
  dp_operation : OperationHandle;
  dp_owner_fiber : FiberHandle;
  dp_cancellation_scope_id : Z;
  dp_cancellation_generation : Z;
  dp_callback_id : Z;
  dp_cancel_epoch : Z;
  dp_preparation_receipt_id : Z;
}.
#[export] Instance preparation_eq_dec : EqDecision OperationDispatchPreparation.
Proof. solve_decision. Defined.

Inductive OperationPrepareDecision :=
  | Prepared (p : OperationDispatchPreparation)
  | PrepareReplayed (p : OperationDispatchPreparation).

Record OperationDispatchActivation := {
  da_preparation : OperationDispatchPreparation;
  da_ticket : CallbackTicket;
  da_activation_receipt_id : Z;
}.

Inductive OperationActivationDecision :=
  | Activated (a : OperationDispatchActivation)
  | ActivationReplayed (a : OperationDispatchActivation).

Record IdempotencyScope := { application_id : Z; service : bytes; method : bytes }.

Record DurableCallResult := { cr_operation : OperationHandle; cr_receipt_id : Z; cr_result_wire : bytes }.

Inductive IdempotencyDecision :=
  | CallCreated (h : OperationHandle)
  | PendingOrUncertain (h : OperationHandle)
  | CallCompleted (r : DurableCallResult).

Inductive OutboxKind := WakeFiber | ReconcileEffect.
#[export] Instance outbox_kind_eq_dec : EqDecision OutboxKind.
Proof. solve_decision. Defined.

Inductive CancelRequestDecision :=
  | CancelApplied (s : OperationSnapshot)
  | CancelReplayed (s : OperationSnapshot)
  | AlreadyTerminal (s : OperationSnapshot).

Record OutboxEntry := {
  oe_sequence : Z;
  oe_kind : OutboxKind;
  oe_operation : OperationHandle;
  oe_owner_fiber : FiberHandle;
  oe_callback_id : option Z;
  oe_state : OperationState;
}.
#[export] Instance outbox_entry_eq_dec : EqDecision OutboxEntry.
Proof. solve_decision. Defined.

Inductive OutboxParkDecision := Parked (sequence parked_at_ms : Z) | ParkReplayed (sequence parked_at_ms : Z).
Inductive OutboxUnparkDecision := Unparked (sequence unparked_at_ms : Z) | UnparkReplayed (sequence unparked_at_ms : Z).

(** A parked entry, and an entry with its parking history. *)
Record ParkedOutboxEntry := {
  pe_entry : OutboxEntry;
  pe_acknowledged : bool;
  pe_parked_at_ms : Z;
  pe_park_reason : bytes;
}.

Record OutboxParkHistoryEntry := {
  he_entry : OutboxEntry;
  he_acknowledged : bool;
  he_parked : bool;
  he_park_count : Z;
  he_unpark_count : Z;
  he_parked_at_ms : option Z;
  he_park_reason : option bytes;
  he_unparked_at_ms : option Z;
  he_unpark_reason : option bytes;
}.

Record OperationEndpointProof := {
  ep_operation : OperationHandle;
  ep_owner_fiber : FiberHandle;
  ep_cancellation_scope_id : Z;
  ep_cancellation_generation : Z;
  ep_participant_id : Z;
  ep_participant_generation : Z;
  ep_admission_receipt_id : Z;
}.

Record OperationActivationProof := {
  ap_operation : OperationHandle;
  ap_preparation_receipt_id : Z;
  ap_activation_receipt_id : Z;
  ap_callback_id : Z;
  ap_cancel_epoch : Z;
}.

(** ** Tables *)

(** Columns of fixed-length blobs are the numbers they spell; a [CHECK] of the schema
    keeps their length. *)
Record OperationRow := {
  o_generation : Z;
  o_owner_fiber_id : Z;
  o_owner_fiber_generation : Z;
  o_cancellation_scope_id : Z;
  o_cancellation_generation : Z;
  o_cancel_epoch : Z;
  o_state_kind : Z;
  o_receipt_id : option Z;
  o_issued_callback_id : option Z;
  o_issued_cancel_epoch : option Z;
  o_accepted_callback_id : option Z;
  o_revision : Z;
}.

Record OutboxRow := {
  x_kind : Z;
  x_operation_id : Z;
  x_operation_generation : Z;
  x_owner_fiber_id : Z;
  x_owner_fiber_generation : Z;
  x_callback_id : option Z;
  x_state_kind : Z;
  x_receipt_id : Z;
  x_acknowledged : Z;
  x_parked_at_ms : option Z;
  x_park_reason : option bytes;
  x_unparked_at_ms : option Z;
  x_unpark_reason : option bytes;
  x_park_count : Z;
}.

Record CallRow := {
  c_request_digest : Z;
  c_operation_id : Z;
  c_operation_generation : Z;
  c_receipt_id : option Z;
  c_response_wire : option bytes;
}.

Record DispatchActivationRecord := {
  ar_activation_receipt_id : Z;
  ar_operation : OperationHandle;
  ar_preparation_receipt_id : Z;
  ar_callback_id : Z;
  ar_cancel_epoch : Z;
}.

(** The primary key of [idempotent_calls]. *)
Definition CallKey : Type := Z * bytes * bytes * Z.

Record Db := {
  db_operations : gmap Z OperationRow;
  db_outbox : gmap Z OutboxRow;
  db_sequence : Z;
  db_calls : gmap CallKey CallRow;
  db_preparations : gmap Z OperationDispatchPreparation;
  db_activations : gmap Z DispatchActivationRecord;
  db_user_version : Z;
}.

#[export] Instance eta_outbox_row : Eta OutboxRow := fun x =>
  Build_OutboxRow (x_kind x) (x_operation_id x) (x_operation_generation x) (x_owner_fiber_id x)
    (x_owner_fiber_generation x) (x_callback_id x) (x_state_kind x) (x_receipt_id x) (x_acknowledged x)
    (x_parked_at_ms x) (x_park_reason x) (x_unparked_at_ms x) (x_unpark_reason x) (x_park_count x).
#[export] Instance set_x_acknowledged : Setter x_acknowledged. Proof. build_setter. Defined.
#[export] Instance set_x_parked_at_ms : Setter x_parked_at_ms. Proof. build_setter. Defined.
#[export] Instance set_x_park_reason : Setter x_park_reason. Proof. build_setter. Defined.
#[export] Instance set_x_unparked_at_ms : Setter x_unparked_at_ms. Proof. build_setter. Defined.
#[export] Instance set_x_unpark_reason : Setter x_unpark_reason. Proof. build_setter. Defined.
#[export] Instance set_x_park_count : Setter x_park_count. Proof. build_setter. Defined.

#[export] Instance eta_db : Eta Db := fun x =>
  Build_Db (db_operations x) (db_outbox x) (db_sequence x) (db_calls x) (db_preparations x) (db_activations x)
    (db_user_version x).
#[export] Instance set_db_operations : Setter db_operations. Proof. build_setter. Defined.
#[export] Instance set_db_outbox : Setter db_outbox. Proof. build_setter. Defined.
#[export] Instance set_db_sequence : Setter db_sequence. Proof. build_setter. Defined.
#[export] Instance set_db_calls : Setter db_calls. Proof. build_setter. Defined.
#[export] Instance set_db_preparations : Setter db_preparations. Proof. build_setter. Defined.
#[export] Instance set_db_activations : Setter db_activations. Proof. build_setter. Defined.
#[export] Instance set_db_user_version : Setter db_user_version. Proof. build_setter. Defined.

(** ** Transactions

    A transaction reads and writes the tables and may fail; a failed one leaves them as
    they were. *)
Abbreviation tx := (txn Db StoreError).

Definition corrupt_record {A} (reason : string) : tx A := throw (CorruptRecord reason).
Definition lift_op {A} (r : result OperationError A) : tx A := lift (map_err Operation r).

(** ** Rows *)

Definition encode_state (s : OperationState) : Z * option Z :=
  match s with
  | Registered => (0, None)
  | Dispatched => (1, None)
  | CancelRequested => (2, None)
  | Completed r => (10, Some r)
  | Failed r => (11, Some r)
  | CancelledBeforeEffect r => (12, Some r)
  | PartialEffect r => (13, Some r)
  | EffectUnknown r => (14, Some r)
  end.

Definition decode_state (kind : Z) (receipt : option Z) : result StoreError OperationState :=
  let terminal (f : Z -> OperationState) :=
    r ← ok_or receipt (CorruptRecord "terminal state lacks receipt"); Ok (f r) in
  let pending (s : OperationState) :=
    match receipt with
    | None => Ok s
    | Some _ => Err (CorruptRecord "non-terminal state unexpectedly carries receipt")
    end in
  if decide (kind = 0) then pending Registered else
  if decide (kind = 1) then pending Dispatched else
  if decide (kind = 2) then pending CancelRequested else
  if decide (kind = 10) then terminal Completed else
  if decide (kind = 11) then terminal Failed else
  if decide (kind = 12) then terminal CancelledBeforeEffect else
  if decide (kind = 13) then terminal PartialEffect else
  if decide (kind = 14) then terminal EffectUnknown else
  Err (CorruptRecord "unknown operation state").

Definition completion_from_state (s : OperationState) : result StoreError CompletionOutcome :=
  match s with
  | Completed r => Ok (OutCompleted r)
  | Failed r => Ok (OutFailed r)
  | CancelledBeforeEffect r => Ok (OutCancelledBeforeEffect r)
  | PartialEffect r => Ok (OutPartialEffect r)
  | EffectUnknown r => Ok (OutEffectUnknown r)
  | _ => Err (CorruptRecord "accepted callback references non-terminal state")
  end.

Definition receipt_from_state (s : OperationState) : option Z := (encode_state s).2.

Definition encode_outbox_kind (k : OutboxKind) : Z := match k with WakeFiber => 0 | ReconcileEffect => 1 end.
Definition decode_outbox_kind (k : Z) : result StoreError OutboxKind :=
  if decide (k = 0) then Ok WakeFiber else if decide (k = 1) then Ok ReconcileEffect else
  Err (CorruptRecord "unknown outbox kind").

Definition generation_from_blob (value : Z) : result StoreError Z :=
  if decide (value = 0) then Err (CorruptRecord "zero generation") else Ok value.

(** [EncodedMachine::from_machine], at a revision. *)
Definition from_machine (m : OperationMachine) (revision : Z) : OperationRow := {|
  o_generation := generation (m_spec m);
  o_owner_fiber_id := fiber_id (owner_fiber (m_spec m));
  o_owner_fiber_generation := fiber_generation (owner_fiber (m_spec m));
  o_cancellation_scope_id := cancellation_scope_id (m_spec m);
  o_cancellation_generation := cancellation_generation (m_spec m);
  o_cancel_epoch := m_cancel_epoch m;
  o_state_kind := (encode_state (m_state m)).1;
  o_receipt_id := (encode_state (m_state m)).2;
  o_issued_callback_id := ic_callback_id <$> m_issued m;
  o_issued_cancel_epoch := ic_cancel_epoch <$> m_issued m;
  o_accepted_callback_id := ac_callback_id <$> m_accepted m;
  o_revision := revision;
|}.

Definition decode_machine (id : Z) (row : OperationRow) : result StoreError (OperationMachine * Z) :=
  g ← generation_from_blob (o_generation row);
  fg ← generation_from_blob (o_owner_fiber_generation row);
  cg ← generation_from_blob (o_cancellation_generation row);
  let spec := {| operation_id := id; generation := g;
                 owner_fiber := {| fiber_id := o_owner_fiber_id row; fiber_generation := fg |};
                 cancellation_scope_id := o_cancellation_scope_id row; cancellation_generation := cg |} in
  state ← decode_state (o_state_kind row) (o_receipt_id row);
  issued ← match o_issued_callback_id row, o_issued_cancel_epoch row with
           | Some cb, Some e => Ok (Some {| ic_callback_id := cb; ic_cancel_epoch := e |})
           | None, None => Ok None
           | _, _ => Err (CorruptRecord "issued callback identity and epoch disagree")
           end;
  accepted ← match o_accepted_callback_id row with
             | Some cb => o ← completion_from_state state; Ok (Some {| ac_callback_id := cb; ac_outcome := o |})
             | None => Ok None
             end;
  if decide (o_revision row < 0) then Err (CorruptRecord "negative operation revision") else
  m ← map_err Operation (restore spec (o_cancel_epoch row) state issued accepted);
  Ok (m, o_revision row).

(** ** Statements *)

Definition load_machine_optional_with_revision (id : Z) : tx (option (OperationMachine * Z)) :=
  row ← reading (fun d => db_operations d !! id);
  match row with
  | None => mret None
  | Some row => p ← lift (decode_machine id row); mret (Some p)
  end.

Definition load_machine_optional (id : Z) : tx (option OperationMachine) :=
  p ← load_machine_optional_with_revision id; mret (fst <$> p).

Definition load_machine (id : Z) : tx (OperationMachine * Z) :=
  p ← load_machine_optional_with_revision id;
  lift (ok_or p (Operation InvalidGeneration)).

(** [operation_id] is the primary key. *)
Definition insert_machine (m : OperationMachine) : tx () :=
  let id := operation_id (m_spec m) in
  row ← reading (fun d => db_operations d !! id);
  match row with
  | Some _ => throw (Sqlite ConstraintViolation)
  | None => writing (fun d => d <| db_operations := <[id := from_machine m 0]> (db_operations d) |>)
  end.

(** Only the columns a transition changes are written. *)
Definition update_row (row : OperationRow) (m : OperationMachine) : OperationRow := {|
  o_generation := o_generation row;
  o_owner_fiber_id := o_owner_fiber_id row;
  o_owner_fiber_generation := o_owner_fiber_generation row;
  o_cancellation_scope_id := o_cancellation_scope_id row;
  o_cancellation_generation := o_cancellation_generation row;
  o_cancel_epoch := m_cancel_epoch m;
  o_state_kind := (encode_state (m_state m)).1;
  o_receipt_id := (encode_state (m_state m)).2;
  o_issued_callback_id := ic_callback_id <$> m_issued m;
  o_issued_cancel_epoch := ic_cancel_epoch <$> m_issued m;
  o_accepted_callback_id := ac_callback_id <$> m_accepted m;
  o_revision := o_revision row + 1;
|}.

Definition update_machine (m : OperationMachine) (expected_revision : Z) : tx () :=
  let id := operation_id (m_spec m) in
  row ← reading (fun d => db_operations d !! id);
  match row with
  | Some row =>
      if decide (o_generation row = generation (m_spec m) /\ o_revision row = expected_revision)
      then writing (fun d => d <| db_operations := <[id := update_row row m]> (db_operations d) |>)
      else corrupt_record "operation revision compare-and-swap failed"
  | None => corrupt_record "operation revision compare-and-swap failed"
  end.

(** [AUTOINCREMENT]: a sequence number is never used twice, and runs out at the end of
    [i64]. *)
Definition insert_outbox (kind : OutboxKind) (m : OperationMachine) (callback_id : option Z) : tx () :=
  receipt ← lift (ok_or (receipt_from_state (m_state m)) (CorruptRecord "outbox state lacks final receipt"));
  last ← reading db_sequence;
  if decide (last >= i64_max) then throw (Sqlite DatabaseFull) else
  let row := {| x_kind := encode_outbox_kind kind;
                x_operation_id := operation_id (m_spec m); x_operation_generation := generation (m_spec m);
                x_owner_fiber_id := fiber_id (owner_fiber (m_spec m));
                x_owner_fiber_generation := fiber_generation (owner_fiber (m_spec m));
                x_callback_id := callback_id; x_state_kind := (encode_state (m_state m)).1; x_receipt_id := receipt;
                x_acknowledged := 0; x_parked_at_ms := None; x_park_reason := None; x_unparked_at_ms := None;
                x_unpark_reason := None; x_park_count := 0 |} in
  writing (fun d => d <| db_outbox := <[last + 1 := row]> (db_outbox d) |> <| db_sequence := last + 1 |>).

(** A row of [idempotent_calls] as the code reads it. *)
Record IdempotencyRecord := {
  ir_request_digest_sha256 : Z;
  ir_operation : OperationHandle;
  ir_result : option DurableCallResult;
}.

Definition into_decision (r : IdempotencyRecord) : IdempotencyDecision :=
  match ir_result r with
  | Some result => CallCompleted result
  | None => PendingOrUncertain (ir_operation r)
  end.

Definition decode_idempotency_row (row : CallRow) : result StoreError IdempotencyRecord :=
  g ← generation_from_blob (c_operation_generation row);
  let operation := {| oh_operation_id := c_operation_id row; oh_generation := g |} in
  result ← match c_receipt_id row, c_response_wire row with
           | Some receipt, Some wire =>
               if decide (size_of wire > MAX_DURABLE_RESULT_BYTES)
               then Err (CorruptRecord "idempotency result exceeds durable bound")
               else Ok (Some {| cr_operation := operation; cr_receipt_id := receipt; cr_result_wire := wire |})
           | None, None => Ok None
           | _, _ => Err (CorruptRecord "idempotency receipt and result disagree")
           end;
  Ok {| ir_request_digest_sha256 := c_request_digest row; ir_operation := operation; ir_result := result |}.

Definition call_key (scope : IdempotencyScope) (key : Z) : CallKey :=
  (application_id scope, service scope, method scope, key).

Definition load_idempotency_record (scope : IdempotencyScope) (key : Z) : tx (option IdempotencyRecord) :=
  row ← reading (fun d => db_calls d !! call_key scope key);
  match row with
  | None => mret None
  | Some row => r ← lift (decode_idempotency_row row); mret (Some r)
  end.

(** The rows of an operation; a [UNIQUE] constraint keeps them to one. *)
Definition calls_of (h : OperationHandle) (d : Db) : list (CallKey * CallRow) :=
  filter (fun p => c_operation_id p.2 = oh_operation_id h /\ c_operation_generation p.2 = oh_generation h)
    (map_to_list (db_calls d)).

Definition load_idempotency_record_by_operation (h : OperationHandle) : tx (option IdempotencyRecord) :=
  rows ← reading (calls_of h);
  match rows with
  | [] => mret None
  | (_, row) :: _ => r ← lift (decode_idempotency_row row); mret (Some r)
  end.

Definition insert_call (key : CallKey) (digest : Z) (h : OperationHandle) : tx () :=
  taken ← reading (fun d => is_some (db_calls d !! key) || negb (bool_decide (calls_of h d = [])));
  if (taken : bool) then throw (Sqlite ConstraintViolation) else
  writing (fun d => d <| db_calls := <[key := {|
    c_request_digest := digest; c_operation_id := oh_operation_id h; c_operation_generation := oh_generation h;
    c_receipt_id := None; c_response_wire := None |}]> (db_calls d) |>).

(** [UPDATE idempotent_calls SET receipt_id, response_wire]: only rows without a result
    match, so the trigger on written results stays silent. Returns how many rows
    changed. *)
Definition set_result (h : OperationHandle) (receipt : Z) (wire : bytes) : tx nat :=
  rows ← reading (fun d =>
    filter (fun p => c_receipt_id p.2 = None /\ c_response_wire p.2 = None) (calls_of h d));
  _ ← writing (fun d => d <| db_calls :=
    foldr (fun p calls => <[p.1 := {|
        c_request_digest := c_request_digest p.2; c_operation_id := c_operation_id p.2;
        c_operation_generation := c_operation_generation p.2;
        c_receipt_id := Some receipt; c_response_wire := Some wire |}]> calls) (db_calls d) rows |>);
  mret (length rows).

Section receipts.
Context `{Sha256}.

Definition first16 (digest : Z) : Z := be_value (take 16 (be_bytes 32 digest)).

Definition derive_endpoint_id (domain : bytes) (id g : Z) : Z :=
  first16 (sha256 (domain ++ be_bytes 16 id ++ be_bytes 8 g)).

Definition derive_operation_dispatch_receipt_id (domain : bytes) (h : OperationHandle) (callback_id : Z) : Z :=
  first16 (sha256 (domain ++ be_bytes 16 (oh_operation_id h) ++ be_bytes 8 (oh_generation h) ++ be_bytes 16 callback_id)).

Definition PREPARATION_DOMAIN : bytes := bytes_of_string "nlos/operation-dispatch/preparation/v1".
Definition ACTIVATION_DOMAIN : bytes := bytes_of_string "nlos/operation-dispatch/activation/v1".
Definition PARTICIPANT_DOMAIN : bytes := bytes_of_string "nlos/operation-endpoint/participant/v1".
Definition ADMISSION_DOMAIN : bytes := bytes_of_string "nlos/operation-endpoint/admission/v1".

Definition dispatch_preparation_from_machine (m : OperationMachine) (callback_id : Z) : OperationDispatchPreparation := {|
  dp_operation := handle_of (m_spec m);
  dp_owner_fiber := owner_fiber (m_spec m);
  dp_cancellation_scope_id := cancellation_scope_id (m_spec m);
  dp_cancellation_generation := cancellation_generation (m_spec m);
  dp_callback_id := callback_id;
  dp_cancel_epoch := m_cancel_epoch m;
  dp_preparation_receipt_id := derive_operation_dispatch_receipt_id PREPARATION_DOMAIN (handle_of (m_spec m)) callback_id;
|}.

Definition dispatch_preparation_matches_machine (p : OperationDispatchPreparation) (m : OperationMachine)
    (callback_id : Z) : bool :=
  let h := handle_of (m_spec m) in
  bool_decide (dp_operation p = h) && bool_decide (dp_owner_fiber p = owner_fiber (m_spec m))
  && bool_decide (dp_cancellation_scope_id p = cancellation_scope_id (m_spec m))
  && bool_decide (dp_cancellation_generation p = cancellation_generation (m_spec m))
  && bool_decide (dp_callback_id p = callback_id) && bool_decide (dp_cancel_epoch p = CancelEpoch_INITIAL)
  && bool_decide (dp_preparation_receipt_id p = derive_operation_dispatch_receipt_id PREPARATION_DOMAIN h callback_id).
End receipts.

(** The receipt of a preparation is [UNIQUE]. *)
Definition insert_dispatch_preparation (p : OperationDispatchPreparation) : tx () :=
  let id := oh_operation_id (dp_operation p) in
  taken ← reading (fun d => is_some (db_preparations d !! id)
    || bool_decide (map_Exists (fun _ q => dp_preparation_receipt_id q = dp_preparation_receipt_id p) (db_preparations d)));
  if (taken : bool) then throw (Sqlite ConstraintViolation) else
  writing (fun d => d <| db_preparations := <[id := p]> (db_preparations d) |>).

Definition load_dispatch_preparation_optional (h : OperationHandle) : tx (option OperationDispatchPreparation) :=
  row ← reading (fun d => db_preparations d !! oh_operation_id h);
  match row with
  | None => mret None
  | Some p =>
      _ ← lift (generation_from_blob (oh_generation (dp_operation p)));
      _ ← lift (generation_from_blob (fiber_generation (dp_owner_fiber p)));
      _ ← lift (generation_from_blob (dp_cancellation_generation p));
      mret (Some p)
  end.

(** Receipt and preparation of an activation are unique, and the preparation is there. *)
Definition insert_dispatch_activation (p : OperationDispatchPreparation) (receipt : Z) : tx () :=
  let id := oh_operation_id (dp_operation p) in
  refused ← reading (fun d => is_some (db_activations d !! id)
    || bool_decide (map_Exists (fun _ a => ar_activation_receipt_id a = receipt
                      \/ ar_preparation_receipt_id a = dp_preparation_receipt_id p) (db_activations d))
    || negb (bool_decide (map_Exists (fun _ q => dp_preparation_receipt_id q = dp_preparation_receipt_id p)
                            (db_preparations d))));
  if (refused : bool) then throw (Sqlite ConstraintViolation) else
  writing (fun d => d <| db_activations := <[id := {|
    ar_activation_receipt_id := receipt; ar_operation := dp_operation p;
    ar_preparation_receipt_id := dp_preparation_receipt_id p; ar_callback_id := dp_callback_id p;
    ar_cancel_epoch := dp_cancel_epoch p |}]> (db_activations d) |>).

Definition load_dispatch_activation_optional (h : OperationHandle) : tx (option DispatchActivationRecord) :=
  row ← reading (fun d => db_activations d !! oh_operation_id h);
  match row with
  | None => mret None
  | Some a => _ ← lift (generation_from_blob (oh_generation (ar_operation a))); mret (Some a)
  end.

(** ** Validation *)

Definition valid_component (b : bytes) : bool :=
  negb (bool_decide (b = [])) && bool_decide (size_of b <= MAX_ENDPOINT_COMPONENT_BYTES) && negb (bool_decide (0 ∈ b)).

Definition validate_idempotency_scope (scope : IdempotencyScope) : result StoreError () :=
  if valid_component (service scope) && valid_component (method scope) then Ok () else Err InvalidIdempotencyScope.

Definition validate_park_request (reason : bytes) (now_ms : Z) : result StoreError () :=
  if decide (reason = []) then Err (InvalidParkRequest "park reason must be a non-empty string") else
  if decide (size_of reason > MAX_PARK_REASON_BYTES)
  then Err (InvalidParkRequest "park reason exceeds the 1024-byte bound") else
  if decide (0 ∈ reason) then Err (InvalidParkRequest "park reason must not carry a NUL byte") else
  if decide (now_ms < 0) then Err (InvalidParkRequest "park timestamp must be non-negative milliseconds") else
  Ok ().

Definition validate_unpark_request (reason : bytes) (now_ms : Z) : result StoreError () :=
  if decide (reason = []) then Err (InvalidParkRequest "unpark reason must be a non-empty string") else
  if decide (size_of reason > MAX_PARK_REASON_BYTES)
  then Err (InvalidParkRequest "unpark reason exceeds the 1024-byte bound") else
  if decide (0 ∈ reason) then Err (InvalidParkRequest "unpark reason must not carry a NUL byte") else
  if decide (now_ms < 0) then Err (InvalidParkRequest "unpark timestamp must be non-negative milliseconds") else
  Ok ().

(** ** Operations and their dispatch *)

Section operations.
Context `{Sha256}.

Definition register (spec : OperationSpec) : tx RegistrationDecision :=
  existing ← load_machine_optional (operation_id spec);
  match existing with
  | Some m =>
      if decide (m_spec m = spec) then mret (Existing (handle_of (m_spec m)))
      else throw (Operation DuplicateOperation)
  | None => _ ← insert_machine (machine_new spec); mret (Created (handle_of spec))
  end.

Definition prepare_dispatch (h : OperationHandle) (callback_id : Z) : tx OperationPrepareDecision :=
  '(m, _) ← load_machine (oh_operation_id h);
  if decide (handle_of (m_spec m) <> h) then throw (Operation InvalidGeneration) else
  existing ← load_dispatch_preparation_optional h;
  match existing with
  | Some p =>
      if dispatch_preparation_matches_machine p m callback_id then mret (PrepareReplayed p)
      else throw DispatchPreparationConflict
  | None =>
      if decide (m_state m <> Registered) then throw (Operation InvalidState) else
      let p := dispatch_preparation_from_machine m callback_id in
      _ ← insert_dispatch_preparation p;
      mret (Prepared p)
  end.

(** The replay of an activation that is already stored. *)
Definition replay_activation (p : OperationDispatchPreparation) (receipt : Z) (m : OperationMachine)
    (a : DispatchActivationRecord) : tx OperationActivationDecision :=
  if decide (ar_operation a <> dp_operation p \/ ar_preparation_receipt_id a <> dp_preparation_receipt_id p
             \/ ar_activation_receipt_id a <> receipt \/ ar_callback_id a <> dp_callback_id p
             \/ ar_cancel_epoch a <> dp_cancel_epoch p
             \/ dispatch_preparation_matches_machine p m (dp_callback_id p) = false)
  then throw DispatchPreparationConflict else
  issued ← lift (ok_or (m_issued m) (CorruptRecord "activation receipt lacks issued callback"));
  if decide (ic_callback_id issued <> ar_callback_id a \/ ic_cancel_epoch issued <> ar_cancel_epoch a
             \/ m_state m = Registered)
  then corrupt_record "activation receipt disagrees with Operation state" else
  mret (ActivationReplayed {| da_preparation := p;
    da_ticket := {| ct_callback_id := ar_callback_id a; ct_operation := dp_operation p;
                    ct_owner_fiber := dp_owner_fiber p; ct_cancel_epoch := ar_cancel_epoch a |};
    da_activation_receipt_id := ar_activation_receipt_id a |}).

Definition activate_dispatch (p : OperationDispatchPreparation) : tx OperationActivationDecision :=
  let h := dp_operation p in
  '(m, revision) ← load_machine (oh_operation_id h);
  if decide (handle_of (m_spec m) <> h) then throw (Operation InvalidGeneration) else
  stored ← load_dispatch_preparation_optional h;
  durable ← lift (ok_or stored DispatchPreparationNotFound);
  if decide (durable <> p) then throw DispatchPreparationConflict else
  let receipt := derive_operation_dispatch_receipt_id ACTIVATION_DOMAIN h (dp_callback_id p) in
  existing ← load_dispatch_activation_optional h;
  match existing with
  | Some a => replay_activation p receipt m a
  | None =>
      if decide (m_state m <> Registered) then throw (Operation InvalidState) else
      if dispatch_preparation_matches_machine p m (dp_callback_id p) then
        '(m, ticket) ← lift_op (machine_dispatch m h (dp_callback_id p));
        _ ← update_machine m revision;
        _ ← insert_dispatch_activation p receipt;
        mret (Activated {| da_preparation := p; da_ticket := ticket; da_activation_receipt_id := receipt |})
      else throw DispatchPreparationConflict
  end.

Definition dispatch (h : OperationHandle) (callback_id : Z) : tx CallbackTicket :=
  '(m, revision) ← load_machine (oh_operation_id h);
  if decide (handle_of (m_spec m) <> h) then throw (Operation InvalidGeneration) else
  prepared ← load_dispatch_preparation_optional h;
  if is_some prepared then throw (Operation InvalidState) else
  '(m, ticket) ← lift_op (machine_dispatch m h callback_id);
  _ ← update_machine m revision;
  mret ticket.

(** ** Cancellation and completion *)

Definition is_cancelled_before_effect (s : OperationState) : bool :=
  match s with CancelledBeforeEffect _ => true | _ => false end.

Definition cancel_and_store (m : OperationMachine) (revision : Z) (h : OperationHandle) (receipt : Z) : tx OperationSnapshot :=
  '(m, snapshot) ← lift_op (machine_request_cancel m h receipt);
  _ ← update_machine m revision;
  _ ← (if is_cancelled_before_effect (sn_state snapshot) then insert_outbox WakeFiber m None else mret ());
  mret snapshot.

Definition request_cancel (h : OperationHandle) (receipt : Z) : tx OperationSnapshot :=
  '(m, revision) ← load_machine (oh_operation_id h);
  cancel_and_store m revision h receipt.

Definition request_cancel_idempotent (h : OperationHandle) (expected_cancel_epoch receipt : Z) : tx CancelRequestDecision :=
  '(m, revision) ← load_machine (oh_operation_id h);
  let before := snapshot_of m in
  if decide (sn_handle before <> h) then throw (Operation InvalidGeneration) else
  if decide (sn_cancel_epoch before = expected_cancel_epoch) then
    if is_terminal (sn_state before) then mret (AlreadyTerminal before) else
    snapshot ← cancel_and_store m revision h receipt;
    mret (CancelApplied snapshot)
  else if decide (cancel_epoch_next expected_cancel_epoch = Some (sn_cancel_epoch before)
                  /\ sn_state before <> Registered /\ sn_state before <> Dispatched) then
    match sn_state before with
    | CancelledBeforeEffect r =>
        if decide (r <> receipt) then throw IdempotencyConflict else mret (CancelReplayed before)
    | _ => mret (CancelReplayed before)
    end
  else throw (CancelEpochConflict expected_cancel_epoch (sn_cancel_epoch before)).

(** A completion that is not a repetition is stored with its outbox entry. *)
Definition store_completion (m : OperationMachine) (revision : Z) (d : CompletionDecision) (callback_id : Z) : tx () :=
  match d with
  | Duplicate _ => mret ()
  | CanonicalizedAndWake _ => _ ← update_machine m revision; insert_outbox WakeFiber m (Some callback_id)
  | CanonicalizedForReconciliation _ => _ ← update_machine m revision; insert_outbox ReconcileEffect m (Some callback_id)
  end.

Definition complete (t : CallbackTicket) (o : CompletionOutcome) : tx CompletionDecision :=
  '(m, revision) ← load_machine (oh_operation_id (ct_operation t));
  '(m, decision) ← lift_op (machine_complete m t o);
  _ ← store_completion m revision decision (ct_callback_id t);
  mret decision.

(** ** Idempotent calls *)

Definition begin_idempotent_operation (scope : IdempotencyScope) (key digest : Z) (spec : OperationSpec) :
    tx IdempotencyDecision :=
  _ ← lift (validate_idempotency_scope scope);
  existing ← load_idempotency_record scope key;
  match existing with
  | Some r =>
      if decide (ir_request_digest_sha256 r <> digest) then throw IdempotencyConflict else mret (into_decision r)
  | None =>
      machine ← load_machine_optional (operation_id spec);
      match machine with
      | Some m => if decide (m_spec m <> spec) then throw (Operation DuplicateOperation) else throw IdempotencyConflict
      | None =>
          _ ← insert_machine (machine_new spec);
          _ ← insert_call (call_key scope key) digest (handle_of spec);
          mret (CallCreated (handle_of spec))
      end
  end.

Definition inspect_idempotent_operation (scope : IdempotencyScope) (key : Z) : tx (option IdempotencyDecision) :=
  _ ← lift (validate_idempotency_scope scope);
  r ← load_idempotency_record scope key;
  mret (into_decision <$> r).

Definition result_too_large (wire : bytes) : option StoreError :=
  if decide (size_of wire > MAX_DURABLE_RESULT_BYTES)
  then Some (DurableResultTooLarge (size_of wire) MAX_DURABLE_RESULT_BYTES) else None.

Definition store_result (h : OperationHandle) (receipt : Z) (wire : bytes) (reason : string) : tx DurableCallResult :=
  changed ← set_result h receipt wire;
  if decide (changed <> 1%nat) then corrupt_record reason else
  mret {| cr_operation := h; cr_receipt_id := receipt; cr_result_wire := wire |}.

Definition complete_idempotent_operation (t : CallbackTicket) (o : CompletionOutcome) (wire : bytes) : tx DurableCallResult :=
  match result_too_large wire with
  | Some e => throw e
  | None =>
      let h := ct_operation t in
      '(m, revision) ← load_machine (oh_operation_id h);
      '(m, decision) ← lift_op (machine_complete m t o);
      found ← load_idempotency_record_by_operation h;
      r ← lift (ok_or found IdempotencyRecordNotFound);
      receipt ← lift (ok_or (receipt_from_state (m_state m)) (CorruptRecord "idempotent completion lacks final receipt"));
      match ir_result r with
      | Some existing =>
          if decide (cr_receipt_id existing <> receipt \/ cr_result_wire existing <> wire)
          then throw IdempotencyConflict else mret existing
      | None =>
          _ ← store_completion m revision decision (ct_callback_id t);
          store_result h receipt wire "idempotency result compare-and-set failed"
      end
  end.

Definition cancel_idempotent_before_dispatch (h : OperationHandle) (receipt : Z) (wire : bytes) : tx DurableCallResult :=
  match result_too_large wire with
  | Some e => throw e
  | None =>
      '(m, revision) ← load_machine (oh_operation_id h);
      found ← load_idempotency_record_by_operation h;
      r ← lift (ok_or found IdempotencyRecordNotFound);
      match ir_result r with
      | Some existing =>
          if decide (cr_receipt_id existing <> receipt \/ cr_result_wire existing <> wire)
          then throw IdempotencyConflict else mret existing
      | None =>
          if decide (m_state m <> Registered) then throw (Operation InvalidState) else
          '(m, snapshot) ← lift_op (machine_request_cancel m h receipt);
          if is_cancelled_before_effect (sn_state snapshot) then
            _ ← update_machine m revision;
            _ ← insert_outbox WakeFiber m None;
            store_result h receipt wire "idempotency no-effect result compare-and-set failed"
          else corrupt_record "pre-dispatch cancellation did not produce a no-effect terminal state"
      end
  end.

(** ** Proofs *)

Definition inspect (h : OperationHandle) : tx OperationSnapshot :=
  '(m, _) ← load_machine (oh_operation_id h);
  if decide (generation (m_spec m) <> oh_generation h) then throw (Operation InvalidGeneration) else
  mret (snapshot_of m).

Definition inspect_endpoint_proof (h : OperationHandle) : tx OperationEndpointProof :=
  '(m, _) ← load_machine (oh_operation_id h);
  let spec := m_spec m in
  if decide (generation spec <> oh_generation h) then throw (Operation InvalidGeneration) else
  mret {| ep_operation := h; ep_owner_fiber := owner_fiber spec;
          ep_cancellation_scope_id := cancellation_scope_id spec;
          ep_cancellation_generation := cancellation_generation spec;
          ep_participant_id := derive_endpoint_id PARTICIPANT_DOMAIN (operation_id spec) (generation spec);
          ep_participant_generation := generation spec;
          ep_admission_receipt_id := derive_endpoint_id ADMISSION_DOMAIN (operation_id spec) (generation spec) |}.

Definition inspect_activation_proof (h : OperationHandle) : tx OperationActivationProof :=
  '(m, _) ← load_machine (oh_operation_id h);
  if decide (handle_of (m_spec m) <> h) then throw (Operation InvalidGeneration) else
  stored ← load_dispatch_preparation_optional h;
  p ← lift (ok_or stored DispatchPreparationNotFound);
  activation ← load_dispatch_activation_optional h;
  a ← lift (ok_or activation OperationNotActivated);
  if decide (ar_operation a <> h \/ ar_preparation_receipt_id a <> dp_preparation_receipt_id p
             \/ ar_callback_id a <> dp_callback_id p \/ ar_cancel_epoch a <> dp_cancel_epoch p)
  then corrupt_record "dispatch activation disagrees with preparation" else
  if decide (ar_activation_receipt_id a <> derive_operation_dispatch_receipt_id ACTIVATION_DOMAIN h (dp_callback_id p))
  then corrupt_record "dispatch activation receipt identity mismatch" else
  issued ← lift (ok_or (m_issued m) (CorruptRecord "dispatch activation lacks issued callback"));
  if decide (ic_callback_id issued <> ar_callback_id a \/ ic_cancel_epoch issued <> ar_cancel_epoch a
             \/ m_state m = Registered)
  then corrupt_record "dispatch activation disagrees with Operation state" else
  mret {| ap_operation := h; ap_preparation_receipt_id := dp_preparation_receipt_id p;
          ap_activation_receipt_id := ar_activation_receipt_id a; ap_callback_id := ar_callback_id a;
          ap_cancel_epoch := ar_cancel_epoch a |}.
End operations.

(** ** The outbox *)

Definition decode_outbox_row (sequence : Z) (row : OutboxRow) : result StoreError OutboxEntry :=
  kind ← decode_outbox_kind (x_kind row);
  g ← generation_from_blob (x_operation_generation row);
  fg ← generation_from_blob (x_owner_fiber_generation row);
  state ← decode_state (x_state_kind row) (Some (x_receipt_id row));
  Ok {| oe_sequence := sequence; oe_kind := kind;
        oe_operation := {| oh_operation_id := x_operation_id row; oh_generation := g |};
        oe_owner_fiber := {| fiber_id := x_owner_fiber_id row; fiber_generation := fg |};
        oe_callback_id := x_callback_id row; oe_state := state |}.

Definition reason_out_of_bound (reason : bytes) : Prop :=
  reason = [] \/ size_of reason > MAX_PARK_REASON_BYTES \/ 0 ∈ reason.
#[export] Instance reason_out_of_bound_dec reason : Decision (reason_out_of_bound reason).
Proof. unfold reason_out_of_bound. apply _. Defined.

Definition decode_parked_outbox_row (sequence : Z) (row : OutboxRow) : result StoreError ParkedOutboxEntry :=
  entry ← decode_outbox_row sequence row;
  match x_parked_at_ms row, x_park_reason row with
  | Some at_ms, Some reason =>
      if decide (x_acknowledged row <> 0 /\ x_acknowledged row <> 1) then Err (CorruptRecord "outbox acknowledged flag") else
      if decide (at_ms < 0) then Err (CorruptRecord "negative outbox park timestamp") else
      Ok {| pe_entry := entry; pe_acknowledged := bool_decide (x_acknowledged row = 1);
            pe_parked_at_ms := at_ms; pe_park_reason := reason |}
  | _, _ => Err (Sqlite InvalidColumnType)
  end.

(** A stamp and its reason are both there, in range, or both absent. *)
Definition stamp_out_of_bound (at_ms : option Z) (reason : option bytes) : bool :=
  match at_ms, reason with
  | Some a, Some r => bool_decide (a < 0) || bool_decide (reason_out_of_bound r)
  | _, _ => false
  end.

Definition decode_outbox_park_history_row (sequence : Z) (row : OutboxRow) : result StoreError OutboxParkHistoryEntry :=
  entry ← decode_outbox_row sequence row;
  if decide (x_acknowledged row <> 0 /\ x_acknowledged row <> 1) then Err (CorruptRecord "outbox acknowledged flag") else
  if negb (Bool.eqb (is_some (x_parked_at_ms row)) (is_some (x_park_reason row)))
     || negb (Bool.eqb (is_some (x_unparked_at_ms row)) (is_some (x_unpark_reason row)))
  then Err (CorruptRecord "outbox park or unpark timestamp and reason disagree") else
  if stamp_out_of_bound (x_parked_at_ms row) (x_park_reason row)
  then Err (CorruptRecord "outbox park facts out of bound") else
  if stamp_out_of_bound (x_unparked_at_ms row) (x_unpark_reason row)
  then Err (CorruptRecord "outbox unpark facts out of bound") else
  if decide (x_park_count row < 0) then Err (CorruptRecord "negative outbox park count") else
  let parked := is_some (x_parked_at_ms row) in
  let unpark_count := x_park_count row - (if parked then 1 else 0) in
  if decide (unpark_count < 0) then Err (CorruptRecord "outbox unpark count exceeds parks") else
  Ok {| he_entry := entry; he_acknowledged := bool_decide (x_acknowledged row = 1); he_parked := parked;
        he_park_count := x_park_count row; he_unpark_count := unpark_count;
        he_parked_at_ms := x_parked_at_ms row; he_park_reason := x_park_reason row;
        he_unparked_at_ms := x_unparked_at_ms row; he_unpark_reason := x_unpark_reason row |}.

(** [SELECT ... WHERE ... ORDER BY sequence LIMIT]: the first [limit] rows that match. *)
Definition select_outbox (P : OutboxRow -> bool) (limit : Z) (d : Db) : list (Z * OutboxRow) :=
  take (Z.to_nat (Z.min limit i64_max)) (filter (fun p => P p.2 = true) (btree_iter (db_outbox d))).

Fixpoint decode_rows {A} (f : Z -> OutboxRow -> result StoreError A) (rows : list (Z * OutboxRow)) :
    result StoreError (list A) :=
  match rows with
  | [] => Ok []
  | (sequence, row) :: rows => a ← f sequence row; l ← decode_rows f rows; Ok (a :: l)
  end.

Definition is_pending (row : OutboxRow) : bool :=
  bool_decide (x_acknowledged row = 0) && negb (is_some (x_parked_at_ms row)).

Definition pending_outbox (limit : Z) : tx (list OutboxEntry) :=
  rows ← reading (select_outbox is_pending limit);
  lift (decode_rows decode_outbox_row rows).

Definition inspect_parked_outbox (limit : Z) : tx (list ParkedOutboxEntry) :=
  rows ← reading (select_outbox (fun row => is_some (x_parked_at_ms row)) limit);
  lift (decode_rows decode_parked_outbox_row rows).

Definition inspect_outbox_park_history (limit : Z) : tx (list OutboxParkHistoryEntry) :=
  rows ← reading (select_outbox (fun row => is_some (x_parked_at_ms row) || is_some (x_unparked_at_ms row)) limit);
  lift (decode_rows decode_outbox_park_history_row rows).

Definition inspect_outbox_park_history_entry (sequence : Z) : tx (option OutboxParkHistoryEntry) :=
  row ← reading (fun d => db_outbox d !! sequence);
  match row with
  | None => mret None
  | Some row => e ← lift (decode_outbox_park_history_row sequence row); mret (Some e)
  end.

(** The acknowledgement mentions no parking column, so no trigger fires. *)
Definition acknowledge_outbox (sequence : Z) : tx () :=
  row ← reading (fun d => db_outbox d !! sequence);
  match row with
  | None => throw OutboxEntryNotFound
  | Some row => writing (fun d => d <| db_outbox := <[sequence := row <| x_acknowledged := 1 |>]> (db_outbox d) |>)
  end.

(** The two triggers of schema version 6 on an update of the parking columns. *)
Definition parking_is_one_way (old new : OutboxRow) : bool :=
  negb (Bool.eqb (is_some (x_parked_at_ms new)) (is_some (x_park_reason new)))
  || negb (is_some (x_parked_at_ms old)) && is_some (x_parked_at_ms new)
     && negb (bool_decide (x_park_count new = x_park_count old + 1))
  || is_some (x_parked_at_ms old)
     && negb (negb (is_some (x_parked_at_ms new)) && negb (is_some (x_park_reason new))
              && is_some (x_unparked_at_ms new) && is_some (x_unpark_reason new)).

Definition unpark_evidence_is_one_way (old new : OutboxRow) : bool :=
  negb (Bool.eqb (is_some (x_unparked_at_ms new)) (is_some (x_unpark_reason new)))
  || negb (is_some (x_parked_at_ms old))
     && (negb (bool_decide (x_unparked_at_ms new = x_unparked_at_ms old))
         || negb (bool_decide (x_unpark_reason new = x_unpark_reason old)))
  || negb (bool_decide (x_park_count new = x_park_count old))
     && negb (negb (is_some (x_parked_at_ms old)) && is_some (x_parked_at_ms new)).

(** An update of parking columns of one row, past both triggers. *)
Definition update_parking (sequence : Z) (old new : OutboxRow) : tx () :=
  if parking_is_one_way old new then throw (Sqlite (TriggerAbort "operation_outbox parking is one-way")) else
  if unpark_evidence_is_one_way old new
  then throw (Sqlite (TriggerAbort "operation_outbox unpark evidence is one-way")) else
  writing (fun d => d <| db_outbox := <[sequence := new]> (db_outbox d) |>).

Definition park_outbox_entry (sequence : Z) (reason : bytes) (now_ms : Z) : tx OutboxParkDecision :=
  _ ← lift (validate_park_request reason now_ms);
  row ← reading (fun d => db_outbox d !! sequence);
  match row with
  | None => throw OutboxEntryNotFound
  | Some row =>
      match x_parked_at_ms row, x_park_reason row with
      | None, None =>
          _ ← update_parking sequence row
                (row <| x_parked_at_ms := Some now_ms |> <| x_park_reason := Some reason |>
                     <| x_park_count := x_park_count row + 1 |>);
          mret (Parked sequence now_ms)
      | Some at_ms, Some why =>
          if decide (why = reason) then mret (ParkReplayed sequence at_ms) else throw OutboxParkConflict
      | _, _ => corrupt_record "outbox park timestamp and reason disagree"
      end
  end.

Definition unpark_outbox_entry (sequence : Z) (reason : bytes) (now_ms : Z) : tx OutboxUnparkDecision :=
  _ ← lift (validate_unpark_request reason now_ms);
  row ← reading (fun d => db_outbox d !! sequence);
  match row with
  | None => throw OutboxEntryNotFound
  | Some row =>
      match x_parked_at_ms row, x_park_reason row with
      | Some _, Some _ =>
          _ ← update_parking sequence row
                (row <| x_parked_at_ms := None |> <| x_park_reason := None |>
                     <| x_unparked_at_ms := Some now_ms |> <| x_unpark_reason := Some reason |>);
          mret (Unparked sequence now_ms)
      | None, None =>
          match x_unparked_at_ms row, x_unpark_reason row with
          | Some at_ms, Some why =>
              if decide (why = reason) then mret (UnparkReplayed sequence at_ms) else
              throw (InvalidParkRequest
                "the entry is already unparked with a different reason; unpark adjudication is one-way")
          | None, None =>
              throw (InvalidParkRequest "the entry was never parked; only a parked entry can be unparked")
          | _, _ => corrupt_record "outbox unpark timestamp and reason disagree"
          end
      | _, _ => corrupt_record "outbox park timestamp and reason disagree"
      end
  end.

(** ** Opening *)

(** Up to version 5 a migration adds tables, columns and triggers and leaves the rows. *)
Definition migrate (version : Z) (d : Db) : Db := d <| db_user_version := version |>.

(** Version 6 also counts the one park a row of version 5 can have had. *)
Definition migrate_v6 (d : Db) : Db :=
  d <| db_outbox := (fun row =>
         if is_some (x_parked_at_ms row) && bool_decide (x_park_count row = 0)
         then row <| x_park_count := 1 |> else row) <$> db_outbox d |>
    <| db_user_version := 6 |>.

Definition open_store (d : Db) : Db * result StoreError () :=
  let v := db_user_version d in
  if decide (v = SCHEMA_VERSION) then (d, Ok ()) else
  if decide (0 <= v < SCHEMA_VERSION) then
    (migrate_v6 (foldl (fun d n => migrate (v + 1 + n) d) d (seqZ 0 (5 - v))), Ok ()) else
  (d, Err (UnsupportedSchema v)).

Definition fresh : Db := {|
  db_operations := ∅; db_outbox := ∅; db_sequence := 0; db_calls := ∅; db_preparations := ∅; db_activations := ∅;
  db_user_version := SCHEMA_VERSION
|}.
