(* ===== verification/OpInv.v ===== *)
(** * OpInv: what the operation authority keeps

    The invariant of the tables of [OpStore]: every row decodes to a machine, every
    terminal operation is announced once in the outbox, and calls, preparations and
    activations agree with the operations they name. *)

From S2P Require Import Prelude Bytes Txn Operation OpStore.

(** ** Weakest preconditions of transactions *)

Lemma wp_lift_op {A} (E : StoreError -> Prop) (r : result OperationError A) Q d :
  (forall a, r = Ok a -> Q a d) -> (forall e, E (Operation e)) -> wp (lift_op r) Q E d.
Proof. unfold wp, lift_op, lift. destruct r; cbn; auto. Qed.

(** Runs the pure steps of a transaction. *)
Ltac wp_step :=
  match goal with
  | |- wp (corrupt_record _) _ _ _ => apply wp_throw; cbv beta
  | _ => wp_pure
  end.

(** ** Machines and their rows *)

Definition spec_ok (s : OperationSpec) : Prop :=
  generation s <> 0 /\ fiber_generation (owner_fiber s) <> 0 /\ cancellation_generation s <> 0.

Lemma decode_encode_state s : decode_state (encode_state s).1 (encode_state s).2 = Ok s.
Proof. by destruct s. Qed.

Lemma decode_receipt_state s r : receipt_from_state s = Some r -> decode_state (encode_state s).1 (Some r) = Ok s.
Proof. intros Hr. rewrite <- Hr. apply decode_encode_state. Qed.

Lemma completion_of_outcome o : completion_from_state (outcome_state o) = Ok o.
Proof. by destruct o. Qed.

Lemma generation_from_blob_Ok v : v <> 0 -> generation_from_blob v = Ok v.
Proof. intros Hv. unfold generation_from_blob. by rewrite decide_False. Qed.

Lemma decode_from_machine m rev :
  machine_ok (m_spec m) m -> spec_ok (m_spec m) -> 0 <= rev ->
  decode_machine (operation_id (m_spec m)) (from_machine m rev) = Ok (m, rev).
Proof.
  intros Hm (Hg & Hf & Hc) Hrev. unfold decode_machine. cbn [from_machine o_generation o_owner_fiber_generation
    o_cancellation_generation o_state_kind o_receipt_id o_issued_callback_id o_issued_cancel_epoch
    o_accepted_callback_id o_revision o_owner_fiber_id o_cancellation_scope_id o_cancel_epoch].
  rewrite !generation_from_blob_Ok, decode_encode_state by done. cbn [mbind result_bind].
  assert ({| operation_id := operation_id (m_spec m); generation := generation (m_spec m);
             owner_fiber := {| fiber_id := fiber_id (owner_fiber (m_spec m));
                               fiber_generation := fiber_generation (owner_fiber (m_spec m)) |};
             cancellation_scope_id := cancellation_scope_id (m_spec m);
             cancellation_generation := cancellation_generation (m_spec m) |} = m_spec m) as ->
    by (by destruct (m_spec m) as [? ? [] ? ?]).
  pose proof (machine_ok_restore _ _ Hm) as Hr. revert Hr.
  destruct Hm as [|r|cb|cb|cb o late]; cbn [m_issued m_accepted m_state m_cancel_epoch m_spec machine_new dispatched
    cancelling cancelled_early finished_machine fmap option_fmap option_map ic_callback_id ic_cancel_epoch ac_callback_id];
    intros Hr; rewrite ?completion_of_outcome; cbn [mbind result_bind]; rewrite decide_False by lia;
    by rewrite Hr.
Qed.

(** The operation [m] is stored. *)
Definition holds (d : Db) (m : OperationMachine) : Prop :=
  machine_ok (m_spec m) m /\ spec_ok (m_spec m) /\
  exists rev, 0 <= rev /\ db_operations d !! operation_id (m_spec m) = Some (from_machine m rev).

Lemma holds_inj d m m' : holds d m -> holds d m' -> operation_id (m_spec m) = operation_id (m_spec m') -> m = m'.
Proof.
  intros (Hm & Hs & rev & Hr & Hd) (Hm' & Hs' & rev' & Hr' & Hd') Hid. rewrite Hid, Hd' in Hd.
  apply (inj Some) in Hd. pose proof (decode_from_machine m rev Hm Hs Hr) as Hdec.
  rewrite Hid, <- Hd, (decode_from_machine m' rev' Hm' Hs' Hr') in Hdec. congruence.
Qed.

(** ** The invariant *)

(** What a terminal operation announces: whether its fiber is woken or the effect is
    reconciled, and the callback it was ended by. *)
Definition announcement (m : OperationMachine) : option (OutboxKind * option Z) :=
  match m_issued m, m_accepted m with
  | None, None => if is_terminal (m_state m) then Some (WakeFiber, None) else None
  | Some i, Some a =>
      Some (if decide (m_cancel_epoch m = ic_cancel_epoch i) then WakeFiber else ReconcileEffect, Some (ac_callback_id a))
  | _, _ => None
  end.

Record announces (row : OutboxRow) (m : OperationMachine) : Prop := {
  an_facts : exists kind cb, announcement m = Some (kind, cb) /\ x_kind row = encode_outbox_kind kind /\ x_callback_id row = cb;
  an_operation : x_operation_id row = operation_id (m_spec m);
  an_generation : x_operation_generation row = generation (m_spec m);
  an_fiber : x_owner_fiber_id row = fiber_id (owner_fiber (m_spec m));
  an_fiber_generation : x_owner_fiber_generation row = fiber_generation (owner_fiber (m_spec m));
  an_state : x_state_kind row = (encode_state (m_state m)).1;
  an_receipt : receipt_from_state (m_state m) = Some (x_receipt_id row);
}.

(** A stamp and its reason come together and are in range. *)
Definition stamp_ok (at_ms : option Z) (reason : option bytes) : Prop :=
  match at_ms, reason with
  | Some a, Some r => 0 <= a /\ ~ reason_out_of_bound r
  | None, None => True
  | _, _ => False
  end.

Record parking_ok (row : OutboxRow) : Prop := {
  pk_acknowledged : x_acknowledged row = 0 \/ x_acknowledged row = 1;
  pk_parked : stamp_ok (x_parked_at_ms row) (x_park_reason row);
  pk_unparked : stamp_ok (x_unparked_at_ms row) (x_unpark_reason row);
  pk_count : (if is_some (x_parked_at_ms row) then 1 else 0) + (if is_some (x_unparked_at_ms row) then 1 else 0)
             <= x_park_count row;
}.

(** The result of a call is that of its operation. *)
Definition result_ok (row : CallRow) (m : OperationMachine) : Prop :=
  match c_receipt_id row, c_response_wire row with
  | Some r, Some w => receipt_from_state (m_state m) = Some r /\ size_of w <= MAX_DURABLE_RESULT_BYTES
  | None, None => True
  | _, _ => False
  end.

Definition call_of (row : CallRow) (m : OperationMachine) : Prop :=
  c_operation_id row = operation_id (m_spec m) /\ c_operation_generation row = generation (m_spec m).

(** The callback a machine was dispatched with, if it was, is [cb]. *)
Definition issued_only (m : OperationMachine) (cb : Z) : Prop :=
  m_issued m = None \/ m_issued m = Some {| ic_callback_id := cb; ic_cancel_epoch := 0 |}.

Section invariant.
Context `{Sha256}.

Definition activation_of (p : OperationDispatchPreparation) : DispatchActivationRecord := {|
  ar_activation_receipt_id := derive_operation_dispatch_receipt_id ACTIVATION_DOMAIN (dp_operation p) (dp_callback_id p);
  ar_operation := dp_operation p; ar_preparation_receipt_id := dp_preparation_receipt_id p;
  ar_callback_id := dp_callback_id p; ar_cancel_epoch := dp_cancel_epoch p
|}.

Definition prepared (m : OperationMachine) (p : OperationDispatchPreparation) : Prop :=
  p = dispatch_preparation_from_machine (machine_new (m_spec m)) (dp_callback_id p).

Record db_ok (d : Db) : Prop := {
  ok_operations id row : db_operations d !! id = Some row -> exists m, holds d m /\ operation_id (m_spec m) = id;
  ok_sequence : 0 <= db_sequence d <= i64_max;
  ok_outbox s row : db_outbox d !! s = Some row ->
    1 <= s <= db_sequence d /\ parking_ok row /\ exists m, holds d m /\ announces row m;
  ok_unique s s' row row' : db_outbox d !! s = Some row -> db_outbox d !! s' = Some row' ->
    x_operation_id row = x_operation_id row' -> s = s';
  ok_announced m : holds d m -> is_terminal (m_state m) = true ->
    exists s row, db_outbox d !! s = Some row /\ x_operation_id row = operation_id (m_spec m);
  ok_calls k row : db_calls d !! k = Some row -> exists m, holds d m /\ call_of row m /\ result_ok row m;
  ok_calls_unique k k' row row' : db_calls d !! k = Some row -> db_calls d !! k' = Some row' ->
    c_operation_id row = c_operation_id row' -> k = k';
  ok_prepared id p : db_preparations d !! id = Some p -> exists m, holds d m /\ operation_id (m_spec m) = id /\
    prepared m p /\ issued_only m (dp_callback_id p);
  ok_activated id a : db_activations d !! id = Some a -> exists p m, db_preparations d !! id = Some p /\
    a = activation_of p /\ holds d m /\ operation_id (m_spec m) = id /\
    m_issued m = Some {| ic_callback_id := dp_callback_id p; ic_cancel_epoch := 0 |};
}.

Lemma fresh_ok : db_ok fresh.
Proof.
  split; cbn; try (intros *; by rewrite lookup_empty); [unfold i64_max; lia|].
  intros m (_ & _ & rev & _ & Hm). cbn in Hm. by rewrite lookup_empty in Hm.
Qed.

(** A step of one machine that keeps its callback and does not end it again. *)
Record advances (d : Db) (m m' : OperationMachine) : Prop := {
  ad_holds : holds d m;
  ad_ok : machine_ok (m_spec m) m';
  ad_live : is_terminal (m_state m) = false;
  ad_issued : is_Some (m_issued m) -> m_issued m' = m_issued m;
  ad_prepared p : db_preparations d !! operation_id (m_spec m) = Some p -> issued_only m' (dp_callback_id p);
}.

Lemma advances_spec d m m' : advances d m m' -> m_spec m' = m_spec m.
Proof. intros Ha. by apply machine_ok_spec, Ha. Qed.

(** The tables after such a step: the row of the machine is rewritten. *)
Definition stepped (d d' : Db) (m m' : OperationMachine) : Prop :=
  exists rev, 0 <= rev /\ db_operations d' = <[operation_id (m_spec m) := from_machine m' rev]> (db_operations d) /\
    db_calls d' = db_calls d /\ db_preparations d' = db_preparations d.

Lemma stepped_holds d d' m m' x :
  advances d m m' -> stepped d d' m m' ->
  holds d' x <-> x = m' \/ holds d x /\ operation_id (m_spec x) <> operation_id (m_spec m).
Proof.
  intros Ha (rev & Hrev & Hops & _). pose proof (advances_spec _ _ _ Ha) as Hspec.
  destruct (ad_holds _ _ _ Ha) as (_ & Hsok & _).
  assert (holds d' m') as Hm'.
  { split; [rewrite Hspec; apply Ha|]. split; [by rewrite Hspec|]. exists rev. split; [done|].
    by rewrite Hops, Hspec, lookup_insert_eq. }
  split.
  - intros Hx. destruct (decide (operation_id (m_spec x) = operation_id (m_spec m))) as [Heq|Hne].
    + left. apply (holds_inj d'); [done|done|by rewrite Hspec].
    + right. split; [|done]. destruct Hx as (Hx1 & Hx2 & r & Hr & Hx). rewrite Hops, lookup_insert_ne in Hx by done.
      split; [done|]. split; [done|]. by exists r.
  - intros [->|[(Hx1 & Hx2 & r & Hr & Hx) Hne]]; [done|]. split; [done|]. split; [done|]. exists r.
    by rewrite Hops, lookup_insert_ne by done.
Qed.

(** What holds of another operation still does. *)
Lemma stepped_other d d' m m' x :
  advances d m m' -> stepped d d' m m' -> holds d x -> x <> m -> holds d' x.
Proof.
  intros Ha Hs Hx Hne. apply (stepped_holds d d' m m' x Ha Hs). right. split; [done|]. intros Heq.
  destruct Hne. apply (holds_inj d); [done|apply Ha|done].
Qed.

Lemma stepped_self d d' m m' : advances d m m' -> stepped d d' m m' -> holds d' m'.
Proof. intros Ha Hs. apply (stepped_holds d d' m m' m' Ha Hs). by left. Qed.

(** The activations after a step: those before it, and possibly that of the machine. *)
Definition activations_follow (d d' : Db) (m m' : OperationMachine) : Prop :=
  forall id a, db_activations d' !! id = Some a -> db_activations d !! id = Some a \/
    id = operation_id (m_spec m) /\ exists p, db_preparations d !! id = Some p /\ a = activation_of p /\
      m_issued m' = Some {| ic_callback_id := dp_callback_id p; ic_cancel_epoch := 0 |}.

Section step.
Context (d d' : Db) (m m' : OperationMachine).
Context (Hok : db_ok d) (Ha : advances d m m') (Hs : stepped d d' m m').

Lemma step_operations id row :
  db_operations d' !! id = Some row -> exists x, holds d' x /\ operation_id (m_spec x) = id.
Proof.
  destruct Hs as (rev & _ & Hops & _). rewrite Hops. destruct (decide (id = operation_id (m_spec m))) as [->|Hne].
  - intros _. exists m'. split; [by eapply stepped_self|]. by rewrite (advances_spec _ _ _ Ha).
  - rewrite lookup_insert_ne by done. intros (x & Hx & Hid)%(ok_operations _ Hok). exists x. split; [|done].
    apply (stepped_holds d d' m m'); [done|done|]. right. split; [done|]. by rewrite Hid.
Qed.

(** A stored machine is the stepped one or was stored before. *)
Lemma step_holds_after x : holds d x -> exists y, holds d' y /\ m_spec y = m_spec x /\ (x = m /\ y = m' \/ x <> m /\ y = x).
Proof.
  intros Hx. destruct (decide (x = m)) as [->|Hne].
  - exists m'. split; [by eapply stepped_self|]. split; [by apply (advances_spec d)|]. by left.
  - exists x. split; [by eapply stepped_other|]. split; [done|]. by right.
Qed.

Lemma live_no_receipt : receipt_from_state (m_state m) = None.
Proof. pose proof (ad_live _ _ _ Ha) as Hl. by destruct (m_state m). Qed.

Lemma step_calls k row :
  db_calls d' !! k = Some row -> exists x, holds d' x /\ call_of row x /\ result_ok row x.
Proof.
  destruct Hs as (_ & _ & _ & Hc & _). rewrite Hc. intros (x & Hx & Hcall & Hres)%(ok_calls _ Hok).
  destruct (step_holds_after x Hx) as (y & Hy & Hsp & Hcase). exists y. split; [done|].
  split; [unfold call_of; by rewrite Hsp|]. destruct Hcase as [[-> ->]|[_ ->]]; [|done].
  revert Hres. unfold result_ok. rewrite live_no_receipt. destruct (c_receipt_id row), (c_response_wire row); naive_solver.
Qed.

Lemma step_prepared id p :
  db_preparations d' !! id = Some p -> exists x, holds d' x /\ operation_id (m_spec x) = id /\
    prepared x p /\ issued_only x (dp_callback_id p).
Proof.
  pose proof Hs as (_ & _ & _ & _ & Hp). rewrite Hp. intros Hid.
  destruct (ok_prepared _ Hok id p Hid) as (x & Hx & Hxid & Hprep & Hiss).
  destruct (step_holds_after x Hx) as (y & Hy & Hsp & Hcase). exists y. split; [done|]. split; [by rewrite Hsp|].
  split; [unfold prepared; by rewrite Hsp|]. destruct Hcase as [[-> ->]|[_ ->]]; [|done].
  apply (ad_prepared _ _ _ Ha). by rewrite Hxid.
Qed.

Lemma step_activated id a :
  activations_follow d d' m m' ->
  db_activations d' !! id = Some a -> exists p x, db_preparations d' !! id = Some p /\
    a = activation_of p /\ holds d' x /\ operation_id (m_spec x) = id /\
    m_issued x = Some {| ic_callback_id := dp_callback_id p; ic_cancel_epoch := 0 |}.
Proof.
  pose proof Hs as (_ & _ & _ & _ & Hp). intros Hfollow Hid. rewrite Hp.
  destruct (Hfollow id a Hid) as [Hold|(-> & p & Hpp & -> & Hiss)].
  - destruct (ok_activated _ Hok id a Hold) as (p & x & Hpp & -> & Hx & Hxid & Hiss).
    destruct (step_holds_after x Hx) as (y & Hy & Hsp & Hcase). exists p, y. split_and!; try done; [by rewrite Hsp|].
    destruct Hcase as [[-> ->]|[_ ->]]; [|done]. rewrite (ad_issued _ _ _ Ha); [done|]. by rewrite Hiss.
  - exists p, m'. split_and!; try done; [by eapply stepped_self|by rewrite (advances_spec _ _ _ Ha)].
Qed.

Lemma announces_live row x : holds d x -> announces row x -> x <> m.
Proof.
  intros _ Hann ->. pose proof (an_receipt _ _ Hann) as Hr. by rewrite live_no_receipt in Hr.
Qed.

Lemma step_outbox_old s row : db_outbox d !! s = Some row ->
  1 <= s <= db_sequence d /\ parking_ok row /\ exists x, holds d' x /\ announces row x.
Proof.
  intros (Hseq & Hpk & x & Hx & Hann)%(ok_outbox _ Hok). split; [done|]. split; [done|]. exists x. split; [|done].
  eapply stepped_other; [done|done|done|]. by eapply announces_live.
Qed.

Lemma step_live_ok :
  is_terminal (m_state m') = false -> db_outbox d' = db_outbox d -> db_sequence d' = db_sequence d ->
  activations_follow d d' m m' -> db_ok d'.
Proof.
  intros Hlive Hbox Hseq Hact. pose proof Hs as (_ & _ & _ & Hc & _).
  split; rewrite ?Hbox, ?Hseq, ?Hc; try apply Hok; eauto using step_operations, step_prepared, step_activated.
  - intros s row Hrow. by apply step_outbox_old.
  - intros x Hx Ht. apply (stepped_holds d d' m m' x Ha Hs) in Hx as [->|[Hx _]]; [by rewrite Hlive in Ht|].
    by apply (ok_announced _ Hok).
  - intros k row. rewrite <- Hc. apply step_calls.
Qed.

Lemma step_end_ok row :
  db_sequence d < i64_max -> is_terminal (m_state m') = true -> announces row m' -> parking_ok row ->
  db_outbox d' = <[db_sequence d + 1 := row]> (db_outbox d) -> db_sequence d' = db_sequence d + 1 ->
  activations_follow d d' m m' -> db_ok d'.
Proof.
  intros Hfull Hterm Hann Hpk Hbox Hseq Hact. pose proof Hs as (_ & _ & _ & Hc & _). pose proof (ok_sequence _ Hok) as Hpos.
  assert (forall s r, db_outbox d !! s = Some r -> s <> db_sequence d + 1 /\ x_operation_id r <> operation_id (m_spec m)) as Hnew.
  { intros s r Hr. destruct (ok_outbox _ Hok s r Hr) as (Hrange & _ & x & Hx & Hxa). split; [lia|].
    rewrite (an_operation _ _ Hxa). intros Heq. apply (announces_live r x Hx Hxa).
    apply (holds_inj d); [done|apply Ha|done]. }
  pose proof (an_operation _ _ Hann) as Hid. rewrite (advances_spec _ _ _ Ha) in Hid.
  split; rewrite ?Hseq, ?Hc; try apply Hok; eauto using step_operations, step_prepared, step_activated; [lia| | | |].
  - intros s r. rewrite Hbox. destruct (decide (s = db_sequence d + 1)) as [->|Hne].
    + rewrite lookup_insert_eq. intros [= <-]. split; [lia|]. split; [done|]. exists m'. split; [by eapply stepped_self|done].
    + rewrite lookup_insert_ne by done. intros (Hr & ? & ?)%step_outbox_old. split; [lia|done].
  - intros s s' r r'. rewrite Hbox. rewrite !lookup_insert_Some.
    intros [[<- <-]|[Hne Hr]] [[<- <-]|[Hne' Hr']]; try done.
    + intros Heq. destruct (Hnew s' r' Hr') as [_ []]. by rewrite <- Heq.
    + intros Heq. destruct (Hnew s r Hr) as [_ []]. by rewrite Heq.
    + by apply (ok_unique _ Hok).
  - intros x Hx Ht. apply (stepped_holds d d' m m' x Ha Hs) in Hx as [->|[Hx Hne]].
    + exists (db_sequence d + 1), row. rewrite Hbox, lookup_insert_eq. split; [done|].
      by rewrite (advances_spec _ _ _ Ha).
    + destruct (ok_announced _ Hok x Hx Ht) as (s & r & Hr & Hrid). exists s, r. split; [|done].
      rewrite Hbox, lookup_insert_ne; [done|]. intros Heq. by destruct (Hnew s r Hr) as [[] _].
  - intros k r. rewrite <- Hc. apply step_calls.
Qed.
End step.
End invariant.
