(* ===== verification/OpSteps.v ===== *)
(** * OpSteps: every operation of the authority keeps its invariant

    For each transaction of [OpStore]: started on tables that meet the invariant it ends
    on tables that meet it and only add to what was recorded, or it is refused for a
    reason the caller is told, never for a damaged record. *)

From S2P Require Import Prelude Bytes Txn Operation OpStore OpInv.

(** ** Records only grow *)

Record machine_later (m m' : OperationMachine) : Prop := {
  ml_spec : m_spec m' = m_spec m;
  ml_issued : is_Some (m_issued m) -> m_issued m' = m_issued m;
  ml_terminal : is_terminal (m_state m) = true -> m' = m;
  ml_epoch : m_cancel_epoch m <= m_cancel_epoch m';
}.

#[export] Instance machine_later_preorder : PreOrder machine_later.
Proof.
  split.
  - intros m. by split.
  - intros m1 m2 m3 [A1 A2 A3 A4] [B1 B2 B3 B4]. split; [congruence| | |lia].
    + intros Hi. rewrite <- (A2 Hi). apply B2. by rewrite (A2 Hi).
    + intros Ht. specialize (A3 Ht). subst m2. by apply B3.
Qed.

(** The facts of an entry stay; it may be acknowledged, parked and unparked. *)
Record entry_later (r r' : OutboxRow) : Prop := {
  el_kind : x_kind r' = x_kind r;
  el_operation : x_operation_id r' = x_operation_id r;
  el_generation : x_operation_generation r' = x_operation_generation r;
  el_fiber : x_owner_fiber_id r' = x_owner_fiber_id r;
  el_fiber_generation : x_owner_fiber_generation r' = x_owner_fiber_generation r;
  el_callback : x_callback_id r' = x_callback_id r;
  el_state : x_state_kind r' = x_state_kind r;
  el_receipt : x_receipt_id r' = x_receipt_id r;
  el_acknowledged : x_acknowledged r = 1 -> x_acknowledged r' = 1;
  el_count : x_park_count r <= x_park_count r';
}.

#[export] Instance entry_later_preorder : PreOrder entry_later.
Proof.
  split; [intros r; by split|].
  intros r1 r2 r3 [] []. split; try congruence; [auto|lia].
Qed.

Record call_later (r r' : CallRow) : Prop := {
  cl_digest : c_request_digest r' = c_request_digest r;
  cl_operation : c_operation_id r' = c_operation_id r;
  cl_generation : c_operation_generation r' = c_operation_generation r;
  cl_result : is_Some (c_receipt_id r) -> r' = r;
}.

#[export] Instance call_later_preorder : PreOrder call_later.
Proof.
  split; [intros r; by split|].
  intros r1 r2 r3 [A1 A2 A3 A4] [B1 B2 B3 B4]. split; [congruence..|]. intros Hr. specialize (A4 Hr). subst r2. by apply B4.
Qed.

(** Every key of a table keeps a later row. *)
Definition table_later {K V} `{Countable K} (R : V -> V -> Prop) (t t' : gmap K V) : Prop :=
  forall k v, t !! k = Some v -> exists v', t' !! k = Some v' /\ R v v'.

#[export] Instance table_later_preorder {K V} `{Countable K} (R : V -> V -> Prop) `{!PreOrder R} :
  PreOrder (table_later (K := K) R).
Proof.
  split; [by intros t k v Hk; exists v|].
  intros t1 t2 t3 H12 H23 k v Hk. destruct (H12 k v Hk) as (v2 & Hk2 & HR).
  destruct (H23 k v2 Hk2) as (v3 & Hk3 & HR'). exists v3. split; [done|]. by etransitivity.
Qed.

Lemma table_later_insert {K V} `{Countable K} (R : V -> V -> Prop) `{!Reflexive R} (t : gmap K V) k v' :
  (forall v, t !! k = Some v -> R v v') -> table_later R t (<[k := v']> t).
Proof.
  intros Hv j v Hj. destruct (decide (j = k)) as [->|Hne].
  - exists v'. rewrite lookup_insert_eq. auto.
  - exists v. by rewrite lookup_insert_ne.
Qed.

Record later (d d' : Db) : Prop := {
  lt_operations m : holds d m -> exists m', holds d' m' /\ machine_later m m';
  lt_outbox : table_later entry_later (db_outbox d) (db_outbox d');
  lt_calls : table_later call_later (db_calls d) (db_calls d');
  lt_preparations : db_preparations d ⊆ db_preparations d';
  lt_activations : db_activations d ⊆ db_activations d';
}.

#[export] Instance later_preorder : PreOrder later.
Proof.
  split.
  - intros d. split; [|reflexivity..]. intros m Hm. by exists m.
  - intros d1 d2 d3 [A1 A2 A3 A4 A5] [B1 B2 B3 B4 B5]. split; [|by etransitivity..].
    intros m (m2 & Hm2 & H12)%A1. destruct (B1 m2 Hm2) as (m3 & Hm3 & H23). exists m3. split; [done|]. by etransitivity.
Qed.

Lemma holds_ext d d' m : db_operations d' = db_operations d -> holds d m <-> holds d' m.
Proof. intros He. unfold holds. by rewrite He. Qed.

(** ** Frames of the invariant *)

Section frames.
Context `{Sha256}.

Lemma advances_later d m m' : advances d m m' -> m_cancel_epoch m <= m_cancel_epoch m' -> machine_later m m'.
Proof.
  intros Ha He. split; [by apply (advances_spec d)|apply Ha| |done].
  intros Ht. pose proof (ad_live _ _ _ Ha) as Hl. by rewrite Hl in Ht.
Qed.

Lemma stepped_later d d' m m' :
  advances d m m' -> stepped d d' m m' -> m_cancel_epoch m <= m_cancel_epoch m' ->
  table_later entry_later (db_outbox d) (db_outbox d') -> db_activations d ⊆ db_activations d' -> later d d'.
Proof.
  intros Ha Hs He Hbox Hact. pose proof Hs as (_ & _ & _ & Hc & Hp). split; [|done|by rewrite Hc|by rewrite Hp|done].
  intros x Hx. destruct (decide (x = m)) as [->|Hne].
  - exists m'. split; [by eapply stepped_self|by eapply advances_later].
  - exists x. split; [by eapply stepped_other|done].
Qed.

(** A new operation. *)
Lemma insert_operation_ok d spec :
  db_ok d -> spec_ok spec -> db_operations d !! operation_id spec = None ->
  let d' := d <| db_operations := <[operation_id spec := from_machine (machine_new spec) 0]> (db_operations d) |> in
  db_ok d' /\ later d d' /\ holds d' (machine_new spec).
Proof.
  intros Hok Hspec Hnone d'.
  assert (holds d' (machine_new spec)) as Hnew.
  { split; [constructor|]. split; [done|]. exists 0. split; [done|]. by apply lookup_insert_eq. }
  assert (forall x, holds d x -> holds d' x) as Hold.
  { intros x (Hx1 & Hx2 & r & Hr & Hx). split; [done|]. split; [done|]. exists r. split; [done|].
    cbn. rewrite lookup_insert_ne; [done|]. intros Heq. by rewrite Heq, Hx in Hnone. }
  assert (forall x, holds d' x -> x = machine_new spec \/ holds d x) as Hinv.
  { intros x Hx. destruct (decide (operation_id (m_spec x) = operation_id spec)) as [Heq|Hne].
    - left. by apply (holds_inj d').
    - right. destruct Hx as (Hx1 & Hx2 & r & Hr & Hx). split; [done|]. split; [done|]. exists r. split; [done|].
      cbn in Hx. by rewrite lookup_insert_ne in Hx. }
  split; [|split; [|done]].
  - split; cbn.
    + intros id row. rewrite lookup_insert_Some. intros [[<- _]|[_ Hrow]]; [by exists (machine_new spec)|].
      destruct (ok_operations _ Hok id row Hrow) as (x & Hx & Hid). exists x. auto.
    + apply Hok.
    + intros s row (Hs & Hp & x & Hx & Ha)%(ok_outbox _ Hok). split; [done|]. split; [done|]. exists x. auto.
    + apply (ok_unique _ Hok).
    + intros x [->|Hx]%Hinv Ht; [done|]. by apply (ok_announced _ Hok).
    + intros k row (x & Hx & Hc)%(ok_calls _ Hok). exists x. auto.
    + apply (ok_calls_unique _ Hok).
    + intros id p (x & Hx & Hp)%(ok_prepared _ Hok). exists x. auto.
    + intros id a (p & x & Hp & Hd & Hx & Hr)%(ok_activated _ Hok). exists p, x. auto.
  - split; [|reflexivity..]. intros x Hx. exists x. split; [auto|reflexivity].
Qed.

Lemma announces_later row row' m : entry_later row row' -> announces row m -> announces row' m.
Proof. intros [] [(kind & cb & Hm & Hk & Hc)]. split; try congruence. exists kind, cb. split; [done|]. split; congruence. Qed.

(** An entry is acknowledged, parked or unparked. *)
Lemma update_entry_ok d s row row' :
  db_ok d -> db_outbox d !! s = Some row -> entry_later row row' -> parking_ok row' ->
  let d' := d <| db_outbox := <[s := row']> (db_outbox d) |> in db_ok d' /\ later d d'.
Proof.
  intros Hok Hs Hl Hp d'. split.
  - destruct Hok as [O1 O2 O3 O4 O5 O6 O7 O8 O9]. split; cbn; try done.
    + intros q r. rewrite lookup_insert_Some. intros [[<- <-]|[_ Hq]]; [|by apply O3].
      destruct (O3 s row Hs) as (Hr & _ & x & Hx & Ha). split; [done|]. split; [done|]. exists x.
      split; [done|by eapply announces_later].
    + intros q q' r r'. rewrite !lookup_insert_Some. pose proof (el_operation _ _ Hl) as Hid.
      intros [[<- <-]|[_ Hq]] [[<- <-]|[_ Hq']] Heq; [done|..]; [rewrite Hid in Heq|rewrite Hid in Heq|]; by eapply O4.
    + intros x Hx Ht. destruct (O5 x Hx Ht) as (q & r & Hq & Hr). destruct (decide (q = s)) as [->|Hne].
      * exists s, row'. rewrite lookup_insert_eq. split; [done|]. rewrite (el_operation _ _ Hl). congruence.
      * exists q, r. by rewrite lookup_insert_ne.
  - split; [|cbn|reflexivity..].
    + intros x Hx. exists x. split; [done|reflexivity].
    + apply table_later_insert; [apply _|]. intros v Hv. congruence.
Qed.

(** A call is recorded for an operation that has none. *)
Lemma insert_call_ok d k digest m :
  db_ok d -> holds d m -> db_calls d !! k = None ->
  (forall k' row, db_calls d !! k' = Some row -> c_operation_id row <> operation_id (m_spec m)) ->
  let row := {| c_request_digest := digest; c_operation_id := operation_id (m_spec m);
                c_operation_generation := generation (m_spec m); c_receipt_id := None; c_response_wire := None |} in
  let d' := d <| db_calls := <[k := row]> (db_calls d) |> in db_ok d' /\ later d d'.
Proof.
  intros Hok Hm Hk Hfree row d'. split.
  - destruct Hok as [O1 O2 O3 O4 O5 O6 O7 O8 O9]. split; cbn; try done.
    + intros q r. rewrite lookup_insert_Some. intros [[<- <-]|[_ Hq]]; [by exists m|by eapply O6].
    + intros q q' r r'. rewrite !lookup_insert_Some.
      intros [[<- <-]|[_ Hq]] [[<- <-]|[_ Hq']] Heq; [done|..]; [|by destruct (Hfree _ _ Hq)|by eapply O7].
      by destruct (Hfree _ _ Hq').
  - split; [|reflexivity|cbn|reflexivity..].
    + intros x Hx. exists x. split; [done|reflexivity].
    + apply table_later_insert; [apply _|]. intros v Hv. congruence.
Qed.

(** The result of a call is recorded once its operation has ended. *)
Lemma set_result_ok d k row m receipt wire :
  db_ok d -> holds d m -> db_calls d !! k = Some row -> call_of row m -> c_receipt_id row = None ->
  receipt_from_state (m_state m) = Some receipt -> size_of wire <= MAX_DURABLE_RESULT_BYTES ->
  let row' := {| c_request_digest := c_request_digest row; c_operation_id := c_operation_id row;
                 c_operation_generation := c_operation_generation row; c_receipt_id := Some receipt;
                 c_response_wire := Some wire |} in
  let d' := d <| db_calls := <[k := row']> (db_calls d) |> in db_ok d' /\ later d d'.
Proof.
  intros Hok Hm Hk Hcall Hnone Hr Hw row' d'. split.
  - destruct Hok as [O1 O2 O3 O4 O5 O6 O7 O8 O9]. split; cbn; try done.
    + intros q r. rewrite lookup_insert_Some. intros [[<- <-]|[_ Hq]]; [by exists m|by eapply O6].
    + intros q q' r r'. rewrite !lookup_insert_Some.
      intros [[<- <-]|[_ Hq]] [[<- <-]|[_ Hq']] Heq; [done|..]; by eapply O7.
  - split; [|reflexivity|cbn|reflexivity..].
    + intros x Hx. exists x. split; [done|reflexivity].
    + apply table_later_insert; [apply _|]. intros v Hv. assert (v = row) as -> by congruence.
      split; [done..|]. intros [y Hy]. congruence.
Qed.

(** A registered operation is prepared. *)
Lemma insert_preparation_ok d spec cb :
  db_ok d -> holds d (machine_new spec) -> db_preparations d !! operation_id spec = None ->
  let p := dispatch_preparation_from_machine (machine_new spec) cb in
  let d' := d <| db_preparations := <[operation_id spec := p]> (db_preparations d) |> in db_ok d' /\ later d d'.
Proof.
  intros Hok Hm Hnone p d'. split.
  - destruct Hok as [O1 O2 O3 O4 O5 O6 O7 O8 O9]. split; cbn; try done.
    + intros id q. rewrite lookup_insert_Some. intros [[<- <-]|[_ Hq]]; [|by apply O8].
      exists (machine_new spec). split; [done|]. split; [done|]. split; [done|]. by left.
    + intros id a (q & x & Hq & Hrest)%O9. exists q, x. split; [|done]. rewrite lookup_insert_ne; [done|].
      intros <-. by rewrite Hnone in Hq.
  - split; [|reflexivity| |cbn|]; try reflexivity.
    + intros x Hx. exists x. split; [done|reflexivity].
    + by apply insert_subseteq.
Qed.
End frames.

(** ** Statements *)

(** Why a transaction may fail on tables that meet the invariant: the caller's request
    does not fit, the outbox sequence is used up, or a derived receipt clashes. *)
Definition refused (d : Db) (clash : Prop) (e : StoreError) : Prop :=
  match e with
  | CorruptRecord _ => False
  | Sqlite DatabaseFull => db_sequence d >= i64_max
  | Sqlite ConstraintViolation => clash
  | Sqlite _ => False
  | _ => True
  end.

(** The machine [m] is stored at revision [rev]. *)
Definition stored (d : Db) (m : OperationMachine) (rev : Z) : Prop :=
  holds d m /\ 0 <= rev /\ db_operations d !! operation_id (m_spec m) = Some (from_machine m rev).

Section statements.
Context `{Sha256} (E : StoreError -> Prop).

Lemma wp_load_machine_optional id Q d :
  db_ok d -> (db_operations d !! id = None -> Q None d) ->
  (forall m rev, stored d m rev -> operation_id (m_spec m) = id -> Q (Some (m, rev)) d) ->
  wp (load_machine_optional_with_revision id) Q E d.
Proof.
  intros Hok Hnone Hsome. unfold load_machine_optional_with_revision. do 2 wp_step.
  destruct (db_operations d !! id) as [row|] eqn:Hrow; [|by wp_step; auto].
  destruct (ok_operations _ Hok id row Hrow) as (m & Hm & <-). pose proof Hm as (Hmok & Hspec & rev & Hrev & Hd).
  assert (row = from_machine m rev) as -> by congruence. wp_step. rewrite decode_from_machine by done.
  apply wp_lift; [|done]. intros a [= <-]. wp_step. by apply Hsome.
Qed.

Lemma wp_load_machine id Q d :
  db_ok d -> (forall m rev, stored d m rev -> operation_id (m_spec m) = id -> Q (m, rev) d) ->
  E (Operation InvalidGeneration) -> wp (load_machine id) Q E d.
Proof.
  intros Hok Hsome HE. unfold load_machine. wp_step. apply wp_load_machine_optional; [done|done|].
  intros m rev Hm Hid. by apply Hsome.
Qed.

Lemma wp_load_machine_opt id Q d :
  db_ok d -> (db_operations d !! id = None -> Q None d) ->
  (forall m, holds d m -> operation_id (m_spec m) = id -> Q (Some m) d) ->
  wp (load_machine_optional id) Q E d.
Proof.
  intros Hok Hnone Hsome. unfold load_machine_optional. wp_step. apply wp_load_machine_optional; [done| |].
  - intros Hn. wp_step. by apply Hnone.
  - intros m rev (Hm & _) Hid. wp_step. by apply Hsome.
Qed.

Lemma wp_insert_machine spec (Q : () -> Db -> Prop) d :
  db_operations d !! operation_id spec = None ->
  Q () (d <| db_operations := <[operation_id spec := from_machine (machine_new spec) 0]> (db_operations d) |>) ->
  wp (insert_machine (machine_new spec)) Q E d.
Proof. intros Hn HQ. unfold insert_machine. do 2 wp_step. cbn. by rewrite Hn. Qed.

Lemma wp_update_machine m m' rev (Q : () -> Db -> Prop) d :
  stored d m rev -> m_spec m' = m_spec m ->
  Q () (d <| db_operations := <[operation_id (m_spec m) := from_machine m' (rev + 1)]> (db_operations d) |>) ->
  wp (update_machine m' rev) Q E d.
Proof.
  intros (_ & _ & Hd) Hspec HQ. unfold update_machine. do 2 wp_step. rewrite Hspec, Hd. cbn.
  rewrite decide_True by done. wp_step.
  assert (update_row (from_machine m rev) m' = from_machine m' (rev + 1)) as ->; [|done].
  unfold update_row, from_machine. cbn. by rewrite Hspec.
Qed.

(** The entry a terminal machine is announced with. *)
Definition new_entry (kind : OutboxKind) (m : OperationMachine) (cb : option Z) (receipt : Z) : OutboxRow := {|
  x_kind := encode_outbox_kind kind;
  x_operation_id := operation_id (m_spec m); x_operation_generation := generation (m_spec m);
  x_owner_fiber_id := fiber_id (owner_fiber (m_spec m));
  x_owner_fiber_generation := fiber_generation (owner_fiber (m_spec m));
  x_callback_id := cb; x_state_kind := (encode_state (m_state m)).1; x_receipt_id := receipt;
  x_acknowledged := 0; x_parked_at_ms := None; x_park_reason := None; x_unparked_at_ms := None;
  x_unpark_reason := None; x_park_count := 0
|}.

Lemma new_entry_announces kind m cb receipt :
  announcement m = Some (kind, cb) -> receipt_from_state (m_state m) = Some receipt ->
  announces (new_entry kind m cb receipt) m /\ parking_ok (new_entry kind m cb receipt).
Proof. intros Ha Hr. split; split; cbn; try done; [by exists kind, cb|by left]. Qed.

Lemma wp_insert_outbox kind m cb receipt (Q : () -> Db -> Prop) d :
  receipt_from_state (m_state m) = Some receipt ->
  (db_sequence d < i64_max -> Q () (d <| db_outbox := <[db_sequence d + 1 := new_entry kind m cb receipt]> (db_outbox d) |>
                                     <| db_sequence := db_sequence d + 1 |>)) ->
  (db_sequence d >= i64_max -> E (Sqlite DatabaseFull)) ->
  wp (insert_outbox kind m cb) Q E d.
Proof.
  intros Hr HQ HE. unfold insert_outbox. wp_step. rewrite Hr. apply wp_lift; [|done].
  intros a [= <-]. do 2 wp_step. case_decide as Hs; [by apply wp_throw, HE|]. wp_step. apply HQ. lia.
Qed.
End statements.

(** ** Steps of one machine *)

Section machine_steps.
Context `{Sha256} (d : Db) (m m' : OperationMachine) (rev : Z).
Context (Hok : db_ok d) (Hst : stored d m rev) (Ha : advances d m m') (He : m_cancel_epoch m <= m_cancel_epoch m').

Definition with_machine : Db :=
  d <| db_operations := <[operation_id (m_spec m) := from_machine m' (rev + 1)]> (db_operations d) |>.

Lemma with_machine_stepped : stepped d with_machine m m'.
Proof. destruct Hst as (_ & Hrev & _). exists (rev + 1). split; [lia|done]. Qed.

Lemma advance_ok :
  is_terminal (m_state m') = false -> db_ok with_machine /\ later d with_machine /\ holds with_machine m'.
Proof.
  intros Hl. pose proof with_machine_stepped as Hs. split; [|split; [|by eapply stepped_self]].
  - by eapply (step_live_ok d with_machine m m'); try done; left.
  - by eapply stepped_later.
Qed.

Definition with_announcement (kind : OutboxKind) (cb : option Z) (receipt : Z) : Db :=
  with_machine <| db_outbox := <[db_sequence d + 1 := new_entry kind m' cb receipt]> (db_outbox d) |>
               <| db_sequence := db_sequence d + 1 |>.

Lemma finish_ok kind cb receipt :
  db_sequence d < i64_max -> announcement m' = Some (kind, cb) -> receipt_from_state (m_state m') = Some receipt ->
  let d' := with_announcement kind cb receipt in db_ok d' /\ later d d' /\ holds d' m'.
Proof.
  intros Hfull Hann Hr d'. assert (stepped d d' m m') as Hs by (destruct Hst as (_ & Hrev & _); exists (rev + 1); split; [lia|done]).
  destruct (new_entry_announces kind m' cb receipt Hann Hr) as [Han Hpk].
  assert (is_terminal (m_state m') = true) as Ht by (destruct (m_state m'); done).
  split; [|split; [|by eapply stepped_self]].
  - by eapply (step_end_ok d d' m m'); try done; left.
  - eapply stepped_later; try done. apply table_later_insert; [apply _|]. intros v Hv.
    destruct (ok_outbox _ Hok _ _ Hv) as [Hrange _]. lia.
Qed.

(** With the activation of its preparation. *)
Lemma activate_ok p :
  is_terminal (m_state m') = false -> db_preparations d !! operation_id (m_spec m) = Some p ->
  oh_operation_id (dp_operation p) = operation_id (m_spec m) -> db_activations d !! operation_id (m_spec m) = None ->
  m_issued m' = Some {| ic_callback_id := dp_callback_id p; ic_cancel_epoch := 0 |} ->
  let d' := with_machine <| db_activations := <[operation_id (m_spec m) := activation_of p]> (db_activations d) |> in
  db_ok d' /\ later d d' /\ holds d' m'.
Proof.
  intros Hl Hp Hid Hn Hi d'.
  assert (stepped d d' m m') as Hs by (destruct Hst as (_ & Hrev & _); exists (rev + 1); split; [lia|done]).
  split; [|split; [|by eapply stepped_self]].
  - eapply (step_live_ok d d' m m'); try done. intros id a. cbn. rewrite lookup_insert_Some.
    intros [[<- <-]|[_ Hold]]; [|by left]. right. split; [done|]. by exists p.
  - eapply stepped_later; try done. by apply insert_subseteq.
Qed.
End machine_steps.

(** The steps of a machine are such steps. *)
Section transitions.
Context `{Sha256} (d : Db) (Hok : db_ok d).

Lemma issued_only_same m cb : m_issued m = Some {| ic_callback_id := cb; ic_cancel_epoch := 0 |} -> issued_only m cb.
Proof. by right. Qed.

Lemma dispatch_advances spec cb :
  holds d (machine_new spec) ->
  (forall p, db_preparations d !! operation_id spec = Some p -> dp_callback_id p = cb) ->
  advances d (machine_new spec) (dispatched spec cb).
Proof.
  intros Hm Hp. split; [done|constructor|done|by intros []|]. intros p Hpp. right. by rewrite (Hp p Hpp).
Qed.

Lemma cancel_early_advances spec r :
  holds d (machine_new spec) -> advances d (machine_new spec) (cancelled_early spec r).
Proof. intros Hm. split; [done|constructor|done|by intros []|]. intros p _. by left. Qed.

(** A preparation of a dispatched machine carries its callback. *)
Lemma prepared_callback m p cb :
  holds d m -> db_preparations d !! operation_id (m_spec m) = Some p ->
  m_issued m = Some {| ic_callback_id := cb; ic_cancel_epoch := 0 |} -> dp_callback_id p = cb.
Proof.
  intros Hm Hp Hi. destruct (ok_prepared _ Hok _ _ Hp) as (x & Hx & Hid & _ & [Hn|Hs]);
    (assert (x = m) as -> by (by apply (holds_inj d))); congruence.
Qed.

Lemma cancelling_advances spec cb : holds d (dispatched spec cb) -> advances d (dispatched spec cb) (cancelling spec cb).
Proof.
  intros Hm. split; [done|constructor|done|done|]. intros p Hp. right.
  by rewrite (prepared_callback (dispatched spec cb) p cb Hm Hp eq_refl).
Qed.

Lemma finished_advances spec m cb o late :
  m = dispatched spec cb /\ late = false \/ m = cancelling spec cb /\ late = true ->
  holds d m -> advances d m (finished_machine spec cb o late) /\ m_cancel_epoch m <= m_cancel_epoch (finished_machine spec cb o late).
Proof.
  intros Hcase Hm.
  assert (m_spec m = spec /\ is_terminal (m_state m) = false /\
          m_issued m = Some {| ic_callback_id := cb; ic_cancel_epoch := 0 |} /\
          m_cancel_epoch m = if late then 1 else 0) as (Hs & Hl & Hi & He) by (by destruct Hcase as [[-> ->]|[-> ->]]).
  split; [|cbn; lia]. split; [done|rewrite Hs; constructor|done|by rewrite Hi|]. intros p Hp. right.
  by rewrite (prepared_callback m p cb Hm Hp Hi).
Qed.

Lemma finished_announcement spec cb o late :
  announcement (finished_machine spec cb o late) = Some (if late then ReconcileEffect else WakeFiber, Some cb) /\
  exists receipt, receipt_from_state (outcome_state o) = Some receipt.
Proof. by destruct late, o; split; try done; eexists. Qed.
End transitions.

(** ** Operations *)

Definition grew `{Sha256} (d d' : Db) : Prop := db_ok d' /\ later d d'.

Section operations.
Context `{Sha256} (d : Db) (Hok : db_ok d).

Lemma grew_refl : grew d d.
Proof. split; [done|reflexivity]. Qed.

Lemma register_spec spec :
  spec_ok spec ->
  wp (register spec) (fun dec d' => grew d d' /\
    match dec with
    | Created h => h = handle_of spec /\ db_operations d !! operation_id spec = None /\ holds d' (machine_new spec)
    | Existing h => h = handle_of spec /\ d' = d
    end) (refused d False) d.
Proof.
  intros Hspec. unfold register. wp_step. apply wp_load_machine_opt; [done| |].
  - intros Hn. wp_step. apply wp_insert_machine; [done|]. wp_step.
    destruct (insert_operation_ok d spec Hok Hspec Hn) as (Hok' & Hl & Hm). by split; [split|].
  - intros m Hm Hid. case_decide as Hs; wp_step; [|done]. split; [apply grew_refl|]. by rewrite Hs.
Qed.

Lemma wp_load_preparation h Q E :
  (db_preparations d !! oh_operation_id h = None -> Q None d) ->
  (forall p m, db_preparations d !! oh_operation_id h = Some p -> holds d m ->
     operation_id (m_spec m) = oh_operation_id h -> prepared m p -> issued_only m (dp_callback_id p) -> Q (Some p) d) ->
  wp (load_dispatch_preparation_optional h) Q E d.
Proof.
  intros Hnone Hsome. unfold load_dispatch_preparation_optional. do 2 wp_step.
  destruct (db_preparations d !! oh_operation_id h) as [p|] eqn:Hp; [|by wp_step; apply Hnone].
  destruct (ok_prepared _ Hok _ _ Hp) as (m & Hm & Hid & Hprep & Hiss). pose proof Hm as (_ & (Hg & Hf & Hc) & _).
  specialize (Hsome p m eq_refl Hm Hid Hprep Hiss).
  assert (oh_generation (dp_operation p) = generation (m_spec m)) as -> by (by rewrite Hprep).
  assert (fiber_generation (dp_owner_fiber p) = fiber_generation (owner_fiber (m_spec m))) as -> by (by rewrite Hprep).
  assert (dp_cancellation_generation p = cancellation_generation (m_spec m)) as -> by (by rewrite Hprep).
  rewrite !generation_from_blob_Ok by done. do 3 (wp_step; apply wp_lift; [intros ? _|done]). by wp_step.
Qed.

(** What the stored preparation of a machine says. *)
Lemma prepared_matches m p cb :
  prepared m p -> dispatch_preparation_matches_machine p m cb = bool_decide (dp_callback_id p = cb).
Proof.
  intros ->. unfold dispatch_preparation_matches_machine. cbn. rewrite !(bool_decide_true (_ = _)) by done. cbn.
  destruct (decide (dp_callback_id p = cb)) as [->|Hne]; [by rewrite !bool_decide_true|].
  by rewrite (bool_decide_false _ Hne).
Qed.

(** The receipt of another operation is that of [p]. *)
Definition preparation_clash (h : OperationHandle) (cb : Z) : Prop :=
  exists id q, db_preparations d !! id = Some q /\ id <> oh_operation_id h /\
    dp_preparation_receipt_id q = derive_operation_dispatch_receipt_id PREPARATION_DOMAIN h cb.

Definition activation_clash (h : OperationHandle) (cb : Z) : Prop :=
  exists id a, db_activations d !! id = Some a /\ id <> oh_operation_id h /\
    (ar_activation_receipt_id a = derive_operation_dispatch_receipt_id ACTIVATION_DOMAIN h cb \/
     ar_preparation_receipt_id a = derive_operation_dispatch_receipt_id PREPARATION_DOMAIN h cb).

Lemma prepare_spec h cb :
  wp (prepare_dispatch h cb) (fun dec d' => grew d d') (refused d (preparation_clash h cb)) d.
Proof.
  unfold prepare_dispatch. wp_step. apply wp_load_machine; [done| |done]. intros m rev (Hm & _) Hid.
  case_decide as Hh; [by wp_step|]. wp_step. apply wp_load_preparation.
  - intros Hn. case_decide as Hs; [by wp_step|]. wp_step. unfold insert_dispatch_preparation. do 2 wp_step.
    assert (m = machine_new (m_spec m)) as Hreg.
    { apply machine_ok_registered; [apply Hm|]. by destruct (decide (m_state m = Registered)). }
    cbn [dp_operation dispatch_preparation_from_machine handle_of oh_operation_id]. rewrite Hid, Hn. cbn [is_some orb].
    case_bool_decide as Hex.
    + wp_step. destruct Hex as (id & q & Hq & Heq). exists id, q. split; [done|]. split; [congruence|].
      rewrite Heq. cbn. congruence.
    + do 2 wp_step. rewrite Hreg, <- Hid in *. cbn [m_spec machine_new] in *.
      destruct (insert_preparation_ok d (m_spec m) cb Hok Hm Hn). by split.
  - intros p x Hp Hx Hxid Hprep _. assert (x = m) as -> by (apply (holds_inj d); [done|done|congruence]).
    rewrite (prepared_matches m p cb Hprep). case_bool_decide; wp_step; [apply grew_refl|done].
Qed.

(** The operation was dispatched by this step, under this ticket. *)
Definition dispatches (d' : Db) (t : CallbackTicket) : Prop :=
  exists spec cb, t = ticket_of spec cb /\ holds d (machine_new spec) /\ holds d' (dispatched spec cb).

(** It had been dispatched before, under this ticket. *)
Definition was_dispatched (t : CallbackTicket) : Prop :=
  exists m cb, t = ticket_of (m_spec m) cb /\ holds d m /\
    m_issued m = Some {| ic_callback_id := cb; ic_cancel_epoch := 0 |}.

Lemma dispatch_spec h cb :
  wp (dispatch h cb) (fun t d' => grew d d' /\ dispatches d' t) (refused d False) d.
Proof.
  unfold dispatch. wp_step. apply wp_load_machine; [done| |done]. intros m rev Hst Hid. pose proof Hst as (Hm & _).
  case_decide as Hh; [by wp_step|]. wp_step. apply wp_load_preparation; [|by intros; cbn [is_some]; wp_step].
  intros Hn. cbn [is_some]. wp_step. apply wp_lift_op; [|done]. intros [m' t] Hd.
  apply (dispatch_inv (m_spec m)) in Hd as (Hreg & -> & -> & ->); [|apply Hm].
  wp_step. apply (wp_update_machine _ m); [done|done|]. wp_step.
  assert (advances d m (dispatched (m_spec m) cb)) as Ha.
  { rewrite Hreg in Hm |- *. apply dispatch_advances; [done|]. intros p Hp. cbn in *. congruence. }
  destruct (advance_ok d m _ rev Hok Hst Ha) as (Hok' & Hl & Hm'); [by rewrite Hreg|done|].
  split; [by split|]. exists (m_spec m), cb. split; [done|]. by rewrite <- Hreg.
Qed.

Lemma wp_load_activation h Q E :
  (db_activations d !! oh_operation_id h = None -> Q None d) ->
  (forall p m, db_activations d !! oh_operation_id h = Some (activation_of p) ->
     db_preparations d !! oh_operation_id h = Some p -> holds d m -> operation_id (m_spec m) = oh_operation_id h ->
     m_issued m = Some {| ic_callback_id := dp_callback_id p; ic_cancel_epoch := 0 |} -> Q (Some (activation_of p)) d) ->
  wp (load_dispatch_activation_optional h) Q E d.
Proof.
  intros Hnone Hsome. unfold load_dispatch_activation_optional. do 2 wp_step.
  destruct (db_activations d !! oh_operation_id h) as [a|] eqn:Hact; [|by wp_step; apply Hnone].
  destruct (ok_activated _ Hok _ _ Hact) as (p & m & Hp & -> & Hm & Hid & Hi).
  destruct (ok_prepared _ Hok _ _ Hp) as (x & Hx & Hxid & Hprep & _). pose proof Hx as (_ & (Hg & _) & _).
  wp_step. assert (oh_generation (ar_operation (activation_of p)) = generation (m_spec x)) as ->
    by (rewrite Hprep at 1; done).
  rewrite generation_from_blob_Ok by done. apply wp_lift; [|done]. intros ? _. wp_step. by apply (Hsome p m).
Qed.

Lemma bool_false_elim (b : bool) : ~ (b = false) -> b = true.
Proof. by destruct b. Qed.

Lemma activate_spec p :
  wp (activate_dispatch p) (fun dec d' => grew d d' /\
    match dec with
    | Activated a => dispatches d' (da_ticket a)
    | ActivationReplayed a => d' = d /\ was_dispatched (da_ticket a)
    end) (refused d (activation_clash (dp_operation p) (dp_callback_id p))) d.
Proof.
  unfold activate_dispatch. cbv zeta. wp_step. apply wp_load_machine; [done| |done]. intros m rev Hst Hid. pose proof Hst as (Hm & _).
  case_decide as Hh; [by wp_step|]. wp_step. apply wp_load_preparation; [intros _; wp_step; apply wp_lift; [done|by intros ? [= <-]]|].
  intros q x Hq Hx Hxid Hprep Hiss. assert (x = m) as -> by (apply (holds_inj d); [done|done|congruence]).
  wp_step. apply wp_lift; [|done]. intros ? [= <-]. case_decide as Hpq; [by wp_step|].
  assert (q = p) as -> by (by destruct (decide (q = p))). clear Hpq. wp_step.
  assert (dp_operation p = handle_of (m_spec m)) as Hph by (rewrite Hprep; done).
  assert (dp_owner_fiber p = owner_fiber (m_spec m)) as Hpo by (rewrite Hprep; done).
  assert (dp_cancel_epoch p = 0) as Hpe by (rewrite Hprep; done).
  apply wp_load_activation.
  - intros Hn. case_decide as Hs; [by wp_step|]. rewrite (prepared_matches m p _ Hprep), bool_decide_true by done.
    wp_step. apply wp_lift_op; [|done]. intros [m' t] Hd.
    apply (dispatch_inv (m_spec m)) in Hd as (Hreg & _ & -> & ->); [|apply Hm].
    wp_step. apply (wp_update_machine _ m); [done|done|].
    assert (advances d m (dispatched (m_spec m) (dp_callback_id p))) as Ha.
    { rewrite Hreg in Hm |- *. apply dispatch_advances; [done|]. intros q Hq'. cbn in *. congruence. }
    wp_step. unfold insert_dispatch_activation. do 2 wp_step. cbn [db_activations db_preparations set_field set_db_operations eta_db].
    match goal with |- wp (if ?b then _ else _) _ _ _ => destruct b eqn:Hb end; wp_step.
    + rewrite Hn in Hb. cbn [is_some orb] in Hb. apply orb_true_iff in Hb as [Hb|Hb].
      * apply bool_decide_eq_true in Hb as (id & a & Hact & Heq). exists id, a. split; [done|].
        split; [congruence|]. destruct Heq as [Heq|Heq]; [by left|right]. rewrite Heq, Hprep at 1. by rewrite Hph.
      * apply negb_true_iff, bool_decide_eq_false in Hb. destruct Hb. exists (oh_operation_id (dp_operation p)), p. done.
    + wp_step. rewrite <- Hid in Hn, Hq. rewrite Hph.
      destruct (activate_ok d m _ rev Hok Hst Ha) with (p := p) as (Hok' & Hl & Hm'); try done;
        [by rewrite Hreg|].
      split; [|by exists (m_spec m), (dp_callback_id p); rewrite <- Hreg].
      unfold activation_of, with_machine in *. rewrite Hph in *. by split.
  - intros q y Hact Hq' Hy Hyid Hyi. assert (q = p) as -> by congruence.
    assert (y = m) as -> by (apply (holds_inj d); [done|done|congruence]).
    unfold replay_activation. rewrite (prepared_matches m p _ Hprep), bool_decide_true by done.
    rewrite decide_False by (cbn; naive_solver). wp_step. rewrite Hyi. apply wp_lift; [|done]. intros ? [= <-].
    cbn [ic_callback_id ic_cancel_epoch ar_callback_id ar_cancel_epoch activation_of]. rewrite decide_False.
    + wp_step. split; [apply grew_refl|]. split; [done|]. exists m, (dp_callback_id p). split_and!; [|done|done].
      unfold ticket_of. by rewrite Hph, Hpo, Hpe.
    + rewrite Hpe. intros [|[|Hr]]; [done..|]. pose proof (machine_ok_registered _ m (proj1 Hm) Hr) as Hreg.
      by rewrite Hreg in Hyi.
Qed.

(** ** Cancellation and completion *)

Lemma cancel_and_store_spec m rev h r :
  stored d m rev ->
  wp (cancel_and_store m rev h r) (fun s d' => grew d d' /\ h = handle_of (m_spec m) /\
    exists m', s = snapshot_of m' /\ m_spec m' = m_spec m /\ holds d' m' /\ db_calls d' = db_calls d /\
      (m = machine_new (m_spec m) /\ m' = cancelled_early (m_spec m) r \/
       exists cb, m = dispatched (m_spec m) cb /\ m' = cancelling (m_spec m) cb)) (refused d False) d.
Proof.
  intros Hst. pose proof Hst as (Hm & _). unfold cancel_and_store. wp_step. apply wp_lift_op; [|done].
  intros [m' s] Hc. apply (cancel_inv (m_spec m)) in Hc as (-> & -> & Hcase); [|apply Hm].
  assert (m_spec m' = m_spec m) as Hspec by (by destruct Hcase as [[_ ->]|(cb & _ & ->)]).
  wp_step. apply (wp_update_machine _ m); [done|done|]. destruct Hcase as [[Hreg ->]|(cb & Hdis & ->)].
  - assert (advances d m (cancelled_early (m_spec m) r)) as Ha
      by (rewrite Hreg in Hm |- *; by apply cancel_early_advances).
    cbn [sn_state snapshot_of m_state cancelled_early is_cancelled_before_effect]. wp_step.
    apply (wp_insert_outbox _ _ _ _ r); [done| |done]. intros Hfull. wp_step.
    destruct (finish_ok d m _ rev Hok Hst Ha) with (kind := WakeFiber) (cb := @None Z) (receipt := r)
      as (Hok' & Hl & Hm'); [by rewrite Hreg|done|done|done|].
    split; [by split|]. split; [done|]. exists (cancelled_early (m_spec m) r). split_and!; try done. by left.
  - assert (advances d m (cancelling (m_spec m) cb)) as Ha
      by (rewrite Hdis in Hm |- *; by apply cancelling_advances).
    cbn [sn_state snapshot_of m_state cancelling is_cancelled_before_effect]. do 2 wp_step.
    destruct (advance_ok d m _ rev Hok Hst Ha) as (Hok' & Hl & Hm'); [by rewrite Hdis|done|].
    split; [by split|]. split; [done|]. exists (cancelling (m_spec m) cb). split_and!; try done. right. by exists cb.
Qed.

Lemma request_cancel_spec h r :
  wp (request_cancel h r) (fun s d' => grew d d' /\ sn_handle s = h /\ exists m, holds d' m /\ s = snapshot_of m)
    (refused d False) d.
Proof.
  unfold request_cancel. wp_step. apply wp_load_machine; [done| |done]. intros m rev Hst Hid.
  eapply wp_mono; [by apply cancel_and_store_spec| |done]. cbv beta. intros s d' (Hg & -> & m' & -> & Hs & Hm' & _).
  split; [done|]. split; [cbn; by rewrite Hs|]. by exists m'.
Qed.

Lemma request_cancel_idempotent_spec h e r :
  wp (request_cancel_idempotent h e r) (fun dec d' => grew d d' /\
    match dec with CancelApplied s => sn_handle s = h | CancelReplayed s | AlreadyTerminal s => sn_handle s = h /\ d' = d end)
    (refused d False) d.
Proof.
  unfold request_cancel_idempotent. wp_step. apply wp_load_machine; [done| |done]. intros m rev Hst Hid.
  cbv zeta. cbn [sn_handle sn_cancel_epoch sn_state snapshot_of].
  case_decide as Hh; [by wp_step|]. assert (handle_of (m_spec m) = h) as <- by (by destruct (decide (handle_of (m_spec m) = h))).
  case_decide as He.
  - destruct (is_terminal (m_state m)); [wp_step; split; [apply grew_refl|done]|]. wp_step.
    eapply wp_mono; [by apply cancel_and_store_spec| |done]. cbv beta. intros s d' (Hg & _ & m' & -> & Hs & Hm' & _).
    wp_step. split; [done|]. cbn. by rewrite Hs.
  - case_decide; [|by wp_step]. destruct (m_state m); try (wp_step; split; [apply grew_refl|done]).
    case_decide; wp_step; [done|]. split; [apply grew_refl|done].
Qed.

Lemma store_completion_spec m rev t o m' dec :
  stored d m rev -> machine_complete m t o = Ok (m', dec) ->
  wp (store_completion m' rev dec (ct_callback_id t)) (fun _ d' => grew d d' /\ holds d' m' /\ db_calls d' = db_calls d /\
    (m = m' -> d' = d)) (refused d False) d.
Proof.
  intros Hst Hc. pose proof Hst as (Hm & _).
  apply (complete_inv (m_spec m)) in Hc as (cb & -> & Hcase); [|apply Hm].
  assert (m' = m /\ dec = Duplicate (outcome_state o) \/ exists late, m' = finished_machine (m_spec m) cb o late /\
    dec = (if late then CanonicalizedForReconciliation (outcome_state o) else CanonicalizedAndWake (outcome_state o)) /\
    (m = dispatched (m_spec m) cb /\ late = false \/ m = cancelling (m_spec m) cb /\ late = true)) as Hsum.
  { destruct Hcase as [(E1 & -> & ->)|[(E1 & -> & ->)|(late & E1 & -> & ->)]]; [right..|by left];
      [exists false|exists true]; split_and!; try done; [by left|by right]. }
  clear Hcase. destruct Hsum as [[-> ->]|(late & -> & -> & Hcase)].
  { unfold store_completion. wp_step. split; [apply grew_refl|]. by split. }
  destruct (finished_advances d Hok (m_spec m) m cb o late Hcase Hm) as [Ha He].
  destruct (finished_announcement (m_spec m) cb o late) as [Hann [r Hr]].
  assert (m <> finished_machine (m_spec m) cb o late) as Hne.
  { intros Heq. pose proof (f_equal m_accepted Heq) as Hacc. by destruct Hcase as [[Hx _]|[Hx _]]; rewrite Hx in Hacc. }
  pose proof (fun Hfull => finish_ok d m _ rev Hok Hst Ha He _ _ _ Hfull Hann Hr) as Hfin.
  assert (wp (_ ← update_machine (finished_machine (m_spec m) cb o late) rev;
              insert_outbox (if late then ReconcileEffect else WakeFiber) (finished_machine (m_spec m) cb o late) (Some cb))
    (fun _ d' => grew d d' /\ holds d' (finished_machine (m_spec m) cb o late) /\ db_calls d' = db_calls d /\
       (m = finished_machine (m_spec m) cb o late -> d' = d)) (refused d False) d); [|by destruct late].
  wp_step. apply (wp_update_machine _ m); [done|done|]. apply (wp_insert_outbox _ _ _ _ r); [done| |done].
  intros Hfull. destruct (Hfin Hfull) as (Hok' & Hl & Hm'). split; [by split|]. by split.
Qed.

Lemma complete_spec t o :
  wp (complete t o) (fun dec d' => grew d d' /\ exists spec cb, t = ticket_of spec cb /\
    match dec with
    | CanonicalizedAndWake s => s = outcome_state o /\ holds d (dispatched spec cb) /\ holds d' (finished_machine spec cb o false)
    | CanonicalizedForReconciliation s =>
        s = outcome_state o /\ holds d (cancelling spec cb) /\ holds d' (finished_machine spec cb o true)
    | Duplicate s => s = outcome_state o /\ d' = d /\ exists late, holds d (finished_machine spec cb o late)
    end) (refused d False) d.
Proof.
  unfold complete. wp_step. apply wp_load_machine; [done| |done]. intros m rev Hst Hid. pose proof Hst as (Hm & _).
  wp_step. apply wp_lift_op; [|done]. intros [m' dec] Hc. wp_step.
  eapply wp_mono; [by eapply store_completion_spec| |done]. cbv beta. intros _ d' (Hg & Hm' & _ & Hsame). wp_step.
  split; [done|]. apply (complete_inv (m_spec m)) in Hc as (cb & -> & Hcase); [|apply Hm].
  exists (m_spec m), cb. split; [done|].
  destruct Hcase as [(E1 & -> & ->)|[(E1 & -> & ->)|(late & E1 & -> & ->)]].
  - by rewrite <- E1.
  - by rewrite <- E1.
  - split; [done|]. split; [by apply Hsame|]. exists late. by rewrite <- E1.
Qed.
End operations.
