(* ===== verification/OpCalls.v ===== *)
(** * OpCalls: idempotent calls keep the invariant

    What [begin_idempotent_operation], [complete_idempotent_operation] and
    [cancel_idempotent_before_dispatch] of [OpStore] answer and leave behind. *)

From S2P Require Import Prelude Bytes Txn Operation OpStore OpInv OpSteps.

(** A list without duplicates whose elements are all the same. *)
Lemma NoDup_singleton_all {A} (l : list A) x : NoDup l -> x ∈ l -> (forall y, y ∈ l -> y = x) -> l = [x].
Proof.
  intros Hn Hx Hall. destruct l as [|y l]; [by apply elem_of_nil in Hx|].
  rewrite (Hall y) in * by (by left). destruct l as [|z l]; [done|]. rewrite (Hall z) in Hn by (right; by left).
  apply NoDup_cons in Hn as [Hn _]. destruct Hn. by left.
Qed.

(** What the code reads of a call. *)
Definition record_of (row : CallRow) : IdempotencyRecord :=
  let h := {| oh_operation_id := c_operation_id row; oh_generation := c_operation_generation row |} in
  {| ir_request_digest_sha256 := c_request_digest row; ir_operation := h;
     ir_result := match c_receipt_id row, c_response_wire row with
                  | Some r, Some w => Some {| cr_operation := h; cr_receipt_id := r; cr_result_wire := w |}
                  | _, _ => None
                  end |}.

(** The answer to a call is what its row says. *)
Definition answers (d : Db) (r : DurableCallResult) : Prop :=
  exists k row, db_calls d !! k = Some row /\ ir_result (record_of row) = Some r.

Section calls.
Context `{Sha256} (d : Db) (Hok : db_ok d).

Lemma calls_of_spec h k row :
  (k, row) ∈ calls_of h d <->
  db_calls d !! k = Some row /\ c_operation_id row = oh_operation_id h /\ c_operation_generation row = oh_generation h.
Proof. unfold calls_of. rewrite list_elem_of_filter, elem_of_map_to_list. naive_solver. Qed.

Lemma calls_of_cases h :
  calls_of h d = [] \/
  exists k row m, calls_of h d = [(k, row)] /\ db_calls d !! k = Some row /\ holds d m /\ handle_of (m_spec m) = h /\
    call_of row m /\ result_ok row m.
Proof.
  destruct (calls_of h d) as [|[k row] l] eqn:Hl; [by left|right].
  assert ((k, row) ∈ calls_of h d) as Hin by (rewrite Hl; by left).
  pose proof Hin as (Hk & Hi & Hg)%calls_of_spec. destruct (ok_calls _ Hok k row Hk) as (m & Hm & Hcall & Hres).
  exists k, row, m. split; [|split_and!; try done].
  - rewrite <- Hl. apply NoDup_singleton_all; [apply NoDup_filter, NoDup_map_to_list|done|].
    intros [k' row'] (Hk' & Hi' & _)%calls_of_spec. assert (k' = k) as -> by (eapply (ok_calls_unique _ Hok); eauto; congruence).
    congruence.
  - destruct Hcall as [E1 E2]. destruct h as [hi hg]; cbn in *. unfold handle_of. congruence.
Qed.

Lemma decode_call row m : holds d m -> call_of row m -> result_ok row m -> decode_idempotency_row row = Ok (record_of row).
Proof.
  intros (_ & (Hg & _) & _) [E1 E2] Hr. unfold decode_idempotency_row. rewrite generation_from_blob_Ok by congruence.
  cbn [mbind result_bind]. revert Hr. unfold result_ok, record_of.
  destruct (c_receipt_id row), (c_response_wire row); try done. intros [_ Hs]. rewrite decide_False by lia. done.
Qed.

Lemma wp_load_call_by_operation h Q E :
  (calls_of h d = [] -> Q None d) ->
  (forall k row m, calls_of h d = [(k, row)] -> db_calls d !! k = Some row -> holds d m -> handle_of (m_spec m) = h ->
     call_of row m -> result_ok row m -> Q (Some (record_of row)) d) ->
  wp (load_idempotency_record_by_operation h) Q E d.
Proof.
  intros Hnone Hsome. unfold load_idempotency_record_by_operation. do 2 wp_step.
  destruct (calls_of_cases h) as [Hl|(k & row & m & Hl & Hk & Hm & Hh & Hcall & Hres)]; rewrite Hl; [by wp_step; apply Hnone|].
  wp_step. rewrite (decode_call row m) by done. apply wp_lift; [|done]. intros ? [= <-]. wp_step. by apply (Hsome k row m).
Qed.

Lemma wp_load_call scope key Q E :
  (db_calls d !! call_key scope key = None -> Q None d) ->
  (forall row m, db_calls d !! call_key scope key = Some row -> holds d m -> call_of row m -> Q (Some (record_of row)) d) ->
  wp (load_idempotency_record scope key) Q E d.
Proof.
  intros Hnone Hsome. unfold load_idempotency_record. do 2 wp_step.
  destruct (db_calls d !! call_key scope key) as [row|] eqn:Hk; [|by wp_step; apply Hnone].
  destruct (ok_calls _ Hok _ row Hk) as (m & Hm & Hcall & Hres). wp_step. rewrite (decode_call row m) by done.
  apply wp_lift; [|done]. intros ? [= <-]. wp_step. by apply (Hsome row m).
Qed.

(** No call names an operation that is not there. *)
Lemma calls_of_absent spec : db_operations d !! operation_id spec = None ->
  forall k row, db_calls d !! k = Some row -> c_operation_id row <> operation_id spec.
Proof.
  intros Hn k row (m & (_ & _ & rev & _ & Hm) & [E1 _] & _)%(ok_calls _ Hok) Heq. by rewrite <- E1, Heq, Hn in Hm.
Qed.

Lemma begin_spec scope key digest spec :
  spec_ok spec ->
  wp (begin_idempotent_operation scope key digest spec) (fun dec d' => grew d d' /\
    match dec with
    | CallCreated h => h = handle_of spec /\ db_calls d !! call_key scope key = None /\ holds d' (machine_new spec) /\
        exists row, db_calls d' !! call_key scope key = Some row /\ c_request_digest row = digest /\
          ir_operation (record_of row) = h
    | _ => d' = d /\ exists row, db_calls d !! call_key scope key = Some row /\ c_request_digest row = digest /\
        dec = into_decision (record_of row)
    end) (refused d False) d.
Proof.
  intros Hspec. unfold begin_idempotent_operation. wp_step. apply wp_lift;
    [intros _ _|by unfold validate_idempotency_scope; intros e; destruct (_ && _); intros [= <-]].
  wp_step. apply wp_load_call.
  - intros Hk. wp_step. apply wp_load_machine_opt; [done| |by intros; case_decide; wp_step].
    intros Hn. wp_step. apply wp_insert_machine; [done|]. wp_step. unfold insert_call. do 2 wp_step.
    destruct (insert_operation_ok d spec Hok Hspec Hn) as (Hok1 & Hl1 & Hm1).
    assert (calls_of (handle_of spec) d = []) as Hfree.
    { destruct (calls_of_cases (handle_of spec)) as [|(k & row & m & _ & _ & (_ & _ & rev & _ & Hm) & Hh & _)]; [done|].
      injection Hh as Hid _. by rewrite Hid, Hn in Hm. }
    match goal with |- wp (if ?b then _ else _) _ _ _ => assert (b = false) as -> end.
    { cbn [db_calls set_field set_db_operations eta_db]. rewrite Hk. cbn [is_some orb]. apply negb_false_iff, bool_decide_eq_true.
      exact Hfree. }
    wp_step. wp_step.
    destruct (insert_call_ok _ (call_key scope key) digest (machine_new spec) Hok1 Hm1) as (Hok2 & Hl2); [done| |].
    { intros k row. apply (calls_of_absent spec Hn). }
    split; [split; [exact Hok2|by etransitivity]|]. split; [done|]. split; [done|]. split; [exact Hm1|].
    eexists. split; [apply lookup_insert_eq|]. done.
  - intros row m Hk Hm Hcall. case_decide as Hd; [by wp_step|]. cbn in Hd. wp_step.
    split; [by apply grew_refl|].
    assert (d = d /\ exists row', db_calls d !! call_key scope key = Some row' /\ c_request_digest row' = digest /\
      into_decision (record_of row) = into_decision (record_of row')) as Hex.
    { split; [done|]. exists row. split; [done|]. split; [|done]. by destruct (decide (c_request_digest row = digest)). }
    by destruct (into_decision (record_of row)) eqn:Hdec; [unfold into_decision in Hdec; destruct (ir_result _)|..].
Qed.

Lemma wp_store_result d1 m k row receipt wire reason E :
  db_ok d1 -> later d d1 -> holds d1 m -> db_calls d1 !! k = Some row -> calls_of (handle_of (m_spec m)) d1 = [(k, row)] ->
  call_of row m -> ir_result (record_of row) = None -> result_ok row m -> receipt_from_state (m_state m) = Some receipt ->
  size_of wire <= MAX_DURABLE_RESULT_BYTES ->
  wp (store_result (handle_of (m_spec m)) receipt wire reason) (fun r d' => grew d d' /\ answers d' r /\
    r = {| cr_operation := handle_of (m_spec m); cr_receipt_id := receipt; cr_result_wire := wire |}) E d1.
Proof.
  intros Hok1 Hl Hm Hk Hcalls Hcall Hnone Hres Hr Hw. unfold store_result. wp_step. unfold set_result. do 2 wp_step.
  assert (c_receipt_id row = None /\ c_response_wire row = None) as [E1 E2].
  { revert Hnone Hres. unfold record_of, result_ok. cbn. by destruct (c_receipt_id row), (c_response_wire row). }
  rewrite Hcalls. rewrite filter_cons_True by done. rewrite filter_nil. cbn [foldr fst snd length].
  do 3 wp_step. rewrite decide_False by (intros Hn; by apply Hn). wp_step.
  destruct (set_result_ok d1 k row m receipt wire Hok1 Hm Hk Hcall E1 Hr Hw) as (Hok2 & Hl2).
  split; [split; [exact Hok2|by etransitivity]|]. split; [|done]. eexists k, _. split; [apply lookup_insert_eq|].
  cbn. destruct Hcall as [-> ->]. done.
Qed.

Lemma calls_of_ext d1 h : db_calls d1 = db_calls d -> calls_of h d1 = calls_of h d.
Proof. intros He. unfold calls_of. by rewrite He. Qed.

Lemma call_of_spec row m m' : m_spec m' = m_spec m -> call_of row m -> call_of row m'.
Proof. intros He. unfold call_of. by rewrite He. Qed.

Lemma result_ok_none row m m' : ir_result (record_of row) = None -> result_ok row m -> result_ok row m'.
Proof. unfold record_of, result_ok. cbn. by destruct (c_receipt_id row), (c_response_wire row). Qed.

Lemma complete_call_spec t o wire :
  wp (complete_idempotent_operation t o wire) (fun r d' => grew d d' /\ answers d' r /\ cr_operation r = ct_operation t /\
    cr_result_wire r = wire) (refused d False) d.
Proof.
  unfold complete_idempotent_operation, result_too_large. case_decide as Hsize; [by wp_step|]. cbv zeta. wp_step.
  apply wp_load_machine; [done| |done]. intros m rev Hst Hid. pose proof Hst as (Hm & _).
  wp_step. apply wp_lift_op; [|done]. intros [m' dec] Hc.
  pose proof Hc as Hinv. apply (complete_inv (m_spec m)) in Hinv as (cb & Ht & Hcase); [|apply Hm].
  assert (ct_operation t = handle_of (m_spec m)) as Hh by (by rewrite Ht).
  assert (m_spec m' = m_spec m /\ m_state m' = outcome_state o) as [Hspec Hstate].
  { destruct Hcase as [(E1 & -> & _)|[(E1 & -> & _)|(late & E1 & -> & _)]]; [done..|]. by rewrite E1. }
  destruct (finished_announcement (m_spec m) cb o false) as [_ [receipt Hr]].
  rewrite Hh. wp_step. apply wp_load_call_by_operation; [by intros _; wp_step; apply wp_lift; [|intros ? [= <-]]|].
  intros k row x Hcalls Hk Hx Hxh Hcall Hres.
  assert (x = m) as -> by (apply (holds_inj d); [done|done|by injection Hxh]).
  wp_step. apply wp_lift; [|done]. intros ? [= <-]. wp_step. rewrite Hstate, Hr. apply wp_lift; [|done]. intros ? [= <-].
  destruct (ir_result (record_of row)) as [existing|] eqn:Hexist.
  - case_decide as Hconf; [by wp_step|]. wp_step. split; [by apply grew_refl|]. split; [by exists k, row|].
    assert (cr_operation existing = handle_of (m_spec m)) as ->.
    { revert Hexist. unfold record_of. cbn. destruct (c_receipt_id row), (c_response_wire row); try done. intros [= <-]. cbn.
      by destruct Hcall as [-> ->]. }
    split; [done|]. destruct (decide (cr_result_wire existing = wire)); [done|]. destruct Hconf. by right.
  - wp_step. eapply wp_mono; [by eapply store_completion_spec| |done]. cbv beta.
    intros _ d1 ([Hok1 Hl1] & Hm1 & Hc1 & _). rewrite <- Hspec in *.
    eapply wp_mono; [eapply (wp_store_result d1 m' k row)| |done]; try done.
    + by rewrite Hc1.
    + by rewrite (calls_of_ext d1 _ Hc1).
    + by apply (call_of_spec row m).
    + by apply (result_ok_none row m).
    + by rewrite Hstate.
    + cbv beta. intros r d' (Hg & Hans & ->). done.
Qed.

Lemma cancel_call_spec h receipt wire :
  wp (cancel_idempotent_before_dispatch h receipt wire) (fun r d' => grew d d' /\ answers d' r /\ cr_operation r = h /\
    cr_receipt_id r = receipt /\ cr_result_wire r = wire) (refused d False) d.
Proof.
  unfold cancel_idempotent_before_dispatch, result_too_large. case_decide as Hsize; [by wp_step|]. wp_step.
  apply wp_load_machine; [done| |done]. intros m rev Hst Hid. pose proof Hst as (Hm & _).
  wp_step. apply wp_load_call_by_operation; [by intros _; wp_step; apply wp_lift; [|intros ? [= <-]]|].
  intros k row x Hcalls Hk Hx Hxh Hcall Hres.
  assert (x = m) as -> by (apply (holds_inj d); [done|done|rewrite Hid, <- Hxh; done]).
  wp_step. apply wp_lift; [|done]. intros ? [= <-]. destruct (ir_result (record_of row)) as [existing|] eqn:Hexist.
  - case_decide as Hconf; [by wp_step|]. wp_step. split; [by apply grew_refl|]. split; [by exists k, row|].
    assert (cr_operation existing = h) as ->.
    { revert Hexist. unfold record_of. cbn. destruct (c_receipt_id row), (c_response_wire row); try done. intros [= <-]. cbn.
      destruct Hcall as [-> ->]. done. }
    split; [done|]. split; [destruct (decide (cr_receipt_id existing = receipt)); [done|]; destruct Hconf; by left|].
    destruct (decide (cr_result_wire existing = wire)); [done|]. destruct Hconf. by right.
  - case_decide as Hs; [by wp_step|]. wp_step. apply wp_lift_op; [|done]. intros [m' s] Hc.
    apply (cancel_inv (m_spec m)) in Hc as (-> & -> & Hcase); [|apply Hm].
    destruct Hcase as [[Hreg ->]|(cb & Hdis & _)]; [|by rewrite Hdis in Hs].
    cbn [sn_state snapshot_of m_state cancelled_early is_cancelled_before_effect].
    wp_step. apply (wp_update_machine _ m); [done|done|]. wp_step. apply (wp_insert_outbox _ _ _ _ receipt); [done| |done].
    intros Hfull.
    assert (advances d m (cancelled_early (m_spec m) receipt)) as Ha
      by (rewrite Hreg in Hm |- *; by apply cancel_early_advances).
    destruct (finish_ok d m _ rev Hok Hst Ha) with (kind := WakeFiber) (cb := @None Z) (receipt := receipt)
      as (Hok' & Hl & Hm'); [by rewrite Hreg|done|done|done|].
    eapply wp_mono; [eapply (wp_store_result _ (cancelled_early (m_spec m) receipt) k row)| |done]; try done.
    + by apply (result_ok_none row m).
    + cbv beta. intros r d' (Hg & Hans & ->). done.
Qed.
End calls.
