(* ===== verification/OpOutbox.v ===== *)
(** * OpOutbox: the outbox lanes and the reads of the authority

    What parking, unparking, acknowledging and every read of [OpStore] answer. *)

From S2P Require Import Prelude Bytes Txn Operation OpStore OpInv OpSteps OpCalls.

(** What a decoded row says. *)
Definition entry_view (p : Z * OutboxRow) : OutboxEntry := {|
  oe_sequence := p.1;
  oe_kind := if decide (x_kind p.2 = 0) then WakeFiber else ReconcileEffect;
  oe_operation := {| oh_operation_id := x_operation_id p.2; oh_generation := x_operation_generation p.2 |};
  oe_owner_fiber := {| fiber_id := x_owner_fiber_id p.2; fiber_generation := x_owner_fiber_generation p.2 |};
  oe_callback_id := x_callback_id p.2;
  oe_state := match decode_state (x_state_kind p.2) (Some (x_receipt_id p.2)) with Ok s => s | Err _ => Registered end
|}.

(** The entry of a terminal machine. *)
Definition entry_of (s : Z) (m : OperationMachine) (kind : OutboxKind) (cb : option Z) : OutboxEntry := {|
  oe_sequence := s; oe_kind := kind; oe_operation := handle_of (m_spec m); oe_owner_fiber := owner_fiber (m_spec m);
  oe_callback_id := cb; oe_state := m_state m
|}.

Section outbox.
Context `{Sha256} (d : Db) (Hok : db_ok d).

Lemma announces_view s row m kind cb :
  announces row m -> announcement m = Some (kind, cb) -> entry_view (s, row) = entry_of s m kind cb.
Proof.
  intros [(k & c & Hann & Hk & Hc) Hi Hg Hf Hfg Hs Hr] Ha. assert (k = kind /\ c = cb) as [-> ->] by (split; congruence).
  unfold entry_view, entry_of, handle_of. cbn [fst snd]. rewrite Hk, Hc, Hi, Hg, Hf, Hfg, Hs, (decode_receipt_state _ _ Hr).
  f_equal; [by destruct kind|by destruct (owner_fiber (m_spec m))].
Qed.

Lemma decode_view s row : db_outbox d !! s = Some row -> decode_outbox_row s row = Ok (entry_view (s, row)).
Proof.
  intros (_ & _ & m & (_ & (Hg & Hf & _) & _) & Ha)%(ok_outbox _ Hok).
  destruct Ha as [(k & c & _ & Hk & _) Hi Hgen Hfib Hfg Hs Hr].
  unfold decode_outbox_row, entry_view. cbn [fst snd].
  assert (decode_outbox_kind (x_kind row) = Ok (if decide (x_kind row = 0) then WakeFiber else ReconcileEffect)) as ->
    by (rewrite Hk; by destruct k).
  rewrite Hgen, Hfg, !generation_from_blob_Ok, Hs, (decode_receipt_state _ _ Hr) by done. done.
Qed.

Lemma decode_rows_Ok {A} (f : Z -> OutboxRow -> result StoreError A) (g : Z * OutboxRow -> A) rows :
  Forall (fun p => f p.1 p.2 = Ok (g p)) rows -> decode_rows f rows = Ok (g <$> rows).
Proof. induction 1 as [|[s row] rows Hp _ IH]; [done|]. cbn in *. rewrite Hp. cbn. by rewrite IH. Qed.

Lemma select_outbox_in P limit s row : (s, row) ∈ select_outbox P limit d -> db_outbox d !! s = Some row /\ P row = true.
Proof.
  intros Hin. unfold select_outbox in Hin.
  assert ((s, row) ∈ filter (fun p => P p.2 = true) (btree_iter (db_outbox d))) as Hf.
  { rewrite <- (take_drop (Z.to_nat (Z.min limit i64_max)) (filter _ _)). apply elem_of_app. by left. }
  apply list_elem_of_filter in Hf as [HP Hb]. by rewrite elem_of_btree_iter in Hb.
Qed.

(** The pending entries, in order. *)
Definition pending_entries (limit : Z) : list OutboxEntry := entry_view <$> select_outbox is_pending limit d.

Lemma pending_spec limit E : wp (pending_outbox limit) (fun l d' => d' = d /\ l = pending_entries limit) E d.
Proof.
  unfold pending_outbox. do 2 wp_step. rewrite (decode_rows_Ok decode_outbox_row entry_view).
  - apply wp_lift; [|done]. by intros ? [= <-].
  - apply Forall_forall. intros [s row] Hin. apply select_outbox_in in Hin as [Hs _]. by apply decode_view.
Qed.

Lemma acknowledge_spec s :
  wp (acknowledge_outbox s) (fun _ d' => grew d d' /\ exists row, db_outbox d !! s = Some row /\
    d' = d <| db_outbox := <[s := row <| x_acknowledged := 1 |>]> (db_outbox d) |>) (refused d False) d.
Proof.
  unfold acknowledge_outbox. do 2 wp_step. destruct (db_outbox d !! s) as [row|] eqn:Hs; wp_step; [|done].
  destruct (ok_outbox _ Hok s row Hs) as (_ & [P1 P2 P3 P4] & _).
  destruct (update_entry_ok d s row (row <| x_acknowledged := 1 |>) Hok Hs) as [Hok' Hl]; [by split|split; try done; by right|].
  split; [by split|]. by exists row.
Qed.

Lemma valid_park_reason reason now u : validate_park_request reason now = Ok u -> ~ reason_out_of_bound reason /\ 0 <= now.
Proof.
  unfold validate_park_request, reason_out_of_bound. repeat (case_decide; [done|]). intros _. split; [|lia]. naive_solver.
Qed.

Lemma valid_unpark_reason reason now u : validate_unpark_request reason now = Ok u -> ~ reason_out_of_bound reason /\ 0 <= now.
Proof.
  unfold validate_unpark_request, reason_out_of_bound. repeat (case_decide; [done|]). intros _. split; [|lia]. naive_solver.
Qed.

Lemma validate_park_refused reason now e : validate_park_request reason now = Err e -> refused d False e.
Proof. unfold validate_park_request. repeat (case_decide; [by intros [= <-]|]). done. Qed.

Lemma validate_unpark_refused reason now e : validate_unpark_request reason now = Err e -> refused d False e.
Proof. unfold validate_unpark_request. repeat (case_decide; [by intros [= <-]|]). done. Qed.

Lemma park_spec s reason now : wp (park_outbox_entry s reason now) (fun _ d' => grew d d') (refused d False) d.
Proof.
  unfold park_outbox_entry. wp_step. apply wp_lift; [|apply validate_park_refused].
  intros u [Hreason Hnow]%valid_park_reason. do 2 wp_step.
  destruct (db_outbox d !! s) as [row|] eqn:Hs; [|by wp_step].
  destruct (ok_outbox _ Hok s row Hs) as (_ & [P1 P2 P3 P4] & _). revert P2 P4. unfold stamp_ok at 1.
  destruct (x_parked_at_ms row) as [a|] eqn:Ha, (x_park_reason row) as [r|] eqn:Hr; try done; intros P2 P4.
  { case_decide; wp_step; [by apply grew_refl|done]. }
  wp_step. unfold update_parking.
  match goal with |- wp (if parking_is_one_way row ?n then _ else _) _ _ _ => set (new := n) end.
  assert (parking_is_one_way row new = false) as ->.
  { unfold parking_is_one_way, new. cbn. rewrite Ha. cbn. by rewrite bool_decide_true. }
  assert (unpark_evidence_is_one_way row new = false) as ->.
  { unfold unpark_evidence_is_one_way, new. cbn. rewrite Ha. cbn. rewrite !bool_decide_true by done. cbn.
    rewrite andb_false_r, orb_false_r. revert P3. unfold stamp_ok. by destruct (x_unparked_at_ms row), (x_unpark_reason row). }
  do 2 wp_step. destruct (update_entry_ok d s row new Hok Hs) as [Hok' Hl]; [split; cbn; try done; lia| |by split].
  split; cbn; try done. cbn in P4. lia.
Qed.

Lemma unpark_spec s reason now : wp (unpark_outbox_entry s reason now) (fun _ d' => grew d d') (refused d False) d.
Proof.
  unfold unpark_outbox_entry. wp_step. apply wp_lift; [|apply validate_unpark_refused].
  intros u [Hreason Hnow]%valid_unpark_reason. do 2 wp_step.
  destruct (db_outbox d !! s) as [row|] eqn:Hs; [|by wp_step].
  destruct (ok_outbox _ Hok s row Hs) as (_ & [P1 P2 P3 P4] & _). revert P2 P3 P4. unfold stamp_ok.
  destruct (x_parked_at_ms row) as [a|] eqn:Ha, (x_park_reason row) as [r|] eqn:Hr; try done; intros P2 P3 P4.
  2: { revert P3. destruct (x_unparked_at_ms row), (x_unpark_reason row); try done; intros P3.
       case_decide; wp_step; [by apply grew_refl|done]. }
  wp_step. unfold update_parking.
  match goal with |- wp (if parking_is_one_way row ?n then _ else _) _ _ _ => set (new := n) end.
  assert (parking_is_one_way row new = false) as -> by (unfold parking_is_one_way, new; cbn; by rewrite Ha).
  assert (unpark_evidence_is_one_way row new = false) as ->.
  { unfold unpark_evidence_is_one_way, new. cbn. rewrite Ha. cbn. by rewrite bool_decide_true. }
  do 2 wp_step. destruct (update_entry_ok d s row new Hok Hs) as [Hok' Hl]; [by split| |by split].
  split; cbn; try done. cbn in P4. destruct (x_unparked_at_ms row); cbn in P4; lia.
Qed.

(** The history of an entry always decodes, with as many unparks as parks but for the
    one that holds it. *)
Definition history_of (p : Z * OutboxRow) : OutboxParkHistoryEntry := {|
  he_entry := entry_view p; he_acknowledged := bool_decide (x_acknowledged p.2 = 1);
  he_parked := is_some (x_parked_at_ms p.2); he_park_count := x_park_count p.2;
  he_unpark_count := x_park_count p.2 - (if is_some (x_parked_at_ms p.2) then 1 else 0);
  he_parked_at_ms := x_parked_at_ms p.2; he_park_reason := x_park_reason p.2;
  he_unparked_at_ms := x_unparked_at_ms p.2; he_unpark_reason := x_unpark_reason p.2
|}.

Lemma decode_history s row :
  db_outbox d !! s = Some row -> decode_outbox_park_history_row s row = Ok (history_of (s, row)).
Proof.
  intros Hs. destruct (ok_outbox _ Hok s row Hs) as (_ & [P1 P2 P3 P4] & _).
  unfold decode_outbox_park_history_row, history_of. rewrite (decode_view s row Hs). cbn [mbind result_bind fst snd].
  rewrite decide_False by lia. unfold stamp_ok in *.
  destruct (x_parked_at_ms row) as [a|] eqn:Ha, (x_park_reason row) as [r|]; try done;
    destruct (x_unparked_at_ms row) as [a'|], (x_unpark_reason row) as [r'|]; try done;
    cbn [is_some Bool.eqb negb orb stamp_out_of_bound] in *;
    rewrite ?(bool_decide_false (_ < 0)) by lia; rewrite ?(bool_decide_false (reason_out_of_bound _)) by naive_solver;
    cbn [orb]; rewrite ?decide_False by lia; done.
Qed.

Lemma decode_parked s row :
  db_outbox d !! s = Some row -> is_some (x_parked_at_ms row) = true ->
  exists e, decode_parked_outbox_row s row = Ok e /\ pe_entry e = entry_view (s, row).
Proof.
  intros Hs Hp. destruct (ok_outbox _ Hok s row Hs) as (_ & [P1 P2 P3 P4] & _).
  unfold decode_parked_outbox_row. rewrite (decode_view s row Hs). cbn [mbind result_bind]. unfold stamp_ok in *.
  destruct (x_parked_at_ms row) as [a|], (x_park_reason row) as [r|]; try done.
  rewrite decide_False, decide_False by lia. by eexists.
Qed.

Lemma decode_rows_total {A} (f : Z -> OutboxRow -> result StoreError A) rows :
  Forall (fun p => exists a, f p.1 p.2 = Ok a) rows -> exists l, decode_rows f rows = Ok l /\ length l = length rows.
Proof.
  induction 1 as [|[s row] rows [a Ha] _ (l & Hl & Hlen)]; [by exists []|]. exists (a :: l). cbn in *.
  rewrite Ha. cbn. rewrite Hl. cbn. by rewrite Hlen.
Qed.

Lemma parked_spec limit E : wp (inspect_parked_outbox limit) (fun _ d' => d' = d) E d.
Proof.
  unfold inspect_parked_outbox. do 2 wp_step. edestruct (decode_rows_total decode_parked_outbox_row) as (l & Hl & _).
  - apply Forall_forall. intros [s row] Hin. apply select_outbox_in in Hin as [Hs Hp].
    destruct (decode_parked s row Hs Hp) as (e & He & _). by exists e.
  - rewrite Hl. apply wp_lift; [|done]. done.
Qed.

Lemma history_spec limit E : wp (inspect_outbox_park_history limit) (fun _ d' => d' = d) E d.
Proof.
  unfold inspect_outbox_park_history. do 2 wp_step.
  rewrite (decode_rows_Ok decode_outbox_park_history_row history_of); [by apply wp_lift|].
  apply Forall_forall. intros [s row] Hin. apply select_outbox_in in Hin as [Hs _]. by apply decode_history.
Qed.

Lemma history_entry_spec s E :
  wp (inspect_outbox_park_history_entry s)
    (fun o d' => d' = d /\ o = (fun row => history_of (s, row)) <$> db_outbox d !! s) E d.
Proof.
  unfold inspect_outbox_park_history_entry. do 2 wp_step. destruct (db_outbox d !! s) as [row|] eqn:Hs; wp_step; [|done].
  rewrite (decode_history s row Hs). apply wp_lift; [|done]. by intros ? [= <-].
Qed.
End outbox.

(** ** The other reads *)

(** A read is refused for what was asked, never for what is stored. *)
Definition read_refused (e : StoreError) : Prop :=
  match e with CorruptRecord _ | Sqlite _ => False | _ => True end.

Section reads.
Context `{Sha256} (d : Db) (Hok : db_ok d).

Lemma inspect_spec h :
  wp (inspect h) (fun s d' => d' = d /\ exists m, holds d m /\ s = snapshot_of m /\ handle_of (m_spec m) = h) read_refused d.
Proof.
  unfold inspect. wp_step. apply wp_load_machine; [done| |done]. intros m rev (Hm & _) Hid.
  case_decide as Hg; wp_step; [done|]. split; [done|]. exists m. split; [done|]. split; [done|].
  destruct h as [i g]; unfold handle_of; cbn in *. f_equal; [done|]. by destruct (decide (generation (m_spec m) = g)).
Qed.

Lemma endpoint_spec h : wp (inspect_endpoint_proof h) (fun _ d' => d' = d) read_refused d.
Proof.
  unfold inspect_endpoint_proof. wp_step. apply wp_load_machine; [done| |done]. intros m rev _ _. cbv zeta.
  by case_decide; wp_step.
Qed.

Lemma inspect_call_spec scope key : wp (inspect_idempotent_operation scope key) (fun _ d' => d' = d) read_refused d.
Proof.
  unfold inspect_idempotent_operation. wp_step. apply wp_lift;
    [intros _ _|by unfold validate_idempotency_scope; intros e; destruct (_ && _); intros [= <-]].
  wp_step. by apply wp_load_call; [done|intros; wp_step..].
Qed.

(** An activation is proved by the preparation and the callback the machine was
    dispatched with. *)
Lemma activation_proof_spec h :
  wp (inspect_activation_proof h) (fun a d' => d' = d /\ exists m, holds d m /\ ap_operation a = handle_of (m_spec m) /\
    m_issued m = Some {| ic_callback_id := ap_callback_id a; ic_cancel_epoch := ap_cancel_epoch a |}) read_refused d.
Proof.
  unfold inspect_activation_proof. wp_step. apply wp_load_machine; [done| |done]. intros m rev (Hm & _) Hid.
  case_decide as Hh; [by wp_step|]. assert (handle_of (m_spec m) = h) as Hh' by (by destruct (decide (handle_of (m_spec m) = h))).
  wp_step. apply wp_load_preparation; [done|intros _; wp_step; apply wp_lift; [done|by intros ? [= <-]]|].
  intros p x Hp Hx Hxid Hprep Hiss. assert (x = m) as -> by (apply (holds_inj d); [done|done|congruence]).
  wp_step. apply wp_lift; [|done]. intros ? [= <-]. wp_step.
  apply wp_load_activation; [done|intros _; wp_step; apply wp_lift; [done|by intros ? [= <-]]|].
  intros q y Hact Hq Hy Hyid Hyi. assert (q = p) as -> by congruence.
  assert (y = m) as -> by (apply (holds_inj d); [done|done|congruence]).
  assert (dp_operation p = h /\ dp_cancel_epoch p = 0) as [Hph Hpe] by (rewrite Hprep; done).
  wp_step. apply wp_lift; [|done]. intros ? [= <-].
  cbn [ar_operation ar_preparation_receipt_id ar_callback_id ar_cancel_epoch ar_activation_receipt_id activation_of].
  rewrite decide_False by naive_solver. rewrite Hph, decide_False by (intros Hn; by apply Hn). wp_step. rewrite Hyi.
  apply wp_lift; [|done]. intros ? [= <-]. cbn [ic_callback_id ic_cancel_epoch]. rewrite Hpe, decide_False.
  - wp_step. split; [done|]. exists m. by rewrite <- Hh'.
  - intros [|[|Hr]]; [done..|]. pose proof (machine_ok_registered _ m (proj1 Hm) Hr) as Hreg. by rewrite Hreg in Hyi.
Qed.
End reads.
