(* ===== verification/OpRuns.v ===== *)
(** * OpRuns: guarantees of the operation authority over any history

    Sequences of requests to the store of [OpStore], from an empty database, and what
    holds after each: nothing stored is ever unreadable, every ended operation is
    announced once, calls are answered once and operations are dispatched once. *)

From S2P Require Import Prelude Bytes Txn Operation OpStore OpInv OpSteps OpCalls OpOutbox.

(** ** Histories *)

Inductive store_op :=
  | ORegister (spec : OperationSpec)
  | OPrepare (h : OperationHandle) (callback_id : Z)
  | OActivate (p : OperationDispatchPreparation)
  | ODispatch (h : OperationHandle) (callback_id : Z)
  | OCancel (h : OperationHandle) (receipt : Z)
  | OCancelAt (h : OperationHandle) (epoch receipt : Z)
  | OComplete (t : CallbackTicket) (o : CompletionOutcome)
  | OBegin (scope : IdempotencyScope) (key digest : Z) (spec : OperationSpec)
  | OCompleteCall (t : CallbackTicket) (o : CompletionOutcome) (wire : bytes)
  | OCancelCall (h : OperationHandle) (receipt : Z) (wire : bytes)
  | OAcknowledge (sequence : Z)
  | OPark (sequence : Z) (reason : bytes) (now_ms : Z)
  | OUnpark (sequence : Z) (reason : bytes) (now_ms : Z).

Definition op_answer (o : store_op) : Type :=
  match o with
  | ORegister _ => RegistrationDecision
  | OPrepare _ _ => OperationPrepareDecision
  | OActivate _ => OperationActivationDecision
  | ODispatch _ _ => CallbackTicket
  | OCancel _ _ => OperationSnapshot
  | OCancelAt _ _ _ => CancelRequestDecision
  | OComplete _ _ => CompletionDecision
  | OBegin _ _ _ _ => IdempotencyDecision
  | OCompleteCall _ _ _ | OCancelCall _ _ _ => DurableCallResult
  | OAcknowledge _ => ()
  | OPark _ _ _ => OutboxParkDecision
  | OUnpark _ _ _ => OutboxUnparkDecision
  end.

Inductive store_read :=
  | RInspect (h : OperationHandle)
  | REndpointProof (h : OperationHandle)
  | RActivationProof (h : OperationHandle)
  | RCall (scope : IdempotencyScope) (key : Z)
  | RPending (limit : Z)
  | RParked (limit : Z)
  | RParkHistory (limit : Z)
  | RParkHistoryEntry (sequence : Z).

Definition read_answer (r : store_read) : Type :=
  match r with
  | RInspect _ => OperationSnapshot
  | REndpointProof _ => OperationEndpointProof
  | RActivationProof _ => OperationActivationProof
  | RCall _ _ => option IdempotencyDecision
  | RPending _ => list OutboxEntry
  | RParked _ => list ParkedOutboxEntry
  | RParkHistory _ => list OutboxParkHistoryEntry
  | RParkHistoryEntry _ => option OutboxParkHistoryEntry
  end.

Section runs.
Context `{Sha256}.

Definition op_tx (o : store_op) : tx (op_answer o) :=
  match o with
  | ORegister spec => register spec
  | OPrepare h cb => prepare_dispatch h cb
  | OActivate p => activate_dispatch p
  | ODispatch h cb => dispatch h cb
  | OCancel h r => request_cancel h r
  | OCancelAt h e r => request_cancel_idempotent h e r
  | OComplete t o => complete t o
  | OBegin scope key digest spec => begin_idempotent_operation scope key digest spec
  | OCompleteCall t o wire => complete_idempotent_operation t o wire
  | OCancelCall h r wire => cancel_idempotent_before_dispatch h r wire
  | OAcknowledge s => acknowledge_outbox s
  | OPark s reason now => park_outbox_entry s reason now
  | OUnpark s reason now => unpark_outbox_entry s reason now
  end.

Definition read_tx (r : store_read) : tx (read_answer r) :=
  match r with
  | RInspect h => inspect h
  | REndpointProof h => inspect_endpoint_proof h
  | RActivationProof h => inspect_activation_proof h
  | RCall scope key => inspect_idempotent_operation scope key
  | RPending limit => pending_outbox limit
  | RParked limit => inspect_parked_outbox limit
  | RParkHistory limit => inspect_outbox_park_history limit
  | RParkHistoryEntry s => inspect_outbox_park_history_entry s
  end.

(** Generations are non-zero by their type. *)
Definition op_typed (o : store_op) : Prop :=
  match o with ORegister spec | OBegin _ _ _ spec => spec_ok spec | _ => True end.

(** The derived receipts of a dispatch clash with those of another operation. *)
Definition op_clash (d : Db) (o : store_op) : Prop :=
  match o with
  | OPrepare h cb => preparation_clash d h cb
  | OActivate p => activation_clash d (dp_operation p) (dp_callback_id p)
  | _ => False
  end.

Definition store_step (d : Db) (o : store_op) : Db := (run_tx (op_tx o) d).1.
Definition op_result (d : Db) (o : store_op) : result StoreError (op_answer o) := (run_tx (op_tx o) d).2.
Definition op_run : Db -> list store_op -> Db := foldl store_step.

Lemma op_spec d o :
  db_ok d -> op_typed o -> wp (op_tx o) (fun _ d' => grew d d') (refused d (op_clash d o)) d.
Proof.
  intros Hok Ht. destruct o; cbn [op_tx op_clash];
    (eapply wp_mono; [eauto using register_spec, activate_spec, dispatch_spec, request_cancel_spec,
       request_cancel_idempotent_spec, complete_spec, begin_spec, complete_call_spec, cancel_call_spec, acknowledge_spec,
       park_spec, unpark_spec, prepare_spec| |done]); cbv beta; by intros ? ? [].
Qed.

Lemma op_step_grew d o : db_ok d -> op_typed o -> grew d (store_step d o).
Proof.
  intros Hok Ht. pose proof (run_wp _ _ _ _ (op_spec d o Hok Ht)) as Hrun. unfold store_step.
  destruct (run_tx (op_tx o) d).2; [done|]. destruct Hrun as [_ ->]. by apply grew_refl.
Qed.

Lemma op_run_grew d ops : db_ok d -> Forall op_typed ops -> grew d (op_run d ops).
Proof.
  intros Hok Ht. revert d Hok. induction Ht as [|o ops Ho _ IH]; intros d Hok; [by apply grew_refl|].
  destruct (op_step_grew d o Hok Ho) as [Hok1 Hl1]. destruct (IH _ Hok1) as [Hok2 Hl2]. split; [done|]. by etransitivity.
Qed.

Lemma op_run_ok ops : Forall op_typed ops -> db_ok (op_run fresh ops).
Proof. intros Ht. by apply (op_run_grew fresh ops fresh_ok Ht). Qed.

Lemma read_spec d r : db_ok d -> wp (read_tx r) (fun _ d' => d' = d) read_refused d.
Proof.
  intros Hok. destruct r; cbn [read_tx];
    (eapply wp_mono; [eauto using inspect_spec, endpoint_spec, activation_proof_spec, inspect_call_spec, pending_spec, parked_spec,
       history_spec, history_entry_spec| |done]); cbv beta; intros ? ? Hq; try done; by destruct Hq.
Qed.

(** ** Tickets and calls *)

(** The ticket of a dispatch that is not a replay. *)
Definition ticket_issued (o : store_op) : result StoreError (op_answer o) -> option CallbackTicket :=
  match o with
  | ODispatch _ _ => fun r => match r with Ok t => Some t | Err _ => None end
  | OActivate _ => fun r => match r with Ok (Activated a) => Some (da_ticket a) | _ => None end
  | _ => fun _ => None
  end.

Definition decision_operation (dec : IdempotencyDecision) : OperationHandle :=
  match dec with CallCreated h | PendingOrUncertain h => h | CallCompleted r => cr_operation r end.

Lemma ticket_dispatches d o t :
  db_ok d -> ticket_issued o (op_result d o) = Some t -> dispatches d (store_step d o) t.
Proof.
  intros Hok. unfold op_result, store_step. destruct o; try done; cbn [ticket_issued op_tx].
  - pose proof (run_wp _ _ _ _ (activate_spec d Hok p)) as Hrun. destruct (run_tx _ d).2 as [[a|a]|e]; try done.
    intros [= <-]. by destruct Hrun.
  - pose proof (run_wp _ _ _ _ (dispatch_spec d Hok h callback_id)) as Hrun. destruct (run_tx _ d).2; [|done].
    intros [= <-]. by destruct Hrun.
Qed.

(** What was dispatched stays so. *)
Lemma dispatched_later d d' spec cb m :
  holds d (dispatched spec cb) -> later d d' -> holds d' m -> operation_id (m_spec m) = operation_id spec ->
  m_spec m = spec /\ m_issued m = Some {| ic_callback_id := cb; ic_cancel_epoch := 0 |}.
Proof.
  intros Hd Hl Hm Hid. destruct (lt_operations _ _ Hl _ Hd) as (x & Hx & [Hs Hi _ _]).
  assert (x = m) as -> by (apply (holds_inj d'); [done|done|by rewrite Hid, Hs]). split; [done|]. by apply Hi.
Qed.

(** The row of a call that was answered. *)
Definition answered_by (dec : IdempotencyDecision) (row : CallRow) : Prop :=
  match dec with CallCreated h => ir_operation (record_of row) = h | _ => dec = into_decision (record_of row) end.

Lemma call_recorded d scope key digest spec dec :
  db_ok d -> spec_ok spec -> op_result d (OBegin scope key digest spec) = Ok dec ->
  exists row, db_calls (store_step d (OBegin scope key digest spec)) !! call_key scope key = Some row /\
    c_request_digest row = digest /\ answered_by dec row.
Proof.
  intros Hok Hsp Hr. pose proof (run_wp _ _ _ _ (begin_spec d Hok scope key digest spec Hsp)) as Hrun.
  unfold op_result, store_step in *. cbn [op_tx op_answer] in *. rewrite Hr in Hrun. destruct Hrun as [_ Hdec].
  destruct dec as [h|h|r]; [by destruct Hdec as (_ & _ & _ & Hrow)|..]; by destruct Hdec as [-> Hrow].
Qed.

Lemma call_valid d scope key digest spec dec :
  op_result d (OBegin scope key digest spec) = Ok dec -> validate_idempotency_scope scope = Ok ().
Proof.
  unfold op_result. cbn [op_tx]. unfold run_tx, begin_idempotent_operation, mbind, txn_bind, lift.
  by destruct (validate_idempotency_scope scope) as [[]|].
Qed.

(** A key that is in use is answered from its row. *)
Lemma call_repeated d scope key digest spec row :
  db_ok d -> db_calls d !! call_key scope key = Some row -> validate_idempotency_scope scope = Ok () ->
  run_tx (op_tx (OBegin scope key digest spec)) d =
    (d, if decide (c_request_digest row <> digest) then Err IdempotencyConflict else Ok (into_decision (record_of row))).
Proof.
  intros Hok Hk Hv. destruct (ok_calls _ Hok _ _ Hk) as (m & Hm & Hcall & Hres).
  pose proof (decode_call d row m Hm Hcall Hres) as Hdec. cbn [op_tx]. unfold run_tx, begin_idempotent_operation, lift.
  unfold mbind, txn_bind. rewrite Hv. unfold load_idempotency_record, reading, mbind, txn_bind. rewrite Hk.
  unfold lift. rewrite Hdec. cbn. by case_decide.
Qed.

Lemma record_operation row r : ir_result (record_of row) = Some r -> cr_operation r = ir_operation (record_of row).
Proof. unfold record_of. cbn. destruct (c_receipt_id row), (c_response_wire row); try done. by intros [= <-]. Qed.

Lemma into_decision_operation row : decision_operation (into_decision (record_of row)) = ir_operation (record_of row).
Proof.
  unfold into_decision. destruct (ir_result (record_of row)) as [r|] eqn:Hr; [|done]. by apply record_operation.
Qed.

(** A later row of the call answers as the first did. *)
Lemma recorded_answer dec row row' :
  answered_by dec row -> call_later row row' ->
  let dec' := into_decision (record_of row') in
  decision_operation dec' = decision_operation dec /\ (forall h, dec' <> CallCreated h) /\
  (forall r, dec = CallCompleted r -> dec' = dec).
Proof.
  intros Ha [_ Hop Hgen Hres]. cbv zeta. rewrite into_decision_operation. split; [|split].
  - assert (ir_operation (record_of row') = ir_operation (record_of row)) as -> by (cbn; by rewrite Hop, Hgen).
    destruct dec as [h|h|r]; cbn in Ha; [done|..]; by rewrite Ha, into_decision_operation.
  - unfold into_decision. by destruct (ir_result (record_of row')).
  - intros r ->. cbn in Ha. rewrite Hres; [done|]. unfold into_decision in Ha.
    destruct (ir_result (record_of row)) as [q|] eqn:Hq; [|done]. revert Hq. unfold record_of. cbn.
    by destruct (c_receipt_id row).
Qed.

(** ** Outbox entries *)

Lemma announced_kind m kind cb :
  machine_ok (m_spec m) m -> announcement m = Some (kind, cb) ->
  kind = match cb with Some _ => if decide (m_cancel_epoch m = 0) then WakeFiber else ReconcileEffect | None => WakeFiber end.
Proof.
  intros Hm. destruct Hm as [|r|c|c|c o late]; unfold announcement; cbn; try done; [by intros [= <- <-]|].
  by destruct late; intros [= <- <-].
Qed.

Lemma entry_later_view s r r' : entry_later r r' -> entry_view (s, r') = entry_view (s, r).
Proof.
  intros [E1 E2 E3 E4 E5 E6 E7 E8 _ _]. unfold entry_view. cbn [fst snd]. by rewrite E1, E2, E3, E4, E5, E6, E7, E8.
Qed.

(** The one entry of an ended operation. *)
Lemma announced_entry d m :
  db_ok d -> holds d m -> is_terminal (m_state m) = true ->
  exists s row cb, db_outbox d !! s = Some row /\ x_operation_id row = operation_id (m_spec m) /\
    entry_view (s, row) = entry_of s m (match cb with
      | Some _ => if decide (m_cancel_epoch m = 0) then WakeFiber else ReconcileEffect | None => WakeFiber end) cb /\
    (forall s' row', db_outbox d !! s' = Some row' -> x_operation_id row' = operation_id (m_spec m) -> s' = s).
Proof.
  intros Hok Hm Ht. destruct (ok_announced _ Hok m Hm Ht) as (s & row & Hs & Hid).
  destruct (ok_outbox _ Hok s row Hs) as (_ & _ & x & Hx & Ha).
  assert (x = m) as -> by (apply (holds_inj d); [done|done|]; rewrite <- (an_operation _ _ Ha); exact Hid).
  destruct (an_facts _ _ Ha) as (kind & cb & Hann & _ & _). exists s, row, cb. split; [done|]. split; [done|]. split.
  - rewrite (announces_view s row m kind cb Ha Hann). by rewrite (announced_kind m kind cb (proj1 Hm) Hann).
  - intros s' row' Hs' Hid'. apply (ok_unique _ Hok s' s row' row); [done|done|congruence].
Qed.

Lemma live_not_announced d m s row :
  db_ok d -> holds d m -> is_terminal (m_state m) = false -> db_outbox d !! s = Some row ->
  x_operation_id row <> operation_id (m_spec m).
Proof.
  intros Hok Hm Ht Hs Hid. destruct (ok_outbox _ Hok s row Hs) as (_ & _ & x & Hx & Ha).
  assert (x = m) as -> by (apply (holds_inj d); [done|done|]; rewrite <- (an_operation _ _ Ha); exact Hid).
  pose proof (an_receipt _ _ Ha) as Hr. by destruct (m_state m).
Qed.

(** ** Guarantees *)

(** C30. After any sequence of requests every further request is answered or refused
    for a reason the caller gave: no stored row is ever unreadable or inconsistent, no
    trigger of the schema aborts an update, no uniqueness constraint fails but for a
    collision of derived receipts, and the outbox sequence runs out only at its
    64-bit end. Every read is answered or refused for what was asked, and reads change
    nothing. *)
Theorem authority_never_corrupts ops :
  Forall op_typed ops -> let d := op_run fresh ops in
  (forall o, op_typed o -> match op_result d o with Ok _ => True | Err e => refused d (op_clash d o) e end) /\
  (forall r, (run_tx (read_tx r) d).1 = d /\ match (run_tx (read_tx r) d).2 with Ok _ => True | Err e => read_refused e end).
Proof.
  intros Ht d. assert (db_ok d) as Hok by (by apply op_run_ok). split.
  - intros o Ho. pose proof (run_wp _ _ _ _ (op_spec d o Hok Ho)) as Hrun. unfold op_result.
    destruct (run_tx (op_tx o) d).2; [done|]. apply Hrun.
  - intros r. pose proof (run_wp _ _ _ _ (read_spec d r Hok)) as Hrun.
    by destruct (run_tx (read_tx r) d).2; [|destruct Hrun].
Qed.

(** C13. An operation that has ended has exactly one outbox entry, an operation that
    has not has none. The entry carries the operation, its owner and its final state,
    asks to reconcile the effect exactly when the callback came after a cancellation
    and to wake the owner otherwise, and no later request removes or alters it. *)
Theorem ended_operations_announced_once ops h s :
  Forall op_typed ops -> let d := op_run fresh ops in
  (run_tx (inspect h) d).2 = Ok s ->
  if is_terminal (sn_state s) then
    exists n row cb, db_outbox d !! n = Some row /\
      entry_view (n, row) = {| oe_sequence := n;
        oe_kind := match cb with
                   | Some _ => if decide (sn_cancel_epoch s = 0) then WakeFiber else ReconcileEffect
                   | None => WakeFiber
                   end;
        oe_operation := h; oe_owner_fiber := sn_owner_fiber s; oe_callback_id := cb; oe_state := sn_state s |} /\
      (forall n' row', db_outbox d !! n' = Some row' -> x_operation_id row' = oh_operation_id h -> n' = n) /\
      (forall ops', Forall op_typed ops' -> exists row', db_outbox (op_run d ops') !! n = Some row' /\
         entry_view (n, row') = entry_view (n, row))
  else forall n row, db_outbox d !! n = Some row -> x_operation_id row <> oh_operation_id h.
Proof.
  intros Ht d Hs. assert (db_ok d) as Hok by (by apply op_run_ok).
  pose proof (run_wp _ _ _ _ (inspect_spec d Hok h)) as Hrun. rewrite Hs in Hrun.
  destruct Hrun as (_ & m & Hm & -> & <-). cbn [sn_state snapshot_of]. destruct (is_terminal (m_state m)) eqn:Hterm.
  - destruct (announced_entry d m Hok Hm Hterm) as (n & row & cb & Hn & Hid & Hview & Hone).
    exists n, row, cb. split; [done|]. split; [exact Hview|]. split; [exact Hone|].
    intros ops' Ht'. destruct (op_run_grew d ops' Hok Ht') as [_ Hl].
    destruct (lt_outbox _ _ Hl n row Hn) as (row' & Hn' & He). exists row'. split; [done|]. by apply entry_later_view.
  - intros n row Hn. by eapply live_not_announced.
Qed.


End runs.

(** ** Examples *)

Definition example_operation : OperationSpec := {|
  operation_id := 7; generation := 1; owner_fiber := {| fiber_id := 3; fiber_generation := 1 |};
  cancellation_scope_id := 5; cancellation_generation := 1
|}.

(** Dispatched, cancelled in flight, called back, and its entry parked. *)
Definition example_ops : list store_op := [
  ORegister example_operation;
  ODispatch (handle_of example_operation) 11;
  OCancel (handle_of example_operation) 20;
  OComplete (ticket_of example_operation 11) (OutCompleted 30);
  OPark 1 [111] 1000
].

Lemma example_typed : Forall op_typed example_ops.
Proof. repeat constructor; done. Qed.

Definition example_scope : IdempotencyScope := {| application_id := 1; service := [109]; method := [103] |}.

Lemma authority_never_corrupts_witness :
  let d := op_run (H := checksum_hasher) fresh example_ops in
  read_refused (Operation InvalidGeneration) /\ (run_tx (read_tx (H := checksum_hasher) (RPending 10)) d).1 = d.
Proof. split; [done|]. apply (authority_never_corrupts (H := checksum_hasher) example_ops example_typed). Defined.

Lemma ended_operations_announced_once_witness :
  exists n row, db_outbox (op_run (H := checksum_hasher) fresh example_ops) !! n = Some row /\
    oe_state (entry_view (n, row)) = Completed 30.
Proof.
  destruct (ended_operations_announced_once (H := checksum_hasher) example_ops (handle_of example_operation)
    {| sn_handle := handle_of example_operation; sn_owner_fiber := owner_fiber example_operation; sn_cancel_epoch := 1;
       sn_state := Completed 30 |} example_typed) as (n & row & cb & Hn & Hview & _).
  - vm_compute. reflexivity.
  - exists n, row. by rewrite Hview.
Defined.


