(* ===== verification/FiberMeter.v ===== *)
(** * FiberMeter: the states of an execution fiber and the metering of its time

    The fiber contract of [nlos-runtime] and the per-fiber record of
    [nlos-runtime-tokio]: lifecycle states, and the usage accumulator that charges
    the time of a fiber to one dimension at a time. *)

From S2P Require Import Prelude Operation.

(** ** The runtime contract *)

Inductive FiberState :=
  | FsCreated | FsReady | FsRunning | FsWaitingIo | FsWaitingModel | FsWaitingTool | FsSuspended
  | FsCompleted | FsFailed | FsCancelled.
#[export] Instance fiber_state_eq_dec : EqDecision FiberState.
Proof. solve_decision. Defined.

Inductive FiberExit := ExitCompleted | ExitFailed | ExitCancelled.
#[export] Instance fiber_exit_eq_dec : EqDecision FiberExit.
Proof. solve_decision. Defined.

(** Times are nanoseconds of a monotonic clock. *)
Record FiberSpec := {
  fs_fiber_id : Z;
  fs_fiber_generation : Z;
  fs_agent_instance_id : Z;
  fs_agent_generation : Z;
  fs_process_id : Z;
  fs_process_generation : Z;
  fs_task_attempt_id : option Z;
  fs_cancellation_scope_id : Z;
  fs_cancellation_generation : Z;
  fs_resource_group_id : Z;
  fs_scheduler_domain_id : Z;
  fs_deadline : option Z;
}.

Record ActivationUsage := {
  active_cpu : Z;
  elapsed_wall : Z;
  scheduler_wait : Z;
  external_wait : Z;
  backpressure_wait : Z;
  suspended : Z;
}.

#[export] Instance eta_activation_usage : Eta ActivationUsage := fun x =>
  Build_ActivationUsage (active_cpu x) (elapsed_wall x) (scheduler_wait x) (external_wait x) (backpressure_wait x) (suspended x).
#[export] Instance set_active_cpu : Setter active_cpu. Proof. build_setter. Defined.
#[export] Instance set_elapsed_wall : Setter elapsed_wall. Proof. build_setter. Defined.
#[export] Instance set_scheduler_wait : Setter scheduler_wait. Proof. build_setter. Defined.
#[export] Instance set_external_wait : Setter external_wait. Proof. build_setter. Defined.
#[export] Instance set_backpressure_wait : Setter backpressure_wait. Proof. build_setter. Defined.
#[export] Instance set_suspended : Setter suspended. Proof. build_setter. Defined.

Inductive RuntimeError :=
  | RtDuplicateFiber
  | RtInvalidGeneration
  | RtCancelled
  | RtDeadlineExceeded
  | RtQueueFull
  | RtShuttingDown
  | RtFiberReaped (fiber_id generation : Z).
#[export] Instance runtime_error_eq_dec : EqDecision RuntimeError.
Proof. solve_decision. Defined.

Inductive WakeOutcome := Delivered | FiberGone | NotWaiting.

Inductive BirthRejection :=
  | BirthCapacity (e : RuntimeError)
  | BirthScope (e : RuntimeError)
  | BirthBudget (e : RuntimeError)
  | BirthIdentity (e : RuntimeError)
  | BirthGenerationFence (e : RuntimeError)
  | BirthUnavailable (e : RuntimeError).

Definition rejection_error (r : BirthRejection) : RuntimeError :=
  match r with
  | BirthCapacity e | BirthScope e | BirthBudget e | BirthIdentity e | BirthGenerationFence e | BirthUnavailable e => e
  end.

Definition birth_rejection (e : RuntimeError) : BirthRejection :=
  match e with
  | RtQueueFull => BirthCapacity e
  | RtCancelled => BirthScope e
  | RtDeadlineExceeded => BirthBudget e
  | RtDuplicateFiber | RtFiberReaped _ _ => BirthIdentity e
  | RtInvalidGeneration => BirthGenerationFence e
  | RtShuttingDown => BirthUnavailable e
  end.

Inductive BirthDecision := Admitted_birth (h : FiberHandle) | Rejected_birth (r : BirthRejection).

(** ** The usage accumulator *)

Inductive FiberLifecyclePhase := LpRunning | LpWaitingExternal | LpBackpressureWait | LpSuspended.

Inductive UsagePhase :=
  | UpNone
  | UpRunning (since : Z)
  | UpWaitingExternal (since : Z)
  | UpBackpressureWait (since : Z)
  | UpSuspended (since : Z).

Record UsageAccumulator := { ua_usage : ActivationUsage; ua_phase : UsagePhase }.

Definition saturating_duration_since (now since : Z) : Z := Z.max 0 (now - since).

(** The time since the open phase began, charged to that phase. *)
Definition charge (u : UsageAccumulator) (now : Z) : ActivationUsage :=
  let g := ua_usage u in
  match ua_phase u with
  | UpNone => g
  | UpRunning since => g <| active_cpu := active_cpu g + saturating_duration_since now since |>
  | UpWaitingExternal since => g <| external_wait := external_wait g + saturating_duration_since now since |>
  | UpBackpressureWait since => g <| backpressure_wait := backpressure_wait g + saturating_duration_since now since |>
  | UpSuspended since => g <| suspended := suspended g + saturating_duration_since now since |>
  end.

Definition enter_running (now : Z) (u : UsageAccumulator) : UsageAccumulator :=
  match ua_phase u with
  | UpRunning _ => u
  | _ => {| ua_usage := charge u now; ua_phase := UpRunning now |}
  end.

(** The three ways to leave [Running] open their phase from it or from no phase only. *)
Definition leave_running (phase : UsagePhase) (now : Z) (u : UsageAccumulator) : UsageAccumulator :=
  match ua_phase u with
  | UpRunning _ | UpNone => {| ua_usage := charge u now; ua_phase := phase |}
  | _ => u
  end.

Definition enter_waiting (now : Z) : UsageAccumulator -> UsageAccumulator := leave_running (UpWaitingExternal now) now.
Definition enter_backpressure_wait (now : Z) : UsageAccumulator -> UsageAccumulator := leave_running (UpBackpressureWait now) now.
Definition enter_suspended (now : Z) : UsageAccumulator -> UsageAccumulator := leave_running (UpSuspended now) now.

Definition finalize (now : Z) (u : UsageAccumulator) : UsageAccumulator :=
  {| ua_usage := charge u now; ua_phase := UpNone |}.

Definition usage_snapshot (now : Z) (u : UsageAccumulator) : ActivationUsage := charge u now.

(** ** The record of a fiber *)

Inductive TerminalOutcome := TPending | TFinished (e : FiberExit) | TConsumed.
#[export] Instance terminal_outcome_eq_dec : EqDecision TerminalOutcome.
Proof. solve_decision. Defined.

(** [fr_scope] is the shared scope object, [fr_scope_key] its id and generation. *)
Record FiberRecord := {
  fr_fiber_id : Z;
  fr_generation : Z;
  fr_process_id : Z;
  fr_process_generation : Z;
  fr_scope : nat;
  fr_scope_key : Z * Z;
  fr_state : FiberState;
  fr_lifecycle_phase : FiberLifecyclePhase;
  fr_usage : UsageAccumulator;
  fr_accepted_at : Z;
  fr_terminal : TerminalOutcome;
  fr_reap_on_terminal : bool;
}.

#[export] Instance eta_fiber_record : Eta FiberRecord := fun x =>
  Build_FiberRecord (fr_fiber_id x) (fr_generation x) (fr_process_id x) (fr_process_generation x) (fr_scope x) (fr_scope_key x)
    (fr_state x) (fr_lifecycle_phase x) (fr_usage x) (fr_accepted_at x) (fr_terminal x) (fr_reap_on_terminal x).
#[export] Instance set_fr_state : Setter fr_state. Proof. build_setter. Defined.
#[export] Instance set_fr_lifecycle_phase : Setter fr_lifecycle_phase. Proof. build_setter. Defined.
#[export] Instance set_fr_usage : Setter fr_usage. Proof. build_setter. Defined.
#[export] Instance set_fr_terminal : Setter fr_terminal. Proof. build_setter. Defined.
#[export] Instance set_fr_reap_on_terminal : Setter fr_reap_on_terminal. Proof. build_setter. Defined.

Definition no_usage : ActivationUsage := {|
  active_cpu := 0; elapsed_wall := 0; scheduler_wait := 0; external_wait := 0; backpressure_wait := 0; suspended := 0
|}.

Definition fiber_record_new (fiber_id generation process_id process_generation : Z) (scope : nat) (scope_key : Z * Z)
    (now : Z) : FiberRecord := {|
  fr_fiber_id := fiber_id; fr_generation := generation; fr_process_id := process_id;
  fr_process_generation := process_generation; fr_scope := scope; fr_scope_key := scope_key;
  fr_state := FsReady; fr_lifecycle_phase := LpRunning; fr_usage := {| ua_usage := no_usage; ua_phase := UpNone |};
  fr_accepted_at := now; fr_terminal := TPending; fr_reap_on_terminal := false
|}.

Definition fs_is_terminal (s : FiberState) : bool :=
  match s with FsCompleted | FsFailed | FsCancelled => true | _ => false end.

Definition set_state (state : FiberState) (now : Z) (r : FiberRecord) : FiberRecord :=
  if decide (state = FsRunning /\ (fr_state r = FsWaitingIo \/ fr_state r = FsWaitingModel \/ fr_state r = FsSuspended))
  then r
  else (r <| fr_usage := match state with
                         | FsRunning => enter_running now (fr_usage r)
                         | FsCompleted | FsFailed | FsCancelled => finalize now (fr_usage r)
                         | _ => fr_usage r
                         end |>) <| fr_state := state |>.

Definition set_state_without_metering (state : FiberState) (r : FiberRecord) : FiberRecord := r <| fr_state := state |>.

(** Leaving [Ready] or [Running] for a wait, and coming back from it. *)
Definition begin_phase (enter : Z -> UsageAccumulator -> UsageAccumulator) (phase : FiberLifecyclePhase) (state : FiberState)
    (now : Z) (r : FiberRecord) : FiberRecord :=
  match fr_state r with
  | FsReady | FsRunning =>
      ((r <| fr_usage := enter now (fr_usage r) |>) <| fr_lifecycle_phase := phase |>) <| fr_state := state |>
  | _ => r
  end.

Definition resume_from (state : FiberState) (now : Z) (r : FiberRecord) : FiberRecord :=
  if decide (fr_state r = state)
  then ((r <| fr_usage := enter_running now (fr_usage r) |>) <| fr_lifecycle_phase := LpRunning |>) <| fr_state := FsRunning |>
  else r.

Definition begin_wait : Z -> FiberRecord -> FiberRecord := begin_phase enter_waiting LpWaitingExternal FsWaitingIo.
Definition resume_from_wait : Z -> FiberRecord -> FiberRecord := resume_from FsWaitingIo.
Definition begin_backpressure_wait : Z -> FiberRecord -> FiberRecord :=
  begin_phase enter_backpressure_wait LpBackpressureWait FsWaitingModel.
Definition resume_from_backpressure_wait : Z -> FiberRecord -> FiberRecord := resume_from FsWaitingModel.
Definition begin_suspended : Z -> FiberRecord -> FiberRecord := begin_phase enter_suspended LpSuspended FsSuspended.
Definition resume_from_suspended : Z -> FiberRecord -> FiberRecord := resume_from FsSuspended.

(** [run_fiber] as it begins: the wait for the scheduler is recorded and metering of the
    body starts, unless the fiber is already in a wait. *)
Definition start_task (now : Z) (r : FiberRecord) : FiberRecord :=
  set_state FsRunning now
    (r <| fr_usage := {| ua_usage := ua_usage (fr_usage r) <| scheduler_wait := saturating_duration_since now (fr_accepted_at r) |>;
                         ua_phase := ua_phase (fr_usage r) |} |>).

(** The part of [finish_terminal] that writes the usage and the state. *)
Definition close_usage (state : FiberState) (started_at finished_at : Z) (r : FiberRecord) : FiberRecord :=
  (r <| fr_usage := finalize finished_at
          {| ua_usage := ua_usage (fr_usage r) <| elapsed_wall := saturating_duration_since finished_at started_at |>;
             ua_phase := ua_phase (fr_usage r) |} |>) <| fr_state := state |>.

Definition fiber_exit_from_state (s : FiberState) : FiberExit :=
  match s with FsCompleted => ExitCompleted | FsFailed => ExitFailed | FsCancelled => ExitCancelled | _ => ExitFailed end.

Definition terminal_state (e : FiberExit) : FiberState :=
  match e with ExitCompleted => FsCompleted | ExitFailed => FsFailed | ExitCancelled => FsCancelled end.

(** What the body of the fiber returned; it panicked when it returned nothing. *)
Definition terminal_result (r : option FiberExit) : FiberState :=
  match r with Some e => terminal_state e | None => FsFailed end.

(** ** Histories of one fiber *)

Inductive meter_op :=
  | MBeginWait | MResumeWait
  | MBeginBackpressure | MResumeBackpressure
  | MBeginSuspended | MResumeSuspended
  | MStart
  | MFinish (state : FiberState).

Record metered := { mt_record : FiberRecord; mt_started : option Z; mt_finished : option Z }.

(** The task starts once, finishes once after it has started, and the waits of a fiber
    may be opened and closed at any time. *)
Definition meter_step (m : metered) (p : Z * meter_op) : metered :=
  let '(now, o) := p in
  let on f := {| mt_record := f now (mt_record m); mt_started := mt_started m; mt_finished := mt_finished m |} in
  match o with
  | MBeginWait => on begin_wait
  | MResumeWait => on resume_from_wait
  | MBeginBackpressure => on begin_backpressure_wait
  | MResumeBackpressure => on resume_from_backpressure_wait
  | MBeginSuspended => on begin_suspended
  | MResumeSuspended => on resume_from_suspended
  | MStart =>
      match mt_started m with
      | None => {| mt_record := start_task now (mt_record m); mt_started := Some now; mt_finished := mt_finished m |}
      | Some _ => m
      end
  | MFinish state =>
      match mt_started m, mt_finished m with
      | Some started, None =>
          {| mt_record := close_usage state started now (mt_record m); mt_started := Some started; mt_finished := Some now |}
      | _, _ => m
      end
  end.

Definition meter_run : metered -> list (Z * meter_op) -> metered := foldl meter_step.

(** A fiber as [spawn_fiber] leaves it. *)
Definition spawned (r : FiberRecord) : metered :=
  {| mt_record := set_state_without_metering FsRunning r; mt_started := None; mt_finished := None |}.

(** The first step that opens a phase. *)
Definition opens (o : meter_op) : bool :=
  match o with MBeginWait | MBeginBackpressure | MBeginSuspended | MStart => true | _ => false end.

Fixpoint metering_began (ops : list (Z * meter_op)) : option Z :=
  match ops with [] => None | (t, o) :: ops => if opens o then Some t else metering_began ops end.

Definition charged (g : ActivationUsage) : Z := active_cpu g + external_wait g + backpressure_wait g + suspended g.

Definition phase_since (p : UsagePhase) : option Z :=
  match p with UpNone => None | UpRunning t | UpWaitingExternal t | UpBackpressureWait t | UpSuspended t => Some t end.

Definition usage_nonneg (g : ActivationUsage) : Prop :=
  0 <= active_cpu g /\ 0 <= external_wait g /\ 0 <= backpressure_wait g /\ 0 <= suspended g.

Lemma charge_total u now since : phase_since (ua_phase u) = Some since -> since <= now ->
  charged (charge u now) = charged (ua_usage u) + (now - since).
Proof.
  intros Hs Hle. unfold charged, charge, saturating_duration_since. destruct (ua_phase u); try done; injection Hs as ->; cbn; lia.
Qed.

Lemma charge_nonneg u now : usage_nonneg (ua_usage u) -> usage_nonneg (charge u now).
Proof. unfold usage_nonneg, charge, saturating_duration_since. destruct (ua_phase u); cbn; lia. Qed.

Lemma charge_wall u now : elapsed_wall (charge u now) = elapsed_wall (ua_usage u).
Proof. unfold charge. by destruct (ua_phase u). Qed.

(** Metering has begun at [t0] and the open phase at [since]. *)
Record open_at (t0 last : Z) (u : UsageAccumulator) : Prop := {
  oa_nonneg : usage_nonneg (ua_usage u);
  oa_since : exists since, phase_since (ua_phase u) = Some since /\ t0 <= since <= last /\ charged (ua_usage u) = since - t0;
}.

Lemma open_enter t0 last now u phase :
  open_at t0 last u -> last <= now -> phase_since phase = Some now ->
  open_at t0 now {| ua_usage := charge u now; ua_phase := phase |}.
Proof.
  intros [Hn (since & Hs & Hr & Hc)] Hle Hp. split; [by apply charge_nonneg|]. exists now. split; [done|]. split; [lia|].
  cbn. rewrite (charge_total u now since) by (done || lia). lia.
Qed.

Lemma open_keep t0 last now u : open_at t0 last u -> last <= now -> open_at t0 now u.
Proof. intros [Hn (since & Hs & Hr & Hc)] Hle. split; [done|]. exists since. split; [done|]. split; [lia|done]. Qed.

Lemma open_running t0 last now u : open_at t0 last u -> last <= now -> open_at t0 now (enter_running now u).
Proof.
  intros Ho Hle. unfold enter_running.
  destruct (ua_phase u) eqn:Hp; solve [by eapply open_enter|by eapply open_keep].
Qed.

Lemma open_leave t0 last now u phase :
  open_at t0 last u -> last <= now -> phase_since phase = Some now -> open_at t0 now (leave_running phase now u).
Proof.
  intros Ho Hle Hs. unfold leave_running. destruct (ua_phase u) eqn:Hp; solve [by eapply open_enter|by eapply open_keep].
Qed.

(** What a history of a fiber leaves, [began] the time metering began. *)
Record meter_ok (began : option Z) (last : Z) (m : metered) : Prop := {
  mo_last t : mt_started m = Some t \/ mt_finished m = Some t -> t <= last;
  mo_finished t : mt_finished m = Some t -> exists t0, began = Some t0 /\ t0 <= t /\
    (exists s, mt_started m = Some s /\ elapsed_wall (ua_usage (fr_usage (mt_record m))) = t - s) /\
    ua_phase (fr_usage (mt_record m)) = UpNone /\ charged (ua_usage (fr_usage (mt_record m))) = t - t0 /\
    usage_nonneg (ua_usage (fr_usage (mt_record m))) /\ fs_is_terminal (fr_state (mt_record m)) = true;
  mo_open : mt_finished m = None -> match began with
    | Some t0 => open_at t0 last (fr_usage (mt_record m)) /\ fs_is_terminal (fr_state (mt_record m)) = false
    | None => fr_usage (mt_record m) = {| ua_usage := no_usage; ua_phase := UpNone |} /\
        fr_state (mt_record m) = FsRunning /\ mt_started m = None
    end;
}.

(** The body ends in a terminal state. *)
Definition op_ends (o : meter_op) : Prop := match o with MFinish s => fs_is_terminal s = true | _ => True end.

Definition began_after (began : option Z) (now : Z) (o : meter_op) : option Z :=
  match began with Some t => Some t | None => if opens o then Some now else None end.

(** A step that only rewrites the usage and the state of the record. *)
Lemma meter_ok_rewrite began began' last now m r :
  meter_ok began last m -> last <= now ->
  (mt_finished m <> None -> r = mt_record m /\ began' = began) ->
  (mt_finished m = None -> match began' with
     | Some t0 => open_at t0 now (fr_usage r) /\ fs_is_terminal (fr_state r) = false
     | None => fr_usage r = {| ua_usage := no_usage; ua_phase := UpNone |} /\ fr_state r = FsRunning /\ mt_started m = None
     end) ->
  meter_ok began' now {| mt_record := r; mt_started := mt_started m; mt_finished := mt_finished m |}.
Proof.
  intros [Hl Hf Ho] Hle Hsame Hopen. split; cbn; [|intros t Ht|done].
  - intros t Ht. specialize (Hl t Ht). lia.
  - destruct Hsame as [-> ->]; [congruence|]. by apply Hf.
Qed.

Lemma meter_begin began last now m enter phase state p o :
  meter_ok began last m -> last <= now -> fs_is_terminal state = false -> opens o = true ->
  (forall u, enter now u = leave_running p now u) -> phase_since p = Some now ->
  meter_ok (began_after began now o) now
    {| mt_record := begin_phase enter phase state now (mt_record m); mt_started := mt_started m; mt_finished := mt_finished m |}.
Proof.
  intros Hok Hle Hst Hop Hent Hp. pose proof Hok as [Hl Hf Ho]. apply (meter_ok_rewrite began _ last); [done|done| |].
  - intros Hfin. destruct (mt_finished m) as [t|]; [|done]. destruct (Hf t eq_refl) as (t0 & -> & _ & _ & _ & _ & _ & Hterm).
    split; [|done]. unfold begin_phase. by destruct (fr_state (mt_record m)).
  - intros Hfin. specialize (Ho Hfin). unfold began_after. rewrite Hop. destruct began as [t0|].
    + destruct Ho as [Ho Hs]. unfold begin_phase. destruct (fr_state (mt_record m)) eqn:Hst'; try done; cbn;
        rewrite ?Hst', ?Hent; (split; [|done]); eauto using open_leave, open_keep.
    + destruct Ho as (Hu & Hs & _). unfold begin_phase. rewrite Hs. cbn. rewrite Hent, Hu. split; [|done].
      split; [done|]. exists now. split; [done|]. split; [lia|]. unfold charged; cbn. lia.
Qed.

Lemma meter_resume began last now m state o :
  meter_ok began last m -> last <= now -> state <> FsRunning -> fs_is_terminal state = false -> opens o = false ->
  meter_ok (began_after began now o) now
    {| mt_record := resume_from state now (mt_record m); mt_started := mt_started m; mt_finished := mt_finished m |}.
Proof.
  intros Hok Hle Hrun Hst Hop. pose proof Hok as [Hl Hf Ho]. unfold began_after. rewrite Hop.
  apply (meter_ok_rewrite began _ last); [done|done| |]; unfold resume_from.
  - intros Hfin. destruct (mt_finished m) as [t|]; [|done]. destruct (Hf t eq_refl) as (t0 & -> & _ & _ & _ & _ & _ & Hterm).
    split; [|done]. rewrite decide_False; [done|]. intros <-. by rewrite Hst in Hterm.
  - intros Hfin. specialize (Ho Hfin). destruct began as [t0|].
    + destruct Ho as [Ho Hs]. case_decide; cbn; split; eauto using open_running, open_keep.
    + destruct Ho as (Hu & Hs & Hst'). rewrite decide_False by (by rewrite Hs; intros <-). done.
Qed.

Lemma meter_start began last now m :
  meter_ok began last m -> last <= now -> mt_started m = None ->
  meter_ok (began_after began now MStart) now
    {| mt_record := start_task now (mt_record m); mt_started := Some now; mt_finished := mt_finished m |}.
Proof.
  intros Hok Hle Hst. pose proof Hok as [Hl Hf Ho].
  assert (mt_finished m = None) as Hfin.
  { destruct (mt_finished m) as [t|]; [|done]. destruct (Hf t eq_refl) as (_ & _ & _ & (x & Hx & _) & _). congruence. }
  specialize (Ho Hfin). split; cbn; rewrite Hfin; try done; [intros t [[= <-]|Ht]; [lia|done]|]. intros _. unfold began_after. cbn [opens].
  set (u := {| ua_usage := ua_usage (fr_usage (mt_record m))
                 <| scheduler_wait := saturating_duration_since now (fr_accepted_at (mt_record m)) |>;
               ua_phase := ua_phase (fr_usage (mt_record m)) |}).
  destruct began as [t0|].
  - destruct Ho as [Ho Hs]. assert (open_at t0 last u) as Hu by (destruct Ho as [Hn Hsince]; by split).
    unfold start_task, set_state. case_decide; cbn; (split; [|done]); eauto using open_running, open_keep.
  - destruct Ho as (Hu & Hs & _). unfold start_task, set_state. rewrite decide_False by (cbn; rewrite Hs; naive_solver).
    cbn. rewrite Hu. split; [|done]. split; [done|]. exists now. split; [done|]. split; [lia|]. unfold charged; cbn. lia.
Qed.

Lemma meter_finish began last now m started state :
  meter_ok began last m -> last <= now -> mt_started m = Some started -> mt_finished m = None -> fs_is_terminal state = true ->
  meter_ok began now
    {| mt_record := close_usage state started now (mt_record m); mt_started := Some started; mt_finished := Some now |}.
Proof.
  intros Hok Hle Hst Hfin Hterm. pose proof Hok as [Hl Hf Ho]. specialize (Ho Hfin).
  destruct began as [t0|]; [|by rewrite Hst in Ho; destruct Ho as (_ & _ & Hn)]. destruct Ho as [[Hn (since & Hs & Hr & Hc)] _].
  set (u := {| ua_usage := ua_usage (fr_usage (mt_record m)) <| elapsed_wall := saturating_duration_since now started |>;
               ua_phase := ua_phase (fr_usage (mt_record m)) |}).
  split; cbn; [|intros t [= <-]|done].
  - intros t [[= <-]|[= <-]]; [|lia]. specialize (Hl started (or_introl Hst)). lia.
  - exists t0. split; [done|]. split; [lia|]. split.
    { exists started. split; [done|]. specialize (Hl started (or_introl Hst)). rewrite (charge_wall u). cbn.
      unfold saturating_duration_since. lia. }
    split; [done|]. split; [|split; [by apply (charge_nonneg u)|done]]. change (charged (charge u now) = now - t0).
    rewrite (charge_total u now since) by (done || lia). change (charged (ua_usage u)) with (charged (ua_usage (fr_usage (mt_record m)))). lia.
Qed.

Lemma meter_step_ok began last m now o :
  meter_ok began last m -> last <= now -> op_ends o -> meter_ok (began_after began now o) now (meter_step m (now, o)).
Proof.
  intros Hok Hle He.
  assert (meter_ok (began_after began now MResumeWait) now m) as Hkeep.
  { enough (meter_ok (began_after began now MResumeWait) now
      {| mt_record := mt_record m; mt_started := mt_started m; mt_finished := mt_finished m |}) as Hm by (by destruct m).
    pose proof Hok as [Hl Hf Ho]. apply (meter_ok_rewrite began _ last); [done|done|by destruct began|].
    intros Hfin. specialize (Ho Hfin). destruct began; [|done]. destruct Ho. split; eauto using open_keep. }
  destruct o; cbn [meter_step].
  - by apply (meter_begin began last now m enter_waiting _ _ (UpWaitingExternal now)).
  - by apply meter_resume with last.
  - by apply (meter_begin began last now m enter_backpressure_wait _ _ (UpBackpressureWait now)).
  - by apply meter_resume with last.
  - by apply (meter_begin began last now m enter_suspended _ _ (UpSuspended now)).
  - by apply meter_resume with last.
  - destruct (mt_started m) as [t|] eqn:Hst; [|by apply meter_start with last].
    destruct began as [t0|]; [done|]. destruct (mt_finished m) as [f|] eqn:Hfin.
    + by destruct (mo_finished _ _ _ Hok f Hfin) as (t0 & ? & _).
    + pose proof (mo_open _ _ _ Hok Hfin) as (_ & _ & Hn). congruence.
  - assert (began_after began now (MFinish state) = began_after began now MResumeWait) as -> by done.
    destruct (mt_started m) as [t|] eqn:Hst; [|done]. destruct (mt_finished m) as [f|] eqn:Hfin; [done|].
    assert (began_after began now MResumeWait = began) as -> by (by destruct began). by apply meter_finish with last.
Qed.

(** The times of a history do not decrease. *)
Fixpoint timed (last : Z) (ops : list (Z * meter_op)) (now : Z) : Prop :=
  match ops with [] => last <= now | (t, o) :: ops => last <= t /\ op_ends o /\ timed t ops now end.

Lemma meter_run_ok began last m ops now :
  meter_ok began last m -> timed last ops now ->
  exists last', last' <= now /\
    meter_ok (match began with Some t => Some t | None => metering_began ops end) last' (meter_run m ops).
Proof.
  revert began last m. induction ops as [|[t o] ops IH]; intros began last m Hok Ht.
  - exists last. split; [done|]. by destruct began.
  - destruct Ht as (Hle & He & Ht). destruct (IH _ t _ (meter_step_ok began last m t o Hok Hle He) Ht) as (l & Hl & Hm).
    exists l. split; [done|]. cbn [meter_run foldl metering_began]. unfold began_after in Hm. by destruct began; [|destruct (opens o)].
Qed.

Lemma spawned_ok id g p pg scope key t : meter_ok None t (spawned (fiber_record_new id g p pg scope key t)).
Proof. split; cbn; [naive_solver|done|done]. Qed.

Section meter.
Context (id g p pg : Z) (scope : nat) (key : Z * Z) (accepted : Z).

Definition metered_run (ops : list (Z * meter_op)) : metered :=
  meter_run (spawned (fiber_record_new id g p pg scope key accepted)) ops.

(** Every instant of the life of a fiber is charged to exactly one of the
    dimensions running, external wait, backpressure and suspended: whatever waits are
    opened and closed, before or after the body starts, the charges are the time from
    the first opened phase to the end of the body, or to now while it runs. No
    dimension is negative, and when no wait was opened before the body started the
    active time of an ended body is at most its elapsed time. *)
Theorem time_charged_once ops now :
  timed accepted ops now ->
  let m := metered_run ops in
  let u := usage_snapshot now (fr_usage (mt_record m)) in
  usage_nonneg u /\
  charged u = match metering_began ops, mt_finished m with
              | Some t0, Some t => t - t0
              | Some t0, None => now - t0
              | None, _ => 0
              end /\
  (is_Some (mt_finished m) -> metering_began ops = mt_started m -> active_cpu u <= elapsed_wall u).
Proof.
  intros Ht m u. destruct (meter_run_ok None accepted _ ops now (spawned_ok id g p pg scope key accepted) Ht) as (l & Hl & Hok).
  fold (metered_run ops) in Hok. fold m in Hok. destruct (mt_finished m) as [t|] eqn:Hf.
  - destruct (mo_finished _ _ _ Hok t Hf) as (t0 & Hb & Hle & (s & Hs & Hw) & Hp & Hc & Hn & _). rewrite Hb.
    assert (u = ua_usage (fr_usage (mt_record m))) as -> by (unfold u, usage_snapshot, charge; by rewrite Hp).
    split; [done|]. split; [done|]. intros _ Heq. rewrite Hs in Heq. injection Heq as <-. rewrite Hw.
    unfold charged, usage_nonneg in *. lia.
  - pose proof (mo_open _ _ _ Hok Hf) as Ho. destruct (metering_began ops) as [t0|].
    + destruct Ho as [[Hn (since & Hs & Hr & Hc)] _]. split; [by apply charge_nonneg|]. split; [|by intros []].
      unfold u, usage_snapshot. rewrite (charge_total _ now since) by (done || lia). lia.
    + destruct Ho as (Hu & _ & _). unfold u, usage_snapshot. rewrite Hu. split; [done|]. split; [done|]. by intros [].
Qed.
End meter.

(** A fiber suspended at 10 and resumed at 20, before its body starts at 100. *)
Definition early_resume : list (Z * meter_op) :=
  [(10, MBeginSuspended); (20, MResumeSuspended); (100, MStart); (110, MFinish FsCompleted)].

Lemma time_charged_once_witness :
  charged (usage_snapshot 120 (fr_usage (mt_record (metered_run 1 1 1 1 0 (1, 1) 5 early_resume)))) = 100.
Proof.
  destruct (time_charged_once 1 1 1 1 0 (1, 1) 5 early_resume 120) as (_ & Hc & _); [cbn; lia|]. exact Hc.
Defined.

(** The active time of an ended fiber can exceed its elapsed time: a fiber that is
    suspended and resumed through the adapter before its body is first polled is
    charged as running from the resumption, its elapsed time starts at the poll. *)
Theorem active_time_exceeds_wall :
  let u := ua_usage (fr_usage (mt_record (metered_run 1 1 1 1 0 (1, 1) 5 early_resume))) in
  active_cpu u = 90 /\ elapsed_wall u = 10.
Proof. split; reflexivity. Qed.
