(* ===== verification/Fibers.v ===== *)
(** * Fibers: the registries of the runtime adapter

    [nlos-runtime-tokio]: the fiber registry with its tombstones, the reference-counted
    cancellation scopes, admission, the life of a task, and the wait registry that
    delivers the wakes of operations. Objects the code shares behind an [Arc] live in
    tables of the state and are named by their key. *)

From S2P Require Import Prelude Operation FiberMeter.

(** ** State *)

(** Ids come with their generation. *)
Record FiberRegistry := {
  fg_fibers : gmap Z nat;
  fg_tombstones : list (Z * Z);
  fg_tombstone_capacity : nat;
}.

Record ScopeEntry := { se_scope : nat; se_refs : Z }.

Record ScopeRegistry := {
  sg_scopes : gmap (Z * Z) ScopeEntry;
  sg_by_id : gmap Z (list Z);
  sg_tombstones : list (Z * Z);
  sg_tombstone_capacity : nat;
}.

(** The fiber and its generation, the operation and its generation. *)
Definition WaitKey : Type := Z * Z * (Z * Z).

Definition wait_key (h : FiberHandle) (operation_id operation_generation : Z) : WaitKey :=
  (fiber_id h, fiber_generation h, (operation_id, operation_generation)).

Definition for_fiber (k : WaitKey) (id generation : Z) : bool := bool_decide (k.1 = (id, generation)).

Inductive WaitEntry := PendingWait (sender : nat) | BufferedWake.

(** A oneshot channel: whether the value was sent, whether the sender was dropped
    without sending, whether the receiver is there. *)
Record Oneshot := { oc_sent : bool; oc_closed : bool; oc_receiver : bool }.

(** A spawned task that has not ended, and when it was first polled. *)
Record FiberTask := { tk_deadline : option Z; tk_started : option Z }.

Record Inner := {
  in_fibers : FiberRegistry;
  in_scopes : ScopeRegistry;
  in_waits : gmap WaitKey WaitEntry;
  in_shutdown : bool;
  in_admission : Z;
  in_records : gmap nat FiberRecord;
  in_cancelled : gmap nat bool;
  in_channels : gmap nat Oneshot;
  in_tasks : gmap nat FiberTask;
  in_next : nat;
}.

#[export] Instance eta_fiber_registry : Eta FiberRegistry := fun x =>
  Build_FiberRegistry (fg_fibers x) (fg_tombstones x) (fg_tombstone_capacity x).
#[export] Instance set_fg_fibers : Setter fg_fibers. Proof. build_setter. Defined.
#[export] Instance set_fg_tombstones : Setter fg_tombstones. Proof. build_setter. Defined.

#[export] Instance eta_scope_registry : Eta ScopeRegistry := fun x =>
  Build_ScopeRegistry (sg_scopes x) (sg_by_id x) (sg_tombstones x) (sg_tombstone_capacity x).
#[export] Instance set_sg_scopes : Setter sg_scopes. Proof. build_setter. Defined.
#[export] Instance set_sg_by_id : Setter sg_by_id. Proof. build_setter. Defined.
#[export] Instance set_sg_tombstones : Setter sg_tombstones. Proof. build_setter. Defined.

#[export] Instance eta_inner : Eta Inner := fun x =>
  Build_Inner (in_fibers x) (in_scopes x) (in_waits x) (in_shutdown x) (in_admission x) (in_records x) (in_cancelled x)
    (in_channels x) (in_tasks x) (in_next x).
#[export] Instance set_in_fibers : Setter in_fibers. Proof. build_setter. Defined.
#[export] Instance set_in_scopes : Setter in_scopes. Proof. build_setter. Defined.
#[export] Instance set_in_waits : Setter in_waits. Proof. build_setter. Defined.
#[export] Instance set_in_shutdown : Setter in_shutdown. Proof. build_setter. Defined.
#[export] Instance set_in_admission : Setter in_admission. Proof. build_setter. Defined.
#[export] Instance set_in_records : Setter in_records. Proof. build_setter. Defined.
#[export] Instance set_in_cancelled : Setter in_cancelled. Proof. build_setter. Defined.
#[export] Instance set_in_channels : Setter in_channels. Proof. build_setter. Defined.
#[export] Instance set_in_tasks : Setter in_tasks. Proof. build_setter. Defined.
#[export] Instance set_in_next : Setter in_next. Proof. build_setter. Defined.

Record TokioRuntimeConfig := {
  max_live_fibers : Z;
  tombstone_capacity : nat;
  scope_tombstone_capacity : nat;
}.

Definition inner_new (config : TokioRuntimeConfig) : Inner := {|
  in_fibers := {| fg_fibers := ∅; fg_tombstones := []; fg_tombstone_capacity := tombstone_capacity config |};
  in_scopes := {| sg_scopes := ∅; sg_by_id := ∅; sg_tombstones := []; sg_tombstone_capacity := scope_tombstone_capacity config |};
  in_waits := ∅; in_shutdown := false; in_admission := max_live_fibers config; in_records := ∅;
  in_cancelled := ∅; in_channels := ∅; in_tasks := ∅; in_next := 0
|}.

Definition adapter_new (config : TokioRuntimeConfig) : result RuntimeError Inner :=
  if decide (max_live_fibers config = 0) then Err RtQueueFull else Ok (inner_new config).

(** ** The fiber registry *)

(** The oldest entries make room; a ring without room keeps nothing. *)
Definition push_tombstone (capacity : nat) (t : Z * Z) (ring : list (Z * Z)) : list (Z * Z) :=
  if decide (capacity = 0%nat) then ring else drop (length ring - (capacity - 1)) ring ++ [t].

Definition tombstoned (g : FiberRegistry) (id generation : Z) : bool := bool_decide ((id, generation) ∈ fg_tombstones g).

Definition reap (g : FiberRegistry) (id generation : Z) : FiberRegistry * bool :=
  match fg_fibers g !! id with
  | None => (g, false)
  | Some _ =>
      (g <| fg_fibers := delete id (fg_fibers g) |>
         <| fg_tombstones := push_tombstone (fg_tombstone_capacity g) (id, generation) (fg_tombstones g) |>, true)
  end.

Definition record_at (i : Inner) (loc : nat) : option FiberRecord := in_records i !! loc.

Definition resolve (i : Inner) (h : FiberHandle) : result RuntimeError nat :=
  match fg_fibers (in_fibers i) !! fiber_id h with
  | Some loc =>
      match record_at i loc with
      | Some r => if decide (fr_generation r <> fiber_generation h) then Err RtInvalidGeneration else Ok loc
      | None => Err RtInvalidGeneration
      end
  | None =>
      if tombstoned (in_fibers i) (fiber_id h) (fiber_generation h)
      then Err (RtFiberReaped (fiber_id h) (fiber_generation h)) else Err RtInvalidGeneration
  end.

Definition update_record (loc : nat) (f : FiberRecord -> FiberRecord) (i : Inner) : Inner :=
  i <| in_records := alter f loc (in_records i) |>.

(** ** Cancellation scopes *)

Definition is_cancelled (i : Inner) (scope : nat) : bool := default false (in_cancelled i !! scope).

Definition scope_fenced (g : ScopeRegistry) (key : Z * Z) : bool :=
  match sg_by_id g !! key.1 with
  | Some generations => negb (bool_decide (key.2 ∈ generations))
  | None => bool_decide (Exists (fun t => t.1 = key.1 /\ t.2 <> key.2) (sg_tombstones g))
  end.

Definition index_scope (key : Z * Z) (by_id : gmap Z (list Z)) : gmap Z (list Z) :=
  let generations := default [] (by_id !! key.1) in
  <[key.1 := if bool_decide (key.2 ∈ generations) then generations else generations ++ [key.2]]> by_id.

Definition scope_acquire (key : Z * Z) (i : Inner) : Inner * result RuntimeError nat :=
  let g := in_scopes i in
  if scope_fenced g key then (i, Err RtInvalidGeneration) else
  match sg_scopes g !! key with
  | Some e =>
      (i <| in_scopes := g <| sg_scopes := <[key := {| se_scope := se_scope e; se_refs := se_refs e + 1 |}]> (sg_scopes g) |>
                           <| sg_by_id := index_scope key (sg_by_id g) |> |>, Ok (se_scope e))
  | None =>
      let scope := in_next i in
      (i <| in_scopes := g <| sg_scopes := <[key := {| se_scope := scope; se_refs := 1 |}]> (sg_scopes g) |>
                           <| sg_by_id := index_scope key (sg_by_id g) |> |>
         <| in_cancelled := <[scope := false]> (in_cancelled i) |> <| in_next := S scope |>, Ok scope)
  end.

Definition unindex_scope (key : Z * Z) (by_id : gmap Z (list Z)) : gmap Z (list Z) :=
  match by_id !! key.1 with
  | Some generations =>
      let rest := filter (fun g => g <> key.2) generations in
      if decide (rest = []) then delete key.1 by_id else <[key.1 := rest]> by_id
  | None => by_id
  end.

Definition scope_release (key : Z * Z) (g : ScopeRegistry) : ScopeRegistry :=
  match sg_scopes g !! key with
  | None => g
  | Some e =>
      let refs := Z.max 0 (se_refs e - 1) in
      if decide (refs = 0)
      then g <| sg_scopes := delete key (sg_scopes g) |> <| sg_by_id := unindex_scope key (sg_by_id g) |>
             <| sg_tombstones := push_tombstone (sg_tombstone_capacity g) key (sg_tombstones g) |>
      else g <| sg_scopes := <[key := {| se_scope := se_scope e; se_refs := refs |}]> (sg_scopes g) |>
  end.

Definition release_scope (key : Z * Z) (i : Inner) : Inner := i <| in_scopes := scope_release key (in_scopes i) |>.

Definition cancel_scope (id generation : Z) (i : Inner) : Inner * result RuntimeError () :=
  match sg_scopes (in_scopes i) !! (id, generation) with
  | None => (i, Err RtInvalidGeneration)
  | Some e => (i <| in_cancelled := <[se_scope e := true]> (in_cancelled i) |>, Ok ())
  end.

Definition reap_fiber (r : FiberRecord) (i : Inner) : Inner :=
  let '(g, reaped) := reap (in_fibers i) (fr_fiber_id r) (fr_generation r) in
  let i := i <| in_fibers := g |> in
  if reaped then release_scope (fr_scope_key r) i else i.

(** ** Admission *)

Definition deadline_passed (deadline : option Z) (now : Z) : bool :=
  match deadline with Some t => bool_decide (t <= now) | None => false end.

Definition spawn_fiber (spec : FiberSpec) (now : Z) (i : Inner) : Inner * result RuntimeError FiberHandle :=
  if in_shutdown i then (i, Err RtShuttingDown) else
  if deadline_passed (fs_deadline spec) now then (i, Err RtDeadlineExceeded) else
  if decide (in_admission i <= 0) then (i, Err RtQueueFull) else
  let key := (fs_cancellation_scope_id spec, fs_cancellation_generation spec) in
  match scope_acquire key i with
  | (_, Err e) => (i, Err e)
  | (i1, Ok scope) =>
      if is_cancelled i1 scope then (release_scope key i1, Err RtCancelled) else
      match fg_fibers (in_fibers i1) !! fs_fiber_id spec with
      | Some loc =>
          (release_scope key i1,
           Err (if decide (fr_generation <$> record_at i1 loc = Some (fs_fiber_generation spec))
                then RtDuplicateFiber else RtInvalidGeneration))
      | None =>
          if tombstoned (in_fibers i1) (fs_fiber_id spec) (fs_fiber_generation spec)
          then (release_scope key i1, Err RtDuplicateFiber) else
          let loc := in_next i1 in
          let record := fiber_record_new (fs_fiber_id spec) (fs_fiber_generation spec) (fs_process_id spec)
                          (fs_process_generation spec) scope key now in
          (i1 <| in_fibers := in_fibers i1 <| fg_fibers := <[fs_fiber_id spec := loc]> (fg_fibers (in_fibers i1)) |> |>
              <| in_records := <[loc := set_state_without_metering FsRunning record]> (in_records i1) |>
              <| in_tasks := <[loc := {| tk_deadline := fs_deadline spec; tk_started := None |}]> (in_tasks i1) |>
              <| in_admission := in_admission i1 - 1 |> <| in_next := S loc |>,
           Ok {| fiber_id := fs_fiber_id spec; fiber_generation := fs_fiber_generation spec |})
      end
  end.

Definition birth_fiber (spec : FiberSpec) (now : Z) (i : Inner) : Inner * BirthDecision :=
  match spawn_fiber spec now i with
  | (i, Ok h) => (i, Admitted_birth h)
  | (i, Err e) => (i, Rejected_birth (birth_rejection e))
  end.

(** ** The wait registry *)

Definition close_channel (c : Oneshot) : Oneshot := {| oc_sent := oc_sent c; oc_closed := true; oc_receiver := oc_receiver c |}.

(** A pending entry that is dropped closes its channel. *)
Definition drop_entry (e : WaitEntry) (channels : gmap nat Oneshot) : gmap nat Oneshot :=
  match e with PendingWait c => alter close_channel c channels | BufferedWake => channels end.

(** [retain]: the entries that do not satisfy [keep] are dropped. *)
Definition drop_waits (keep : WaitKey -> bool) (i : Inner) : Inner :=
  i <| in_waits := filter (fun p => keep p.1 = true) (in_waits i) |>
    <| in_channels := foldr (fun p cs => if keep p.1 then cs else drop_entry p.2 cs) (in_channels i) (map_to_list (in_waits i)) |>.

(** The future of a wait: resolved already, or driven by a channel and a scope. *)
Inductive WaitOutcome := Woken | WaitCancelled.
#[export] Instance wait_outcome_eq_dec : EqDecision WaitOutcome.
Proof. solve_decision. Defined.

Inductive OperationWait := ReadyWait (o : WaitOutcome) | ChannelWait (key : WaitKey) (channel scope : nat).

Definition record_terminal (i : Inner) (loc : nat) : bool :=
  match record_at i loc with Some r => fs_is_terminal (fr_state r) | None => false end.

Definition receiver_there (i : Inner) (c : nat) : bool :=
  match in_channels i !! c with Some o => oc_receiver o | None => false end.

(** The critical section of [wake] on the record at [loc]. *)
Definition wake_deliver (loc : nat) (key : WaitKey) (now : Z) (i : Inner) : Inner * result RuntimeError WakeOutcome :=
  if in_shutdown i then (i, Err RtShuttingDown) else
  if record_terminal i loc then (i, Ok NotWaiting) else
  match in_waits i !! key with
  | Some (PendingWait c) =>
      let i := if receiver_there i c
               then i <| in_waits := delete key (in_waits i) |>
                      <| in_channels := alter (fun o => {| oc_sent := true; oc_closed := oc_closed o; oc_receiver := oc_receiver o |}) c
                                          (in_channels i) |>
               else i <| in_waits := <[key := BufferedWake]> (in_waits i) |>
                      <| in_channels := alter close_channel c (in_channels i) |> in
      (update_record loc (resume_from_wait now) i, Ok Delivered)
  | Some BufferedWake => (i, Ok Delivered)
  | None => (i <| in_waits := <[key := BufferedWake]> (in_waits i) |>, Ok Delivered)
  end.

(** What [wake] does before it takes the lock: the record, or the answer. *)
Definition wake_lookup (h : FiberHandle) (i : Inner) : result (result RuntimeError WakeOutcome) nat :=
  if in_shutdown i then Err (Err RtShuttingDown) else
  match fg_fibers (in_fibers i) !! fiber_id h with
  | Some loc =>
      match record_at i loc with
      | Some r => if decide (fr_generation r = fiber_generation h) then Ok loc else Err (Ok FiberGone)
      | None => Err (Ok FiberGone)
      end
  | None => Err (Ok FiberGone)
  end.

Definition wake (h : FiberHandle) (operation_id operation_generation now : Z) (i : Inner) : Inner * result RuntimeError WakeOutcome :=
  match wake_lookup h i with
  | Err answer => (i, answer)
  | Ok loc => wake_deliver loc (wait_key h operation_id operation_generation) now i
  end.

(** The critical section of [wait_for_operation] on the record at [loc]. *)
Definition wait_register (loc : nat) (key : WaitKey) (now : Z) (i : Inner) : Inner * OperationWait :=
  if in_shutdown i then (i, ReadyWait WaitCancelled) else
  match record_at i loc with
  | None => (i, ReadyWait WaitCancelled)
  | Some r =>
      if fs_is_terminal (fr_state r) || is_cancelled i (fr_scope r) then (i, ReadyWait WaitCancelled) else
      match in_waits i !! key with
      | Some BufferedWake => (i <| in_waits := delete key (in_waits i) |>, ReadyWait Woken)
      | superseded =>
          let c := in_next i in
          let channels := match superseded with Some e => drop_entry e (in_channels i) | None => in_channels i end in
          (update_record loc (begin_wait now)
             (i <| in_waits := <[key := PendingWait c]> (in_waits i) |>
                <| in_channels := <[c := {| oc_sent := false; oc_closed := false; oc_receiver := true |}]> channels |>
                <| in_next := S c |>),
           ChannelWait key c (fr_scope r))
      end
  end.

Definition wait_for_operation (h : FiberHandle) (operation_id operation_generation now : Z) (i : Inner) :
    Inner * result RuntimeError OperationWait :=
  if in_shutdown i then (i, Err RtShuttingDown) else
  match resolve i h with
  | Err e => (i, Err e)
  | Ok loc =>
      let '(i, w) := wait_register loc (wait_key h operation_id operation_generation) now i in (i, Ok w)
  end.

Definition remove_pending (key : WaitKey) (i : Inner) : Inner :=
  match in_waits i !! key with
  | Some (PendingWait c) =>
      i <| in_waits := delete key (in_waits i) |> <| in_channels := alter close_channel c (in_channels i) |>
  | _ => i
  end.

(** One poll of the future: the scope first, then the channel. *)
Definition poll_wait (w : OperationWait) (i : Inner) : Inner * option WaitOutcome :=
  match w with
  | ReadyWait o => (i, Some o)
  | ChannelWait key c scope =>
      if is_cancelled i scope then (remove_pending key i, Some WaitCancelled) else
      match in_channels i !! c with
      | Some o => (i, if oc_sent o then Some Woken else if oc_closed o then Some WaitCancelled else None)
      | None => (i, None)
      end
  end.

(** The future is dropped before it has resolved. *)
Definition drop_wait (w : OperationWait) (i : Inner) : Inner :=
  match w with
  | ReadyWait _ => i
  | ChannelWait _ c _ =>
      i <| in_channels := alter (fun o => {| oc_sent := oc_sent o; oc_closed := oc_closed o; oc_receiver := false |}) c (in_channels i) |>
  end.

(** [shutdown] raises the flag, then clears the registry. *)
Definition shutdown_flag (i : Inner) : Inner := i <| in_shutdown := true |>.
Definition shutdown_clear (i : Inner) : Inner := drop_waits (fun _ => false) i.
Definition shutdown (i : Inner) : Inner := shutdown_clear (shutdown_flag i).

(** ** The life of a task *)

Definition finish (loc : nat) (exit : FiberExit) (i : Inner) : Inner :=
  match record_at i loc with
  | Some r =>
      if decide (fr_terminal r = TPending) then
        let i := update_record loc (fun r => r <| fr_terminal := TFinished exit |>) i in
        if fr_reap_on_terminal r then reap_fiber r i else i
      else i
  | None => i
  end.

Definition finish_terminal (loc : nat) (state : FiberState) (started_at finished_at : Z) (i : Inner) : Inner :=
  finish loc (fiber_exit_from_state state) (update_record loc (close_usage state started_at finished_at) i).

(** How the body of a task stands: it runs, or it returned, or it panicked. *)
Inductive body_poll := BodyPending | BodyReturned (r : option FiberExit).

(** The [select] of a task: the scope first, then the deadline, then the body. *)
Definition task_ended (cancelled : bool) (deadline : option Z) (body : body_poll) (now : Z) : option FiberState :=
  if cancelled then Some FsCancelled else
  if deadline_passed deadline now then Some FsCancelled else
  match body with BodyPending => None | BodyReturned e => Some (terminal_result e) end.

(** One poll of [run_fiber]: the first one meters the start. The terminal transition
    purges the waits of the fiber and gives the permit back. *)
Definition task_poll (loc : nat) (body : body_poll) (now finished_at : Z) (i : Inner) : Inner :=
  match in_tasks i !! loc, record_at i loc with
  | Some t, Some r =>
      let started := default now (tk_started t) in
      let i := match tk_started t with
               | Some _ => i
               | None => update_record loc (start_task now)
                           (i <| in_tasks := <[loc := {| tk_deadline := tk_deadline t; tk_started := Some now |}]> (in_tasks i) |>)
               end in
      match task_ended (is_cancelled i (fr_scope r)) (tk_deadline t) body now with
      | None => i
      | Some state =>
          let i := drop_waits (fun k => negb (for_fiber k (fr_fiber_id r) (fr_generation r)))
                     (finish_terminal loc state started finished_at i) in
          i <| in_tasks := delete loc (in_tasks i) |> <| in_admission := in_admission i + 1 |>
      end
  | _, _ => i
  end.

(** ** Join and detach *)

(** A joiner that holds the record looks at its outcome; it parks when there is none. *)
Definition record_join (loc : nat) (i : Inner) : Inner * option (result RuntimeError FiberExit) :=
  match record_at i loc with
  | None => (i, None)
  | Some r =>
      match fr_terminal r with
      | TFinished exit => (reap_fiber r (update_record loc (fun r => r <| fr_terminal := TConsumed |>) i), Some (Ok exit))
      | TConsumed => (i, Some (Err (RtFiberReaped (fr_fiber_id r) (fr_generation r))))
      | TPending => (i, if in_shutdown i then Some (Err RtShuttingDown) else None)
      end
  end.

Definition join_fiber (h : FiberHandle) (i : Inner) : Inner * option (result RuntimeError FiberExit) :=
  match resolve i h with Err e => (i, Some (Err e)) | Ok loc => record_join loc i end.

Definition record_detach (loc : nat) (i : Inner) : Inner :=
  match record_at i loc with
  | None => i
  | Some r =>
      let i := update_record loc (fun r => r <| fr_reap_on_terminal := true |>) i in
      match fr_terminal r with TFinished _ => reap_fiber r i | _ => i end
  end.

Definition detach_fiber (h : FiberHandle) (i : Inner) : Inner * result RuntimeError () :=
  match resolve i h with Err e => (i, Err e) | Ok loc => (record_detach loc i, Ok ()) end.

(** ** Reads and phase boundaries *)

Definition on_fiber (f : FiberRecord -> FiberRecord) (h : FiberHandle) (i : Inner) : Inner * result RuntimeError () :=
  match resolve i h with Err e => (i, Err e) | Ok loc => (update_record loc f i, Ok ()) end.

Definition inspect_fiber (h : FiberHandle) (i : Inner) : result RuntimeError FiberState :=
  match resolve i h with
  | Err e => Err e
  | Ok loc => match record_at i loc with Some r => Ok (fr_state r) | None => Err RtInvalidGeneration end
  end.

Definition activation_usage (h : FiberHandle) (now : Z) (i : Inner) : result RuntimeError ActivationUsage :=
  match resolve i h with
  | Err e => Err e
  | Ok loc => match record_at i loc with Some r => Ok (usage_snapshot now (fr_usage r)) | None => Err RtInvalidGeneration end
  end.

(** The registered records, with the sums of two dimensions. *)
Definition inspect_lifecycle_meter_aggregate (now : Z) (i : Inner) : Z * Z * nat :=
  foldr (fun p '(bp, su, n) =>
           match record_at i p.2 with
           | Some r => let u := usage_snapshot now (fr_usage r) in (bp + backpressure_wait u, su + suspended u, S n)
           | None => (bp, su, n)
           end) (0, 0, 0%nat) (map_to_list (fg_fibers (in_fibers i))).

(** ** Batch cancellation of a process *)

Definition matched_records (process_id process_generation : Z) (i : Inner) : list FiberRecord :=
  filter (fun r => fr_process_id r = process_id /\ fr_process_generation r = process_generation)
    (omap (fun p => record_at i p.2) (map_to_list (fg_fibers (in_fibers i)))).

(** The sweep of [cancel_process_fibers], after the process authority has decided:
    matched, already terminal, cancelled and vanished. *)
Definition cancel_process_fibers (process_id process_generation : Z) (i : Inner) : Inner * (nat * nat * nat * nat) :=
  let matched := matched_records process_id process_generation i in
  let keys := remove_dups (fr_scope_key <$> matched) in
  let '(i, cancelled, vanished) :=
    foldl (fun '(i, c, v) key => match cancel_scope key.1 key.2 i with
                                 | (i, Ok _) => (i, S c, v) | (i, Err _) => (i, c, S v) end) (i, 0%nat, 0%nat) keys in
  (i, (length matched, length (filter (fun r => fs_is_terminal (fr_state r) = true) matched), cancelled, vanished)).
