(* ===== verification/FiberInv.v ===== *)
(** * FiberInv: the registries of the runtime adapter stay consistent

    References of the cancellation scopes, the index by id, permits and tombstones over
    any sequence of requests to the adapter of [Fibers]. *)

From S2P Require Import Prelude Operation FiberMeter Fibers.

(** ** Rings *)

Lemma push_tombstone_bound capacity t ring :
  (length ring <= capacity)%nat -> (length (push_tombstone capacity t ring) <= capacity)%nat.
Proof. unfold push_tombstone. intros Hl. case_decide; [done|]. rewrite length_app, length_drop. cbn. lia. Qed.

(** ** Scopes *)

(** The registry of scopes against the number of fibers in each. *)
Record scope_ok (g : ScopeRegistry) (cnt : Z * Z -> Z) : Prop := {
  sk_refs key e : sg_scopes g !! key = Some e -> se_refs e = cnt key /\ 0 < cnt key;
  sk_none key : sg_scopes g !! key = None -> cnt key = 0;
  sk_by_id id gens : sg_by_id g !! id = Some gens -> exists v, gens = [v] /\ is_Some (sg_scopes g !! (id, v));
  sk_index id v : is_Some (sg_scopes g !! (id, v)) -> sg_by_id g !! id = Some [v];
  sk_ring : (length (sg_tombstones g) <= sg_tombstone_capacity g)%nat;
}.

Definition bump (key : Z * Z) (d : Z) (cnt : Z * Z -> Z) : Z * Z -> Z :=
  fun k => cnt k + if decide (k = key) then d else 0.

Lemma scope_ok_ext g cnt cnt' : scope_ok g cnt -> (forall k, cnt k = cnt' k) -> scope_ok g cnt'.
Proof.
  intros [S1 S2 S3 S4 S5] He. split; try done.
  - intros key e. rewrite <- He. apply S1.
  - intros key. rewrite <- He. apply S2.
Qed.

Lemma index_scope_new g cnt key :
  scope_ok g cnt -> scope_fenced g key = false -> index_scope key (sg_by_id g) = <[key.1 := [key.2]]> (sg_by_id g).
Proof.
  intros Hok Hf. unfold index_scope. unfold scope_fenced in Hf. f_equal.
  destruct (sg_by_id g !! key.1) as [gens|] eqn:Hid; [|done]. destruct (sk_by_id _ _ Hok _ _ Hid) as (v & -> & _). cbn.
  case_bool_decide as Hin; [|done]. apply list_elem_of_singleton in Hin. by rewrite Hin.
Qed.

Section acquire.
Context (g : ScopeRegistry) (cnt : Z * Z -> Z) (key : Z * Z) (scope : nat) (refs : Z).
Context (Hok : scope_ok g cnt) (Hf : scope_fenced g key = false).
Context (Hrefs : refs = cnt key + 1).

Definition acquired : ScopeRegistry :=
  g <| sg_scopes := <[key := {| se_scope := scope; se_refs := refs |}]> (sg_scopes g) |>
    <| sg_by_id := index_scope key (sg_by_id g) |>.

Lemma cnt_nonneg k : 0 <= cnt k.
Proof. destruct (sg_scopes g !! k) as [e|] eqn:He; [destruct (sk_refs _ _ Hok k e He)|rewrite (sk_none _ _ Hok k He)]; lia. Qed.

(** No other generation of the id is registered. *)
Lemma acquire_fence v : is_Some (sg_scopes g !! (key.1, v)) -> v = key.2.
Proof.
  intros Hv. pose proof (sk_index _ _ Hok _ _ Hv) as Hid. unfold scope_fenced in Hf. rewrite Hid in Hf.
  apply negb_false_iff, bool_decide_eq_true in Hf. by apply list_elem_of_singleton in Hf.
Qed.

Lemma acquired_ok : scope_ok acquired (bump key 1 cnt).
Proof.
  unfold acquired. rewrite (index_scope_new g cnt key Hok Hf). unfold bump. pose proof cnt_nonneg as Hpos.
  split; cbn; [..|apply Hok].
  - intros k e. rewrite lookup_insert_Some. intros [[<- <-]|[Hne He]].
    + rewrite decide_True by done. specialize (Hpos key). cbn. lia.
    + rewrite decide_False by done. destruct (sk_refs _ _ Hok k e He). lia.
  - intros k. rewrite lookup_insert_None. intros [He Hne]. rewrite decide_False by done. rewrite (sk_none _ _ Hok k He). lia.
  - intros id gens. rewrite lookup_insert_Some. intros [[<- <-]|[Hne Hid]].
    + exists key.2. split; [done|]. rewrite <- surjective_pairing, lookup_insert_eq. done.
    + destruct (sk_by_id _ _ Hok _ _ Hid) as (v & -> & Hv). exists v. split; [done|].
      rewrite lookup_insert_ne; [done|]. intros ->. done.
  - intros id v. destruct (decide (key = (id, v))) as [->|Hne]; [intros _; by rewrite lookup_insert_eq|].
    rewrite lookup_insert_ne by done. intros Hv. destruct (decide (id = key.1)) as [->|Hid].
    + apply acquire_fence in Hv as Hv'. subst v. by destruct Hne; rewrite <- surjective_pairing.
    + rewrite lookup_insert_ne by done. by apply (sk_index _ _ Hok).
Qed.
End acquire.

Lemma release_ok g cnt key : scope_ok g cnt -> 0 < cnt key -> scope_ok (scope_release key g) (bump key (-1) cnt).
Proof.
  intros Hok Hpos. unfold scope_release, bump. destruct (sg_scopes g !! key) as [e|] eqn:He; cycle 1.
  { rewrite (sk_none _ _ Hok key He) in Hpos. lia. }
  destruct (sk_refs _ _ Hok key e He) as [Hr _]. case_decide as Hz.
  - assert (sg_by_id g !! key.1 = Some [key.2]) as Hid by (apply (sk_index _ _ Hok); rewrite <- surjective_pairing; by exists e).
    assert (unindex_scope key (sg_by_id g) = delete key.1 (sg_by_id g)) as Hun.
    { unfold unindex_scope. rewrite Hid, filter_cons_False, filter_nil by naive_solver. by rewrite decide_True. }
    split; cbn; rewrite ?Hun.
    + intros k e'. rewrite lookup_delete_Some. intros [Hne He']. rewrite decide_False by done.
      destruct (sk_refs _ _ Hok k e' He'). lia.
    + intros k. rewrite lookup_delete_None. intros [<-|He']; [rewrite decide_True by done; lia|].
      case_decide as Hk; [subst k; congruence|]. rewrite (sk_none _ _ Hok k He'). lia.
    + intros id gens. rewrite lookup_delete_Some. intros [Hne Hg]. destruct (sk_by_id _ _ Hok _ _ Hg) as (v & -> & Hv).
      exists v. split; [done|]. rewrite lookup_delete_ne; [done|]. intros ->. done.
    + intros id v [e' Hv]. apply lookup_delete_Some in Hv as [Hne Hv]. pose proof (sk_index _ _ Hok id v (mk_is_Some _ _ Hv)) as Hg.
      rewrite lookup_delete_ne; [done|]. intros <-. rewrite Hid in Hg. injection Hg as <-. by destruct Hne; rewrite <- surjective_pairing.
    + apply push_tombstone_bound, Hok.
  - assert (forall k, is_Some (<[key := {| se_scope := se_scope e; se_refs := Z.max 0 (se_refs e - 1) |}]> (sg_scopes g) !! k) <->
      is_Some (sg_scopes g !! k)) as Hdom.
    { intros k. rewrite lookup_insert_is_Some'. split; [|by right]. intros [<-|Hk]; [by exists e|done]. }
    split; cbn.
    + intros k e'. rewrite lookup_insert_Some. intros [[<- <-]|[Hne He']].
      * rewrite decide_True by done. cbn. lia.
      * rewrite decide_False by done. destruct (sk_refs _ _ Hok k e' He'). lia.
    + intros k. rewrite lookup_insert_None. intros [He' Hne]. rewrite decide_False by done. rewrite (sk_none _ _ Hok k He'). lia.
    + intros id gens Hg. destruct (sk_by_id _ _ Hok _ _ Hg) as (v & -> & Hv). exists v. split; [done|]. by apply Hdom.
    + intros id v Hv%Hdom. by apply (sk_index _ _ Hok).
    + apply Hok.
Qed.

(** The scope object of a key is kept while the key is referenced. *)
Lemma release_keeps g cnt key k e :
  scope_ok g cnt -> sg_scopes g !! k = Some e -> (k <> key \/ 1 < cnt key) ->
  exists e', sg_scopes (scope_release key g) !! k = Some e' /\ se_scope e' = se_scope e.
Proof.
  intros Hok Hk Hcase. unfold scope_release. destruct (sg_scopes g !! key) as [x|] eqn:He; [|by exists e].
  destruct (sk_refs _ _ Hok key x He) as [Hr _]. destruct (decide (k = key)) as [->|Hne].
  - assert (x = e) as -> by congruence. case_decide; [naive_solver lia|]. cbn. rewrite lookup_insert_eq. by eexists.
  - case_decide; cbn; [rewrite lookup_delete_ne by done|rewrite lookup_insert_ne by done]; by exists e.
Qed.

(** ** Fibers in a scope *)

Definition in_scope (records : gmap nat FiberRecord) (key : Z * Z) (p : Z * nat) : Prop :=
  fr_scope_key <$> records !! p.2 = Some key.
#[export] Instance in_scope_dec records key p : Decision (in_scope records key p).
Proof. unfold in_scope. apply _. Defined.

Definition refs (fibers : gmap Z nat) (records : gmap nat FiberRecord) (key : Z * Z) : Z :=
  Z.of_nat (size (filter (in_scope records key) fibers)).

Lemma refs_records fibers records records' key :
  (forall id loc, fibers !! id = Some loc -> fr_scope_key <$> records !! loc = fr_scope_key <$> records' !! loc) ->
  refs fibers records key = refs fibers records' key.
Proof.
  intros He. unfold refs. do 2 f_equal. apply map_filter_ext. intros id loc Hid. unfold in_scope. cbn. by rewrite (He id loc Hid).
Qed.

Lemma refs_insert fibers records id loc r key :
  fibers !! id = None -> records !! loc = Some r ->
  refs (<[id := loc]> fibers) records key = bump (fr_scope_key r) 1 (refs fibers records) key.
Proof.
  intros Hid Hloc. unfold refs, bump. case_decide as Hk.
  - rewrite map_filter_insert_True by (unfold in_scope; cbn; by rewrite Hloc, Hk).
    rewrite map_size_insert_None; [lia|]. apply map_lookup_filter_None. by left.
  - rewrite map_filter_insert_not'; [lia| |].
    + unfold in_scope. cbn. rewrite Hloc. intros [= Hn]. congruence.
    + intros y Hy. congruence.
Qed.

Lemma refs_delete fibers records id loc r key :
  fibers !! id = Some loc -> records !! loc = Some r ->
  refs (delete id fibers) records key = bump (fr_scope_key r) (-1) (refs fibers records) key.
Proof.
  intros Hid Hloc. rewrite <- (insert_delete_id fibers id loc Hid) at 2. unfold bump.
  rewrite (refs_insert (delete id fibers) records id loc r key) by (done || apply lookup_delete_eq). unfold bump.
  case_decide; lia.
Qed.

Lemma refs_pos fibers records id loc r :
  fibers !! id = Some loc -> records !! loc = Some r -> 0 < refs fibers records (fr_scope_key r).
Proof.
  intros Hid Hloc. pose proof (refs_delete fibers records id loc r (fr_scope_key r) Hid Hloc) as Hd. revert Hd.
  unfold bump, refs. rewrite decide_True by done. lia.
Qed.

(** ** The invariant *)

(** What the registries look at in a record. *)
Record same_record (r r' : FiberRecord) : Prop := {
  sr_id : fr_fiber_id r' = fr_fiber_id r;
  sr_generation : fr_generation r' = fr_generation r;
  sr_scope : fr_scope r' = fr_scope r;
  sr_scope_key : fr_scope_key r' = fr_scope_key r;
}.

Section invariant.
Context (config : TokioRuntimeConfig).

(** A registered fiber: its record is not consumed, its scope is registered. *)
Definition registered (i : Inner) (id : Z) (loc : nat) : Prop :=
  exists r e, record_at i loc = Some r /\ fr_fiber_id r = id /\ fr_terminal r <> TConsumed /\
    sg_scopes (in_scopes i) !! fr_scope_key r = Some e /\ se_scope e = fr_scope r.

(** The registries, with [cnt] references to each scope. *)
Record reg_with (cnt : Z * Z -> Z) (i : Inner) : Prop := {
  ro_scopes : scope_ok (in_scopes i) cnt;
  ro_fibers id loc : fg_fibers (in_fibers i) !! id = Some loc -> registered i id loc;
  ro_tasks loc t : in_tasks i !! loc = Some t -> exists r, record_at i loc = Some r /\ fr_terminal r = TPending /\
    fg_fibers (in_fibers i) !! fr_fiber_id r = Some loc;
  ro_pending loc r : record_at i loc = Some r -> fr_terminal r = TPending -> is_Some (in_tasks i !! loc);
  ro_state loc r : record_at i loc = Some r -> fs_is_terminal (fr_state r) = negb (bool_decide (fr_terminal r = TPending));
  ro_admission : in_admission i + Z.of_nat (size (in_tasks i)) = max_live_fibers config /\ 0 <= in_admission i;
  ro_ring : (length (fg_tombstones (in_fibers i)) <= tombstone_capacity config)%nat;
  ro_capacity : fg_tombstone_capacity (in_fibers i) = tombstone_capacity config;
  ro_scope_capacity : sg_tombstone_capacity (in_scopes i) = scope_tombstone_capacity config;
  ro_next loc : is_Some (record_at i loc) -> (loc < in_next i)%nat;
}.

Definition refs_of (i : Inner) : Z * Z -> Z := refs (fg_fibers (in_fibers i)) (in_records i).

Definition reg_ok (i : Inner) : Prop := reg_with (refs_of i) i.

Lemma reg_with_ext cnt cnt' i : reg_with cnt i -> (forall k, cnt k = cnt' k) -> reg_with cnt' i.
Proof. intros [R1 R2 R3 R4 R5 R6 R7 R8 R9 R10] He. split; try done. by apply (scope_ok_ext _ cnt). Qed.

Lemma adapter_new_ok i : 0 <= max_live_fibers config -> adapter_new config = Ok i -> reg_ok i.
Proof.
  intros Hmax. unfold adapter_new. case_decide; [done|]. intros [= <-]. split; cbn; unfold record_at; cbn; try done.
  - split; cbn; try done; [|lia]. by intros id v [].
  - rewrite map_size_empty. lia.
  - lia.
  - by intros loc [].
Qed.

(** The registries do not look at waits, channels, flags or metering. *)
Definition same_registries (i i' : Inner) : Prop :=
  in_fibers i' = in_fibers i /\ in_scopes i' = in_scopes i /\ in_admission i' = in_admission i /\
  in_tasks i' = in_tasks i /\ (in_next i <= in_next i')%nat.

Lemma reg_with_frame cnt i i' :
  reg_with cnt i -> same_registries i i' ->
  (forall loc r', record_at i' loc = Some r' -> exists r, record_at i loc = Some r /\ same_record r r' /\
     fr_terminal r' = fr_terminal r /\ fs_is_terminal (fr_state r') = fs_is_terminal (fr_state r)) ->
  (forall loc, is_Some (record_at i loc) -> is_Some (record_at i' loc)) ->
  reg_with cnt i' /\ (forall k, refs_of i' k = refs_of i k).
Proof.
  intros [R1 R2 R3 R4 R5 R6 R7 R8 R9 R10] (Hf & Hs & Ha & Ht & Hn) Hback Hdom.
  assert (forall loc r, record_at i loc = Some r -> exists r', record_at i' loc = Some r' /\ same_record r r' /\
     fr_terminal r' = fr_terminal r) as Hfwd.
  { intros loc r Hr. destruct (Hdom loc) as [r' Hr']; [by exists r|]. destruct (Hback loc r' Hr') as (x & Hx & Hsame & Hterm & _).
    exists r'. by replace r with x by congruence. }
  split; cycle 1.
  { intros k. unfold refs_of. rewrite Hf. symmetry. apply refs_records. intros id loc Hid.
    destruct (R2 id loc Hid) as (r & _ & Hr & _). destruct (Hfwd loc r Hr) as (r' & Hr' & Hsame & _).
    unfold record_at in Hr, Hr'. rewrite Hr, Hr'. cbn. by rewrite (sr_scope_key _ _ Hsame). }
  split; rewrite ?Hf, ?Hs, ?Ha, ?Ht; try done.
  - intros id loc Hid. destruct (R2 id loc Hid) as (r & e & Hr & Hrid & Hterm & He & Hobj).
    destruct (Hfwd loc r Hr) as (r' & Hr' & [E1 E2 E3 E4] & Ht'). exists r', e. rewrite E1, E3, E4, Ht', Hs. done.
  - intros loc t Htk. destruct (R3 loc t Htk) as (r & Hr & Hp & Hid). destruct (Hfwd loc r Hr) as (r' & Hr' & Hsame & Ht').
    exists r'. by rewrite (sr_id _ _ Hsame), Ht'.
  - intros loc r' Hr' Hp. destruct (Hback loc r' Hr') as (r & Hr & _ & Hterm & _). apply (R4 loc r Hr). congruence.
  - intros loc r' Hr'. destruct (Hback loc r' Hr') as (r & Hr & _ & Hterm & Hst). rewrite Hterm, Hst. by apply (R5 loc).
  - intros loc [r' Hr']. destruct (Hback loc r' Hr') as (r & Hr & _). assert (loc < in_next i)%nat by (apply R10; by exists r). lia.
Qed.

Lemma reg_ok_frame i i' :
  reg_ok i -> same_registries i i' ->
  (forall loc r', record_at i' loc = Some r' -> exists r, record_at i loc = Some r /\ same_record r r' /\
     fr_terminal r' = fr_terminal r /\ fs_is_terminal (fr_state r') = fs_is_terminal (fr_state r)) ->
  (forall loc, is_Some (record_at i loc) -> is_Some (record_at i' loc)) -> reg_ok i'.
Proof.
  intros Hok Hs Hback Hdom. destruct (reg_with_frame _ i i' Hok Hs Hback Hdom) as [Hr He].
  apply (reg_with_ext _ _ _ Hr). intros k. by rewrite He.
Qed.

Lemma reg_ok_update i loc f :
  reg_ok i ->
  (forall r, record_at i loc = Some r ->
     same_record r (f r) /\ fr_terminal (f r) = fr_terminal r /\ fs_is_terminal (fr_state (f r)) = fs_is_terminal (fr_state r)) ->
  reg_ok (update_record loc f i).
Proof.
  intros Hok Hf. apply (reg_ok_frame i); [done|by repeat split| |].
  - intros l r'. unfold record_at, update_record. cbn. rewrite lookup_alter_Some.
    intros [(<- & r & Hr & ->)|[_ Hr]]; [exists r; split; [done|by apply Hf]|]. exists r'. by repeat split.
  - intros l Hl. unfold record_at, update_record. cbn. by rewrite lookup_alter_is_Some.
Qed.

(** ** Admission *)

(** The scope registry changes, keeping the scopes of the registered fibers. *)
Lemma reg_with_scopes cnt cnt' i g cancelled next :
  reg_with cnt i -> scope_ok g cnt' -> (in_next i <= next)%nat -> sg_tombstone_capacity g = sg_tombstone_capacity (in_scopes i) ->
  (forall id loc r e, fg_fibers (in_fibers i) !! id = Some loc -> record_at i loc = Some r ->
     sg_scopes (in_scopes i) !! fr_scope_key r = Some e ->
     exists e', sg_scopes g !! fr_scope_key r = Some e' /\ se_scope e' = se_scope e) ->
  reg_with cnt' (i <| in_scopes := g |> <| in_cancelled := cancelled |> <| in_next := next |>).
Proof.
  intros [R1 R2 R3 R4 R5 R6 R7 R8 R9 R10] Hg Hn Hcap Hkeep. split; cbn; try done; [|by rewrite Hcap|].
  - intros id loc Hid. destruct (R2 id loc Hid) as (r & e & Hr & Hrid & Hterm & He & Hobj).
    destruct (Hkeep id loc r e Hid Hr He) as (e' & He' & Ho). exists r, e'. split_and!; try done. congruence.
  - intros loc Hl. specialize (R10 loc Hl). lia.
Qed.

Lemma acquire_spec cnt key i i1 scope :
  reg_with cnt i -> scope_acquire key i = (i1, Ok scope) ->
  reg_with (bump key 1 cnt) i1 /\ in_fibers i1 = in_fibers i /\ in_records i1 = in_records i /\ in_tasks i1 = in_tasks i /\
  in_admission i1 = in_admission i /\ (exists e, sg_scopes (in_scopes i1) !! key = Some e /\ se_scope e = scope).
Proof.
  intros Hok. unfold scope_acquire. destruct (scope_fenced (in_scopes i) key) eqn:Hf; [done|].
  pose proof (ro_scopes _ _ Hok) as Hs. destruct (sg_scopes (in_scopes i) !! key) as [e|] eqn:He; intros [= <- <-].
  - destruct (sk_refs _ _ Hs key e He) as [Hr _].
    pose proof (acquired_ok _ cnt key (se_scope e) (se_refs e + 1) Hs Hf ltac:(lia)) as Hacq.
    split; [|split_and!; try done; cbn; rewrite lookup_insert_eq; by eexists].
    apply (reg_with_scopes cnt _ i (acquired (in_scopes i) key (se_scope e) (se_refs e + 1)) (in_cancelled i) (in_next i)); try done.
    intros id loc r x Hid Hr' Hx. cbn. destruct (decide (fr_scope_key r = key)) as [Hk|Hk].
    + rewrite Hk, lookup_insert_eq in *. eexists. split; [done|]. cbn. congruence.
    + rewrite lookup_insert_ne by done. by exists x.
  - pose proof (sk_none _ _ Hs key He) as Hz.
    pose proof (acquired_ok _ cnt key (in_next i) 1 Hs Hf ltac:(lia)) as Hacq.
    split; [|split_and!; try done; cbn; rewrite lookup_insert_eq; by eexists].
    apply (reg_with_scopes cnt _ i (acquired (in_scopes i) key (in_next i) 1)); [done|done|lia|done|].
    intros id loc r x Hid Hr' Hx. cbn. rewrite lookup_insert_ne by congruence. by exists x.
Qed.

Lemma release_capacity key g : sg_tombstone_capacity (scope_release key g) = sg_tombstone_capacity g.
Proof. unfold scope_release. destruct (sg_scopes g !! key); [|done]. by case_decide. Qed.

Lemma release_spec cnt key i :
  reg_with cnt i -> 0 < cnt key ->
  (forall id loc r, fg_fibers (in_fibers i) !! id = Some loc -> record_at i loc = Some r -> fr_scope_key r = key -> 1 < cnt key) ->
  reg_with (bump key (-1) cnt) (release_scope key i).
Proof.
  intros Hok Hpos Hother. pose proof (ro_scopes _ _ Hok) as Hs.
  apply (reg_with_scopes cnt _ i _ (in_cancelled i) (in_next i)); [done|by apply release_ok|done|apply release_capacity|].
  intros id loc r e Hid Hr He. apply (release_keeps _ cnt); [done|done|].
  destruct (decide (fr_scope_key r = key)) as [Hk|Hk]; [right|by left]. by apply (Hother id loc r).
Qed.

(** A rejected birth gives its reference back. *)
Lemma rejected_ok key i i1 scope : reg_ok i -> scope_acquire key i = (i1, Ok scope) -> reg_ok (release_scope key i1).
Proof.
  intros Hok Hacq. destruct (acquire_spec _ key i i1 scope Hok Hacq) as (Hok1 & Hf & Hr & _ & _ & _).
  assert (forall k, refs_of i1 k = refs_of i k) as Hrefs by (intros k; unfold refs_of; by rewrite Hf, Hr).
  eapply reg_with_ext.
  - apply (release_spec (bump key 1 (refs_of i))); [done|unfold bump, refs_of, refs; rewrite decide_True by done; lia|].
    intros id loc r Hid Hloc <-. rewrite Hf in Hid. unfold record_at in Hloc. rewrite Hr in Hloc.
    pose proof (refs_pos _ _ id loc r Hid Hloc) as Hp. unfold bump, refs_of. rewrite decide_True by done. lia.
  - intros k. unfold refs_of in *. cbn. rewrite Hrefs. unfold bump. case_decide; lia.
Qed.

Lemma admitted_ok key i i1 scope spec now :
  reg_ok i -> scope_acquire key i = (i1, Ok scope) -> fg_fibers (in_fibers i) !! fs_fiber_id spec = None -> 0 < in_admission i ->
  let loc := in_next i1 in
  let record := fiber_record_new (fs_fiber_id spec) (fs_fiber_generation spec) (fs_process_id spec)
                  (fs_process_generation spec) scope key now in
  reg_ok (i1 <| in_fibers := in_fibers i1 <| fg_fibers := <[fs_fiber_id spec := loc]> (fg_fibers (in_fibers i1)) |> |>
             <| in_records := <[loc := set_state_without_metering FsRunning record]> (in_records i1) |>
             <| in_tasks := <[loc := {| tk_deadline := fs_deadline spec; tk_started := None |}]> (in_tasks i1) |>
             <| in_admission := in_admission i1 - 1 |> <| in_next := S loc |>).
Proof.
  intros Hok Hacq Hnone Hadm loc record. set (r := set_state_without_metering FsRunning record).
  destruct (acquire_spec _ key i i1 scope Hok Hacq) as (Hok1 & Hf & Hr & Ht & Ha & e & He & Hobj).
  assert (in_records i1 !! loc = None) as Hfresh.
  { apply eq_None_not_Some. intros Hs. pose proof (ro_next _ _ Hok1 loc Hs). unfold loc in *. lia. }
  assert (in_tasks i1 !! loc = None) as Htask.
  { apply eq_None_not_Some. intros [t Htk]. destruct (ro_tasks _ _ Hok1 loc t Htk) as (x & Hx & _). unfold record_at in Hx. congruence. }
  assert (forall id l, fg_fibers (in_fibers i1) !! id = Some l -> l <> loc) as Hold.
  { intros id l Hid ->. destruct (ro_fibers _ _ Hok1 id loc Hid) as (x & _ & Hx & _). unfold record_at in Hx. congruence. }
  destruct Hok1 as [R1 R2 R3 R4 R5 R6 R7 R8 R9 R10].
  split; cbn -[r]; unfold record_at in *; cbn -[r]; try done.
  - apply (scope_ok_ext _ _ _ R1). intros k. unfold refs_of. cbn -[r]. rewrite <- Hf in Hnone.
    rewrite (refs_insert _ _ _ loc r) by (done || apply lookup_insert_eq). unfold bump. rewrite <- Hf, <- Hr.
    assert (refs (fg_fibers (in_fibers i1)) (<[loc := r]> (in_records i1)) k = refs (fg_fibers (in_fibers i1)) (in_records i1) k) as ->; [|done].
    apply refs_records. intros id l Hid. rewrite lookup_insert_ne; [done|]. intros <-. by apply (Hold id loc).
  - intros id l. rewrite lookup_insert_Some. intros [[<- <-]|[Hne Hid]].
    + exists r, e. unfold record_at. cbn -[r]. rewrite lookup_insert_eq. done.
    + destruct (R2 id l Hid) as (x & y & Hx & Hrest). exists x, y. split; [|done]. unfold record_at in *. cbn -[r].
      rewrite lookup_insert_ne; [done|]. intros <-. by apply (Hold id loc).
  - intros l t. rewrite lookup_insert_Some. intros [[<- _]|[Hne Htk]].
    + exists r. rewrite lookup_insert_eq. split; [done|]. split; [done|]. apply lookup_insert_eq.
    + destruct (R3 l t Htk) as (x & Hx & Hp & Hid). exists x. rewrite lookup_insert_ne by done. split; [done|]. split; [done|].
      rewrite lookup_insert_ne; [done|]. intros Heq. rewrite <- Heq in Hid. by rewrite Hf, Hnone in Hid.
  - intros l x. rewrite lookup_insert_Some. intros [[<- <-]|[Hne Hx]] Hp; [by rewrite lookup_insert_eq|].
    rewrite lookup_insert_ne by done. by apply (R4 l x).
  - intros l x. rewrite lookup_insert_Some. intros [[<- <-]|[Hne Hx]]; [done|]. by apply (R5 l).
  - rewrite map_size_insert_None by done. lia.
  - intros l. rewrite lookup_insert_is_Some'. intros [<-|Hl]; [lia|]. specialize (R10 l Hl). unfold loc. lia.
Qed.

Lemma spawn_ok spec now i : reg_ok i -> reg_ok (spawn_fiber spec now i).1.
Proof.
  intros Hok. unfold spawn_fiber. destruct (in_shutdown i); [done|]. destruct (deadline_passed _ now); [done|].
  case_decide as Hadm; [done|]. destruct (scope_acquire _ i) as [i1 [scope|e]] eqn:Hacq; [|done].
  destruct (acquire_spec _ _ i i1 scope Hok Hacq) as (_ & Hf & _). cbn [fst].
  destruct (is_cancelled i1 scope); [by eapply rejected_ok|]. rewrite Hf at 1.
  destruct (fg_fibers (in_fibers i) !! fs_fiber_id spec) as [loc|] eqn:Hnone; [by eapply rejected_ok|].
  destruct (tombstoned _ _ _); [by eapply rejected_ok|]. apply (admitted_ok _ i i1); try done. lia.
Qed.

(** ** Reaping *)

(** Two states that agree on what the registries look at. *)
Lemma reg_ok_agree i i' :
  reg_ok i -> in_fibers i' = in_fibers i -> in_scopes i' = in_scopes i -> in_admission i' = in_admission i ->
  in_tasks i' = in_tasks i -> in_records i' = in_records i -> (in_next i <= in_next i')%nat -> reg_ok i'.
Proof.
  intros Hok Hf Hs Ha Ht Hr Hn. apply (reg_ok_frame i); [done|by repeat split| |].
  - intros loc r. unfold record_at. rewrite Hr. intros Hl. exists r. by repeat split.
  - intros loc. unfold record_at. by rewrite Hr.
Qed.

(** The locations of two registered fibers differ. *)
Lemma registered_inj cnt i id id' loc :
  reg_with cnt i -> fg_fibers (in_fibers i) !! id = Some loc -> fg_fibers (in_fibers i) !! id' = Some loc -> id = id'.
Proof.
  intros Hok Hid Hid'. destruct (ro_fibers _ _ Hok id loc Hid) as (r & _ & Hr & <- & _).
  destruct (ro_fibers _ _ Hok id' loc Hid') as (r' & _ & Hr' & <- & _). congruence.
Qed.

(** An ended fiber leaves the registry, its outcome consumed or not. *)
Lemma reap_ok i loc r f :
  reg_ok i -> fg_fibers (in_fibers i) !! fr_fiber_id r = Some loc -> record_at i loc = Some r -> fr_terminal r <> TPending ->
  (forall x, same_record x (f x) /\ fr_state (f x) = fr_state x) -> fr_terminal (f r) <> TPending ->
  reg_ok (reap_fiber r (update_record loc f i)).
Proof.
  intros Hok Hid Hr Hterm Hf Hft. unfold reap_fiber, reap. cbn. rewrite Hid.
  pose proof (fun id l => registered_inj (refs_of i) i (fr_fiber_id r) id l Hok) as Hinj. pose proof Hok as [R1 R2 R3 R4 R5 R6 R7 R8 R9 R10].
  match goal with |- reg_ok (release_scope _ ?j) => set (j0 := j) end.
  assert (forall l x, in_records i !! l = Some x -> record_at j0 l = Some (if decide (l = loc) then f x else x)) as Hrec.
  { intros l x Hl. unfold record_at, j0. cbn. destruct (decide (l = loc)) as [->|Hne];
      [by rewrite lookup_alter_eq, Hl|by rewrite lookup_alter_ne]. }
  assert (forall l x, record_at j0 l = Some x -> exists y, in_records i !! l = Some y /\ x = if decide (l = loc) then f y else y) as Hrec'.
  { intros l x. unfold record_at, j0. cbn. rewrite lookup_alter_Some.
    intros [(<- & y & Hy & ->)|[Hne Hy]]; eexists; (split; [done|]); [by rewrite decide_True|by rewrite decide_False]. }
  assert (reg_with (refs_of i) j0) as Hj.
  { split; cbn; try done.
    - intros id l. rewrite lookup_delete_Some. intros [Hne Hl]. destruct (R2 id l Hl) as (x & e & Hx & Hrest). exists x, e.
      rewrite (Hrec l x Hx), decide_False; [done|]. intros ->. destruct Hne. by apply (Hinj id loc).
    - intros l t Ht. destruct (R3 l t Ht) as (x & Hx & Hp & Hl). assert (l <> loc) as Hne by (intros ->; congruence).
      exists x. rewrite (Hrec l x Hx), decide_False by done. split; [done|]. split; [done|].
      rewrite lookup_delete_ne; [done|]. intros Heq. rewrite <- Heq in Hl. congruence.
    - intros l x (y & Hy & ->)%Hrec'. case_decide as Hl; [|by apply (R4 l)]. subst l. intros Hp. destruct Hft.
      by replace r with y by (unfold record_at in Hr; congruence).
    - intros l x (y & Hy & ->)%Hrec'. case_decide as Hl; [|by apply (R5 l)]. subst l.
      replace y with r in * by (unfold record_at in Hr; congruence). destruct (Hf r) as [_ ->]. rewrite (R5 loc r Hr).
      by rewrite !bool_decide_false.
    - rewrite R8. by apply push_tombstone_bound.
    - intros l [x (y & Hy & _)%Hrec']. apply R10. by exists y. }
  assert (forall k, refs_of j0 k = bump (fr_scope_key r) (-1) (refs_of i) k) as Hrefs.
  { intros k. unfold refs_of at 1, j0. cbn. rewrite (refs_delete _ _ _ loc (f r)); [| done|by rewrite lookup_alter_eq; unfold record_at in Hr; rewrite Hr].
    destruct (Hf r) as [[_ _ _ ->] _]. unfold bump, refs_of. f_equal. symmetry. apply refs_records. intros id l _.
    destruct (decide (l = loc)) as [->|Hne]; [|by rewrite lookup_alter_ne]. rewrite lookup_alter_eq.
    destruct (in_records i !! loc) as [x|]; [|done]. cbn. by destruct (Hf x) as [[_ _ _ ->] _]. }
  eapply reg_with_ext; [apply (release_spec (refs_of i)); [done|by eapply refs_pos|]|intros k; by rewrite <- Hrefs].
  intros id l x Hl Hx Hk. pose proof (refs_pos _ _ id l x Hl Hx) as Hp. rewrite Hk in Hp. fold (refs_of j0) in Hp.
  rewrite Hrefs in Hp. unfold bump in Hp. rewrite decide_True in Hp by done. lia.
Qed.

Lemma reap_fields r i :
  let i' := reap_fiber r i in
  in_records i' = in_records i /\ in_tasks i' = in_tasks i /\ in_admission i' = in_admission i /\ in_next i' = in_next i /\
  in_waits i' = in_waits i /\ in_channels i' = in_channels i /\ in_cancelled i' = in_cancelled i /\ in_shutdown i' = in_shutdown i.
Proof. unfold reap_fiber, reap. by destruct (fg_fibers (in_fibers i) !! fr_fiber_id r). Qed.

(** The registries of a reaped state depend on those before only. *)
Lemma reap_registries r i i' :
  in_fibers i = in_fibers i' -> in_scopes i = in_scopes i' ->
  in_fibers (reap_fiber r i) = in_fibers (reap_fiber r i') /\ in_scopes (reap_fiber r i) = in_scopes (reap_fiber r i').
Proof.
  intros Hf Hs. unfold reap_fiber, reap. rewrite Hf. destruct (fg_fibers (in_fibers i') !! fr_fiber_id r); cbn; by rewrite Hs.
Qed.

(** ** The end of a task *)

Lemma end_ok i loc t r f :
  reg_ok i -> in_tasks i !! loc = Some t -> record_at i loc = Some r ->
  same_record r (f r) -> fs_is_terminal (fr_state (f r)) = true -> (exists e, fr_terminal (f r) = TFinished e) ->
  reg_ok (update_record loc f i <| in_tasks := delete loc (in_tasks i) |> <| in_admission := in_admission i + 1 |>).
Proof.
  intros Hok Ht Hr Hsame Hst [exit Hexit]. pose proof Hok as [R1 R2 R3 R4 R5 R6 R7 R8 R9 R10].
  match goal with |- reg_ok ?j => set (j0 := j) end.
  assert (forall l x, in_records i !! l = Some x -> record_at j0 l = Some (if decide (l = loc) then f r else x)) as Hrec.
  { intros l x Hl. unfold record_at, j0. cbn. destruct (decide (l = loc)) as [->|Hne].
    - rewrite lookup_alter_eq. unfold record_at in Hr. by rewrite Hr.
    - by rewrite lookup_alter_ne. }
  assert (forall l x, record_at j0 l = Some x -> exists y, in_records i !! l = Some y /\ x = if decide (l = loc) then f r else y) as Hrec'.
  { intros l x Hx. assert (is_Some (in_records i !! l)) as [y Hy].
    { unfold record_at, j0 in Hx. cbn in Hx. apply mk_is_Some in Hx. by rewrite lookup_alter_is_Some in Hx. }
    exists y. split; [done|]. rewrite (Hrec l y Hy) in Hx. by injection Hx. }
  unfold reg_ok. apply (reg_with_ext (refs_of i)).
  - split; cbn; try done.
    + intros id l Hid. destruct (R2 id l Hid) as (x & e & Hx & Hxid & Hxt & He & Hobj).
      exists (if decide (l = loc) then f r else x), e. rewrite (Hrec l x Hx). split; [done|]. case_decide as Hl; [|done].
      subst l. replace x with r in * by (unfold record_at in *; congruence). destruct Hsame as [-> _ -> ->]. by rewrite Hexit.
    + intros l u. rewrite lookup_delete_Some. intros [Hne Hu]. destruct (R3 l u Hu) as (x & Hx & Hp & Hl). exists x.
      by rewrite (Hrec l x Hx), decide_False.
    + intros l x (y & Hy & ->)%Hrec'. case_decide as Hl; [by rewrite Hexit|]. rewrite lookup_delete_ne by done. by apply (R4 l).
    + intros l x (y & Hy & ->)%Hrec'. case_decide as Hl; [|by apply (R5 l)]. by rewrite Hst, Hexit.
    + rewrite map_size_delete_Some by (by exists t). assert (size (in_tasks i) <> 0%nat) by (apply map_size_non_empty_iff; intros He; by rewrite He in Ht).
      lia.
    + intros l [x (y & Hy & _)%Hrec']. apply R10. by exists y.
  - intros k. unfold refs_of, j0. cbn. apply refs_records. intros id l _.
    destruct (decide (l = loc)) as [->|Hne]; [|by rewrite lookup_alter_ne]. rewrite lookup_alter_eq.
    unfold record_at in Hr. rewrite Hr. cbn. by destruct Hsame as [_ _ _ ->].
Qed.

Lemma reg_ok_task i loc t t' :
  reg_ok i -> in_tasks i !! loc = Some t -> reg_ok (i <| in_tasks := <[loc := t']> (in_tasks i) |>).
Proof.
  intros [R1 R2 R3 R4 R5 R6 R7 R8 R9 R10] Ht. split; cbn; try done.
  - intros l u. rewrite lookup_insert_Some. intros [[<- _]|[_ Hu]]; [by apply (R3 loc t)|by apply (R3 l u)].
  - intros l r Hr Hp. rewrite lookup_insert_is_Some'. right. by apply (R4 l r).
  - by rewrite map_size_insert_Some by (by exists t).
Qed.

Lemma start_task_same r now : same_record r (start_task now r) /\ fr_terminal (start_task now r) = fr_terminal r.
Proof. unfold start_task, set_state. case_decide; by repeat split. Qed.

Lemma start_task_live r now :
  fs_is_terminal (fr_state r) = false -> fs_is_terminal (fr_state (start_task now r)) = false.
Proof. unfold start_task, set_state. by case_decide. Qed.

Lemma task_live i loc t r :
  reg_ok i -> in_tasks i !! loc = Some t -> record_at i loc = Some r ->
  fr_terminal r = TPending /\ fs_is_terminal (fr_state r) = false /\ fg_fibers (in_fibers i) !! fr_fiber_id r = Some loc.
Proof.
  intros Hok Ht Hr. destruct (ro_tasks _ _ Hok loc t Ht) as (x & Hx & Hp & Hid). replace x with r in * by congruence.
  split; [done|]. split; [|done]. rewrite (ro_state _ _ Hok loc r Hr), Hp. done.
Qed.

(** The state after the start of the body was metered. *)
Definition started_at (loc : nat) (t : FiberTask) (now : Z) (i : Inner) : Inner :=
  match tk_started t with
  | Some _ => i
  | None => update_record loc (start_task now)
              (i <| in_tasks := <[loc := {| tk_deadline := tk_deadline t; tk_started := Some now |}]> (in_tasks i) |>)
  end.

Lemma started_ok i loc t r now :
  reg_ok i -> in_tasks i !! loc = Some t -> record_at i loc = Some r ->
  reg_ok (started_at loc t now i) /\ is_Some (in_tasks (started_at loc t now i) !! loc) /\
  exists r', record_at (started_at loc t now i) loc = Some r' /\ same_record r r'.
Proof.
  intros Hok Ht Hr. unfold started_at. destruct (tk_started t) as [s|].
  { split; [done|]. split; [by exists t|]. exists r. by repeat split. }
  set (t' := {| tk_deadline := tk_deadline t; tk_started := Some now |}).
  pose proof (reg_ok_task i loc t t' Hok Ht) as Hok1. split; [|split].
  - apply reg_ok_update; [done|]. intros x Hx. change (record_at i loc = Some x) in Hx. replace x with r in * by congruence.
    destruct (task_live i loc t r Hok Ht Hr) as (_ & Hl & _). destruct (start_task_same r now) as [Hs Htm].
    split; [done|]. split; [done|]. by rewrite (start_task_live r now Hl), Hl.
  - cbn. rewrite lookup_insert_eq. by eexists.
  - exists (start_task now r). split; [|apply start_task_same]. unfold record_at, update_record in *. cbn.
    by rewrite lookup_alter_eq, Hr.
Qed.

(** The terminal transition of a live task. *)
Lemma task_finish_ok i loc t r state s e keep :
  reg_ok i -> in_tasks i !! loc = Some t -> record_at i loc = Some r -> fs_is_terminal state = true ->
  let i' := drop_waits keep (finish_terminal loc state s e i) in
  reg_ok (i' <| in_tasks := delete loc (in_tasks i') |> <| in_admission := in_admission i' + 1 |>).
Proof.
  intros Hok Ht Hr Hst i'. destruct (task_live i loc t r Hok Ht Hr) as (Hp & _ & Hid).
  set (g := fun x => close_usage state s e x <| fr_terminal := TFinished (fiber_exit_from_state state) |>).
  pose proof (end_ok i loc t r g Hok Ht Hr ltac:(done) Hst ltac:(by eexists)) as Hend.
  set (j := update_record loc g i <| in_tasks := delete loc (in_tasks i) |> <| in_admission := in_admission i + 1 |>) in *.
  set (m := update_record loc g i).
  assert (finish_terminal loc state s e i = if fr_reap_on_terminal r then reap_fiber (close_usage state s e r) m else m) as Hfin.
  { unfold finish_terminal, finish. unfold record_at, update_record in *. cbn. rewrite lookup_alter_eq, Hr. cbn.
    rewrite Hp, decide_True by done. unfold m, update_record. cbn. rewrite alter_alter_eq. done. }
  unfold i'. rewrite Hfin. destruct (fr_reap_on_terminal r); [|by apply (reg_ok_agree j)].
  assert (record_at j loc = Some (g r)) as Hj by (unfold record_at, j, update_record in *; cbn; by rewrite lookup_alter_eq, Hr).
  pose proof (reap_ok j loc (g r) id Hend ltac:(done) Hj ltac:(done) ltac:(by repeat split) ltac:(done)) as Hreap.
  destruct (reap_fields (close_usage state s e r) m) as (F1 & F2 & F3 & F4 & _).
  assert (update_record loc id j = j) as Hj' by (unfold update_record; rewrite alter_id by done; by destruct j).
  rewrite Hj' in Hreap. destruct (reap_fields (g r) j) as (G1 & G2 & G3 & G4 & _).
  assert (in_fibers (reap_fiber (close_usage state s e r) m) = in_fibers (reap_fiber (g r) j) /\
          in_scopes (reap_fiber (close_usage state s e r) m) = in_scopes (reap_fiber (g r) j)) as [E1 E2].
  { apply (reap_registries (g r) m j); done. }
  apply (reg_ok_agree _ _ Hreap); cbn.
  - exact E1.
  - exact E2.
  - by rewrite F3, G3.
  - by rewrite F2, G2.
  - by rewrite F1, G1.
  - by rewrite F4, G4.
Qed.

Lemma task_poll_ok loc body now fin i : reg_ok i -> reg_ok (task_poll loc body now fin i).
Proof.
  intros Hok. unfold task_poll. destruct (in_tasks i !! loc) as [t|] eqn:Ht; [|done].
  destruct (record_at i loc) as [r|] eqn:Hr; [|done]. fold (started_at loc t now i).
  destruct (started_ok i loc t r now Hok Ht Hr) as (Hok1 & [t' Ht'] & r' & Hr' & _).
  destruct (task_ended _ _ body now) as [state|] eqn:Hend; [|done].
  apply (task_finish_ok _ loc t' r'); [done|done|done|]. revert Hend. unfold task_ended. destruct (is_cancelled _ _); [by intros [= <-]|].
  destruct (deadline_passed _ _); [by intros [= <-]|]. destruct body as [|[[]|]]; by intros [= <-].
Qed.
End invariant.
