(* ===== verification/FiberRuns.v ===== *)
(** * FiberRuns: histories of the runtime adapter

    Sequences of requests and of polls of tasks and waits, with the critical sections
    that other threads can come between as steps of their own, and what the registries
    and the wait registry of [Fibers] guarantee over them. *)

From S2P Require Import Prelude Operation FiberMeter Fibers FiberInv.

Inductive boundary := BeginBackpressure | ResumeBackpressure | BeginSuspended | ResumeSuspended.

Definition cross (b : boundary) : Z -> FiberRecord -> FiberRecord :=
  match b with
  | BeginBackpressure => begin_backpressure_wait
  | ResumeBackpressure => resume_from_backpressure_wait
  | BeginSuspended => begin_suspended
  | ResumeSuspended => resume_from_suspended
  end.

Inductive rt_op :=
  | RSpawn (spec : FiberSpec) (now : Z)
  | RPoll (loc : nat) (body : body_poll) (now finished_at : Z)
  | RCancel (id generation : Z)
  | RCancelProcess (process_id process_generation : Z)
  | RJoin (h : FiberHandle)
  | RDetach (h : FiberHandle)
  | RBoundary (b : boundary) (h : FiberHandle) (now : Z)
  | RWake (h : FiberHandle) (operation_id operation_generation now : Z)
  | RWait (h : FiberHandle) (operation_id operation_generation now : Z)
  | RPollWait (w : OperationWait)
  | RDropWait (w : OperationWait)
  | RShutdown
  (* the critical sections of threads that looked the record up earlier *)
  | RJoinAt (loc : nat)
  | RDetachAt (loc : nat)
  | RWakeAt (loc : nat) (key : WaitKey) (now : Z)
  | RWaitAt (loc : nat) (key : WaitKey) (now : Z)
  | RShutdownFlag
  | RShutdownClear.

Definition rt_step (i : Inner) (o : rt_op) : Inner :=
  match o with
  | RSpawn spec now => (spawn_fiber spec now i).1
  | RPoll loc body now fin => task_poll loc body now fin i
  | RCancel id g => (cancel_scope id g i).1
  | RCancelProcess p g => (cancel_process_fibers p g i).1
  | RJoin h => (join_fiber h i).1
  | RDetach h => (detach_fiber h i).1
  | RBoundary b h now => (on_fiber (cross b now) h i).1
  | RWake h o g now => (wake h o g now i).1
  | RWait h o g now => (wait_for_operation h o g now i).1
  | RPollWait w => (poll_wait w i).1
  | RDropWait w => drop_wait w i
  | RShutdown => shutdown i
  | RJoinAt loc => (record_join loc i).1
  | RDetachAt loc => record_detach loc i
  | RWakeAt loc key now => (wake_deliver loc key now i).1
  | RWaitAt loc key now => (wait_register loc key now i).1
  | RShutdownFlag => shutdown_flag i
  | RShutdownClear => shutdown_clear i
  end.

Definition rt_run : Inner -> list rt_op -> Inner := foldl rt_step.

(** A request that runs from its look-up to its end before the next one. *)
Definition sequential (o : rt_op) : bool :=
  match o with
  | RJoinAt _ | RDetachAt _ | RWakeAt _ _ _ | RWaitAt _ _ _ | RShutdownFlag | RShutdownClear => false
  | _ => true
  end.

(** ** The registries over sequential histories *)

Lemma resolve_spec i h loc :
  resolve i h = Ok loc ->
  fg_fibers (in_fibers i) !! fiber_id h = Some loc /\ exists r, record_at i loc = Some r /\ fr_generation r = fiber_generation h.
Proof.
  unfold resolve. destruct (fg_fibers (in_fibers i) !! fiber_id h) as [l|] eqn:Hid; [|by destruct (tombstoned _ _ _)].
  destruct (record_at i l) as [r|] eqn:Hr; [|done]. case_decide as Hg; [done|]. intros [= <-]. split; [done|]. exists r.
  split; [done|]. by destruct (decide (fr_generation r = fiber_generation h)).
Qed.

Lemma cross_same b now r :
  same_record r (cross b now r) /\ fr_terminal (cross b now r) = fr_terminal r /\
  fs_is_terminal (fr_state (cross b now r)) = fs_is_terminal (fr_state r).
Proof.
  destruct b; cbn [cross];
    unfold begin_backpressure_wait, resume_from_backpressure_wait, begin_suspended, resume_from_suspended, begin_phase, resume_from;
    try (case_decide as Hs; [rewrite Hs|]); try (destruct (fr_state r) eqn:Hs'; cbn; rewrite ?Hs'); by repeat split.
Qed.

Lemma begin_wait_same now r :
  same_record r (begin_wait now r) /\ fr_terminal (begin_wait now r) = fr_terminal r /\
  fs_is_terminal (fr_state (begin_wait now r)) = fs_is_terminal (fr_state r).
Proof. unfold begin_wait, begin_phase. destruct (fr_state r) eqn:Hs; cbn; rewrite ?Hs; by repeat split. Qed.

Lemma resume_wait_same now r :
  same_record r (resume_from_wait now r) /\ fr_terminal (resume_from_wait now r) = fr_terminal r /\
  fs_is_terminal (fr_state (resume_from_wait now r)) = fs_is_terminal (fr_state r).
Proof. unfold resume_from_wait, resume_from. case_decide as Hs; [rewrite Hs|]; by repeat split. Qed.

Section registries.
Context (config : TokioRuntimeConfig).

Lemma join_ok h i : reg_ok config i -> reg_ok config (join_fiber h i).1.
Proof.
  intros Hok. unfold join_fiber. destruct (resolve i h) as [loc|e] eqn:Hres; [|done].
  apply resolve_spec in Hres as (Hid & r & Hr & _). unfold record_join. rewrite Hr.
  destruct (ro_fibers _ _ _ Hok _ _ Hid) as (x & _ & Hx & Hxid & _). replace x with r in * by congruence.
  destruct (fr_terminal r) eqn:Ht; try done. rewrite <- Hxid in Hid. by apply reap_ok; rewrite ?Ht.
Qed.

Lemma detach_ok h i : reg_ok config i -> reg_ok config (detach_fiber h i).1.
Proof.
  intros Hok. unfold detach_fiber. destruct (resolve i h) as [loc|e] eqn:Hres; [|done].
  apply resolve_spec in Hres as (Hid & r & Hr & _). cbn [fst]. unfold record_detach. rewrite Hr.
  destruct (ro_fibers _ _ _ Hok _ _ Hid) as (x & _ & Hx & Hxid & _). replace x with r in * by congruence. rewrite <- Hxid in Hid.
  destruct (fr_terminal r) eqn:Ht; [by apply reg_ok_update|by apply reap_ok; cbn; rewrite ?Ht|by apply reg_ok_update].
Qed.

Lemma cancel_scope_ok id g i : reg_ok config i -> reg_ok config (cancel_scope id g i).1.
Proof. intros Hok. unfold cancel_scope. destruct (sg_scopes (in_scopes i) !! (id, g)); [|done]. by apply (reg_ok_agree _ i). Qed.

Lemma cancel_process_ok p g i : reg_ok config i -> reg_ok config (cancel_process_fibers p g i).1.
Proof.
  intros Hok. unfold cancel_process_fibers. generalize (remove_dups (fr_scope_key <$> matched_records p g i)) as keys.
  intros keys. match goal with |- context [foldl ?f _ keys] => set (F := f) end.
  assert (forall c v j, reg_ok config j -> reg_ok config (foldl F (j, c, v) keys).1.1) as Hfold.
  { induction keys as [|key keys IH]; intros c v j Hj; [done|]. cbn [foldl]. unfold F at 2.
    pose proof (cancel_scope_ok key.1 key.2 j Hj) as Hc. destruct (cancel_scope key.1 key.2 j) as [j' [u|e]]; by apply IH. }
  specialize (Hfold 0%nat 0%nat i Hok). by destruct (foldl F _ keys) as [[j c] v].
Qed.

Lemma wake_deliver_ok loc key now i : reg_ok config i -> reg_ok config (wake_deliver loc key now i).1.
Proof.
  intros Hok. unfold wake_deliver. destruct (in_shutdown i); [done|]. destruct (record_terminal i loc); [done|].
  destruct (in_waits i !! key) as [[c|]|]; [|done|by apply (reg_ok_agree _ i)]. cbn [fst].
  apply reg_ok_update; [|intros; apply resume_wait_same]. destruct (receiver_there i c); by apply (reg_ok_agree _ i).
Qed.

Lemma wait_register_ok loc key now i : reg_ok config i -> reg_ok config (wait_register loc key now i).1.
Proof.
  intros Hok. unfold wait_register. destruct (in_shutdown i); [done|]. destruct (record_at i loc) as [r|]; [|done].
  destruct (_ || _); [done|]. destruct (in_waits i !! key) as [[c|]|]; [|by apply (reg_ok_agree _ i)|];
    (apply reg_ok_update; [|intros; apply begin_wait_same]; apply (reg_ok_agree _ i); try done; cbn; lia).
Qed.

Lemma rt_step_ok i o : sequential o = true -> reg_ok config i -> reg_ok config (rt_step i o).
Proof.
  intros Hs Hok. destruct o; try done; cbn [rt_step].
  - by apply spawn_ok.
  - by apply task_poll_ok.
  - by apply cancel_scope_ok.
  - by apply cancel_process_ok.
  - by apply join_ok.
  - by apply detach_ok.
  - unfold on_fiber. destruct (resolve i h); [|done]. apply reg_ok_update; [done|]. intros; apply cross_same.
  - unfold wake. destruct (wake_lookup h i); [by apply wake_deliver_ok|done].
  - unfold wait_for_operation. destruct (in_shutdown i); [done|]. destruct (resolve i h) as [loc|]; [|done].
    pose proof (wait_register_ok loc (wait_key h operation_id operation_generation) now i Hok) as Hw.
    by destruct (wait_register loc _ now i).
  - unfold poll_wait. destruct w as [|key c scope]; [done|].
    destruct (is_cancelled i scope); [|by destruct (in_channels i !! c)]. cbn [fst]. unfold remove_pending.
    destruct (in_waits i !! key) as [[]|]; [by apply (reg_ok_agree _ i)|done|done].
  - unfold drop_wait. destruct w; [done|]. by apply (reg_ok_agree _ i).
  - unfold shutdown, shutdown_clear, shutdown_flag, drop_waits. by apply (reg_ok_agree _ i).
Qed.

Lemma rt_run_ok i ops : Forall (fun o => sequential o = true) ops -> reg_ok config i -> reg_ok config (rt_run i ops).
Proof. intros Hs. revert i. induction Hs as [|o ops Ho _ IH]; intros i Hok; [done|]. by apply IH, rt_step_ok. Qed.
End registries.

(** ** What a step does to the records *)

(** An outcome that was consumed stays so, and only a poll of its task ends a fiber. *)
Definition outcome_later (o : rt_op) (loc : nat) (r r' : FiberRecord) : Prop :=
  same_record r r' /\ (fr_terminal r = TConsumed -> fr_terminal r' = TConsumed) /\
  (fr_terminal r <> TPending -> fr_terminal r' <> TPending) /\
  (fr_terminal r = TPending -> fr_terminal r' = TPending \/ exists body now fin, o = RPoll loc body now fin).

Lemma outcome_same o loc r r' : same_record r r' -> fr_terminal r' = fr_terminal r -> outcome_later o loc r r'.
Proof. intros Hs Ht. split; [done|]. rewrite Ht. split; [done|]. split; [done|]. by left. Qed.

Definition records_step (o : rt_op) (i i' : Inner) : Prop :=
  (in_next i <= in_next i')%nat /\
  (forall loc r', in_records i' !! loc = Some r' -> (exists r, in_records i !! loc = Some r) \/ (in_next i <= loc < in_next i')%nat) /\
  (forall loc r, in_records i !! loc = Some r -> (loc < in_next i)%nat -> exists r', in_records i' !! loc = Some r' /\ outcome_later o loc r r').

Lemma records_same o i i' : in_records i' = in_records i -> (in_next i <= in_next i')%nat -> records_step o i i'.
Proof.
  intros Hr Hn. split; [done|]. rewrite Hr. split; [intros loc r' Hl; left; by exists r'|].
  intros loc r Hl _. exists r. split; [done|]. apply outcome_same; by repeat split.
Qed.

Lemma records_alter o i i' loc f :
  in_records i' = alter f loc (in_records i) -> (in_next i <= in_next i')%nat ->
  (forall r, in_records i !! loc = Some r -> outcome_later o loc r (f r)) -> records_step o i i'.
Proof.
  intros Hr Hn Hf. split; [done|]. rewrite Hr. split.
  - intros l r'. rewrite lookup_alter_Some. intros [(<- & r & Hl & _)|[_ Hl]]; left; eauto.
  - intros l r Hl _. destruct (decide (l = loc)) as [->|Hne]; [rewrite lookup_alter_eq, Hl; eexists; split; [done|by apply Hf]|].
    rewrite lookup_alter_ne by done. exists r. split; [done|]. apply outcome_same; by repeat split.
Qed.

Lemma records_insert o i i' loc x :
  in_records i' = <[loc := x]> (in_records i) -> (in_next i <= loc < in_next i')%nat -> records_step o i i'.
Proof.
  intros Hr Hn. split; [lia|]. rewrite Hr. split.
  - intros l r'. rewrite lookup_insert_Some. intros [[<- _]|[_ Hl]]; [by right|left; eauto].
  - intros l r Hl Hlt. rewrite lookup_insert_ne by lia. exists r. split; [done|]. apply outcome_same; by repeat split.
Qed.

Lemma acquire_fields key i :
  let i1 := (scope_acquire key i).1 in
  in_records i1 = in_records i /\ (in_next i <= in_next i1)%nat /\ in_waits i1 = in_waits i /\ in_channels i1 = in_channels i /\
  in_shutdown i1 = in_shutdown i.
Proof.
  unfold scope_acquire. destruct (scope_fenced _ _); [done|]. destruct (sg_scopes _ !! key); cbn; split_and!; try done. lia.
Qed.

Lemma spawn_records spec now i : records_step (RSpawn spec now) i (spawn_fiber spec now i).1.
Proof.
  unfold spawn_fiber. destruct (in_shutdown i); [by apply records_same|]. destruct (deadline_passed _ now); [by apply records_same|].
  case_decide; [by apply records_same|]. pose proof (acquire_fields (fs_cancellation_scope_id spec, fs_cancellation_generation spec) i) as Ha.
  destruct (scope_acquire _ i) as [i1 [scope|e]]; [|by apply records_same]. destruct Ha as (Hr & Hn & _). cbn [fst] in *.
  destruct (is_cancelled i1 scope); [by apply records_same|].
  destruct (fg_fibers (in_fibers i1) !! fs_fiber_id spec); [by apply records_same|].
  destruct (tombstoned _ _ _); [by apply records_same|]. eapply records_insert; cbn; [by rewrite Hr|lia].
Qed.

Lemma cancel_process_fields p g i :
  let i' := (cancel_process_fibers p g i).1 in
  in_records i' = in_records i /\ in_next i' = in_next i /\ in_waits i' = in_waits i /\ in_channels i' = in_channels i /\
  in_shutdown i' = in_shutdown i.
Proof.
  unfold cancel_process_fibers. generalize (remove_dups (fr_scope_key <$> matched_records p g i)) as keys. intros keys.
  match goal with |- context [foldl ?f _ keys] => set (F := f) end.
  assert (forall c v j, let j' := (foldl F (j, c, v) keys).1.1 in
    in_records j' = in_records j /\ in_next j' = in_next j /\ in_waits j' = in_waits j /\ in_channels j' = in_channels j /\
    in_shutdown j' = in_shutdown j) as Hfold.
  { induction keys as [|key keys IH]; intros c v j; [done|]. cbn [foldl]. unfold F at 2 4 6 8 10. unfold cancel_scope.
    destruct (sg_scopes (in_scopes j) !! (key.1, key.2)); [|apply IH]. match goal with |- context [foldl F (?x, ?c, ?v) keys] => specialize (IH c v x) end.
    exact IH. }
  specialize (Hfold 0%nat 0%nat i). by destruct (foldl F _ keys) as [[j c] v].
Qed.

Lemma finish_records loc exit i :
  in_records (finish loc exit i) = alter (fun r => if decide (fr_terminal r = TPending) then r <| fr_terminal := TFinished exit |> else r) loc (in_records i) /\
  in_next (finish loc exit i) = in_next i.
Proof.
  unfold finish. unfold record_at. destruct (in_records i !! loc) as [r|] eqn:Hr.
  - case_decide as Ht.
    + assert (alter (fun r => r <| fr_terminal := TFinished exit |>) loc (in_records i) =
        alter (fun r => if decide (fr_terminal r = TPending) then r <| fr_terminal := TFinished exit |> else r) loc (in_records i)) as <-.
      { apply alter_ext. intros x Hx. rewrite decide_True; [done|congruence]. }
      destruct (fr_reap_on_terminal r); [|done].
      by destruct (reap_fields r (update_record loc (fun r => r <| fr_terminal := TFinished exit |>) i)) as (-> & _ & _ & -> & _).
    + split; [|done]. rewrite alter_id; [done|]. intros x Hx. rewrite decide_False; [done|congruence].
  - by rewrite alter_id'.
Qed.

Lemma poll_records loc body now fin i : records_step (RPoll loc body now fin) i (task_poll loc body now fin i).
Proof.
  unfold task_poll. destruct (in_tasks i !! loc) as [t|]; [|by apply records_same].
  destruct (record_at i loc) as [r|] eqn:Hr; [|by apply records_same]. fold (started_at loc t now i).
  assert (exists f, in_records (started_at loc t now i) = alter f loc (in_records i) /\ in_next (started_at loc t now i) = in_next i /\
    forall x, same_record x (f x) /\ fr_terminal (f x) = fr_terminal x) as (f & Hf & Hn & Hsame).
  { unfold started_at. destruct (tk_started t); [exists id|exists (start_task now)].
    - split; [by rewrite alter_id|]. split; [done|]. intros x. by repeat split.
    - split; [done|]. split; [done|]. intros x. apply start_task_same. }
  destruct (task_ended _ _ body now) as [state|].
  - unfold finish_terminal. cbn. destruct (finish_records loc (fiber_exit_from_state state)
      (update_record loc (close_usage state (default now (tk_started t)) fin) (started_at loc t now i))) as [Hr' Hn'].
    eapply (records_alter _ _ _ loc); cbn; [|by rewrite Hn'; cbn; rewrite Hn|].
    + rewrite Hr'. cbn. rewrite Hf, !alter_alter_eq. reflexivity.
    + intros x _. destruct (Hsame x) as [[S1 S2 S3 S4] St]. unfold compose.
      set (y := close_usage _ _ _ (f x)). assert (same_record x y /\ fr_terminal y = fr_terminal x) as [Hs Ht] by (by repeat split).
      case_decide as Hp; split; try (by repeat split); rewrite ?Ht; (split; [|split; [|intros _; right; by eauto]]); try done.
      cbn. intros Hc. by rewrite Ht, Hc in Hp.
  - eapply (records_alter _ _ _ loc f); [done|by rewrite Hn|]. intros x _. by apply outcome_same; apply Hsame.
Qed.

Lemma join_records loc o i : records_step o i (record_join loc i).1.
Proof.
  unfold record_join, record_at. destruct (in_records i !! loc) as [r|] eqn:Hr; [|by apply records_same].
  destruct (fr_terminal r) eqn:Ht; [by apply records_same| |by apply records_same]. cbn [fst].
  destruct (reap_fields r (update_record loc (fun r => r <| fr_terminal := TConsumed |>) i)) as (E & _ & _ & En & _).
  eapply (records_alter _ _ _ loc); [by rewrite E|by rewrite En|]. intros x Hx. replace x with r by congruence.
  split; [by repeat split|]. by rewrite Ht.
Qed.

Lemma detach_records loc o i : records_step o i (record_detach loc i).
Proof.
  unfold record_detach, record_at. destruct (in_records i !! loc) as [r|] eqn:Hr; [|by apply records_same].
  set (f := fun r => r <| fr_reap_on_terminal := true |>).
  assert (records_step o i (update_record loc f i)) as Hu.
  { eapply (records_alter _ _ _ loc); [done..|]. intros x _. by apply outcome_same; repeat split. }
  destruct (fr_terminal r); [done| |done]. destruct (reap_fields r (update_record loc f i)) as (E & _ & _ & En & _).
  eapply (records_alter _ _ _ loc); [by rewrite E|by rewrite En|]. intros x _. by apply outcome_same; repeat split.
Qed.

Lemma wake_records loc key now o i : records_step o i (wake_deliver loc key now i).1.
Proof.
  unfold wake_deliver. destruct (in_shutdown i); [by apply records_same|]. destruct (record_terminal i loc); [by apply records_same|].
  destruct (in_waits i !! key) as [[c|]|]; [|by apply records_same..]. cbn [fst].
  eapply (records_alter _ _ _ loc); [by destruct (receiver_there i c)|by destruct (receiver_there i c)|].
  intros x _. by apply outcome_same; apply resume_wait_same.
Qed.

Lemma wait_records loc key now o i : records_step o i (wait_register loc key now i).1.
Proof.
  unfold wait_register. destruct (in_shutdown i); [by apply records_same|]. destruct (record_at i loc) as [r|]; [|by apply records_same].
  destruct (_ || _); [by apply records_same|]. destruct (in_waits i !! key) as [[c|]|]; [|by apply records_same|];
    (eapply (records_alter _ _ _ loc); [done|cbn; lia|]; intros x _; apply outcome_same; apply begin_wait_same).
Qed.

Lemma step_records i o : records_step o i (rt_step i o).
Proof.
  destruct o; cbn [rt_step].
  - apply spawn_records.
  - apply poll_records.
  - unfold cancel_scope. by destruct (sg_scopes _ !! _); apply records_same.
  - destruct (cancel_process_fields process_id process_generation i) as (Hr & Hn & _). apply records_same; [done|by rewrite Hn].
  - unfold join_fiber. destruct (resolve i h); [apply join_records|by apply records_same].
  - unfold detach_fiber. destruct (resolve i h); [apply detach_records|by apply records_same].
  - unfold on_fiber. destruct (resolve i h); [|by apply records_same]. eapply records_alter; [done..|].
    intros x _. by apply outcome_same; apply cross_same.
  - unfold wake. destruct (wake_lookup h i); [apply wake_records|by apply records_same].
  - unfold wait_for_operation. destruct (in_shutdown i); [by apply records_same|]. destruct (resolve i h) as [loc|]; [|by apply records_same].
    pose proof (wait_records loc (wait_key h operation_id operation_generation) now (RWait h operation_id operation_generation now) i) as Hw.
    by destruct (wait_register loc _ now i).
  - unfold poll_wait. destruct w as [|key c scope]; [by apply records_same|].
    destruct (is_cancelled i scope); [|by destruct (in_channels i !! c); apply records_same]. cbn [fst]. unfold remove_pending.
    by destruct (in_waits i !! key) as [[]|]; apply records_same.
  - by destruct w; apply records_same.
  - by apply records_same.
  - apply join_records.
  - apply detach_records.
  - apply wake_records.
  - apply wait_records.
  - by apply records_same.
  - by apply records_same.
Qed.

(** Locations are handed out once. *)
Definition located (i : Inner) : Prop := forall loc r, in_records i !! loc = Some r -> (loc < in_next i)%nat.

Lemma located_step i o : located i -> located (rt_step i o).
Proof.
  intros Hl loc r Hr. destruct (step_records i o) as (Hn & Hback & _). destruct (Hback loc r Hr) as [[x Hx]|]; [|lia].
  specialize (Hl loc x Hx). lia.
Qed.

Lemma located_run i ops : located i -> located (rt_run i ops).
Proof. revert i. induction ops as [|o ops IH]; intros i Hl; [done|]. by apply IH, located_step. Qed.

Lemma located_new config i : adapter_new config = Ok i -> located i.
Proof. unfold adapter_new. case_decide; [done|]. intros [= <-] loc r. cbn. by rewrite lookup_empty. Qed.

Lemma consumed_stays i ops loc r :
  located i -> in_records i !! loc = Some r -> fr_terminal r = TConsumed ->
  exists r', in_records (rt_run i ops) !! loc = Some r' /\ same_record r r' /\ fr_terminal r' = TConsumed.
Proof.
  revert i r. induction ops as [|o ops IH]; intros i r Hl Hr Ht; [by exists r; repeat split|].
  destruct (step_records i o) as (_ & _ & Hfwd). destruct (Hfwd loc r Hr (Hl loc r Hr)) as (x & Hx & [S1 S2 S3 S4] & Hc & _ & _).
  destruct (IH (rt_step i o) x (located_step i o Hl) Hx (Hc Ht)) as (y & Hy & [T1 T2 T3 T4] & Hyt). exists y.
  split; [done|]. split; [|done]. by split; etransitivity.
Qed.

(** C34. The exit of a fiber is handed to one joiner: however threads interleave their
    look-ups, joins, detaches, wakes and the shutdown, a join that returned an exit
    consumed it, and every later join through the same record reports the fiber as
    reaped. *)
Theorem exit_joined_once config i0 ops loc r exit i1 ops' :
  adapter_new config = Ok i0 ->
  let i := rt_run i0 ops in
  record_at i loc = Some r -> record_join loc i = (i1, Some (Ok exit)) ->
  fr_terminal r = TFinished exit /\
  (record_join loc (rt_run i1 ops')).2 = Some (Err (RtFiberReaped (fr_fiber_id r) (fr_generation r))).
Proof.
  intros Hnew i Hr Hj. assert (located i) as Hl by (by eapply located_run, located_new). unfold record_join in Hj. rewrite Hr in Hj.
  destruct (fr_terminal r) eqn:Ht; [by destruct (in_shutdown i)| |done]. injection Hj as Hi1 ->. split; [done|].
  set (m := update_record loc (fun r => r <| fr_terminal := TConsumed |>) i). change (reap_fiber r m = i1) in Hi1. subst i1.
  assert (in_records (reap_fiber r m) !! loc = Some (r <| fr_terminal := TConsumed |>)) as Hm.
  { destruct (reap_fields r m) as (-> & _). unfold m, update_record, record_at in *. cbn. by rewrite lookup_alter_eq, Hr. }
  assert (located (reap_fiber r m)) as Hlm.
  { pose proof (located_step i (RJoinAt loc) Hl) as Hs. cbn [rt_step] in Hs. unfold record_join in Hs. by rewrite Hr, Ht in Hs. }
  destruct (consumed_stays _ ops' loc _ Hlm Hm eq_refl) as (x & Hx & [S1 S2 _ _] & Hxt).
  unfold record_join, record_at. by rewrite Hx, Hxt, S1, S2.
Qed.

(** ** The race of two detaches *)

Definition example_runtime : TokioRuntimeConfig := {| max_live_fibers := 4; tombstone_capacity := 8; scope_tombstone_capacity := 8 |}.

Definition example_spec (generation : Z) : FiberSpec := {|
  fs_fiber_id := 1; fs_fiber_generation := generation; fs_agent_instance_id := 1; fs_agent_generation := 1;
  fs_process_id := 1; fs_process_generation := 1; fs_task_attempt_id := None; fs_cancellation_scope_id := 9;
  fs_cancellation_generation := 1; fs_resource_group_id := 1; fs_scheduler_domain_id := 1; fs_deadline := None
|}.

Definition runtime_start : Inner := inner_new example_runtime.

(** Generation 1 of a fiber has ended. Two threads look its record up to detach it. The
    first reaps it, generation 2 is born, and the second runs its critical section. *)
Definition detach_race : list rt_op := [
  RSpawn (example_spec 1) 10;
  RPoll 1 (BodyReturned (Some ExitCompleted)) 20 30;
  RDetachAt 1;
  RSpawn (example_spec 2) 40;
  RDetachAt 1
].


(** ** Consistency of the registries *)



(** Spawned, ended and joined. *)
Definition example_join : list rt_op := [RSpawn (example_spec 1) 10; RPoll 1 (BodyReturned (Some ExitCompleted)) 20 30].

Lemma exit_joined_once_witness :
  (record_join 1 (rt_run (record_join 1 (rt_run runtime_start example_join)).1 [RDetachAt 1])).2 = Some (Err (RtFiberReaped 1 1)).
Proof.
  destruct (record_at (rt_run runtime_start example_join) 1) as [r|] eqn:Hr; [|by vm_compute in Hr].
  destruct (record_join 1 (rt_run runtime_start example_join)) as [i1 a] eqn:Hj.
  assert (a = Some (Ok ExitCompleted) /\ fr_fiber_id r = 1 /\ fr_generation r = 1) as (-> & Hid & Hg).
  { split; [by vm_compute in Hj; injection Hj|]. vm_compute in Hr. injection Hr as <-. done. }
  cbn [fst]. destruct (exit_joined_once example_runtime runtime_start example_join 1 r ExitCompleted i1 [RDetachAt 1] eq_refl Hr Hj)
    as [_ Hx]. by rewrite Hx, Hid, Hg.
Defined.
