(* ===== verification/FiberWaits.v ===== *)
(** * FiberWaits: waits for operations do not hang and wakes are not lost

    The wait registry of [Fibers] over the histories of [FiberRuns]. *)

From S2P Require Import Prelude Operation FiberMeter Fibers FiberInv FiberRuns.

(** ** Channels *)

(** The channel has a value or has lost its sender. *)
Definition settled (o : Oneshot) : Prop := oc_sent o = true \/ oc_closed o = true.

Record channel_later (o o' : Oneshot) : Prop := {
  ch_sent : oc_sent o = true -> oc_sent o' = true;
  ch_closed : oc_closed o = true -> oc_closed o' = true;
}.

#[export] Instance channel_later_preorder : PreOrder channel_later.
Proof. split; [by split|]. intros a b c [A1 A2] [B1 B2]. split; auto. Qed.

Lemma settled_later o o' : channel_later o o' -> settled o -> settled o'.
Proof. intros [H1 H2] [Hs|Hc]; [left|right]; auto. Qed.

(** What a step does to the channels that were there and to the pending entries. *)
Record waits_step (i i' : Inner) : Prop := {
  ws_next : (in_next i <= in_next i')%nat;
  ws_back c o' : in_channels i' !! c = Some o' -> is_Some (in_channels i !! c) \/ (in_next i <= c < in_next i')%nat;
  ws_later c o : in_channels i !! c = Some o -> (c < in_next i)%nat -> exists o', in_channels i' !! c = Some o' /\ channel_later o o';
  ws_pending key c o : in_waits i !! key = Some (PendingWait c) -> in_channels i !! c = Some o -> (c < in_next i)%nat ->
    in_waits i' !! key = Some (PendingWait c) \/ exists o', in_channels i' !! c = Some o' /\ settled o';
}.

Lemma waits_same i i' :
  in_waits i' = in_waits i -> in_channels i' = in_channels i -> (in_next i <= in_next i')%nat -> waits_step i i'.
Proof.
  intros Hw Hc Hn. split; [done|..]; rewrite ?Hw, ?Hc.
  - intros c o' Ho. left. by exists o'.
  - intros c o Ho _. by exists o.
  - intros key c o Hk _ _. by left.
Qed.

(** The entry of one key changes, and the channel it had is settled. *)
Lemma waits_alter i i' key f :
  (forall k, k <> key -> in_waits i' !! k = in_waits i !! k) -> (in_next i <= in_next i')%nat ->
  (forall o, channel_later o (f o)) -> (forall o, settled (f o)) ->
  in_channels i' = match in_waits i !! key with
                   | Some (PendingWait c) => alter f c (in_channels i) | _ => in_channels i end ->
  waits_step i i'.
Proof.
  intros Hother Hn Hf Hset Hc.
  assert (forall c o, in_channels i !! c = Some o -> exists o', in_channels i' !! c = Some o' /\ channel_later o o') as Hlater.
  { intros c o Ho. rewrite Hc. destruct (in_waits i !! key) as [[x|]|]; [|by exists o..].
    destruct (decide (c = x)) as [->|Hne]; [rewrite lookup_alter_eq, Ho; by eexists|]. rewrite lookup_alter_ne by done. by exists o. }
  split; [done|..].
  - intros c o' Ho. left. rewrite Hc in Ho. destruct (in_waits i !! key) as [[x|]|]; [|by exists o'..].
    apply mk_is_Some in Ho. by rewrite lookup_alter_is_Some in Ho.
  - intros c o Ho _. by apply Hlater.
  - intros k c o Hk Ho _. destruct (decide (k = key)) as [->|Hne]; [right|left; by rewrite Hother].
    rewrite Hc, Hk, lookup_alter_eq, Ho. eexists. split; [done|]. apply Hset.
Qed.

Lemma close_later o : channel_later o (close_channel o) /\ settled (close_channel o).
Proof. split; [by split|by right]. Qed.

(** ** Dropped entries *)

Lemma drop_waits_lookup keep i k :
  in_waits (drop_waits keep i) !! k = if keep k then in_waits i !! k else None.
Proof.
  unfold drop_waits. cbn. rewrite map_lookup_filter. destruct (in_waits i !! k) as [e|]; cbn; [|by destruct (keep k)].
  destruct (keep k) eqn:Hk; [by rewrite option_guard_True|by rewrite option_guard_False].
Qed.

Lemma drop_entry_later e (cs : gmap nat Oneshot) c :
  match cs !! c with
  | Some o => exists o', drop_entry e cs !! c = Some o' /\ channel_later o o' /\ (e = PendingWait c -> settled o')
  | None => drop_entry e cs !! c = None
  end.
Proof.
  destruct e as [x|]; cbn; [|destruct (cs !! c) as [o|]; [by exists o|done]].
  destruct (decide (x = c)) as [->|Hne].
  - rewrite lookup_alter_eq. destruct (cs !! c) as [o|]; [|done]. eexists. split; [done|]. destruct (close_later o). done.
  - rewrite lookup_alter_ne by done. destruct (cs !! c) as [o|]; [|done]. exists o. split; [done|]. split; [done|]. congruence.
Qed.

Lemma dropped_channels keep (l : list (WaitKey * WaitEntry)) cs c :
  let cs' := foldr (fun p cs => if keep p.1 : bool then cs else drop_entry p.2 cs) cs l in
  match cs !! c with
  | Some o => exists o', cs' !! c = Some o' /\ channel_later o o' /\
      ((exists k, (k, PendingWait c) ∈ l /\ keep k = false) -> settled o')
  | None => cs' !! c = None
  end.
Proof.
  induction l as [|[k e] l IH]; cbn.
  - destruct (cs !! c) as [o|]; [|done]. exists o. split; [done|]. split; [done|]. intros (k & Hk & _). by apply elem_of_nil in Hk.
  - set (rest := foldr _ cs l) in *. destruct (keep k) eqn:Hk.
    + destruct (cs !! c) as [o|]; [|done]. destruct IH as (o' & Ho & Hl & Hset). exists o'. split; [done|]. split; [done|].
      intros (k' & Hin & Hk'). apply Hset. exists k'. split; [|done]. apply elem_of_cons in Hin as [[= -> _]|Hin]; [congruence|done].
    + pose proof (drop_entry_later e rest c) as Hd. destruct (cs !! c) as [o|].
      * destruct IH as (o' & Ho & Hl & Hset). rewrite Ho in Hd. destruct Hd as (o2 & Ho2 & Hl2 & Hset2). exists o2.
        split; [done|]. split; [by etransitivity|]. intros (k' & Hin & Hk').
        apply elem_of_cons in Hin as [[= -> <-]|Hin]; [by apply Hset2|]. eapply settled_later; [done|]. apply Hset. by exists k'.
      * by rewrite IH in Hd.
Qed.

Lemma waits_drop keep i : waits_step i (drop_waits keep i).
Proof.
  assert (forall c, match in_channels i !! c with
    | Some o => exists o', in_channels (drop_waits keep i) !! c = Some o' /\ channel_later o o' /\
        ((exists k, in_waits i !! k = Some (PendingWait c) /\ keep k = false) -> settled o')
    | None => in_channels (drop_waits keep i) !! c = None end) as Hc.
  { intros c. pose proof (dropped_channels keep (map_to_list (in_waits i)) (in_channels i) c) as Hd. cbn in Hd |- *.
    destruct (in_channels i !! c) as [o|]; [|done]. destruct Hd as (o' & Ho & Hl & Hset). exists o'. split; [done|]. split; [done|].
    intros (k & Hk & Hkeep). apply Hset. exists k. by rewrite elem_of_map_to_list. }
  split; [done|..].
  - intros c o' Ho. left. specialize (Hc c). destruct (in_channels i !! c) as [o|]; [by exists o|]. congruence.
  - intros c o Ho _. specialize (Hc c). rewrite Ho in Hc. destruct Hc as (o' & Ho' & Hl & _). by exists o'.
  - intros key c o Hk Ho _. rewrite drop_waits_lookup. destruct (keep key) eqn:Hkeep; [by left|right].
    specialize (Hc c). rewrite Ho in Hc. destruct Hc as (o' & Ho' & _ & Hset). exists o'. split; [done|]. apply Hset. by exists key.
Qed.

Lemma waits_step_agree i j i' j' :
  waits_step j j' -> in_waits i = in_waits j -> in_channels i = in_channels j -> in_next i = in_next j ->
  in_waits i' = in_waits j' -> in_channels i' = in_channels j' -> in_next i' = in_next j' -> waits_step i i'.
Proof.
  intros [W1 W2 W3 W4] A1 A2 A3 B1 B2 B3. split; rewrite ?A1, ?A2, ?A3, ?B1, ?B2, ?B3; done.
Qed.

Lemma finish_waits loc exit i :
  let i' := finish loc exit i in
  in_waits i' = in_waits i /\ in_channels i' = in_channels i /\ in_next i' = in_next i /\ in_shutdown i' = in_shutdown i /\
  in_cancelled i' = in_cancelled i.
Proof.
  unfold finish. destruct (record_at i loc) as [r|]; [|done]. case_decide; [|done].
  destruct (fr_reap_on_terminal r); [|done].
  by destruct (reap_fields r (update_record loc (fun r => r <| fr_terminal := TFinished exit |>) i)) as (_ & _ & _ & -> & -> & -> & -> & ->).
Qed.

(** A poll keeps the waits, or ends the fiber and drops those it had. *)
Lemma poll_waits loc body now fin i :
  let i' := task_poll loc body now fin i in
  in_waits i' = in_waits i /\ in_channels i' = in_channels i /\ in_next i' = in_next i /\ in_shutdown i' = in_shutdown i /\
    (forall r r', record_at i loc = Some r -> record_at i' loc = Some r' -> fr_terminal r' = fr_terminal r) \/
  exists r, record_at i loc = Some r /\ let keep k := negb (for_fiber k (fr_fiber_id r) (fr_generation r)) in
    in_waits i' = in_waits (drop_waits keep i) /\ in_channels i' = in_channels (drop_waits keep i) /\
    in_next i' = in_next i /\ in_shutdown i' = in_shutdown i /\ is_Some (in_tasks i !! loc) /\
    exists r', in_records i' !! loc = Some r' /\ fr_terminal r' <> TPending.
Proof.
  unfold task_poll. destruct (in_tasks i !! loc) as [t|] eqn:Ht; [|left; split_and!; try done; congruence].
  destruct (record_at i loc) as [r|] eqn:Hr; [|by left].
  fold (started_at loc t now i). set (j := started_at loc t now i).
  assert (in_waits j = in_waits i /\ in_channels j = in_channels i /\ in_next j = in_next i /\ in_shutdown j = in_shutdown i /\
    is_Some (in_records j !! loc)) as (J1 & J2 & J3 & J4 & [x Hx]).
  { unfold j, started_at, record_at in *. destruct (tk_started t); (split_and!; [done..|]); [by exists r|]. cbn.
    rewrite lookup_alter_eq, Hr. by eexists. }
  destruct (task_ended _ _ body now) as [state|]; cycle 1.
  { left. split_and!; try done. intros y y' [= <-]. unfold j, started_at. destruct (tk_started t); [congruence|].
    unfold record_at, update_record in *. cbn. rewrite lookup_alter_eq, Hr. intros [= <-]. apply start_task_same. }
  right. exists r. split; [done|]. cbv zeta.
  set (m := update_record loc (close_usage state (default now (tk_started t)) fin) j).
  destruct (finish_waits loc (fiber_exit_from_state state) m) as (F1 & F2 & F3 & F4 & _).
  destruct (finish_records loc (fiber_exit_from_state state) m) as [F5 _].
  unfold finish_terminal. fold m. cbn. rewrite F1, F2, F3, F4, F5. cbn. rewrite J1, J2, J3, J4. split_and!; try done.
  unfold m. cbn. rewrite !lookup_alter_eq, Hx. cbn. eexists. split; [done|]. by case_decide.
Qed.

Lemma wake_waits loc key now i : waits_step i (wake_deliver loc key now i).1.
Proof.
  unfold wake_deliver. destruct (in_shutdown i); [by apply waits_same|]. destruct (record_terminal i loc); [by apply waits_same|].
  destruct (in_waits i !! key) as [[c|]|] eqn:Hk; cbn [fst].
  - destruct (receiver_there i c).
    + apply (waits_alter _ _ key (fun o => {| oc_sent := true; oc_closed := oc_closed o; oc_receiver := oc_receiver o |})); try done.
      * intros k Hne. cbn. by rewrite lookup_delete_ne.
      * intros o. by left.
      * by rewrite Hk.
    + apply (waits_alter _ _ key close_channel); [|done|apply close_later|apply close_later|by rewrite Hk].
      intros k Hne. cbn. by rewrite lookup_insert_ne.
  - by apply waits_same.
  - apply (waits_alter _ _ key close_channel); [|done|apply close_later|apply close_later|by rewrite Hk].
    intros k Hne. cbn. by rewrite lookup_insert_ne.
Qed.

Lemma register_waits loc key now i : waits_step i (wait_register loc key now i).1.
Proof.
  unfold wait_register. destruct (in_shutdown i); [by apply waits_same|]. destruct (record_at i loc) as [r|]; [|by apply waits_same].
  destruct (_ || _); [by apply waits_same|].
  set (j := {| oc_sent := false; oc_closed := false; oc_receiver := true |}).
  assert (forall e, in_waits i !! key = e -> e <> Some BufferedWake -> waits_step i (update_record loc (begin_wait now)
    (i <| in_waits := <[key := PendingWait (in_next i)]> (in_waits i) |>
       <| in_channels := <[in_next i := j]> (match e with Some x => drop_entry x (in_channels i) | None => in_channels i end) |>
       <| in_next := S (in_next i) |>))) as Hnew.
  { intros e He Hb. assert (waits_step i (i <| in_waits := <[key := PendingWait (in_next i)]> (in_waits i) |>
       <| in_channels := match e with Some x => drop_entry x (in_channels i) | None => in_channels i end |>)) as [W1 W2 W3 W4].
    { apply (waits_alter _ _ key close_channel); [|done|apply close_later|apply close_later|].
      - intros k Hne. cbn. by rewrite lookup_insert_ne.
      - cbn. rewrite He. by destruct e as [[]|]. }
    cbn in W1, W2, W3, W4. split; cbn; [lia|..].
    - intros c o'. rewrite lookup_insert_Some. intros [[<- _]|[_ Ho]]; [right; lia|]. destruct (W2 c o' Ho); [by left|lia].
    - intros c o Ho Hlt. rewrite lookup_insert_ne by lia. by apply W3.
    - intros k c o Hk Ho Hlt. rewrite (lookup_insert_ne _ _ c) by lia. by apply (W4 k c o). }
  destruct (in_waits i !! key) as [[c|]|] eqn:Hk; cbn [fst].
  - by apply (Hnew (Some (PendingWait c))).
  - apply (waits_alter _ _ key close_channel); [|done|apply close_later|apply close_later|by rewrite Hk].
    intros k Hne. cbn. by rewrite lookup_delete_ne.
  - by apply (Hnew None).
Qed.

Lemma spawn_waits spec now i :
  let i' := (spawn_fiber spec now i).1 in
  in_waits i' = in_waits i /\ in_channels i' = in_channels i /\ (in_next i <= in_next i')%nat /\ in_shutdown i' = in_shutdown i.
Proof.
  unfold spawn_fiber. destruct (in_shutdown i) eqn:Hs; [done|]. destruct (deadline_passed _ now); [done|].
  case_decide; [done|]. pose proof (acquire_fields (fs_cancellation_scope_id spec, fs_cancellation_generation spec) i) as Ha.
  destruct (scope_acquire _ i) as [i1 [scope|e]]; [|done]. destruct Ha as (_ & Hn & Hw & Hc & Hd). cbn [fst] in *.
  destruct (is_cancelled i1 scope); [by rewrite <- Hs|]. destruct (fg_fibers (in_fibers i1) !! fs_fiber_id spec); [by rewrite <- Hs|].
  destruct (tombstoned _ _ _); [by rewrite <- Hs|]. cbn. rewrite <- Hs. split_and!; try done. lia.
Qed.

Lemma join_waits loc i :
  let i' := (record_join loc i).1 in
  in_waits i' = in_waits i /\ in_channels i' = in_channels i /\ in_next i' = in_next i /\ in_shutdown i' = in_shutdown i.
Proof.
  unfold record_join. destruct (record_at i loc) as [r|]; [|done]. destruct (fr_terminal r); [done| |done]. cbn [fst].
  by destruct (reap_fields r (update_record loc (fun r => r <| fr_terminal := TConsumed |>) i)) as (_ & _ & _ & -> & -> & -> & _ & ->).
Qed.

Lemma detach_waits loc i :
  let i' := record_detach loc i in
  in_waits i' = in_waits i /\ in_channels i' = in_channels i /\ in_next i' = in_next i /\ in_shutdown i' = in_shutdown i.
Proof.
  unfold record_detach. destruct (record_at i loc) as [r|]; [|done]. destruct (fr_terminal r); [done| |done].
  by destruct (reap_fields r (update_record loc (fun r => r <| fr_reap_on_terminal := true |>) i)) as (_ & _ & _ & -> & -> & -> & _ & ->).
Qed.

Lemma remove_pending_waits key i : waits_step i (remove_pending key i).
Proof.
  unfold remove_pending. destruct (in_waits i !! key) as [[c|]|] eqn:Hk; [|by apply waits_same..].
  apply (waits_alter _ _ key close_channel); [|done|apply close_later|apply close_later|by rewrite Hk].
  intros k Hne. cbn. by rewrite lookup_delete_ne.
Qed.

Lemma step_waits i o : waits_step i (rt_step i o).
Proof.
  destruct o; cbn [rt_step].
  - by destruct (spawn_waits spec now i) as (? & ? & ? & _); apply waits_same.
  - destruct (poll_waits loc body now finished_at i) as [(Hw & Hc & Hn & _)|(r & _ & Hw & Hc & Hn & _)];
      [apply waits_same; [done|done|by rewrite Hn]|].
    by eapply waits_step_agree; [apply (waits_drop (fun k => negb (for_fiber k (fr_fiber_id r) (fr_generation r))))|..].
  - unfold cancel_scope. by destruct (sg_scopes _ !! _); apply waits_same.
  - destruct (cancel_process_fields process_id process_generation i) as (_ & Hn & Hw & Hc & _). apply waits_same; [done|done|by rewrite Hn].
  - unfold join_fiber. destruct (resolve i h) as [loc|]; [|by apply waits_same].
    destruct (join_waits loc i) as (Hw & Hc & Hn & _). apply waits_same; [done|done|by rewrite Hn].
  - unfold detach_fiber. destruct (resolve i h) as [loc|]; [|by apply waits_same]. cbn [fst].
    destruct (detach_waits loc i) as (Hw & Hc & Hn & _). apply waits_same; [done|done|by rewrite Hn].
  - unfold on_fiber. by destruct (resolve i h); apply waits_same.
  - unfold wake. destruct (wake_lookup h i); [apply wake_waits|by apply waits_same].
  - unfold wait_for_operation. destruct (in_shutdown i); [by apply waits_same|]. destruct (resolve i h) as [loc|]; [|by apply waits_same].
    pose proof (register_waits loc (wait_key h operation_id operation_generation) now i) as Hw. by destruct (wait_register loc _ now i).
  - unfold poll_wait. destruct w as [|key c scope]; [by apply waits_same|].
    destruct (is_cancelled i scope); [apply remove_pending_waits|by destruct (in_channels i !! c); apply waits_same].
  - destruct w as [|key c scope]; [by apply waits_same|]. split; cbn; [done|..].
    + intros x o' Ho. left. apply mk_is_Some in Ho. by rewrite lookup_alter_is_Some in Ho.
    + intros x o Ho _. destruct (decide (x = c)) as [->|Hne]; [rewrite lookup_alter_eq, Ho; by eexists|].
      rewrite lookup_alter_ne by done. by exists o.
    + intros k x o Hk _ _. by left.
  - by eapply waits_step_agree; [apply (waits_drop (fun _ => false))|..].
  - destruct (join_waits loc i) as (Hw & Hc & Hn & _). apply waits_same; [done|done|by rewrite Hn].
  - destruct (detach_waits loc i) as (Hw & Hc & Hn & _). apply waits_same; [done|done|by rewrite Hn].
  - apply wake_waits.
  - apply register_waits.
  - by apply waits_same.
  - apply waits_drop.
Qed.

(** ** Waits that were handed out *)

(** The channel of the wait is settled, or the entry of its key is the wait itself. *)
Definition tracked (i : Inner) (key : WaitKey) (c : nat) : Prop :=
  (c < in_next i)%nat /\ exists o, in_channels i !! c = Some o /\ (settled o \/ in_waits i !! key = Some (PendingWait c)).

Lemma tracked_step i o key c : tracked i key c -> tracked (rt_step i o) key c.
Proof.
  intros [Hlt (ch & Hc & Hcase)]. destruct (step_waits i o) as [W1 _ W3 W4]. split; [lia|].
  destruct (W3 c ch Hc Hlt) as (ch' & Hc' & Hl). exists ch'. split; [done|].
  destruct Hcase as [Hs|Hk]; [left; by eapply settled_later|]. destruct (W4 key c ch Hk Hc Hlt) as [Hk'|(o' & Ho' & Hs)]; [by right|left].
  by replace ch' with o' by congruence.
Qed.

Lemma tracked_run i ops key c : tracked i key c -> tracked (rt_run i ops) key c.
Proof. revert i. induction ops as [|o ops IH]; intros i Ht; [done|]. by apply IH, tracked_step. Qed.

Lemma wait_issued h op g now i i1 key c scope :
  wait_for_operation h op g now i = (i1, Ok (ChannelWait key c scope)) -> key = wait_key h op g /\ tracked i1 key c.
Proof.
  unfold wait_for_operation. destruct (in_shutdown i) eqn:Hs; [done|]. destruct (resolve i h) as [loc|]; [|done].
  unfold wait_register. rewrite Hs. destruct (record_at i loc) as [r|]; [|done]. destruct (_ || _); [done|].
  destruct (in_waits i !! wait_key h op g) as [[x|]|]; [|done|]; intros [= <- <- <- <-]; (split; [done|]); (split; [cbn; lia|]);
    (eexists; split; [cbn; apply lookup_insert_eq|]; right; cbn; apply lookup_insert_eq).
Qed.

(** ** Entries belong to live fibers *)

Definition fiber_live (i : Inner) (id g : Z) : Prop :=
  exists loc r, fg_fibers (in_fibers i) !! id = Some loc /\ record_at i loc = Some r /\ fr_generation r = g /\ fr_terminal r = TPending.

Definition waits_live (i : Inner) : Prop :=
  forall key e, in_waits i !! key = Some e -> in_shutdown i = false /\ fiber_live i key.1.1 key.1.2.

Section liveness.
Context (config : TokioRuntimeConfig).

Lemma live_kept i o id g :
  reg_ok config i -> located i -> sequential o = true -> fiber_live i id g ->
  fiber_live (rt_step i o) id g \/
  exists loc r body now fin, o = RPoll loc body now fin /\ record_at i loc = Some r /\ fr_fiber_id r = id /\ fr_generation r = g /\
    fr_terminal r = TPending /\ exists r', record_at (rt_step i o) loc = Some r' /\ fr_terminal r' <> TPending.
Proof.
  intros Hok Hl Hseq (loc & r & Hid & Hr & Hg & Ht). destruct (step_records i o) as (_ & _ & Hfwd).
  destruct (Hfwd loc r Hr (Hl loc r Hr)) as (r' & Hr' & [S1 S2 _ _] & _ & _ & Hpend).
  destruct (ro_fibers _ _ _ Hok id loc Hid) as (x & _ & Hx & Hxid & _). replace x with r in * by congruence.
  destruct (decide (fr_terminal r' = TPending)) as [Hp|Hp].
  - left. exists loc, r'. pose proof (rt_step_ok config i o Hseq Hok) as Hok'.
    destruct (ro_pending _ _ _ Hok' loc r' Hr' Hp) as [t Htk]. destruct (ro_tasks _ _ _ Hok' loc t Htk) as (y & Hy & _ & Hyid).
    replace y with r' in * by (unfold record_at in *; congruence). rewrite S1, Hxid in Hyid. split_and!; try done. congruence.
  - right. destruct (Hpend Ht) as [|(body & now & fin & ->)]; [done|]. exists loc, r, body, now, fin. split_and!; try done. by exists r'.
Qed.

Lemma ready_live i h loc r :
  reg_ok config i -> fg_fibers (in_fibers i) !! fiber_id h = Some loc -> record_at i loc = Some r ->
  fr_generation r = fiber_generation h -> fs_is_terminal (fr_state r) = false -> fiber_live i (fiber_id h) (fiber_generation h).
Proof.
  intros Hok Hid Hr Hg Hst. exists loc, r. split_and!; try done. pose proof (ro_state _ _ _ Hok loc r Hr) as Hs. rewrite Hst in Hs.
  symmetry in Hs. by apply negb_false_iff, bool_decide_eq_true in Hs.
Qed.

(** Entries are made for live fibers of a runtime that is up. *)
Lemma new_entries i o key e :
  reg_ok config i -> sequential o = true -> in_waits (rt_step i o) !! key = Some e ->
  is_Some (in_waits i !! key) \/ in_shutdown i = false /\ fiber_live i key.1.1 key.1.2.
Proof.
  intros Hok Hseq. destruct o; try done; cbn [rt_step].
  - destruct (spawn_waits spec now i) as (-> & _). left; by eexists.
  - destruct (poll_waits loc body now finished_at i) as [(-> & _)|(r & _ & -> & _)]; [left; by eexists|].
    rewrite drop_waits_lookup. destruct (negb _); [left; by eexists|done].
  - unfold cancel_scope. destruct (sg_scopes _ !! _); left; by eexists.
  - destruct (cancel_process_fields process_id process_generation i) as (_ & _ & -> & _). left; by eexists.
  - unfold join_fiber. destruct (resolve i h) as [loc|]; [|left; by eexists]. destruct (join_waits loc i) as (-> & _). left; by eexists.
  - unfold detach_fiber. destruct (resolve i h) as [loc|]; [|left; by eexists]. cbn [fst]. destruct (detach_waits loc i) as (-> & _). left; by eexists.
  - unfold on_fiber. destruct (resolve i h); left; by eexists.
  - unfold wake, wake_lookup. destruct (in_shutdown i) eqn:Hs; [left; by eexists|].
    destruct (fg_fibers (in_fibers i) !! fiber_id h) as [loc|] eqn:Hid; [|left; by eexists].
    destruct (record_at i loc) as [r|] eqn:Hr; [|left; by eexists]. case_decide as Hg; [|left; by eexists].
    unfold wake_deliver. rewrite Hs. destruct (record_terminal i loc) eqn:Hterm; [left; by eexists|].
    unfold record_terminal in Hterm. rewrite Hr in Hterm. pose proof (ready_live i h loc r Hok Hid Hr Hg Hterm) as Hlive.
    set (k := wait_key h operation_id operation_generation). intros Hk. destruct (decide (key = k)) as [->|Hne]; [by right|]. left. exists e.
    destruct (in_waits i !! k) as [[c|]|]; [|done|cbn in Hk; by rewrite lookup_insert_ne in Hk].
    destruct (receiver_there i c); cbn in Hk; [by rewrite lookup_delete_ne in Hk|by rewrite lookup_insert_ne in Hk].
  - unfold wait_for_operation. destruct (in_shutdown i) eqn:Hs; [left; by eexists|]. destruct (resolve i h) as [loc|] eqn:Hres; [|left; by eexists].
    apply resolve_spec in Hres as (Hid & r & Hr & Hg). unfold wait_register. rewrite Hs, Hr.
    destruct (fs_is_terminal (fr_state r)) eqn:Hterm; cbn [orb]; [left; by eexists|]. destruct (is_cancelled _ _); [left; by eexists|].
    pose proof (ready_live i h loc r Hok Hid Hr Hg Hterm) as Hlive. set (k := wait_key h operation_id operation_generation).
    intros Hk. destruct (decide (key = k)) as [->|Hne]; [by right|]. left. exists e.
    destruct (in_waits i !! k) as [[c|]|]; cbn in Hk; [by rewrite lookup_insert_ne in Hk|by rewrite lookup_delete_ne in Hk|by rewrite lookup_insert_ne in Hk].
  - unfold poll_wait. destruct w as [|k c scope]; [left; by eexists|]. destruct (is_cancelled i scope); [|destruct (in_channels i !! c); left; by eexists].
    cbn [fst]. unfold remove_pending. destruct (in_waits i !! k) as [[x|]|]; [|left; by eexists..]. cbn. rewrite lookup_delete_Some.
    intros [_ Hk]. left. by exists e.
  - destruct w; left; by eexists.
  - unfold shutdown, shutdown_clear. by rewrite drop_waits_lookup.
Qed.

Lemma step_shutdown i o : sequential o = true -> o = RShutdown \/ in_shutdown (rt_step i o) = in_shutdown i.
Proof.
  intros Hseq. destruct o; try done; try (by left); right; cbn [rt_step].
  - apply spawn_waits.
  - destruct (poll_waits loc body now finished_at i) as [(_ & _ & _ & -> & _)|(r & _ & _ & _ & _ & -> & _)]; done.
  - unfold cancel_scope. by destruct (sg_scopes _ !! _).
  - apply cancel_process_fields.
  - unfold join_fiber. destruct (resolve i h) as [loc|]; [apply join_waits|done].
  - unfold detach_fiber. destruct (resolve i h) as [loc|]; [apply detach_waits|done].
  - unfold on_fiber. by destruct (resolve i h).
  - unfold wake. destruct (wake_lookup h i) as [loc|]; [|done]. unfold wake_deliver. destruct (in_shutdown i) eqn:Hs; [done|].
    destruct (record_terminal i loc); [done|]. destruct (in_waits i !! _) as [[c|]|]; [|done..]. by destruct (receiver_there i c).
  - unfold wait_for_operation. destruct (in_shutdown i) eqn:Hs; [done|]. destruct (resolve i h) as [loc|]; [|done].
    unfold wait_register. rewrite Hs. destruct (record_at i loc) as [r|]; [|done]. destruct (_ || _); [done|].
    by destruct (in_waits i !! _) as [[c|]|].
  - unfold poll_wait. destruct w as [|k c scope]; [done|]. destruct (is_cancelled i scope); [|by destruct (in_channels i !! c)].
    cbn [fst]. unfold remove_pending. by destruct (in_waits i !! k) as [[x|]|].
  - by destruct w.
Qed.

Lemma waits_live_step i o :
  reg_ok config i -> located i -> sequential o = true -> waits_live i -> waits_live (rt_step i o).
Proof.
  intros Hok Hl Hseq Hw key e Hk.
  assert (in_shutdown i = false /\ fiber_live i key.1.1 key.1.2) as [Hs Hlive].
  { destruct (new_entries i o key e Hok Hseq Hk) as [[e' He]|]; [by apply (Hw key e')|done]. }
  split.
  - destruct (step_shutdown i o Hseq) as [->|Hkeep]; [|by rewrite Hkeep]. cbn [rt_step] in Hk. unfold shutdown, shutdown_clear in Hk.
    by rewrite drop_waits_lookup in Hk.
  - destruct (live_kept i o _ _ Hok Hl Hseq Hlive) as [|(loc & r & body & now & fin & -> & Hr & Hid & Hg & Hp & r' & Hr' & Ht)]; [done|].
    exfalso. cbn [rt_step] in *. destruct (poll_waits loc body now fin i) as [(_ & _ & _ & _ & Hsame)|(x & Hx & Hw' & _)].
    + apply Ht. by rewrite (Hsame r r' Hr Hr').
    + rewrite Hw', drop_waits_lookup in Hk. replace x with r in * by congruence.
      assert (for_fiber key (fr_fiber_id r) (fr_generation r) = true) as Hf; [|by rewrite Hf in Hk].
      unfold for_fiber. apply bool_decide_eq_true. rewrite Hid, Hg. by destruct (key.1).
Qed.

Record rt_ok (i : Inner) : Prop := { rt_registries : reg_ok config i; rt_located : located i; rt_waits : waits_live i }.

Lemma rt_ok_run i ops : Forall (fun o => sequential o = true) ops -> rt_ok i -> rt_ok (rt_run i ops).
Proof.
  intros Hs. revert i. induction Hs as [|o ops Ho _ IH]; intros i [H1 H2 H3]; [done|]. apply IH.
  split; [by apply rt_step_ok|by apply located_step|by apply waits_live_step].
Qed.

Lemma rt_ok_new i : 0 <= max_live_fibers config -> adapter_new config = Ok i -> rt_ok i.
Proof.
  intros Hm Hn. split; [by apply adapter_new_ok|by eapply located_new|]. revert Hn. unfold adapter_new. case_decide; [done|].
  intros [= <-] key e. cbn. by rewrite lookup_empty.
Qed.

(** ** Buffered wakes *)

(** The request waits on [key]. *)
Definition waits_on (key : WaitKey) (o : rt_op) : Prop :=
  match o with RWait h op g _ => wait_key h op g = key | _ => False end.

Lemma buffered_step i o key loc r :
  rt_ok i -> sequential o = true -> ~ waits_on key o -> in_waits i !! key = Some BufferedWake ->
  fg_fibers (in_fibers i) !! key.1.1 = Some loc -> record_at i loc = Some r -> fr_terminal r = TPending ->
  in_shutdown (rt_step i o) = false ->
  (exists r', record_at (rt_step i o) loc = Some r' /\ fr_terminal r' <> TPending) \/ in_waits (rt_step i o) !! key = Some BufferedWake.
Proof.
  intros [Hok Hl Hw] Hseq Hno Hk Hid Hr Hp Hup. destruct o; try done; cbn [rt_step] in *.
  - right. by destruct (spawn_waits spec now i) as (-> & _).
  - destruct (poll_waits loc0 body now finished_at i) as [(-> & _)|(x & Hx & -> & _ & _ & _ & [t Ht] & r' & Hr' & Hrt)]; [by right|].
    rewrite drop_waits_lookup. destruct (for_fiber key (fr_fiber_id x) (fr_generation x)) eqn:Hf; [left|by right].
    apply bool_decide_eq_true in Hf. destruct (task_live config i loc0 t x Hok Ht Hx) as (_ & _ & Hxid).
    rewrite Hf in Hid. cbn in Hid. replace loc with loc0 by congruence. by exists r'.
  - right. unfold cancel_scope. by destruct (sg_scopes _ !! _).
  - right. by destruct (cancel_process_fields process_id process_generation i) as (_ & _ & -> & _).
  - right. unfold join_fiber. destruct (resolve i h) as [l|]; [|done]. by destruct (join_waits l i) as (-> & _).
  - right. unfold detach_fiber. destruct (resolve i h) as [l|]; [|done]. cbn [fst]. by destruct (detach_waits l i) as (-> & _).
  - right. unfold on_fiber. by destruct (resolve i h).
  - right. unfold wake. destruct (wake_lookup h i) as [l|]; [|done]. unfold wake_deliver. destruct (in_shutdown i); [done|].
    destruct (record_terminal i l); [done|]. set (k := wait_key h operation_id operation_generation).
    destruct (in_waits i !! k) as [[c|]|] eqn:Hk'; [|done|by rewrite <- Hk; cbn; apply lookup_insert_ne; intros ->; congruence].
    assert (k <> key) by congruence. destruct (receiver_there i c); cbn; [by rewrite lookup_delete_ne|by rewrite lookup_insert_ne].
  - right. unfold wait_for_operation. destruct (in_shutdown i) eqn:Hs; [done|]. destruct (resolve i h) as [l|]; [|done].
    unfold wait_register. rewrite Hs. destruct (record_at i l) as [x|]; [|done]. destruct (_ || _); [done|].
    destruct (in_waits i !! wait_key h operation_id operation_generation) as [[c|]|]; cbn;
      [by rewrite lookup_insert_ne|by rewrite lookup_delete_ne|by rewrite lookup_insert_ne].
  - right. unfold poll_wait. destruct w as [|k c scope]; [done|]. destruct (is_cancelled i scope); [|by destruct (in_channels i !! c)].
    cbn [fst]. unfold remove_pending. destruct (in_waits i !! k) as [[x|]|] eqn:Hk'; [|done..]. cbn.
    rewrite lookup_delete_ne; [done|]. congruence.
  - right. by destruct w.
Qed.

Lemma shutdown_stays i ops : Forall (fun o => sequential o = true) ops -> in_shutdown i = true -> in_shutdown (rt_run i ops) = true.
Proof.
  intros Hs. revert i. induction Hs as [|o ops Ho _ IH]; intros i Hi; [done|]. apply IH.
  by destruct (step_shutdown i o Ho) as [-> | ->].
Qed.

Lemma ended_stays i ops loc r :
  located i -> record_at i loc = Some r ->
  exists r', record_at (rt_run i ops) loc = Some r' /\ same_record r r' /\ (fr_terminal r <> TPending -> fr_terminal r' <> TPending).
Proof.
  revert i r. induction ops as [|o ops IH]; intros i r Hl Hr; [by exists r; repeat split|].
  destruct (step_records i o) as (_ & _ & Hfwd). destruct (Hfwd loc r Hr (Hl loc r Hr)) as (x & Hx & [S1 S2 S3 S4] & _ & Hc & _).
  destruct (IH (rt_step i o) x (located_step i o Hl) Hx) as (y & Hy & [T1 T2 T3 T4] & Hyt). exists y.
  split; [done|]. split; [by split; etransitivity|]. auto.
Qed.

Lemma buffered_run i ops key loc r :
  rt_ok i -> Forall (fun o => sequential o = true /\ ~ waits_on key o) ops -> in_waits i !! key = Some BufferedWake ->
  record_at i loc = Some r -> fr_fiber_id r = key.1.1 ->
  in_shutdown (rt_run i ops) = false ->
  (exists r', record_at (rt_run i ops) loc = Some r' /\ fr_terminal r' <> TPending) \/ in_waits (rt_run i ops) !! key = Some BufferedWake.
Proof.
  intros Hrt Hops. revert i r Hrt. induction Hops as [|o ops [Ho Hno] Hops IH]; intros i r Hrt Hk Hr Hid Hup; [by right|].
  assert (Forall (fun o => sequential o = true) ops) as Hseq by (by eapply Forall_impl; [exact Hops|intros x []]).
  destruct (decide (fr_terminal r = TPending)) as [Hp|Hp]; cycle 1.
  { left. destruct (ended_stays i (o :: ops) loc r (rt_located _ Hrt) Hr) as (r' & Hr' & _ & Ht). exists r'. auto. }
  assert (in_shutdown (rt_step i o) = false) as Hup'.
  { destruct (in_shutdown (rt_step i o)) eqn:Hs; [|done]. pose proof (shutdown_stays _ ops Hseq Hs) as Hd. cbn in Hup. congruence. }
  assert (rt_ok (rt_step i o)) as Hrt'.
  { destruct Hrt as [H1 H2 H3]. split; [by apply rt_step_ok|by apply located_step|by apply waits_live_step]. }
  assert (fg_fibers (in_fibers i) !! key.1.1 = Some loc) as Hfib.
  { destruct (ro_pending _ _ _ (rt_registries _ Hrt) loc r Hr Hp) as [t Ht].
    destruct (task_live config i loc t r (rt_registries _ Hrt) Ht Hr) as (_ & _ & Hf). by rewrite Hid in Hf. }
  destruct (step_records i o) as (_ & _ & Hfwd).
  destruct (Hfwd loc r Hr (rt_located _ Hrt loc r Hr)) as (x & Hx & [S1 S2 S3 S4] & _).
  destruct (buffered_step i o key loc r Hrt Ho Hno Hk Hfib Hr Hp Hup') as [(r' & Hr' & Ht)|Hk'].
  - left. destruct (ended_stays (rt_step i o) ops loc r' (rt_located _ Hrt') Hr') as (y & Hy & _ & Hyt). exists y. auto.
  - apply (IH (rt_step i o) x); [done|done|exact Hx|congruence|done].
Qed.

(** A wake of a live fiber of a runtime that is up. *)
Lemma wake_live i h op g now :
  reg_ok config i -> in_shutdown i = false -> fiber_live i (fiber_id h) (fiber_generation h) ->
  exists loc, wake h op g now i = wake_deliver loc (wait_key h op g) now i /\ record_terminal i loc = false.
Proof.
  intros Hok Hup (loc & r & Hid & Hr & Hg & Hp). exists loc. unfold wake, wake_lookup, record_terminal. rewrite Hup, Hid, Hr.
  rewrite decide_True by done. split; [done|]. by rewrite (ro_state _ _ _ Hok loc r Hr), Hp.
Qed.

(** A pending future is registered. *)
Lemma pending_registered i key c scope :
  tracked i key c -> (poll_wait (ChannelWait key c scope) i).2 = None ->
  in_waits i !! key = Some (PendingWait c) /\ is_cancelled i scope = false.
Proof.
  intros [_ (o & Ho & Hcase)]. unfold poll_wait. destruct (is_cancelled i scope); [done|]. rewrite Ho. cbn.
  destruct Hcase as [[Hs|Hc]|Hk]; [by rewrite Hs|rewrite Hc; by destruct (oc_sent o)|done].
Qed.


(** Over requests that each run to their end, a wake that found no waiter is kept: as long as the fiber it was delivered to
    lives and the runtime is up, and until the operation is waited for, it stays
    buffered whatever else happens, and the next wait resolves at once as woken when
    the scope of the fiber is open. *)
Theorem buffered_wake_kept i0 ops h op g now i1 loc r ops' now' :
  0 <= max_live_fibers config -> adapter_new config = Ok i0 -> Forall (fun o => sequential o = true) ops ->
  wake h op g now (rt_run i0 ops) = (i1, Ok Delivered) ->
  let key := wait_key h op g in
  in_waits i1 !! key = Some BufferedWake -> resolve i1 h = Ok loc -> record_at i1 loc = Some r ->
  Forall (fun o => sequential o = true /\ ~ waits_on key o) ops' ->
  let i2 := rt_run i1 ops' in
  in_shutdown i2 = false -> record_terminal i2 loc = false -> is_cancelled i2 (fr_scope r) = false ->
  (wait_for_operation h op g now' i2).2 = Ok (ReadyWait Woken).
Proof.
  intros Hmax Hnew Hs Hw key Hk Hres Hr Hops i2 Hup Hterm Hcan.
  assert (rt_ok i1) as Hrt1.
  { assert (rt_run (rt_run i0 ops) [RWake h op g now] = i1) as <- by (cbn; by rewrite Hw).
    apply rt_ok_run; [by repeat constructor|]. by apply rt_ok_run; [|apply rt_ok_new]. }
  assert (rt_ok i2) as Hrt2 by (apply rt_ok_run; [by eapply Forall_impl; [exact Hops|intros x []]|done]).
  apply resolve_spec in Hres as (Hid & x & Hx & Hg). replace x with r in * by congruence.
  destruct (ro_fibers _ _ _ (rt_registries _ Hrt1) _ _ Hid) as (y & _ & Hy & Hyid & _). replace y with r in * by congruence.
  destruct (ended_stays i1 ops' loc r (rt_located _ Hrt1) Hr) as (r2 & Hr2 & [S1 S2 S3 S4] & _). fold i2 in Hr2.
  unfold record_terminal in Hterm. rewrite Hr2 in Hterm.
  assert (fr_terminal r2 = TPending) as Hp2.
  { pose proof (ro_state _ _ _ (rt_registries _ Hrt2) loc r2 Hr2) as Hst. rewrite Hterm in Hst. symmetry in Hst.
    by apply negb_false_iff, bool_decide_eq_true in Hst. }
  destruct (buffered_run i1 ops' key loc r Hrt1 Hops Hk Hr Hyid Hup) as [(z & Hz & Hzt)|Hk2].
  { fold i2 in Hz. replace z with r2 in * by congruence. done. }
  fold i2 in Hk2. destruct (ro_pending _ _ _ (rt_registries _ Hrt2) loc r2 Hr2 Hp2) as [t Ht].
  destruct (task_live config i2 loc t r2 (rt_registries _ Hrt2) Ht Hr2) as (_ & _ & Hf2). rewrite S1, Hyid in Hf2.
  unfold wait_for_operation, resolve, wait_register. rewrite Hup, Hf2, Hr2. rewrite decide_False by (rewrite S2, Hg; intros Hn; by apply Hn).
  rewrite Hr2, Hterm, S3, Hcan. cbn [orb]. fold key. by rewrite Hk2.
Qed.
End liveness.

(** ** Shutdown *)

(** The flag is up and the registry is cleared. *)
Definition shut (i : Inner) : Prop := in_shutdown i = true /\ in_waits i = ∅.

Lemma wake_deliver_shut loc key now i : in_shutdown i = true -> wake_deliver loc key now i = (i, Err RtShuttingDown).
Proof. intros Hs. unfold wake_deliver. by rewrite Hs. Qed.

Lemma wait_register_shut loc key now i : in_shutdown i = true -> wait_register loc key now i = (i, ReadyWait WaitCancelled).
Proof. intros Hs. unfold wait_register. by rewrite Hs. Qed.

Lemma drop_waits_empty keep i : in_waits i = ∅ -> in_waits (drop_waits keep i) = ∅.
Proof. intros Hw. unfold drop_waits. cbn. by rewrite Hw, map_filter_empty. Qed.

Lemma shut_step i o : shut i -> shut (rt_step i o).
Proof.
  intros [Hs Hw]. destruct (sequential o) eqn:Hseq; cycle 1.
  { destruct o; try done; cbn [rt_step].
    - destruct (join_waits loc i) as (E1 & _ & _ & E2). split; congruence.
    - destruct (detach_waits loc i) as (E1 & _ & _ & E2). split; congruence.
    - by rewrite wake_deliver_shut.
    - by rewrite wait_register_shut.
    - split; [done|by apply drop_waits_empty]. }
  split; [destruct (step_shutdown i o Hseq) as [-> | ->]; done|]. destruct o; try done; cbn [rt_step].
  - destruct (spawn_waits spec now i) as (-> & _). done.
  - destruct (poll_waits loc body now finished_at i) as [(-> & _)|(r & _ & -> & _)]; [done|by apply drop_waits_empty].
  - unfold cancel_scope. by destruct (sg_scopes _ !! _).
  - by destruct (cancel_process_fields process_id process_generation i) as (_ & _ & -> & _).
  - unfold join_fiber. destruct (resolve i h) as [l|]; [|done]. by destruct (join_waits l i) as (-> & _).
  - unfold detach_fiber. destruct (resolve i h) as [l|]; [|done]. cbn [fst]. by destruct (detach_waits l i) as (-> & _).
  - unfold on_fiber. by destruct (resolve i h).
  - unfold wake, wake_lookup. by rewrite Hs.
  - unfold wait_for_operation. by rewrite Hs.
  - unfold poll_wait. destruct w as [|k c scope]; [done|]. destruct (is_cancelled i scope); [|by destruct (in_channels i !! c)].
    cbn [fst]. unfold remove_pending. by rewrite Hw, lookup_empty.
  - by destruct w.
  - unfold shutdown, shutdown_clear. by apply drop_waits_empty.
Qed.

Lemma shut_run i ops : shut i -> shut (rt_run i ops).
Proof. revert i. induction ops as [|o ops IH]; intros i Hi; [done|]. by apply IH, shut_step. Qed.

(** Whatever steps of other threads come between the flag and the clearing of the
    registry, and after it, a wake that looked its fiber up before the flag went up
    fails with [RtShuttingDown], so its entry is not acknowledged, a wait that did is
    cancelled, and neither leaves an entry behind. *)
Theorem shutdown_strands_nothing i between after loc key now :
  let i' := rt_run i (RShutdownFlag :: between ++ RShutdownClear :: after) in
  in_waits i' = ∅ /\ wake_deliver loc key now i' = (i', Err RtShuttingDown) /\
  wait_register loc key now i' = (i', ReadyWait WaitCancelled).
Proof.
  intros i'. assert (forall j, in_shutdown j = true -> in_shutdown (rt_run j between) = true) as Hflag.
  { clear. induction between as [|o ops IH]; intros j Hj; [done|]. apply IH. destruct (sequential o) eqn:Hs.
    - by destruct (step_shutdown j o Hs) as [-> | ->].
    - destruct o; try done; cbn [rt_step].
      + by destruct (join_waits loc j) as (_ & _ & _ & ->).
      + by destruct (detach_waits loc j) as (_ & _ & _ & ->).
      + by rewrite wake_deliver_shut.
      + by rewrite wait_register_shut. }
  assert (shut (rt_run i (RShutdownFlag :: between ++ [RShutdownClear]))) as Hshut.
  { unfold rt_run. cbn [foldl]. rewrite foldl_app. cbn [foldl]. fold rt_run. split; [by apply Hflag|]. cbn [rt_step].
    unfold shutdown_clear. apply map_eq. intros k. by rewrite drop_waits_lookup, lookup_empty. }
  assert (shut i') as [Hs Hw].
  { unfold i'. replace (RShutdownFlag :: between ++ RShutdownClear :: after)
      with ((RShutdownFlag :: between ++ [RShutdownClear]) ++ after) by (cbn; by rewrite <- app_assoc).
    unfold rt_run. rewrite foldl_app. by apply shut_run. }
  split; [done|]. split; [by apply wake_deliver_shut|by apply wait_register_shut].
Qed.

(** ** Examples *)

Definition example_handle : FiberHandle := {| fiber_id := 1; fiber_generation := 1 |}.


Lemma buffered_wake_kept_witness :
  (wait_for_operation example_handle 7 1 50 (rt_run runtime_start
     [RSpawn (example_spec 1) 10; RWake example_handle 7 1 20; RWake example_handle 8 1 30; RPoll 1 BodyPending 40 40])).2 =
  Ok (ReadyWait Woken).
Proof.
  destruct (record_at (rt_run runtime_start [RSpawn (example_spec 1) 10; RWake example_handle 7 1 20]) 1) as [r|] eqn:Hr;
    [|by vm_compute in Hr].
  apply (buffered_wake_kept example_runtime runtime_start [RSpawn (example_spec 1) 10] example_handle 7 1 20
    (rt_run runtime_start [RSpawn (example_spec 1) 10; RWake example_handle 7 1 20]) 1 r
    [RWake example_handle 8 1 30; RPoll 1 BodyPending 40 40] 50).
  - done.
  - reflexivity.
  - repeat constructor.
  - vm_compute. reflexivity.
  - vm_compute. reflexivity.
  - vm_compute. reflexivity.
  - exact Hr.
  - repeat constructor; intros [].
  - vm_compute. reflexivity.
  - vm_compute. reflexivity.
  - vm_compute in Hr. injection Hr as <-. vm_compute. reflexivity.
Defined.

(** A wake that is delivered again after the wait it resolved is buffered, so the next
    wait for the same operation is woken a second time; without the redelivery that
    wait is pending. *)
Theorem redelivered_wake_wakes_twice :
  let woken := rt_run runtime_start [RSpawn (example_spec 1) 10; RWait example_handle 7 1 20; RWake example_handle 7 1 30] in
  let w := ChannelWait (wait_key example_handle 7 1) 2 0 in
  (poll_wait w woken).2 = Some Woken /\
  (wake example_handle 7 1 40 woken).2 = Ok Delivered /\
  (wait_for_operation example_handle 7 1 50 woken).2 = Ok (ChannelWait (wait_key example_handle 7 1) 3 0) /\
  (wait_for_operation example_handle 7 1 50 (wake example_handle 7 1 40 woken).1).2 = Ok (ReadyWait Woken).
Proof. split_and!; vm_compute; reflexivity. Qed.
