(* ===== verification/Outbox.v ===== *)
(** * Outbox: the consumer of the durable outbox and its pump

    [nlos-outbox]: one bounded, in-order drain over the interfaces of the source and of
    the two sinks; and the pump of [nlos-runtime-tokio] that repeats it, with its
    health record and backoff. The interfaces are classes, their contracts classes of
    laws; [Pipeline] gives the instances. *)

From S2P Require Import Prelude Operation OpStore FiberMeter.

(** ** Items and errors *)

Inductive ItemKind := ItemWakeFiber | ItemReconcileEffect.
#[export] Instance item_kind_eq_dec : EqDecision ItemKind.
Proof. solve_decision. Defined.

Record OutboxItem := {
  it_sequence : Z;
  it_kind : ItemKind;
  it_operation_id : Z;
  it_operation_generation : Z;
  it_owner_fiber : FiberHandle;
  it_callback_id : option Z;
  it_state : OperationState;
}.

(** What an error text is rendered from. *)
Inductive ErrorDetail :=
  | PendingReadFailed (e : StoreError)
  | AckCommitFailed (e : StoreError)
  | SequenceOutOfRange
  | NegativeSequence
  | NotAscending
  | SinkDetail (text : string).

Inductive OutboxError := OutboxSourceError (d : ErrorDetail) | OutboxReconcileError (d : ErrorDetail).

(** ** Interfaces *)

Class OutboxSource (S : Type) := {
  source_pending : Z -> S -> result OutboxError (list OutboxItem);
  source_ack : Z -> S -> S * result OutboxError ();
}.

Class WakeSink (W : Type) := {
  sink_wake : FiberHandle -> Z -> Z -> W -> W * result RuntimeError WakeOutcome;
}.

Class ReconcileSink (R : Type) := {
  sink_reconcile : OutboxItem -> R -> R * result OutboxError ();
}.

(** The contract of a source: a valid source serves a prefix of what is not
    acknowledged, up to a cap of its own, in ascending order; an acknowledgement takes one entry away or, when
    it fails, changes nothing. [source_later] is all that acknowledging changes. *)
Class OutboxSourceLaws (S : Type) `{OutboxSource S} := {
  source_ok : S -> Prop;
  unacked : S -> list OutboxItem;
  source_cap : Z;
  source_cap_pos : 0 < source_cap;
  source_later : S -> S -> Prop;
  source_later_preorder :: PreOrder source_later;
  ack_later s s' q r : source_ok s -> source_ack q s = (s', r) -> source_later s s';
  unacked_sorted s : source_ok s -> StronglySorted (fun a b => it_sequence a < it_sequence b) (unacked s);
  pending_prefix s n l : source_ok s -> source_pending n s = Ok l -> l = take (Z.to_nat (Z.min n source_cap)) (unacked s);
  ack_removes s s' q : source_ok s -> source_ack q s = (s', Ok ()) ->
    source_ok s' /\ unacked s' = filter (fun it => it_sequence it <> q) (unacked s);
  ack_fails s s' q e : source_ok s -> source_ack q s = (s', Err e) -> source_ok s' /\ unacked s' = unacked s;
}.

(** ** One drain *)

Inductive DrainStopPhase := StopWake | StopReconcile | StopAck.

Inductive StopError := WakeStop (e : RuntimeError) | SinkStop (e : OutboxError).

Record DrainStop := { ds_phase : DrainStopPhase; ds_error : StopError }.

Record DrainReport := {
  dr_polled : nat;
  dr_applied : nat;
  dr_acked : nat;
  dr_stopped_at : option Z;
  dr_failure : option DrainStop;
  dr_shutdown : bool;
}.

#[export] Instance eta_drain_report : Eta DrainReport := fun x =>
  Build_DrainReport (dr_polled x) (dr_applied x) (dr_acked x) (dr_stopped_at x) (dr_failure x) (dr_shutdown x).
#[export] Instance set_dr_applied : Setter dr_applied. Proof. build_setter. Defined.
#[export] Instance set_dr_acked : Setter dr_acked. Proof. build_setter. Defined.
#[export] Instance set_dr_stopped_at : Setter dr_stopped_at. Proof. build_setter. Defined.
#[export] Instance set_dr_failure : Setter dr_failure. Proof. build_setter. Defined.
#[export] Instance set_dr_shutdown : Setter dr_shutdown. Proof. build_setter. Defined.

Definition new_report (polled : nat) : DrainReport := {|
  dr_polled := polled; dr_applied := 0; dr_acked := 0; dr_stopped_at := None; dr_failure := None; dr_shutdown := false
|}.

Fixpoint ascending (items : list OutboxItem) : bool :=
  match items with
  | a :: (b :: _) as rest => bool_decide (it_sequence a < it_sequence b) && ascending rest
  | _ => true
  end.

Section drain.
Context {S W R : Type} `{OutboxSource S, WakeSink W, ReconcileSink R}.

Record Consumer := { cs_source : S; cs_wake : W; cs_reconcile : R }.

(** How applying one item ended. *)
Inductive applied_item := Applied | Refused (failure : DrainStop) | RuntimeGone.

Definition apply_item (item : OutboxItem) (c : Consumer) : Consumer * applied_item :=
  match it_kind item with
  | ItemWakeFiber =>
      let '(w, r) := sink_wake (it_owner_fiber item) (it_operation_id item) (it_operation_generation item) (cs_wake c) in
      ({| cs_source := cs_source c; cs_wake := w; cs_reconcile := cs_reconcile c |},
       match r with
       | Ok Delivered | Ok FiberGone | Ok NotWaiting => Applied
       | Err RtShuttingDown => RuntimeGone
       | Err e => Refused {| ds_phase := StopWake; ds_error := WakeStop e |}
       end)
  | ItemReconcileEffect =>
      let '(k, r) := sink_reconcile item (cs_reconcile c) in
      ({| cs_source := cs_source c; cs_wake := cs_wake c; cs_reconcile := k |},
       match r with
       | Ok _ => Applied
       | Err e => Refused {| ds_phase := StopReconcile; ds_error := SinkStop e |}
       end)
  end.

Fixpoint drain_items (items : list OutboxItem) (report : DrainReport) (c : Consumer) : Consumer * DrainReport :=
  match items with
  | [] => (c, report)
  | item :: items =>
      match apply_item item c with
      | (c, RuntimeGone) => (c, report <| dr_stopped_at := Some (it_sequence item) |> <| dr_shutdown := true |>)
      | (c, Refused failure) => (c, report <| dr_stopped_at := Some (it_sequence item) |> <| dr_failure := Some failure |>)
      | (c, Applied) =>
          let report := report <| dr_applied := Datatypes.S (dr_applied report) |> in
          match source_ack (it_sequence item) (cs_source c) with
          | (s, Err e) =>
              ({| cs_source := s; cs_wake := cs_wake c; cs_reconcile := cs_reconcile c |},
               report <| dr_stopped_at := Some (it_sequence item) |>
                      <| dr_failure := Some {| ds_phase := StopAck; ds_error := SinkStop e |} |>)
          | (s, Ok _) =>
              drain_items items (report <| dr_acked := Datatypes.S (dr_acked report) |>)
                {| cs_source := s; cs_wake := cs_wake c; cs_reconcile := cs_reconcile c |}
          end
      end
  end.

Definition drain_once (batch_limit : Z) (c : Consumer) : Consumer * result OutboxError DrainReport :=
  match source_pending batch_limit (cs_source c) with
  | Err e => (c, Err e)
  | Ok items =>
      if ascending items
      then let '(c, report) := drain_items items (new_report (length items)) c in (c, Ok report)
      else (c, Err (OutboxSourceError NotAscending))
  end.
End drain.

Arguments Consumer S W R : clear implicits.

(** ** What a drain does *)

Section drained.
Context {S W R : Type} `{OutboxSource S, !OutboxSourceLaws S, WakeSink W, ReconcileSink R}.
Implicit Types c : Consumer S W R.

Definition sinks (c : Consumer S W R) : W * R := (cs_wake c, cs_reconcile c).

(** The sinks after the items were handed to them, and whether they took each. *)
Definition apply_all (items : list OutboxItem) (c : Consumer S W R) : Consumer S W R :=
  foldl (fun c item => (apply_item item c).1) c items.

Fixpoint accepts (items : list OutboxItem) (c : Consumer S W R) : bool :=
  match items with
  | [] => true
  | item :: items => match apply_item item c with (c, Applied) => accepts items c | _ => false end
  end.

(** Applying depends on the sinks and leaves the source. *)
Lemma apply_item_sinks item c c' :
  sinks c = sinks c' ->
  sinks (apply_item item c).1 = sinks (apply_item item c').1 /\ (apply_item item c).2 = (apply_item item c').2.
Proof.
  intros [= Hw Hr]. unfold apply_item, sinks. rewrite Hw, Hr. destruct (it_kind item).
  - by destruct (sink_wake _ _ _ (cs_wake c')).
  - by destruct (sink_reconcile item (cs_reconcile c')).
Qed.

Lemma apply_item_source item c : cs_source (apply_item item c).1 = cs_source c.
Proof. unfold apply_item. destruct (it_kind item); [by destruct (sink_wake _ _ _ _)|by destruct (sink_reconcile _ _)]. Qed.

Lemma apply_all_sinks items c c' : sinks c = sinks c' -> sinks (apply_all items c) = sinks (apply_all items c').
Proof.
  revert c c'. induction items as [|item items IH]; intros c c' Hs; [done|]. apply IH. by apply (apply_item_sinks item c c').
Qed.

Lemma accepts_sinks items c c' : sinks c = sinks c' -> accepts items c = accepts items c'.
Proof.
  revert c c'. induction items as [|item items IH]; intros c c' Hs; [done|]. cbn.
  destruct (apply_item_sinks item c c' Hs) as [E1 E2]. destruct (apply_item item c) as [d a], (apply_item item c') as [d' a'].
  cbn in *. subst a'. destruct a; [|done..]. by apply IH.
Qed.

(** The head of what is not acknowledged goes, the rest stays. *)
Lemma ack_head s s' item rest :
  source_ok s -> unacked s = item :: rest -> source_ack (it_sequence item) s = (s', Ok ()) -> source_ok s' /\ unacked s' = rest.
Proof.
  intros Hok Hu Ha. destruct (ack_removes s s' _ Hok Ha) as [Hok' Hu']. split; [done|]. rewrite Hu', Hu.
  pose proof (unacked_sorted s Hok) as Hs. rewrite Hu in Hs. inversion Hs as [|x l _ Hall]; subst x l.
  rewrite filter_cons_False by (intros Hn; by apply Hn). apply list_filter_all. intros x Hx. rewrite Forall_forall in Hall. specialize (Hall x Hx). lia.
Qed.

Lemma ascending_sorted items : StronglySorted (fun a b => it_sequence a < it_sequence b) items -> ascending items = true.
Proof.
  induction 1 as [|a items Hs IH Hall]; [done|]. destruct items as [|b items]; [done|]. cbn.
  rewrite bool_decide_true by (by inversion Hall). exact IH.
Qed.

(** How a drain of [items] ended, [n] of them acknowledged. *)
Inductive drain_end (items : list OutboxItem) (n : nat) (r r' : DrainReport) : Prop :=
  | drained_all : n = length items -> dr_applied r' = (dr_applied r + n)%nat -> dr_stopped_at r' = None -> dr_failure r' = None ->
      dr_shutdown r' = false -> drain_end items n r r'
  | drain_refused item : items !! n = Some item -> dr_applied r' = (dr_applied r + n)%nat ->
      dr_stopped_at r' = Some (it_sequence item) ->
      (dr_shutdown r' = true /\ dr_failure r' = None \/
       dr_shutdown r' = false /\ exists e p, dr_failure r' = Some {| ds_phase := p; ds_error := e |} /\ p <> StopAck) ->
      drain_end items n r r'
  | drain_unacked item e : items !! n = Some item -> dr_applied r' = (dr_applied r + n + 1)%nat ->
      dr_stopped_at r' = Some (it_sequence item) -> dr_shutdown r' = false ->
      dr_failure r' = Some {| ds_phase := StopAck; ds_error := e |} -> drain_end items n r r'.

Definition attempted (r : DrainReport) (n : nat) : nat := match dr_stopped_at r with None => n | Some _ => Datatypes.S n end.

Lemma drain_end_applied items n r r' :
  drain_end items n r r' -> (dr_applied r + n <= dr_applied r' <= dr_applied r + n + 1)%nat.
Proof. intros []; lia. Qed.

Lemma drain_end_cons item items n r r1 r' :
  dr_applied r1 = Datatypes.S (dr_applied r) -> drain_end items n r1 r' -> drain_end (item :: items) (Datatypes.S n) r r'.
Proof.
  intros He Hend. destruct Hend as [E1 E2 E3 E4 E5|x E1 E2 E3 E4|x e E1 E2 E3 E4 E5].
  - apply drained_all; [cbn; lia|lia|done..].
  - by eapply drain_refused; [done|lia|..].
  - by eapply drain_unacked; [done|lia|..].
Qed.

Lemma drain_items_spec items rest r c c' r' :
  source_ok (cs_source c) -> unacked (cs_source c) = items ++ rest ->
  dr_stopped_at r = None -> dr_failure r = None -> dr_shutdown r = false ->
  drain_items items r c = (c', r') ->
  exists n, (n <= length items)%nat /\ source_ok (cs_source c') /\ unacked (cs_source c') = drop n (items ++ rest) /\
    dr_polled r' = dr_polled r /\ dr_acked r' = (dr_acked r + n)%nat /\ drain_end items n r r' /\
    accepts (take (dr_applied r' - dr_applied r) items) c = true /\
    sinks c' = sinks (apply_all (take (attempted r' n) items) c).
Proof.
  revert r c. induction items as [|item items IH]; intros r c Hok Hu Hs Hf Hd Hrun.
  { cbn in Hrun. injection Hrun as <- <-. exists 0%nat. split_and!; [done|done|done|done|lia| |by rewrite take_nil|].
    - apply drained_all; [done|lia|done..].
    - unfold attempted. by rewrite Hs. }
  cbn [drain_items] in Hrun. pose proof (apply_item_source item c) as Hsrc. destruct (apply_item item c) as [d a] eqn:Ha. cbn [fst] in Hsrc.
  destruct a as [|failure|]; cycle 1.
  - injection Hrun as <- <-. exists 0%nat. split_and!; [cbn; lia|by rewrite Hsrc|by rewrite Hsrc|done|cbn; lia| | |].
    + eapply drain_refused; [done|cbn; lia|done|]. right. split; [exact Hd|]. destruct failure as [p e]. exists e, p. split; [done|].
      intros ->. revert Ha. unfold apply_item. destruct (it_kind item).
      * destruct (sink_wake _ _ _ _) as [w [[]|[]]]; intros [= _ Hp]; by try injection Hp.
      * destruct (sink_reconcile _ _) as [k [|]]; intros [= _ Hp]; by try injection Hp.
    + cbn. by rewrite Nat.sub_diag.
    + unfold attempted. cbn. by rewrite Ha.
  - injection Hrun as <- <-. exists 0%nat. split_and!; [cbn; lia|by rewrite Hsrc|by rewrite Hsrc|done|cbn; lia| | |].
    + eapply drain_refused; [done|cbn; lia|done|]. left. split; [done|]. exact Hf.
    + cbn. by rewrite Nat.sub_diag.
    + unfold attempted. cbn. by rewrite Ha.
  - rewrite <- Hsrc in Hok, Hu. destruct (source_ack (it_sequence item) (cs_source d)) as [s [[]|e]] eqn:Hack.
    + destruct (ack_head _ s item (items ++ rest) Hok Hu Hack) as [Hok' Hu'].
      match type of Hrun with drain_items _ ?r1 ?c1 = _ => specialize (IH r1 c1 Hok' Hu' Hs Hf Hd Hrun) end.
      destruct IH as (n & Hn & Hok2 & Hu2 & Hp & Hacked & Hend & Hacc & Hsinks).
      pose proof (drain_end_applied _ _ _ _ Hend) as Happ. cbn in Happ, Hacked, Hp, Hacc. exists (Datatypes.S n).
      split_and!; [cbn; lia|done|done|done|lia|by eapply drain_end_cons; [|exact Hend]| |].
      * replace (dr_applied r' - dr_applied r)%nat with (Datatypes.S (dr_applied r' - Datatypes.S (dr_applied r))) by lia.
        cbn [take accepts]. rewrite Ha. by rewrite <- Hacc; apply accepts_sinks.
      * rewrite Hsinks. unfold attempted. destruct (dr_stopped_at r'); cbn [take apply_all foldl]; rewrite Ha; by apply apply_all_sinks.
    + injection Hrun as <- <-. destruct (ack_fails _ s _ e Hok Hack) as [Hok' Hu']. exists 0%nat.
      split_and!; [cbn; lia|done|by rewrite <- Hu|done|cbn; lia| | |].
      * by eapply drain_unacked; [done|cbn; lia|..].
      * cbn [dr_applied set_field]. replace (_ - _)%nat with 1%nat by (cbn; lia). cbn. by rewrite Ha.
      * unfold attempted. cbn. by rewrite Ha.
Qed.

(** A drain of a valid source, in its parts. *)
Lemma drain_once_spec limit c c' r :
  source_ok (cs_source c) -> drain_once limit c = (c', Ok r) ->
  let items := take (Z.to_nat (Z.min limit source_cap)) (unacked (cs_source c)) in
  exists n, (n <= length items)%nat /\ source_ok (cs_source c') /\ unacked (cs_source c') = drop n (unacked (cs_source c)) /\
    dr_polled r = length items /\ dr_acked r = n /\ drain_end items n (new_report 0) r /\
    accepts (take (dr_applied r) items) c = true /\ sinks c' = sinks (apply_all (take (attempted r n) items) c).
Proof.
  intros Hok Hrun items. unfold drain_once in Hrun. destruct (source_pending limit (cs_source c)) as [l|e] eqn:Hp; [|done].
  apply pending_prefix in Hp; [|done]. fold items in Hp. subst l. destruct (ascending items); [|done].
  destruct (drain_items items (new_report (length items)) c) as [d r'] eqn:Hd. injection Hrun as <- <-.
  destruct (drain_items_spec items (drop (Z.to_nat (Z.min limit source_cap)) (unacked (cs_source c))) (new_report (length items)) c d r' Hok)
    as (n & Hn & Hok' & Hu & Hpo & Hac & Hend & Hacc & Hs); try done; [symmetry; apply take_drop|].
  exists n. cbn in Hac, Hacc. rewrite Nat.sub_0_r in Hacc. unfold items in Hu. rewrite take_drop in Hu. split_and!; try done.
  destruct Hend as [E1 E2 E3 E4 E5|x E1 E2 E3 E4|x e E1 E2 E3 E4 E5];
    [by apply drained_all|by eapply drain_refused|by eapply drain_unacked].
Qed.

(** C31. Whatever the source and the sinks, a drain acknowledges only what its sink has
    taken and loses nothing: it offers the oldest entries in their order, exactly a
    prefix of them is acknowledged and gone, all the others are still there, and the
    sinks have seen that prefix and at most the one entry the pass stopped at, which
    it names. *)
Theorem drain_acks_applied_only limit c c' r :
  source_ok (cs_source c) -> drain_once limit c = (c', Ok r) ->
  let items := take (Z.to_nat (Z.min limit source_cap)) (unacked (cs_source c)) in
  source_ok (cs_source c') /\ dr_polled r = length items /\
  unacked (cs_source c') = drop (dr_acked r) (unacked (cs_source c)) /\
  (dr_acked r <= dr_applied r <= dr_acked r + 1)%nat /\
  accepts (take (dr_applied r) items) c = true /\
  match dr_stopped_at r with
  | None => dr_acked r = length items /\ sinks c' = sinks (apply_all items c)
  | Some q => exists item, items !! dr_acked r = Some item /\ q = it_sequence item /\
      sinks c' = sinks (apply_all (take (dr_acked r) items ++ [item]) c) /\ (dr_shutdown r = true <-> dr_failure r = None)
  end.
Proof.
  intros Hok Hrun items. destruct (drain_once_spec limit c c' r Hok Hrun) as (n & Hn & Hok' & Hu & Hp & <- & Hend & Hacc & Hs).
  fold items in Hn, Hp, Hend, Hacc, Hs. split_and!; try done.
  - destruct Hend; cbn in *; lia.
  - destruct Hend; cbn in *; lia.
  - unfold attempted in Hs. destruct Hend as [E1 E2 E3 E4 E5|x E1 E2 E3 E4|x e E1 E2 E3 E4 E5]; rewrite E3 in *.
    + split; [done|]. by rewrite E1, take_ge in Hs.
    + exists x. split_and!; try done; [by rewrite (take_S_r _ _ x) in Hs|]. destruct E4 as [[-> ->]|(-> & e & p & -> & _)]; done.
    + exists x. split_and!; try done; [by rewrite (take_S_r _ _ x) in Hs|]. by rewrite E4, E5.
Qed.

(** A drain of a valid source never finds it out of order. *)
Lemma drain_once_order limit c c' e :
  source_ok (cs_source c) -> drain_once limit c = (c', Err e) -> c' = c /\ source_pending limit (cs_source c) = Err e.
Proof.
  intros Hok. unfold drain_once. destruct (source_pending limit (cs_source c)) as [l|x] eqn:Hp; [|by intros [= <- <-]].
  apply pending_prefix in Hp; [|done]. rewrite ascending_sorted; [by destruct (drain_items l _ c)|]. subst l.
  pose proof (unacked_sorted _ Hok) as Hs. rewrite <- (take_drop (Z.to_nat (Z.min limit source_cap))) in Hs. by apply StronglySorted_app in Hs as (_ & Hs & _).
Qed.
End drained.

(** ** The pump *)

Definition duration_max : Z := (2 ^ 64 - 1) * 10 ^ 9 + 999999999.
Definition MIN_POLL_INTERVAL : Z := 10 ^ 6.
Definition BACKOFF_CAP_MULTIPLE : Z := 64.

Record PumpConfig := { poll_interval : Z; failure_threshold : Z }.

Inductive PumpState := PumpRunning | PumpFaulted | PumpStopped.

(** What a drain attempt failed with. *)
Inductive PumpError := PumpOutbox (e : OutboxError) | PumpPanicked.

Record PumpHealth := {
  ph_state : PumpState;
  ph_consecutive_failures : Z;
  ph_last_error : option PumpError;
  ph_stuck_sequence : option Z;
  ph_consecutive_apply_failures : Z;
  ph_last_apply_error : option StopError;
}.

#[export] Instance eta_pump_health : Eta PumpHealth := fun x =>
  Build_PumpHealth (ph_state x) (ph_consecutive_failures x) (ph_last_error x) (ph_stuck_sequence x)
    (ph_consecutive_apply_failures x) (ph_last_apply_error x).
#[export] Instance set_ph_state : Setter ph_state. Proof. build_setter. Defined.
#[export] Instance set_ph_consecutive_failures : Setter ph_consecutive_failures. Proof. build_setter. Defined.
#[export] Instance set_ph_last_error : Setter ph_last_error. Proof. build_setter. Defined.
#[export] Instance set_ph_stuck_sequence : Setter ph_stuck_sequence. Proof. build_setter. Defined.
#[export] Instance set_ph_consecutive_apply_failures : Setter ph_consecutive_apply_failures. Proof. build_setter. Defined.
#[export] Instance set_ph_last_apply_error : Setter ph_last_apply_error. Proof. build_setter. Defined.

Definition health_new : PumpHealth := {|
  ph_state := PumpRunning; ph_consecutive_failures := 0; ph_last_error := None; ph_stuck_sequence := None;
  ph_consecutive_apply_failures := 0; ph_last_apply_error := None
|}.

Definition record_success (h : PumpHealth) : PumpHealth :=
  {| ph_state := ph_state h; ph_consecutive_failures := 0; ph_last_error := None; ph_stuck_sequence := None;
     ph_consecutive_apply_failures := 0; ph_last_apply_error := None |}.

Definition record_failure (e : PumpError) (h : PumpHealth) : PumpHealth :=
  h <| ph_last_error := Some e |> <| ph_consecutive_failures := ph_consecutive_failures h + 1 |>.

Definition record_apply_failure (sequence : Z) (e : StopError) (h : PumpHealth) : PumpHealth :=
  h <| ph_stuck_sequence := Some sequence |>
    <| ph_consecutive_apply_failures :=
         if decide (ph_stuck_sequence h = Some sequence) then ph_consecutive_apply_failures h + 1 else 1 |>
    <| ph_last_apply_error := Some e |>.

(** [poll_interval * 2^(failures - 1)], capped at 64 intervals. *)
Definition backoff (interval failures : Z) : Z :=
  let n := Z.max 0 (failures - 1) in
  let shift := Z.min (if decide (n <= u32_max) then n else u32_max) (Z.log2 BACKOFF_CAP_MULTIPLE) in
  Z.min (interval * Z.shiftl 1 shift) duration_max.

(** What the pump thread does next. *)
Inductive pump_next := PumpExit | PumpDrainAgain | PumpSleep (d : Z).

(** One attempt of the loop body; [None] is a panic that was caught. *)
Definition pump_decide (config : PumpConfig) (attempt : option (result OutboxError DrainReport)) (h : PumpHealth) :
    PumpHealth * pump_next :=
  match attempt with
  | Some (Ok report) =>
      if dr_shutdown report then (h <| ph_state := PumpStopped |>, PumpExit) else
      match dr_stopped_at report, dr_failure report with
      | Some sequence, Some failure =>
          let h := record_apply_failure sequence (ds_error failure) h in
          (h, PumpSleep (backoff (poll_interval config) (ph_consecutive_apply_failures h)))
      | stopped, _ =>
          (record_success h,
           if decide (0 < dr_polled report)%nat then match stopped with None => PumpDrainAgain | Some _ => PumpSleep (poll_interval config) end
           else PumpSleep (poll_interval config))
      end
  | failed =>
      let h := record_failure (match failed with Some (Err e) => PumpOutbox e | _ => PumpPanicked end) h in
      if decide (ph_consecutive_failures h >= failure_threshold config)
      then (h <| ph_state := PumpFaulted |>, PumpExit)
      else (h, PumpSleep (backoff (poll_interval config) (ph_consecutive_failures h)))
  end.

(** [OutboxPump::start] refuses a configuration that would spin. *)
Definition pump_start (config : PumpConfig) (batch_limit : Z) : result string PumpHealth :=
  if decide (poll_interval config < MIN_POLL_INTERVAL) then Err "poll_interval must be at least 1ms"%string else
  if decide (batch_limit = 0) then Err "consumer batch_limit must be positive"%string else Ok health_new.

(** The thread from a wake-up to its next sleep or its end: it drains until a pass does
    not complete or finds nothing. [stop] is the flag. *)
Fixpoint pump_awake {S W R : Type} `{OutboxSource S, WakeSink W, ReconcileSink R} (fuel : nat) (config : PumpConfig)
    (batch_limit : Z) (stop : bool) (c : Consumer S W R) (h : PumpHealth) : Consumer S W R * PumpHealth * option pump_next :=
  match fuel with
  | O => (c, h, None)
  | Datatypes.S fuel =>
      if stop then (c, h <| ph_state := PumpStopped |>, Some PumpExit) else
      let '(c, attempt) := drain_once batch_limit c in
      match pump_decide config (Some attempt) h with
      | (h, PumpDrainAgain) => pump_awake fuel config batch_limit stop c h
      | (h, next) => (c, h, Some next)
      end
  end.

(** ** What the pump guarantees *)

(** Between one interval and 64 of them, whatever the number of failures, longer with
    every failure, and never zero. *)
Lemma backoff_bounds interval failures :
  MIN_POLL_INTERVAL <= interval <= duration_max ->
  MIN_POLL_INTERVAL <= backoff interval failures <= duration_max /\
  interval <= backoff interval failures <= BACKOFF_CAP_MULTIPLE * interval /\
  backoff interval failures <= backoff interval (failures + 1).
Proof.
  intros [Hmin Hmax]. unfold backoff.
  set (cut n := Z.min (if decide (n <= u32_max) then n else u32_max) (Z.log2 BACKOFF_CAP_MULTIPLE)).
  set (n := Z.max 0 (failures - 1)). set (m := Z.max 0 (failures + 1 - 1)).
  assert (forall x, 0 <= x -> 0 <= cut x <= 6 /\ cut x = Z.min x 6) as Hcut.
  { intros x Hx. unfold cut. change (Z.log2 BACKOFF_CAP_MULTIPLE) with 6. unfold u32_max. case_decide; lia. }
  destruct (Hcut n ltac:(lia)) as [Hn En]. destruct (Hcut m ltac:(lia)) as [Hm Em]. fold (cut n) (cut m).
  rewrite !Z.shiftl_1_l. assert (2 ^ cut n <= 2 ^ cut m) by (apply Z.pow_le_mono_r; lia).
  assert (2 ^ 0 <= 2 ^ cut n <= 2 ^ 6) by (split; apply Z.pow_le_mono_r; lia). change (2 ^ 0) with 1 in *. change (2 ^ 6) with 64 in *.
  unfold BACKOFF_CAP_MULTIPLE, MIN_POLL_INTERVAL in *. nia.
Qed.

(** A history of attempts the pump survived. *)
Inductive pump_ran (config : PumpConfig) : list (option (result OutboxError DrainReport)) -> PumpHealth -> Prop :=
  | ran_none : pump_ran config [] health_new
  | ran_more l h a h' next : pump_ran config l h -> pump_decide config a h = (h', next) -> next <> PumpExit ->
      pump_ran config (l ++ [a]) h'.

(** The attempts since the last one that completed that failed in the source. *)
Definition attempt_failed (a : option (result OutboxError DrainReport)) : bool :=
  match a with Some (Ok _) => false | _ => true end.

Definition attempt_completed (a : option (result OutboxError DrainReport)) : bool :=
  match a with
  | Some (Ok r) => negb (dr_shutdown r) && match dr_stopped_at r, dr_failure r with Some _, Some _ => false | _, _ => true end
  | _ => false
  end.

Fixpoint failures_since (l : list (option (result OutboxError DrainReport))) (n : Z) : Z :=
  match l with
  | [] => n
  | a :: l => failures_since l (if attempt_completed a then 0 else if attempt_failed a then n + 1 else n)
  end.

Lemma failures_since_app l a n :
  failures_since (l ++ [a]) n =
  let m := failures_since l n in if attempt_completed a then 0 else if attempt_failed a then m + 1 else m.
Proof. revert n. induction l as [|b l IH]; intros n; [done|]. cbn. apply IH. Qed.

Lemma pump_decide_failures config a h :
  ph_consecutive_failures (pump_decide config a h).1 =
  if attempt_completed a then 0 else if attempt_failed a then ph_consecutive_failures h + 1 else ph_consecutive_failures h.
Proof.
  unfold pump_decide. destruct a as [[r|e]|]; cbn.
  - destruct (dr_shutdown r); [done|]. by destruct (dr_stopped_at r), (dr_failure r).
  - by case_decide.
  - by case_decide.
Qed.

Lemma pump_ran_failures config l h : pump_ran config l h -> ph_consecutive_failures h = failures_since l 0.
Proof.
  induction 1 as [|l h a h' next _ IH Hd _]; [done|]. rewrite failures_since_app. cbv zeta. rewrite <- IH.
  pose proof (pump_decide_failures config a h) as He. by rewrite Hd in He.
Qed.

(** The pump ends only for cause and never spins. It faults exactly when the
    failed reads of the source since the last completed pass reach the threshold, it
    stops when a drain reports that the runtime is going away, and otherwise it goes on
    after a sleep of at least one and at most 64 poll intervals. *)
Theorem pump_ends_for_cause config l h a h' next :
  MIN_POLL_INTERVAL <= poll_interval config <= duration_max -> 0 < failure_threshold config ->
  pump_ran config l h -> pump_decide config a h = (h', next) ->
  match next with
  | PumpExit =>
      ph_state h' = PumpFaulted /\ attempt_failed a = true /\ failures_since (l ++ [a]) 0 >= failure_threshold config \/
      ph_state h' = PumpStopped /\ exists r, a = Some (Ok r) /\ dr_shutdown r = true
  | PumpSleep d =>
      poll_interval config <= d <= BACKOFF_CAP_MULTIPLE * poll_interval config /\
      (attempt_failed a = true -> failures_since (l ++ [a]) 0 < failure_threshold config)
  | PumpDrainAgain => exists r, a = Some (Ok r) /\ (0 < dr_polled r)%nat /\ dr_stopped_at r = None
  end.
Proof.
  intros Hint Hthr Hran Hd. pose proof (pump_ran_failures config l h Hran) as Hf. pose proof (pump_decide_failures config a h) as Hf'.
  rewrite Hd, Hf in Hf'. cbn [fst] in Hf'. rewrite failures_since_app. cbv zeta. rewrite <- Hf'.
  assert (forall n, poll_interval config <= backoff (poll_interval config) n <= BACKOFF_CAP_MULTIPLE * poll_interval config) as Hb
    by (intros n; by apply backoff_bounds).
  assert (poll_interval config <= poll_interval config <= BACKOFF_CAP_MULTIPLE * poll_interval config) as Hself
    by (unfold BACKOFF_CAP_MULTIPLE, MIN_POLL_INTERVAL in *; lia).
  unfold pump_decide in Hd. destruct a as [[r|e]|].
  - destruct (dr_shutdown r) eqn:Hs; [injection Hd as <- <-; right; split; [done|]; by exists r|].
    destruct (dr_stopped_at r) as [q|] eqn:Hq; [destruct (dr_failure r)|]; try case_decide; injection Hd as <- <-; try done.
    by exists r.
  - case_decide; injection Hd as <- <-; [by left|]. split; [done|]. cbn in *. lia.
  - case_decide; injection Hd as <- <-; [by left|]. split; [done|]. cbn in *. lia.
Qed.

(** A pump with a threshold of two panics twice. *)
Lemma pump_ends_for_cause_witness :
  let config := {| poll_interval := 25000000; failure_threshold := 2 |} in
  let h := (pump_decide config None health_new).1 in
  ph_state (pump_decide config None h).1 = PumpFaulted.
Proof.
  cbv zeta. set (config := {| poll_interval := 25000000; failure_threshold := 2 |}).
  assert (pump_ran config ([] ++ [None]) (pump_decide config None health_new).1) as Hran by (by econstructor; [constructor|..]).
  destruct (pump_ends_for_cause config ([] ++ [None]) (pump_decide config None health_new).1 None
    (pump_decide config None (pump_decide config None health_new).1).1 PumpExit) as [[Hf _]|(_ & r & Hr & _)]; try done.
Defined.

(** ** Draining everything *)

(** A source that serves every read and commits every acknowledgement. *)
Class ReliableSource (S : Type) `{OutboxSourceLaws S} := {
  pending_served s n : source_ok s -> exists l, source_pending n s = Ok l;
  ack_served s it : source_ok s -> it ∈ unacked s -> (source_ack (it_sequence it) s).2 = Ok ();
}.

Section awake.
Context {S W R : Type} `{OutboxSource S, !OutboxSourceLaws S, !ReliableSource S, WakeSink W, ReconcileSink R}.
Implicit Types c : Consumer S W R.

Lemma drain_accepting items rest r c :
  source_ok (cs_source c) -> unacked (cs_source c) = items ++ rest -> accepts items c = true ->
  dr_stopped_at r = None -> dr_shutdown r = false ->
  let '(c', r') := drain_items items r c in
  source_ok (cs_source c') /\ source_later (cs_source c) (cs_source c') /\ unacked (cs_source c') = rest /\
  sinks c' = sinks (apply_all items c) /\ dr_polled r' = dr_polled r /\ dr_stopped_at r' = None /\ dr_shutdown r' = false.
Proof.
  revert r c. induction items as [|item items IH]; intros r c Hok Hu Hacc Hs Hd; [by split_and!|].
  cbn [drain_items accepts] in *. pose proof (apply_item_source item c) as Hsrc. destruct (apply_item item c) as [d a] eqn:Ha. cbn [fst] in Hsrc.
  destruct a; [|done..]. rewrite <- Hsrc in Hok, Hu.
  pose proof (ack_served (cs_source d) item Hok ltac:(rewrite Hu; by left)) as Hack.
  destruct (source_ack (it_sequence item) (cs_source d)) as [s a] eqn:Hsa. cbn in Hack. subst a.
  destruct (ack_head _ s item (items ++ rest) Hok Hu Hsa) as [Hok' Hu']. pose proof (ack_later _ s _ _ Hok Hsa) as Hlater. rewrite Hsrc in Hlater.
  set (d' := {| cs_source := s; cs_wake := cs_wake d; cs_reconcile := cs_reconcile d |}).
  assert (accepts items d' = true) as Hacc' by (rewrite <- Hacc; by apply accepts_sinks).
  match goal with |- context [drain_items items ?r1 d'] => specialize (IH r1 d' Hok' Hu' Hacc' Hs Hd); destruct (drain_items items r1 d') as [c' r'] end.
  destruct IH as (I1 & I7 & I2 & I3 & I4 & I5 & I6). split_and!; try done; [by etransitivity|]. rewrite I3. cbn [apply_all foldl]. rewrite Ha. by apply apply_all_sinks.
Qed.

Lemma accepts_app l1 l2 c : accepts (l1 ++ l2) c = true -> accepts l1 c = true /\ accepts l2 (apply_all l1 c) = true.
Proof.
  revert c. induction l1 as [|item l1 IH]; intros c; [done|]. cbn. destruct (apply_item item c) as [d []]; [|done..]. apply IH.
Qed.

Lemma apply_all_app l1 l2 c : apply_all (l1 ++ l2) c = apply_all l2 (apply_all l1 c).
Proof. unfold apply_all. by rewrite foldl_app. Qed.

(** From a wake-up with sinks that take every entry, the pump drains the source empty
    and goes back to sleep. *)
Lemma pump_awake_drains fuel config limit c h :
  source_ok (cs_source c) -> 0 < limit -> (length (unacked (cs_source c)) < fuel)%nat -> accepts (unacked (cs_source c)) c = true ->
  exists c' h', pump_awake fuel config limit false c h = (c', h', Some (PumpSleep (poll_interval config))) /\
    source_ok (cs_source c') /\ source_later (cs_source c) (cs_source c') /\ unacked (cs_source c') = [] /\
    sinks c' = sinks (apply_all (unacked (cs_source c)) c).
Proof.
  revert c h. induction fuel as [|fuel IH]; intros c h Hok Hlim Hfuel Hacc; [lia|]. cbn [pump_awake]. unfold drain_once.
  destruct (pending_served (cs_source c) limit Hok) as [l Hl]. rewrite Hl. apply pending_prefix in Hl; [|done].
  set (rest := drop (Z.to_nat (Z.min limit source_cap)) (unacked (cs_source c))).
  assert (unacked (cs_source c) = l ++ rest) as Hu by (subst l; symmetry; apply take_drop).
  rewrite ascending_sorted by (pose proof (unacked_sorted _ Hok) as Hs; rewrite Hu in Hs; by apply StronglySorted_app in Hs as (_ & Hs & _)).
  rewrite Hu in Hacc. apply accepts_app in Hacc as [Hacc1 Hacc2].
  pose proof (drain_accepting l rest (new_report (length l)) c Hok Hu Hacc1 eq_refl eq_refl) as Hd.
  destruct (drain_items l (new_report (length l)) c) as [d r]. destruct Hd as (Hok' & Hl' & Hu' & Hs' & Hp & Hst & Hsh).
  unfold pump_decide. rewrite Hsh, Hst, Hp. cbn [new_report dr_polled]. case_decide as Hlen.
  - destruct (IH d (record_success h) Hok' Hlim) as (c' & h' & Hrun & Hok2 & Hl2 & Hu2 & Hs2).
    + rewrite Hu', Hu in *. rewrite length_app in Hfuel. lia.
    + rewrite Hu', <- Hacc2. by apply accepts_sinks.
    + exists c', h'. split; [by destruct (dr_failure r)|]. split; [done|]. split; [by etransitivity|]. split; [done|]. rewrite Hs2, Hu', Hu, apply_all_app. by apply apply_all_sinks.
  - assert (l = []) as -> by (destruct l; [done|cbn in Hlen; lia]). cbn in Hu. exists d, (record_success h).
    split; [by destruct (dr_failure r)|]. split; [done|]. split; [done|]. assert (rest = []) as Hrest.
    { unfold rest in *. rewrite <- Hu in *. destruct (unacked (cs_source c)) as [|x xs]; [done|].
      pose proof source_cap_pos. destruct (Z.to_nat (Z.min limit source_cap)) eqn:Hz; [lia|]. done. }
    split; [congruence|]. rewrite Hs', Hu, Hrest. done.
Qed.
End awake.
