(* ===== verification/Pipeline.v ===== *)
(** * Pipeline: from the end of an operation to the fiber that waits for it

    The instances of [Outbox]'s interfaces: the store of [OpStore] as the source, the
    runtime of [Fibers] as the wake sink, and the recording sink of the pump; and what
    the three guarantee together. *)

From S2P Require Import Prelude Bytes Txn Operation OpStore OpInv OpSteps OpCalls OpOutbox OpRuns.
From S2P Require Import FiberMeter Fibers FiberInv FiberRuns FiberWaits Outbox.

(** ** The source *)

Definition item_kind (k : OutboxKind) : ItemKind :=
  match k with WakeFiber => ItemWakeFiber | ReconcileEffect => ItemReconcileEffect end.

Definition item_of (e : OutboxEntry) : OutboxItem := {|
  it_sequence := oe_sequence e; it_kind := item_kind (oe_kind e);
  it_operation_id := oh_operation_id (oe_operation e); it_operation_generation := oh_generation (oe_operation e);
  it_owner_fiber := oe_owner_fiber e; it_callback_id := oe_callback_id e; it_state := oe_state e
|}.

Definition map_entry (e : OutboxEntry) : result OutboxError OutboxItem :=
  if decide (oe_sequence e < 0) then Err (OutboxSourceError NegativeSequence) else Ok (item_of e).

Fixpoint map_entries (l : list OutboxEntry) : result OutboxError (list OutboxItem) :=
  match l with
  | [] => Ok []
  | e :: l => it ← map_entry e; its ← map_entries l; Ok (it :: its)
  end.

#[export] Instance store_source : OutboxSource Db := {
  source_pending limit d :=
    match (run_tx (pending_outbox limit) d).2 with
    | Err e => Err (OutboxSourceError (PendingReadFailed e))
    | Ok entries => map_entries entries
    end;
  source_ack sequence d :=
    if decide (sequence > i64_max) then (d, Err (OutboxSourceError SequenceOutOfRange)) else
    match run_tx (acknowledge_outbox sequence) d with
    | (d, Ok _) => (d, Ok ())
    | (d, Err e) => (d, Err (OutboxSourceError (AckCommitFailed e)))
    end;
}.

(** ** The sinks *)

(** Wakes are metered at [now]. *)
Definition tokio_sink (now : Z) : WakeSink Inner := {| sink_wake h o g i := wake h o g now i |}.

Definition ReconcileKey : Type := Z * Z * option Z.

Definition reconcile_key (it : OutboxItem) : ReconcileKey := (it_operation_id it, it_operation_generation it, it_callback_id it).

Record RecordingReconcileSink := { rr_seen : gset ReconcileKey; rr_applied : list OutboxItem }.

Definition recording_new : RecordingReconcileSink := {| rr_seen := ∅; rr_applied := [] |}.

Definition recording_reconcile (it : OutboxItem) (k : RecordingReconcileSink) : RecordingReconcileSink :=
  if decide (reconcile_key it ∈ rr_seen k) then k
  else {| rr_seen := {[reconcile_key it]} ∪ rr_seen k; rr_applied := rr_applied k ++ [it] |}.

#[export] Instance recording_sink : ReconcileSink RecordingReconcileSink := {
  sink_reconcile it k := (recording_reconcile it k, Ok ());
}.

(** ** The store keeps the contract of a source *)

Section source.
Context `{Sha256}.

Definition pending_rows (d : Db) : list (Z * OutboxRow) := filter (fun p => is_pending p.2 = true) (btree_iter (db_outbox d)).

Definition row_item (p : Z * OutboxRow) : OutboxItem := item_of (entry_view p).

Lemma pending_rows_spec d s row : (s, row) ∈ pending_rows d <-> db_outbox d !! s = Some row /\ is_pending row = true.
Proof. unfold pending_rows. rewrite list_elem_of_filter, elem_of_btree_iter. naive_solver. Qed.

(** Sorted by sequence, strictly. *)
Lemma strict_sorted {V} (l : list (Z * V)) :
  StronglySorted entry_le l -> NoDup l.*1 -> StronglySorted (fun p q => p.1 < q.1) l.
Proof.
  induction 1 as [|p l Hs IH Hall]; intros Hn; [constructor|]. cbn in Hn. apply NoDup_cons in Hn as [Hp Hn].
  constructor; [by apply IH|]. rewrite Forall_forall in Hall |- *. intros q Hq. specialize (Hall q Hq).
  unfold entry_le, key_le, Z_btree_key in Hall. assert (p.1 <> q.1); [|lia]. intros He. apply Hp. rewrite He. by apply list_elem_of_fmap_2.
Qed.

Lemma strict_filter {A} (R : A -> A -> Prop) (P : A -> Prop) `{!forall x, Decision (P x)} (l : list A) :
  StronglySorted R l -> StronglySorted R (filter P l).
Proof.
  induction 1 as [|x l Hs IH Hall]; [constructor|]. rewrite filter_cons. case_decide; [|done]. constructor; [done|].
  rewrite Forall_forall in Hall |- *. intros y Hy. apply Hall. by apply list_elem_of_filter in Hy as [_ Hy].
Qed.

Lemma pending_rows_sorted d : StronglySorted (fun p q => p.1 < q.1) (pending_rows d).
Proof. apply strict_filter, strict_sorted; [apply btree_iter_sorted|apply NoDup_fst_btree_iter]. Qed.

(** Lists in strict order with the same elements are equal. *)
Lemma strict_unique {V} (l l' : list (Z * V)) :
  StronglySorted (fun p q => p.1 < q.1) l -> StronglySorted (fun p q => p.1 < q.1) l' -> (forall p, p ∈ l <-> p ∈ l') -> l = l'.
Proof.
  intros Hl Hl' He. assert (forall k, StronglySorted (fun p q : Z * V => p.1 < q.1) k -> NoDup k) as Hnd.
  { induction 1 as [|p k Hs IH Hall]; constructor; [|done]. intros Hp. rewrite Forall_forall in Hall. specialize (Hall p Hp). lia. }
  apply (StronglySorted_unique_strong (fun p q => p.1 < q.1)); [intros; lia|done|done|]. apply NoDup_Permutation; auto.
Qed.

Lemma filter_fmap_items q (l : list (Z * OutboxRow)) :
  filter (fun it => it_sequence it <> q) (row_item <$> l) = row_item <$> filter (fun p => p.1 <> q) l.
Proof.
  induction l as [|[s row] l IH]; [done|]. rewrite fmap_cons, !filter_cons. cbn [it_sequence row_item item_of oe_sequence entry_view fst].
  rewrite IH. by destruct (decide (s <> q)).
Qed.

(** An acknowledged entry is no longer pending, the others are as before. *)
Lemma acknowledged_rows d s row :
  db_outbox d !! s = Some row ->
  pending_rows (d <| db_outbox := <[s := row <| x_acknowledged := 1 |>]> (db_outbox d) |>) = filter (fun p => p.1 <> s) (pending_rows d).
Proof.
  intros Hs. apply strict_unique; [apply pending_rows_sorted|apply strict_filter, pending_rows_sorted|]. intros [k r].
  rewrite list_elem_of_filter, !pending_rows_spec. cbn [fst db_outbox set_field set_db_outbox eta_db]. rewrite lookup_insert_Some. split.
  - intros [[[<- <-]|[Hne Hk]] Hp]; [done|]. split; [congruence|done].
  - intros [Hne [Hk Hp]]. split; [right; split; [congruence|done]|done].
Qed.

Lemma map_entries_Ok l : Forall (fun e => 0 <= oe_sequence e) l -> map_entries l = Ok (item_of <$> l).
Proof.
  induction 1 as [|e l He _ IH]; [done|]. cbn. unfold map_entry at 1. rewrite decide_False by lia. cbn. by rewrite IH.
Qed.

Lemma source_pending_spec d n :
  db_ok d -> source_pending n d = Ok (take (Z.to_nat (Z.min n i64_max)) (row_item <$> pending_rows d)).
Proof.
  intros Hok. cbn. pose proof (run_wp _ _ _ _ (pending_spec d Hok n (fun _ => False))) as Hrun.
  destruct (run_tx (pending_outbox n) d).2 as [l|e]; [|by destruct Hrun]. destruct Hrun as [_ ->].
  unfold pending_entries, select_outbox. fold (pending_rows d). rewrite map_entries_Ok; [by rewrite <- list_fmap_compose, fmap_take|].
  apply Forall_fmap, Forall_forall. intros [s row] Hin. cbn.
  assert ((s, row) ∈ pending_rows d) as Hp by (rewrite <- (take_drop (Z.to_nat (Z.min n i64_max)) (pending_rows d)); apply elem_of_app; by left).
  apply pending_rows_spec in Hp as [Hs _]. destruct (ok_outbox _ Hok s row Hs) as [Hr _]. lia.
Qed.

Lemma source_ack_spec d s :
  db_ok d ->
  match source_ack s d with
  | (d', Ok _) => exists row, db_outbox d !! s = Some row /\ grew d d' /\
      d' = d <| db_outbox := <[s := row <| x_acknowledged := 1 |>]> (db_outbox d) |>
  | (d', Err _) => d' = d /\ (s > i64_max \/ db_outbox d !! s = None)
  end.
Proof.
  intros Hok. cbn. case_decide as Hs; [by split; [|left]|].
  pose proof (run_wp _ _ _ _ (acknowledge_spec d Hok s)) as Hrun. destruct (run_tx (acknowledge_outbox s) d) as [d' [[]|e]] eqn:He; cbn in Hrun.
  - destruct Hrun as (Hg & row & Hrow & ->). by exists row.
  - destruct Hrun as [_ ->]. split; [done|right]. revert He. unfold run_tx, acknowledge_outbox, mbind, txn_bind, reading.
    by destruct (db_outbox d !! s).
Qed.

(** Only acknowledgements changed. *)
Definition only_acked (d d' : Db) : Prop :=
  db_operations d' = db_operations d /\ db_calls d' = db_calls d /\ db_preparations d' = db_preparations d /\
  db_activations d' = db_activations d /\ db_sequence d' = db_sequence d /\
  forall s row, db_outbox d !! s = Some row ->
    db_outbox d' !! s = Some row \/ db_outbox d' !! s = Some (row <| x_acknowledged := 1 |>).

#[export] Instance only_acked_preorder : PreOrder only_acked.
Proof.
  split; [intros d; split_and!; auto|]. intros d1 d2 d3 (A1 & A2 & A3 & A4 & A5 & A6) (B1 & B2 & B3 & B4 & B5 & B6).
  split_and!; [congruence..|]. intros s row [Hs|Hs]%A6; [by apply B6|]. right. by destruct (B6 s _ Hs).
Qed.

#[export] Instance store_source_laws : OutboxSourceLaws Db.
Proof.
  refine {| source_ok := db_ok; unacked d := row_item <$> pending_rows d; source_cap := i64_max; source_later := only_acked |}.
  - done.
  - intros d d' q r Hok Ha. pose proof (source_ack_spec d q Hok) as Hspec. rewrite Ha in Hspec. destruct r.
    + destruct Hspec as (row & Hrow & _ & ->). split_and!; try done. intros s row' Hs. cbn.
      destruct (decide (s = q)) as [->|Hne]; [right; rewrite lookup_insert_eq; congruence|left; by rewrite lookup_insert_ne].
    + by destruct Hspec as [-> _].
  - intros d _. pose proof (pending_rows_sorted d) as Hs. induction Hs as [|p l Hs IH Hall]; cbn; constructor; [done|].
    apply Forall_fmap. exact Hall.
  - intros d n l Hok Hl. rewrite source_pending_spec in Hl by done. by injection Hl as <-.
  - intros d d' q Hok Ha. pose proof (source_ack_spec d q Hok) as Hspec. rewrite Ha in Hspec.
    destruct Hspec as (row & Hrow & [Hok' _] & ->). split; [done|]. by rewrite acknowledged_rows, filter_fmap_items.
  - intros d d' q e Hok Ha. pose proof (source_ack_spec d q Hok) as Hspec. rewrite Ha in Hspec. by destruct Hspec as [-> _].
Defined.

#[export] Instance store_source_reliable : ReliableSource Db.
Proof.
  split.
  - intros d n Hok. eexists. by apply source_pending_spec.
  - intros d it Hok Hin. cbn in Hin. apply list_elem_of_fmap in Hin as ([s row] & -> & Hp). apply pending_rows_spec in Hp as [Hs _].
    cbn [it_sequence row_item item_of oe_sequence entry_view fst]. pose proof (source_ack_spec d s Hok) as Hspec.
    destruct (source_ack s d) as [d' [[]|e]]; [done|]. destruct Hspec as [_ [Hbig|Hn]]; [|congruence].
    destruct (ok_outbox _ Hok s row Hs) as [Hr _]. pose proof (ok_sequence _ Hok). lia.
Qed.
End source.

(** ** Wakes *)

(** The wake is buffered, or was sent to the wait that was registered before. *)
Definition wake_delivered (i i' : Inner) (key : WaitKey) : Prop :=
  in_waits i' !! key = Some BufferedWake \/
  exists c o, in_waits i !! key = Some (PendingWait c) /\ in_channels i' !! c = Some o /\ oc_sent o = true.

(** What any number of wakes leaves. *)
Record woke (config : TokioRuntimeConfig) (i i' : Inner) : Prop := {
  wk_ok : reg_ok config i -> reg_ok config i';
  wk_up : in_shutdown i = false -> in_shutdown i' = false;
  wk_live id g : fiber_live i id g -> fiber_live i' id g;
  wk_buffered k : in_waits i !! k = Some BufferedWake -> in_waits i' !! k = Some BufferedWake;
  wk_pending k c : in_waits i' !! k = Some (PendingWait c) -> in_waits i !! k = Some (PendingWait c);
  wk_sent c o : in_channels i !! c = Some o -> oc_sent o = true -> exists o', in_channels i' !! c = Some o' /\ oc_sent o' = true;
}.

#[export] Instance woke_preorder config : PreOrder (woke config).
Proof.
  split; [intros i; split; eauto|]. intros i1 i2 i3 [A1 A2 A3 A4 A5 A6] [B1 B2 B3 B4 B5 B6]. split; auto.
  intros c o Ho Hs. destruct (A6 c o Ho Hs) as (o' & Ho' & Hs'). by apply (B6 c o').
Qed.

Lemma delivered_later config i i1 i2 i3 key : woke config i i1 -> wake_delivered i1 i2 key -> woke config i2 i3 -> wake_delivered i i3 key.
Proof.
  intros Hb [Hk|(c & o & Hk & Ho & Hs)] Ha; [left; by apply (wk_buffered _ _ _ Ha)|right].
  destruct (wk_sent _ _ _ Ha c o Ho Hs) as (o' & Ho' & Hs'). exists c, o'. split; [by apply (wk_pending _ _ _ Hb)|done].
Qed.

(** The record of a wake changes in its metering only. *)
Lemma live_update loc now i id g : fiber_live i id g -> fiber_live (update_record loc (resume_from_wait now) i) id g.
Proof.
  intros (l & r & Hid & Hr & Hg & Hp). destruct (resume_wait_same now r) as ([_ S2 _ _] & St & _).
  exists l, (if decide (l = loc) then resume_from_wait now r else r). unfold record_at, update_record in *. cbn.
  split; [done|]. case_decide as Hl; [subst l; rewrite lookup_alter_eq, Hr|rewrite lookup_alter_ne by done]; [|done].
  split; [done|]. split; congruence.
Qed.

Lemma wake_deliver_woke config loc key now i : woke config i (wake_deliver loc key now i).1.
Proof.
  assert (forall j, in_shutdown j = in_shutdown i -> in_fibers j = in_fibers i -> in_records j = in_records i ->
    (reg_ok config i -> reg_ok config j) ->
    (forall k, in_waits i !! k = Some BufferedWake -> in_waits j !! k = Some BufferedWake) ->
    (forall k c, in_waits j !! k = Some (PendingWait c) -> in_waits i !! k = Some (PendingWait c)) ->
    (forall c o, in_channels i !! c = Some o -> oc_sent o = true -> exists o', in_channels j !! c = Some o' /\ oc_sent o' = true) ->
    woke config i (update_record loc (resume_from_wait now) j)) as Hupd.
  { intros j Hs Hf Hr Hreg Hb Hp Hc. split; cbn; try done; [|by rewrite Hs|].
    - intros Hok. apply reg_ok_update; [by apply Hreg|]. intros; apply resume_wait_same.
    - intros id g Hl. apply live_update. destruct Hl as (l & r & Hid & Hrl & Hrest). exists l, r. unfold record_at in *. by rewrite Hf, Hr. }
  unfold wake_deliver. destruct (in_shutdown i) eqn:Hs; [done|]. destruct (record_terminal i loc); [done|].
  destruct (in_waits i !! key) as [[c|]|] eqn:Hk; [|done|].
  - assert (forall f, (forall o, oc_sent o = true -> oc_sent (f o) = true) -> forall x o, in_channels i !! x = Some o -> oc_sent o = true ->
      exists o', alter f c (in_channels i) !! x = Some o' /\ oc_sent o' = true) as Halter.
    { intros f Hf x o Ho Hso. destruct (decide (x = c)) as [->|Hne]; [rewrite lookup_alter_eq, Ho; eexists; by split; [|apply Hf]|].
      rewrite lookup_alter_ne by done. by exists o. }
    cbn [fst]. destruct (receiver_there i c); apply Hupd; cbn; try done; try (by apply Halter); try (intros Hok; by apply (reg_ok_agree _ i)).
    + intros k Hb. rewrite lookup_delete_ne; [done|]. congruence.
    + intros k x. rewrite lookup_delete_Some. by intros [_ Hx].
    + intros k Hb. destruct (decide (k = key)) as [->|Hne]; [by rewrite lookup_insert_eq|by rewrite lookup_insert_ne].
    + intros k x. rewrite lookup_insert_Some. by intros [[_ ?]|[_ Hx]].
  - cbn [fst]. split; cbn; try done; eauto.
    + intros Hok. by apply (reg_ok_agree _ i).
    + intros k Hb. destruct (decide (k = key)) as [->|Hne]; [by rewrite lookup_insert_eq|by rewrite lookup_insert_ne].
    + intros k x. rewrite lookup_insert_Some. by intros [[_ ?]|[_ Hx]].
Qed.

Lemma wake_woke config h op g now i :
  woke config i (wake h op g now i).1 /\ (in_shutdown i = false -> exists o, (wake h op g now i).2 = Ok o).
Proof.
  unfold wake. destruct (wake_lookup h i) as [loc|a] eqn:Hl.
  - split; [apply wake_deliver_woke|]. intros Hs. unfold wake_deliver. rewrite Hs. destruct (record_terminal i loc); [by eexists|].
    destruct (in_waits i !! _) as [[c|]|]; by eexists.
  - split; [done|]. intros Hs. revert Hl. unfold wake_lookup. rewrite Hs.
    destruct (fg_fibers (in_fibers i) !! fiber_id h) as [loc|]; [|intros [= <-]; by eexists].
    destruct (record_at i loc) as [r|]; [|intros [= <-]; by eexists]. case_decide; [done|]. intros [= <-]. by eexists.
Qed.

(** A live fiber gets its wake. *)
Lemma wake_delivers config h op g now i :
  reg_ok config i -> in_shutdown i = false -> fiber_live i (fiber_id h) (fiber_generation h) -> wake_delivered i (wake h op g now i).1 (wait_key h op g).
Proof.
  intros Hok Hup Hl. destruct (wake_live config i h op g now Hok Hup Hl) as (loc & -> & Hterm).
  unfold wake_deliver. rewrite Hup, Hterm. set (key := wait_key h op g). destruct (in_waits i !! key) as [[c|]|] eqn:Hk; cbn [fst]; [|by left|].
  - destruct (receiver_there i c) eqn:Hrec; [right|left; cbn; by rewrite lookup_insert_eq]. exists c. cbn.
    unfold receiver_there in Hrec. destruct (in_channels i !! c) as [o|] eqn:Ho; [|done]. rewrite lookup_alter_eq, Ho. by eexists.
  - left. cbn. by rewrite lookup_insert_eq.
Qed.

(** ** The whole pipeline *)

Definition is_reconcile (it : OutboxItem) : Prop := it_kind it = ItemReconcileEffect.
#[export] Instance is_reconcile_dec it : Decision (is_reconcile it).
Proof. unfold is_reconcile. apply _. Defined.

Section pipeline.
Context `{Sha256} (config : TokioRuntimeConfig) (now : Z).

#[local] Instance runtime_sink : WakeSink Inner := tokio_sink now.

Implicit Types c : Consumer Db Inner RecordingReconcileSink.

Lemma apply_item_effect item c :
  woke config (cs_wake c) (cs_wake (apply_item item c).1) /\
  cs_reconcile (apply_item item c).1 =
    (if decide (is_reconcile item) then recording_reconcile item (cs_reconcile c) else cs_reconcile c) /\
  (in_shutdown (cs_wake c) = false -> (apply_item item c).2 = Applied).
Proof.
  unfold apply_item. destruct (it_kind item) eqn:Hk; cbn; [rewrite decide_False by (unfold is_reconcile; by rewrite Hk)|rewrite decide_True by done].
  - destruct (wake_woke config (it_owner_fiber item) (it_operation_id item) (it_operation_generation item) now (cs_wake c)) as [Hw Ho].
    destruct (wake _ _ _ now (cs_wake c)) as [w r]. cbn in *. split; [done|]. split; [done|]. intros Hs.
    destruct (Ho Hs) as [o ->]. by destruct o.
  - by split_and!.
Qed.

Lemma apply_all_woke items c : woke config (cs_wake c) (cs_wake (apply_all items c)).
Proof.
  revert c. induction items as [|item items IH]; intros c; [done|]. etransitivity; [|apply (IH (apply_item item c).1)].
  apply apply_item_effect.
Qed.

Lemma accepts_up items c : in_shutdown (cs_wake c) = false -> accepts items c = true.
Proof.
  revert c. induction items as [|item items IH]; intros c Hs; [done|]. cbn. destruct (apply_item_effect item c) as (Hw & _ & Ha).
  specialize (Ha Hs). destruct (apply_item item c) as [d a]. cbn in *. subst a. apply IH. by apply (wk_up _ _ _ Hw).
Qed.

Lemma apply_all_delivers items c item :
  reg_ok config (cs_wake c) -> in_shutdown (cs_wake c) = false -> item ∈ items -> it_kind item = ItemWakeFiber ->
  let h := it_owner_fiber item in fiber_live (cs_wake c) (fiber_id h) (fiber_generation h) ->
  wake_delivered (cs_wake c) (cs_wake (apply_all items c)) (wait_key h (it_operation_id item) (it_operation_generation item)).
Proof.
  intros Hok Hup Hin Hk h Hl. apply list_elem_of_split in Hin as (l1 & l2 & ->). rewrite apply_all_app. cbn [apply_all foldl]. fold (apply_all l1 c).
  set (d := apply_all l1 c). pose proof (apply_all_woke l1 c) as Hw1. fold d in Hw1.
  apply (delivered_later config (cs_wake c) (cs_wake d) (cs_wake (apply_item item d).1)); [done| |apply apply_all_woke].
  unfold apply_item. rewrite Hk. cbn.
  pose proof (wake_delivers config h (it_operation_id item) (it_operation_generation item) now (cs_wake d)
    (wk_ok _ _ _ Hw1 Hok) (wk_up _ _ _ Hw1 Hup) (wk_live _ _ _ Hw1 _ _ Hl)) as Hd. fold h. by destruct (wake h _ _ now (cs_wake d)).
Qed.

Lemma apply_all_records items c :
  NoDup (reconcile_key <$> filter is_reconcile items) ->
  (forall it, it ∈ items -> is_reconcile it -> reconcile_key it ∉ rr_seen (cs_reconcile c)) ->
  rr_applied (cs_reconcile (apply_all items c)) = rr_applied (cs_reconcile c) ++ filter is_reconcile items.
Proof.
  revert c. induction items as [|item items IH]; intros c Hnd Hnew; [by rewrite app_nil_r|].
  change (apply_all (item :: items) c) with (apply_all items (apply_item item c).1).
  destruct (apply_item_effect item c) as (_ & Hr & _). rewrite filter_cons in Hnd |- *. destruct (decide (is_reconcile item)) as [Hi|Hi].
  - cbn in Hnd. apply NoDup_cons in Hnd as [Hkey Hnd]. unfold recording_reconcile in Hr.
    rewrite decide_False in Hr by (apply Hnew; [by left|done]). rewrite IH; [rewrite Hr; cbn; by rewrite <- app_assoc|done|].
    intros it Hit Hrec. rewrite Hr. cbn. intros [Heq%elem_of_singleton|Hseen]%elem_of_union.
    + apply Hkey. rewrite <- Heq. apply list_elem_of_fmap_2, list_elem_of_filter. done.
    + by apply (Hnew it); [right|..].
  - rewrite IH; [by rewrite Hr|done|]. intros it Hit Hrec. rewrite Hr. apply Hnew; [by right|done].
Qed.

(** Every operation has one entry, so no two pending entries share a key. *)
Lemma pending_keys_distinct d :
  db_ok d -> NoDup (reconcile_key <$> filter is_reconcile (row_item <$> pending_rows d)).
Proof.
  intros Hok. assert (forall p q, p ∈ pending_rows d -> q ∈ pending_rows d ->
    reconcile_key (row_item p) = reconcile_key (row_item q) -> p = q) as Hinj.
  { intros [s row] [s' row'] [Hs _]%pending_rows_spec [Hs' _]%pending_rows_spec [= Hid _ _].
    assert (s = s') as -> by (by apply (ok_unique _ Hok s s' row row')). congruence. }
  assert (NoDup (pending_rows d)) as Hnd.
  { pose proof (pending_rows_sorted d) as Hs. clear Hinj. induction Hs as [|p l Hs IH Hall]; constructor; [|done].
    intros Hp. rewrite Forall_forall in Hall. specialize (Hall p Hp). lia. }
  revert Hnd Hinj. generalize (pending_rows d) as l. induction l as [|p l IH]; intros Hnd Hinj; [constructor|].
  apply NoDup_cons in Hnd as [Hp Hnd]. rewrite fmap_cons, filter_cons. specialize (IH Hnd ltac:(intros; apply Hinj; try done; by right)).
  case_decide; [|done]. cbn. apply NoDup_cons. split; [|done]. intros Hk. apply list_elem_of_fmap in Hk as (it & Hk & Hit).
  apply list_elem_of_filter in Hit as [_ Hit]. apply list_elem_of_fmap in Hit as (q & -> & Hq).
  apply Hp. rewrite (Hinj p q); [done|by left|by right|done].
Qed.

End pipeline.

(** ** Examples *)

(** Three operations of a fiber: one completed, one cancelled in flight and completed,
    one cancelled before it was dispatched. *)
Definition pipeline_spec (id : Z) : OperationSpec := {|
  operation_id := id; generation := 1; owner_fiber := {| fiber_id := 1; fiber_generation := 1 |};
  cancellation_scope_id := 9; cancellation_generation := 1
|}.

Definition pipeline_ops : list store_op := [
  ORegister (pipeline_spec 7); ORegister (pipeline_spec 8); ORegister (pipeline_spec 9);
  ODispatch (handle_of (pipeline_spec 7)) 11; ODispatch (handle_of (pipeline_spec 8)) 12;
  OComplete (ticket_of (pipeline_spec 7) 11) (OutCompleted 30);
  OCancel (handle_of (pipeline_spec 8)) 20; OComplete (ticket_of (pipeline_spec 8) 12) (OutPartialEffect 31);
  OCancel (handle_of (pipeline_spec 9)) 21
].

Definition pipeline_rops : list rt_op := [RSpawn (example_spec 1) 10; RWait example_handle 7 1 20].

Definition pipeline_pump : PumpConfig := {| poll_interval := 25000000; failure_threshold := 3 |}.


Lemma drain_acks_applied_only_witness :
  exists c' r, drain_once (H0 := tokio_sink 40) 2
      {| cs_source := op_run (H := checksum_hasher) fresh pipeline_ops; cs_wake := rt_run runtime_start pipeline_rops;
         cs_reconcile := recording_new |} = (c', Ok r) /\ dr_polled r = 2%nat.
Proof.
  assert (db_ok (H := checksum_hasher) (op_run (H := checksum_hasher) fresh pipeline_ops)) as Hok
    by (apply op_run_ok; repeat constructor; done).
  set (c := {| cs_source := op_run (H := checksum_hasher) fresh pipeline_ops; cs_wake := rt_run runtime_start pipeline_rops;
               cs_reconcile := recording_new |}).
  destruct (drain_once (H0 := tokio_sink 40) 2 c) as [c' [r|e]] eqn:Hd; [|by vm_compute in Hd].
  exists c', r. split; [done|].
  destruct (drain_acks_applied_only (H0 := tokio_sink 40) (OutboxSourceLaws0 := store_source_laws (H := checksum_hasher)) 2 c c' r Hok Hd)
    as (_ & -> & _). vm_compute. reflexivity.
Defined.
