(* ===== verification/Clock.v ===== *)
(** * Clock: the durable clock authority

    Models nlos-clock/src/lib.rs and schema.rs: the two clock domains (a dense counter of
    ticks and a wall clock that never goes back), each with a watermark row and the
    receipts of its idempotency keys, the schema migrations and [AuthorityClock]'s
    operations, and shows that the store implements an abstract clock. *)

From S2P Require Import Prelude Txn.

(** ** Data *)

Inductive NowDecision := Tick (reading : Z) | Replayed (reading : Z).
Inductive WallNowDecision := WallAdvanced (reading : Z) | WallReplayed (reading : Z).

(** Without the errors of opening the file itself: SQLite is taken to grant WAL and FULL,
    and no operation panics with the lock held. *)
Inductive AuthorityClockError :=
  | ClockSqlite (e : SqliteError)
  | SchemaVersionUnsupported (version : Z)
  | ClockCorrupt (reason : string)
  | WallClockUnavailable.

(** The tables of one domain: how many of its tables and triggers exist, the watermark
    row, and the receipts by key. *)
Record Domain := {
  do_tables : Z;
  do_triggers : Z;
  do_watermark : option Z;
  do_receipts : gmap Z Z;
}.

Record ClockDb := {
  ck_user_version : Z;
  ck_tick : Domain;
  ck_wall : Domain;
}.

#[export] Instance eta_domain : Eta Domain := fun x =>
  Build_Domain (do_tables x) (do_triggers x) (do_watermark x) (do_receipts x).
#[export] Instance set_do_tables : Setter do_tables. Proof. build_setter. Defined.
#[export] Instance set_do_triggers : Setter do_triggers. Proof. build_setter. Defined.
#[export] Instance set_do_watermark : Setter do_watermark. Proof. build_setter. Defined.
#[export] Instance set_do_receipts : Setter do_receipts. Proof. build_setter. Defined.

#[export] Instance eta_clockdb : Eta ClockDb := fun x => Build_ClockDb (ck_user_version x) (ck_tick x) (ck_wall x).
#[export] Instance set_ck_user_version : Setter ck_user_version. Proof. build_setter. Defined.
#[export] Instance set_ck_tick : Setter ck_tick. Proof. build_setter. Defined.
#[export] Instance set_ck_wall : Setter ck_wall. Proof. build_setter. Defined.

Abbreviation clock_tx := (txn ClockDb AuthorityClockError).
Abbreviation domain_tx := (txn Domain AuthorityClockError).

(** Statements that touch the tables of one domain only. *)
Definition in_tick {A} (m : domain_tx A) : clock_tx A := fun d =>
  match m (ck_tick d) with Ok (a, t) => Ok (a, d <| ck_tick := t |>) | Err e => Err e end.
Definition in_wall {A} (m : domain_tx A) : clock_tx A := fun d =>
  match m (ck_wall d) with Ok (a, w) => Ok (a, d <| ck_wall := w |>) | Err e => Err e end.

(** ** Schema *)

Definition SCHEMA_VERSION : Z := 2.

(** A domain whose file has none of its objects, and one just created. *)
Definition no_domain : Domain :=
  {| do_tables := 0; do_triggers := 0; do_watermark := None; do_receipts := ∅ |}.
Definition created_domain : Domain :=
  {| do_tables := 2; do_triggers := 6; do_watermark := Some 0; do_receipts := ∅ |}.

Definition new_file : ClockDb := {| ck_user_version := 0; ck_tick := no_domain; ck_wall := no_domain |}.

Definition migrate_v1 : clock_tx () :=
  table_count ← reading (fun d => do_tables (ck_tick d));
  trigger_count ← reading (fun d => do_triggers (ck_tick d));
  if decide (table_count = 2 /\ trigger_count = 6) then writing (fun d => d <| ck_user_version := 1 |>)
  else if decide (table_count <> 0 \/ trigger_count <> 0) then throw (ClockCorrupt "partial clock authority schema")
  else writing (fun d => d <| ck_tick := created_domain |> <| ck_user_version := 1 |>).

Definition migrate_v2 : clock_tx () :=
  table_count ← reading (fun d => do_tables (ck_wall d));
  trigger_count ← reading (fun d => do_triggers (ck_wall d));
  if decide (table_count = 2 /\ trigger_count = 6) then writing (fun d => d <| ck_user_version := SCHEMA_VERSION |>)
  else if decide (table_count <> 0 \/ trigger_count <> 0) then throw (ClockCorrupt "partial clock authority wall schema")
  else writing (fun d => d <| ck_wall := created_domain |> <| ck_user_version := 2 |>).

(** Opening the file. The migrations are transactions of their own, so what the first
    one committed stays when the second fails or the process dies before it ([dies]). *)
Definition open (dies : bool) (d : ClockDb) : ClockDb * result AuthorityClockError () :=
  let version := ck_user_version d in
  if decide (version = 0) then
    match run_tx migrate_v1 d with
    | (d, Err e) => (d, Err e)
    | (d, Ok _) => if dies then (d, Ok ()) else run_tx migrate_v2 d
    end
  else if decide (version = 1) then (if dies then (d, Ok ()) else run_tx migrate_v2 d)
  else if decide (version = SCHEMA_VERSION) then (d, Ok ())
  else (d, Err (SchemaVersionUnsupported version)).

(** ** Rows *)

Definition encode_reading (value : Z) : result AuthorityClockError Z :=
  if decide (value <= i64_max) then Ok value else Err (ClockCorrupt "reading exceeds SQLite i64").
Definition decode_reading (value : Z) : result AuthorityClockError Z :=
  if decide (0 <= value) then Ok value else Err (ClockCorrupt "negative reading").
Definition encode_wall (value : Z) : result AuthorityClockError Z :=
  if decide (value <= i64_max) then Ok value else Err (ClockCorrupt "wall reading exceeds SQLite i64").
Definition decode_wall (value : Z) : result AuthorityClockError Z :=
  if decide (0 <= value) then Ok value else Err (ClockCorrupt "negative wall reading").

(** The compare-and-set of a watermark row, with the CHECK of the column and the trigger
    that keeps it monotonic; returns the number of rows changed. *)
Definition update_watermark (monotonic : string) (next current : Z) : domain_tx Z :=
  row ← reading do_watermark;
  match row with
  | None => mret 0
  | Some old =>
      if decide (old <> current) then mret 0
      else if decide (next < old) then throw (ClockSqlite (TriggerAbort monotonic))
      else if decide (next < 0) then throw (ClockSqlite ConstraintViolation)
      else _ ← writing (fun d => d <| do_watermark := Some next |>); mret 1
  end.

(** The insertion of a receipt, with the primary key, the CHECK of the column and the
    trigger that bounds it by the watermark. *)
Definition insert_receipt (bounds : string) (key value : Z) : domain_tx () :=
  taken ← reading (fun d => do_receipts d !! key);
  match taken with
  | Some _ => throw (ClockSqlite ConstraintViolation)
  | None =>
      if decide (value < 1) then throw (ClockSqlite ConstraintViolation)
      else
        mark ← reading do_watermark;
        if decide (default value mark < value) then throw (ClockSqlite (TriggerAbort bounds))
        else writing (fun d => d <| do_receipts := <[key := value]> (do_receipts d) |>)
  end.

Definition load_watermark : domain_tx Z :=
  raw ← reading do_watermark;
  raw ← lift (ok_or raw (ClockCorrupt "watermark row is missing"));
  lift (decode_reading raw).

Definition load_receipt (key : Z) : domain_tx (option Z) :=
  raw ← reading (fun d => do_receipts d !! key);
  match raw with
  | None => mret None
  | Some raw => reading ← lift (decode_reading raw); mret (Some reading)
  end.

Definition load_wall_watermark : domain_tx Z :=
  raw ← reading do_watermark;
  raw ← lift (ok_or raw (ClockCorrupt "wall watermark row is missing"));
  lift (decode_wall raw).

Definition load_wall_receipt (key : Z) : domain_tx (option Z) :=
  raw ← reading (fun d => do_receipts d !! key);
  match raw with
  | None => mret None
  | Some raw => reading ← lift (decode_wall raw); mret (Some reading)
  end.

(** ** Operations *)

Definition now (key : Z) : clock_tx NowDecision := in_tick (
  receipt ← load_receipt key;
  match receipt with
  | Some reading => mret (Replayed reading)
  | None =>
      current ← load_watermark;
      next ← lift (ok_or (checked_add64 current 1) (ClockCorrupt "clock reading space is exhausted"));
      next_raw ← lift (encode_reading next);
      current_raw ← lift (encode_reading current);
      changed ← update_watermark "watermark reading is monotonic" next_raw current_raw;
      if decide (changed <> 1) then throw (ClockCorrupt "watermark CAS lost")
      else
        receipt_raw ← lift (encode_reading next);
        _ ← insert_receipt "tick receipt exceeds the watermark" key receipt_raw;
        mret (Tick next)
  end).

Definition inspect : clock_tx Z := in_tick load_watermark.

(** [now_ms] is what the wall source answers when it is asked. *)
Definition wall_now (now_ms : result AuthorityClockError Z) (key : Z) : clock_tx WallNowDecision := in_wall (
  receipt ← load_wall_receipt key;
  match receipt with
  | Some reading => mret (WallReplayed reading)
  | None =>
      system_ms ← lift now_ms;
      current ← load_wall_watermark;
      let next := Z.max current system_ms in
      next_raw ← lift (encode_wall next);
      current_raw ← lift (encode_wall current);
      changed ← update_watermark "wall watermark reading is monotonic" next_raw current_raw;
      if decide (changed <> 1) then throw (ClockCorrupt "wall watermark CAS lost")
      else
        receipt_raw ← lift (encode_wall next);
        _ ← insert_receipt "wall receipt exceeds the wall watermark" key receipt_raw;
        mret (WallAdvanced next)
  end).

Definition inspect_wall : clock_tx Z := in_wall load_wall_watermark.

(** The production wall source over the system clock: the time since the epoch in
    nanoseconds, negative before it; [as_millis] is a u128 made a u64. *)
Definition system_now_ms (nanos : Z) : result AuthorityClockError Z :=
  if decide (nanos < 0) then Err WallClockUnavailable
  else let millis := nanos / 1000000 in
    if decide (millis <= u64_max) then Ok millis else Err WallClockUnavailable.

(** ** The abstract clock

    A tick is the position of its key among the keys in the order they first came; a wall
    reading is the highest time the source had shown by then. *)

Record AbstractClock := {
  ac_ticks : list Z;
  ac_walls : list (Z * Z);
}.

Definition high (walls : list (Z * Z)) : Z := foldr (fun w => Z.max w.2) 0 walls.

Definition tick_of (ticks : list Z) (key : Z) : option Z :=
  (fun p => Z.of_nat p.1 + 1) <$> list_find (eq key) ticks.
Definition wall_of (walls : list (Z * Z)) (key : Z) : option Z :=
  (fun p => high (take (S p.1) walls)) <$> list_find (fun w => key = w.1) walls.

Definition abstract_now (key : Z) (a : AbstractClock) : AbstractClock * result AuthorityClockError NowDecision :=
  match tick_of (ac_ticks a) key with
  | Some r => (a, Ok (Replayed r))
  | None =>
      let next := Z.of_nat (length (ac_ticks a)) + 1 in
      if decide (next <= i64_max)
      then ({| ac_ticks := ac_ticks a ++ [key]; ac_walls := ac_walls a |}, Ok (Tick next))
      else (a, Err (ClockCorrupt "reading exceeds SQLite i64"))
  end.

Definition abstract_wall (now_ms : result AuthorityClockError Z) (key : Z) (a : AbstractClock) :
    AbstractClock * result AuthorityClockError WallNowDecision :=
  match wall_of (ac_walls a) key, now_ms with
  | Some r, _ => (a, Ok (WallReplayed r))
  | None, Err e => (a, Err e)
  | None, Ok ms =>
      let next := Z.max (high (ac_walls a)) ms in
      if decide (i64_max < next) then (a, Err (ClockCorrupt "wall reading exceeds SQLite i64"))
      else if decide (next = 0) then (a, Err (ClockSqlite ConstraintViolation))
      else ({| ac_ticks := ac_ticks a; ac_walls := ac_walls a ++ [(key, ms)] |}, Ok (WallAdvanced next))
  end.

Inductive clock_event :=
  | Reopen
  | OpenDies
  | CallNow (key : Z)
  | CallWall (key : Z) (now_ms : result AuthorityClockError Z)
  | CallInspect
  | CallInspectWall.

Inductive clock_answer :=
  | Opened (r : result AuthorityClockError ())
  | NoClock
  | Ticked (r : result AuthorityClockError NowDecision)
  | Walled (r : result AuthorityClockError WallNowDecision)
  | Inspected (r : result AuthorityClockError Z).

(** The file together with whether a process holds it open; a call needs an open clock,
    and a process may die and open the file again between any two calls. *)
Definition clock_step (s : ClockDb * bool) (e : clock_event) : (ClockDb * bool) * clock_answer :=
  let '(d, opened) := s in
  match e with
  | Reopen => let '(d', r) := open false d in (d', match r with Ok _ => true | Err _ => false end, Opened r)
  | OpenDies => ((open true d).1, false, NoClock)
  | CallNow k => if opened then let '(d', r) := run_tx (now k) d in (d', true, Ticked r) else (s, NoClock)
  | CallWall k ms =>
      if opened then let '(d', r) := run_tx (wall_now ms k) d in (d', true, Walled r) else (s, NoClock)
  | CallInspect => if opened then (s, Inspected (run_tx inspect d).2) else (s, NoClock)
  | CallInspectWall => if opened then (s, Inspected (run_tx inspect_wall d).2) else (s, NoClock)
  end.

Definition abstract_step (s : AbstractClock * bool) (e : clock_event) : (AbstractClock * bool) * clock_answer :=
  let '(a, opened) := s in
  match e with
  | Reopen => (a, true, Opened (Ok ()))
  | OpenDies => (a, false, NoClock)
  | CallNow k => if opened then let '(a', r) := abstract_now k a in (a', true, Ticked r) else (s, NoClock)
  | CallWall k ms =>
      if opened then let '(a', r) := abstract_wall ms k a in (a', true, Walled r) else (s, NoClock)
  | CallInspect => if opened then (s, Inspected (Ok (Z.of_nat (length (ac_ticks a))))) else (s, NoClock)
  | CallInspectWall => if opened then (s, Inspected (Ok (high (ac_walls a)))) else (s, NoClock)
  end.

Fixpoint answers {S} (step : S -> clock_event -> S * clock_answer) (s : S) (es : list clock_event) : list clock_answer :=
  match es with
  | [] => []
  | e :: es => let '(s', a) := step s e in a :: answers step s' es
  end.

(** ** Refinement *)

Lemma high_cons x l : high (x :: l) = Z.max x.2 (high l).
Proof. done. Qed.

Lemma high_nonneg l : 0 <= high l.
Proof. induction l; [done|]. rewrite high_cons. lia. Qed.

Lemma high_app l k : high (l ++ k) = Z.max (high l) (high k).
Proof.
  pose proof (high_nonneg k). induction l as [|x l IH]; [change (high k = Z.max 0 (high k)); lia|].
  rewrite <- app_comm_cons, !high_cons, IH. lia.
Qed.

Lemma high_take n l : high (take n l) <= high l.
Proof. rewrite <- (take_drop n l) at 2. rewrite high_app. lia. Qed.

Lemma tick_of_app ticks key k :
  tick_of ticks key = None ->
  tick_of (ticks ++ [key]) k = if decide (k = key) then Some (Z.of_nat (length ticks) + 1) else tick_of ticks k.
Proof.
  unfold tick_of. intros Hn%fmap_None. destruct (list_find (eq k) ticks) as [[i y]|] eqn:E.
  - rewrite (list_find_app_l _ _ _ _ _ E). rewrite decide_False; [done|]. intros ->. congruence.
  - rewrite list_find_app_r by done. cbn. destruct (decide (k = key)) as [->|Hk]; done.
Qed.

Lemma wall_of_app walls key ms k :
  wall_of walls key = None ->
  wall_of (walls ++ [(key, ms)]) k =
    if decide (k = key) then Some (Z.max (high walls) (Z.max ms 0)) else wall_of walls k.
Proof.
  unfold wall_of. intros Hn%fmap_None. destruct (list_find (fun w => k = w.1) walls) as [[i y]|] eqn:E.
  - rewrite (list_find_app_l _ _ _ _ _ E). rewrite decide_False; [|intros ->; congruence]. cbn [fmap option_fmap option_map fst].
    apply list_find_Some in E as [Hi _]. apply lookup_lt_Some in Hi. rewrite take_app_le by lia. done.
  - rewrite list_find_app_r by done. cbn. destruct (decide (k = key)) as [->|Hk]; cbn; [|done].
    f_equal. rewrite firstn_all2 by (rewrite length_app; cbn; lia). rewrite high_app, high_cons. cbn [snd]. change (high []) with 0. lia.
Qed.

Record domain_is (d : Domain) (mark : Z) (receipt : Z -> option Z) : Prop := {
  di_mark : do_watermark d = Some mark;
  di_mark_range : 0 <= mark <= i64_max;
  di_receipts : forall k, do_receipts d !! k = receipt k;
  di_receipts_nonneg : forall k r, receipt k = Some r -> 0 <= r;
}.

Definition stored (d : ClockDb) (a : AbstractClock) : Prop :=
  ck_user_version d = SCHEMA_VERSION /\
  domain_is (ck_tick d) (Z.of_nat (length (ac_ticks a))) (tick_of (ac_ticks a)) /\
  domain_is (ck_wall d) (high (ac_walls a)) (wall_of (ac_walls a)).

(** What the file holds before and after the clock has first been opened. *)
Definition file_is (d : ClockDb) (a : AbstractClock) : Prop :=
  stored d a \/
  (a = {| ac_ticks := []; ac_walls := [] |} /\
   (d = new_file \/ d = new_file <| ck_tick := created_domain |> <| ck_user_version := 1 |>)).

Definition simulated (s : ClockDb * bool) (t : AbstractClock * bool) : Prop :=
  s.2 = t.2 /\ file_is s.1 t.1 /\ (s.2 = true -> stored s.1 t.1).

Lemma domain_is_created receipt : (forall k, receipt k = None) -> domain_is created_domain 0 receipt.
Proof.
  intros Hr. split; [done|unfold i64_max; lia| |].
  - intros k. by rewrite Hr.
  - intros k r. by rewrite Hr.
Qed.

(** The two statements of an advance on a domain that has not seen the key. *)
Lemma wp_update_watermark d mark receipt monotonic next Q X :
  domain_is d mark receipt -> mark <= next -> Q 1 (d <| do_watermark := Some next |>) ->
  wp (update_watermark monotonic next mark) Q X d.
Proof.
  intros [Hm Hr Hk _] Hle HQ. unfold update_watermark. do 2 wp_pure. rewrite Hm, decide_False by (intros Hx; by apply Hx).
  rewrite !decide_False by lia. by repeat wp_pure.
Qed.

Lemma wp_insert_receipt d bounds key next (Q : () -> Domain -> Prop) X :
  do_receipts d !! key = None -> do_watermark d = Some next -> 1 <= next ->
  Q () (d <| do_receipts := <[key := next]> (do_receipts d) |>) ->
  wp (insert_receipt bounds key next) Q X d.
Proof.
  intros Hk Hm Hn HQ. unfold insert_receipt. do 2 wp_pure. rewrite Hk, decide_False by lia. do 2 wp_pure.
  rewrite Hm. cbn [default]. rewrite decide_False by (cbn; lia). by wp_pure.
Qed.

Lemma domain_is_advance d mark receipt key next receipt' :
  domain_is d mark receipt -> 0 <= next <= i64_max ->
  (forall k, receipt' k = if decide (k = key) then Some next else receipt k) ->
  domain_is (d <| do_watermark := Some next |> <| do_receipts := <[key := next]> (do_receipts d) |>) next receipt'.
Proof.
  intros [Hm Hr Hk Hp] Hn Hr'. split; [done|done| |].
  - intros k. cbn. rewrite Hr'. destruct (decide (k = key)) as [->|Hne]; [apply lookup_insert_eq|].
    rewrite lookup_insert_ne by done. apply Hk.
  - intros k r. rewrite Hr'. destruct (decide (k = key)); [intros [= <-]; lia|apply Hp].
Qed.

Lemma decode_reading_Ok v : 0 <= v -> decode_reading v = Ok v.
Proof. intros Hv. unfold decode_reading. by rewrite decide_True. Qed.
Lemma decode_wall_Ok v : 0 <= v -> decode_wall v = Ok v.
Proof. intros Hv. unfold decode_wall. by rewrite decide_True. Qed.
Lemma encode_reading_Ok v : v <= i64_max -> encode_reading v = Ok v.
Proof. intros Hv. unfold encode_reading. by rewrite decide_True. Qed.
Lemma encode_wall_Ok v : v <= i64_max -> encode_wall v = Ok v.
Proof. intros Hv. unfold encode_wall. by rewrite decide_True. Qed.

Lemma wp_load_receipt d mark receipt k (Q : option Z -> Domain -> Prop) X :
  domain_is d mark receipt -> Q (receipt k) d -> wp (load_receipt k) Q X d.
Proof.
  intros Hd HQ. unfold load_receipt. do 2 wp_pure. rewrite (di_receipts _ _ _ Hd).
  destruct (receipt k) as [r|] eqn:E; [|by wp_pure]. wp_pure.
  eapply wp_lift_Ok; [by apply decode_reading_Ok, (di_receipts_nonneg _ _ _ Hd k)|]. by wp_pure.
Qed.

Lemma wp_load_wall_receipt d mark receipt k (Q : option Z -> Domain -> Prop) X :
  domain_is d mark receipt -> Q (receipt k) d -> wp (load_wall_receipt k) Q X d.
Proof.
  intros Hd HQ. unfold load_wall_receipt. do 2 wp_pure. rewrite (di_receipts _ _ _ Hd).
  destruct (receipt k) as [r|] eqn:E; [|by wp_pure]. wp_pure.
  eapply wp_lift_Ok; [by apply decode_wall_Ok, (di_receipts_nonneg _ _ _ Hd k)|]. by wp_pure.
Qed.

Lemma wp_load_watermark d mark receipt (Q : Z -> Domain -> Prop) X :
  domain_is d mark receipt -> Q mark d -> wp load_watermark Q X d.
Proof.
  intros Hd HQ. unfold load_watermark. do 3 wp_pure. eapply wp_lift_Ok; [by rewrite (di_mark _ _ _ Hd)|].
  eapply wp_lift_Ok; [|done]. apply decode_reading_Ok, Hd.
Qed.

Lemma wp_load_wall_watermark d mark receipt (Q : Z -> Domain -> Prop) X :
  domain_is d mark receipt -> Q mark d -> wp load_wall_watermark Q X d.
Proof.
  intros Hd HQ. unfold load_wall_watermark. do 3 wp_pure. eapply wp_lift_Ok; [by rewrite (di_mark _ _ _ Hd)|].
  eapply wp_lift_Ok; [|done]. apply decode_wall_Ok, Hd.
Qed.

Lemma wp_on_tick {A} (m : domain_tx A) (Q : A -> ClockDb -> Prop) X d :
  wp m (fun a t => Q a (d <| ck_tick := t |>)) X (ck_tick d) -> wp (in_tick m) Q X d.
Proof. unfold wp, in_tick. by destruct (m _) as [[a t]|e]. Qed.

Lemma wp_on_wall {A} (m : domain_tx A) (Q : A -> ClockDb -> Prop) X d :
  wp m (fun a w => Q a (d <| ck_wall := w |>)) X (ck_wall d) -> wp (in_wall m) Q X d.
Proof. unfold wp, in_wall. by destruct (m _) as [[a t]|e]. Qed.

Lemma now_refines d a k : stored d a ->
  wp (now k) (fun r d' => exists a', abstract_now k a = (a', Ok r) /\ stored d' a')
    (fun e => abstract_now k a = (a, Err e)) d.
Proof.
  intros (Hv & Ht & Hw). unfold abstract_now, now. apply wp_on_tick. wp_pure. eapply wp_load_receipt; [done|].
  destruct (tick_of (ac_ticks a) k) as [r|] eqn:E; [wp_pure; exists a; by destruct d|].
  wp_pure. eapply wp_load_watermark; [done|]. wp_pure. pose proof (di_mark_range _ _ _ Ht) as Hr.
  eapply wp_lift_Ok; [unfold checked_add64; rewrite decide_True by (revert Hr; unfold u64_max, i64_max; lia); done|].
  wp_pure. unfold encode_reading at 1. case_decide as Hn; [|by unfold wp, lift]. apply wp_lift_Ok with (Z.of_nat (length (ac_ticks a)) + 1); [done|].
  wp_pure. eapply wp_lift_Ok; [apply encode_reading_Ok; lia|]. wp_pure. eapply wp_update_watermark; [done|lia|].
  rewrite decide_False by (intros Hx; by apply Hx). wp_pure. eapply wp_lift_Ok; [by apply encode_reading_Ok|]. wp_pure.
  apply wp_insert_receipt; [by rewrite <- E; apply Ht|done|lia|]. wp_pure. eexists. split; [done|].
  split; [done|]. cbn [ac_ticks ac_walls]. split; [|done]. rewrite length_app. cbn [length].
  replace (Z.of_nat (length (ac_ticks a) + 1)) with (Z.of_nat (length (ac_ticks a)) + 1) by lia.
  apply (domain_is_advance _ _ _ _ _ _ Ht); [lia|]. intros k'. by apply tick_of_app.
Qed.

Lemma wall_refines d a k ms : stored d a ->
  wp (wall_now ms k) (fun r d' => exists a', abstract_wall ms k a = (a', Ok r) /\ stored d' a')
    (fun e => abstract_wall ms k a = (a, Err e)) d.
Proof.
  intros (Hv & Ht & Hw). unfold abstract_wall, wall_now. apply wp_on_wall. wp_pure. eapply wp_load_wall_receipt; [done|].
  destruct (wall_of (ac_walls a) k) as [r|] eqn:E; [wp_pure; exists a; by destruct d|].
  wp_pure. destruct ms as [ms|e]; [|by unfold wp, lift]. eapply wp_lift_Ok; [done|]. wp_pure.
  eapply wp_load_wall_watermark; [done|]. cbv zeta. pose proof (high_nonneg (ac_walls a)). wp_pure. unfold encode_wall at 1.
  case_decide as Hn; [|by unfold wp, lift; rewrite decide_True by lia]. rewrite (decide_False (P := i64_max < _)) by lia.
  apply wp_lift_Ok with (Z.max (high (ac_walls a)) ms); [done|]. wp_pure.
  eapply wp_lift_Ok; [apply encode_wall_Ok; lia|]. wp_pure. eapply wp_update_watermark; [done|lia|].
  rewrite decide_False by (intros Hx; by apply Hx). wp_pure. eapply wp_lift_Ok; [by apply encode_wall_Ok|]. wp_pure.
  case_decide as Hz.
  { unfold insert_receipt. do 2 wp_pure. cbn [do_receipts]. rewrite (di_receipts _ _ _ Hw), E, decide_True by lia. by wp_pure. }
  apply wp_insert_receipt; [by rewrite <- E; apply Hw|done|lia|]. wp_pure. eexists. split; [done|].
  split; [done|]. cbn [ac_ticks ac_walls]. split; [done|]. rewrite high_app, high_cons. cbn [snd]. change (high []) with 0.
  replace (Z.max (high (ac_walls a)) (Z.max ms 0)) with (Z.max (high (ac_walls a)) ms) by lia.
  apply (domain_is_advance _ _ _ _ _ _ Hw); [lia|]. intros k'. rewrite wall_of_app by done.
  by replace (Z.max (high (ac_walls a)) (Z.max ms 0)) with (Z.max (high (ac_walls a)) ms) by lia.
Qed.

Lemma open_refines dies d a : file_is d a ->
  file_is (open dies d).1 a /\ (open dies d).2 = Ok () /\ (dies = false -> stored (open dies d).1 a).
Proof.
  assert (Hnew : stored (new_file <| ck_tick := created_domain |> <| ck_wall := created_domain |> <| ck_user_version := 2 |>)
    {| ac_ticks := []; ac_walls := [] |}) by (split; [done|]; split; by apply domain_is_created).
  intros [Hs|[-> [-> | ->]]].
  - unfold open. rewrite !(proj1 Hs), decide_False, decide_False, decide_True by done. split; [by left|done].
  - destruct dies; cbn; (split; [|by split]); [right|left; exact Hnew]. split; [done|]. by right.
  - destruct dies; cbn; (split; [|by split]); [right|left; exact Hnew]. split; [done|]. by right.
Qed.

Lemma step_simulates s t e : simulated s t ->
  (clock_step s e).2 = (abstract_step t e).2 /\ simulated (clock_step s e).1 (abstract_step t e).1.
Proof.
  destruct s as [d o], t as [a o']. intros (Ho & Hf & Hs). cbn in Ho, Hf, Hs. subst o'. destruct e; cbn.
  - destruct (open_refines false d a Hf) as (Hf' & Hr & Hs'). destruct (open false d) as [d' r]. cbn in *. subst r.
    split; [done|]. split; [done|]. split; [done|auto].
  - destruct (open_refines true d a Hf) as (Hf' & Hr & Hs'). split; [done|]. by split; [|split].
  - destruct o; [|by split]. pose proof (run_wp _ _ _ _ (now_refines d a key (Hs eq_refl))) as Hrun.
    destruct (run_tx (now key) d) as [d' [r|e]]; cbn in *; [destruct Hrun as (a' & -> & Hs')|destruct Hrun as [-> ->]];
      (split; [done|]; split; [done|]; split; [first [by left | done]|auto]).
  - destruct o; [|by split]. pose proof (run_wp _ _ _ _ (wall_refines d a key now_ms (Hs eq_refl))) as Hrun.
    destruct (run_tx (wall_now now_ms key) d) as [d' [r|e]]; cbn in *; [destruct Hrun as (a' & -> & Hs')|destruct Hrun as [-> ->]];
      (split; [done|]; split; [done|]; split; [first [by left | done]|auto]).
  - destruct o; [|by split]. split; [|by split]. f_equal. destruct (Hs eq_refl) as (_ & Ht & _).
    enough (Hwp : wp inspect (fun r _ => r = Z.of_nat (length (ac_ticks a))) (fun _ => False) d).
    { apply run_wp in Hwp. destruct (run_tx inspect d).2; [by rewrite Hwp|by destruct Hwp]. }
    apply wp_on_tick. by eapply wp_load_watermark.
  - destruct o; [|by split]. split; [|by split]. f_equal. destruct (Hs eq_refl) as (_ & _ & Hw).
    enough (Hwp : wp inspect_wall (fun r _ => r = high (ac_walls a)) (fun _ => False) d).
    { apply run_wp in Hwp. destruct (run_tx inspect_wall d).2; [by rewrite Hwp|by destruct Hwp]. }
    apply wp_on_wall. by eapply wp_load_wall_watermark.
Qed.

Lemma answers_simulate es s t : simulated s t -> answers clock_step s es = answers abstract_step t es.
Proof.
  revert s t. induction es as [|e es IH]; intros s t Hs; [done|]. cbn.
  destruct (step_simulates s t e Hs) as [Ha Hs']. destruct (clock_step s e), (abstract_step t e). cbn in *. subst.
  f_equal. by apply IH.
Qed.

(** C20. The durable clock is the abstract clock: from a new file, however its processes open
    it, die while migrating it, die between calls and open it again, and whatever the
    system clock shows, every call of both domains is answered as if tick readings were
    the positions of the keys in the order they first came and wall readings the highest
    time shown by then. In particular ticks are dense, replays give the reading of the
    first call, wall readings never fall and the domains do not disturb each other; the
    only failures are an unavailable source, an epoch reading of zero and a full range. *)
Theorem clock_refines es :
  answers clock_step (new_file, false) es = answers abstract_step ({| ac_ticks := []; ac_walls := [] |}, false) es.
Proof. apply answers_simulate. split; [done|]. split; [|done]. right. split; [done|]. by left. Qed.
