(* ===== verification/Identity.v ===== *)
(** * Identity: principals and their signing keys

    Models nlos-identity/src: the tables of principals, control domains, identity
    snapshots, key generations, revocations, rotations, custody bindings and trusted
    local sessions with the constraints of the schema, and every operation of
    [IdentityAuthority], signature verification included. Sixteen-byte identifiers,
    digests, public keys and signatures are the integers of their bytes; the CHECKs on
    the lengths of blobs hold of them by type. *)

From S2P Require Import Prelude Bytes Txn Clock.

(** ** Signatures

    [ed25519_dalek] is third-party code: which bytes are a public key, and which
    signatures are good for a key and a 32-byte message. *)
Class Ed25519 := {
  vk_from_bytes : Z -> bool;
  verify_strict : Z -> Z -> Z -> bool;
}.

(** The first sixteen bytes of the digest of a domain separator and parts. *)
Definition derive_id {H : Sha256} (domain : string) (parts : list bytes) : Z :=
  sha256 (bytes_of_string domain ++ concat parts) / 2 ^ 128.

(** ** Data *)

Inductive KeyPurpose := SemanticSigning | BarrierObservationSigning.
#[export] Instance KeyPurpose_eq_dec : EqDecision KeyPurpose.
Proof. solve_decision. Defined.

Definition encode_purpose (p : KeyPurpose) : Z :=
  match p with SemanticSigning => 1 | BarrierObservationSigning => 2 end.
Definition decode_purpose (value : Z) : option KeyPurpose :=
  if decide (value = 1) then Some SemanticSigning
  else if decide (value = 2) then Some BarrierObservationSigning
  else None.

Inductive CustodyProfile := TrustedLocalSoftware.
#[export] Instance CustodyProfile_eq_dec : EqDecision CustodyProfile.
Proof. solve_decision. Defined.

Definition encode_profile (p : CustodyProfile) : Z := match p with TrustedLocalSoftware => 1 end.
Definition decode_profile (value : Z) : option CustodyProfile :=
  if decide (value = 1) then Some TrustedLocalSoftware else None.

Record BootstrapPrincipalRequest := {
  br_profile_digest : Z;
  br_policy_digest : Z;
  br_public_key : Z;
  br_key_purpose : KeyPurpose;
  br_key_valid_from_ms : Z;
  br_key_valid_until_ms : Z;
  br_idempotency_key : Z;
  br_created_at_ms : Z;
}.

Record IdentityBinding := {
  ib_principal_id : Z;
  ib_control_domain_id : Z;
  ib_identity_snapshot_id : Z;
  ib_snapshot_generation : Z;
  ib_key_id : Z;
  ib_key_generation : Z;
  ib_key_purpose : KeyPurpose;
  ib_public_key : Z;
  ib_key_valid_from_ms : Z;
  ib_key_valid_until_ms : Z;
  ib_key_revoked_at_ms : option Z;
}.
#[export] Instance IdentityBinding_eq_dec : EqDecision IdentityBinding.
Proof. solve_decision. Defined.

Inductive BootstrapDecision := BootstrapCreated (b : IdentityBinding) | BootstrapReplayed (b : IdentityBinding).

Record RevokeKeyRequest := {
  rk_key_id : Z;
  rk_expected_key_generation : Z;
  rk_expected_identity_snapshot_id : Z;
  rk_idempotency_key : Z;
  rk_revoked_at_ms : Z;
}.

Record KeyRevocationReceipt := {
  kr_receipt_id : Z;
  kr_key_id : Z;
  kr_resulting_key_generation : Z;
  kr_identity_snapshot_id : Z;
  kr_snapshot_generation : Z;
  kr_revoked_at_ms : Z;
}.

Inductive KeyRevocationDecision := KeyRevokedNow (r : KeyRevocationReceipt) | KeyRevocationReplayed (r : KeyRevocationReceipt).

Record RotateKeyRequest := {
  ro_key_id : Z;
  ro_expected_key_generation : Z;
  ro_expected_identity_snapshot_id : Z;
  ro_new_public_key : Z;
  ro_new_valid_from_ms : Z;
  ro_new_valid_until_ms : Z;
  ro_idempotency_key : Z;
  ro_rotated_at_ms : Z;
}.

Record KeyRotationReceipt := {
  kt_receipt_id : Z;
  kt_key_id : Z;
  kt_resulting_key_generation : Z;
  kt_identity_snapshot_id : Z;
  kt_snapshot_generation : Z;
  kt_new_public_key : Z;
  kt_new_valid_from_ms : Z;
  kt_new_valid_until_ms : Z;
  kt_rotated_at_ms : Z;
}.

Inductive KeyRotationDecision := KeyRotated (r : KeyRotationReceipt) | KeyRotationReplayed (r : KeyRotationReceipt).

Record VerifySemanticSignatureRequest := {
  vs_event_id : Z;
  vs_issuer : Z;
  vs_control_domain_id : Z;
  vs_key_id : Z;
  vs_signature : Z;
  vs_admitted_at_ms : Z;
}.

Record VerifySemanticAuthoritySignatureRequest := {
  va_message_digest : Z;
  va_issuer : Z;
  va_control_domain_id : Z;
  va_key_id : Z;
  va_signature : Z;
  va_verified_at_ms : Z;
}.

Record VerifyBarrierObservationSignatureRequest := {
  vb_message_digest : Z;
  vb_issuer : Z;
  vb_control_domain_id : Z;
  vb_key_id : Z;
  vb_signature : Z;
  vb_verified_at_ms : Z;
}.

Record VerifiedSemanticSigner := {
  vg_principal_id : Z;
  vg_control_domain_id : Z;
  vg_identity_snapshot_id : Z;
  vg_snapshot_generation : Z;
  vg_key_id : Z;
  vg_key_generation : Z;
}.

Record VerifiedSemanticAuthoritySigner := {
  ag_principal_id : Z;
  ag_control_domain_id : Z;
  ag_key_id : Z;
  ag_key_generation : Z;
}.

Record VerifiedBarrierObservationSigner := {
  bg_principal_id : Z;
  bg_control_domain_id : Z;
  bg_key_id : Z;
  bg_key_generation : Z;
}.

Record VerifiedCapabilityCommandSigner := {
  cg_principal_id : Z;
  cg_control_domain_id : Z;
  cg_key_id : Z;
  cg_key_generation : Z;
}.

Record VerifyCapabilityCommandSignatureRequest := {
  vc_message_digest : Z;
  vc_principal : Z;
  vc_signature : Z;
  vc_verified_at_ms : Z;
}.

Record VerifyCapabilityCommandSignatureAtClockRequest := {
  vk_message_digest : Z;
  vk_principal : Z;
  vk_signature : Z;
  vk_idempotency_key : Z;
}.

Record KeyCustodyRecord := {
  cu_key_id : Z;
  cu_key_generation : Z;
  cu_principal_id : Z;
  cu_control_domain_id : Z;
  cu_custody_profile : CustodyProfile;
  cu_registered_at_ms : Z;
}.

Record RegisterCustodyBindingRequest := {
  rc_key_id : Z;
  rc_expected_key_generation : Z;
  rc_custody_profile : CustodyProfile;
  rc_idempotency_key : Z;
  rc_registered_at_ms : Z;
}.

Inductive CustodyBindingDecision := CustodyRegistered (r : KeyCustodyRecord) | CustodyReplayed (r : KeyCustodyRecord).

Record TrustedLocalSessionRecord := {
  ts_receipt_id : Z;
  ts_session_id : Z;
  ts_session_token_digest : Z;
  ts_key_id : Z;
  ts_key_generation : Z;
  ts_principal_id : Z;
  ts_control_domain_id : Z;
  ts_registered_at_ms : Z;
  ts_expires_at_ms : Z;
}.

Record RegisterSessionRequest := {
  rs_session_id : Z;
  rs_session_token_digest : Z;
  rs_key_id : Z;
  rs_expected_key_generation : Z;
  rs_idempotency_key : Z;
  rs_registered_at_ms : Z;
  rs_expires_at_ms : Z;
}.

Inductive SessionRegistrationDecision :=
  | SessionRegistered (r : TrustedLocalSessionRecord)
  | SessionReplayed (r : TrustedLocalSessionRecord).

(** Without the errors of opening the file itself (SQLite is taken to grant WAL and
    FULL), [LockPoisoned], as no operation panics, and [CustodyProfileUnsupported], which
    nothing returns. *)
Inductive IdentityAuthorityError :=
  | IdSqlite (e : SqliteError)
  | IdSchemaVersionUnsupported (version : Z)
  | InvalidKeyValidity
  | InvalidPublicKey
  | PrincipalNotFound (id : Z)
  | ControlDomainNotFound (id : Z)
  | IdentitySnapshotNotFound (id : Z)
  | KeyNotFound (id : Z)
  | CustodyBindingNotFound (id : Z)
  | SessionNotFound (id : Z)
  | IdIdempotencyConflict
  | IdentitySnapshotFenceConflict
  | KeyGenerationFenceConflict
  | KeyRevoked
  | KeyNotYetValid
  | KeyExpired
  | KeyPurposeMismatch
  | SignerBindingMismatch
  | InvalidSignature
  | IdGenerationExhausted
  | IdCorrupt (reason : string)
  | ClockFailed (e : AuthorityClockError).

(** ** Tables *)

Record PrincipalRow := {
  pr_bootstrap_idempotency_key : Z;
  pr_profile_digest : Z;
  pr_created_at_ms : Z;
}.

Record DomainRow := {
  cd_current_snapshot_id : Z;
  cd_current_generation : Z;
  cd_policy_digest : Z;
  cd_created_at_ms : Z;
  cd_updated_at_ms : Z;
}.

Record SnapshotRow := {
  sn_control_domain_id : Z;
  sn_generation : Z;
  sn_prior_snapshot_id : option Z;
  sn_policy_digest : Z;
  sn_effective_at_ms : Z;
  sn_change_kind : Z;
}.

Record KeyHeadRow := {
  kh_principal_id : Z;
  kh_control_domain_id : Z;
  kh_current_generation : Z;
  kh_created_at_ms : Z;
}.

Record KeyVersionRow := {
  kv_purpose : Z;
  kv_public_key : Z;
  kv_valid_from_ms : Z;
  kv_valid_until_ms : Z;
  kv_revoked_at_ms : option Z;
}.

Record RevocationRow := {
  rv_receipt_id : Z;
  rv_key_id : Z;
  rv_expected_key_generation : Z;
  rv_expected_snapshot_id : Z;
  rv_resulting_key_generation : Z;
  rv_resulting_snapshot_id : Z;
  rv_resulting_snapshot_generation : Z;
  rv_revoked_at_ms : Z;
}.

Record RotationRow := {
  rt_receipt_id : Z;
  rt_key_id : Z;
  rt_expected_key_generation : Z;
  rt_expected_snapshot_id : Z;
  rt_new_public_key : Z;
  rt_new_valid_from_ms : Z;
  rt_new_valid_until_ms : Z;
  rt_resulting_key_generation : Z;
  rt_resulting_snapshot_id : Z;
  rt_resulting_snapshot_generation : Z;
  rt_rotated_at_ms : Z;
}.

Record CustodyRow := {
  cr_key_id : Z;
  cr_key_generation : Z;
  cr_principal_id : Z;
  cr_control_domain_id : Z;
  cr_custody_profile : Z;
  cr_registered_at_ms : Z;
}.

(** A row of [trusted_local_sessions] has the columns of the record it decodes to. *)
Abbreviation SessionRow := TrustedLocalSessionRecord.

(** The tables by primary key: snapshot members by snapshot and principal, key versions
    by key and generation, snapshot key bindings by snapshot and key, receipts by
    idempotency key. The objects of the schema beyond version 1 are counted as the
    migrations count them, tables and triggers. *)
Record IdDb := {
  id_principals : gmap Z PrincipalRow;
  id_domains : gmap Z DomainRow;
  id_snapshots : gmap Z SnapshotRow;
  id_members : gmap (Z * Z) ();
  id_heads : gmap Z KeyHeadRow;
  id_versions : gmap (Z * Z) KeyVersionRow;
  id_bindings : gmap (Z * Z) Z;
  id_revocations : gmap Z RevocationRow;
  id_rotations : gmap Z RotationRow;
  id_custody : gmap Z CustodyRow;
  id_sessions : gmap Z SessionRow;
  id_user_version : Z;
  id_v1_tables : bool;
  id_rotation_objects : Z * Z;
  id_custody_objects : Z * Z;
  id_session_objects : Z * Z;
}.

#[export] Instance eta_iddb : Eta IdDb := fun x =>
  Build_IdDb (id_principals x) (id_domains x) (id_snapshots x) (id_members x) (id_heads x) (id_versions x)
    (id_bindings x) (id_revocations x) (id_rotations x) (id_custody x) (id_sessions x) (id_user_version x)
    (id_v1_tables x) (id_rotation_objects x) (id_custody_objects x) (id_session_objects x).
#[export] Instance set_id_principals : Setter id_principals. Proof. build_setter. Defined.
#[export] Instance set_id_domains : Setter id_domains. Proof. build_setter. Defined.
#[export] Instance set_id_snapshots : Setter id_snapshots. Proof. build_setter. Defined.
#[export] Instance set_id_members : Setter id_members. Proof. build_setter. Defined.
#[export] Instance set_id_heads : Setter id_heads. Proof. build_setter. Defined.
#[export] Instance set_id_versions : Setter id_versions. Proof. build_setter. Defined.
#[export] Instance set_id_bindings : Setter id_bindings. Proof. build_setter. Defined.
#[export] Instance set_id_revocations : Setter id_revocations. Proof. build_setter. Defined.
#[export] Instance set_id_rotations : Setter id_rotations. Proof. build_setter. Defined.
#[export] Instance set_id_custody : Setter id_custody. Proof. build_setter. Defined.
#[export] Instance set_id_sessions : Setter id_sessions. Proof. build_setter. Defined.
#[export] Instance set_id_user_version : Setter id_user_version. Proof. build_setter. Defined.
#[export] Instance set_id_v1_tables : Setter id_v1_tables. Proof. build_setter. Defined.
#[export] Instance set_id_rotation_objects : Setter id_rotation_objects. Proof. build_setter. Defined.
#[export] Instance set_id_custody_objects : Setter id_custody_objects. Proof. build_setter. Defined.
#[export] Instance set_id_session_objects : Setter id_session_objects. Proof. build_setter. Defined.

#[export] Instance eta_domain_row : Eta DomainRow := fun x =>
  Build_DomainRow (cd_current_snapshot_id x) (cd_current_generation x) (cd_policy_digest x) (cd_created_at_ms x)
    (cd_updated_at_ms x).
#[export] Instance set_cd_current_snapshot_id : Setter cd_current_snapshot_id. Proof. build_setter. Defined.
#[export] Instance set_cd_current_generation : Setter cd_current_generation. Proof. build_setter. Defined.
#[export] Instance set_cd_updated_at_ms : Setter cd_updated_at_ms. Proof. build_setter. Defined.

#[export] Instance eta_head_row : Eta KeyHeadRow := fun x =>
  Build_KeyHeadRow (kh_principal_id x) (kh_control_domain_id x) (kh_current_generation x) (kh_created_at_ms x).
#[export] Instance set_kh_current_generation : Setter kh_current_generation. Proof. build_setter. Defined.

Abbreviation id_tx := (txn IdDb IdentityAuthorityError).

(** ** Schema *)

Definition IDENTITY_SCHEMA_VERSION : Z := 4.

Definition no_identity_file : IdDb :=
  {| id_principals := ∅; id_domains := ∅; id_snapshots := ∅; id_members := ∅; id_heads := ∅; id_versions := ∅;
     id_bindings := ∅; id_revocations := ∅; id_rotations := ∅; id_custody := ∅; id_sessions := ∅;
     id_user_version := 0; id_v1_tables := false; id_rotation_objects := (0, 0); id_custody_objects := (0, 0);
     id_session_objects := (0, 0) |}.

(** [CREATE TABLE] fails when the tables exist. *)
Definition id_migrate_v1 : id_tx () :=
  exists_ ← reading id_v1_tables;
  if (exists_ : bool) then throw (IdSqlite ObjectExists)
  else writing (fun d => d <| id_v1_tables := true |> <| id_user_version := 1 |>).

(** [PRAGMA foreign_key_check] over the tables of version 1: whether some row refers to
    a row that is not there. *)
Definition foreign_key_failure (d : IdDb) : bool :=
  any_row (fun _ s => negb (present (id_domains d) (sn_control_domain_id s)) ||
                      match sn_prior_snapshot_id s with Some p => negb (present (id_snapshots d) p) | None => false end)
    (id_snapshots d)
  || any_row (fun k _ => negb (present (id_snapshots d) k.1 && present (id_principals d) k.2)) (id_members d)
  || any_row (fun _ h => negb (present (id_principals d) (kh_principal_id h) && present (id_domains d) (kh_control_domain_id h)))
       (id_heads d)
  || any_row (fun k _ => negb (present (id_heads d) k.1)) (id_versions d)
  || any_row (fun k g => negb (present (id_snapshots d) k.1 && present (id_versions d) (k.2, g))) (id_bindings d)
  || any_row (fun _ r => negb (present (id_versions d) (rv_key_id r, rv_resulting_key_generation r)
                               && present (id_snapshots d) (rv_resulting_snapshot_id r))) (id_revocations d).

(** A migration that adds one table and two triggers: complete objects only need the
    version stamped, some but not all are corruption, none are created. *)
Definition add_objects (get : IdDb -> Z * Z) (partial : string) (stamp : Z) (create : id_tx ()) : id_tx () :=
  counts ← reading get;
  if decide (counts.1 = 1 /\ counts.2 = 2) then writing (fun d => d <| id_user_version := stamp |>)
  else if decide (counts.1 <> 0 \/ counts.2 <> 0) then throw (IdCorrupt partial)
  else create.

(** The rebuild copies the snapshots as they are and is accepted only when the foreign
    keys hold afterwards. *)
Definition id_migrate_v2 : id_tx () :=
  add_objects id_rotation_objects "partial identity authority rotation schema" 2 (
    failure ← reading foreign_key_failure;
    if (failure : bool) then throw (IdCorrupt "foreign key violation after identity authority v2 rebuild")
    else writing (fun d => d <| id_rotation_objects := (1, 2) |> <| id_user_version := 2 |>)).

Definition id_migrate_v3 : id_tx () :=
  add_objects id_custody_objects "partial identity authority custody schema" 3 (
    writing (fun d => d <| id_custody_objects := (1, 2) |> <| id_user_version := 3 |>)).

Definition id_migrate_v4 : id_tx () :=
  add_objects id_session_objects "partial identity authority session ingress schema" 4 (
    writing (fun d => d <| id_session_objects := (1, 2) |> <| id_user_version := 4 |>)).

(** The migrations an open still runs, each a transaction of its own; a process may die
    after any number [n] of them. *)
Fixpoint migrate (n : nat) (steps : list (id_tx ())) (d : IdDb) {struct steps} : IdDb * result IdentityAuthorityError () :=
  match steps, n with
  | m :: steps, S n => match run_tx m d with (d, Ok _) => migrate n steps d | (d, Err e) => (d, Err e) end
  | _, _ => (d, Ok ())
  end.

Definition id_open (n : nat) (d : IdDb) : IdDb * result IdentityAuthorityError () :=
  let version := id_user_version d in
  if decide (version = 0) then migrate n [id_migrate_v1; id_migrate_v2; id_migrate_v3; id_migrate_v4] d
  else if decide (version = 1) then migrate n [id_migrate_v2; id_migrate_v3; id_migrate_v4] d
  else if decide (version = 2) then migrate n [id_migrate_v3; id_migrate_v4] d
  else if decide (version = 3) then migrate n [id_migrate_v4] d
  else if decide (version = IDENTITY_SCHEMA_VERSION) then (d, Ok ())
  else (d, Err (IdSchemaVersionUnsupported version)).

(** ** Encoding *)

Definition id_encode_u64 (value : Z) : result IdentityAuthorityError Z :=
  if decide (value <= i64_max) then Ok value else Err (IdCorrupt "u64 exceeds SQLite").
Definition id_decode_u64 (value : Z) : result IdentityAuthorityError Z :=
  if decide (0 <= value) then Ok value else Err (IdCorrupt "negative integer").
Definition id_decode_generation (value : Z) : result IdentityAuthorityError Z :=
  match id_decode_u64 value with
  | Err e => Err e
  | Ok v => if decide (v = 0) then Err (IdCorrupt "zero generation") else Ok v
  end.

(** A generation is a non-zero u64. *)
Definition checked_next (generation : Z) : option Z := checked_add64 generation 1.

Definition id_encode_optional (value : option Z) : result IdentityAuthorityError (option Z) :=
  match value with
  | None => Ok None
  | Some v => match id_encode_u64 v with Ok v => Ok (Some v) | Err e => Err e end
  end.
Definition id_decode_optional (value : option Z) : result IdentityAuthorityError (option Z) :=
  match value with
  | None => Ok None
  | Some v => match id_decode_u64 v with Ok v => Ok (Some v) | Err e => Err e end
  end.

Definition refused : IdentityAuthorityError := IdSqlite ConstraintViolation.

(** ** Statements *)

Definition insert_principal (principal_id : Z) (row : PrincipalRow) : id_tx () :=
  insert_row id_principals (fun t d => d <| id_principals := t |>) refused
    (fun d => negb (any_row (fun _ r => bool_decide (pr_bootstrap_idempotency_key r = pr_bootstrap_idempotency_key row))
                (id_principals d)))
    principal_id row.

Definition insert_domain (domain_id : Z) (row : DomainRow) : id_tx () :=
  insert_row id_domains (fun t d => d <| id_domains := t |>) refused
    (fun d => negb (any_row (fun _ r => bool_decide (cd_current_snapshot_id r = cd_current_snapshot_id row)) (id_domains d))
              && bool_decide (cd_created_at_ms row <= cd_updated_at_ms row))
    domain_id row.

Definition insert_snapshot (snapshot_id domain_id generation : Z) (prior_snapshot_id : option Z)
    (policy_digest effective_at_ms change_kind : Z) : id_tx () :=
  raw_generation ← lift (id_encode_u64 generation);
  raw_effective ← lift (id_encode_u64 effective_at_ms);
  insert_row id_snapshots (fun t d => d <| id_snapshots := t |>) refused
    (fun d => present (id_domains d) domain_id
              && match prior_snapshot_id with Some p => present (id_snapshots d) p | None => true end
              && negb (any_row (fun _ s => bool_decide (sn_control_domain_id s = domain_id /\ sn_generation s = raw_generation))
                         (id_snapshots d))
              && bool_decide (1 <= raw_generation /\ (raw_generation = 1 <-> prior_snapshot_id = None))
              && bool_decide (1 <= change_kind <= 3))
    snapshot_id
    {| sn_control_domain_id := domain_id; sn_generation := raw_generation; sn_prior_snapshot_id := prior_snapshot_id;
       sn_policy_digest := policy_digest; sn_effective_at_ms := raw_effective; sn_change_kind := change_kind |}.

Definition insert_member (snapshot_id principal_id : Z) : id_tx () :=
  insert_row id_members (fun t d => d <| id_members := t |>) refused
    (fun d => present (id_snapshots d) snapshot_id && present (id_principals d) principal_id)
    (snapshot_id, principal_id) ().

Definition insert_head (key_id : Z) (row : KeyHeadRow) : id_tx () :=
  insert_row id_heads (fun t d => d <| id_heads := t |>) refused
    (fun d => present (id_principals d) (kh_principal_id row) && present (id_domains d) (kh_control_domain_id row))
    key_id row.

Definition insert_key_version (binding : IdentityBinding) : id_tx () :=
  generation ← lift (id_encode_u64 (ib_key_generation binding));
  valid_from ← lift (id_encode_u64 (ib_key_valid_from_ms binding));
  valid_until ← lift (id_encode_u64 (ib_key_valid_until_ms binding));
  revoked_at ← lift (id_encode_optional (ib_key_revoked_at_ms binding));
  insert_row id_versions (fun t d => d <| id_versions := t |>) refused
    (fun d => present (id_heads d) (ib_key_id binding)
              && bool_decide (1 <= generation) && bool_decide (valid_from <= valid_until)
              && match revoked_at with Some r => bool_decide (valid_from <= r) | None => true end)
    (ib_key_id binding, generation)
    {| kv_purpose := encode_purpose (ib_key_purpose binding); kv_public_key := ib_public_key binding;
       kv_valid_from_ms := valid_from; kv_valid_until_ms := valid_until; kv_revoked_at_ms := revoked_at |}.

Definition insert_binding (snapshot_id key_id generation : Z) : id_tx () :=
  insert_row id_bindings (fun t d => d <| id_bindings := t |>) refused
    (fun d => present (id_snapshots d) snapshot_id && present (id_versions d) (key_id, generation))
    (snapshot_id, key_id) generation.

(** The two compare-and-sets of a key change: each returns how many rows changed. *)
Definition update_head (next key_id expected : Z) : id_tx Z :=
  row ← reading (fun d => id_heads d !! key_id);
  match row with
  | None => mret 0
  | Some h =>
      if decide (kh_current_generation h <> expected) then mret 0
      else _ ← writing (fun d => d <| id_heads := <[key_id := h <| kh_current_generation := next |>]> (id_heads d) |>); mret 1
  end.

Definition update_domain (next_snapshot next_generation updated_at domain_id snapshot generation : Z) : id_tx Z :=
  row ← reading (fun d => id_domains d !! domain_id);
  match row with
  | None => mret 0
  | Some c =>
      if decide (cd_current_snapshot_id c <> snapshot \/ cd_current_generation c <> generation) then mret 0
      else
        taken ← reading (fun d => any_row (fun k r => bool_decide (k <> domain_id /\ cd_current_snapshot_id r = next_snapshot))
                                    (id_domains d));
        if (taken : bool) then throw refused
        else if decide (updated_at < cd_created_at_ms c) then throw refused
        else
          _ ← writing (fun d => d <| id_domains := <[domain_id := c <| cd_current_snapshot_id := next_snapshot |>
                 <| cd_current_generation := next_generation |> <| cd_updated_at_ms := updated_at |>]> (id_domains d) |>);
          mret 1
  end.

Definition insert_revocation (idempotency_key : Z) (row : RevocationRow) : id_tx () :=
  insert_row id_revocations (fun t d => d <| id_revocations := t |>) refused
    (fun d => negb (any_row (fun _ r => bool_decide (rv_receipt_id r = rv_receipt_id row)) (id_revocations d))
              && bool_decide (rv_resulting_key_generation row = rv_expected_key_generation row + 1)
              && bool_decide (2 <= rv_resulting_snapshot_generation row)
              && present (id_versions d) (rv_key_id row, rv_resulting_key_generation row)
              && present (id_snapshots d) (rv_resulting_snapshot_id row))
    idempotency_key row.

Definition insert_rotation (idempotency_key : Z) (row : RotationRow) : id_tx () :=
  insert_row id_rotations (fun t d => d <| id_rotations := t |>) refused
    (fun d => negb (any_row (fun _ r => bool_decide (rt_receipt_id r = rt_receipt_id row)) (id_rotations d))
              && bool_decide (rt_resulting_key_generation row = rt_expected_key_generation row + 1)
              && bool_decide (rt_new_valid_from_ms row <= rt_new_valid_until_ms row)
              && bool_decide (2 <= rt_resulting_snapshot_generation row)
              && present (id_versions d) (rt_key_id row, rt_resulting_key_generation row)
              && present (id_snapshots d) (rt_resulting_snapshot_id row))
    idempotency_key row.

Definition insert_custody (idempotency_key : Z) (row : CustodyRow) : id_tx () :=
  insert_row id_custody (fun t d => d <| id_custody := t |>) refused
    (fun d => negb (any_row (fun _ r => bool_decide (cr_key_id r = cr_key_id row /\ cr_key_generation r = cr_key_generation row))
                      (id_custody d))
              && present (id_versions d) (cr_key_id row, cr_key_generation row)
              && present (id_principals d) (cr_principal_id row)
              && present (id_domains d) (cr_control_domain_id row))
    idempotency_key row.

Definition insert_session (idempotency_key : Z) (row : SessionRow) : id_tx () :=
  insert_row id_sessions (fun t d => d <| id_sessions := t |>) refused
    (fun d => negb (any_row (fun _ r => bool_decide (ts_receipt_id r = ts_receipt_id row \/ ts_session_id r = ts_session_id row))
                      (id_sessions d))
              && bool_decide (ts_registered_at_ms row <= ts_expires_at_ms row)
              && present (id_versions d) (ts_key_id row, ts_key_generation row)
              && present (id_principals d) (ts_principal_id row)
              && present (id_domains d) (ts_control_domain_id row))
    idempotency_key row.

(** ** Queries *)

(** [decode_binding]: the checks of one joined row. *)
Definition decode_binding (principal domain snapshot snapshot_generation key key_generation : Z) (kv : KeyVersionRow) :
    result IdentityAuthorityError IdentityBinding :=
  match id_decode_generation snapshot_generation, id_decode_generation key_generation,
        ok_or (decode_purpose (kv_purpose kv)) (IdCorrupt "key purpose"), id_decode_u64 (kv_valid_from_ms kv),
        id_decode_u64 (kv_valid_until_ms kv), id_decode_optional (kv_revoked_at_ms kv) with
  | Err e, _, _, _, _, _ | _, Err e, _, _, _, _ | _, _, Err e, _, _, _
  | _, _, _, Err e, _, _ | _, _, _, _, Err e, _ | _, _, _, _, _, Err e => Err e
  | Ok sg, Ok kg, Ok purpose, Ok valid_from, Ok valid_until, Ok revoked_at =>
      Ok {| ib_principal_id := principal; ib_control_domain_id := domain; ib_identity_snapshot_id := snapshot;
            ib_snapshot_generation := sg; ib_key_id := key; ib_key_generation := kg; ib_key_purpose := purpose;
            ib_public_key := kv_public_key kv; ib_key_valid_from_ms := valid_from; ib_key_valid_until_ms := valid_until;
            ib_key_revoked_at_ms := revoked_at |}
  end.

(** The row of the join for a key, if every table of the join has its part. *)
Definition current_row (d : IdDb) (key_id : Z) : option (KeyHeadRow * DomainRow * KeyVersionRow) :=
  h ← id_heads d !! key_id;
  kv ← id_versions d !! (key_id, kh_current_generation h);
  c ← id_domains d !! kh_control_domain_id h;
  _ ← id_members d !! (cd_current_snapshot_id c, kh_principal_id h);
  g ← id_bindings d !! (cd_current_snapshot_id c, key_id);
  if decide (g = kh_current_generation h) then Some (h, c, kv) else None.

Definition load_current_binding (key_id : Z) : id_tx (option IdentityBinding) :=
  row ← reading (fun d => current_row d key_id);
  match row with
  | None => mret None
  | Some (h, c, kv) =>
      b ← lift (decode_binding (kh_principal_id h) (kh_control_domain_id h) (cd_current_snapshot_id c)
                  (cd_current_generation c) key_id (kh_current_generation h) kv);
      mret (Some b)
  end.

Definition load_current_binding_by_principal (principal_id : Z) : id_tx (option IdentityBinding) :=
  row ← reading (fun d => first_row (fun _ h => bool_decide (kh_principal_id h = principal_id)) (id_heads d));
  match row with
  | Some (key_id, _) => load_current_binding key_id
  | None => mret None
  end.

Definition snapshot_row (d : IdDb) (snapshot_id key_id : Z) : option (SnapshotRow * KeyHeadRow * Z * KeyVersionRow) :=
  s ← id_snapshots d !! snapshot_id;
  g ← id_bindings d !! (snapshot_id, key_id);
  h ← id_heads d !! key_id;
  kv ← id_versions d !! (key_id, g);
  _ ← id_members d !! (snapshot_id, kh_principal_id h);
  Some (s, h, g, kv).

Definition load_binding_at_snapshot (snapshot_id key_id : Z) : id_tx (option IdentityBinding) :=
  row ← reading (fun d => snapshot_row d snapshot_id key_id);
  match row with
  | None => mret None
  | Some (s, h, g, kv) =>
      b ← lift (decode_binding (kh_principal_id h) (kh_control_domain_id h) snapshot_id (sn_generation s) key_id g kv);
      mret (Some b)
  end.

(** The first key of the principal bootstrapped under a key. *)
Definition bootstrap_row (d : IdDb) (idempotency_key : Z) : option (Z * KeyHeadRow) :=
  p ← first_row (fun _ r => bool_decide (pr_bootstrap_idempotency_key r = idempotency_key)) (id_principals d);
  first_row (fun _ h => bool_decide (kh_principal_id h = p.1)) (id_heads d).

Definition load_binding_by_bootstrap_key (idempotency_key : Z) : id_tx (option IdentityBinding) :=
  domain_and_key ← reading (fun d => bootstrap_row d idempotency_key);
  match domain_and_key with
  | None => mret None
  | Some (key_id, h) =>
      snapshot ← reading (fun d =>
        first_row (fun _ s => bool_decide (sn_control_domain_id s = kh_control_domain_id h /\ sn_generation s = 1)) (id_snapshots d));
      match snapshot with
      | Some (snapshot_id, _) => load_binding_at_snapshot snapshot_id key_id
      | None => mret None
      end
  end.

Definition load_domain_policy (domain_id : Z) : id_tx Z :=
  row ← reading (fun d => id_domains d !! domain_id);
  c ← lift (ok_or row (ControlDomainNotFound domain_id));
  mret (cd_policy_digest c).

(** A stored revocation: what was expected of the key, and the receipt. *)
Record StoredRevocation := {
  sr_expected_key_generation : Z;
  sr_expected_snapshot_id : Z;
  sr_receipt : KeyRevocationReceipt;
}.

Definition decode_revocation (r : RevocationRow) : result IdentityAuthorityError StoredRevocation :=
  match id_decode_generation (rv_expected_key_generation r), id_decode_generation (rv_resulting_key_generation r),
        id_decode_generation (rv_resulting_snapshot_generation r), id_decode_u64 (rv_revoked_at_ms r) with
  | Err e, _, _, _ | _, Err e, _, _ | _, _, Err e, _ | _, _, _, Err e => Err e
  | Ok expected, Ok resulting, Ok snapshot_generation, Ok revoked_at =>
      Ok {| sr_expected_key_generation := expected; sr_expected_snapshot_id := rv_expected_snapshot_id r;
            sr_receipt := {| kr_receipt_id := rv_receipt_id r; kr_key_id := rv_key_id r;
                             kr_resulting_key_generation := resulting;
                             kr_identity_snapshot_id := rv_resulting_snapshot_id r;
                             kr_snapshot_generation := snapshot_generation; kr_revoked_at_ms := revoked_at |} |}
  end.

Definition load_revocation_by_key (idempotency_key : Z) : id_tx (option StoredRevocation) :=
  row ← reading (fun d => id_revocations d !! idempotency_key);
  match row with None => mret None | Some r => s ← lift (decode_revocation r); mret (Some s) end.

Record StoredRotation := {
  st_expected_key_generation : Z;
  st_expected_snapshot_id : Z;
  st_receipt : KeyRotationReceipt;
}.

Definition decode_rotation (r : RotationRow) : result IdentityAuthorityError StoredRotation :=
  match id_decode_generation (rt_expected_key_generation r), id_decode_u64 (rt_new_valid_from_ms r),
        id_decode_u64 (rt_new_valid_until_ms r), id_decode_generation (rt_resulting_key_generation r),
        id_decode_generation (rt_resulting_snapshot_generation r), id_decode_u64 (rt_rotated_at_ms r) with
  | Err e, _, _, _, _, _ | _, Err e, _, _, _, _ | _, _, Err e, _, _, _
  | _, _, _, Err e, _, _ | _, _, _, _, Err e, _ | _, _, _, _, _, Err e => Err e
  | Ok expected, Ok valid_from, Ok valid_until, Ok resulting, Ok snapshot_generation, Ok rotated_at =>
      Ok {| st_expected_key_generation := expected; st_expected_snapshot_id := rt_expected_snapshot_id r;
            st_receipt := {| kt_receipt_id := rt_receipt_id r; kt_key_id := rt_key_id r;
                             kt_resulting_key_generation := resulting;
                             kt_identity_snapshot_id := rt_resulting_snapshot_id r;
                             kt_snapshot_generation := snapshot_generation; kt_new_public_key := rt_new_public_key r;
                             kt_new_valid_from_ms := valid_from; kt_new_valid_until_ms := valid_until;
                             kt_rotated_at_ms := rotated_at |} |}
  end.

Definition load_rotation_by_key (idempotency_key : Z) : id_tx (option StoredRotation) :=
  row ← reading (fun d => id_rotations d !! idempotency_key);
  match row with None => mret None | Some r => s ← lift (decode_rotation r); mret (Some s) end.

Definition decode_custody_row (key : Z) (r : CustodyRow) : result IdentityAuthorityError (Z * KeyCustodyRecord) :=
  match id_decode_generation (cr_key_generation r), ok_or (decode_profile (cr_custody_profile r)) (IdCorrupt "custody profile"),
        id_decode_u64 (cr_registered_at_ms r) with
  | Err e, _, _ | _, Err e, _ | _, _, Err e => Err e
  | Ok generation, Ok profile, Ok registered_at =>
      Ok (key, {| cu_key_id := cr_key_id r; cu_key_generation := generation; cu_principal_id := cr_principal_id r;
                  cu_control_domain_id := cr_control_domain_id r; cu_custody_profile := profile;
                  cu_registered_at_ms := registered_at |})
  end.

Definition load_custody_by_idempotency (idempotency_key : Z) : id_tx (option KeyCustodyRecord) :=
  row ← reading (fun d => id_custody d !! idempotency_key);
  match row with None => mret None | Some r => s ← lift (decode_custody_row idempotency_key r); mret (Some s.2) end.

Definition load_custody_by_generation (key_id key_generation : Z) : id_tx (option (Z * KeyCustodyRecord)) :=
  raw ← lift (id_encode_u64 key_generation);
  row ← reading (fun d => first_row (fun _ r => bool_decide (cr_key_id r = key_id /\ cr_key_generation r = raw)) (id_custody d));
  match row with None => mret None | Some (key, r) => s ← lift (decode_custody_row key r); mret (Some s) end.

Definition decode_session_row (key : Z) (r : SessionRow) : result IdentityAuthorityError (Z * TrustedLocalSessionRecord) :=
  match id_decode_generation (ts_key_generation r), id_decode_u64 (ts_registered_at_ms r), id_decode_u64 (ts_expires_at_ms r) with
  | Err e, _, _ | _, Err e, _ | _, _, Err e => Err e
  | Ok generation, Ok registered_at, Ok expires_at =>
      Ok (key, {| ts_receipt_id := ts_receipt_id r; ts_session_id := ts_session_id r;
                  ts_session_token_digest := ts_session_token_digest r; ts_key_id := ts_key_id r;
                  ts_key_generation := generation; ts_principal_id := ts_principal_id r;
                  ts_control_domain_id := ts_control_domain_id r; ts_registered_at_ms := registered_at;
                  ts_expires_at_ms := expires_at |})
  end.

Definition load_session_by_idempotency (idempotency_key : Z) : id_tx (option TrustedLocalSessionRecord) :=
  row ← reading (fun d => id_sessions d !! idempotency_key);
  match row with None => mret None | Some r => s ← lift (decode_session_row idempotency_key r); mret (Some s.2) end.

Definition load_session_by_id (session_id : Z) : id_tx (option (Z * TrustedLocalSessionRecord)) :=
  row ← reading (fun d => first_row (fun _ r => bool_decide (ts_session_id r = session_id)) (id_sessions d));
  match row with None => mret None | Some (key, r) => s ← lift (decode_session_row key r); mret (Some s) end.

(** The version row has to be there; [revocation_count] counts rows of the receipts. *)
Definition ensure_key_generation_not_revoked (key_id key_generation : Z) : id_tx () :=
  raw ← lift (id_encode_u64 key_generation);
  row ← reading (fun d => id_versions d !! (key_id, raw));
  kv ← lift (ok_or row (IdSqlite QueryReturnedNoRows));
  match kv_revoked_at_ms kv with
  | Some _ => throw KeyRevoked
  | None =>
      revocation_count ← reading (fun d =>
        count_rows (fun _ r => bool_decide (rv_key_id r = key_id /\ rv_expected_key_generation r = raw)) (id_revocations d));
      if decide (0 < revocation_count) then throw KeyRevoked else mret ()
  end.

(** ** Changing identities *)

Section operations.
Context {H : Sha256} {E : Ed25519}.

Definition validate_bootstrap_request (r : BootstrapPrincipalRequest) : result IdentityAuthorityError () :=
  if decide (br_key_valid_until_ms r < br_key_valid_from_ms r) then Err InvalidKeyValidity
  else if vk_from_bytes (br_public_key r) then Ok () else Err InvalidPublicKey.

Definition validate_rotate_request (r : RotateKeyRequest) : result IdentityAuthorityError () :=
  if decide (ro_new_valid_until_ms r < ro_new_valid_from_ms r) then Err InvalidKeyValidity
  else if vk_from_bytes (ro_new_public_key r) then Ok () else Err InvalidPublicKey.

(** The join finds no row when the domain or the principal is missing, which
    [query_row] reports as an error. *)
Definition bootstrap_matches (binding : IdentityBinding) (r : BootstrapPrincipalRequest) : id_tx bool :=
  row ← reading (fun d =>
    p ← id_principals d !! ib_principal_id binding;
    c ← id_domains d !! ib_control_domain_id binding;
    Some (p, c));
  pc ← lift (ok_or row (IdSqlite QueryReturnedNoRows));
  if decide (pr_profile_digest pc.1 = br_profile_digest r /\ cd_policy_digest pc.2 = br_policy_digest r) then
    created ← lift (id_decode_u64 (pr_created_at_ms pc.1));
    mret (bool_decide (created = br_created_at_ms r /\ ib_public_key binding = br_public_key r
      /\ ib_key_purpose binding = br_key_purpose r /\ ib_key_valid_from_ms binding = br_key_valid_from_ms r
      /\ ib_key_valid_until_ms binding = br_key_valid_until_ms r))
  else mret false.

(** The identifiers a bootstrap derives, and the binding they make. *)
Definition bootstrap_binding (r : BootstrapPrincipalRequest) : IdentityBinding :=
  let principal_id := derive_id "nlos/principal/id/v1"
    [be_bytes 16 (br_idempotency_key r); be_bytes 32 (br_profile_digest r); be_bytes 32 (br_public_key r)] in
  let control_domain_id := derive_id "nlos/control-domain/id/v1"
    [be_bytes 16 principal_id; be_bytes 32 (br_policy_digest r)] in
  let key_id := derive_id "nlos/key/id/v1"
    [be_bytes 16 principal_id; [encode_purpose (br_key_purpose r)]; be_bytes 32 (br_public_key r)] in
  let identity_snapshot_id := derive_id "nlos/identity-snapshot/id/v1"
    [be_bytes 16 control_domain_id; be_bytes 8 1; be_bytes 16 principal_id; be_bytes 16 key_id] in
  {| ib_principal_id := principal_id; ib_control_domain_id := control_domain_id;
     ib_identity_snapshot_id := identity_snapshot_id; ib_snapshot_generation := 1; ib_key_id := key_id;
     ib_key_generation := 1; ib_key_purpose := br_key_purpose r; ib_public_key := br_public_key r;
     ib_key_valid_from_ms := br_key_valid_from_ms r; ib_key_valid_until_ms := br_key_valid_until_ms r;
     ib_key_revoked_at_ms := None |}.

Definition CHANGE_BOOTSTRAP : Z := 1.
Definition CHANGE_KEY_REVOCATION : Z := 2.
Definition CHANGE_KEY_ROTATION : Z := 3.

(** The write set of a bootstrap. *)
Definition insert_bootstrap (r : BootstrapPrincipalRequest) : id_tx BootstrapDecision :=
  let b := bootstrap_binding r in
  created ← lift (id_encode_u64 (br_created_at_ms r));
  _ ← insert_principal (ib_principal_id b)
        {| pr_bootstrap_idempotency_key := br_idempotency_key r; pr_profile_digest := br_profile_digest r;
           pr_created_at_ms := created |};
  _ ← insert_domain (ib_control_domain_id b)
        {| cd_current_snapshot_id := ib_identity_snapshot_id b; cd_current_generation := 1;
           cd_policy_digest := br_policy_digest r; cd_created_at_ms := created; cd_updated_at_ms := created |};
  _ ← insert_snapshot (ib_identity_snapshot_id b) (ib_control_domain_id b) (ib_snapshot_generation b) None
        (br_policy_digest r) (br_created_at_ms r) CHANGE_BOOTSTRAP;
  _ ← insert_member (ib_identity_snapshot_id b) (ib_principal_id b);
  _ ← insert_head (ib_key_id b)
        {| kh_principal_id := ib_principal_id b; kh_control_domain_id := ib_control_domain_id b;
           kh_current_generation := 1; kh_created_at_ms := created |};
  _ ← insert_key_version b;
  _ ← insert_binding (ib_identity_snapshot_id b) (ib_key_id b) 1;
  mret (BootstrapCreated b).

Definition bootstrap_principal (r : BootstrapPrincipalRequest) : id_tx BootstrapDecision :=
  _ ← lift (validate_bootstrap_request r);
  existing ← load_binding_by_bootstrap_key (br_idempotency_key r);
  match existing with
  | Some existing =>
      same ← bootstrap_matches existing r;
      if (same : bool) then mret (BootstrapReplayed existing) else throw IdIdempotencyConflict
  | None => insert_bootstrap r
  end.

(** The fences and the state a key must have before it is revoked or rotated. *)
Definition fenced_binding (key_id expected_generation expected_snapshot at_ms : Z) : id_tx IdentityBinding :=
  found ← load_current_binding key_id;
  binding ← lift (ok_or found (KeyNotFound key_id));
  if decide (ib_key_generation binding <> expected_generation) then throw KeyGenerationFenceConflict
  else if decide (ib_identity_snapshot_id binding <> expected_snapshot) then throw IdentitySnapshotFenceConflict
  else if decide (ib_key_revoked_at_ms binding <> None) then throw KeyRevoked
  else if decide (at_ms < ib_key_valid_from_ms binding) then throw InvalidKeyValidity
  else mret binding.

(** The next generations of the key and of the snapshot, and the next snapshot's id. *)
Definition next_generations (binding : IdentityBinding) (idempotency_key : Z) : id_tx (Z * Z * Z) :=
  next_key_generation ← lift (ok_or (checked_next (ib_key_generation binding)) IdGenerationExhausted);
  next_snapshot_generation ← lift (ok_or (checked_next (ib_snapshot_generation binding)) IdGenerationExhausted);
  mret (next_key_generation, next_snapshot_generation,
    derive_id "nlos/identity-snapshot/id/v1"
      [be_bytes 16 (ib_control_domain_id binding); be_bytes 8 next_snapshot_generation;
       be_bytes 16 (ib_identity_snapshot_id binding); be_bytes 16 idempotency_key]).

(** The write set that revocation and rotation share: the new key version in a new
    snapshot, and both heads moved to it. *)
Definition advance_key (binding next : IdentityBinding) (at_ms change_kind : Z) : id_tx () :=
  policy_digest ← load_domain_policy (ib_control_domain_id binding);
  _ ← insert_key_version next;
  _ ← insert_snapshot (ib_identity_snapshot_id next) (ib_control_domain_id binding) (ib_snapshot_generation next)
        (Some (ib_identity_snapshot_id binding)) policy_digest at_ms change_kind;
  _ ← insert_member (ib_identity_snapshot_id next) (ib_principal_id binding);
  next_raw ← lift (id_encode_u64 (ib_key_generation next));
  _ ← insert_binding (ib_identity_snapshot_id next) (ib_key_id binding) next_raw;
  next_raw ← lift (id_encode_u64 (ib_key_generation next));
  expected_raw ← lift (id_encode_u64 (ib_key_generation binding));
  key_changed ← update_head next_raw (ib_key_id binding) expected_raw;
  if decide (key_changed <> 1) then throw KeyGenerationFenceConflict else
  next_snapshot_raw ← lift (id_encode_u64 (ib_snapshot_generation next));
  at_raw ← lift (id_encode_u64 at_ms);
  snapshot_raw ← lift (id_encode_u64 (ib_snapshot_generation binding));
  snapshot_changed ← update_domain (ib_identity_snapshot_id next) next_snapshot_raw at_raw (ib_control_domain_id binding)
                       (ib_identity_snapshot_id binding) snapshot_raw;
  if decide (snapshot_changed <> 1) then throw IdentitySnapshotFenceConflict else mret ().

Definition revoke_key (r : RevokeKeyRequest) : id_tx KeyRevocationDecision :=
  existing ← load_revocation_by_key (rk_idempotency_key r);
  match existing with
  | Some s =>
      if decide (kr_key_id (sr_receipt s) <> rk_key_id r
                 \/ sr_expected_key_generation s <> rk_expected_key_generation r
                 \/ sr_expected_snapshot_id s <> rk_expected_identity_snapshot_id r
                 \/ kr_revoked_at_ms (sr_receipt s) <> rk_revoked_at_ms r)
      then throw IdIdempotencyConflict
      else mret (KeyRevocationReplayed (sr_receipt s))
  | None =>
      binding ← fenced_binding (rk_key_id r) (rk_expected_key_generation r) (rk_expected_identity_snapshot_id r) (rk_revoked_at_ms r);
      next ← next_generations binding (rk_idempotency_key r);
      let '(next_key_generation, next_snapshot_generation, next_snapshot_id) := next in
      let receipt_id := derive_id "nlos/key-revocation-receipt/id/v1"
        [be_bytes 16 (rk_key_id r); be_bytes 8 next_key_generation; be_bytes 16 next_snapshot_id;
         be_bytes 16 (rk_idempotency_key r)] in
      let revoked_binding :=
        {| ib_principal_id := ib_principal_id binding; ib_control_domain_id := ib_control_domain_id binding;
           ib_identity_snapshot_id := next_snapshot_id; ib_snapshot_generation := next_snapshot_generation;
           ib_key_id := ib_key_id binding; ib_key_generation := next_key_generation;
           ib_key_purpose := ib_key_purpose binding; ib_public_key := ib_public_key binding;
           ib_key_valid_from_ms := ib_key_valid_from_ms binding; ib_key_valid_until_ms := ib_key_valid_until_ms binding;
           ib_key_revoked_at_ms := Some (rk_revoked_at_ms r) |} in
      _ ← advance_key binding revoked_binding (rk_revoked_at_ms r) CHANGE_KEY_REVOCATION;
      expected_raw ← lift (id_encode_u64 (rk_expected_key_generation r));
      next_raw ← lift (id_encode_u64 next_key_generation);
      snapshot_raw ← lift (id_encode_u64 next_snapshot_generation);
      at_raw ← lift (id_encode_u64 (rk_revoked_at_ms r));
      _ ← insert_revocation (rk_idempotency_key r)
            {| rv_receipt_id := receipt_id; rv_key_id := rk_key_id r; rv_expected_key_generation := expected_raw;
               rv_expected_snapshot_id := rk_expected_identity_snapshot_id r; rv_resulting_key_generation := next_raw;
               rv_resulting_snapshot_id := next_snapshot_id; rv_resulting_snapshot_generation := snapshot_raw;
               rv_revoked_at_ms := at_raw |};
      mret (KeyRevokedNow
        {| kr_receipt_id := receipt_id; kr_key_id := rk_key_id r; kr_resulting_key_generation := next_key_generation;
           kr_identity_snapshot_id := next_snapshot_id; kr_snapshot_generation := next_snapshot_generation;
           kr_revoked_at_ms := rk_revoked_at_ms r |})
  end.

Definition rotate_key (r : RotateKeyRequest) : id_tx KeyRotationDecision :=
  _ ← lift (validate_rotate_request r);
  existing ← load_rotation_by_key (ro_idempotency_key r);
  match existing with
  | Some s =>
      if decide (kt_key_id (st_receipt s) <> ro_key_id r
                 \/ st_expected_key_generation s <> ro_expected_key_generation r
                 \/ st_expected_snapshot_id s <> ro_expected_identity_snapshot_id r
                 \/ kt_new_public_key (st_receipt s) <> ro_new_public_key r
                 \/ kt_new_valid_from_ms (st_receipt s) <> ro_new_valid_from_ms r
                 \/ kt_new_valid_until_ms (st_receipt s) <> ro_new_valid_until_ms r
                 \/ kt_rotated_at_ms (st_receipt s) <> ro_rotated_at_ms r)
      then throw IdIdempotencyConflict
      else mret (KeyRotationReplayed (st_receipt s))
  | None =>
      binding ← fenced_binding (ro_key_id r) (ro_expected_key_generation r) (ro_expected_identity_snapshot_id r) (ro_rotated_at_ms r);
      next ← next_generations binding (ro_idempotency_key r);
      let '(next_key_generation, next_snapshot_generation, next_snapshot_id) := next in
      let receipt_id := derive_id "nlos/key-rotation-receipt/id/v1"
        [be_bytes 16 (ro_key_id r); be_bytes 8 next_key_generation; be_bytes 16 next_snapshot_id;
         be_bytes 16 (ro_idempotency_key r)] in
      let rotated_binding :=
        {| ib_principal_id := ib_principal_id binding; ib_control_domain_id := ib_control_domain_id binding;
           ib_identity_snapshot_id := next_snapshot_id; ib_snapshot_generation := next_snapshot_generation;
           ib_key_id := ib_key_id binding; ib_key_generation := next_key_generation;
           ib_key_purpose := ib_key_purpose binding; ib_public_key := ro_new_public_key r;
           ib_key_valid_from_ms := ro_new_valid_from_ms r; ib_key_valid_until_ms := ro_new_valid_until_ms r;
           ib_key_revoked_at_ms := None |} in
      _ ← advance_key binding rotated_binding (ro_rotated_at_ms r) CHANGE_KEY_ROTATION;
      expected_raw ← lift (id_encode_u64 (ro_expected_key_generation r));
      from_raw ← lift (id_encode_u64 (ro_new_valid_from_ms r));
      until_raw ← lift (id_encode_u64 (ro_new_valid_until_ms r));
      next_raw ← lift (id_encode_u64 next_key_generation);
      snapshot_raw ← lift (id_encode_u64 next_snapshot_generation);
      at_raw ← lift (id_encode_u64 (ro_rotated_at_ms r));
      _ ← insert_rotation (ro_idempotency_key r)
            {| rt_receipt_id := receipt_id; rt_key_id := ro_key_id r; rt_expected_key_generation := expected_raw;
               rt_expected_snapshot_id := ro_expected_identity_snapshot_id r; rt_new_public_key := ro_new_public_key r;
               rt_new_valid_from_ms := from_raw; rt_new_valid_until_ms := until_raw;
               rt_resulting_key_generation := next_raw; rt_resulting_snapshot_id := next_snapshot_id;
               rt_resulting_snapshot_generation := snapshot_raw; rt_rotated_at_ms := at_raw |};
      mret (KeyRotated
        {| kt_receipt_id := receipt_id; kt_key_id := ro_key_id r; kt_resulting_key_generation := next_key_generation;
           kt_identity_snapshot_id := next_snapshot_id; kt_snapshot_generation := next_snapshot_generation;
           kt_new_public_key := ro_new_public_key r; kt_new_valid_from_ms := ro_new_valid_from_ms r;
           kt_new_valid_until_ms := ro_new_valid_until_ms r; kt_rotated_at_ms := ro_rotated_at_ms r |})
  end.

(** ** Verifying signatures *)

Definition semantic_signature_message (event_id : Z) : Z :=
  sha256 (bytes_of_string "llmos/semantic-signature/v1" ++ be_bytes 32 event_id).

(** What every verification asks of the binding it found. *)
Definition judge (binding : IdentityBinding) (purpose : KeyPurpose) (at_ms message signature : Z) :
    result IdentityAuthorityError () :=
  if decide (ib_key_purpose binding <> purpose) then Err KeyPurposeMismatch
  else if decide (ib_key_revoked_at_ms binding <> None) then Err KeyRevoked
  else if decide (at_ms < ib_key_valid_from_ms binding) then Err KeyNotYetValid
  else if decide (ib_key_valid_until_ms binding < at_ms) then Err KeyExpired
  else if negb (vk_from_bytes (ib_public_key binding)) then Err InvalidPublicKey
  else if verify_strict (ib_public_key binding) message signature then Ok () else Err InvalidSignature.

(** The verifications that name the key: its binding must be the one claimed. *)
Definition judge_key (key_id issuer control_domain_id : Z) (purpose : KeyPurpose) (at_ms message signature : Z) :
    id_tx IdentityBinding :=
  found ← load_current_binding key_id;
  binding ← lift (ok_or found (KeyNotFound key_id));
  if decide (ib_principal_id binding <> issuer \/ ib_control_domain_id binding <> control_domain_id)
  then throw SignerBindingMismatch
  else _ ← lift (judge binding purpose at_ms message signature); mret binding.

Definition verify_semantic_signature (r : VerifySemanticSignatureRequest) : id_tx VerifiedSemanticSigner :=
  binding ← judge_key (vs_key_id r) (vs_issuer r) (vs_control_domain_id r) SemanticSigning (vs_admitted_at_ms r)
              (semantic_signature_message (vs_event_id r)) (vs_signature r);
  mret {| vg_principal_id := ib_principal_id binding; vg_control_domain_id := ib_control_domain_id binding;
          vg_identity_snapshot_id := ib_identity_snapshot_id binding;
          vg_snapshot_generation := ib_snapshot_generation binding; vg_key_id := ib_key_id binding;
          vg_key_generation := ib_key_generation binding |}.

Definition verify_semantic_authority_signature (r : VerifySemanticAuthoritySignatureRequest) :
    id_tx VerifiedSemanticAuthoritySigner :=
  binding ← judge_key (va_key_id r) (va_issuer r) (va_control_domain_id r) SemanticSigning (va_verified_at_ms r)
              (va_message_digest r) (va_signature r);
  mret {| ag_principal_id := ib_principal_id binding; ag_control_domain_id := ib_control_domain_id binding;
          ag_key_id := ib_key_id binding; ag_key_generation := ib_key_generation binding |}.

Definition verify_barrier_observation_signature (r : VerifyBarrierObservationSignatureRequest) :
    id_tx VerifiedBarrierObservationSigner :=
  binding ← judge_key (vb_key_id r) (vb_issuer r) (vb_control_domain_id r) BarrierObservationSigning (vb_verified_at_ms r)
              (vb_message_digest r) (vb_signature r);
  mret {| bg_principal_id := ib_principal_id binding; bg_control_domain_id := ib_control_domain_id binding;
          bg_key_id := ib_key_id binding; bg_key_generation := ib_key_generation binding |}.

Definition verify_capability_command_signature_at_time (principal message_digest signature verified_at_ms : Z) :
    id_tx VerifiedCapabilityCommandSigner :=
  found ← load_current_binding_by_principal principal;
  binding ← lift (ok_or found (PrincipalNotFound principal));
  _ ← lift (judge binding SemanticSigning verified_at_ms message_digest signature);
  mret {| cg_principal_id := ib_principal_id binding; cg_control_domain_id := ib_control_domain_id binding;
          cg_key_id := ib_key_id binding; cg_key_generation := ib_key_generation binding |}.

Definition verify_capability_command_signature (r : VerifyCapabilityCommandSignatureRequest) :
    id_tx VerifiedCapabilityCommandSigner :=
  verify_capability_command_signature_at_time (vc_principal r) (vc_message_digest r) (vc_signature r) (vc_verified_at_ms r).

(** The clock is a store of its own: its reading stays issued whatever the verification
    answers. *)
Definition verify_capability_command_signature_at_clock (r : VerifyCapabilityCommandSignatureAtClockRequest)
    (now_ms : result AuthorityClockError Z) (clock : ClockDb) (d : IdDb) :
    ClockDb * result IdentityAuthorityError VerifiedCapabilityCommandSigner :=
  match run_tx (wall_now now_ms (vk_idempotency_key r)) clock with
  | (clock, Err e) => (clock, Err (ClockFailed e))
  | (clock, Ok (WallAdvanced at_ms | WallReplayed at_ms)) =>
      (clock, (run_tx (verify_capability_command_signature_at_time (vk_principal r) (vk_message_digest r)
                         (vk_signature r) at_ms) d).2)
  end.

(** ** Reading bindings *)

Definition inspect_current_binding (key_id : Z) : id_tx IdentityBinding :=
  found ← load_current_binding key_id; lift (ok_or found (KeyNotFound key_id)).

Definition inspect_binding_at_snapshot (snapshot_id key_id : Z) : id_tx IdentityBinding :=
  found ← load_binding_at_snapshot snapshot_id key_id; lift (ok_or found (IdentitySnapshotNotFound snapshot_id)).

(** ** Custody bindings and sessions *)

Definition custody_request_matches (record : KeyCustodyRecord) (r : RegisterCustodyBindingRequest) : bool :=
  bool_decide (cu_key_id record = rc_key_id r /\ cu_key_generation record = rc_expected_key_generation r
    /\ cu_custody_profile record = rc_custody_profile r /\ cu_registered_at_ms record = rc_registered_at_ms r).

(** What a registration asks of the key it names. *)
Definition live_binding (key_id expected_generation : Z) : id_tx IdentityBinding :=
  found ← load_current_binding key_id;
  binding ← lift (ok_or found (KeyNotFound key_id));
  if decide (ib_key_generation binding <> expected_generation) then throw KeyGenerationFenceConflict
  else if decide (ib_key_revoked_at_ms binding <> None) then throw KeyRevoked
  else _ ← ensure_key_generation_not_revoked key_id expected_generation; mret binding.

Definition register_custody_binding (r : RegisterCustodyBindingRequest) : id_tx CustodyBindingDecision :=
  existing ← load_custody_by_idempotency (rc_idempotency_key r);
  match existing with
  | Some record => if custody_request_matches record r then mret (CustodyReplayed record) else throw IdIdempotencyConflict
  | None =>
      existing ← load_custody_by_generation (rc_key_id r) (rc_expected_key_generation r);
      match existing with
      | Some (stored_key, record) =>
          if bool_decide (stored_key = rc_idempotency_key r) && custody_request_matches record r
          then mret (CustodyReplayed record) else throw IdIdempotencyConflict
      | None =>
          binding ← live_binding (rc_key_id r) (rc_expected_key_generation r);
          generation_raw ← lift (id_encode_u64 (rc_expected_key_generation r));
          registered_raw ← lift (id_encode_u64 (rc_registered_at_ms r));
          _ ← insert_custody (rc_idempotency_key r)
                {| cr_key_id := rc_key_id r; cr_key_generation := generation_raw; cr_principal_id := ib_principal_id binding;
                   cr_control_domain_id := ib_control_domain_id binding;
                   cr_custody_profile := encode_profile (rc_custody_profile r); cr_registered_at_ms := registered_raw |};
          mret (CustodyRegistered
            {| cu_key_id := rc_key_id r; cu_key_generation := rc_expected_key_generation r;
               cu_principal_id := ib_principal_id binding; cu_control_domain_id := ib_control_domain_id binding;
               cu_custody_profile := rc_custody_profile r; cu_registered_at_ms := rc_registered_at_ms r |})
      end
  end.

Definition inspect_custody (key_id key_generation : Z) : id_tx KeyCustodyRecord :=
  found ← load_custody_by_generation key_id key_generation;
  lift (ok_or (snd <$> found) (CustodyBindingNotFound key_id)).

Definition inspect_current_custody (key_id : Z) : id_tx KeyCustodyRecord :=
  found ← load_current_binding key_id;
  binding ← lift (ok_or found (KeyNotFound key_id));
  found ← load_custody_by_generation key_id (ib_key_generation binding);
  lift (ok_or (snd <$> found) (CustodyBindingNotFound key_id)).

Definition validate_session_request (r : RegisterSessionRequest) : result IdentityAuthorityError () :=
  if decide (rs_expires_at_ms r < rs_registered_at_ms r) then Err InvalidKeyValidity else Ok ().

Definition session_request_matches (record : TrustedLocalSessionRecord) (r : RegisterSessionRequest) : bool :=
  bool_decide (ts_session_id record = rs_session_id r /\ ts_session_token_digest record = rs_session_token_digest r
    /\ ts_key_id record = rs_key_id r /\ ts_key_generation record = rs_expected_key_generation r
    /\ ts_registered_at_ms record = rs_registered_at_ms r /\ ts_expires_at_ms record = rs_expires_at_ms r).

Definition register_session (r : RegisterSessionRequest) : id_tx SessionRegistrationDecision :=
  _ ← lift (validate_session_request r);
  existing ← load_session_by_idempotency (rs_idempotency_key r);
  match existing with
  | Some record => if session_request_matches record r then mret (SessionReplayed record) else throw IdIdempotencyConflict
  | None =>
      existing ← load_session_by_id (rs_session_id r);
      match existing with
      | Some (stored_key, record) =>
          if bool_decide (stored_key = rs_idempotency_key r) && session_request_matches record r
          then mret (SessionReplayed record) else throw IdIdempotencyConflict
      | None =>
          binding ← live_binding (rs_key_id r) (rs_expected_key_generation r);
          let receipt_id := derive_id "nlos/trusted-local-session-receipt/id/v1"
            [be_bytes 16 (rs_session_id r); be_bytes 16 (rs_key_id r); be_bytes 8 (ib_key_generation binding);
             be_bytes 16 (rs_idempotency_key r)] in
          generation_raw ← lift (id_encode_u64 (ib_key_generation binding));
          registered_raw ← lift (id_encode_u64 (rs_registered_at_ms r));
          expires_raw ← lift (id_encode_u64 (rs_expires_at_ms r));
          let record :=
            {| ts_receipt_id := receipt_id; ts_session_id := rs_session_id r;
               ts_session_token_digest := rs_session_token_digest r; ts_key_id := rs_key_id r;
               ts_key_generation := generation_raw; ts_principal_id := ib_principal_id binding;
               ts_control_domain_id := ib_control_domain_id binding; ts_registered_at_ms := registered_raw;
               ts_expires_at_ms := expires_raw |} in
          _ ← insert_session (rs_idempotency_key r) record;
          mret (SessionRegistered record)
      end
  end.

Definition inspect_session (session_id : Z) : id_tx TrustedLocalSessionRecord :=
  found ← load_session_by_id session_id;
  entry ← lift (ok_or found (SessionNotFound session_id));
  _ ← ensure_key_generation_not_revoked (ts_key_id entry.2) (ts_key_generation entry.2);
  mret entry.2.

Definition count_trusted_local_sessions : id_tx Z :=
  count ← reading (fun d => Z.of_nat (size (id_sessions d)));
  lift (id_decode_u64 count).

(** ** Requests and runs *)

Inductive IdRequest :=
  | IdBootstrap (r : BootstrapPrincipalRequest)
  | IdRevoke (r : RevokeKeyRequest)
  | IdRotate (r : RotateKeyRequest)
  | IdCustody (r : RegisterCustodyBindingRequest)
  | IdSession (r : RegisterSessionRequest)
  | IdReopen (n : nat).

Inductive IdAnswer :=
  | BootstrapAnswer (r : result IdentityAuthorityError BootstrapDecision)
  | RevokeAnswer (r : result IdentityAuthorityError KeyRevocationDecision)
  | RotateAnswer (r : result IdentityAuthorityError KeyRotationDecision)
  | CustodyAnswer (r : result IdentityAuthorityError CustodyBindingDecision)
  | SessionAnswer (r : result IdentityAuthorityError SessionRegistrationDecision)
  | ReopenAnswer (r : result IdentityAuthorityError ()).

(** One request that can change the tables; a process may also die and open the file
    again, interrupted or not. *)
Definition id_step (d : IdDb) (q : IdRequest) : IdDb * IdAnswer :=
  match q with
  | IdBootstrap r => let '(d', a) := run_tx (bootstrap_principal r) d in (d', BootstrapAnswer a)
  | IdRevoke r => let '(d', a) := run_tx (revoke_key r) d in (d', RevokeAnswer a)
  | IdRotate r => let '(d', a) := run_tx (rotate_key r) d in (d', RotateAnswer a)
  | IdCustody r => let '(d', a) := run_tx (register_custody_binding r) d in (d', CustodyAnswer a)
  | IdSession r => let '(d', a) := run_tx (register_session r) d in (d', SessionAnswer a)
  | IdReopen n => let '(d', a) := id_open n d in (d', ReopenAnswer a)
  end.

Fixpoint id_run (d : IdDb) (qs : list IdRequest) : IdDb * list IdAnswer :=
  match qs with
  | [] => (d, [])
  | q :: qs => let '(d', a) := id_step d q in let '(d'', l) := id_run d' qs in (d'', a :: l)
  end.
End operations.

(** A file the authority has been opened on for the first time. *)
Definition new_identity_file : IdDb := Eval vm_compute in (id_open 4 no_identity_file).1.
