(* ===== verification/IdentityRefines.v ===== *)
(** * IdentityRefines: what the identity authority promises

    An abstract identity authority (the current binding of each key, and the requests
    that were answered, by idempotency key), the relation of its state to the tables of
    [Identity], and the proof that the authority answers as the abstract one does, or
    refuses for a cause: an identifier that is taken or a number SQLite cannot hold. *)

From S2P Require Import Prelude Bytes Txn Clock Identity.

#[export] Instance BootstrapPrincipalRequest_eq_dec : EqDecision BootstrapPrincipalRequest.
Proof. solve_decision. Defined.
#[export] Instance RevokeKeyRequest_eq_dec : EqDecision RevokeKeyRequest.
Proof. solve_decision. Defined.
#[export] Instance RotateKeyRequest_eq_dec : EqDecision RotateKeyRequest.
Proof. solve_decision. Defined.
#[export] Instance RegisterCustodyBindingRequest_eq_dec : EqDecision RegisterCustodyBindingRequest.
Proof. solve_decision. Defined.
#[export] Instance RegisterSessionRequest_eq_dec : EqDecision RegisterSessionRequest.
Proof. solve_decision. Defined.

(** ** The abstract authority *)

Record AbsIdentity := {
  ai_current : gmap Z IdentityBinding;
  ai_boots : gmap Z (BootstrapPrincipalRequest * IdentityBinding);
  ai_revoked : gmap Z (RevokeKeyRequest * KeyRevocationReceipt);
  ai_rotated : gmap Z (RotateKeyRequest * KeyRotationReceipt);
  ai_custody : gmap Z (RegisterCustodyBindingRequest * KeyCustodyRecord);
  ai_sessions : gmap Z (RegisterSessionRequest * TrustedLocalSessionRecord);
}.
#[export] Instance eta_abs : Eta AbsIdentity := fun x =>
  Build_AbsIdentity (ai_current x) (ai_boots x) (ai_revoked x) (ai_rotated x) (ai_custody x) (ai_sessions x).
#[export] Instance set_ai_current : Setter ai_current. Proof. build_setter. Defined.
#[export] Instance set_ai_boots : Setter ai_boots. Proof. build_setter. Defined.
#[export] Instance set_ai_revoked : Setter ai_revoked. Proof. build_setter. Defined.
#[export] Instance set_ai_rotated : Setter ai_rotated. Proof. build_setter. Defined.
#[export] Instance set_ai_custody : Setter ai_custody. Proof. build_setter. Defined.
#[export] Instance set_ai_sessions : Setter ai_sessions. Proof. build_setter. Defined.

Definition no_identities : AbsIdentity := Build_AbsIdentity ∅ ∅ ∅ ∅ ∅ ∅.

Section spec.
Context {H : Sha256} {E : Ed25519}.

(** A request is answered once: the same request again gets the answer it got, another
    one under its key is refused. *)
Definition once {R A B} `{EqDecision R} (seen : option (R * A)) (r : R) (again : A -> B)
    (fresh : result IdentityAuthorityError (AbsIdentity * B)) (a : AbsIdentity) : result IdentityAuthorityError (AbsIdentity * B) :=
  match seen with
  | Some (r', x) => if decide (r' = r) then Ok (a, again x) else Err IdIdempotencyConflict
  | None => fresh
  end.

Definition spec_bootstrap (a : AbsIdentity) (r : BootstrapPrincipalRequest) : result IdentityAuthorityError (AbsIdentity * BootstrapDecision) :=
  match validate_bootstrap_request r with
  | Err e => Err e
  | Ok _ =>
      let b := bootstrap_binding r in
      once (ai_boots a !! br_idempotency_key r) r BootstrapReplayed
        (Ok (a <| ai_current := <[ib_key_id b := b]> (ai_current a) |>
               <| ai_boots := <[br_idempotency_key r := (r, b)]> (ai_boots a) |>, BootstrapCreated b)) a
  end.

(** The binding a key change starts from. *)
Definition spec_fenced (a : AbsIdentity) (key_id generation snapshot at_ms : Z) : result IdentityAuthorityError IdentityBinding :=
  match ai_current a !! key_id with
  | None => Err (KeyNotFound key_id)
  | Some b =>
      if decide (ib_key_generation b <> generation) then Err KeyGenerationFenceConflict
      else if decide (ib_identity_snapshot_id b <> snapshot) then Err IdentitySnapshotFenceConflict
      else if decide (ib_key_revoked_at_ms b <> None) then Err KeyRevoked
      else if decide (at_ms < ib_key_valid_from_ms b) then Err InvalidKeyValidity
      else Ok b
  end.

Definition next_snapshot_id (b : IdentityBinding) (idempotency_key : Z) : Z :=
  derive_id "nlos/identity-snapshot/id/v1"
    [be_bytes 16 (ib_control_domain_id b); be_bytes 8 (ib_snapshot_generation b + 1);
     be_bytes 16 (ib_identity_snapshot_id b); be_bytes 16 idempotency_key].

(** The binding after a change of key material, of validity or of revocation. *)
Definition next_binding (b : IdentityBinding) (idempotency_key public_key valid_from valid_until : Z) (revoked_at : option Z) :
    IdentityBinding :=
  {| ib_principal_id := ib_principal_id b; ib_control_domain_id := ib_control_domain_id b;
     ib_identity_snapshot_id := next_snapshot_id b idempotency_key; ib_snapshot_generation := ib_snapshot_generation b + 1;
     ib_key_id := ib_key_id b; ib_key_generation := ib_key_generation b + 1; ib_key_purpose := ib_key_purpose b;
     ib_public_key := public_key; ib_key_valid_from_ms := valid_from; ib_key_valid_until_ms := valid_until;
     ib_key_revoked_at_ms := revoked_at |}.

Definition revoked_binding (b : IdentityBinding) (r : RevokeKeyRequest) : IdentityBinding :=
  next_binding b (rk_idempotency_key r) (ib_public_key b) (ib_key_valid_from_ms b) (ib_key_valid_until_ms b)
    (Some (rk_revoked_at_ms r)).

Definition revocation_receipt (b : IdentityBinding) (r : RevokeKeyRequest) : KeyRevocationReceipt :=
  {| kr_receipt_id := derive_id "nlos/key-revocation-receipt/id/v1"
       [be_bytes 16 (rk_key_id r); be_bytes 8 (ib_key_generation b + 1);
        be_bytes 16 (next_snapshot_id b (rk_idempotency_key r)); be_bytes 16 (rk_idempotency_key r)];
     kr_key_id := rk_key_id r; kr_resulting_key_generation := ib_key_generation b + 1;
     kr_identity_snapshot_id := next_snapshot_id b (rk_idempotency_key r);
     kr_snapshot_generation := ib_snapshot_generation b + 1; kr_revoked_at_ms := rk_revoked_at_ms r |}.

Definition spec_revoke (a : AbsIdentity) (r : RevokeKeyRequest) : result IdentityAuthorityError (AbsIdentity * KeyRevocationDecision) :=
  once (ai_revoked a !! rk_idempotency_key r) r KeyRevocationReplayed
    (match spec_fenced a (rk_key_id r) (rk_expected_key_generation r) (rk_expected_identity_snapshot_id r) (rk_revoked_at_ms r) with
     | Err e => Err e
     | Ok b =>
         Ok (a <| ai_current := <[rk_key_id r := revoked_binding b r]> (ai_current a) |>
               <| ai_revoked := <[rk_idempotency_key r := (r, revocation_receipt b r)]> (ai_revoked a) |>,
             KeyRevokedNow (revocation_receipt b r))
     end) a.

Definition rotated_binding (b : IdentityBinding) (r : RotateKeyRequest) : IdentityBinding :=
  next_binding b (ro_idempotency_key r) (ro_new_public_key r) (ro_new_valid_from_ms r) (ro_new_valid_until_ms r) None.

Definition rotation_receipt (b : IdentityBinding) (r : RotateKeyRequest) : KeyRotationReceipt :=
  {| kt_receipt_id := derive_id "nlos/key-rotation-receipt/id/v1"
       [be_bytes 16 (ro_key_id r); be_bytes 8 (ib_key_generation b + 1);
        be_bytes 16 (next_snapshot_id b (ro_idempotency_key r)); be_bytes 16 (ro_idempotency_key r)];
     kt_key_id := ro_key_id r; kt_resulting_key_generation := ib_key_generation b + 1;
     kt_identity_snapshot_id := next_snapshot_id b (ro_idempotency_key r);
     kt_snapshot_generation := ib_snapshot_generation b + 1; kt_new_public_key := ro_new_public_key r;
     kt_new_valid_from_ms := ro_new_valid_from_ms r; kt_new_valid_until_ms := ro_new_valid_until_ms r;
     kt_rotated_at_ms := ro_rotated_at_ms r |}.

Definition spec_rotate (a : AbsIdentity) (r : RotateKeyRequest) : result IdentityAuthorityError (AbsIdentity * KeyRotationDecision) :=
  match validate_rotate_request r with
  | Err e => Err e
  | Ok _ =>
      once (ai_rotated a !! ro_idempotency_key r) r KeyRotationReplayed
        (match spec_fenced a (ro_key_id r) (ro_expected_key_generation r) (ro_expected_identity_snapshot_id r) (ro_rotated_at_ms r) with
         | Err e => Err e
         | Ok b =>
             Ok (a <| ai_current := <[ro_key_id r := rotated_binding b r]> (ai_current a) |>
                   <| ai_rotated := <[ro_idempotency_key r := (r, rotation_receipt b r)]> (ai_rotated a) |>,
                 KeyRotated (rotation_receipt b r))
         end) a
  end.

(** A registration needs the key at the expected generation and not revoked. *)
Definition spec_live (a : AbsIdentity) (key_id generation : Z) : result IdentityAuthorityError IdentityBinding :=
  match ai_current a !! key_id with
  | None => Err (KeyNotFound key_id)
  | Some b =>
      if decide (ib_key_generation b <> generation) then Err KeyGenerationFenceConflict
      else if decide (ib_key_revoked_at_ms b <> None) then Err KeyRevoked
      else Ok b
  end.

Definition custody_record (b : IdentityBinding) (r : RegisterCustodyBindingRequest) : KeyCustodyRecord :=
  {| cu_key_id := rc_key_id r; cu_key_generation := rc_expected_key_generation r; cu_principal_id := ib_principal_id b;
     cu_control_domain_id := ib_control_domain_id b; cu_custody_profile := rc_custody_profile r;
     cu_registered_at_ms := rc_registered_at_ms r |}.

(** One custody binding for each generation of a key. *)
Definition spec_custody (a : AbsIdentity) (r : RegisterCustodyBindingRequest) : result IdentityAuthorityError (AbsIdentity * CustodyBindingDecision) :=
  once (ai_custody a !! rc_idempotency_key r) r CustodyReplayed
    (if any_row (fun _ e => bool_decide (rc_key_id e.1 = rc_key_id r
                                         /\ rc_expected_key_generation e.1 = rc_expected_key_generation r)) (ai_custody a)
     then Err IdIdempotencyConflict
     else match spec_live a (rc_key_id r) (rc_expected_key_generation r) with
          | Err e => Err e
          | Ok b => Ok (a <| ai_custody := <[rc_idempotency_key r := (r, custody_record b r)]> (ai_custody a) |>,
                        CustodyRegistered (custody_record b r))
          end) a.

Definition session_record (b : IdentityBinding) (r : RegisterSessionRequest) : TrustedLocalSessionRecord :=
  {| ts_receipt_id := derive_id "nlos/trusted-local-session-receipt/id/v1"
       [be_bytes 16 (rs_session_id r); be_bytes 16 (rs_key_id r); be_bytes 8 (ib_key_generation b);
        be_bytes 16 (rs_idempotency_key r)];
     ts_session_id := rs_session_id r; ts_session_token_digest := rs_session_token_digest r; ts_key_id := rs_key_id r;
     ts_key_generation := ib_key_generation b; ts_principal_id := ib_principal_id b;
     ts_control_domain_id := ib_control_domain_id b; ts_registered_at_ms := rs_registered_at_ms r;
     ts_expires_at_ms := rs_expires_at_ms r |}.

(** One session for each session id. *)
Definition spec_session (a : AbsIdentity) (r : RegisterSessionRequest) : result IdentityAuthorityError (AbsIdentity * SessionRegistrationDecision) :=
  match validate_session_request r with
  | Err e => Err e
  | Ok _ =>
      once (ai_sessions a !! rs_idempotency_key r) r SessionReplayed
        (if any_row (fun _ e => bool_decide (rs_session_id e.1 = rs_session_id r)) (ai_sessions a)
         then Err IdIdempotencyConflict
         else match spec_live a (rs_key_id r) (rs_expected_key_generation r) with
              | Err e => Err e
              | Ok b => Ok (a <| ai_sessions := <[rs_idempotency_key r := (r, session_record b r)]> (ai_sessions a) |>,
                            SessionRegistered (session_record b r))
              end) a
  end.

Definition answer {B} (a : AbsIdentity) (w : result IdentityAuthorityError B -> IdAnswer)
    (x : result IdentityAuthorityError (AbsIdentity * B)) : AbsIdentity * IdAnswer :=
  match x with Ok (a', b) => (a', w (Ok b)) | Err e => (a, w (Err e)) end.

Definition spec_step (a : AbsIdentity) (q : IdRequest) : AbsIdentity * IdAnswer :=
  match q with
  | IdBootstrap r => answer a BootstrapAnswer (spec_bootstrap a r)
  | IdRevoke r => answer a RevokeAnswer (spec_revoke a r)
  | IdRotate r => answer a RotateAnswer (spec_rotate a r)
  | IdCustody r => answer a CustodyAnswer (spec_custody a r)
  | IdSession r => answer a SessionAnswer (spec_session a r)
  | IdReopen _ => (a, ReopenAnswer (Ok ()))
  end.
End spec.

(** ** The tables of an abstract state *)

Definition version_row (b : IdentityBinding) : KeyVersionRow :=
  {| kv_purpose := encode_purpose (ib_key_purpose b); kv_public_key := ib_public_key b;
     kv_valid_from_ms := ib_key_valid_from_ms b; kv_valid_until_ms := ib_key_valid_until_ms b;
     kv_revoked_at_ms := ib_key_revoked_at_ms b |}.

Definition revocation_row (e : RevokeKeyRequest * KeyRevocationReceipt) : RevocationRow :=
  {| rv_receipt_id := kr_receipt_id e.2; rv_key_id := rk_key_id e.1;
     rv_expected_key_generation := rk_expected_key_generation e.1;
     rv_expected_snapshot_id := rk_expected_identity_snapshot_id e.1;
     rv_resulting_key_generation := kr_resulting_key_generation e.2;
     rv_resulting_snapshot_id := kr_identity_snapshot_id e.2;
     rv_resulting_snapshot_generation := kr_snapshot_generation e.2; rv_revoked_at_ms := rk_revoked_at_ms e.1 |}.

Definition rotation_row (e : RotateKeyRequest * KeyRotationReceipt) : RotationRow :=
  {| rt_receipt_id := kt_receipt_id e.2; rt_key_id := ro_key_id e.1;
     rt_expected_key_generation := ro_expected_key_generation e.1;
     rt_expected_snapshot_id := ro_expected_identity_snapshot_id e.1; rt_new_public_key := ro_new_public_key e.1;
     rt_new_valid_from_ms := ro_new_valid_from_ms e.1; rt_new_valid_until_ms := ro_new_valid_until_ms e.1;
     rt_resulting_key_generation := kt_resulting_key_generation e.2; rt_resulting_snapshot_id := kt_identity_snapshot_id e.2;
     rt_resulting_snapshot_generation := kt_snapshot_generation e.2; rt_rotated_at_ms := ro_rotated_at_ms e.1 |}.

Definition custody_row (e : RegisterCustodyBindingRequest * KeyCustodyRecord) : CustodyRow :=
  {| cr_key_id := rc_key_id e.1; cr_key_generation := rc_expected_key_generation e.1;
     cr_principal_id := cu_principal_id e.2; cr_control_domain_id := cu_control_domain_id e.2;
     cr_custody_profile := encode_profile (rc_custody_profile e.1); cr_registered_at_ms := rc_registered_at_ms e.1 |}.

Definition validity_ok (b : IdentityBinding) : Prop :=
  0 <= ib_key_valid_from_ms b <= ib_key_valid_until_ms b /\ ib_key_valid_until_ms b <= i64_max /\
  match ib_key_revoked_at_ms b with Some r => ib_key_valid_from_ms b <= r <= i64_max | None => True end.

(** The rows that make a binding current. *)
Record binding_stored (d : IdDb) (b : IdentityBinding) : Prop := {
  bs_head : exists created, id_heads d !! ib_key_id b =
    Some {| kh_principal_id := ib_principal_id b; kh_control_domain_id := ib_control_domain_id b;
            kh_current_generation := ib_key_generation b; kh_created_at_ms := created |};
  bs_domain : exists c, id_domains d !! ib_control_domain_id b = Some c /\
    cd_current_snapshot_id c = ib_identity_snapshot_id b /\ cd_current_generation c = ib_snapshot_generation b;
  bs_same_generation : ib_snapshot_generation b = ib_key_generation b;
  bs_generation : 1 <= ib_key_generation b <= i64_max;
  bs_version : id_versions d !! (ib_key_id b, ib_key_generation b) = Some (version_row b);
  bs_member : id_members d !! (ib_identity_snapshot_id b, ib_principal_id b) = Some ();
  bs_binding : id_bindings d !! (ib_identity_snapshot_id b, ib_key_id b) = Some (ib_key_generation b);
  bs_snapshot : exists s, id_snapshots d !! ib_identity_snapshot_id b = Some s /\ sn_generation s = ib_snapshot_generation b;
  bs_principal : exists p, id_principals d !! ib_principal_id b = Some p;
  bs_validity : validity_ok b;
}.

(** The rows a bootstrap leaves behind for good. *)
Record boot_stored {H : Sha256} (d : IdDb) (r : BootstrapPrincipalRequest) (b : IdentityBinding) : Prop := {
  bo_binding : b = bootstrap_binding r;
  bo_principal : id_principals d !! ib_principal_id b =
    Some {| pr_bootstrap_idempotency_key := br_idempotency_key r; pr_profile_digest := br_profile_digest r;
            pr_created_at_ms := br_created_at_ms r |};
  bo_domain : exists c, id_domains d !! ib_control_domain_id b = Some c /\ cd_policy_digest c = br_policy_digest r;
  bo_head : exists h, id_heads d !! ib_key_id b = Some h /\ kh_principal_id h = ib_principal_id b /\
    kh_control_domain_id h = ib_control_domain_id b;
  bo_snapshot : exists s, id_snapshots d !! ib_identity_snapshot_id b = Some s /\
    sn_control_domain_id s = ib_control_domain_id b /\ sn_generation s = 1;
  bo_member : id_members d !! (ib_identity_snapshot_id b, ib_principal_id b) = Some ();
  bo_version : id_versions d !! (ib_key_id b, 1) = Some (version_row b);
  bo_key_binding : id_bindings d !! (ib_identity_snapshot_id b, ib_key_id b) = Some 1;
  bo_validity : validity_ok b;
  bo_created : 0 <= br_created_at_ms r;
}.

(** The requests that were answered, by idempotency key, and their rows. *)
Record receipts_sim (d : IdDb) (a : AbsIdentity) : Prop := {
  is_revocations : id_revocations d = revocation_row <$> ai_revoked a;
  is_revoked : forall i r rc, ai_revoked a !! i = Some (r, rc) ->
    rk_idempotency_key r = i /\ 0 <= rk_revoked_at_ms r /\ 1 <= rk_expected_key_generation r /\
    kr_key_id rc = rk_key_id r /\ kr_revoked_at_ms rc = rk_revoked_at_ms r /\
    kr_resulting_key_generation rc = rk_expected_key_generation r + 1 /\ 1 <= kr_snapshot_generation rc /\
    exists b, ai_current a !! rk_key_id r = Some b /\ ib_key_revoked_at_ms b <> None;
  is_rotations : id_rotations d = rotation_row <$> ai_rotated a;
  is_rotated : forall i r rt, ai_rotated a !! i = Some (r, rt) ->
    ro_idempotency_key r = i /\ 0 <= ro_rotated_at_ms r /\ 1 <= ro_expected_key_generation r /\
    0 <= ro_new_valid_from_ms r /\ 0 <= ro_new_valid_until_ms r /\
    kt_key_id rt = ro_key_id r /\ kt_new_public_key rt = ro_new_public_key r /\
    kt_new_valid_from_ms rt = ro_new_valid_from_ms r /\ kt_new_valid_until_ms rt = ro_new_valid_until_ms r /\
    kt_rotated_at_ms rt = ro_rotated_at_ms r /\
    kt_resulting_key_generation rt = ro_expected_key_generation r + 1 /\ 1 <= kt_snapshot_generation rt;
  is_custody_rows : id_custody d = custody_row <$> ai_custody a;
  is_custody : forall i r c, ai_custody a !! i = Some (r, c) ->
    rc_idempotency_key r = i /\ 1 <= rc_expected_key_generation r /\ 0 <= rc_registered_at_ms r /\
    cu_key_id c = rc_key_id r /\ cu_key_generation c = rc_expected_key_generation r /\
    cu_custody_profile c = rc_custody_profile r /\ cu_registered_at_ms c = rc_registered_at_ms r;
  is_session_rows : id_sessions d = snd <$> ai_sessions a;
  is_sessions : forall i r s, ai_sessions a !! i = Some (r, s) ->
    rs_idempotency_key r = i /\ 1 <= rs_expected_key_generation r /\ 0 <= rs_registered_at_ms r /\ 0 <= rs_expires_at_ms r /\
    ts_session_id s = rs_session_id r /\ ts_session_token_digest s = rs_session_token_digest r /\
    ts_key_id s = rs_key_id r /\ ts_key_generation s = rs_expected_key_generation r /\
    ts_registered_at_ms s = rs_registered_at_ms r /\ ts_expires_at_ms s = rs_expires_at_ms r;
}.

(** The simulation relation. *)
Record id_sim {H : Sha256} (d : IdDb) (a : AbsIdentity) : Prop := {
  is_schema : id_user_version d = IDENTITY_SCHEMA_VERSION;
  is_current : forall k b, ai_current a !! k = Some b -> ib_key_id b = k /\ binding_stored d b;
  is_heads : forall k, ai_current a !! k = None -> id_heads d !! k = None;
  is_unique : forall k1 b1 k2 b2, ai_current a !! k1 = Some b1 -> ai_current a !! k2 = Some b2 ->
    ib_control_domain_id b1 = ib_control_domain_id b2 \/ ib_principal_id b1 = ib_principal_id b2 -> k1 = k2;
  is_domains : forall dm c, id_domains d !! dm = Some c -> exists k b, ai_current a !! k = Some b /\ ib_control_domain_id b = dm;
  is_members : forall s p u, id_members d !! (s, p) = Some u -> exists row, id_snapshots d !! s = Some row;
  is_bindings : forall s k g, id_bindings d !! (s, k) = Some g -> exists row, id_snapshots d !! s = Some row;
  is_versions : forall k g kv, id_versions d !! (k, g) = Some kv -> exists b, ai_current a !! k = Some b /\ g <= ib_key_generation b;
  is_snapshots : forall s row, id_snapshots d !! s = Some row -> exists k b, ai_current a !! k = Some b /\
    ib_control_domain_id b = sn_control_domain_id row /\ sn_generation row <= ib_snapshot_generation b;
  is_snapshot_unique : forall s1 r1 s2 r2, id_snapshots d !! s1 = Some r1 -> id_snapshots d !! s2 = Some r2 ->
    sn_control_domain_id r1 = sn_control_domain_id r2 -> sn_generation r1 = sn_generation r2 -> s1 = s2;
  is_principals : forall p row, id_principals d !! p = Some row -> exists r b,
    ai_boots a !! pr_bootstrap_idempotency_key row = Some (r, b) /\ ib_principal_id b = p;
  is_boots : forall i r b, ai_boots a !! i = Some (r, b) -> br_idempotency_key r = i /\ boot_stored d r b;
  is_receipts : receipts_sim d a;
}.

(** ** Reading *)

Lemma id_decode_u64_Ok v : 0 <= v -> id_decode_u64 v = Ok v.
Proof. intros Hv. unfold id_decode_u64. by rewrite decide_True. Qed.
Lemma id_decode_generation_Ok v : 1 <= v -> id_decode_generation v = Ok v.
Proof. intros Hv. unfold id_decode_generation. rewrite id_decode_u64_Ok by lia. by rewrite decide_False by lia. Qed.
Lemma decode_encode_purpose p : decode_purpose (encode_purpose p) = Some p.
Proof. by destruct p. Qed.
Lemma decode_encode_profile p : decode_profile (encode_profile p) = Some p.
Proof. by destruct p. Qed.

Lemma id_decode_optional_Ok o : match o with Some r => 0 <= r | None => True end -> id_decode_optional o = Ok o.
Proof. destruct o as [r|]; [|done]. intros Hr. unfold id_decode_optional. by rewrite id_decode_u64_Ok. Qed.

Lemma decode_binding_version_row b :
  1 <= ib_snapshot_generation b -> 1 <= ib_key_generation b -> validity_ok b ->
  decode_binding (ib_principal_id b) (ib_control_domain_id b) (ib_identity_snapshot_id b) (ib_snapshot_generation b)
    (ib_key_id b) (ib_key_generation b) (version_row b) = Ok b.
Proof.
  intros Hs Hk (Hv & _ & Hr). unfold decode_binding. cbn [version_row kv_purpose kv_public_key kv_valid_from_ms kv_valid_until_ms kv_revoked_at_ms].
  rewrite !id_decode_generation_Ok, decode_encode_purpose, !id_decode_u64_Ok by lia.
  rewrite id_decode_optional_Ok by (destruct (ib_key_revoked_at_ms b); lia || done). by destruct b.
Qed.

Section reads.
Context {H : Sha256} (d : IdDb) (a : AbsIdentity) (Hsim : id_sim d a).
Variable X : IdentityAuthorityError -> Prop.

Lemma current_row_stored b : binding_stored d b -> exists h c,
  current_row d (ib_key_id b) = Some (h, c, version_row b) /\ kh_principal_id h = ib_principal_id b /\
  kh_control_domain_id h = ib_control_domain_id b /\ kh_current_generation h = ib_key_generation b /\
  cd_current_snapshot_id c = ib_identity_snapshot_id b /\ cd_current_generation c = ib_snapshot_generation b.
Proof.
  intros [[created Hh] (c & Hc & Hcs & Hcg) _ _ Hv Hm Hb _ _ _]. unfold current_row. rewrite Hh. cbn.
  rewrite Hv. cbn. rewrite Hc. cbn. rewrite Hcs, Hm. cbn. rewrite Hb. cbn. rewrite decide_True by done. by eauto 10.
Qed.

Lemma wp_load_current k (Q : option IdentityBinding -> IdDb -> Prop) :
  Q (ai_current a !! k) d -> wp (load_current_binding k) Q X d.
Proof.
  intros HQ. unfold load_current_binding. do 2 wp_pure. destruct (ai_current a !! k) as [b|] eqn:Eb.
  - destruct (is_current _ _ Hsim _ _ Eb) as [<- Hst]. destruct (current_row_stored b Hst) as (h & c & -> & -> & -> & -> & -> & ->).
    wp_pure. destruct Hst as [_ _ Hsg Hg _ _ _ _ _ Hv].
    eapply wp_lift_Ok; [apply decode_binding_version_row; lia || done|]. by wp_pure.
  - assert (current_row d k = None) as -> by (unfold current_row; by rewrite (is_heads _ _ Hsim _ Eb)). by wp_pure.
Qed.

Lemma head_unique k1 h1 k2 h2 : id_heads d !! k1 = Some h1 -> id_heads d !! k2 = Some h2 ->
  kh_principal_id h1 = kh_principal_id h2 -> k1 = k2.
Proof.
  intros H1 H2 Hp. destruct (ai_current a !! k1) as [b1|] eqn:E1; [|by rewrite (is_heads _ _ Hsim _ E1) in H1].
  destruct (ai_current a !! k2) as [b2|] eqn:E2; [|by rewrite (is_heads _ _ Hsim _ E2) in H2].
  destruct (is_current _ _ Hsim _ _ E1) as [<- [[c1 Hh1] _ _ _ _ _ _ _ _ _]].
  destruct (is_current _ _ Hsim _ _ E2) as [<- [[c2 Hh2] _ _ _ _ _ _ _ _ _]].
  apply (is_unique _ _ Hsim _ b1 _ b2); [done..|]. right. simplify_map_eq. done.
Qed.

(** The one key of a principal. *)
Lemma first_head p : first_row (fun _ h => bool_decide (kh_principal_id h = p)) (id_heads d) =
  match first_row (fun _ b => bool_decide (ib_principal_id b = p)) (ai_current a) with
  | Some (k, b) => (fun h => (k, h)) <$> id_heads d !! k
  | None => None
  end.
Proof.
  destruct (first_row (fun _ b => _) (ai_current a)) as [[k b]|] eqn:E.
  - apply first_row_Some in E as [Hk Hp%bool_decide_eq_true]. destruct (is_current _ _ Hsim _ _ Hk) as [<- Hst].
    destruct (bs_head _ _ Hst) as [created Hh]. rewrite Hh. cbn. apply first_row_unique; [done|by apply bool_decide_eq_true|].
    intros k' h' Hh' Hp'%bool_decide_eq_true. apply (head_unique _ _ _ _ Hh' Hh). cbn. congruence.
  - destruct (first_row _ (id_heads d)) as [[k h]|] eqn:E'; [|done].
    apply first_row_Some in E' as [Hh Hp%bool_decide_eq_true]. destruct (ai_current a !! k) as [b|] eqn:Ek.
    + pose proof (first_row_None _ _ E _ _ Ek) as Hn. apply bool_decide_eq_false in Hn. destruct Hn.
      destruct (is_current _ _ Hsim _ _ Ek) as [<- Hst]. destruct (bs_head _ _ Hst) as [created Hh']. by simplify_map_eq.
    + by rewrite (is_heads _ _ Hsim _ Ek) in Hh.
Qed.

(** The key of a principal, in the abstract state. *)
Definition key_of (p : Z) : option IdentityBinding :=
  snd <$> first_row (fun _ b => bool_decide (ib_principal_id b = p)) (ai_current a).

Lemma wp_load_by_principal p (Q : option IdentityBinding -> IdDb -> Prop) :
  Q (key_of p) d -> wp (load_current_binding_by_principal p) Q X d.
Proof.
  intros HQ. unfold load_current_binding_by_principal. do 2 wp_pure. rewrite first_head. unfold key_of in HQ.
  destruct (first_row _ (ai_current a)) as [[k b]|] eqn:E; [|by wp_pure]. apply first_row_Some in E as [Hk _].
  destruct (is_current _ _ Hsim _ _ Hk) as [Hkb Hst]. destruct (bs_head _ _ Hst) as [created Hh]. rewrite Hkb in Hh. rewrite Hh. cbn.
  apply wp_load_current. by rewrite Hk.
Qed.

Lemma wp_load_revocation i (Q : option StoredRevocation -> IdDb -> Prop) :
  Q ((fun e => {| sr_expected_key_generation := rk_expected_key_generation e.1;
                  sr_expected_snapshot_id := rk_expected_identity_snapshot_id e.1; sr_receipt := e.2 |}) <$> ai_revoked a !! i) d ->
  wp (load_revocation_by_key i) Q X d.
Proof.
  intros HQ. unfold load_revocation_by_key. do 2 wp_pure. rewrite (is_revocations _ _ (is_receipts _ _ Hsim)), lookup_fmap.
  destruct (ai_revoked a !! i) as [[r rc]|] eqn:E; cbn [fmap option_fmap option_map fst snd] in *; [|by wp_pure].
  destruct (is_revoked _ _ (is_receipts _ _ Hsim) _ _ _ E) as (_ & Hat & Hg & Hk & Hr & Hres & Hsg & _). wp_pure. eapply wp_lift_Ok.
  { unfold decode_revocation. cbn. rewrite !id_decode_generation_Ok, !id_decode_u64_Ok by lia. done. }
  wp_pure. cbn in HQ. rewrite <- Hk, <- Hr. by destruct rc.
Qed.

Lemma wp_load_rotation i (Q : option StoredRotation -> IdDb -> Prop) :
  Q ((fun e => {| st_expected_key_generation := ro_expected_key_generation e.1;
                  st_expected_snapshot_id := ro_expected_identity_snapshot_id e.1; st_receipt := e.2 |}) <$> ai_rotated a !! i) d ->
  wp (load_rotation_by_key i) Q X d.
Proof.
  intros HQ. unfold load_rotation_by_key. do 2 wp_pure. rewrite (is_rotations _ _ (is_receipts _ _ Hsim)), lookup_fmap.
  destruct (ai_rotated a !! i) as [[r rt]|] eqn:E; cbn [fmap option_fmap option_map fst snd] in *; [|by wp_pure].
  destruct (is_rotated _ _ (is_receipts _ _ Hsim) _ _ _ E) as (_ & Hat & Hg & Hf & Hu & Hk & Hpk & Hrf & Hru & Hra & Hres & Hsg). wp_pure. eapply wp_lift_Ok.
  { unfold decode_rotation. cbn. rewrite !id_decode_generation_Ok, !id_decode_u64_Ok by lia. done. }
  wp_pure. cbn in HQ. rewrite <- Hk, <- Hpk, <- Hrf, <- Hru, <- Hra. by destruct rt.
Qed.

Lemma decode_custody_row_Ok i r c : ai_custody a !! i = Some (r, c) ->
  decode_custody_row i (custody_row (r, c)) = Ok (i, c).
Proof.
  intros E. destruct (is_custody _ _ (is_receipts _ _ Hsim) _ _ _ E) as (_ & Hg & Hat & Hk & Hkg & Hp & Hr).
  unfold decode_custody_row. cbn. rewrite id_decode_generation_Ok, decode_encode_profile, id_decode_u64_Ok by lia. cbn.
  rewrite <- Hk, <- Hkg, <- Hp, <- Hr. by destruct c.
Qed.

Lemma wp_load_custody i (Q : option KeyCustodyRecord -> IdDb -> Prop) :
  Q (snd <$> ai_custody a !! i) d -> wp (load_custody_by_idempotency i) Q X d.
Proof.
  intros HQ. unfold load_custody_by_idempotency. do 2 wp_pure. rewrite (is_custody_rows _ _ (is_receipts _ _ Hsim)), lookup_fmap.
  destruct (ai_custody a !! i) as [[r c]|] eqn:E; cbn [fmap option_fmap option_map fst snd] in *; [|by wp_pure]. wp_pure.
  eapply wp_lift_Ok; [by apply decode_custody_row_Ok|]. by wp_pure.
Qed.

Lemma decode_session_row_Ok i r s : ai_sessions a !! i = Some (r, s) -> decode_session_row i s = Ok (i, s).
Proof.
  intros E. destruct (is_sessions _ _ (is_receipts _ _ Hsim) _ _ _ E) as (_ & Hg & Hat & Hex & _ & _ & _ & Hkg & Hr & He).
  unfold decode_session_row. rewrite id_decode_generation_Ok, !id_decode_u64_Ok by lia. by destruct s.
Qed.

Lemma wp_load_session i (Q : option TrustedLocalSessionRecord -> IdDb -> Prop) :
  Q (snd <$> ai_sessions a !! i) d -> wp (load_session_by_idempotency i) Q X d.
Proof.
  intros HQ. unfold load_session_by_idempotency. do 2 wp_pure. rewrite (is_session_rows _ _ (is_receipts _ _ Hsim)), lookup_fmap.
  destruct (ai_sessions a !! i) as [[r c]|] eqn:E; cbn [fmap option_fmap option_map fst snd] in *; [|by wp_pure]. wp_pure.
  eapply wp_lift_Ok; [by eapply decode_session_row_Ok|]. by wp_pure.
Qed.

Lemma wp_custody_by_generation k g (Q : option (Z * KeyCustodyRecord) -> IdDb -> Prop) :
  (forall i r c, ai_custody a !! i = Some (r, c) -> rc_key_id r = k -> rc_expected_key_generation r = g -> Q (Some (i, c)) d) ->
  ((forall i e, ai_custody a !! i = Some e -> ~ (rc_key_id e.1 = k /\ rc_expected_key_generation e.1 = g)) -> Q None d) ->
  (i64_max < g -> X (IdCorrupt "u64 exceeds SQLite")) -> wp (load_custody_by_generation k g) Q X d.
Proof.
  intros HS HN HX. unfold load_custody_by_generation, id_encode_u64. wp_pure. case_decide as Hg; [|unfold wp, lift; apply HX; lia].
  eapply wp_lift_Ok; [done|]. do 2 wp_pure. rewrite (is_custody_rows _ _ (is_receipts _ _ Hsim)).
  destruct (first_row _ _) as [[i row]|] eqn:E.
  - apply first_row_Some in E as [Hi [Hk Hg']%bool_decide_eq_true]. apply lookup_fmap_Some in Hi as ([r c] & <- & Hi).
    wp_pure. eapply wp_lift_Ok; [by apply decode_custody_row_Ok|]. wp_pure. by eapply HS.
  - wp_pure. apply HN. intros i e Hi. pose proof (first_row_None _ _ E i (custody_row e)) as Hn.
    rewrite lookup_fmap, Hi in Hn. by apply bool_decide_eq_false in Hn.
Qed.

Lemma wp_session_by_id sid (Q : option (Z * TrustedLocalSessionRecord) -> IdDb -> Prop) :
  (forall i r s, ai_sessions a !! i = Some (r, s) -> rs_session_id r = sid -> Q (Some (i, s)) d) ->
  ((forall i e, ai_sessions a !! i = Some e -> rs_session_id e.1 <> sid) -> Q None d) ->
  wp (load_session_by_id sid) Q X d.
Proof.
  intros HS HN. unfold load_session_by_id. do 2 wp_pure. rewrite (is_session_rows _ _ (is_receipts _ _ Hsim)).
  destruct (first_row _ _) as [[i row]|] eqn:E.
  - apply first_row_Some in E as [Hi Hk%bool_decide_eq_true]. apply lookup_fmap_Some in Hi as ([r s] & <- & Hi).
    wp_pure. eapply wp_lift_Ok; [by eapply decode_session_row_Ok|]. wp_pure. eapply HS; [done|].
    destruct (is_sessions _ _ (is_receipts _ _ Hsim) _ _ _ Hi) as (_ & _ & _ & _ & Hid & _). cbn in Hk. congruence.
  - wp_pure. apply HN. intros i [r s] Hi. pose proof (first_row_None _ _ E i s) as Hn.
    rewrite lookup_fmap, Hi in Hn. specialize (Hn eq_refl). apply bool_decide_eq_false in Hn.
    destruct (is_sessions _ _ (is_receipts _ _ Hsim) _ _ _ Hi) as (_ & _ & _ & _ & Hid & _). cbn. congruence.
Qed.

Lemma wp_fenced k g s t (Q : IdentityBinding -> IdDb -> Prop) :
  (forall b, spec_fenced a k g s t = Ok b -> Q b d) -> (forall e, spec_fenced a k g s t = Err e -> X e) ->
  wp (fenced_binding k g s t) Q X d.
Proof.
  unfold spec_fenced, fenced_binding. intros HQ HX. wp_pure. apply wp_load_current. wp_pure.
  destruct (ai_current a !! k) as [b|]; [|by apply HX]. eapply wp_lift_Ok; [done|].
  repeat (case_decide; [wp_pure; by apply HX|]). wp_pure. by apply HQ.
Qed.

Lemma wp_not_revoked b k : ai_current a !! k = Some b -> ib_key_revoked_at_ms b = None ->
  forall Q : () -> IdDb -> Prop, Q () d -> wp (ensure_key_generation_not_revoked k (ib_key_generation b)) Q X d.
Proof.
  intros Hk Hr Q HQ. destruct (is_current _ _ Hsim _ _ Hk) as [<- Hst]. unfold ensure_key_generation_not_revoked, id_encode_u64.
  wp_pure. rewrite decide_True by apply Hst. eapply wp_lift_Ok; [done|]. do 2 wp_pure. rewrite (bs_version _ _ Hst). wp_pure.
  eapply wp_lift_Ok; [done|]. cbn [version_row kv_revoked_at_ms]. rewrite Hr. do 2 wp_pure.
  rewrite count_rows_zero; [rewrite decide_False by lia; by wp_pure|]. intros i row Hi. apply bool_decide_eq_false. intros [Hkey _].
  rewrite (is_revocations _ _ (is_receipts _ _ Hsim)) in Hi. apply lookup_fmap_Some in Hi as ([r rc] & <- & Hi).
  destruct (is_revoked _ _ (is_receipts _ _ Hsim) _ _ _ Hi) as (_ & _ & _ & _ & _ & _ & _ & b' & Hb' & Hn). cbn in Hkey. rewrite Hkey in Hb'. congruence.
Qed.

Lemma wp_live k g (Q : IdentityBinding -> IdDb -> Prop) :
  (forall b, spec_live a k g = Ok b -> Q b d) -> (forall e, spec_live a k g = Err e -> X e) -> wp (live_binding k g) Q X d.
Proof.
  unfold spec_live, live_binding. intros HQ HX. wp_pure. apply wp_load_current. wp_pure.
  destruct (ai_current a !! k) as [b|] eqn:Eb; [|by apply HX]. eapply wp_lift_Ok; [done|].
  case_decide as Hg; [wp_pure; by apply HX|]. case_decide as Hr; [wp_pure; by apply HX|]. wp_pure.
  subst g. apply (wp_not_revoked b); [done..|]. wp_pure. by apply HQ.
Qed.

(** A bootstrap is found again by its key. *)
Lemma wp_load_boot i (Q : option IdentityBinding -> IdDb -> Prop) :
  Q (snd <$> ai_boots a !! i) d -> wp (load_binding_by_bootstrap_key i) Q X d.
Proof.
  intros HQ. unfold load_binding_by_bootstrap_key, bootstrap_row. do 2 wp_pure.
  destruct (ai_boots a !! i) as [[r b]|] eqn:Ei.
  - destruct (is_boots _ _ Hsim _ _ _ Ei) as [<- Hbo]. pose proof Hbo as [Hb Hp (c & Hc & _) (h & Hh & Hhp & Hhd) (s & Hs & Hsd & Hsg) Hm Hv Hkb Hval _].
    rewrite (first_row_unique _ (id_principals d) (ib_principal_id b) _ Hp).
    2: { by apply bool_decide_eq_true. }
    2: { intros p' row' Hp' Hi%bool_decide_eq_true. destruct (is_principals _ _ Hsim _ _ Hp') as (r' & b' & Hi' & <-).
         rewrite Hi, Ei in Hi'. by simplify_eq. }
    cbn [mbind option_bind fst]. rewrite (first_row_unique _ (id_heads d) (ib_key_id b) h Hh).
    2: { by apply bool_decide_eq_true. }
    2: { intros k' h' Hh' Hp'%bool_decide_eq_true. apply (head_unique k' h' _ h); [done..|congruence]. }
    do 2 wp_pure. rewrite (first_row_unique _ (id_snapshots d) (ib_identity_snapshot_id b) s Hs).
    2: { apply bool_decide_eq_true. split; congruence. }
    2: { intros s' row' Hs' [Hd Hg]%bool_decide_eq_true. apply (is_snapshot_unique _ _ Hsim _ _ _ _ Hs' Hs); congruence. }
    unfold load_binding_at_snapshot, snapshot_row. do 2 wp_pure. rewrite Hs. cbn [mbind option_bind]. rewrite Hkb. cbn [mbind option_bind].
    rewrite Hh. cbn [mbind option_bind]. rewrite Hv. cbn [mbind option_bind]. rewrite Hhp, Hm. cbn [mbind option_bind].
    wp_pure. rewrite ?Hhp, Hhd, Hsg. eapply wp_lift_Ok; [|by wp_pure].
    pose proof (decode_binding_version_row b) as Hdec. rewrite Hb in Hdec |- *. apply Hdec; [done..|by rewrite <- Hb].
  - destruct (first_row _ (id_principals d)) as [[p row]|] eqn:E; [|cbn [mbind option_bind]; by wp_pure].
    apply first_row_Some in E as [Hp Hi%bool_decide_eq_true]. destruct (is_principals _ _ Hsim _ _ Hp) as (r & b & Hi' & _). congruence.
Qed.
End reads.

(** ** Writing *)

(** Tables that only grow. *)
Record grows (d d' : IdDb) : Prop := {
  gr_versions : id_versions d ⊆ id_versions d';
  gr_members : id_members d ⊆ id_members d';
  gr_bindings : id_bindings d ⊆ id_bindings d';
  gr_snapshots : id_snapshots d ⊆ id_snapshots d';
  gr_principals : id_principals d ⊆ id_principals d';
}.

Lemma binding_stored_mono d d' b : grows d d' ->
  id_heads d' !! ib_key_id b = id_heads d !! ib_key_id b ->
  id_domains d' !! ib_control_domain_id b = id_domains d !! ib_control_domain_id b ->
  binding_stored d b -> binding_stored d' b.
Proof.
  intros [Gv Gm Gb Gs Gp] Hh Hd [? ? ? ? Hv Hm Hb (s & Hs & Hsg) [p Hp] ?]. split; try done.
  - by rewrite Hh.
  - by rewrite Hd.
  - by eapply lookup_weaken.
  - by eapply lookup_weaken.
  - by eapply lookup_weaken.
  - exists s. split; [by eapply lookup_weaken|done].
  - exists p. by eapply lookup_weaken.
Qed.

Lemma boot_stored_mono {H : Sha256} d d' r b : grows d d' ->
  (forall h, id_heads d !! ib_key_id b = Some h -> exists h', id_heads d' !! ib_key_id b = Some h' /\
     kh_principal_id h' = kh_principal_id h /\ kh_control_domain_id h' = kh_control_domain_id h) ->
  (forall c, id_domains d !! ib_control_domain_id b = Some c -> exists c', id_domains d' !! ib_control_domain_id b = Some c' /\
     cd_policy_digest c' = cd_policy_digest c) ->
  boot_stored d r b -> boot_stored d' r b.
Proof.
  intros [Gv Gm Gb Gs Gp] Hh Hd [? Hp (c & Hc & Hpol) (h & Hhe & Hhp & Hhd) (s & Hs & Hsd & Hsg) Hm Hv Hb ? ?]. split; try done.
  - by eapply lookup_weaken.
  - destruct (Hd c Hc) as (c' & Hc' & Hpol'). exists c'. split; [done|congruence].
  - destruct (Hh h Hhe) as (h' & Hh' & Hp' & Hd'). exists h'. split; [done|split; congruence].
  - exists s. split; [by eapply lookup_weaken|done].
  - by eapply lookup_weaken.
  - by eapply lookup_weaken.
  - by eapply lookup_weaken.
Qed.

Lemma wp_encode v (Q : Z -> IdDb -> Prop) X d :
  (v <= i64_max -> Q v d) -> (i64_max < v -> X (IdCorrupt "u64 exceeds SQLite")) -> wp (lift (id_encode_u64 v)) Q X d.
Proof. unfold wp, lift, id_encode_u64. intros HQ HX. case_decide; [by apply HQ|apply HX; lia]. Qed.

Lemma wp_encode_ok v (Q : Z -> IdDb -> Prop) X d : v <= i64_max -> Q v d -> wp (lift (id_encode_u64 v)) Q X d.
Proof. intros Hv HQ. by apply wp_encode; [|lia]. Qed.

(** Reads a field of updated tables. *)
Ltac db_simpl :=
  cbn [set_field id_principals id_domains id_snapshots id_members id_heads id_versions id_bindings id_revocations id_rotations id_custody id_sessions id_user_version id_v1_tables id_rotation_objects id_custody_objects id_session_objects
       set_id_principals set_id_domains set_id_snapshots set_id_members set_id_heads set_id_versions set_id_bindings set_id_revocations set_id_rotations set_id_custody set_id_sessions set_id_user_version set_id_v1_tables set_id_rotation_objects set_id_custody_objects set_id_session_objects].

(** *** Moving a key to its next generation *)

(** The tables after the write set of a key change. *)
Definition advanced (d : IdDb) (b next : IdentityBinding) (at_ms kind policy : Z) (h : KeyHeadRow) (c : DomainRow) : IdDb :=
  d <| id_versions := <[(ib_key_id b, ib_key_generation next) := version_row next]> (id_versions d) |>
    <| id_snapshots := <[ib_identity_snapshot_id next :=
         {| sn_control_domain_id := ib_control_domain_id b; sn_generation := ib_snapshot_generation next;
            sn_prior_snapshot_id := Some (ib_identity_snapshot_id b); sn_policy_digest := policy;
            sn_effective_at_ms := at_ms; sn_change_kind := kind |}]> (id_snapshots d) |>
    <| id_members := <[(ib_identity_snapshot_id next, ib_principal_id b) := ()]> (id_members d) |>
    <| id_bindings := <[(ib_identity_snapshot_id next, ib_key_id b) := ib_key_generation next]> (id_bindings d) |>
    <| id_heads := <[ib_key_id b := h <| kh_current_generation := ib_key_generation next |>]> (id_heads d) |>
    <| id_domains := <[ib_control_domain_id b := c <| cd_current_snapshot_id := ib_identity_snapshot_id next |>
         <| cd_current_generation := ib_snapshot_generation next |> <| cd_updated_at_ms := at_ms |>]> (id_domains d) |>.

(** What a key change asks of the next binding. *)
Record succeeds (b next : IdentityBinding) : Prop := {
  sc_principal : ib_principal_id next = ib_principal_id b;
  sc_domain : ib_control_domain_id next = ib_control_domain_id b;
  sc_key : ib_key_id next = ib_key_id b;
  sc_key_generation : ib_key_generation next = ib_key_generation b + 1;
  sc_snapshot_generation : ib_snapshot_generation next = ib_snapshot_generation b + 1;
  sc_validity : 0 <= ib_key_valid_from_ms next <= ib_key_valid_until_ms next;
  sc_revoked : match ib_key_revoked_at_ms next with Some r => ib_key_valid_from_ms next <= r | None => True end;
}.

Definition too_big (b next : IdentityBinding) (at_ms : Z) : Prop :=
  i64_max < ib_key_generation next \/ i64_max < ib_key_valid_until_ms next \/ i64_max < at_ms \/
  match ib_key_revoked_at_ms next with Some r => i64_max < r | None => False end.

Section advance.
Context {H : Sha256} {d : IdDb} {a : AbsIdentity} (Hsim : id_sim d a).
Context {b next : IdentityBinding} (Hb : ai_current a !! ib_key_id b = Some b) (Hn : succeeds b next).

Lemma wp_insert_next_version (Q : () -> IdDb -> Prop) X :
  (ib_key_generation next <= i64_max -> validity_ok next ->
   Q () (d <| id_versions := <[(ib_key_id b, ib_key_generation next) := version_row next]> (id_versions d) |>)) ->
  ((forall at_ms, too_big b next at_ms) -> X (IdCorrupt "u64 exceeds SQLite")) -> wp (insert_key_version next) Q X d.
Proof.
  intros HQ HX. destruct Hn as [_ _ Hk Hg _ Hv Hr]. destruct (is_current _ _ Hsim _ _ Hb) as [_ Hst].
  unfold insert_key_version, too_big in *. wp_pure. apply wp_encode; [intros Hg'|intros; apply HX; auto].
  wp_pure. apply wp_encode; [intros Hf|intros; apply HX; intros; right; left; lia].
  wp_pure. apply wp_encode; [intros Hu|intros; apply HX; auto]. wp_pure.
  assert (Hval : match ib_key_revoked_at_ms next with Some r => r <= i64_max | None => True end -> validity_ok next).
  { intros Hr'. split; [done|split; [done|]]. destruct (ib_key_revoked_at_ms next); [lia|done]. }
  assert (Hrow : forall ro, ro = ib_key_revoked_at_ms next -> validity_ok next ->
    wp (insert_row id_versions (fun t x => x <| id_versions := t |>) refused
      (fun x => present (id_heads x) (ib_key_id next) && bool_decide (1 <= ib_key_generation next)
         && bool_decide (ib_key_valid_from_ms next <= ib_key_valid_until_ms next)
         && match ro with Some r => bool_decide (ib_key_valid_from_ms next <= r) | None => true end)
      (ib_key_id next, ib_key_generation next)
      {| kv_purpose := encode_purpose (ib_key_purpose next); kv_public_key := ib_public_key next;
         kv_valid_from_ms := ib_key_valid_from_ms next; kv_valid_until_ms := ib_key_valid_until_ms next;
         kv_revoked_at_ms := ro |}) Q X d).
  { intros ro -> Hok. apply wp_insert_row_ok; [| |by rewrite Hk; apply HQ].
    - destruct (id_versions d !! _) as [kv|] eqn:E; [|done]. destruct (is_versions _ _ Hsim _ _ _ E) as (b' & Hb' & Hle).
      rewrite Hk, Hb in Hb'. simplify_eq. lia.
    - pose proof (bs_generation _ _ Hst). rewrite !andb_true_iff, !bool_decide_eq_true. split; [split; [split|]|]; [|lia..|].
      + rewrite Hk. apply present_true. destruct (bs_head _ _ Hst) as [? Hh]. by eauto.
      + destruct (ib_key_revoked_at_ms next); [by apply bool_decide_eq_true|done]. }
  unfold id_encode_optional. destruct (ib_key_revoked_at_ms next) as [r|] eqn:Er; [|eapply wp_lift_Ok; [done|]; exact (Hrow None eq_refl (Hval I))].
  unfold id_encode_u64. destruct (decide (r <= i64_max)) as [Hle|Hle]; [eapply wp_lift_Ok; [reflexivity|]; exact (Hrow (Some r) eq_refl (Hval Hle))|].
  unfold wp, lift. apply HX. intros. right. right. right. lia.
Qed.

Lemma next_snapshot_allowed d1 :
  id_domains d1 = id_domains d -> id_snapshots d1 = id_snapshots d -> forall kind, 1 <= kind <= 3 ->
  present (id_domains d1) (ib_control_domain_id b) && present (id_snapshots d1) (ib_identity_snapshot_id b)
  && negb (any_row (fun _ s => bool_decide (sn_control_domain_id s = ib_control_domain_id b /\
                                            sn_generation s = ib_snapshot_generation next)) (id_snapshots d1))
  && bool_decide (1 <= ib_snapshot_generation next /\ (ib_snapshot_generation next = 1 <-> Some (ib_identity_snapshot_id b) = None))
  && bool_decide (1 <= kind <= 3) = true.
Proof.
  intros -> -> kind Hkind. destruct (is_current _ _ Hsim _ _ Hb) as [_ Hst]. destruct Hn as [_ _ _ _ Hg _ _].
  pose proof (bs_generation _ _ Hst) as Hr. pose proof (bs_same_generation _ _ Hst) as Hs.
  rewrite !andb_true_iff, negb_true_iff, !bool_decide_eq_true, any_row_false, !present_true. repeat split; try lia; try done.
  - destruct (bs_domain _ _ Hst) as (c & Hc & _). by exists c.
  - destruct (bs_snapshot _ _ Hst) as (s & Hs' & _). by exists s.
  - intros s row Hrow. apply bool_decide_eq_false. intros [Hd Hsg].
    destruct (is_snapshots _ _ Hsim _ _ Hrow) as (k & b' & Hb' & Hd' & Hle).
    assert (k = ib_key_id b) as -> by (apply (is_unique _ _ Hsim _ b' _ b); [done..|left; congruence]).
    rewrite Hb in Hb'. simplify_eq. lia.
Qed.

Lemma wp_advance_key at_ms kind (Q : () -> IdDb -> Prop) X : 1 <= kind <= 3 ->
  (forall h c policy, id_heads d !! ib_key_id b = Some h -> id_domains d !! ib_control_domain_id b = Some c ->
     id_snapshots d !! ib_identity_snapshot_id next = None -> ib_key_generation next <= i64_max -> validity_ok next ->
     at_ms <= i64_max -> Q () (advanced d b next at_ms kind policy h c)) ->
  (too_big b next at_ms -> X (IdCorrupt "u64 exceeds SQLite")) ->
  (is_Some (id_snapshots d !! ib_identity_snapshot_id next) \/
   (exists c, id_domains d !! ib_control_domain_id b = Some c /\ at_ms < cd_created_at_ms c) -> X refused) ->
  wp (advance_key b next at_ms kind) Q X d.
Proof.
  intros Hkind HQ HX HR. destruct (is_current _ _ Hsim _ _ Hb) as [_ Hst]. pose proof Hn as [Hp Hd Hk Hg Hsg _ _].
  destruct (bs_head _ _ Hst) as [created Hh]. destruct (bs_domain _ _ Hst) as (c & Hc & Hcs & Hcg).
  pose proof (bs_same_generation _ _ Hst) as Hsame. pose proof (bs_generation _ _ Hst) as Hrange.
  unfold advance_key, load_domain_policy. do 3 wp_pure. rewrite Hc. wp_pure. eapply wp_lift_Ok; [done|]. wp_pure. wp_pure.
  apply wp_insert_next_version; [intros Hgen Hval|intros Hbig; apply HX, Hbig]. wp_pure. unfold insert_snapshot.
  wp_pure. apply wp_encode_ok; [lia|]. wp_pure. apply wp_encode; [intros Hat|intros; apply HX; right; right; by left].
  destruct (id_snapshots d !! ib_identity_snapshot_id next) as [row|] eqn:Efresh.
  { apply wp_insert_row; [db_simpl; congruence|]. apply HR. left. by eexists. }
  apply wp_insert_row_ok; [done|by apply next_snapshot_allowed|]. wp_pure.
  apply wp_insert_row_ok; db_simpl.
  { destruct (id_members d !! _) as [u|] eqn:E; [|done]. destruct (is_members _ _ Hsim _ _ _ E). congruence. }
  { rewrite andb_true_iff, !present_true. split; [eexists; apply lookup_insert_eq|apply Hst]. }
  wp_pure. apply wp_encode_ok; [done|]. wp_pure. apply wp_insert_row_ok; db_simpl.
  { destruct (id_bindings d !! _) as [u|] eqn:E; [|done]. destruct (is_bindings _ _ Hsim _ _ _ E). congruence. }
  { rewrite andb_true_iff, !present_true. split; eexists; apply lookup_insert_eq. }
  wp_pure. apply wp_encode_ok; [done|]. wp_pure. apply wp_encode_ok; [lia|]. wp_pure. unfold update_head. do 2 wp_pure.
  db_simpl. rewrite Hh. cbn [kh_current_generation]. rewrite decide_False by (intros Hx; by apply Hx). do 3 wp_pure.
  rewrite decide_False by (intros Hx; by apply Hx). wp_pure. apply wp_encode_ok; [lia|]. wp_pure. apply wp_encode_ok; [done|].
  wp_pure. apply wp_encode_ok; [lia|]. wp_pure. unfold update_domain. do 2 wp_pure. db_simpl. rewrite Hc.
  rewrite decide_False by (rewrite Hcs, Hcg; tauto). do 2 wp_pure. db_simpl.
  rewrite (proj2 (any_row_false _ _)); cycle 1.
  { intros dm c' Hc'. apply bool_decide_eq_false. intros [_ Heq]. destruct (is_domains _ _ Hsim _ _ Hc') as (k' & b' & Hb' & <-).
    destruct (is_current _ _ Hsim _ _ Hb') as [_ Hst']. destruct (bs_domain _ _ Hst') as (c2 & Hc2 & Hcur & _).
    destruct (bs_snapshot _ _ Hst') as (s & Hs & _). congruence. }
  case_decide as Hcr; [wp_pure; apply HR; right; by exists c|]. do 3 wp_pure. rewrite decide_False by (intros Hx; by apply Hx).
  wp_pure. by apply HQ.
Qed.

Section after.
Context (h : KeyHeadRow) (c : DomainRow) (at_ms kind policy : Z).
Context (Hh : id_heads d !! ib_key_id b = Some h) (Hc : id_domains d !! ib_control_domain_id b = Some c).
Context (Hfresh : id_snapshots d !! ib_identity_snapshot_id next = None).
Context (Hgen : ib_key_generation next <= i64_max) (Hval : validity_ok next).
Let d' := advanced d b next at_ms kind policy h c.

Lemma advanced_grows : grows d d'.
Proof.
  split; unfold d', advanced; db_simpl; [apply insert_subseteq..|done].
  - destruct (id_versions d !! _) as [kv|] eqn:E; [|done]. destruct (is_versions _ _ Hsim _ _ _ E) as (b' & Hb' & Hle).
    destruct Hn as [_ _ _ Hg _ _ _]. rewrite Hb in Hb'. simplify_eq. lia.
  - destruct (id_members d !! _) as [u|] eqn:E; [|done]. destruct (is_members _ _ Hsim _ _ _ E). congruence.
  - destruct (id_bindings d !! _) as [u|] eqn:E; [|done]. destruct (is_bindings _ _ Hsim _ _ _ E). congruence.
  - done.
Qed.

Lemma advanced_next : binding_stored d' next.
Proof.
  destruct (is_current _ _ Hsim _ _ Hb) as [_ Hst]. pose proof Hn as [Hp Hd Hk Hg Hsg _ _]. destruct (bs_head _ _ Hst) as [created Hh'].
  pose proof (bs_same_generation _ _ Hst). pose proof (bs_generation _ _ Hst). rewrite Hh in Hh'. simplify_eq.
  split; unfold d', advanced; db_simpl; rewrite ?Hp, ?Hd, ?Hk; try lia.
  - exists created. rewrite lookup_insert_eq. by rewrite Hg.
  - eexists. rewrite lookup_insert_eq. by rewrite Hsg.
  - apply lookup_insert_eq.
  - apply lookup_insert_eq.
  - apply lookup_insert_eq.
  - eexists. split; [apply lookup_insert_eq|done].
  - apply Hst.
  - done.
Qed.

Lemma advanced_others k b' : k <> ib_key_id b -> ai_current a !! k = Some b' -> binding_stored d b' -> binding_stored d' b'.
Proof.
  intros Hne Hb' Hst. destruct (is_current _ _ Hsim _ _ Hb') as [Hk _]. eapply binding_stored_mono; [apply advanced_grows| | |done]; unfold d', advanced; db_simpl.
  - apply lookup_insert_ne. congruence.
  - apply lookup_insert_ne. intros Hd. apply Hne. apply (is_unique _ _ Hsim _ b' _ b); [done..|by left].
Qed.

Lemma advanced_boots r b' : boot_stored d r b' -> boot_stored d' r b'.
Proof.
  apply boot_stored_mono; [apply advanced_grows|..]; unfold d', advanced; db_simpl.
  - intros h' Hh'. destruct (decide (ib_key_id b' = ib_key_id b)) as [Heq|Hne].
    + rewrite Heq in Hh' |- *. rewrite lookup_insert_eq. rewrite Hh in Hh'. simplify_eq. by eexists.
    + rewrite lookup_insert_ne by done. by eexists.
  - intros c' Hc'. destruct (decide (ib_control_domain_id b' = ib_control_domain_id b)) as [Heq|Hne].
    + rewrite Heq in Hc' |- *. rewrite lookup_insert_eq. rewrite Hc in Hc'. simplify_eq. by eexists.
    + rewrite lookup_insert_ne by done. by eexists.
Qed.

(** A key that has moved on is still one key of its domain. *)
Lemma current_after k b' : <[ib_key_id b := next]> (ai_current a) !! k = Some b' ->
  exists b0, ai_current a !! k = Some b0 /\ ib_control_domain_id b' = ib_control_domain_id b0 /\
    ib_principal_id b' = ib_principal_id b0 /\ ib_key_generation b0 <= ib_key_generation b' /\
    ib_snapshot_generation b0 <= ib_snapshot_generation b'.
Proof.
  destruct Hn as [Hp Hd _ Hg Hsg _ _]. intros [[<- <-]|[Hne Hk]]%lookup_insert_Some.
  - exists b. repeat split; [done..|lia|lia].
  - exists b'. repeat split; done || lia.
Qed.

Lemma current_before k b0 : ai_current a !! k = Some b0 ->
  exists b', <[ib_key_id b := next]> (ai_current a) !! k = Some b' /\ ib_control_domain_id b' = ib_control_domain_id b0 /\
    ib_key_generation b0 <= ib_key_generation b' /\ ib_snapshot_generation b0 <= ib_snapshot_generation b'.
Proof.
  destruct Hn as [Hp Hd _ Hg Hsg _ _]. intros Hk. destruct (decide (k = ib_key_id b)) as [->|Hne].
  - rewrite lookup_insert_eq. rewrite Hb in Hk. simplify_eq. exists next. repeat split; done || lia.
  - rewrite lookup_insert_ne by done. exists b0. repeat split; done || lia.
Qed.

Lemma advanced_snapshot s row : id_snapshots d' !! s = Some row ->
  (s = ib_identity_snapshot_id next /\ sn_control_domain_id row = ib_control_domain_id b /\
   sn_generation row = ib_snapshot_generation next) \/ (s <> ib_identity_snapshot_id next /\ id_snapshots d !! s = Some row).
Proof. unfold d', advanced; db_simpl. intros [[<- <-]|[Hne Hs]]%lookup_insert_Some; [by left|by right]. Qed.

Lemma advanced_snapshots s row : id_snapshots d' !! s = Some row -> exists k b', <[ib_key_id b := next]> (ai_current a) !! k = Some b' /\
    ib_control_domain_id b' = sn_control_domain_id row /\ sn_generation row <= ib_snapshot_generation b'.
Proof.
  intros [(-> & Hd & Hg)|[_ Hs]]%advanced_snapshot.
  - exists (ib_key_id b), next. rewrite lookup_insert_eq, Hd, Hg. split; [done|]. split; [apply Hn|lia].
  - destruct (is_snapshots _ _ Hsim _ _ Hs) as (k & b0 & Hk & Hd & Hg). destruct (current_before k b0 Hk) as (b' & Hb' & Hd' & _ & Hle).
    exists k, b'. split; [done|]. split; [congruence|lia].
Qed.

Lemma advanced_snapshot_unique s1 r1 s2 r2 : id_snapshots d' !! s1 = Some r1 -> id_snapshots d' !! s2 = Some r2 ->
  sn_control_domain_id r1 = sn_control_domain_id r2 -> sn_generation r1 = sn_generation r2 -> s1 = s2.
Proof.
  assert (Hnew : forall s row, id_snapshots d !! s = Some row -> sn_control_domain_id row = ib_control_domain_id b ->
    sn_generation row <> ib_snapshot_generation next).
  { intros s row Hs Hd. destruct (is_snapshots _ _ Hsim _ _ Hs) as (k & b0 & Hk & Hd0 & Hle).
    assert (k = ib_key_id b) as -> by (apply (is_unique _ _ Hsim _ b0 _ b); [done..|left; congruence]).
    rewrite Hb in Hk. destruct Hn as [_ _ _ _ Hsg _ _]. simplify_eq. lia. }
  intros [(-> & Hd1 & Hg1)|[_ Hs1]]%advanced_snapshot [(-> & Hd2 & Hg2)|[_ Hs2]]%advanced_snapshot Hd Hg; [done|..].
  - destruct (Hnew _ _ Hs2); congruence.
  - destruct (Hnew _ _ Hs1); congruence.
  - by eapply (is_snapshot_unique _ _ Hsim).
Qed.

Lemma advanced_sim : ib_key_revoked_at_ms b = None ->
  id_sim d' (a <| ai_current := <[ib_key_id b := next]> (ai_current a) |>).
Proof.
  intros Hlive. pose proof Hn as [_ Hd Hk Hg _ _ _]. pose proof advanced_grows as [Gv Gm Gb Gs Gp]. destruct Hsim.
  split; try done; cbn [ai_current ai_boots ai_revoked set_field set_ai_current].
  - intros k b' [[<- <-]|[Hne Hb']]%lookup_insert_Some; [split; [done|apply advanced_next]|].
    destruct (is_current0 _ _ Hb') as [<- Hst]. split; [done|by eapply advanced_others].
  - intros k [Hne Hnone]%lookup_insert_None. unfold d', advanced; db_simpl. rewrite lookup_insert_ne by done. by apply is_heads0.
  - intros k1 b1 k2 b2 (b1' & H1 & Hd1 & Hp1 & _)%current_after (b2' & H2 & Hd2 & Hp2 & _)%current_after.
    rewrite Hd1, Hd2, Hp1, Hp2. by apply (is_unique0 _ _ _ _ H1 H2).
  - intros dm c' Hc'. unfold d', advanced in Hc'; revert Hc'; db_simpl. intros [[<- _]|[_ Hc']]%lookup_insert_Some.
    + exists (ib_key_id b), next. by rewrite lookup_insert_eq.
    + destruct (is_domains0 _ _ Hc') as (k & b0 & Hk0 & <-). destruct (current_before k b0 Hk0) as (b' & Hb' & <- & _). by exists k, b'.
  - intros s p u Hm. unfold d', advanced in Hm |- *; revert Hm; db_simpl. intros [[[= <- <-] _]|[_ Hm]]%lookup_insert_Some.
    + eexists. apply lookup_insert_eq.
    + destruct (is_members0 _ _ _ Hm) as [row Hrow]. exists row. exact (lookup_weaken _ _ _ _ Hrow Gs).
  - intros s k g Hm. unfold d', advanced in Hm |- *; revert Hm; db_simpl. intros [[[= <- <-] _]|[_ Hm]]%lookup_insert_Some.
    + eexists. apply lookup_insert_eq.
    + destruct (is_bindings0 _ _ _ Hm) as [row Hrow]. exists row. exact (lookup_weaken _ _ _ _ Hrow Gs).
  - intros k g kv Hv. unfold d', advanced in Hv; revert Hv; db_simpl. intros [[[= <- <-] _]|[_ Hv]]%lookup_insert_Some.
    + exists next. by rewrite lookup_insert_eq.
    + destruct (is_versions0 _ _ _ Hv) as (b0 & Hb0 & Hle). destruct (current_before k b0 Hb0) as (b' & Hb' & _ & Hg' & _).
      exists b'. split; [done|lia].
  - apply advanced_snapshots.
  - apply advanced_snapshot_unique.
  - intros i r b' Hi. destruct (is_boots0 _ _ _ Hi) as [Hr Hbo]. split; [done|by apply advanced_boots].
  - destruct is_receipts0. split; try done; cbn [ai_current ai_revoked set_field set_ai_current].
    intros i r rc Hi. destruct (is_revoked0 _ _ _ Hi) as (? & ? & ? & ? & ? & ? & ? & b' & Hb' & Hr). repeat (split; [done|]).
    exists b'. split; [|done]. rewrite lookup_insert_ne; [done|]. intros Heq. rewrite <- Heq, Hb in Hb'. by simplify_eq.
Qed.
End after.
End advance.

(** Registering an answer changes only its own table. *)
Lemma sim_receipts {H : Sha256} d d' a a' : id_sim d a ->
  id_user_version d' = id_user_version d -> id_principals d' = id_principals d -> id_domains d' = id_domains d ->
  id_snapshots d' = id_snapshots d -> id_members d' = id_members d -> id_heads d' = id_heads d ->
  id_versions d' = id_versions d -> id_bindings d' = id_bindings d ->
  ai_current a' = ai_current a -> ai_boots a' = ai_boots a -> receipts_sim d' a' -> id_sim d' a'.
Proof.
  intros [] Eu Ep Ed Es Em Eh Ev Eb Ec Ebo Hr.
  assert (Hg : grows d d') by (split; by rewrite ?Ep, ?Es, ?Em, ?Ev, ?Eb).
  split; rewrite ?Ec, ?Ebo, ?Eu, ?Ep, ?Ed, ?Es, ?Em, ?Eh, ?Ev, ?Eb; try done.
  - intros k b Hk. destruct (is_current0 k b Hk) as [? Hst]. split; [done|]. eapply binding_stored_mono; [done|by rewrite Eh|by rewrite Ed|done].
  - intros i r b Hi. destruct (is_boots0 i r b Hi) as [? Hbo]. split; [done|].
    eapply boot_stored_mono; [done|rewrite Eh; by eauto|rewrite Ed; by eauto|done].
Qed.

Section answers.
Context {H : Sha256} {d : IdDb} {a : AbsIdentity} (Hsim : id_sim d a).

Lemma sim_add_revocation i r rc :
  rk_idempotency_key r = i -> 0 <= rk_revoked_at_ms r -> 1 <= rk_expected_key_generation r ->
  kr_key_id rc = rk_key_id r -> kr_revoked_at_ms rc = rk_revoked_at_ms r ->
  kr_resulting_key_generation rc = rk_expected_key_generation r + 1 -> 1 <= kr_snapshot_generation rc ->
  (exists b, ai_current a !! rk_key_id r = Some b /\ ib_key_revoked_at_ms b <> None) ->
  id_sim (d <| id_revocations := <[i := revocation_row (r, rc)]> (id_revocations d) |>)
    (a <| ai_revoked := <[i := (r, rc)]> (ai_revoked a) |>).
Proof.
  intros. eapply sim_receipts; [done..|]. destruct (is_receipts _ _ Hsim). split; try done; cbn.
  - by rewrite fmap_insert, is_revocations0.
  - intros i' r' rc' [[<- [= <- <-]]|[_ Hi]]%lookup_insert_Some; [by repeat (split; [done|])|by apply is_revoked0].
Qed.

Lemma sim_add_rotation i r rt :
  ro_idempotency_key r = i -> 0 <= ro_rotated_at_ms r -> 1 <= ro_expected_key_generation r ->
  0 <= ro_new_valid_from_ms r -> 0 <= ro_new_valid_until_ms r ->
  kt_key_id rt = ro_key_id r -> kt_new_public_key rt = ro_new_public_key r ->
  kt_new_valid_from_ms rt = ro_new_valid_from_ms r -> kt_new_valid_until_ms rt = ro_new_valid_until_ms r ->
  kt_rotated_at_ms rt = ro_rotated_at_ms r ->
  kt_resulting_key_generation rt = ro_expected_key_generation r + 1 -> 1 <= kt_snapshot_generation rt ->
  id_sim (d <| id_rotations := <[i := rotation_row (r, rt)]> (id_rotations d) |>)
    (a <| ai_rotated := <[i := (r, rt)]> (ai_rotated a) |>).
Proof.
  intros. eapply sim_receipts; [done..|]. destruct (is_receipts _ _ Hsim). split; try done; cbn.
  - by rewrite fmap_insert, is_rotations0.
  - intros i' r' rc' [[<- [= <- <-]]|[_ Hi]]%lookup_insert_Some; [by repeat (split; [done|])|by apply is_rotated0].
Qed.

Lemma sim_add_custody b r : 1 <= rc_expected_key_generation r -> 0 <= rc_registered_at_ms r ->
  id_sim (d <| id_custody := <[rc_idempotency_key r := custody_row (r, custody_record b r)]> (id_custody d) |>)
    (a <| ai_custody := <[rc_idempotency_key r := (r, custody_record b r)]> (ai_custody a) |>).
Proof.
  intros. eapply sim_receipts; [done..|]. destruct (is_receipts _ _ Hsim). split; try done; cbn.
  - by rewrite fmap_insert, is_custody_rows0.
  - intros i' r' rc' [[<- [= <- <-]]|[_ Hi]]%lookup_insert_Some; [by repeat (split; [done|])|by apply is_custody0].
Qed.

Lemma sim_add_session b r : ib_key_generation b = rs_expected_key_generation r ->
  1 <= rs_expected_key_generation r -> 0 <= rs_registered_at_ms r -> 0 <= rs_expires_at_ms r ->
  id_sim (d <| id_sessions := <[rs_idempotency_key r := session_record b r]> (id_sessions d) |>)
    (a <| ai_sessions := <[rs_idempotency_key r := (r, session_record b r)]> (ai_sessions a) |>).
Proof.
  intros. eapply sim_receipts; [done..|]. destruct (is_receipts _ _ Hsim). split; try done; cbn.
  - by rewrite fmap_insert, is_session_rows0.
  - intros i' r' rc' [[<- [= <- <-]]|[_ Hi]]%lookup_insert_Some; [by repeat (split; [done|])|by apply is_sessions0].
Qed.
End answers.

(** *** Bootstrapping a principal *)

Section bootstrap.
Context {H : Sha256} {d : IdDb} {a : AbsIdentity} (Hsim : id_sim d a).
Context (r : BootstrapPrincipalRequest).
Let b := bootstrap_binding r.

(** The tables after the write set of a bootstrap. *)
Definition bootstrapped : IdDb :=
  d <| id_principals := <[ib_principal_id b :=
         {| pr_bootstrap_idempotency_key := br_idempotency_key r; pr_profile_digest := br_profile_digest r;
            pr_created_at_ms := br_created_at_ms r |}]> (id_principals d) |>
    <| id_domains := <[ib_control_domain_id b :=
         {| cd_current_snapshot_id := ib_identity_snapshot_id b; cd_current_generation := 1;
            cd_policy_digest := br_policy_digest r; cd_created_at_ms := br_created_at_ms r;
            cd_updated_at_ms := br_created_at_ms r |}]> (id_domains d) |>
    <| id_snapshots := <[ib_identity_snapshot_id b :=
         {| sn_control_domain_id := ib_control_domain_id b; sn_generation := 1; sn_prior_snapshot_id := None;
            sn_policy_digest := br_policy_digest r; sn_effective_at_ms := br_created_at_ms r;
            sn_change_kind := CHANGE_BOOTSTRAP |}]> (id_snapshots d) |>
    <| id_members := <[(ib_identity_snapshot_id b, ib_principal_id b) := ()]> (id_members d) |>
    <| id_heads := <[ib_key_id b :=
         {| kh_principal_id := ib_principal_id b; kh_control_domain_id := ib_control_domain_id b;
            kh_current_generation := 1; kh_created_at_ms := br_created_at_ms r |}]> (id_heads d) |>
    <| id_versions := <[(ib_key_id b, 1) := version_row b]> (id_versions d) |>
    <| id_bindings := <[(ib_identity_snapshot_id b, ib_key_id b) := 1]> (id_bindings d) |>.

(** An identifier the bootstrap derives is in use. *)
Definition boot_taken : Prop :=
  is_Some (id_principals d !! ib_principal_id b) \/ is_Some (id_domains d !! ib_control_domain_id b) \/
  is_Some (id_snapshots d !! ib_identity_snapshot_id b) \/ is_Some (id_heads d !! ib_key_id b).

Context (Hnew : ai_boots a !! br_idempotency_key r = None).
Context (Hcreated : 0 <= br_created_at_ms r) (Hvalid : 0 <= br_key_valid_from_ms r <= br_key_valid_until_ms r).

Section fresh.
Context (Fp : id_principals d !! ib_principal_id b = None) (Fd : id_domains d !! ib_control_domain_id b = None).
Context (Fs : id_snapshots d !! ib_identity_snapshot_id b = None) (Fh : id_heads d !! ib_key_id b = None).

Lemma fresh_member p : id_members d !! (ib_identity_snapshot_id b, p) = None.
Proof. destruct (id_members d !! _) as [u|] eqn:E; [|done]. destruct (is_members _ _ Hsim _ _ _ E). congruence. Qed.

Lemma fresh_binding k : id_bindings d !! (ib_identity_snapshot_id b, k) = None.
Proof. destruct (id_bindings d !! _) as [u|] eqn:E; [|done]. destruct (is_bindings _ _ Hsim _ _ _ E). congruence. Qed.

Lemma fresh_version g : id_versions d !! (ib_key_id b, g) = None.
Proof.
  destruct (id_versions d !! _) as [kv|] eqn:E; [|done]. destruct (is_versions _ _ Hsim _ _ _ E) as (b' & Hb' & _).
  destruct (is_current _ _ Hsim _ _ Hb') as [Hk Hst]. destruct (bs_head _ _ Hst) as [c Hh]. congruence.
Qed.

Lemma fresh_key : ai_current a !! ib_key_id b = None.
Proof.
  destruct (ai_current a !! _) as [b'|] eqn:E; [|done]. destruct (is_current _ _ Hsim _ _ E) as [Hk Hst].
  destruct (bs_head _ _ Hst) as [c Hh]. congruence.
Qed.

(** No key is bound to the new domain or the new principal. *)
Lemma fresh_owner k b' : ai_current a !! k = Some b' ->
  ib_control_domain_id b' <> ib_control_domain_id b /\ ib_principal_id b' <> ib_principal_id b.
Proof.
  intros Hk. destruct (is_current _ _ Hsim _ _ Hk) as [_ Hst]. destruct (bs_domain _ _ Hst) as (c & Hc & _).
  destruct (bs_principal _ _ Hst) as [p Hp]. split; congruence.
Qed.

Lemma bootstrapped_grows : grows d bootstrapped.
Proof.
  split; unfold bootstrapped; db_simpl; apply insert_subseteq.
  - apply fresh_version.
  - apply fresh_member.
  - apply fresh_binding.
  - done.
  - done.
Qed.

Lemma bootstrapped_new : br_key_valid_until_ms r <= i64_max -> binding_stored bootstrapped b.
Proof.
  intros Hu. split; unfold bootstrapped; db_simpl; rewrite ?lookup_insert_eq; try by eexists; try done.
Qed.

Lemma bootstrapped_others k b' : ai_current a !! k = Some b' -> binding_stored bootstrapped b'.
Proof.
  intros Hk. destruct (is_current _ _ Hsim _ _ Hk) as [<- Hst]. destruct (fresh_owner _ _ Hk) as [Hd _].
  eapply binding_stored_mono; [apply bootstrapped_grows|..|done]; unfold bootstrapped; db_simpl; apply lookup_insert_ne; [|done].
  intros Heq. pose proof fresh_key as Hf. rewrite Heq in Hf. congruence.
Qed.

Lemma bootstrapped_boots r' b' : boot_stored d r' b' -> boot_stored bootstrapped r' b'.
Proof.
  intros Hbo. pose proof Hbo as [_ _ (c & Hc & _) (h & Hh & _) _ _ _ _ _ _].
  eapply boot_stored_mono; [apply bootstrapped_grows|..|done]; unfold bootstrapped; db_simpl; intros x Hx; exists x.
  - split; [|done]. rewrite lookup_insert_ne; congruence.
  - split; [|done]. rewrite lookup_insert_ne; congruence.
Qed.

Lemma bootstrapped_sim : br_key_valid_until_ms r <= i64_max ->
  id_sim bootstrapped (a <| ai_current := <[ib_key_id b := b]> (ai_current a) |>
                         <| ai_boots := <[br_idempotency_key r := (r, b)]> (ai_boots a) |>).
Proof.
  intros Hu. pose proof fresh_key as Hfk. pose proof fresh_owner as Hfo. pose proof bootstrapped_grows as [Gv Gm Gb Gs Gp].
  pose proof bootstrapped_others as Hothers. pose proof bootstrapped_boots as Hboots.
  assert (Hcur : forall k b', ai_current a !! k = Some b' -> <[ib_key_id b := b]> (ai_current a) !! k = Some b').
  { intros k b' Hk. rewrite lookup_insert_ne; [done|]. congruence. }
  destruct Hsim. split; try done; cbn [ai_current ai_boots set_field set_ai_current set_ai_boots].
  - intros k b' [[<- <-]|[Hne Hb']]%lookup_insert_Some; [split; [done|by apply bootstrapped_new]|].
    split; [by apply is_current0|by eapply Hothers].
  - intros k [Hne Hnone]%lookup_insert_None. unfold bootstrapped; db_simpl. rewrite lookup_insert_ne by done. by apply is_heads0.
  - intros k1 b1 k2 b2 [[<- <-]|[_ H1]]%lookup_insert_Some [[<- <-]|[_ H2]]%lookup_insert_Some; [done|..].
    + destruct (Hfo _ _ H2). by intros [?|?]; destruct (Hfo _ _ H2).
    + by intros [?|?]; destruct (Hfo _ _ H1).
    + by apply (is_unique0 _ _ _ _ H1 H2).
  - intros dm c. unfold bootstrapped; db_simpl. intros [[<- _]|[_ Hc]]%lookup_insert_Some.
    + exists (ib_key_id b), b. by rewrite lookup_insert_eq.
    + destruct (is_domains0 _ _ Hc) as (k & b' & Hk & <-). exists k, b'. auto.
  - intros s p u. unfold bootstrapped; db_simpl. intros [[[= <- <-] _]|[_ Hm]]%lookup_insert_Some.
    + eexists. apply lookup_insert_eq.
    + destruct (is_members0 _ _ _ Hm) as [row Hrow]. exists row. exact (lookup_weaken _ _ _ _ Hrow Gs).
  - intros s k g. unfold bootstrapped; db_simpl. intros [[[= <- <-] _]|[_ Hm]]%lookup_insert_Some.
    + eexists. apply lookup_insert_eq.
    + destruct (is_bindings0 _ _ _ Hm) as [row Hrow]. exists row. exact (lookup_weaken _ _ _ _ Hrow Gs).
  - intros k g kv. unfold bootstrapped; db_simpl. intros [[[= <- <-] _]|[_ Hv]]%lookup_insert_Some.
    + exists b. by rewrite lookup_insert_eq.
    + destruct (is_versions0 _ _ _ Hv) as (b' & Hb' & Hle). exists b'. auto.
  - intros s row. unfold bootstrapped; db_simpl. intros [[<- <-]|[_ Hs]]%lookup_insert_Some.
    + exists (ib_key_id b), b. by rewrite lookup_insert_eq.
    + destruct (is_snapshots0 _ _ Hs) as (k & b' & Hk & Hd & Hle). exists k, b'. auto.
  - intros s1 r1 s2 r2. unfold bootstrapped; db_simpl.
    intros [[<- <-]|[_ H1]]%lookup_insert_Some [[<- <-]|[_ H2]]%lookup_insert_Some; cbn [sn_control_domain_id sn_generation]; intros Hdd Hgg;
      [done|..|by eapply is_snapshot_unique0].
    + destruct (is_snapshots0 _ _ H2) as (k & b' & Hk & Hd & _). destruct (Hfo _ _ Hk). congruence.
    + destruct (is_snapshots0 _ _ H1) as (k & b' & Hk & Hd & _). destruct (Hfo _ _ Hk). congruence.
  - intros p row. unfold bootstrapped; db_simpl. intros [[<- <-]|[_ Hp]]%lookup_insert_Some; cbn.
    + exists r, b. by rewrite lookup_insert_eq.
    + destruct (is_principals0 _ _ Hp) as (r' & b' & Hi & <-). exists r', b'. rewrite lookup_insert_ne; [done|congruence].
  - intros i r' b' [[<- [= <- <-]]|[_ Hi]]%lookup_insert_Some; [split; [done|]|].
    + split; unfold bootstrapped; db_simpl; rewrite ?lookup_insert_eq; try done; by eexists.
    + destruct (is_boots0 _ _ _ Hi). split; [done|by apply Hboots].
  - destruct is_receipts0. split; try done; cbn. intros i r' rc Hi.
    destruct (is_revoked0 _ _ _ Hi) as (? & ? & ? & ? & ? & ? & ? & b' & Hb' & Hr). repeat (split; [done|]). exists b'. auto.
Qed.
End fresh.

Definition boot_numbers : list Z := [br_created_at_ms r; br_key_valid_from_ms r; br_key_valid_until_ms r].

Lemma fresh_domain_snapshot : id_snapshots d !! ib_identity_snapshot_id b = None ->
  any_row (fun _ c => bool_decide (cd_current_snapshot_id c = ib_identity_snapshot_id b)) (id_domains d) = false.
Proof.
  intros Fs. apply any_row_false. intros dm c Hc. apply bool_decide_eq_false. intros Heq.
  destruct (is_domains _ _ Hsim _ _ Hc) as (k & b' & Hk & <-). destruct (is_current _ _ Hsim _ _ Hk) as [_ Hst].
  destruct (bs_domain _ _ Hst) as (c' & Hc' & Hcur & _). destruct (bs_snapshot _ _ Hst) as (s & Hs & _). congruence.
Qed.

Lemma boot_snapshot_allowed d1 : id_snapshots d1 = id_snapshots d ->
  id_domains d !! ib_control_domain_id b = None -> present (id_domains d1) (ib_control_domain_id b) = true ->
  present (id_domains d1) (ib_control_domain_id b) && true
  && negb (any_row (fun _ s => bool_decide (sn_control_domain_id s = ib_control_domain_id b /\ sn_generation s = 1)) (id_snapshots d1))
  && bool_decide (1 <= 1 /\ (1 = 1 <-> (None : option Z) = None)) && bool_decide (1 <= CHANGE_BOOTSTRAP <= 3) = true.
Proof.
  intros -> Fd ->. rewrite !andb_true_iff, negb_true_iff. split; [split; [split; [done|]|by apply bool_decide_eq_true]|done].
  apply any_row_false. intros s row Hs. apply bool_decide_eq_false. intros [Hd _].
  destruct (is_snapshots _ _ Hsim _ _ Hs) as (k & b' & Hk & Hd' & _). destruct (is_current _ _ Hsim _ _ Hk) as [_ Hst].
  destruct (bs_domain _ _ Hst) as (c & Hc & _). congruence.
Qed.
End bootstrap.

(** ** The authority implements the abstract one *)

(** Requests carry u64 numbers. *)
Definition id_request_ok (q : IdRequest) : Prop :=
  match q with
  | IdBootstrap r => 0 <= br_key_valid_from_ms r /\ 0 <= br_created_at_ms r
  | IdRotate r => 0 <= ro_new_valid_from_ms r
  | IdCustody r => 0 <= rc_registered_at_ms r
  | IdSession r => 0 <= rs_registered_at_ms r
  | IdRevoke _ | IdReopen _ => True
  end.

(** The numbers a request has the authority store. *)
Definition id_numbers (q : IdRequest) : list Z :=
  match q with
  | IdBootstrap r => boot_numbers r
  | IdRevoke r => [rk_revoked_at_ms r; rk_expected_key_generation r + 1]
  | IdRotate r => [ro_rotated_at_ms r; ro_new_valid_until_ms r; ro_expected_key_generation r + 1]
  | IdCustody r => [rc_expected_key_generation r; rc_registered_at_ms r]
  | IdSession r => [rs_registered_at_ms r; rs_expires_at_ms r]
  | IdReopen _ => []
  end.

Section refines.
Context {H : Sha256} {E : Ed25519}.

(** An identifier the request derives is in use, or it dates a change before the
    creation of its domain. *)
Definition change_taken (d : IdDb) (a : AbsIdentity) (key_id idempotency_key at_ms : Z) : Prop :=
  exists b, ai_current a !! key_id = Some b /\
    (is_Some (id_snapshots d !! next_snapshot_id b idempotency_key) \/
     exists c, id_domains d !! ib_control_domain_id b = Some c /\ at_ms < cd_created_at_ms c).

Definition id_taken (d : IdDb) (a : AbsIdentity) (q : IdRequest) : Prop :=
  match q with
  | IdBootstrap r => boot_taken (d := d) r
  | IdRevoke r =>
      change_taken d a (rk_key_id r) (rk_idempotency_key r) (rk_revoked_at_ms r) \/
      (exists b i row, ai_current a !! rk_key_id r = Some b /\ id_revocations d !! i = Some row /\
         rv_receipt_id row = kr_receipt_id (revocation_receipt b r))
  | IdRotate r =>
      change_taken d a (ro_key_id r) (ro_idempotency_key r) (ro_rotated_at_ms r) \/
      (exists b i row, ai_current a !! ro_key_id r = Some b /\ id_rotations d !! i = Some row /\
         rt_receipt_id row = kt_receipt_id (rotation_receipt b r))
  | IdSession r =>
      exists b i row, ai_current a !! rs_key_id r = Some b /\ id_sessions d !! i = Some row /\
        ts_receipt_id row = ts_receipt_id (session_record b r)
  | IdCustody _ | IdReopen _ => False
  end.

Definition id_refusal (d : IdDb) (a : AbsIdentity) (q : IdRequest) (e : IdentityAuthorityError) : Prop :=
  (e = IdCorrupt "u64 exceeds SQLite" /\ Exists (fun x => i64_max < x) (id_numbers q)) \/
  (e = refused /\ id_taken d a q).

(** What a step keeps: a revoked key its binding, every key its owner and purpose, and
    the revocations there are. *)
Record keeps (a a' : AbsIdentity) : Prop := {
  ke_dead : forall k b, ai_current a !! k = Some b -> ib_key_revoked_at_ms b <> None -> ai_current a' !! k = Some b;
  ke_key : forall k b, ai_current a !! k = Some b -> exists b', ai_current a' !! k = Some b' /\
    ib_principal_id b' = ib_principal_id b /\ ib_control_domain_id b' = ib_control_domain_id b /\
    ib_key_purpose b' = ib_key_purpose b;
  ke_revoked : forall i e, ai_revoked a !! i = Some e -> ai_revoked a' !! i = Some e;
}.

Lemma keeps_same a a' : ai_current a' = ai_current a -> ai_revoked a' = ai_revoked a -> keeps a a'.
Proof. intros Hc Hr. split; rewrite ?Hc, ?Hr; eauto. Qed.

Lemma keeps_trans a1 a2 a3 : keeps a1 a2 -> keeps a2 a3 -> keeps a1 a3.
Proof.
  intros [D1 K1 R1] [D2 K2 R2]. split; eauto. intros k b (b' & Hb' & Hp & Hd & Hu)%K1.
  destruct (K2 k b' Hb') as (b'' & Hb'' & Hp' & Hd' & Hu'). exists b''. repeat split; congruence.
Qed.

(** A new key, or the next binding of a key that is not revoked. *)
Lemma keeps_insert a a' k next :
  ai_current a' = <[k := next]> (ai_current a) -> (forall i e, ai_revoked a !! i = Some e -> ai_revoked a' !! i = Some e) ->
  (forall b, ai_current a !! k = Some b -> ib_key_revoked_at_ms b = None /\ ib_principal_id next = ib_principal_id b /\
     ib_control_domain_id next = ib_control_domain_id b /\ ib_key_purpose next = ib_key_purpose b) -> keeps a a'.
Proof.
  intros Hc Hr Hk. split; rewrite ?Hc; [..|done].
  - intros k' b Hb Hd. rewrite lookup_insert_ne; [done|]. intros ->. by destruct (Hk b Hb).
  - intros k' b Hb. destruct (decide (k' = k)) as [->|Hne].
    + rewrite lookup_insert_eq. destruct (Hk b Hb) as (_ & ? & ? & ?). by eauto.
    + rewrite lookup_insert_ne by done. eauto 6.
Qed.

(** What an operation has to do against its specification [s]. *)
Definition implements {B} (d : IdDb) (a : AbsIdentity) (q : IdRequest) (m : id_tx B)
    (s : result IdentityAuthorityError (AbsIdentity * B)) : Prop :=
  wp m (fun x d' => exists a', s = Ok (a', x) /\ keeps a a' /\ id_sim d' a') (fun e => s = Err e \/ id_refusal d a q e) d.

Section steps.
Context {d : IdDb} {a : AbsIdentity} (Hsim : id_sim d a).

Lemma wp_insert_bootstrap r (Q : BootstrapDecision -> IdDb -> Prop) X :
  id_request_ok (IdBootstrap r) -> br_key_valid_from_ms r <= br_key_valid_until_ms r ->
  ai_boots a !! br_idempotency_key r = None ->
  (id_sim (bootstrapped (d := d) r) (a <| ai_current := <[ib_key_id (bootstrap_binding r) := bootstrap_binding r]> (ai_current a) |>
      <| ai_boots := <[br_idempotency_key r := (r, bootstrap_binding r)]> (ai_boots a) |>) ->
   ai_current a !! ib_key_id (bootstrap_binding r) = None ->
   Q (BootstrapCreated (bootstrap_binding r)) (bootstrapped (d := d) r)) ->
  (Exists (fun x => i64_max < x) (boot_numbers r) -> X (IdCorrupt "u64 exceeds SQLite")) ->
  (boot_taken (d := d) r -> X refused) ->
  wp (insert_bootstrap r) Q X d.
Proof.
  intros [Hf Hc] Hv Hnew HQ HX HR. unfold insert_bootstrap. set (b := bootstrap_binding r) in *. cbv zeta. wp_pure.
  apply wp_encode; [intros Hcr|intros; apply HX; by apply Exists_cons_hd]. wp_pure.
  destruct (id_principals d !! ib_principal_id b) as [p|] eqn:Fp; [apply wp_insert_row; [congruence|apply HR; left; by eexists]|].
  apply wp_insert_row_ok; [done| |].
  { apply negb_true_iff, any_row_false. intros p row Hp. apply bool_decide_eq_false. intros Heq. cbn in Heq.
    destruct (is_principals _ _ Hsim _ _ Hp) as (r' & b' & Hi & _). congruence. }
  wp_pure. destruct (id_domains d !! ib_control_domain_id b) as [c|] eqn:Fd;
    [apply wp_insert_row; [db_simpl; congruence|apply HR; right; left; by eexists]|].
  destruct (id_snapshots d !! ib_identity_snapshot_id b) as [s|] eqn:Fs; [|].
  { apply wp_insert_row; [intros _ _|apply HR; right; right; left; by eexists]. wp_pure. unfold insert_snapshot. wp_pure.
    apply wp_encode_ok; [done|]. wp_pure. apply wp_encode_ok; [done|]. apply wp_insert_row; [db_simpl; congruence|].
    apply HR; right; right; left; by eexists. }
  apply wp_insert_row_ok; [done| |].
  { db_simpl. cbn [cd_current_snapshot_id cd_created_at_ms cd_updated_at_ms]. rewrite andb_true_iff, negb_true_iff. split; [by apply (fresh_domain_snapshot Hsim)|].
    apply bool_decide_eq_true. lia. }
  wp_pure. unfold insert_snapshot. wp_pure. apply wp_encode_ok; [done|]. wp_pure. apply wp_encode_ok; [done|].
  apply wp_insert_row_ok; [done|apply (boot_snapshot_allowed Hsim); [done..|]; apply present_true; eexists; apply lookup_insert_eq|].
  wp_pure. apply wp_insert_row_ok; [by apply (fresh_member Hsim)| |].
  { db_simpl. rewrite andb_true_iff, !present_true. split; eexists; apply lookup_insert_eq. }
  wp_pure. destruct (id_heads d !! ib_key_id b) as [h|] eqn:Fh;
    [apply wp_insert_row; [db_simpl; congruence|apply HR; right; right; right; by eexists]|].
  apply wp_insert_row_ok; [done| |].
  { db_simpl. rewrite andb_true_iff, !present_true. split; eexists; apply lookup_insert_eq. }
  wp_pure. unfold insert_key_version. wp_pure. apply wp_encode_ok; [done|]. wp_pure.
  apply wp_encode; [intros Hfr|intros; apply HX; by apply Exists_cons_tl, Exists_cons_hd]. wp_pure.
  apply wp_encode; [intros Hun|intros; apply HX; by apply Exists_cons_tl, Exists_cons_tl, Exists_cons_hd].
  wp_pure. eapply wp_lift_Ok; [done|]. apply wp_insert_row_ok; [by apply (fresh_version Hsim)| |].
  { db_simpl. rewrite !andb_true_iff, present_true, !bool_decide_eq_true. split; [split; [split|]|]; [eexists; apply lookup_insert_eq|done..]. }
  wp_pure. apply wp_insert_row_ok; [by apply (fresh_binding Hsim)| |].
  { db_simpl. rewrite andb_true_iff, !present_true. split; eexists; apply lookup_insert_eq. }
  wp_pure. apply HQ; [by apply bootstrapped_sim|by apply (fresh_key Hsim)].
Qed.

Lemma bootstrap_matches_spec r r' b i (Q : bool -> IdDb -> Prop) X : ai_boots a !! i = Some (r', b) -> br_idempotency_key r = i ->
  Q (bool_decide (r' = r)) d -> wp (bootstrap_matches b r) Q X d.
Proof.
  intros Hi Hk HQ. destruct (is_boots _ _ Hsim _ _ _ Hi) as [Hk' [Hb Hp (c & Hc & Hpol) _ _ _ _ _ _ Hcr]].
  unfold bootstrap_matches. do 2 wp_pure. rewrite Hp, Hc. cbn [mbind option_bind]. wp_pure. eapply wp_lift_Ok; [done|].
  cbn [fst snd pr_profile_digest pr_created_at_ms]. rewrite Hpol. wp_case as Hd.
  - wp_pure. eapply wp_lift_Ok; [by apply id_decode_u64_Ok|]. wp_pure. destruct Hd as [Hd1 Hd2].
    replace (bool_decide _) with (bool_decide (r' = r)); [done|]. apply bool_decide_ext. rewrite Hb. destruct r, r'; cbn in *. split; [by intros [= ]|].
    intros (? & ? & ? & ? & ?). congruence.
  - wp_pure. rewrite bool_decide_eq_false_2 in HQ; [done|]. intros ->. by apply Hd.
Qed.

Lemma bootstrap_implements r : id_request_ok (IdBootstrap r) ->
  implements d a (IdBootstrap r) (bootstrap_principal r) (spec_bootstrap a r).
Proof.
  intros Hok. unfold implements, bootstrap_principal, spec_bootstrap, once. wp_pure.
  destruct (validate_bootstrap_request r) as [[]|e] eqn:Ev; [|by left]. eapply wp_lift_Ok; [done|]. wp_pure.
  apply (wp_load_boot _ _ Hsim). destruct (ai_boots a !! br_idempotency_key r) as [[r' b]|] eqn:Ei; cbn [fmap option_fmap option_map snd].
  - wp_pure. apply (bootstrap_matches_spec r r' b _ _ _ Ei); [done|]. case_bool_decide as Hr.
    + wp_pure. exists a. rewrite decide_True by done. split; [done|]. split; [by apply keeps_same|done].
    + wp_pure. left. by rewrite decide_False.
  - apply wp_insert_bootstrap; [done| |done| |by intros; right; left|by intros; right; right].
    2: { intros Hs Hf. eexists. split; [done|]. split; [|done]. eapply keeps_insert; [done|done|congruence]. }
    unfold validate_bootstrap_request in Ev. case_decide; [done|lia].
Qed.

Lemma revoke_succeeds b r : binding_stored d b -> ib_key_valid_from_ms b <= rk_revoked_at_ms r -> succeeds b (revoked_binding b r).
Proof. intros Hst Hr. destruct (bs_validity _ _ Hst) as (Hv & _ & _). split; cbn; done || lia. Qed.

Lemma fenced_Ok k g s t b : spec_fenced a k g s t = Ok b ->
  ai_current a !! k = Some b /\ ib_key_generation b = g /\ ib_identity_snapshot_id b = s /\ ib_key_revoked_at_ms b = None /\
  ib_key_valid_from_ms b <= t.
Proof.
  unfold spec_fenced. destruct (ai_current a !! k) as [b'|]; [|done]. repeat (case_decide; [done|]). intros [= <-].
  repeat (split; [done|]). lia.
Qed.

Lemma next_generations_ok b i (Q : Z * Z * Z -> IdDb -> Prop) X : binding_stored d b ->
  Q (ib_key_generation b + 1, ib_snapshot_generation b + 1, next_snapshot_id b i) d -> wp (next_generations b i) Q X d.
Proof.
  intros Hst HQ. pose proof (bs_generation _ _ Hst). pose proof (bs_same_generation _ _ Hst).
  unfold next_generations, checked_next, checked_add64. assert (i64_max + 1 <= u64_max) by (unfold i64_max, u64_max; lia).
  wp_pure. rewrite decide_True by lia. eapply wp_lift_Ok; [done|]. wp_pure. rewrite decide_True by lia.
  eapply wp_lift_Ok; [done|]. by wp_pure.
Qed.

Lemma revoke_keeps b r : ai_revoked a !! rk_idempotency_key r = None -> ai_current a !! rk_key_id r = Some b ->
  ib_key_revoked_at_ms b = None ->
  keeps a (a <| ai_current := <[rk_key_id r := revoked_binding b r]> (ai_current a) |>
             <| ai_revoked := <[rk_idempotency_key r := (r, revocation_receipt b r)]> (ai_revoked a) |>).
Proof.
  intros Hi Hb Hr. eapply keeps_insert; [done|..].
  - intros i e He. cbn. rewrite lookup_insert_ne; [done|congruence].
  - intros b' Hb'. rewrite Hb in Hb'. by simplify_eq.
Qed.

Lemma rotate_keeps b r : ai_current a !! ro_key_id r = Some b -> ib_key_revoked_at_ms b = None ->
  keeps a (a <| ai_current := <[ro_key_id r := rotated_binding b r]> (ai_current a) |>
             <| ai_rotated := <[ro_idempotency_key r := (r, rotation_receipt b r)]> (ai_rotated a) |>).
Proof. intros Hb Hr. eapply keeps_insert; [done..|]. intros b' Hb'. rewrite Hb in Hb'. by simplify_eq. Qed.

Lemma revoke_implements r : implements d a (IdRevoke r) (revoke_key r) (spec_revoke a r).
Proof.
  unfold implements, revoke_key, spec_revoke, once. wp_pure. apply (wp_load_revocation _ _ Hsim).
  destruct (ai_revoked a !! rk_idempotency_key r) as [[r' rc]|] eqn:Ei; cbn [fmap option_fmap option_map fst snd].
  { destruct (is_revoked _ _ (is_receipts _ _ Hsim) _ _ _ Ei) as (Hi & _ & _ & Hk & Hat & _). cbn [sr_receipt sr_expected_key_generation sr_expected_snapshot_id].
    rewrite Hk, Hat. wp_case as Hd; wp_pure.
    - left. rewrite decide_False; [done|]. intros ->. naive_solver.
    - exists a. rewrite decide_True; [split; [done|]; split; [by apply keeps_same|done]|].
      destruct r, r'; cbn in *. f_equal; (done || apply dec_stable; tauto). }
  wp_pure. apply (wp_fenced _ _ Hsim); [|intros e ->; by left]. intros b Hf. rewrite Hf.
  destruct (fenced_Ok _ _ _ _ _ Hf) as (Hb & Hg & Hs & Hr & Ht).
  destruct (is_current _ _ Hsim _ _ Hb) as [Hkey Hst]. wp_pure. apply next_generations_ok; [done|]. wp_pure.
  assert (Hnext : succeeds b (revoked_binding b r)) by (by apply revoke_succeeds).
  rewrite <- Hkey in Hb. apply (wp_advance_key Hsim Hb Hnext); [done|..].
  - intros h c policy Hh Hc Hfresh Hgen Hval Hat. pose proof (bs_generation _ _ Hst). pose proof (bs_same_generation _ _ Hst).
    change (ib_key_generation (revoked_binding b r)) with (ib_key_generation b + 1) in Hgen.
    wp_pure. apply wp_encode_ok; [lia|]. wp_pure. apply wp_encode_ok; [lia|]. wp_pure. apply wp_encode_ok; [lia|]. wp_pure.
    apply wp_encode_ok; [done|]. wp_pure.
    destruct (any_row (fun _ x => bool_decide (rv_receipt_id x = kr_receipt_id (revocation_receipt b r))) (id_revocations d)) eqn:Etaken;
      cbn [kr_receipt_id revocation_receipt] in Etaken.
    { apply wp_insert_row; [unfold advanced; db_simpl; cbn [rv_receipt_id]; by rewrite Etaken|]. right. right. split; [done|]. right.
      apply any_row_true in Etaken as (i & row & Hi & Heq%bool_decide_eq_true). exists b, i, row. by rewrite <- Hkey. }
    apply wp_insert_row_ok.
    + unfold advanced; db_simpl. by rewrite (is_revocations _ _ (is_receipts _ _ Hsim)), lookup_fmap, Ei.
    + unfold advanced; db_simpl. cbn [rv_receipt_id rv_key_id rv_expected_key_generation rv_resulting_key_generation
        rv_resulting_snapshot_id rv_resulting_snapshot_generation]. rewrite Etaken, <- Hg, <- Hkey.
      rewrite !andb_true_iff, !bool_decide_eq_true, !present_true. repeat split; try lia; eexists; apply lookup_insert_eq.
    + wp_pure. eexists. split; [done|]. rewrite Hkey in Hb. split; [by eapply revoke_keeps|]. rewrite <- Hkey in Hb.
      pose proof (advanced_sim Hsim Hb Hnext h c (rk_revoked_at_ms r) CHANGE_KEY_REVOCATION
        policy Hh Hc Hfresh Hgen Hval Hr) as Hadv. rewrite Hkey in Hadv. destruct (bs_validity _ _ Hst) as (Hvf & _ & _).
      refine (sim_add_revocation Hadv (rk_idempotency_key r) r (revocation_receipt b r) _ _ _ _ _ _ _ _); cbn; try done; try lia.
      exists (revoked_binding b r). split; [|done]. apply lookup_insert_eq.
  - intros Hbig. right. left. split; [done|]. destruct (bs_validity _ _ Hst) as (_ & Hu & _). cbn [id_numbers]. rewrite <- Hg.
    destruct Hbig as [Hx|[Hx|[Hx|Hx]]]; cbn in Hx; [by apply Exists_cons_tl, Exists_cons_hd|lia|by apply Exists_cons_hd..].
  - intros Htaken. right. right. split; [done|]. left. exists b. by rewrite <- Hkey.
Qed.

Lemma rotate_succeeds b r : binding_stored d b -> 0 <= ro_new_valid_from_ms r <= ro_new_valid_until_ms r ->
  succeeds b (rotated_binding b r).
Proof. intros Hst Hr. split; cbn; done || lia. Qed.

Lemma rotate_implements r : id_request_ok (IdRotate r) -> implements d a (IdRotate r) (rotate_key r) (spec_rotate a r).
Proof.
  intros Hok. unfold implements, rotate_key, spec_rotate, once. wp_pure.
  destruct (validate_rotate_request r) as [[]|e] eqn:Ev; [|by left]. eapply wp_lift_Ok; [done|]. wp_pure. apply (wp_load_rotation _ _ Hsim).
  assert (Hvalid : ro_new_valid_from_ms r <= ro_new_valid_until_ms r).
  { unfold validate_rotate_request in Ev. case_decide; [done|lia]. }
  destruct (ai_rotated a !! ro_idempotency_key r) as [[r' rt]|] eqn:Ei; cbn [fmap option_fmap option_map fst snd].
  { destruct (is_rotated _ _ (is_receipts _ _ Hsim) _ _ _ Ei) as (Hi & _ & _ & _ & _ & Hk & Hpk & Hf & Hu & Hat & _).
    cbn [st_receipt st_expected_key_generation st_expected_snapshot_id]. rewrite Hk, Hpk, Hf, Hu, Hat. wp_case as Hd; wp_pure.
    - left. rewrite decide_False; [done|]. intros ->. naive_solver.
    - exists a. rewrite decide_True; [split; [done|]; split; [by apply keeps_same|done]|].
      destruct r, r'; cbn in *. f_equal; (done || apply dec_stable; tauto). }
  wp_pure. apply (wp_fenced _ _ Hsim); [|intros e ->; by left]. intros b Hf. rewrite Hf.
  destruct (fenced_Ok _ _ _ _ _ Hf) as (Hb & Hg & Hs & Hr & Ht).
  destruct (is_current _ _ Hsim _ _ Hb) as [Hkey Hst]. wp_pure. apply next_generations_ok; [done|]. wp_pure.
  assert (Hnext : succeeds b (rotated_binding b r)) by (by apply rotate_succeeds).
  rewrite <- Hkey in Hb. apply (wp_advance_key Hsim Hb Hnext); [done|..].
  - intros h c policy Hh Hc Hfresh Hgen Hval Hat. pose proof (bs_generation _ _ Hst). pose proof (bs_same_generation _ _ Hst).
    change (ib_key_generation (rotated_binding b r)) with (ib_key_generation b + 1) in Hgen. pose proof Hval as (_ & Hun & _). cbn in Hun.
    wp_pure. apply wp_encode_ok; [lia|]. wp_pure. apply wp_encode_ok; [lia|]. wp_pure. apply wp_encode_ok; [lia|]. wp_pure.
    apply wp_encode_ok; [lia|]. wp_pure. apply wp_encode_ok; [lia|]. wp_pure. apply wp_encode_ok; [done|]. wp_pure.
    destruct (any_row (fun _ x => bool_decide (rt_receipt_id x = kt_receipt_id (rotation_receipt b r))) (id_rotations d)) eqn:Etaken;
      cbn [kt_receipt_id rotation_receipt] in Etaken.
    { apply wp_insert_row; [unfold advanced; db_simpl; cbn [rt_receipt_id]; by rewrite Etaken|]. right. right. split; [done|]. right.
      apply any_row_true in Etaken as (i & row & Hi & Heq%bool_decide_eq_true). exists b, i, row. by rewrite <- Hkey. }
    apply wp_insert_row_ok.
    + unfold advanced; db_simpl. by rewrite (is_rotations _ _ (is_receipts _ _ Hsim)), lookup_fmap, Ei.
    + unfold advanced; db_simpl. cbn [rt_receipt_id rt_key_id rt_expected_key_generation rt_resulting_key_generation
        rt_resulting_snapshot_id rt_resulting_snapshot_generation rt_new_valid_from_ms rt_new_valid_until_ms]. rewrite Etaken, <- Hg, <- Hkey.
      rewrite !andb_true_iff, !bool_decide_eq_true, !present_true. repeat split; try lia; eexists; apply lookup_insert_eq.
    + wp_pure. eexists. split; [done|]. rewrite Hkey in Hb. split; [by eapply rotate_keeps|]. rewrite <- Hkey in Hb.
      pose proof (advanced_sim Hsim Hb Hnext h c (ro_rotated_at_ms r) CHANGE_KEY_ROTATION
        policy Hh Hc Hfresh Hgen Hval Hr) as Hadv. rewrite Hkey in Hadv. destruct (bs_validity _ _ Hst) as (Hvf & _ & _).
      refine (sim_add_rotation Hadv (ro_idempotency_key r) r (rotation_receipt b r) _ _ _ _ _ _ _ _ _ _ _ _); cbn; cbn in Hok; done || lia.
  - intros Hbig. right. left. split; [done|]. cbn [id_numbers]. rewrite <- Hg.
    destruct Hbig as [Hx|[Hx|[Hx|Hx]]]; cbn in Hx; [by apply Exists_cons_tl, Exists_cons_tl, Exists_cons_hd|by apply Exists_cons_tl, Exists_cons_hd|by apply Exists_cons_hd|done].
  - intros Htaken. right. right. split; [done|]. left. exists b. by rewrite <- Hkey.
Qed.

Lemma live_Ok k g b : spec_live a k g = Ok b ->
  ai_current a !! k = Some b /\ ib_key_generation b = g /\ ib_key_revoked_at_ms b = None.
Proof.
  unfold spec_live. destruct (ai_current a !! k) as [b'|]; [|done]. repeat (case_decide; [done|]). by intros [= <-].
Qed.

(** The rows a registration refers to are there. *)
Lemma live_present k b : ai_current a !! k = Some b ->
  present (id_versions d) (k, ib_key_generation b) && present (id_principals d) (ib_principal_id b)
  && present (id_domains d) (ib_control_domain_id b) = true.
Proof.
  intros Hb. destruct (is_current _ _ Hsim _ _ Hb) as [<- Hst]. rewrite !andb_true_iff, !present_true.
  split; [split|]; [eexists; apply Hst|apply Hst|]. destruct (bs_domain _ _ Hst) as (c & Hc & _). by exists c.
Qed.

Lemma custody_matches i r r' c : ai_custody a !! i = Some (r', c) -> rc_idempotency_key r = i ->
  custody_request_matches c r = bool_decide (r' = r).
Proof.
  intros Hi Hk. destruct (is_custody _ _ (is_receipts _ _ Hsim) _ _ _ Hi) as (Hi' & _ & _ & E1 & E2 & E3 & E4).
  unfold custody_request_matches. rewrite E1, E2, E3, E4. apply bool_decide_ext. split; [|by intros ->].
  destruct r, r'; cbn in *. intros (? & ? & ? & ?). congruence.
Qed.

Lemma custody_implements r : id_request_ok (IdCustody r) -> implements d a (IdCustody r) (register_custody_binding r) (spec_custody a r).
Proof.
  intros Hok. unfold implements, register_custody_binding, spec_custody, once. wp_pure. apply (wp_load_custody _ _ Hsim).
  destruct (ai_custody a !! rc_idempotency_key r) as [[r' c]|] eqn:Ei; cbn [fmap option_fmap option_map snd].
  { rewrite (custody_matches _ _ _ _ Ei) by done. case_bool_decide; wp_pure; [exists a; rewrite decide_True by done; split; [done|]; split; [by apply keeps_same|done]|left; by rewrite decide_False]. }
  wp_pure. apply (wp_custody_by_generation _ _ Hsim).
  - intros i r' c Hi Hk Hg. rewrite bool_decide_eq_false_2 by congruence. cbn [andb]. wp_pure. left.
    rewrite (proj2 (any_row_true _ _)); [done|]. exists i, (r', c). split; [done|]. by apply bool_decide_eq_true.
  - intros Hno. rewrite (proj2 (any_row_false _ _)); cycle 1.
    { intros i e Hi. apply bool_decide_eq_false. by eapply Hno. }
    wp_pure. apply (wp_live _ _ Hsim); [|intros e ->; by left]. intros b Hl. rewrite Hl. destruct (live_Ok _ _ _ Hl) as (Hb & Hg & Hr).
    destruct (is_current _ _ Hsim _ _ Hb) as [_ Hst]. pose proof (bs_generation _ _ Hst). wp_pure. apply wp_encode_ok; [lia|]. wp_pure.
    apply wp_encode; [intros Hat|intros; right; left; split; [done|]; by apply Exists_cons_tl, Exists_cons_hd]. wp_pure. apply wp_insert_row_ok.
    + by rewrite (is_custody_rows _ _ (is_receipts _ _ Hsim)), lookup_fmap, Ei.
    + cbn [cr_key_id cr_key_generation cr_principal_id cr_control_domain_id]. rewrite <- Hg.
      pose proof (live_present _ _ Hb) as Hp. rewrite <- andb_assoc in Hp. rewrite <- !andb_assoc, Hp, andb_true_r.
      apply negb_true_iff, any_row_false. intros i row Hi. apply bool_decide_eq_false. rewrite Hg. rewrite (is_custody_rows _ _ (is_receipts _ _ Hsim)) in Hi.
      apply lookup_fmap_Some in Hi as (e & <- & Hi). by apply (Hno i e).
    + wp_pure. eexists. split; [done|]. split; [by apply keeps_same|]. apply (sim_add_custody Hsim); [lia|done].
  - intros Hbig. right. left. split; [done|]. by apply Exists_cons_hd.
Qed.

Lemma session_matches i r r' c : ai_sessions a !! i = Some (r', c) -> rs_idempotency_key r = i ->
  session_request_matches c r = bool_decide (r' = r).
Proof.
  intros Hi Hk. destruct (is_sessions _ _ (is_receipts _ _ Hsim) _ _ _ Hi) as (Hi' & _ & _ & _ & E1 & E2 & E3 & E4 & E5 & E6).
  unfold session_request_matches. rewrite E1, E2, E3, E4, E5, E6. apply bool_decide_ext. split; [|by intros ->].
  destruct r, r'; cbn in *. intros (? & ? & ? & ? & ? & ?). congruence.
Qed.

Lemma session_implements r : id_request_ok (IdSession r) -> implements d a (IdSession r) (register_session r) (spec_session a r).
Proof.
  intros Hok. unfold implements, register_session, spec_session, once. wp_pure.
  destruct (validate_session_request r) as [[]|e] eqn:Ev; [|by left]. eapply wp_lift_Ok; [done|].
  assert (Hvalid : rs_registered_at_ms r <= rs_expires_at_ms r) by (unfold validate_session_request in Ev; case_decide; [done|lia]).
  wp_pure. apply (wp_load_session _ _ Hsim).
  destruct (ai_sessions a !! rs_idempotency_key r) as [[r' c]|] eqn:Ei; cbn [fmap option_fmap option_map snd].
  { rewrite (session_matches _ _ _ _ Ei) by done. case_bool_decide; wp_pure; [exists a; rewrite decide_True by done; split; [done|]; split; [by apply keeps_same|done]|left; by rewrite decide_False]. }
  wp_pure. apply (wp_session_by_id _ _ Hsim).
  - intros i r' c Hi Hk. rewrite bool_decide_eq_false_2 by congruence. cbn [andb]. wp_pure. left.
    rewrite (proj2 (any_row_true _ _)); [done|]. exists i, (r', c). split; [done|]. by apply bool_decide_eq_true.
  - intros Hno. rewrite (proj2 (any_row_false _ _)); cycle 1.
    { intros i e Hi. apply bool_decide_eq_false. by eapply Hno. }
    wp_pure. apply (wp_live _ _ Hsim); [|intros e ->; by left]. intros b Hl. rewrite Hl. destruct (live_Ok _ _ _ Hl) as (Hb & Hg & Hr).
    destruct (is_current _ _ Hsim _ _ Hb) as [_ Hst]. pose proof (bs_generation _ _ Hst). wp_pure. apply wp_encode_ok; [lia|]. wp_pure.
    apply wp_encode; [intros Hat|intros; right; left; split; [done|]; by apply Exists_cons_hd]. wp_pure.
    apply wp_encode; [intros Hex|intros; right; left; split; [done|]; by apply Exists_cons_tl, Exists_cons_hd]. wp_pure.
    destruct (any_row (fun _ x => bool_decide (ts_receipt_id x = ts_receipt_id (session_record b r))) (id_sessions d)) eqn:Etaken.
    + apply wp_insert_row; [|right; right; split; [done|];
        apply any_row_true in Etaken as (i & row & Hi & Heq%bool_decide_eq_true); by exists b, i, row].
      intros _ Hall. exfalso. revert Hall. cbn [ts_receipt_id ts_session_id]. rewrite !andb_true_iff, negb_true_iff.
      intros [[[[Hf _] _] _] _]. pose proof (proj1 (any_row_false _ _) Hf) as Hall.
      apply any_row_true in Etaken as (i & row & Hi & Heq%bool_decide_eq_true). specialize (Hall i row Hi).
      apply bool_decide_eq_false in Hall. apply Hall. by left.
    + apply wp_insert_row_ok; [by rewrite (is_session_rows _ _ (is_receipts _ _ Hsim)), lookup_fmap, Ei| |].
      * cbn [ts_receipt_id ts_session_id ts_registered_at_ms ts_expires_at_ms ts_key_id ts_key_generation ts_principal_id ts_control_domain_id].
        pose proof (live_present _ _ Hb) as Hp. rewrite <- andb_assoc in Hp.
        rewrite <- !andb_assoc, Hp, andb_true_r, andb_true_iff, negb_true_iff, bool_decide_eq_true.
        split; [|done]. apply any_row_false. intros i row Hi. apply bool_decide_eq_false. intros [Heq|Heq].
        -- pose proof (proj1 (any_row_false _ _) Etaken i row Hi) as Hf. by apply bool_decide_eq_false in Hf.
        -- rewrite (is_session_rows _ _ (is_receipts _ _ Hsim)) in Hi. apply lookup_fmap_Some in Hi as ([r' c] & <- & Hi).
           apply (Hno i _ Hi). destruct (is_sessions _ _ (is_receipts _ _ Hsim) _ _ _ Hi) as (_ & _ & _ & _ & E1 & _). cbn in *. congruence.
      * wp_pure. eexists. split; [done|]. split; [by apply keeps_same|]. apply (sim_add_session Hsim); cbn in Hok; lia || done.
Qed.
End steps.

(** The answer of a request that was refused. *)
Definition failed (q : IdRequest) (e : IdentityAuthorityError) : IdAnswer :=
  match q with
  | IdBootstrap _ => BootstrapAnswer (Err e)
  | IdRevoke _ => RevokeAnswer (Err e)
  | IdRotate _ => RotateAnswer (Err e)
  | IdCustody _ => CustodyAnswer (Err e)
  | IdSession _ => SessionAnswer (Err e)
  | IdReopen _ => ReopenAnswer (Err e)
  end.

Lemma implements_step {B} d a q (m : id_tx B) (w : result IdentityAuthorityError B -> IdAnswer) s : id_sim d a ->
  (forall e, failed q e = w (Err e)) -> implements d a q m s ->
  let '(d', x) := run_tx m d in
  (w x = (answer a w s).2 /\ keeps a (answer a w s).1 /\ id_sim d' (answer a w s).1) \/ (exists e, w x = failed q e /\ d' = d /\ id_refusal d a q e).
Proof.
  intros Hsim Hw Hi. unfold implements, wp, run_tx in *. destruct (m d) as [[x d']|e].
  - destruct Hi as (a' & -> & Hs). by left.
  - destruct Hi as [-> |Hr]; [left; split; [done|]; split; [by apply keeps_same|done]|]. right. exists e. by rewrite Hw.
Qed.

Lemma id_step_implements d a q : id_sim d a -> id_request_ok q ->
  let '(d', x) := id_step d q in
  (x = (spec_step a q).2 /\ keeps a (spec_step a q).1 /\ id_sim d' (spec_step a q).1) \/ (exists e, x = failed q e /\ d' = d /\ id_refusal d a q e).
Proof.
  intros Hsim Hok. destruct q; cbn [id_step spec_step].
  - pose proof (implements_step d a (IdBootstrap r) _ BootstrapAnswer _ Hsim ltac:(done) (bootstrap_implements Hsim r Hok)). by destruct (run_tx _ d).
  - pose proof (implements_step d a (IdRevoke r) _ RevokeAnswer _ Hsim ltac:(done) (revoke_implements Hsim r)). by destruct (run_tx _ d).
  - pose proof (implements_step d a (IdRotate r) _ RotateAnswer _ Hsim ltac:(done) (rotate_implements Hsim r Hok)). by destruct (run_tx _ d).
  - pose proof (implements_step d a (IdCustody r) _ CustodyAnswer _ Hsim ltac:(done) (custody_implements Hsim r Hok)). by destruct (run_tx _ d).
  - pose proof (implements_step d a (IdSession r) _ SessionAnswer _ Hsim ltac:(done) (session_implements Hsim r Hok)). by destruct (run_tx _ d).
  - unfold id_open. rewrite (is_schema _ _ Hsim). cbn. left. split; [done|]. split; [by apply keeps_same|done].
Qed.

(** *** Readers *)

Definition spec_judge_key (a : AbsIdentity) (key_id issuer domain : Z) (purpose : KeyPurpose) (at_ms message signature : Z) :
    result IdentityAuthorityError IdentityBinding :=
  match ai_current a !! key_id with
  | None => Err (KeyNotFound key_id)
  | Some b =>
      if decide (ib_principal_id b <> issuer \/ ib_control_domain_id b <> domain) then Err SignerBindingMismatch
      else match judge b purpose at_ms message signature with Ok _ => Ok b | Err e => Err e end
  end.

(** The signer a verification answers with, from the binding that was judged. *)
Definition signer_of {B C} (f : B -> C) (r : result IdentityAuthorityError B) : result IdentityAuthorityError C :=
  match r with Ok b => Ok (f b) | Err e => Err e end.

Definition spec_command (a : AbsIdentity) (principal message signature at_ms : Z) : result IdentityAuthorityError IdentityBinding :=
  match key_of a principal with
  | None => Err (PrincipalNotFound principal)
  | Some b => match judge b SemanticSigning at_ms message signature with Ok _ => Ok b | Err e => Err e end
  end.

(** Everything a reader can learn of current keys. *)
Definition reads_agree (d : IdDb) (a : AbsIdentity) : Prop :=
  (forall k, (run_tx (inspect_current_binding k) d).2 = ok_or (ai_current a !! k) (KeyNotFound k)) /\
  (forall r, (run_tx (verify_semantic_signature r) d).2 =
     signer_of (fun b => {| vg_principal_id := ib_principal_id b; vg_control_domain_id := ib_control_domain_id b;
                            vg_identity_snapshot_id := ib_identity_snapshot_id b;
                            vg_snapshot_generation := ib_snapshot_generation b; vg_key_id := ib_key_id b;
                            vg_key_generation := ib_key_generation b |})
       (spec_judge_key a (vs_key_id r) (vs_issuer r) (vs_control_domain_id r) SemanticSigning (vs_admitted_at_ms r)
          (semantic_signature_message (vs_event_id r)) (vs_signature r))) /\
  (forall r, (run_tx (verify_semantic_authority_signature r) d).2 =
     signer_of (fun b => {| ag_principal_id := ib_principal_id b; ag_control_domain_id := ib_control_domain_id b;
                            ag_key_id := ib_key_id b; ag_key_generation := ib_key_generation b |})
       (spec_judge_key a (va_key_id r) (va_issuer r) (va_control_domain_id r) SemanticSigning (va_verified_at_ms r)
          (va_message_digest r) (va_signature r))) /\
  (forall r, (run_tx (verify_barrier_observation_signature r) d).2 =
     signer_of (fun b => {| bg_principal_id := ib_principal_id b; bg_control_domain_id := ib_control_domain_id b;
                            bg_key_id := ib_key_id b; bg_key_generation := ib_key_generation b |})
       (spec_judge_key a (vb_key_id r) (vb_issuer r) (vb_control_domain_id r) BarrierObservationSigning (vb_verified_at_ms r)
          (vb_message_digest r) (vb_signature r))) /\
  (forall r, (run_tx (verify_capability_command_signature r) d).2 =
     signer_of (fun b => {| cg_principal_id := ib_principal_id b; cg_control_domain_id := ib_control_domain_id b;
                            cg_key_id := ib_key_id b; cg_key_generation := ib_key_generation b |})
       (spec_command a (vc_principal r) (vc_message_digest r) (vc_signature r) (vc_verified_at_ms r))).

(** A read that meets its specification for every postcondition answers with it. *)
Lemma run_reads {B} (m : id_tx B) d (r : result IdentityAuthorityError B) :
  (forall (Q : B -> IdDb -> Prop) X, (forall b, r = Ok b -> Q b d) -> (forall e, r = Err e -> X e) -> wp m Q X d) ->
  run_tx m d = (d, r).
Proof.
  intros Hm. specialize (Hm (fun b d' => d' = d /\ r = Ok b) (fun e => r = Err e) ltac:(done) ltac:(done)).
  unfold wp, run_tx in *. destruct (m d) as [[b d']|e]; [by destruct Hm as [-> ->]|by rewrite Hm].
Qed.

Section readers.
Context {d : IdDb} {a : AbsIdentity} (Hsim : id_sim d a).

Lemma wp_judge_key k i dm p t m g (Q : IdentityBinding -> IdDb -> Prop) X :
  (forall b, spec_judge_key a k i dm p t m g = Ok b -> Q b d) -> (forall e, spec_judge_key a k i dm p t m g = Err e -> X e) ->
  wp (judge_key k i dm p t m g) Q X d.
Proof.
  unfold spec_judge_key, judge_key. intros HQ HX. wp_pure. apply (wp_load_current _ _ Hsim). wp_pure.
  destruct (ai_current a !! k) as [b|]; [|by apply HX]. eapply wp_lift_Ok; [done|].
  case_decide as Hc; [wp_pure; by apply HX|]. wp_pure. destruct (judge b p t m g) as [[]|e]; [|by apply HX].
  eapply wp_lift_Ok; [done|]. wp_pure. by apply HQ.
Qed.

Lemma run_judged {C} k i dm p t m g (f : IdentityBinding -> C) :
  run_tx (judge_key k i dm p t m g ≫= fun b => mret (f b)) d = (d, signer_of f (spec_judge_key a k i dm p t m g)).
Proof.
  apply run_reads. intros Q X HQ HX. wp_pure. apply wp_judge_key.
  - intros b Hb. wp_pure. apply HQ. by rewrite Hb.
  - intros e He. apply HX. by rewrite He.
Qed.

Lemma run_command p m g t : run_tx (verify_capability_command_signature_at_time p m g t) d =
  (d, signer_of (fun b => {| cg_principal_id := ib_principal_id b; cg_control_domain_id := ib_control_domain_id b;
                             cg_key_id := ib_key_id b; cg_key_generation := ib_key_generation b |}) (spec_command a p m g t)).
Proof.
  apply run_reads. unfold spec_command, verify_capability_command_signature_at_time. intros Q X HQ HX. wp_pure.
  apply (wp_load_by_principal _ _ Hsim). wp_pure. destruct (key_of a p) as [b|]; [|by apply HX]. eapply wp_lift_Ok; [done|]. wp_pure.
  destruct (judge b _ _ _ _) as [[]|e]; [|by apply HX]. eapply wp_lift_Ok; [done|]. wp_pure. by apply HQ.
Qed.

Lemma run_inspect k : run_tx (inspect_current_binding k) d = (d, ok_or (ai_current a !! k) (KeyNotFound k)).
Proof.
  apply run_reads. unfold inspect_current_binding. intros Q X HQ HX. wp_pure. apply (wp_load_current _ _ Hsim).
  apply wp_lift; [intros b Hb; by apply HQ|intros e He; by apply HX].
Qed.

Lemma sim_reads_agree : reads_agree d a.
Proof.
  split; [intros; by rewrite run_inspect|]. split; [intros; unfold verify_semantic_signature; by rewrite run_judged|].
  split; [intros; unfold verify_semantic_authority_signature; by rewrite run_judged|].
  split; [intros; unfold verify_barrier_observation_signature; by rewrite run_judged|].
  intros. unfold verify_capability_command_signature. by rewrite run_command.
Qed.
End readers.

(** *** Runs *)

(** In every state the reads agree with the abstract state, and every request is answered
    as the abstract authority answers it or refused for a cause, changing nothing. *)
Fixpoint id_follows (d : IdDb) (a : AbsIdentity) (qs : list IdRequest) : Prop :=
  reads_agree d a /\
  match qs with
  | [] => True
  | q :: qs =>
      let '(d', x) := id_step d q in
      (x = (spec_step a q).2 /\ id_follows d' (spec_step a q).1 qs) \/
      (exists e, x = failed q e /\ id_refusal d a q e /\ id_follows d' a qs)
  end.

Lemma sim_follows qs d a : id_sim d a -> Forall id_request_ok qs -> id_follows d a qs.
Proof.
  revert d a. induction qs as [|q qs IH]; intros d a Hsim Hok; (split; [by apply sim_reads_agree|]); [done|].
  apply Forall_cons in Hok as [Hq Hok]. pose proof (id_step_implements d a q Hsim Hq) as Hstep. destruct (id_step d q) as [d' x].
  destruct Hstep as [(Hx & _ & Hs)|(e & Hx & -> & Hr)]; [left; split; [done|by apply IH]|right].
  exists e. split; [done|]. split; [done|by apply IH].
Qed.
End refines.
