(* ===== verification/IdentityRuns.v ===== *)
(** * IdentityRuns: the identity authority over time

    The runs of the identity authority from a file that does not exist yet: it implements
    the abstract authority of [IdentityRefines]; a revoked key stays revoked for every
    reader and every request; and what a snapshot recorded is what it shows for good. *)

From S2P Require Import Prelude Bytes Txn Clock Identity IdentityRefines.

(** ** Opening *)

(** What an interrupted open can leave behind. *)
Definition migration_state (d : IdDb) : Prop :=
  d ∈ [no_identity_file; (id_open 1 no_identity_file).1; (id_open 2 no_identity_file).1; (id_open 3 no_identity_file).1;
       new_identity_file].

Lemma open_any_more d n : migration_state d -> (4 <= n)%nat -> id_open n d = (new_identity_file, Ok ()).
Proof.
  intros Hd Hn. do 4 (destruct n as [|n]; [lia|]). unfold migration_state in Hd.
  rewrite !elem_of_cons in Hd. destruct Hd as [-> |[-> |[-> |[-> |[-> |Hd]]]]]; [reflexivity..|by apply not_elem_of_nil in Hd].
Qed.

Lemma open_stays d n : migration_state d -> migration_state (id_open n d).1.
Proof.
  intros Hd. destruct (decide (4 <= n)%nat) as [Hn|Hn].
  - rewrite (open_any_more d n Hd Hn). unfold migration_state. set_solver.
  - unfold migration_state in Hd |- *. rewrite !elem_of_cons in Hd |- *.
    destruct Hd as [-> |[-> |[-> |[-> |[-> |Hd]]]]]; [..|by apply not_elem_of_nil in Hd];
      (destruct n as [|[|[|[|n]]]]; [vm_compute; tauto..|lia]).
Qed.

Lemma new_file_sim {H : Sha256} : id_sim new_identity_file no_identities.
Proof. by split. Qed.

(** ** Refinement *)

Section runs.
Context {H : Sha256} {E : Ed25519}.

(** C10. The identity authority implements the abstract one. However often the first open
    is interrupted by a crash, a full open leaves a new authority; from there, under any
    sequence of bootstraps, revocations, rotations, custody bindings and sessions and
    with the process dying and reopening the file between them, every verification of a
    signature and every read is judged by the binding that the answered requests gave
    the key, every request gets the answer the abstract authority gives (the same request
    the same answer, another one under its idempotency key a conflict), and a request is
    otherwise refused, changing nothing, only because an identifier it derives is taken,
    it dates a change before the creation of its domain, or SQLite cannot hold one of its
    numbers. *)
Theorem identity_refines (ns : list nat) (qs : list IdRequest) : Forall id_request_ok qs ->
  id_open 4 (foldl (fun d n => (id_open n d).1) no_identity_file ns) = (new_identity_file, Ok ()) /\
  id_follows new_identity_file no_identities qs.
Proof.
  intros Hok. split; [|apply sim_follows; [apply new_file_sim|done]]. apply open_any_more; [|done].
  assert (Hgen : forall d, migration_state d -> migration_state (foldl (fun d n => (id_open n d).1) d ns)).
  { induction ns as [|n ns IH]; [done|]. intros d Hd. apply IH. by apply open_stays. }
  apply Hgen. apply list_elem_of_here.
Qed.

(** ** Revocation is final *)

Lemma run_sim qs d a : id_sim d a -> Forall id_request_ok qs ->
  exists a', id_sim (id_run d qs).1 a' /\ keeps a a'.
Proof.
  revert d a. induction qs as [|q qs IH]; intros d a Hsim Hok; [exists a; split; [done|by apply keeps_same]|].
  apply Forall_cons in Hok as [Hq Hok]. cbn. pose proof (id_step_implements d a q Hsim Hq) as Hstep.
  destruct (id_step d q) as [d' x]. assert (exists a', id_sim d' a' /\ keeps a a') as (a' & Hs & Hk).
  { destruct Hstep as [(_ & Hk & Hs)|(e & _ & -> & _)]; [by eauto|]. exists a. split; [done|by apply keeps_same]. }
  destruct (IH d' a' Hs Hok) as (a'' & Hs' & Hk'). destruct (id_run d' qs) as [d'' xs]. exists a''. split; [done|by eapply keeps_trans].
Qed.

(** Nobody can use the key any more: no signature by it or by its principal verifies, it
    cannot be rotated, bound to custody or given sessions, and the sessions of the
    generation that was revoked are gone. *)
Record key_dead (d : IdDb) (key_id principal_id generation : Z) : Prop := {
  kd_semantic : forall r, vs_key_id r = key_id -> exists e, (run_tx (verify_semantic_signature r) d).2 = Err e;
  kd_authority : forall r, va_key_id r = key_id -> exists e, (run_tx (verify_semantic_authority_signature r) d).2 = Err e;
  kd_barrier : forall r, vb_key_id r = key_id -> exists e, (run_tx (verify_barrier_observation_signature r) d).2 = Err e;
  kd_command : forall r, vc_principal r = principal_id -> exists e, (run_tx (verify_capability_command_signature r) d).2 = Err e;
  kd_rotate : forall r t, ro_key_id r = key_id -> 0 <= ro_new_valid_from_ms r -> (run_tx (rotate_key r) d).2 <> Ok (KeyRotated t);
  kd_custody : forall r c, rc_key_id r = key_id -> 0 <= rc_registered_at_ms r ->
    (run_tx (register_custody_binding r) d).2 <> Ok (CustodyRegistered c);
  kd_session : forall r s, rs_key_id r = key_id -> 0 <= rs_registered_at_ms r ->
    (run_tx (register_session r) d).2 <> Ok (SessionRegistered s);
  kd_inspect : forall sid s, (run_tx (inspect_session sid) d).2 = Ok s -> ts_key_id s = key_id -> ts_key_generation s <> generation;
}.

Lemma judge_revoked b p t m g : ib_key_revoked_at_ms b <> None -> exists e, judge b p t m g = Err e.
Proof. intros Hr. unfold judge. case_decide; [by eauto|]. rewrite decide_True by done. by eauto. Qed.

(** A specification that never gives [x] is implemented without it. *)
Lemma implements_never {B} d a q (m : id_tx B) s x :
  implements d a q m s -> (forall a', s <> Ok (a', x)) -> (run_tx m d).2 <> Ok x.
Proof.
  unfold implements, wp, run_tx. intros Hi Hn. destruct (m d) as [[y d']|e]; [|done]. destruct Hi as (a' & Hs & _).
  cbn. intros [= ->]. by apply (Hn a').
Qed.

Lemma revoked_session d k g sid s :
  (exists i row, id_revocations d !! i = Some row /\ rv_key_id row = k /\ rv_expected_key_generation row = g) ->
  (run_tx (inspect_session sid) d).2 = Ok s -> ts_key_id s = k -> ts_key_generation s <> g.
Proof.
  intros (i & row & Hi & Hk & Hg) Hrun Hsk Hsg. enough (Hwp : wp (inspect_session sid) (fun s' _ => s' <> s) (fun _ => True) d).
  { unfold wp, run_tx in *. destruct (inspect_session sid d) as [[s' d']|e]; cbn in *; congruence. }
  unfold inspect_session. wp_pure. apply (wp_mono (fun _ => True) _ (fun _ d' => d' = d)); [|intros x d' ->|done].
  { unfold load_session_by_id. do 2 wp_pure. destruct (first_row _ _) as [[key r]|]; [|by wp_pure]. wp_pure. apply wp_lift; [|done]. intros. by wp_pure. }
  wp_pure. apply wp_lift; [|done]. intros [key s'] _. cbn [snd]. wp_pure. unfold ensure_key_generation_not_revoked, id_encode_u64.
  wp_pure. destruct (decide (ts_key_generation s' <= i64_max)); [|done]. eapply wp_lift_Ok; [done|]. do 3 wp_pure. apply wp_lift; [|done].
  intros kv _. destruct (kv_revoked_at_ms kv); [by wp_pure|]. do 2 wp_pure. wp_case as Hc; [by wp_pure|]. do 2 wp_pure.
  intros ->. apply Hc. apply (count_rows_pos _ _ i row Hi). apply bool_decide_eq_true. split; congruence.
Qed.

Lemma dead_key d a i r rc b : id_sim d a -> ai_revoked a !! i = Some (r, rc) -> ai_current a !! rk_key_id r = Some b ->
  ib_key_revoked_at_ms b <> None -> key_dead d (rk_key_id r) (ib_principal_id b) (rk_expected_key_generation r).
Proof.
  intros Hsim Hi Hb Hr. destruct (sim_reads_agree Hsim) as (_ & Hsem & Haut & Hbar & Hcmd).
  assert (Hjudge : forall i dm p t m g, exists e, spec_judge_key a (rk_key_id r) i dm p t m g = Err e).
  { intros. unfold spec_judge_key. rewrite Hb. case_decide; [by eauto|]. destruct (judge_revoked b p t m g Hr) as [e ->]. by eauto. }
  assert (Hlive : forall g, exists e, spec_live a (rk_key_id r) g = Err e).
  { intros. unfold spec_live. rewrite Hb. case_decide; [by eauto|]. rewrite decide_True by done. by eauto. }
  split.
  - intros q Hk. rewrite Hsem, Hk. edestruct Hjudge as [e ->]. by exists e.
  - intros q Hk. rewrite Haut, Hk. edestruct Hjudge as [e ->]. by exists e.
  - intros q Hk. rewrite Hbar, Hk. edestruct Hjudge as [e ->]. by exists e.
  - intros q Hp. rewrite Hcmd. unfold spec_command. destruct (key_of a (vc_principal q)) as [b'|] eqn:Ek; [|by eexists].
    unfold key_of in Ek. destruct (first_row _ _) as [[k b'']|] eqn:Ef; [|done]. injection Ek as ->.
    apply first_row_Some in Ef as [Hk Hp'%bool_decide_eq_true].
    assert (k = rk_key_id r) as -> by (apply (is_unique _ _ Hsim _ b' _ b); [done..|right; congruence]).
    rewrite Hb in Hk. injection Hk as ->. edestruct (judge_revoked b' SemanticSigning) as [e ->]; [done|]. by eexists.
  - intros q t Hk Hok. apply (implements_never _ _ _ _ _ _ (rotate_implements Hsim q Hok)). intros a'. unfold spec_rotate, once.
    destruct (validate_rotate_request q); [|done]. destruct (ai_rotated a !! _) as [[r' x]|]; [by case_decide|].
    unfold spec_fenced. rewrite Hk, Hb. repeat (case_decide; [done|]). done.
  - intros q c Hk Hok. apply (implements_never _ _ _ _ _ _ (custody_implements Hsim q Hok)). intros a'. unfold spec_custody, once.
    destruct (ai_custody a !! _) as [[r' x]|]; [by case_decide|]. destruct (any_row _ _); [done|]. rewrite Hk. by edestruct Hlive as [e ->].
  - intros q s Hk Hok. apply (implements_never _ _ _ _ _ _ (session_implements Hsim q Hok)). intros a'. unfold spec_session, once.
    destruct (validate_session_request q); [|done].
    destruct (ai_sessions a !! _) as [[r' x]|]; [by case_decide|]. destruct (any_row _ _); [done|]. rewrite Hk. by edestruct Hlive as [e ->].
  - intros sid s. apply revoked_session. exists i, (revocation_row (r, rc)).
    by rewrite (is_revocations _ _ (is_receipts _ _ Hsim)), lookup_fmap, Hi.
Qed.

Lemma revoked_now_spec d a r rc : id_sim d a -> (id_step d (IdRevoke r)).2 = RevokeAnswer (Ok (KeyRevokedNow rc)) ->
  exists b, ai_current a !! rk_key_id r = Some b /\ (run_tx (inspect_current_binding (rk_key_id r)) d).2 = Ok b /\
    exists a', id_sim (id_step d (IdRevoke r)).1 a' /\ ai_revoked a' !! rk_idempotency_key r = Some (r, rc) /\
      ai_current a' !! rk_key_id r = Some (revoked_binding b r).
Proof.
  intros Hsim Hx. pose proof (id_step_implements d a (IdRevoke r) Hsim I) as Hstep. destruct (id_step d (IdRevoke r)) as [d' x].
  cbn in Hx. subst x. destruct Hstep as [(Hans & _ & Hs)|(e & Hans & _)]; [|done].
  unfold spec_step, answer, spec_revoke, once in Hans, Hs. destruct (ai_revoked a !! rk_idempotency_key r) as [[r' rc']|] eqn:Ei; [by case_decide|].
  destruct (spec_fenced _ _ _ _ _) as [b|] eqn:Ef; [|done]. destruct (fenced_Ok _ _ _ _ _ Ef) as (Hb & _). exists b. split; [done|].
  split; [by rewrite (run_inspect Hsim), Hb|]. injection Hans as ->. eexists. split; [exact Hs|]. cbn. by rewrite !lookup_insert_eq.
Qed.

(** C17. A revocation is final: once [revoke_key] has answered with a new receipt, then
    whatever else the authority is asked (rotations of the same key, bootstraps, other
    revocations, replays) and however often it is reopened, no signature under that key or
    for its principal's commands ever verifies again, the key is never rotated, bound to
    custody or given a session again, and no session of the revoked generation can be
    read. *)
Theorem revocation_is_final qs r rc more b : Forall id_request_ok qs -> Forall id_request_ok more ->
  let d := (id_run new_identity_file qs).1 in
  (run_tx (inspect_current_binding (rk_key_id r)) d).2 = Ok b ->
  (id_step d (IdRevoke r)).2 = RevokeAnswer (Ok (KeyRevokedNow rc)) ->
  key_dead (id_run (id_step d (IdRevoke r)).1 more).1 (rk_key_id r) (ib_principal_id b) (rk_expected_key_generation r).
Proof.
  intros Hqs Hmore d Hins Hx. destruct (run_sim qs _ _ new_file_sim Hqs) as (a & Hsim & _).
  destruct (revoked_now_spec d a r rc Hsim Hx) as (b' & Hb & Hins' & a1 & Hsim1 & Hrev & Hcur).
  rewrite Hins in Hins'. injection Hins' as <-. destruct (run_sim more _ _ Hsim1 Hmore) as (a2 & Hsim2 & [Hdead _ Hkeep]).
  exact (dead_key _ _ _ _ _ _ Hsim2 (Hkeep _ _ Hrev) (Hdead _ _ Hcur ltac:(done)) ltac:(done)).
Qed.

(** ** Snapshots are immutable *)

(** Rows stay, and a key keeps its owner. *)
Record extends (d d' : IdDb) : Prop := {
  ex_versions : id_versions d ⊆ id_versions d';
  ex_members : id_members d ⊆ id_members d';
  ex_bindings : id_bindings d ⊆ id_bindings d';
  ex_snapshots : id_snapshots d ⊆ id_snapshots d';
  ex_heads : forall k h, id_heads d !! k = Some h -> exists h', id_heads d' !! k = Some h' /\
    kh_principal_id h' = kh_principal_id h /\ kh_control_domain_id h' = kh_control_domain_id h;
}.

Lemma extends_same d d' : id_versions d' = id_versions d -> id_members d' = id_members d -> id_bindings d' = id_bindings d ->
  id_snapshots d' = id_snapshots d -> id_heads d' = id_heads d -> extends d d'.
Proof. intros Ev Em Eb Es Eh. split; rewrite ?Ev, ?Em, ?Eb, ?Es, ?Eh; eauto. Qed.

Lemma extends_refl d : extends d d.
Proof. by apply extends_same. Qed.

Lemma extends_trans d1 d2 d3 : extends d1 d2 -> extends d2 d3 -> extends d1 d3.
Proof.
  intros [V1 M1 B1 S1 H1] [V2 M2 B2 S2 H2]. split; [etransitivity; eassumption..|]. intros k h (h' & Hh' & Hp & Hd)%H1.
  destruct (H2 k h' Hh') as (h'' & Hh'' & Hp' & Hd'). exists h''. split; [done|split; congruence].
Qed.

Definition growing {A} (m : id_tx A) : Prop := forall d, wp m (fun _ d' => extends d d') (fun _ => True) d.

Lemma growing_bind {A B} (m : id_tx A) (k : A -> id_tx B) : growing m -> (forall x, growing (k x)) -> growing (m ≫= k).
Proof.
  intros Hm Hk d. wp_pure. eapply wp_mono; [apply Hm| |done]. intros x d' Hd. eapply wp_mono; [apply Hk| |done].
  intros y d'' Hd'. exact (extends_trans _ _ _ Hd Hd').
Qed.
Lemma growing_ret {A} (x : A) : growing (mret x).
Proof. intros d. wp_pure. apply extends_refl. Qed.
Lemma growing_throw {A} e : growing (A := A) (throw e).
Proof. intros d. by wp_pure. Qed.
Lemma growing_lift {A} (r : result IdentityAuthorityError A) : growing (lift r).
Proof. intros d. apply wp_lift; [intros; apply extends_refl|done]. Qed.
Lemma growing_reading {A} (f : IdDb -> A) : growing (reading f).
Proof. intros d. wp_pure. apply extends_refl. Qed.
Lemma growing_writing f : (forall d, extends d (f d)) -> growing (writing f).
Proof. intros Hf d. wp_pure. apply Hf. Qed.
Lemma growing_insert_row {K V} `{Countable K} (get : IdDb -> gmap K V) put allowed k v :
  (forall d, get d !! k = None -> extends d (put (<[k := v]> (get d)) d)) -> growing (insert_row get put refused allowed k v).
Proof. intros Hp d. apply wp_insert_row; [|done]. intros Hk _. by apply Hp. Qed.

Create HintDb growing.
#[local] Hint Resolve growing_ret growing_throw growing_lift growing_reading : growing.

(** Walks through a transaction; what remains are its own statements. *)
Ltac grow :=
  repeat (match goal with
  | |- growing (_ ≫= _) => apply growing_bind; [|intros ?]
  | |- growing (match ?x with _ => _ end) => destruct x
  | |- growing (if ?x then _ else _) => destruct x
  | |- growing (let '(_, _) := ?x in _) => destruct x
  end; cbv zeta); eauto with growing.

Lemma grow_current k : growing (load_current_binding k).
Proof. unfold load_current_binding. grow. Qed.
Lemma grow_version b : growing (insert_key_version b).
Proof. unfold insert_key_version. grow. apply growing_insert_row. intros d Hn. split; try done; [by apply insert_subseteq|by eauto]. Qed.
Lemma grow_snapshot s dm g p pol t c : growing (insert_snapshot s dm g p pol t c).
Proof. unfold insert_snapshot. grow. apply growing_insert_row. intros d Hn. split; try done; [by apply insert_subseteq|by eauto]. Qed.
Lemma grow_member s p : growing (insert_member s p).
Proof. apply growing_insert_row. intros d Hn. split; try done; [by apply insert_subseteq|by eauto]. Qed.
Lemma grow_key_binding s k g : growing (insert_binding s k g).
Proof. apply growing_insert_row. intros d Hn. split; try done; [by apply insert_subseteq|by eauto]. Qed.
Lemma grow_head k row : growing (insert_head k row).
Proof.
  apply growing_insert_row. intros d Hn. split; try done. intros k' h Hh. exists h. split; [|done]. db_simpl.
  rewrite lookup_insert_ne; [done|congruence].
Qed.
Lemma grow_update_head n k g : growing (update_head n k g).
Proof.
  intros d. unfold update_head. do 2 wp_pure. destruct (id_heads d !! k) as [h|] eqn:Eh; [|wp_pure; apply extends_refl].
  wp_case as Hc; [wp_pure; apply extends_refl|]. do 3 wp_pure. split; try done. intros k' h' Hh'. db_simpl.
  destruct (decide (k' = k)) as [->|Hne]; [rewrite lookup_insert_eq; simplify_map_eq; by eexists|rewrite lookup_insert_ne by done; by eexists].
Qed.
Lemma grow_update_domain a1 a2 a3 a4 a5 a6 : growing (update_domain a1 a2 a3 a4 a5 a6).
Proof. unfold update_domain. grow. apply growing_writing. intros. by apply extends_same. Qed.
Lemma grow_rest :
  (forall k row, growing (insert_principal k row)) /\ (forall k row, growing (insert_domain k row)) /\
  (forall k row, growing (insert_revocation k row)) /\ (forall k row, growing (insert_rotation k row)) /\
  (forall k row, growing (insert_custody k row)) /\ (forall k row, growing (insert_session k row)).
Proof. repeat split; intros; apply growing_insert_row; intros; by apply extends_same. Qed.

#[local] Hint Resolve grow_current grow_version grow_snapshot grow_member grow_key_binding grow_head grow_update_head
  grow_update_domain : growing.

Lemma grow_advance b next t k : growing (advance_key b next t k).
Proof. unfold advance_key, load_domain_policy. grow. Qed.
Lemma grow_fenced k g s t : growing (fenced_binding k g s t).
Proof. unfold fenced_binding. grow. Qed.
Lemma grow_next b i : growing (next_generations b i).
Proof. unfold next_generations. grow. Qed.
Lemma grow_live k g : growing (live_binding k g).
Proof. unfold live_binding, ensure_key_generation_not_revoked. grow. Qed.
#[local] Hint Resolve grow_advance grow_fenced grow_next grow_live : growing.

Lemma id_step_extends d q : extends d (id_step d q).1 \/ (exists n, q = IdReopen n).
Proof.
  destruct grow_rest as (Hp & Hd & Hr & Ho & Hc & Hs).
  assert (Hrun : forall A (m : id_tx A), growing m -> extends d (run_tx m d).1).
  { intros A m Hm. specialize (Hm d). unfold wp, run_tx in *. destruct (m d) as [[x d']|e]; [done|apply extends_refl]. }
  assert (Hlift : forall A (m : id_tx A) (w : result IdentityAuthorityError A -> IdAnswer), growing m -> extends d (let '(d', a) := run_tx m d in (d', w a)).1).
  { intros A m w Hm. specialize (Hrun A m Hm). by destruct (run_tx m d). }
  destruct q; [left..|by eauto]; apply Hlift.
  - unfold bootstrap_principal, load_binding_by_bootstrap_key, load_binding_at_snapshot, bootstrap_matches, insert_bootstrap. grow.
  - unfold revoke_key, load_revocation_by_key. grow.
  - unfold rotate_key, load_rotation_by_key. grow.
  - unfold register_custody_binding, load_custody_by_idempotency, load_custody_by_generation. grow.
  - unfold register_session, load_session_by_idempotency, load_session_by_id. grow.
Qed.

Lemma id_run_extends qs d a : id_sim d a -> Forall id_request_ok qs -> extends d (id_run d qs).1.
Proof.
  revert d a. induction qs as [|q qs IH]; intros d a Hsim Hok; [apply extends_refl|]. apply Forall_cons in Hok as [Hq Hok]. cbn.
  pose proof (id_step_extends d q) as Hext. pose proof (id_step_implements d a q Hsim Hq) as Hstep.
  assert (Hext' : extends d (id_step d q).1).
  { destruct Hext as [|[n ->]]; [done|]. cbn. unfold id_open. rewrite (is_schema _ _ Hsim). apply extends_refl. }
  clear Hext. destruct (id_step d q) as [d' x]. assert (exists a', id_sim d' a') as [a' Hs].
  { destruct Hstep as [(_ & _ & Hs)|(e & _ & -> & _)]; by eauto. }
  specialize (IH d' a' Hs Hok). destruct (id_run d' qs). by eapply extends_trans.
Qed.

Lemma snapshot_row_extends d d' s k row h g kv : extends d d' -> snapshot_row d s k = Some (row, h, g, kv) ->
  exists h', snapshot_row d' s k = Some (row, h', g, kv) /\ kh_principal_id h' = kh_principal_id h /\
    kh_control_domain_id h' = kh_control_domain_id h.
Proof.
  intros [Ev Em Eb Es Eh]. unfold snapshot_row. intros Hrow. simplify_option_eq.
  destruct (Eh _ _ ltac:(eassumption)) as (h' & Hh' & Hp & Hd). exists h'.
  assert (id_snapshots d' !! s = Some row) as -> by (by eapply lookup_weaken). cbn.
  assert (id_bindings d' !! (s, k) = Some g) as -> by (by eapply lookup_weaken). cbn. rewrite Hh'. cbn.
  assert (id_versions d' !! (k, g) = Some kv) as -> by (by eapply lookup_weaken). cbn. rewrite Hp.
  assert (id_members d' !! (s, kh_principal_id h) = Some ()) as -> by (eapply lookup_weaken; [|done]; match goal with H : id_members d !! _ = Some ?u |- _ => by destruct u end).
  done.
Qed.

(** The binding a snapshot shows, as a function of the tables. *)
Lemma run_at_snapshot d s k : (run_tx (inspect_binding_at_snapshot s k) d).2 =
  match snapshot_row d s k with
  | None => Err (IdentitySnapshotNotFound s)
  | Some (row, h, g, kv) => decode_binding (kh_principal_id h) (kh_control_domain_id h) s (sn_generation row) k g kv
  end.
Proof.
  unfold run_tx, inspect_binding_at_snapshot, load_binding_at_snapshot, mbind, txn_bind, reading, lift.
  destruct (snapshot_row d s k) as [[[[row h] g] kv]|]; [|done]. by destruct (decode_binding _ _ _ _ _ _ _).
Qed.

(** C29. History is kept: every binding that was ever current can be read at its snapshot,
    exactly as it was, after any further requests and reopens, rotations and revocations
    of the key included; and whatever a snapshot has once shown of a key it shows for
    good. *)
Theorem snapshots_are_immutable qs more k : Forall id_request_ok qs -> Forall id_request_ok more ->
  let d := (id_run new_identity_file qs).1 in
  let d' := (id_run d more).1 in
  (forall b, (run_tx (inspect_current_binding k) d).2 = Ok b ->
     (run_tx (inspect_binding_at_snapshot (ib_identity_snapshot_id b) k) d').2 = Ok b) /\
  (forall s b, (run_tx (inspect_binding_at_snapshot s k) d).2 = Ok b -> (run_tx (inspect_binding_at_snapshot s k) d').2 = Ok b).
Proof.
  intros Hqs Hmore d d'. destruct (run_sim qs _ _ new_file_sim Hqs) as (a & Hsim & _). fold d in Hsim.
  pose proof (id_run_extends more d a Hsim Hmore) as Hext. fold d' in Hext.
  assert (Hkeep : forall s b, (run_tx (inspect_binding_at_snapshot s k) d).2 = Ok b -> (run_tx (inspect_binding_at_snapshot s k) d').2 = Ok b).
  { intros s b. rewrite !run_at_snapshot. destruct (snapshot_row d s k) as [[[[row h] g] kv]|] eqn:Erow; [|done].
    destruct (snapshot_row_extends _ _ _ _ _ _ _ _ Hext Erow) as (h' & -> & -> & ->). done. }
  split; [|done]. intros b Hb. apply Hkeep. rewrite (run_inspect Hsim) in Hb. destruct (ai_current a !! k) as [b'|] eqn:Ek; [|done].
  injection Hb as ->. destruct (is_current _ _ Hsim _ _ Ek) as [<- Hst]. rewrite run_at_snapshot.
  pose proof Hst as [[c Hh] _ Hsg Hg Hv Hm Hkb (row & Hrow & Hrg) _ Hval]. unfold snapshot_row.
  rewrite Hrow. cbn. rewrite Hkb. cbn. rewrite Hh. cbn. rewrite Hv. cbn. rewrite Hm. cbn. rewrite Hrg.
  apply decode_binding_version_row; lia || done.
Qed.
End runs.

(** ** Examples *)

(** Signatures that are the sum of key and message, for evaluating the model. *)
Definition sum_signatures : Ed25519 :=
  {| vk_from_bytes := fun k => 0 <? k; verify_strict := fun k m s => s =? k + m |}.

Definition sample_boot : BootstrapPrincipalRequest :=
  {| br_profile_digest := 7; br_policy_digest := 2 ^ 201; br_public_key := 2 ^ 200; br_key_purpose := SemanticSigning;
     br_key_valid_from_ms := 10; br_key_valid_until_ms := 1000; br_idempotency_key := 1; br_created_at_ms := 5 |}.

Definition sample_binding : IdentityBinding := Eval vm_compute in bootstrap_binding (H := checksum_hasher) sample_boot.

Definition sample_rotation : RotateKeyRequest :=
  {| ro_key_id := ib_key_id sample_binding; ro_expected_key_generation := 1;
     ro_expected_identity_snapshot_id := ib_identity_snapshot_id sample_binding; ro_new_public_key := 2 ^ 199;
     ro_new_valid_from_ms := 20; ro_new_valid_until_ms := 2000; ro_idempotency_key := 2; ro_rotated_at_ms := 30 |}.

Definition sample_revocation : RevokeKeyRequest :=
  {| rk_key_id := ib_key_id sample_binding; rk_expected_key_generation := 1;
     rk_expected_identity_snapshot_id := ib_identity_snapshot_id sample_binding; rk_idempotency_key := 3;
     rk_revoked_at_ms := 40 |}.

Lemma identity_refines_witness :
  let qs := [IdBootstrap sample_boot; IdRotate sample_rotation; IdBootstrap sample_boot; IdRevoke sample_revocation] in
  Forall id_request_ok qs /\
  id_open 4 (foldl (fun d n => (id_open n d).1) no_identity_file [1; 0; 2]%nat) = (new_identity_file, Ok ()) /\
  id_follows (H := checksum_hasher) (E := sum_signatures) new_identity_file no_identities qs.
Proof.
  cbv zeta. assert (Hok : Forall id_request_ok [IdBootstrap sample_boot; IdRotate sample_rotation; IdBootstrap sample_boot;
    IdRevoke sample_revocation]) by (repeat constructor; cbn; lia).
  split; [done|]. exact (identity_refines (H := checksum_hasher) (E := sum_signatures) [1; 0; 2]%nat _ Hok).
Defined.

Lemma revocation_is_final_witness :
  exists rc, (id_step (H := checksum_hasher) (E := sum_signatures)
    (id_run (H := checksum_hasher) (E := sum_signatures) new_identity_file [IdBootstrap sample_boot]).1 (IdRevoke sample_revocation)).2 =
      RevokeAnswer (Ok (KeyRevokedNow rc)) /\
  key_dead (H := checksum_hasher) (E := sum_signatures)
    (id_run (H := checksum_hasher) (E := sum_signatures) (id_step (H := checksum_hasher) (E := sum_signatures)
      (id_run (H := checksum_hasher) (E := sum_signatures) new_identity_file [IdBootstrap sample_boot]).1 (IdRevoke sample_revocation)).1
      [IdRotate sample_rotation; IdReopen 4]).1
    (rk_key_id sample_revocation) (ib_principal_id sample_binding) 1.
Proof.
  eexists. split; [vm_compute; reflexivity|].
  eapply (revocation_is_final (H := checksum_hasher) (E := sum_signatures) [IdBootstrap sample_boot] sample_revocation _
    [IdRotate sample_rotation; IdReopen 4] sample_binding);
    [repeat constructor; cbn; lia|repeat constructor; cbn; lia|vm_compute; reflexivity|vm_compute; reflexivity].
Defined.

Lemma snapshots_are_immutable_witness :
  let d := (id_run (H := checksum_hasher) (E := sum_signatures) new_identity_file [IdBootstrap sample_boot]).1 in
  let d' := (id_run (H := checksum_hasher) (E := sum_signatures) d [IdRotate sample_rotation]).1 in
  (run_tx (inspect_current_binding (ib_key_id sample_binding)) d').2 <> Ok sample_binding /\
  (run_tx (inspect_binding_at_snapshot (ib_identity_snapshot_id sample_binding) (ib_key_id sample_binding)) d').2 = Ok sample_binding.
Proof.
  cbv zeta. split; [vm_compute; discriminate|].
  refine (proj1 (snapshots_are_immutable (H := checksum_hasher) (E := sum_signatures) [IdBootstrap sample_boot] [IdRotate sample_rotation]
    (ib_key_id sample_binding) _ _) sample_binding _); [repeat constructor; cbn; lia|repeat constructor; cbn; lia|vm_compute; reflexivity].
Defined.
