(* ===== verification/Capability.v ===== *)
(** * Capability: issuing, delegating, revoking and using capabilities

    Models nlos-capability/src/lib.rs, model.rs, namespace.rs and schema.rs: the tables of
    capabilities, their versions, the receipts of commands and the consumption ledger with
    the constraints of the schema, and every operation of [CapabilityAuthority]. The
    identity authority is a store of its own that other threads may change between the
    reads of one command, so a command takes the identity tables as they are at each of
    its reads. *)

From S2P Require Import Prelude Bytes Txn Clock Identity.

(** ** Rights and targets *)

(** A set of rights is its bits; only [from_bits], the constants and [union] make one. *)
Definition SEMANTIC_APPEND : Z := 1.
Definition SEMANTIC_RETRACT : Z := 2.
Definition SEMANTIC_ADJUDICATE : Z := 4.
Definition DELEGATE : Z := 8.
Definition ALLOWED : Z := Z.lor (Z.lor SEMANTIC_APPEND SEMANTIC_RETRACT) (Z.lor SEMANTIC_ADJUDICATE DELEGATE).

Definition from_bits (bits : Z) : option Z :=
  if decide (bits <> 0 /\ Z.land bits (u64_max - ALLOWED) = 0) then Some bits else None.
Definition contains (self required : Z) : bool := bool_decide (Z.land self required = required).
Definition is_subset_of (self parent : Z) : bool := contains parent self.

Inductive CapabilityTarget := NamespaceTarget (id : Z) | TaskTarget (id : Z).
#[export] Instance CapabilityTarget_eq_dec : EqDecision CapabilityTarget.
Proof. solve_decision. Defined.

Definition target_kind (t : CapabilityTarget) : Z := match t with NamespaceTarget _ => 1 | TaskTarget _ => 2 end.
Definition target_id (t : CapabilityTarget) : Z := match t with NamespaceTarget id | TaskTarget id => id end.
Definition decode_target (kind id : Z) : option CapabilityTarget :=
  if decide (kind = 1) then Some (NamespaceTarget id)
  else if decide (kind = 2) then Some (TaskTarget id)
  else None.

(** The loop of [namespace_prefix_len] from [len] bytes down. *)
Fixpoint prefix_len (len : nat) (b : bytes) : nat :=
  match len with
  | O => O
  | S n => if decide (nth n b 0 = 0) then prefix_len n b else len
  end.
Definition namespace_prefix_len (b : bytes) : nat := prefix_len 16 b.

Definition namespace_is_within (child ancestor : Z) : bool :=
  let n := namespace_prefix_len (be_bytes 16 ancestor) in
  bool_decide (take n (be_bytes 16 child) = take n (be_bytes 16 ancestor)).

Definition target_is_within (requested granted : CapabilityTarget) : bool :=
  match requested, granted with
  | TaskTarget r, TaskTarget g => bool_decide (r = g)
  | NamespaceTarget r, NamespaceTarget g => namespace_is_within r g
  | _, _ => false
  end.

(** ** Data *)

Record CapabilityHandle := { hd_capability_id : Z; hd_generation : Z }.
#[export] Instance CapabilityHandle_eq_dec : EqDecision CapabilityHandle.
Proof. solve_decision. Defined.

Record CapabilityRecord := {
  ca_handle : CapabilityHandle;
  ca_issuer : Z;
  ca_issuer_control_domain : Z;
  ca_holder : Z;
  ca_holder_control_domain : Z;
  ca_target : CapabilityTarget;
  ca_rights : Z;
  ca_purpose_digest : option Z;
  ca_valid_from_ms : Z;
  ca_valid_until_ms : Z;
  ca_delegation_depth_remaining : Z;
  ca_call_limit : option Z;
  ca_parent : option CapabilityHandle;
  ca_revoked_at_ms : option Z;
}.

Record IssueRootCapabilityRequest := {
  ir_issuer_key_id : Z;
  ir_holder_key_id : Z;
  ir_target : CapabilityTarget;
  ir_rights : Z;
  ir_purpose_digest : option Z;
  ir_valid_from_ms : Z;
  ir_valid_until_ms : Z;
  ir_delegation_depth_remaining : Z;
  ir_call_limit : option Z;
  ir_idempotency_key : Z;
  ir_issued_at_ms : Z;
}.

Record SignedIssueRootCapabilityRequest := { si_command : IssueRootCapabilityRequest; si_signer : Z; si_signature : Z }.

Record DelegateCapabilityRequest := {
  dl_parent : CapabilityHandle;
  dl_delegator_key_id : Z;
  dl_recipient_key_id : Z;
  dl_target : CapabilityTarget;
  dl_rights : Z;
  dl_purpose_digest : option Z;
  dl_valid_from_ms : Z;
  dl_valid_until_ms : Z;
  dl_delegation_depth_remaining : Z;
  dl_call_limit : option Z;
  dl_idempotency_key : Z;
  dl_delegated_at_ms : Z;
}.

Record SignedDelegateCapabilityRequest := { sd_command : DelegateCapabilityRequest; sd_signer : Z; sd_signature : Z }.

Record CapabilityIssueReceipt := {
  ci_receipt_id : Z;
  ci_capability_id : Z;
  ci_generation : Z;
  ci_parent : option CapabilityHandle;
  ci_issued_at_ms : Z;
}.

Inductive CapabilityIssueDecision :=
  | Issued (record : CapabilityRecord) (receipt : CapabilityIssueReceipt)
  | IssueReplayed (record : CapabilityRecord) (receipt : CapabilityIssueReceipt).

Record RevokeCapabilityRequest := {
  rp_handle : CapabilityHandle;
  rp_revoker_key_id : Z;
  rp_idempotency_key : Z;
  rp_revoked_at_ms : Z;
}.

Record SignedRevokeCapabilityRequest := { sv_command : RevokeCapabilityRequest; sv_signer : Z; sv_signature : Z }.

Record CapabilityRevocationReceipt := {
  cv_receipt_id : Z;
  cv_capability_id : Z;
  cv_prior_generation : Z;
  cv_resulting_generation : Z;
  cv_revoker : Z;
  cv_revoked_at_ms : Z;
}.

Inductive CapabilityRevocationDecision :=
  | CapabilityRevokedNow (receipt : CapabilityRevocationReceipt)
  | RevocationReplayed (receipt : CapabilityRevocationReceipt).

Record AuthorizeSemanticRequest := {
  az_handle : CapabilityHandle;
  az_signer : VerifiedSemanticSigner;
  az_target : CapabilityTarget;
  az_required_right : Z;
  az_purpose_digest : option Z;
  az_admitted_at_ms : Z;
}.

Record SemanticAuthorization := {
  sa_capability_id : Z;
  sa_generation : Z;
  sa_holder : Z;
  sa_target : CapabilityTarget;
  sa_granted_rights : Z;
  sa_purpose_digest : option Z;
}.

Record ConsumeCapabilityRequest := {
  co_handle : CapabilityHandle;
  co_signer : VerifiedSemanticSigner;
  co_target : CapabilityTarget;
  co_required_right : Z;
  co_purpose_digest : option Z;
  co_idempotency_key : Z;
  co_consumed_at_ms : Z;
}.

Record CapabilityConsumptionReceipt := {
  cc_receipt_id : Z;
  cc_capability_id : Z;
  cc_generation : Z;
  cc_remaining : option Z;
  cc_consumed_at_ms : Z;
}.

Inductive CapabilityConsumptionDecision :=
  | Consumed (receipt : CapabilityConsumptionReceipt)
  | ConsumptionReplayed (receipt : CapabilityConsumptionReceipt).

(** Without the errors of opening the file itself and [LockPoisoned], as in [Identity]. *)
Inductive CapabilityAuthorityError :=
  | CapSqlite (e : SqliteError)
  | CapIdentity (e : IdentityAuthorityError)
  | CapSchemaVersionUnsupported (version : Z)
  | CapabilityNotFound (id : Z)
  | CapIdempotencyConflict
  | InvalidValidity
  | InvalidCallLimit
  | IdentityKeyInactive (id : Z)
  | SignatureInvalid
  | PrincipalUnknown (id : Z)
  | CapKeyRevoked
  | GenerationFenceConflict
  | CapabilityRevoked
  | CapabilityNotYetValid
  | CapabilityExpired
  | AncestorRevokedOrFenced
  | DelegatorMismatch
  | RevokerUnauthorized
  | DelegationNotAllowed
  | RightsAmplification
  | ScopeAmplification
  | PurposeAmplification
  | ValidityAmplification
  | CallLimitAmplification
  | DelegationDepthAmplification
  | HolderMismatch
  | TargetMismatch
  | RequiredRightMissing
  | PurposeMismatch
  | CapGenerationExhausted
  | CallLimitExhausted
  | CapCorrupt (reason : string).

(** ** Tables *)

Record CapHeadRow := {
  ch_current_generation : Z;
  ch_issuer_principal_id : Z;
  ch_issuer_control_domain_id : Z;
  ch_holder_principal_id : Z;
  ch_holder_control_domain_id : Z;
  ch_target_kind : Z;
  ch_target_id : Z;
  ch_rights : Z;
  ch_purpose_digest : option Z;
  ch_valid_from_ms : Z;
  ch_valid_until_ms : Z;
  ch_delegation_depth_remaining : Z;
  ch_call_limit : option Z;
  ch_parent_capability_id : option Z;
  ch_parent_generation : option Z;
  ch_created_at_ms : Z;
}.

Record CapIssueRow := {
  xi_request_digest : Z;
  xi_receipt_id : Z;
  xi_capability_id : Z;
  xi_generation : Z;
  xi_parent_capability_id : option Z;
  xi_parent_generation : option Z;
  xi_issued_at_ms : Z;
}.

Record CapRevocationRow := {
  xr_request_digest : Z;
  xr_receipt_id : Z;
  xr_capability_id : Z;
  xr_prior_generation : Z;
  xr_resulting_generation : Z;
  xr_revoker_principal_id : Z;
  xr_revoked_at_ms : Z;
}.

Record ConsumptionRow := {
  xc_request_digest : Z;
  xc_receipt_id : Z;
  xc_capability_id : Z;
  xc_generation : Z;
  xc_remaining : option Z;
  xc_consumed_at_ms : Z;
}.

(** By primary key: versions by capability and generation (the time of revocation),
    receipts and consumptions by idempotency key. *)
Record CapDb := {
  cp_heads : gmap Z CapHeadRow;
  cp_versions : gmap (Z * Z) (option Z);
  cp_issues : gmap Z CapIssueRow;
  cp_revocations : gmap Z CapRevocationRow;
  cp_consumptions : gmap Z ConsumptionRow;
  cp_user_version : Z;
  cp_v1_tables : bool;
  cp_v2_tables : bool;
}.

#[export] Instance eta_cap_head : Eta CapHeadRow := fun x =>
  Build_CapHeadRow (ch_current_generation x) (ch_issuer_principal_id x) (ch_issuer_control_domain_id x)
    (ch_holder_principal_id x) (ch_holder_control_domain_id x) (ch_target_kind x) (ch_target_id x) (ch_rights x)
    (ch_purpose_digest x) (ch_valid_from_ms x) (ch_valid_until_ms x) (ch_delegation_depth_remaining x) (ch_call_limit x)
    (ch_parent_capability_id x) (ch_parent_generation x) (ch_created_at_ms x).
#[export] Instance set_ch_current_generation : Setter ch_current_generation. Proof. build_setter. Defined.

#[export] Instance eta_capdb : Eta CapDb := fun x =>
  Build_CapDb (cp_heads x) (cp_versions x) (cp_issues x) (cp_revocations x) (cp_consumptions x) (cp_user_version x)
    (cp_v1_tables x) (cp_v2_tables x).
#[export] Instance set_cp_heads : Setter cp_heads. Proof. build_setter. Defined.
#[export] Instance set_cp_versions : Setter cp_versions. Proof. build_setter. Defined.
#[export] Instance set_cp_issues : Setter cp_issues. Proof. build_setter. Defined.
#[export] Instance set_cp_revocations : Setter cp_revocations. Proof. build_setter. Defined.
#[export] Instance set_cp_consumptions : Setter cp_consumptions. Proof. build_setter. Defined.
#[export] Instance set_cp_user_version : Setter cp_user_version. Proof. build_setter. Defined.
#[export] Instance set_cp_v1_tables : Setter cp_v1_tables. Proof. build_setter. Defined.
#[export] Instance set_cp_v2_tables : Setter cp_v2_tables. Proof. build_setter. Defined.

Abbreviation cap_tx := (txn CapDb CapabilityAuthorityError).
Definition cap_refused : CapabilityAuthorityError := CapSqlite ConstraintViolation.

(** ** Schema *)

Definition CAPABILITY_SCHEMA_VERSION : Z := 2.

Definition no_capability_file : CapDb :=
  {| cp_heads := ∅; cp_versions := ∅; cp_issues := ∅; cp_revocations := ∅; cp_consumptions := ∅; cp_user_version := 0;
     cp_v1_tables := false; cp_v2_tables := false |}.

Definition cap_migrate_v1 : cap_tx () :=
  exists_ ← reading cp_v1_tables;
  if (exists_ : bool) then throw (CapSqlite ObjectExists)
  else writing (fun d => d <| cp_v1_tables := true |> <| cp_user_version := 1 |>).
Definition cap_migrate_v2 : cap_tx () :=
  exists_ ← reading cp_v2_tables;
  if (exists_ : bool) then throw (CapSqlite ObjectExists)
  else writing (fun d => d <| cp_v2_tables := true |> <| cp_user_version := 2 |>).

(** Opening the file; a process may die between the migrations ([dies]). *)
Definition cap_open (dies : bool) (d : CapDb) : CapDb * result CapabilityAuthorityError () :=
  let version := cp_user_version d in
  if decide (version = 0) then
    match run_tx cap_migrate_v1 d with
    | (d, Err e) => (d, Err e)
    | (d, Ok _) => if dies then (d, Ok ()) else run_tx cap_migrate_v2 d
    end
  else if decide (version = 1) then (if dies then (d, Ok ()) else run_tx cap_migrate_v2 d)
  else if decide (version = CAPABILITY_SCHEMA_VERSION) then (d, Ok ())
  else (d, Err (CapSchemaVersionUnsupported version)).

(** ** Encoding *)

Definition cap_encode_u64 (value : Z) : result CapabilityAuthorityError Z :=
  if decide (value <= i64_max) then Ok value else Err (CapCorrupt "u64 exceeds SQLite").
Definition cap_decode_u64 (value : Z) : result CapabilityAuthorityError Z :=
  if decide (0 <= value) then Ok value else Err (CapCorrupt "negative integer").
Definition cap_decode_generation (value : Z) : result CapabilityAuthorityError Z :=
  match cap_decode_u64 value with
  | Err e => Err e
  | Ok v => if decide (v = 0) then Err (CapCorrupt "zero generation") else Ok v
  end.
Definition cap_encode_optional (value : option Z) : result CapabilityAuthorityError (option Z) :=
  match value with
  | None => Ok None
  | Some v => match cap_encode_u64 v with Ok v => Ok (Some v) | Err e => Err e end
  end.
Definition cap_decode_optional (value : option Z) : result CapabilityAuthorityError (option Z) :=
  match value with
  | None => Ok None
  | Some v => match cap_decode_u64 v with Ok v => Ok (Some v) | Err e => Err e end
  end.

Definition encode_parent (parent : option CapabilityHandle) : result CapabilityAuthorityError (option Z * option Z) :=
  match parent with
  | None => Ok (None, None)
  | Some h => match cap_encode_u64 (hd_generation h) with Ok g => Ok (Some (hd_capability_id h), Some g) | Err e => Err e end
  end.
Definition decode_parent (id generation : option Z) : result CapabilityAuthorityError (option CapabilityHandle) :=
  match id, generation with
  | Some id, Some value =>
      match cap_decode_generation value with
      | Ok g => Ok (Some {| hd_capability_id := id; hd_generation := g |})
      | Err e => Err e
      end
  | None, None => Ok None
  | _, _ => Err (CapCorrupt "partial parent")
  end.

(** ** Digests *)

Definition hash_optional_digest (value : option Z) : bytes := match value with Some v => [1] ++ be_bytes 32 v | None => [0] end.
Definition hash_optional_u64 (value : option Z) : bytes := match value with Some v => [1] ++ be_bytes 8 v | None => [0] end.

Definition hash_issue_fields (r : IssueRootCapabilityRequest) : bytes :=
  be_bytes 16 (ir_issuer_key_id r) ++ be_bytes 16 (ir_holder_key_id r) ++ [target_kind (ir_target r)]
  ++ be_bytes 16 (target_id (ir_target r)) ++ be_bytes 8 (ir_rights r) ++ hash_optional_digest (ir_purpose_digest r)
  ++ be_bytes 8 (ir_valid_from_ms r) ++ be_bytes 8 (ir_valid_until_ms r) ++ [ir_delegation_depth_remaining r]
  ++ hash_optional_u64 (ir_call_limit r) ++ be_bytes 16 (ir_idempotency_key r) ++ be_bytes 8 (ir_issued_at_ms r).

Definition hash_delegate_fields (r : DelegateCapabilityRequest) : bytes :=
  be_bytes 16 (hd_capability_id (dl_parent r)) ++ be_bytes 8 (hd_generation (dl_parent r))
  ++ be_bytes 16 (dl_delegator_key_id r) ++ be_bytes 16 (dl_recipient_key_id r) ++ [target_kind (dl_target r)]
  ++ be_bytes 16 (target_id (dl_target r)) ++ be_bytes 8 (dl_rights r) ++ hash_optional_digest (dl_purpose_digest r)
  ++ be_bytes 8 (dl_valid_from_ms r) ++ be_bytes 8 (dl_valid_until_ms r) ++ [dl_delegation_depth_remaining r]
  ++ hash_optional_u64 (dl_call_limit r) ++ be_bytes 16 (dl_idempotency_key r) ++ be_bytes 8 (dl_delegated_at_ms r).

Definition hash_revoke_fields (r : RevokeCapabilityRequest) : bytes :=
  be_bytes 16 (hd_capability_id (rp_handle r)) ++ be_bytes 8 (hd_generation (rp_handle r))
  ++ be_bytes 16 (rp_revoker_key_id r) ++ be_bytes 16 (rp_idempotency_key r) ++ be_bytes 8 (rp_revoked_at_ms r).

Definition COMMAND_MESSAGE_DOMAIN : bytes := Eval vm_compute in bytes_of_string "nlos/capability/command/v1".

Section digests.
Context {H : Sha256}.

Definition root_request_digest (r : IssueRootCapabilityRequest) : Z :=
  sha256 (bytes_of_string "nlos/capability-root-request/v1" ++ hash_issue_fields r).
Definition delegate_request_digest (r : DelegateCapabilityRequest) : Z :=
  sha256 (bytes_of_string "nlos/capability-delegate-request/v1" ++ hash_delegate_fields r).
Definition revoke_request_digest (r : RevokeCapabilityRequest) : Z :=
  sha256 (bytes_of_string "nlos/capability-revoke-request/v1" ++ hash_revoke_fields r).
Definition consume_request_digest (r : ConsumeCapabilityRequest) : Z :=
  sha256 (bytes_of_string "nlos/capability-consume-request/v1" ++ be_bytes 16 (hd_capability_id (co_handle r))
    ++ be_bytes 8 (hd_generation (co_handle r)) ++ be_bytes 16 (vg_principal_id (co_signer r)) ++ [target_kind (co_target r)]
    ++ be_bytes 16 (target_id (co_target r)) ++ be_bytes 8 (co_required_right r) ++ hash_optional_digest (co_purpose_digest r)
    ++ be_bytes 16 (co_idempotency_key r) ++ be_bytes 8 (co_consumed_at_ms r)).

(** What the actor of a command signs. *)
Definition issue_root_command_message (r : IssueRootCapabilityRequest) : Z :=
  sha256 (COMMAND_MESSAGE_DOMAIN ++ [1] ++ hash_issue_fields r).
Definition delegate_command_message (r : DelegateCapabilityRequest) : Z :=
  sha256 (COMMAND_MESSAGE_DOMAIN ++ [2] ++ hash_delegate_fields r).
Definition revoke_command_message (r : RevokeCapabilityRequest) : Z :=
  sha256 (COMMAND_MESSAGE_DOMAIN ++ [3] ++ hash_revoke_fields r).
End digests.

(** ** Statements *)

Definition insert_cap_head (id : Z) (row : CapHeadRow) : cap_tx () :=
  insert_row cp_heads (fun t d => d <| cp_heads := t |>) cap_refused
    (fun d => bool_decide (1 <= ch_target_kind row <= 2) && bool_decide (0 < ch_rights row <= 15)
              && bool_decide (0 <= ch_valid_from_ms row <= ch_valid_until_ms row)
              && bool_decide (0 <= ch_delegation_depth_remaining row <= 255)
              && match ch_call_limit row with Some l => bool_decide (0 < l) | None => true end
              && bool_decide (ch_parent_capability_id row = None <-> ch_parent_generation row = None)
              && match ch_parent_generation row with Some g => bool_decide (1 <= g) | None => true end
              && bool_decide (0 <= ch_created_at_ms row) && bool_decide (1 <= ch_current_generation row)
              && match ch_parent_capability_id row with Some p => bool_decide (p = id) || present (cp_heads d) p | None => true end)
    id row.

Definition insert_cap_version (id generation : Z) (revoked_at : option Z) : cap_tx () :=
  insert_row cp_versions (fun t d => d <| cp_versions := t |>) cap_refused
    (fun d => present (cp_heads d) id && bool_decide (1 <= generation)
              && match revoked_at with Some t => bool_decide (0 <= t) | None => true end
              && bool_decide (generation = 1 <-> revoked_at = None))
    (id, generation) revoked_at.

Definition insert_issue_receipt (key : Z) (row : CapIssueRow) : cap_tx () :=
  insert_row cp_issues (fun t d => d <| cp_issues := t |>) cap_refused
    (fun d => negb (any_row (fun _ r => bool_decide (xi_receipt_id r = xi_receipt_id row \/ xi_capability_id r = xi_capability_id row))
                      (cp_issues d))
              && bool_decide (xi_generation row = 1) && bool_decide (0 <= xi_issued_at_ms row)
              && match xi_parent_generation row with Some g => bool_decide (1 <= g) | None => true end
              && bool_decide (xi_parent_capability_id row = None <-> xi_parent_generation row = None)
              && present (cp_versions d) (xi_capability_id row, xi_generation row)
              && match xi_parent_capability_id row with Some p => present (cp_heads d) p | None => true end)
    key row.

(** The trigger on the table only concerns the other columns. *)
Definition update_cap_head (next id expected : Z) : cap_tx Z :=
  row ← reading (fun d => cp_heads d !! id);
  match row with
  | None => mret 0
  | Some h =>
      if decide (ch_current_generation h <> expected) then mret 0
      else _ ← writing (fun d => d <| cp_heads := <[id := h <| ch_current_generation := next |>]> (cp_heads d) |>); mret 1
  end.

Definition insert_cap_revocation (key : Z) (row : CapRevocationRow) : cap_tx () :=
  insert_row cp_revocations (fun t d => d <| cp_revocations := t |>) cap_refused
    (fun d => negb (any_row (fun _ r => bool_decide (xr_receipt_id r = xr_receipt_id row)) (cp_revocations d))
              && bool_decide (1 <= xr_prior_generation row) && bool_decide (0 <= xr_revoked_at_ms row)
              && bool_decide (xr_resulting_generation row = xr_prior_generation row + 1)
              && present (cp_versions d) (xr_capability_id row, xr_resulting_generation row))
    key row.

Definition insert_consumption (key : Z) (row : ConsumptionRow) : cap_tx () :=
  insert_row cp_consumptions (fun t d => d <| cp_consumptions := t |>) cap_refused
    (fun d => negb (any_row (fun _ r => bool_decide (xc_receipt_id r = xc_receipt_id row)) (cp_consumptions d))
              && match xc_remaining row with Some n => bool_decide (0 <= n) | None => true end
              && bool_decide (1 <= xc_generation row) && bool_decide (0 <= xc_consumed_at_ms row)
              && present (cp_versions d) (xc_capability_id row, xc_generation row))
    key row.

(** ** Queries *)

Definition decode_record (handle : CapabilityHandle) (h : CapHeadRow) (revoked_at : option Z) :
    result CapabilityAuthorityError CapabilityRecord :=
  match ok_or (decode_target (ch_target_kind h) (ch_target_id h)) (CapCorrupt "target kind"), cap_decode_u64 (ch_rights h),
        cap_decode_u64 (ch_valid_from_ms h), cap_decode_u64 (ch_valid_until_ms h) with
  | Err e, _, _, _ | _, Err e, _, _ => Err e
  | Ok target, Ok bits, from, until =>
      match ok_or (from_bits bits) (CapCorrupt "rights"), from, until with
      | Err e, _, _ | _, Err e, _ | _, _, Err e => Err e
      | Ok rights, Ok valid_from, Ok valid_until =>
          if decide (~ 0 <= ch_delegation_depth_remaining h <= 255) then Err (CapCorrupt "delegation depth") else
          match cap_decode_optional (ch_call_limit h), decode_parent (ch_parent_capability_id h) (ch_parent_generation h),
                cap_decode_optional revoked_at with
          | Err e, _, _ | _, Err e, _ | _, _, Err e => Err e
          | Ok call_limit, Ok parent, Ok revoked_at =>
              Ok {| ca_handle := handle; ca_issuer := ch_issuer_principal_id h;
                    ca_issuer_control_domain := ch_issuer_control_domain_id h; ca_holder := ch_holder_principal_id h;
                    ca_holder_control_domain := ch_holder_control_domain_id h; ca_target := target; ca_rights := rights;
                    ca_purpose_digest := ch_purpose_digest h; ca_valid_from_ms := valid_from;
                    ca_valid_until_ms := valid_until; ca_delegation_depth_remaining := ch_delegation_depth_remaining h;
                    ca_call_limit := call_limit; ca_parent := parent; ca_revoked_at_ms := revoked_at |}
          end
      end
  end.

Definition load_record_generation (id generation : Z) : cap_tx (option CapabilityRecord) :=
  raw ← lift (cap_encode_u64 generation);
  row ← reading (fun d => h ← cp_heads d !! id; v ← cp_versions d !! (id, raw); Some (h, v));
  match row with
  | None => mret None
  | Some (h, v) =>
      record ← lift (decode_record {| hd_capability_id := id; hd_generation := generation |} h v);
      mret (Some record)
  end.

Definition load_current_record (id : Z) : cap_tx (option CapabilityRecord) :=
  row ← reading (fun d => cp_heads d !! id);
  match row with
  | None => mret None
  | Some h => generation ← lift (cap_decode_generation (ch_current_generation h)); load_record_generation id generation
  end.

Definition load_exact_current (handle : CapabilityHandle) : cap_tx CapabilityRecord :=
  found ← load_current_record (hd_capability_id handle);
  current ← lift (ok_or found (CapabilityNotFound (hd_capability_id handle)));
  if decide (hd_generation (ca_handle current) <> hd_generation handle) then throw GenerationFenceConflict else mret current.

(** The loop over [0..=u8::MAX]: [n] records may still be visited, [first] tells the
    capability itself from its ancestors. *)
Fixpoint validate_chain (n : nat) (first : bool) (record : CapabilityRecord) (at_ms : Z) : cap_tx () :=
  match n with
  | O => throw (CapCorrupt "capability ancestor chain exceeds 256")
  | S n =>
      if decide (ca_revoked_at_ms record <> None)
      then throw (if first then CapabilityRevoked else AncestorRevokedOrFenced)
      else if decide (at_ms < ca_valid_from_ms record) then throw CapabilityNotYetValid
      else if decide (ca_valid_until_ms record < at_ms) then throw CapabilityExpired
      else match ca_parent record with
           | None => mret ()
           | Some handle =>
               found ← load_current_record (hd_capability_id handle);
               match found with
               | None => throw AncestorRevokedOrFenced
               | Some parent =>
                   if decide (hd_generation (ca_handle parent) <> hd_generation handle) then throw AncestorRevokedOrFenced
                   else validate_chain n false parent at_ms
               end
           end
  end.
Definition validate_active_chain (record : CapabilityRecord) (at_ms : Z) : cap_tx () := validate_chain 256 true record at_ms.

Definition load_issue_replay (key digest : Z) : cap_tx (option CapabilityIssueDecision) :=
  row ← reading (fun d => cp_issues d !! key);
  match row with
  | None => mret None
  | Some r =>
      if decide (xi_request_digest r <> digest) then throw CapIdempotencyConflict else
      generation ← lift (cap_decode_generation (xi_generation r));
      found ← load_record_generation (xi_capability_id r) generation;
      record ← lift (ok_or found (CapCorrupt "issued capability missing"));
      parent ← lift (decode_parent (xi_parent_capability_id r) (xi_parent_generation r));
      issued_at ← lift (cap_decode_u64 (xi_issued_at_ms r));
      mret (Some (IssueReplayed record
        {| ci_receipt_id := xi_receipt_id r; ci_capability_id := xi_capability_id r; ci_generation := generation;
           ci_parent := parent; ci_issued_at_ms := issued_at |}))
  end.

Definition load_revocation_replay (key digest : Z) : cap_tx (option CapabilityRevocationReceipt) :=
  row ← reading (fun d => cp_revocations d !! key);
  match row with
  | None => mret None
  | Some r =>
      if decide (xr_request_digest r <> digest) then throw CapIdempotencyConflict else
      prior ← lift (cap_decode_generation (xr_prior_generation r));
      resulting ← lift (cap_decode_generation (xr_resulting_generation r));
      revoked_at ← lift (cap_decode_u64 (xr_revoked_at_ms r));
      mret (Some {| cv_receipt_id := xr_receipt_id r; cv_capability_id := xr_capability_id r; cv_prior_generation := prior;
                    cv_resulting_generation := resulting; cv_revoker := xr_revoker_principal_id r;
                    cv_revoked_at_ms := revoked_at |})
  end.

Definition load_consumption_replay (key digest : Z) : cap_tx (option CapabilityConsumptionReceipt) :=
  row ← reading (fun d => cp_consumptions d !! key);
  match row with
  | None => mret None
  | Some r =>
      if decide (xc_request_digest r <> digest) then throw CapIdempotencyConflict else
      generation ← lift (cap_decode_generation (xc_generation r));
      remaining ← lift (cap_decode_optional (xc_remaining r));
      consumed_at ← lift (cap_decode_u64 (xc_consumed_at_ms r));
      mret (Some {| cc_receipt_id := xc_receipt_id r; cc_capability_id := xc_capability_id r; cc_generation := generation;
                    cc_remaining := remaining; cc_consumed_at_ms := consumed_at |})
  end.

Definition count_consumption (id : Z) : cap_tx Z :=
  count ← reading (fun d => count_rows (fun _ r => bool_decide (xc_capability_id r = id)) (cp_consumptions d));
  lift (cap_decode_u64 count).

(** ** The identity authority *)

Definition command_signature_error (error : IdentityAuthorityError) : CapabilityAuthorityError :=
  match error with
  | InvalidSignature => SignatureInvalid
  | PrincipalNotFound id => PrincipalUnknown id
  | KeyRevoked => CapKeyRevoked
  | other => CapIdentity other
  end.

(** Of the identity tables as the call finds them. *)
Definition active_identity (i : IdDb) (key_id at_ms : Z) : result CapabilityAuthorityError IdentityBinding :=
  match (run_tx (inspect_current_binding key_id) i).2 with
  | Err e => Err (CapIdentity e)
  | Ok binding =>
      if decide (ib_key_revoked_at_ms binding <> None \/ at_ms < ib_key_valid_from_ms binding \/ ib_key_valid_until_ms binding < at_ms)
      then Err (IdentityKeyInactive key_id)
      else Ok binding
  end.

Definition require_signed_by (verified : VerifiedCapabilityCommandSigner) (binding : IdentityBinding) :
    result CapabilityAuthorityError () :=
  if decide (cg_principal_id verified = ib_principal_id binding /\ cg_key_id verified = ib_key_id binding) then Ok ()
  else Err SignatureInvalid.

Definition validate_bounds (valid_from_ms valid_until_ms : Z) (call_limit : option Z) : result CapabilityAuthorityError () :=
  if decide (valid_until_ms < valid_from_ms) then Err InvalidValidity
  else if decide (call_limit = Some 0) then Err InvalidCallLimit
  else Ok ().

Definition purpose_is_attenuated (parent child : option Z) : bool :=
  match parent, child with
  | None, _ => true
  | Some expected, Some actual => bool_decide (expected = actual)
  | Some _, None => false
  end.

Definition call_limit_is_attenuated (parent child : option Z) : bool :=
  match parent, child with
  | None, _ => true
  | Some maximum, Some actual => bool_decide (actual <= maximum)
  | Some _, None => false
  end.

(** ** Operations *)

Section cap_operations.
Context {H : Sha256} {E : Ed25519}.

Definition verify_command_signature (i : IdDb) (signer signature message at_ms : Z) :
    result CapabilityAuthorityError VerifiedCapabilityCommandSigner :=
  match (run_tx (verify_capability_command_signature
           {| vc_message_digest := message; vc_principal := signer; vc_signature := signature; vc_verified_at_ms := at_ms |}) i).2 with
  | Ok verified => Ok verified
  | Err e => Err (command_signature_error e)
  end.

Definition new_record (request_digest : Z) (issuer holder : IdentityBinding) (target : CapabilityTarget) (rights : Z)
    (purpose_digest : option Z) (valid_from_ms valid_until_ms delegation_depth_remaining : Z) (call_limit : option Z)
    (parent : option CapabilityHandle) : CapabilityRecord :=
  {| ca_handle := {| hd_capability_id := derive_id "nlos/capability/id/v1" [be_bytes 32 request_digest]; hd_generation := 1 |};
     ca_issuer := ib_principal_id issuer; ca_issuer_control_domain := ib_control_domain_id issuer;
     ca_holder := ib_principal_id holder; ca_holder_control_domain := ib_control_domain_id holder;
     ca_target := target; ca_rights := rights; ca_purpose_digest := purpose_digest; ca_valid_from_ms := valid_from_ms;
     ca_valid_until_ms := valid_until_ms; ca_delegation_depth_remaining := delegation_depth_remaining;
     ca_call_limit := call_limit; ca_parent := parent; ca_revoked_at_ms := None |}.

Definition new_issue_receipt (record : CapabilityRecord) (request_digest issued_at_ms : Z) : CapabilityIssueReceipt :=
  {| ci_receipt_id := derive_id "nlos/capability-issue-receipt/id/v1"
       [be_bytes 16 (hd_capability_id (ca_handle record)); be_bytes 32 request_digest];
     ci_capability_id := hd_capability_id (ca_handle record); ci_generation := hd_generation (ca_handle record);
     ci_parent := ca_parent record; ci_issued_at_ms := issued_at_ms |}.

Definition insert_capability (record : CapabilityRecord) (receipt : CapabilityIssueReceipt) (idempotency_key request_digest : Z) :
    cap_tx () :=
  parent ← lift (encode_parent (ca_parent record));
  rights ← lift (cap_encode_u64 (ca_rights record));
  valid_from ← lift (cap_encode_u64 (ca_valid_from_ms record));
  valid_until ← lift (cap_encode_u64 (ca_valid_until_ms record));
  call_limit ← lift (cap_encode_optional (ca_call_limit record));
  issued_at ← lift (cap_encode_u64 (ci_issued_at_ms receipt));
  let id := hd_capability_id (ca_handle record) in
  _ ← insert_cap_head id
        {| ch_current_generation := 1; ch_issuer_principal_id := ca_issuer record;
           ch_issuer_control_domain_id := ca_issuer_control_domain record; ch_holder_principal_id := ca_holder record;
           ch_holder_control_domain_id := ca_holder_control_domain record; ch_target_kind := target_kind (ca_target record);
           ch_target_id := target_id (ca_target record); ch_rights := rights; ch_purpose_digest := ca_purpose_digest record;
           ch_valid_from_ms := valid_from; ch_valid_until_ms := valid_until;
           ch_delegation_depth_remaining := ca_delegation_depth_remaining record; ch_call_limit := call_limit;
           ch_parent_capability_id := parent.1; ch_parent_generation := parent.2; ch_created_at_ms := issued_at |};
  _ ← insert_cap_version id 1 None;
  insert_issue_receipt idempotency_key
    {| xi_request_digest := request_digest; xi_receipt_id := ci_receipt_id receipt; xi_capability_id := id; xi_generation := 1;
       xi_parent_capability_id := parent.1; xi_parent_generation := parent.2; xi_issued_at_ms := issued_at |}.

(** The identity tables at the check of the signature, at the look-up of the actor and at
    the look-up of the other party. *)
Definition issue_root_signed (i1 i2 i3 : IdDb) (q : SignedIssueRootCapabilityRequest) : cap_tx CapabilityIssueDecision :=
  let r := si_command q in
  _ ← lift (validate_bounds (ir_valid_from_ms r) (ir_valid_until_ms r) (ir_call_limit r));
  let digest := root_request_digest r in
  replay ← load_issue_replay (ir_idempotency_key r) digest;
  match replay with
  | Some decision => mret decision
  | None =>
      verified ← lift (verify_command_signature i1 (si_signer q) (si_signature q) (issue_root_command_message r) (ir_issued_at_ms r));
      issuer ← lift (active_identity i2 (ir_issuer_key_id r) (ir_issued_at_ms r));
      _ ← lift (require_signed_by verified issuer);
      holder ← lift (active_identity i3 (ir_holder_key_id r) (ir_issued_at_ms r));
      let record := new_record digest issuer holder (ir_target r) (ir_rights r) (ir_purpose_digest r) (ir_valid_from_ms r)
                      (ir_valid_until_ms r) (ir_delegation_depth_remaining r) (ir_call_limit r) None in
      let receipt := new_issue_receipt record digest (ir_issued_at_ms r) in
      _ ← insert_capability record receipt (ir_idempotency_key r) digest;
      mret (Issued record receipt)
  end.

(** The attenuation gates, in the order of the code. *)
Definition attenuation (parent : CapabilityRecord) (r : DelegateCapabilityRequest) : result CapabilityAuthorityError () :=
  if negb (contains (ca_rights parent) DELEGATE) then Err DelegationNotAllowed
  else if negb (is_subset_of (dl_rights r) (ca_rights parent)) then Err RightsAmplification
  else if negb (target_is_within (dl_target r) (ca_target parent)) then Err ScopeAmplification
  else if negb (purpose_is_attenuated (ca_purpose_digest parent) (dl_purpose_digest r)) then Err PurposeAmplification
  else if decide (dl_valid_from_ms r < ca_valid_from_ms parent \/ ca_valid_until_ms parent < dl_valid_until_ms r)
  then Err ValidityAmplification
  else if negb (call_limit_is_attenuated (ca_call_limit parent) (dl_call_limit r)) then Err CallLimitAmplification
  else if decide (ca_delegation_depth_remaining parent <= dl_delegation_depth_remaining r) then Err DelegationDepthAmplification
  else Ok ().

Definition delegate_signed (i1 i2 i3 : IdDb) (q : SignedDelegateCapabilityRequest) : cap_tx CapabilityIssueDecision :=
  let r := sd_command q in
  _ ← lift (validate_bounds (dl_valid_from_ms r) (dl_valid_until_ms r) (dl_call_limit r));
  let digest := delegate_request_digest r in
  replay ← load_issue_replay (dl_idempotency_key r) digest;
  match replay with
  | Some decision => mret decision
  | None =>
      parent ← load_exact_current (dl_parent r);
      _ ← validate_active_chain parent (dl_delegated_at_ms r);
      verified ← lift (verify_command_signature i1 (sd_signer q) (sd_signature q) (delegate_command_message r) (dl_delegated_at_ms r));
      delegator ← lift (active_identity i2 (dl_delegator_key_id r) (dl_delegated_at_ms r));
      _ ← lift (require_signed_by verified delegator);
      if decide (ib_principal_id delegator <> ca_holder parent \/ ib_control_domain_id delegator <> ca_holder_control_domain parent)
      then throw DelegatorMismatch else
      recipient ← lift (active_identity i3 (dl_recipient_key_id r) (dl_delegated_at_ms r));
      _ ← lift (attenuation parent r);
      let record := new_record digest delegator recipient (dl_target r) (dl_rights r) (dl_purpose_digest r) (dl_valid_from_ms r)
                      (dl_valid_until_ms r) (dl_delegation_depth_remaining r) (dl_call_limit r) (Some (dl_parent r)) in
      let receipt := new_issue_receipt record digest (dl_delegated_at_ms r) in
      _ ← insert_capability record receipt (dl_idempotency_key r) digest;
      mret (Issued record receipt)
  end.

Definition revoke_signed (i1 i2 : IdDb) (q : SignedRevokeCapabilityRequest) : cap_tx CapabilityRevocationDecision :=
  let r := sv_command q in
  let digest := revoke_request_digest r in
  replay ← load_revocation_replay (rp_idempotency_key r) digest;
  match replay with
  | Some receipt => mret (RevocationReplayed receipt)
  | None =>
      record ← load_exact_current (rp_handle r);
      if decide (ca_revoked_at_ms record <> None) then throw CapabilityRevoked else
      verified ← lift (verify_command_signature i1 (sv_signer q) (sv_signature q) (revoke_command_message r) (rp_revoked_at_ms r));
      revoker ← lift (active_identity i2 (rp_revoker_key_id r) (rp_revoked_at_ms r));
      _ ← lift (require_signed_by verified revoker);
      if decide (ib_principal_id revoker <> ca_issuer record /\ ib_principal_id revoker <> ca_holder record)
      then throw RevokerUnauthorized else
      next ← lift (ok_or (checked_next (hd_generation (ca_handle record))) CapGenerationExhausted);
      raw_next ← lift (cap_encode_u64 next);
      revoked_at ← lift (cap_encode_u64 (rp_revoked_at_ms r));
      _ ← insert_cap_version (hd_capability_id (ca_handle record)) raw_next (Some revoked_at);
      prior ← lift (cap_encode_u64 (hd_generation (rp_handle r)));
      changed ← update_cap_head raw_next (hd_capability_id (ca_handle record)) prior;
      if decide (changed <> 1) then throw GenerationFenceConflict else
      let receipt :=
        {| cv_receipt_id := derive_id "nlos/capability-revocation-receipt/id/v1" [be_bytes 32 digest];
           cv_capability_id := hd_capability_id (rp_handle r); cv_prior_generation := hd_generation (rp_handle r);
           cv_resulting_generation := next; cv_revoker := ib_principal_id revoker; cv_revoked_at_ms := rp_revoked_at_ms r |} in
      _ ← insert_cap_revocation (rp_idempotency_key r)
            {| xr_request_digest := digest; xr_receipt_id := cv_receipt_id receipt;
               xr_capability_id := hd_capability_id (rp_handle r); xr_prior_generation := prior;
               xr_resulting_generation := raw_next; xr_revoker_principal_id := ib_principal_id revoker;
               xr_revoked_at_ms := revoked_at |};
      mret (CapabilityRevokedNow receipt)
  end.

Definition admit_semantic (handle : CapabilityHandle) (signer : VerifiedSemanticSigner) (target : CapabilityTarget)
    (required_right : Z) (purpose_digest : option Z) (at_ms : Z) : cap_tx CapabilityRecord :=
  record ← load_exact_current handle;
  _ ← validate_active_chain record at_ms;
  if decide (vg_principal_id signer <> ca_holder record \/ vg_control_domain_id signer <> ca_holder_control_domain record)
  then throw HolderMismatch
  else if negb (target_is_within target (ca_target record)) then throw TargetMismatch
  else if negb (contains (ca_rights record) required_right) then throw RequiredRightMissing
  else if decide (ca_purpose_digest record <> purpose_digest) then throw PurposeMismatch
  else mret record.

Definition authorize_semantic (r : AuthorizeSemanticRequest) : cap_tx SemanticAuthorization :=
  record ← admit_semantic (az_handle r) (az_signer r) (az_target r) (az_required_right r) (az_purpose_digest r) (az_admitted_at_ms r);
  mret {| sa_capability_id := hd_capability_id (ca_handle record); sa_generation := hd_generation (ca_handle record);
          sa_holder := ca_holder record; sa_target := ca_target record; sa_granted_rights := ca_rights record;
          sa_purpose_digest := ca_purpose_digest record |}.

Definition consume (r : ConsumeCapabilityRequest) : cap_tx CapabilityConsumptionDecision :=
  let digest := consume_request_digest r in
  replay ← load_consumption_replay (co_idempotency_key r) digest;
  match replay with
  | Some receipt => mret (ConsumptionReplayed receipt)
  | None =>
      record ← admit_semantic (co_handle r) (co_signer r) (co_target r) (co_required_right r) (co_purpose_digest r)
                 (co_consumed_at_ms r);
      let id := hd_capability_id (ca_handle record) in
      used ← count_consumption id;
      remaining ← lift (match ca_call_limit record with
                        | Some limit => if decide (limit <= used) then Err CallLimitExhausted else Ok (Some (limit - used - 1))
                        | None => Ok None
                        end);
      let receipt :=
        {| cc_receipt_id := derive_id "nlos/capability-consumption-receipt/id/v1" [be_bytes 16 id; be_bytes 32 digest];
           cc_capability_id := id; cc_generation := hd_generation (ca_handle record); cc_remaining := remaining;
           cc_consumed_at_ms := co_consumed_at_ms r |} in
      generation ← lift (cap_encode_u64 (hd_generation (ca_handle record)));
      raw_remaining ← lift (cap_encode_optional remaining);
      consumed_at ← lift (cap_encode_u64 (co_consumed_at_ms r));
      _ ← insert_consumption (co_idempotency_key r)
            {| xc_request_digest := digest; xc_receipt_id := cc_receipt_id receipt; xc_capability_id := id;
               xc_generation := generation; xc_remaining := raw_remaining; xc_consumed_at_ms := consumed_at |};
      mret (Consumed receipt)
  end.

Definition call_limit_remaining (handle : CapabilityHandle) : cap_tx (option Z) :=
  record ← load_exact_current handle;
  match ca_call_limit record with
  | None => mret None
  | Some limit => used ← count_consumption (hd_capability_id (ca_handle record)); mret (Some (Z.max 0 (limit - used)))
  end.

Definition inspect_active (handle : CapabilityHandle) (at_ms : Z) : cap_tx CapabilityRecord :=
  record ← load_exact_current handle;
  _ ← validate_active_chain record at_ms;
  mret record.

(** ** The authority over time *)

Inductive CapRequest :=
  | CapIssue (i1 i2 i3 : IdDb) (q : SignedIssueRootCapabilityRequest)
  | CapDelegate (i1 i2 i3 : IdDb) (q : SignedDelegateCapabilityRequest)
  | CapRevoke (i1 i2 : IdDb) (q : SignedRevokeCapabilityRequest)
  | CapConsume (r : ConsumeCapabilityRequest)
  | CapReopen (dies : bool).

Inductive CapAnswer :=
  | IssueAnswer (r : result CapabilityAuthorityError CapabilityIssueDecision)
  | CapRevokeAnswer (r : result CapabilityAuthorityError CapabilityRevocationDecision)
  | ConsumeAnswer (r : result CapabilityAuthorityError CapabilityConsumptionDecision)
  | CapReopenAnswer (r : result CapabilityAuthorityError ()).

(** One request that can change the tables; a process may also die and open the file
    again, interrupted or not. *)
Definition cap_step (d : CapDb) (q : CapRequest) : CapDb * CapAnswer :=
  match q with
  | CapIssue i1 i2 i3 r => let '(d', a) := run_tx (issue_root_signed i1 i2 i3 r) d in (d', IssueAnswer a)
  | CapDelegate i1 i2 i3 r => let '(d', a) := run_tx (delegate_signed i1 i2 i3 r) d in (d', IssueAnswer a)
  | CapRevoke i1 i2 r => let '(d', a) := run_tx (revoke_signed i1 i2 r) d in (d', CapRevokeAnswer a)
  | CapConsume r => let '(d', a) := run_tx (consume r) d in (d', ConsumeAnswer a)
  | CapReopen dies => let '(d', a) := cap_open dies d in (d', CapReopenAnswer a)
  end.
End cap_operations.

(** A file the authority has been opened on for the first time. *)
Definition new_capability_file : CapDb := Eval vm_compute in (cap_open false no_capability_file).1.
