(* ===== verification/CapRefines.v ===== *)
(** * CapRefines: what the capability authority promises

    An abstract capability authority (the capabilities as they were issued, which of them
    were revoked, and the answered commands and uses by idempotency key), the relation of
    its state to the tables of [Capability], and the proof that the authority answers as
    the abstract one does, or refuses for a cause: an identifier that is taken or a number
    SQLite cannot hold. *)

From S2P Require Import Prelude Bytes Txn Clock Identity Capability.

(** ** The abstract authority *)

Record AbsCaps := {
  ac_caps : gmap Z CapabilityRecord;
  ac_revoked : gmap Z Z;
  ac_issued : gmap Z (Z * (CapabilityRecord * CapabilityIssueReceipt));
  ac_revocations : gmap Z (Z * CapabilityRevocationReceipt);
  ac_uses : gmap Z (Z * CapabilityConsumptionReceipt);
}.
#[export] Instance eta_abs_caps : Eta AbsCaps := fun x =>
  Build_AbsCaps (ac_caps x) (ac_revoked x) (ac_issued x) (ac_revocations x) (ac_uses x).
#[export] Instance set_ac_caps : Setter ac_caps. Proof. build_setter. Defined.
#[export] Instance set_ac_revoked : Setter ac_revoked. Proof. build_setter. Defined.
#[export] Instance set_ac_issued : Setter ac_issued. Proof. build_setter. Defined.
#[export] Instance set_ac_revocations : Setter ac_revocations. Proof. build_setter. Defined.
#[export] Instance set_ac_uses : Setter ac_uses. Proof. build_setter. Defined.

Definition no_capabilities : AbsCaps := Build_AbsCaps ∅ ∅ ∅ ∅ ∅.

(** A capability as it is now: revocation moves it to generation 2. *)
Definition revoked_record (r : CapabilityRecord) (t : Z) : CapabilityRecord :=
  {| ca_handle := {| hd_capability_id := hd_capability_id (ca_handle r); hd_generation := 2 |}; ca_issuer := ca_issuer r;
     ca_issuer_control_domain := ca_issuer_control_domain r; ca_holder := ca_holder r;
     ca_holder_control_domain := ca_holder_control_domain r; ca_target := ca_target r; ca_rights := ca_rights r;
     ca_purpose_digest := ca_purpose_digest r; ca_valid_from_ms := ca_valid_from_ms r; ca_valid_until_ms := ca_valid_until_ms r;
     ca_delegation_depth_remaining := ca_delegation_depth_remaining r; ca_call_limit := ca_call_limit r;
     ca_parent := ca_parent r; ca_revoked_at_ms := Some t |}.
Definition as_of (r : CapabilityRecord) (revoked : option Z) : CapabilityRecord :=
  match revoked with None => r | Some t => revoked_record r t end.
Definition cap_current (a : AbsCaps) (id : Z) : option CapabilityRecord :=
  r ← ac_caps a !! id; Some (as_of r (ac_revoked a !! id)).

(** A capability and the ones it was delegated from, as they are now, up to the root. A
    chain of delegations has at most 256 capabilities. *)
Fixpoint ancestors (n : nat) (a : AbsCaps) (r : CapabilityRecord) : list CapabilityRecord :=
  match n with
  | O => []
  | S n =>
      match ca_parent r ≫= (fun h => cap_current a (hd_capability_id h)) with
      | None => []
      | Some p => p :: ancestors n a p
      end
  end.
Definition ancestry (a : AbsCaps) (r : CapabilityRecord) : list CapabilityRecord := r :: ancestors 255 a r.

(** Why a capability of the chain stops a use of the first one at [at_ms]. *)
Definition stops (revoked : CapabilityAuthorityError) (at_ms : Z) (r : CapabilityRecord) : option CapabilityAuthorityError :=
  if decide (ca_revoked_at_ms r <> None) then Some revoked
  else if decide (at_ms < ca_valid_from_ms r) then Some CapabilityNotYetValid
  else if decide (ca_valid_until_ms r < at_ms) then Some CapabilityExpired
  else None.
Definition first_stop (at_ms : Z) (chain : list CapabilityRecord) : option CapabilityAuthorityError :=
  match chain with
  | [] => None
  | r :: rs => match stops CapabilityRevoked at_ms r with
               | Some e => Some e
               | None => head (omap (stops AncestorRevokedOrFenced at_ms) rs)
               end
  end.
Definition spec_active (a : AbsCaps) (r : CapabilityRecord) (at_ms : Z) : result CapabilityAuthorityError () :=
  match first_stop at_ms (ancestry a r) with Some e => Err e | None => Ok () end.

Definition spec_exact (a : AbsCaps) (handle : CapabilityHandle) : result CapabilityAuthorityError CapabilityRecord :=
  match cap_current a (hd_capability_id handle) with
  | None => Err (CapabilityNotFound (hd_capability_id handle))
  | Some r => if decide (hd_generation (ca_handle r) <> hd_generation handle) then Err GenerationFenceConflict else Ok r
  end.

(** The uses of a capability so far. *)
Definition used (a : AbsCaps) (id : Z) : Z := count_rows (fun _ u => bool_decide (cc_capability_id u.2 = id)) (ac_uses a).

(** A command is answered once: the same command again gets the answer it got, another one
    under its key is refused. *)
Definition answer_once {A B} (seen : option (Z * A)) (digest : Z) (again : A -> B)
    (fresh : result CapabilityAuthorityError (AbsCaps * B)) (a : AbsCaps) : result CapabilityAuthorityError (AbsCaps * B) :=
  match seen with
  | Some (digest', x) => if decide (digest' = digest) then Ok (a, again x) else Err CapIdempotencyConflict
  | None => fresh
  end.
Definition issue_again (x : CapabilityRecord * CapabilityIssueReceipt) : CapabilityIssueDecision := IssueReplayed x.1 x.2.

Section cap_spec.
Context {H : Sha256} {E : Ed25519}.

Definition spec_insert (a : AbsCaps) (key digest at_ms : Z) (r : CapabilityRecord) : AbsCaps * CapabilityIssueDecision :=
  let receipt := new_issue_receipt r digest at_ms in
  (a <| ac_caps := <[hd_capability_id (ca_handle r) := r]> (ac_caps a) |>
     <| ac_issued := <[key := (digest, (r, receipt))]> (ac_issued a) |>, Issued r receipt).

(** The actor of a command: the signature has to verify under the current key of the
    principal that signs, and that key has to be the one the command names. *)
Definition spec_actor (i1 i2 : IdDb) (signer signature message key_id at_ms : Z) : result CapabilityAuthorityError IdentityBinding :=
  verified ← verify_command_signature i1 signer signature message at_ms;
  actor ← active_identity i2 key_id at_ms;
  _ ← require_signed_by verified actor;
  mret actor.

Definition root_record (r : IssueRootCapabilityRequest) (issuer holder : IdentityBinding) : CapabilityRecord :=
  new_record (root_request_digest r) issuer holder (ir_target r) (ir_rights r) (ir_purpose_digest r) (ir_valid_from_ms r)
    (ir_valid_until_ms r) (ir_delegation_depth_remaining r) (ir_call_limit r) None.
Definition child_record (r : DelegateCapabilityRequest) (delegator recipient : IdentityBinding) : CapabilityRecord :=
  new_record (delegate_request_digest r) delegator recipient (dl_target r) (dl_rights r) (dl_purpose_digest r) (dl_valid_from_ms r)
    (dl_valid_until_ms r) (dl_delegation_depth_remaining r) (dl_call_limit r) (Some (dl_parent r)).

Definition spec_issue (a : AbsCaps) (i1 i2 i3 : IdDb) (q : SignedIssueRootCapabilityRequest) :
    result CapabilityAuthorityError (AbsCaps * CapabilityIssueDecision) :=
  let r := si_command q in
  _ ← validate_bounds (ir_valid_from_ms r) (ir_valid_until_ms r) (ir_call_limit r);
  answer_once (ac_issued a !! ir_idempotency_key r) (root_request_digest r) issue_again
    (issuer ← spec_actor i1 i2 (si_signer q) (si_signature q) (issue_root_command_message r) (ir_issuer_key_id r) (ir_issued_at_ms r);
     holder ← active_identity i3 (ir_holder_key_id r) (ir_issued_at_ms r);
     mret (spec_insert a (ir_idempotency_key r) (root_request_digest r) (ir_issued_at_ms r) (root_record r issuer holder))) a.

Definition spec_delegator (a : AbsCaps) (i1 i2 i3 : IdDb) (q : SignedDelegateCapabilityRequest) :
    result CapabilityAuthorityError (IdentityBinding * IdentityBinding) :=
  let r := sd_command q in
  parent ← spec_exact a (dl_parent r);
  _ ← spec_active a parent (dl_delegated_at_ms r);
  delegator ← spec_actor i1 i2 (sd_signer q) (sd_signature q) (delegate_command_message r) (dl_delegator_key_id r) (dl_delegated_at_ms r);
  if decide (ib_principal_id delegator <> ca_holder parent \/ ib_control_domain_id delegator <> ca_holder_control_domain parent)
  then Err DelegatorMismatch else
  recipient ← active_identity i3 (dl_recipient_key_id r) (dl_delegated_at_ms r);
  _ ← attenuation parent r;
  mret (delegator, recipient).

Definition spec_delegate (a : AbsCaps) (i1 i2 i3 : IdDb) (q : SignedDelegateCapabilityRequest) :
    result CapabilityAuthorityError (AbsCaps * CapabilityIssueDecision) :=
  let r := sd_command q in
  _ ← validate_bounds (dl_valid_from_ms r) (dl_valid_until_ms r) (dl_call_limit r);
  answer_once (ac_issued a !! dl_idempotency_key r) (delegate_request_digest r) issue_again
    (parties ← spec_delegator a i1 i2 i3 q;
     mret (spec_insert a (dl_idempotency_key r) (delegate_request_digest r) (dl_delegated_at_ms r)
             (child_record r parties.1 parties.2))) a.

Definition cap_revocation_receipt (r : RevokeCapabilityRequest) (revoker : IdentityBinding) : CapabilityRevocationReceipt :=
  {| cv_receipt_id := derive_id "nlos/capability-revocation-receipt/id/v1" [be_bytes 32 (revoke_request_digest r)];
     cv_capability_id := hd_capability_id (rp_handle r); cv_prior_generation := 1; cv_resulting_generation := 2;
     cv_revoker := ib_principal_id revoker; cv_revoked_at_ms := rp_revoked_at_ms r |}.

Definition spec_revoker (a : AbsCaps) (i1 i2 : IdDb) (q : SignedRevokeCapabilityRequest) :
    result CapabilityAuthorityError IdentityBinding :=
  let r := sv_command q in
  record ← spec_exact a (rp_handle r);
  if decide (ca_revoked_at_ms record <> None) then Err CapabilityRevoked else
  revoker ← spec_actor i1 i2 (sv_signer q) (sv_signature q) (revoke_command_message r) (rp_revoker_key_id r) (rp_revoked_at_ms r);
  if decide (ib_principal_id revoker <> ca_issuer record /\ ib_principal_id revoker <> ca_holder record)
  then Err RevokerUnauthorized else mret revoker.

Definition spec_cap_revoke (a : AbsCaps) (i1 i2 : IdDb) (q : SignedRevokeCapabilityRequest) :
    result CapabilityAuthorityError (AbsCaps * CapabilityRevocationDecision) :=
  let r := sv_command q in
  answer_once (ac_revocations a !! rp_idempotency_key r) (revoke_request_digest r) RevocationReplayed
    (revoker ← spec_revoker a i1 i2 q;
     let receipt := cap_revocation_receipt r revoker in
     mret (a <| ac_revoked := <[hd_capability_id (rp_handle r) := rp_revoked_at_ms r]> (ac_revoked a) |>
             <| ac_revocations := <[rp_idempotency_key r := (revoke_request_digest r, receipt)]> (ac_revocations a) |>,
           CapabilityRevokedNow receipt)) a.

Definition spec_admit (a : AbsCaps) (handle : CapabilityHandle) (signer : VerifiedSemanticSigner) (target : CapabilityTarget)
    (right : Z) (purpose : option Z) (at_ms : Z) : result CapabilityAuthorityError CapabilityRecord :=
  record ← spec_exact a handle;
  _ ← spec_active a record at_ms;
  if decide (vg_principal_id signer <> ca_holder record \/ vg_control_domain_id signer <> ca_holder_control_domain record)
  then Err HolderMismatch
  else if negb (target_is_within target (ca_target record)) then Err TargetMismatch
  else if negb (contains (ca_rights record) right) then Err RequiredRightMissing
  else if decide (ca_purpose_digest record <> purpose) then Err PurposeMismatch
  else mret record.

Definition spec_authorize (a : AbsCaps) (r : AuthorizeSemanticRequest) : result CapabilityAuthorityError SemanticAuthorization :=
  record ← spec_admit a (az_handle r) (az_signer r) (az_target r) (az_required_right r) (az_purpose_digest r) (az_admitted_at_ms r);
  mret {| sa_capability_id := hd_capability_id (ca_handle record); sa_generation := hd_generation (ca_handle record);
          sa_holder := ca_holder record; sa_target := ca_target record; sa_granted_rights := ca_rights record;
          sa_purpose_digest := ca_purpose_digest record |}.

Definition spec_inspect (a : AbsCaps) (handle : CapabilityHandle) (at_ms : Z) : result CapabilityAuthorityError CapabilityRecord :=
  record ← spec_exact a handle; _ ← spec_active a record at_ms; mret record.

(** What is left of a limit when the uses so far are [n]. *)
Definition left_after (limit : option Z) (n : Z) : option Z := (fun l => l - n) <$> limit.
Definition spec_remaining (a : AbsCaps) (handle : CapabilityHandle) : result CapabilityAuthorityError (option Z) :=
  record ← spec_exact a handle; mret (left_after (ca_call_limit record) (used a (hd_capability_id handle))).

Definition use_receipt (a : AbsCaps) (r : ConsumeCapabilityRequest) (record : CapabilityRecord) : CapabilityConsumptionReceipt :=
  let id := hd_capability_id (ca_handle record) in
  {| cc_receipt_id := derive_id "nlos/capability-consumption-receipt/id/v1" [be_bytes 16 id; be_bytes 32 (consume_request_digest r)];
     cc_capability_id := id; cc_generation := 1; cc_remaining := left_after (ca_call_limit record) (used a id + 1);
     cc_consumed_at_ms := co_consumed_at_ms r |}.

Definition spec_consume (a : AbsCaps) (r : ConsumeCapabilityRequest) :
    result CapabilityAuthorityError (AbsCaps * CapabilityConsumptionDecision) :=
  answer_once (ac_uses a !! co_idempotency_key r) (consume_request_digest r) ConsumptionReplayed
    (record ← spec_admit a (co_handle r) (co_signer r) (co_target r) (co_required_right r) (co_purpose_digest r) (co_consumed_at_ms r);
     let receipt := use_receipt a r record in
     if decide (ca_call_limit record = Some (used a (hd_capability_id (ca_handle record)))) then Err CallLimitExhausted else
     mret (a <| ac_uses := <[co_idempotency_key r := (consume_request_digest r, receipt)]> (ac_uses a) |>, Consumed receipt)) a.

Definition spec_cap_step (a : AbsCaps) (q : CapRequest) : AbsCaps * CapAnswer :=
  let done {A} (s : result CapabilityAuthorityError (AbsCaps * A)) (f : result CapabilityAuthorityError A -> CapAnswer) :=
    match s with Ok (a', x) => (a', f (Ok x)) | Err e => (a, f (Err e)) end in
  match q with
  | CapIssue i1 i2 i3 r => done (spec_issue a i1 i2 i3 r) IssueAnswer
  | CapDelegate i1 i2 i3 r => done (spec_delegate a i1 i2 i3 r) IssueAnswer
  | CapRevoke i1 i2 r => done (spec_cap_revoke a i1 i2 r) CapRevokeAnswer
  | CapConsume r => done (spec_consume a r) ConsumeAnswer
  | CapReopen _ => (a, CapReopenAnswer (Ok ()))
  end.
End cap_spec.

(** ** What every state satisfies *)

(** A capability gives no more than the one it was delegated from. *)
Record attenuates (parent child : CapabilityRecord) : Prop := {
  at_delegable : contains (ca_rights parent) DELEGATE = true;
  at_rights : is_subset_of (ca_rights child) (ca_rights parent) = true;
  at_target : target_is_within (ca_target child) (ca_target parent) = true;
  at_purpose : purpose_is_attenuated (ca_purpose_digest parent) (ca_purpose_digest child) = true;
  at_validity : ca_valid_from_ms parent <= ca_valid_from_ms child /\ ca_valid_until_ms child <= ca_valid_until_ms parent;
  at_limit : call_limit_is_attenuated (ca_call_limit parent) (ca_call_limit child) = true;
  at_depth : ca_delegation_depth_remaining child < ca_delegation_depth_remaining parent;
  at_issuer : ca_issuer child = ca_holder parent /\ ca_issuer_control_domain child = ca_holder_control_domain parent;
}.

Record record_ok (a : AbsCaps) (id : Z) (r : CapabilityRecord) : Prop := {
  ro_handle : ca_handle r = {| hd_capability_id := id; hd_generation := 1 |};
  ro_unrevoked : ca_revoked_at_ms r = None;
  ro_rights : 0 < ca_rights r <= 15;
  ro_validity : 0 <= ca_valid_from_ms r <= ca_valid_until_ms r;
  ro_depth : 0 <= ca_delegation_depth_remaining r <= 255;
  ro_limit : forall l, ca_call_limit r = Some l -> 0 < l <= i64_max /\ used a id <= l;
  ro_parent : forall h, ca_parent r = Some h -> hd_generation h = 1 /\
    exists p, ac_caps a !! hd_capability_id h = Some p /\ attenuates p r;
}.

Record caps_ok (a : AbsCaps) : Prop := {
  co_record : forall id r, ac_caps a !! id = Some r -> record_ok a id r;
  co_revoked : forall id t, ac_revoked a !! id = Some t -> 0 <= t /\ is_Some (ac_caps a !! id);
  co_issued : forall k dg r rc, ac_issued a !! k = Some (dg, (r, rc)) ->
    ac_caps a !! ci_capability_id rc = Some r /\ ci_generation rc = 1 /\ ci_parent rc = ca_parent r /\ 0 <= ci_issued_at_ms rc;
  co_revocation : forall k dg rc, ac_revocations a !! k = Some (dg, rc) ->
    cv_prior_generation rc = 1 /\ cv_resulting_generation rc = 2 /\ 0 <= cv_revoked_at_ms rc;
  co_use : forall k dg rc, ac_uses a !! k = Some (dg, rc) ->
    is_Some (ac_caps a !! cc_capability_id rc) /\ cc_generation rc = 1 /\ 0 <= cc_consumed_at_ms rc /\
    (forall n, cc_remaining rc = Some n -> 0 <= n);
}.

(** ** The relation of the tables to the abstract state *)

Definition parent_columns (p : option CapabilityHandle) : option Z * option Z :=
  (hd_capability_id <$> p, hd_generation <$> p).

(** The row of a capability; nothing reads when it was created. *)
Definition head_row (r : CapabilityRecord) (revoked : option Z) (created : Z) : CapHeadRow :=
  {| ch_current_generation := match revoked with Some _ => 2 | None => 1 end; ch_issuer_principal_id := ca_issuer r;
     ch_issuer_control_domain_id := ca_issuer_control_domain r; ch_holder_principal_id := ca_holder r;
     ch_holder_control_domain_id := ca_holder_control_domain r; ch_target_kind := target_kind (ca_target r);
     ch_target_id := target_id (ca_target r); ch_rights := ca_rights r; ch_purpose_digest := ca_purpose_digest r;
     ch_valid_from_ms := ca_valid_from_ms r; ch_valid_until_ms := ca_valid_until_ms r;
     ch_delegation_depth_remaining := ca_delegation_depth_remaining r; ch_call_limit := ca_call_limit r;
     ch_parent_capability_id := (parent_columns (ca_parent r)).1; ch_parent_generation := (parent_columns (ca_parent r)).2;
     ch_created_at_ms := created |}.

Definition version_of (a : AbsCaps) (id g : Z) : option (option Z) :=
  if decide (g = 1) then (fun _ => None) <$> ac_caps a !! id
  else if decide (g = 2) then Some <$> ac_revoked a !! id
  else None.

Definition issue_row (x : Z * (CapabilityRecord * CapabilityIssueReceipt)) : CapIssueRow :=
  let '(digest, (_, rc)) := x in
  {| xi_request_digest := digest; xi_receipt_id := ci_receipt_id rc; xi_capability_id := ci_capability_id rc;
     xi_generation := ci_generation rc; xi_parent_capability_id := (parent_columns (ci_parent rc)).1;
     xi_parent_generation := (parent_columns (ci_parent rc)).2; xi_issued_at_ms := ci_issued_at_ms rc |}.
Definition cap_revocation_row (x : Z * CapabilityRevocationReceipt) : CapRevocationRow :=
  let '(digest, rc) := x in
  {| xr_request_digest := digest; xr_receipt_id := cv_receipt_id rc; xr_capability_id := cv_capability_id rc;
     xr_prior_generation := cv_prior_generation rc; xr_resulting_generation := cv_resulting_generation rc;
     xr_revoker_principal_id := cv_revoker rc; xr_revoked_at_ms := cv_revoked_at_ms rc |}.
Definition use_row (x : Z * CapabilityConsumptionReceipt) : ConsumptionRow :=
  let '(digest, rc) := x in
  {| xc_request_digest := digest; xc_receipt_id := cc_receipt_id rc; xc_capability_id := cc_capability_id rc;
     xc_generation := cc_generation rc; xc_remaining := cc_remaining rc; xc_consumed_at_ms := cc_consumed_at_ms rc |}.

Record cap_sim (d : CapDb) (a : AbsCaps) : Prop := {
  cs_ok : caps_ok a;
  cs_head : forall id r, ac_caps a !! id = Some r -> exists created, cp_heads d !! id = Some (head_row r (ac_revoked a !! id) created);
  cs_no_head : forall id, ac_caps a !! id = None -> cp_heads d !! id = None;
  cs_versions : forall id g, cp_versions d !! (id, g) = version_of a id g;
  cs_issues : cp_issues d = issue_row <$> ac_issued a;
  cs_revocations : cp_revocations d = cap_revocation_row <$> ac_revocations a;
  cs_uses : cp_consumptions d = use_row <$> ac_uses a;
  cs_schema : cp_user_version d = CAPABILITY_SCHEMA_VERSION;
}.

(** ** Decoding what is stored *)

Lemma wp_cap_encode_ok v (Q : Z -> CapDb -> Prop) X d : v <= i64_max -> Q v d -> wp (lift (cap_encode_u64 v)) Q X d.
Proof. intros Hv HQ. unfold wp, lift, cap_encode_u64. by rewrite decide_True. Qed.

Lemma decode_generation_ok g : 1 <= g -> cap_decode_generation g = Ok g.
Proof. intros Hg. unfold cap_decode_generation, cap_decode_u64. by rewrite decide_True, decide_False by lia. Qed.

Lemma decode_u64_ok v : 0 <= v -> cap_decode_u64 v = Ok v.
Proof. intros Hv. unfold cap_decode_u64. by rewrite decide_True. Qed.

Lemma decode_optional_ok v : (forall x, v = Some x -> 0 <= x) -> cap_decode_optional v = Ok v.
Proof. intros Hv. destruct v as [x|]; [|done]. cbn. by rewrite decode_u64_ok by auto. Qed.

Lemma decode_parent_ok p : (forall h, p = Some h -> 1 <= hd_generation h) ->
  decode_parent (parent_columns p).1 (parent_columns p).2 = Ok p.
Proof. intros Hp. destruct p as [[i g]|]; [|done]. cbn. by rewrite decode_generation_ok by (by apply (Hp _ eq_refl)). Qed.

Lemma from_bits_ok r : 0 < r <= 15 -> from_bits r = Some r.
Proof.
  intros Hr. unfold from_bits. rewrite decide_True; [done|]. split; [lia|].
  assert (Hall : forallb (fun x => bool_decide (Z.land x (u64_max - ALLOWED) = 0)) (seqZ 1 15) = true) by (by vm_compute).
  rewrite forallb_forall in Hall. specialize (Hall r). rewrite bool_decide_eq_true in Hall. apply Hall.
  apply list_elem_of_In, elem_of_seqZ. lia.
Qed.

Lemma decode_target_ok t : decode_target (target_kind t) (target_id t) = Some t.
Proof. by destruct t. Qed.

Lemma decode_record_ok a id r g v created revoked : record_ok a id r -> (forall t, v = Some t -> 0 <= t) ->
  decode_record {| hd_capability_id := id; hd_generation := g |} (head_row r revoked created) v =
  Ok {| ca_handle := {| hd_capability_id := id; hd_generation := g |}; ca_issuer := ca_issuer r;
        ca_issuer_control_domain := ca_issuer_control_domain r; ca_holder := ca_holder r;
        ca_holder_control_domain := ca_holder_control_domain r; ca_target := ca_target r; ca_rights := ca_rights r;
        ca_purpose_digest := ca_purpose_digest r; ca_valid_from_ms := ca_valid_from_ms r;
        ca_valid_until_ms := ca_valid_until_ms r; ca_delegation_depth_remaining := ca_delegation_depth_remaining r;
        ca_call_limit := ca_call_limit r; ca_parent := ca_parent r; ca_revoked_at_ms := v |}.
Proof.
  intros Hr Hv. destruct (ro_validity _ _ _ Hr), (ro_rights _ _ _ Hr), (ro_depth _ _ _ Hr).
  unfold decode_record, head_row.
  cbn [ch_target_kind ch_target_id ch_rights ch_valid_from_ms ch_valid_until_ms ch_delegation_depth_remaining ch_call_limit
       ch_parent_capability_id ch_parent_generation ch_issuer_principal_id ch_issuer_control_domain_id ch_holder_principal_id
       ch_holder_control_domain_id ch_purpose_digest].
  rewrite decode_target_ok, !decode_u64_ok by lia. cbn [ok_or]. rewrite from_bits_ok by lia. cbn [ok_or].
  rewrite decide_False by lia. rewrite decode_optional_ok, decode_parent_ok, decode_optional_ok; [done|done| |].
  - intros h Hh. destruct (ro_parent _ _ _ Hr h Hh) as [-> _]. lia.
  - intros l Hl. destruct (ro_limit _ _ _ Hr l Hl) as [? _]. lia.
Qed.

(** ** Reading *)

Lemma wp_cap_encode v (Q : Z -> CapDb -> Prop) X d :
  (v <= i64_max -> Q v d) -> (i64_max < v -> X (CapCorrupt "u64 exceeds SQLite")) -> wp (lift (cap_encode_u64 v)) Q X d.
Proof. unfold wp, lift, cap_encode_u64. intros HQ HX. case_decide; [by apply HQ|apply HX; lia]. Qed.

Lemma wp_cap_encode_optional v (Q : option Z -> CapDb -> Prop) X d :
  ((forall x, v = Some x -> x <= i64_max) -> Q v d) ->
  ((exists x, v = Some x /\ i64_max < x) -> X (CapCorrupt "u64 exceeds SQLite")) -> wp (lift (cap_encode_optional v)) Q X d.
Proof.
  unfold wp, lift, cap_encode_optional, cap_encode_u64. intros HQ HX. destruct v as [x|]; [|by apply HQ]. case_decide.
  - apply HQ. by intros ? [= <-].
  - apply HX. exists x. split; [done|lia].
Qed.

Section reads.
Context {d : CapDb} {a : AbsCaps} (Hsim : cap_sim d a).

Lemma parent_current r h : caps_ok a -> (exists id, ac_caps a !! id = Some r) -> ca_parent r = Some h ->
  exists p, ac_caps a !! hd_capability_id h = Some p /\ attenuates p r /\ hd_generation h = 1.
Proof.
  intros Hok [id Hid] Hp. destruct (ro_parent _ _ _ (co_record _ Hok id r Hid) h Hp) as [? (p & ? & ?)]. by exists p.
Qed.

(** A stored version, at the generation the capability was issued with or now has. *)
Lemma wp_load_generation id g (Q : option CapabilityRecord -> CapDb -> Prop) X :
  g = 1 \/ g = 2 ->
  Q (r ← ac_caps a !! id; v ← version_of a id g; Some (as_of r v)) d -> wp (load_record_generation id g) Q X d.
Proof.
  intros Hg HQ. unfold load_record_generation. wp_pure. apply wp_cap_encode_ok; [destruct Hg as [-> | ->]; vm_compute; done|].
  do 2 wp_pure. destruct (ac_caps a !! id) as [r|] eqn:Er.
  2: { rewrite (cs_no_head _ _ Hsim _ Er). cbn [mbind option_bind]. by wp_pure. }
  destruct (cs_head _ _ Hsim _ _ Er) as [created ->]. cbn [mbind option_bind] in *. rewrite (cs_versions _ _ Hsim).
  pose proof (co_record _ (cs_ok _ _ Hsim) _ _ Er) as Hok. pose proof (ro_handle _ _ _ Hok) as Hh.
  assert (Hv : forall v, version_of a id g = Some v -> (g = 1 /\ v = None) \/ (g = 2 /\ exists t, v = Some t /\ 0 <= t)).
  { intros v. unfold version_of. destruct Hg as [-> | ->].
    - rewrite decide_True by done. rewrite Er. cbn. intros [= <-]. by left.
    - rewrite decide_False, decide_True by done. destruct (ac_revoked a !! id) as [t|] eqn:Et; [|done]. intros [= <-].
      right. split; [done|]. exists t. split; [done|]. apply (co_revoked _ (cs_ok _ _ Hsim) _ _ Et). }
  destruct (version_of a id g) as [v|]; cbn [mbind option_bind] in *; [|by wp_pure]. wp_pure. eapply wp_lift_Ok.
  { eapply decode_record_ok; [done|]. intros t ->. destruct (Hv _ eq_refl) as [[_ ?]|[_ (t' & [= <-] & ?)]]; done. }
  wp_pure. destruct (Hv _ eq_refl) as [[-> ->]|[-> (t & -> & _)]].
  - pose proof (ro_unrevoked _ _ _ Hok) as Hu. destruct r; cbn in *. by subst.
  - unfold as_of, revoked_record in HQ. by rewrite Hh in HQ.
Qed.

Lemma version_current id r : ac_caps a !! id = Some r ->
  version_of a id (match ac_revoked a !! id with Some _ => 2 | None => 1 end) = Some (ac_revoked a !! id).
Proof. intros Hr. unfold version_of. destruct (ac_revoked a !! id); cbn; [done|]. by rewrite Hr. Qed.

Lemma wp_load_cap id (Q : option CapabilityRecord -> CapDb -> Prop) X :
  Q (cap_current a id) d -> wp (load_current_record id) Q X d.
Proof.
  intros HQ. unfold load_current_record, cap_current in *. do 2 wp_pure. destruct (ac_caps a !! id) as [r|] eqn:Er.
  2: { rewrite (cs_no_head _ _ Hsim _ Er). by wp_pure. }
  destruct (cs_head _ _ Hsim _ _ Er) as [created ->]. wp_pure. cbn [ch_current_generation head_row].
  eapply wp_lift_Ok; [by apply decode_generation_ok; destruct (ac_revoked a !! id)|]. apply wp_load_generation.
  - destruct (ac_revoked a !! id); auto.
  - by rewrite (version_current _ _ Er), Er.
Qed.

Lemma wp_load_exact handle (Q : CapabilityRecord -> CapDb -> Prop) (X : CapabilityAuthorityError -> Prop) :
  (forall r, spec_exact a handle = Ok r -> Q r d) -> (forall e, spec_exact a handle = Err e -> X e) ->
  wp (load_exact_current handle) Q X d.
Proof.
  unfold load_exact_current, spec_exact. intros HQ HX. wp_pure. apply wp_load_cap. wp_pure.
  destruct (cap_current a (hd_capability_id handle)) as [r|]; [|by apply HX]. eapply wp_lift_Ok; [done|].
  wp_case as Hg; wp_pure; [by apply HX|by apply HQ].
Qed.

Lemma exact_current handle r : spec_exact a handle = Ok r ->
  exists r0, ac_caps a !! hd_capability_id handle = Some r0 /\ r = as_of r0 (ac_revoked a !! hd_capability_id handle) /\
    hd_generation (ca_handle r) = hd_generation handle.
Proof.
  unfold spec_exact, cap_current. destruct (ac_caps a !! hd_capability_id handle) as [r0|]; [|done]. cbn. case_decide; [done|].
  intros [= <-]. exists r0. by split.
Qed.

(** *** The chain of ancestors *)

Lemma as_of_fields r v : ca_parent (as_of r v) = ca_parent r /\ ca_valid_from_ms (as_of r v) = ca_valid_from_ms r /\
  ca_valid_until_ms (as_of r v) = ca_valid_until_ms r /\ ca_call_limit (as_of r v) = ca_call_limit r.
Proof. by destruct v. Qed.

Lemma as_of_revoked id r v : ac_caps a !! id = Some r -> ca_revoked_at_ms (as_of r v) <> None <-> v <> None.
Proof. intros Hr. destruct v; cbn; [done|]. by rewrite (ro_unrevoked _ _ _ (co_record _ (cs_ok _ _ Hsim) _ _ Hr)). Qed.

Lemma as_of_generation id r v : ac_caps a !! id = Some r -> hd_generation (ca_handle (as_of r v)) = 1 <-> v = None.
Proof. intros Hr. destruct v; cbn; [done|]. by rewrite (ro_handle _ _ _ (co_record _ (cs_ok _ _ Hsim) _ _ Hr)). Qed.

Definition chain_stop (first : bool) (at_ms : Z) (r : CapabilityRecord) (rs : list CapabilityRecord) : option CapabilityAuthorityError :=
  match stops (if first then CapabilityRevoked else AncestorRevokedOrFenced) at_ms r with
  | Some e => Some e
  | None => head (omap (stops AncestorRevokedOrFenced at_ms) rs)
  end.

Lemma wp_stops e at_ms r (m : cap_tx ()) Q (X : CapabilityAuthorityError -> Prop) :
  (forall x, stops e at_ms r = Some x -> X x) -> (stops e at_ms r = None -> wp m Q X d) ->
  wp (if decide (ca_revoked_at_ms r <> None) then throw e
      else if decide (at_ms < ca_valid_from_ms r) then throw CapabilityNotYetValid
      else if decide (ca_valid_until_ms r < at_ms) then throw CapabilityExpired else m) Q X d.
Proof.
  unfold stops. intros HX HQ. wp_case as Hv; [by apply wp_throw, HX|]. wp_case as Hf; [by apply wp_throw, HX|].
  wp_case as Hu; [by apply wp_throw, HX|]. by apply HQ.
Qed.

(** The walk ends within the depth that delegation left: a parent could delegate deeper
    than its child. *)
Lemma wp_chain m first at_ms id r0 (Q : () -> CapDb -> Prop) (X : CapabilityAuthorityError -> Prop) :
  ac_caps a !! id = Some r0 -> 255 - ca_delegation_depth_remaining r0 <= Z.of_nat m ->
  let r := as_of r0 (ac_revoked a !! id) in
  (chain_stop first at_ms r (ancestors m a r) = None -> Q () d) ->
  (forall e, chain_stop first at_ms r (ancestors m a r) = Some e -> X e) ->
  wp (validate_chain (S m) first r at_ms) Q X d.
Proof.
  revert first id r0. induction m as [|m IH]; intros first id r0 Hr Hm r HQ HX;
    pose proof (co_record _ (cs_ok _ _ Hsim) _ _ Hr) as Hok; pose proof (ro_depth _ _ _ Hok) as Hdepth;
    cbn [validate_chain]; unfold chain_stop in HQ, HX; (apply wp_stops; [intros x Hx; apply HX; by rewrite Hx|]); intros Hs; rewrite Hs in HQ, HX.
  all: destruct (as_of_fields r0 (ac_revoked a !! id)) as (Hpar & _); fold r in Hpar; cbn [ancestors] in HQ, HX;
    rewrite ?Hpar in HQ; rewrite ?Hpar in HX; rewrite Hpar; destruct (ca_parent r0) as [h|] eqn:Eh; [|wp_pure; by apply HQ].
  all: destruct (ro_parent _ _ _ Hok h Eh) as [Hg (p & Hp & Hatt)]; pose proof (at_depth _ _ Hatt);
    pose proof (ro_depth _ _ _ (co_record _ (cs_ok _ _ Hsim) _ _ Hp)).
  { lia. }
  assert (Hcur : cap_current a (hd_capability_id h) = Some (as_of p (ac_revoked a !! hd_capability_id h))) by (unfold cap_current; by rewrite Hp).
  wp_pure. apply wp_load_cap. cbn [mbind option_bind] in HQ, HX. rewrite Hcur in HQ, HX |- *.
  cbn [omap list_omap head] in HQ, HX.
  wp_case as Hne.
  - apply wp_throw, HX. unfold stops at 1. rewrite decide_True; [done|].
    apply (as_of_revoked _ _ _ Hp). intros Hn. apply Hne. rewrite Hg. by apply (as_of_generation _ _ _ Hp).
  - apply (IH false _ _ Hp); [lia|..]; unfold chain_stop.
    + intros Hc. apply HQ. by destruct (stops _ _ _).
    + intros e Hc. apply HX. by destruct (stops _ _ _).
Qed.

Lemma wp_active at_ms id r0 (Q : () -> CapDb -> Prop) (X : CapabilityAuthorityError -> Prop) :
  ac_caps a !! id = Some r0 -> let r := as_of r0 (ac_revoked a !! id) in
  (spec_active a r at_ms = Ok () -> Q () d) -> (forall e, spec_active a r at_ms = Err e -> X e) ->
  wp (validate_active_chain r at_ms) Q X d.
Proof.
  intros Hr r HQ HX. unfold validate_active_chain. pose proof (ro_depth _ _ _ (co_record _ (cs_ok _ _ Hsim) _ _ Hr)).
  unfold spec_active, ancestry, first_stop in HQ, HX. apply (wp_chain 255 true at_ms id r0); [done|lia|..]; unfold chain_stop.
  - intros Hc. apply HQ. fold r in Hc. destruct (stops _ _ _); [done|]. by rewrite Hc.
  - intros e Hc. apply HX. fold r in Hc. destruct (stops _ _ _); [congruence|]. by rewrite Hc.
Qed.

(** *** Answered commands *)

(** What finding an answered command, or none, amounts to. *)
Definition replay_gives {A B} (seen : option (Z * A)) (digest : Z) (again : A -> B) (Q : option B -> CapDb -> Prop)
    (X : CapabilityAuthorityError -> Prop) : Prop :=
  match seen with
  | None => Q None d
  | Some (digest', x) => if decide (digest' = digest) then Q (Some (again x)) d else X CapIdempotencyConflict
  end.

Lemma wp_issue_replay key digest Q X :
  replay_gives (ac_issued a !! key) digest issue_again Q X -> wp (load_issue_replay key digest) Q X d.
Proof.
  unfold replay_gives, load_issue_replay. intros HQ. do 2 wp_pure. rewrite (cs_issues _ _ Hsim), lookup_fmap.
  destruct (ac_issued a !! key) as [[dg [r rc]]|] eqn:Ei; cbn [fmap option_fmap option_map]; [|by wp_pure].
  destruct (co_issued _ (cs_ok _ _ Hsim) _ _ _ _ Ei) as (Hr & Hg & Hp & Ht). cbn [xi_request_digest issue_row].
  pose proof (co_record _ (cs_ok _ _ Hsim) _ _ Hr) as Hok.
  destruct (decide (dg = digest)) as [->|Hne]; [|rewrite decide_True by done; by apply wp_throw].
  rewrite decide_False by (intros Hx; by apply Hx). wp_pure. cbn [xi_generation xi_capability_id xi_parent_capability_id xi_parent_generation xi_issued_at_ms xi_receipt_id].
  rewrite Hg. eapply wp_lift_Ok; [by apply decode_generation_ok|]. wp_pure. apply wp_load_generation; [by left|].
  rewrite Hr. cbn [mbind option_bind]. unfold version_of. rewrite decide_True by done. rewrite Hr. cbn [mbind option_bind fmap option_fmap option_map as_of].
  wp_pure. eapply wp_lift_Ok; [done|]. wp_pure. rewrite Hp. eapply wp_lift_Ok.
  { apply decode_parent_ok. intros h Hh. destruct (ro_parent _ _ _ Hok h Hh) as [-> _]. lia. }
  wp_pure. eapply wp_lift_Ok; [by apply decode_u64_ok|]. wp_pure. destruct rc; cbn in *. by subst.
Qed.

Lemma wp_revocation_replay key digest Q X :
  replay_gives (ac_revocations a !! key) digest id Q X -> wp (load_revocation_replay key digest) Q X d.
Proof.
  unfold replay_gives, load_revocation_replay. intros HQ. do 2 wp_pure. rewrite (cs_revocations _ _ Hsim), lookup_fmap.
  destruct (ac_revocations a !! key) as [[dg rc]|] eqn:Ei; cbn [fmap option_fmap option_map]; [|by wp_pure].
  destruct (co_revocation _ (cs_ok _ _ Hsim) _ _ _ Ei) as (Hp & Hr & Ht). cbn [xr_request_digest cap_revocation_row].
  destruct (decide (dg = digest)) as [->|Hne]; [|rewrite decide_True by done; by apply wp_throw].
  rewrite decide_False by (intros Hx; by apply Hx).
  cbn [xr_prior_generation xr_resulting_generation xr_revoked_at_ms xr_receipt_id xr_capability_id xr_revoker_principal_id].
  rewrite Hp, Hr. wp_pure. eapply wp_lift_Ok; [by apply decode_generation_ok|]. wp_pure.
  eapply wp_lift_Ok; [by apply decode_generation_ok|]. wp_pure. eapply wp_lift_Ok; [by apply decode_u64_ok|]. wp_pure.
  destruct rc; cbn in *. by subst.
Qed.

Lemma wp_use_replay key digest Q X :
  replay_gives (ac_uses a !! key) digest id Q X -> wp (load_consumption_replay key digest) Q X d.
Proof.
  unfold replay_gives, load_consumption_replay. intros HQ. do 2 wp_pure. rewrite (cs_uses _ _ Hsim), lookup_fmap.
  destruct (ac_uses a !! key) as [[dg rc]|] eqn:Ei; cbn [fmap option_fmap option_map]; [|by wp_pure].
  destruct (co_use _ (cs_ok _ _ Hsim) _ _ _ Ei) as (_ & Hg & Ht & Hn). cbn [xc_request_digest use_row].
  destruct (decide (dg = digest)) as [->|Hne]; [|rewrite decide_True by done; by apply wp_throw].
  rewrite decide_False by (intros Hx; by apply Hx). cbn [xc_generation xc_remaining xc_consumed_at_ms xc_receipt_id xc_capability_id].
  rewrite Hg. wp_pure. eapply wp_lift_Ok; [by apply decode_generation_ok|]. wp_pure.
  eapply wp_lift_Ok; [by apply decode_optional_ok|]. wp_pure. eapply wp_lift_Ok; [by apply decode_u64_ok|]. wp_pure.
  destruct rc; cbn in *. by subst.
Qed.

Lemma wp_count id (Q : Z -> CapDb -> Prop) X : Q (used a id) d -> wp (count_consumption id) Q X d.
Proof.
  intros HQ. unfold count_consumption. do 2 wp_pure. rewrite (cs_uses _ _ Hsim), count_rows_fmap.
  eapply wp_lift_Ok; [apply decode_u64_ok; lia|]. unfold used, count_rows in HQ.
  replace (size _) with (size (filter (fun kv : Z * (Z * CapabilityConsumptionReceipt) => bool_decide (cc_capability_id kv.2.2 = id) = true) (ac_uses a))); [done|].
  f_equal. apply map_filter_ext. by intros i [dg rc] _.
Qed.

Lemma wp_admit handle signer target right purpose at_ms (Q : CapabilityRecord -> CapDb -> Prop) (X : CapabilityAuthorityError -> Prop) :
  (forall r, spec_admit a handle signer target right purpose at_ms = Ok r -> Q r d) ->
  (forall e, spec_admit a handle signer target right purpose at_ms = Err e -> X e) ->
  wp (admit_semantic handle signer target right purpose at_ms) Q X d.
Proof.
  unfold admit_semantic, spec_admit. intros HQ HX. wp_pure. apply wp_load_exact.
  2: { intros e He. apply HX. by rewrite He. }
  intros r Hr. rewrite Hr in HQ, HX. destruct (exact_current _ _ Hr) as (r0 & Hr0 & -> & _). wp_pure. apply (wp_active _ _ _ _ _ Hr0).
  2: { intros e He. apply HX. cbn. by rewrite He. }
  intros Ha. cbn in HQ, HX. rewrite Ha in HQ, HX. cbn in HQ, HX.
  wp_case as Hh; [by apply wp_throw, HX|]. destruct (target_is_within _ _); cbn in *; [|by apply HX].
  destruct (contains _ _); cbn in *; [|by apply HX]. wp_case as Hp; [by apply wp_throw, HX|]. by apply wp_ret, HQ.
Qed.
End reads.

(** ** Issuing *)

(** Reads a field of updated tables or of an updated abstract state. *)
Ltac cap_simpl :=
  cbn [set_field cp_heads cp_versions cp_issues cp_revocations cp_consumptions cp_user_version cp_v1_tables cp_v2_tables
       set_cp_heads set_cp_versions set_cp_issues set_cp_revocations set_cp_consumptions set_cp_user_version
       ac_caps ac_revoked ac_issued ac_revocations ac_uses set_ac_caps set_ac_revoked set_ac_issued set_ac_revocations set_ac_uses].

(** One of the listed numbers is too large. *)
Ltac too_big := apply Exists_exists; eexists; split; [|eassumption]; set_solver.

(** What a step keeps. *)
Record cap_extends (a a' : AbsCaps) : Prop := {
  ce_caps : ac_caps a ⊆ ac_caps a';
  ce_revoked : ac_revoked a ⊆ ac_revoked a';
  ce_issued : ac_issued a ⊆ ac_issued a';
  ce_revocations : ac_revocations a ⊆ ac_revocations a';
  ce_uses : ac_uses a ⊆ ac_uses a';
}.
#[export] Instance cap_extends_preorder : PreOrder cap_extends.
Proof. split; [by split|]. intros x y z [] []. by split; etrans. Qed.

Section insert.
Context {H : Sha256} {d : CapDb} {a : AbsCaps} (Hsim : cap_sim d a).

(** The capability a command is about to issue. *)
Record new_ok (r : CapabilityRecord) : Prop := {
  no_handle : hd_generation (ca_handle r) = 1;
  no_unrevoked : ca_revoked_at_ms r = None;
  no_rights : 0 < ca_rights r <= 15;
  no_validity : 0 <= ca_valid_from_ms r <= ca_valid_until_ms r;
  no_depth : 0 <= ca_delegation_depth_remaining r <= 255;
  no_limit : forall l, ca_call_limit r = Some l -> 0 < l;
  no_parent : forall h, ca_parent r = Some h -> hd_generation h = 1 /\
    exists p, ac_caps a !! hd_capability_id h = Some p /\ attenuates p r;
}.

Lemma unused id : ac_caps a !! id = None -> used a id = 0.
Proof.
  intros Hid. unfold used. apply count_rows_zero. intros k [dg rc] Hk. apply bool_decide_eq_false. intros Heq.
  destruct (co_use _ (cs_ok _ _ Hsim) _ _ _ Hk) as [[x Hx] _]. cbn in Heq. congruence.
Qed.

Lemma unrevoked_new id : ac_caps a !! id = None -> ac_revoked a !! id = None.
Proof.
  intros Hid. destruct (ac_revoked a !! id) eqn:Ht; [|done]. destruct (co_revoked _ (cs_ok _ _ Hsim) _ _ Ht) as [_ [x Hx]]. congruence.
Qed.

Definition inserted (key digest at_ms : Z) (r : CapabilityRecord) : CapDb :=
  let id := hd_capability_id (ca_handle r) in
  d <| cp_heads := <[id := head_row r None at_ms]> (cp_heads d) |> <| cp_versions := <[(id, 1) := None]> (cp_versions d) |>
    <| cp_issues := <[key := issue_row (digest, (r, new_issue_receipt r digest at_ms))]> (cp_issues d) |>.

Lemma insert_caps_ok key digest at_ms r : new_ok r -> ac_caps a !! hd_capability_id (ca_handle r) = None -> 0 <= at_ms ->
  (forall l, ca_call_limit r = Some l -> l <= i64_max) -> caps_ok (spec_insert a key digest at_ms r).1.
Proof.
  intros Hnew Hid Hat Hl. pose proof (cs_ok _ _ Hsim) as Hok. set (id := hd_capability_id (ca_handle r)) in *.
  assert (Hmono : forall id' r', record_ok a id' r' -> record_ok (spec_insert a key digest at_ms r).1 id' r').
  { intros id' r' [? ? ? ? ? ? Hp]. split; try done. intros h Hh. destruct (Hp h Hh) as [? (p & Hpp & ?)]. split; [done|].
    exists p. split; [|done]. cbn. cap_simpl. rewrite lookup_insert_ne; [done|]. fold id. congruence. }
  split; unfold spec_insert; cbn [fst]; cap_simpl; fold id.
  - intros id' r' [[<- <-]|[Hne Hr']]%lookup_insert_Some; [|by apply Hmono, co_record].
    destruct Hnew as [? ? ? ? ? Hlim ?]. apply Hmono. split; try done.
    + destruct (ca_handle r) eqn:Eh. cbn in *. by subst.
    + intros l Hll. rewrite unused by done. specialize (Hl _ Hll). specialize (Hlim _ Hll). lia.
  - intros id' t Ht. destruct (co_revoked _ Hok _ _ Ht) as [? [x Hx]]. split; [done|]. exists x. rewrite lookup_insert_ne; [done|]. congruence.
  - intros k dg r' rc [[<- [= <- <- <-]]|[Hne Hr']]%lookup_insert_Some.
    + cbn. fold id. rewrite lookup_insert_eq. by rewrite (no_handle _ Hnew).
    + destruct (co_issued _ Hok _ _ _ _ Hr') as (Hc & ? & ? & ?). rewrite lookup_insert_ne; [done|]. congruence.
  - apply (co_revocation _ Hok).
  - intros k dg rc Hk. destruct (co_use _ Hok _ _ _ Hk) as [[x Hx] ?]. split; [|done]. exists x. rewrite lookup_insert_ne; [done|]. congruence.
Qed.

Lemma insert_sim key digest at_ms r : new_ok r -> ac_caps a !! hd_capability_id (ca_handle r) = None -> 0 <= at_ms ->
  (forall l, ca_call_limit r = Some l -> l <= i64_max) ->
  cap_sim (inserted key digest at_ms r) (spec_insert a key digest at_ms r).1.
Proof.
  intros Hnew Hid Hat Hl. split; [by apply insert_caps_ok|..]; unfold inserted, spec_insert; cbn [fst]; cap_simpl;
    set (id := hd_capability_id (ca_handle r)) in *.
  - intros id' r' [[<- <-]|[Hne Hr']]%lookup_insert_Some.
    + exists at_ms. by rewrite lookup_insert_eq, unrevoked_new.
    + rewrite lookup_insert_ne by done. by apply (cs_head _ _ Hsim).
  - intros id' [Hr' Hne]%lookup_insert_None. rewrite lookup_insert_ne by done. by apply (cs_no_head _ _ Hsim).
  - intros id' g. unfold version_of. cap_simpl. destruct (decide ((id, 1) = (id', g))) as [[= <- <-]|Hne].
    + by rewrite !lookup_insert_eq.
    + rewrite lookup_insert_ne by done. rewrite (cs_versions _ _ Hsim). unfold version_of. destruct (decide (g = 1)) as [->|?]; [|done].
      rewrite lookup_insert_ne; [done|]. congruence.
  - by rewrite (cs_issues _ _ Hsim), fmap_insert.
  - apply (cs_revocations _ _ Hsim).
  - apply (cs_uses _ _ Hsim).
  - apply (cs_schema _ _ Hsim).
Qed.

(** The numbers of a new capability that SQLite has to hold, and the identifiers it takes. *)
Definition record_numbers (r : CapabilityRecord) (at_ms : Z) : list Z :=
  [ca_valid_from_ms r; ca_valid_until_ms r; at_ms] ++ option_list (ca_call_limit r).
Definition issue_taken (digest : Z) : Prop :=
  let id := derive_id "nlos/capability/id/v1" [be_bytes 32 digest] in
  is_Some (ac_caps a !! id) \/
  exists k dg x, ac_issued a !! k = Some (dg, x) /\
    ci_receipt_id x.2 = derive_id "nlos/capability-issue-receipt/id/v1" [be_bytes 16 id; be_bytes 32 digest].

Lemma encode_parent_ok r : new_ok r -> encode_parent (ca_parent r) = Ok (parent_columns (ca_parent r)).
Proof.
  intros Hnew. destruct (ca_parent r) as [h|] eqn:Eh; [|done]. unfold parent_columns, encode_parent, cap_encode_u64. cbn.
  destruct (no_parent _ Hnew h Eh) as [-> _]. rewrite decide_True by (unfold i64_max; lia). done.
Qed.

Lemma head_allowed r at_ms id d' : new_ok r -> 0 <= at_ms -> cp_heads d' = cp_heads d ->
  (bool_decide (1 <= ch_target_kind (head_row r None at_ms) <= 2) && bool_decide (0 < ch_rights (head_row r None at_ms) <= 15)
   && bool_decide (0 <= ch_valid_from_ms (head_row r None at_ms) <= ch_valid_until_ms (head_row r None at_ms))
   && bool_decide (0 <= ch_delegation_depth_remaining (head_row r None at_ms) <= 255)
   && match ch_call_limit (head_row r None at_ms) with Some l => bool_decide (0 < l) | None => true end
   && bool_decide (ch_parent_capability_id (head_row r None at_ms) = None <-> ch_parent_generation (head_row r None at_ms) = None)
   && match ch_parent_generation (head_row r None at_ms) with Some g => bool_decide (1 <= g) | None => true end
   && bool_decide (0 <= ch_created_at_ms (head_row r None at_ms)) && bool_decide (1 <= ch_current_generation (head_row r None at_ms))
   && match ch_parent_capability_id (head_row r None at_ms) with Some p => bool_decide (p = id) || present (cp_heads d') p | None => true end) = true.
Proof.
  intros [_ _ Hr Hv Hd Hl Hp] Hat Hheads. cbn. repeat (apply andb_true_intro; split).
  - apply bool_decide_eq_true. destruct (ca_target r); cbn; lia.
  - by apply bool_decide_eq_true.
  - by apply bool_decide_eq_true.
  - by apply bool_decide_eq_true.
  - destruct (ca_call_limit r); [|done]. apply bool_decide_eq_true. by apply Hl.
  - apply bool_decide_eq_true. by destruct (ca_parent r).
  - destruct (ca_parent r) as [h|]; [|done]. cbn. apply bool_decide_eq_true. destruct (Hp h eq_refl). lia.
  - by apply bool_decide_eq_true.
  - done.
  - destruct (ca_parent r) as [h|]; [|done]. cbn. apply orb_true_iff. right. destruct (Hp h eq_refl) as [_ (p & Hpp & _)].
    apply present_true. rewrite Hheads. destruct (cs_head _ _ Hsim _ _ Hpp) as [c ->]. by eexists.
Qed.

Lemma wp_insert_capability key digest at_ms r (Q : () -> CapDb -> Prop) (X : CapabilityAuthorityError -> Prop) :
  new_ok r -> 0 <= at_ms -> hd_capability_id (ca_handle r) = derive_id "nlos/capability/id/v1" [be_bytes 32 digest] ->
  ac_issued a !! key = None ->
  (ac_caps a !! hd_capability_id (ca_handle r) = None -> cap_sim (inserted key digest at_ms r) (spec_insert a key digest at_ms r).1 ->
   Q () (inserted key digest at_ms r)) ->
  (Exists (fun x => i64_max < x) (record_numbers r at_ms) -> X (CapCorrupt "u64 exceeds SQLite")) ->
  (issue_taken digest -> X cap_refused) ->
  wp (insert_capability r (new_issue_receipt r digest at_ms) key digest) Q X d.
Proof.
  intros Hnew Hat Hid Hkey HQ Hbig Htaken. unfold insert_capability. wp_pure. eapply wp_lift_Ok; [by apply encode_parent_ok|].
  wp_pure. apply wp_cap_encode_ok. { destruct (no_rights _ Hnew). unfold i64_max. lia. }
  wp_pure. apply wp_cap_encode; [intros Hf|intros; apply Hbig; too_big].
  wp_pure. apply wp_cap_encode; [intros Hu|intros; apply Hbig; too_big].
  wp_pure. apply wp_cap_encode_optional; [intros Hl|intros (x & Hx & Hgt); apply Hbig; unfold record_numbers; rewrite Hx; too_big].
  wp_pure. apply wp_cap_encode; [intros Ht|intros; apply Hbig; too_big].
  cbn zeta. set (id := hd_capability_id (ca_handle r)) in *. wp_pure. change (ci_issued_at_ms _) with at_ms.
  destruct (ac_caps a !! id) as [r'|] eqn:Eid.
  { apply wp_insert_row; [|apply Htaken; left; rewrite <- Hid, Eid; by eexists]. intros Hn. destruct (cs_head _ _ Hsim _ _ Eid). congruence. }
  apply wp_insert_row_ok; [by apply (cs_no_head _ _ Hsim)|by apply (head_allowed r at_ms id d Hnew Hat)|]. cap_simpl.
  wp_pure. apply wp_insert_row_ok.
  { cap_simpl. rewrite (cs_versions _ _ Hsim). unfold version_of. by rewrite decide_True, Eid by done. }
  { cap_simpl. unfold present. by rewrite lookup_insert_eq. }
  cap_simpl. apply wp_insert_row_cause.
  { intros _ _. specialize (HQ eq_refl (insert_sim key digest at_ms r Hnew Eid Hat Hl)). unfold inserted, issue_row in HQ.
    cbn [ci_generation new_issue_receipt] in HQ. rewrite (no_handle _ Hnew) in HQ. exact HQ. }
  cap_simpl. intros [[x Hx]|Hall]; apply Htaken; [by rewrite (cs_issues _ _ Hsim), lookup_fmap, Hkey in Hx|]. right.
  cbn [xi_receipt_id xi_capability_id xi_generation xi_issued_at_ms xi_parent_generation xi_parent_capability_id] in Hall.
  repeat (apply andb_false_iff in Hall as [Hall|Hall]).
  - apply negb_false_iff, any_row_true in Hall as (k & row & Hrow & Heq%bool_decide_eq_true).
    rewrite (cs_issues _ _ Hsim), lookup_fmap in Hrow. destruct (ac_issued a !! k) as [[dg [r' rc]]|] eqn:Ek; [|done]. injection Hrow as <-.
    cbn in Heq. destruct (co_issued _ (cs_ok _ _ Hsim) _ _ _ _ Ek) as (Hc & _). destruct Heq as [Heq|Heq]; [|congruence].
    exists k, dg, (r', rc). split; [done|]. by rewrite <- Hid.
  - by apply bool_decide_eq_false in Hall.
  - by apply bool_decide_eq_false in Hall.
  - destruct (ca_parent r) as [h|] eqn:Eh; [|done]. apply bool_decide_eq_false in Hall. destruct (no_parent _ Hnew h Eh). cbn in Hall. lia.
  - apply bool_decide_eq_false in Hall. destruct Hall. by destruct (ca_parent r).
  - unfold present in Hall. by rewrite lookup_insert_eq in Hall.
  - destruct (ca_parent r) as [h|] eqn:Eh; [|done]. destruct (no_parent _ Hnew h Eh) as [_ (p & Hp & _)]. cbn in Hall.
    unfold present in Hall. rewrite lookup_insert_ne in Hall by congruence. destruct (cs_head _ _ Hsim _ _ Hp) as [c Hc]. by rewrite Hc in Hall.
Qed.
End insert.

(** ** The authority implements the abstract one *)

(** Requests carry u64 numbers, a u8 depth and rights that [from_bits] accepts. *)
Definition issue_fields_ok (rights from depth at_ms : Z) (limit : option Z) : Prop :=
  from_bits rights = Some rights /\ u64 rights /\ 0 <= from /\ 0 <= depth <= 255 /\ 0 <= at_ms /\ (forall l, limit = Some l -> 0 <= l).
Definition cap_request_ok (q : CapRequest) : Prop :=
  match q with
  | CapIssue _ _ _ q => let r := si_command q in
      issue_fields_ok (ir_rights r) (ir_valid_from_ms r) (ir_delegation_depth_remaining r) (ir_issued_at_ms r) (ir_call_limit r)
  | CapDelegate _ _ _ q => let r := sd_command q in
      issue_fields_ok (dl_rights r) (dl_valid_from_ms r) (dl_delegation_depth_remaining r) (dl_delegated_at_ms r) (dl_call_limit r)
  | CapRevoke _ _ q => 0 <= rp_revoked_at_ms (sv_command q)
  | CapConsume r => 0 <= co_consumed_at_ms r
  | CapReopen _ => True
  end.

(** The numbers a request has the authority store. *)
Definition cap_numbers (q : CapRequest) : list Z :=
  match q with
  | CapIssue _ _ _ q => let r := si_command q in
      [ir_valid_from_ms r; ir_valid_until_ms r; ir_issued_at_ms r] ++ option_list (ir_call_limit r)
  | CapDelegate _ _ _ q => let r := sd_command q in
      [dl_valid_from_ms r; dl_valid_until_ms r; dl_delegated_at_ms r] ++ option_list (dl_call_limit r)
  | CapRevoke _ _ q => [rp_revoked_at_ms (sv_command q)]
  | CapConsume r => [co_consumed_at_ms r]
  | CapReopen _ => []
  end.

Section implements.
Context {H : Sha256} {E : Ed25519}.

(** An identifier the request derives was derived before. *)
Definition cap_taken (a : AbsCaps) (q : CapRequest) : Prop :=
  match q with
  | CapIssue _ _ _ q => issue_taken (a := a) (root_request_digest (si_command q))
  | CapDelegate _ _ _ q => issue_taken (a := a) (delegate_request_digest (sd_command q))
  | CapRevoke _ _ q => exists k x, ac_revocations a !! k = Some x /\
      cv_receipt_id x.2 = derive_id "nlos/capability-revocation-receipt/id/v1" [be_bytes 32 (revoke_request_digest (sv_command q))]
  | CapConsume r => exists k x, ac_uses a !! k = Some x /\
      cc_receipt_id x.2 = derive_id "nlos/capability-consumption-receipt/id/v1"
        [be_bytes 16 (hd_capability_id (co_handle r)); be_bytes 32 (consume_request_digest r)]
  | CapReopen _ => False
  end.

Definition cap_refusal (a : AbsCaps) (q : CapRequest) (e : CapabilityAuthorityError) : Prop :=
  (e = CapCorrupt "u64 exceeds SQLite" /\ Exists (fun x => i64_max < x) (cap_numbers q)) \/ (e = cap_refused /\ cap_taken a q).

(** What an operation has to do against its specification [s]. *)
Definition cap_implements {B} (d : CapDb) (a : AbsCaps) (q : CapRequest) (m : cap_tx B)
    (s : result CapabilityAuthorityError (AbsCaps * B)) : Prop :=
  wp m (fun x d' => exists a', s = Ok (a', x) /\ cap_extends a a' /\ cap_sim d' a') (fun e => s = Err e \/ cap_refusal a q e) d.

Context {d : CapDb} {a : AbsCaps} (Hsim : cap_sim d a).

Lemma cap_bits_ok r : from_bits r = Some r -> u64 r -> 0 < r <= 15.
Proof.
  unfold from_bits, u64. case_decide as Hr; [|done]. intros _ Hu. destruct Hr as [Hne Hand].
  assert (Hmask : r = Z.land r 15).
  { rewrite <- (Z.mod_small r (2 ^ 64)) at 1 by (unfold u64_max in Hu; lia). rewrite <- Z.land_ones by lia.
    change (Z.ones 64) with (Z.lor 15 (u64_max - ALLOWED)). by rewrite Z.land_lor_distr_r, Hand, Z.lor_0_r. }
  change 15 with (Z.ones 4) in Hmask at 1. rewrite Z.land_ones in Hmask by lia. pose proof (Z.mod_pos_bound r (2 ^ 4)). lia.
Qed.

Lemma insert_extends key digest at_ms r : ac_issued a !! key = None -> ac_caps a !! hd_capability_id (ca_handle r) = None ->
  cap_extends a (spec_insert a key digest at_ms r).1.
Proof. intros Hk Hid. split; cbn; by try apply insert_subseteq. Qed.

Lemma issue_implements i1 i2 i3 q : cap_request_ok (CapIssue i1 i2 i3 q) ->
  cap_implements d a (CapIssue i1 i2 i3 q) (issue_root_signed i1 i2 i3 q) (spec_issue a i1 i2 i3 q).
Proof.
  intros (Hbits & Hu & Hfrom & Hdepth & Hat & Hlim). unfold cap_implements, issue_root_signed, spec_issue. cbn zeta.
  set (r := si_command q) in *. wp_pure. apply wp_lift; [|intros e ->; by left]. intros [] Hb. rewrite Hb. cbn [mbind result_bind].
  wp_pure. apply (wp_issue_replay Hsim). unfold replay_gives, answer_once.
  destruct (ac_issued a !! ir_idempotency_key r) as [[dg x]|] eqn:Ei.
  { destruct (decide _); [|by left]. wp_pure. by exists a. }
  unfold spec_actor. wp_pure. apply wp_lift; [|intros e ->; by left]. intros verified ->. cbn [mbind result_bind].
  wp_pure. apply wp_lift; [|intros e ->; by left]. intros issuer ->. cbn [mbind result_bind].
  wp_pure. apply wp_lift; [|intros e ->; by left]. intros [] ->. cbn [mbind result_bind].
  wp_pure. apply wp_lift; [|intros e ->; by left]. intros holder ->. cbn [mbind result_bind mret result_ret].
  change (new_record _ _ _ _ _ _ _ _ _ _ _) with (root_record r issuer holder). wp_pure.
  apply (wp_insert_capability Hsim); [|done|done|done|..].
  - unfold validate_bounds in Hb. destruct (decide _); [done|]. destruct (decide _) as [|Hl0]; [done|]. split; cbn; try done.
    + by apply cap_bits_ok.
    + lia.
    + intros l Hl. specialize (Hlim l Hl). destruct (decide (l = 0)) as [->|?]; [done|lia].
  - intros Hid Hs. wp_pure. eexists. split; [done|]. split; [by apply insert_extends|done].
  - intros Hbig. right. left. done.
  - intros Ht. right. by right.
Qed.

Lemma active_unrevoked handle r at_ms : spec_exact a handle = Ok r -> spec_active a r at_ms = Ok () ->
  ac_caps a !! hd_capability_id handle = Some r /\ ac_revoked a !! hd_capability_id handle = None /\ hd_generation handle = 1.
Proof.
  intros Hex Hac. destruct (exact_current _ _ Hex) as (r0 & Hr0 & -> & Hg).
  unfold spec_active, first_stop, ancestry, stops in Hac. destruct (decide (ca_revoked_at_ms _ <> None)) as [|Hu]; [done|].
  rewrite (as_of_revoked Hsim _ _ _ Hr0) in Hu. destruct (ac_revoked a !! hd_capability_id handle) eqn:Et; [by destruct Hu|].
  split; [done|]. split; [done|]. rewrite <- Hg. by apply (as_of_generation Hsim _ _ _ Hr0).
Qed.

Lemma attenuation_ok parent r delegator recipient : attenuation parent r = Ok () ->
  ib_principal_id delegator = ca_holder parent -> ib_control_domain_id delegator = ca_holder_control_domain parent ->
  attenuates parent (child_record r delegator recipient).
Proof.
  unfold attenuation. intros Ha Hp Hd. destruct (contains (ca_rights parent) DELEGATE) eqn:E1; [|done]. destruct (is_subset_of _ _) eqn:E2; [|done].
  destruct (target_is_within _ _) eqn:E3; [|done]. destruct (purpose_is_attenuated _ _) eqn:E4; [|done]. cbn in Ha.
  destruct (decide _) as [|Hv]; [done|]. destruct (call_limit_is_attenuated _ _) eqn:E5; [|done]. cbn in Ha.
  destruct (decide _); [done|]. split; cbn; done || lia.
Qed.

Lemma delegate_implements i1 i2 i3 q : cap_request_ok (CapDelegate i1 i2 i3 q) ->
  cap_implements d a (CapDelegate i1 i2 i3 q) (delegate_signed i1 i2 i3 q) (spec_delegate a i1 i2 i3 q).
Proof.
  intros (Hbits & Hu & Hfrom & Hdepth & Hat & Hlim). unfold cap_implements, delegate_signed, spec_delegate. cbn zeta.
  set (r := sd_command q) in *. wp_pure. apply wp_lift; [|intros e ->; by left]. intros [] Hb. rewrite Hb. cbn [mbind result_bind].
  wp_pure. apply (wp_issue_replay Hsim). unfold replay_gives, answer_once.
  destruct (ac_issued a !! dl_idempotency_key r) as [[dg x]|] eqn:Ei.
  { destruct (decide _); [|by left]. wp_pure. by exists a. }
  unfold spec_delegator, spec_actor. fold r. wp_pure. apply (wp_load_exact Hsim); [|intros e ->; by left].
  intros parent Hpar. rewrite Hpar. cbn [mbind result_bind].
  destruct (exact_current _ _ Hpar) as (p & Hp & -> & _). wp_pure. apply (wp_active Hsim _ _ _ _ _ Hp); [|intros e ->; by left].
  intros Hac. destruct (active_unrevoked _ _ _ Hpar Hac) as (Hp' & Hrev & Hgen). rewrite Hac. rewrite Hrev in *. cbn [as_of mbind result_bind] in *.
  wp_pure. apply wp_lift; [|intros e ->; by left]. intros verified ->. cbn [mbind result_bind].
  wp_pure. apply wp_lift; [|intros e ->; by left]. intros delegator ->. cbn [mbind result_bind].
  wp_pure. apply wp_lift; [|intros e ->; by left]. intros [] ->. cbn [mbind result_bind mret result_ret].
  wp_case as Hm; [by left|].
  wp_pure. apply wp_lift; [|intros e ->; by left]. intros recipient ->. cbn [mbind result_bind].
  wp_pure. apply wp_lift; [|intros e ->; by left]. intros [] Hatt. rewrite Hatt. cbn [mbind result_bind mret result_ret fst snd].
  change (new_record _ _ _ _ _ _ _ _ _ _ _) with (child_record r delegator recipient). wp_pure.
  apply (wp_insert_capability Hsim); [|done|done|done|..].
  - unfold validate_bounds in Hb. destruct (decide _); [done|]. destruct (decide _) as [|Hl0]; [done|]. split; cbn; try done.
    + by apply cap_bits_ok.
    + lia.
    + intros l Hl. specialize (Hlim l Hl). destruct (decide (l = 0)) as [->|?]; [done|lia].
    + intros h [= <-]. split; [done|]. exists p. split; [done|]. apply attenuation_ok; [done|apply dec_stable; tauto..].
  - intros Hid Hs. wp_pure. eexists. split; [done|]. split; [by apply insert_extends|done].
  - intros Hbig. right. left. done.
  - intros Ht. right. by right.
Qed.

(** *** Revoking *)

Section revoking.
Context (id key digest : Z) (r : CapabilityRecord) (rc : CapabilityRevocationReceipt) (created : Z).
Context (Hr : ac_caps a !! id = Some r) (Hlive : ac_revoked a !! id = None).
Context (Hprior : cv_prior_generation rc = 1) (Hnext : cv_resulting_generation rc = 2) (Ht : 0 <= cv_revoked_at_ms rc).

Definition revoked_caps : AbsCaps :=
  a <| ac_revoked := <[id := cv_revoked_at_ms rc]> (ac_revoked a) |> <| ac_revocations := <[key := (digest, rc)]> (ac_revocations a) |>.
Definition revoked_tables : CapDb :=
  d <| cp_versions := <[(id, 2) := Some (cv_revoked_at_ms rc)]> (cp_versions d) |>
    <| cp_heads := <[id := head_row r (Some (cv_revoked_at_ms rc)) created]> (cp_heads d) |>
    <| cp_revocations := <[key := cap_revocation_row (digest, rc)]> (cp_revocations d) |>.

Lemma revoke_sim : cap_sim revoked_tables revoked_caps.
Proof.
  pose proof (cs_ok _ _ Hsim) as Hok. split; unfold revoked_tables, revoked_caps; cap_simpl.
  - split; cap_simpl.
    + intros id' r' Hr'. by destruct (co_record _ Hok _ _ Hr').
    + intros id' t [[<- <-]|[Hne Hx]]%lookup_insert_Some; [by rewrite Hr|by apply (co_revoked _ Hok)].
    + apply (co_issued _ Hok).
    + intros k dg rc' [[<- [= <- <-]]|[Hne Hx]]%lookup_insert_Some; [done|by apply (co_revocation _ Hok _ _ _ Hx)].
    + apply (co_use _ Hok).
  - intros id' r' Hr'. destruct (decide (id = id')) as [<-|Hne].
    + exists created. rewrite !lookup_insert_eq. congruence.
    + rewrite !lookup_insert_ne by done. by apply (cs_head _ _ Hsim).
  - intros id' Hn. rewrite lookup_insert_ne by congruence. by apply (cs_no_head _ _ Hsim).
  - intros id' g. unfold version_of. cap_simpl. destruct (decide ((id, 2) = (id', g))) as [[= <- <-]|Hne].
    + by rewrite !lookup_insert_eq.
    + rewrite lookup_insert_ne by done. rewrite (cs_versions _ _ Hsim). unfold version_of. destruct (decide (g = 1)); [done|].
      destruct (decide (g = 2)) as [->|?]; [|done]. rewrite lookup_insert_ne; [done|]. congruence.
  - apply (cs_issues _ _ Hsim).
  - by rewrite (cs_revocations _ _ Hsim), fmap_insert.
  - apply (cs_uses _ _ Hsim).
  - apply (cs_schema _ _ Hsim).
Qed.
End revoking.

Lemma cap_revoke_implements i1 i2 q : cap_request_ok (CapRevoke i1 i2 q) ->
  cap_implements d a (CapRevoke i1 i2 q) (revoke_signed i1 i2 q) (spec_cap_revoke a i1 i2 q).
Proof.
  intros Hat. cbn in Hat. unfold cap_implements, revoke_signed, spec_cap_revoke. cbn zeta. set (r := sv_command q) in *.
  wp_pure. apply (wp_revocation_replay Hsim). unfold replay_gives, answer_once.
  destruct (ac_revocations a !! rp_idempotency_key r) as [[dg x]|] eqn:Ei.
  { destruct (decide _); [|by left]. wp_pure. by exists a. }
  unfold spec_revoker, spec_actor. fold r. wp_pure. apply (wp_load_exact Hsim); [|intros e ->; by left].
  intros record Hex. rewrite Hex. cbn [mbind result_bind]. destruct (exact_current _ _ Hex) as (p & Hp & -> & Hg).
  wp_case as Hrev; [by left|]. rewrite (as_of_revoked Hsim _ _ _ Hp) in Hrev. apply dec_stable in Hrev. rewrite Hrev in *. cbn [as_of] in *.
  destruct (cs_head _ _ Hsim _ _ Hp) as [created Hhead]. rewrite Hrev in Hhead.
  pose proof (ro_handle _ _ _ (co_record _ (cs_ok _ _ Hsim) _ _ Hp)) as Hh. rewrite Hh in *. cbn [hd_generation hd_capability_id] in *.
  wp_pure. apply wp_lift; [|intros e ->; by left]. intros verified ->. cbn [mbind result_bind].
  wp_pure. apply wp_lift; [|intros e ->; by left]. intros revoker ->. cbn [mbind result_bind].
  wp_pure. apply wp_lift; [|intros e ->; by left]. intros [] ->. cbn [mbind result_bind mret result_ret].
  wp_case as Hm; [by left|]. cbn [mbind result_bind mret result_ret]. rewrite <- Hg.
  wp_pure. eapply (wp_lift_Ok _ _ 2); [done|]. wp_pure. apply wp_cap_encode_ok; [by vm_compute|].
  wp_pure. apply wp_cap_encode; [intros Hmax|intros; right; left; split; [done|]; cbn; too_big].
  wp_pure. apply wp_insert_row_ok.
  { rewrite (cs_versions _ _ Hsim). unfold version_of. by rewrite decide_False, decide_True, Hrev. }
  { unfold present. rewrite Hhead. cbn. rewrite bool_decide_eq_true_2 by done. by rewrite bool_decide_eq_true_2. }
  wp_pure. apply wp_cap_encode_ok; [by vm_compute|]. wp_pure. unfold update_cap_head. do 2 wp_pure. cap_simpl. rewrite Hhead.
  cbn [ch_current_generation head_row]. rewrite decide_False by (intros Hx; by apply Hx). do 3 wp_pure. rewrite decide_False by (intros Hx; by apply Hx).
  wp_pure. apply wp_insert_row_cause.
  - intros _ _. wp_pure. eexists. split; [done|]. split; [split; cap_simpl; by try apply insert_subseteq|].
    apply (revoke_sim (hd_capability_id (rp_handle r)) (rp_idempotency_key r) (revoke_request_digest r) p (cap_revocation_receipt r revoker) created); done.
  - cap_simpl. intros [[x Hx]|Hall]; right; right; (split; [done|]); [by rewrite (cs_revocations _ _ Hsim), lookup_fmap, Ei in Hx|].
    cbn [xr_receipt_id xr_capability_id xr_prior_generation xr_resulting_generation xr_revoked_at_ms cv_receipt_id] in Hall.
    repeat (apply andb_false_iff in Hall as [Hall|Hall]); [|by apply bool_decide_eq_false in Hall..|].
    + apply negb_false_iff, any_row_true in Hall as (k & row & Hrow & Heq%bool_decide_eq_true).
      rewrite (cs_revocations _ _ Hsim), lookup_fmap in Hrow. destruct (ac_revocations a !! k) as [[dg rc]|] eqn:Ek; [|done].
      injection Hrow as <-. cbn. fold r. by exists k, (dg, rc).
    + unfold present in Hall. by rewrite lookup_insert_eq in Hall.
Qed.

(** *** Using *)

Lemma admit_unrevoked handle signer target right purpose at_ms r :
  spec_admit a handle signer target right purpose at_ms = Ok r ->
  ac_caps a !! hd_capability_id handle = Some r /\ ac_revoked a !! hd_capability_id handle = None /\ hd_generation handle = 1.
Proof.
  unfold spec_admit. destruct (spec_exact a handle) as [r'|] eqn:Ex; [|done]. cbn. destruct (spec_active a r' at_ms) as [[]|] eqn:Ea; [|done]. cbn.
  repeat (destruct (decide _); [done|]). destruct (target_is_within _ _); [|done]. destruct (contains _ _); [|done]. cbn.
  destruct (decide _); [done|]. intros [= ->]. by eapply active_unrevoked.
Qed.

Section uses.
Context (key digest : Z) (r : CapabilityRecord) (rc : CapabilityConsumptionReceipt).
Context (Hr : ac_caps a !! cc_capability_id rc = Some r) (Hkey : ac_uses a !! key = None).
Context (Hg : cc_generation rc = 1) (Ht : 0 <= cc_consumed_at_ms rc) (Hn : forall n, cc_remaining rc = Some n -> 0 <= n).
Context (Hl : forall l, ca_call_limit r = Some l -> used a (cc_capability_id rc) < l).

Definition used_caps : AbsCaps := a <| ac_uses := <[key := (digest, rc)]> (ac_uses a) |>.

Lemma used_after id : used used_caps id = used a id + (if decide (cc_capability_id rc = id) then 1 else 0).
Proof. unfold used, used_caps. cap_simpl. rewrite count_rows_insert by done. cbn. by destruct (decide _), (bool_decide_reflect (cc_capability_id rc = id)). Qed.

Lemma use_sim : cap_sim (d <| cp_consumptions := <[key := use_row (digest, rc)]> (cp_consumptions d) |>) used_caps.
Proof.
  pose proof (cs_ok _ _ Hsim) as Hok. split; try (apply Hsim).
  - split; try (apply Hok).
    + intros id r' Hr'. destruct (co_record _ Hok _ _ Hr') as [? ? ? ? ? Hlim ?]. split; try done.
      intros l Hll. destruct (Hlim l Hll). split; [done|]. rewrite used_after. case_decide as Hid; [|lia]. subst id.
      assert (r' = r) as -> by (cbn in Hr'; congruence). specialize (Hl l Hll). lia.
    + unfold used_caps. cap_simpl. intros k dg rc' [[<- [= <- <-]]|[Hne Hx]]%lookup_insert_Some; [|by apply (co_use _ Hok _ _ _ Hx)].
      split; [|done]. by exists r.
  - unfold used_caps. cap_simpl. by rewrite (cs_uses _ _ Hsim), fmap_insert.
Qed.
End uses.

Lemma limit_used id r l : ac_caps a !! id = Some r -> ca_call_limit r = Some l -> 0 <= used a id <= l /\ l <= i64_max.
Proof.
  intros Hr Hl. destruct (ro_limit _ _ _ (co_record _ (cs_ok _ _ Hsim) _ _ Hr) l Hl) as [? ?].
  pose proof (count_rows_nonneg (fun _ u => bool_decide (cc_capability_id u.2 = id)) (ac_uses a)). unfold used in *. lia.
Qed.

Lemma limit_left id r n : ac_caps a !! id = Some r -> ca_call_limit r <> Some (used a id) ->
  left_after (ca_call_limit r) (used a id + 1) = Some n -> 0 <= n <= i64_max.
Proof.
  unfold left_after. intros Hr Hne Hn. destruct (ca_call_limit r) as [l|] eqn:El; [|done]. destruct (limit_used _ _ _ Hr El).
  injection Hn as <-. assert (l <> used a id) by congruence. lia.
Qed.

Lemma consume_implements r : cap_request_ok (CapConsume r) -> cap_implements d a (CapConsume r) (consume r) (spec_consume a r).
Proof.
  intros Hat. cbn in Hat. unfold cap_implements, consume, spec_consume. cbn zeta.
  wp_pure. apply (wp_use_replay Hsim). unfold replay_gives, answer_once.
  destruct (ac_uses a !! co_idempotency_key r) as [[dg x]|] eqn:Ei.
  { destruct (decide _); [|by left]. wp_pure. by exists a. }
  wp_pure. apply (wp_admit Hsim); [|intros e ->; by left]. intros record Had. rewrite Had. cbn [mbind result_bind].
  destruct (admit_unrevoked _ _ _ _ _ _ _ Had) as (Hr & Hrev & Hgen). pose proof (co_record _ (cs_ok _ _ Hsim) _ _ Hr) as Hok.
  pose proof (ro_handle _ _ _ Hok) as Hh. unfold use_receipt. rewrite Hh. cbn [hd_capability_id hd_generation].
  set (id := hd_capability_id (co_handle r)) in *. wp_pure. apply (wp_count Hsim). wp_pure.
  assert (Hused := fun l => limit_used _ _ l Hr).
  apply wp_lift; [intros remaining Hrem|intros e He].
  2: { left. destruct (ca_call_limit record) as [l|] eqn:El; [|done]. destruct (Hused l eq_refl). destruct (decide (l <= used a id)); [|done].
       rewrite decide_True by (f_equal; lia). congruence. }
  assert (remaining = left_after (ca_call_limit record) (used a id + 1) /\ ca_call_limit record <> Some (used a id)) as [-> Hne].
  { destruct (ca_call_limit record) as [l|] eqn:El; [|by injection Hrem as <-]. destruct (decide (l <= used a id)); [done|].
    injection Hrem as <-. unfold left_after. cbn. split; [f_equal; lia|]. intros [= ->]. lia. }
  rewrite decide_False by done. cbn [mret result_ret]. wp_pure. apply wp_cap_encode_ok; [by vm_compute|]. wp_pure.
  assert (Hleft := fun n => limit_left _ _ n Hr Hne).
  apply wp_cap_encode_optional; [intros _|intros (n & Hn & ?); specialize (Hleft n Hn); lia].
  wp_pure. apply wp_cap_encode; [intros Hmax|intros; right; left; split; [done|]; cbn; too_big].
  wp_pure. apply wp_insert_row_cause.
  - intros _ _. wp_pure. eexists. split; [done|]. split; [split; cap_simpl; by try apply insert_subseteq|].
    apply (use_sim (co_idempotency_key r) (consume_request_digest r) record
      {| cc_receipt_id := _; cc_capability_id := id; cc_generation := 1; cc_remaining := _; cc_consumed_at_ms := _ |}); cbn; try done.
    + intros n Hn. by apply Hleft.
    + intros l Hl. destruct (Hused l Hl). assert (l <> used a id) by congruence. lia.
  - intros [[x Hx]|Hall]; right; right; (split; [done|]); [by rewrite (cs_uses _ _ Hsim), lookup_fmap, Ei in Hx|].
    cbn [xc_receipt_id xc_capability_id xc_generation xc_remaining xc_consumed_at_ms cc_receipt_id] in Hall.
    repeat (apply andb_false_iff in Hall as [Hall|Hall]); [|exfalso|by apply bool_decide_eq_false in Hall..|exfalso].
    + apply negb_false_iff, any_row_true in Hall as (k & row & Hrow & Heq%bool_decide_eq_true).
      rewrite (cs_uses _ _ Hsim), lookup_fmap in Hrow. destruct (ac_uses a !! k) as [[dg rc]|] eqn:Ek; [|done].
      injection Hrow as <-. cbn. by exists k, (dg, rc).
    + destruct (left_after _ _) as [n|]; [|done]. apply bool_decide_eq_false in Hall. destruct (Hleft n eq_refl). lia.
    + unfold present in Hall. rewrite (cs_versions _ _ Hsim) in Hall. unfold version_of in Hall. by rewrite decide_True, Hr in Hall.
Qed.

(** *** Reads *)

Lemma run_cap_reads {A} (m : cap_tx A) (s : result CapabilityAuthorityError A) :
  wp m (fun x d' => s = Ok x /\ d' = d) (fun e => s = Err e) d -> run_tx m d = (d, s).
Proof. unfold wp, run_tx. destruct (m d) as [[x d']|e]; [by intros [-> ->]|by intros ->]. Qed.

Lemma run_authorize r : run_tx (authorize_semantic r) d = (d, spec_authorize a r).
Proof.
  apply run_cap_reads. unfold authorize_semantic, spec_authorize. wp_pure. apply (wp_admit Hsim); [|by intros e ->].
  intros record ->. by wp_pure.
Qed.

Lemma run_inspect_active handle at_ms : run_tx (inspect_active handle at_ms) d = (d, spec_inspect a handle at_ms).
Proof.
  apply run_cap_reads. unfold inspect_active, spec_inspect. wp_pure. apply (wp_load_exact Hsim); [|by intros e ->].
  intros r Hr. rewrite Hr. destruct (exact_current _ _ Hr) as (r0 & Hr0 & -> & _). wp_pure.
  apply (wp_active Hsim _ _ _ _ _ Hr0); [|intros e He; cbn; by rewrite He]. intros Ha. wp_pure. cbn. by rewrite Ha.
Qed.

Lemma run_remaining handle : run_tx (call_limit_remaining handle) d = (d, spec_remaining a handle).
Proof.
  apply run_cap_reads. unfold call_limit_remaining, spec_remaining. wp_pure. apply (wp_load_exact Hsim); [|by intros e ->].
  intros r Hr. rewrite Hr. destruct (exact_current _ _ Hr) as (r0 & Hr0 & Heq & _).
  destruct (as_of_fields r0 (ac_revoked a !! hd_capability_id handle)) as (_ & _ & _ & Hlim). rewrite <- Heq in Hlim.
  assert (hd_capability_id (ca_handle r) = hd_capability_id handle) as Hid.
  { pose proof (ro_handle _ _ _ (co_record _ (cs_ok _ _ Hsim) _ _ Hr0)) as Hh. rewrite Heq. destruct (ac_revoked a !! _); cbn; by rewrite Hh. }
  cbn [mbind result_bind]. destruct (ca_call_limit r) as [l|] eqn:El; [|by wp_pure]. rewrite Hid. wp_pure. apply (wp_count Hsim). wp_pure.
  destruct (limit_used _ _ l Hr0); [by rewrite <- Hlim|]. cbn. rewrite Z.max_r by lia. done.
Qed.
End implements.

(** ** Steps *)

Definition refused_with (q : CapRequest) (e : CapabilityAuthorityError) : CapAnswer :=
  match q with
  | CapIssue _ _ _ _ | CapDelegate _ _ _ _ => IssueAnswer (Err e)
  | CapRevoke _ _ _ => CapRevokeAnswer (Err e)
  | CapConsume _ => ConsumeAnswer (Err e)
  | CapReopen _ => CapReopenAnswer (Err e)
  end.

Section cap_steps.
Context {H : Sha256} {E : Ed25519} {d : CapDb} {a : AbsCaps} (Hsim : cap_sim d a).

(** The step answers as the abstract authority does, or refuses for a cause. *)
Definition cap_steps_to (q : CapRequest) (d' : CapDb) (x : CapAnswer) : Prop :=
  (x = (spec_cap_step a q).2 /\ cap_extends a (spec_cap_step a q).1 /\ cap_sim d' (spec_cap_step a q).1) \/
  exists e, x = refused_with q e /\ d' = d /\ cap_refusal a q e.

Lemma cap_implements_step {B} q (m : cap_tx B) s (f : result CapabilityAuthorityError B -> CapAnswer) :
  cap_implements d a q m s -> (forall e, refused_with q e = f (Err e)) ->
  spec_cap_step a q = match s with Ok (a', x) => (a', f (Ok x)) | Err e => (a, f (Err e)) end ->
  cap_steps_to q (run_tx m d).1 (f (run_tx m d).2).
Proof.
  unfold cap_implements, cap_steps_to, wp, run_tx. intros Hi Hf Hs. rewrite Hs. destruct (m d) as [[x d']|e].
  - destruct Hi as (a' & -> & He & Hsim'). by left.
  - destruct Hi as [-> |Hr]; [by left|]. right. exists e. by rewrite Hf.
Qed.

Lemma cap_step_implements q : cap_request_ok q -> cap_steps_to q (cap_step d q).1 (cap_step d q).2.
Proof.
  intros Hok. destruct q as [i1 i2 i3 r|i1 i2 i3 r|i1 i2 r|r|dies]; cbn [cap_step].
  - rewrite (surjective_pairing (run_tx _ d)). by eapply (cap_implements_step _ _ _ IssueAnswer), eq_refl; [apply issue_implements|].
  - rewrite (surjective_pairing (run_tx _ d)). by eapply (cap_implements_step _ _ _ IssueAnswer), eq_refl; [apply delegate_implements|].
  - rewrite (surjective_pairing (run_tx _ d)). by eapply (cap_implements_step _ _ _ CapRevokeAnswer), eq_refl; [apply cap_revoke_implements|].
  - rewrite (surjective_pairing (run_tx _ d)). by eapply (cap_implements_step _ _ _ ConsumeAnswer), eq_refl; [apply consume_implements|].
  - left. unfold cap_open. rewrite (cs_schema _ _ Hsim). cbn. by split.
Qed.
End cap_steps.
