(* ===== verification/CapRuns.v ===== *)
(** * CapRuns: identities and capabilities over time

    The identity and the capability authority run together: requests to both in any order,
    with other threads changing identities between the reads of one capability command.
    From new files, every authorization goes back over attenuating delegations, each signed
    by the holder it came from, to a root capability; a revocation stops a capability and
    everything delegated from it for good; limits hold; and answered commands are answered
    the same way again. *)

From S2P Require Import Prelude Bytes Txn Clock Identity IdentityRefines IdentityRuns Capability CapRefines.

#[export] Instance VerifiedSemanticSigner_eq_dec : EqDecision VerifiedSemanticSigner.
Proof. solve_decision. Defined.

(** ** The system *)

(** The two files, and the proofs of signature the callers hold: a
    [VerifiedSemanticSigner] has private fields, so only the identity authority makes one. *)
Record System := { sy_identity : IdDb; sy_caps : CapDb; sy_signers : list VerifiedSemanticSigner }.

Definition new_system : System := {| sy_identity := new_identity_file; sy_caps := new_capability_file; sy_signers := [] |}.

(** The lists of requests are what other threads ask of the identity authority before each
    of the reads of a command. *)
Inductive SysEvent :=
  | EIdentity (q : IdRequest)
  | EProof (r : VerifySemanticSignatureRequest)
  | EIssue (b1 b2 b3 : list IdRequest) (q : SignedIssueRootCapabilityRequest)
  | EDelegate (b1 b2 b3 : list IdRequest) (q : SignedDelegateCapabilityRequest)
  | ERevoke (b1 b2 : list IdRequest) (q : SignedRevokeCapabilityRequest)
  | EConsume (r : ConsumeCapabilityRequest)
  | EReopen (dies : bool).

(** What happened: with the identity tables a proof was made from and those of the reads of
    a command. *)
Inductive SysLog :=
  | LIdentity (q : IdRequest) (x : IdAnswer)
  | LProof (i : IdDb) (r : VerifySemanticSignatureRequest) (x : result IdentityAuthorityError VerifiedSemanticSigner)
  | LCap (q : CapRequest) (x : CapAnswer).

Section system.
Context {H : Sha256} {E : Ed25519}.

Definition id_after (i : IdDb) (b : list IdRequest) : IdDb := (id_run i b).1.

Definition command (s : System) (i : IdDb) (q : CapRequest) : System * SysLog :=
  let '(d, x) := cap_step (sy_caps s) q in
  ({| sy_identity := i; sy_caps := d; sy_signers := sy_signers s |}, LCap q x).

(** A use needs a proof that was made; there is no step without one. *)
Definition sys_step (s : System) (ev : SysEvent) : option (System * SysLog) :=
  match ev with
  | EIdentity q =>
      let '(i, x) := id_step (sy_identity s) q in
      Some ({| sy_identity := i; sy_caps := sy_caps s; sy_signers := sy_signers s |}, LIdentity q x)
  | EProof r =>
      let x := (run_tx (verify_semantic_signature r) (sy_identity s)).2 in
      Some ({| sy_identity := sy_identity s; sy_caps := sy_caps s;
               sy_signers := match x with Ok g => g :: sy_signers s | Err _ => sy_signers s end |}, LProof (sy_identity s) r x)
  | EIssue b1 b2 b3 q =>
      let i1 := id_after (sy_identity s) b1 in let i2 := id_after i1 b2 in let i3 := id_after i2 b3 in
      Some (command s i3 (CapIssue i1 i2 i3 q))
  | EDelegate b1 b2 b3 q =>
      let i1 := id_after (sy_identity s) b1 in let i2 := id_after i1 b2 in let i3 := id_after i2 b3 in
      Some (command s i3 (CapDelegate i1 i2 i3 q))
  | ERevoke b1 b2 q =>
      let i1 := id_after (sy_identity s) b1 in let i2 := id_after i1 b2 in
      Some (command s i2 (CapRevoke i1 i2 q))
  | EConsume r => if decide (co_signer r ∈ sy_signers s) then Some (command s (sy_identity s) (CapConsume r)) else None
  | EReopen dies => Some (command s (sy_identity s) (CapReopen dies))
  end.

(** Requests carry values of their types. *)
Definition event_ok (ev : SysEvent) : Prop :=
  match ev with
  | EIdentity q => id_request_ok q
  | EProof _ | EReopen _ => True
  | EIssue b1 b2 b3 q => Forall id_request_ok (b1 ++ b2 ++ b3) /\ cap_request_ok (CapIssue no_identity_file no_identity_file no_identity_file q)
  | EDelegate b1 b2 b3 q => Forall id_request_ok (b1 ++ b2 ++ b3) /\ cap_request_ok (CapDelegate no_identity_file no_identity_file no_identity_file q)
  | ERevoke b1 b2 q => Forall id_request_ok (b1 ++ b2) /\ cap_request_ok (CapRevoke no_identity_file no_identity_file q)
  | EConsume r => cap_request_ok (CapConsume r)
  end.

Inductive reaches : list SysLog -> System -> Prop :=
  | reaches_start : reaches [] new_system
  | reaches_step tr s ev s' l : reaches tr s -> event_ok ev -> sys_step s ev = Some (s', l) -> reaches (tr ++ [l]) s'.

(** ** What the log says *)

(** A signature that verified under the current, unrevoked, valid key of a principal. *)
Definition signed_by (i : IdDb) (principal message signature at_ms : Z) : Prop :=
  exists b, (run_tx (inspect_current_binding (ib_key_id b)) i).2 = Ok b /\ ib_principal_id b = principal /\
    ib_key_purpose b = SemanticSigning /\ ib_key_revoked_at_ms b = None /\
    ib_key_valid_from_ms b <= at_ms <= ib_key_valid_until_ms b /\ verify_strict (ib_public_key b) message signature = true.

(** The capability [r] was issued in this step, by a command its issuer signed. *)
Definition grants (l : SysLog) (r : CapabilityRecord) : Prop :=
  match l with
  | LCap (CapIssue i1 _ _ q) (IssueAnswer (Ok (Issued r' _))) =>
      r' = r /\ ca_parent r = None /\
      signed_by i1 (ca_issuer r) (issue_root_command_message (si_command q)) (si_signature q) (ir_issued_at_ms (si_command q))
  | LCap (CapDelegate i1 _ _ q) (IssueAnswer (Ok (Issued r' _))) =>
      r' = r /\ ca_parent r = Some (dl_parent (sd_command q)) /\
      signed_by i1 (ca_issuer r) (delegate_command_message (sd_command q)) (sd_signature q) (dl_delegated_at_ms (sd_command q))
  | _ => False
  end.

(** The proof [g] was made in this step, from a signature of the principal. *)
Definition proves (l : SysLog) (g : VerifiedSemanticSigner) : Prop :=
  match l with
  | LProof i r (Ok g') =>
      g' = g /\ signed_by i (vg_principal_id g) (semantic_signature_message (vs_event_id r)) (vs_signature r) (vs_admitted_at_ms r)
  | _ => False
  end.

(** The capability [id] was revoked in this step. *)
Definition revokes (l : SysLog) (id : Z) : Prop :=
  match l with
  | LCap (CapRevoke _ _ _) (CapRevokeAnswer (Ok (CapabilityRevokedNow rc))) => cv_capability_id rc = id
  | _ => False
  end.

(** The capability [id] was used in this step, not a use replayed. *)
Definition uses (l : SysLog) (id : Z) : bool :=
  match l with
  | LCap (CapConsume _) (ConsumeAnswer (Ok (Consumed rc))) => bool_decide (cc_capability_id rc = id)
  | _ => false
  end.
Definition count_uses (tr : list SysLog) (id : Z) : Z := Z.of_nat (length (filter (fun l => uses l id = true) tr)).

(** ** What a command leaves behind *)

(** The abstract state still knows what was answered. *)
Definition remembers (a : AbsCaps) (l : SysLog) : Prop :=
  match l with
  | LCap (CapIssue _ _ _ q) (IssueAnswer (Ok (Issued r rc))) => let c := si_command q in
      ac_issued a !! ir_idempotency_key c = Some (root_request_digest c, (r, rc)) /\
      ac_caps a !! hd_capability_id (ca_handle r) = Some r /\
      validate_bounds (ir_valid_from_ms c) (ir_valid_until_ms c) (ir_call_limit c) = Ok ()
  | LCap (CapDelegate _ _ _ q) (IssueAnswer (Ok (Issued r rc))) => let c := sd_command q in
      ac_issued a !! dl_idempotency_key c = Some (delegate_request_digest c, (r, rc)) /\
      ac_caps a !! hd_capability_id (ca_handle r) = Some r /\
      validate_bounds (dl_valid_from_ms c) (dl_valid_until_ms c) (dl_call_limit c) = Ok ()
  | LCap (CapRevoke _ _ q) (CapRevokeAnswer (Ok (CapabilityRevokedNow rc))) => let c := sv_command q in
      ac_revocations a !! rp_idempotency_key c = Some (revoke_request_digest c, rc) /\ is_Some (ac_revoked a !! cv_capability_id rc)
  | LCap (CapConsume r) (ConsumeAnswer (Ok (Consumed rc))) =>
      ac_uses a !! co_idempotency_key r = Some (consume_request_digest r, rc)
  | _ => True
  end.

Lemma remembers_mono a a' l : cap_extends a a' -> remembers a l -> remembers a' l.
Proof.
  intros [Hc Hr Hi Hv Hu]. destruct l as [| |q x]; [done..|]. destruct q, x as [[[]|]|[[]|]|[[]|]|]; try done; cbn.
  1-2: intros (? & ? & ?); repeat split; [by eapply lookup_weaken..|done].
  - intros [? [t ?]]. split; [by eapply lookup_weaken|]. exists t. by eapply lookup_weaken.
  - intros ?. by eapply lookup_weaken.
Qed.

(** A fresh answer of a command and the state after it. *)
Lemma once_fresh {A B} (seen : option (Z * A)) digest (again : A -> B) fresh a a' x :
  answer_once seen digest again fresh a = Ok (a', x) -> (seen = None /\ fresh = Ok (a', x)) \/ (a' = a /\ exists y, x = again y).
Proof.
  unfold answer_once. destruct seen as [[dg y]|]; [|by left]. destruct (decide _); [|done]. intros [= <- <-]. right. by eauto.
Qed.

Lemma actor_Ok i1 i2 signer signature message key_id at_ms b :
  spec_actor i1 i2 signer signature message key_id at_ms = Ok b ->
  exists v, verify_command_signature i1 signer signature message at_ms = Ok v /\ cg_principal_id v = ib_principal_id b.
Proof.
  unfold spec_actor, require_signed_by. destruct (verify_command_signature _ _ _ _ _) as [v|]; [|done]. cbn.
  destruct (active_identity i2 key_id at_ms) as [b'|]; [|done]. cbn. destruct (decide _) as [[Hp _]|]; [|done]. intros [= ->]. by exists v.
Qed.

Lemma judge_Ok b at_ms message signature : judge b SemanticSigning at_ms message signature = Ok () ->
  ib_key_purpose b = SemanticSigning /\ ib_key_revoked_at_ms b = None /\ ib_key_valid_from_ms b <= at_ms <= ib_key_valid_until_ms b /\
  verify_strict (ib_public_key b) message signature = true.
Proof.
  unfold judge. destruct (decide _) as [|Hp]; [done|]. destruct (decide _) as [|Hr]; [done|]. destruct (decide _); [done|]. destruct (decide _); [done|].
  destruct (vk_from_bytes _); [|done]. cbn. destruct (verify_strict _ _ _) eqn:Ev; [|done]. intros _.
  apply dec_stable in Hp, Hr. repeat split; (done || lia).
Qed.

Lemma judged_signed i ai k b at_ms message signature : id_sim i ai -> ai_current ai !! k = Some b ->
  judge b SemanticSigning at_ms message signature = Ok () -> signed_by i (ib_principal_id b) message signature at_ms.
Proof.
  intros Hsim Hk (Hp & Hr & Hv & Hs)%judge_Ok. exists b. destruct (is_current _ _ Hsim _ _ Hk) as [Hkey _]. subst k.
  by rewrite (run_inspect Hsim), Hk.
Qed.

Lemma command_signed i ai signer signature message at_ms v : id_sim i ai ->
  verify_command_signature i signer signature message at_ms = Ok v -> signed_by i (cg_principal_id v) message signature at_ms.
Proof.
  intros Hsim. unfold verify_command_signature. destruct (sim_reads_agree Hsim) as (_ & _ & _ & _ & Hcmd). rewrite Hcmd. cbn.
  unfold spec_command. destruct (key_of ai signer) as [b|] eqn:Ek; [|done].
  destruct (judge b SemanticSigning at_ms message signature) as [[]|] eqn:Ej; [|done]. cbn. intros [= <-].
  unfold key_of in Ek. destruct (first_row _ _) as [[k b']|] eqn:Ef; [|done]. injection Ek as ->. apply first_row_Some in Ef as [Hk _].
  by eapply judged_signed.
Qed.

(** The identity tables a command verified its signature in. *)
Definition verified_in (q : CapRequest) : option IdDb :=
  match q with CapIssue i _ _ _ | CapDelegate i _ _ _ | CapRevoke i _ _ => Some i | _ => None end.

Lemma spec_issue_Ok a i1 i2 i3 q a' x : spec_issue a i1 i2 i3 q = Ok (a', x) -> let r := si_command q in
  (a' = a /\ exists y, x = issue_again y) \/
  (ac_issued a !! ir_idempotency_key r = None /\ validate_bounds (ir_valid_from_ms r) (ir_valid_until_ms r) (ir_call_limit r) = Ok () /\
   exists issuer holder,
     spec_actor i1 i2 (si_signer q) (si_signature q) (issue_root_command_message r) (ir_issuer_key_id r) (ir_issued_at_ms r) = Ok issuer /\
     (a', x) = spec_insert a (ir_idempotency_key r) (root_request_digest r) (ir_issued_at_ms r) (root_record r issuer holder)).
Proof.
  unfold spec_issue. cbn zeta. set (r := si_command q). destruct (validate_bounds _ _ _) as [[]|]; [|done]. cbn.
  intros [[Hn Hf]|Hrep]%once_fresh; [right|by left]. split; [done|]. split; [done|].
  destruct (spec_actor _ _ _ _ _ _ _) as [issuer|]; [|done]. cbn in Hf. destruct (active_identity _ _ _) as [holder|]; [|done].
  cbn in Hf. exists issuer, holder. split; [done|]. by injection Hf as <- <-.
Qed.

Lemma spec_delegate_Ok a i1 i2 i3 q a' x : spec_delegate a i1 i2 i3 q = Ok (a', x) -> let r := sd_command q in
  (a' = a /\ exists y, x = issue_again y) \/
  (ac_issued a !! dl_idempotency_key r = None /\ validate_bounds (dl_valid_from_ms r) (dl_valid_until_ms r) (dl_call_limit r) = Ok () /\
   exists delegator recipient, spec_delegator a i1 i2 i3 q = Ok (delegator, recipient) /\
     (a', x) = spec_insert a (dl_idempotency_key r) (delegate_request_digest r) (dl_delegated_at_ms r) (child_record r delegator recipient)).
Proof.
  unfold spec_delegate. cbn zeta. set (r := sd_command q). destruct (validate_bounds _ _ _) as [[]|]; [|done]. cbn.
  intros [[Hn Hf]|Hrep]%once_fresh; [right|by left]. split; [done|]. split; [done|].
  destruct (spec_delegator _ _ _ _ _) as [[delegator recipient]|]; [|done]. exists delegator, recipient. split; [done|]. by injection Hf as <- <-.
Qed.

Lemma delegator_Ok a i1 i2 i3 q b b' : spec_delegator a i1 i2 i3 q = Ok (b, b') -> let r := sd_command q in
  exists parent, spec_exact a (dl_parent r) = Ok parent /\ spec_active a parent (dl_delegated_at_ms r) = Ok () /\
    spec_actor i1 i2 (sd_signer q) (sd_signature q) (delegate_command_message r) (dl_delegator_key_id r) (dl_delegated_at_ms r) = Ok b.
Proof.
  unfold spec_delegator. cbn zeta. set (r := sd_command q). destruct (spec_exact _ _) as [parent|]; [|done]. cbn.
  destruct (spec_active _ _ _) as [[]|] eqn:Ea; [|done]. cbn. destruct (spec_actor _ _ _ _ _ _ _) as [delegator|]; [|done]. cbn.
  destruct (decide _); [done|]. destruct (active_identity _ _ _) as [recipient|]; [|done]. cbn. destruct (attenuation _ _); [|done]. cbn.
  intros [= <- <-]. by exists parent.
Qed.

Lemma spec_revoke_Ok a i1 i2 q a' x : spec_cap_revoke a i1 i2 q = Ok (a', x) -> let r := sv_command q in
  (a' = a /\ exists y, x = RevocationReplayed y) \/
  (ac_revocations a !! rp_idempotency_key r = None /\ exists revoker,
     a' = revoked_caps (a := a) (hd_capability_id (rp_handle r)) (rp_idempotency_key r) (revoke_request_digest r) (cap_revocation_receipt r revoker) /\
     x = CapabilityRevokedNow (cap_revocation_receipt r revoker)).
Proof.
  unfold spec_cap_revoke. cbn zeta. intros [[Hn Hf]|Hrep]%once_fresh; [right|by left]. split; [done|].
  destruct (spec_revoker _ _ _ _) as [revoker|]; [|done]. exists revoker. by injection Hf as <- <-.
Qed.

Lemma spec_consume_Ok a r a' x : spec_consume a r = Ok (a', x) ->
  (a' = a /\ exists y, x = ConsumptionReplayed y) \/
  (ac_uses a !! co_idempotency_key r = None /\ exists record,
     spec_admit a (co_handle r) (co_signer r) (co_target r) (co_required_right r) (co_purpose_digest r) (co_consumed_at_ms r) = Ok record /\
     a' = used_caps (a := a) (co_idempotency_key r) (consume_request_digest r) (use_receipt a r record) /\ x = Consumed (use_receipt a r record)).
Proof.
  unfold spec_consume. intros [[Hn Hf]|Hrep]%once_fresh; [right|by left]. split; [done|].
  destruct (spec_admit _ _ _ _ _ _ _) as [record|]; [|done]. cbn in Hf. destruct (decide _); [done|]. exists record. by injection Hf as <- <-.
Qed.

(** *** After a step of the abstract authority *)

Lemma step_remembers a q : remembers (spec_cap_step a q).1 (LCap q (spec_cap_step a q).2).
Proof.
  destruct q as [i1 i2 i3 q|i1 i2 i3 q|i1 i2 q|r|dies]; cbn [spec_cap_step]; [..|done].
  - destruct (spec_issue _ _ _ _ _) as [[a' x]|] eqn:Es; [|done].
    destruct (spec_issue_Ok _ _ _ _ _ _ _ Es) as [(-> & y & ->)|(_ & Hb & issuer & holder & _ & Hins)]; [done|]. injection Hins as -> ->.
    cbn. by rewrite !lookup_insert_eq.
  - destruct (spec_delegate _ _ _ _ _) as [[a' x]|] eqn:Es; [|done].
    destruct (spec_delegate_Ok _ _ _ _ _ _ _ Es) as [(-> & y & ->)|(_ & Hb & delegator & recipient & _ & Hins)]; [done|]. injection Hins as -> ->.
    cbn. by rewrite !lookup_insert_eq.
  - destruct (spec_cap_revoke _ _ _ _) as [[a' x]|] eqn:Es; [|done].
    destruct (spec_revoke_Ok _ _ _ _ _ _ Es) as [(-> & y & ->)|(_ & revoker & -> & ->)]; [done|]. cbn. rewrite !lookup_insert_eq. split; [done|by eexists].
  - destruct (spec_consume _ _) as [[a' x]|] eqn:Es; [|done].
    destruct (spec_consume_Ok _ _ _ _ Es) as [(-> & y & ->)|(_ & record & _ & -> & ->)]; [done|]. cbn. by rewrite lookup_insert_eq.
Qed.

Lemma step_grants a q id r : (forall i, verified_in q = Some i -> exists ai, id_sim i ai) ->
  ac_caps (spec_cap_step a q).1 !! id = Some r -> ac_caps a !! id = Some r \/ grants (LCap q (spec_cap_step a q).2) r.
Proof.
  intros Hi. destruct q as [i1 i2 i3 q|i1 i2 i3 q|i1 i2 q|u|dies]; cbn [spec_cap_step]; [..|by left].
  - destruct (spec_issue _ _ _ _ _) as [[a' x]|] eqn:Es; [|by left].
    destruct (spec_issue_Ok _ _ _ _ _ _ _ Es) as [(-> & y & ->)|(_ & Hb & issuer & holder & Hact & Hins)]; [by left|]. injection Hins as -> ->.
    cbn. intros [[_ <-]|[_ Hr]]%lookup_insert_Some; [right|by left]. split; [done|]. split; [done|].
    destruct (actor_Ok _ _ _ _ _ _ _ _ Hact) as (v & Hv & Hp). destruct (Hi _ eq_refl) as [ai Hsim]. cbn. rewrite <- Hp. by eapply command_signed.
  - destruct (spec_delegate _ _ _ _ _) as [[a' x]|] eqn:Es; [|by left].
    destruct (spec_delegate_Ok _ _ _ _ _ _ _ Es) as [(-> & y & ->)|(_ & Hb & delegator & recipient & Hd & Hins)]; [by left|]. injection Hins as -> ->.
    cbn. intros [[_ <-]|[_ Hr]]%lookup_insert_Some; [right|by left]. split; [done|]. split; [done|].
    destruct (delegator_Ok _ _ _ _ _ _ _ Hd) as (parent & _ & _ & Hact).
    destruct (actor_Ok _ _ _ _ _ _ _ _ Hact) as (v & Hv & Hp). destruct (Hi _ eq_refl) as [ai Hsim]. cbn. rewrite <- Hp. by eapply command_signed.
  - destruct (spec_cap_revoke _ _ _ _) as [[a' x]|] eqn:Es; [|by left].
    destruct (spec_revoke_Ok _ _ _ _ _ _ Es) as [(-> & y & ->)|(_ & revoker & -> & ->)]; by left.
  - destruct (spec_consume _ _) as [[a' x]|] eqn:Es; [|by left].
    destruct (spec_consume_Ok _ _ _ _ Es) as [(-> & y & ->)|(_ & record & _ & -> & ->)]; by left.
Qed.

Lemma step_used a q id : used (spec_cap_step a q).1 id = used a id + (if uses (LCap q (spec_cap_step a q).2) id then 1 else 0).
Proof.
  destruct q as [i1 i2 i3 q|i1 i2 i3 q|i1 i2 q|r|dies]; cbn [spec_cap_step]; [..|by rewrite Z.add_0_r].
  - destruct (spec_issue _ _ _ _ _) as [[a' x]|] eqn:Es; [|by rewrite Z.add_0_r].
    destruct (spec_issue_Ok _ _ _ _ _ _ _ Es) as [(-> & y & ->)|(_ & _ & issuer & holder & _ & Hins)]; [|injection Hins as -> ->]; by rewrite Z.add_0_r.
  - destruct (spec_delegate _ _ _ _ _) as [[a' x]|] eqn:Es; [|by rewrite Z.add_0_r].
    destruct (spec_delegate_Ok _ _ _ _ _ _ _ Es) as [(-> & y & ->)|(_ & _ & b & b' & _ & Hins)]; [|injection Hins as -> ->]; by rewrite Z.add_0_r.
  - destruct (spec_cap_revoke _ _ _ _) as [[a' x]|] eqn:Es; [|by rewrite Z.add_0_r].
    destruct (spec_revoke_Ok _ _ _ _ _ _ Es) as [(-> & y & ->)|(_ & revoker & -> & ->)]; by rewrite Z.add_0_r.
  - destruct (spec_consume _ _) as [[a' x]|] eqn:Es; [|by rewrite Z.add_0_r].
    destruct (spec_consume_Ok _ _ _ _ Es) as [(-> & y & ->)|(Hkey & record & _ & -> & ->)]; [by rewrite Z.add_0_r|].
    cbn [fst snd]. rewrite used_after by done. cbn. by destruct (decide _), (bool_decide_reflect (hd_capability_id (ca_handle record) = id)).
Qed.

(** ** Every reachable state *)

Record sys_inv (tr : list SysLog) (s : System) (ai : AbsIdentity) (ac : AbsCaps) : Prop := {
  sx_identity : id_sim (sy_identity s) ai;
  sx_caps : cap_sim (sy_caps s) ac;
  sx_remembers : forall l, l ∈ tr -> remembers ac l;
  sx_granted : forall id r, ac_caps ac !! id = Some r -> exists l, l ∈ tr /\ grants l r;
  sx_revoked : forall id t, ac_revoked ac !! id = Some t -> exists l, l ∈ tr /\ revokes l id;
  sx_proofs : forall g, g ∈ sy_signers s -> exists l, l ∈ tr /\ proves l g;
  sx_uses : forall id, count_uses tr id = used ac id;
}.

Lemma new_caps_sim : cap_sim new_capability_file no_capabilities.
Proof. split; try done. intros id g. unfold version_of. cbn. by repeat destruct (decide _). Qed.

Lemma count_uses_snoc tr l id : count_uses (tr ++ [l]) id = count_uses tr id + (if uses l id then 1 else 0).
Proof.
  unfold count_uses. rewrite filter_app, length_app, filter_cons. destruct (uses l id); [rewrite decide_True by done|rewrite decide_False by done];
    cbn; lia.
Qed.

Lemma id_after_sim i ai b : id_sim i ai -> Forall id_request_ok b -> exists ai', id_sim (id_after i b) ai'.
Proof. intros Hs Hb. destruct (run_sim b i ai Hs Hb) as (a' & ? & _). by exists a'. Qed.

Lemma step_revoked a q id t : ac_revoked (spec_cap_step a q).1 !! id = Some t ->
  ac_revoked a !! id = Some t \/ revokes (LCap q (spec_cap_step a q).2) id.
Proof.
  destruct q as [i1 i2 i3 q|i1 i2 i3 q|i1 i2 q|u|dies]; cbn [spec_cap_step]; [..|by left].
  - destruct (spec_issue _ _ _ _ _) as [[a' x]|] eqn:Es; [|by left].
    destruct (spec_issue_Ok _ _ _ _ _ _ _ Es) as [(-> & y & ->)|(_ & _ & b & b' & _ & Hins)]; [|injection Hins as -> ->]; by left.
  - destruct (spec_delegate _ _ _ _ _) as [[a' x]|] eqn:Es; [|by left].
    destruct (spec_delegate_Ok _ _ _ _ _ _ _ Es) as [(-> & y & ->)|(_ & _ & b & b' & _ & Hins)]; [|injection Hins as -> ->]; by left.
  - destruct (spec_cap_revoke _ _ _ _) as [[a' x]|] eqn:Es; [|by left].
    destruct (spec_revoke_Ok _ _ _ _ _ _ Es) as [(-> & y & ->)|(_ & revoker & -> & ->)]; [by left|].
    cbn. intros [[<- _]|[_ Hr]]%lookup_insert_Some; [by right|by left].
  - destruct (spec_consume _ _) as [[a' x]|] eqn:Es; [|by left].
    destruct (spec_consume_Ok _ _ _ _ Es) as [(-> & y & ->)|(_ & record & _ & -> & ->)]; by left.
Qed.

Lemma remembers_refused a q e : remembers a (LCap q (refused_with q e)).
Proof. by destruct q. Qed.
Lemma uses_refused q e id : uses (LCap q (refused_with q e)) id = false.
Proof. by destruct q. Qed.

(** A capability request, its reads of identities going through [i], ending in [i']. *)
Lemma command_inv tr s ai ac q i' ai' : sys_inv tr s ai ac -> id_sim i' ai' -> cap_request_ok q ->
  (forall i, verified_in q = Some i -> exists ai, id_sim i ai) ->
  exists ac', sys_inv (tr ++ [(command s i' q).2]) (command s i' q).1 ai' ac' /\ cap_extends ac ac'.
Proof.
  intros Hinv Hi' Hok Hv. pose proof (cap_step_implements (sx_caps _ _ _ _ Hinv) q Hok) as Hstep. unfold command.
  destruct (cap_step (sy_caps s) q) as [d x]. cbn [fst snd] in *. destruct Hstep as [(-> & Hext & Hs)|(e & -> & -> & _)].
  - exists (spec_cap_step ac q).1. split; [|done]. split; cbn [sy_identity sy_caps sy_signers]; [done|done|..].
    + intros l [Hl| ->%list_elem_of_singleton]%elem_of_app; [by eapply remembers_mono, (sx_remembers _ _ _ _ Hinv)|apply step_remembers].
    + intros id r Hr. destruct (step_grants _ _ _ _ Hv Hr) as [Hold|Hnew]; [|set_solver].
      destruct (sx_granted _ _ _ _ Hinv _ _ Hold) as (l & Hl & Hg). set_solver.
    + intros id t Ht. destruct (step_revoked _ _ _ _ Ht) as [Hold|Hnew]; [|set_solver].
      destruct (sx_revoked _ _ _ _ Hinv _ _ Hold) as (l & Hl & Hg). set_solver.
    + intros g Hg. destruct (sx_proofs _ _ _ _ Hinv g Hg) as (l & Hl & Hp). set_solver.
    + intros id. by rewrite count_uses_snoc, step_used, (sx_uses _ _ _ _ Hinv).
  - exists ac. split; [|done]. split; cbn [sy_identity sy_caps sy_signers]; [done|apply Hinv|..].
    + intros l [Hl| ->%list_elem_of_singleton]%elem_of_app; [by apply (sx_remembers _ _ _ _ Hinv)|apply remembers_refused].
    + intros id r Hr. destruct (sx_granted _ _ _ _ Hinv _ _ Hr) as (l & Hl & Hg). set_solver.
    + intros id t Ht. destruct (sx_revoked _ _ _ _ Hinv _ _ Ht) as (l & Hl & Hg). set_solver.
    + intros g Hg. destruct (sx_proofs _ _ _ _ Hinv g Hg) as (l & Hl & Hp). set_solver.
    + intros id. by rewrite count_uses_snoc, uses_refused, Z.add_0_r, (sx_uses _ _ _ _ Hinv).
Qed.

(** A step that leaves the capabilities alone. *)
Lemma other_inv tr s ai ac l i' ai' gs : sys_inv tr s ai ac -> id_sim i' ai' -> remembers ac l -> (forall id, uses l id = false) ->
  (forall g, g ∈ gs -> g ∈ sy_signers s \/ proves l g) ->
  sys_inv (tr ++ [l]) {| sy_identity := i'; sy_caps := sy_caps s; sy_signers := gs |} ai' ac.
Proof.
  intros Hinv Hi Hl Hu Hg. split; cbn [sy_identity sy_caps sy_signers]; [done|apply Hinv|..].
  - intros l' [Hl'| ->%list_elem_of_singleton]%elem_of_app; [by apply (sx_remembers _ _ _ _ Hinv)|done].
  - intros id r Hr. destruct (sx_granted _ _ _ _ Hinv _ _ Hr) as (l' & ? & ?). set_solver.
  - intros id t Ht. destruct (sx_revoked _ _ _ _ Hinv _ _ Ht) as (l' & ? & ?). set_solver.
  - intros g Hgs. destruct (Hg g Hgs) as [Hold|Hnew]; [|set_solver]. destruct (sx_proofs _ _ _ _ Hinv g Hold) as (l' & ? & ?). set_solver.
  - intros id. by rewrite count_uses_snoc, Hu, Z.add_0_r, (sx_uses _ _ _ _ Hinv).
Qed.

Lemma proof_signed i ai r g : id_sim i ai -> (run_tx (verify_semantic_signature r) i).2 = Ok g ->
  signed_by i (vg_principal_id g) (semantic_signature_message (vs_event_id r)) (vs_signature r) (vs_admitted_at_ms r).
Proof.
  intros Hsim. destruct (sim_reads_agree Hsim) as (_ & Hsem & _). rewrite Hsem. unfold spec_judge_key.
  destruct (ai_current ai !! vs_key_id r) as [b|] eqn:Ek; [|done]. destruct (decide _); [done|].
  destruct (judge _ _ _ _ _) as [[]|] eqn:Ej; [|done]. cbn. intros [= <-]. by eapply judged_signed.
Qed.

Lemma reads_sim i ai b1 b2 b3 : id_sim i ai -> Forall id_request_ok (b1 ++ b2 ++ b3) ->
  (exists a1, id_sim (id_after i b1) a1) /\ (exists a2, id_sim (id_after (id_after i b1) b2) a2) /\
  exists a3, id_sim (id_after (id_after (id_after i b1) b2) b3) a3.
Proof.
  intros Hs Hb. rewrite !Forall_app in Hb. destruct Hb as (H1 & H2 & H3). destruct (id_after_sim _ _ _ Hs H1) as [a1 Ha1].
  destruct (id_after_sim _ _ _ Ha1 H2) as [a2 Ha2]. destruct (id_after_sim _ _ _ Ha2 H3) as [a3 Ha3]. split; [by exists a1|]. split; [by exists a2|by exists a3].
Qed.

Lemma sys_step_inv tr s ai ac ev s' l : sys_inv tr s ai ac -> event_ok ev -> sys_step s ev = Some (s', l) ->
  exists ai' ac', sys_inv (tr ++ [l]) s' ai' ac' /\ cap_extends ac ac'.
Proof.
  intros Hinv Hok Hstep. pose proof (sx_identity _ _ _ _ Hinv) as Hid.
  assert (Hcmd : forall i' ai' q, id_sim i' ai' -> cap_request_ok q -> (forall i, verified_in q = Some i -> exists ai, id_sim i ai) ->
    Some (command s i' q) = Some (s', l) -> exists ai' ac', sys_inv (tr ++ [l]) s' ai' ac' /\ cap_extends ac ac').
  { intros i' ai' q Hi Hq Hv Hc. destruct (command_inv _ _ _ _ q i' ai' Hinv Hi Hq Hv) as (ac' & Hinv' & Hext).
    injection Hc as Hc. rewrite Hc in Hinv'. by eauto. }
  destruct ev as [q|r|b1 b2 b3 q|b1 b2 b3 q|b1 b2 q|r|dies]; cbn [sys_step event_ok] in *; cbv zeta in Hstep.
  - pose proof (id_step_implements _ _ q Hid Hok) as Himp. destruct (id_step (sy_identity s) q) as [i x]. injection Hstep as <- <-.
    assert (exists ai', id_sim i ai') as [ai' Hi] by (destruct Himp as [(_ & _ & ?)|(e & _ & -> & _)]; by eauto).
    exists ai', ac. split; [|done]. apply (other_inv _ _ _ _ _ _ _ _ Hinv Hi); [done|done|by left].
  - injection Hstep as <- <-. exists ai, ac. split; [|done]. apply (other_inv _ _ _ _ _ _ _ _ Hinv Hid); [done|done|].
    intros g Hg. destruct (run_tx (verify_semantic_signature r) (sy_identity s)).2 as [g'|] eqn:Eg; [|by left].
    apply elem_of_cons in Hg as [-> |Hg]; [right; split; [done|by eapply proof_signed]|by left].
  - destruct Hok as [Hb Hq]. destruct (reads_sim _ _ _ _ _ Hid Hb) as (H1 & _ & [a3 H3]). eapply Hcmd, Hstep; [done..|]. by intros i [= <-].
  - destruct Hok as [Hb Hq]. destruct (reads_sim _ _ _ _ _ Hid Hb) as (H1 & _ & [a3 H3]). eapply Hcmd, Hstep; [done..|]. by intros i [= <-].
  - destruct Hok as [Hb Hq]. destruct (reads_sim _ _ b1 b2 [] Hid) as (H1 & [a2 H2] & _); [by rewrite app_nil_r|].
    eapply Hcmd, Hstep; [done..|]. by intros i [= <-].
  - destruct (decide _); [|done]. by eapply Hcmd, Hstep.
  - by eapply Hcmd, Hstep.
Qed.

Lemma reaches_inv tr s : reaches tr s -> exists ai ac, sys_inv tr s ai ac.
Proof.
  induction 1 as [|tr s ev s' l _ (ai & ac & IH) Hok Hstep].
  - exists no_identities, no_capabilities. split; [apply new_file_sim|apply new_caps_sim|set_solver|done|done|set_solver|done].
  - destruct (sys_step_inv _ _ _ _ _ _ _ IH Hok Hstep) as (ai' & ac' & Hinv & _). by eauto.
Qed.

(** ** Attenuation composes *)

Lemma contains_trans x y z : contains x y = true -> contains y z = true -> contains x z = true.
Proof.
  unfold contains. rewrite !bool_decide_eq_true. intros Hxy Hyz. by rewrite <- Hyz, Z.land_assoc, Hxy.
Qed.

Lemma prefix_len_last len b n : prefix_len len b = S n -> nth n b 0 <> 0 /\ (S n <= len)%nat.
Proof.
  induction len as [|len IH]; [done|]. cbn. destruct (decide _) as [|Hne]; [intros Hl%IH; destruct Hl; split; [done|lia]|].
  intros [= <-]. split; [done|lia].
Qed.

Lemma prefix_len_covers len b n : (n < len)%nat -> nth n b 0 <> 0 -> (S n <= prefix_len len b)%nat.
Proof.
  induction len as [|len IH]; [lia|]. intros Hn Hne. cbn. destruct (decide _) as [Heq|]; [|lia].
  apply IH; [|done]. destruct (decide (n = len)) as [->|]; [done|lia].
Qed.

Lemma namespace_within_trans c b a : namespace_is_within c b = true -> namespace_is_within b a = true -> namespace_is_within c a = true.
Proof.
  unfold namespace_is_within, namespace_prefix_len. set (ca := be_bytes 16 a). set (cb := be_bytes 16 b). set (cc := be_bytes 16 c).
  rewrite !bool_decide_eq_true. intros Hcb Hba. destruct (prefix_len 16 ca) as [|n] eqn:En; [done|].
  destruct (prefix_len_last _ _ _ En) as [Hne Hlen]. assert (Hnth : nth n cb 0 <> 0).
  { assert (Htake : forall l, nth n (take (S n) l) 0 = nth n l 0) by (intros l; rewrite nth_firstn; destruct (Nat.ltb_spec n (S n)); [done|lia]).
    by rewrite <- Htake, Hba, Htake. }
  pose proof (prefix_len_covers 16 cb n ltac:(lia) Hnth) as Hcov.
  rewrite <- Hba, <- (Nat.min_l (S n) (prefix_len 16 cb)) by lia. by rewrite <- !take_take, Hcb.
Qed.

Lemma target_within_trans t c p : target_is_within t c = true -> target_is_within c p = true -> target_is_within t p = true.
Proof.
  destruct t, c, p; cbn; try done; [apply namespace_within_trans|]. rewrite !bool_decide_eq_true. congruence.
Qed.

(** The capabilities from [c] over the ones it was delegated from to a root. *)
Fixpoint linked (c : CapabilityRecord) (rest : list CapabilityRecord) : Prop :=
  match rest with
  | [] => ca_parent c = None
  | p :: rest => ca_parent c = Some (ca_handle p) /\ attenuates p c /\ linked p rest
  end.

(** What the first of a chain gives, all of them give. *)
Definition covers (target : CapabilityTarget) (right : Z) (purpose : option Z) (c : CapabilityRecord) : Prop :=
  contains (ca_rights c) right = true /\ target_is_within target (ca_target c) = true /\
  (ca_purpose_digest c = None \/ ca_purpose_digest c = purpose).

Lemma covers_up target right purpose p c : attenuates p c -> covers target right purpose c -> covers target right purpose p.
Proof.
  intros Hat (Hr & Ht & Hp). split; [eapply contains_trans, Hr; apply (at_rights _ _ Hat)|]. split; [eapply target_within_trans, (at_target _ _ Hat); done|].
  pose proof (at_purpose _ _ Hat) as Hpur. unfold purpose_is_attenuated in Hpur. destruct (ca_purpose_digest p) as [x|], (ca_purpose_digest c) as [y|]; auto; [|done].
  apply bool_decide_eq_true in Hpur. subst y. done.
Qed.

Lemma linked_covers target right purpose c rest : linked c rest -> covers target right purpose c -> Forall (covers target right purpose) (c :: rest).
Proof.
  revert c. induction rest as [|p rest IH]; intros c Hl Hc; [by apply Forall_singleton|]. destruct Hl as (_ & Hat & Hl).
  constructor; [done|]. apply IH; [done|]. by eapply covers_up.
Qed.

(** *** The chain the authority walked *)

Definition stands (a : AbsCaps) (at_ms : Z) (c : CapabilityRecord) : Prop :=
  ac_caps a !! hd_capability_id (ca_handle c) = Some c /\ ac_revoked a !! hd_capability_id (ca_handle c) = None /\
  ca_valid_from_ms c <= at_ms <= ca_valid_until_ms c.

Lemma stops_None e at_ms r : stops e at_ms r = None -> ca_revoked_at_ms r = None /\ ca_valid_from_ms r <= at_ms <= ca_valid_until_ms r.
Proof.
  unfold stops. destruct (decide _) as [|Hu]; [done|]. do 2 (destruct (decide _); [done|]). intros _. apply dec_stable in Hu. split; [done|lia].
Qed.

Lemma no_stop e at_ms rs : head (omap (stops e at_ms) rs) = None -> Forall (fun r => stops e at_ms r = None) rs.
Proof. induction rs as [|r rs IH]; [constructor|]. cbn. destruct (stops e at_ms r) eqn:Es; [done|]. intros. constructor; auto. Qed.

Lemma ancestors_stand a m at_ms id r : caps_ok a -> ac_caps a !! id = Some r -> 255 - ca_delegation_depth_remaining r <= Z.of_nat m ->
  Forall (fun c => stops AncestorRevokedOrFenced at_ms c = None) (ancestors m a r) ->
  linked r (ancestors m a r) /\ Forall (stands a at_ms) (ancestors m a r).
Proof.
  intros Hok. revert id r. induction m as [|m IH]; intros id r Hr Hm Hall; pose proof (co_record _ Hok _ _ Hr) as Hrec.
  - cbn. split; [|constructor]. destruct (ca_parent r) as [h|] eqn:Eh; [|done]. destruct (ro_parent _ _ _ Hrec h Eh) as [_ (p & Hp & Hat)].
    pose proof (at_depth _ _ Hat). pose proof (ro_depth _ _ _ (co_record _ Hok _ _ Hp)). lia.
  - cbn [ancestors] in *. destruct (ca_parent r) as [h|] eqn:Eh; [|by split; [|constructor]]. cbn [mbind option_bind] in *.
    destruct (ro_parent _ _ _ Hrec h Eh) as [Hg (p & Hp & Hat)]. pose proof (at_depth _ _ Hat). pose proof (ro_handle _ _ _ (co_record _ Hok _ _ Hp)) as Hh.
    unfold cap_current in *. rewrite Hp in *. cbn [mbind option_bind] in *. apply Forall_cons in Hall as [[Hu Hv]%stops_None Hall].
    destruct (ac_revoked a !! hd_capability_id h) as [t|] eqn:Et; [done|]. cbn [as_of] in *.
    destruct (IH _ _ Hp ltac:(lia) Hall) as [Hl Hst]. split.
    + split; [|done]. rewrite Eh, Hh. destruct h; cbn in *. by subst.
    + constructor; [|done]. unfold stands. by rewrite Hh.
Qed.

Lemma active_chain d a handle r at_ms : cap_sim d a -> spec_exact a handle = Ok r -> spec_active a r at_ms = Ok () ->
  ca_handle r = handle /\ exists rest, linked r rest /\ Forall (stands a at_ms) (r :: rest).
Proof.
  intros Hsim Hex Hac. destruct (active_unrevoked Hsim _ _ _ Hex Hac) as (Hr & Hrev & Hg). pose proof (cs_ok _ _ Hsim) as Hok.
  pose proof (co_record _ Hok _ _ Hr) as Hrec. pose proof (ro_handle _ _ _ Hrec) as Hh. split; [rewrite Hh; destruct handle; cbn in *; by subst|].
  unfold spec_active, ancestry, first_stop in Hac. destruct (stops CapabilityRevoked at_ms r) eqn:Es; [done|].
  destruct (head _) eqn:Ehd; [done|]. apply no_stop in Ehd. pose proof (ro_depth _ _ _ Hrec).
  destruct (ancestors_stand a 255 at_ms _ _ Hok Hr ltac:(lia) Ehd) as [Hl Hst]. exists (ancestors 255 a r). split; [done|].
  apply stops_None in Es as [_ Hv]. constructor; [|done]. unfold stands. by rewrite Hh.
Qed.

(** ** Every authorization goes back to a root *)

(** The log bears out the chain from [c] to a root for a use at [at_ms]: every capability of
    it was issued by a command its issuer signed, was never revoked, is valid then and
    allows the use. *)
Record traced (tr : list SysLog) (c : CapabilityRecord) (rest : list CapabilityRecord) (target : CapabilityTarget) (right : Z)
    (purpose : option Z) (at_ms : Z) : Prop := {
  tc_linked : linked c rest;
  tc_granted : forall r, r ∈ c :: rest -> exists l, l ∈ tr /\ grants l r;
  tc_unrevoked : forall r l, r ∈ c :: rest -> l ∈ tr -> ~ revokes l (hd_capability_id (ca_handle r));
  tc_valid : forall r, r ∈ c :: rest -> ca_valid_from_ms r <= at_ms <= ca_valid_until_ms r;
  tc_covers : forall r, r ∈ c :: rest -> covers target right purpose r;
}.

Lemma remembers_revoked a l id : remembers a l -> revokes l id -> is_Some (ac_revoked a !! id).
Proof. destruct l as [| |[] [[[]|]|[[]|]|[[]|]|]]; try done; cbn. by intros [_ ?] <-. Qed.

Lemma admitted_traced tr s ai ac handle signer target right purpose at_ms c : sys_inv tr s ai ac ->
  spec_admit ac handle signer target right purpose at_ms = Ok c ->
  ca_handle c = handle /\ ca_holder c = vg_principal_id signer /\ ca_holder_control_domain c = vg_control_domain_id signer /\
  exists rest, traced tr c rest target right purpose at_ms.
Proof.
  intros Hinv. unfold spec_admit. destruct (spec_exact ac handle) as [r|] eqn:Ex; [|done]. cbn.
  destruct (spec_active ac r at_ms) as [[]|] eqn:Ea; [|done]. cbn. destruct (decide _) as [|Hholder]; [done|].
  destruct (target_is_within target (ca_target r)) eqn:Et; [|done]. destruct (contains (ca_rights r) right) eqn:Er; [|done]. cbn.
  destruct (decide _) as [|Hp]; [done|]. intros [= <-].
  destruct (active_chain _ _ _ _ _ (sx_caps _ _ _ _ Hinv) Ex Ea) as (Hh & rest & Hl & Hst). split; [done|].
  split; [symmetry; apply dec_stable; tauto|]. split; [symmetry; apply dec_stable; tauto|]. exists rest. rewrite Forall_forall in Hst.
  split; [done|..].
  - intros c Hc. destruct (Hst c Hc) as (Hcaps & _). by eapply sx_granted.
  - intros c l Hc Hlt Hrev. destruct (Hst c Hc) as (_ & Hn & _). destruct (remembers_revoked _ _ _ (sx_remembers _ _ _ _ Hinv _ Hlt) Hrev) as [t Ht]. congruence.
  - intros c Hc. by destruct (Hst c Hc) as (_ & _ & ?).
  - apply Forall_forall, linked_covers; [done|]. split; [done|]. split; [done|]. right. by apply dec_stable.
Qed.

Lemma run_consume_fresh tr s ai ac r rc : sys_inv tr s ai ac -> cap_request_ok (CapConsume r) ->
  (run_tx (consume r) (sy_caps s)).2 = Ok (Consumed rc) ->
  exists c, spec_admit ac (co_handle r) (co_signer r) (co_target r) (co_required_right r) (co_purpose_digest r) (co_consumed_at_ms r) = Ok c /\
    rc = use_receipt ac r c.
Proof.
  intros Hinv Hok Hrun. pose proof (run_wp _ _ _ _ (consume_implements (sx_caps _ _ _ _ Hinv) r Hok)) as Hspec.
  rewrite Hrun in Hspec. destruct Hspec as (a' & Hs & _). destruct (spec_consume_Ok _ _ _ _ Hs) as [(_ & y & ?)|(_ & c & Hc & _ & [= ->])]; [done|]. by exists c.
Qed.

(** C7. No authority without a root. In every state the two authorities can reach
    together, whoever is authorized for an operation, or has a use of a capability
    counted, proved a signature and is the holder of the capability; and from that
    capability a chain of delegations leads to a root, of which every link was issued by a
    command signed with the then current key of its issuer, the holder of the link above,
    and gives at most the rights, scope, purpose, validity, limit and depth of the link
    above; every link was never revoked, is valid at the time and itself allows the
    operation. *)
Theorem authority_traces_to_root (tr : list SysLog) (s : System) : reaches tr s ->
  (forall r x, az_signer r ∈ sy_signers s -> (run_tx (authorize_semantic r) (sy_caps s)).2 = Ok x ->
     exists c rest, ca_handle c = az_handle r /\ ca_holder c = vg_principal_id (az_signer r) /\
       (exists l, l ∈ tr /\ proves l (az_signer r)) /\
       traced tr c rest (az_target r) (az_required_right r) (az_purpose_digest r) (az_admitted_at_ms r)) /\
  (forall r rc, co_signer r ∈ sy_signers s -> 0 <= co_consumed_at_ms r -> (run_tx (consume r) (sy_caps s)).2 = Ok (Consumed rc) ->
     exists c rest, ca_handle c = co_handle r /\ ca_holder c = vg_principal_id (co_signer r) /\
       (exists l, l ∈ tr /\ proves l (co_signer r)) /\
       traced tr c rest (co_target r) (co_required_right r) (co_purpose_digest r) (co_consumed_at_ms r)).
Proof.
  intros (ai & ac & Hinv)%reaches_inv. split.
  - intros r x Hg Hrun. rewrite (run_authorize (sx_caps _ _ _ _ Hinv)) in Hrun. unfold spec_authorize in Hrun. cbn in Hrun.
    destruct (spec_admit _ _ _ _ _ _ _) as [c|] eqn:Ea; [|done].
    destruct (admitted_traced _ _ _ _ _ _ _ _ _ _ _ Hinv Ea) as (Hh & Hho & _ & rest & Ht). exists c, rest.
    split; [done|]. split; [done|]. split; [by eapply sx_proofs|done].
  - intros r rc Hg Hok Hrun. destruct (run_consume_fresh _ _ _ _ _ _ Hinv Hok Hrun) as (c & Ea & _).
    destruct (admitted_traced _ _ _ _ _ _ _ _ _ _ _ Hinv Ea) as (Hh & Hho & _ & rest & Ht). exists c, rest.
    split; [done|]. split; [done|]. split; [by eapply sx_proofs|done].
Qed.

(** ** Revocation reaches what was delegated *)

(** In the log, [id] is [anc] or was delegated from a capability that descends from it. *)
Inductive descends (tr : list SysLog) (anc : Z) : Z -> Prop :=
  | descends_self : descends tr anc anc
  | descends_child r h l : l ∈ tr -> grants l r -> ca_parent r = Some h -> descends tr anc (hd_capability_id h) ->
      descends tr anc (hd_capability_id (ca_handle r)).

Lemma granted_stored a l r : remembers a l -> grants l r -> ac_caps a !! hd_capability_id (ca_handle r) = Some r.
Proof. destruct l as [| |[] [[[]|]|[[]|]|[[]|]|]]; try done; cbn; by intros (_ & ? & _) (-> & _). Qed.

(** A chain that stands has nothing revoked behind it. *)
Lemma descendant_dead tr s ai ac anc id t : sys_inv tr s ai ac -> ac_revoked ac !! anc = Some t -> descends tr anc id ->
  forall r rest at_ms, hd_capability_id (ca_handle r) = id -> linked r rest -> Forall (stands ac at_ms) (r :: rest) -> False.
Proof.
  intros Hinv Hrev. induction 1 as [|c h l Hl Hg Hp _ IH]; intros r rest at_ms Hid Hlink Hst; apply Forall_cons in Hst as [(Hcaps & Hn & _) Hst].
  - rewrite Hid in Hn. congruence.
  - pose proof (granted_stored _ _ _ (sx_remembers _ _ _ _ Hinv l Hl) Hg) as Hc. rewrite Hid in Hcaps. assert (r = c) as -> by congruence.
    destruct rest as [|p rest]; cbn in Hlink; [congruence|]. destruct Hlink as (Hpp & _ & Hlink). rewrite Hp in Hpp. injection Hpp as ->.
    by apply (IH p rest at_ms).
Qed.

(** Nobody can use the capability any more, look it up as an active one or delegate from it. *)
Record cap_dead (d : CapDb) (id : Z) : Prop := {
  cd_authorize : forall r x, hd_capability_id (az_handle r) = id -> (run_tx (authorize_semantic r) d).2 <> Ok x;
  cd_consume : forall r rc, hd_capability_id (co_handle r) = id -> cap_request_ok (CapConsume r) -> (run_tx (consume r) d).2 <> Ok (Consumed rc);
  cd_delegate : forall i1 i2 i3 q r rc, hd_capability_id (dl_parent (sd_command q)) = id -> cap_request_ok (CapDelegate i1 i2 i3 q) ->
    (run_tx (delegate_signed i1 i2 i3 q) d).2 <> Ok (Issued r rc);
  cd_inspect : forall handle at_ms r, hd_capability_id handle = id -> (run_tx (inspect_active handle at_ms) d).2 <> Ok r;
}.

Lemma descendant_inactive tr s ai ac anc t handle r at_ms : sys_inv tr s ai ac -> ac_revoked ac !! anc = Some t ->
  descends tr anc (hd_capability_id handle) -> spec_exact ac handle = Ok r -> spec_active ac r at_ms <> Ok ().
Proof.
  intros Hinv Hrev Hd Hex Hac. destruct (active_chain _ _ _ _ _ (sx_caps _ _ _ _ Hinv) Hex Hac) as (Hh & rest & Hl & Hst).
  by apply (descendant_dead _ _ _ _ _ _ _ Hinv Hrev Hd r rest at_ms); [rewrite Hh|..].
Qed.

Lemma descendant_not_admitted tr s ai ac anc t handle signer target right purpose at_ms r : sys_inv tr s ai ac ->
  ac_revoked ac !! anc = Some t -> descends tr anc (hd_capability_id handle) -> spec_admit ac handle signer target right purpose at_ms <> Ok r.
Proof.
  intros Hinv Hrev Hd. unfold spec_admit. destruct (spec_exact ac handle) as [c|] eqn:Ex; [|done]. cbn.
  pose proof (descendant_inactive _ _ _ _ _ _ _ _ at_ms Hinv Hrev Hd Ex). by destruct (spec_active ac c at_ms) as [[]|].
Qed.

(** C8. Revocation is transitive and final: once a capability has been revoked, then in
    every state reached later neither it nor any capability delegated from it, directly or
    over any number of delegations, authorizes an operation, has a use counted, is the
    parent of a new delegation or is shown as active, whatever else is asked of the two
    authorities and however often they are reopened. *)
Theorem revocation_reaches_descendants (tr : list SysLog) (s : System) (l : SysLog) (anc id : Z) :
  reaches tr s -> l ∈ tr -> revokes l anc -> descends tr anc id -> cap_dead (sy_caps s) id.
Proof.
  intros (ai & ac & Hinv)%reaches_inv Hl Hr Hd. pose proof (sx_caps _ _ _ _ Hinv) as Hsim.
  destruct (remembers_revoked _ _ _ (sx_remembers _ _ _ _ Hinv l Hl) Hr) as [t Ht]. split.
  - intros r x <- Hrun. rewrite (run_authorize Hsim) in Hrun. unfold spec_authorize in Hrun.
    destruct (spec_admit _ _ _ _ _ _ _) as [c|] eqn:Ea; [|done]. by eapply (descendant_not_admitted _ _ _ _ _ _ _ _ _ _ _ _ _ Hinv Ht Hd).
  - intros r rc <- Hok Hrun. destruct (run_consume_fresh _ _ _ _ _ _ Hinv Hok Hrun) as (c & Ea & _).
    by eapply (descendant_not_admitted _ _ _ _ _ _ _ _ _ _ _ _ _ Hinv Ht Hd).
  - intros i1 i2 i3 q r rc <- Hok Hrun. pose proof (run_wp _ _ _ _ (delegate_implements Hsim i1 i2 i3 q Hok)) as Hspec. rewrite Hrun in Hspec.
    destruct Hspec as (a' & Hs & _). destruct (spec_delegate_Ok _ _ _ _ _ _ _ Hs) as [(_ & y & ?)|(_ & _ & b & b' & Hdel & _)]; [done|].
    destruct (delegator_Ok _ _ _ _ _ _ _ Hdel) as (p & Hex & Hac & _). by eapply (descendant_inactive _ _ _ _ _ _ _ _ _ Hinv Ht Hd Hex).
  - intros handle at_ms r <- Hrun. rewrite (run_inspect_active Hsim) in Hrun. unfold spec_inspect in Hrun.
    destruct (spec_exact ac handle) as [c|] eqn:Ex; [|done]. cbn in Hrun. destruct (spec_active ac c at_ms) as [[]|] eqn:Ea; [|done].
    by eapply (descendant_inactive _ _ _ _ _ _ _ _ _ Hinv Ht Hd Ex).
Qed.

(** ** Limits *)

Lemma reaches_split tr s tr1 l tr2 : reaches tr s -> tr = tr1 ++ l :: tr2 ->
  exists s1 ev s2, reaches tr1 s1 /\ event_ok ev /\ sys_step s1 ev = Some (s2, l).
Proof.
  intros Hr. revert tr2. induction Hr as [|tr s ev s' l' Hr IH Hok Hstep]; intros tr2 Heq; [by destruct tr1|].
  destruct tr2 as [|l2 tr2 _] using rev_ind.
  - apply app_inj_tail in Heq as [-> ->]. by exists s, ev, s'.
  - rewrite app_comm_cons, app_assoc in Heq. apply app_inj_tail in Heq as [-> ->]. by eapply IH.
Qed.

Lemma consume_logged s ev s' q rc : sys_step s ev = Some (s', LCap (CapConsume q) (ConsumeAnswer (Ok (Consumed rc)))) -> event_ok ev ->
  cap_request_ok (CapConsume q) /\ (run_tx (consume q) (sy_caps s)).2 = Ok (Consumed rc).
Proof.
  destruct ev as [q'|r|b1 b2 b3 q'|b1 b2 b3 q'|b1 b2 q'|r|dies]; cbn [sys_step]; unfold command, cap_step; cbv zeta.
  - by destruct (id_step _ _).
  - done.
  - by destruct (run_tx _ _).
  - by destruct (run_tx _ _).
  - by destruct (run_tx _ _).
  - destruct (decide _); [|done]. destruct (run_tx _ _) as [d x] eqn:Er. intros [= <- <- <-] Hok. by rewrite Er.
  - by destruct (cap_open _ _).
Qed.

Lemma use_receipt_left tr s ai ac q c : sys_inv tr s ai ac ->
  spec_admit ac (co_handle q) (co_signer q) (co_target q) (co_required_right q) (co_purpose_digest q) (co_consumed_at_ms q) = Ok c ->
  let id := hd_capability_id (co_handle q) in
  (exists l, l ∈ tr /\ grants l c) /\ hd_capability_id (ca_handle c) = id /\
  cc_remaining (use_receipt ac q c) = left_after (ca_call_limit c) (count_uses tr id + 1).
Proof.
  intros Hinv Ha id. destruct (admit_unrevoked (sx_caps _ _ _ _ Hinv) _ _ _ _ _ _ _ Ha) as (Hc & _).
  pose proof (ro_handle _ _ _ (co_record _ (cs_ok _ _ (sx_caps _ _ _ _ Hinv)) _ _ Hc)) as Hh.
  split; [by eapply sx_granted|]. unfold use_receipt. rewrite Hh. cbn. by rewrite (sx_uses _ _ _ _ Hinv).
Qed.

Lemma active_not_exhausted a r at_ms : spec_active a r at_ms <> Err CallLimitExhausted.
Proof.
  assert (Hs : forall e x r', stops e at_ms r' = Some x -> x = e \/ x = CapabilityNotYetValid \/ x = CapabilityExpired).
  { intros e x r'. unfold stops. repeat (destruct (decide _); [intros [= <-]; by auto|]). done. }
  unfold spec_active, first_stop, ancestry. destruct (stops CapabilityRevoked at_ms r) as [e|] eqn:Es.
  { intros [= ->]. by destruct (Hs _ _ _ Es) as [|[|]]. }
  destruct (head _) as [e|] eqn:Eh; [|done]. intros [= ->]. apply head_Some_elem_of, list_elem_of_omap in Eh as (r' & _ & Hr').
  by destruct (Hs _ _ _ Hr') as [|[|]].
Qed.

Lemma exhausted_spent a q : spec_consume a q = Err CallLimitExhausted ->
  exists c, spec_admit a (co_handle q) (co_signer q) (co_target q) (co_required_right q) (co_purpose_digest q) (co_consumed_at_ms q) = Ok c /\
    ca_call_limit c = Some (used a (hd_capability_id (ca_handle c))).
Proof.
  unfold spec_consume, answer_once. destruct (ac_uses a !! _) as [[dg x]|]; [by destruct (decide _)|].
  destruct (spec_admit _ _ _ _ _ _ _) as [c|e] eqn:Ea; cbn.
  - destruct (decide _); [|done]. by exists c.
  - intros [= ->]. exfalso. revert Ea. unfold spec_admit, spec_exact.
    destruct (cap_current _ _) as [c|]; [|done]. destruct (decide _); [done|]. cbn.
    pose proof (active_not_exhausted a c (co_consumed_at_ms q)). destruct (spec_active _ _ _); [|intros [= ->]; done]. cbn.
    destruct (decide _); [done|]. destruct (target_is_within _ _); [|done]. destruct (contains _ _); [|done]. cbn. by destruct (decide _).
Qed.

(** C18. Limits hold. A capability issued with a limit of [n] uses never has more than [n]
    of them counted, replays not included; the receipt of each use says how many are left
    after it, and asking for the rest gives what the uses so far leave; and a use is
    refused as exhausted only when all [n] were counted. *)
Theorem call_limits_hold (tr : list SysLog) (s : System) (l : SysLog) (r : CapabilityRecord) (n : Z) :
  reaches tr s -> l ∈ tr -> grants l r -> ca_call_limit r = Some n ->
  let id := hd_capability_id (ca_handle r) in
  count_uses tr id <= n /\
  (forall tr1 tr2 q rc, tr = tr1 ++ LCap (CapConsume q) (ConsumeAnswer (Ok (Consumed rc))) :: tr2 -> cc_capability_id rc = id ->
     cc_remaining rc = Some (n - count_uses tr1 id - 1)) /\
  (forall handle x, hd_capability_id handle = id -> (run_tx (call_limit_remaining handle) (sy_caps s)).2 = Ok x ->
     x = Some (n - count_uses tr id)) /\
  (forall q, hd_capability_id (co_handle q) = id -> cap_request_ok (CapConsume q) ->
     (run_tx (consume q) (sy_caps s)).2 = Err CallLimitExhausted -> count_uses tr id = n).
Proof.
  intros Hreach Hl Hg Hn id. destruct (reaches_inv _ _ Hreach) as (ai & ac & Hinv). pose proof (sx_caps _ _ _ _ Hinv) as Hsim.
  pose proof (granted_stored _ _ _ (sx_remembers _ _ _ _ Hinv l Hl) Hg) as Hr. fold id in Hr.
  split; [|split; [|split]].
  - rewrite (sx_uses _ _ _ _ Hinv). destruct (limit_used Hsim _ _ _ Hr Hn). lia.
  - intros tr1 tr2 q rc Htr Hid. destruct (reaches_split _ _ _ _ _ Hreach Htr) as (s1 & ev & s2 & Hr1 & Hok & Hstep).
    destruct (reaches_inv _ _ Hr1) as (ai1 & ac1 & Hinv1). destruct (consume_logged _ _ _ _ _ Hstep Hok) as [Hq Hrun].
    destruct (run_consume_fresh _ _ _ _ _ _ Hinv1 Hq Hrun) as (c & Ha & ->). destruct (use_receipt_left _ _ _ _ _ _ Hinv1 Ha) as ((l' & Hl' & Hg') & Hc & ->).
    cbn in Hid. assert (l' ∈ tr) as Hin by (subst tr; set_solver).
    pose proof (granted_stored _ _ _ (sx_remembers _ _ _ _ Hinv l' Hin) Hg') as Hc'. rewrite Hid, Hr in Hc'. injection Hc' as <-.
    rewrite Hn, <- Hc, Hid. cbn. f_equal. lia.
  - intros handle x Hid Hrun. rewrite (run_remaining Hsim) in Hrun. unfold spec_remaining in Hrun.
    destruct (spec_exact ac handle) as [c|] eqn:Ex; [|done]. destruct (exact_current _ _ Ex) as (c0 & Hc0 & -> & _). rewrite Hid, Hr in Hc0. injection Hc0 as <-.
    destruct (as_of_fields r (ac_revoked ac !! hd_capability_id handle)) as (_ & _ & _ & Hlim). cbn in Hrun. rewrite Hlim, Hn, Hid in Hrun. injection Hrun as <-.
    cbn. by rewrite (sx_uses _ _ _ _ Hinv).
  - intros q Hid Hok Hrun. pose proof (run_wp _ _ _ _ (consume_implements Hsim q Hok)) as Hspec. rewrite Hrun in Hspec. destruct Hspec as [Hspec _].
    destruct Hspec as [Hspec|[[? _]|[? _]]]; [|done..]. destruct (exhausted_spent _ _ Hspec) as (c & Ha & Hspent).
    destruct (admit_unrevoked Hsim _ _ _ _ _ _ _ Ha) as (Hc & _). rewrite Hid, Hr in Hc. injection Hc as <-.
    rewrite Hn in Hspent. injection Hspent as ->. by rewrite (sx_uses _ _ _ _ Hinv).
Qed.

(** ** Answered commands *)

(** A transaction that only finds the answer given before. *)
Lemma run_found {A} d (m : cap_tx A) (r : result CapabilityAuthorityError A) :
  wp m (fun x d' => r = Ok x /\ d' = d) (fun e => r = Err e) d -> run_tx m d = (d, r).
Proof. unfold wp, run_tx. destruct (m d) as [[x d']|e]; [by intros [-> ->]|by intros ->]. Qed.

(** The answer to a command whose key was used for the digest [dg] before. *)
Definition found_again {A B} (dg digest : Z) (again : A -> B) (x : A) : result CapabilityAuthorityError B :=
  if decide (dg = digest) then Ok (again x) else Err CapIdempotencyConflict.

Section found.
Context {d : CapDb} {a : AbsCaps} (Hsim : cap_sim d a).

Lemma issue_found i1 i2 i3 q dg x : let c := si_command q in ac_issued a !! ir_idempotency_key c = Some (dg, x) ->
  validate_bounds (ir_valid_from_ms c) (ir_valid_until_ms c) (ir_call_limit c) = Ok () ->
  run_tx (issue_root_signed i1 i2 i3 q) d = (d, found_again dg (root_request_digest c) issue_again x).
Proof.
  intros c Hk Hb. apply run_found. unfold issue_root_signed, found_again. cbn zeta. fold c. wp_pure. eapply wp_lift_Ok; [done|]. wp_pure.
  apply (wp_issue_replay Hsim). unfold replay_gives. rewrite Hk. destruct (decide _); [by wp_pure|done].
Qed.

Lemma delegate_found i1 i2 i3 q dg x : let c := sd_command q in ac_issued a !! dl_idempotency_key c = Some (dg, x) ->
  validate_bounds (dl_valid_from_ms c) (dl_valid_until_ms c) (dl_call_limit c) = Ok () ->
  run_tx (delegate_signed i1 i2 i3 q) d = (d, found_again dg (delegate_request_digest c) issue_again x).
Proof.
  intros c Hk Hb. apply run_found. unfold delegate_signed, found_again. cbn zeta. fold c. wp_pure. eapply wp_lift_Ok; [done|]. wp_pure.
  apply (wp_issue_replay Hsim). unfold replay_gives. rewrite Hk. destruct (decide _); [by wp_pure|done].
Qed.

Lemma revoke_found i1 i2 q dg x : let c := sv_command q in ac_revocations a !! rp_idempotency_key c = Some (dg, x) ->
  run_tx (revoke_signed i1 i2 q) d = (d, found_again dg (revoke_request_digest c) RevocationReplayed x).
Proof.
  intros c Hk. apply run_found. unfold revoke_signed, found_again. cbn zeta. fold c. wp_pure.
  apply (wp_revocation_replay Hsim). unfold replay_gives. rewrite Hk. destruct (decide _); [by wp_pure|done].
Qed.

Lemma consume_found r dg x : ac_uses a !! co_idempotency_key r = Some (dg, x) ->
  run_tx (consume r) d = (d, found_again dg (consume_request_digest r) ConsumptionReplayed x).
Proof.
  intros Hk. apply run_found. unfold consume, found_again. cbn zeta. wp_pure.
  apply (wp_use_replay Hsim). unfold replay_gives. rewrite Hk. destruct (decide _); [by wp_pure|done].
Qed.
End found.


(** ** Refinement *)

(** In every state the reads agree with the abstract state, and every request is answered
    as the abstract authority answers it or refused for a cause, changing nothing. *)
Definition cap_reads_agree (d : CapDb) (a : AbsCaps) : Prop :=
  (forall r, run_tx (authorize_semantic r) d = (d, spec_authorize a r)) /\
  (forall handle at_ms, run_tx (inspect_active handle at_ms) d = (d, spec_inspect a handle at_ms)) /\
  (forall handle, run_tx (call_limit_remaining handle) d = (d, spec_remaining a handle)).
Fixpoint cap_follows (d : CapDb) (a : AbsCaps) (qs : list CapRequest) : Prop :=
  cap_reads_agree d a /\
  match qs with
  | [] => True
  | q :: qs =>
      let '(d', x) := cap_step d q in
      (x = (spec_cap_step a q).2 /\ cap_follows d' (spec_cap_step a q).1 qs) \/
      (exists e, x = refused_with q e /\ cap_refusal a q e /\ d' = d /\ cap_follows d' a qs)
  end.

Lemma cap_sim_follows qs d a : cap_sim d a -> Forall cap_request_ok qs -> cap_follows d a qs.
Proof.
  revert d a. induction qs as [|q qs IH]; intros d a Hsim Hok;
    (split; [split; [intros; by apply run_authorize|split; intros; [by apply run_inspect_active|by apply run_remaining]]|]); [done|].
  apply Forall_cons in Hok as [Hq Hok]. pose proof (cap_step_implements Hsim q Hq) as Hstep. destruct (cap_step d q) as [d' x].
  destruct Hstep as [(Hx & _ & Hs)|(e & Hx & Hd & Hr)]; cbn in *; [left; split; [done|by apply IH]|right].
  exists e. subst d'. split; [done|]. split; [done|]. split; [done|by apply IH].
Qed.

(** What an interrupted open can leave behind. *)
Definition cap_migration_state (d : CapDb) : Prop :=
  d ∈ [no_capability_file; (cap_open true no_capability_file).1; new_capability_file].

Lemma cap_open_stays d b : cap_migration_state d -> cap_migration_state (cap_open b d).1 /\ cap_open false d = (new_capability_file, Ok ()).
Proof.
  unfold cap_migration_state. rewrite !elem_of_cons. intros [-> |[-> |[-> |Hd]]]; [..|by apply not_elem_of_nil in Hd];
    destruct b; vm_compute; tauto.
Qed.

(** C9. The capability authority implements the abstract one. However often the first open
    is interrupted by a crash, a full open leaves a new authority; from there, under any
    sequence of issuances, delegations, revocations, uses and reopens, each with identity
    tables of its own at each read, every request and every read is answered as the
    abstract authority answers it, in particular no stored record is ever found corrupt
    and no chain of ancestors too long; and a request is otherwise refused, changing
    nothing, only because an identifier it derives was derived before or SQLite cannot hold
    one of its numbers. *)
Theorem capability_refines (opens : list bool) (qs : list CapRequest) : Forall cap_request_ok qs ->
  cap_open false (foldl (fun d b => (cap_open b d).1) no_capability_file opens) = (new_capability_file, Ok ()) /\
  cap_follows new_capability_file no_capabilities qs.
Proof.
  intros Hok. split; [|by apply cap_sim_follows; [apply new_caps_sim|]].
  assert (Hgen : forall d, cap_migration_state d -> cap_migration_state (foldl (fun d b => (cap_open b d).1) d opens)).
  { induction opens as [|b opens IH]; [done|]. intros d Hd. apply IH. by apply (cap_open_stays d b). }
  apply (cap_open_stays _ false), Hgen. apply list_elem_of_here.
Qed.
End system.

(** ** Examples *)

Fixpoint sys_exec {H : Sha256} {E : Ed25519} (s : System) (evs : list SysEvent) : option (System * list SysLog) :=
  match evs with
  | [] => Some (s, [])
  | ev :: evs =>
      match sys_step s ev with
      | None => None
      | Some (s, l) => match sys_exec s evs with None => None | Some (s, tr) => Some (s, l :: tr) end
      end
  end.

Lemma exec_reaches {H : Sha256} {E : Ed25519} evs tr s s' tr' : reaches tr s -> Forall event_ok evs ->
  sys_exec s evs = Some (s', tr') -> reaches (tr ++ tr') s'.
Proof.
  revert tr s tr'. induction evs as [|ev evs IH]; intros tr s tr' Hr Hok Hx; cbn in Hx.
  - injection Hx as <- <-. by rewrite app_nil_r.
  - apply Forall_cons in Hok as [Hev Hok]. destruct (sys_step s ev) as [[s1 l]|] eqn:Es; [|done].
    destruct (sys_exec s1 evs) as [[s2 tr2]|] eqn:Ee; [|done]. injection Hx as <- <-.
    rewrite (cons_middle l). rewrite app_assoc. eapply IH; [|done|done]. by eapply reaches_step.
Qed.

(** A second principal, to whom the first one delegates half of what it has. *)
Definition other_boot : BootstrapPrincipalRequest :=
  {| br_profile_digest := 8; br_policy_digest := 2 ^ 202; br_public_key := 2 ^ 203; br_key_purpose := SemanticSigning;
     br_key_valid_from_ms := 10; br_key_valid_until_ms := 1000; br_idempotency_key := 2 ^ 100; br_created_at_ms := 5 |}.
Definition other_binding : IdentityBinding := Eval vm_compute in bootstrap_binding (H := checksum_hasher) other_boot.

Definition sample_root : SignedIssueRootCapabilityRequest :=
  let c := {| ir_issuer_key_id := ib_key_id sample_binding; ir_holder_key_id := ib_key_id sample_binding;
              ir_target := NamespaceTarget (2 ^ 120); ir_rights := 9; ir_purpose_digest := None; ir_valid_from_ms := 10;
              ir_valid_until_ms := 500; ir_delegation_depth_remaining := 3; ir_call_limit := None;
              ir_idempotency_key := 2 ^ 110; ir_issued_at_ms := 20 |} in
  {| si_command := c; si_signer := ib_principal_id sample_binding;
     si_signature := 2 ^ 200 + issue_root_command_message (H := checksum_hasher) c |}.
Definition sample_root_handle : CapabilityHandle := Eval vm_compute in
  {| hd_capability_id := derive_id (H := checksum_hasher) "nlos/capability/id/v1" [be_bytes 32 (root_request_digest (H := checksum_hasher) (si_command sample_root))];
     hd_generation := 1 |}.

Definition sample_delegation : SignedDelegateCapabilityRequest :=
  let c := {| dl_parent := sample_root_handle; dl_delegator_key_id := ib_key_id sample_binding;
              dl_recipient_key_id := ib_key_id other_binding; dl_target := NamespaceTarget (2 ^ 120 + 2 ^ 112); dl_rights := 1;
              dl_purpose_digest := None; dl_valid_from_ms := 20; dl_valid_until_ms := 400; dl_delegation_depth_remaining := 2;
              dl_call_limit := Some 1; dl_idempotency_key := 2 ^ 111; dl_delegated_at_ms := 30 |} in
  {| sd_command := c; sd_signer := ib_principal_id sample_binding;
     sd_signature := 2 ^ 200 + delegate_command_message (H := checksum_hasher) c |}.
Definition sample_handle : CapabilityHandle := Eval vm_compute in
  {| hd_capability_id := derive_id (H := checksum_hasher) "nlos/capability/id/v1" [be_bytes 32 (delegate_request_digest (H := checksum_hasher) (sd_command sample_delegation))];
     hd_generation := 1 |}.

Definition sample_event : VerifySemanticSignatureRequest :=
  {| vs_event_id := 77; vs_issuer := ib_principal_id other_binding; vs_control_domain_id := ib_control_domain_id other_binding;
     vs_key_id := ib_key_id other_binding; vs_signature := 2 ^ 203 + semantic_signature_message (H := checksum_hasher) 77;
     vs_admitted_at_ms := 40 |}.
Definition sample_signer : VerifiedSemanticSigner :=
  {| vg_principal_id := ib_principal_id other_binding; vg_control_domain_id := ib_control_domain_id other_binding;
     vg_identity_snapshot_id := ib_identity_snapshot_id other_binding; vg_snapshot_generation := 1; vg_key_id := ib_key_id other_binding;
     vg_key_generation := 1 |}.

Definition sample_use : ConsumeCapabilityRequest :=
  {| co_handle := sample_handle; co_signer := sample_signer; co_target := NamespaceTarget (2 ^ 120 + 2 ^ 112 + 5);
     co_required_right := SEMANTIC_APPEND; co_purpose_digest := None; co_idempotency_key := 9; co_consumed_at_ms := 50 |}.
Definition sample_check : AuthorizeSemanticRequest :=
  {| az_handle := sample_handle; az_signer := sample_signer; az_target := NamespaceTarget (2 ^ 120 + 2 ^ 112 + 5);
     az_required_right := SEMANTIC_APPEND; az_purpose_digest := None; az_admitted_at_ms := 50 |}.

Definition sample_cap_revocation : SignedRevokeCapabilityRequest :=
  let c := {| rp_handle := sample_root_handle; rp_revoker_key_id := ib_key_id sample_binding; rp_idempotency_key := 4; rp_revoked_at_ms := 60 |} in
  {| sv_command := c; sv_signer := ib_principal_id sample_binding;
     sv_signature := 2 ^ 200 + revoke_command_message (H := checksum_hasher) c |}.

Definition sample_events : list SysEvent :=
  [EIdentity (IdBootstrap sample_boot); EIssue [IdBootstrap other_boot] [] [] sample_root; EDelegate [] [] [] sample_delegation;
   EProof sample_event; EConsume sample_use].


Definition sample_log (more : list SysEvent) : option (System * list SysLog) :=
  sys_exec (H := checksum_hasher) (E := sum_signatures) new_system (sample_events ++ more).

Lemma sample_reaches more s tr : Forall event_ok more -> sample_log more = Some (s, tr) ->
  reaches (H := checksum_hasher) (E := sum_signatures) tr s.
Proof.
  intros Hok Hx. unfold sample_log in Hx. change tr with ([] ++ tr). eapply exec_reaches; [apply reaches_start| |exact Hx].
  clear Hx. apply Forall_app. split; [|done]. unfold sample_events. repeat (apply Forall_cons; split); cbn [event_ok cap_request_ok].
  - by split.
  - split; [by repeat constructor|]. by change (issue_fields_ok 9 10 3 20 None).
  - split; [constructor|]. change (issue_fields_ok 1 20 2 30 (Some 1)). repeat split; try done. by intros l [= <-].
  - exact I.
  - by change (0 <= 50).
  - constructor.
Qed.

(** What was issued, was issued by a signed command. *)
Lemma logged_granted {H : Sha256} {E : Ed25519} tr s l r : reaches tr s -> l ∈ tr ->
  match l with LCap (CapIssue _ _ _ _ | CapDelegate _ _ _ _) (IssueAnswer (Ok (Issued r' _))) => r' = r | _ => False end ->
  exists l', l' ∈ tr /\ grants l' r.
Proof.
  intros (ai & ac & Hinv)%reaches_inv Hl Hr. pose proof (sx_remembers _ _ _ _ Hinv l Hl) as Hrem.
  destruct l as [| |[] [[[]|]|[[]|]|[[]|]|]]; try done; cbn in Hr, Hrem; subst; destruct Hrem as (_ & Hc & _); by eapply sx_granted.
Qed.

Lemma authority_traces_to_root_witness :
  exists s tr, sample_log [] = Some (s, tr) /\
  exists c rest, ca_handle c = sample_handle /\ ca_holder c = ib_principal_id other_binding /\
    traced (H := checksum_hasher) (E := sum_signatures) tr c rest (az_target sample_check) SEMANTIC_APPEND None 50.
Proof.
  assert (Hx : match sample_log [] with
    | Some (s, _) => bool_decide (sample_signer ∈ sy_signers s) &&
        match (run_tx (authorize_semantic sample_check) (sy_caps s)).2 with Ok _ => true | Err _ => false end
    | None => false end = true) by (vm_compute; reflexivity).
  destruct (sample_log []) as [[s tr]|] eqn:Es; [|discriminate Hx]. apply andb_true_iff in Hx as [Hg%bool_decide_eq_true Ha].
  destruct (run_tx (authorize_semantic sample_check) (sy_caps s)).2 as [x|] eqn:Ex; [|discriminate Ha]. exists s, tr. split; [reflexivity|].
  destruct (proj1 (authority_traces_to_root (H := checksum_hasher) (E := sum_signatures) tr s (sample_reaches [] s tr (Forall_nil_2 _) Es))
    sample_check x Hg Ex) as (c & rest & Hh & Hho & _ & Ht). exists c, rest. exact (conj Hh (conj Hho Ht)).
Defined.

(** The capability issued in a step, and the one revoked in it. *)
Definition issued_in (l : SysLog) : option CapabilityRecord :=
  match l with LCap (CapIssue _ _ _ _ | CapDelegate _ _ _ _) (IssueAnswer (Ok (Issued r _))) => Some r | _ => None end.
Definition revoked_in (l : SysLog) : option Z :=
  match l with LCap (CapRevoke _ _ _) (CapRevokeAnswer (Ok (CapabilityRevokedNow rc))) => Some (cv_capability_id rc) | _ => None end.

Lemma issued_granted {H : Sha256} {E : Ed25519} tr s n r : reaches tr s -> (tr !! n ≫= issued_in) = Some r -> exists l, l ∈ tr /\ grants l r.
Proof.
  intros Hr Hn. destruct (tr !! n) as [l|] eqn:El; [|done]. eapply (logged_granted tr s l r Hr); [by eapply list_elem_of_lookup_2|].
  cbn in Hn. destruct l as [| |[] [[[]|]|[[]|]|[[]|]|]]; try done; by injection Hn.
Qed.

Lemma revoked_revokes (tr : list SysLog) (n : nat) (id : Z) : (tr !! n ≫= revoked_in) = Some id -> exists l, l ∈ tr /\ revokes l id.
Proof.
  intros Hn. destruct (tr !! n) as [l|] eqn:El; [|done]. exists l. split; [by eapply list_elem_of_lookup_2|].
  cbn in Hn. destruct l as [| |[] [[[]|]|[[]|]|[[]|]|]]; try done; by injection Hn.
Qed.

Lemma revocation_reaches_descendants_witness :
  exists s tr, sample_log [ERevoke [] [] sample_cap_revocation] = Some (s, tr) /\
    cap_dead (H := checksum_hasher) (E := sum_signatures) (sy_caps s) (hd_capability_id sample_handle).
Proof.
  assert (Hx : match sample_log [ERevoke [] [] sample_cap_revocation] with
    | Some (_, tr) => bool_decide ((tr !! 5%nat ≫= revoked_in) = Some (hd_capability_id sample_root_handle)) &&
        match tr !! 2%nat ≫= issued_in with
        | Some r => bool_decide (ca_parent r = Some sample_root_handle /\ hd_capability_id (ca_handle r) = hd_capability_id sample_handle)
        | None => false end
    | None => false end = true) by (vm_compute; reflexivity).
  assert (Hok : Forall event_ok [ERevoke [] [] sample_cap_revocation]).
  { apply Forall_singleton. split; [constructor|]. by change (0 <= 60). }
  destruct (sample_log _) as [[s tr]|] eqn:Es; [|discriminate Hx]. apply andb_true_iff in Hx as [Hrev%bool_decide_eq_true Hchild].
  destruct (tr !! 2%nat ≫= issued_in) as [r|] eqn:Er; [|discriminate Hchild]. apply bool_decide_eq_true in Hchild as [Hp Hid].
  exists s, tr. split; [reflexivity|]. pose proof (sample_reaches _ s tr Hok Es) as Hr. clear Es.
  destruct (revoked_revokes _ _ _ Hrev) as (l & Hl & Hlr).
  destruct (issued_granted (H := checksum_hasher) (E := sum_signatures) _ _ _ _ Hr Er) as (l' & Hl' & Hg).
  refine (revocation_reaches_descendants (H := checksum_hasher) (E := sum_signatures) tr s l (hd_capability_id sample_root_handle) _ Hr Hl Hlr _).
  rewrite <- Hid. exact (descends_child _ _ r sample_root_handle l' Hl' Hg Hp (descends_self _ _)).
Defined.

Lemma call_limits_hold_witness :
  exists s tr r, sample_log [] = Some (s, tr) /\ ca_call_limit r = Some 1 /\ count_uses tr (hd_capability_id (ca_handle r)) = 1 /\
    (forall q, hd_capability_id (co_handle q) = hd_capability_id (ca_handle r) -> cap_request_ok (CapConsume q) ->
       (run_tx (consume (H := checksum_hasher) q) (sy_caps s)).2 = Err CallLimitExhausted -> count_uses tr (hd_capability_id (ca_handle r)) = 1).
Proof.
  assert (Hx : match sample_log [] with
    | Some (_, tr) => match tr !! 2%nat ≫= issued_in with
        | Some r => bool_decide (ca_call_limit r = Some 1 /\ count_uses tr (hd_capability_id (ca_handle r)) = 1)
        | None => false end
    | None => false end = true) by (vm_compute; reflexivity).
  destruct (sample_log []) as [[s tr]|] eqn:Es; [|discriminate Hx].
  destruct (tr !! 2%nat ≫= issued_in) as [r|] eqn:Er; [|discriminate Hx]. apply bool_decide_eq_true in Hx as [Hl Hc].
  pose proof (sample_reaches [] s tr (Forall_nil_2 _) Es) as Hr. clear Es.
  destruct (issued_granted (H := checksum_hasher) (E := sum_signatures) _ _ _ _ Hr Er) as (l & Hin & Hg).
  exists s, tr, r. split; [reflexivity|]. split; [exact Hl|]. split; [exact Hc|].
  exact (proj2 (proj2 (proj2 (call_limits_hold (H := checksum_hasher) (E := sum_signatures) tr s l r 1 Hr Hin Hg Hl)))).
Defined.


Lemma capability_refines_witness :
  let i := (id_run (H := checksum_hasher) (E := sum_signatures) new_identity_file [IdBootstrap sample_boot; IdBootstrap other_boot]).1 in
  let qs := [CapIssue i i i sample_root; CapDelegate i i i sample_delegation; CapConsume sample_use; CapReopen true;
             CapRevoke i i sample_cap_revocation; CapConsume sample_use] in
  cap_open false (foldl (fun d b => (cap_open b d).1) no_capability_file [true; true; false; true]) = (new_capability_file, Ok ()) /\
  cap_follows (H := checksum_hasher) (E := sum_signatures) new_capability_file no_capabilities qs.
Proof.
  cbv zeta. apply (capability_refines (H := checksum_hasher) (E := sum_signatures) [true; true; false; true]).
  repeat (apply Forall_cons; split); cbn [cap_request_ok].
  - by change (issue_fields_ok 9 10 3 20 None).
  - change (issue_fields_ok 1 20 2 30 (Some 1)). repeat split; try done. by intros l [= <-].
  - by change (0 <= 50).
  - exact I.
  - by change (0 <= 60).
  - by change (0 <= 50).
  - constructor.
Defined.
